(* ===== verification/_CoqProject ===== *)
-Q . S2P
Prelude.v
OverflowCheck.v
ShapeSymbol.v
SymbolSolver.v
ShapeConstraint.v
Broadcast.v
DataTypes.v
OperatorSchema.v
OperatorInference.v
Graph.v
Topology.v
GraphInvariant.v
RewriteSession.v
RewriteResolve.v
RewriteInvariant.v
RewriteCommit.v
RewriteEmission.v
GraphPasses.v
DeadCode.v
FloatFormat.v
FloatText.v
ReducedFloat.v
OpParamsSerde.v
SizeClasses.v
SpanAlloc.v
SpanList.v
PageMap.v
PageCache.v
CentralCache.v
ThreadCache.v
Allocator.v
Workspace.v
KVCache.v
KernelRegistry.v
Lowering.v
Tensor.v
OperatorExec.v
Prepack.v
ExecutionPlan.v
AmStringSearch.v
AmStringLayout.v
AmStringCore.v
AmString.v
AmStringLife.v
GraphOpBuilder.v
HfModel.v
LlamaGraph.v
HfJson.v
Safetensors.v
HfDirectory.v
ModelPipeline.v
ConstEval.v
ConstantFolding.v
CpuKernels.v
