(* ===== verification/Prelude.v ===== *)
(** * A verification of the AetherMind inference engine

    AetherMind compiles transformer models into a graph of typed operators,
    infers symbolic shapes for it, rewrites and lowers it into an execution plan,
    and runs the plan over a key/value cache with scratch memory, its own memory
    allocator and its own containers. This library models the parts that decide
    whether a compiled graph, the plan and the memory under it are right, and
    proves their properties. Every definition that translates code is preceded by
    a comment giving the file, the lines and the symbol it translates.

    ** Program parts and files

    Foundations.
    - [Prelude] (this file): status codes and results
      ([include/aethermind/base/status.h]) as the error monad [Res], whose third
      outcome [Panic] is a failed [AM_CHECK] or [AM_DCHECK], an out-of-range access
      or any other abort; computations over a memory ([Exec]); integers of width
      [w] on [Z] with explicit wrap-around; tactics ([res_inv], [bsplit], [zcases],
      [dlia]); list and loop lemmas.
    - [OverflowCheck]: [include/utils/overflow_check.h], builtin and portable
      branches, and the checked product.
    - [DataTypes]: the packed descriptor of [include/aethermind/dtypes/data_type.h].
    - [FloatFormat], [FloatText]: the floating-point environment on bit patterns and
      its six-digit text. [ReducedFloat]: [src/dtypes/half.cpp], [bfloat16.cpp],
      [float8_e4m3fn.cpp], [float8_e5m2.cpp].

    Shapes and operators.
    - [ShapeSymbol], [SymbolSolver], [ShapeConstraint], [Broadcast]:
      [src/shape_inference/]. A dimension is static, a symbol or unknown; a
      valuation gives symbols their run-time sizes and [shape_denotes] relates
      symbolic to concrete shapes. The solver is the union-find with ranks, path
      compression and static bindings.
    - [OperatorSchema], [OperatorInference]: [src/operators/]. The schema registry
      and all sixteen shape-inference functions with their dispatch.
      [OperatorSemantics] is the interface the graph layer relies on;
      [OperatorInference] provides its instance.
    - [OpParamsSerde]: the textual form of operator parameters.
    - [OperatorExec]: the operator registry, [Prepare] and [Run] of the registered
      operators and the run-time binding context; kernels are the class [Kernels].

    Graphs.
    - [Graph], [Topology], [GraphInvariant]: [src/graph/graph.cpp] and its headers.
      Node and value tables, every builder, whole-graph validation, the
      topological sort, the consumer index; [graph_step] is one interface call.
    - [RewriteSession], [RewriteResolve], [RewriteInvariant], [RewriteCommit],
      [RewriteEmission]: [src/graph/optimization/graph_rewrite.cpp]. Edits of a
      session, value resolution with its cache, the invariant between calls, the
      commit, and the committed graph against a plan read off the session.
    - [GraphPasses], [DeadCode]: the pass manager, dead code elimination, SiLU-Mul
      fusion.
    - [GraphOpBuilder]: [src/graph/graph_op_builder.cpp], the helpers that add one
      operator with its weights to a graph.
    - [ConstEval], [ConstantFolding]: the constant evaluators
      ([src/graph/optimization/const_eval_*.cpp]), the folding pass and
      [src/graph/compilation/graph_compiler.cpp]. Constants are lists of bytes.
    - [Lowering]: [src/graph/compilation/graph_lowering.cpp], state aliases.

    Execution.
    - [KernelRegistry]: registration, freezing and selection of kernels, the backend
      registry. [Workspace]: planning and binding of scratch memory. [KVCache]:
      [src/execution/kv_cache_manager.cpp] and [kv_cache_view.cpp]; a view aliases
      the manager, so view operations take the manager's current state; [kv_step] is
      one call. [Tensor]: strided storage, slices and views. [Prepack]: the packed
      weights of a model. [ExecutionPlan]: building plans from caller-made nodes and
      from lowered graphs, and the runner with its checks. [CpuKernels]: the scalar
      addition, product and embedding kernels of [src/backend/cpu/kernels/] over a
      memory of bytes.

    Memory allocator ([ammalloc/]).
    - [SizeClasses]: the size ladder. [SpanAlloc]: objects inside a span; [span_step]
      is one call. [SpanList]: the intrusive lists. [PageMap]: the radix tree from
      pages to spans. [PageCache]: splitting and coalescing. [CentralCache],
      [ThreadCache]: the shared and the per-thread caches with the public entry
      points. [Allocator]: any number of threads over one heap.

    Strings ([include/amstring/]).
    - [AmStringSearch]: substring search. [AmStringLayout]: the two storage layouts,
      behind the class [Layout]. [AmStringCore]: the string core over any layout and
      allocator. [AmString]: the public calls on one string. [AmStringLife]: many
      strings over one heap, with construction, copies, moves, swap and destruction.

    Models ([src/model/]).
    - [HfJson]: [formats/hf/hf_json_reader.cpp]; the state of a reader is the text it
      has not read. [Safetensors]: [formats/hf/hf_safetensors_file.cpp], a file is an
      address and its bytes. [HfModel]: configuration, validation and resolution of
      weights ([hf_model_validator.cpp], [hf_weight_resolver.cpp]). [HfDirectory]:
      the configuration and index parsers, the directory reader over a file system
      given by its answers ([FileSystem]) and [model_loader.cpp]. [LlamaGraph]:
      [model_graph_builder.cpp]. [ModelPipeline]: the loader and the graph builder
      composed.

    State-changing operations return the new state; operations that can fail
    after changing state return a result paired with the state. Loops are
    structural recursion over what they traverse where they can be. The others
    carry fuel, and each bound is proved to suffice, so running out is never a
    result: the root search of the union-find (registered symbols plus one), Kahn's
    work list and the rounds of dead code elimination (nodes plus one), the walk
    along replacement chains (values plus one), coalescing (live spans plus one),
    writing a range to the page map (its pages), the two passes of the span
    allocation loop, extracting and releasing objects (their number), the search
    loops over a text (its length plus one), the maximal suffix (its square) and the
    loops of the JSON reader (the length of the text plus one).

    ** What the theorems show

    - Shapes: the solver refines the set of valuations its facts allow and
      answers equality queries exactly; [Unify] is the greatest common
      refinement and [Join] covers both sides; symbolic verdicts on constraints are
      right for all run-time shapes, except for two unknown dimensions compared
      with each other, where the counterexample is proved; broadcasting computes
      the NumPy rule and its strides address the right elements.
    - Operators: results match the schema, emitted checks can always be evaluated,
      and matrix product, reshape and permute have the intended shape semantics;
      the reshape of unknown dimensions that escapes its check is proved.
      Parameters survive their textual form when their floating values have six
      digits.
    - Graph: [AddNode] is all-or-nothing, every buildable graph is well formed and
      sorts, validation implies what execution relies on, [AddNode]'s checks imply
      [Validate]'s, and the sort is sound, complete and terminating. The exception
      (outputs declared constant) is proved as such.
    - Rewriting: every session keeps its invariant whatever was accepted or
      rejected, replacement succeeds exactly on good ids without a cycle, an accepted
      session can be emitted, and the committed graph is the planned one, value by
      value and node by node, and validates. Dead code elimination ends and removes
      only what nothing needs; the redirected graph output it loses is proved.
    - Folding: an evaluator writes, for every index and whatever the strides, the
      scalar function of the operands broadcasting selects; after the pass every
      replaced value is a constant with the elements any evaluation of the graph
      gives it; compiling is optimizing, through valid snapshots, then lowering. The
      abort on constants of more than eight dimensions is proved.
    - Kernels: addition, product and embedding access only their views, compute for
      every index what folding computes or the table holds, and report errors only
      for a cause; the overflow the embedding aborts on is proved.
    - Execution: lowering is faithful, kernel selection exact, workspaces disjoint
      and aligned, built plans are what their nodes say, kernels run in order, only
      after their checks and only while none failed; slices address the selected elements and every
      element of a validated tensor is inside its buffer. Cache accesses stay
      inside their plane and session.
    - Weights: prepacking files the first request of each key, and that this
      gives all projections one packed weight is proved.
    - Numbers: narrowing conversions round to nearest even, widening is exact,
      checked products are exact, the equality and hash contract holds.
    - Allocator: lists, radix tree and page cache implement sequences, partial
      functions and sets of pages; blocks held by any threads never overlap, every
      legal call is answered or, after the system refused memory, ends in a named
      way, thread caches are bounded; that a small request without memory ends the
      process, that a large one without radix nodes throws, and a layout outside the
      refill policy in which the bitmap overlaps the first object are proved.
    - Strings: every call on a string implements the call on a list of characters
      or throws and changes nothing, with sources inside the string that end before
      its terminator; over any history of many strings no block leaks or is shared;
      search returns the first occurrence; the append that copies its own
      terminator while growing is proved to overlap.
    - Models: every text is read to a result or an error; a safetensors file that
      opens gives named, disjoint tensors that fill its data region; a sharded
      model has the tensors of its index, from files of its directory; a validated
      weight set resolves; a model that loads has every weight inside a mapped file
      with exactly its bytes, and, where the builder can express it, becomes the
      Llama graph. What validation lets through and later steps reject, and the
      activation the builder ignores, are proved as such.

    ** Assumptions and limits

    Nothing is assumed beyond the hypotheses and classes each theorem names, each
    with a concrete instance in a witness. [OperatingSystem] answers mapping
    requests with fresh, aligned pages, and may refuse pages, span metadata, radix
    nodes, transfer caches and thread caches at any call; an exception that leaves
    the allocator ends the modelled history; the central cache is built at its first
    use, as in the source; [AliasSort] gives a sorted
    permutation; [FloatArith] is the machine arithmetic of the constant evaluators and
    [VectorData] the address of a byte vector; [Kernels] runs kernels over an arbitrary memory; the string
    [Allocator] gives fresh blocks or throws; [posix_memalign] and running out of
    memory while the kernel index is built are arguments; [SortsByOffset] gives a
    sorted permutation, [LoadEnvironment] adds that loops over a map visit every
    entry once and that a mapped file has an address. Sizes of C++ [size_t]
    arguments appear as range hypotheses. Debug checks are kept and shown not to
    fire. The machine is little endian. Calls of different threads interleave as
    wholes: the windows in which a central cache bucket is unlocked, and memory
    order, are not modelled. The allocator is the sharded build; a block at page 0
    reads as null, as in the source.

    Not modelled: the normalization kernels and processor intrinsics (hardware
    floating point), complex types, text dumps, the general containers over shared
    pointers and the vendored hash maps, operating-system glue (page source,
    scavenger, mapped files, devices), runtime wiring. *)
From Stdlib Require Export ZArith Lia.
From stdpp Require Export base numbers list strings gmap pretty.

#[global] Open Scope Z_scope.

(** ** Status codes and results *)

Module StatusCode.
(* @src include/aethermind/base/status.h:39-58 StatusCode *)
Inductive t :=
| kOk | kCancelled | kUnknown | kInvalidArgument | kDeadlineExceeded
| kNotFound | kAlreadyExists | kPermissionDenied | kResourceExhausted
| kFailedPrecondition | kAborted | kOutOfRange | kUnimplemented | kInternal
| kUnavailable | kDataLoss | kOverflow | kUnauthenticated.

#[global] Instance eq_dec : EqDecision t.
Proof. solve_decision. Defined.
End StatusCode.

Record Status := mkStatus { code : StatusCode.t; message : string }.

#[global] Instance Status_eq_dec : EqDecision Status.
Proof. solve_decision. Defined.

(* @src include/aethermind/base/status.h:208-210 Status::InvalidArgument *)
Definition InvalidArgument (m : string) : Status := mkStatus StatusCode.kInvalidArgument m.
(* @src include/aethermind/base/status.h:212-214 Status::NotFound *)
Definition NotFound (m : string) : Status := mkStatus StatusCode.kNotFound m.
(* @src include/aethermind/base/status.h:216-218 Status::Internal *)
Definition Internal (m : string) : Status := mkStatus StatusCode.kInternal m.
(* @src include/aethermind/base/status.h:244-246 Status::Overflow *)
Definition Overflow (m : string) : Status := mkStatus StatusCode.kOverflow m.
(* @src include/aethermind/base/status.h:224-226 Status::AlreadyExists *)
Definition AlreadyExists (m : string) : Status := mkStatus StatusCode.kAlreadyExists m.
(* @src include/aethermind/base/status.h:228-230 Status::OutOfRange *)
Definition OutOfRange (m : string) : Status := mkStatus StatusCode.kOutOfRange m.
(* @src include/aethermind/base/status.h:232-234 Status::FailedPrecondition *)
Definition FailedPrecondition (m : string) : Status :=
  mkStatus StatusCode.kFailedPrecondition m.
(* @src include/aethermind/base/status.h:240-242 Status::ResourceExhausted *)
Definition ResourceExhausted (m : string) : Status :=
  mkStatus StatusCode.kResourceExhausted m.
(* @src include/aethermind/base/status.h:236-238 Status::Unimplemented *)
Definition Unimplemented (m : string) : Status := mkStatus StatusCode.kUnimplemented m.

(** [StatusOr<T>] with the outcome the C++ type cannot show: a failed
    [AM_CHECK] (or an exception leaving a [noexcept] function) terminates the
    process, which is [Panic]. A plain [Status] is [Res unit]. *)
Inductive Res (A : Type) :=
| Ret (a : A)
| Fail (s : Status)
| Panic (why : string).
Arguments Ret {A} a.
Arguments Fail {A} s.
Arguments Panic {A} why.

#[global] Instance Res_eq_dec {A} `{EqDecision A} : EqDecision (Res A).
Proof. solve_decision. Defined.

Definition res_bind {A B} (f : A -> Res B) (m : Res A) : Res B :=
  match m with
  | Ret a => f a
  | Fail s => Fail s
  | Panic w => Panic w
  end.
#[global] Instance res_mret : MRet Res := fun A a => Ret a.
#[global] Instance res_mbind : MBind Res := fun A B f m => res_bind f m.

(** [AM_CHECK(cond, why)]. *)
Definition am_check (b : bool) (why : string) : Res unit :=
  if b then Ret tt else Panic why.

(** [if (cond) return Status::...;]. *)
Definition reject_if (b : bool) (s : Status) : Res unit :=
  if b then Fail s else Ret tt.

Definition is_ret {A} (m : Res A) : bool :=
  match m with Ret _ => true | _ => false end.

(** Monadic left-to-right traversals, for the [for] loops that return early. *)
Fixpoint res_iter {A} (f : A -> Res unit) (l : list A) : Res unit :=
  match l with
  | [] => Ret tt
  | x :: l' => _ ← f x; res_iter f l'
  end.

Fixpoint res_mapi {A B} (f : nat -> A -> Res B) (i : nat) (l : list A) : Res (list B) :=
  match l with
  | [] => Ret []
  | x :: l' => y ← f i x; ys ← res_mapi f (S i) l'; Ret (y :: ys)
  end.

Fixpoint res_foldl {A S} (f : S -> A -> Res S) (s : S) (l : list A) : Res S :=
  match l with
  | [] => Ret s
  | x :: l' => s' ← f s x; res_foldl f s' l'
  end.

(** [vector[i]]; an index out of range is undefined behaviour. *)
Definition vec_at {A} (l : list A) (i : nat) : Res A :=
  match l !! i with Some x => Ret x | None => Panic "vector index" end.

(** ** Machine integers *)

Definition wrap (w : Z) (x : Z) : Z := x mod 2 ^ w.
Definition wrap_signed (w : Z) (x : Z) : Z :=
  (x + 2 ^ (w - 1)) mod 2 ^ w - 2 ^ (w - 1).

Abbreviation u64 := (wrap 64).
Abbreviation u32 := (wrap 32).
Abbreviation u16 := (wrap 16).
Abbreviation u8 := (wrap 8).
Abbreviation i64 := (wrap_signed 64).

Definition UINT64_MAX : Z := 2 ^ 64 - 1.
Definition UINT32_MAX : Z := 2 ^ 32 - 1.
Definition INT64_MAX : Z := 2 ^ 63 - 1.
Definition INT64_MIN : Z := - 2 ^ 63.

Definition in_u (w x : Z) : Prop := 0 <= x < 2 ^ w.
Definition in_i (w x : Z) : Prop := - 2 ^ (w - 1) <= x < 2 ^ (w - 1).

(** An integral C++ type: signedness and width. [int_trunc] is the conversion
    to the type (modulo [2^w]), [int_repr] says the value is representable. *)
Record IntTy := mkIntTy { ty_signed : bool; ty_width : Z }.

Definition int_trunc (ty : IntTy) (x : Z) : Z :=
  if ty_signed ty then wrap_signed (ty_width ty) x else wrap (ty_width ty) x.

Definition int_repr (ty : IntTy) (x : Z) : Prop :=
  if ty_signed ty then in_i (ty_width ty) x else in_u (ty_width ty) x.

(** ** Automation *)

Create HintDb am.
#[export] Hint Extern 5 => lia : am.

(** [lia] with division and modulo by their Euclidean equations. *)
Ltac dlia := Z.to_euclidean_division_equations; lia.

(** Case split on every boolean comparison of integers in sight. *)
Ltac zcases :=
  repeat match goal with
  | |- context [Z.eqb ?a ?b] => destruct (Z.eqb_spec a b)
  | |- context [Z.ltb ?a ?b] => destruct (Z.ltb_spec a b)
  | |- context [Z.leb ?a ?b] => destruct (Z.leb_spec a b)
  | H : context [Z.eqb ?a ?b] |- _ => destruct (Z.eqb_spec a b)
  | H : context [Z.ltb ?a ?b] |- _ => destruct (Z.ltb_spec a b)
  | H : context [Z.leb ?a ?b] |- _ => destruct (Z.leb_spec a b)
  end; simpl in *.

Lemma res_bind_ret_inv {A B} (m : Res A) (f : A -> Res B) b :
  m ≫= f = Ret b -> exists a, m = Ret a /\ f a = Ret b.
Proof. destruct m; simpl; intros H; [eauto | discriminate..]. Qed.

Lemma reject_if_ret b s : reject_if b s = Ret tt <-> b = false.
Proof. destruct b; simpl; split; congruence. Qed.

Lemma reject_if_ret_any b s u : reject_if b s = Ret u -> b = false.
Proof. destruct b; simpl; congruence. Qed.

Lemma am_check_ret_any b s u : am_check b s = Ret u -> b = true.
Proof. destruct b; simpl; congruence. Qed.

(** Open up a hypothesis saying that a sequence of checks and binds returned. *)
Ltac res_inv1 :=
  match goal with
  | H : (_ ≫= _) = Ret _ |- _ =>
      let a := fresh "a" in let H1 := fresh "Hm" in
      apply res_bind_ret_inv in H as (a & H1 & H)
  | H : reject_if _ _ = Ret _ |- _ => apply reject_if_ret_any in H
  | H : am_check _ _ = Ret _ |- _ => apply am_check_ret_any in H
  | H : Ret _ = Ret _ |- _ => injection H as H; subst
  | H : Fail _ = Ret _ |- _ => discriminate H
  | H : Panic _ = Ret _ |- _ => discriminate H
  | u : unit |- _ => destruct u
  end.
Ltac res_inv := repeat res_inv1.

(** Boolean hypotheses to propositions. *)
Ltac bsplit :=
  repeat match goal with
  | H : negb _ = true |- _ => apply negb_true_iff in H
  | H : negb _ = false |- _ => apply negb_false_iff in H
  | H : (_ && _)%bool = true |- _ => apply andb_true_iff in H as [? ?]
  | H : (_ || _)%bool = false |- _ => apply orb_false_iff in H as [? ?]
  | H : Z.eqb _ _ = true |- _ => apply Z.eqb_eq in H
  | H : Z.eqb _ _ = false |- _ => apply Z.eqb_neq in H
  | H : Z.ltb _ _ = true |- _ => apply Z.ltb_lt in H
  | H : Z.ltb _ _ = false |- _ => apply Z.ltb_ge in H
  | H : Z.leb _ _ = true |- _ => apply Z.leb_le in H
  | H : Z.leb _ _ = false |- _ => apply Z.leb_gt in H
  | H : Nat.eqb _ _ = true |- _ => apply Nat.eqb_eq in H
  | H : Nat.eqb _ _ = false |- _ => apply Nat.eqb_neq in H
  | H : Nat.ltb _ _ = true |- _ => apply Nat.ltb_lt in H
  | H : Nat.ltb _ _ = false |- _ => apply Nat.ltb_ge in H
  | H : Nat.leb _ _ = true |- _ => apply Nat.leb_le in H
  | H : Nat.leb _ _ = false |- _ => apply Nat.leb_gt in H
  | H : bool_decide _ = true |- _ => apply bool_decide_eq_true in H
  | H : bool_decide _ = false |- _ => apply bool_decide_eq_false in H
  end.

(** ** Arithmetic lemmas *)

Lemma wrap_range w x : 0 <= w -> in_u w (wrap w x).
Proof. intros. unfold in_u, wrap. apply Z.mod_pos_bound, Z.pow_pos_nonneg; lia. Qed.

Lemma wrap_small w x : in_u w x -> wrap w x = x.
Proof. intros. unfold wrap. by apply Z.mod_small. Qed.

Lemma wrap_id_iff w x : 0 <= w -> wrap w x = x <-> in_u w x.
Proof.
  intros Hw. split; [|apply wrap_small].
  intros <-. by apply wrap_range.
Qed.

Lemma wrap_signed_range w x : 0 < w -> in_i w (wrap_signed w x).
Proof.
  intros Hw. unfold in_i, wrap_signed.
  assert (2 ^ w = 2 * 2 ^ (w - 1)) as E.
  { rewrite <- Z.pow_succ_r by lia. f_equal. lia. }
  pose proof (Z.pow_pos_nonneg 2 (w - 1)).
  pose proof (Z.mod_pos_bound (x + 2 ^ (w - 1)) (2 ^ w)). lia.
Qed.

Lemma wrap_signed_id_iff w x : 0 < w -> wrap_signed w x = x <-> in_i w x.
Proof.
  intros Hw. split; [intros <-; by apply wrap_signed_range|].
  intros Hx. unfold in_i, wrap_signed in *.
  assert (2 ^ w = 2 * 2 ^ (w - 1)) as E.
  { rewrite <- Z.pow_succ_r by lia. f_equal. lia. }
  rewrite Z.mod_small; lia.
Qed.

Lemma int_trunc_id_iff ty x :
  0 < ty_width ty -> int_trunc ty x = x <-> int_repr ty x.
Proof.
  intros Hw. unfold int_trunc, int_repr. destruct (ty_signed ty).
  - by apply wrap_signed_id_iff.
  - apply wrap_id_iff. lia.
Qed.

#[export] Hint Resolve wrap_range wrap_small wrap_signed_range : am.

(** ** List lemmas *)

Definition zlen {A} (l : list A) : Z := Z.of_nat (length l).

Lemma vec_at_ret {A} (l : list A) i x : vec_at l i = Ret x <-> l !! i = Some x.
Proof. unfold vec_at. destruct (l !! i); split; congruence. Qed.

Lemma res_iter_ret {A} (f : A -> Res unit) l :
  res_iter f l = Ret tt <-> Forall (fun x => f x = Ret tt) l.
Proof.
  induction l as [|x l IH]; simpl.
  - split; [constructor | done].
  - rewrite Forall_cons, <- IH.
    destruct (f x) as [[]| |]; simpl; intuition congruence.
Qed.

Lemma res_mapi_ret {A B} (f : nat -> A -> Res B) i l r :
  res_mapi f i l = Ret r <->
  length r = length l /\
  forall k x, l !! k = Some x -> exists y, r !! k = Some y /\ f (i + k)%nat x = Ret y.
Proof.
  revert i r. induction l as [|x l IH]; intros i r; simpl.
  - split.
    + intros [= <-]. split; [done|]. intros k x Hk. by rewrite lookup_nil in Hk.
    + intros [Hl _]. destruct r; [done|discriminate].
  - split.
    + intros H. res_inv. apply IH in Hm0 as [Hlen Hf]. simpl. split; [congruence|].
      intros [|k] z Hz; simpl in *; simplify_eq.
      * exists a. by rewrite Nat.add_0_r.
      * destruct (Hf _ _ Hz) as (y & ? & Hy). exists y. split; [done|].
        by replace (i + S k)%nat with (S i + k)%nat by lia.
    + intros [Hlen Hf]. destruct r as [|y r]; [discriminate|]. simpl in Hlen.
      destruct (Hf 0%nat x eq_refl) as (y' & Hy & Hx). simpl in Hy. simplify_eq.
      rewrite Nat.add_0_r in Hx. rewrite Hx. simpl.
      rewrite (proj2 (IH (S i) r)); [done|]. split; [lia|].
      intros k z Hz. destruct (Hf (S k) z Hz) as (y2 & Hy2 & Hx2). exists y2.
      split; [done|]. by replace (S i + k)%nat with (i + S k)%nat by lia.
Qed.

Lemma res_mapi_total {A B} (f : nat -> A -> Res B) l : forall i,
  (forall k x, l !! k = Some x -> exists y, f (i + k)%nat x = Ret y) -> exists r, res_mapi f i l = Ret r.
Proof.
  induction l as [|x l IH]; intros i H; simpl; [by exists []|].
  destruct (H 0%nat x eq_refl) as [y Hy]. rewrite Nat.add_0_r in Hy. rewrite Hy. simpl.
  destruct (IH (S i)) as [r ->]; [|by exists (y :: r)].
  intros k z Hk. destruct (H (S k) z Hk) as [w Hw]. exists w.
  by replace (S i + k)%nat with (i + S k)%nat by lia.
Qed.

(** Loops depend on their bodies pointwise. *)
Lemma res_bind_ext {A B} (m : Res A) (f g : A -> Res B) :
  (forall a, f a = g a) -> m ≫= f = m ≫= g.
Proof. intros E. destruct m; simpl; [apply E|done..]. Qed.

Lemma res_iter_ext {A} (f g : A -> Res unit) l :
  (forall x, f x = g x) -> res_iter f l = res_iter g l.
Proof. intros E. induction l; simpl; [done|]. by rewrite E, IHl. Qed.

Lemma res_mapi_ext {A B} (f g : nat -> A -> Res B) i l :
  (forall i x, f i x = g i x) -> res_mapi f i l = res_mapi g i l.
Proof. intros E. revert i. induction l; intros i; simpl; [done|]. by rewrite E, IHl. Qed.

Lemma res_foldl_ext {A S} (f g : S -> A -> Res S) s l :
  (forall s x, f s x = g s x) -> res_foldl f s l = res_foldl g s l.
Proof.
  intros E. revert s. induction l; intros s; simpl; [done|]. rewrite E.
  by apply res_bind_ext.
Qed.

Lemma foldl_ext_pointwise {A S} (f g : S -> A -> S) l :
  (forall s x, f s x = g s x) -> forall s, foldl f s l = foldl g s l.
Proof. intros E. induction l; intros s; simpl; [done|]. by rewrite E. Qed.

Lemma res_foldl_app {A S} (f : S -> A -> Res S) l1 l2 s :
  res_foldl f s (l1 ++ l2) = (s' ← res_foldl f s l1; res_foldl f s' l2).
Proof. revert s. induction l1 as [|x l1 IH]; intros s; simpl; [done|]. destruct (f s x); simpl; auto. Qed.

(** An invariant of a loop that can stop early. *)
Lemma res_foldl_inv {A S} (P : S -> Prop) (f : S -> A -> Res S) l s r :
  (forall s x s', x ∈ l -> P s -> f s x = Ret s' -> P s') ->
  P s -> res_foldl f s l = Ret r -> P r.
Proof.
  revert s. induction l as [|x l IH]; intros s Hf Hs H; simpl in H; [by injection H as <-|].
  destruct (f s x) as [s1| |] eqn:E; [|discriminate..]. eapply IH; [|eapply Hf; eauto using list_elem_of_here|done].
  intros. eapply Hf; eauto using list_elem_of_further.
Qed.

(** Each step of the loop moves along a preorder and establishes a stable fact about
    its element: at the end all of them hold. *)
Lemma res_foldl_establish {A S} (R : S -> S -> Prop) `{!PreOrder R} (Q : A -> S -> Prop)
    (f : S -> A -> Res S) l :
  (forall x s s', Q x s -> R s s' -> Q x s') ->
  (forall s x s', x ∈ l -> f s x = Ret s' -> R s s' /\ Q x s') ->
  forall s r, res_foldl f s l = Ret r -> R s r /\ forall x, x ∈ l -> Q x r.
Proof.
  intros Hst. induction l as [|y l IH]; intros Hf s r H; simpl in H.
  - injection H as <-. split; [done|]. intros x Hx. by apply not_elem_of_nil in Hx.
  - destruct (f s y) as [s1| |] eqn:E; [|discriminate..].
    destruct (Hf s y s1 ltac:(left) E) as [HR HQ].
    destruct (IH ltac:(intros; apply Hf; [by right|done]) s1 r H) as [HR' HQ'].
    split; [by etransitivity|]. intros x [->|Hx]%elem_of_cons; [by apply (Hst y s1)|by apply HQ'].
Qed.

Lemma res_foldl_elem {A S} (f : S -> A -> Res S) l x : x ∈ l ->
  forall s r, res_foldl f s l = Ret r -> exists a b, f a x = Ret b.
Proof.
  induction l as [|y l IH]; intros Hx s r H; [by apply not_elem_of_nil in Hx|]. simpl in H.
  destruct (f s y) as [s1| |] eqn:E; [|discriminate..].
  apply elem_of_cons in Hx as [->|Hx]; [by exists s, s1|by eapply IH].
Qed.

(** ** Computations over a memory *)

Definition Exec (Mem A : Type) : Type := Mem -> Res A * Mem.
Definition exec_bind {Mem A B} (f : A -> Exec Mem B) (m : Exec Mem A) : Exec Mem B := fun s =>
  match m s with
  | (Ret a, s) => f a s
  | (Fail e, s) => (Fail e, s)
  | (Panic w, s) => (Panic w, s)
  end.
#[global] Instance exec_mret Mem : MRet (Exec Mem) := fun A a s => (Ret a, s).
#[global] Instance exec_mbind Mem : MBind (Exec Mem) := fun A B f m => exec_bind f m.
(** A computation that does not touch the memory. *)
Definition lift {Mem A} (m : Res A) : Exec Mem A := fun s => (m, s).

Lemma exec_bind_inv {Mem A B} (m : Exec Mem A) (f : A -> Exec Mem B) s b s' :
  (m ≫= f) s = (Ret b, s') -> exists a s1, m s = (Ret a, s1) /\ f a s1 = (Ret b, s').
Proof. unfold mbind, exec_mbind, exec_bind. destruct (m s) as [[a|e|w] s1]; [eauto|by intros [=]..]. Qed.

Lemma lift_inv {Mem A} (m : Res A) (s : Mem) a s' : lift m s = (Ret a, s') -> m = Ret a /\ s' = s.
Proof. unfold lift. by intros [= -> ->]. Qed.

Lemma filter_nonempty {A} (P : A -> Prop) `{forall x, Decision (P x)} l :
  filter P l <> [] <-> exists x, x ∈ l /\ P x.
Proof.
  split.
  - intros Hne. destruct (filter P l) as [|x l'] eqn:E; [done|]. exists x.
    assert (x ∈ filter P l) as Hx by (rewrite E; left). by apply list_elem_of_filter in Hx as [? ?].
  - intros (x & Hx & HP) E. assert (x ∈ filter P l) as Hin by (by apply list_elem_of_filter).
    rewrite E in Hin. by apply not_elem_of_nil in Hin.
Qed.

Fixpoint product (l : list Z) : Z :=
  match l with [] => 1 | x :: l' => x * product l' end.

Lemma product_app l1 l2 : product (l1 ++ l2) = product l1 * product l2.
Proof. induction l1 as [|x l1 IH]; simpl; [lia|]. rewrite IH. ring. Qed.

Lemma product_nonneg l : Forall (fun x => 0 <= x) l -> 0 <= product l.
Proof. induction 1; simpl; nia. Qed.

(** ** Powers of two *)

(** [std::countr_zero] of a non-zero word. *)
Fixpoint ctz_pos (p : positive) : Z :=
  match p with xO p' => 1 + ctz_pos p' | _ => 0 end.
Definition countr_zero (v : Z) : Z := match v with Z.pos p => ctz_pos p | _ => 64 end.

(** [std::has_single_bit]. *)
Definition has_single_bit (n : Z) : bool := (0 <? n) && (Z.land n (n - 1) =? 0).

Lemma ctz_pos_nonneg p : 0 <= ctz_pos p.
Proof. induction p; simpl; lia. Qed.

Lemma single_bit_pow n : has_single_bit n = true -> n = 2 ^ countr_zero n /\ 0 <= countr_zero n.
Proof.
  unfold has_single_bit. intros H. bsplit. destruct n as [|p|p]; [lia| |lia]. simpl countr_zero.
  split; [|apply ctz_pos_nonneg]. revert H0. clear H.
  induction p as [p IH|p IH|]; intros H; [|simpl ctz_pos|done].
  - exfalso. change (Z.pos p~1 - 1) with (Z.pos p~0) in H.
    assert (Z.testbit (Z.land (Z.pos p~1) (Z.pos p~0)) (Z.succ (Z.log2 (Z.pos p))) = false) as Hf
      by (rewrite H; apply Z.testbit_0_l).
    rewrite Z.land_spec, (Pos2Z.inj_xI p), (Pos2Z.inj_xO p) in Hf.
    rewrite Z.testbit_odd_succ, Z.testbit_even_succ, Z.bit_log2 in Hf by (try apply Z.log2_nonneg; lia). done.
  - pose proof (ctz_pos_nonneg p). rewrite Z.pow_add_r by lia. rewrite Pos2Z.inj_xO. f_equal.
    apply IH. apply Z.bits_inj'. intros i Hi. rewrite Z.testbit_0_l.
    assert (Z.testbit (Z.land (Z.pos p~0) (Z.pos p~0 - 1)) (Z.succ i) = false) as Hf
      by (rewrite H; apply Z.testbit_0_l).
    rewrite Z.land_spec in Hf |- *. rewrite (Pos2Z.inj_xO p) in Hf.
    replace (2 * Z.pos p - 1) with (2 * (Z.pos p - 1) + 1) in Hf by lia.
    by rewrite Z.testbit_even_succ, Z.testbit_odd_succ in Hf.
Qed.

(** Masking off the low bits rounds down to a multiple of a power of two. *)
Lemma lor_add a b n : 0 <= n -> 0 <= b < 2 ^ n -> Z.lor (a * 2 ^ n) b = a * 2 ^ n + b.
Proof.
  intros Hn Hb. assert (Z.land (a * 2 ^ n) b = 0) as H.
  { apply Z.bits_inj'. intros i Hi. rewrite Z.land_spec, Z.bits_0.
    destruct (Z.ltb_spec i n).
    - by rewrite Z.mul_pow2_bits_low.
    - rewrite <- (Z.mod_small b (2 ^ n)), Z.mod_pow2_bits_high, andb_false_r by lia. done. }
  by rewrite <- Z.lxor_lor, Z.add_nocarry_lxor by done.
Qed.

Lemma mask_low x k : 0 <= k -> Z.land x (Z.lnot (2 ^ k - 1)) = x / 2 ^ k * 2 ^ k.
Proof.
  intros Hk. rewrite Z.sub_1_r, <- Z.ones_equiv, <- Z.ldiff_land, Z.ldiff_ones_r by lia.
  by rewrite Z.shiftl_mul_pow2, Z.shiftr_div_pow2 by lia.
Qed.
