(* ===== verification/OverflowCheck.v ===== *)
(** * OverflowCheck: checked integer arithmetic

    [include/utils/overflow_check.h]: the builtin-backed checks the GCC and
    Clang builds use, the portable fallbacks of the other branch of the
    [#if], and the range product [SafeMultiplyU64]. The integral type [T] of
    the templates is an [IntTy] argument. *)
From S2P Require Import Prelude.

(** ** The compiler-builtin branch

    [__builtin_*_overflow] computes the exact result, stores its truncation
    to [T] and reports whether the two differ. *)

(* @src include/utils/overflow_check.h:30-34 CheckOverflowMul *)
Definition CheckOverflowMul (ty : IntTy) (a b : Z) : bool * Z :=
  let r := int_trunc ty (a * b) in (negb (r =? a * b), r).

(* @src include/utils/overflow_check.h:47-51 CheckOverflowAdd *)
Definition CheckOverflowAdd (ty : IntTy) (a b : Z) : bool * Z :=
  let r := int_trunc ty (a + b) in (negb (r =? a + b), r).

(* @src include/utils/overflow_check.h:64-68 CheckOverflowSub *)
Definition CheckOverflowSub (ty : IntTy) (a b : Z) : bool * Z :=
  let r := int_trunc ty (a - b) in (negb (r =? a - b), r).

Arguments CheckOverflowMul : simpl never.
Arguments CheckOverflowAdd : simpl never.
Arguments CheckOverflowSub : simpl never.

Definition uint64_ty : IntTy := mkIntTy false 64.
Definition int64_ty : IntTy := mkIntTy true 64.

(** ** The portable branch

    For types at least as wide as [int] (no integral promotion). *)
Module Portable.

(* @src include/utils/overflow_check.h:75-86 CheckOverflowMul (fallback) *)
Definition CheckOverflowMul_portable (ty : IntTy) (a b : Z) : bool * Z :=
  let w := ty_width ty in
  let result := wrap w (wrap w a * wrap w b) in
  let out := int_trunc ty result in
  if (a =? 0) || (b =? 0) then (false, out)
  else (negb (int_trunc ty (result / wrap w a) =? b), out).

(* @src include/utils/overflow_check.h:88-105 CheckOverflowAdd (fallback) *)
Definition CheckOverflowAdd_portable (ty : IntTy) (a b : Z) : bool * Z :=
  let w := ty_width ty in
  if negb (ty_signed ty) then
    let result := wrap w (a + b) in (result <? a, result)
  else
    let result := wrap w (wrap w a + wrap w b) in
    let out := int_trunc ty result in
    (((0 <? a) && (0 <? b) && (out <? 0)) ||
     ((a <? 0) && (b <? 0) && (0 <? out)), out).

(* @src include/utils/overflow_check.h:107-124 CheckOverflowSub (fallback) *)
Definition CheckOverflowSub_portable (ty : IntTy) (a b : Z) : bool * Z :=
  let w := ty_width ty in
  if negb (ty_signed ty) then
    let result := wrap w (a - b) in (a <? result, result)
  else
    let result := wrap w (wrap w a - wrap w b) in
    let out := int_trunc ty result in
    (((0 <=? a) && (b <? 0) && (out <? 0)) ||
     ((a <? 0) && (0 <? b) && (0 <? out)), out).

End Portable.

(** ** The range product *)

(** The loop body: [overflowed |= CheckOverflowMul(prod, uint64(x), &prod)]. *)
(* @src include/utils/overflow_check.h:149-156 SafeMultiplyU64 (loop body) *)
Definition SafeMultiplyU64_step (st : bool * Z) (x : Z) : bool * Z :=
  let '(o, p) := CheckOverflowMul uint64_ty (snd st) (u64 x) in (fst st || o, p).

(* @src include/utils/overflow_check.h:143-171 SafeMultiplyU64 *)
Definition SafeMultiplyU64 (l : list Z) : bool * Z :=
  foldl SafeMultiplyU64_step (false, 1) l.

(** ** Lemmas *)

Lemma CheckOverflowMul_u64 a b :
  CheckOverflowMul uint64_ty a b = (negb (u64 (a * b) =? a * b), u64 (a * b)).
Proof. done. Qed.

Lemma CheckOverflowMul_u64_ok a b :
  in_u 64 (a * b) -> CheckOverflowMul uint64_ty a b = (false, a * b).
Proof.
  intros H. rewrite CheckOverflowMul_u64, wrap_small by done.
  by rewrite Z.eqb_refl.
Qed.

Lemma CheckOverflowMul_u64_over a b :
  ~ in_u 64 (a * b) -> fst (CheckOverflowMul uint64_ty a b) = true.
Proof.
  intros H. rewrite CheckOverflowMul_u64. simpl. apply negb_true_iff, Z.eqb_neq.
  rewrite wrap_id_iff; [done|lia].
Qed.

Lemma wrap_signed_of_wrap x y : x mod 2 ^ 64 = y mod 2 ^ 64 -> i64 x = i64 y.
Proof.
  intros H. unfold wrap_signed. f_equal.
  rewrite (Z.add_mod x), (Z.add_mod y), H by lia. done.
Qed.

Lemma SafeMultiplyU64_step_ok o p x :
  in_u 64 x -> in_u 64 (p * x) -> SafeMultiplyU64_step (o, p) x = (o, p * x).
Proof.
  intros Hx Hp. unfold SafeMultiplyU64_step. simpl snd. simpl fst.
  rewrite (wrap_small 64 x), CheckOverflowMul_u64_ok by done. by rewrite orb_false_r.
Qed.

Lemma SafeMultiplyU64_step_over o p x :
  in_u 64 x -> ~ in_u 64 (p * x) -> fst (SafeMultiplyU64_step (o, p) x) = true.
Proof.
  intros Hx Hp. unfold SafeMultiplyU64_step.
  rewrite (wrap_small 64 x) by done.
  change (snd (o, p)) with p. pose proof (CheckOverflowMul_u64_over p x Hp) as E.
  destruct (CheckOverflowMul uint64_ty p x) as [o' q]. simpl in *. subst. apply orb_true_r.
Qed.

(** The sticky flag never clears, and while it is clear the accumulator is the
    exact product. *)
Lemma SafeMultiplyU64_sticky l st :
  fst st = true -> fst (foldl SafeMultiplyU64_step st l) = true.
Proof.
  revert st. induction l as [|x l IH]; intros st Hst; simpl; [done|].
  apply IH. unfold SafeMultiplyU64_step. destruct (CheckOverflowMul _ _ _) as [o q].
  by rewrite Hst.
Qed.

Lemma SafeMultiplyU64_exact l acc :
  Forall (in_u 64) l -> (forall k, in_u 64 (acc * product (take k l))) ->
  foldl SafeMultiplyU64_step (false, acc) l = (false, acc * product l).
Proof.
  revert acc. induction l as [|x l IH]; intros acc Hl Hk; simpl.
  - f_equal. lia.
  - inversion Hl; subst. rewrite SafeMultiplyU64_step_ok; [|done|].
    + rewrite IH; [f_equal; ring|done|].
      intros k. specialize (Hk (S k)). simpl in Hk. by rewrite Z.mul_assoc in Hk.
    + specialize (Hk 1%nat). simpl in Hk. by rewrite Z.mul_1_r in Hk.
Qed.

Lemma SafeMultiplyU64_overflow l acc k :
  in_u 64 acc -> Forall (in_u 64) l ->
  ~ in_u 64 (acc * product (take k l)) ->
  fst (foldl SafeMultiplyU64_step (false, acc) l) = true.
Proof.
  revert acc k. induction l as [|x l IH]; intros acc k Hacc Hl Hk; simpl.
  - destruct Hk. by rewrite take_nil, Z.mul_1_r.
  - inversion Hl; subst.
    destruct (decide (0 <= acc * x < 2 ^ 64)) as [Hx|Hx].
    + rewrite SafeMultiplyU64_step_ok by done.
      destruct k as [|k]; simpl in Hk; [by rewrite Z.mul_1_r in Hk|].
      apply (IH _ k); [done|done|]. by rewrite <- Z.mul_assoc.
    + apply SafeMultiplyU64_sticky, SafeMultiplyU64_step_over; done.
Qed.

Module PortableFacts.
Import Portable.

Lemma wrap_wrap_add w a b : 0 <= w -> wrap w (wrap w a + wrap w b) = wrap w (a + b).
Proof. intros. unfold wrap. symmetry. apply Z.add_mod. apply Z.pow_nonzero; lia. Qed.

Lemma wrap_wrap_sub w a b : 0 <= w -> wrap w (wrap w a - wrap w b) = wrap w (a - b).
Proof. intros. unfold wrap. symmetry. apply Zminus_mod. Qed.

Lemma wrap_signed_wrap w x : 0 <= w -> wrap_signed w (wrap w x) = wrap_signed w x.
Proof.
  intros. unfold wrap_signed, wrap. f_equal.
  by rewrite Zplus_mod_idemp_l.
Qed.

(** The value of a two's-complement reduction of a number at most one period
    away from the representable range. *)
Lemma i64_cases x :
  - 2 ^ 64 <= x < 2 ^ 64 ->
  i64 x = x /\ - 2 ^ 63 <= x < 2 ^ 63 \/
  i64 x = x - 2 ^ 64 /\ 2 ^ 63 <= x \/
  i64 x = x + 2 ^ 64 /\ x < - 2 ^ 63.
Proof.
  intros Hx. unfold wrap_signed. change (64 - 1) with 63.
  destruct (decide (x < - 2 ^ 63)); [|destruct (decide (2 ^ 63 <= x))].
  - right; right. split; [|lia].
    rewrite <- (Z_mod_plus_full _ 1), Z.mod_small by lia. lia.
  - right; left. split; [|lia].
    rewrite <- (Z_mod_plus_full _ (-1)), Z.mod_small by lia. lia.
  - left. split; [|lia]. rewrite Z.mod_small by lia. lia.
Qed.

Lemma mul_portable_unsigned w a b :
  0 < w -> in_u w a -> in_u w b ->
  CheckOverflowMul_portable (mkIntTy false w) a b = CheckOverflowMul (mkIntTy false w) a b.
Proof.
  intros Hw Ha Hb. unfold CheckOverflowMul_portable, CheckOverflowMul, int_trunc. simpl.
  rewrite (wrap_small w a), (wrap_small w b) by done.
  assert (in_u w (wrap w (a * b))) as Hr by (apply wrap_range; lia).
  rewrite (wrap_small w (wrap w (a * b))) by done.
  unfold in_u in *.
  destruct (Z.eqb_spec a 0) as [->|Ha0]; [simpl; unfold wrap; by rewrite Z.mod_0_l by lia|].
  destruct (Z.eqb_spec b 0) as [->|Hb0].
  { simpl. rewrite Z.mul_0_r. unfold wrap. by rewrite Z.mod_0_l by lia. }
  simpl. f_equal. f_equal.
  assert (0 <= wrap w (a * b) / a < 2 ^ w) as Hq.
  { split; [apply Z.div_pos; lia|].
    apply Z.le_lt_trans with (wrap w (a * b)); [|lia].
    apply Z.div_le_upper_bound; nia. }
  rewrite (wrap_small w (wrap w (a * b) / a)) by done.
  assert (wrap w (a * b) <= a * b) as Hle by (unfold wrap; apply Z.mod_le; nia).
  destruct (Z.eqb_spec (wrap w (a * b)) (a * b)) as [E|E].
  - rewrite E, Z.mul_comm, Z.div_mul by lia. apply Z.eqb_refl.
  - apply Z.eqb_neq. intros Hd.
    pose proof (Z.mul_div_le (wrap w (a * b)) a). nia.
Qed.

Lemma add_portable_unsigned w a b :
  0 < w -> in_u w a -> in_u w b ->
  CheckOverflowAdd_portable (mkIntTy false w) a b = CheckOverflowAdd (mkIntTy false w) a b.
Proof.
  intros Hw Ha Hb. unfold CheckOverflowAdd_portable, CheckOverflowAdd, int_trunc. simpl.
  f_equal. unfold in_u in *. unfold wrap.
  destruct (decide (a + b < 2 ^ w)).
  - rewrite Z.mod_small by lia. zcases; lia.
  - assert ((a + b) mod 2 ^ w = a + b - 2 ^ w) as ->.
    { rewrite <- (Z_mod_plus_full _ (-1)), Z.mod_small; lia. }
    zcases; lia.
Qed.

Lemma sub_portable_unsigned w a b :
  0 < w -> in_u w a -> in_u w b ->
  CheckOverflowSub_portable (mkIntTy false w) a b = CheckOverflowSub (mkIntTy false w) a b.
Proof.
  intros Hw Ha Hb. unfold CheckOverflowSub_portable, CheckOverflowSub, int_trunc. simpl.
  f_equal. unfold in_u in *. unfold wrap.
  destruct (decide (0 <= a - b)).
  - rewrite Z.mod_small by lia. zcases; lia.
  - assert ((a - b) mod 2 ^ w = a - b + 2 ^ w) as ->.
    { rewrite <- (Z_mod_plus_full _ 1), Z.mod_small; lia. }
    zcases; lia.
Qed.

Lemma sub_portable_signed64 a b :
  in_i 64 a -> in_i 64 b ->
  CheckOverflowSub_portable int64_ty a b = CheckOverflowSub int64_ty a b.
Proof.
  intros Ha Hb. unfold in_i in *. change (64 - 1) with 63 in *.
  unfold CheckOverflowSub_portable, CheckOverflowSub, int_trunc. simpl ty_signed. simpl ty_width.
  cbv iota beta. simpl negb. cbv iota.
  rewrite wrap_wrap_sub, wrap_signed_wrap by lia. f_equal.
  pose proof (i64_cases (a - b)) as Hc.
  zcases; simpl; try reflexivity; lia.
Qed.

Lemma add_portable_signed64 a b :
  in_i 64 a -> in_i 64 b ->
  CheckOverflowAdd_portable int64_ty a b = CheckOverflowAdd int64_ty a b <->
  ~ (a = INT64_MIN /\ b = INT64_MIN).
Proof.
  intros Ha Hb. unfold in_i, INT64_MIN in *. change (64 - 1) with 63 in *.
  unfold CheckOverflowAdd_portable, CheckOverflowAdd, int_trunc. simpl ty_signed. simpl ty_width.
  simpl negb. cbv iota.
  rewrite wrap_wrap_add, wrap_signed_wrap by lia.
  pose proof (i64_cases (a + b)) as Hc.
  split.
  - intros [= E] [-> ->]. revert E. vm_compute. discriminate.
  - intros Hne. f_equal. zcases; simpl; try reflexivity; lia.
Qed.

End PortableFacts.

(** ** Properties *)

(** [SafeMultiplyU64] reports overflow exactly when some prefix product
    leaves [uint64_t], and otherwise delivers the exact product of the range. *)
Theorem SafeMultiplyU64_correct l :
  Forall (in_u 64) l ->
  (fst (SafeMultiplyU64 l) = true <-> exists k, ~ in_u 64 (product (take k l))) /\
  (fst (SafeMultiplyU64 l) = false -> snd (SafeMultiplyU64 l) = product l).
Proof.
  intros Hl. unfold SafeMultiplyU64.
  assert (Hdec : (exists k, ~ in_u 64 (product (take k l))) \/
                 (forall k, in_u 64 (product (take k l)))).
  { destruct (decide (Exists (fun k => ~ (0 <= product (take k l) < 2 ^ 64))
                             (seq 0 (S (length l))))) as [H|H].
    - left. apply Exists_exists in H as (k & _ & Hk). by exists k.
    - right. intros k. unfold in_u. apply dec_stable. intros Hk. apply H, Exists_exists.
      exists (k `min` length l)%nat. split; [apply elem_of_seq; lia|].
      destruct (decide (k <= length l)%nat) as [Hkl|Hkl].
      + by rewrite Nat.min_l.
      + rewrite Nat.min_r by lia. by rewrite take_ge in Hk |- * by lia. }
  destruct Hdec as [[k Hk]|Hall].
  - assert (fst (foldl SafeMultiplyU64_step (false, 1) l) = true) as E.
    { apply (SafeMultiplyU64_overflow l 1 k); [|done|by rewrite Z.mul_1_l].
      unfold in_u. lia. }
    rewrite E. split; [|done]. split; eauto.
  - rewrite SafeMultiplyU64_exact; [|done|intros k; rewrite Z.mul_1_l; auto].
    rewrite Z.mul_1_l. simpl. split; [|done]. split; [done|]. intros [k Hk].
    by destruct Hk.
Qed.

Lemma SafeMultiplyU64_correct_witness :
  Forall (in_u 64) [2 ^ 40; 2 ^ 40; 0] /\
  fst (SafeMultiplyU64 [2 ^ 40; 2 ^ 40; 0]) = true.
Proof.
  assert (Forall (in_u 64) [2 ^ 40; 2 ^ 40; 0]) as H
    by (repeat constructor; vm_compute; discriminate).
  split; [exact H|].
  apply (proj1 (SafeMultiplyU64_correct _ H)). exists 2%nat. vm_compute.
  intros [_ E]. discriminate E.
Defined.

(** On unsigned types of any width the portable fallbacks compute the same
    flag and the same stored value as the compiler builtins. *)
Theorem portable_unsigned_agree w a b :
  0 < w -> in_u w a -> in_u w b ->
  Portable.CheckOverflowMul_portable (mkIntTy false w) a b = CheckOverflowMul (mkIntTy false w) a b /\
  Portable.CheckOverflowAdd_portable (mkIntTy false w) a b = CheckOverflowAdd (mkIntTy false w) a b /\
  Portable.CheckOverflowSub_portable (mkIntTy false w) a b = CheckOverflowSub (mkIntTy false w) a b.
Proof.
  intros. split; [|split]; [by apply PortableFacts.mul_portable_unsigned
    | by apply PortableFacts.add_portable_unsigned | by apply PortableFacts.sub_portable_unsigned].
Qed.

Lemma portable_unsigned_agree_witness :
  Portable.CheckOverflowMul_portable (mkIntTy false 64) (2 ^ 63) 2 =
  CheckOverflowMul (mkIntTy false 64) (2 ^ 63) 2.
Proof.
  apply (portable_unsigned_agree 64 (2 ^ 63) 2); vm_compute; repeat split; discriminate.
Defined.

(** On [int64_t] the portable subtraction agrees with the builtin everywhere,
    while the portable addition disagrees on exactly one operand pair,
    [INT64_MIN + INT64_MIN], whose wrapped sum 0 escapes the sign test. *)
Theorem portable_signed_agree a b :
  in_i 64 a -> in_i 64 b ->
  Portable.CheckOverflowSub_portable int64_ty a b = CheckOverflowSub int64_ty a b /\
  (Portable.CheckOverflowAdd_portable int64_ty a b = CheckOverflowAdd int64_ty a b <->
   ~ (a = INT64_MIN /\ b = INT64_MIN)).
Proof.
  intros. split; [by apply PortableFacts.sub_portable_signed64
    | by apply PortableFacts.add_portable_signed64].
Qed.

Lemma portable_signed_agree_witness :
  ~ (Portable.CheckOverflowAdd_portable int64_ty INT64_MIN INT64_MIN =
     CheckOverflowAdd int64_ty INT64_MIN INT64_MIN).
Proof.
  intros H. apply (portable_signed_agree INT64_MIN INT64_MIN) in H; [by destruct H|..];
    vm_compute; split; congruence.
Defined.
