(* ===== verification/ShapeSymbol.v ===== *)
(** * ShapeSymbol: symbolic dimensions and shapes

    [include/aethermind/shape_inference/shape_symbol.h] and its [.cpp]. The
    process-wide counter [next_symbol_] is passed explicitly; a fetch_sub is one
    step of it. Reads such as [GetStaticValue()] that the source guards with
    [IsStatic()] read [value] directly. *)
From S2P Require Import Prelude.

(* @src include/aethermind/shape_inference/shape_symbol.h:21-84 ShapeSymbol *)
Record ShapeSymbol := mkSym { value : Z }.

#[global] Instance ShapeSymbol_eq_dec : EqDecision ShapeSymbol.
Proof. solve_decision. Defined.

(* @src include/aethermind/shape_inference/shape_symbol.h:79-79 kUnknown *)
Definition kUnknown : Z := -1.
(* @src include/aethermind/shape_inference/shape_symbol.h:29-31 ShapeSymbol::IsStatic *)
Definition IsStatic (s : ShapeSymbol) : bool := 0 <=? value s.
(* @src include/aethermind/shape_inference/shape_symbol.h:33-35 ShapeSymbol::IsUnknown *)
Definition IsUnknown (s : ShapeSymbol) : bool := value s =? kUnknown.
(* @src include/aethermind/shape_inference/shape_symbol.h:37-39 ShapeSymbol::IsSymbolic *)
Definition IsSymbolic (s : ShapeSymbol) : bool := value s <? kUnknown.

(* @src include/aethermind/shape_inference/shape_symbol.h:41-44 ShapeSymbol::GetStaticValue *)
Definition GetStaticValue (s : ShapeSymbol) : Res Z :=
  _ ← am_check (IsStatic s) "IsStatic()"; Ret (value s).

(* @src include/aethermind/shape_inference/shape_symbol.h:48-56 ShapeSymbol::Unknown *)
Definition Unknown : ShapeSymbol := mkSym kUnknown.

(* @src include/aethermind/shape_inference/shape_symbol.h:58-64 ShapeSymbol::CreateFromValue *)
Definition CreateFromValue (val : Z) : Res ShapeSymbol :=
  _ ← am_check (0 <=? val) "CreateFromValue must take a non-negative value."; Ret (mkSym val).

(** [next_symbol_] starts at -2. *)
Definition next_symbol_init : Z := -2.

(* @src include/aethermind/shape_inference/shape_symbol.h:66-74 ShapeSymbol::Create *)
Definition Create (next_symbol : Z) : ShapeSymbol * Z :=
  (mkSym next_symbol, i64 (next_symbol - 1)).

(* @src include/aethermind/shape_inference/shape_symbol.h:46-46 ShapeSymbol::operator<=> *)
Definition sym_eqb (a b : ShapeSymbol) : bool := value a =? value b.

(* @src include/aethermind/shape_inference/shape_symbol.h:190-192 IsPositiveIfStatic *)
Definition IsPositiveIfStatic (dim : ShapeSymbol) : bool :=
  negb (IsStatic dim) || (0 <? value dim).

(* @src include/aethermind/shape_inference/shape_symbol.h:194-197 AreProvablyEqual *)
Definition AreProvablyEqual (lhs rhs : ShapeSymbol) : bool :=
  negb (IsUnknown lhs) && negb (IsUnknown rhs) && sym_eqb lhs rhs.

(* @src src/shape_inference/shape_symbol.cpp:119-131 JoinShapeSymbol *)
Definition JoinShapeSymbol (next : Z) (a b : ShapeSymbol) : ShapeSymbol * Z :=
  if sym_eqb a b then (a, next) else Create next.

(* @src src/shape_inference/shape_symbol.cpp:133-171 UnifyShapeSymbol *)
Definition UnifyShapeSymbol (a b : ShapeSymbol) : Res ShapeSymbol :=
  if sym_eqb a b then Ret a
  else if IsStatic a && IsStatic b then
    Fail (InvalidArgument "Shape Unification Failed: incompatible static dimensions.")
  else if IsStatic a then Ret a
  else if IsStatic b then Ret b
  else if IsUnknown a then Ret b
  else if IsUnknown b then Ret a
  else Ret Unknown.

(** A shape is unranked ([None]) or a vector of symbols. *)
(* @src include/aethermind/shape_inference/shape_symbol.h:104-183 SymbolicShape *)
Definition SymbolicShape : Type := option (list ShapeSymbol).

#[global] Instance SymbolicShape_eq_dec : EqDecision SymbolicShape.
Proof. unfold SymbolicShape. apply _. Defined.

(* @src include/aethermind/shape_inference/shape_symbol.h:125-127 SymbolicShape::IsRanked *)
Definition IsRanked (s : SymbolicShape) : bool := match s with Some _ => true | None => false end.
(* @src include/aethermind/shape_inference/shape_symbol.h:129-131 SymbolicShape::IsUnranked *)
Definition IsUnranked (s : SymbolicShape) : bool := negb (IsRanked s).
(* @src include/aethermind/shape_inference/shape_symbol.h:133-135 SymbolicShape::IsRankZero *)
Definition IsRankZero (s : SymbolicShape) : bool := match s with Some [] => true | _ => false end.

(* @src src/shape_inference/shape_symbol.cpp:50-55 SymbolicShape::rank *)
Definition rank (s : SymbolicShape) : option nat := length <$> s.

(* @src src/shape_inference/shape_symbol.cpp:10-14 SymbolicShape::SymbolicShape(optional<size_t>) *)
Definition of_rank (r : option nat) : SymbolicShape := (fun n => replicate n Unknown) <$> r.

(* @src src/shape_inference/shape_symbol.cpp:16-27 SymbolicShape::SymbolicShape(vector<optional<int64_t>>) *)
Definition of_optional_dims (l : list (option Z)) : Res SymbolicShape :=
  ds ← res_mapi (fun _ i => match i with
                           | Some v => CreateFromValue v
                           | None => Ret Unknown
                           end) 0 l;
  Ret (Some ds).

(* @src src/shape_inference/shape_symbol.cpp:29-36 SymbolicShape::SymbolicShape(IntArrayView) *)
Definition of_int_array (l : list Z) : Res SymbolicShape :=
  ds ← res_mapi (fun _ i => CreateFromValue i) 0 l; Ret (Some ds).

(** [operator[]]: both [AM_CHECK]s are observable. *)
(* @src src/shape_inference/shape_symbol.cpp:38-48 SymbolicShape::operator[] *)
Definition shape_at (s : SymbolicShape) (i : nat) : Res ShapeSymbol :=
  match s with
  | None => Panic "Cannot access dimensions of an Unranked shape."
  | Some l => match l !! i with
              | Some d => Ret d
              | None => Panic "Dimension index out of bounds."
              end
  end.

(* @src src/shape_inference/shape_symbol.cpp:57-69 SymbolicShape::GetSymbolicDims *)
Definition GetSymbolicDims (s : SymbolicShape) : option (list bool) :=
  fmap (M := option) (map (fun d => negb (IsStatic d))) s.

(* @src src/shape_inference/shape_symbol.cpp:71-77 SymbolicShape::IsStatic *)
Definition shape_IsStatic (s : SymbolicShape) : bool :=
  match s with None => false | Some l => forallb IsStatic l end.

(* @src include/aethermind/shape_inference/shape_symbol.h:185-188 HasRank *)
Definition HasRank (s : SymbolicShape) (r : nat) : bool :=
  match rank s with Some n => (n =? r)%nat | None => false end.

(** The dimension loop of [Join], threading the symbol counter. *)
(* @src src/shape_inference/shape_symbol.cpp:84-89 SymbolicShape::Join (loop) *)
Fixpoint join_dims (next : Z) (a b : list ShapeSymbol) : list ShapeSymbol * Z :=
  match a, b with
  | x :: a', y :: b' =>
      let '(d, next1) := JoinShapeSymbol next x y in
      let '(ds, next2) := join_dims next1 a' b' in (d :: ds, next2)
  | _, _ => ([], next)
  end.

(* @src src/shape_inference/shape_symbol.cpp:79-91 SymbolicShape::Join *)
Definition Join (next : Z) (s other : SymbolicShape) : SymbolicShape * Z :=
  match s, other with
  | Some a, Some b =>
      if (length a =? length b)%nat then
        let '(ds, next') := join_dims next a b in (Some ds, next')
      else (None, next)
  | _, _ => (None, next)
  end.

(* @src src/shape_inference/shape_symbol.cpp:101-111 SymbolicShape::Unify (loop) *)
Fixpoint unify_dims (a b : list ShapeSymbol) : Res (list ShapeSymbol) :=
  match a, b with
  | x :: a', y :: b' => d ← UnifyShapeSymbol x y; ds ← unify_dims a' b'; Ret (d :: ds)
  | _, _ => Ret []
  end.

(* @src src/shape_inference/shape_symbol.cpp:93-113 SymbolicShape::Unify *)
Definition Unify (s other : SymbolicShape) : Res SymbolicShape :=
  match s, other with
  | None, _ => Ret other
  | _, None => Ret s
  | Some a, Some b =>
      if (length a =? length b)%nat then ds ← unify_dims a b; Ret (Some ds)
      else Fail (InvalidArgument "Unification Failed: Rank mismatch.")
  end.

(** ** Meaning of symbols and shapes

    A valuation gives every generated symbol its runtime size; an [Unknown]
    dimension may be any size. *)
Definition valuation : Type := Z -> Z.

Definition dim_denotes (rho : valuation) (s : ShapeSymbol) (d : Z) : Prop :=
  0 <= d /\
  (if IsStatic s then d = value s else if IsUnknown s then True else d = rho (value s)).

Definition shape_denotes (rho : valuation) (s : SymbolicShape) (ds : list Z) : Prop :=
  match s with
  | None => Forall (fun d => 0 <= d) ds
  | Some l => Forall2 (dim_denotes rho) l ds
  end.

(** Two valuations agree on every symbol issued before the counter reached [n]. *)
Definition agree_above (n : Z) (r1 r2 : valuation) : Prop := forall v, n < v -> r1 v = r2 v.

(** ** Lemmas *)

Lemma sym_eqb_eq a b : sym_eqb a b = true <-> a = b.
Proof.
  destruct a as [x], b as [y]. unfold sym_eqb. simpl. rewrite Z.eqb_eq.
  split; congruence.
Qed.

Lemma sym_eqb_neq a b : sym_eqb a b = false <-> a <> b.
Proof. rewrite <- sym_eqb_eq. destruct (sym_eqb a b); intuition congruence. Qed.

(** Every symbol is exactly one of static, unknown, symbolic. *)
Lemma symbol_trichotomy s :
  (IsStatic s = true /\ IsUnknown s = false /\ IsSymbolic s = false /\ 0 <= value s) \/
  (IsStatic s = false /\ IsUnknown s = true /\ IsSymbolic s = false /\ s = Unknown) \/
  (IsStatic s = false /\ IsUnknown s = false /\ IsSymbolic s = true /\ value s <= -2).
Proof.
  destruct s as [v]. unfold IsStatic, IsUnknown, IsSymbolic, Unknown, kUnknown. simpl.
  destruct (Z.leb_spec 0 v); [left; repeat split; zcases; lia|].
  destruct (Z.eqb_spec v (-1)) as [->|]; right; [left; done|right; repeat split; zcases; lia].
Qed.

Ltac sym_cases s :=
  let E1 := fresh "Es" in let E2 := fresh "Eu" in let E3 := fresh "Ey" in
  let E4 := fresh "Ev" in
  destruct (symbol_trichotomy s) as [(E1 & E2 & E3 & E4)|[(E1 & E2 & E3 & E4)|(E1 & E2 & E3 & E4)]];
  rewrite ?E1, ?E2, ?E3 in *; simpl in *.

Lemma AreProvablyEqual_spec a b :
  AreProvablyEqual a b = true <-> a = b /\ a <> Unknown.
Proof.
  unfold AreProvablyEqual. rewrite !andb_true_iff, !negb_true_iff, sym_eqb_eq.
  destruct a as [x], b as [y]. unfold IsUnknown, Unknown, kUnknown. simpl.
  rewrite !Z.eqb_neq. intuition congruence.
Qed.

(** Proven equality holds under every valuation. *)
Lemma AreProvablyEqual_sound rho a b x y :
  AreProvablyEqual a b = true -> dim_denotes rho a x -> dim_denotes rho b y -> x = y.
Proof.
  rewrite AreProvablyEqual_spec. intros [<- Hu] [_ Hx] [_ Hy].
  sym_cases a; congruence.
Qed.

Lemma dim_denotes_static rho s d : IsStatic s = true -> dim_denotes rho s d -> d = value s.
Proof. intros Hs [_ H]. by rewrite Hs in H. Qed.

Lemma dim_denotes_unknown rho d : 0 <= d -> dim_denotes rho Unknown d.
Proof. done. Qed.

#[export] Hint Resolve dim_denotes_static dim_denotes_unknown : am.

Lemma shape_at_ret s i d :
  shape_at s i = Ret d <-> exists l, s = Some l /\ l !! i = Some d.
Proof.
  unfold shape_at. destruct s as [l|]; [|split; [discriminate|naive_solver]].
  destruct (l !! i) eqn:E; split; naive_solver.
Qed.

Lemma UnifyShapeSymbol_sound a b :
  match UnifyShapeSymbol a b with
  | Ret c => forall rho d, dim_denotes rho a d -> dim_denotes rho b d -> dim_denotes rho c d
  | Fail _ => forall rho d, dim_denotes rho a d -> dim_denotes rho b d -> False
  | Panic _ => False
  end.
Proof.
  unfold UnifyShapeSymbol. destruct (sym_eqb a b) eqn:E; [done|].
  apply sym_eqb_neq in E.
  sym_cases a; sym_cases b; try (intros rho d Ha Hb; done).
  - intros rho d Ha Hb. apply E. destruct a, b. f_equal. simpl.
    eapply dim_denotes_static in Ha, Hb; [|done..]. simpl in *. congruence.
  - intros rho d [Hd _] _. by apply dim_denotes_unknown.
Qed.

Lemma unify_dims_sound a b :
  length a = length b ->
  match unify_dims a b with
  | Ret c => forall rho ds, Forall2 (dim_denotes rho) a ds ->
               Forall2 (dim_denotes rho) b ds -> Forall2 (dim_denotes rho) c ds
  | Fail _ => forall rho ds, Forall2 (dim_denotes rho) a ds ->
               Forall2 (dim_denotes rho) b ds -> False
  | Panic _ => False
  end.
Proof.
  revert b. induction a as [|x a IH]; intros [|y b] Hl; simpl in *; [done|done|done|].
  pose proof (UnifyShapeSymbol_sound x y) as Hxy.
  destruct (UnifyShapeSymbol x y) as [c|s|w]; simpl; [|intros rho ds H1 H2|done].
  - specialize (IH b (Nat.succ_inj _ _ Hl)).
    destruct (unify_dims a b) as [cs|s|w]; simpl; [intros rho ds H1 H2|intros rho ds H1 H2|done];
      inversion H1; subst; inversion H2; subst; [constructor|]; eauto.
  - inversion H1; subst; inversion H2; subst; eauto.
Qed.

Lemma UnifyShapeSymbol_comm a b : UnifyShapeSymbol a b = UnifyShapeSymbol b a.
Proof.
  unfold UnifyShapeSymbol, sym_eqb. rewrite (Z.eqb_sym (value b)).
  destruct (value a =? value b) eqn:E.
  - apply Z.eqb_eq in E. destruct a, b. simpl in *. by subst.
  - sym_cases a; sym_cases b; subst; done.
Qed.

(** Symbols already issued when the counter stood at [n]. *)
Definition issued (n : Z) (s : ShapeSymbol) : Prop := n < value s.

Lemma Create_value n s n' :
  INT64_MIN < n <= -2 -> Create n = (s, n') -> value s = n /\ n' = n - 1.
Proof.
  unfold Create, INT64_MIN. intros Hn [= <- <-]. split; [done|].
  apply wrap_signed_id_iff; [lia|]. unfold in_i. lia.
Qed.

Lemma dim_denotes_agree n r1 r2 s d :
  issued n s -> agree_above n r1 r2 -> dim_denotes r1 s d -> dim_denotes r2 s d.
Proof.
  unfold issued, agree_above, dim_denotes. intros Hs Ha [H1 H2]. split; [done|].
  destruct (IsStatic s), (IsUnknown s); try done. by rewrite <- Ha.
Qed.

Lemma dims_denote_agree n r1 r2 l ds :
  Forall (issued n) l -> agree_above n r1 r2 ->
  Forall2 (dim_denotes r1) l ds -> Forall2 (dim_denotes r2) l ds.
Proof.
  intros Hl Ha Hd. induction Hd; inversion Hl; subst; constructor; [|auto].
  by eapply dim_denotes_agree.
Qed.

Lemma agree_above_trans n m r1 r2 r3 :
  m <= n -> agree_above n r1 r2 -> agree_above m r2 r3 -> agree_above n r1 r3.
Proof. intros H H1 H2 v Hv. rewrite H1 by done. apply H2. lia. Qed.

(** One joined dimension: it covers both sides under an extension of the
    valuation at the fresh symbol only. *)
Lemma JoinShapeSymbol_sound next a b c next' :
  INT64_MIN < next <= -2 -> issued next a ->
  JoinShapeSymbol next a b = (c, next') ->
  next - 1 <= next' <= next /\ issued next' c /\
  forall rho d, dim_denotes rho a d \/ dim_denotes rho b d ->
    exists rho', agree_above next rho rho' /\ dim_denotes rho' c d.
Proof.
  intros Hn Ha. unfold JoinShapeSymbol. destruct (sym_eqb a b) eqn:E.
  - apply sym_eqb_eq in E as <-. intros [= <- <-]. split; [lia|]. split; [done|].
    intros rho d H. exists rho. split; [done|]. tauto.
  - intros Hc. apply Create_value in Hc as [Hv ->]; [|done]. split; [lia|].
    split; [unfold issued; lia|]. intros rho d H.
    exists (fun v => if v =? next then d else rho v). split.
    + intros v Hlt. destruct (Z.eqb_spec v next); [lia|done].
    + split; [destruct H as [[? _]|[? _]]; done|].
      unfold IsStatic, IsUnknown, kUnknown. rewrite Hv, Z.eqb_refl. zcases; try lia; done.
Qed.

Lemma join_dims_sound a b next c next' :
  INT64_MIN + zlen a < next <= -2 -> Forall (issued next) a -> Forall (issued next) b ->
  length a = length b -> join_dims next a b = (c, next') ->
  next - zlen a <= next' <= next /\ Forall (issued next') c /\
  forall rho ds, Forall2 (dim_denotes rho) a ds \/ Forall2 (dim_denotes rho) b ds ->
    exists rho', agree_above next rho rho' /\ Forall2 (dim_denotes rho') c ds.
Proof.
  revert b next c next'. induction a as [|x a IH]; intros [|y b] next c next' Hn Ha Hb Hl Hj;
    simpl in *; try discriminate.
  - injection Hj as <- <-. unfold zlen. simpl. split; [lia|]. split; [constructor|].
    intros rho ds H. exists rho. split; [done|]. tauto.
  - assert (zlen (x :: a) = zlen a + 1) as Hz by (unfold zlen; simpl; lia).
    assert (0 <= zlen a) as Hz0 by (unfold zlen; lia). rewrite Hz in *.
    inversion Ha; subst. inversion Hb; subst.
    destruct (JoinShapeSymbol next x y) as [d n1] eqn:E1.
    destruct (join_dims n1 a b) as [ds' n2] eqn:E2. injection Hj as <- <-.
    apply JoinShapeSymbol_sound in E1 as (Hn1 & Hi & Hden); [|lia|done].
    eapply IH in E2 as (Hn2 & Hi2 & Hden2);
      [| lia | eapply Forall_impl; [done|unfold issued; lia]
       | eapply Forall_impl; [done|unfold issued; lia] | lia].
    split; [lia|]. split.
    { constructor; [unfold issued in *; lia|done]. }
    intros rho ds Hds.
    assert (exists z zs, ds = z :: zs /\ (dim_denotes rho x z \/ dim_denotes rho y z) /\
             (Forall2 (dim_denotes rho) a zs \/ Forall2 (dim_denotes rho) b zs))
      as (z & zs & -> & Hz1 & Hzs).
    { destruct Hds as [Hds|Hds]; inversion Hds; subst; eauto 10. }
    destruct (Hden rho z Hz1) as (rho1 & Hag1 & Hd1).
    assert (Forall2 (dim_denotes rho1) a zs \/ Forall2 (dim_denotes rho1) b zs) as Hzs1.
    { destruct Hzs as [Hzs|Hzs]; [left|right];
        by eapply dims_denote_agree; [| exact Hag1 | exact Hzs]. }
    destruct (Hden2 rho1 zs Hzs1) as (rho2 & Hag2 & Hd2).
    exists rho2. split; [eapply agree_above_trans; [|done..]; lia|].
    constructor; [|done]. eapply dim_denotes_agree; [exact Hi|exact Hag2|done].
Qed.

(** ** Properties *)

(** Shape unification is the intersection of the two shapes: every runtime
    shape both operands admit is admitted by the result, an error is reported
    only when no runtime shape satisfies both, and unification never aborts. *)
Theorem Unify_sound s other :
  match Unify s other with
  | Ret r => forall rho ds, shape_denotes rho s ds -> shape_denotes rho other ds ->
               shape_denotes rho r ds
  | Fail _ => forall rho ds, shape_denotes rho s ds -> shape_denotes rho other ds -> False
  | Panic _ => False
  end.
Proof.
  unfold Unify. destruct s as [a|], other as [b|]; try done.
  destruct (Nat.eqb_spec (length a) (length b)) as [Hl|Hl].
  - pose proof (unify_dims_sound a b Hl) as H. destruct (unify_dims a b); done.
  - intros rho ds Ha%Forall2_length Hb%Forall2_length. congruence.
Qed.

(** Joining two branch shapes covers both branches: any runtime shape of
    either branch is admitted by the joined shape once the fresh symbols the
    join allocated are given values, and valuations of previously issued
    symbols are untouched. *)
Theorem Join_covers s other next r next' :
  match s with Some l => INT64_MIN + zlen l < next /\ Forall (issued next) l | None => True end ->
  match other with Some l => Forall (issued next) l | None => True end ->
  next <= -2 ->
  Join next s other = (r, next') ->
  forall rho ds, shape_denotes rho s ds \/ shape_denotes rho other ds ->
    exists rho', agree_above next rho rho' /\ shape_denotes rho' r ds.
Proof.
  intros Hs Ho Hn HJ rho ds Hd.
  assert (Hnone : r = None -> exists rho', agree_above next rho rho' /\ shape_denotes rho' r ds).
  { intros ->. exists rho. split; [done|]. simpl.
    destruct s as [a|], other as [b|], Hd as [Hd|Hd]; simpl in *; try done;
      (eapply Forall2_Forall_r; [exact Hd|]); apply Forall_forall; by intros ? _ ? [? _]. }
  unfold Join in HJ. destruct s as [a|], other as [b|]; try (injection HJ as <- <-; auto; fail).
  destruct (Nat.eqb_spec (length a) (length b)) as [Hl|Hl]; [|injection HJ as <- <-; auto].
  destruct (join_dims next a b) as [c n2] eqn:E. injection HJ as <- <-.
  eapply join_dims_sound in E as (_ & _ & H); [|lia|tauto|done|done]. by apply H.
Qed.

Lemma Join_covers_witness :
  exists rho', agree_above (-3) (fun _ => 7) rho' /\
    shape_denotes rho' (fst (Join (-3) (Some [mkSym 16; mkSym (-2)]) (Some [mkSym 32; mkSym (-2)])))
      [32; 7].
Proof.
  apply (Join_covers (Some [mkSym 16; mkSym (-2)]) (Some [mkSym 32; mkSym (-2)]) (-3) _ (-4));
    [| | lia | reflexivity |].
  - split; [vm_compute; reflexivity|]. repeat constructor.
  - repeat constructor.
  - right. repeat constructor; vm_compute; congruence.
Defined.
