(* ===== verification/SymbolSolver.v ===== *)
(** * SymbolSolver: the plan-time equality solver

    [SymbolConstraintSolver] (symbol_constraint_solver.h and
    symbol_constraint_solver.cpp): a union-find over generated symbols with
    path compression, union by rank and static bindings kept at the roots. The
    three dense vectors are lists indexed by [GetIndex]. [FindRoot] and the
    [while] of [FindRootIfPresent] run on fuel; [root_fuel] (one more than the
    number of registered symbols) always suffices. *)
From S2P Require Import Prelude ShapeSymbol.

Module EvalResult.
(* @src include/aethermind/shape_inference/shape_constraint.h:24-28 ShapeConstraintEvaluationResult *)
Inductive t := kSatisfied | kViolated | kDeferred.
#[global] Instance eq_dec : EqDecision t.
Proof. solve_decision. Defined.
End EvalResult.

(* @src include/aethermind/shape_inference/symbol_constraint_solver.h:94-107 SymbolConstraintSolver *)
Record SymbolConstraintSolver := mkSolver {
  parents_ : list Z;
  ranks_ : list Z;
  static_bindings_ : list (option Z) }.

Definition empty_solver : SymbolConstraintSolver := mkSolver [] [] [].

(* @src include/aethermind/shape_inference/symbol_constraint_solver.h:87-92 SymbolConstraintSolver::GetIndex *)
Definition GetIndex (symbol_value : Z) : nat := Z.to_nat (- symbol_value - 2).

(** The symbol stored at index [i]: -(i+2). *)
Definition symbol_at (i : nat) : Z := - Z.of_nat i - 2.

(* @src src/shape_inference/symbol_constraint_solver.cpp:8-11 StaticConflict *)
Definition StaticConflict (lhs rhs : Z) : Status :=
  InvalidArgument ("Symbol constraint static dimension conflict: " +:+ pretty lhs +:+ " vs " +:+ pretty rhs).

(* @src src/shape_inference/symbol_constraint_solver.cpp:13-16 CompareStaticValues *)
Definition CompareStaticValues (lhs rhs : Z) : EvalResult.t :=
  if lhs =? rhs then EvalResult.kSatisfied else EvalResult.kViolated.

(* @src src/shape_inference/symbol_constraint_solver.cpp:159-173 SymbolConstraintSolver::EnsureSymbol *)
Definition EnsureSymbol (st : SymbolConstraintSolver) (v : Z) : SymbolConstraintSolver :=
  let idx := GetIndex v in
  let old := length (parents_ st) in
  if (old <=? idx)%nat then
    let k := (S idx - old)%nat in
    mkSolver (parents_ st ++ map symbol_at (seq old k))
             (ranks_ st ++ replicate k 0)
             (static_bindings_ st ++ replicate k None)
  else st.

Definition root_fuel (ps : list Z) : nat := S (length ps).

(** Returns the root and the compressed parent vector. *)
(* @src src/shape_inference/symbol_constraint_solver.cpp:175-182 SymbolConstraintSolver::FindRoot *)
Fixpoint FindRoot (fuel : nat) (ps : list Z) (v : Z) : Res (Z * list Z) :=
  match fuel with
  | O => Panic "FindRoot: fuel"
  | S fuel' =>
      match ps !! GetIndex v with
      | None => Panic "parents_ index"
      | Some p =>
          if v =? p then Ret (p, ps)
          else '(r, ps') ← FindRoot fuel' ps p; Ret (r, <[GetIndex v := r]> ps')
      end
  end.

(* @src src/shape_inference/symbol_constraint_solver.cpp:190-196 SymbolConstraintSolver::FindRootIfPresent (loop) *)
Fixpoint root_loop (fuel : nat) (ps : list Z) (current : Z) : Res Z :=
  match fuel with
  | O => Panic "FindRootIfPresent: fuel"
  | S fuel' =>
      match ps !! GetIndex current with
      | None => Panic "parents_ index"
      | Some parent => if parent =? current then Ret current else root_loop fuel' ps parent
      end
  end.

(* @src src/shape_inference/symbol_constraint_solver.cpp:184-197 SymbolConstraintSolver::FindRootIfPresent *)
Definition FindRootIfPresent (st : SymbolConstraintSolver) (v : Z) : Res (option Z) :=
  if (length (parents_ st) <=? GetIndex v)%nat then Ret None
  else r ← root_loop (root_fuel (parents_ st)) (parents_ st) v; Ret (Some r).

(* @src src/shape_inference/symbol_constraint_solver.cpp:199-205 SymbolConstraintSolver::StaticBindingForRoot *)
Definition StaticBindingForRoot (st : SymbolConstraintSolver) (root : Z) : option Z :=
  match static_bindings_ st !! GetIndex root with Some b => b | None => None end.

(* @src src/shape_inference/symbol_constraint_solver.cpp:207-216 SymbolConstraintSolver::BindRoot *)
Definition BindRoot (st : SymbolConstraintSolver) (root static_value : Z)
    : Res unit * SymbolConstraintSolver :=
  match static_bindings_ st !! GetIndex root with
  | None => (Panic "static_bindings_ index", st)
  | Some existing =>
      match existing with
      | Some e =>
          if negb (e =? static_value) then (Fail (StaticConflict e static_value), st)
          else (Ret tt, mkSolver (parents_ st) (ranks_ st)
                         (<[GetIndex root := Some static_value]> (static_bindings_ st)))
      | None => (Ret tt, mkSolver (parents_ st) (ranks_ st)
                         (<[GetIndex root := Some static_value]> (static_bindings_ st)))
      end
  end.

Definition set_parents (st : SymbolConstraintSolver) (ps : list Z) : SymbolConstraintSolver :=
  mkSolver ps (ranks_ st) (static_bindings_ st).

(* @src src/shape_inference/symbol_constraint_solver.cpp:78-96 SymbolConstraintSolver::AddEqual(ShapeSymbol, int64_t) *)
Definition AddEqual_static (st : SymbolConstraintSolver) (s : ShapeSymbol) (static_value : Z)
    : Res unit * SymbolConstraintSolver :=
  if static_value <? 0 then
    (Fail (InvalidArgument "Symbol constraint static value must be non-negative"), st)
  else if IsStatic s then
    if negb (value s =? static_value) then (Fail (StaticConflict (value s) static_value), st)
    else (Ret tt, st)
  else if IsUnknown s then (Ret tt, st)
  else
    let st1 := EnsureSymbol st (value s) in
    match FindRoot (root_fuel (parents_ st1)) (parents_ st1) (value s) with
    | Ret (r, ps) => BindRoot (set_parents st1 ps) r static_value
    | Fail e => (Fail e, st1)
    | Panic w => (Panic w, st1)
    end.

(** Attach [child] under [top], both roots, with their ranks and bindings. *)
(* @src src/shape_inference/symbol_constraint_solver.cpp:62-75 SymbolConstraintSolver::AddEqual (attach) *)
Definition attach_root (st : SymbolConstraintSolver) (top child top_rank child_rank : Z)
    (top_static child_static : option Z) : SymbolConstraintSolver :=
  let ti := GetIndex top in
  let ci := GetIndex child in
  let ps := <[ci := top]> (parents_ st) in
  let rs := if top_rank =? child_rank then <[ti := u8 (top_rank + 1)]> (ranks_ st)
            else ranks_ st in
  let bs := match child_static, top_static with
            | Some b, None => <[ci := None]> (<[ti := Some b]> (static_bindings_ st))
            | _, _ => static_bindings_ st
            end in
  mkSolver ps rs bs.

(** The union of two distinct roots: conflict test, swap by rank, attach. *)
(* @src src/shape_inference/symbol_constraint_solver.cpp:48-75 SymbolConstraintSolver::AddEqual (union) *)
Definition union_roots (st : SymbolConstraintSolver) (lhs_root rhs_root : Z)
    : Res unit * SymbolConstraintSolver :=
  let lhs_idx := GetIndex lhs_root in
  let rhs_idx := GetIndex rhs_root in
  match static_bindings_ st !! lhs_idx, static_bindings_ st !! rhs_idx,
        ranks_ st !! lhs_idx, ranks_ st !! rhs_idx with
  | Some lhs_static, Some rhs_static, Some lrank, Some rrank =>
      let joined :=
        if lrank <? rrank then attach_root st rhs_root lhs_root rrank lrank rhs_static lhs_static
        else attach_root st lhs_root rhs_root lrank rrank lhs_static rhs_static in
      match lhs_static, rhs_static with
      | Some a, Some b => if negb (a =? b) then (Fail (StaticConflict a b), st)
                          else (Ret tt, joined)
      | _, _ => (Ret tt, joined)
      end
  | _, _, _, _ => (Panic "vector index", st)
  end.

(** Both sides symbolic: register, find both roots (compressing), unite. *)
(* @src src/shape_inference/symbol_constraint_solver.cpp:40-75 SymbolConstraintSolver::AddEqual (symbolic) *)
Definition merge_symbols (st : SymbolConstraintSolver) (lhs rhs : Z)
    : Res unit * SymbolConstraintSolver :=
  let st1 := EnsureSymbol (EnsureSymbol st lhs) rhs in
  match FindRoot (root_fuel (parents_ st1)) (parents_ st1) lhs with
  | Ret (lhs_root, ps1) =>
      match FindRoot (root_fuel ps1) ps1 rhs with
      | Ret (rhs_root, ps2) =>
          let st2 := set_parents st1 ps2 in
          if lhs_root =? rhs_root then (Ret tt, st2) else union_roots st2 lhs_root rhs_root
      | Fail e => (Fail e, set_parents st1 ps1)
      | Panic w => (Panic w, set_parents st1 ps1)
      end
  | Fail e => (Fail e, st1)
  | Panic w => (Panic w, st1)
  end.

(* @src src/shape_inference/symbol_constraint_solver.cpp:20-76 SymbolConstraintSolver::AddEqual(ShapeSymbol, ShapeSymbol) *)
Definition AddEqual (st : SymbolConstraintSolver) (lhs rhs : ShapeSymbol)
    : Res unit * SymbolConstraintSolver :=
  if IsStatic lhs && IsStatic rhs then
    if negb (value lhs =? value rhs) then (Fail (StaticConflict (value lhs) (value rhs)), st)
    else (Ret tt, st)
  else if IsUnknown lhs || IsUnknown rhs then (Ret tt, st)
  else if IsStatic lhs then AddEqual_static st rhs (value lhs)
  else if IsStatic rhs then AddEqual_static st lhs (value rhs)
  else merge_symbols st (value lhs) (value rhs).

(* @src src/shape_inference/symbol_constraint_solver.cpp:143-157 SymbolConstraintSolver::GetStaticBinding *)
Definition GetStaticBinding (st : SymbolConstraintSolver) (s : ShapeSymbol) : Res (option Z) :=
  if IsStatic s then Ret (Some (value s))
  else if negb (IsSymbolic s) then Ret None
  else root ← FindRootIfPresent st (value s);
       match root with
       | None => Ret None
       | Some r => Ret (StaticBindingForRoot st r)
       end.

(* @src src/shape_inference/symbol_constraint_solver.cpp:130-136 SymbolConstraintSolver::EvaluateEqual (bindings) *)
Definition compare_bindings (a b : option Z) : EvalResult.t :=
  match a, b with
  | Some x, Some y => CompareStaticValues x y
  | _, _ => EvalResult.kDeferred
  end.

(* @src src/shape_inference/symbol_constraint_solver.cpp:98-137 SymbolConstraintSolver::EvaluateEqual *)
Definition EvaluateEqual (st : SymbolConstraintSolver) (lhs rhs : ShapeSymbol)
    : Res EvalResult.t :=
  if IsStatic lhs && IsStatic rhs then Ret (CompareStaticValues (value lhs) (value rhs))
  else if IsUnknown lhs || IsUnknown rhs then Ret EvalResult.kDeferred
  else if IsSymbolic lhs && IsSymbolic rhs && sym_eqb lhs rhs then Ret EvalResult.kSatisfied
  else if IsStatic lhs then
    b ← GetStaticBinding st rhs; Ret (compare_bindings (Some (value lhs)) b)
  else if IsStatic rhs then
    b ← GetStaticBinding st lhs; Ret (compare_bindings b (Some (value rhs)))
  else
    lr ← FindRootIfPresent st (value lhs);
    rr ← FindRootIfPresent st (value rhs);
    match lr, rr with
    | Some a, Some b =>
        if a =? b then Ret EvalResult.kSatisfied
        else ls ← GetStaticBinding st lhs; rs ← GetStaticBinding st rhs;
             Ret (compare_bindings ls rs)
    | _, _ => ls ← GetStaticBinding st lhs; rs ← GetStaticBinding st rhs;
              Ret (compare_bindings ls rs)
    end.

(* @src src/shape_inference/symbol_constraint_solver.cpp:139-141 SymbolConstraintSolver::AreEqual *)
Definition AreEqual (st : SymbolConstraintSolver) (lhs rhs : ShapeSymbol) : Res bool :=
  r ← EvaluateEqual st lhs rhs; Ret (bool_decide (r = EvalResult.kSatisfied)).

(** ** Invariant and abstract meaning *)

(** [path ps n v r]: following [n] parent links from [v] reaches the self-root [r]. *)
Inductive path (ps : list Z) : nat -> Z -> Z -> Prop :=
| path_self v : v <= -2 -> ps !! GetIndex v = Some v -> path ps 0 v v
| path_step n v p r : v <= -2 -> ps !! GetIndex v = Some p -> p <> v -> path ps n p r ->
                      path ps (S n) v r.

Definition rooted (ps : list Z) (v r : Z) : Prop := exists n, path ps n v r.

(** Well-formed solver: the vectors have one length, every entry reaches a root
    (so the forest is acyclic and closed) and bindings are sizes. *)
Record solver_wf (st : SymbolConstraintSolver) : Prop := {
  wf_ranks : length (ranks_ st) = length (parents_ st);
  wf_bindings : length (static_bindings_ st) = length (parents_ st);
  wf_rooted : forall v, v <= -2 -> (GetIndex v < length (parents_ st))%nat ->
                exists r, rooted (parents_ st) v r;
  wf_nonneg : forall i b, static_bindings_ st !! i = Some (Some b) -> 0 <= b }.

(** The facts a solver state stands for: the valuations that respect every
    class and every binding at a root. *)
Definition models (st : SymbolConstraintSolver) (rho : valuation) : Prop :=
  (forall v r, rooted (parents_ st) v r -> rho v = rho r) /\
  (forall r b, rooted (parents_ st) r r -> static_bindings_ st !! GetIndex r = Some (Some b) ->
     rho r = b).

(** The equation a pair of symbols denotes; an unknown side says nothing. *)
Definition sym_val (rho : valuation) (s : ShapeSymbol) : Z :=
  if IsStatic s then value s else rho (value s).

Definition equation (rho : valuation) (a b : ShapeSymbol) : Prop :=
  IsUnknown a = true \/ IsUnknown b = true \/ sym_val rho a = sym_val rho b.

(** ** Paths *)

Lemma GetIndex_inj v w : v <= -2 -> w <= -2 -> GetIndex v = GetIndex w -> v = w.
Proof. unfold GetIndex. lia. Qed.

Lemma GetIndex_symbol_at i : GetIndex (symbol_at i) = i.
Proof. unfold GetIndex, symbol_at. lia. Qed.

Lemma symbol_at_GetIndex v : v <= -2 -> symbol_at (GetIndex v) = v.
Proof. unfold GetIndex, symbol_at. lia. Qed.

Lemma path_neg ps n v r : path ps n v r -> v <= -2 /\ r <= -2.
Proof. induction 1; lia. Qed.

Lemma path_lookup ps n v r : path ps n v r -> (GetIndex v < length ps)%nat.
Proof. destruct 1; eapply lookup_lt_Some; done. Qed.

Lemma path_root ps n v r : path ps n v r -> ps !! GetIndex r = Some r.
Proof. induction 1; done. Qed.

Lemma path_root_self ps n v r : path ps n v r -> path ps 0 r r.
Proof. intros H. pose proof (path_neg _ _ _ _ H). constructor; [lia|]. by eapply path_root. Qed.

Lemma path_det ps n m v r s : path ps n v r -> path ps m v s -> n = m /\ r = s.
Proof.
  intros H. revert m s. induction H; intros m s Hm; inversion Hm; subst; simplify_eq; auto.
  destruct (IHpath _ _ ltac:(eassumption)); auto.
Qed.

Lemma rooted_det ps v r s : rooted ps v r -> rooted ps v s -> r = s.
Proof. intros [n H] [m H']. by destruct (path_det _ _ _ _ _ _ H H'). Qed.

Lemma rooted_root ps v r : rooted ps v r -> rooted ps r r.
Proof. intros [n H]. exists 0%nat. by eapply path_root_self. Qed.

Lemma rooted_self_iff ps r : rooted ps r r <-> r <= -2 /\ ps !! GetIndex r = Some r.
Proof.
  split.
  - intros [n H]. split; [by eapply path_neg|by eapply path_root].
  - intros [H1 H2]. exists 0%nat. by constructor.
Qed.

(** The nodes of a path are pairwise distinct, so a path is shorter than the
    vector: the fuel of the two traversals suffices. *)
Lemma path_nodes ps n v r :
  path ps n v r ->
  exists l, length l = S n /\ NoDup l /\
    forall x, x ∈ l -> (x < length ps)%nat /\ exists k, (k <= n)%nat /\ path ps k (symbol_at x) r.
Proof.
  induction 1 as [v Hv Hl | n v p r Hv Hl Hne Hp (l & Hlen & Hnd & Hin)].
  - exists [GetIndex v]. split; [done|]. split; [apply NoDup_singleton|].
    intros x ->%list_elem_of_singleton. split; [by eapply lookup_lt_Some|].
    exists 0%nat. rewrite symbol_at_GetIndex by done. split; [lia|]. by constructor.
  - exists (GetIndex v :: l). split; [simpl; lia|].
    assert (path ps (S n) v r) as Hfull by (by econstructor).
    split.
    + constructor; [|done]. intros (_ & k & Hk & Hpk)%Hin.
      rewrite symbol_at_GetIndex in Hpk by done.
      destruct (path_det _ _ _ _ _ _ Hpk Hfull). lia.
    + intros x [->|Hx]%elem_of_cons.
      * split; [by eapply lookup_lt_Some|]. exists (S n).
        rewrite symbol_at_GetIndex by done. split; [lia|done].
      * destruct (Hin x Hx) as (? & k & ? & ?). split; [done|]. exists k. split; [lia|done].
Qed.

Lemma path_short ps n v r : path ps n v r -> (n < length ps)%nat.
Proof.
  intros H. destruct (path_nodes _ _ _ _ H) as (l & Hlen & Hnd & Hin).
  assert (l ⊆+ seq 0 (length ps)) as Hs.
  { apply NoDup_submseteq; [done|]. intros x Hx. apply elem_of_seq.
    destruct (Hin x Hx). lia. }
  apply submseteq_length in Hs. rewrite length_seq in Hs. lia.
Qed.

Lemma root_loop_path ps n v r fuel :
  path ps n v r -> (n < fuel)%nat -> root_loop fuel ps v = Ret r.
Proof.
  intros H. revert fuel. induction H; intros [|fuel] Hf; try lia; simpl; rewrite H0.
  - by rewrite Z.eqb_refl.
  - destruct (Z.eqb_spec p v); [done|]. apply IHpath. lia.
Qed.

(** Redirecting any rooted node to its own root preserves roots and does not
    lengthen paths: the path-compression step. *)
Lemma path_compress ps v r n :
  rooted ps v r -> forall x s, path ps n x s -> rooted (<[GetIndex v := r]> ps) x s.
Proof.
  intros Hvr x s Hx. destruct Hvr as [nv Hv].
  pose proof (path_neg _ _ _ _ Hv) as [Hvn Hrn].
  pose proof (path_lookup _ _ _ _ Hv) as Hvl.
  pose proof (path_root _ _ _ _ Hv) as Hr.
  assert (Hself : path (<[GetIndex v := r]> ps) 0 r r).
  { constructor; [done|]. destruct (decide (GetIndex v = GetIndex r)) as [E|E].
    - rewrite E. apply list_lookup_insert_eq. rewrite <- E. done.
    - by rewrite list_lookup_insert_ne. }
  induction Hx as [y Hy Hl | n y p s Hy Hl Hne Hp IH].
  - destruct (decide (y = v)) as [->|Hyv].
    + assert (r = v) as -> by (eapply path_det; [exact Hv|by constructor]).
      by exists 0%nat.
    + exists 0%nat. constructor; [done|]. rewrite list_lookup_insert_ne; [done|].
      intros E. apply Hyv, GetIndex_inj; done.
  - destruct (decide (y = v)) as [->|Hyv].
    + assert (path ps (S n) v s) as Hvs by (by econstructor).
      destruct (path_det _ _ _ _ _ _ Hv Hvs) as [-> ->].
      exists 1%nat. apply (path_step _ 0 _ s); [done| by apply list_lookup_insert_eq | |done].
      intros ->. rewrite Hl in Hr. by simplify_eq.
    + destruct IH as [m IH]. exists (S m). econstructor; [done| |exact Hne|exact IH].
      rewrite list_lookup_insert_ne; [done|]. intros E. apply Hyv, GetIndex_inj; done.
Qed.

Definition all_rooted (ps : list Z) : Prop :=
  forall v, v <= -2 -> (GetIndex v < length ps)%nat -> exists r, rooted ps v r.

(** Parent vectors that represent the same forest up to path compression. *)
Definition same_roots (ps ps' : list Z) : Prop :=
  length ps = length ps' /\ forall x s, rooted ps x s <-> rooted ps' x s.

#[global] Instance same_roots_equiv : Equivalence same_roots.
Proof.
  split.
  - intros ps. done.
  - intros ps qs [H1 H2]. split; [done|]. intros x s. symmetry. apply H2.
  - intros ps qs rs [H1 H2] [H3 H4]. split; [congruence|]. intros x s.
    by rewrite H2, H4.
Qed.

#[global] Instance all_rooted_proper : Proper (same_roots ==> iff) all_rooted.
Proof.
  assert (forall ps qs, same_roots ps qs -> all_rooted ps -> all_rooted qs) as H.
  { intros ps qs [Hl Hr] Ha v Hv Hi. rewrite <- Hl in Hi.
    destruct (Ha v Hv Hi) as [r ?]. exists r. by apply Hr. }
  intros ps qs E. split; apply H; [done|by symmetry].
Qed.

Lemma rooted_range ps v r : rooted ps v r -> v <= -2 /\ (GetIndex v < length ps)%nat.
Proof. intros [n H]. split; [exact (proj1 (path_neg _ _ _ _ H))|by eapply path_lookup]. Qed.

Lemma compress_same_roots ps v r :
  all_rooted ps -> rooted ps v r -> same_roots ps (<[GetIndex v := r]> ps).
Proof.
  intros Ha Hv. split; [by rewrite length_insert|]. intros x s. split.
  - intros [n H]. by eapply path_compress.
  - intros H. destruct (rooted_range _ _ _ H) as [Hx Hi]. rewrite length_insert in Hi.
    destruct (Ha x Hx Hi) as [s' [n Hs]].
    assert (s' = s) as <-; [|by exists n].
    eapply rooted_det; [|exact H]. by eapply path_compress.
Qed.

Lemma FindRoot_path ps n v r fuel :
  all_rooted ps -> path ps n v r -> (n < fuel)%nat ->
  exists ps', FindRoot fuel ps v = Ret (r, ps') /\ same_roots ps ps'.
Proof.
  intros Ha Hp. revert fuel. induction Hp as [v Hv Hl | n v p r Hv Hl Hne Hp IH];
    intros [|fuel] Hf; try lia; simpl; rewrite Hl.
  - rewrite Z.eqb_refl. by exists ps.
  - destruct (Z.eqb_spec v p); [congruence|].
    destruct (IH fuel ltac:(lia)) as (ps1 & -> & Hs). simpl.
    exists (<[GetIndex v := r]> ps1). split; [done|]. rewrite Hs at 1.
    apply compress_same_roots; [by rewrite <- Hs|]. apply Hs. exists (S n). by econstructor.
Qed.

Lemma FindRoot_ok ps v :
  all_rooted ps -> v <= -2 -> (GetIndex v < length ps)%nat ->
  exists r ps', FindRoot (root_fuel ps) ps v = Ret (r, ps') /\ rooted ps v r /\ same_roots ps ps'.
Proof.
  intros Ha Hv Hi. destruct (Ha v Hv Hi) as [r [n Hp]]. exists r.
  pose proof (path_short _ _ _ _ Hp).
  destruct (FindRoot_path ps n v r (root_fuel ps)) as (ps' & ? & ?); [done|done|unfold root_fuel; lia|].
  exists ps'. split; [done|]. split; [by exists n|done].
Qed.

(** ** Growing the vectors *)

Lemma ensure_lookup ps k i v :
  (ps ++ map symbol_at (seq (length ps) k)) !! i = Some v <->
  ps !! i = Some v \/ ((length ps <= i < length ps + k)%nat /\ v = symbol_at i).
Proof.
  rewrite lookup_app_Some. split; (intros [H|[H1 H2]]; [by left|right]).
  - apply list_lookup_fmap_Some in H2 as (j & -> & Hj). apply lookup_seq in Hj as [-> Hj].
    split; [lia|]. f_equal. lia.
  - split; [lia|]. apply list_lookup_fmap_Some. exists i. split; [done|].
    apply lookup_seq. lia.
Qed.

Lemma path_grow ps qs n x s : path ps n x s -> path (ps ++ qs) n x s.
Proof.
  induction 1 as [v Hv Hl | n v p r Hv Hl Hne Hp IH].
  - constructor; [done|]. by apply lookup_app_l_Some.
  - econstructor; [done| by apply lookup_app_l_Some | done | done].
Qed.

Lemma ensure_rooted ps k x s :
  all_rooted ps ->
  rooted (ps ++ map symbol_at (seq (length ps) k)) x s <->
  rooted ps x s \/ (x = s /\ x <= -2 /\ (length ps <= GetIndex x < length ps + k)%nat).
Proof.
  intros Ha.
  assert (Hnew : forall y, y <= -2 -> (length ps <= GetIndex y < length ps + k)%nat ->
    rooted (ps ++ map symbol_at (seq (length ps) k)) y y).
  { intros y Hy Hi. exists 0%nat. constructor; [done|]. apply ensure_lookup. right.
    split; [done|]. by rewrite symbol_at_GetIndex. }
  split.
  - intros H. destruct (rooted_range _ _ _ H) as [Hx Hi].
    rewrite length_app, length_map, length_seq in Hi.
    destruct (decide (GetIndex x < length ps)%nat) as [Hlt|Hge].
    + left. destruct (Ha x Hx Hlt) as [s' [n Hs]].
      assert (s' = s) as <-; [|by exists n].
      eapply rooted_det; [|exact H]. exists n. by apply path_grow.
    + right. assert (s = x) as -> by (eapply rooted_det; [exact H|apply Hnew; [done|lia]]).
      split; [done|]. split; [done|lia].
  - intros [[n H]|[<- [Hx Hi]]]; [exists n; by apply path_grow|by apply Hnew].
Qed.

Lemma solver_wf_all_rooted st : solver_wf st -> all_rooted (parents_ st).
Proof. intros H. exact (wf_rooted st H). Qed.

Lemma EnsureSymbol_spec st v :
  solver_wf st -> v <= -2 ->
  solver_wf (EnsureSymbol st v) /\
  (forall rho, models (EnsureSymbol st v) rho <-> models st rho) /\
  (GetIndex v < length (parents_ (EnsureSymbol st v)))%nat /\
  (length (parents_ st) <= length (parents_ (EnsureSymbol st v)))%nat.
Proof.
  intros Hwf Hv. unfold EnsureSymbol.
  destruct (Nat.leb_spec (length (parents_ st)) (GetIndex v)) as [Hle|Hlt]; [|done].
  set (k := (S (GetIndex v) - length (parents_ st))%nat).
  pose proof (solver_wf_all_rooted _ Hwf) as Ha. destruct Hwf as [Hr Hb _ Hn]. simpl.
  assert (Hnew : forall r (b : Z), (static_bindings_ st ++ replicate k None) !! GetIndex r = Some (Some b) <->
            static_bindings_ st !! GetIndex r = Some (Some b)).
  { intros r b. rewrite lookup_app_Some. split; [intros [H|[_ H]]; [done|]|by left].
    apply lookup_replicate in H as [H _]. done. }
  assert (Hlen : length (parents_ st ++ map symbol_at (seq (length (parents_ st)) k)) =
                 (length (parents_ st) + k)%nat) by (by rewrite length_app, length_map, length_seq).
  split; [|split; [|lia]].
  - split; simpl; rewrite ?Hlen, ?length_app, ?length_replicate; try lia.
    + intros x Hx Hi.
      destruct (decide (GetIndex x < length (parents_ st))%nat) as [H|H].
      * destruct (Ha x Hx H) as [r ?]. exists r. apply ensure_rooted; [done|by left].
      * exists x. apply ensure_rooted; [done|]. right. split; [done|]. split; [done|lia].
    + intros i b. rewrite lookup_app_Some. intros [H|[_ H]]; [by eapply Hn|].
      apply lookup_replicate in H as [H _]. done.
  - intros rho. unfold models. simpl. split; intros [H1 H2]; split.
    + intros x s H. apply H1. apply ensure_rooted; [done|by left].
    + intros r b Hr1 Hb1. apply H2; [apply ensure_rooted; [done|by left]|]. by apply Hnew.
    + intros x s [H|[-> _]]%ensure_rooted; [by apply H1|done|done].
    + intros r b Hr1 Hb1%Hnew. apply H2; [|done].
      apply ensure_rooted in Hr1 as [Hr1|(_ & _ & Hi)]; [done| |done].
      apply lookup_lt_Some in Hb1. lia.
Qed.

Lemma set_parents_spec st ps :
  solver_wf st -> same_roots (parents_ st) ps ->
  solver_wf (set_parents st ps) /\ forall rho, models (set_parents st ps) rho <-> models st rho.
Proof.
  intros Hwf Hs. pose proof (solver_wf_all_rooted _ Hwf) as Ha. rewrite Hs in Ha.
  destruct Hwf as [Hr Hb _ Hn], Hs as [Hl Hs]. split.
  - split; simpl; [congruence|congruence|exact Ha|exact Hn].
  - intros rho. unfold models. simpl. by setoid_rewrite Hs.
Qed.

(** ** Binding a root *)

Lemma BindRoot_spec st r v :
  solver_wf st -> rooted (parents_ st) r r -> 0 <= v ->
  match BindRoot st r v with
  | (Ret _, st') => solver_wf st' /\ forall rho, models st' rho <-> models st rho /\ rho r = v
  | (Fail _, st') => st' = st /\ forall rho, models st rho -> rho r <> v
  | (Panic _, _) => False
  end.
Proof.
  intros [Hr Hb Ha Hn] Hroot Hv. pose proof (rooted_range _ _ _ Hroot) as [Hrn Hri].
  unfold BindRoot.
  assert (is_Some (static_bindings_ st !! GetIndex r)) as [e He]
    by (apply lookup_lt_is_Some; lia).
  rewrite He.
  assert (Hok : (forall b, e = Some b -> b = v) ->
    solver_wf (mkSolver (parents_ st) (ranks_ st) (<[GetIndex r := Some v]> (static_bindings_ st))) /\
    forall rho, models (mkSolver (parents_ st) (ranks_ st)
                  (<[GetIndex r := Some v]> (static_bindings_ st))) rho <-> models st rho /\ rho r = v).
  { intros Hev. split.
    - split; simpl; rewrite ?length_insert; [done|done|exact Ha|].
      intros i b. rewrite list_lookup_insert_Some. intros [(<- & [= <-] & _)|[_ H]]; [done|].
      by eapply Hn.
    - intros rho. unfold models. simpl. split.
      + intros [H1 H2]. assert (rho r = v) as Erv.
        { apply H2; [done|]. apply list_lookup_insert_eq. lia. }
        repeat split; [exact H1| |exact Erv].
        intros x b Hx Hb2. destruct (decide (GetIndex r = GetIndex x)) as [E|E].
        * assert (r = x) as <- by (apply GetIndex_inj; [done|by eapply rooted_range|done]).
          rewrite He in Hb2. injection Hb2 as ->. rewrite Erv. symmetry. by apply Hev.
        * apply H2; [done|]. by rewrite list_lookup_insert_ne.
      + intros [[H1 H2] Erv]. split; [exact H1|]. intros x b Hx.
        rewrite list_lookup_insert_Some. intros [(E & [= <-] & _)|[_ Hb2]]; [|by apply H2].
        assert (r = x) as <-; [|done].
        apply GetIndex_inj; [done|by eapply rooted_range|done]. }
  destruct e as [e|]; [|apply Hok; discriminate].
  destruct (Z.eqb_spec e v) as [->|Hne]; simpl; [apply Hok; by intros b [= ->]|].
  split; [done|]. intros rho [_ H2] E. apply Hne. rewrite <- E. symmetry. by apply H2.
Qed.

(** ** Union *)

Section Attach.
Context (ps : list Z) (top child : Z).
Hypothesis Hall : all_rooted ps.
Hypothesis Htop : rooted ps top top.
Hypothesis Hchild : rooted ps child child.
Hypothesis Hdiff : top <> child.

Let ps' := <[GetIndex child := top]> ps.

Lemma attach_top : path ps' 0 top top.
Proof.
  apply rooted_self_iff in Htop as [Ht Hl]. pose proof (rooted_range _ _ _ Hchild) as [Hc _].
  constructor; [done|]. unfold ps'. rewrite list_lookup_insert_ne; [done|].
  intros E. apply Hdiff. symmetry. by apply GetIndex_inj.
Qed.

Lemma attach_forward n x s :
  path ps n x s -> rooted ps' x (if s =? child then top else s).
Proof.
  pose proof (rooted_range _ _ _ Hchild) as [Hc Hci].
  pose proof (proj1 (rooted_self_iff _ _) Hchild) as [_ Hcl].
  induction 1 as [v Hv Hl | n v p r Hv Hl Hne Hp IH].
  - destruct (Z.eqb_spec v child) as [->|Hvc].
    + exists 1%nat. apply (path_step _ 0 _ top); [done| |done|apply attach_top].
      unfold ps'. apply list_lookup_insert_eq. by eapply lookup_lt_Some.
    + exists 0%nat. constructor; [done|]. unfold ps'. rewrite list_lookup_insert_ne; [done|].
      intros E. apply Hvc. symmetry. by apply GetIndex_inj.
  - destruct IH as [m IH]. exists (S m). econstructor; [done| |exact Hne|exact IH].
    unfold ps'. rewrite list_lookup_insert_ne; [done|]. intros E.
    assert (child = v) as <- by (by apply GetIndex_inj). simplify_eq.
Qed.

Lemma attach_rooted x s :
  rooted ps' x s <-> (rooted ps x s /\ s <> child) \/ (rooted ps x child /\ s = top).
Proof.
  split.
  - intros H. destruct (rooted_range _ _ _ H) as [Hx Hi]. unfold ps' in Hi.
    rewrite length_insert in Hi. destruct (Hall x Hx Hi) as [s0 [n Hs0]].
    pose proof (attach_forward _ _ _ Hs0) as H0.
    pose proof (rooted_det _ _ _ _ H H0) as E.
    destruct (Z.eqb_spec s0 child) as [Ec|Hne]; [right|left]; subst s.
    + split; [|done]. exists n. by rewrite <- Ec.
    + split; [by exists n|done].
  - intros [[[n H] Hne]|[[n H] Et]]; apply attach_forward in H.
    + by destruct (Z.eqb_spec s child).
    + rewrite Z.eqb_refl in H. by rewrite Et.
Qed.

Lemma attach_all_rooted : all_rooted ps'.
Proof.
  intros v Hv Hi. unfold ps' in Hi. rewrite length_insert in Hi.
  destruct (Hall v Hv Hi) as [r [n H]]. eexists. by eapply attach_forward.
Qed.
End Attach.

Lemma attach_bindings bs ti ci (tb cb : option Z) :
  ti <> ci -> bs !! ti = Some tb -> bs !! ci = Some cb ->
  let bs' := match cb, tb with
             | Some b, None => <[ci := None]> (<[ti := Some b]> bs)
             | _, _ => bs
             end in
  length bs' = length bs /\
  bs' !! ti = Some (match tb with Some _ => tb | None => cb end) /\
  (forall i, i <> ti -> i <> ci -> bs' !! i = bs !! i) /\
  (forall i b, bs' !! i = Some (Some b) -> exists j, bs !! j = Some (Some b)).
Proof.
  intros Hne Ht Hc. pose proof (lookup_lt_Some _ _ _ Ht).
  destruct cb as [b|], tb as [a|]; cbn; try (repeat split; eauto; fail).
  rewrite !length_insert. repeat split.
  - rewrite list_lookup_insert_ne by done. by apply list_lookup_insert_eq.
  - intros i Hi1 Hi2. by rewrite !list_lookup_insert_ne by done.
  - intros i b'. rewrite list_lookup_insert_Some, list_lookup_insert_Some.
    intros [(_ & E & _)|[_ [(_ & [= <-] & _)|[_ H']]]]; [discriminate|by exists ci|by exists i].
Qed.

Lemma attach_root_spec st top child tk ck tb cb :
  solver_wf st -> rooted (parents_ st) top top -> rooted (parents_ st) child child ->
  top <> child ->
  static_bindings_ st !! GetIndex top = Some tb ->
  static_bindings_ st !! GetIndex child = Some cb ->
  (forall a b, tb = Some a -> cb = Some b -> a = b) ->
  solver_wf (attach_root st top child tk ck tb cb) /\
  forall rho, models (attach_root st top child tk ck tb cb) rho <->
              models st rho /\ rho top = rho child.
Proof.
  intros Hwf Ht Hc Hne Htb Hcb Hagree.
  pose proof (solver_wf_all_rooted _ Hwf) as Ha. destruct Hwf as [Hr Hb _ Hn].
  assert (GetIndex top <> GetIndex child) as Hidx.
  { intros E. apply Hne. apply GetIndex_inj; [by eapply rooted_range..|done]. }
  destruct (attach_bindings _ _ _ _ _ Hidx Htb Hcb) as (Hbl & Hbt & Hbo & Hbx).
  pose proof (fun x s => attach_rooted _ _ _ Ha Ht Hc Hne x s) as Hroot.
  split.
  - split; cbn [attach_root parents_ static_bindings_ ranks_].
    + rewrite length_insert. destruct (tk =? ck); by rewrite ?length_insert.
    + rewrite length_insert. etrans; [exact Hbl|done].
    + by apply attach_all_rooted.
    + intros i b Hi. apply Hbx in Hi as [j Hj]. by eapply Hn.
  - intros rho. unfold models. cbn [attach_root parents_ static_bindings_].
    setoid_rewrite Hroot. split.
    + intros [H1 H2].
      assert (rho child = rho top) as Ect by (apply H1; right; by split).
      repeat split; [| |done].
      * intros v r Hv. destruct (decide (r = child)) as [->|Hrc].
        -- rewrite Ect. apply H1. by right.
        -- apply H1. by left.
      * intros r b Hrr Hrb. destruct (decide (r = child)) as [->|Hrc].
        -- rewrite Ect. apply H2; [left; by split|]. rewrite Hbt.
           rewrite Hcb in Hrb. injection Hrb as ->. destruct tb as [a|]; [|done].
           f_equal. f_equal. by apply Hagree.
        -- apply H2; [left; by split|]. destruct (decide (r = top)) as [->|Hrt].
           ++ rewrite Hbt. rewrite Htb in Hrb. by injection Hrb as ->.
           ++ rewrite Hbo; [done|..]; intros E; [apply Hrt|apply Hrc];
                (apply GetIndex_inj; [by eapply rooted_range..|done]).
    + intros [[H1 H2] Etc]. split.
      * intros v r [[Hv _]|[Hv ->]]; [by apply H1|]. rewrite Etc. by apply H1.
      * intros r b [[Hrr Hrc]|[Hrr ->]] Hrb.
        -- destruct (decide (r = top)) as [->|Hrt].
           ++ rewrite Hbt in Hrb. destruct tb as [a|].
              ** injection Hrb as ->. by apply H2.
              ** injection Hrb as ->. rewrite Etc. by apply H2.
           ++ rewrite Hbo in Hrb; [by apply H2|..]; intros E; [apply Hrt|apply Hrc];
                (apply GetIndex_inj; [by eapply rooted_range..|done]).
        -- pose proof (rooted_det _ _ _ _ Ht Hrr). done.
Qed.

Lemma union_roots_spec st l r :
  solver_wf st -> rooted (parents_ st) l l -> rooted (parents_ st) r r -> l <> r ->
  match union_roots st l r with
  | (Ret _, st') => solver_wf st' /\ forall rho, models st' rho <-> models st rho /\ rho l = rho r
  | (Fail _, st') => st' = st /\ forall rho, models st rho -> rho l <> rho r
  | (Panic _, _) => False
  end.
Proof.
  intros Hwf Hl Hr Hne. pose proof Hwf as [Hrl Hbl _ _]. unfold union_roots.
  pose proof (rooted_range _ _ _ Hl) as [_ Hli]. pose proof (rooted_range _ _ _ Hr) as [_ Hri].
  assert (is_Some (static_bindings_ st !! GetIndex l)) as [lb Hlb] by (apply lookup_lt_is_Some; lia).
  assert (is_Some (static_bindings_ st !! GetIndex r)) as [rb Hrb] by (apply lookup_lt_is_Some; lia).
  assert (is_Some (ranks_ st !! GetIndex l)) as [lk Hlk] by (apply lookup_lt_is_Some; lia).
  assert (is_Some (ranks_ st !! GetIndex r)) as [rk Hrk] by (apply lookup_lt_is_Some; lia).
  rewrite Hlb, Hrb, Hlk, Hrk.
  assert (Hok : (forall a b, lb = Some a -> rb = Some b -> a = b) ->
    let st' := if lk <? rk then attach_root st r l rk lk rb lb else attach_root st l r lk rk lb rb in
    solver_wf st' /\ forall rho, models st' rho <-> models st rho /\ rho l = rho r).
  { intros Hag. destruct (lk <? rk).
    - destruct (attach_root_spec st r l rk lk rb lb) as [H1 H2]; eauto.
      { intros a b ? ?. symmetry. eauto. }
      split; [done|]. intros rho. rewrite H2. intuition congruence.
    - destruct (attach_root_spec st l r lk rk lb rb) as [H1 H2]; eauto. }
  destruct lb as [a|], rb as [b|]; try (apply Hok; congruence).
  destruct (Z.eqb_spec a b) as [->|Hab]; simpl; [apply Hok; congruence|].
  split; [done|]. intros rho [_ H2] E. apply Hab.
  rewrite <- (H2 l a), <- (H2 r b) by done. done.
Qed.

(** ** Queries *)

(** The representative of a symbol's class; an unregistered symbol is alone. *)
Definition rootv (st : SymbolConstraintSolver) (v : Z) : Z :=
  match FindRootIfPresent st v with Ret (Some r) => r | _ => v end.

Lemma FindRootIfPresent_ok st v :
  solver_wf st -> v <= -2 ->
  ((length (parents_ st) <= GetIndex v)%nat /\ FindRootIfPresent st v = Ret None /\ rootv st v = v) \/
  (exists r, rooted (parents_ st) v r /\ FindRootIfPresent st v = Ret (Some r) /\ rootv st v = r).
Proof.
  intros Hwf Hv. unfold rootv, FindRootIfPresent.
  destruct (Nat.leb_spec (length (parents_ st)) (GetIndex v)) as [H|H]; [by left|right].
  destruct (wf_rooted _ Hwf v Hv H) as [r [n Hp]]. exists r.
  pose proof (path_short _ _ _ _ Hp).
  rewrite (root_loop_path _ n v r) by (done || (unfold root_fuel; lia)).
  split; [by exists n|done].
Qed.

Lemma rootv_rooted st v r : solver_wf st -> rooted (parents_ st) v r -> rootv st v = r.
Proof.
  intros Hwf H. pose proof (rooted_range _ _ _ H) as [Hv Hi].
  destruct (FindRootIfPresent_ok st v Hwf Hv) as [(Hge & _ & _)|(r' & Hr & _ & ->)]; [lia|].
  by eapply rooted_det.
Qed.

(** A valuation from values for the unbound classes. *)
Definition canon (st : SymbolConstraintSolver) (f : Z -> Z) : valuation :=
  fun v => match StaticBindingForRoot st (rootv st v) with Some b => b | None => f (rootv st v) end.

Lemma canon_models st f : solver_wf st -> models st (canon st f).
Proof.
  intros Hwf. split.
  - intros v r H. unfold canon. rewrite (rootv_rooted _ _ _ Hwf H).
    by rewrite (rootv_rooted _ _ _ Hwf (rooted_root _ _ _ H)).
  - intros r b Hr Hb. unfold canon. rewrite (rootv_rooted _ _ _ Hwf Hr).
    unfold StaticBindingForRoot. by rewrite Hb.
Qed.

Lemma canon_nonneg st f :
  solver_wf st -> (forall v, 0 <= f v) -> forall v, 0 <= canon st f v.
Proof.
  intros Hwf Hf v. unfold canon, StaticBindingForRoot.
  destruct (static_bindings_ st !! GetIndex (rootv st v)) as [[b|]|] eqn:E; [|done|done].
  by eapply wf_nonneg.
Qed.

(** What is known statically about a symbol. *)
Definition known (st : SymbolConstraintSolver) (s : ShapeSymbol) : option Z :=
  if IsStatic s then Some (value s) else StaticBindingForRoot st (rootv st (value s)).

Lemma GetStaticBinding_ok st s :
  solver_wf st -> IsUnknown s = false -> GetStaticBinding st s = Ret (known st s).
Proof.
  intros Hwf Hu. unfold GetStaticBinding, known. sym_cases s; [done|done|].
  destruct (FindRootIfPresent_ok st (value s) Hwf Ev)
    as [(Hge & -> & ->)|(r & Hr & -> & ->)]; simpl; [|done].
  unfold StaticBindingForRoot. by rewrite lookup_ge_None_2 by (rewrite (wf_bindings _ Hwf); lia).
Qed.

Lemma known_sound st s b rho :
  solver_wf st -> IsUnknown s = false -> known st s = Some b -> models st rho ->
  sym_val rho s = b.
Proof.
  intros Hwf Hu Hk [H1 H2]. unfold known, sym_val in *. sym_cases s; [by injection Hk|done|].
  destruct (FindRootIfPresent_ok st (value s) Hwf Ev) as [(Hge & _ & E)|(r & Hr & _ & E)];
    rewrite E in Hk; unfold StaticBindingForRoot in Hk.
  - rewrite lookup_ge_None_2 in Hk by (rewrite (wf_bindings _ Hwf); lia). done.
  - rewrite (H1 _ _ Hr). apply H2; [by eapply rooted_root|].
    by destruct (static_bindings_ st !! GetIndex r) as [[?|]|]; simplify_eq.
Qed.

Lemma sym_val_canon st f s :
  sym_val (canon st f) s =
  match known st s with Some b => b | None => f (rootv st (value s)) end.
Proof. unfold sym_val, known, canon. by destruct (IsStatic s). Qed.

(** Unequal classes can be told apart unless both are bound; they can also be
    made equal unless both are bound. *)
Lemma undetermined st a b :
  solver_wf st -> (forall v w, known st a = Some v -> known st b = Some w -> False) ->
  (known st a = None -> known st b = None -> rootv st (value a) <> rootv st (value b)) ->
  (exists rho, models st rho /\ (forall v, 0 <= rho v) /\ sym_val rho a = sym_val rho b) /\
  (exists rho, models st rho /\ (forall v, 0 <= rho v) /\ sym_val rho a <> sym_val rho b).
Proof.
  intros Hwf Hnb Hroots.
  assert (Hpos : forall s v, known st s = Some v -> 0 <= v).
  { intros s v. unfold known. destruct (IsStatic s) eqn:E.
    - intros [= <-]. by apply Z.leb_le.
    - unfold StaticBindingForRoot.
      destruct (static_bindings_ st !! GetIndex (rootv st (value s))) as [[x|]|] eqn:E2; [|done|done].
      intros [= <-]. by eapply wf_nonneg. }
  assert (Hmk : forall f, (forall v, 0 <= f v) ->
    models st (canon st f) /\ (forall v, 0 <= canon st f v)).
  { intros f Hf. split; [by apply canon_models|by apply canon_nonneg]. }
  destruct (known st a) as [va|] eqn:Ka, (known st b) as [vb|] eqn:Kb;
    [destruct (Hnb va vb); done|..].
  - pose proof (Hpos a va Ka). split; [exists (canon st (fun _ => va))|exists (canon st (fun _ => va + 1))];
      (destruct (Hmk (fun _ => va)); destruct (Hmk (fun _ => va + 1)); try lia);
      (split; [done|]; split; [done|]; rewrite !sym_val_canon, Ka, Kb; lia).
  - pose proof (Hpos b vb Kb). split; [exists (canon st (fun _ => vb))|exists (canon st (fun _ => vb + 1))];
      (destruct (Hmk (fun _ => vb)); destruct (Hmk (fun _ => vb + 1)); try lia);
      (split; [done|]; split; [done|]; rewrite !sym_val_canon, Ka, Kb; lia).
  - split.
    + exists (canon st (fun _ => 0)). destruct (Hmk (fun _ => 0)); [lia|].
      split; [done|]. split; [done|]. by rewrite !sym_val_canon, Ka, Kb.
    + set (f := fun r => if r =? rootv st (value a) then 0 else 1).
      exists (canon st f). destruct (Hmk f).
      { intros v. unfold f. destruct (v =? _); lia. }
      split; [done|]. split; [done|]. rewrite !sym_val_canon, Ka, Kb. unfold f.
      rewrite Z.eqb_refl. destruct (Z.eqb_spec (rootv st (value b)) (rootv st (value a))); [|done].
      by destruct Hroots.
Qed.

Lemma static_not_unknown s : IsStatic s = true -> IsUnknown s = false.
Proof. intros H. by sym_cases s. Qed.

Lemma compare_bindings_cases a b :
  match compare_bindings a b with
  | EvalResult.kSatisfied => exists v, a = Some v /\ b = Some v
  | EvalResult.kViolated => exists v w, a = Some v /\ b = Some w /\ v <> w
  | EvalResult.kDeferred => forall v w, a = Some v -> b = Some w -> False
  end.
Proof.
  destruct a as [v|], b as [w|]; simpl; try (intros; discriminate).
  unfold CompareStaticValues. destruct (Z.eqb_spec v w) as [->|]; [by exists w|].
  by exists v, w.
Qed.

(** The decision the solver's answer must agree with. *)
Definition answer_correct (st : SymbolConstraintSolver) (a b : ShapeSymbol) (r : Res EvalResult.t) : Prop :=
  match r with
  | Ret EvalResult.kSatisfied => forall rho, models st rho -> sym_val rho a = sym_val rho b
  | Ret EvalResult.kViolated => forall rho, models st rho -> sym_val rho a <> sym_val rho b
  | Ret EvalResult.kDeferred =>
      IsUnknown a = true \/ IsUnknown b = true \/
      (exists rho, models st rho /\ (forall v, 0 <= rho v) /\ sym_val rho a = sym_val rho b) /\
      (exists rho, models st rho /\ (forall v, 0 <= rho v) /\ sym_val rho a <> sym_val rho b)
  | _ => False
  end.

Lemma compare_known_correct st a b :
  solver_wf st -> IsUnknown a = false -> IsUnknown b = false ->
  (known st a = None -> known st b = None -> rootv st (value a) <> rootv st (value b)) ->
  answer_correct st a b (Ret (compare_bindings (known st a) (known st b))).
Proof.
  intros Hwf Ha Hb Hroots. unfold answer_correct.
  pose proof (compare_bindings_cases (known st a) (known st b)) as Hc.
  destruct (compare_bindings _ _).
  - destruct Hc as (v & Ka & Kb). intros rho Hm.
    by rewrite (known_sound st a v), (known_sound st b v).
  - destruct Hc as (v & w & Ka & Kb & Hvw). intros rho Hm.
    by rewrite (known_sound st a v), (known_sound st b w).
  - right. right. by apply undetermined.
Qed.

(** What an update of the solver must do to the facts it stands for. *)
Definition refines_with (st : SymbolConstraintSolver) (fact : valuation -> Prop)
    (res : Res unit * SymbolConstraintSolver) : Prop :=
  match res with
  | (Ret _, st') => solver_wf st' /\ forall rho, models st' rho <-> models st rho /\ fact rho
  | (Fail _, st') => solver_wf st' /\ (forall rho, models st' rho <-> models st rho) /\
      forall rho, models st rho -> ~ fact rho
  | (Panic _, _) => False
  end.

Lemma refines_with_iff st f g res :
  (forall rho, models st rho -> f rho <-> g rho) -> refines_with st f res -> refines_with st g res.
Proof.
  intros Hfg. destruct res as [[u|e|w] st']; simpl; [intros [H1 H2]|intros (H1 & H2 & H3)|done].
  - split; [done|]. intros rho. rewrite H2. split; intros [Hm ?]; (split; [done|]); by apply (Hfg rho Hm).
  - split; [done|]. split; [done|]. intros rho Hm Hg. apply (H3 rho Hm). by apply Hfg.
Qed.

Arguments FindRoot : simpl never.

Lemma AddEqual_static_refines st s v :
  solver_wf st -> 0 <= v ->
  refines_with st (fun rho => IsUnknown s = true \/ sym_val rho s = v) (AddEqual_static st s v).
Proof.
  intros Hwf Hv. unfold AddEqual_static, sym_val. destruct (Z.ltb_spec v 0); [lia|].
  sym_cases s.
  - destruct (Z.eqb_spec (value s) v); simpl.
    + split; [done|]. intros rho. tauto.
    + split; [done|]. split; [done|]. intros rho _ [|]; congruence.
  - split; [done|]. intros rho. tauto.
  - destruct (EnsureSymbol_spec st (value s) Hwf Ev) as (Hwf1 & Hm1 & Hi1 & _).
    set (st1 := EnsureSymbol st (value s)) in *.
    destruct (FindRoot_ok (parents_ st1) (value s)) as (r & ps & -> & Hr & Hs);
      [by apply solver_wf_all_rooted|done|done|].
    destruct (set_parents_spec st1 ps Hwf1 Hs) as [Hwf2 Hm2].
    assert (rooted ps (value s) r) as Hr2 by (by apply Hs).
    pose proof (BindRoot_spec (set_parents st1 ps) r v Hwf2 (rooted_root _ _ _ Hr2) Hv) as HB.
    assert (Hmm : forall rho, models (set_parents st1 ps) rho <-> models st rho)
      by (intros rho; by rewrite Hm2, Hm1).
    assert (Hval : forall rho, models st rho -> rho (value s) = rho r).
    { intros rho [H1 _]%Hmm. by apply H1. }
    apply (refines_with_iff st (fun rho => rho r = v)).
    { intros rho Hm. rewrite (Hval rho Hm). intuition congruence. }
    destruct (BindRoot _ r v) as [[u|e|w] st']; simpl; [| |done].
    + destruct HB as [? HB]. split; [done|]. intros rho. by rewrite HB, Hmm.
    + destruct HB as [-> HB]. split; [done|]. split; [done|].
      intros rho Hm. apply HB. by apply Hmm.
Qed.

Lemma merge_symbols_refines st l r :
  solver_wf st -> l <= -2 -> r <= -2 ->
  refines_with st (fun rho => rho l = rho r) (merge_symbols st l r).
Proof.
  intros Hwf Hav Hbv. unfold merge_symbols.
  destruct (EnsureSymbol_spec st l Hwf Hav) as (Hwf0 & Hm0 & Hi0 & _).
  destruct (EnsureSymbol_spec _ r Hwf0 Hbv) as (Hwf1 & Hm1 & Hi1 & Hle).
  set (st1 := EnsureSymbol (EnsureSymbol st l) r) in *.
  destruct (FindRoot_ok (parents_ st1) l) as (ra & ps1 & -> & Hra & Hs1);
    [by apply solver_wf_all_rooted|done|lia|].
  pose proof (proj1 (all_rooted_proper _ _ Hs1) (solver_wf_all_rooted _ Hwf1)) as Hall1.
  destruct (FindRoot_ok ps1 r) as (rb & ps2 & -> & Hrb & Hs2);
    [done|done|rewrite <- (proj1 Hs1); lia|].
  assert (same_roots (parents_ st1) ps2) as Hs by (by etrans).
  destruct (set_parents_spec st1 ps2 Hwf1 Hs) as [Hwf2 Hm2].
  apply (proj2 Hs) in Hra. apply (proj2 Hs2) in Hrb.
  assert (Hmm : forall rho, models (set_parents st1 ps2) rho <-> models st rho)
    by (intros rho; by rewrite Hm2, Hm1, Hm0).
  assert (Hval : forall rho, models st rho -> rho l = rho ra /\ rho r = rho rb).
  { intros rho [H1 _]%Hmm. split; by apply H1. }
  destruct (Z.eqb_spec ra rb) as [<-|Hne].
  - split; [done|]. intros rho. rewrite Hmm. split; [|tauto]. intros Hm. split; [done|].
    destruct (Hval rho Hm). congruence.
  - pose proof (union_roots_spec (set_parents st1 ps2) ra rb Hwf2 (rooted_root _ _ _ Hra)
                  (rooted_root _ _ _ Hrb) Hne) as HU.
    apply (refines_with_iff st (fun rho => rho ra = rho rb)).
    { intros rho Hm. destruct (Hval rho Hm) as [-> ->]. done. }
    destruct (union_roots _ ra rb) as [[u|e|w] st']; simpl; [| |done].
    + destruct HU as [? HU]. split; [done|]. intros rho. by rewrite HU, Hmm.
    + destruct HU as [-> HU]. split; [done|]. split; [done|].
      intros rho Hm. apply HU. by apply Hmm.
Qed.

Lemma empty_solver_wf : solver_wf empty_solver.
Proof. split; [done..| |]; simpl; [intros; lia|intros i b H; discriminate]. Qed.

(** ** Properties *)

(** C15: Recording an equality refines the solver's knowledge exactly: a success
    leaves precisely the valuations that satisfied the old facts and the new
    equation, a failure means no valuation satisfies both and the recorded
    facts are unchanged, the invariant is preserved and no vector access or
    root search can go wrong. *)
Theorem AddEqual_refines st a b :
  solver_wf st -> refines_with st (fun rho => equation rho a b) (AddEqual st a b).
Proof.
  intros Hwf. unfold AddEqual, equation.
  destruct (IsUnknown a || IsUnknown b) eqn:Eu.
  { assert (IsStatic a && IsStatic b = false) as ->.
    { sym_cases a; sym_cases b; done. }
    split; [done|]. intros rho. apply orb_true_iff in Eu. tauto. }
  apply orb_false_iff in Eu as [Eua Eub].
  destruct (IsStatic a) eqn:Esa, (IsStatic b) eqn:Esb; simpl.
  - unfold sym_val. rewrite Esa, Esb. destruct (Z.eqb_spec (value a) (value b)); simpl.
    + split; [done|]. intros rho. tauto.
    + split; [done|]. split; [done|]. intros rho _ [|[|]]; congruence.
  - eapply refines_with_iff; [|apply AddEqual_static_refines; [done|by apply Z.leb_le]].
    intros rho _. unfold sym_val at 2. rewrite Esa. intuition congruence.
  - eapply refines_with_iff; [|apply AddEqual_static_refines; [done|by apply Z.leb_le]].
    intros rho _. unfold sym_val at 3. rewrite Esb. intuition congruence.
  - eapply refines_with_iff; [|apply merge_symbols_refines; [done|sym_cases a; done|sym_cases b; done]].
    intros rho _. unfold sym_val. rewrite Esa, Esb. intuition congruence.
Qed.

Lemma AddEqual_refines_witness :
  refines_with empty_solver (fun rho => equation rho (mkSym (-2)) (mkSym (-4)))
    (AddEqual empty_solver (mkSym (-2)) (mkSym (-4))).
Proof.
  apply AddEqual_refines. exact empty_solver_wf.
Defined.

(** [EvaluateEqual] is a sound and complete decision of what the recorded
    facts imply: satisfied and violated answers hold in every valuation of the
    facts, and a deferred answer (for two known-kind symbols) leaves both an
    equal and an unequal non-negative valuation possible. *)
Theorem EvaluateEqual_decides st a b :
  solver_wf st -> answer_correct st a b (EvaluateEqual st a b).
Proof.
  intros Hwf. unfold EvaluateEqual.
  destruct (IsStatic a && IsStatic b) eqn:Es.
  { apply andb_true_iff in Es as [Esa Esb].
    change (CompareStaticValues (value a) (value b))
      with (compare_bindings (Some (value a)) (Some (value b))).
    replace (Some (value a)) with (known st a) by (unfold known; by rewrite Esa).
    replace (Some (value b)) with (known st b) by (unfold known; by rewrite Esb).
    apply compare_known_correct; [done| | |unfold known; by rewrite Esa];
      by apply static_not_unknown. }
  destruct (IsUnknown a || IsUnknown b) eqn:Eu.
  { simpl. apply orb_true_iff in Eu. tauto. }
  apply orb_false_iff in Eu as [Eua Eub].
  destruct (IsSymbolic a && IsSymbolic b && sym_eqb a b) eqn:Ey.
  { apply andb_true_iff in Ey as [_ Ey]. apply sym_eqb_eq in Ey as ->. done. }
  rewrite !GetStaticBinding_ok by done.
  destruct (IsStatic a) eqn:Esa; [|destruct (IsStatic b) eqn:Esb].
  - assert (K : known st a = Some (value a)) by (unfold known; by rewrite Esa).
    pose proof (compare_known_correct st a b Hwf Eua Eub) as H. rewrite K in H. by apply H.
  - assert (K : known st b = Some (value b)) by (unfold known; by rewrite Esb).
    pose proof (compare_known_correct st a b Hwf Eua Eub) as H. rewrite K in H. by apply H.
  - assert (value a <= -2 /\ value b <= -2 /\ a <> b) as (Hav & Hbv & Hab).
    { sym_cases a; try done. sym_cases b; try done. by apply sym_eqb_neq in Ey. }
    assert (value a <> value b) as Hvab by (destruct a, b; simpl in *; congruence).
    assert (Hgo : rootv st (value a) <> rootv st (value b) ->
      answer_correct st a b (Ret (compare_bindings (known st a) (known st b)))).
    { intros H. by apply compare_known_correct. }
    destruct (FindRootIfPresent_ok st (value a) Hwf Hav) as [(Hga & -> & Era)|(ra & Hra & -> & Era)],
             (FindRootIfPresent_ok st (value b) Hwf Hbv) as [(Hgb & -> & Erb)|(rb & Hrb & -> & Erb)];
      simpl; rewrite Era, Erb in Hgo.
    + by apply Hgo.
    + apply Hgo. intros E. apply rooted_root, rooted_range in Hrb as [_ Hi]. rewrite <- E in Hi. lia.
    + apply Hgo. intros E. apply rooted_root, rooted_range in Hra as [_ Hi]. rewrite E in Hi. lia.
    + destruct (Z.eqb_spec ra rb) as [<-|Hne]; [|by apply Hgo].
      intros rho [H1 _]. unfold sym_val. rewrite Esa, Esb.
      by rewrite (H1 _ _ Hra), (H1 _ _ Hrb).
Qed.

Lemma EvaluateEqual_decides_witness :
  answer_correct (snd (AddEqual empty_solver (mkSym (-2)) (mkSym (-4)))) (mkSym (-2)) (mkSym (-4))
    (Ret EvalResult.kSatisfied).
Proof.
  apply (EvaluateEqual_decides (snd (AddEqual empty_solver (mkSym (-2)) (mkSym (-4))))
           (mkSym (-2)) (mkSym (-4))).
  exact (proj1 (merge_symbols_refines empty_solver (-2) (-4) empty_solver_wf ltac:(lia) ltac:(lia))).
Defined.
