(* ===== verification/ShapeConstraint.v ===== *)
(** * ShapeConstraint: constraint data and its two evaluators

    [include/aethermind/shape_inference/shape_constraint.h] (the constraint
    variants operators emit) and
    [src/shape_inference/shape_constraint_evaluator.cpp] (the plan-time
    evaluator over symbolic shapes and the run-time evaluator over tensor
    views). A [TensorView] enters only through [shape()], so a view is its
    dimension list. *)
From S2P Require Import Prelude OverflowCheck ShapeSymbol SymbolSolver.

(** ** Data *)

Module TensorPortType.
(* @src include/aethermind/shape_inference/shape_constraint.h:15-18 TensorPortType *)
Inductive t := kInput | kOutput.
#[global] Instance eq_dec : EqDecision t.
Proof. solve_decision. Defined.
End TensorPortType.

(* @src include/aethermind/shape_inference/shape_constraint.h:31-36 TensorPort *)
Record TensorPort := mkPort { direction : TensorPortType.t; tensor_idx : nat }.
#[global] Instance TensorPort_eq_dec : EqDecision TensorPort.
Proof. solve_decision. Defined.

(* @src include/aethermind/shape_inference/shape_constraint.h:39-44 DimLocator *)
Record DimLocator := mkDim { tensor_port : TensorPort; dim_index : nat }.
#[global] Instance DimLocator_eq_dec : EqDecision DimLocator.
Proof. solve_decision. Defined.

(* @src include/aethermind/shape_inference/shape_constraint.h:46-104 ConstraintVariant *)
Inductive ConstraintVariant :=
| DimEqualConstraint (lhs rhs : DimLocator)
| DimBroadcastableConstraint (lhs rhs : DimLocator)
| VolumeEqualConstraint (lhs_dims rhs_dims : list DimLocator)
| RankEqualConstraint (port : TensorPort) (target_rank : nat)
| RankAtLeastConstraint (port : TensorPort) (min_rank : nat)
| DimPositiveConstraint (dim : DimLocator).
#[global] Instance ConstraintVariant_eq_dec : EqDecision ConstraintVariant.
Proof. solve_decision. Defined.

(* @src include/aethermind/shape_inference/shape_constraint.h:106-124 ShapeConstraint *)
Record ShapeConstraint := mkConstraint { condition : ConstraintVariant; error_context : string }.
#[global] Instance ShapeConstraint_eq_dec : EqDecision ShapeConstraint.
Proof. solve_decision. Defined.

Definition in_port (i : nat) : TensorPort := mkPort TensorPortType.kInput i.
Definition out_port (i : nat) : TensorPort := mkPort TensorPortType.kOutput i.
Definition in_dim (i d : nat) : DimLocator := mkDim (in_port i) d.
Definition out_dim (i d : nat) : DimLocator := mkDim (out_port i) d.

(** ** Resolution *)

(** The port's row in the input or the output span; a missing one is a failed check. *)
(* @src src/shape_inference/shape_constraint_evaluator.cpp:9-21 ResolveShape *)
Definition ResolveShape {A} (port : TensorPort) (inputs outputs : list A) : Res A :=
  match direction port with
  | TensorPortType.kInput =>
      match inputs !! tensor_idx port with
      | Some s => Ret s
      | None => Panic "Shape constraint references missing input tensor"
      end
  | TensorPortType.kOutput =>
      match outputs !! tensor_idx port with
      | Some s => Ret s
      | None => Panic "Shape constraint references missing output tensor"
      end
  end.

(* @src src/shape_inference/shape_constraint_evaluator.cpp:38-51 ResolveSymbolicDim *)
Definition ResolveSymbolicDim (loc : DimLocator) (inputs outputs : list SymbolicShape)
    : Res (option ShapeSymbol) :=
  s ← ResolveShape (tensor_port loc) inputs outputs;
  match s with
  | None => Ret None
  | Some l =>
      match l !! dim_index loc with
      | Some d => Ret (Some d)
      | None => Panic "Shape constraint references missing dimension"
      end
  end.

(** [ResolveTensor] and [ResolveMutableTensor] are the two arms of [ResolveShape]
    on dimension lists. *)
(* @src src/shape_inference/shape_constraint_evaluator.cpp:23-68 ResolveRuntimeDim *)
Definition ResolveRuntimeDim (loc : DimLocator) (inputs outputs : list (list Z)) : Res Z :=
  t ← ResolveShape (tensor_port loc) inputs outputs;
  match t !! dim_index loc with
  | Some d => Ret d
  | None => Panic "Shape constraint references missing dimension"
  end.

(* @src src/shape_inference/shape_constraint_evaluator.cpp:70-75 ResolveSymbolicRank *)
Definition ResolveSymbolicRank (port : TensorPort) (inputs outputs : list SymbolicShape)
    : Res (option nat) :=
  s ← ResolveShape port inputs outputs; Ret (rank s).

(* @src src/shape_inference/shape_constraint_evaluator.cpp:77-85 ResolveRuntimeRank *)
Definition ResolveRuntimeRank (port : TensorPort) (inputs outputs : list (list Z)) : Res nat :=
  t ← ResolveShape port inputs outputs; Ret (length t).

(** ** Symbolic evaluation *)

Definition eval_bool (b : bool) : EvalResult.t :=
  if b then EvalResult.kSatisfied else EvalResult.kViolated.

(* @src src/shape_inference/shape_constraint_evaluator.cpp:87-98 EvaluateSymbolicDimEqual *)
Definition EvaluateSymbolicDimEqual (lhs rhs : ShapeSymbol) : EvalResult.t :=
  if sym_eqb lhs rhs then EvalResult.kSatisfied
  else if IsStatic lhs && IsStatic rhs then EvalResult.kViolated
  else EvalResult.kDeferred.

(* @src src/shape_inference/shape_constraint_evaluator.cpp:100-119 EvaluateSymbolicDimBroadcastable *)
Definition EvaluateSymbolicDimBroadcastable (lhs rhs : ShapeSymbol) : EvalResult.t :=
  if sym_eqb lhs rhs then EvalResult.kSatisfied
  else if IsStatic lhs && (value lhs =? 1) then EvalResult.kSatisfied
  else if IsStatic rhs && (value rhs =? 1) then EvalResult.kSatisfied
  else if IsStatic lhs && IsStatic rhs then EvalResult.kViolated
  else EvalResult.kDeferred.

(* @src src/shape_inference/shape_constraint_evaluator.cpp:121-128 EvaluateSymbolicDimPositive *)
Definition EvaluateSymbolicDimPositive (dim : ShapeSymbol) : EvalResult.t :=
  if negb (IsStatic dim) then EvalResult.kDeferred else eval_bool (0 <? value dim).

(** Both dimensions are resolved before either is inspected. *)
(* @src src/shape_inference/shape_constraint_evaluator.cpp:130-154 EvaluateSymbolicDimEqualConstraint, EvaluateSymbolicBroadcastableConstraint *)
Definition EvaluateSymbolicPair (f : ShapeSymbol -> ShapeSymbol -> EvalResult.t)
    (lhs rhs : DimLocator) (inputs outputs : list SymbolicShape) : Res EvalResult.t :=
  l ← ResolveSymbolicDim lhs inputs outputs;
  r ← ResolveSymbolicDim rhs inputs outputs;
  match l, r with
  | Some a, Some b => Ret (f a b)
  | _, _ => Ret EvalResult.kDeferred
  end.

(* @src src/shape_inference/shape_constraint_evaluator.cpp:156-165 EvaluateSymbolicDimPositiveConstraint *)
Definition EvaluateSymbolicDimPositiveConstraint (dim : DimLocator)
    (inputs outputs : list SymbolicShape) : Res EvalResult.t :=
  d ← ResolveSymbolicDim dim inputs outputs;
  match d with
  | None => Ret EvalResult.kDeferred
  | Some s => Ret (EvaluateSymbolicDimPositive s)
  end.

(* @src src/shape_inference/shape_constraint_evaluator.cpp:175-183 HaveIdenticalSymbolicDims (loop) *)
Fixpoint identical_dims (lhs rhs : list DimLocator) (inputs outputs : list SymbolicShape)
    : Res bool :=
  match lhs, rhs with
  | l :: lhs', r :: rhs' =>
      a ← ResolveSymbolicDim l inputs outputs;
      b ← ResolveSymbolicDim r inputs outputs;
      match a, b with
      | Some x, Some y => if sym_eqb x y then identical_dims lhs' rhs' inputs outputs else Ret false
      | _, _ => Ret false
      end
  | _, _ => Ret true
  end.

(* @src src/shape_inference/shape_constraint_evaluator.cpp:167-184 HaveIdenticalSymbolicDims *)
Definition HaveIdenticalSymbolicDims (lhs rhs : list DimLocator)
    (inputs outputs : list SymbolicShape) : Res bool :=
  if (length lhs =? length rhs)%nat then identical_dims lhs rhs inputs outputs else Ret false.

(** [None] is the deferred flag: the loop stops at the first dimension that is
    not static or whose product overflows. *)
(* @src src/shape_inference/shape_constraint_evaluator.cpp:196-213 EvaluateSymbolicVolumeConstraint::compute_volume *)
Fixpoint symbolic_volume (locs : list DimLocator) (product : Z)
    (inputs outputs : list SymbolicShape) : Res (option Z) :=
  match locs with
  | [] => Ret (Some product)
  | loc :: locs' =>
      d ← ResolveSymbolicDim loc inputs outputs;
      match d with
      | Some s =>
          if IsStatic s then
            let '(o, p) := CheckOverflowMul uint64_ty product (u64 (value s)) in
            if o then Ret None else symbolic_volume locs' p inputs outputs
          else Ret None
      | None => Ret None
      end
  end.

(* @src src/shape_inference/shape_constraint_evaluator.cpp:186-228 EvaluateSymbolicVolumeConstraint *)
Definition EvaluateSymbolicVolumeConstraint (lhs rhs : list DimLocator)
    (inputs outputs : list SymbolicShape) : Res EvalResult.t :=
  same ← HaveIdenticalSymbolicDims lhs rhs inputs outputs;
  if (same : bool) then Ret EvalResult.kSatisfied
  else
    l ← symbolic_volume lhs 1 inputs outputs;
    r ← symbolic_volume rhs 1 inputs outputs;
    match l, r with
    | Some a, Some b => Ret (eval_bool (a =? b))
    | _, _ => Ret EvalResult.kDeferred
    end.

(* @src src/shape_inference/shape_constraint_evaluator.cpp:230-254 EvaluateSymbolicRankEqualConstraint, EvaluateSymbolicRankAtLeastConstraint *)
Definition EvaluateSymbolicRank (f : nat -> bool) (port : TensorPort)
    (inputs outputs : list SymbolicShape) : Res EvalResult.t :=
  r ← ResolveSymbolicRank port inputs outputs;
  match r with
  | None => Ret EvalResult.kDeferred
  | Some n => Ret (eval_bool (f n))
  end.

(* @src src/shape_inference/shape_constraint_evaluator.cpp:339-363 EvaluateShapeConstraint(SymbolicShape) *)
Definition EvaluateShapeConstraint (c : ShapeConstraint) (inputs outputs : list SymbolicShape)
    : Res EvalResult.t :=
  match condition c with
  | DimEqualConstraint l r => EvaluateSymbolicPair EvaluateSymbolicDimEqual l r inputs outputs
  | DimBroadcastableConstraint l r =>
      EvaluateSymbolicPair EvaluateSymbolicDimBroadcastable l r inputs outputs
  | VolumeEqualConstraint l r => EvaluateSymbolicVolumeConstraint l r inputs outputs
  | RankEqualConstraint p n => EvaluateSymbolicRank (fun r => (r =? n)%nat) p inputs outputs
  | RankAtLeastConstraint p n => EvaluateSymbolicRank (fun r => (n <=? r)%nat) p inputs outputs
  | DimPositiveConstraint d => EvaluateSymbolicDimPositiveConstraint d inputs outputs
  end.

(** ** Run-time evaluation *)

(* @src src/shape_inference/shape_constraint_evaluator.cpp:256-260 EvaluateRuntimeDimEqual *)
Definition EvaluateRuntimeDimEqual (lhs rhs : Z) : EvalResult.t := eval_bool (lhs =? rhs).

(* @src src/shape_inference/shape_constraint_evaluator.cpp:262-266 EvaluateRuntimeBroadcastable *)
Definition EvaluateRuntimeBroadcastable (lhs rhs : Z) : EvalResult.t :=
  eval_bool ((lhs =? rhs) || (lhs =? 1) || (rhs =? 1)).

(* @src src/shape_inference/shape_constraint_evaluator.cpp:268-271 EvaluateRuntimeDimPositive *)
Definition EvaluateRuntimeDimPositive (dim : Z) : EvalResult.t := eval_bool (0 <? dim).

(* @src src/shape_inference/shape_constraint_evaluator.cpp:273-289 EvaluateRuntimeDimEqualConstraint, EvaluateRuntimeBroadcastableConstraint *)
Definition EvaluateRuntimePair (f : Z -> Z -> EvalResult.t) (lhs rhs : DimLocator)
    (inputs outputs : list (list Z)) : Res EvalResult.t :=
  l ← ResolveRuntimeDim lhs inputs outputs;
  r ← ResolveRuntimeDim rhs inputs outputs;
  Ret (f l r).

(* @src src/shape_inference/shape_constraint_evaluator.cpp:291-297 EvaluateRuntimeDimPositiveConstraint *)
Definition EvaluateRuntimeDimPositiveConstraint (dim : DimLocator)
    (inputs outputs : list (list Z)) : Res EvalResult.t :=
  d ← ResolveRuntimeDim dim inputs outputs; Ret (EvaluateRuntimeDimPositive d).

Definition volume_overflow : string := "Shape constraint volume overflows uint64_t".

(* @src src/shape_inference/shape_constraint_evaluator.cpp:303-311 EvaluateRuntimeVolumeConstraint::compute_volume *)
Fixpoint runtime_volume (locs : list DimLocator) (product : Z) (inputs outputs : list (list Z))
    : Res Z :=
  match locs with
  | [] => Ret product
  | loc :: locs' =>
      d ← ResolveRuntimeDim loc inputs outputs;
      let '(o, p) := CheckOverflowMul uint64_ty product (u64 d) in
      _ ← am_check (negb o) volume_overflow;
      runtime_volume locs' p inputs outputs
  end.

(* @src src/shape_inference/shape_constraint_evaluator.cpp:299-317 EvaluateRuntimeVolumeConstraint *)
Definition EvaluateRuntimeVolumeConstraint (lhs rhs : list DimLocator)
    (inputs outputs : list (list Z)) : Res EvalResult.t :=
  l ← runtime_volume lhs 1 inputs outputs;
  r ← runtime_volume rhs 1 inputs outputs;
  Ret (eval_bool (l =? r)).

(* @src src/shape_inference/shape_constraint_evaluator.cpp:319-335 EvaluateRuntimeRankEqualConstraint, EvaluateRuntimeRankAtLeastConstraint *)
Definition EvaluateRuntimeRank (f : nat -> bool) (port : TensorPort)
    (inputs outputs : list (list Z)) : Res EvalResult.t :=
  r ← ResolveRuntimeRank port inputs outputs; Ret (eval_bool (f r)).

(* @src src/shape_inference/shape_constraint_evaluator.cpp:365-389 EvaluateShapeConstraint(TensorView) *)
Definition EvaluateShapeConstraint_runtime (c : ShapeConstraint) (inputs outputs : list (list Z))
    : Res EvalResult.t :=
  match condition c with
  | DimEqualConstraint l r => EvaluateRuntimePair EvaluateRuntimeDimEqual l r inputs outputs
  | DimBroadcastableConstraint l r =>
      EvaluateRuntimePair EvaluateRuntimeBroadcastable l r inputs outputs
  | VolumeEqualConstraint l r => EvaluateRuntimeVolumeConstraint l r inputs outputs
  | RankEqualConstraint p n => EvaluateRuntimeRank (fun r => (r =? n)%nat) p inputs outputs
  | RankAtLeastConstraint p n => EvaluateRuntimeRank (fun r => (n <=? r)%nat) p inputs outputs
  | DimPositiveConstraint d => EvaluateRuntimeDimPositiveConstraint d inputs outputs
  end.

Definition violation_status (c : ShapeConstraint) : Status :=
  InvalidArgument (if bool_decide (error_context c = "") then "Runtime shape constraint violated"
                   else error_context c).

(* @src src/shape_inference/shape_constraint_evaluator.cpp:391-407 ValidateShapeConstraints *)
Definition ValidateShapeConstraints (cs : list ShapeConstraint) (inputs outputs : list (list Z))
    : Res unit :=
  res_iter (fun c =>
    r ← EvaluateShapeConstraint_runtime c inputs outputs;
    match r with
    | EvalResult.kViolated => Fail (violation_status c)
    | EvalResult.kDeferred => Fail (Internal "Runtime shape constraint evaluation returned kDeferred; all dimensions are concrete at runtime, this indicates a bug")
    | EvalResult.kSatisfied => Ret tt
    end) cs.

(** ** Meaning of constraints *)

Definition port_at {A} (p : TensorPort) (ins outs : list A) : option A :=
  match direction p with
  | TensorPortType.kInput => ins !! tensor_idx p
  | TensorPortType.kOutput => outs !! tensor_idx p
  end.

(** [locates ins outs l d]: locator [l] points at a dimension of size [d]. *)
Definition locates (ins outs : list (list Z)) (l : DimLocator) (d : Z) : Prop :=
  exists t, port_at (tensor_port l) ins outs = Some t /\ t !! dim_index l = Some d.

(** Every reference of the constraint exists. *)
Definition located (ins outs : list (list Z)) (c : ConstraintVariant) : Prop :=
  match c with
  | DimEqualConstraint l r | DimBroadcastableConstraint l r =>
      (exists x, locates ins outs l x) /\ exists y, locates ins outs r y
  | VolumeEqualConstraint ls rs =>
      (exists a, Forall2 (locates ins outs) ls a) /\ exists b, Forall2 (locates ins outs) rs b
  | RankEqualConstraint p _ | RankAtLeastConstraint p _ => exists t, port_at p ins outs = Some t
  | DimPositiveConstraint d => exists x, locates ins outs d x
  end.

(** What the constraint says of concrete shapes, over unbounded integers. *)
Definition holds (ins outs : list (list Z)) (c : ConstraintVariant) : Prop :=
  match c with
  | DimEqualConstraint l r =>
      forall x y, locates ins outs l x -> locates ins outs r y -> x = y
  | DimBroadcastableConstraint l r =>
      forall x y, locates ins outs l x -> locates ins outs r y -> x = y \/ x = 1 \/ y = 1
  | VolumeEqualConstraint ls rs =>
      forall a b, Forall2 (locates ins outs) ls a -> Forall2 (locates ins outs) rs b ->
        product a = product b
  | RankEqualConstraint p n => forall t, port_at p ins outs = Some t -> length t = n
  | RankAtLeastConstraint p n => forall t, port_at p ins outs = Some t -> (n <= length t)%nat
  | DimPositiveConstraint d => forall x, locates ins outs d x -> 0 < x
  end.

(** Some partial product of the locators' dimensions leaves [uint64_t]. *)
Definition exceeds (ins outs : list (list Z)) (ls : list DimLocator) : Prop :=
  exists ds k, Forall2 (locates ins outs) ls ds /\ UINT64_MAX < product (take k ds).

Definition volume_exceeds (ins outs : list (list Z)) (c : ConstraintVariant) : Prop :=
  match c with
  | VolumeEqualConstraint ls rs => exceeds ins outs ls \/ exceeds ins outs rs
  | _ => False
  end.

(** Dimensions of a tensor view are non-negative [int64_t]. *)
Definition view_dims (ins outs : list (list Z)) : Prop :=
  Forall (Forall (in_u 63)) ins /\ Forall (Forall (in_u 63)) outs.

(** Two different locators that both resolve to an unconstrained dimension. *)
Definition both_unknown (ins outs : list SymbolicShape) (l r : DimLocator) : Prop :=
  l <> r /\ ResolveSymbolicDim l ins outs = Ret (Some Unknown) /\
  ResolveSymbolicDim r ins outs = Ret (Some Unknown).

Definition pairs_of (c : ConstraintVariant) : list (DimLocator * DimLocator) :=
  match c with
  | DimEqualConstraint l r | DimBroadcastableConstraint l r => [(l, r)]
  | VolumeEqualConstraint ls rs => zip ls rs
  | _ => []
  end.

Definition unknown_free (ins outs : list SymbolicShape) (c : ConstraintVariant) : Prop :=
  Forall (fun p => ~ both_unknown ins outs p.1 p.2) (pairs_of c).

#[local] Opaque CheckOverflowMul.

(** ** Lemmas: run time *)

Lemma ResolveShape_ret {A} p (ins outs : list A) s :
  ResolveShape p ins outs = Ret s <-> port_at p ins outs = Some s.
Proof.
  unfold ResolveShape, port_at.
  destruct (direction p); [destruct (ins !! _)|destruct (outs !! _)]; split; congruence.
Qed.

Lemma ResolveRuntimeDim_ret ins outs l d :
  ResolveRuntimeDim l ins outs = Ret d <-> locates ins outs l d.
Proof.
  unfold ResolveRuntimeDim, locates. split.
  - intros H. res_inv. apply ResolveShape_ret in Hm. exists a. split; [done|].
    destruct (a !! dim_index l); congruence.
  - intros (t & Ht & Hd). apply ResolveShape_ret in Ht. rewrite Ht. simpl. by rewrite Hd.
Qed.

Lemma locates_fun ins outs l x y : locates ins outs l x -> locates ins outs l y -> x = y.
Proof. intros (t & Ht & ?) (t' & Ht' & ?). rewrite Ht in Ht'. simplify_eq. congruence. Qed.

Lemma locates_list_fun ins outs ls a b :
  Forall2 (locates ins outs) ls a -> Forall2 (locates ins outs) ls b -> a = b.
Proof.
  intros Ha. revert b. induction Ha as [|l x ls a Hx Ha IH]; intros b Hb; inversion Hb; subst.
  - done.
  - f_equal; [by eapply locates_fun|by apply IH].
Qed.

Lemma locates_range ins outs l d : view_dims ins outs -> locates ins outs l d -> in_u 63 d.
Proof.
  intros [Hi Ho] (t & Ht & Hd). unfold port_at in Ht.
  assert (Forall (in_u 63) t) as HF.
  { destruct (direction (tensor_port l)); [by apply (Forall_lookup_1 _ _ _ _ Hi Ht)|by apply (Forall_lookup_1 _ _ _ _ Ho Ht)]. }
  eapply Forall_lookup_1; [exact HF|done].
Qed.

(** One loop step of either volume computation. *)
Lemma volume_step acc d :
  in_u 64 acc -> in_u 63 d ->
  (exists p, CheckOverflowMul uint64_ty acc (u64 d) = (true, p) /\ UINT64_MAX < acc * d) \/
  CheckOverflowMul uint64_ty acc (u64 d) = (false, acc * d) /\ in_u 64 (acc * d).
Proof.
  unfold in_u, UINT64_MAX. intros Ha Hd. rewrite wrap_small by (unfold in_u; lia).
  destruct (decide (acc * d < 2 ^ 64)) as [H|H].
  - right. rewrite CheckOverflowMul_u64_ok by (unfold in_u; nia). split; [done|nia].
  - left. rewrite CheckOverflowMul_u64. eexists. split; [|lia]. f_equal.
    apply negb_true_iff, Z.eqb_neq. rewrite wrap_id_iff by lia. unfold in_u. lia.
Qed.

Lemma runtime_volume_spec ins outs ls ds acc :
  view_dims ins outs -> Forall2 (locates ins outs) ls ds -> in_u 64 acc ->
  match runtime_volume ls acc ins outs with
  | Ret p => p = acc * product ds
  | Panic _ => exists k, UINT64_MAX < acc * product (take k ds)
  | Fail _ => False
  end.
Proof.
  intros Hv Hl. revert acc. induction Hl as [|l d ls ds Hd Hl IH]; intros acc Ha; simpl; [lia|].
  rewrite (proj2 (ResolveRuntimeDim_ret _ _ _ _) Hd). simpl.
  destruct (volume_step acc d Ha) as [(p & -> & Ho)|[-> Hp]]; [by eapply locates_range| |]; simpl.
  - exists 1%nat. simpl. lia.
  - specialize (IH (acc * d) Hp). destruct (runtime_volume _ _ _ _); [lia|done|].
    destruct IH as [k Hk]. exists (S k). simpl. lia.
Qed.

Lemma runtime_volume_exceeds ins outs ls ds :
  view_dims ins outs -> Forall2 (locates ins outs) ls ds ->
  match runtime_volume ls 1 ins outs with
  | Ret p => p = product ds
  | Panic _ => exceeds ins outs ls
  | Fail _ => False
  end.
Proof.
  intros Hv Hl. pose proof (runtime_volume_spec ins outs ls ds 1 Hv Hl ltac:(unfold in_u; lia)) as H.
  destruct (runtime_volume _ _ _ _); [lia|done|].
  destruct H as [k Hk]. exists ds, k. split; [done|lia].
Qed.

(** The verdict agrees with a proposition. *)
Definition verdict (P : Prop) (r : EvalResult.t) : Prop :=
  match r with
  | EvalResult.kSatisfied => P
  | EvalResult.kViolated => ~ P
  | EvalResult.kDeferred => False
  end.

Lemma verdict_bool (P : Prop) b : (b = true <-> P) -> verdict P (eval_bool b).
Proof. intros H. destruct b; simpl; [by apply H|]. intros HP. apply H in HP. done. Qed.

Lemma runtime_pair_verdict f (R : Z -> Z -> Prop) ins outs l r :
  (forall x y, verdict (R x y) (f x y)) ->
  (exists x, locates ins outs l x) -> (exists y, locates ins outs r y) ->
  exists v, EvaluateRuntimePair f l r ins outs = Ret v /\
    verdict (forall x y, locates ins outs l x -> locates ins outs r y -> R x y) v.
Proof.
  intros Hf [x Hx] [y Hy]. unfold EvaluateRuntimePair.
  rewrite (proj2 (ResolveRuntimeDim_ret _ _ _ _) Hx), (proj2 (ResolveRuntimeDim_ret _ _ _ _) Hy).
  simpl. eexists. split; [done|]. specialize (Hf x y). destruct (f x y); simpl in *.
  - intros x' y' Hx' Hy'. by rewrite (locates_fun _ _ _ _ _ Hx' Hx), (locates_fun _ _ _ _ _ Hy' Hy).
  - intros H. by apply Hf, H.
  - done.
Qed.

Lemma runtime_rank_verdict f (R : nat -> Prop) ins outs p :
  (forall n, f n = true <-> R n) -> (exists t, port_at p ins outs = Some t) ->
  exists v, EvaluateRuntimeRank f p ins outs = Ret v /\
    verdict (forall t, port_at p ins outs = Some t -> R (length t)) v.
Proof.
  intros Hf [t Ht]. unfold EvaluateRuntimeRank, ResolveRuntimeRank.
  rewrite (proj2 (ResolveShape_ret _ _ _ _) Ht). simpl. eexists. split; [done|].
  apply verdict_bool. rewrite Hf. split; [|eauto]. intros H t' Ht'. congruence.
Qed.

Lemma runtime_verdict c ins outs :
  located ins outs (condition c) -> view_dims ins outs ->
  match EvaluateShapeConstraint_runtime c ins outs with
  | Ret v => verdict (holds ins outs (condition c)) v
  | Panic _ => volume_exceeds ins outs (condition c)
  | Fail _ => False
  end.
Proof.
  unfold EvaluateShapeConstraint_runtime.
  destruct (condition c) as [l r|l r|ls rs|p n|p n|d]; simpl; intros Hloc Hv.
  - destruct (runtime_pair_verdict EvaluateRuntimeDimEqual eq ins outs l r) as (v & -> & ?);
      [|tauto..|done]. intros x y. apply verdict_bool, Z.eqb_eq.
  - destruct (runtime_pair_verdict EvaluateRuntimeBroadcastable
      (fun x y => x = y \/ x = 1 \/ y = 1) ins outs l r) as (v & -> & ?); [|tauto..|done].
    intros x y. apply verdict_bool. rewrite !orb_true_iff, !Z.eqb_eq. tauto.
  - destruct Hloc as [[a Ha] [b Hb]]. unfold EvaluateRuntimeVolumeConstraint.
    pose proof (runtime_volume_exceeds ins outs ls a Hv Ha) as H1.
    pose proof (runtime_volume_exceeds ins outs rs b Hv Hb) as H2.
    destruct (runtime_volume ls _ _ _); simpl; [|done|by left].
    destruct (runtime_volume rs _ _ _); simpl; [|done|by right]. subst.
    apply verdict_bool. rewrite Z.eqb_eq. split; [|by eauto]. intros E a' b' Ha' Hb'.
    by rewrite (locates_list_fun _ _ _ _ _ Ha' Ha), (locates_list_fun _ _ _ _ _ Hb' Hb).
  - destruct (runtime_rank_verdict (fun r => (r =? n)%nat) (fun r => r = n) ins outs p)
      as (v & -> & ?); [intros; apply Nat.eqb_eq|done|done].
  - destruct (runtime_rank_verdict (fun r => (n <=? r)%nat) (fun r => (n <= r)%nat) ins outs p)
      as (v & -> & ?); [intros; apply Nat.leb_le|done|done].
  - destruct Hloc as [x Hx]. unfold EvaluateRuntimeDimPositiveConstraint.
    rewrite (proj2 (ResolveRuntimeDim_ret _ _ _ _) Hx). simpl. apply verdict_bool.
    rewrite Z.ltb_lt. split; [|by eauto]. intros H y Hy. by rewrite (locates_fun _ _ _ _ _ Hy Hx).
Qed.

(** ** Lemmas: plan time *)

Section Denoted.
Context (rho : valuation) (ins outs : list SymbolicShape) (rin rout : list (list Z)).
Context (Hin : Forall2 (shape_denotes rho) ins rin) (Hout : Forall2 (shape_denotes rho) outs rout).
Context (Hview : view_dims rin rout).

Lemma port_at_denoted p s :
  port_at p ins outs = Some s ->
  exists t, port_at p rin rout = Some t /\ shape_denotes rho s t.
Proof.
  unfold port_at. destruct (direction p); intros H.
  - by apply (Forall2_lookup_l _ _ _ _ _ Hin) in H.
  - by apply (Forall2_lookup_l _ _ _ _ _ Hout) in H.
Qed.

Lemma ResolveSymbolicDim_denoted l s :
  ResolveSymbolicDim l ins outs = Ret (Some s) ->
  exists d, locates rin rout l d /\ dim_denotes rho s d.
Proof.
  unfold ResolveSymbolicDim. intros H. res_inv. apply ResolveShape_ret in Hm.
  destruct (port_at_denoted _ _ Hm) as (t & Ht & Hd).
  destruct a as [syms|]; [|discriminate].
  destruct (syms !! dim_index l) as [x|] eqn:E; [|discriminate]. simplify_eq/=.
  destruct (Forall2_lookup_l _ _ _ _ _ Hd E) as (d & Hl & ?).
  exists d. split; [|done]. by exists t.
Qed.

Lemma ResolveSymbolicDim_static l s :
  ResolveSymbolicDim l ins outs = Ret (Some s) -> IsStatic s = true ->
  locates rin rout l (value s) /\ in_u 63 (value s).
Proof.
  intros H Hs. destruct (ResolveSymbolicDim_denoted l s H) as (d & Hl & Hd).
  apply dim_denotes_static in Hd as ->; [|done]. split; [done|by eapply locates_range].
Qed.

(** A verdict [r] on the references of a relation [R]. *)
Definition sound_verdict (loc P : Prop) (r : EvalResult.t) : Prop :=
  match r with
  | EvalResult.kSatisfied => loc /\ P
  | EvalResult.kViolated => loc /\ ~ P
  | EvalResult.kDeferred => True
  end.

Lemma equal_symbols_located l r s :
  ~ both_unknown ins outs l r ->
  ResolveSymbolicDim l ins outs = Ret (Some s) -> ResolveSymbolicDim r ins outs = Ret (Some s) ->
  exists d, locates rin rout l d /\ locates rin rout r d.
Proof.
  intros Hu Hl Hr. destruct (ResolveSymbolicDim_denoted l s Hl) as (x & Hx & Dx).
  destruct (ResolveSymbolicDim_denoted r s Hr) as (y & Hy & Dy).
  destruct (decide (l = r)) as [->|Hlr]; [by exists x|].
  assert (x = y) as ->; [|by exists y].
  destruct (decide (s = Unknown)) as [->|Hs]; [by destruct Hu|].
  apply (AreProvablyEqual_sound rho s s x y); [|done|done]. by apply AreProvablyEqual_spec.
Qed.

Lemma symbolic_pair_sound f (R : Z -> Z -> Prop) l r v :
  (forall x, R x x) -> (forall a b, a <> b -> f a b = EvalResult.kSatisfied ->
     forall x y, dim_denotes rho a x -> dim_denotes rho b y -> R x y) ->
  (forall a b, f a b = EvalResult.kViolated ->
     forall x y, dim_denotes rho a x -> dim_denotes rho b y -> ~ R x y) ->
  ~ both_unknown ins outs l r ->
  EvaluateSymbolicPair f l r ins outs = Ret v ->
  sound_verdict ((exists x, locates rin rout l x) /\ exists y, locates rin rout r y)
    (forall x y, locates rin rout l x -> locates rin rout r y -> R x y) v.
Proof.
  intros Hrefl Hsat Hvio Hu H. unfold EvaluateSymbolicPair in H. res_inv.
  destruct a as [a|]; [|by simplify_eq]. destruct a0 as [b|]; [|by simplify_eq].
  simplify_eq/=.
  destruct (ResolveSymbolicDim_denoted l a Hm) as (x & Hx & Dx).
  destruct (ResolveSymbolicDim_denoted r b Hm0) as (y & Hy & Dy).
  destruct (f a b) eqn:E; [|by split; [eauto|intros HR; apply (Hvio a b E x y); auto]|done].
  split; [by eauto|]. intros x' y' Hx' Hy'.
  destruct (decide (a = b)) as [->|Hab].
  - destruct (equal_symbols_located l r b Hu Hm Hm0) as (d & H1 & H2).
    by rewrite (locates_fun _ _ _ _ _ Hx' H1), (locates_fun _ _ _ _ _ Hy' H2).
  - rewrite (locates_fun _ _ _ _ _ Hx' Hx), (locates_fun _ _ _ _ _ Hy' Hy). by eapply Hsat.
Qed.

Lemma identical_dims_sound ls rs :
  length ls = length rs -> Forall (fun p => ~ both_unknown ins outs p.1 p.2) (zip ls rs) ->
  identical_dims ls rs ins outs = Ret true ->
  exists ds, Forall2 (locates rin rout) ls ds /\ Forall2 (locates rin rout) rs ds.
Proof.
  revert rs. induction ls as [|l ls IH]; intros [|r rs] Hlen Hu H; simplify_eq/=;
    [by exists []|]. inversion Hu as [|? ? Hu1 Hu2]; subst. res_inv.
  destruct a as [a|]; [|by simplify_eq]. destruct a0 as [b|]; [|by simplify_eq].
  destruct (sym_eqb a b) eqn:E; [|by simplify_eq]. apply sym_eqb_eq in E as ->.
  destruct (equal_symbols_located l r b Hu1 Hm Hm0) as (d & H1 & H2).
  destruct (IH rs Hlen Hu2 H) as (ds & ? & ?). exists (d :: ds). by split; constructor.
Qed.

Lemma symbolic_volume_sound ls acc p :
  in_u 64 acc -> symbolic_volume ls acc ins outs = Ret (Some p) ->
  exists ds, Forall2 (locates rin rout) ls ds /\ p = acc * product ds.
Proof.
  revert acc. induction ls as [|l ls IH]; intros acc Ha H; simpl in H.
  { simplify_eq. exists []. split; [constructor|simpl; lia]. }
  res_inv. destruct a as [s|]; [|discriminate].
  destruct (IsStatic s) eqn:Es; [|discriminate].
  destruct (ResolveSymbolicDim_static l s Hm Es) as [Hl Hr].
  destruct (volume_step acc (value s) Ha Hr) as [(q & E & _)|[E Hq]]; rewrite E in H; [discriminate|].
  destruct (IH _ Hq H) as (ds & ? & ->). exists (value s :: ds). split; [by constructor|simpl; lia].
Qed.

Lemma symbolic_volume_verdict ls rs v :
  Forall (fun p => ~ both_unknown ins outs p.1 p.2) (zip ls rs) ->
  EvaluateSymbolicVolumeConstraint ls rs ins outs = Ret v ->
  sound_verdict (located rin rout (VolumeEqualConstraint ls rs))
    (holds rin rout (VolumeEqualConstraint ls rs)) v.
Proof.
  intros Hu H. unfold EvaluateSymbolicVolumeConstraint, HaveIdenticalSymbolicDims in H. res_inv.
  assert (Hfun : forall a b, Forall2 (locates rin rout) ls a -> Forall2 (locates rin rout) rs b ->
    (holds rin rout (VolumeEqualConstraint ls rs) <-> product a = product b)).
  { intros a0 b Ha Hb. split; [by eauto|]. intros E x y Hx Hy.
    by rewrite (locates_list_fun _ _ _ _ _ Hx Ha), (locates_list_fun _ _ _ _ _ Hy Hb). }
  destruct a.
  - simplify_eq. destruct (Nat.eqb_spec (length ls) (length rs)) as [Hlen|]; [|discriminate].
    destruct (identical_dims_sound ls rs Hlen Hu Hm) as (ds & H1 & H2).
    split; [split; by exists ds|]. by apply (Hfun ds ds).
  - res_inv. destruct a as [a|]; [|by simplify_eq]. destruct a0 as [b|]; [|by simplify_eq].
    destruct (symbolic_volume_sound ls 1 a) as (x & Hx & ->); [unfold in_u; lia|done|].
    destruct (symbolic_volume_sound rs 1 b) as (y & Hy & ->); [unfold in_u; lia|done|].
    simplify_eq. rewrite !Z.mul_1_l.
    destruct (Z.eqb_spec (product x) (product y)); (split; [split; by eexists|]);
      by rewrite (Hfun x y Hx Hy).
Qed.

Lemma symbolic_rank_sound f (R : nat -> Prop) p v :
  (forall n, f n = true <-> R n) -> EvaluateSymbolicRank f p ins outs = Ret v ->
  sound_verdict (exists t, port_at p rin rout = Some t)
    (forall t, port_at p rin rout = Some t -> R (length t)) v.
Proof.
  intros Hf H. unfold EvaluateSymbolicRank, ResolveSymbolicRank in H. res_inv.
  rename select (ResolveShape _ _ _ = _) into Hp.
  apply ResolveShape_ret in Hp. destruct (port_at_denoted _ _ Hp) as (t & Ht & Hd).
  destruct a0 as [l|]; simpl in H; simplify_eq; [|done]. apply Forall2_length in Hd. rewrite Hd.
  destruct (f (length t)) eqn:E; simpl; (split; [by eexists|]).
  - intros t' Ht'. simplify_eq. by apply Hf.
  - intros HR. apply HR, Hf in Ht. congruence.
Qed.

(** The dimension-level tests, for symbols that are not the same. *)
Lemma EvaluateSymbolicDimEqual_sound a b x y :
  dim_denotes rho a x -> dim_denotes rho b y ->
  match EvaluateSymbolicDimEqual a b with
  | EvalResult.kSatisfied => a = b
  | EvalResult.kViolated => x <> y
  | EvalResult.kDeferred => True
  end.
Proof.
  intros Ha Hb. unfold EvaluateSymbolicDimEqual. destruct (sym_eqb a b) eqn:E; [by apply sym_eqb_eq|].
  destruct (IsStatic a && IsStatic b) eqn:Es; [|done]. bsplit. apply sym_eqb_neq in E.
  rewrite (dim_denotes_static rho a x), (dim_denotes_static rho b y) by done.
  intros Ev. apply E. destruct a, b. simpl in *. congruence.
Qed.

Lemma EvaluateSymbolicDimBroadcastable_sound a b x y :
  dim_denotes rho a x -> dim_denotes rho b y ->
  match EvaluateSymbolicDimBroadcastable a b with
  | EvalResult.kSatisfied => a = b \/ x = 1 \/ y = 1
  | EvalResult.kViolated => ~ (x = y \/ x = 1 \/ y = 1)
  | EvalResult.kDeferred => True
  end.
Proof.
  intros Ha Hb. pose proof (EvaluateSymbolicDimEqual_sound a b x y Ha Hb) as He.
  unfold EvaluateSymbolicDimBroadcastable, EvaluateSymbolicDimEqual in *.
  destruct (sym_eqb a b); [by left|].
  destruct (IsStatic a) eqn:Ea, (IsStatic b) eqn:Eb; simpl in *;
    try (apply dim_denotes_static in Ha; [|done]); try (apply dim_denotes_static in Hb; [|done]);
    zcases; intuition lia.
Qed.

Lemma symbolic_positive_sound d v :
  EvaluateSymbolicDimPositiveConstraint d ins outs = Ret v ->
  sound_verdict (located rin rout (DimPositiveConstraint d))
    (holds rin rout (DimPositiveConstraint d)) v.
Proof.
  unfold EvaluateSymbolicDimPositiveConstraint, EvaluateSymbolicDimPositive. intros H. res_inv.
  destruct a as [s|]; [|by simplify_eq].
  destruct (IsStatic s) eqn:Es; simpl in H; simplify_eq; [|done].
  destruct (ResolveSymbolicDim_static d s Hm Es) as [Hl _].
  destruct (Z.ltb_spec 0 (value s)); simpl; (split; [by eexists|]).
  - intros x Hx. by rewrite (locates_fun _ _ _ _ _ Hx Hl).
  - intros HP. specialize (HP _ Hl). lia.
Qed.

Lemma symbolic_verdict c v :
  unknown_free ins outs (condition c) -> EvaluateShapeConstraint c ins outs = Ret v ->
  sound_verdict (located rin rout (condition c)) (holds rin rout (condition c)) v.
Proof.
  unfold EvaluateShapeConstraint, unknown_free.
  destruct (condition c) as [l r|l r|ls rs|p n|p n|d]; simpl pairs_of; intros Hu H.
  - inversion Hu; subst. apply (symbolic_pair_sound EvaluateSymbolicDimEqual eq l r v); try done;
      [intros a b Hab E x y Hx Hy|intros a b E x y Hx Hy];
      pose proof (EvaluateSymbolicDimEqual_sound a b x y Hx Hy) as He; by rewrite E in He.
  - inversion Hu; subst.
    apply (symbolic_pair_sound EvaluateSymbolicDimBroadcastable
             (fun x y => x = y \/ x = 1 \/ y = 1) l r v); try done;
      [by left|intros a b Hab E x y Hx Hy|intros a b E x y Hx Hy];
      pose proof (EvaluateSymbolicDimBroadcastable_sound a b x y Hx Hy) as He; rewrite E in He;
      tauto.
  - by apply symbolic_volume_verdict.
  - apply (symbolic_rank_sound (fun r => (r =? n)%nat) (fun r => r = n)); [|done].
    intros; apply Nat.eqb_eq.
  - apply (symbolic_rank_sound (fun r => (n <=? r)%nat) (fun r => (n <= r)%nat)); [|done].
    intros; apply Nat.leb_le.
  - by apply symbolic_positive_sound.
Qed.

End Denoted.

(** ** Properties *)

(** C16: A constraint decided at plan time is decided correctly: whatever run-time
    shapes the symbolic shapes stand for, a satisfied constraint refers to
    existing dimensions and holds of them, a violated one fails, as long as no
    two different positions of the constraint are both [Unknown]. *)
Theorem symbolic_evaluation_sound rho ins outs rin rout c v :
  Forall2 (shape_denotes rho) ins rin -> Forall2 (shape_denotes rho) outs rout ->
  view_dims rin rout -> unknown_free ins outs (condition c) ->
  EvaluateShapeConstraint c ins outs = Ret v ->
  match v with
  | EvalResult.kSatisfied => located rin rout (condition c) /\ holds rin rout (condition c)
  | EvalResult.kViolated => located rin rout (condition c) /\ ~ holds rin rout (condition c)
  | EvalResult.kDeferred => True
  end.
Proof. intros Hin Hout Hv Hu H. exact (symbolic_verdict rho ins outs rin rout Hin Hout Hv c v Hu H). Qed.

Lemma symbolic_evaluation_sound_witness :
  let c := mkConstraint (VolumeEqualConstraint [in_dim 0 0; in_dim 0 1] [out_dim 0 0]) "reshape" in
  EvaluateShapeConstraint c [Some [mkSym 4; mkSym 6]] [Some [mkSym 24]] = Ret EvalResult.kSatisfied /\
  holds [[4; 6]] [[24]] (condition c).
Proof.
  split; [reflexivity|].
  apply (symbolic_evaluation_sound (fun _ => 0) [Some [mkSym 4; mkSym 6]] [Some [mkSym 24]]
           [[4; 6]] [[24]]
           (mkConstraint (VolumeEqualConstraint [in_dim 0 0; in_dim 0 1] [out_dim 0 0]) "reshape")
           EvalResult.kSatisfied).
  - repeat constructor; lia.
  - repeat constructor; lia.
  - split; repeat constructor; vm_compute; discriminate.
  - repeat constructor. intros (_ & H & _). discriminate.
  - reflexivity.
Defined.

(** At run time the evaluator decides every well-referenced constraint: its
    answer is satisfied exactly when the constraint holds, it is never
    deferred, and the only abnormal outcome is the overflow check of a volume
    whose partial product does not fit [uint64_t]. *)
Theorem runtime_evaluation_decides c ins outs :
  located ins outs (condition c) -> view_dims ins outs ->
  match EvaluateShapeConstraint_runtime c ins outs with
  | Ret EvalResult.kSatisfied => holds ins outs (condition c)
  | Ret EvalResult.kViolated => ~ holds ins outs (condition c)
  | Panic _ => volume_exceeds ins outs (condition c)
  | _ => False
  end.
Proof.
  intros Hl Hv. pose proof (runtime_verdict c ins outs Hl Hv) as H.
  by destruct (EvaluateShapeConstraint_runtime c ins outs) as [[| |]| |].
Qed.

Lemma runtime_evaluation_decides_witness :
  ~ holds [[2; 3]] [[7]] (VolumeEqualConstraint [in_dim 0 0; in_dim 0 1] [out_dim 0 0]).
Proof.
  apply (runtime_evaluation_decides
    (mkConstraint (VolumeEqualConstraint [in_dim 0 0; in_dim 0 1] [out_dim 0 0]) "reshape")
    [[2; 3]] [[7]]).
  - split; [exists [2; 3]|exists [7]]; repeat constructor; eexists; split; reflexivity.
  - split; repeat constructor; vm_compute; discriminate.
Defined.

(** [ValidateShapeConstraints] accepts only shapes of which every constraint
    holds, and an error names a constraint of the list that fails. *)
Theorem ValidateShapeConstraints_correct cs ins outs :
  Forall (fun c => located ins outs (condition c)) cs -> view_dims ins outs ->
  match ValidateShapeConstraints cs ins outs with
  | Ret _ => Forall (fun c => holds ins outs (condition c)) cs
  | Fail e => Exists (fun c => e = violation_status c /\ ~ holds ins outs (condition c)) cs
  | Panic _ => Exists (fun c => volume_exceeds ins outs (condition c)) cs
  end.
Proof.
  intros Hl Hv. unfold ValidateShapeConstraints.
  induction Hl as [|c cs Hc Hl IH]; simpl; [done|].
  pose proof (runtime_verdict c ins outs Hc Hv) as H.
  destruct (EvaluateShapeConstraint_runtime c ins outs) as [[| |]|e|w]; simpl in *; try done.
  - destruct (res_iter _ cs); [by constructor|by apply Exists_cons_tl..].
  - by apply Exists_cons_hd.
  - by apply Exists_cons_hd.
Qed.

Lemma ValidateShapeConstraints_correct_witness :
  Exists (fun c => InvalidArgument "rows" = violation_status c /\ ~ holds [[2]; [3]] [] (condition c))
    [mkConstraint (DimEqualConstraint (in_dim 0 0) (in_dim 1 0)) "rows"].
Proof.
  apply (ValidateShapeConstraints_correct
    [mkConstraint (DimEqualConstraint (in_dim 0 0) (in_dim 1 0)) "rows"] [[2]; [3]] []).
  - repeat constructor; [exists 2|exists 3]; eexists; split; reflexivity.
  - split; repeat constructor; vm_compute; discriminate.
Defined.

(** The plan-time evaluator reports two unconstrained dimensions as equal:
    the equality is accepted at plan time although run-time shapes the
    symbolic shapes stand for violate it. *)
Theorem unknown_pair_satisfied_but_violated rho x y ctx :
  0 <= x -> 0 <= y -> x <> y ->
  let c := mkConstraint (DimEqualConstraint (in_dim 0 0) (in_dim 1 0)) ctx in
  EvaluateShapeConstraint c [Some [Unknown]; Some [Unknown]] [] = Ret EvalResult.kSatisfied /\
  Forall2 (shape_denotes rho) [Some [Unknown]; Some [Unknown]] [[x]; [y]] /\
  EvaluateShapeConstraint_runtime c [[x]; [y]] [] = Ret EvalResult.kViolated.
Proof.
  intros Hx Hy Hxy. split; [done|]. split.
  - repeat constructor; done.
  - cbn. unfold EvaluateRuntimeDimEqual. by destruct (Z.eqb_spec x y).
Qed.

Lemma unknown_pair_satisfied_but_violated_witness :
  EvaluateShapeConstraint_runtime
    (mkConstraint (DimEqualConstraint (in_dim 0 0) (in_dim 1 0)) "") [[3]; [4]] [] =
  Ret EvalResult.kViolated.
Proof. apply (unknown_pair_satisfied_but_violated (fun _ => 0) 3 4 ""); lia. Defined.
