(* ===== verification/Broadcast.v ===== *)
(** * Broadcast: concrete and symbolic broadcasting

    [src/shape_inference/broadcast.cpp] and its header: [BroadcastShapes],
    [BroadcastInputStrides] and [InferBroadcastShape], with the right-aligned
    NumPy rule as the reference both tiers are checked against. *)
From S2P Require Import Prelude ShapeSymbol.

(** ** Operations *)

(** [span[i]]; an out-of-range access is undefined behaviour, so it is a [Panic]
    the theorems exclude. *)
Definition span_at {A} (l : list A) (i : nat) : Res A :=
  match l !! i with Some x => Ret x | None => Panic "span index" end.

(** The dimension of a right-aligned input at an output axis. *)
(* @src src/shape_inference/broadcast.cpp:24-29 BroadcastShapes (lhs_dim, rhs_dim) *)
Definition aligned_dim (shape : list Z) (axis_offset output_axis : nat) : Res Z :=
  if (output_axis <? axis_offset)%nat then Ret 1 else span_at shape (output_axis - axis_offset).

(* @src src/shape_inference/broadcast.cpp:30-40 BroadcastShapes (loop body) *)
Definition broadcast_axis (lhs_dim rhs_dim : Z) : Res Z :=
  if (lhs_dim <? 0) || (rhs_dim <? 0) then
    Fail (InvalidArgument "broadcast dimensions must be non-negative")
  else if lhs_dim =? 1 then Ret rhs_dim
  else if (rhs_dim =? 1) || (lhs_dim =? rhs_dim) then Ret lhs_dim
  else Fail (InvalidArgument "broadcast dimensions are incompatible").

(** A loop over the output axes that fills [output_shape[output_axis]]. *)
Fixpoint for_axes {A} (f : nat -> Res A) (axis n : nat) : Res (list A) :=
  match n with
  | O => Ret []
  | S n' => x ← f axis; l ← for_axes f (S axis) n'; Ret (x :: l)
  end.

(* @src src/shape_inference/broadcast.cpp:15-43 BroadcastShapes *)
Definition BroadcastShapes (lhs_shape rhs_shape : list Z) : Res (list Z) :=
  let output_rank := Nat.max (length lhs_shape) (length rhs_shape) in
  let lhs_axis_offset := (output_rank - length lhs_shape)%nat in
  let rhs_axis_offset := (output_rank - length rhs_shape)%nat in
  for_axes (fun output_axis =>
    lhs_dim ← aligned_dim lhs_shape lhs_axis_offset output_axis;
    rhs_dim ← aligned_dim rhs_shape rhs_axis_offset output_axis;
    broadcast_axis lhs_dim rhs_dim) 0 output_rank.

(* @src src/shape_inference/broadcast.cpp:59-76 BroadcastInputStrides (loop body) *)
Definition stride_axis (input_shape input_strides output_shape : list Z)
    (axis_offset output_axis : nat) : Res Z :=
  let input_axis := (output_axis - axis_offset)%nat in
  input_dim ← span_at input_shape input_axis;
  output_dim ← span_at output_shape output_axis;
  if (input_dim <? 0) || (output_dim <? 0) then
    Fail (InvalidArgument "broadcast dimensions must be non-negative")
  else if input_dim =? output_dim then span_at input_strides input_axis
  else if input_dim =? 1 then Ret 0
  else Fail (InvalidArgument "input shape is not broadcast-compatible with output shape").

(** The vector is value-initialised to zeros; the loop fills the trailing axes. *)
(* @src src/shape_inference/broadcast.cpp:45-79 BroadcastInputStrides *)
Definition BroadcastInputStrides (input_shape input_strides output_shape : list Z)
    : Res (list Z) :=
  if negb (length input_shape =? length input_strides)%nat ||
     (length output_shape <? length input_shape)%nat then
    Fail (InvalidArgument "broadcast input metadata rank mismatch")
  else
    let axis_offset := (length output_shape - length input_shape)%nat in
    trailing ← for_axes (stride_axis input_shape input_strides output_shape axis_offset)
                 axis_offset (length input_shape);
    Ret (replicate axis_offset 0 ++ trailing).

(* @src include/aethermind/shape_inference/broadcast.h:53-61 DeferredBroadcastAxis *)
Record DeferredBroadcastAxis := mkDeferred { lhs_axis : nat; rhs_axis : nat }.

(* @src include/aethermind/shape_inference/broadcast.h:64-74 SymbolicBroadcastResult *)
Record SymbolicBroadcastResult := mkBroadcast {
  output_shape : SymbolicShape; deferred_axes : list DeferredBroadcastAxis }.

(** Both axes explicit: the output dimension and whether the axis is deferred. *)
(* @src src/shape_inference/broadcast.cpp:115-164 InferBroadcastShape (explicit axes) *)
Definition infer_explicit (lhs_dim rhs_dim : ShapeSymbol) : Res (ShapeSymbol * bool) :=
  if AreProvablyEqual lhs_dim rhs_dim then Ret (lhs_dim, false)
  else if IsStatic lhs_dim && (value lhs_dim =? 1) then Ret (rhs_dim, false)
  else if IsStatic rhs_dim && (value rhs_dim =? 1) then Ret (lhs_dim, false)
  else if IsStatic lhs_dim && IsStatic rhs_dim then
    Fail (InvalidArgument "broadcast dimensions are incompatible")
  else
    let lhs_unresolved := IsSymbolic lhs_dim || IsUnknown lhs_dim in
    let rhs_unresolved := IsSymbolic rhs_dim || IsUnknown rhs_dim in
    if IsStatic lhs_dim && rhs_unresolved then Ret (lhs_dim, true)
    else if IsStatic rhs_dim && lhs_unresolved then Ret (rhs_dim, true)
    else Ret (Unknown, true).

(* @src src/shape_inference/broadcast.cpp:102-164 InferBroadcastShape (loop body) *)
Definition infer_axis (lhs rhs : list ShapeSymbol) (lhs_axis_offset rhs_axis_offset output_axis : nat)
    : Res (ShapeSymbol * option DeferredBroadcastAxis) :=
  if (output_axis <? lhs_axis_offset)%nat then
    d ← span_at rhs (output_axis - rhs_axis_offset); Ret (d, None)
  else if (output_axis <? rhs_axis_offset)%nat then
    d ← span_at lhs (output_axis - lhs_axis_offset); Ret (d, None)
  else
    lhs_dim ← span_at lhs (output_axis - lhs_axis_offset);
    rhs_dim ← span_at rhs (output_axis - rhs_axis_offset);
    r ← infer_explicit lhs_dim rhs_dim;
    Ret (r.1, if (r.2 : bool)
              then Some (mkDeferred (output_axis - lhs_axis_offset) (output_axis - rhs_axis_offset))
              else None).

(* @src src/shape_inference/broadcast.cpp:81-171 InferBroadcastShape *)
Definition InferBroadcastShape (lhs rhs : SymbolicShape) : Res SymbolicBroadcastResult :=
  match lhs, rhs with
  | Some l, Some r =>
      let output_rank := Nat.max (length l) (length r) in
      let lhs_axis_offset := (output_rank - length l)%nat in
      let rhs_axis_offset := (output_rank - length r)%nat in
      rows ← for_axes (infer_axis l r lhs_axis_offset rhs_axis_offset) 0 output_rank;
      Ret (mkBroadcast (Some rows.*1) (omap snd rows))
  | _, _ => Fail (InvalidArgument "symbolic broadcast requires both shapes to be ranked")
  end.

(** ** Reference semantics *)

(** The NumPy rule for one dimension. *)
Definition broadcast_dim (x y z : Z) : Prop :=
  (x = y /\ z = x) \/ (x = 1 /\ z = y) \/ (y = 1 /\ z = x).

(** Dimension of a shape counted from the right, missing axes being 1. *)
Definition from_right (l : list Z) (j : nat) : Z := default 1 (reverse l !! j).

Definition broadcasts_to (a b o : list Z) : Prop :=
  length o = Nat.max (length a) (length b) /\
  forall j, (j < length o)%nat -> broadcast_dim (from_right a j) (from_right b j) (from_right o j).

(** Offset of an element: the scalar product of index and strides. *)
Fixpoint dot (idx strides : list Z) : Z :=
  match idx, strides with
  | i :: idx', s :: strides' => i * s + dot idx' strides'
  | _, _ => 0
  end.

(** The element of the input an output index reads: broadcast axes are pinned at 0. *)
Definition source_index (input_shape out_index : list Z) : list Z :=
  zip_with (fun d i => if d =? 1 then 0 else i) input_shape out_index.

Definition in_shape (idx shape : list Z) : Prop := Forall2 (fun i d => 0 <= i < d) idx shape.

(** The run-time check a deferred axis stands for. *)
Definition deferred_ok (a b : list Z) (x : DeferredBroadcastAxis) : Prop :=
  forall p q, a !! lhs_axis x = Some p -> b !! rhs_axis x = Some q -> p = q \/ p = 1 \/ q = 1.

(** ** Lemmas: loops *)

Lemma for_axes_ret {A} (f : nat -> Res A) axis n l :
  for_axes f axis n = Ret l <->
  length l = n /\ forall i x, l !! i = Some x -> f (axis + i)%nat = Ret x.
Proof.
  revert axis l. induction n as [|n IH]; intros axis l; simpl.
  - split; [intros [= <-]; done|]. intros [H _]. by destruct l.
  - split.
    + intros H. res_inv. apply IH in Hm0 as [Hlen Hl]. simpl. split; [lia|].
      intros [|i] x Hx; simpl in Hx.
      * simplify_eq. by rewrite Nat.add_0_r.
      * replace (axis + S i)%nat with (S axis + i)%nat by lia. by apply Hl.
    + intros [Hlen Hl]. destruct l as [|x l]; [done|]. injection Hlen as Hlen.
      pose proof (Hl 0%nat x eq_refl) as Hx. rewrite Nat.add_0_r in Hx. rewrite Hx. simpl.
      assert (for_axes f (S axis) n = Ret l) as ->; [|done].
      apply IH. split; [done|]. intros i y Hy. replace (S axis + i)%nat with (axis + S i)%nat by lia.
      by apply Hl.
Qed.

Lemma for_axes_fail {A} (f : nat -> Res A) axis n e :
  for_axes f axis n = Fail e -> exists i, (i < n)%nat /\ f (axis + i)%nat = Fail e.
Proof.
  revert axis. induction n as [|n IH]; intros axis; simpl; [done|].
  destruct (f axis) as [x|e'|w] eqn:E; simpl; [|intros [= <-]|done].
  - destruct (for_axes f (S axis) n) eqn:E2; simpl; intros; simplify_eq.
    destruct (IH _ E2) as (i & Hi & H). exists (S i). split; [lia|].
    by replace (axis + S i)%nat with (S axis + i)%nat by lia.
  - exists 0%nat. split; [lia|]. by rewrite Nat.add_0_r.
Qed.

Lemma for_axes_panic {A} (f : nat -> Res A) axis n w :
  for_axes f axis n = Panic w -> exists i, (i < n)%nat /\ f (axis + i)%nat = Panic w.
Proof.
  revert axis. induction n as [|n IH]; intros axis; simpl; [done|].
  destruct (f axis) as [x|e'|w'] eqn:E; simpl; [|done|intros [= <-]].
  - destruct (for_axes f (S axis) n) eqn:E2; simpl; intros; simplify_eq.
    destruct (IH _ E2) as (i & Hi & H). exists (S i). split; [lia|].
    by replace (axis + S i)%nat with (S axis + i)%nat by lia.
  - exists 0%nat. split; [lia|]. by rewrite Nat.add_0_r.
Qed.

Lemma span_at_ret {A} (l : list A) i x : span_at l i = Ret x <-> l !! i = Some x.
Proof. unfold span_at. destruct (l !! i); split; congruence. Qed.

Lemma span_at_lt {A} (l : list A) i : (i < length l)%nat -> exists x, l !! i = Some x /\ span_at l i = Ret x.
Proof. intros H%lookup_lt_is_Some. destruct H as [x Hx]. exists x. by rewrite span_at_ret. Qed.

(** ** Lemmas: concrete broadcasting *)

(** Right alignment of axis [k] of a rank-[n] output is position [n - 1 - k] from the right. *)
Lemma aligned_dim_from_right a n k :
  (length a <= n)%nat -> (k < n)%nat ->
  aligned_dim a (n - length a) k = Ret (from_right a (n - S k)).
Proof.
  intros Ha Hk. unfold aligned_dim, from_right. destruct (Nat.ltb_spec k (n - length a)).
  - rewrite lookup_ge_None_2; [done|rewrite length_reverse; lia].
  - rewrite reverse_lookup by lia. replace (length a - S (n - S k))%nat with (k - (n - length a))%nat by lia.
    destruct (span_at_lt a (k - (n - length a))) as (x & -> & ->); [lia|done].
Qed.

Lemma broadcast_axis_spec x y :
  0 <= x -> 0 <= y ->
  match broadcast_axis x y with
  | Ret z => broadcast_dim x y z /\ forall z', broadcast_dim x y z' -> z' = z
  | Fail _ => forall z, ~ broadcast_dim x y z
  | Panic _ => False
  end.
Proof.
  intros Hx Hy. unfold broadcast_axis, broadcast_dim.
  zcases; first [lia | split; [lia|intros; lia] | intros; lia].
Qed.

Lemma from_right_nonneg a j : Forall (fun d => 0 <= d) a -> 0 <= from_right a j.
Proof.
  intros H. unfold from_right. destruct (reverse a !! j) as [x|] eqn:E; simpl; [|lia].
  apply Forall_reverse in H. by apply (Forall_lookup_1 _ _ _ _ H E).
Qed.

Lemma from_right_at o k x : o !! k = Some x -> from_right o (length o - S k) = x.
Proof.
  intros H. pose proof (lookup_lt_Some _ _ _ H). unfold from_right. rewrite reverse_lookup by lia.
  replace (length o - S (length o - S k))%nat with k by lia. by rewrite H.
Qed.

Lemma BroadcastShapes_axis a b n k :
  (length a <= n)%nat -> (length b <= n)%nat -> (k < n)%nat ->
  (l ← aligned_dim a (n - length a) k; r ← aligned_dim b (n - length b) k; broadcast_axis l r) =
  broadcast_axis (from_right a (n - S k)) (from_right b (n - S k)).
Proof. intros Ha Hb H. by rewrite !aligned_dim_from_right by lia. Qed.

Lemma BroadcastShapes_ret a b o :
  Forall (fun d => 0 <= d) a -> Forall (fun d => 0 <= d) b ->
  BroadcastShapes a b = Ret o <-> broadcasts_to a b o.
Proof.
  intros Ha Hb. unfold BroadcastShapes. rewrite for_axes_ret. unfold broadcasts_to.
  assert (length a <= Nat.max (length a) (length b))%nat as Hla by lia.
  assert (length b <= Nat.max (length a) (length b))%nat as Hlb by lia.
  set (n := Nat.max (length a) (length b)) in *. clearbody n.
  assert (Sp : forall j, match broadcast_axis (from_right a j) (from_right b j) with
    | Ret z => broadcast_dim (from_right a j) (from_right b j) z /\
               forall z', broadcast_dim (from_right a j) (from_right b j) z' -> z' = z
    | Fail _ => forall z, ~ broadcast_dim (from_right a j) (from_right b j) z
    | Panic _ => False end).
  { intros j. by apply broadcast_axis_spec; apply from_right_nonneg. }
  split; intros [Hlen H]; (split; [done|]).
  - intros j Hj. assert (is_Some (o !! (length o - S j)%nat)) as [z Hz] by (apply lookup_lt_is_Some; lia).
    pose proof (H _ _ Hz) as E. simpl in E. rewrite BroadcastShapes_axis in E by lia.
    pose proof (from_right_at _ _ _ Hz) as Ho.
    replace (length o - S (length o - S j))%nat with j in Ho by lia. rewrite Ho.
    replace (n - S (length o - S j))%nat with j in E by lia.
    specialize (Sp j). rewrite E in Sp. apply Sp.
  - intros k z Hz. pose proof (lookup_lt_Some _ _ _ Hz). simpl. rewrite BroadcastShapes_axis by lia.
    specialize (H (length o - S k)%nat). rewrite (from_right_at _ _ _ Hz), Hlen in H.
    specialize (Sp (n - S k)%nat).
    destruct (broadcast_axis _ _) as [z'| |]; [|destruct (Sp z); apply H; lia|done].
    f_equal. symmetry. apply Sp, H. lia.
Qed.

Lemma BroadcastShapes_fail a b e :
  Forall (fun d => 0 <= d) a -> Forall (fun d => 0 <= d) b ->
  BroadcastShapes a b = Fail e -> forall o, ~ broadcasts_to a b o.
Proof.
  intros Ha Hb E o Ho. apply (BroadcastShapes_ret a b o Ha Hb) in Ho. congruence.
Qed.

Lemma BroadcastShapes_no_panic a b w : BroadcastShapes a b <> Panic w.
Proof.
  intros H. apply for_axes_panic in H as (i & Hi & H). simpl in H.
  rewrite BroadcastShapes_axis in H by lia. revert H. unfold broadcast_axis.
  repeat case_match; done.
Qed.

(** ** Lemmas: strides *)

Lemma dot_ext a s b t :
  length a = length b -> length s = length t ->
  (forall i x y p q, a !! i = Some x -> b !! i = Some y -> s !! i = Some p -> t !! i = Some q ->
     x * p = y * q) ->
  dot a s = dot b t.
Proof.
  revert s b t. induction a as [|x a IH]; intros [|p s] [|y b] [|q t] Hl Hs H; simplify_eq/=;
    try done.
  rewrite (H 0%nat x y p q) by done. f_equal. apply IH; [done..|].
  intros i. apply (H (S i)).
Qed.

Lemma dot_replicate_zero n idx t :
  (n <= length idx)%nat -> dot idx (replicate n 0 ++ t) = dot (drop n idx) t.
Proof.
  revert idx. induction n as [|n IH]; intros [|i idx] H; simpl in *; [done..|lia|].
  rewrite IH by lia. lia.
Qed.

Lemma stride_axis_ret shp str out off k t :
  stride_axis shp str out off k = Ret t ->
  exists d o, shp !! (k - off)%nat = Some d /\ out !! k = Some o /\
    ((d = o /\ str !! (k - off)%nat = Some t) \/ (d = 1 /\ t = 0)).
Proof.
  unfold stride_axis. intros H. res_inv. apply span_at_ret in Hm, Hm0.
  exists a, a0. split; [done|]. split; [done|].
  destruct ((a <? 0) || (a0 <? 0)); [done|].
  destruct (Z.eqb_spec a a0); [apply span_at_ret in H; auto|].
  destruct (Z.eqb_spec a 1); [|done]. simplify_eq. by right.
Qed.

Lemma BroadcastInputStrides_ret shp str out eff :
  BroadcastInputStrides shp str out = Ret eff ->
  length shp = length str /\ (length shp <= length out)%nat /\
  exists t, eff = replicate (length out - length shp) 0 ++ t /\ length t = length shp /\
    forall i d o s, shp !! i = Some d -> out !! (length out - length shp + i)%nat = Some o ->
      t !! i = Some s -> (d = o /\ str !! i = Some s) \/ (d = 1 /\ s = 0).
Proof.
  unfold BroadcastInputStrides. intros H.
  destruct (negb (length shp =? length str)%nat || (length out <? length shp)%nat) eqn:E; [done|].
  bsplit. res_inv. apply for_axes_ret in Hm as [Hlen Hm].
  split; [done|]. split; [done|]. exists a. split; [done|]. split; [done|].
  intros i d o s Hd Ho Hs. specialize (Hm _ _ Hs). apply stride_axis_ret in Hm as (d0 & o0 & E1 & E2 & E3).
  replace (length out - length shp + i - (length out - length shp))%nat with i in * by lia.
  simplify_eq. done.
Qed.

(** ** Lemmas: symbolic broadcasting *)

Lemma broadcast_axis_ok x y z :
  0 <= x -> 0 <= y -> broadcast_axis x y = Ret z -> x = y \/ x = 1 \/ y = 1.
Proof. intros Hx Hy H. unfold broadcast_axis in H. zcases; (done || lia). Qed.

Lemma broadcast_axis_not_ok x y :
  0 <= x -> 0 <= y -> ~ (x = y \/ x = 1 \/ y = 1) -> exists e, broadcast_axis x y = Fail e.
Proof. intros Hx Hy H. unfold broadcast_axis. zcases; try lia. by eexists. Qed.

Section Symbolic.
Context (rho : valuation).

(** One output axis: what the symbolic answer promises of the concrete one. *)
Definition axis_sound (x y : Z) (s : ShapeSymbol) (deferred : bool) : Prop :=
  (deferred = true -> x = y \/ x = 1 \/ y = 1) ->
  exists z, broadcast_axis x y = Ret z /\ dim_denotes rho s z.

Lemma infer_explicit_sound s t x y :
  dim_denotes rho s x -> dim_denotes rho t y ->
  match infer_explicit s t with
  | Ret (u, d) => axis_sound x y u d
  | Fail _ => exists e, broadcast_axis x y = Fail e
  | Panic _ => False
  end.
Proof.
  intros Hs Ht. pose proof Hs as [Hx _]. pose proof Ht as [Hy _]. unfold infer_explicit, axis_sound.
  destruct (AreProvablyEqual s t) eqn:Ep.
  { intros _. assert (x = y) as -> by (by eapply AreProvablyEqual_sound).
    exists y. split; [|done]. unfold broadcast_axis. zcases; (done || lia). }
  assert (Hne : IsStatic s = true -> IsStatic t = true -> x <> y).
  { intros Es Et E. rewrite (dim_denotes_static rho s x), (dim_denotes_static rho t y) in E by done.
    assert (AreProvablyEqual s t = true); [|congruence]. apply AreProvablyEqual_spec.
    split; [destruct s, t; simpl in *; congruence|]. intros ->. done. }
  destruct (IsStatic s) eqn:Es, (IsStatic t) eqn:Et; simpl;
    try (pose proof (dim_denotes_static rho s x Es Hs)); try (pose proof (dim_denotes_static rho t y Et Ht)).
  - specialize (Hne eq_refl eq_refl).
    destruct (Z.eqb_spec (value s) 1), (Z.eqb_spec (value t) 1); unfold broadcast_axis;
      zcases; try lia; eauto.
  - assert (IsSymbolic t || IsUnknown t = true) as -> by (sym_cases t; done).
    destruct (Z.eqb_spec (value s) 1); simpl; unfold broadcast_axis; zcases; try lia; eauto.
  - assert (IsSymbolic s || IsUnknown s = true) as -> by (sym_cases s; done).
    destruct (Z.eqb_spec (value t) 1); simpl; intros Hd; [exists x|specialize (Hd eq_refl); exists y];
      (split; [|done]); unfold broadcast_axis; zcases; try lia; f_equal; lia.
  - intros Hd. specialize (Hd eq_refl). unfold broadcast_axis.
    zcases; try lia; (eexists; split; [done|]); by apply dim_denotes_unknown.
Qed.

Lemma infer_axis_sound l r a b n k :
  Forall2 (dim_denotes rho) l a -> Forall2 (dim_denotes rho) r b ->
  (length a <= n)%nat -> (length b <= n)%nat -> n = Nat.max (length a) (length b) -> (k < n)%nat ->
  let x := from_right a (n - S k) in let y := from_right b (n - S k) in
  match infer_axis l r (n - length l) (n - length r) k with
  | Ret (u, None) => axis_sound x y u false
  | Ret (u, Some d) =>
      axis_sound x y u true /\ a !! lhs_axis d = Some x /\ b !! rhs_axis d = Some y
  | Fail _ => exists e, broadcast_axis x y = Fail e
  | Panic _ => False
  end.
Proof.
  intros Hl Hr Hla Hlb Hn Hk x y.
  pose proof (aligned_dim_from_right a n k Hla Hk) as Ha.
  pose proof (aligned_dim_from_right b n k Hlb Hk) as Hb. fold x in Ha. fold y in Hb.
  unfold infer_axis, aligned_dim in *.
  rewrite (Forall2_length _ _ _ Hl), (Forall2_length _ _ _ Hr).
  assert (Hden : forall l' a' i z, Forall2 (dim_denotes rho) l' a' -> span_at a' i = Ret z ->
    a' !! i = Some z /\ exists s, span_at l' i = Ret s /\ dim_denotes rho s z).
  { intros l' a' i z HF Hz%span_at_ret. split; [done|].
    destruct (Forall2_lookup_r _ _ _ _ _ HF Hz) as (s & Hs & ?). exists s. by rewrite span_at_ret. }
  destruct (Nat.ltb_spec k (n - length a)) as [H1|H1];
    destruct (Nat.ltb_spec k (n - length b)) as [H2|H2]; [lia|..].
  - destruct (Hden r b _ _ Hr Hb) as (_ & s & -> & Hs). simpl. injection Ha as <-.
    intros _. exists y. split; [|done]. pose proof (proj1 Hs). unfold broadcast_axis. zcases; (done || lia).
  - destruct (Hden l a _ _ Hl Ha) as (_ & s & -> & Hs). simpl. injection Hb as <-.
    intros _. exists x. split; [|done]. pose proof (proj1 Hs). unfold broadcast_axis.
    zcases; try lia; f_equal; lia.
  - destruct (Hden l a _ _ Hl Ha) as (Hax & s & -> & Hs).
    destruct (Hden r b _ _ Hr Hb) as (Hby & t & -> & Ht). simpl.
    pose proof (infer_explicit_sound s t x y Hs Ht) as HI.
    destruct (infer_explicit s t) as [[u d]|e|w]; simpl; [|done|done].
    destruct d; [done|exact HI].
Qed.

End Symbolic.

Lemma for_axes_total {A} (f : nat -> Res A) axis n :
  (forall i, (i < n)%nat -> exists x, f (axis + i)%nat = Ret x) -> exists l, for_axes f axis n = Ret l.
Proof.
  intros H. destruct (for_axes f axis n) as [l|e|w] eqn:E; [by exists l| |].
  - apply for_axes_fail in E as (i & Hi & E). destruct (H i Hi). congruence.
  - apply for_axes_panic in E as (i & Hi & E). destruct (H i Hi). congruence.
Qed.

(** The concrete result, axis by axis. *)
Lemma BroadcastShapes_axes a b o :
  BroadcastShapes a b = Ret o <->
  length o = Nat.max (length a) (length b) /\
  forall k z, o !! k = Some z ->
    broadcast_axis (from_right a (Nat.max (length a) (length b) - S k))
                   (from_right b (Nat.max (length a) (length b) - S k)) = Ret z.
Proof.
  unfold BroadcastShapes. rewrite for_axes_ret.
  split; intros [Hlen H]; (split; [done|]); intros k z Hz; pose proof (lookup_lt_Some _ _ _ Hz);
    specialize (H k z Hz); simpl in *; rewrite BroadcastShapes_axis in * by lia; done.
Qed.

Lemma BroadcastShapes_total a b :
  (forall k, (k < Nat.max (length a) (length b))%nat -> exists z,
    broadcast_axis (from_right a (Nat.max (length a) (length b) - S k))
                   (from_right b (Nat.max (length a) (length b) - S k)) = Ret z) ->
  exists o, BroadcastShapes a b = Ret o.
Proof.
  intros H. apply for_axes_total. intros i Hi. simpl. rewrite BroadcastShapes_axis by lia. by apply H.
Qed.

Section Rows.
Context (rho : valuation) (l r : list ShapeSymbol) (a b : list Z).
Context (Hl : Forall2 (dim_denotes rho) l a) (Hr : Forall2 (dim_denotes rho) r b).
Let n := Nat.max (length a) (length b).
Let x k := from_right a (n - S k).
Let y k := from_right b (n - S k).

Lemma denoted_nonneg syms ds : Forall2 (dim_denotes rho) syms ds -> Forall (fun d => 0 <= d) ds.
Proof. induction 1 as [|s d ? ? [? _]]; by constructor. Qed.

Lemma InferBroadcastShape_rows res :
  InferBroadcastShape (Some l) (Some r) = Ret res ->
  exists rows, output_shape res = Some rows.*1 /\ deferred_axes res = omap snd rows /\
    length rows = n /\ forall k u d, rows !! k = Some (u, d) ->
      axis_sound rho (x k) (y k) u (bool_decide (is_Some d)) /\
      forall e, d = Some e -> a !! lhs_axis e = Some (x k) /\ b !! rhs_axis e = Some (y k).
Proof.
  unfold InferBroadcastShape. intros H. res_inv. apply for_axes_ret in Hm as [Hlen Hrow].
  rewrite (Forall2_length _ _ _ Hl), (Forall2_length _ _ _ Hr) in Hlen. fold n in Hlen.
  exists a0. do 3 (split; [done|]). intros k u d Hk. specialize (Hrow _ _ Hk). simpl in Hrow.
  pose proof (lookup_lt_Some _ _ _ Hk) as Hkn.
  pose proof (infer_axis_sound rho l r a b n k Hl Hr ltac:(lia) ltac:(lia) eq_refl ltac:(lia)) as HS.
  rewrite (Forall2_length _ _ _ Hl), (Forall2_length _ _ _ Hr) in Hrow, HS. fold n in Hrow.
  rewrite Hrow in HS. destruct d as [e|]; simpl in HS; [|split; done].
  destruct HS as (? & ? & ?). split; [done|]. intros e' [= <-]. done.
Qed.

Lemma rows_total res :
  InferBroadcastShape (Some l) (Some r) = Ret res -> Forall (deferred_ok a b) (deferred_axes res) ->
  exists o, BroadcastShapes a b = Ret o.
Proof.
  intros Hres Hok. destruct (InferBroadcastShape_rows res Hres) as (rows & _ & Ed & Hlen & Hrow).
  apply BroadcastShapes_total. intros k Hk.
  assert (is_Some (rows !! k)) as [[u d] E] by (apply lookup_lt_is_Some; lia).
  destruct (Hrow _ _ _ E) as [HS Hd]. destruct HS as (z & Hz & _); [|by exists z].
  intros Hb%bool_decide_eq_true. destruct Hb as [e ->]. destruct (Hd e eq_refl) as [Ha' Hb'].
  rewrite Ed, Forall_forall in Hok. apply (Hok e); [|done..].
  apply list_elem_of_omap. exists (u, Some e). split; [by eapply list_elem_of_lookup_2|done].
Qed.

Lemma rows_deferred_ok res o :
  InferBroadcastShape (Some l) (Some r) = Ret res -> BroadcastShapes a b = Ret o ->
  Forall (deferred_ok a b) (deferred_axes res).
Proof.
  intros Hres Ho. destruct (InferBroadcastShape_rows res Hres) as (rows & _ & Ed & Hlen & Hrow).
  apply BroadcastShapes_axes in Ho as [Hlo Ho]. rewrite Ed. apply Forall_forall. intros e He.
  apply list_elem_of_omap in He as ([u d] & Hin & E). simpl in E. subst d.
  apply list_elem_of_lookup_1 in Hin as [k Hk]. destruct (Hrow _ _ _ Hk) as [_ Hd].
  destruct (Hd e eq_refl) as [Hx Hy]. intros p q Hp Hq. simplify_eq.
  pose proof (lookup_lt_Some _ _ _ Hk).
  assert (is_Some (o !! k)) as [z Hz] by (apply lookup_lt_is_Some; lia).
  apply (broadcast_axis_ok _ _ z); [apply from_right_nonneg; by eapply denoted_nonneg..|].
  by apply Ho.
Qed.

Lemma rows_denote res o :
  InferBroadcastShape (Some l) (Some r) = Ret res -> BroadcastShapes a b = Ret o ->
  shape_denotes rho (output_shape res) o.
Proof.
  intros Hres Ho. pose proof (rows_deferred_ok res o Hres Ho) as Hok.
  destruct (InferBroadcastShape_rows res Hres) as (rows & -> & Ed & Hlen & Hrow).
  apply BroadcastShapes_axes in Ho as [Hlo Ho]. simpl. apply Forall2_same_length_lookup_2.
  { rewrite length_fmap. lia. }
  intros k u z Hu Hz. apply list_lookup_fmap_Some in Hu as ([u' d] & -> & Hk). simpl.
  destruct (Hrow _ _ _ Hk) as [HS Hd]. destruct HS as (z' & Hz' & ?).
  - intros _. apply (broadcast_axis_ok _ _ z); [apply from_right_nonneg; by eapply denoted_nonneg..|].
    by apply Ho.
  - pose proof (Ho _ _ Hz) as E. unfold x, y, n in Hz'. rewrite E in Hz'. by simplify_eq.
Qed.
End Rows.

(** ** Properties *)

(** [BroadcastShapes] computes the NumPy broadcast: on non-negative shapes it
    returns exactly the shape the right-aligned rule prescribes, and an error
    means no such shape exists; no span access is out of range. *)
Theorem BroadcastShapes_numpy a b :
  Forall (fun d => 0 <= d) a -> Forall (fun d => 0 <= d) b ->
  match BroadcastShapes a b with
  | Ret o => forall o', broadcasts_to a b o' <-> o' = o
  | Fail e => code e = StatusCode.kInvalidArgument /\ forall o, ~ broadcasts_to a b o
  | Panic _ => False
  end.
Proof.
  intros Ha Hb. destruct (BroadcastShapes a b) as [o|e|w] eqn:E.
  - intros o'. rewrite <- (BroadcastShapes_ret a b o' Ha Hb), E. split; [by intros [= ->]|by intros ->].
  - split; [|by eapply BroadcastShapes_fail]. apply for_axes_fail in E as (i & Hi & E). simpl in E.
    rewrite BroadcastShapes_axis in E by lia. revert E. unfold broadcast_axis.
    repeat case_match; intros [= <-]; done.
  - by apply BroadcastShapes_no_panic in E.
Qed.

Lemma BroadcastShapes_numpy_witness : broadcasts_to [4; 1] [3] [4; 3].
Proof.
  apply (BroadcastShapes_numpy [4; 1] [3]); [repeat constructor; lia|repeat constructor; lia|].
  reflexivity.
Defined.

(** The expanded strides read the right element: for every index of the output,
    the offset computed with the effective strides is the offset of the input
    element NumPy broadcasting selects, and that element is inside the input. *)
Theorem BroadcastInputStrides_correct shp str out eff idx :
  BroadcastInputStrides shp str out = Ret eff -> in_shape idx out ->
  let src := source_index shp (drop (length out - length shp) idx) in
  length eff = length out /\ dot idx eff = dot src str /\ in_shape src shp.
Proof.
  intros H Hidx src. apply BroadcastInputStrides_ret in H as (Hls & Hlo & t & -> & Hlt & Ht).
  pose proof (Forall2_length _ _ _ Hidx) as Hli.
  assert (length src = length shp) as Hsrc.
  { unfold src, source_index. rewrite length_zip_with, length_drop. lia. }
  assert (Hat : forall i j d, idx !! (length out - length shp + i)%nat = Some j -> shp !! i = Some d ->
    src !! i = Some (if d =? 1 then 0 else j)).
  { intros i j d Hj Hd. unfold src, source_index. rewrite lookup_zip_with, Hd, lookup_drop, Hj. done. }
  split; [rewrite length_app, length_replicate; lia|]. split.
  - rewrite dot_replicate_zero by lia. apply dot_ext.
    { rewrite length_drop. lia. } { lia. }
    intros i j j' s s' Hj Hj' Hs Hs'. rewrite lookup_drop in Hj.
    assert (is_Some (shp !! i)) as [d Hd] by (apply lookup_lt_is_Some; apply lookup_lt_Some in Hs; lia).
    destruct (Forall2_lookup_l _ _ _ _ _ Hidx Hj) as (o & Ho & Hjo).
    pose proof (Hat i j d Hj Hd) as E. rewrite Hj' in E. injection E as ->.
    destruct (Ht i d o s Hd Ho Hs) as [[-> E]|[-> ->]]; [|simpl; lia].
    rewrite Hs' in E. injection E as ->. destruct (Z.eqb_spec o 1); [|done]. assert (j = 0) by lia. lia.
  - apply Forall2_same_length_lookup_2; [done|]. intros i j' d Hj' Hd.
    pose proof (lookup_lt_Some _ _ _ Hd).
    assert (is_Some (idx !! (length out - length shp + i)%nat)) as [j Hj]
      by (apply lookup_lt_is_Some; lia).
    assert (is_Some (t !! i)) as [s Hs] by (apply lookup_lt_is_Some; lia).
    destruct (Forall2_lookup_l _ _ _ _ _ Hidx Hj) as (o & Ho & Hjo).
    rewrite (Hat i j d Hj Hd) in Hj'. injection Hj' as <-.
    destruct (Ht i d o s Hd Ho Hs) as [[-> E]|[-> ->]]; [|simpl; lia].
    destruct (Z.eqb_spec o 1); lia.
Qed.

Lemma BroadcastInputStrides_correct_witness :
  dot [1; 0; 2] [0; 0; 1] = dot [0; 2] [3; 1].
Proof.
  apply (BroadcastInputStrides_correct [1; 3] [3; 1] [2; 4; 3] [0; 0; 1] [1; 0; 2]).
  - reflexivity.
  - repeat constructor; lia.
Defined.

(** Symbolic broadcasting is sound and complete for the concrete one: for all
    run-time sizes of the operands, the concrete broadcast succeeds exactly
    when the deferred axes pass their run-time check, its result is described
    by the inferred shape, and a plan-time error means it always fails. *)
Theorem InferBroadcastShape_sound rho l r a b :
  Forall2 (dim_denotes rho) l a -> Forall2 (dim_denotes rho) r b ->
  match InferBroadcastShape (Some l) (Some r) with
  | Ret res =>
      (Forall (deferred_ok a b) (deferred_axes res) <-> exists o, BroadcastShapes a b = Ret o) /\
      forall o, BroadcastShapes a b = Ret o -> shape_denotes rho (output_shape res) o
  | Fail _ => exists e, BroadcastShapes a b = Fail e
  | Panic _ => False
  end.
Proof.
  intros Hl Hr. destruct (InferBroadcastShape (Some l) (Some r)) as [res|e|w] eqn:E.
  - split; [split|].
    + by apply (rows_total rho l r a b).
    + intros [o Ho]. by eapply (rows_deferred_ok rho l r a b).
    + intros o. by apply (rows_denote rho l r a b).
  - unfold InferBroadcastShape in E. destruct (for_axes _ _ _) eqn:Ef; simplify_eq/=.
    apply for_axes_fail in Ef as (k & Hk & Ef). simpl in Ef.
    pose proof (Forall2_length _ _ _ Hl) as El. pose proof (Forall2_length _ _ _ Hr) as Er.
    pose proof (infer_axis_sound rho l r a b (Nat.max (length a) (length b)) k Hl Hr
      ltac:(lia) ltac:(lia) eq_refl ltac:(lia)) as HS. simpl in HS. rewrite <- El, <- Er, Ef in HS.
    destruct HS as [e' He']. rewrite El, Er in He'.
    destruct (BroadcastShapes a b) as [o|e2|w] eqn:Eb; [|by eexists|by apply BroadcastShapes_no_panic in Eb].
    apply BroadcastShapes_axes in Eb as [Hlo Ho].
    assert (is_Some (o !! k)) as [z Hz] by (apply lookup_lt_is_Some; lia).
    rewrite (Ho _ _ Hz) in He'. done.
  - unfold InferBroadcastShape in E. destruct (for_axes _ _ _) eqn:Ef; simplify_eq/=.
    apply for_axes_panic in Ef as (k & Hk & Ef). simpl in Ef.
    pose proof (Forall2_length _ _ _ Hl) as El. pose proof (Forall2_length _ _ _ Hr) as Er.
    pose proof (infer_axis_sound rho l r a b (Nat.max (length a) (length b)) k Hl Hr
      ltac:(lia) ltac:(lia) eq_refl ltac:(lia)) as HS. simpl in HS. by rewrite <- El, <- Er, Ef in HS.
Qed.

Lemma InferBroadcastShape_sound_witness :
  exists o, BroadcastShapes [5; 3] [1; 3] = Ret o.
Proof.
  apply (InferBroadcastShape_sound (fun _ => 5) [mkSym (-2); mkSym 3] [Unknown; mkSym 3] [5; 3] [1; 3]).
  - repeat constructor; vm_compute; discriminate.
  - repeat constructor; vm_compute; discriminate.
  - constructor; [|constructor]. intros p q Hp Hq. vm_compute in Hp, Hq. simplify_eq.
    right. by right.
Defined.

(** A static 0 paired with a static 1 broadcasts to 0 in both tiers. *)
Example static_zero_with_one :
  InferBroadcastShape (Some [mkSym 0]) (Some [mkSym 1]) = Ret (mkBroadcast (Some [mkSym 0]) []) /\
  BroadcastShapes [0] [1] = Ret [0].
Proof. split; reflexivity. Qed.
