(* ===== verification/DataTypes.v ===== *)
(** * DataTypes: element type descriptors

    [include/aethermind/dtypes/data_type.h] and [src/dtypes/data_type.cpp]:
    the DLPack-style code/bits/lanes triple, its validating constructors, the
    queries, equality and hashing. Lane counts are stored as [uint16_t] and read
    back through [int16_t]. *)
From S2P Require Import Prelude.

Module DLDataTypeCode.
(* @src include/aethermind/dtypes/data_type.h:26-51 DLDataTypeCode *)
Inductive t :=
| kInt | kUInt | kBool | kOpaqueHandle | kBits1 | kBits2 | kBits4 | kBits8 | kBits16
| kFloat | kBFloat | kFloat8_e3m4 | kFloat8_e4m3 | kFloat8_e4m3b11fnuz | kFloat8_e4m3fn
| kFloat8_e4m3fnuz | kFloat8_e5m2 | kFloat8_e5m2fnuz | kFloat8_e8m0fnu | kFloat6_e2m3fn
| kFloat6_e3m2fn | kFloat4_e2m1fn | kComplex | Undefined.
#[global] Instance eq_dec : EqDecision t.
Proof. solve_decision. Defined.

Definition eqb (a b : t) : bool := bool_decide (a = b).

(** The enumerator's value; [kUInt = 1] and the rest count up. *)
Definition to_Z (c : t) : Z :=
  match c with
  | kInt => 0 | kUInt => 1 | kBool => 2 | kOpaqueHandle => 3 | kBits1 => 4 | kBits2 => 5
  | kBits4 => 6 | kBits8 => 7 | kBits16 => 8 | kFloat => 9 | kBFloat => 10 | kFloat8_e3m4 => 11
  | kFloat8_e4m3 => 12 | kFloat8_e4m3b11fnuz => 13 | kFloat8_e4m3fn => 14
  | kFloat8_e4m3fnuz => 15 | kFloat8_e5m2 => 16 | kFloat8_e5m2fnuz => 17
  | kFloat8_e8m0fnu => 18 | kFloat6_e2m3fn => 19 | kFloat6_e3m2fn => 20 | kFloat4_e2m1fn => 21
  | kComplex => 22 | Undefined => 23
  end.
End DLDataTypeCode.

Module DataType.
Import DLDataTypeCode.

(** [bits] is a [uint8_t], [raw_lanes] a [uint16_t]. *)
(* @src include/aethermind/dtypes/data_type.h:53-65 DLDataType *)
Record t := mk { dcode : DLDataTypeCode.t; bits : Z; raw_lanes : Z }.
#[global] Instance eq_dec : EqDecision t.
Proof. solve_decision. Defined.

(* @src include/aethermind/dtypes/data_type.h:78-78 DataType::DataType() *)
Definition default_type : t := mk Undefined 0 0.

Definition lanes_as_int (d : t) : Z := wrap_signed 16 (raw_lanes d).

(* @src include/aethermind/dtypes/data_type.h:265-267 DataType::IsScalableVector *)
Definition IsScalableVector (d : t) : bool := lanes_as_int d <? -1.

(* @src include/aethermind/dtypes/data_type.h:103-109 DataType::lanes *)
Definition lanes (d : t) : Res Z :=
  _ ← am_check (0 <=? lanes_as_int d) "Can't fetch the lanes of a scalable vector at compile time.";
  Ret (lanes_as_int d).

(* @src include/aethermind/dtypes/data_type.h:115-120 DataType::nbytes *)
Definition nbytes (d : t) : Res Z :=
  _ ← am_check (negb (IsScalableVector d)) "Scalable vector DataType has runtime-dependent byte size.";
  n ← lanes d; Ret ((bits d * n + 7) / 8).

(* @src include/aethermind/dtypes/data_type.h:122-126 DataType::GetScaleFactor *)
Definition GetScaleFactor (d : t) : Res Z :=
  _ ← am_check (lanes_as_int d <? -1) "A fixed length vector doesn't have a vscale factor.";
  Ret (- lanes_as_int d).

(* @src include/aethermind/dtypes/data_type.h:128-130 DataType::GetLanesOrScaleFactor *)
Definition GetLanesOrScaleFactor (d : t) : Res Z :=
  if IsScalableVector d then GetScaleFactor d else lanes d.

(* @src include/aethermind/dtypes/data_type.h:132-134 DataType::IsScalar *)
Definition IsScalar (d : t) : Res bool :=
  if IsScalableVector d then Ret false else n ← lanes d; Ret (n =? 1).

(* @src include/aethermind/dtypes/data_type.h:427-441 DataType::IsFloat8Code *)
Definition IsFloat8Code (c : DLDataTypeCode.t) : bool :=
  match c with
  | kFloat8_e3m4 | kFloat8_e4m3 | kFloat8_e4m3b11fnuz | kFloat8_e4m3fn
  | kFloat8_e4m3fnuz | kFloat8_e5m2 | kFloat8_e5m2fnuz | kFloat8_e8m0fnu => true
  | _ => false
  end.

(* @src include/aethermind/dtypes/data_type.h:136-138 DataType::IsUndefined *)
Definition IsUndefined (d : t) : bool := eqb (dcode d) Undefined.
(* @src include/aethermind/dtypes/data_type.h:140-142 DataType::IsInt *)
Definition IsInt (d : t) : bool := eqb (dcode d) kInt.
(* @src include/aethermind/dtypes/data_type.h:144-146 DataType::IsUint *)
Definition IsUint (d : t) (include_bool : bool) : bool :=
  eqb (dcode d) kUInt && ((1 <? bits d) || include_bool).
(* @src include/aethermind/dtypes/data_type.h:148-150 DataType::IsBool *)
Definition IsBool (d : t) : bool := eqb (dcode d) kUInt && (bits d =? 1).
(* @src include/aethermind/dtypes/data_type.h:157-159 DataType::IsDouble *)
Definition IsDouble (d : t) : bool := eqb (dcode d) kFloat && (bits d =? 64).
(* @src include/aethermind/dtypes/data_type.h:161-163 DataType::IsFloat32 *)
Definition IsFloat32 (d : t) : bool := eqb (dcode d) kFloat && (bits d =? 32).
(* @src include/aethermind/dtypes/data_type.h:165-171 DataType::IsFloat16, IsHalf *)
Definition IsFloat16 (d : t) : bool := eqb (dcode d) kFloat && (bits d =? 16).
(* @src include/aethermind/dtypes/data_type.h:173-175 DataType::IsBFloat16 *)
Definition IsBFloat16 (d : t) : bool := eqb (dcode d) kBFloat.
(* @src include/aethermind/dtypes/data_type.h:177-179 DataType::IsFloat8 *)
Definition IsFloat8 (d : t) : bool := IsFloat8Code (dcode d).
(* @src include/aethermind/dtypes/data_type.h:181-183 DataType::IsFloat6 *)
Definition IsFloat6 (d : t) : bool := eqb (dcode d) kFloat6_e2m3fn || eqb (dcode d) kFloat6_e3m2fn.
(* @src include/aethermind/dtypes/data_type.h:185-187 DataType::IsFloat4 *)
Definition IsFloat4 (d : t) : bool := eqb (dcode d) kFloat4_e2m1fn.
(* @src include/aethermind/dtypes/data_type.h:152-155 DataType::IsFloat *)
Definition IsFloat (d : t) : bool :=
  eqb (dcode d) kFloat || IsBFloat16 d || IsFloat8 d || IsFloat6 d || IsFloat4 d.
(* @src include/aethermind/dtypes/data_type.h:237-239 DataType::IsVoid *)
Definition IsVoid (d : t) : bool :=
  eqb (dcode d) kOpaqueHandle && (bits d =? 0) && (raw_lanes d =? 0).
(* @src include/aethermind/dtypes/data_type.h:233-235 DataType::IsHandle *)
Definition IsHandle (d : t) : bool := eqb (dcode d) kOpaqueHandle && negb (IsVoid d).
(* @src include/aethermind/dtypes/data_type.h:241-255 DataType::IsComplexHalf, IsComplexFloat, IsComplexDouble, IsComplex *)
Definition IsComplex (d : t) : bool :=
  eqb (dcode d) kComplex && ((bits d =? 32) || (bits d =? 64) || (bits d =? 128)).
(* @src include/aethermind/dtypes/data_type.h:257-263 DataType::IsVector, IsFixedLengthVector *)
Definition IsFixedLengthVector (d : t) : bool := 1 <? lanes_as_int d.
(* @src include/aethermind/dtypes/data_type.h:269-276 DataType::IsScalableOrFixedLengthVector, IsVectorBool *)
Definition IsScalableOrFixedLengthVector (d : t) : bool :=
  (lanes_as_int d <? -1) || (1 <? lanes_as_int d).

(* @src src/dtypes/data_type.cpp:21-49 DataType::ValidateCodeBitsConsistency *)
Definition ValidateCodeBitsConsistency (c : DLDataTypeCode.t) (b : Z) : Res unit :=
  if eqb c Undefined then am_check (b =? 0) "Undefined type code requires bits==0"
  else
    _ ← am_check ((0 <? b) || eqb c kOpaqueHandle)
      "DataType bits must be positive except for void/opaque handles";
    if eqb c kBFloat then am_check (b =? 16) "kBFloat requires bits==16"
    else if IsFloat8Code c then am_check (b =? 8) "Float8 type codes require bits==8"
    else if eqb c kFloat6_e2m3fn || eqb c kFloat6_e3m2fn then
      am_check (b =? 6) "Float6 type codes require bits==6"
    else if eqb c kFloat4_e2m1fn then am_check (b =? 4) "kFloat4_e2m1fn requires bits==4"
    else Ret tt.

(** From a raw descriptor. *)
(* @src src/dtypes/data_type.cpp:51-67 DataType::DataType(DLDataType) *)
Definition of_raw (d : t) : Res t :=
  _ ← ValidateCodeBitsConsistency (dcode d) (bits d);
  let lanes_signed := lanes_as_int d in
  _ ← (if lanes_signed <? -1 then
         am_check (1 <? - lanes_signed) "Invalid vscale factor for scalable vector"
       else if lanes_signed =? 0 then
         am_check (eqb (dcode d) kOpaqueHandle || eqb (dcode d) Undefined)
           "lanes=0 is only valid for Void or Undefined"
       else am_check (0 <? lanes_signed) "Fixed-length DataType lanes must be positive");
  Ret d.

(** From individual fields: [bits] and [lanes] are [int], narrowed on storing
    and validated before the narrowing. *)
(* @src src/dtypes/data_type.cpp:69-86 DataType::DataType(DLDataTypeCode, int, int, bool) *)
Definition of_fields (c : DLDataTypeCode.t) (b n : Z) (is_scalable : bool) : Res t :=
  _ ← (if is_scalable then am_check (1 <? n) "Invalid value for vscale factor"
       else if n =? 0 then
         am_check (eqb c kOpaqueHandle || eqb c Undefined)
           "lanes=0 is only valid for Void or Undefined"
       else am_check (0 <? n) "Fixed-length DataType lanes must be positive");
  _ ← ValidateCodeBitsConsistency c b;
  Ret (mk c (u8 b) (u16 (if is_scalable then - n else n))).

(* @src include/aethermind/dtypes/data_type.h:278-280 DataType::WithLanes *)
Definition WithLanes (d : t) (n : Z) : Res t := of_fields (dcode d) (bits d) n false.

(* @src include/aethermind/dtypes/data_type.h:282-287 DataType::WithBits *)
Definition WithBits (d : t) (b : Z) : Res t :=
  if IsScalableVector d then n ← GetScaleFactor d; of_fields (dcode d) b n true
  else n ← lanes d; of_fields (dcode d) b n false.

(* @src include/aethermind/dtypes/data_type.h:289-291 DataType::WithScalableVscaleFactor *)
Definition WithScalableVscaleFactor (d : t) (vscale : Z) : Res t :=
  of_fields (dcode d) (bits d) vscale true.

(* @src include/aethermind/dtypes/data_type.h:293-295 DataType::ElementOf *)
Definition ElementOf (d : t) : Res t := WithLanes d 1.

(** The one-lane factories the operators use; their constructor checks succeed. *)
(* @src include/aethermind/dtypes/data_type.h:297-303 DataType::Int, UInt *)
Definition Int (b : Z) : t := mk kInt b 1.
(* @src include/aethermind/dtypes/data_type.h:301-303 DataType::UInt *)
Definition UInt (b : Z) : t := mk kUInt b 1.
(* @src include/aethermind/dtypes/data_type.h:313-315 DataType::Float *)
Definition Float (b : Z) : t := mk kFloat b 1.
(* @src include/aethermind/dtypes/data_type.h:321-323 DataType::Double *)
Definition Double : t := mk kFloat 64 1.
(* @src include/aethermind/dtypes/data_type.h:325-327 DataType::Float32 *)
Definition Float32 : t := mk kFloat 32 1.
(* @src include/aethermind/dtypes/data_type.h:329-331 DataType::BFloat *)
Definition BFloat (b : Z) : t := mk kBFloat b 1.
(* @src include/aethermind/dtypes/data_type.h:345-347 DataType::Float8E4M3FN *)
Definition Float8E4M3FN : t := mk kFloat8_e4m3fn 8 1.
(* @src include/aethermind/dtypes/data_type.h:353-355 DataType::Float8E5M2 *)
Definition Float8E5M2 : t := mk kFloat8_e5m2 8 1.

(** [operator==]: [lanes()] is only reached when code and bits agree. *)
(* @src include/aethermind/dtypes/data_type.h:415-420 DataType::operator== *)
Definition equal (a b : t) : Res bool :=
  if eqb (dcode a) Undefined || eqb (dcode b) Undefined then Ret (eqb (dcode a) (dcode b))
  else if eqb (dcode a) (dcode b) && (bits a =? bits b) then
    la ← lanes a; lb ← lanes b; Ret (la =? lb)
  else Ret false.

(* @src include/aethermind/dtypes/data_type.h:477-491 std::hash<DataType> *)
Definition hash (d : t) : Z :=
  if eqb (dcode d) Undefined then 0
  else Z.lor (Z.lor (DLDataTypeCode.to_Z (dcode d)) (Z.shiftl (bits d) 8))
             (Z.shiftl (raw_lanes d) 16).

(** [std::ranges::any_of(supported, [&](s) { return dtype == s; })]. *)
Fixpoint any_equal (d : t) (supported : list t) : Res bool :=
  match supported with
  | [] => Ret false
  | s :: l => e ← equal d s; if (e : bool) then Ret true else any_equal d l
  end.

(** ** Invariant *)

(** What a validating constructor guarantees of the stored triple. *)
Definition wf (d : t) : Prop := of_raw d = Ret d /\ in_u 8 (bits d) /\ in_u 16 (raw_lanes d).

(** ** Lemmas *)

Lemma eqb_eq a b : eqb a b = true <-> a = b.
Proof. unfold eqb. by rewrite bool_decide_eq_true. Qed.

Lemma eqb_neq a b : eqb a b = false <-> a <> b.
Proof. unfold eqb. by rewrite bool_decide_eq_false. Qed.

Lemma lanes_as_int_small d : in_u 15 (raw_lanes d) -> lanes_as_int d = raw_lanes d.
Proof. intros H. apply wrap_signed_id_iff; [lia|]. unfold in_u, in_i in *. lia. Qed.

Lemma lanes_as_int_high d :
  in_u 16 (raw_lanes d) -> 2 ^ 15 <= raw_lanes d -> lanes_as_int d = raw_lanes d - 2 ^ 16.
Proof.
  unfold lanes_as_int, wrap_signed, in_u. intros H H1. change (2 ^ (16 - 1)) with 32768.
  replace (raw_lanes d + 32768) with (raw_lanes d - 32768 + 1 * 2 ^ 16) by lia.
  rewrite Z.mod_add by lia. rewrite Z.mod_small; lia.
Qed.

Lemma lanes_as_int_inj a b :
  in_u 16 (raw_lanes a) -> in_u 16 (raw_lanes b) -> lanes_as_int a = lanes_as_int b ->
  raw_lanes a = raw_lanes b.
Proof.
  intros Ha Hb E.
  destruct (decide (raw_lanes a < 2 ^ 15)), (decide (raw_lanes b < 2 ^ 15));
    repeat first [rewrite lanes_as_int_small in E by (unfold in_u in *; lia)
                 |rewrite lanes_as_int_high in E by (unfold in_u in *; lia)];
    unfold in_u in *; lia.
Qed.

Lemma validate_bits_wrap c b :
  in_u 8 b -> ValidateCodeBitsConsistency c (u8 b) = ValidateCodeBitsConsistency c b.
Proof. intros H. by rewrite wrap_small. Qed.

Lemma of_fields_ret c b n sc d :
  in_u 8 b -> n < 2 ^ 15 -> of_fields c b n sc = Ret d -> wf d.
Proof.
  intros Hb Hn H. unfold of_fields in H. res_inv.
  assert (Hw : in_u 16 (u16 (if sc then - n else n))) by (apply wrap_range; lia).
  assert (Hr : (if sc then - n < -1 else n = 0 \/ 0 < n) /\
    (sc = false -> n = 0 -> eqb c kOpaqueHandle || eqb c Undefined = true)).
  { destruct sc; [apply am_check_ret_any in Hm; bsplit; split; [lia|done]|].
    destruct (Z.eqb_spec n 0); apply am_check_ret_any in Hm; bsplit; split; auto; intros; lia. }
  destruct Hr as [Hr Hz].
  unfold wf, of_raw. cbn [dcode bits raw_lanes]. rewrite validate_bits_wrap, Hm0 by done. cbn.
  split; [|split; [by apply wrap_range|done]].
  assert (Hl : lanes_as_int (mk c (u8 b) (u16 (if sc then - n else n))) = if sc then - n else n).
  { unfold lanes_as_int. simpl raw_lanes. transitivity (wrap_signed 16 (if sc then - n else n)).
    - unfold wrap_signed, wrap. f_equal. by rewrite Zplus_mod_idemp_l.
    - apply wrap_signed_id_iff; [lia|]. unfold in_i. destruct sc; lia. }
  rewrite Hl. destruct sc.
  - destruct (Z.ltb_spec (- n) (-1)); [|lia]. rewrite Z.opp_involutive.
    destruct (Z.ltb_spec 1 n); [done|lia].
  - destruct (Z.ltb_spec n (-1)); [lia|]. destruct (Z.eqb_spec n 0) as [->|].
    + by rewrite Hz.
    + destruct (Z.ltb_spec 0 n); [done|lia].
Qed.

Lemma equal_fixed a b :
  IsScalableVector a = false -> IsScalableVector b = false -> wf a -> wf b ->
  equal a b = Ret (bool_decide (dcode a = dcode b /\ (dcode a = Undefined \/ (bits a = bits b /\ raw_lanes a = raw_lanes b)))).
Proof.
  intros Ha Hb (Wa & _ & La) (Wb & _ & Lb). unfold equal.
  assert (Hnn : forall d, IsScalableVector d = false -> of_raw d = Ret d -> 0 <= lanes_as_int d).
  { intros d Hd Hw. unfold IsScalableVector in Hd. unfold of_raw in Hw. res_inv. rewrite Hd in Hm0.
    destruct (Z.eqb_spec (lanes_as_int d) 0); [lia|]. apply am_check_ret_any in Hm0. bsplit. lia. }
  pose proof (Hnn a Ha Wa) as Hna. pose proof (Hnn b Hb Wb) as Hnb.
  destruct (eqb (dcode a) Undefined || eqb (dcode b) Undefined) eqn:E.
  - f_equal. unfold eqb. apply bool_decide_ext. apply orb_true_iff in E.
    rewrite !eqb_eq in E. split; [|tauto]. intros Hc. split; [done|]. left. destruct E; congruence.
  - apply orb_false_iff in E as [E1 E2]. apply eqb_neq in E1, E2.
    destruct (eqb (dcode a) (dcode b) && (bits a =? bits b)) eqn:E3.
    + bsplit. apply eqb_eq in H. unfold lanes.
      rewrite !(proj2 (Z.leb_le 0 _)) by done. simpl. f_equal.
      destruct (Z.eqb_spec (lanes_as_int a) (lanes_as_int b)) as [El|El]; symmetry.
      * apply bool_decide_eq_true. split; [done|]. right. split; [done|]. by apply lanes_as_int_inj.
      * apply bool_decide_eq_false. intros (_ & [?|[_ El']]); [done|]. apply El. unfold lanes_as_int. by rewrite El'.
    + f_equal. symmetry. apply bool_decide_eq_false. intros (Hc & [?|[Hbits _]]); [done|].
      rewrite Hc, Hbits, Z.eqb_refl, (proj2 (eqb_eq _ _) eq_refl) in E3. done.
Qed.
End DataType.

(** ** Properties *)

(** Fixed-length element types compare like values and hash consistently:
    [operator==] never aborts on them, it holds exactly when the stored
    triples agree (all undefined types being one), and equal types have equal
    hashes. *)
Theorem DataType_equality_contract a b :
  DataType.wf a -> DataType.wf b ->
  DataType.IsScalableVector a = false -> DataType.IsScalableVector b = false ->
  exists e, DataType.equal a b = Ret e /\
    (e = true <-> a = b \/ (DataType.IsUndefined a = true /\ DataType.IsUndefined b = true)) /\
    (e = true -> DataType.hash a = DataType.hash b).
Proof.
  intros Wa Wb Ha Hb. rewrite DataType.equal_fixed by done. eexists. split; [done|].
  rewrite bool_decide_eq_true. unfold DataType.IsUndefined. rewrite !DataType.eqb_eq.
  destruct a as [ca ba la], b as [cb bb lb]. simpl. split.
  - split; [|by intros [[= -> -> ->]|[-> ->]]; auto].
    intros (-> & [->|[-> ->]]); [by right|by left].
  - intros (-> & [->|[-> ->]]); done.
Qed.

Lemma DataType_equality_contract_witness :
  exists e, DataType.equal (DataType.Int 64) (DataType.Int 32) = Ret e /\
    (e = true <-> DataType.Int 64 = DataType.Int 32 \/
      (DataType.IsUndefined (DataType.Int 64) = true /\ DataType.IsUndefined (DataType.Int 32) = true)) /\
    (e = true -> DataType.hash (DataType.Int 64) = DataType.hash (DataType.Int 32)).
Proof.
  apply (DataType_equality_contract (DataType.Int 64) (DataType.Int 32));
    [split; [reflexivity|split; vm_compute; split; congruence]..|reflexivity|reflexivity].
Defined.

(** Comparing two scalable-vector types of the same code and width aborts the
    process, even when they are the same type: [operator==] asks for the
    compile-time lane count. *)
Theorem scalable_equality_aborts c b n d :
  in_u 8 b -> n < 2 ^ 15 -> c <> DLDataTypeCode.Undefined ->
  DataType.of_fields c b n true = Ret d -> exists w, DataType.equal d d = Panic w.
Proof.
  intros Hb Hn Hc H. pose proof (DataType.of_fields_ret c b n true d Hb Hn H) as (Hw & _ & _).
  unfold DataType.of_fields in H. res_inv. bsplit.
  unfold DataType.equal. cbn [DataType.dcode DataType.bits].
  rewrite (proj2 (DataType.eqb_neq _ _) Hc), (proj2 (DataType.eqb_eq c c) eq_refl), Z.eqb_refl. simpl.
  unfold DataType.lanes.
  destruct (Z.leb_spec 0 (DataType.lanes_as_int (DataType.mk c (u8 b) (u16 (- n))))) as [Hl|Hl];
    [exfalso|by eexists].
  unfold DataType.lanes_as_int, wrap_signed, wrap in Hl. simpl in Hl.
  rewrite Zplus_mod_idemp_l in Hl. rewrite Z.mod_small in Hl; lia.
Qed.

Lemma scalable_equality_aborts_witness :
  exists w, DataType.equal (DataType.mk DLDataTypeCode.kInt 32 65532) (DataType.mk DLDataTypeCode.kInt 32 65532) = Panic w.
Proof.
  apply (scalable_equality_aborts DLDataTypeCode.kInt 32 4);
    [vm_compute; split; congruence|reflexivity|discriminate|reflexivity].
Defined.

(** The field constructor narrows [bits] before storing but validates the wide
    value: 256 bits are accepted and stored as 0, a descriptor the raw
    constructor rejects. *)
Example of_fields_narrows_bits :
  DataType.of_fields DLDataTypeCode.kInt 256 1 false = Ret (DataType.mk DLDataTypeCode.kInt 0 1) /\
  exists w, DataType.of_raw (DataType.mk DLDataTypeCode.kInt 0 1) = Panic w.
Proof. split; [reflexivity|eexists; reflexivity]. Qed.
