(* ===== verification/OperatorSchema.v ===== *)
(** * OperatorSchema: operator types, parameters, port schemas

    [include/aethermind/operators/op_type.h], [op_params.h],
    [operator_schema.h], [inference_result.h], [tensor_spec.h] and
    [src/operators/operator_schema.cpp], [op_type.cpp]. Floating-point
    parameters are their IEEE bit patterns. *)
From S2P Require Import Prelude DataTypes ShapeSymbol ShapeConstraint.

Module OpType.
(* @src include/aethermind/operators/op_type.h:22-40 OpType *)
Inductive t :=
| kUnknown | kEmbedding | kRmsNorm | kLinear | kMatMul | kRoPE | kAttention | kSilu | kSiluMul
| kElementwiseMul | kKVCacheUpdate | kAdd | kSoftmax | kArgmax | kReshape | kPermute | kReorder.
#[global] Instance eq_dec : EqDecision t.
Proof. solve_decision. Defined.

(* @src src/operators/op_type.cpp:5-46 ToString(OpType) *)
Definition ToString (o : t) : string :=
  match o with
  | kUnknown => "Unknown" | kEmbedding => "Embedding" | kRmsNorm => "RmsNorm"
  | kLinear => "Linear" | kMatMul => "MatMul" | kRoPE => "RoPE" | kAttention => "Attention"
  | kSilu => "Silu" | kSiluMul => "SiluMul" | kElementwiseMul => "ElementwiseMul"
  | kKVCacheUpdate => "KVCacheUpdate" | kAdd => "Add" | kSoftmax => "Softmax"
  | kArgmax => "Argmax" | kReshape => "Reshape" | kPermute => "Permute" | kReorder => "Reorder"
  end.
End OpType.

(** ** Parameters *)

(* @src include/aethermind/operators/op_params.h:33-36 RoPEScalingType *)
Inductive RoPEScalingType := kNone | kLinear.
#[global] Instance RoPEScalingType_eq_dec : EqDecision RoPEScalingType.
Proof. solve_decision. Defined.

(** [theta] and [scaling_factor] are binary64 bit patterns. *)
(* @src include/aethermind/operators/op_params.h:88-98 RoPEParams *)
Record RoPEParams := mkRoPE {
  rope_head_dim : Z; rope_num_attention_heads : Z; rope_num_key_value_heads : Z;
  max_position_embeddings : Z; theta : Z; scaling_factor : option Z;
  scaling_type : RoPEScalingType }.
#[global] Instance RoPEParams_eq_dec : EqDecision RoPEParams.
Proof. solve_decision. Defined.

(* @src include/aethermind/operators/op_params.h:118-122 AttentionParams *)
Record AttentionParams := mkAttention {
  num_attention_heads : Z; num_key_value_heads : Z; head_dim : Z }.
#[global] Instance AttentionParams_eq_dec : EqDecision AttentionParams.
Proof. solve_decision. Defined.

(* @src include/aethermind/operators/op_params.h:128-163 ReshapeDim *)
Inductive ReshapeDim :=
| ReshapeLiteralDim (value : Z) | ReshapeInputDim (axis : nat) | ReshapeInferDim.
#[global] Instance ReshapeDim_eq_dec : EqDecision ReshapeDim.
Proof. solve_decision. Defined.

(** [eps] is a binary32 bit pattern. *)
(* @src include/aethermind/operators/op_params.h:208-225 OpParams *)
Inductive OpParams :=
| monostate | EmbeddingParams | RmsNormParams (eps : Z) | LinearParams
| RoPEParams_ (p : RoPEParams) | MatMulParams (transpose_rhs : bool) | SoftmaxParams (axis : Z)
| AddParams | SiluParams | SiluMulParams | ElementwiseMulParams | KVCacheUpdateParams
| AttentionParams_ (p : AttentionParams) | ArgmaxParams (axis : Z)
| ReshapeParams (target_shape : list ReshapeDim) | PermuteParams (permutation : list nat)
| ReorderParams.
#[global] Instance OpParams_eq_dec : EqDecision OpParams.
Proof. solve_decision. Defined.

(** [std::isfinite] and [x <= 0.0] on bit patterns; the comparison is used on
    finite values only. *)
Definition f32_isfinite (x : Z) : bool := negb (Z.land (Z.shiftr x 23) 255 =? 255).
Definition f32_le_zero (x : Z) : bool := (x =? 0) || (2 ^ 31 <=? x).
Definition f64_isfinite (x : Z) : bool := negb (Z.land (Z.shiftr x 52) 2047 =? 2047).
Definition f64_le_zero (x : Z) : bool := (x =? 0) || (2 ^ 63 <=? x).

(** ** Specs and results *)

(* @src include/aethermind/shape_inference/tensor_spec.h:10-21 TensorSpec *)
Record TensorSpec := mkSpec { dtype : DataType.t; shape : SymbolicShape }.
#[global] Instance TensorSpec_eq_dec : EqDecision TensorSpec.
Proof. solve_decision. Defined.

(* @src include/aethermind/operators/inference_result.h:19-22 InferenceResult *)
Record InferenceResult := mkInference {
  outputs : list TensorSpec; runtime_checks : list ShapeConstraint }.

(** ** Port schemas *)

Module OperatorPortKind.
(* @src include/aethermind/operators/operator_schema.h:25-31 OperatorPortKind *)
Inductive t := kModelInput | kActivation | kWeight | kConstant | kState.
#[global] Instance eq_dec : EqDecision t.
Proof. solve_decision. Defined.
End OperatorPortKind.

(* @src include/aethermind/operators/operator_schema.h:37-46 OperatorInputPort *)
Record OperatorInputPort := mkInputPort {
  in_index : nat; in_kind : OperatorPortKind.t; contributes_tensor_spec : bool; in_name : string }.

(* @src include/aethermind/operators/operator_schema.h:52-56 OperatorOutputPort *)
Record OperatorOutputPort := mkOutputPort {
  out_index : nat; out_kind : OperatorPortKind.t; out_name : string }.

(* @src include/aethermind/operators/operator_schema.h:63-74 OperatorTraits *)
Record OperatorTraits := mkTraits {
  has_side_effects : bool; deterministic : bool; compile_time_evaluable : bool }.

(* @src include/aethermind/operators/operator_schema.h:80-85 OperatorSchema *)
Record OperatorSchema := mkSchema {
  schema_op : OpType.t; input_ports : list OperatorInputPort;
  output_ports : list OperatorOutputPort; traits : OperatorTraits }.

Import OperatorPortKind.

(* @src src/operators/operator_schema.cpp:9-11 Input *)
Definition Input (i : nat) (name : string) (k : OperatorPortKind.t) : OperatorInputPort :=
  mkInputPort i k true name.
(* @src src/operators/operator_schema.cpp:13-19 Input (contributes_tensor_spec) *)
Definition Input_with (i : nat) (name : string) (k : OperatorPortKind.t) (c : bool) :=
  mkInputPort i k c name.
(* @src src/operators/operator_schema.cpp:21-25 Output *)
Definition Output (i : nat) (name : string) : OperatorOutputPort := mkOutputPort i kActivation name.
(* @src src/operators/operator_schema.cpp:27-29 Output (kind) *)
Definition Output_with (i : nat) (name : string) (k : OperatorPortKind.t) := mkOutputPort i k name.

(* @src src/operators/operator_schema.cpp:31-35 RuntimeOnly *)
Definition RuntimeOnly : OperatorTraits := mkTraits false true false.
(* @src src/operators/operator_schema.cpp:37-41 CompileTimeEvaluable *)
Definition CompileTimeEvaluable : OperatorTraits := mkTraits false true true.
(* @src src/operators/operator_schema.cpp:43-47 Stateful *)
Definition Stateful : OperatorTraits := mkTraits true false false.

(* @src include/aethermind/operators/operator_schema.h:91-98 kv_cache_ports *)
Definition kCacheIn : string := "k_cache_in".
Definition vCacheIn : string := "v_cache_in".
Definition kCacheOut : string := "k_cache_out".
Definition vCacheOut : string := "v_cache_out".
Definition kCache : string := "k_cache".
Definition vCache : string := "v_cache".

(* @src src/operators/operator_schema.cpp:65-190 kOperatorSchemas *)
Definition kOperatorSchemas : list OperatorSchema := [
  mkSchema OpType.kEmbedding [Input 0 "tokens" kModelInput; Input 1 "weight" kWeight]
    [Output 0 "output"] RuntimeOnly;
  mkSchema OpType.kRmsNorm [Input 0 "input" kActivation; Input 1 "weight" kWeight]
    [Output 0 "output"] RuntimeOnly;
  mkSchema OpType.kLinear [Input 0 "input" kActivation; Input 1 "weight" kWeight]
    [Output 0 "output"] RuntimeOnly;
  mkSchema OpType.kRoPE
    [Input 0 "q" kActivation; Input 1 "k" kActivation; Input 2 "position_ids" kModelInput]
    [Output 0 "q_rope"; Output 1 "k_rope"] RuntimeOnly;
  mkSchema OpType.kMatMul [Input 0 "lhs" kActivation; Input 1 "rhs" kActivation]
    [Output 0 "output"] RuntimeOnly;
  mkSchema OpType.kSoftmax [Input 0 "input" kActivation] [Output 0 "output"] RuntimeOnly;
  mkSchema OpType.kAdd [Input 0 "lhs" kActivation; Input 1 "rhs" kActivation]
    [Output 0 "output"] CompileTimeEvaluable;
  mkSchema OpType.kSiluMul [Input 0 "gate" kActivation; Input 1 "up" kActivation]
    [Output 0 "output"] CompileTimeEvaluable;
  mkSchema OpType.kSilu [Input 0 "input" kActivation] [Output 0 "output"] CompileTimeEvaluable;
  mkSchema OpType.kElementwiseMul [Input 0 "lhs" kActivation; Input 1 "rhs" kActivation]
    [Output 0 "output"] CompileTimeEvaluable;
  mkSchema OpType.kArgmax [Input 0 "logits" kActivation] [Output 0 "output"] RuntimeOnly;
  mkSchema OpType.kKVCacheUpdate
    [Input 0 "k" kActivation; Input 1 "v" kActivation;
     Input_with 2 kCacheIn kState false; Input_with 3 vCacheIn kState false]
    [Output_with 0 kCacheOut kState; Output_with 1 vCacheOut kState] Stateful;
  mkSchema OpType.kAttention
    [Input 0 "q" kActivation; Input_with 1 kCache kState false; Input_with 2 vCache kState false]
    [Output 0 "output"] RuntimeOnly;
  mkSchema OpType.kReshape [Input 0 "input" kActivation] [Output 0 "output"] RuntimeOnly;
  mkSchema OpType.kPermute [Input 0 "input" kActivation] [Output 0 "output"] RuntimeOnly;
  mkSchema OpType.kReorder [Input 0 "input" kActivation] [Output 0 "output"] RuntimeOnly ].

(* @src src/operators/operator_schema.cpp:194-201 GetOperatorSchema *)
Definition GetOperatorSchema (op_type : OpType.t) : Res OperatorSchema :=
  match List.find (fun s => bool_decide (schema_op s = op_type)) kOperatorSchemas with
  | Some s => Ret s
  | None => Fail (NotFound "No ModelGraph operator schema registered for op")
  end.

(* @src src/operators/operator_schema.cpp:49-59 FindPortIndex *)
Definition FindPortIndex {Port} (name_of : Port -> string) (index_of : Port -> nat)
    (ports : list Port) (name not_found_message : string) : Res nat :=
  match List.find (fun p => bool_decide (name_of p = name)) ports with
  | Some p => Ret (index_of p)
  | None => Fail (InvalidArgument not_found_message)
  end.

(* @src src/operators/operator_schema.cpp:207-213 FindInputPortIndex *)
Definition FindInputPortIndex (s : OperatorSchema) (name : string) : Res nat :=
  FindPortIndex in_name in_index (input_ports s) name "Operator schema input port not found".

(* @src src/operators/operator_schema.cpp:215-221 FindOutputPortIndex *)
Definition FindOutputPortIndex (s : OperatorSchema) (name : string) : Res nat :=
  FindPortIndex out_name out_index (output_ports s) name "Operator schema output port not found".

(* @src src/operators/operator_schema.cpp:223-227 HasStatefulOutput *)
Definition HasStatefulOutput (s : OperatorSchema) : bool :=
  existsb (fun p => bool_decide (out_kind p = kState)) (output_ports s).

(* @src src/operators/operator_schema.cpp:231-233 IsPureOperator *)
Definition IsPureOperator (s : OperatorSchema) : bool :=
  negb (has_side_effects (traits s)) && deterministic (traits s).

(* @src src/operators/operator_schema.cpp:238-240 IsCompileTimeEvaluable *)
Definition IsCompileTimeEvaluable (s : OperatorSchema) : bool :=
  IsPureOperator s && compile_time_evaluable (traits s).

(** ** The interface between graphs and operators *)

(** What the graph layer asks of operator semantics: a total inference function
    whose successful results fit the schema and whose checks only refer to
    tensors that exist. *)
Class OperatorSemantics := {
  InferOp : OpType.t -> OpParams -> list TensorSpec -> Res InferenceResult;
  InferOp_arity o p ins r : InferOp o p ins = Ret r ->
    exists s, GetOperatorSchema o = Ret s /\ length ins = length (input_ports s) /\
      length (outputs r) = length (output_ports s);
  InferOp_located rho o p ins r rin rout : InferOp o p ins = Ret r ->
    Forall2 (shape_denotes rho) (shape <$> ins) rin ->
    Forall2 (shape_denotes rho) (shape <$> outputs r) rout ->
    Forall (fun c => located rin rout (condition c)) (runtime_checks r) }.

(** ** Properties *)

(** What the graph code relies on: port [i] carries index [i], port names are
    distinct, state-producing operators are exactly the impure ones. *)
Definition schema_wf (s : OperatorSchema) : Prop :=
  in_index <$> input_ports s = seq 0 (length (input_ports s)) /\
  out_index <$> output_ports s = seq 0 (length (output_ports s)) /\
  NoDup (in_name <$> input_ports s) /\ NoDup (out_name <$> output_ports s) /\
  output_ports s <> [] /\ HasStatefulOutput s = negb (IsPureOperator s) /\
  (IsCompileTimeEvaluable s = true -> HasStatefulOutput s = false).

#[global] Instance schema_wf_dec s : Decision (schema_wf s).
Proof. unfold schema_wf. solve_decision. Defined.

Lemma all_schemas_wf : Forall schema_wf kOperatorSchemas.
Proof. apply (bool_decide_unpack (Forall schema_wf kOperatorSchemas)). vm_compute. exact I. Qed.

Lemma GetOperatorSchema_ret o s :
  GetOperatorSchema o = Ret s -> schema_op s = o /\ schema_wf s.
Proof.
  unfold GetOperatorSchema. destruct (List.find _ _) eqn:E; [|done]. intros [= <-].
  apply find_some in E as [Hin Hb]. apply bool_decide_eq_true in Hb. split; [done|].
  pose proof all_schemas_wf as H. rewrite List.Forall_forall in H. by apply H.
Qed.

(** The schema registry is total and consistent: every operator type but the
    [kUnknown] sentinel has exactly one schema, it is the one registered for
    that type, ports are listed in index order with distinct names, and state
    outputs, purity and compile-time evaluation agree. *)
Theorem schema_registry_consistent o :
  match GetOperatorSchema o with
  | Ret s => schema_op s = o /\ o <> OpType.kUnknown /\ schema_wf s /\
      filter (fun s' => schema_op s' = o) kOperatorSchemas = [s]
  | Fail e => o = OpType.kUnknown /\ code e = StatusCode.kNotFound
  | Panic _ => False
  end.
Proof.
  destruct (GetOperatorSchema o) as [s|e|w] eqn:E.
  - pose proof (GetOperatorSchema_ret o s E) as [Ho Hw]. split; [done|].
    split; [intros ->; discriminate E|]. split; [done|].
    destruct o; first [discriminate E | injection E as <-; reflexivity].
  - destruct o; try discriminate E. injection E as <-. done.
  - destruct o; discriminate E.
Qed.

(** Looking a port up by its name returns that port's position, for every
    input port of every schema, so name-based and index-based access agree. *)
Theorem FindInputPortIndex_roundtrip o s p :
  GetOperatorSchema o = Ret s -> p ∈ input_ports s ->
  FindInputPortIndex s (in_name p) = Ret (in_index p) /\ input_ports s !! in_index p = Some p.
Proof.
  intros Hs Hp. apply GetOperatorSchema_ret in Hs as [_ (Hidx & _ & Hnd & _)].
  apply list_elem_of_lookup_1 in Hp as [i Hi].
  assert (in_index p = i) as Hpi.
  { assert ((in_index <$> input_ports s) !! i = Some (in_index p)) as E by (by rewrite list_lookup_fmap, Hi).
    rewrite Hidx in E. apply lookup_seq in E. lia. }
  rewrite Hpi. split; [|done]. unfold FindInputPortIndex, FindPortIndex.
  destruct (List.find _ _) as [q|] eqn:E.
  - apply find_some in E as [Hq Hn]. apply bool_decide_eq_true in Hn.
    apply list_elem_of_In, list_elem_of_lookup_1 in Hq as [j Hj].
    assert (i = j) as <-.
    { eapply (NoDup_lookup _ _ _ (in_name p) Hnd); rewrite list_lookup_fmap; [by rewrite Hi|rewrite Hj; simpl; by rewrite Hn]. }
    simplify_eq. done.
  - eapply find_none in E; [|apply list_elem_of_In; by eapply list_elem_of_lookup_2].
    apply bool_decide_eq_false in E. done.
Qed.

Lemma FindInputPortIndex_roundtrip_witness :
  exists s, GetOperatorSchema OpType.kAttention = Ret s /\ FindInputPortIndex s kCache = Ret 1%nat.
Proof.
  eexists. split; [reflexivity|].
  eapply (FindInputPortIndex_roundtrip OpType.kAttention _ (Input_with 1 kCache kState false)).
  - reflexivity.
  - right. left.
Defined.
