(* ===== verification/OperatorInference.v ===== *)
(** * OperatorInference: output specs and run-time checks of every operator

    [src/operators/operator_inference.cpp] and the [detail::Infer*] functions of
    [src/operators/*_op.cpp]. Each definition is the whole function: parameter
    variant, parameter invariants, input count, dtypes, ranks, shapes, in the
    order of the early returns. *)
From stdpp Require Import sorting.
From S2P Require Import Prelude OverflowCheck DataTypes ShapeSymbol SymbolSolver ShapeConstraint Broadcast OperatorSchema.

(** ** Supported element types *)

Definition half_float_types : list DataType.t :=
  [DataType.Float32; DataType.Float 16; DataType.BFloat 16].
Definition float8_types : list DataType.t := [DataType.Float8E4M3FN; DataType.Float8E5M2].
Definition half_float_text : string := " only supports float32, float16, and bfloat16 dtypes".
Definition float8_text : string :=
  " only supports float32, float16, bfloat16, float8_e4m3fn, and float8_e5m2 dtypes".

(* @src include/aethermind/operators/add_op.h:23-53 kAddSupportedDTypes, IsAddSupportedDType, MakeAddUnsupportedDTypeMessage *)
Definition IsAddSupportedDType (d : DataType.t) : Res bool :=
  DataType.any_equal d [DataType.Float32; DataType.Double; DataType.BFloat 16; DataType.Int 32;
                        DataType.Int 64].
(* @src include/aethermind/operators/argmax_op.h:21-46 kArgmaxSupportedDTypes, IsArgmaxSupportedDType, MakeArgmaxUnsupportedDTypeMessage *)
Definition IsArgmaxSupportedDType (d : DataType.t) : Res bool := DataType.any_equal d half_float_types.
(* @src include/aethermind/operators/attention_op.h:21-50 kAttentionSupportedDTypes, IsAttentionSupportedDType, MakeAttentionUnsupportedDTypeMessage *)
Definition IsAttentionSupportedDType (d : DataType.t) : Res bool := DataType.any_equal d half_float_types.
(* @src include/aethermind/operators/elementwise_mul_op.h:23-49 kElementwiseMulSupportedDTypes, IsElementwiseMulSupportedDType *)
Definition IsElementwiseMulSupportedDType (d : DataType.t) : Res bool :=
  DataType.any_equal d half_float_types.
(* @src include/aethermind/operators/embedding_op.h:20-35 kEmbeddingSupportedTokenIdDTypes, IsSupportedTokenIdDType *)
Definition IsSupportedTokenIdDType (d : DataType.t) : Res bool :=
  DataType.any_equal d [DataType.Int 32; DataType.Int 64; DataType.UInt 32].
(* @src include/aethermind/operators/embedding_op.h:40-65 kEmbeddingSupportedWeightDTypes, IsEmbeddingSupportedWeightDType *)
Definition IsEmbeddingSupportedWeightDType (d : DataType.t) : Res bool :=
  DataType.any_equal d half_float_types.
(* @src include/aethermind/operators/kvcache_update_op.h:20-49 kKVCacheUpdateSupportedDTypes, IsKVCacheUpdateSupportedDType *)
Definition IsKVCacheUpdateSupportedDType (d : DataType.t) : Res bool :=
  DataType.any_equal d half_float_types.
(* @src include/aethermind/operators/linear_op.h:20-37 kLinearSupportedActivationDTypes, IsLinearSupportedActivationDType *)
Definition IsLinearSupportedActivationDType (d : DataType.t) : Res bool :=
  DataType.any_equal d (half_float_types ++ float8_types).
(* @src include/aethermind/operators/linear_op.h:43-84 kLinearSupportedWeightDTypes, IsLinearSupportedWeightDType *)
Definition IsLinearSupportedWeightDType (d : DataType.t) : Res bool :=
  DataType.any_equal d (half_float_types ++ float8_types ++ [DataType.Int 8; DataType.Int 4]).
(* @src include/aethermind/operators/matmul_op.h:17-46 kMatMulSupportedDTypes, IsMatMulSupportedDType *)
Definition IsMatMulSupportedDType (d : DataType.t) : Res bool :=
  DataType.any_equal d (half_float_types ++ float8_types ++ [DataType.Int 8]).
(* @src include/aethermind/operators/rmsnorm_op.h:17-44 kRmsNormSupportedDTypes, IsRmsNormSupportedDType *)
Definition IsRmsNormSupportedDType (d : DataType.t) : Res bool :=
  DataType.any_equal d (half_float_types ++ float8_types).
(* @src include/aethermind/operators/rope_op.h:21-49 kRoPESupportedDTypes, IsRoPESupportedDType *)
Definition IsRoPESupportedDType (d : DataType.t) : Res bool := DataType.any_equal d half_float_types.
(* @src include/aethermind/operators/silu_mul_op.h:16-43 kSiluMulSupportedDTypes, IsSiluMulSupportedDType *)
Definition IsSiluMulSupportedDType (d : DataType.t) : Res bool :=
  DataType.any_equal d (half_float_types ++ float8_types).
(* @src include/aethermind/operators/silu_op.h:16-43 kSiluSupportedDTypes, IsSiluSupportedDType *)
Definition IsSiluSupportedDType (d : DataType.t) : Res bool :=
  DataType.any_equal d (half_float_types ++ float8_types).
(* @src include/aethermind/operators/softmax_op.h:20-45 kSoftmaxSupportedDTypes, IsSoftmaxSupportedDType *)
Definition IsSoftmaxSupportedDType (d : DataType.t) : Res bool := DataType.any_equal d half_float_types.

(** [if (!cond) return Status::InvalidArgument(msg)], where evaluating the
    condition may itself abort. *)
Definition require (cond : Res bool) (msg : string) : Res unit :=
  b ← cond; reject_if (negb b) (InvalidArgument msg).

(** [if (bad) return Status::InvalidArgument(msg)]. *)
Definition reject (bad : bool) (msg : string) : Res unit := reject_if bad (InvalidArgument msg).

(** ** Shared helpers *)

(* @src src/operators/operator_inference.cpp:80-92 ValidateInferenceInputCount *)
Definition ValidateInferenceInputCount (op_type : OpType.t) (inputs : list TensorSpec) : Res unit :=
  schema ← GetOperatorSchema op_type;
  reject (negb (length inputs =? length (input_ports schema))%nat)
    (OpType.ToString op_type +:+ " expects exactly " +:+ pretty (N.of_nat (length (input_ports schema)))
     +:+ " inputs, got " +:+ pretty (N.of_nat (length inputs))).

(* @src src/operators/operator_inference.cpp:65-76 MakeCompactInputSpecs (loop) *)
Fixpoint compact_specs (ports : list OperatorInputPort) (all_inputs : list TensorSpec)
    : Res (list TensorSpec) :=
  match ports with
  | [] => Ret []
  | p :: ports' =>
      match all_inputs !! in_index p with
      | None => Fail (InvalidArgument ("MakeCompactInputSpecs: port index " +:+
          pretty (N.of_nat (in_index p)) +:+ " out of bounds for " +:+
          pretty (N.of_nat (length all_inputs)) +:+ " inputs"))
      | Some s =>
          rest ← compact_specs ports' all_inputs;
          Ret (if contributes_tensor_spec p then s :: rest else rest)
      end
  end.

(* @src src/operators/operator_inference.cpp:54-78 MakeCompactInputSpecs *)
Definition MakeCompactInputSpecs (schema : OperatorSchema) (all_inputs : list TensorSpec)
    : Res (list TensorSpec) :=
  if negb (length (input_ports schema) =? length all_inputs)%nat then
    Fail (InvalidArgument ("MakeCompactInputSpecs: input count mismatch, schema expects " +:+
      pretty (N.of_nat (length (input_ports schema))) +:+ " inputs but got " +:+
      pretty (N.of_nat (length all_inputs))))
  else compact_specs (input_ports schema) all_inputs.

(** The run-time check an elementwise operator emits per deferred axis. *)
Definition broadcast_check (msg : string) (d : DeferredBroadcastAxis) : ShapeConstraint :=
  mkConstraint (DimBroadcastableConstraint (in_dim 0 (lhs_axis d)) (in_dim 1 (rhs_axis d))) msg.

(** Signed [int64_t] product; overflow is undefined behaviour. *)
Definition mul_i64 (a b : Z) : Res Z :=
  if (INT64_MIN <=? a * b) && (a * b <=? INT64_MAX) then Ret (a * b)
  else Panic "signed integer overflow".

(** Static and different from [v]. *)
Definition static_ne (s : ShapeSymbol) (v : Z) : bool := IsStatic s && negb (value s =? v).

(** Static and not positive. *)
Definition static_nonpositive (s : ShapeSymbol) : bool := IsStatic s && (value s <=? 0).

(** Reject a proven mismatch, emit an equality check when it is not proven. *)
Definition reconcile (l r : ShapeSymbol) (check : ShapeConstraint) (msg : string)
    : Res (list ShapeConstraint) :=
  if AreProvablyEqual l r then Ret []
  else if IsStatic l && IsStatic r then Fail (InvalidArgument msg)
  else Ret [check].

(** ** Elementwise operators *)

(* @src src/operators/add_op.cpp:62-97 InferAdd *)
Definition InferAdd (params : OpParams) (inputs : list TensorSpec) : Res InferenceResult :=
  match params with
  | AddParams =>
      _ ← ValidateInferenceInputCount OpType.kAdd inputs;
      lhs_spec ← span_at inputs 0;
      rhs_spec ← span_at inputs 1;
      _ ← require (DataType.equal (dtype lhs_spec) (dtype rhs_spec)) "Add inputs must have the same dtype";
      _ ← require (IsAddSupportedDType (dtype lhs_spec))
            "Add only supports float32, float64, bfloat16, int32, and int64 tensors";
      b ← InferBroadcastShape (shape lhs_spec) (shape rhs_spec);
      Ret (mkInference [mkSpec (dtype lhs_spec) (output_shape b)]
             (map (broadcast_check "Add dimensions must be broadcastable") (deferred_axes b)))
  | _ => Fail (InvalidArgument "Add node requires AddParams")
  end.

(* @src src/operators/elementwise_mul_op.cpp:66-104 InferElementwiseMul *)
Definition InferElementwiseMul (params : OpParams) (inputs : list TensorSpec) : Res InferenceResult :=
  match params with
  | ElementwiseMulParams =>
      _ ← ValidateInferenceInputCount OpType.kElementwiseMul inputs;
      lhs_spec ← span_at inputs 0;
      rhs_spec ← span_at inputs 1;
      _ ← require (IsElementwiseMulSupportedDType (dtype lhs_spec))
            ("ElementwiseMul lhs" +:+ half_float_text);
      _ ← require (IsElementwiseMulSupportedDType (dtype rhs_spec))
            ("ElementwiseMul rhs" +:+ half_float_text);
      b ← InferBroadcastShape (shape lhs_spec) (shape rhs_spec);
      Ret (mkInference [mkSpec (dtype lhs_spec) (output_shape b)]
             (map (broadcast_check "ElementwiseMul dimensions must be broadcastable")
                  (deferred_axes b)))
  | _ => Fail (InvalidArgument "ElementwiseMul node requires ElementwiseMulParams")
  end.

(* @src src/operators/silu_mul_op.cpp:68-107 InferSiluMul *)
Definition InferSiluMul (params : OpParams) (inputs : list TensorSpec) : Res InferenceResult :=
  match params with
  | SiluMulParams =>
      _ ← ValidateInferenceInputCount OpType.kSiluMul inputs;
      gate ← span_at inputs 0;
      up ← span_at inputs 1;
      _ ← require (DataType.equal (dtype gate) (dtype up))
            "SiLUMul currently requires gate and up to use the same dtype";
      _ ← require (IsSiluMulSupportedDType (dtype gate)) ("SiluMul lhs" +:+ float8_text);
      b ← InferBroadcastShape (shape gate) (shape up);
      Ret (mkInference [mkSpec (dtype gate) (output_shape b)]
             (map (broadcast_check "SiluMul dimensions must be broadcastable") (deferred_axes b)))
  | _ => Fail (InvalidArgument "SiluMul node requires SiluMulParams")
  end.

(* @src src/operators/silu_op.cpp:67-82 InferSilu *)
Definition InferSilu (params : OpParams) (inputs : list TensorSpec) : Res InferenceResult :=
  match params with
  | SiluParams =>
      _ ← ValidateInferenceInputCount OpType.kSilu inputs;
      s ← span_at inputs 0;
      _ ← require (IsSiluSupportedDType (dtype s)) ("Silu input" +:+ float8_text);
      Ret (mkInference [s] [])
  | _ => Fail (InvalidArgument "Silu node requires SiluParams")
  end.

(* @src src/operators/softmax_op.cpp:6-21 InferSoftmax *)
Definition InferSoftmax (params : OpParams) (inputs : list TensorSpec) : Res InferenceResult :=
  match params with
  | SoftmaxParams _ =>
      _ ← ValidateInferenceInputCount OpType.kSoftmax inputs;
      s ← span_at inputs 0;
      _ ← require (IsSoftmaxSupportedDType (dtype s)) ("Softmax input" +:+ half_float_text);
      Ret (mkInference [s] [])
  | _ => Fail (InvalidArgument "Softmax node requires SoftmaxParams")
  end.

(** The loop that copies every dimension but [axis]. *)
Definition drop_axis (axis : nat) (dims : list ShapeSymbol) : list ShapeSymbol :=
  take axis dims ++ drop (S axis) dims.

(* @src src/operators/argmax_op.cpp:6-45 InferArgmax *)
Definition InferArgmax (params : OpParams) (inputs : list TensorSpec) : Res InferenceResult :=
  match params with
  | ArgmaxParams axis0 =>
      _ ← ValidateInferenceInputCount OpType.kArgmax inputs;
      s ← span_at inputs 0;
      _ ← require (IsArgmaxSupportedDType (dtype s)) ("Argmax input" +:+ half_float_text);
      match shape s with
      | None => Ret (mkInference [mkSpec (DataType.Int 64) None] [])
      | Some dims =>
          let axis := if axis0 <? 0 then axis0 + zlen dims else axis0 in
          _ ← reject ((axis <? 0) || (zlen dims <=? axis)) "Argmax axis is out of range";
          Ret (mkInference [mkSpec (DataType.Int 64) (Some (drop_axis (Z.to_nat axis) dims))] [])
      end
  | _ => Fail (InvalidArgument "Argmax node requires ArgmaxParams")
  end.

(* @src src/operators/reorder_op.cpp:8-20 InferReorder *)
Definition InferReorder (params : OpParams) (inputs : list TensorSpec) : Res InferenceResult :=
  match params with
  | ReorderParams =>
      _ ← ValidateInferenceInputCount OpType.kReorder inputs;
      s ← span_at inputs 0; Ret (mkInference [s] [])
  | _ => Fail (InvalidArgument "Reorder node requires ReorderParams")
  end.

(** ** Embedding, RmsNorm, Linear, MatMul *)

(* @src src/operators/embedding_op.cpp:101-115 InferEmbedding (weight dimensions) *)
Fixpoint embedding_weight_checks (i : nat) (dims : list ShapeSymbol) : Res (list ShapeConstraint) :=
  match dims with
  | [] => Ret []
  | d :: dims' =>
      if IsStatic d then
        _ ← reject (value d <=? 0)
              "Embedding weight dimension must be positive when statically known.";
        embedding_weight_checks (S i) dims'
      else
        rest ← embedding_weight_checks (S i) dims';
        Ret (mkConstraint (DimPositiveConstraint (in_dim 1 i))
               "Embedding weight dimension must be positive" :: rest)
  end.

(* @src src/operators/embedding_op.cpp:65-129 InferEmbedding *)
Definition InferEmbedding (params : OpParams) (inputs : list TensorSpec) : Res InferenceResult :=
  match params with
  | EmbeddingParams =>
      _ ← ValidateInferenceInputCount OpType.kEmbedding inputs;
      input_ids_spec ← span_at inputs 0;
      weight_spec ← span_at inputs 1;
      _ ← require (IsSupportedTokenIdDType (dtype input_ids_spec))
            "Embedding token_ids must be int32, int64, or uint32";
      _ ← require (IsEmbeddingSupportedWeightDType (dtype weight_spec))
            "Embedding weight only supports float32, float16, and bfloat16 dtypes";
      match shape input_ids_spec with
      | Some ((_ :: _) as ids) =>
          match shape weight_spec with
          | Some ([vocab; hidden] as w) =>
              checks ← embedding_weight_checks 0 w;
              Ret (mkInference [mkSpec (dtype weight_spec) (Some (ids ++ [hidden]))] checks)
          | _ => Fail (InvalidArgument "Embedding weight must be rank 2")
          end
      | _ => Fail (InvalidArgument "Embedding input must have rank >= 1")
      end
  | _ => Fail (InvalidArgument "Embedding node requires EmbeddingParams")
  end.

(* @src src/operators/rmsnorm_op.cpp:64-146 InferRmsNorm *)
Definition InferRmsNorm (params : OpParams) (inputs : list TensorSpec) : Res InferenceResult :=
  match params with
  | RmsNormParams eps =>
      _ ← reject (negb (f32_isfinite eps) || f32_le_zero eps)
            "RmsNormParams eps must be finite and positive";
      _ ← ValidateInferenceInputCount OpType.kRmsNorm inputs;
      input_spec ← span_at inputs 0;
      weight_spec ← span_at inputs 1;
      _ ← require (IsRmsNormSupportedDType (dtype input_spec)) ("RmsNorm input" +:+ float8_text);
      _ ← require (IsRmsNormSupportedDType (dtype weight_spec)) ("RmsNorm weight" +:+ float8_text);
      match shape input_spec with
      | Some ((_ :: _) as dims) =>
          let last := (length dims - 1)%nat in
          hidden_size ← span_at dims last;
          _ ← reject (static_nonpositive hidden_size)
                "RmsNorm input last dimension must be positive when statically known.";
          let positive := if IsStatic hidden_size then []
                          else [mkConstraint (DimPositiveConstraint (in_dim 0 last))
                                  "RmsNorm input last dimension must be positive"] in
          match shape weight_spec with
          | Some [weight_len] =>
              eq ← reconcile hidden_size weight_len
                (mkConstraint (DimEqualConstraint (in_dim 0 last) (in_dim 1 0))
                   "RmsNorm hidden dimension must match weight length")
                "RmsNorm weight length must equal input last dimension";
              Ret (mkInference [input_spec] (positive ++ eq))
          | _ => Fail (InvalidArgument "RmsNorm weight must be rank-1")
          end
      | _ => Fail (InvalidArgument "RmsNorm input must have rank >= 1")
      end
  | _ => Fail (InvalidArgument "RmsNorm node requires RmsNormParams")
  end.

(* @src src/operators/linear_op.cpp:67-132 InferLinear *)
Definition InferLinear (params : OpParams) (inputs : list TensorSpec) : Res InferenceResult :=
  match params with
  | LinearParams =>
      _ ← ValidateInferenceInputCount OpType.kLinear inputs;
      input_spec ← span_at inputs 0;
      weight_spec ← span_at inputs 1;
      match shape input_spec with
      | Some ((_ :: _) as dims) =>
          match shape weight_spec with
          | Some [out_features; weight_in] =>
              _ ← require (IsLinearSupportedActivationDType (dtype input_spec))
                    ("Linear activation only supports float32, float16, bfloat16, " +:+
                     "float8_e4m3fn, and float8_e5m2 dtypes");
              _ ← require (IsLinearSupportedWeightDType (dtype weight_spec))
                    ("Linear weight only supports float32, float16, bfloat16, " +:+
                     "float8_e4m3fn, float8_e5m2, int8, and int4 dtypes");
              let last := (length dims - 1)%nat in
              in_features ← span_at dims last;
              eq ← reconcile in_features weight_in
                (mkConstraint (DimEqualConstraint (in_dim 0 last) (in_dim 1 1))
                   "Linear input last dimension must match weight input dimension")
                "Linear weight length must equal input last dimension";
              Ret (mkInference
                     [mkSpec (dtype input_spec) (Some (take last dims ++ [out_features]))] eq)
          | _ => Fail (InvalidArgument "Linear weight must be rank 2")
          end
      | _ => Fail (InvalidArgument "Linear input must have rank >= 1")
      end
  | _ => Fail (InvalidArgument "Linear node requires LinearParams")
  end.

(* @src src/operators/matmul_op.cpp:68-78 ResolveRhsAxes *)
Definition ResolveRhsAxes (transpose_rhs : bool) (rhs_rank : nat) : nat * nat :=
  if transpose_rhs then ((rhs_rank - 1)%nat, (rhs_rank - 2)%nat)
  else ((rhs_rank - 2)%nat, (rhs_rank - 1)%nat).

(* @src src/operators/matmul_op.cpp:81-87 MakeBatchShape *)
Definition MakeBatchShape (dims : list ShapeSymbol) : SymbolicShape :=
  Some (take (length dims - 2) dims).

(* @src src/operators/matmul_op.cpp:91-174 InferMatMul *)
Definition InferMatMul (params : OpParams) (inputs : list TensorSpec) : Res InferenceResult :=
  match params with
  | MatMulParams transpose_rhs =>
      _ ← ValidateInferenceInputCount OpType.kMatMul inputs;
      lhs_spec ← span_at inputs 0;
      rhs_spec ← span_at inputs 1;
      _ ← require (IsMatMulSupportedDType (dtype lhs_spec))
            "MatMul lhs only supports float32, float16, bfloat16, float8_e4m3fn, float8_e5m2, and int8 dtypes";
      _ ← require (IsMatMulSupportedDType (dtype rhs_spec))
            "MatMul rhs only supports float32, float16, bfloat16, float8_e4m3fn, float8_e5m2, and int8 dtypes";
      match shape lhs_spec with
      | Some ((_ :: _ :: _) as l) =>
          match shape rhs_spec with
          | Some ((_ :: _ :: _) as r) =>
              let '(inner, outer) := ResolveRhsAxes transpose_rhs (length r) in
              lhs_inner ← span_at l (length l - 1);
              rhs_inner ← span_at r inner;
              lhs_outer ← span_at l (length l - 2);
              rhs_outer ← span_at r outer;
              b ← InferBroadcastShape (MakeBatchShape l) (MakeBatchShape r);
              match output_shape b with
              | Some batch =>
                  eq ← reconcile lhs_inner rhs_inner
                    (mkConstraint (DimEqualConstraint (in_dim 0 (length l - 1)) (in_dim 1 inner))
                       "MatMul inner dimensions must be equal")
                    "MatMul inner dimensions must be equal";
                  Ret (mkInference
                         [mkSpec (dtype lhs_spec) (Some (batch ++ [lhs_outer; rhs_outer]))]
                         (eq ++ map (broadcast_check "MatMul batch dimensions must be broadcastable")
                                    (deferred_axes b)))
              | None => Panic "bad_optional_access"
              end
          | _ => Fail (InvalidArgument "MatMul rhs must have rank >= 2")
          end
      | _ => Fail (InvalidArgument "MatMul lhs must have rank >= 2")
      end
  | _ => Fail (InvalidArgument "MatMul node requires MatMulParams")
  end.

(** ** RoPE, attention and the KV cache *)

(* @src src/operators/rope_op.cpp:11-49 ValidateRoPEParams *)
Definition ValidateRoPEParams (p : RoPEParams) : Res unit :=
  _ ← reject (rope_head_dim p <=? 0) "RoPE head_dim must be positive";
  _ ← reject (rope_num_attention_heads p <=? 0) "RoPE num_attention_heads must be positive";
  _ ← reject (rope_num_key_value_heads p <=? 0) "RoPE num_key_value_heads must be positive";
  _ ← reject (max_position_embeddings p <=? 0) "RoPE max_position_embeddings must be positive";
  _ ← reject (negb (Z.rem (rope_head_dim p) 2 =? 0)) "RoPE head_dim must be even";
  _ ← reject (negb (f64_isfinite (theta p)) || f64_le_zero (theta p))
        "RoPE theta must be finite and positive";
  _ ← reject (fst (CheckOverflowMul int64_ty (rope_num_attention_heads p) (rope_head_dim p)))
        "RoPE num_attention_heads * head_dim overflows int64_t";
  reject (fst (CheckOverflowMul int64_ty (rope_num_key_value_heads p) (rope_head_dim p)))
    "RoPE num_key_value_heads * head_dim overflows int64_t".

(* @src src/operators/rope_op.cpp:55-80 ValidateRoPEScaling *)
Definition ValidateRoPEScaling (p : RoPEParams) : Res unit :=
  match scaling_type p with
  | kNone =>
      reject (bool_decide (is_Some (scaling_factor p)))
        "RoPE scaling_type kNone must not carry a scaling_factor"
  | kLinear =>
      match scaling_factor p with
      | None => Fail (InvalidArgument
          "RoPE scaling_type kLinear requires a finite positive scaling_factor")
      | Some f =>
          _ ← reject (negb (f64_isfinite f)) "RoPE scaling_type kLinear scaling_factor must be finite";
          reject (f64_le_zero f) "RoPE scaling_type kLinear scaling_factor must be positive"
      end
  end.

(* @src src/operators/rope_op.cpp:84-101 ValidateRoPEDTypes *)
Definition ValidateRoPEDTypes (q k position_ids : TensorSpec) : Res unit :=
  _ ← require (IsRoPESupportedDType (dtype q)) ("RoPE q" +:+ half_float_text);
  _ ← require (DataType.equal (dtype k) (dtype q)) "RoPE k dtype must match q dtype";
  require (DataType.equal (dtype position_ids) (DataType.Int 64)) "RoPE position_ids must be int64".

(** Exactly one positivity check when the sequence length is not static. *)
Definition positive_check (loc : DimLocator) (d : ShapeSymbol) (msg : string) : list ShapeConstraint :=
  if IsStatic d then [] else [mkConstraint (DimPositiveConstraint loc) msg].

(* @src src/operators/rope_op.cpp:106-199 ValidateRoPEShapes *)
Definition ValidateRoPEShapes (p : RoPEParams) (q_shape k_shape pos_shape : SymbolicShape)
    : Res (list ShapeConstraint) :=
  match q_shape with
  | Some [q_seq_len; q_hidden] =>
      match k_shape with
      | Some [k_seq_len; kv_hidden] =>
          match pos_shape with
          | Some [pos_seq_len] =>
              _ ← reject (static_ne q_hidden (rope_num_attention_heads p * rope_head_dim p))
                    "RoPE q hidden dim must equal num_attention_heads * head_dim";
              _ ← reject (static_ne kv_hidden (rope_num_key_value_heads p * rope_head_dim p))
                    "RoPE k hidden dim must equal num_key_value_heads * head_dim";
              _ ← reject (static_nonpositive q_seq_len) "RoPE q seq_len must be positive when static";
              let c0 := positive_check (in_dim 0 0) q_seq_len "RoPE q seq_len must be positive" in
              c1 ← reconcile q_seq_len k_seq_len
                (mkConstraint (DimEqualConstraint (in_dim 0 0) (in_dim 1 0))
                   "RoPE q and k seq_len must be equal") "RoPE q and k seq_len must be equal";
              c2 ← reconcile q_seq_len pos_seq_len
                (mkConstraint (DimEqualConstraint (in_dim 0 0) (in_dim 2 0))
                   "RoPE q seq_len and position_ids length must be equal")
                "RoPE q seq_len and position_ids length must be equal";
              Ret (c0 ++ c1 ++ c2)
          | _ => Fail (InvalidArgument "RoPE position_ids must be rank 1 [seq_len]")
          end
      | _ => Fail (InvalidArgument "RoPE k must be rank 2 [seq_len, hidden]")
      end
  | _ => Fail (InvalidArgument "RoPE q must be rank 2 [seq_len, hidden]")
  end.

(* @src src/operators/rope_op.cpp:202-223 InferRoPE *)
Definition InferRoPE (params : OpParams) (inputs : list TensorSpec) : Res InferenceResult :=
  match params with
  | RoPEParams_ p =>
      _ ← ValidateRoPEParams p;
      _ ← ValidateRoPEScaling p;
      _ ← ValidateInferenceInputCount OpType.kRoPE inputs;
      q ← span_at inputs 0; k ← span_at inputs 1; pos ← span_at inputs 2;
      _ ← ValidateRoPEDTypes q k pos;
      checks ← ValidateRoPEShapes p (shape q) (shape k) (shape pos);
      Ret (mkInference [q; k] checks)
  | _ => Fail (InvalidArgument "RoPE node requires RoPEParams")
  end.

(* @src src/operators/attention_op.cpp:11-37 ValidateAttentionParams *)
Definition ValidateAttentionParams (p : AttentionParams) : Res unit :=
  _ ← reject (num_attention_heads p <=? 0) "Attention num_attention_heads must be positive";
  _ ← reject (num_key_value_heads p <=? 0) "Attention num_key_value_heads must be positive";
  _ ← reject (head_dim p <=? 0) "Attention head_dim must be positive";
  _ ← reject (negb (Z.rem (num_attention_heads p) (num_key_value_heads p) =? 0))
        "Attention num_attention_heads must be divisible by num_key_value_heads";
  reject (fst (CheckOverflowMul int64_ty (num_attention_heads p) (head_dim p)))
    "Attention num_attention_heads * head_dim overflows int64_t".

(* @src src/operators/attention_op.cpp:41-61 ValidateAttentionDTypes *)
Definition ValidateAttentionDTypes (q k_cache v_cache : TensorSpec) : Res unit :=
  _ ← require (IsAttentionSupportedDType (dtype q)) ("Attention q" +:+ half_float_text);
  _ ← require (DataType.equal (dtype k_cache) (dtype q)) "Attention k_cache dtype must match q dtype";
  require (DataType.equal (dtype v_cache) (dtype q)) "Attention v_cache dtype must match q dtype".

(** The per-dimension comparison of two caches. *)
Definition provably_equal_dims (a b : list ShapeSymbol) : bool :=
  forallb (fun p => AreProvablyEqual p.1 p.2) (zip a b).

(* @src src/operators/attention_op.cpp:65-147 ValidateAttentionShapes *)
Definition ValidateAttentionShapes (p : AttentionParams) (q_shape k_shape v_shape : SymbolicShape)
    : Res (list ShapeConstraint) :=
  match q_shape with
  | Some [q_seq_len; q_hidden] =>
      match k_shape with
      | Some ([kv_heads; cache_len; hd] as k_cache) =>
          match v_shape with
          | Some ([_; _; _] as v_cache) =>
              _ ← reject (static_ne q_hidden (num_attention_heads p * head_dim p))
                    "Attention q hidden dim must equal num_attention_heads * head_dim";
              _ ← reject (static_ne kv_heads (num_key_value_heads p))
                    "Attention k_cache num_kv_heads must match params";
              _ ← reject (static_ne hd (head_dim p)) "Attention k_cache head_dim must match params";
              _ ← reject (negb (provably_equal_dims k_cache v_cache))
                    "Attention k_cache and v_cache shapes must be equal";
              _ ← reject (static_nonpositive q_seq_len)
                    "Attention q seq_len must be positive when static";
              _ ← reject (IsStatic cache_len && (value cache_len =? 0))
                    "Attention cache_len must not be statically zero";
              Ret (positive_check (in_dim 0 0) q_seq_len "Attention q seq_len must be positive")
          | _ => Fail (InvalidArgument
              "Attention v_cache must be rank 3 [num_key_value_heads, cache_len, head_dim]")
          end
      | _ => Fail (InvalidArgument
          "Attention k_cache must be rank 3 [num_key_value_heads, cache_len, head_dim]")
      end
  | _ => Fail (InvalidArgument "Attention q must be rank 2 [seq_len, hidden]")
  end.

(* @src src/operators/attention_op.cpp:151-169 InferAttention *)
Definition InferAttention (params : OpParams) (inputs : list TensorSpec) : Res InferenceResult :=
  match params with
  | AttentionParams_ p =>
      _ ← ValidateAttentionParams p;
      _ ← ValidateInferenceInputCount OpType.kAttention inputs;
      q ← span_at inputs 0; k_cache ← span_at inputs 1; v_cache ← span_at inputs 2;
      _ ← ValidateAttentionDTypes q k_cache v_cache;
      checks ← ValidateAttentionShapes p (shape q) (shape k_cache) (shape v_cache);
      Ret (mkInference [q] checks)
  | _ => Fail (InvalidArgument "Attention node requires AttentionParams")
  end.

(* @src src/operators/kvcache_update_op.cpp:11-37 ValidateKVCacheUpdateDTypes *)
Definition ValidateKVCacheUpdateDTypes (k v k_cache v_cache : TensorSpec) : Res unit :=
  _ ← require (IsKVCacheUpdateSupportedDType (dtype k)) ("KVCacheUpdate k" +:+ half_float_text);
  _ ← require (DataType.equal (dtype v) (dtype k)) "KVCacheUpdate v dtype must match k dtype";
  _ ← require (DataType.equal (dtype k_cache) (dtype k))
        "KVCacheUpdate k_cache_in dtype must match k dtype";
  require (DataType.equal (dtype v_cache) (dtype k))
    "KVCacheUpdate v_cache_in dtype must match k dtype".

(** The checks on dimensions once the ranks are known. *)
(* @src src/operators/kvcache_update_op.cpp:76-137 ValidateKVCacheUpdateShapes (dimensions) *)
Definition kvcache_dims (k_t k_last v_t v_last : ShapeSymbol) (k_cache v_cache : list ShapeSymbol)
    (kv_heads cache_len hd : ShapeSymbol) : Res unit :=
  _ ← reject (negb (AreProvablyEqual k_t v_t) || negb (AreProvablyEqual k_last v_last))
        "KVCacheUpdate k and v shapes must be equal";
  _ ← reject (static_nonpositive k_t)
        "KVCacheUpdate k sequence length T must be positive when static";
  _ ← reject (static_nonpositive k_last) "KVCacheUpdate k last dim must be positive when static";
  _ ← reject (negb (provably_equal_dims k_cache v_cache))
        "KVCacheUpdate k_cache_in and v_cache_in shapes must be equal";
  _ ← reject (static_nonpositive kv_heads)
        "KVCacheUpdate cache num_kv_heads must be positive when static";
  _ ← reject (static_nonpositive hd) "KVCacheUpdate cache head_dim must be positive when static";
  _ ← reject (static_nonpositive cache_len)
        "KVCacheUpdate cache capacity must be positive when static";
  _ ← reject (IsStatic k_t && IsStatic cache_len && (value cache_len <? value k_t))
        "KVCacheUpdate k sequence length T must not exceed cache capacity when both are static";
  if IsStatic kv_heads && IsStatic hd then
    expected_last ← mul_i64 (value kv_heads) (value hd);
    reject (static_ne k_last expected_last)
      "KVCacheUpdate k last dim must equal num_kv_heads * head_dim"
  else Ret tt.

(* @src src/operators/kvcache_update_op.cpp:50-138 ValidateKVCacheUpdateShapes *)
Definition ValidateKVCacheUpdateShapes (k_shape v_shape k_cache_shape v_cache_shape : SymbolicShape)
    : Res unit :=
  match k_shape with
  | Some [k_t; k_last] =>
      match v_shape with
      | Some [v_t; v_last] =>
          match k_cache_shape with
          | Some ([kv_heads; cache_len; hd] as k_cache) =>
              match v_cache_shape with
              | Some ([_; _; _] as v_cache) =>
                  kvcache_dims k_t k_last v_t v_last k_cache v_cache kv_heads cache_len hd
              | _ => Fail (InvalidArgument
                  "KVCacheUpdate v_cache_in must be rank 3 [kv_heads, cache_len, head_dim]")
              end
          | _ => Fail (InvalidArgument
              "KVCacheUpdate k_cache_in must be rank 3 [kv_heads, cache_len, head_dim]")
          end
      | _ => Fail (InvalidArgument "KVCacheUpdate v must be rank 2 [seq_len, hidden]")
      end
  | _ => Fail (InvalidArgument "KVCacheUpdate k must be rank 2 [seq_len, hidden]")
  end.

(* @src src/operators/kvcache_update_op.cpp:142-158 InferKVCacheUpdate *)
Definition InferKVCacheUpdate (params : OpParams) (inputs : list TensorSpec) : Res InferenceResult :=
  match params with
  | KVCacheUpdateParams =>
      _ ← ValidateInferenceInputCount OpType.kKVCacheUpdate inputs;
      k ← span_at inputs 0; v ← span_at inputs 1;
      k_cache ← span_at inputs 2; v_cache ← span_at inputs 3;
      _ ← ValidateKVCacheUpdateDTypes k v k_cache v_cache;
      _ ← ValidateKVCacheUpdateShapes (shape k) (shape v) (shape k_cache) (shape v_cache);
      Ret (mkInference [k_cache; v_cache] [])
  | _ => Fail (InvalidArgument "KVCacheUpdate node requires KVCacheUpdateParams")
  end.

(** ** Reshape and permute *)

(* @src src/operators/reshape_op.cpp:13-32 MakeVolumeEqualConstraint *)
Definition MakeVolumeEqualConstraint (input_rank output_rank : nat) : ConstraintVariant :=
  VolumeEqualConstraint (in_dim 0 <$> seq 0 input_rank) (out_dim 0 <$> seq 0 output_rank).

(* @src src/operators/reshape_op.cpp:37-46 MultiplyStaticDims *)
Fixpoint MultiplyStaticDims (dims : list ShapeSymbol) (product : Z) (msg : string) : Res Z :=
  match dims with
  | [] => Ret product
  | d :: dims' =>
      v ← GetStaticValue d;
      let '(o, p) := CheckOverflowMul uint64_ty product (u64 v) in
      if o then Fail (Overflow msg) else MultiplyStaticDims dims' p msg
  end.

(** The dimensions of the output except the inferred one, in order. *)
Definition except {A} (l : list A) (i : nat) : list A := take i l ++ drop (S i) l.

(* @src src/operators/reshape_op.cpp:48-60 AllDimsStaticExcept *)
Definition AllDimsStaticExcept (dims : list ShapeSymbol) (skip_index : nat) : bool :=
  forallb IsStatic (except dims skip_index).

(* @src src/operators/reshape_op.cpp:65-107 TryResolveInferDim *)
Definition TryResolveInferDim (input output : list ShapeSymbol) (infer_index : nat)
    : Res (list ShapeSymbol) :=
  if negb (forallb IsStatic input) || negb (AllDimsStaticExcept output infer_index) then Ret output
  else
    input_volume ← MultiplyStaticDims input 1 "Reshape volume product overflows";
    non_infer_product ← MultiplyStaticDims (except output infer_index) 1
                          "Reshape non-infer product overflows";
    if non_infer_product =? 0 then
      Fail (InvalidArgument "Reshape infer marker is ambiguous for zero-volume shapes")
    else if negb (input_volume mod non_infer_product =? 0) then
      Fail (InvalidArgument "Reshape volume not divisible by non-infer product")
    else
      let quotient := input_volume / non_infer_product in
      if INT64_MAX <? quotient then Fail (Overflow "Reshape infer quotient overflows int64_t")
      else q ← CreateFromValue quotient; Ret (<[infer_index := q]> output).

(** The parameter-only loop: literals are checked in order, infer markers counted. *)
(* @src src/operators/reshape_op.cpp:120-144 InferReshape (parameters) *)
Definition reshape_params_ok (target : list ReshapeDim) : Res unit :=
  _ ← res_iter (fun d =>
        match d with
        | ReshapeLiteralDim v => reject (v <? 0) "Reshape literal dim must be non-negative"
        | _ => Ret tt
        end) target;
  reject (1 <? length (filter (fun d => d = ReshapeInferDim) target))%nat
    "Reshape target_shape may contain at most one infer marker".

(** The target dimensions and the position of the infer marker. *)
(* @src src/operators/reshape_op.cpp:162-182 InferReshape (target dimensions) *)
Fixpoint reshape_dims (i : nat) (target : list ReshapeDim) (input : list ShapeSymbol)
    : Res (list ShapeSymbol * option nat) :=
  match target with
  | [] => Ret ([], None)
  | d :: target' =>
      s ← match d with
          | ReshapeLiteralDim v => CreateFromValue v
          | ReshapeInputDim axis => span_at input axis
          | ReshapeInferDim => Ret Unknown
          end;
      rest ← reshape_dims (S i) target' input;
      Ret (s :: rest.1, match rest.2 with
                        | Some j => Some j
                        | None => match d with ReshapeInferDim => Some i | _ => None end
                        end)
  end.

(* @src src/operators/reshape_op.cpp:189-221 InferReshape (volume constraint) *)
Definition reshape_finish (dt : DataType.t) (input out : list ShapeSymbol) : Res InferenceResult :=
  let constraint := mkConstraint (MakeVolumeEqualConstraint (length input) (length out))
                      "Reshape volume mismatch" in
  eval_result ← EvaluateShapeConstraint constraint [Some input] [Some out];
  match eval_result with
  | EvalResult.kViolated => Fail (InvalidArgument "Reshape input/output volumes are not equal")
  | EvalResult.kSatisfied => Ret (mkInference [mkSpec dt (Some out)] [])
  | EvalResult.kDeferred =>
      if forallb IsStatic input && forallb IsStatic out then
        Fail (Overflow "Reshape volume product overflows")
      else Ret (mkInference [mkSpec dt (Some out)] [constraint])
  end.

(* @src src/operators/reshape_op.cpp:111-222 InferReshape *)
Definition InferReshape (params : OpParams) (inputs : list TensorSpec) : Res InferenceResult :=
  match params with
  | ReshapeParams target =>
      _ ← reshape_params_ok target;
      _ ← ValidateInferenceInputCount OpType.kReshape inputs;
      input ← span_at inputs 0;
      match shape input with
      | None => Fail (InvalidArgument "Reshape input must be ranked")
      | Some dims =>
          _ ← res_iter (fun d =>
                match d with
                | ReshapeInputDim axis =>
                    reject (length dims <=? axis)%nat "Reshape input-axis reference out of range"
                | _ => Ret tt
                end) target;
          r ← reshape_dims 0 target dims;
          out ← match r.2 with
                | Some infer_index => TryResolveInferDim dims r.1 infer_index
                | None => Ret r.1
                end;
          reshape_finish (dtype input) dims out
      end
  | _ => Fail (InvalidArgument "Reshape node requires ReshapeParams")
  end.

(** [std::ranges::adjacent_find(sorted) != sorted.end()]. *)
Fixpoint adjacent_equal (l : list nat) : bool :=
  match l with
  | a :: ((b :: _) as l') => (a =? b)%nat || adjacent_equal l'
  | _ => false
  end.

(* @src src/operators/permute_op.cpp:9-59 InferPermute *)
Definition InferPermute (params : OpParams) (inputs : list TensorSpec) : Res InferenceResult :=
  match params with
  | PermuteParams permutation =>
      let sorted := merge_sort le permutation in
      _ ← reject (adjacent_equal sorted) "Permute permutation must be a bijection: duplicate axis";
      _ ← ValidateInferenceInputCount OpType.kPermute inputs;
      input ← span_at inputs 0;
      match shape input with
      | None => Fail (InvalidArgument "Permute input must be ranked")
      | Some dims =>
          _ ← reject (negb (length permutation =? length dims)%nat)
                "Permute permutation length must match input rank";
          _ ← res_iter (fun axis =>
                reject (length dims <=? axis)%nat "Permute permutation axis out of range") permutation;
          out ← res_mapi (fun _ axis => span_at dims axis) 0 permutation;
          Ret (mkInference [mkSpec (dtype input) (Some out)] [])
      end
  | _ => Fail (InvalidArgument "Permute node requires PermuteParams")
  end.

(** ** Dispatch *)

(* @src src/operators/operator_inference.cpp:7-52 InferOperator *)
Definition InferOperator (op_type : OpType.t) (params : OpParams) (inputs : list TensorSpec)
    : Res InferenceResult :=
  match op_type with
  | OpType.kEmbedding => InferEmbedding params inputs
  | OpType.kRmsNorm => InferRmsNorm params inputs
  | OpType.kLinear => InferLinear params inputs
  | OpType.kRoPE => InferRoPE params inputs
  | OpType.kMatMul => InferMatMul params inputs
  | OpType.kSoftmax => InferSoftmax params inputs
  | OpType.kAdd => InferAdd params inputs
  | OpType.kSiluMul => InferSiluMul params inputs
  | OpType.kKVCacheUpdate => InferKVCacheUpdate params inputs
  | OpType.kAttention => InferAttention params inputs
  | OpType.kArgmax => InferArgmax params inputs
  | OpType.kSilu => InferSilu params inputs
  | OpType.kElementwiseMul => InferElementwiseMul params inputs
  | OpType.kReshape => InferReshape params inputs
  | OpType.kPermute => InferPermute params inputs
  | OpType.kReorder => InferReorder params inputs
  | OpType.kUnknown => Fail (InvalidArgument "Unknown op type cannot have validated graph params")
  end.

(** ** Lemmas: arity *)

Lemma ValidateInferenceInputCount_ret o ins u :
  ValidateInferenceInputCount o ins = Ret u ->
  exists s, GetOperatorSchema o = Ret s /\ length ins = length (input_ports s).
Proof.
  unfold ValidateInferenceInputCount, reject. intros H. res_inv. bsplit. eauto.
Qed.

(** Opens a successful inference: every check is turned into a fact and every
    match on a spec into its shape. *)
Ltac infer_step :=
  match goal with
  | H : ValidateInferenceInputCount _ _ = Ret _ |- _ =>
      apply ValidateInferenceInputCount_ret in H as (? & ? & ?)
  | H : require _ _ = Ret _ |- _ => unfold require in H
  | H : reject _ _ = Ret _ |- _ => unfold reject in H
  | H : span_at _ _ = Ret _ |- _ => apply span_at_ret in H
  | H : match ?x with _ => _ end = Ret _ |- _ => destruct x eqn:?; try discriminate H
  | _ => progress res_inv
  end.
Ltac infer_inv := repeat infer_step.

Lemma reshape_finish_ret dt input out r :
  reshape_finish dt input out = Ret r ->
  outputs r = [mkSpec dt (Some out)] /\
  ((EvaluateShapeConstraint (mkConstraint (MakeVolumeEqualConstraint (length input) (length out))
      "Reshape volume mismatch") [Some input] [Some out] = Ret EvalResult.kSatisfied /\
    runtime_checks r = []) \/
   runtime_checks r = [mkConstraint (MakeVolumeEqualConstraint (length input) (length out))
                         "Reshape volume mismatch"]).
Proof. unfold reshape_finish. intros H. infer_inv; simpl; auto. Qed.

(** The input count of an opened inference, read off its schema. *)
Ltac schema_of :=
  match goal with
  | Hs : GetOperatorSchema ?o = Ret ?s, Hl : length _ = length (input_ports ?s) |- _ =>
      vm_compute in Hs; injection Hs as <-; simpl in Hl
  end.

Lemma infer_arity o p ins r :
  InferOperator o p ins = Ret r ->
  exists s, GetOperatorSchema o = Ret s /\ length ins = length (input_ports s) /\
    length (outputs r) = length (output_ports s).
Proof.
  intros H. destruct o; unfold InferOperator in H; [discriminate|..];
    unfold InferEmbedding, InferRmsNorm, InferLinear, InferRoPE, InferMatMul, InferSoftmax, InferAdd,
      InferSiluMul, InferKVCacheUpdate, InferAttention, InferArgmax, InferSilu, InferElementwiseMul,
      InferReshape, InferPermute, InferReorder in H; infer_inv;
    try (apply reshape_finish_ret in H as [E _]); eexists; (split; [reflexivity|]);
    schema_of; (split; [assumption|]); first [rewrite E; reflexivity|reflexivity].
Qed.

(** ** Lemmas: references of the emitted checks *)

Definition checks_located (rin rout : list (list Z)) (cs : list ShapeConstraint) : Prop :=
  Forall (fun c => located rin rout (condition c)) cs.

Lemma reconcile_ret l r check msg cs (P : ShapeConstraint -> Prop) :
  reconcile l r check msg = Ret cs -> P check -> Forall P cs.
Proof. unfold reconcile. intros H HP. infer_inv; by repeat constructor. Qed.

Section Located.
Context (rho : valuation) (ins : list TensorSpec) (rin rout : list (list Z)).
Context (Hin : Forall2 (shape_denotes rho) (shape <$> ins) rin).

(** An input with known dimensions is present at run time with those dimensions. *)
Lemma input_denoted i s dims :
  ins !! i = Some s -> shape s = Some dims ->
  exists t, rin !! i = Some t /\ Forall2 (dim_denotes rho) dims t.
Proof.
  intros Hs Hd. assert ((shape <$> ins) !! i = Some (Some dims)) as E
    by (rewrite list_lookup_fmap, Hs; simpl; by rewrite Hd).
  by apply (Forall2_lookup_l _ _ _ _ _ Hin) in E.
Qed.

Lemma in_dim_located i s dims j :
  ins !! i = Some s -> shape s = Some dims -> (j < length dims)%nat ->
  exists x, locates rin rout (in_dim i j) x.
Proof.
  intros Hs Hd Hj. destruct (input_denoted i s dims Hs Hd) as (t & Ht & HF).
  assert (is_Some (t !! j)) as [x Hx].
  { apply lookup_lt_is_Some. by rewrite <- (Forall2_length _ _ _ HF). }
  exists x, t. done.
Qed.

Lemma broadcast_checks_located msg l r b t u :
  rin !! 0%nat = Some t -> rin !! 1%nat = Some u ->
  (exists a, a `prefix_of` t /\ Forall2 (dim_denotes rho) l a) ->
  (exists a, a `prefix_of` u /\ Forall2 (dim_denotes rho) r a) ->
  InferBroadcastShape (Some l) (Some r) = Ret b ->
  checks_located rin rout (map (broadcast_check msg) (deferred_axes b)).
Proof.
  intros Ht Hu (a & [ta ->] & Ha) (c & [tc ->] & Hc) H.
  destruct (InferBroadcastShape_rows rho l r a c Ha Hc b H) as (rows & _ & Ed & _ & Hrow).
  unfold checks_located. rewrite List.Forall_map. apply Forall_forall. intros d Hd. rewrite Ed in Hd.
  apply list_elem_of_omap in Hd as ([s o] & Hs & E). simpl in E. subst o.
  apply list_elem_of_lookup_1 in Hs as [k Hk]. destruct (Hrow _ _ _ Hk) as [_ Hd].
  destruct (Hd d eq_refl) as [H1 H2]. split; eexists; eexists; (split; [done|]);
    by apply lookup_app_l_Some.
Qed.

Lemma elementwise_located msg x y b :
  ins !! 0%nat = Some x -> ins !! 1%nat = Some y ->
  InferBroadcastShape (shape x) (shape y) = Ret b ->
  checks_located rin rout (map (broadcast_check msg) (deferred_axes b)).
Proof.
  intros Hx Hy H. destruct (shape x) as [l|] eqn:El; [|discriminate].
  destruct (shape y) as [r|] eqn:Er; [|discriminate].
  destruct (input_denoted _ _ _ Hx El) as (t & Ht & ?).
  destruct (input_denoted _ _ _ Hy Er) as (u & Hu & ?).
  eapply broadcast_checks_located; [exact Ht|exact Hu|by exists t|by exists u|done].
Qed.

Lemma InferAdd_located p r : InferAdd p ins = Ret r -> checks_located rin rout (runtime_checks r).
Proof. unfold InferAdd. intros H. infer_inv. by eapply elementwise_located. Qed.

Lemma InferElementwiseMul_located p r :
  InferElementwiseMul p ins = Ret r -> checks_located rin rout (runtime_checks r).
Proof. unfold InferElementwiseMul. intros H. infer_inv. by eapply elementwise_located. Qed.

Lemma InferSiluMul_located p r :
  InferSiluMul p ins = Ret r -> checks_located rin rout (runtime_checks r).
Proof. unfold InferSiluMul. intros H. infer_inv. by eapply elementwise_located. Qed.

Lemma embedding_checks_located s w i dims cs :
  ins !! 1%nat = Some s -> shape s = Some w -> (i + length dims <= length w)%nat ->
  embedding_weight_checks i dims = Ret cs -> checks_located rin rout cs.
Proof.
  intros Hs Hw. revert i cs. induction dims as [|d dims IH]; intros i cs Hi H; simpl in *.
  - infer_inv. constructor.
  - infer_inv; [eapply (IH (S i)); [lia|done]|]. constructor.
    + simpl. eapply in_dim_located; [done|done|lia].
    + eapply (IH (S i)); [lia|done].
Qed.

Lemma InferEmbedding_located p r :
  InferEmbedding p ins = Ret r -> checks_located rin rout (runtime_checks r).
Proof.
  unfold InferEmbedding. intros H. infer_inv. simpl runtime_checks.
  eapply embedding_checks_located; [done|done| |done]. simpl. lia.
Qed.

Lemma dim_equal_located i j s t d e x y msg :
  ins !! i = Some s -> shape s = Some d -> (x < length d)%nat ->
  ins !! j = Some t -> shape t = Some e -> (y < length e)%nat ->
  located rin rout (condition (mkConstraint (DimEqualConstraint (in_dim i x) (in_dim j y)) msg)).
Proof. intros. split; by eapply in_dim_located. Qed.

Lemma InferRmsNorm_located p r :
  InferRmsNorm p ins = Ret r -> checks_located rin rout (runtime_checks r).
Proof.
  unfold InferRmsNorm. intros H. infer_inv. simpl runtime_checks. apply Forall_app. split.
  - destruct (IsStatic _); [constructor|]. constructor; [|constructor]. simpl.
    eapply in_dim_located; [done|done|simpl; lia].
  - eapply reconcile_ret; [done|]. eapply dim_equal_located; [done|done| |done|done|]; simpl; lia.
Qed.

Lemma InferLinear_located p r :
  InferLinear p ins = Ret r -> checks_located rin rout (runtime_checks r).
Proof.
  unfold InferLinear. intros H. infer_inv. simpl runtime_checks.
  eapply reconcile_ret; [done|]. eapply dim_equal_located; [done|done| |done|done|]; simpl; lia.
Qed.

Lemma InferRoPE_located p r :
  InferRoPE p ins = Ret r -> checks_located rin rout (runtime_checks r).
Proof.
  unfold InferRoPE, ValidateRoPEShapes. intros H. infer_inv. simpl runtime_checks.
  apply Forall_app. split; [|apply Forall_app; split].
  - unfold positive_check. destruct (IsStatic _); repeat constructor; simpl;
    eapply in_dim_located; try done; simpl; lia.
  - eapply reconcile_ret; [done|]. eapply dim_equal_located; [done|done| |done|done|]; simpl; lia.
  - eapply reconcile_ret; [done|]. eapply dim_equal_located; [done|done| |done|done|]; simpl; lia.
Qed.

Lemma InferAttention_located p r :
  InferAttention p ins = Ret r -> checks_located rin rout (runtime_checks r).
Proof.
  unfold InferAttention, ValidateAttentionShapes, positive_check. intros H. infer_inv.
  simpl runtime_checks. destruct (IsStatic s); [constructor|]. constructor; [|constructor]. simpl.
  eapply in_dim_located; try done. simpl. lia.
Qed.

Lemma InferMatMul_located p r :
  InferMatMul p ins = Ret r -> checks_located rin rout (runtime_checks r).
Proof.
  unfold InferMatMul. intros H. infer_inv. simpl runtime_checks.
  match goal with H : ResolveRhsAxes _ _ = _ |- _ => rename H into Hax end.
  apply Forall_app. split.
  - eapply reconcile_ret; [done|]. eapply dim_equal_located; [done|done|simpl; lia|done|done|].
    unfold ResolveRhsAxes in Hax. simpl in *. destruct transpose_rhs; simplify_eq; lia.
  - match goal with H : InferBroadcastShape (MakeBatchShape ?l) (MakeBatchShape ?r) = Ret _,
      H1 : shape ?x = Some ?l, H2 : shape ?y = Some ?r,
      H3 : ins !! _ = Some ?x, H4 : ins !! _ = Some ?y |- _ =>
      destruct (input_denoted _ _ _ H3 H1) as (t & Ht & Dt);
      destruct (input_denoted _ _ _ H4 H2) as (u & Hu & Du); 
      eapply (broadcast_checks_located _ (take (length l - 2) l) (take (length r - 2) r) _ t u);
        [exact Ht|exact Hu|exists (take (length l - 2) t)|exists (take (length r - 2) u)|exact H] end;
    (split; [eexists; symmetry; apply take_drop|by apply Forall2_take]).
Qed.
End Located.

(** Every dimension of a present tensor is located, in order. *)
Lemma dims_located (loc : nat -> DimLocator) rin rout t :
  (forall i d, t !! i = Some d -> locates rin rout (loc i) d) ->
  Forall2 (locates rin rout) (loc <$> seq 0 (length t)) t.
Proof.
  intros H. apply Forall2_same_length_lookup_2; [by rewrite length_fmap, length_seq|].
  intros i l d Hl Hd. apply list_lookup_fmap_Some in Hl as (j & -> & Hj).
  apply lookup_seq in Hj as [-> _]. by apply H.
Qed.

(** The volume constraint of a reshape refers to exactly the two tensors. *)
Lemma volume_constraint_dims rho input out t u :
  Forall2 (dim_denotes rho) input t -> Forall2 (dim_denotes rho) out u ->
  Forall2 (locates [t] [u]) (in_dim 0 <$> seq 0 (length input)) t /\
  Forall2 (locates [t] [u]) (out_dim 0 <$> seq 0 (length out)) u.
Proof.
  intros Ht Hu. rewrite (Forall2_length _ _ _ Ht), (Forall2_length _ _ _ Hu).
  split; apply dims_located; intros i d Hd; [exists t|exists u]; done.
Qed.

Lemma InferReshape_inv p ins r :
  InferReshape p ins = Ret r ->
  exists target s dims out, p = ReshapeParams target /\ ins = [s] /\ shape s = Some dims /\
    reshape_finish (dtype s) dims out = Ret r.
Proof.
  unfold InferReshape. intros H. infer_inv; schema_of; 
    (destruct ins as [|i [|]]; simpl in *; simplify_eq; eauto 10).
Qed.

Lemma InferReshape_located rho p ins r rin rout :
  Forall2 (shape_denotes rho) (shape <$> ins) rin ->
  Forall2 (shape_denotes rho) (shape <$> outputs r) rout ->
  InferReshape p ins = Ret r -> checks_located rin rout (runtime_checks r).
Proof.
  intros Hin Hout H. destruct (InferReshape_inv p ins r H) as (target & s & dims & out & -> & -> & Hs & HF).
  apply reshape_finish_ret in HF as [Eo HF]. rewrite Eo in Hout.
  apply Forall2_cons_inv_l in Hin as (t & ? & Ht & Hn & ->). apply Forall2_nil_inv_l in Hn as ->.
  apply Forall2_cons_inv_l in Hout as (u & ? & Hu & Hn & ->). apply Forall2_nil_inv_l in Hn as ->.
  rewrite Hs in Ht. simpl in Ht, Hu.
  destruct (volume_constraint_dims rho dims out t u Ht Hu) as [H1 H2].
  destruct HF as [[_ ->]| ->]; constructor; [|constructor]. split; eauto.
Qed.

(** Operators that emit no run-time check. *)
Lemma no_checks o p ins r :
  InferOperator o p ins = Ret r ->
  o ∈ [OpType.kSoftmax; OpType.kKVCacheUpdate; OpType.kArgmax; OpType.kSilu; OpType.kPermute;
       OpType.kReorder] ->
  runtime_checks r = [].
Proof.
  intros H Ho. rewrite !elem_of_cons in Ho.
  destruct Ho as [->|[->|[->|[->|[->|[->|Ho]]]]]]; [..|by apply elem_of_nil in Ho];
    unfold InferOperator, InferSoftmax, InferKVCacheUpdate, InferArgmax, InferSilu, InferPermute,
      InferReorder in H; infer_inv; reflexivity.
Qed.

(** ** Lemmas: what the inferred shapes mean *)

Lemma reconcile_equal rho l r check msg cs x y :
  reconcile l r check msg = Ret cs -> dim_denotes rho l x -> dim_denotes rho r y ->
  (cs = [check] -> x = y) -> x = y.
Proof.
  unfold reconcile. intros H Hx Hy Hc.
  destruct (AreProvablyEqual l r) eqn:E; [by eapply AreProvablyEqual_sound|].
  infer_inv. by apply Hc.
Qed.

(** The concrete meaning of matrix multiplication on shapes: inner dimensions
    agree, batch dimensions broadcast, the outer dimensions are appended. *)
Definition matmul_shape (transpose_rhs : bool) (a b o : list Z) : Prop :=
  let '(inner, outer) := ResolveRhsAxes transpose_rhs (length b) in
  exists k m n batch,
    a !! (length a - 1)%nat = Some k /\ b !! inner = Some k /\
    a !! (length a - 2)%nat = Some m /\ b !! outer = Some n /\
    BroadcastShapes (take (length a - 2) a) (take (length b - 2) b) = Ret batch /\
    o = batch ++ [m; n].

Lemma holds_broadcast_checks a b axes msg (n m : nat) :
  Forall (fun c => holds [a; b] [] (condition c)) (map (broadcast_check msg) axes) ->
  Forall (deferred_ok (take n a) (take m b)) axes.
Proof.
  rewrite List.Forall_map. intros H. eapply Forall_impl; [exact H|]. intros d Hd p q Hp Hq.
  simpl in Hd. apply (Hd p q).
  - exists a. split; [done|]. simpl. by apply lookup_take_Some in Hp as [? _].
  - exists b. split; [done|]. simpl. by apply lookup_take_Some in Hq as [? _].
Qed.

Lemma InferMatMul_inv tr ins res :
  InferMatMul (MatMulParams tr) ins = Ret res ->
  exists x y L R inner outer li ri lo ro b batch eq,
    ins !! 0%nat = Some x /\ ins !! 1%nat = Some y /\ shape x = Some L /\ shape y = Some R /\
    ResolveRhsAxes tr (length R) = (inner, outer) /\
    L !! (length L - 1)%nat = Some li /\ R !! inner = Some ri /\
    L !! (length L - 2)%nat = Some lo /\ R !! outer = Some ro /\
    InferBroadcastShape (MakeBatchShape L) (MakeBatchShape R) = Ret b /\
    output_shape b = Some batch /\
    reconcile li ri (mkConstraint (DimEqualConstraint (in_dim 0 (length L - 1)) (in_dim 1 inner))
      "MatMul inner dimensions must be equal") "MatMul inner dimensions must be equal" = Ret eq /\
    res = mkInference [mkSpec (dtype x) (Some (batch ++ [lo; ro]))]
      (eq ++ map (broadcast_check "MatMul batch dimensions must be broadcastable") (deferred_axes b)).
Proof.
  unfold InferMatMul. intros H. infer_inv. do 13 eexists. split_and!; try eassumption; reflexivity.
Qed.

(** A permutation list without repetition and in range is a bijection of the axes. *)
Lemma adjacent_equal_sorted l :
  StronglySorted le l -> adjacent_equal l = false -> NoDup l.
Proof.
  induction l as [|a l IH]; intros Hs Ha; [constructor|].
  apply StronglySorted_inv in Hs as [Hs Hall]. destruct l as [|b l].
  { constructor; [by apply not_elem_of_nil|constructor]. }
  simpl in Ha. apply orb_false_iff in Ha as [Hab Ha]. bsplit.
  constructor; [|by apply IH]. intros Hin. rewrite Forall_forall in Hall.
  apply StronglySorted_inv in Hs as [_ Hb]. rewrite Forall_forall in Hb.
  pose proof (Hall b ltac:(by left)). apply elem_of_cons in Hin as [->|Hin]; [done|].
  specialize (Hb a Hin). lia.
Qed.

Lemma permute_bijection perm n :
  adjacent_equal (merge_sort le perm) = false -> length perm = n ->
  Forall (fun a => (a < n)%nat) perm -> perm ≡ₚ seq 0 n.
Proof.
  intros Ha Hlen Hr.
  assert (NoDup perm) as Hnd.
  { rewrite <- (merge_sort_Permutation le perm). apply adjacent_equal_sorted; [|done].
    apply (StronglySorted_merge_sort le). }
  apply submseteq_length_Permutation; [|by rewrite length_seq, Hlen].
  apply NoDup_submseteq; [done|]. intros x Hx. apply elem_of_seq.
  rewrite Forall_forall in Hr. specialize (Hr x Hx). lia.
Qed.

Lemma infer_checks_located rho o p ins r rin rout :
  InferOperator o p ins = Ret r ->
  Forall2 (shape_denotes rho) (shape <$> ins) rin ->
  Forall2 (shape_denotes rho) (shape <$> outputs r) rout ->
  Forall (fun c => located rin rout (condition c)) (runtime_checks r).
Proof.
  intros H Hin Hout. change (checks_located rin rout (runtime_checks r)).
  destruct o; try (rewrite (no_checks _ _ _ _ H) by set_solver; constructor);
    unfold InferOperator in H; try discriminate H;
    eauto using InferEmbedding_located, InferRmsNorm_located, InferLinear_located,
      InferMatMul_located, InferRoPE_located, InferAttention_located, InferSiluMul_located,
      InferElementwiseMul_located, InferAdd_located, InferReshape_located.
Qed.

(** The inference functions discharge the interface the graph layer is built on. *)
#[global] Instance operator_semantics : OperatorSemantics := {|
  InferOp := InferOperator; InferOp_arity := infer_arity; InferOp_located := infer_checks_located |}.

(** ** Properties *)

(** C40: Inference respects the operator schema: whenever it succeeds, the operator
    is registered, the inputs are as many as the schema's input ports and the
    inferred outputs as many as its output ports. *)
Theorem InferOperator_arity o p ins r :
  InferOperator o p ins = Ret r ->
  exists s, GetOperatorSchema o = Ret s /\ length ins = length (input_ports s) /\
    length (outputs r) = length (output_ports s).
Proof. apply infer_arity. Qed.

Lemma InferOperator_arity_witness :
  exists s, GetOperatorSchema OpType.kSilu = Ret s /\ 1%nat = length (input_ports s) /\
    1%nat = length (output_ports s).
Proof.
  apply (InferOperator_arity OpType.kSilu SiluParams [mkSpec DataType.Float32 None]
    (mkInference [mkSpec DataType.Float32 None] [])).
  reflexivity.
Defined.

(** The run-time checks an operator emits refer to tensors and dimensions that
    exist: for all run-time shapes described by the input and inferred output
    specs, every locator of every check resolves, so evaluating them can never
    hit a missing-tensor or missing-dimension abort. *)
Theorem InferOperator_checks_located rho o p ins r rin rout :
  InferOperator o p ins = Ret r ->
  Forall2 (shape_denotes rho) (shape <$> ins) rin ->
  Forall2 (shape_denotes rho) (shape <$> outputs r) rout ->
  Forall (fun c => located rin rout (condition c)) (runtime_checks r).
Proof. apply infer_checks_located. Qed.

Lemma InferOperator_checks_located_witness :
  Forall (fun c => located [[2; 3]; [4; 3]] [[2; 4]] (condition c))
    [mkConstraint (DimEqualConstraint (in_dim 0 1) (in_dim 1 1))
       "Linear input last dimension must match weight input dimension"].
Proof.
  apply (InferOperator_checks_located (fun _ => 3) OpType.kLinear LinearParams
    [mkSpec DataType.Float32 (Some [mkSym 2; mkSym (-2)]);
     mkSpec DataType.Float32 (Some [mkSym 4; mkSym 3])]
    (mkInference [mkSpec DataType.Float32 (Some [mkSym 2; mkSym 4])]
       [mkConstraint (DimEqualConstraint (in_dim 0 1) (in_dim 1 1))
          "Linear input last dimension must match weight input dimension"])).
  - reflexivity.
  - repeat constructor; vm_compute; discriminate.
  - repeat constructor; vm_compute; discriminate.
Defined.

(** The shape inferred for a matrix product is right: when the run-time
    operands are described by the input specs and the emitted checks hold of
    them, the product is defined (inner dimensions agree, batch dimensions
    broadcast) and its shape is described by the inferred output. *)
Theorem InferMatMul_shape rho tr x y l r res a b :
  InferMatMul (MatMulParams tr) [x; y] = Ret res ->
  shape x = Some l -> shape y = Some r ->
  Forall2 (dim_denotes rho) l a -> Forall2 (dim_denotes rho) r b ->
  Forall (fun c => holds [a; b] [] (condition c)) (runtime_checks res) ->
  exists o spec, matmul_shape tr a b o /\ outputs res = [spec] /\ shape_denotes rho (shape spec) o.
Proof.
  intros H Hl Hr Ha Hb Hc.
  apply InferMatMul_inv in H as (x' & y' & L & R & inner & outer & li & ri & lo & ro & bc & batch' & eq &
    [= <-] & [= <-] & HL & HR & Hax & Hli & Hri & Hlo & Hro & Hbr & Hout & Hrec & ->).
  rewrite Hl in HL. rewrite Hr in HR. injection HL as <-. injection HR as <-.
  apply Forall_app in Hc as [Heq Hbc].
  pose proof (Forall2_length _ _ _ Ha) as HlA. pose proof (Forall2_length _ _ _ Hb) as HlB.
  pose proof (Forall2_take _ _ _ (length l - 2) Ha) as Hta.
  pose proof (Forall2_take _ _ _ (length r - 2) Hb) as Htb.
  pose proof (holds_broadcast_checks a b _ _ (length l - 2) (length r - 2) Hbc) as Hok.
  destruct (rows_total rho _ _ _ _ Hta Htb bc Hbr Hok) as [batch Hbatch].
  pose proof (rows_denote rho _ _ _ _ Hta Htb bc batch Hbr Hbatch) as Hden. rewrite Hout in Hden.
  destruct (Forall2_lookup_l _ _ _ _ _ Ha Hli) as (k & Hk & Dk).
  destruct (Forall2_lookup_l _ _ _ _ _ Hb Hri) as (k' & Hk' & Dk').
  destruct (Forall2_lookup_l _ _ _ _ _ Ha Hlo) as (m & Hm & Dm).
  destruct (Forall2_lookup_l _ _ _ _ _ Hb Hro) as (n & Hn & Dn).
  assert (k = k') as <-.
  { eapply reconcile_equal; [exact Hrec|done|done|]. intros ->.
    apply Forall_inv in Heq. apply Heq; eexists; (split; [reflexivity|done]). }
  eexists (batch ++ [m; n]), _. split; [|split; [reflexivity|]].
  - unfold matmul_shape. rewrite <- HlB, Hax, <- HlA. by exists k, m, n, batch.
  - simpl. apply Forall2_app; [exact Hden|]. constructor; [exact Dm|]. constructor; [exact Dn|constructor].
Qed.

Lemma InferMatMul_shape_witness :
  exists o spec, matmul_shape false [2; 3] [3; 5] o /\
    [mkSpec DataType.Float32 (Some [mkSym 2; mkSym 5])] = [spec] /\
    shape_denotes (fun _ => 3) (shape spec) o.
Proof.
  eapply (InferMatMul_shape (fun _ => 3) false
    (mkSpec DataType.Float32 (Some [mkSym 2; mkSym 3]))
    (mkSpec DataType.Float32 (Some [mkSym 3; mkSym 5])) [mkSym 2; mkSym 3] [mkSym 3; mkSym 5]
    (mkInference [mkSpec DataType.Float32 (Some [mkSym 2; mkSym 5])] [])).
  - reflexivity.
  - reflexivity.
  - reflexivity.
  - repeat constructor; vm_compute; discriminate.
  - repeat constructor; vm_compute; discriminate.
  - constructor.
Defined.

(** A reshape preserves the volume: whatever run-time shapes the input spec
    and the inferred output spec stand for, if the emitted checks hold of them
    then the two volumes are equal, as long as no input and output dimension at
    the same position are both [Unknown]. *)
Theorem InferReshape_preserves_volume rho target s dims res out a o :
  InferReshape (ReshapeParams target) [s] = Ret res ->
  shape s = Some dims -> outputs res = [mkSpec (dtype s) (Some out)] ->
  unknown_free [Some dims] [Some out] (MakeVolumeEqualConstraint (length dims) (length out)) ->
  Forall2 (dim_denotes rho) dims a -> Forall2 (dim_denotes rho) out o ->
  view_dims [a] [o] -> Forall (fun c => holds [a] [o] (condition c)) (runtime_checks res) ->
  product a = product o.
Proof.
  intros H Hs Ho Hu Ha Hb Hv Hc.
  destruct (InferReshape_inv _ _ _ H) as (? & s' & dims' & out' & _ & [= <-] & Hs' & HF).
  rewrite Hs in Hs'. injection Hs' as <-.
  apply reshape_finish_ret in HF as [Eo HF]. rewrite Ho in Eo. injection Eo as <-.
  destruct (volume_constraint_dims rho dims out a o Ha Hb) as [H1 H2].
  assert (Hholds : holds [a] [o] (MakeVolumeEqualConstraint (length dims) (length out))).
  { destruct HF as [[He _]|He].
    - refine (proj2 (symbolic_verdict rho [Some dims] [Some out] [a] [o] _ _ Hv
        (mkConstraint (MakeVolumeEqualConstraint (length dims) (length out)) _) _ Hu He));
        (constructor; [done|constructor]).
    - rewrite He in Hc. by apply Forall_inv in Hc. }
  by apply Hholds.
Qed.

Lemma InferReshape_preserves_volume_witness : product [4; 6] = product [2; 12].
Proof.
  apply (InferReshape_preserves_volume (fun _ => 0) [ReshapeLiteralDim 2; ReshapeInferDim]
    (mkSpec DataType.Float32 (Some [mkSym 4; mkSym 6])) [mkSym 4; mkSym 6]
    (mkInference [mkSpec DataType.Float32 (Some [mkSym 2; mkSym 12])] [])
    [mkSym 2; mkSym 12]); try reflexivity.
  - repeat constructor; intros (_ & E & _); discriminate E.
  - repeat constructor; vm_compute; discriminate.
  - repeat constructor; vm_compute; discriminate.
  - split; repeat constructor; vm_compute; discriminate.
  - constructor.
Defined.

(** Without that restriction the volume can change unchecked: reshaping a
    rank-2 tensor of two unconstrained dimensions to its second dimension
    twice is accepted with no run-time check, although the input [2, 3] is
    described by the spec and would become [3, 3]. *)
Theorem InferReshape_unknown_unchecked dt rho :
  InferReshape (ReshapeParams [ReshapeInputDim 1; ReshapeInputDim 1])
    [mkSpec dt (Some [Unknown; Unknown])] =
    Ret (mkInference [mkSpec dt (Some [Unknown; Unknown])] []) /\
  shape_denotes rho (Some [Unknown; Unknown]) [2; 3] /\
  shape_denotes rho (Some [Unknown; Unknown]) [3; 3] /\ product [2; 3] <> product [3; 3].
Proof.
  split; [reflexivity|]. split; [repeat constructor; done|].
  split; [repeat constructor; done|discriminate].
Qed.

(** An accepted permutation is a bijection of the axes: output axis [j] is
    input axis [permutation[j]], the output dimensions are a rearrangement of
    the input's, and every concrete volume is preserved. *)
Theorem InferPermute_bijection perm s dims res :
  InferPermute (PermuteParams perm) [s] = Ret res -> shape s = Some dims ->
  exists out, outputs res = [mkSpec (dtype s) (Some out)] /\ perm ≡ₚ seq 0 (length dims) /\
    (forall j axis, perm !! j = Some axis -> out !! j = dims !! axis) /\ out ≡ₚ dims.
Proof.
  intros H Hs. unfold InferPermute in H. infer_inv.
  rename select ([s] !! _ = _) into E0. injection E0 as <-.
  match goal with E : shape s = Some ?d |- _ =>
    tryif constr_eq d dims then fail else (rewrite Hs in E; injection E as <-) end. bsplit.
  rename select (res_iter _ _ = _) into Hr. rename select (res_mapi _ _ _ = _) into Ho.
  assert (Hrange : Forall (fun a => (a < length dims)%nat) perm).
  { apply res_iter_ret in Hr. eapply Forall_impl; [exact Hr|]. intros z Hx. simpl in Hx.
    unfold reject in Hx. res_inv. bsplit. lia. }
  pose proof (permute_bijection perm (length dims) ltac:(done) ltac:(done) Hrange) as Hp.
  match type of Ho with _ = Ret ?o => rename o into outd end.
  apply res_mapi_ret in Ho as [Hlen Ho].
  assert (Hout : outd = (fun i => default Unknown (dims !! i)) <$> perm).
  { apply list_eq. intros j. rewrite list_lookup_fmap. destruct (perm !! j) as [axis|] eqn:Ej; simpl.
    - destruct (Ho j axis Ej) as (y & Hy & Hd). apply span_at_ret in Hd. by rewrite Hd, Hy.
    - apply lookup_ge_None_2. rewrite Hlen. by apply lookup_ge_None_1. }
  eexists. split; [reflexivity|]. split; [done|]. split.
  - intros j axis Ej. destruct (Ho j axis Ej) as (y & Hy & Hd). apply span_at_ret in Hd. by rewrite Hy, Hd.
  - rewrite Hout, Hp. clear. induction dims as [|d dims IH] using rev_ind; [done|].
    rewrite length_app, seq_app, fmap_app. simpl. f_equiv.
    + rewrite <- IH at 2. apply Permutation_refl'. apply list_fmap_ext. intros i x Hx.
      apply lookup_seq in Hx as [-> Hx]. by rewrite lookup_app_l by lia.
    + rewrite lookup_app_r, Nat.sub_diag by lia. done.
Qed.

Lemma InferPermute_bijection_witness :
  exists out, [mkSpec DataType.Float32 (Some [mkSym 3; mkSym 2])] = [mkSpec DataType.Float32 (Some out)] /\
    [1%nat; 0%nat] ≡ₚ seq 0 2 /\
    (forall j axis, [1%nat; 0%nat] !! j = Some axis -> out !! j = [mkSym 2; mkSym 3] !! axis) /\
    out ≡ₚ [mkSym 2; mkSym 3].
Proof.
  apply (InferPermute_bijection [1%nat; 0%nat] (mkSpec DataType.Float32 (Some [mkSym 2; mkSym 3]))
    [mkSym 2; mkSym 3] (mkInference [mkSpec DataType.Float32 (Some [mkSym 3; mkSym 2])] []));
    reflexivity.
Defined.

(** The cache-width product of [ValidateKVCacheUpdateShapes] is computed without an
    overflow check, so large static head counts reach undefined behaviour. *)
Example kvcache_product_overflows :
  let big := mkSym (2 ^ 40) in
  let cache := mkSpec DataType.Float32 (Some [big; mkSym 8; big]) in
  let kv := mkSpec DataType.Float32 (Some [mkSym 1; mkSym 64]) in
  InferKVCacheUpdate KVCacheUpdateParams [kv; kv; cache; cache] = Panic "signed integer overflow".
Proof. reflexivity. Qed.
