(* ===== verification/Graph.v ===== *)
(** * Graph: the model graph IR, its construction and validation

    [include/aethermind/graph/graph_types.h], [graph.h] and
    [src/graph/graph.cpp]: the value and node tables, the [Add*] builders, the
    whole-graph validator, the consumer index. The topological sort is in
    [Topology]. Ids are positions ([nat]); the [uint32_t] id-space checks are
    kept. Operator inference is reached through [OperatorSemantics]. *)
From S2P Require Import Prelude DataTypes ShapeSymbol ShapeConstraint OperatorSchema.

(** ** Data *)

Module ParameterSlot.
(* @src include/aethermind/graph/graph_types.h:28-34 ParameterSlot *)
Inductive t := kKernel | kBias | kScale | kShift | kEmbeddingTable.
#[global] Instance eq_dec : EqDecision t.
Proof. solve_decision. Defined.
End ParameterSlot.

Module TransformerWeightRole.
(* @src include/aethermind/graph/graph_types.h:37-51 TransformerWeightRole *)
Inductive t :=
| kTokenEmbedding | kInputNorm | kAttentionQ | kAttentionK | kAttentionV | kAttentionO
| kMlpGate | kMlpUp | kMlpDown | kPostAttentionNorm | kFinalNorm | kLmHead | kMoERouter.
#[global] Instance eq_dec : EqDecision t.
Proof. solve_decision. Defined.
End TransformerWeightRole.

(** [semantic_role] is [None] for the [monostate] of [ModelSemanticRole]. *)
(* @src include/aethermind/graph/graph_types.h:53-64 WeightBinding *)
Record WeightBinding := mkWeightBinding {
  wb_slot : ParameterSlot.t; wb_layer : option nat; semantic_role : option TransformerWeightRole.t }.
#[global] Instance WeightBinding_eq_dec : EqDecision WeightBinding.
Proof. solve_decision. Defined.

(* @src include/aethermind/graph/graph_types.h:75-95 SlotForTransformerRole *)
Definition SlotForTransformerRole (role : TransformerWeightRole.t) : ParameterSlot.t :=
  match role with
  | TransformerWeightRole.kTokenEmbedding => ParameterSlot.kEmbeddingTable
  | TransformerWeightRole.kInputNorm | TransformerWeightRole.kPostAttentionNorm
  | TransformerWeightRole.kFinalNorm => ParameterSlot.kScale
  | _ => ParameterSlot.kKernel
  end.

(** The payload bytes when inlined; the shared pointer only avoids copies. *)
(* @src include/aethermind/graph/graph_types.h:107-118 ConstantBinding *)
Record ConstantBinding := mkConstantBinding { inline_data : option (list Z); const_name : string }.
#[global] Instance ConstantBinding_eq_dec : EqDecision ConstantBinding.
Proof. solve_decision. Defined.

(* @src include/aethermind/graph/graph_types.h:123-127 QuantizationKind *)
Inductive QuantizationKind := kQuantNone | kInt8 | kInt4.
#[global] Instance QuantizationKind_eq_dec : EqDecision QuantizationKind.
Proof. solve_decision. Defined.

(* @src include/aethermind/graph/graph_types.h:130-138 QuantizationSpec *)
Record QuantizationSpec := mkQuant {
  quant_kind : QuantizationKind; group_size : Z; scale_dtype : DataType.t; has_zero_point : bool }.
#[global] Instance QuantizationSpec_eq_dec : EqDecision QuantizationSpec.
Proof. solve_decision. Defined.
Definition default_quant : QuantizationSpec := mkQuant kQuantNone 0 DataType.default_type false.

(* @src include/aethermind/graph/graph_types.h:140-143 KVCacheSlot *)
Inductive KVCacheSlot := kKey | kValue.
#[global] Instance KVCacheSlot_eq_dec : EqDecision KVCacheSlot.
Proof. solve_decision. Defined.

(* @src include/aethermind/graph/graph_types.h:145-166 StateBinding *)
Inductive StateBinding :=
| KVCacheStateBinding (decoder_layer_index : nat) (slot : KVCacheSlot)
| DecodeStateBinding | StreamingStateBinding.
#[global] Instance StateBinding_eq_dec : EqDecision StateBinding.
Proof. solve_decision. Defined.

(* @src include/aethermind/graph/graph_types.h:185-215 GraphValuePayload *)
Inductive GraphValuePayload :=
| PayloadNone | ModelInputValue | ActivationValue | WeightValue (binding : WeightBinding)
| ConstantValue (binding : ConstantBinding) | StateValue (binding : StateBinding).
#[global] Instance GraphValuePayload_eq_dec : EqDecision GraphValuePayload.
Proof. solve_decision. Defined.

(* @src include/aethermind/graph/graph_types.h:221-227 GraphValue *)
Record GraphValue := mkValue {
  payload : GraphValuePayload; spec : TensorSpec; producer : option nat;
  quantization : QuantizationSpec; value_name : string }.

(** [attrs] are the bytes of [ModelGraphAttrs]. *)
(* @src include/aethermind/graph/graph_types.h:234-246 GraphNode *)
Record GraphNode := mkNode {
  op_type : OpType.t; node_layer : option nat; node_inputs : list nat; node_outputs : list nat;
  attrs : list Z; op_params : OpParams; node_checks : list ShapeConstraint; node_name : string }.

(* @src include/aethermind/graph/graph_types.h:257-261 NodeOutputDesc *)
Record NodeOutputDesc := mkOutputDesc {
  desc_payload : GraphValuePayload; desc_quantization : QuantizationSpec; desc_name : string }.

(* @src include/aethermind/graph/graph_types.h:278-281 AddedNode *)
Record AddedNode := mkAdded { added_node : nat; added_outputs : list nat }.

(* @src include/aethermind/graph/graph.h:216-221 ModelGraph (state) *)
Record ModelGraph := mkGraph {
  nodes_ : list GraphNode; values_ : list GraphValue; inputs_ : list nat; outputs_ : list nat }.

Definition empty_graph : ModelGraph := mkGraph [] [] [] [].

(** ** Predicates and binding rules *)

(* @src src/graph/graph.cpp:10-12 IsValidNodeId *)
Definition IsValidNodeId (id : nat) (nodes : list GraphNode) : bool := (id <? length nodes)%nat.
(* @src src/graph/graph.cpp:14-16 IsValidValueId *)
Definition IsValidValueId (id : nat) (values : list GraphValue) : bool := (id <? length values)%nat.

(* @src src/graph/graph.cpp:18-21 NextNodeIndex *)
Definition NextNodeIndex (nodes : list GraphNode) : Res nat :=
  _ ← am_check (zlen nodes <? UINT32_MAX) "Graph node id space exhausted"; Ret (length nodes).
(* @src src/graph/graph.cpp:23-26 NextValueIndex *)
Definition NextValueIndex (values : list GraphValue) : Res nat :=
  _ ← am_check (zlen values <? UINT32_MAX) "Graph value id space exhausted"; Ret (length values).

(* @src src/graph/graph.cpp:28-43 PayloadMatchesPort *)
Definition PayloadMatchesPort (p : GraphValuePayload) (kind : OperatorPortKind.t) : bool :=
  match kind, p with
  | OperatorPortKind.kModelInput, ModelInputValue => true
  | OperatorPortKind.kActivation, ActivationValue => true
  | OperatorPortKind.kActivation, ConstantValue _ => true
  | OperatorPortKind.kWeight, WeightValue _ => true
  | OperatorPortKind.kConstant, ConstantValue _ => true
  | OperatorPortKind.kState, StateValue _ => true
  | _, _ => false
  end.

(** Every [KVCacheSlot] enumerator is known, so the check always passes. *)
(* @src src/graph/graph.cpp:49-59 ValidateStateBindingSelfConsistency *)
Definition ValidateStateBindingSelfConsistency (b : StateBinding) : Res unit :=
  match b with
  | KVCacheStateBinding _ kKey | KVCacheStateBinding _ kValue => Ret tt
  | _ => Ret tt
  end.

(* @src src/graph/graph.cpp:61-63 SameStateFamily *)
Definition SameStateFamily (l r : StateBinding) : bool := bool_decide (l = r).

(* @src src/graph/graph.cpp:65-72 SameStateCollection *)
Definition SameStateCollection (l r : StateBinding) : bool :=
  match l, r with
  | KVCacheStateBinding a _, KVCacheStateBinding b _ => (a =? b)%nat
  | _, _ => false
  end.

Definition bad (msg : string) : Status := InvalidArgument msg.

(* @src src/graph/graph.cpp:74-80 RequireStateCollection *)
Definition RequireStateCollection (l r : StateBinding) (msg : string) : Res unit :=
  reject_if (negb (SameStateCollection l r)) (bad msg).

(* @src src/graph/graph.cpp:82-94 RequireStateLayerMatchesNode *)
Definition RequireStateLayerMatchesNode (b : StateBinding) (layer : option nat) (msg : string)
    : Res unit :=
  match b, layer with
  | KVCacheStateBinding i _, Some j => reject_if (negb (i =? j)%nat) (bad msg)
  | _, _ => Fail (bad msg)
  end.

(* @src src/graph/graph.cpp:96-102 RequireStateSlot *)
Definition RequireStateSlot (b : StateBinding) (expected : KVCacheSlot) (msg : string) : Res unit :=
  match b with
  | KVCacheStateBinding _ s => reject_if (bool_decide (s <> expected)) (bad msg)
  | _ => Fail (bad msg)
  end.

(* @src src/graph/graph.cpp:106-117 ExpectedWeightSlotForOp *)
Definition ExpectedWeightSlotForOp (o : OpType.t) : option ParameterSlot.t :=
  match o with
  | OpType.kEmbedding => Some ParameterSlot.kEmbeddingTable
  | OpType.kRmsNorm => Some ParameterSlot.kScale
  | OpType.kLinear => Some ParameterSlot.kKernel
  | _ => None
  end.

(* @src src/graph/graph.cpp:121-140 TransformerRoleRequiresLayer *)
Definition TransformerRoleRequiresLayer (role : TransformerWeightRole.t) : bool :=
  match role with
  | TransformerWeightRole.kTokenEmbedding | TransformerWeightRole.kFinalNorm
  | TransformerWeightRole.kLmHead => false
  | _ => true
  end.

(* @src src/graph/graph.cpp:145-167 ValidateWeightBindingSelfConsistency *)
Definition ValidateWeightBindingSelfConsistency (b : WeightBinding) : Res unit :=
  match semantic_role b with
  | None => Ret tt
  | Some role =>
      _ ← reject_if (bool_decide (wb_slot b <> SlotForTransformerRole role))
            (bad "WeightBinding slot does not match the semantic_role");
      let requires_layer := TransformerRoleRequiresLayer role in
      _ ← reject_if (requires_layer && bool_decide (wb_layer b = None))
            (bad "WeightBinding semantic_role requires decoder_layer_index");
      reject_if (negb requires_layer && bool_decide (wb_layer b <> None))
        (bad "WeightBinding semantic_role must not carry decoder_layer_index")
  end.

(** [std::get<T>]: [bad_variant_access] on another alternative. *)
Definition get_state (v : GraphValue) : Res StateBinding :=
  match payload v with StateValue b => Ret b | _ => Panic "bad_variant_access" end.

Definition get_weight (v : GraphValue) : Res WeightBinding :=
  match payload v with WeightValue b => Ret b | _ => Panic "bad_variant_access" end.

(** The state binding of the value at input port [port]. *)
Definition state_input (values : list GraphValue) (ins : list nat) (port : nat) : Res StateBinding :=
  id ← vec_at ins port; v ← vec_at values id; get_state v.

(** Slot and family of an output state binding, when the port has one. *)
(* @src src/graph/graph.cpp:205-214 ValidateStateBindingsForNode (K output) *)
Definition check_state_output (bindings : list (option StateBinding)) (port : nat)
    (input : StateBinding) (slot : KVCacheSlot) (slot_msg family_msg : string) : Res unit :=
  match bindings !! port with
  | Some (Some out) =>
      _ ← RequireStateSlot out slot slot_msg;
      reject_if (negb (SameStateFamily input out)) (bad family_msg)
  | _ => Ret tt
  end.

(* @src src/graph/graph.cpp:175-266 ValidateStateBindingsForNode *)
Definition ValidateStateBindingsForNode (o : OpType.t) (layer : option nat) (schema : OperatorSchema)
    (values : list GraphValue) (ins : list nat) (output_bindings : list (option StateBinding))
    : Res unit :=
  match o with
  | OpType.kKVCacheUpdate =>
      k_in_idx ← FindInputPortIndex schema kCacheIn;
      v_in_idx ← FindInputPortIndex schema vCacheIn;
      k_out_idx ← FindOutputPortIndex schema kCacheOut;
      v_out_idx ← FindOutputPortIndex schema vCacheOut;
      k_in ← state_input values ins k_in_idx;
      _ ← RequireStateSlot k_in kKey "KVCacheUpdate K state input must use slot k";
      _ ← RequireStateLayerMatchesNode k_in layer
            "KVCacheUpdate K state layer must match the node layer";
      _ ← check_state_output output_bindings k_out_idx k_in kKey
            "KVCacheUpdate K state output must use slot k"
            "KVCacheUpdate K state input and output must share a state family";
      v_in ← state_input values ins v_in_idx;
      _ ← RequireStateSlot v_in kValue "KVCacheUpdate V state input must use slot v";
      _ ← RequireStateLayerMatchesNode v_in layer
            "KVCacheUpdate V state layer must match the node layer";
      _ ← RequireStateCollection k_in v_in
            "KVCacheUpdate K and V state inputs must share a state collection";
      check_state_output output_bindings v_out_idx v_in kValue
        "KVCacheUpdate V state output must use slot v"
        "KVCacheUpdate V state input and output must share a state family"
  | OpType.kAttention =>
      k_idx ← FindInputPortIndex schema kCache;
      v_idx ← FindInputPortIndex schema vCache;
      k ← state_input values ins k_idx;
      v ← state_input values ins v_idx;
      _ ← RequireStateSlot k kKey "Attention K cache input must use slot k";
      _ ← RequireStateSlot v kValue "Attention V cache input must use slot v";
      _ ← RequireStateLayerMatchesNode k layer "Attention K cache layer must match the node layer";
      _ ← RequireStateLayerMatchesNode v layer "Attention V cache layer must match the node layer";
      RequireStateCollection k v "Attention K and V cache inputs must share a state collection"
  | _ => Ret tt
  end.

(* @src src/graph/graph.cpp:268-271 CarriesProducerDependency *)
Definition CarriesProducerDependency (v : GraphValue) : bool :=
  match payload v with
  | ActivationValue => true
  | StateValue _ => bool_decide (producer v <> None)
  | _ => false
  end.

(* @src src/graph/graph.cpp:273-275 NodeListsOutput *)
Definition NodeListsOutput (n : GraphNode) (v : nat) : bool := bool_decide (v ∈ node_outputs n).

(* @src src/graph/graph.cpp:279-281 ShapeConstraintsEquivalent *)
Definition ShapeConstraintsEquivalent (l r : ShapeConstraint) : bool :=
  bool_decide (condition l = condition r) && bool_decide (error_context l = error_context r).

(** Decimal rendering of a position, [std::to_string]. *)
Definition num (n : nat) : string := pretty (N.of_nat n).

(* @src src/graph/graph.cpp:283-287 FormatNodeContext *)
Definition FormatNodeContext (idx : nat) (o : OpType.t) (name detail : string) : string :=
  "node " +:+ num idx +:+ " (" +:+ OpType.ToString o +:+
  (if bool_decide (name = "") then "" else " " +:+ name) +:+ "): " +:+ detail.

(** A producer that exists and lists the value among its outputs. *)
Definition producer_lists (nodes : list GraphNode) (p v : nat) (no_producer not_listed : string)
    : Res unit :=
  match nodes !! p with
  | None => Fail (bad no_producer)
  | Some n => reject_if (negb (NodeListsOutput n v)) (bad not_listed)
  end.

(* @src src/graph/graph.cpp:292-349 ValidateValueSelfConsistency *)
Definition ValidateValueSelfConsistency (v : GraphValue) (value_index : nat) (nodes : list GraphNode)
    : Res unit :=
  match payload v with
  | PayloadNone => Fail (bad "Graph value has monostate payload")
  | ActivationValue =>
      match producer v with
      | None => Fail (bad "Activation value has no valid producer")
      | Some p => producer_lists nodes p value_index "Activation value has no valid producer"
                    "Activation producer does not list produced value"
      end
  | StateValue b =>
      _ ← ValidateStateBindingSelfConsistency b;
      match producer v with
      | None => Ret tt
      | Some p => producer_lists nodes p value_index "State value has an invalid producer"
                    "State producer does not list produced value"
      end
  | ConstantValue _ =>
      reject_if (bool_decide (producer v <> None)) (bad "Constant value must not have a producer")
  | WeightValue b =>
      _ ← reject_if (bool_decide (producer v <> None)) (bad "Weight value must not have a producer");
      ValidateWeightBindingSelfConsistency b
  | ModelInputValue =>
      reject_if (bool_decide (producer v <> None))
        (bad "External graph value must not have a producer")
  end.

(** ** Building *)

(** [Status::InvalidArgument(prefix + status.message())] when [m] failed. *)
Definition rewrap {A} (f : string -> string) (m : Res A) : Res A :=
  match m with
  | Fail e => Fail (InvalidArgument (f (message e)))
  | _ => m
  end.

(* @src src/graph/graph.cpp:374-387 ValidateAddNodePorts (inputs) *)
Definition check_input_port (values : list GraphValue) (i : nat) (x : OperatorInputPort * nat)
    : Res unit :=
  let '(port, id) := x in
  match values !! id with
  | None => Fail (bad ("input[" +:+ num i +:+ "] " +:+ in_name port +:+ " invalid value id"))
  | Some v =>
      reject_if (negb (PayloadMatchesPort (payload v) (in_kind port)))
        (bad ("input[" +:+ num i +:+ "] " +:+ in_name port +:+ " payload kind mismatch"))
  end.

(* @src src/graph/graph.cpp:390-393 ValidateAddNodePorts (normalized) *)
Definition normalize_payload (p : GraphValuePayload) : GraphValuePayload :=
  match p with PayloadNone => ActivationValue | _ => p end.

(* @src src/graph/graph.cpp:389-399 ValidateAddNodePorts (outputs) *)
Definition check_output_port (i : nat) (x : OperatorOutputPort * NodeOutputDesc) : Res unit :=
  reject_if (negb (PayloadMatchesPort (normalize_payload (desc_payload x.2)) (out_kind x.1)))
    (bad ("output[" +:+ num i +:+ "] " +:+ out_name x.1 +:+ " payload kind mismatch")).

(** A loop that runs a check on each element with its index. *)
Definition for_each {A} (f : nat -> A -> Res unit) (l : list A) : Res unit :=
  res_iter (fun p => f p.1 p.2) (zip (seq 0 (length l)) l).

(* @src src/graph/graph.cpp:358-401 ValidateAddNodePorts *)
Definition ValidateAddNodePorts (schema : OperatorSchema) (values : list GraphValue)
    (ins : list nat) (outs : list NodeOutputDesc) : Res unit :=
  _ ← reject_if (negb (length ins =? length (input_ports schema))%nat)
        (bad ("input count " +:+ num (length ins) +:+ " != schema " +:+
              num (length (input_ports schema))));
  _ ← reject_if (negb (length outs =? length (output_ports schema))%nat)
        (bad ("output count " +:+ num (length outs) +:+ " != schema " +:+
              num (length (output_ports schema))));
  _ ← for_each (check_input_port values) (zip (input_ports schema) ins);
  for_each check_output_port (zip (output_ports schema) outs).

(* @src src/graph/graph.cpp:418-443 ValidateAddNodeBindings (inputs) *)
Definition check_input_binding (expected : option ParameterSlot.t) (values : list GraphValue)
    (i : nat) (x : OperatorInputPort * nat) : Res unit :=
  let '(port, id) := x in
  let prefix := "input[" +:+ num i +:+ "] " +:+ in_name port in
  match in_kind port with
  | OperatorPortKind.kWeight =>
      v ← vec_at values id; b ← get_weight v;
      _ ← rewrap (fun m => prefix +:+ " weight: " +:+ m) (ValidateWeightBindingSelfConsistency b);
      match expected with
      | Some s => reject_if (bool_decide (wb_slot b <> s)) (bad (prefix +:+ " weight slot mismatch"))
      | None => Ret tt
      end
  | OperatorPortKind.kState =>
      v ← vec_at values id; b ← get_state v;
      rewrap (fun m => prefix +:+ " state: " +:+ m) (ValidateStateBindingSelfConsistency b)
  | _ => Ret tt
  end.

Definition state_binding_of (p : GraphValuePayload) : option StateBinding :=
  match p with StateValue b => Some b | _ => None end.

(* @src src/graph/graph.cpp:411-460 ValidateAddNodeBindings *)
Definition ValidateAddNodeBindings (o : OpType.t) (layer : option nat) (schema : OperatorSchema)
    (values : list GraphValue) (ins : list nat) (outs : list NodeOutputDesc) : Res unit :=
  _ ← for_each (check_input_binding (ExpectedWeightSlotForOp o) values) (zip (input_ports schema) ins);
  ValidateStateBindingsForNode o layer schema values ins
    (map (fun d => state_binding_of (desc_payload d)) outs).

Section Semantics.
Context {OS : OperatorSemantics}.

(** The stored specs of the input values. *)
Definition input_specs (values : list GraphValue) (ins : list nat) : Res (list TensorSpec) :=
  res_mapi (fun _ id => v ← vec_at values id; Ret (spec v)) 0 ins.

(* @src src/graph/graph.cpp:469-493 InferAddNodeOutputs *)
Definition InferAddNodeOutputs (o : OpType.t) (p : OpParams) (schema : OperatorSchema)
    (values : list GraphValue) (ins : list nat) : Res InferenceResult :=
  specs ← input_specs values ins;
  inference ← rewrap (fun m => "InferOperator: " +:+ m) (InferOp o p specs);
  _ ← reject_if (negb (length (outputs inference) =? length (output_ports schema))%nat)
        (bad ("InferOperator inferred " +:+ num (length (outputs inference)) +:+
              " outputs, schema expects " +:+ num (length (output_ports schema))));
  Ret inference.

(** The staged value of one output. *)
(* @src src/graph/graph.cpp:525-536 StageAddNodeOutputs (values) *)
Definition stage_value (node_id : nat) (d : NodeOutputDesc) (s : TensorSpec) : GraphValue :=
  mkValue (normalize_payload (desc_payload d)) s (Some node_id) (desc_quantization d) (desc_name d).

(** Ids are consecutive from [base]; [inferred_outputs[i]] is in range because the
    counts were compared before. *)
(* @src src/graph/graph.cpp:510-538 StageAddNodeOutputs *)
Definition StageAddNodeOutputs (node_id base : nat) (outs : list NodeOutputDesc)
    (inferred : list TensorSpec) : Res (list nat * list GraphValue) :=
  ids ← res_mapi (fun i _ =>
          _ ← am_check (Z.of_nat (base + i) <? UINT32_MAX) "Graph value id space exhausted";
          Ret (base + i)%nat) 0 outs;
  vals ← res_mapi (fun i d => s ← vec_at inferred i; Ret (stage_value node_id d s)) 0 outs;
  Ret (ids, vals).

(** The validated part of [AddNode]: everything before the commit. *)
(* @src src/graph/graph.cpp:621-657 ModelGraph::AddNode (validation and staging) *)
Definition prepare_node (g : ModelGraph) (o : OpType.t) (layer : option nat) (ins : list nat)
    (outs : list NodeOutputDesc) (p : OpParams) (a : list Z) (name : string)
    : Res (nat * list nat * list GraphValue * list ShapeConstraint) :=
  node_idx ← NextNodeIndex (nodes_ g);
  let msg := FormatNodeContext node_idx o name in
  _ ← reject_if (bool_decide (a <> [])) (bad (msg "must use typed op params, not attrs"));
  schema ← rewrap msg (GetOperatorSchema o);
  _ ← rewrap msg (ValidateAddNodePorts schema (values_ g) ins outs);
  _ ← rewrap msg (ValidateAddNodeBindings o layer schema (values_ g) ins outs);
  inference ← rewrap msg (InferAddNodeOutputs o p schema (values_ g) ins);
  base ← NextValueIndex (values_ g);
  staged ← StageAddNodeOutputs node_idx base outs (outputs inference);
  Ret (node_idx, staged.1, staged.2, runtime_checks inference).

(* @src src/graph/graph.cpp:614-687 ModelGraph::AddNode *)
Definition AddNode (g : ModelGraph) (o : OpType.t) (layer : option nat) (ins : list nat)
    (outs : list NodeOutputDesc) (p : OpParams) (a : list Z) (name : string)
    : Res AddedNode * ModelGraph :=
  match prepare_node g o layer ins outs p a name with
  | Ret (node_idx, ids, vals, checks) =>
      (Ret (mkAdded node_idx ids),
       mkGraph (nodes_ g ++ [mkNode o layer ins ids a p checks name]) (values_ g ++ vals)
               (inputs_ g) (outputs_ g))
  | Fail e => (Fail e, g)
  | Panic w => (Panic w, g)
  end.

(** Appending one value without a producer. *)
Definition append_value (g : ModelGraph) (p : GraphValuePayload) (s : TensorSpec) (name : string)
    : ModelGraph :=
  mkGraph (nodes_ g) (values_ g ++ [mkValue p s None default_quant name]) (inputs_ g) (outputs_ g).

(* @src src/graph/graph.cpp:556-562 ModelGraph::AddInput *)
Definition AddInput (g : ModelGraph) (s : TensorSpec) (name : string) : Res nat * ModelGraph :=
  match NextValueIndex (values_ g) with
  | Ret id => let g' := append_value g ModelInputValue s name in
              (Ret id, mkGraph (nodes_ g') (values_ g') (inputs_ g' ++ [id]) (outputs_ g'))
  | Fail e => (Fail e, g)
  | Panic w => (Panic w, g)
  end.

Definition add_value (g : ModelGraph) (p : GraphValuePayload) (s : TensorSpec) (name : string)
    : Res nat * ModelGraph :=
  match NextValueIndex (values_ g) with
  | Ret id => (Ret id, append_value g p s name)
  | Fail e => (Fail e, g)
  | Panic w => (Panic w, g)
  end.

(* @src src/graph/graph.cpp:564-570 ModelGraph::AddWeight *)
Definition AddWeight (g : ModelGraph) (s : TensorSpec) (b : WeightBinding) (name : string) :=
  add_value g (WeightValue b) s name.
(* @src src/graph/graph.cpp:572-577 ModelGraph::AddConstant *)
Definition AddConstant (g : ModelGraph) (s : TensorSpec) (b : ConstantBinding) (name : string) :=
  add_value g (ConstantValue b) s name.
(* @src src/graph/graph.cpp:579-584 ModelGraph::AddState *)
Definition AddState (g : ModelGraph) (s : TensorSpec) (b : StateBinding) (name : string) :=
  add_value g (StateValue b) s name.

(* @src include/aethermind/graph/graph.h:162-164 ModelGraph::MarkOutput *)
Definition MarkOutput (g : ModelGraph) (v : nat) : ModelGraph :=
  mkGraph (nodes_ g) (values_ g) (inputs_ g) (outputs_ g ++ [v]).

(* @src include/aethermind/graph/graph.h:175-177 ModelGraph::SetQuantization *)
Definition SetQuantization (g : ModelGraph) (v : nat) (q : QuantizationSpec) : Res unit * ModelGraph :=
  match values_ g !! v with
  | None => (Panic "out_of_range", g)
  | Some x => (Ret tt, mkGraph (nodes_ g)
      (<[v := mkValue (payload x) (spec x) (producer x) q (value_name x)]> (values_ g))
      (inputs_ g) (outputs_ g))
  end.

(* @src include/aethermind/graph/graph.h:140-143 ModelGraph::GetNode *)
Definition GetNode (g : ModelGraph) (id : nat) : Res GraphNode :=
  match nodes_ g !! id with Some n => Ret n | None => Panic "Invalid GraphNodeId" end.
(* @src include/aethermind/graph/graph.h:150-153 ModelGraph::GetValue *)
Definition GetValue (g : ModelGraph) (id : nat) : Res GraphValue :=
  match values_ g !! id with Some v => Ret v | None => Panic "Invalid GraphValueId" end.

(* @src src/graph/graph.cpp:689-697 ModelGraph::FindNodesByOpType *)
Definition FindNodesByOpType (g : ModelGraph) (o : OpType.t) : list nat :=
  fst <$> filter (fun p => op_type p.2 = o) (zip (seq 0 (length (nodes_ g))) (nodes_ g)).

(** ** Whole-graph validation *)

(* @src src/graph/graph.cpp:737-741 ValidateAndTopologicalOrder (inputs) *)
Definition validate_graph_inputs (g : ModelGraph) : Res unit :=
  res_iter (fun v => reject_if (negb (IsValidValueId v (values_ g)))
    (bad "Graph input references an invalid value id")) (inputs_ g).

(* @src src/graph/graph.cpp:743-758 ValidateAndTopologicalOrder (outputs) *)
Definition validate_graph_outputs (g : ModelGraph) : Res unit :=
  res_iter (fun id =>
    match values_ g !! id with
    | None => Fail (bad "Graph output references an invalid value id")
    | Some v =>
        match payload v with
        | ActivationValue =>
            reject_if (bool_decide (producer v = None)) (bad "Graph output must be produced by a node")
        | ConstantValue _ => Ret tt
        | _ => Fail (bad "Graph output must be an activation or constant value")
        end
    end) (outputs_ g).

(* @src src/graph/graph.cpp:761-763 ValidateAndTopologicalOrder (values) *)
Definition validate_values (g : ModelGraph) : Res unit :=
  for_each (fun i v => ValidateValueSelfConsistency v i (nodes_ g)) (values_ g).

(* @src src/graph/graph.cpp:801-824 ValidateAndTopologicalOrder (node inputs) *)
Definition check_stored_input (msg : string -> string) (expected : option ParameterSlot.t)
    (values : list GraphValue) (i : nat) (x : OperatorInputPort * nat) : Res unit :=
  let '(port, id) := x in
  match values !! id with
  | None => Fail (bad (msg ("input[" +:+ num i +:+ "] " +:+ in_name port +:+ " invalid value id")))
  | Some v =>
      _ ← reject_if (negb (PayloadMatchesPort (payload v) (in_kind port)))
            (bad (msg ("input[" +:+ num i +:+ "] " +:+ in_name port +:+ " payload kind mismatch")));
      match in_kind port with
      | OperatorPortKind.kWeight =>
          b ← get_weight v;
          match expected with
          | Some s => reject_if (bool_decide (wb_slot b <> s))
              (bad (msg ("input[" +:+ num i +:+ "] " +:+ in_name port +:+ " weight slot mismatch")))
          | None => Ret tt
          end
      | _ => Ret tt
      end
  end.

(** [TensorSpec::operator==]. *)
Definition spec_equal (a b : TensorSpec) : Res bool :=
  e ← DataType.equal (dtype a) (dtype b); Ret (e && bool_decide (shape a = shape b)).

(* @src src/graph/graph.cpp:847-873 ValidateAndTopologicalOrder (node outputs) *)
Definition check_stored_output (msg : string -> string) (values : list GraphValue) (node_index : nat)
    (i : nat) (x : OperatorOutputPort * (nat * TensorSpec)) : Res unit :=
  let '(port, (id, derived)) := x in
  let at_port m := bad (msg ("output[" +:+ num i +:+ "] " +:+ out_name port +:+ m)) in
  match values !! id with
  | None => Fail (at_port " invalid value id")
  | Some v =>
      _ ← reject_if (bool_decide (producer v <> Some node_index)) (at_port " producer mismatch");
      _ ← reject_if (negb (PayloadMatchesPort (payload v) (out_kind port)))
            (at_port " payload kind mismatch");
      e ← spec_equal (spec v) derived;
      reject_if (negb e) (at_port " spec mismatch")
  end.

(* @src src/graph/graph.cpp:875-890 ValidateAndTopologicalOrder (stale checks) *)
Definition check_stored_checks (msg : string -> string) (derived stored : list ShapeConstraint)
    : Res unit :=
  _ ← reject_if (negb (length derived =? length stored)%nat)
        (bad (msg ("runtime check count mismatch: derived " +:+ num (length derived) +:+
                   " != stored " +:+ num (length stored))));
  for_each (fun i p => reject_if (negb (ShapeConstraintsEquivalent p.1 p.2))
    (bad (msg ("stale runtime check [" +:+ num i +:+ "] derived={" +:+ error_context p.1 +:+
               "} stored={" +:+ error_context p.2 +:+ "}")))) (zip derived stored).

(* @src src/graph/graph.cpp:826-891 ValidateAndTopologicalOrder (semantic replay) *)
Definition replay_inference (msg : string -> string) (g : ModelGraph) (i : nat) (n : GraphNode)
    (schema : OperatorSchema) : Res unit :=
  specs ← input_specs (values_ g) (node_inputs n);
  derived ← rewrap (fun m => msg ("semantic re-analysis failed: " +:+ m))
              (InferOp (op_type n) (op_params n) specs);
  _ ← reject_if (negb (length (outputs derived) =? length (node_outputs n))%nat)
        (bad (msg ("output count mismatch: derived " +:+ num (length (outputs derived)) +:+
                   " != stored " +:+ num (length (node_outputs n)))));
  _ ← for_each (check_stored_output msg (values_ g) i)
        (zip (output_ports schema) (zip (node_outputs n) (outputs derived)));
  check_stored_checks msg (runtime_checks derived) (node_checks n).

(* @src src/graph/graph.cpp:767-918 ValidateAndTopologicalOrder (node loop) *)
Definition validate_node (g : ModelGraph) (i : nat) (n : GraphNode) : Res unit :=
  let msg := FormatNodeContext i (op_type n) (node_name n) in
  schema ← rewrap (fun m => msg ("GetOperatorSchema: " +:+ m)) (GetOperatorSchema (op_type n));
  _ ← reject_if (bool_decide (attrs n <> []))
        (bad (msg "registered ModelGraph operators must use typed op params, not attrs"));
  _ ← reject_if (negb (length (node_inputs n) =? length (input_ports schema))%nat)
        (bad (msg ("input count " +:+ num (length (node_inputs n)) +:+ " != schema " +:+
                   num (length (input_ports schema)))));
  _ ← reject_if (negb (length (node_outputs n) =? length (output_ports schema))%nat)
        (bad (msg ("output count " +:+ num (length (node_outputs n)) +:+ " != schema " +:+
                   num (length (output_ports schema)))));
  _ ← for_each (check_stored_input msg (ExpectedWeightSlotForOp (op_type n)) (values_ g))
        (zip (input_ports schema) (node_inputs n));
  _ ← replay_inference msg g i n schema;
  _ ← res_iter (fun o => reject_if (bool_decide (o ∈ node_inputs n))
        (bad (msg "output must not reuse an input value"))) (node_outputs n);
  output_bindings ← res_mapi (fun _ id => v ← vec_at (values_ g) id;
                                Ret (state_binding_of (payload v))) 0 (node_outputs n);
  rewrap msg (ValidateStateBindingsForNode (op_type n) (node_layer n) schema (values_ g)
                (node_inputs n) output_bindings).

(** Everything before the final pass. *)
(* @src src/graph/graph.cpp:735-918 ValidateAndTopologicalOrder (passes 1 and 2) *)
Definition validate_structure (g : ModelGraph) : Res unit :=
  _ ← validate_graph_inputs g;
  _ ← validate_graph_outputs g;
  _ ← validate_values g;
  for_each (validate_node g) (nodes_ g).

(** ** Consumers *)

(* @src src/graph/graph.cpp:986-993 BuildConsumerIndex (loop) *)
Fixpoint index_inputs (node_index : nat) (ins : list nat) (index : list (list nat))
    : Res (list (list nat)) :=
  match ins with
  | [] => Ret index
  | v :: ins' =>
      match index !! v with
      | None => Fail (bad "Consumer index found invalid input value id")
      | Some l => index_inputs node_index ins' (<[v := l ++ [node_index]]> index)
      end
  end.

Fixpoint index_nodes (node_index : nat) (nodes : list GraphNode) (index : list (list nat))
    : Res (list (list nat)) :=
  match nodes with
  | [] => Ret index
  | n :: nodes' =>
      index' ← index_inputs node_index (node_inputs n) index;
      index_nodes (S node_index) nodes' index'
  end.

(* @src src/graph/graph.cpp:982-995 BuildConsumerIndex *)
Definition BuildConsumerIndex (g : ModelGraph) : Res (list (list nat)) :=
  index_nodes 0 (nodes_ g) (replicate (length (values_ g)) []).

(* @src src/graph/graph.cpp:999-1005 GetConsumers *)
Definition GetConsumers (index : list (list nat)) (v : nat) : list nat := default [] (index !! v).

(** ** Invariant of graphs built through the interface *)

(** Producer links and output lists agree, every node only reads values created
    before its own outputs, ids are in range. *)
Record graph_wf (g : ModelGraph) : Prop := {
  wf_inputs : forall i n v, nodes_ g !! i = Some n -> v ∈ node_inputs n ->
    (v < length (values_ g))%nat;
  wf_outputs : forall i n v, nodes_ g !! i = Some n -> v ∈ node_outputs n ->
    exists x, values_ g !! v = Some x /\ producer x = Some i;
  wf_producers : forall v x i, values_ g !! v = Some x -> producer x = Some i ->
    exists n, nodes_ g !! i = Some n /\ v ∈ node_outputs n;
  wf_activation : forall v x, values_ g !! v = Some x -> payload x = ActivationValue ->
    exists i, producer x = Some i;
  wf_causal : forall i n v x p, nodes_ g !! i = Some n -> v ∈ node_inputs n ->
    values_ g !! v = Some x -> producer x = Some p -> (p < i)%nat;
  wf_graph_inputs : Forall (fun v => v < length (values_ g))%nat (inputs_ g) }.
End Semantics.
