(* ===== verification/Topology.v ===== *)
(** * Topology: Kahn's algorithm on the model graph

    [ModelGraph::TopologicalOrder] and [ValidateAndTopologicalOrder] of
    [src/graph/graph.cpp]. The adjacency vectors, the in-degree counters and
    the ready queue are explicit; the work-list loop carries fuel, one unit per
    node plus one, which the proofs show is always enough. *)
From S2P Require Import Prelude DataTypes ShapeSymbol ShapeConstraint OperatorSchema Graph.

(** ** The algorithm *)

(** [outgoing[p].push_back(c)] and [++indegree[c]]. *)
Record adjacency := mkAdj { outgoing : list (list nat); indegree : list nat }.

(* @src src/graph/graph.cpp:949-950 TopologicalOrder (add edge) *)
Definition add_edge (adj : adjacency) (p c : nat) : adjacency :=
  mkAdj (alter (fun l => l ++ [c]) p (outgoing adj)) (alter S c (indegree adj)).

(* @src src/graph/graph.cpp:931-951 TopologicalOrder (inputs of a node) *)
Fixpoint scan_inputs (g : ModelGraph) (node_index : nat) (ins : list nat) (adj : adjacency)
    : Res adjacency :=
  match ins with
  | [] => Ret adj
  | input :: ins' =>
      match values_ g !! input with
      | None => Fail (bad "TopologicalOrder found invalid input value id")
      | Some v =>
          if CarriesProducerDependency v then
            match producer v with
            | Some p =>
                if IsValidNodeId p (nodes_ g) then
                  if (p =? node_index)%nat then Fail (bad "TopologicalOrder found self-cycle")
                  else scan_inputs g node_index ins' (add_edge adj p node_index)
                else Fail (bad "TopologicalOrder found activation with invalid producer")
            | None => Fail (bad "TopologicalOrder found activation with invalid producer")
            end
          else scan_inputs g node_index ins' adj
      end
  end.

(* @src src/graph/graph.cpp:930-952 TopologicalOrder (edges) *)
Fixpoint scan_nodes (g : ModelGraph) (node_index : nat) (nodes : list GraphNode) (adj : adjacency)
    : Res adjacency :=
  match nodes with
  | [] => Ret adj
  | n :: nodes' =>
      adj' ← scan_inputs g node_index (node_inputs n) adj;
      scan_nodes g (S node_index) nodes' adj'
  end.

(* @src src/graph/graph.cpp:954-959 TopologicalOrder (initial queue) *)
Definition initial_ready (indeg : list nat) : list nat :=
  filter (fun i => indeg !! i = Some 0%nat) (seq 0 (length indeg)).

(** Releasing the consumers of a scheduled node; a counter below zero is
    excluded by the invariant. *)
(* @src src/graph/graph.cpp:967-972 TopologicalOrder (consumers) *)
Fixpoint relax (consumers : list nat) (indeg ready : list nat) : Res (list nat * list nat) :=
  match consumers with
  | [] => Ret (indeg, ready)
  | c :: consumers' =>
      match indeg !! c with
      | Some (S d) =>
          let indeg' := <[c := d]> indeg in
          relax consumers' indeg' (if (d =? 0)%nat then ready ++ [c] else ready)
      | Some O => Panic "indegree underflow"
      | None => Panic "vector index"
      end
  end.

(* @src src/graph/graph.cpp:961-973 TopologicalOrder (work list) *)
Fixpoint kahn (fuel : nat) (out : list (list nat)) (indeg ready order : list nat) : Res (list nat) :=
  match fuel with
  | O => Panic "out of fuel"
  | S fuel' =>
      match ready with
      | [] => Ret order
      | node :: ready' =>
          cs ← vec_at out node;
          st ← relax cs indeg ready';
          kahn fuel' out st.1 st.2 (order ++ [node])
      end
  end.

Definition empty_adj (n : nat) : adjacency := mkAdj (replicate n []) (replicate n 0%nat).

(* @src src/graph/graph.cpp:924-979 ModelGraph::TopologicalOrder *)
Definition TopologicalOrder (g : ModelGraph) : Res (list nat) :=
  let n := length (nodes_ g) in
  adj ← scan_nodes g 0 (nodes_ g) (empty_adj n);
  order ← kahn (S n) (outgoing adj) (indegree adj) (initial_ready (indegree adj)) [];
  if negb (length order =? n)%nat then Fail (bad "Graph contains a cycle") else Ret order.

Section Validate.
Context {OS : OperatorSemantics}.

(* @src src/graph/graph.cpp:919-922 ValidateAndTopologicalOrder (final pass) *)
Definition ValidateAndTopologicalOrder (g : ModelGraph) : Res (list nat) :=
  _ ← validate_structure g; TopologicalOrder g.

(* @src src/graph/graph.cpp:699-701 ModelGraph::Validate *)
Definition Validate (g : ModelGraph) : Res unit := _ ← ValidateAndTopologicalOrder g; Ret tt.
End Validate.

(** ** Dependencies *)

(** Node [c] reads a value produced by node [p]. *)
Definition depends (g : ModelGraph) (p c : nat) : Prop :=
  exists n v x, nodes_ g !! c = Some n /\ v ∈ node_inputs n /\ values_ g !! v = Some x /\
    CarriesProducerDependency x = true /\ producer x = Some p.

(** A schedule: every node once, producers before consumers. *)
Definition schedule (g : ModelGraph) (order : list nat) : Prop :=
  order ≡ₚ seq 0 (length (nodes_ g)) /\
  forall l1 c l2, order = l1 ++ c :: l2 -> forall p, depends g p c -> p ∈ l1.

(** ** Lemmas: the algorithm on an abstract edge list *)

Section Kahn.
Context (n : nat) (E : list (nat * nat)).
Context (HE : Forall (fun e => e.1 < n /\ e.2 < n)%nat E).

Definition succs (p : nat) : list nat := (filter (fun e => e.1 = p) E).*2.
Definition preds (c : nat) : list nat := (filter (fun e => e.2 = c) E).*1.

(** Edges into [c] whose source is not yet scheduled. *)
Definition pending (order : list nat) (c : nat) : nat :=
  length (filter (fun e => e.2 = c /\ e.1 ∉ order) E).

Record kahn_inv (indeg ready order : list nat) : Prop := {
  k_len : length indeg = n;
  k_deg : forall c, (c < n)%nat -> indeg !! c = Some (pending order c);
  k_nodup : NoDup (order ++ ready);
  k_range : Forall (fun x => x < n)%nat (order ++ ready);
  k_mem : forall c, (c < n)%nat -> pending order c = 0%nat <-> c ∈ order ++ ready;
  k_sched : forall l1 c l2, order = l1 ++ c :: l2 -> forall p, (p, c) ∈ E -> p ∈ l1 }.

Lemma count_succs p c : count_occ Nat.eq_dec (succs p) c = length (filter (fun e => e.1 = p /\ e.2 = c) E).
Proof.
  unfold succs. induction E as [|[a b] E' IH]; [done|]. inversion HE; subst.
  specialize (IH ltac:(done)). rewrite !filter_cons. simpl.
  destruct (decide (a = p)) as [->|Ha]; simpl.
  - destruct (Nat.eq_dec b c) as [->|Hb].
    + rewrite decide_True by done. simpl. f_equal. exact IH.
    + rewrite decide_False by tauto. exact IH.
  - rewrite decide_False by tauto. exact IH.
Qed.

(** Scheduling [p] removes exactly the edges out of [p]. *)
Lemma pending_snoc order p c :
  p ∉ order ->
  pending order c = (pending (order ++ [p]) c + count_occ Nat.eq_dec (succs p) c)%nat.
Proof.
  intros Hp. rewrite count_succs. unfold pending. clear HE.
  induction E as [|[a b] E' IH]; [done|]. rewrite !filter_cons. simpl.
  destruct (decide (b = c)) as [->|Hb].
  - destruct (decide (a = p)) as [->|Ha].
    + rewrite decide_True by done. rewrite (decide_False (P := c = c /\ p ∉ order ++ [p]))
        by (intros [_ Hn]; apply Hn, elem_of_app; right; left).
      rewrite decide_True by done. simpl. lia.
    + rewrite (decide_False (P := a = p /\ c = c)) by tauto.
      destruct (decide (a ∈ order)).
      * rewrite !decide_False by (rewrite ?not_elem_of_app; tauto). lia.
      * rewrite !decide_True by (rewrite ?not_elem_of_app, ?list_elem_of_singleton; tauto). simpl. lia.
  - rewrite !decide_False by tauto. lia.
Qed.

(** [relax] subtracts the multiplicity of every consumer and queues those that
    reach zero, each once. *)
Lemma relax_spec cs : forall indeg ready,
  (forall c, c ∈ cs -> exists d, indeg !! c = Some d /\ (count_occ Nat.eq_dec cs c <= d)%nat) ->
  exists indeg' new, relax cs indeg ready = Ret (indeg', ready ++ new) /\
    length indeg' = length indeg /\ NoDup new /\
    (forall c d, indeg !! c = Some d -> indeg' !! c = Some (d - count_occ Nat.eq_dec cs c)%nat) /\
    (forall c, c ∈ new <-> c ∈ cs /\ indeg' !! c = Some 0%nat).
Proof.
  induction cs as [|c cs IH]; intros indeg ready H.
  { exists indeg, []. rewrite app_nil_r. split_and!; [done|done|constructor| |].
    - intros c d Hd. simpl. by rewrite Nat.sub_0_r.
    - intros c. split; [intros Hc; by apply elem_of_nil in Hc|intros [Hc _]; by apply elem_of_nil in Hc]. }
  destruct (H c ltac:(left)) as (d & Hd & Hle). simpl in Hle. destruct (Nat.eq_dec c c); [|done].
  destruct d as [|d]; [lia|]. simpl. rewrite Hd.
  assert (Hlk : forall x, <[c:=d]> indeg !! x = if decide (x = c) then Some d else indeg !! x).
  { intros x. destruct (decide (x = c)) as [->|Hx].
    - apply list_lookup_insert_eq. by eapply lookup_lt_Some.
    - by rewrite list_lookup_insert_ne. }
  destruct (IH (<[c:=d]> indeg) (if (d =? 0)%nat then ready ++ [c] else ready))
    as (indeg' & new & -> & Hlen & Hnd & Hdeg & Hnew).
  { intros x Hx. rewrite Hlk. destruct (decide (x = c)) as [->|Hxc]; [exists d; split; [done|lia]|].
    destruct (H x ltac:(by right)) as (dx & Hdx & Hlx). exists dx. split; [done|].
    simpl in Hlx. by destruct (Nat.eq_dec c x). }
  rewrite length_insert in Hlen.
  assert (Hdeg' : forall x dx, indeg !! x = Some dx ->
    indeg' !! x = Some (dx - count_occ Nat.eq_dec (c :: cs) x)%nat).
  { intros x dx Hx. destruct (decide (x = c)) as [->|Hxc].
    - simplify_eq. rewrite (Hdeg c d); [|by rewrite Hlk, decide_True]. simpl.
      destruct (Nat.eq_dec c c); [|done]. f_equal.
    - rewrite (Hdeg x dx); [|by rewrite Hlk, decide_False]. simpl. by destruct (Nat.eq_dec c x). }
  destruct (Nat.eqb_spec d 0) as [->|Hd0].
  - assert (Hcs : c ∉ cs). { intros Hc. apply list_elem_of_In, (count_occ_In Nat.eq_dec) in Hc. lia. }
    exists indeg', (c :: new). split_and!; [by rewrite <- app_assoc|done| |done|].
    + constructor; [|done]. intros Hc. by apply Hnew in Hc as [? _].
    + intros x. rewrite !elem_of_cons, Hnew. split; [|tauto]. intros [->|[? ?]]; [|tauto].
      split; [by left|]. rewrite (Hdeg c 0%nat); [done|by rewrite Hlk, decide_True].
  - exists indeg', new. split_and!; [done|done|done|done|]. intros x. rewrite Hnew, elem_of_cons.
    split; [tauto|]. intros [[->|?] Hz]; [|done]. split; [|done].
    rewrite (Hdeg c d) in Hz; [|by rewrite Hlk, decide_True]. simplify_eq.
    apply list_elem_of_In, (count_occ_In Nat.eq_dec). lia.
Qed.

Lemma succs_range p c : c ∈ succs p -> (c < n)%nat /\ (p, c) ∈ E.
Proof.
  unfold succs. intros Hc. apply list_elem_of_fmap in Hc as ([a b] & -> & Hin).
  apply list_elem_of_filter in Hin as [Ha Hin]. simpl in *. subst a. split; [|done].
  apply list_elem_of_lookup_1 in Hin as [k Hk]. exact (proj2 (Forall_lookup_1 _ _ _ _ HE Hk)).
Qed.

Lemma pending_zero order c p : pending order c = 0%nat -> (p, c) ∈ E -> p ∈ order.
Proof.
  intros H0 Hin. destruct (decide (p ∈ order)) as [|Hp]; [done|exfalso].
  apply nil_length_inv in H0. assert ((p, c) ∈ filter (fun e => e.2 = c /\ e.1 ∉ order) E) as Hf
    by (by apply list_elem_of_filter).
  rewrite H0 in Hf. by apply elem_of_nil in Hf.
Qed.

Lemma kahn_step indeg ready order x :
  kahn_inv indeg (x :: ready) order ->
  exists st, relax (succs x) indeg ready = Ret st /\ kahn_inv st.1 st.2 (order ++ [x]).
Proof.
  intros [Hlen Hdeg Hnd Hr Hmem Hsched].
  assert (Hx : x ∉ order).
  { intros Hx. apply NoDup_app in Hnd as (_ & Hd & _). apply (Hd x Hx). left. }
  assert (Hxn : (x < n)%nat). { rewrite Forall_app, Forall_cons in Hr. tauto. }
  destruct (relax_spec (succs x) indeg ready) as (indeg' & new & HR & Hl' & Hnn & Hd' & Hnew).
  { intros c Hc. destruct (succs_range x c Hc) as [Hcn _]. exists (pending order c).
    split; [by apply Hdeg|]. rewrite (pending_snoc order x c Hx). lia. }
  exists (indeg', ready ++ new). split; [done|]. simpl.
  assert (Hdeg2 : forall c, (c < n)%nat -> indeg' !! c = Some (pending (order ++ [x]) c)).
  { intros c Hc. rewrite (Hd' c _ (Hdeg c Hc)). f_equal. rewrite (pending_snoc order x c Hx). lia. }
  assert (Hnew2 : forall c, c ∈ new <-> c ∈ succs x /\ pending (order ++ [x]) c = 0%nat).
  { intros c. rewrite Hnew. split; intros [H1 H2]; (split; [done|]);
      destruct (succs_range x c H1) as [Hc _]; rewrite (Hdeg2 c Hc) in *; congruence. }
  assert (Hfresh : forall c, c ∈ new -> c ∉ order ++ x :: ready).
  { intros c Hc Hin. apply Hnew2 in Hc as [Hs _]. destruct (succs_range x c Hs) as [Hcn _].
    apply (Hmem c Hcn) in Hin. rewrite (pending_snoc order x c Hx) in Hin.
    apply list_elem_of_In, (count_occ_In Nat.eq_dec) in Hs. lia. }
  assert (Hass : (order ++ [x]) ++ ready ++ new = (order ++ x :: ready) ++ new)
    by (by rewrite <- !app_assoc).
  split; [by rewrite Hl'|done| | | |]; try rewrite Hass.
  - apply NoDup_app. split; [done|]. split; [|done]. intros c Hin Hc. by apply (Hfresh c).
  - apply Forall_app. split; [done|]. apply Forall_forall. intros c Hc.
    apply Hnew2 in Hc as [Hs _]. by apply succs_range in Hs as [? _].
  - intros c Hc. rewrite elem_of_app, <- (Hmem c Hc), Hnew2. rewrite (pending_snoc order x c Hx).
    destruct (decide (c ∈ succs x)) as [Hs|Hs].
    + split; [tauto|]. intros [?|[_ ?]]; lia.
    + assert (count_occ Nat.eq_dec (succs x) c = 0%nat) as ->
        by (apply (count_occ_not_In Nat.eq_dec); by rewrite <- list_elem_of_In).
      split; [lia|]. intros [?|[? _]]; [lia|done].
  - intros l1 c l2 Heq p Hp. destruct l2 as [|y l2] using rev_ind.
    + apply app_inj_tail in Heq as [<- <-]. eapply pending_zero; [|exact Hp].
      apply (Hmem x Hxn). apply elem_of_app. right. left.
    + rewrite app_comm_cons, app_assoc in Heq. apply app_inj_tail in Heq as [Heq _].
      by eapply Hsched.
Qed.

Lemma inv_bound indeg ready order :
  kahn_inv indeg ready order -> (length order + length ready <= n)%nat.
Proof.
  intros [_ _ Hnd Hr _ _]. rewrite <- length_app, <- (length_seq n 0).
  apply submseteq_length, NoDup_submseteq; [done|].
  intros x Hx. apply elem_of_seq. apply list_elem_of_lookup_1 in Hx as [k Hk].
  pose proof (Forall_lookup_1 _ _ _ _ Hr Hk) as Hlt. simpl in Hlt. lia.
Qed.

(** The work list terminates within the fuel and ends with an empty queue. *)
Lemma kahn_run out :
  (forall x, (x < n)%nat -> out !! x = Some (succs x)) ->
  forall fuel indeg ready order, kahn_inv indeg ready order -> (n < fuel + length order)%nat ->
  exists order' indeg', kahn fuel out indeg ready order = Ret order' /\ kahn_inv indeg' [] order'.
Proof.
  intros Hout fuel. induction fuel as [|fuel IH]; intros indeg ready order HI Hf.
  { pose proof (inv_bound _ _ _ HI). lia. }
  destruct ready as [|x ready]; [by exists order, indeg|]. simpl.
  assert (Hx : (x < n)%nat).
  { pose proof (k_range _ _ _ HI) as Hr. rewrite Forall_app, Forall_cons in Hr. tauto. }
  unfold vec_at. rewrite (Hout x Hx). simpl.
  destruct (kahn_step _ _ _ _ HI) as (st & -> & HI'). simpl.
  apply IH; [done|]. rewrite length_app. simpl. lia.
Qed.

(** A schedule of the abstract graph. *)
Definition edge_schedule (order : list nat) : Prop :=
  order ≡ₚ seq 0 n /\
  forall l1 c l2, order = l1 ++ c :: l2 -> forall p, (p, c) ∈ E -> p ∈ l1.

Lemma kahn_complete indeg order :
  kahn_inv indeg [] order -> length order = n -> edge_schedule order.
Proof.
  intros [_ _ Hnd Hr _ Hs] Hlen. split; [|done]. rewrite app_nil_r in *.
  apply submseteq_length_Permutation; [|by rewrite Hlen, length_seq].
  apply NoDup_submseteq; [done|]. intros x Hx. apply elem_of_seq.
  apply list_elem_of_lookup_1 in Hx as [k Hk].
  pose proof (Forall_lookup_1 _ _ _ _ Hr Hk) as Hlt. simpl in Hlt. lia.
Qed.

Lemma pending_all order c : (forall p, (p, c) ∈ E -> p ∈ order) -> pending order c = 0%nat.
Proof.
  intros H. unfold pending. destruct (filter _ E) as [|[a b] l] eqn:Hf; [done|exfalso].
  assert ((a, b) ∈ filter (fun e => e.2 = c /\ e.1 ∉ order) E) as Hin by (rewrite Hf; left).
  apply list_elem_of_filter in Hin as [[Hb Ha] Hin]. simpl in *. subst b. by apply Ha, H.
Qed.

(** When the queue runs dry early, the unscheduled nodes admit no order. *)
Lemma kahn_stuck indeg order s :
  kahn_inv indeg [] order -> edge_schedule s -> length order = n.
Proof.
  intros HI [Hp Hs]. pose proof (inv_bound _ _ _ HI) as Hb. simpl in Hb.
  assert (Hsub : forall l1 l2, s = l1 ++ l2 -> forall x, x ∈ l1 -> x ∈ order).
  { intros l1. induction l1 as [|c l1 IH] using rev_ind; intros l2 Heq x Hx.
    - by apply elem_of_nil in Hx.
    - rewrite <- app_assoc in Heq. simpl in Heq. specialize (IH _ Heq).
      apply elem_of_app in Hx as [Hx|Hx]; [by apply IH|].
      apply list_elem_of_singleton in Hx as ->.
      assert (Hc : (c < n)%nat).
      { assert (c ∈ seq 0 n) as Hc by (rewrite <- Hp, Heq; apply elem_of_app; right; left).
        apply elem_of_seq in Hc. lia. }
      rewrite <- (app_nil_r order). apply (k_mem _ _ _ HI c Hc), pending_all.
      intros p Hpc. apply IH. by eapply Hs. }
  assert (n <= length order)%nat; [|lia].
  rewrite <- (length_seq n 0) at 1. apply submseteq_length, NoDup_submseteq; [apply NoDup_seq|].
  intros x Hx. rewrite <- Hp in Hx. apply (Hsub s []); [by rewrite app_nil_r|done].
Qed.

Lemma kahn_init indeg :
  length indeg = n -> (forall c, (c < n)%nat -> indeg !! c = Some (pending [] c)) ->
  kahn_inv indeg (initial_ready indeg) [].
Proof.
  intros Hlen Hdeg. unfold initial_ready. rewrite Hlen.
  assert (Hin : forall c, c ∈ filter (fun i => indeg !! i = Some 0%nat) (seq 0 n) <->
      (c < n)%nat /\ pending [] c = 0%nat).
  { intros c. rewrite list_elem_of_filter, elem_of_seq. split.
    - intros [H0 Hc]. split; [lia|]. rewrite Hdeg in H0 by lia. congruence.
    - intros [Hc H0]. split; [|lia]. rewrite (Hdeg c Hc). congruence. }
  split; [done|done| | | |]; simpl.
  - apply NoDup_filter, NoDup_seq.
  - apply Forall_lookup_2. intros k c Hk. apply list_elem_of_lookup_2, Hin in Hk. tauto.
  - intros c Hc. rewrite Hin. tauto.
  - intros l1 c l2 Heq. by destruct l1.
Qed.
End Kahn.

(** ** Lemmas: the edges of the graph *)

(** The adjacency structure of the edge list [E] on [n] nodes. *)
Record adj_ok (n : nat) (E : list (nat * nat)) (adj : adjacency) : Prop := {
  adj_range : Forall (fun e => e.1 < n /\ e.2 < n)%nat E;
  adj_len : length (indegree adj) = n;
  adj_out : forall p, (p < n)%nat -> outgoing adj !! p = Some (succs E p);
  adj_in : forall c, (c < n)%nat -> indegree adj !! c = Some (pending E [] c) }.

Lemma adj_ok_empty n : adj_ok n [] (empty_adj n).
Proof.
  split; simpl; [constructor|by rewrite length_replicate|..]; intros; by rewrite lookup_replicate_2.
Qed.

Lemma succs_snoc E a b p : succs (E ++ [(a, b)]) p = succs E p ++ (if decide (a = p) then [b] else []).
Proof.
  unfold succs. rewrite filter_app, fmap_app, filter_cons. simpl. f_equal.
  by destruct (decide (a = p)).
Qed.

Lemma pending_edge E a b c :
  pending (E ++ [(a, b)]) [] c = (pending E [] c + if decide (b = c) then 1 else 0)%nat.
Proof.
  unfold pending. rewrite filter_app, length_app, filter_cons. simpl. f_equal.
  destruct (decide (b = c)); [rewrite decide_True|rewrite decide_False]; try done.
  - split; [done|]. apply not_elem_of_nil.
  - tauto.
Qed.

Lemma adj_ok_add n E adj p c :
  (p < n)%nat -> (c < n)%nat -> adj_ok n E adj -> adj_ok n (E ++ [(p, c)]) (add_edge adj p c).
Proof.
  intros Hp Hc [Hr Hl Ho Hi]. split; simpl.
  - apply Forall_app. split; [done|]. by constructor.
  - by rewrite length_alter.
  - intros x Hx. rewrite succs_snoc. destruct (decide (p = x)) as [->|Hne].
    + by rewrite list_lookup_alter_eq, Ho.
    + rewrite list_lookup_alter_ne, app_nil_r by done. by apply Ho.
  - intros x Hx. rewrite pending_edge. destruct (decide (c = x)) as [->|Hne].
    + rewrite list_lookup_alter_eq, Hi by done. simpl. f_equal. lia.
    + rewrite list_lookup_alter_ne, Nat.add_0_r by done. by apply Hi.
Qed.

(** Value [v] carries a dependency on node [p]. *)
Definition carries (g : ModelGraph) (v p : nat) : Prop :=
  exists x, values_ g !! v = Some x /\ CarriesProducerDependency x = true /\ producer x = Some p.

(** An input that is out of range, or a dependency without a producing node. *)
Definition dangling (g : ModelGraph) (v : nat) : Prop :=
  values_ g !! v = None \/
  exists x, values_ g !! v = Some x /\ CarriesProducerDependency x = true /\
    forall p, producer x = Some p -> nodes_ g !! p = None.

Lemma scan_inputs_spec g i : (i < length (nodes_ g))%nat -> forall ins E adj,
  adj_ok (length (nodes_ g)) E adj ->
  match scan_inputs g i ins adj with
  | Ret adj' => exists E', adj_ok (length (nodes_ g)) (E ++ E') adj' /\
      (forall p c, (p, c) ∈ E' <-> c = i /\ exists v, v ∈ ins /\ carries g v p) /\
      (forall v, v ∈ ins -> ~ dangling g v) /\
      (forall v, v ∈ ins -> ~ carries g v i)
  | Fail _ => exists v, v ∈ ins /\ (dangling g v \/ carries g v i)
  | Panic _ => False
  end.
Proof.
  intros Hi ins. induction ins as [|v ins IH]; intros E adj HA; simpl.
  { exists []. rewrite app_nil_r. split_and!; [done| |by intros v Hv; apply elem_of_nil in Hv..].
    intros p c. split; [by intros H; apply elem_of_nil in H|].
    intros (_ & v & Hv & _). by apply elem_of_nil in Hv. }
  destruct (values_ g !! v) as [x|] eqn:Hv; [|exists v; split; [left|]; left; by left].
  destruct (CarriesProducerDependency x) eqn:Hc.
  - assert (Hdang : (forall p, producer x = Some p -> nodes_ g !! p = None) ->
      exists w, w ∈ v :: ins /\ (dangling g w \/ carries g w i)).
    { intros HH. exists v. split; [left|]. left. right. by exists x. }
    destruct (producer x) as [p|] eqn:Hp; [|by apply Hdang].
    unfold IsValidNodeId. destruct (Nat.ltb_spec p (length (nodes_ g))) as [Hlt|Hge];
      [|apply Hdang; intros ? [= <-]; by apply lookup_ge_None].
    destruct (Nat.eqb_spec p i) as [->|Hne]; [exists v; split; [left|]; right; by exists x|].
    specialize (IH _ _ (adj_ok_add _ _ _ p i Hlt Hi HA)).
    destruct (scan_inputs g i ins _) as [adj'|e|]; [|destruct IH as (w & Hw & HH); exists w; split; [by right|done]|done].
    destruct IH as (E' & HA' & HE' & Hnd & Hns). exists ((p, i) :: E').
    rewrite <- app_assoc in HA'. split_and!; [done| | |].
    + intros a c. rewrite elem_of_cons, HE'. split.
      * intros [[= -> ->]|(-> & w & Hw & HH)]; (split; [done|]);
          [exists v; split; [left|]; by exists x|exists w; split; [by right|done]].
      * intros (-> & w & [->|Hw]%elem_of_cons & HH); [|right; eauto].
        destruct HH as (x' & Hx' & _ & Hp'). left. congruence.
    + intros w [->|Hw]%elem_of_cons; [|by apply Hnd]. intros [HH|(x' & Hx' & _ & HH)]; [congruence|].
      simplify_eq. specialize (HH p Hp). apply lookup_ge_None in HH. lia.
    + intros w [->|Hw]%elem_of_cons; [|by apply Hns]. intros (x' & Hx' & _ & Hp'). congruence.
  - specialize (IH _ _ HA).
    destruct (scan_inputs g i ins adj) as [adj'|e|]; [|destruct IH as (w & Hw & HH); exists w; split; [by right|done]|done].
    destruct IH as (E' & HA' & HE' & Hnd & Hns). exists E'. split_and!; [done| | |].
    + intros a c. rewrite HE'. split.
      * intros (-> & w & Hw & HH). split; [done|]. exists w. split; [by right|done].
      * intros (-> & w & [->|Hw]%elem_of_cons & HH); [|eauto].
        destruct HH as (x' & Hx' & Hc' & _). congruence.
    + intros w [->|Hw]%elem_of_cons; [|by apply Hnd]. intros [HH|(x' & Hx' & HH & _)]; congruence.
    + intros w [->|Hw]%elem_of_cons; [|by apply Hns]. intros (x' & Hx' & HH & _). congruence.
Qed.

(** What [TopologicalOrder] reports before sorting: a node reading a dangling
    value, or reading its own output. *)
Definition ill_linked (g : ModelGraph) : Prop :=
  exists c n v, nodes_ g !! c = Some n /\ v ∈ node_inputs n /\ dangling g v.

Definition self_cycle (g : ModelGraph) : Prop := exists c, depends g c c.

Lemma depends_carries g p c n :
  nodes_ g !! c = Some n -> depends g p c <-> exists v, v ∈ node_inputs n /\ carries g v p.
Proof.
  intros Hn. split.
  - intros (n' & v & x & Hn' & Hv & Hx & Hc & Hp). simplify_eq. exists v. split; [done|]. by exists x.
  - intros (v & Hv & x & Hx & Hc & Hp). by exists n, v, x.
Qed.

Lemma scan_nodes_spec g nodes : forall i E adj,
  (forall k n, nodes !! k = Some n -> nodes_ g !! (i + k)%nat = Some n) ->
  (i + length nodes = length (nodes_ g))%nat ->
  adj_ok (length (nodes_ g)) E adj ->
  match scan_nodes g i nodes adj with
  | Ret adj' => exists E', adj_ok (length (nodes_ g)) (E ++ E') adj' /\
      forall p c, (p, c) ∈ E' <-> (i <= c)%nat /\ depends g p c
  | Fail _ => ill_linked g \/ self_cycle g
  | Panic _ => False
  end.
Proof.
  induction nodes as [|n nodes IH]; intros i E adj Hsuf Hlen HA; simpl in *.
  { exists []. rewrite app_nil_r. split; [done|]. intros p c. split; [by intros H; apply elem_of_nil in H|].
    intros [Hc (n & v & x & Hn & _)]. apply lookup_lt_Some in Hn. lia. }
  pose proof (Hsuf 0%nat n eq_refl) as Hn. rewrite Nat.add_0_r in Hn.
  pose proof (lookup_lt_Some _ _ _ Hn) as Hi.
  pose proof (scan_inputs_spec g i Hi (node_inputs n) E adj HA) as Hs.
  destruct (scan_inputs g i (node_inputs n) adj) as [adj1|e|]; simpl; [| |done].
  2: { destruct Hs as (v & Hv & [Hd|Hc]); [left; by exists i, n, v|].
       right. exists i. apply (depends_carries g i i n Hn). eauto. }
  destruct Hs as (E1 & HA1 & HE1 & _).
  specialize (IH (S i) (E ++ E1) adj1).
  assert (Hsuf' : forall k m, nodes !! k = Some m -> nodes_ g !! (S i + k)%nat = Some m).
  { intros k m Hk. replace (S i + k)%nat with (i + S k)%nat by lia. by apply Hsuf. }
  specialize (IH Hsuf' ltac:(lia) HA1).
  destruct (scan_nodes g (S i) nodes adj1) as [adj2|e|]; [|done|done].
  destruct IH as (E2 & HA2 & HE2). exists (E1 ++ E2). rewrite app_assoc. split; [done|].
  intros p c. rewrite elem_of_app, HE1, HE2, <- (depends_carries g p i n Hn). split.
  - intros [[-> ?]|[? ?]]; split; [lia|done|lia|done].
  - intros [Hc Hd]. destruct (decide (c = i)) as [->|]; [by left|]. right. split; [lia|done].
Qed.

(** The two notions of schedule coincide on the scanned edges. *)
Lemma schedule_edges g E order :
  (forall p c, (p, c) ∈ E <-> depends g p c) ->
  edge_schedule (length (nodes_ g)) E order <-> schedule g order.
Proof.
  intros HE. unfold edge_schedule, schedule.
  split; intros [Hp Hs]; (split; [done|]); intros l1 c l2 Heq p Hd;
    (eapply Hs; [exact Heq|]); by apply HE.
Qed.

Lemma self_cycle_no_schedule g order : self_cycle g -> ~ schedule g order.
Proof.
  intros [c Hc] [Hp Hs].
  assert (Hin : c ∈ order).
  { rewrite Hp. apply elem_of_seq. destruct Hc as (n & _ & _ & Hn & _).
    apply lookup_lt_Some in Hn. lia. }
  apply list_elem_of_split in Hin as (l1 & l2 & ->).
  pose proof (Hs l1 c l2 eq_refl c Hc) as Hin.
  assert (NoDup (l1 ++ c :: l2)) as Hnd by (rewrite Hp; apply NoDup_seq).
  apply NoDup_app in Hnd as (_ & Hd & _). apply (Hd c Hin). left.
Qed.

(** What each outcome means. *)
Definition topo_outcome (g : ModelGraph) (r : Res (list nat)) : Prop :=
  match r with
  | Ret order => schedule g order
  | Fail _ => ill_linked g \/ forall order, ~ schedule g order
  | Panic _ => False
  end.

Lemma TopologicalOrder_outcome g : topo_outcome g (TopologicalOrder g).
Proof.
  unfold TopologicalOrder.
  pose proof (scan_nodes_spec g (nodes_ g) 0 [] (empty_adj (length (nodes_ g)))
    ltac:(done) eq_refl (adj_ok_empty _)) as Hs.
  destruct (scan_nodes g 0 (nodes_ g) _) as [adj|e|]; [| |done].
  2: { destruct Hs as [Hs|Hs]; [by left|]. right. intros order. by apply self_cycle_no_schedule. }
  destruct Hs as (E & [Hr Hl Ho Hi] & HE). cbn [app mbind res_mbind res_bind] in *.
  assert (HE' : forall p c, (p, c) ∈ E <-> depends g p c)
    by (intros p c; rewrite HE; split; [tauto|]; split; [lia|done]).
  destruct (kahn_run _ E Hr (outgoing adj) Ho (S (length (nodes_ g))) (indegree adj)
    (initial_ready (indegree adj)) []) as (order & indeg' & -> & HI).
  { by apply kahn_init. } { simpl. lia. }
  cbn [mbind res_mbind res_bind]. destruct (Nat.eqb_spec (length order) (length (nodes_ g))) as [Heq|Hne]; simpl.
  - apply (schedule_edges g E); [done|]. by eapply kahn_complete.
  - right. intros s Hsch. apply Hne. apply (schedule_edges g E) in Hsch; [|done].
    by eapply kahn_stuck.
Qed.

(** C13: [ModelGraph::TopologicalOrder] is a correct and complete topological
    sort of every graph. When it returns an order, the order lists each node
    once and every producer before the nodes that read its values (several edges
    between the same nodes included). When it fails, some node reads a dangling
    value, or no such order exists, self-cycles included. The counters never
    underflow and the work list terminates within the fuel. *)
Theorem TopologicalOrder_correct (g : ModelGraph) :
  match TopologicalOrder g with
  | Ret order => schedule g order
  | Fail _ => ill_linked g \/ forall order, ~ schedule g order
  | Panic _ => False
  end.
Proof. exact (TopologicalOrder_outcome g). Qed.
