(* ===== verification/GraphInvariant.v ===== *)
(** * GraphInvariant: graphs built through the interface

    The properties of [ModelGraph]'s builders: [AddNode] commits all or nothing,
    every builder preserves [graph_wf], a graph reachable from the empty one
    always sorts, what [Validate] guarantees, and how far the checks of
    [AddNode] anticipate those of [Validate]. Proved against the
    [OperatorSemantics] interface. *)
From S2P Require Import Prelude DataTypes ShapeSymbol ShapeConstraint OperatorSchema OperatorInference Graph Topology.

(** ** Lemmas: loops and lookups *)

Lemma for_each_ret {A} (f : nat -> A -> Res unit) l :
  for_each f l = Ret tt <-> forall i x, l !! i = Some x -> f i x = Ret tt.
Proof.
  unfold for_each. rewrite res_iter_ret, Forall_lookup. split.
  - intros H i x Hx. apply (H i (i, x)), lookup_zip_Some. split; [|done].
    apply lookup_seq. split; [lia|]. by eapply lookup_lt_Some.
  - intros H i [j x] Hi. apply lookup_zip_Some in Hi as [Hj Hx].
    apply lookup_seq in Hj as [-> _]. simpl. by apply H.
Qed.

Lemma rewrap_ret {A} f (m : Res A) r : rewrap f m = Ret r <-> m = Ret r.
Proof. destruct m; simpl; split; congruence. Qed.

Lemma input_specs_ret values ins specs :
  input_specs values ins = Ret specs <->
  Forall2 (fun v s => exists x, values !! v = Some x /\ spec x = s) ins specs.
Proof.
  unfold input_specs. rewrite res_mapi_ret, Forall2_same_length_lookup. split.
  - intros [Hl H]. split; [done|]. intros k v s Hv Hs.
    destruct (H k v Hv) as (y & Hy & Hr). res_inv. apply vec_at_ret in Hm. simplify_eq. eauto.
  - intros [Hl H]. split; [done|]. intros k v Hv.
    destruct (lookup_lt_is_Some_2 specs k) as [s Hs]; [rewrite <- Hl; by eapply lookup_lt_Some|].
    exists s. split; [done|]. destruct (H k v s Hv Hs) as (x & Hx & <-).
    apply vec_at_ret in Hx. by rewrite Hx.
Qed.

Section Builders.
Context {OS : OperatorSemantics}.

(** ** [AddNode] *)

(** A successful preparation, spelled out. *)
Record prepared (g : ModelGraph) (o : OpType.t) (layer : option nat) (ins : list nat)
    (outs : list NodeOutputDesc) (p : OpParams) (a : list Z) (ids : list nat)
    (vals : list GraphValue) (checks : list ShapeConstraint)
    (schema : OperatorSchema) (inferred : InferenceResult) : Prop := {
  pr_attrs : a = [];
  pr_schema : GetOperatorSchema o = Ret schema;
  pr_in_arity : length ins = length (input_ports schema);
  pr_out_arity : length outs = length (output_ports schema);
  pr_ports : ValidateAddNodePorts schema (values_ g) ins outs = Ret tt;
  pr_bindings : ValidateAddNodeBindings o layer schema (values_ g) ins outs = Ret tt;
  pr_infer : exists specs, input_specs (values_ g) ins = Ret specs /\ InferOp o p specs = Ret inferred;
  pr_inferred : length (outputs inferred) = length outs;
  pr_ids : ids = seq (length (values_ g)) (length outs);
  pr_fits : Z.of_nat (length (values_ g) + length outs) <= UINT32_MAX;
  pr_vals : vals = zip_with (stage_value (length (nodes_ g))) outs (outputs inferred);
  pr_checks : checks = runtime_checks inferred }.

Lemma stage_ret node base outs inferred ids vals :
  length inferred = length outs -> Z.of_nat base < UINT32_MAX ->
  StageAddNodeOutputs node base outs inferred = Ret (ids, vals) ->
  ids = seq base (length outs) /\ vals = zip_with (stage_value node) outs inferred /\
  Z.of_nat (base + length outs) <= UINT32_MAX.
Proof.
  intros Hl Hb H. unfold StageAddNodeOutputs in H. res_inv.
  apply res_mapi_ret in Hm as [Hl1 H1]. apply res_mapi_ret in Hm0 as [Hl2 H2].
  split_and!.
  - apply list_eq_same_length with (length outs); [by rewrite length_seq|done|].
    intros k x y Hk Hx Hy. apply lookup_seq in Hy as [-> _].
    destruct (lookup_lt_is_Some_2 outs k Hk) as [d Hd]. destruct (H1 k d Hd) as (z & Hz & Hr).
    res_inv. simplify_eq. done.
  - apply list_eq_same_length with (length outs); [rewrite length_zip_with; lia|done|].
    intros k x y Hk Hx Hy. apply lookup_zip_with_Some in Hy as (d & s & -> & Hd & Hs).
    destruct (H2 k d Hd) as (z & Hz & Hr). res_inv. apply vec_at_ret in Hm.
    simpl in Hm. by simplify_eq.
  - destruct (decide (length outs = 0%nat)) as [->|Hne]; [rewrite Nat.add_0_r; lia|].
    destruct (lookup_lt_is_Some_2 outs (length outs - 1)) as [d Hd]; [lia|].
    destruct (H1 _ d Hd) as (z & Hz & Hr). res_inv. bsplit. lia.
Qed.

Lemma prepare_node_ret g o layer ins outs p a name i ids vals checks :
  prepare_node g o layer ins outs p a name = Ret (i, ids, vals, checks) ->
  i = length (nodes_ g) /\
  exists schema inferred, prepared g o layer ins outs p a ids vals checks schema inferred.
Proof.
  unfold prepare_node, NextNodeIndex, NextValueIndex, InferAddNodeOutputs. intros H. res_inv. bsplit.
  repeat match goal with H : rewrap _ _ = Ret _ |- _ => apply rewrap_ret in H end. res_inv. bsplit.
  repeat match goal with H : rewrap _ _ = Ret _ |- _ => apply rewrap_ret in H end.
  split; [done|]. exists a2.
  match goal with Hs : StageAddNodeOutputs _ _ _ (outputs ?r) = Ret ?st |- _ =>
    exists r; destruct st as [ids' vals']; rename Hs into HS end.
  pose proof Hm2 as HP. unfold ValidateAddNodePorts in HP. res_inv. bsplit.
  apply stage_ret in HS as (-> & -> & Hfit); [|unfold zlen in *; lia..]. simpl.
  split; eauto; [by apply dec_stable|lia].
Qed.

Lemma ports_inputs_valid schema values ins outs v :
  length ins = length (input_ports schema) ->
  ValidateAddNodePorts schema values ins outs = Ret tt -> v ∈ ins -> is_Some (values !! v).
Proof.
  intros Hl H Hv. unfold ValidateAddNodePorts in H. res_inv. rewrite for_each_ret in Hm1.
  apply list_elem_of_lookup_1 in Hv as [i Hi].
  destruct (lookup_lt_is_Some_2 (input_ports schema) i) as [port Hp];
    [rewrite <- Hl; by eapply lookup_lt_Some|].
  specialize (Hm1 i (port, v)). unfold check_input_port in Hm1.
  destruct (values !! v); [by eexists|]. exfalso.
  assert (Hz : zip (input_ports schema) ins !! i = Some (port, v)) by (by apply lookup_zip_Some).
  by specialize (Hm1 Hz).
Qed.

(** The graph after a successful [AddNode]: one node and one fresh value per
    schema output, with what inference derives from the stored input specs. *)
Definition committed (g : ModelGraph) (o : OpType.t) (layer : option nat) (ins : list nat)
    (outs : list NodeOutputDesc) (p : OpParams) (name : string) (added : AddedNode)
    (g' : ModelGraph) : Prop :=
  exists schema specs inferred,
    GetOperatorSchema o = Ret schema /\
    input_specs (values_ g) ins = Ret specs /\ InferOp o p specs = Ret inferred /\
    length (outputs inferred) = length outs /\ length outs = length (output_ports schema) /\
    added = mkAdded (length (nodes_ g)) (seq (length (values_ g)) (length outs)) /\
    nodes_ g' = nodes_ g ++ [mkNode o layer ins (added_outputs added) [] p
                               (runtime_checks inferred) name] /\
    values_ g' = values_ g ++ zip_with (stage_value (length (nodes_ g))) outs (outputs inferred) /\
    inputs_ g' = inputs_ g /\ outputs_ g' = outputs_ g.

(** [AddNode] commits all or nothing. On success the graph is the old one
    with exactly one node and one fresh value per schema output appended: ids
    are consecutive, the values carry the specs inferred from the inputs'
    stored specs and name the new node as producer, the node stores the
    inference's runtime checks. On any failure the graph is unchanged. *)
Theorem AddNode_commits g o layer ins outs p a name :
  match AddNode g o layer ins outs p a name with
  | (Ret added, g') => committed g o layer ins outs p name added g'
  | (_, g') => g' = g
  end.
Proof.
  unfold AddNode. destruct (prepare_node g o layer ins outs p a name) as [[[[i ids] vals] checks]|e|w] eqn:HP;
    [|done|done].
  apply prepare_node_ret in HP as (-> & schema & r & []).
  destruct pr_infer0 as (specs & Hs & Hr). exists schema, specs, r. subst. done.
Qed.

(** ** Every builder preserves the invariant *)

Lemma lookup_snoc_values (l vals : list GraphValue) v x :
  (l ++ vals) !! v = Some x -> (v < length l)%nat -> l !! v = Some x.
Proof. intros H Hv. by rewrite lookup_app_l in H. Qed.

Lemma append_wf g vals nodes :
  graph_wf g ->
  (forall x, x ∈ vals -> payload x = ActivationValue -> exists i, producer x = Some i) ->
  (forall k x i, vals !! k = Some x -> producer x = Some i ->
     exists n, (nodes_ g ++ nodes) !! i = Some n /\ (length (values_ g) + k)%nat ∈ node_outputs n) ->
  (forall k n, nodes !! k = Some n ->
     (forall v, v ∈ node_inputs n -> (v < length (values_ g))%nat) /\
     (forall v, v ∈ node_outputs n -> exists x, (values_ g ++ vals) !! v = Some x /\
        producer x = Some (length (nodes_ g) + k)%nat)) ->
  graph_wf (mkGraph (nodes_ g ++ nodes) (values_ g ++ vals) (inputs_ g) (outputs_ g)).
Proof.
  intros [Hin Hout Hprod Hact Hcaus Hgi] Hv1 Hv2 Hn.
  assert (Hnode : forall i n, (nodes_ g ++ nodes) !! i = Some n ->
    nodes_ g !! i = Some n \/ exists k, i = (length (nodes_ g) + k)%nat /\ nodes !! k = Some n).
  { intros i n Hi. apply lookup_app_Some in Hi as [?|[Hge Hi]]; [by left|].
    right. exists (i - length (nodes_ g))%nat. split; [lia|done]. }
  assert (Hlt : forall i n v, (nodes_ g ++ nodes) !! i = Some n -> v ∈ node_inputs n ->
    (v < length (values_ g))%nat).
  { intros i n v Hi Hv. destruct (Hnode _ _ Hi) as [Hi'|(k & -> & Hk)]; [by eapply Hin|].
    by apply (Hn k n Hk). }
  split; simpl.
  - intros i n v Hi Hv. rewrite length_app. specialize (Hlt _ _ _ Hi Hv). lia.
  - intros i n v Hi Hv. destruct (Hnode _ _ Hi) as [Hi'|(k & -> & Hk)].
    + destruct (Hout _ _ _ Hi' Hv) as (x & Hx & Hp). exists x. by rewrite (lookup_app_l_Some _ _ _ _ Hx).
    + by apply (Hn k n Hk).
  - intros v x i Hx Hp. apply lookup_app_Some in Hx as [Hx|[Hge Hx]].
    + destruct (Hprod _ _ _ Hx Hp) as (n & Hi & Hv). exists n. by rewrite (lookup_app_l_Some _ _ _ _ Hi).
    + destruct (Hv2 _ _ _ Hx Hp) as (n & Hi & Hv). exists n. split; [done|].
      by replace (length (values_ g) + (v - length (values_ g)))%nat with v in Hv by lia.
  - intros v x Hx Hp. apply lookup_app_Some in Hx as [Hx|[_ Hx]]; [by eapply Hact|].
    by apply (Hv1 x); [eapply list_elem_of_lookup_2|].
  - intros i n v x p Hi Hv Hx Hp. apply lookup_snoc_values in Hx; [|by eapply Hlt].
    destruct (Hnode _ _ Hi) as [Hi'|(k & -> & Hk)]; [by eapply Hcaus|].
    destruct (Hprod _ _ _ Hx Hp) as (m & Hm & _). apply lookup_lt_Some in Hm. lia.
  - eapply Forall_impl; [exact Hgi|]. intros v Hv. simpl in *. rewrite length_app. lia.
Qed.

Lemma wf_set_inputs g ins :
  graph_wf g -> Forall (fun v => v < length (values_ g))%nat ins ->
  graph_wf (mkGraph (nodes_ g) (values_ g) ins (outputs_ g)).
Proof. intros [] ?. by split. Qed.

Lemma wf_set_outputs g outs :
  graph_wf g -> graph_wf (mkGraph (nodes_ g) (values_ g) (inputs_ g) outs).
Proof. intros []. by split. Qed.

Lemma append_value_wf g p s name :
  p <> ActivationValue -> graph_wf g -> graph_wf (append_value g p s name).
Proof.
  intros Hp HW. unfold append_value. rewrite <- (app_nil_r (nodes_ g)). apply append_wf; [done|..].
  - intros x Hx Ha. apply list_elem_of_singleton in Hx as ->. done.
  - intros [|k] x i Hx Hpr; simpl in *; [|done]. by simplify_eq.
  - intros k n Hk. by rewrite lookup_nil in Hk.
Qed.

Lemma add_value_wf g p s name :
  p <> ActivationValue -> graph_wf g -> graph_wf (add_value g p s name).2.
Proof.
  intros Hp HW. unfold add_value. destruct (NextValueIndex _); [by apply append_value_wf|done..].
Qed.

Lemma AddInput_wf g s name : graph_wf g -> graph_wf (AddInput g s name).2.
Proof.
  intros HW. unfold AddInput. destruct (NextValueIndex _) as [id| |] eqn:E; [|done..].
  unfold NextValueIndex in E. res_inv.
  apply (wf_set_inputs (append_value g ModelInputValue s name)); [by apply append_value_wf|].
  apply Forall_app. split.
  - eapply Forall_impl; [exact (wf_graph_inputs g HW)|]. intros v Hv. simpl in *. rewrite length_app. lia.
  - constructor; [|constructor]. simpl. rewrite length_app. simpl. lia.
Qed.

Lemma AddNode_wf g o layer ins outs p a name :
  graph_wf g -> graph_wf (AddNode g o layer ins outs p a name).2.
Proof.
  intros HW. unfold AddNode.
  destruct (prepare_node g o layer ins outs p a name) as [[[[i ids] vals] checks]|e|w] eqn:HP; [|done..].
  apply prepare_node_ret in HP as (-> & schema & r & []). simpl. subst.
  apply append_wf; [done|..].
  - intros x Hx _. apply list_elem_of_lookup_1 in Hx as [k Hk].
    apply lookup_zip_with_Some in Hk as (d & s & -> & _). by eexists.
  - intros k x i Hk Hp. apply lookup_zip_with_Some in Hk as (d & s & -> & Hd & _). simpl in Hp.
    injection Hp as <-. eexists. rewrite lookup_app_r, Nat.sub_diag by lia. split; [done|].
    simpl. apply elem_of_seq. apply lookup_lt_Some in Hd. lia.
  - intros [|k] n Hk; [|done]. injection Hk as <-. simpl. split.
    + intros v Hv. destruct (ports_inputs_valid _ _ _ _ v pr_in_arity0 pr_ports0 Hv) as [x Hx].
      by eapply lookup_lt_Some.
    + intros v Hv. apply elem_of_seq in Hv.
      destruct (lookup_lt_is_Some_2 outs (v - length (values_ g))) as [d Hd]; [lia|].
      destruct (lookup_lt_is_Some_2 (outputs r) (v - length (values_ g))) as [s Hs]; [lia|].
      exists (stage_value (length (nodes_ g)) d s). split; [|simpl; f_equal; lia].
      rewrite lookup_app_r by lia. apply lookup_zip_with_Some. eauto.
Qed.

Lemma SetQuantization_wf g v q : graph_wf g -> graph_wf (SetQuantization g v q).2.
Proof.
  intros [Hin Hout Hprod Hact Hcaus Hgi]. unfold SetQuantization.
  destruct (values_ g !! v) as [y|] eqn:Hv; [|by split]. simpl.
  set (y' := mkValue (payload y) (spec y) (producer y) q (value_name y)).
  assert (Hold : forall w x, <[v := y']> (values_ g) !! w = Some x ->
    exists x0, values_ g !! w = Some x0 /\ producer x0 = producer x /\ payload x0 = payload x).
  { intros w x Hx. apply list_lookup_insert_Some in Hx as [(-> & <- & _)|[_ Hx]]; eauto. }
  split; simpl; rewrite ?length_insert; try done.
  - intros i n w Hi Hw. destruct (Hout _ _ _ Hi Hw) as (x & Hx & Hp).
    destruct (decide (v = w)) as [->|Hne].
    + exists y'. rewrite list_lookup_insert_eq by (by eapply lookup_lt_Some). simplify_eq. done.
    + exists x. by rewrite list_lookup_insert_ne.
  - intros w x i Hx Hp. destruct (Hold _ _ Hx) as (x0 & Hx0 & Hp0 & _).
    apply (Hprod w x0); [done|congruence].
  - intros w x Hx Hp. destruct (Hold _ _ Hx) as (x0 & Hx0 & Hp0 & Hpay).
    rewrite <- Hp0. apply (Hact w x0); [done|congruence].
  - intros i n w x p Hi Hw Hx Hp. destruct (Hold _ _ Hx) as (x0 & Hx0 & Hp0 & _).
    apply (Hcaus i n w x0 p Hi Hw Hx0). congruence.
Qed.

(** One call on the public interface, whatever it returns. *)
Inductive graph_step (g : ModelGraph) : ModelGraph -> Prop :=
| step_input s name : graph_step g (AddInput g s name).2
| step_weight s b name : graph_step g (AddWeight g s b name).2
| step_constant s b name : graph_step g (AddConstant g s b name).2
| step_state s b name : graph_step g (AddState g s b name).2
| step_node o layer ins outs p a name : graph_step g (AddNode g o layer ins outs p a name).2
| step_output v : graph_step g (MarkOutput g v)
| step_quant v q : graph_step g (SetQuantization g v q).2.

(** The graphs a client can build. *)
Definition reachable (g : ModelGraph) : Prop := rtc graph_step empty_graph g.

Lemma step_wf g g' : graph_wf g -> graph_step g g' -> graph_wf g'.
Proof.
  intros HW H. destruct H; unfold AddWeight, AddConstant, AddState;
    auto using AddInput_wf, AddNode_wf, SetQuantization_wf, add_value_wf, wf_set_outputs;
    (by apply add_value_wf) || by apply wf_set_outputs.
Qed.

Lemma empty_wf : graph_wf empty_graph.
Proof. split; simpl; try (intros i n; rewrite lookup_nil; done). constructor. Qed.

Lemma reachable_graph_wf g : reachable g -> graph_wf g.
Proof.
  intros H. unfold reachable in H. pose proof empty_wf as HW.
  induction H as [|g1 g2 g3 Hs _ IH]; [done|]. apply IH. by eapply step_wf.
Qed.

(** ** Sorting *)

Lemma wf_not_ill_linked g : graph_wf g -> ~ ill_linked g.
Proof.
  intros HW (c & n & v & Hc & Hv & [Hnone|(x & Hx & Hdep & Hp)]).
  - pose proof (wf_inputs g HW _ _ _ Hc Hv). apply lookup_ge_None in Hnone. lia.
  - assert (exists p, producer x = Some p) as [p Hpx].
    { unfold CarriesProducerDependency in Hdep. destruct (payload x) eqn:Hpay; try done.
      - by apply (wf_activation g HW v x).
      - bsplit. destruct (producer x); [eauto|done]. }
    destruct (wf_producers g HW _ _ _ Hx Hpx) as (m & Hm & _). specialize (Hp p Hpx). congruence.
Qed.

Lemma wf_schedule g : graph_wf g -> schedule g (seq 0 (length (nodes_ g))).
Proof.
  intros HW. split; [done|]. intros l1 c l2 Heq p (n & v & x & Hc & Hv & Hx & _ & Hp).
  pose proof (wf_causal g HW _ _ _ _ _ Hc Hv Hx Hp) as Hlt.
  assert (Hl : length l1 = c).
  { assert (seq 0 (length (nodes_ g)) !! length l1 = Some c) as Hk
      by (rewrite Heq, lookup_app_r, Nat.sub_diag by lia; done).
    apply lookup_seq in Hk. lia. }
  apply (list_elem_of_lookup_2 _ p). apply lookup_lt_Some in Hc.
  rewrite <- (lookup_app_l l1 (c :: l2)) by lia. rewrite <- Heq. apply lookup_seq. lia.
Qed.

Lemma sort_total g : ~ ill_linked g -> (exists s, schedule g s) ->
  exists order, TopologicalOrder g = Ret order /\ schedule g order.
Proof.
  intros Hl [s Hs]. pose proof (TopologicalOrder_outcome g) as HT.
  destruct (TopologicalOrder g) as [order|e|]; [eauto| |done].
  destruct HT as [?|HT]; [done|]. by destruct (HT s).
Qed.

(** Every graph that a sequence of interface calls can build, failing calls
    included, is well formed (ids in range, producer links and output lists
    agree, nodes read only values created earlier), and sorting it succeeds with
    an order in which producers precede consumers. *)
Theorem reachable_sorts g :
  reachable g ->
  graph_wf g /\ exists order, TopologicalOrder g = Ret order /\ schedule g order.
Proof.
  intros HR. pose proof (reachable_graph_wf g HR) as HW. split; [done|].
  apply sort_total; [by apply wf_not_ill_linked|]. eexists. by apply wf_schedule.
Qed.

(** ** What validation checks, as a proposition *)

Definition input_ok (values : list GraphValue) (expected : option ParameterSlot.t)
    (port : OperatorInputPort) (v : nat) : Prop :=
  exists x, values !! v = Some x /\ PayloadMatchesPort (payload x) (in_kind port) = true /\
    forall b s, payload x = WeightValue b -> expected = Some s -> wb_slot b = s.

Definition output_ok (values : list GraphValue) (i : nat) (port : OperatorOutputPort) (v : nat)
    (derived : TensorSpec) : Prop :=
  exists x, values !! v = Some x /\ producer x = Some i /\
    PayloadMatchesPort (payload x) (out_kind port) = true /\ spec_equal (spec x) derived = Ret true.

(** The bindings of the state values among [ids]. *)
Definition bindings_of (values : list GraphValue) (ids : list nat) (bs : list (option StateBinding)) : Prop :=
  Forall2 (fun v b => exists x, values !! v = Some x /\ state_binding_of (payload x) = b) ids bs.

Record node_valid (values : list GraphValue) (i : nat) (n : GraphNode)
    (schema : OperatorSchema) (specs : list TensorSpec) (derived : InferenceResult)
    (bs : list (option StateBinding)) : Prop := {
  nv_schema : GetOperatorSchema (op_type n) = Ret schema;
  nv_attrs : attrs n = [];
  nv_in_arity : length (node_inputs n) = length (input_ports schema);
  nv_out_arity : length (node_outputs n) = length (output_ports schema);
  nv_inputs : forall k port v, input_ports schema !! k = Some port -> node_inputs n !! k = Some v ->
    input_ok values (ExpectedWeightSlotForOp (op_type n)) port v;
  nv_specs : input_specs values (node_inputs n) = Ret specs;
  nv_infer : InferOp (op_type n) (op_params n) specs = Ret derived;
  nv_derived : length (outputs derived) = length (node_outputs n);
  nv_outputs : forall k port v s, output_ports schema !! k = Some port ->
    node_outputs n !! k = Some v -> outputs derived !! k = Some s -> output_ok values i port v s;
  nv_checks : Forall2 (fun d c => ShapeConstraintsEquivalent d c = true)
    (runtime_checks derived) (node_checks n);
  nv_fresh : forall v, v ∈ node_outputs n -> v ∉ node_inputs n;
  nv_bindings : bindings_of values (node_outputs n) bs;
  nv_state : ValidateStateBindingsForNode (op_type n) (node_layer n) schema values
    (node_inputs n) bs = Ret tt }.

Lemma check_stored_input_ret msg expected values i port v :
  check_stored_input msg expected values i (port, v) = Ret tt <-> input_ok values expected port v.
Proof.
  unfold check_stored_input, input_ok. destruct (values !! v) as [x|] eqn:Hv;
    [|split; [done|by intros (? & ? & _)]].
  unfold get_weight. split.
  - intros H. res_inv. bsplit. exists x. split_and!; [done|done|]. intros b s Hb ->. rewrite Hb in *.
    destruct (in_kind port); try done. simpl in H. res_inv. bsplit. by apply dec_stable.
  - intros (x' & [= <-] & Hpm & HH). rewrite Hpm. simpl. destruct (in_kind port) eqn:Hk; try done.
    destruct (payload x) as [| | |b| |]; try discriminate Hpm.
    simpl. destruct expected as [s|]; [|done]. apply reject_if_ret, bool_decide_eq_false.
    intros Hne. by apply Hne, HH.
Qed.

Lemma check_stored_output_ret msg values i k port v s :
  check_stored_output msg values i k (port, (v, s)) = Ret tt <-> output_ok values i port v s.
Proof.
  unfold check_stored_output, output_ok. destruct (values !! v) as [x|] eqn:Hv;
    [|split; [done|by intros (? & ? & _)]]. split.
  - intros H. res_inv. bsplit. exists x. split_and!; [done|by apply dec_stable|done|].
    destruct a1; done.
  - intros (x' & [= <-] & Hp & -> & ->). rewrite Hp, bool_decide_false by tauto. done.
Qed.

Lemma check_stored_checks_ret msg derived stored :
  check_stored_checks msg derived stored = Ret tt <->
  Forall2 (fun d c => ShapeConstraintsEquivalent d c = true) derived stored.
Proof.
  unfold check_stored_checks. rewrite Forall2_same_length_lookup. split.
  - intros H. res_inv. bsplit. split; [done|]. intros k d c Hd Hc. rewrite for_each_ret in H.
    specialize (H k (d, c) (proj2 (lookup_zip_Some _ _ _ _ _) (conj Hd Hc))). res_inv. by bsplit.
  - intros [Hl H]. rewrite Hl, Nat.eqb_refl. simpl. apply for_each_ret. intros k [d c] Hz.
    apply lookup_zip_Some in Hz as [Hd Hc]. simpl in *. by rewrite (H k d c).
Qed.

Lemma bindings_ret values ids bs :
  res_mapi (fun _ id => v ← vec_at values id; Ret (state_binding_of (payload v))) 0 ids = Ret bs <->
  bindings_of values ids bs.
Proof.
  unfold bindings_of. rewrite res_mapi_ret, Forall2_same_length_lookup. split.
  - intros [Hl H]. split; [done|]. intros k v b Hv Hb.
    destruct (H k v Hv) as (y & Hy & Hr). res_inv. apply vec_at_ret in Hm. simplify_eq. eauto.
  - intros [Hl H]. split; [done|]. intros k v Hv.
    destruct (lookup_lt_is_Some_2 bs k) as [b Hb]; [rewrite <- Hl; by eapply lookup_lt_Some|].
    exists b. split; [done|]. destruct (H k v b Hv Hb) as (x & Hx & <-).
    apply vec_at_ret in Hx. by rewrite Hx.
Qed.

Lemma fresh_outputs_ret msg (outs ins : list nat) :
  res_iter (fun o => reject_if (bool_decide (o ∈ ins)) (bad msg)) outs = Ret tt <->
  forall v, v ∈ outs -> v ∉ ins.
Proof.
  rewrite res_iter_ret, Forall_lookup. split.
  - intros H v Hv Hin. apply list_elem_of_lookup_1 in Hv as [k Hk].
    specialize (H k v Hk). apply reject_if_ret in H. by bsplit.
  - intros H k v Hk. apply reject_if_ret, bool_decide_eq_false.
    by apply H, (list_elem_of_lookup_2 _ k).
Qed.

Lemma validate_node_valid g i n :
  validate_node g i n = Ret tt <->
  exists schema specs derived bs, node_valid (values_ g) i n schema specs derived bs.
Proof.
  unfold validate_node, replay_inference. split.
  - intros H. res_inv. bsplit.
    repeat match goal with H : rewrap _ _ = Ret _ |- _ => apply rewrap_ret in H end.
    rewrite for_each_ret in Hm3. res_inv. bsplit.
    rewrite for_each_ret in Hm10. apply check_stored_checks_ret in Hm4.
    pose proof (proj1 (fresh_outputs_ret _ _ _) Hm5) as Hfr.
    pose proof (proj1 (bindings_ret _ _ _) Hm6) as Hbs.
    eexists _, _, _, _. split; try done; [by apply dec_stable|..].
    + intros k port v Hp Hv. eapply check_stored_input_ret, Hm3, lookup_zip_Some. eauto.
    + intros k port v s Hp Hv Hs. eapply check_stored_output_ret, (Hm10 k (port, (v, s))).
      rewrite !lookup_zip_Some. eauto.
  - intros (schema & specs & derived & bs & []).
    rewrite nv_schema0. simpl. rewrite nv_attrs0, nv_in_arity0, nv_out_arity0, !Nat.eqb_refl. simpl.
    rewrite (proj2 (for_each_ret _ _)); [simpl|].
    2: { intros k [port v] Hz. apply lookup_zip_Some in Hz as [Hp Hv].
         by apply check_stored_input_ret, (nv_inputs0 k). }
    rewrite nv_specs0. simpl. rewrite nv_infer0. simpl.
    rewrite nv_derived0, nv_out_arity0, Nat.eqb_refl. simpl.
    rewrite (proj2 (for_each_ret _ _)); [simpl|].
    2: { intros k [port [v s]] Hz. rewrite !lookup_zip_Some in Hz. destruct Hz as (Hp & Hv & Hs).
         by apply check_stored_output_ret, (nv_outputs0 k). }
    rewrite (proj2 (check_stored_checks_ret _ _ _) nv_checks0). simpl.
    rewrite (proj2 (fresh_outputs_ret _ _ _) nv_fresh0). simpl.
    rewrite (proj2 (bindings_ret _ _ _) nv_bindings0). simpl. by rewrite nv_state0.
Qed.

(** ** Validation is monotone in the tables *)

Definition value_ok (nodes : list GraphNode) (v : nat) (x : GraphValue) : Prop :=
  ValidateValueSelfConsistency x v nodes = Ret tt.

Lemma producer_lists_ret nodes p v m1 m2 :
  producer_lists nodes p v m1 m2 = Ret tt <-> exists n, nodes !! p = Some n /\ v ∈ node_outputs n.
Proof.
  unfold producer_lists, NodeListsOutput. destruct (nodes !! p) as [n|]; [|split; [done|by intros (? & ? & _)]].
  rewrite reject_if_ret, negb_false_iff, bool_decide_eq_true. split; [eauto|]. by intros (? & [= <-] & ?).
Qed.

Lemma value_ok_producer nodes v x p :
  value_ok nodes v x -> producer x = Some p ->
  (payload x = ActivationValue \/ exists b, payload x = StateValue b) /\
  exists n, nodes !! p = Some n /\ v ∈ node_outputs n.
Proof.
  unfold value_ok, ValidateValueSelfConsistency. intros H Hp. rewrite Hp in H.
  destruct (payload x);
    first [discriminate H | apply producer_lists_ret in H; by auto
          | res_inv; bsplit; naive_solver | res_inv; apply producer_lists_ret in H; by eauto].
Qed.

Lemma value_ok_mono nodes nodes' v x : value_ok nodes v x -> value_ok (nodes ++ nodes') v x.
Proof.
  assert (HL : forall p m1 m2, producer_lists nodes p v m1 m2 = Ret tt ->
    producer_lists (nodes ++ nodes') p v m1 m2 = Ret tt).
  { intros p m1 m2 H. apply producer_lists_ret in H as (n & Hn & Hv). apply producer_lists_ret.
    exists n. by rewrite (lookup_app_l_Some _ _ _ _ Hn). }
  unfold value_ok, ValidateValueSelfConsistency. destruct (payload x), (producer x); try done; auto.
  intros H. res_inv. rewrite Hm. simpl. auto.
Qed.

Lemma state_input_mono values vals ins k b :
  state_input values ins k = Ret b -> state_input (values ++ vals) ins k = Ret b.
Proof.
  unfold state_input. intros H. res_inv. rewrite Hm. simpl. apply vec_at_ret in Hm0.
  rewrite (proj2 (vec_at_ret _ _ a0)); [done|]. by apply lookup_app_l_Some.
Qed.

Lemma state_bindings_mono o layer schema values vals ins bs :
  ValidateStateBindingsForNode o layer schema values ins bs = Ret tt ->
  ValidateStateBindingsForNode o layer schema (values ++ vals) ins bs = Ret tt.
Proof.
  unfold ValidateStateBindingsForNode. destruct o; try done; intros H; res_inv;
    repeat match goal with
    | Hs : state_input values _ _ = Ret _ |- _ => apply (state_input_mono _ vals) in Hs
    end;
    repeat (match goal with Hs : ?m = Ret _ |- context [?m ≫= _] => rewrite Hs end; simpl); done.
Qed.

Lemma input_specs_mono values vals ins specs :
  input_specs values ins = Ret specs -> input_specs (values ++ vals) ins = Ret specs.
Proof.
  rewrite !input_specs_ret. intros H. eapply Forall2_impl; [exact H|].
  intros v s (x & Hx & <-). exists x. split; [|done]. by apply lookup_app_l_Some.
Qed.

Lemma node_valid_mono values vals i n schema specs derived bs :
  node_valid values i n schema specs derived bs ->
  node_valid (values ++ vals) i n schema specs derived bs.
Proof.
  intros []. split; try done.
  - intros k port v Hp Hv. destruct (nv_inputs0 k port v Hp Hv) as (x & Hx & HH).
    exists x. split; [|done]. by apply lookup_app_l_Some.
  - by apply input_specs_mono.
  - intros k port v s Hp Hv Hs. destruct (nv_outputs0 k port v s Hp Hv Hs) as (x & Hx & HH).
    exists x. split; [|done]. by apply lookup_app_l_Some.
  - eapply Forall2_impl; [exact nv_bindings0|]. intros v b (x & Hx & <-). exists x.
    split; [|done]. by apply lookup_app_l_Some.
  - by apply state_bindings_mono.
Qed.

(** ** Validated graphs *)

Definition output_valid (values : list GraphValue) (v : nat) : Prop :=
  exists x, values !! v = Some x /\
    ((payload x = ActivationValue /\ producer x <> None) \/ exists b, payload x = ConstantValue b).

Record graph_valid (g : ModelGraph) : Prop := {
  gv_inputs : forall v, v ∈ inputs_ g -> is_Some (values_ g !! v);
  gv_outputs : forall v, v ∈ outputs_ g -> output_valid (values_ g) v;
  gv_values : forall v x, values_ g !! v = Some x -> value_ok (nodes_ g) v x;
  gv_nodes : forall i n, nodes_ g !! i = Some n ->
    exists schema specs derived bs, node_valid (values_ g) i n schema specs derived bs }.

Lemma res_iter_elem {A} (f : A -> Res unit) l :
  res_iter f l = Ret tt <-> forall x, x ∈ l -> f x = Ret tt.
Proof.
  rewrite res_iter_ret, Forall_lookup. split.
  - intros H x Hx. apply list_elem_of_lookup_1 in Hx as [k Hk]. by eapply H.
  - intros H k x Hk. by apply H, (list_elem_of_lookup_2 _ k).
Qed.

Lemma validate_structure_valid g : validate_structure g = Ret tt <-> graph_valid g.
Proof.
  assert (H1 : validate_graph_inputs g = Ret tt <-> forall v, v ∈ inputs_ g -> is_Some (values_ g !! v)).
  { unfold validate_graph_inputs, IsValidValueId. rewrite res_iter_elem. apply forall_proper. intros v.
    by rewrite reject_if_ret, negb_false_iff, Nat.ltb_lt, lookup_lt_is_Some. }
  assert (H2 : validate_graph_outputs g = Ret tt <-> forall v, v ∈ outputs_ g -> output_valid (values_ g) v).
  { unfold validate_graph_outputs, output_valid. rewrite res_iter_elem. apply forall_proper. intros v.
    apply forall_proper. intros _. destruct (values_ g !! v) as [x|]; [|split; [done|by intros (? & ? & _)]].
    destruct (payload x) eqn:Hp; try (split; [done|]; intros (x' & [= <-] & [[? _]|[b ?]]); congruence).
    - rewrite reject_if_ret, bool_decide_eq_false. split.
      + intros Hne. exists x. auto.
      + intros (x' & [= <-] & [[_ ?]|[b ?]]); congruence.
    - split; [intros _; exists x; eauto|done]. }
  unfold validate_structure, validate_values. split.
  - intros H. res_inv. rewrite for_each_ret in Hm1. rewrite for_each_ret in H. split; [by apply H1|by apply H2|done|].
    intros i n Hn. by apply validate_node_valid, H.
  - intros []. rewrite (proj2 H1), (proj2 H2) by done. simpl.
    rewrite (proj2 (for_each_ret _ (values_ g))) by exact gv_values0. simpl. apply for_each_ret.
    intros i n Hn. by apply validate_node_valid, gv_nodes0.
Qed.

Lemma validate_sound_of g order :
  ValidateAndTopologicalOrder g = Ret order -> schedule g order /\ graph_valid g.
Proof.
  unfold ValidateAndTopologicalOrder. intros H. res_inv.
  pose proof (TopologicalOrder_outcome g) as HT. rewrite H in HT.
  split; [done|]. by apply validate_structure_valid.
Qed.

(** What a successful validation establishes. The returned order is a
    schedule; graph inputs and outputs exist and outputs are produced activations
    or constants; producer links agree with output lists; and every node fits
    its operator schema: port counts, payload kinds, weight slots, state
    bindings, and stored output specs and runtime checks equal to what inference
    derives again from the stored input specs. *)
Theorem validate_sound g order :
  ValidateAndTopologicalOrder g = Ret order -> schedule g order /\ graph_valid g.
Proof. apply validate_sound_of. Qed.

(** ** From [AddNode]'s checks to [Validate]'s *)

Definition state_or_activation (s : OperatorSchema) : Prop :=
  Forall (fun p => out_kind p = OperatorPortKind.kActivation \/ out_kind p = OperatorPortKind.kState)
    (output_ports s).

Lemma all_output_kinds : Forall state_or_activation kOperatorSchemas.
Proof.
  apply (bool_decide_unpack (Forall (fun s => Forall (fun p => out_kind p = OperatorPortKind.kActivation \/
    out_kind p = OperatorPortKind.kState) (output_ports s)) kOperatorSchemas)). vm_compute. exact I.
Qed.

Lemma output_kinds o schema port :
  GetOperatorSchema o = Ret schema -> port ∈ output_ports schema ->
  out_kind port = OperatorPortKind.kActivation \/ out_kind port = OperatorPortKind.kState.
Proof.
  intros Hs Hp. pose proof all_output_kinds as HF. unfold state_or_activation in HF.
  unfold GetOperatorSchema in Hs. destruct (List.find _ _) as [s|] eqn:E; [|done]. res_inv.
  apply find_some in E as [Hin _]. rewrite List.Forall_forall in HF. specialize (HF _ Hin).
  rewrite List.Forall_forall in HF. apply HF. by apply list_elem_of_In.
Qed.

Section NewNode.
Context (g : ModelGraph) (o : OpType.t) (layer : option nat) (ins : list nat)
  (outs : list NodeOutputDesc) (p : OpParams) (a : list Z) (name : string)
  (ids : list nat) (vals : list GraphValue) (checks : list ShapeConstraint)
  (schema : OperatorSchema) (inferred : InferenceResult).
Context (HP : prepared g o layer ins outs p a ids vals checks schema inferred).

Lemma new_input_ok k port v :
  input_ports schema !! k = Some port -> ins !! k = Some v ->
  input_ok (values_ g) (ExpectedWeightSlotForOp o) port v.
Proof.
  intros Hport Hv.
  assert (Hz : zip (input_ports schema) ins !! k = Some (port, v)) by (by apply lookup_zip_Some).
  pose proof (pr_ports _ _ _ _ _ _ _ _ _ _ _ _ HP) as H1. unfold ValidateAddNodePorts in H1. res_inv.
  rewrite for_each_ret in Hm1. specialize (Hm1 _ _ Hz). unfold check_input_port in Hm1.
  pose proof (pr_bindings _ _ _ _ _ _ _ _ _ _ _ _ HP) as H2. unfold ValidateAddNodeBindings in H2. res_inv.
  rewrite for_each_ret in Hm2. specialize (Hm2 _ _ Hz). unfold check_input_binding, vec_at, get_weight in Hm2.
  destruct (values_ g !! v) as [x|] eqn:Hx; [|done]. res_inv. bsplit.
  exists x. split_and!; [done|done|]. intros b s Hb Hs. rewrite Hs, Hb in *.
  destruct (in_kind port); try done. simpl in Hm2. res_inv. bsplit.
  rewrite Hb in Hm3. injection Hm3 as <-. by apply dec_stable.
Qed.

Lemma new_output k d s port :
  outs !! k = Some d -> outputs inferred !! k = Some s -> output_ports schema !! k = Some port ->
  (values_ g ++ vals) !! (length (values_ g) + k)%nat = Some (stage_value (length (nodes_ g)) d s) /\
  PayloadMatchesPort (normalize_payload (desc_payload d)) (out_kind port) = true.
Proof.
  intros Hd Hs Hport. rewrite (pr_vals _ _ _ _ _ _ _ _ _ _ _ _ HP). split.
  - rewrite lookup_app_r by lia. rewrite Nat.add_comm, Nat.add_sub. apply lookup_zip_with_Some. eauto.
  - pose proof (pr_ports _ _ _ _ _ _ _ _ _ _ _ _ HP) as H1. unfold ValidateAddNodePorts in H1. res_inv.
    rewrite for_each_ret in H1. specialize (H1 k (port, d) (proj2 (lookup_zip_Some _ _ _ _ _) (conj Hport Hd))).
    unfold check_output_port in H1. res_inv. by bsplit.
Qed.

Lemma new_bindings :
  bindings_of (values_ g ++ vals) ids (map (fun d => state_binding_of (desc_payload d)) outs).
Proof.
  pose proof (pr_ids _ _ _ _ _ _ _ _ _ _ _ _ HP) as Hids.
  pose proof (pr_inferred _ _ _ _ _ _ _ _ _ _ _ _ HP) as Hl.
  pose proof (pr_out_arity _ _ _ _ _ _ _ _ _ _ _ _ HP) as Hl2.
  apply Forall2_same_length_lookup. rewrite Hids, length_seq, length_map. split; [done|].
  intros k v b Hv Hb. apply lookup_seq in Hv as [-> Hk].
  rewrite list_lookup_fmap in Hb. destruct (outs !! k) as [d|] eqn:Hd; [|done]. injection Hb as <-.
  destruct (lookup_lt_is_Some_2 (outputs inferred) k) as [s Hs]; [lia|].
  destruct (lookup_lt_is_Some_2 (output_ports schema) k) as [port Hport]; [lia|].
  destruct (new_output k d s port Hd Hs Hport) as [Hx _]. eexists. split; [exact Hx|].
  simpl. by destruct (desc_payload d).
Qed.

Lemma new_node_valid :
  Forall (fun s => spec_equal s s = Ret true) (outputs inferred) ->
  exists specs bs, node_valid (values_ g ++ vals) (length (nodes_ g))
    (mkNode o layer ins ids a p checks name) schema specs inferred bs.
Proof.
  intros Hcmp. pose proof new_bindings as HB. pose proof new_input_ok as HI. pose proof new_output as HO.
  destruct HP. destruct pr_infer0 as (specs & Hs & Hr). exists specs. eexists.
  split; simpl; [..|exact HB|]; try done.
  - rewrite pr_ids0, length_seq. done.
  - intros k port v Hport Hv. destruct (HI k port v Hport Hv) as (x & Hx & HH).
    exists x. split; [|done]. by apply lookup_app_l_Some.
  - by apply input_specs_mono.
  - by rewrite pr_ids0, length_seq.
  - intros k port v s Hport Hv Hsp. rewrite pr_ids0 in Hv. apply lookup_seq in Hv as [-> Hk].
    destruct (lookup_lt_is_Some_2 outs k Hk) as [d Hd].
    destruct (HO k d s port Hd Hsp Hport) as [Hx Hm]. eexists. split_and!; [exact Hx|done|done|].
    by apply (Forall_lookup_1 _ _ _ _ Hcmp Hsp).
  - rewrite pr_checks0. apply Forall_Forall2_diag, Forall_true. intros c.
    unfold ShapeConstraintsEquivalent. by rewrite !bool_decide_true.
  - intros v Hv Hin. rewrite pr_ids0 in Hv. apply elem_of_seq in Hv.
    destruct (ports_inputs_valid _ _ _ _ v pr_in_arity0 pr_ports0 Hin) as [x Hx].
    apply lookup_lt_Some in Hx. lia.
  - apply state_bindings_mono. unfold ValidateAddNodeBindings in pr_bindings0. res_inv. done.
Qed.

Lemma new_value_ok k x :
  Forall (fun d => forall b, desc_payload d <> ConstantValue b) outs ->
  vals !! k = Some x ->
  value_ok (nodes_ g ++ [mkNode o layer ins ids a p checks name]) (length (values_ g) + k) x.
Proof.
  intros Hnc Hx. pose proof new_output as HO. destruct HP. rewrite pr_vals0 in Hx.
  apply lookup_zip_with_Some in Hx as (d & s & -> & Hd & Hs).
  destruct (lookup_lt_is_Some_2 (output_ports schema) k) as [port Hport];
    [rewrite <- pr_out_arity0; by eapply lookup_lt_Some|].
  destruct (HO k d s port Hd Hs Hport) as [_ Hm].
  pose proof (Forall_lookup_1 _ _ _ _ Hnc Hd) as Hc. simpl in Hc.
  pose proof (output_kinds o schema port pr_schema0 (list_elem_of_lookup_2 _ _ _ Hport)) as Hk.
  assert (HL : forall m1 m2, producer_lists (nodes_ g ++ [mkNode o layer ins ids a p checks name])
    (length (nodes_ g)) (length (values_ g) + k) m1 m2 = Ret tt).
  { intros m1 m2. apply producer_lists_ret. eexists. rewrite lookup_app_r, Nat.sub_diag by lia.
    split; [done|]. simpl. rewrite pr_ids0. apply elem_of_seq. apply lookup_lt_Some in Hd. lia. }
  unfold value_ok, ValidateValueSelfConsistency. simpl.
  destruct (normalize_payload (desc_payload d)) eqn:Hn; simpl.
  1,2,4: by destruct Hk as [Hk|Hk]; rewrite Hk in Hm.
  - apply HL.
  - destruct (desc_payload d); simpl in Hn; try discriminate Hn. injection Hn as ->. by destruct (Hc binding).
  - destruct binding as [l []| |]; apply HL.
Qed.
End NewNode.

Lemma valid_input g i n v :
  graph_valid g -> nodes_ g !! i = Some n -> v ∈ node_inputs n -> is_Some (values_ g !! v).
Proof.
  intros HV Hn Hv. destruct (gv_nodes g HV _ _ Hn) as (schema & specs & derived & bs & HN).
  apply list_elem_of_lookup_1 in Hv as [k Hk].
  destruct (lookup_lt_is_Some_2 (input_ports schema) k) as [port Hp];
    [rewrite <- (nv_in_arity _ _ _ _ _ _ _ HN); by eapply lookup_lt_Some|].
  destruct (nv_inputs _ _ _ _ _ _ _ HN k port v Hp Hk) as (x & Hx & _). by eexists.
Qed.

Lemma valid_not_ill_linked g : graph_valid g -> ~ ill_linked g.
Proof.
  intros HV (c & n & v & Hc & Hv & [Hnone|(x & Hx & Hdep & Hp)]).
  - destruct (valid_input g c n v HV Hc Hv). congruence.
  - assert (exists p, producer x = Some p) as [p Hpx].
    { unfold CarriesProducerDependency in Hdep. pose proof (gv_values g HV _ _ Hx) as Hok.
      unfold value_ok, ValidateValueSelfConsistency in Hok. destruct (payload x); try done.
      - destruct (producer x); [eauto|done].
      - bsplit. destruct (producer x); [eauto|done]. }
    destruct (value_ok_producer _ _ _ _ (gv_values g HV _ _ Hx) Hpx) as (_ & n' & Hn' & _).
    specialize (Hp p Hpx). congruence.
Qed.

(** Appending a node that reads only old values extends every schedule. *)
Lemma schedule_extend g n vals order :
  graph_valid g -> schedule g order ->
  (forall v, v ∈ node_inputs n -> is_Some (values_ g !! v)) ->
  schedule (mkGraph (nodes_ g ++ [n]) (values_ g ++ vals) (inputs_ g) (outputs_ g))
    (order ++ [length (nodes_ g)]).
Proof.
  intros HV [Hp Hs] Hin. split.
  { cbn [nodes_]. rewrite length_app. cbn [length]. by rewrite Nat.add_1_r, seq_S, Hp. }
  assert (Hold : forall v x, is_Some (values_ g !! v) -> (values_ g ++ vals) !! v = Some x ->
    values_ g !! v = Some x).
  { intros v x [y Hy] Hx. rewrite (lookup_app_l_Some _ _ _ _ Hy) in Hx. congruence. }
  intros l1 c l2 Heq p (m & v & x & Hc & Hv & Hx & Hdep & Hpx). simpl in *.
  destruct l2 as [|y l2 _] using rev_ind.
  - apply app_inj_tail in Heq as [<- <-]. rewrite lookup_app_r, Nat.sub_diag in Hc by lia.
    injection Hc as <-. specialize (Hold v x (Hin v Hv) Hx).
    destruct (value_ok_producer _ _ _ _ (gv_values g HV _ _ Hold) Hpx) as (_ & n' & Hn' & _).
    rewrite Hp. apply elem_of_seq. apply lookup_lt_Some in Hn'. lia.
  - rewrite app_comm_cons, app_assoc in Heq. apply app_inj_tail in Heq as [Heq _].
    apply (Hs l1 c l2 Heq).
    assert (Hcn : (c < length (nodes_ g))%nat).
    { assert (c ∈ seq 0 (length (nodes_ g))) as Hcs by (rewrite <- Hp, Heq; apply elem_of_app; right; left).
      apply elem_of_seq in Hcs. lia. }
    rewrite lookup_app_l in Hc by done. exists m, v, x. split_and!; try done.
    apply Hold; [|done]. by eapply valid_input.
Qed.

Lemma append_valid g n vals :
  graph_valid g ->
  (exists schema specs derived bs,
     node_valid (values_ g ++ vals) (length (nodes_ g)) n schema specs derived bs) ->
  (forall k x, vals !! k = Some x -> value_ok (nodes_ g ++ [n]) (length (values_ g) + k) x) ->
  graph_valid (mkGraph (nodes_ g ++ [n]) (values_ g ++ vals) (inputs_ g) (outputs_ g)).
Proof.
  intros HV Hn Hv. split; simpl.
  - intros v Hin. destruct (gv_inputs g HV v Hin) as [x Hx]. exists x. by apply lookup_app_l_Some.
  - intros v Hin. destruct (gv_outputs g HV v Hin) as (x & Hx & HH). exists x.
    split; [by apply lookup_app_l_Some|done].
  - intros v x Hx. apply lookup_app_Some in Hx as [Hx|[Hge Hx]].
    + by apply value_ok_mono, (gv_values g HV).
    + specialize (Hv _ _ Hx). by replace (length (values_ g) + (v - length (values_ g)))%nat with v in Hv by lia.
  - intros i m Hi. apply lookup_app_Some in Hi as [Hi|[Hge Hi]].
    + destruct (gv_nodes g HV i m Hi) as (schema & specs & derived & bs & HN).
      exists schema, specs, derived, bs. by apply node_valid_mono.
    + apply list_lookup_singleton_Some in Hi as [Hi <-].
      replace i with (length (nodes_ g)) by lia. done.
Qed.

(** The element type can be compared at all (a fixed number of lanes). *)
Definition comparable (x : GraphValue) : Prop := spec_equal (spec x) (spec x) = Ret true.

Lemma AddNode_graph_valid g o layer ins outs p a name added g' :
  graph_valid g -> AddNode g o layer ins outs p a name = (Ret added, g') ->
  Forall (fun d => forall b, desc_payload d <> ConstantValue b) outs ->
  (forall v x, v ∈ added_outputs added -> values_ g' !! v = Some x -> comparable x) -> graph_valid g'.
Proof.
  intros HV HA Hnc Hcmp. unfold AddNode in HA.
  destruct (prepare_node g o layer ins outs p a name) as [[[[i ids] vals] checks]|e|w] eqn:HP; [|done..].
  apply prepare_node_ret in HP as (-> & schema & r & HP). injection HA as <- <-. simpl in Hcmp.
  apply append_valid; [done| |intros k x Hx; by eapply new_value_ok].
  edestruct new_node_valid as (specs & bs & HN); [exact HP| |by eexists _, _, _, _].
  apply Forall_lookup_2. intros k s Hs. destruct HP.
  destruct (lookup_lt_is_Some_2 outs k) as [d Hd]; [rewrite <- pr_inferred0; by eapply lookup_lt_Some|].
  apply (Hcmp (length (values_ g) + k)%nat (stage_value (length (nodes_ g)) d s)).
  - rewrite pr_ids0. apply elem_of_seq. apply lookup_lt_Some in Hd. lia.
  - rewrite pr_vals0, lookup_app_r, Nat.add_comm, Nat.add_sub by lia. apply lookup_zip_with_Some. eauto.
Qed.

(** A value without a producer that is consistent in itself. *)
Lemma append_value_valid g x : graph_valid g -> value_ok (nodes_ g) (length (values_ g)) x ->
  graph_valid (mkGraph (nodes_ g) (values_ g ++ [x]) (inputs_ g) (outputs_ g)).
Proof.
  intros HV Hx. split; simpl.
  - intros v Hin. destruct (gv_inputs g HV v Hin) as [y Hy]. exists y. by apply lookup_app_l_Some.
  - intros v Hin. destruct (gv_outputs g HV v Hin) as (y & Hy & HH). exists y. split; [by apply lookup_app_l_Some|done].
  - intros v y Hy. apply lookup_app_Some in Hy as [Hy|[Hge Hy]]; [by apply (gv_values g HV)|].
    apply list_lookup_singleton_Some in Hy as [Hk <-]. by replace v with (length (values_ g)) by lia.
  - intros i m Hi. destruct (gv_nodes g HV i m Hi) as (schema & specs & derived & bs & HN).
    exists schema, specs, derived, bs. by apply node_valid_mono.
Qed.

Lemma empty_valid : graph_valid empty_graph.
Proof. split; simpl; intros *; rewrite ?lookup_nil; try done; intros H; by apply not_elem_of_nil in H. Qed.

(** Well-formed and locally valid graphs pass the whole-graph validation. *)
Lemma valid_wf_validates g : graph_valid g -> graph_wf g ->
  exists order, ValidateAndTopologicalOrder g = Ret order /\ schedule g order.
Proof.
  intros HV HW. destruct (sort_total g (valid_not_ill_linked _ HV)) as (order & HT & Hs); [eexists; by apply wf_schedule|].
  exists order. split; [|done]. unfold ValidateAndTopologicalOrder. by rewrite (proj2 (validate_structure_valid _) HV).
Qed.

(** C14: The checks of [AddNode] are enough for [Validate], with two exceptions. If a graph
    validates and [AddNode] accepts a node none of whose outputs is declared a
    [ConstantValue] and all of whose outputs have an element type that can be compared
    (not a scalable one), the new graph validates again: nothing else the whole-graph
    pass checks was left open by the builder. An output declared a constant is accepted
    and never validates ([constant_output_never_validates]). *)
Theorem AddNode_keeps_valid g order o layer ins outs p a name added g' :
  ValidateAndTopologicalOrder g = Ret order ->
  AddNode g o layer ins outs p a name = (Ret added, g') ->
  Forall (fun d => forall b, desc_payload d <> ConstantValue b) outs ->
  (forall v x, v ∈ added_outputs added -> values_ g' !! v = Some x -> comparable x) ->
  exists order', ValidateAndTopologicalOrder g' = Ret order' /\ schedule g' order'.
Proof.
  intros HVal HA Hnc Hcmp.
  assert (HV : schedule g order /\ graph_valid g).
  { unfold ValidateAndTopologicalOrder in HVal. res_inv.
    pose proof (TopologicalOrder_outcome g) as HT. rewrite HVal in HT.
    split; [done|]. by apply validate_structure_valid. }
  destruct HV as [Hsch HV]. pose proof (AddNode_graph_valid _ _ _ _ _ _ _ _ _ _ HV HA Hnc Hcmp) as HV'. unfold AddNode in HA.
  destruct (prepare_node g o layer ins outs p a name) as [[[[i ids] vals] checks]|e|w] eqn:HP; [|done..].
  apply prepare_node_ret in HP as (-> & schema & r & HP). injection HA as <- <-.
  destruct (sort_total _ (valid_not_ill_linked _ HV')) as (order' & HT & Hs').
  { eexists. apply schedule_extend; [done|exact Hsch|]. simpl. intros v Hv.
    destruct HP. by eapply ports_inputs_valid. }
  exists order'. split; [|done]. unfold ValidateAndTopologicalOrder.
  rewrite (proj2 (validate_structure_valid _) HV'). exact HT.
Qed.

Definition never_validates (g : ModelGraph) : Prop :=
  forall order, ValidateAndTopologicalOrder g <> Ret order.

(** A node whose output is declared as a constant on an activation port is
    accepted by [AddNode] and stored with a producer, after which no validation
    of the graph can succeed: constants must not have producers. *)
Theorem constant_output_never_validates g o layer ins outs p a name added g' k d b :
  AddNode g o layer ins outs p a name = (Ret added, g') ->
  outs !! k = Some d -> desc_payload d = ConstantValue b -> never_validates g'.
Proof.
  intros HA Hd Hb order HVal. unfold ValidateAndTopologicalOrder in HVal. res_inv.
  apply validate_structure_valid in Hm as HV. unfold AddNode in HA.
  destruct (prepare_node g o layer ins outs p a name) as [[[[i ids] vals] checks]|e|w] eqn:HP; [|done..].
  apply prepare_node_ret in HP as (-> & schema & r & []). injection HA as <- <-.
  destruct (lookup_lt_is_Some_2 (outputs r) k) as [s Hs];
    [rewrite pr_inferred0; by eapply lookup_lt_Some|].
  assert (Hx : (values_ g ++ vals) !! (length (values_ g) + k)%nat = Some (stage_value (length (nodes_ g)) d s)).
  { rewrite pr_vals0, lookup_app_r, Nat.add_comm, Nat.add_sub by lia. apply lookup_zip_with_Some. eauto. }
  destruct (value_ok_producer _ _ _ (length (nodes_ g)) (gv_values _ HV _ _ Hx) eq_refl) as [[Hp|[b' Hp]] _];
    simpl in Hp; by rewrite Hb in Hp.
Qed.
End Builders.

(** ** The consumer index *)

(** Node [i] once per occurrence of [v] among the inputs, nodes in order. *)
Fixpoint consumers_from (i : nat) (nodes : list GraphNode) (v : nat) : list nat :=
  match nodes with
  | [] => []
  | n :: nodes' => replicate (count_occ Nat.eq_dec (node_inputs n) v) i ++ consumers_from (S i) nodes' v
  end.

Lemma index_inputs_spec i ins : forall index,
  match index_inputs i ins index with
  | Ret index' => (length index' = length index)%nat /\
      forall v l, index !! v = Some l -> index' !! v = Some (l ++ replicate (count_occ Nat.eq_dec ins v) i)
  | Fail _ => exists v, v ∈ ins /\ index !! v = None
  | Panic _ => False
  end.
Proof.
  induction ins as [|w ins IH]; intros index; simpl.
  { split; [done|]. intros v l Hv. by rewrite app_nil_r. }
  destruct (index !! w) as [lw|] eqn:Hw; [|exists w; split; [left|done]].
  specialize (IH (<[w := lw ++ [i]]> index)).
  destruct (index_inputs i ins _) as [index'|e|]; [| |done].
  - destruct IH as [Hl IH]. rewrite length_insert in Hl. split; [done|]. intros v l Hv.
    destruct (Nat.eq_dec w v) as [->|Hne].
    + assert (l = lw) as -> by congruence. rewrite (IH v (lw ++ [i])), <- app_assoc;
        [done|]. apply list_lookup_insert_eq. by eapply lookup_lt_Some.
    + apply IH. by rewrite list_lookup_insert_ne.
  - destruct IH as (v & Hv & Hn). exists v. split; [by right|].
    apply lookup_ge_None in Hn. rewrite length_insert in Hn. by apply lookup_ge_None.
Qed.

Lemma index_nodes_spec nodes : forall i index,
  match index_nodes i nodes index with
  | Ret index' => (length index' = length index)%nat /\
      forall v l, index !! v = Some l -> index' !! v = Some (l ++ consumers_from i nodes v)
  | Fail _ => exists k n v, nodes !! k = Some n /\ v ∈ node_inputs n /\ index !! v = None
  | Panic _ => False
  end.
Proof.
  induction nodes as [|n nodes IH]; intros i index; simpl.
  { split; [done|]. intros v l Hv. by rewrite app_nil_r. }
  pose proof (index_inputs_spec i (node_inputs n) index) as Hi.
  destruct (index_inputs i (node_inputs n) index) as [index1|e|]; simpl; [| |done].
  2: { destruct Hi as (v & Hv & Hn). by exists 0%nat, n, v. }
  destruct Hi as [Hl1 Hi]. specialize (IH (S i) index1).
  destruct (index_nodes (S i) nodes index1) as [index2|e|]; [| |done].
  - destruct IH as [Hl2 IH]. split; [congruence|]. intros v l Hv.
    rewrite (IH _ _ (Hi _ _ Hv)). by rewrite <- app_assoc.
  - destruct IH as (k & m & v & Hk & Hv & Hn). exists (S k), m, v. split_and!; [done|done|].
    apply lookup_ge_None. rewrite <- Hl1. by apply lookup_ge_None.
Qed.

(** [BuildConsumerIndex] lists for every value exactly the nodes that read
    it, in node order and once per occurrence among a node's inputs, and fails
    exactly when a node reads an id outside the value table; [GetConsumers] of an
    unknown id is empty. *)
Theorem BuildConsumerIndex_exact g :
  match BuildConsumerIndex g with
  | Ret index => (length index = length (values_ g))%nat /\
      (forall v, GetConsumers index v =
         if decide (v < length (values_ g))%nat then consumers_from 0 (nodes_ g) v else [])
  | Fail _ => exists i n v, nodes_ g !! i = Some n /\ v ∈ node_inputs n /\ values_ g !! v = None
  | Panic _ => False
  end.
Proof.
  unfold BuildConsumerIndex.
  pose proof (index_nodes_spec (nodes_ g) 0 (replicate (length (values_ g)) [])) as H.
  destruct (index_nodes _ _ _) as [index|e|]; [| |done].
  - destruct H as [Hl H]. rewrite length_replicate in Hl. split; [done|]. intros v.
    unfold GetConsumers. destruct (decide _) as [Hv|Hv].
    + by rewrite (H v []) by (by apply lookup_replicate_2).
    + rewrite (proj2 (lookup_ge_None index v)); [done|lia].
  - destruct H as (k & n & v & Hk & Hv & Hn). exists k, n, v. split_and!; [done|done|].
    apply lookup_ge_None in Hn. rewrite length_replicate in Hn. by apply lookup_ge_None.
Qed.

(** ** Witnesses *)

Definition demo_spec : TensorSpec := mkSpec DataType.Float32 (Some [mkSym 4]).
Definition demo_base : ModelGraph :=
  (AddConstant (AddConstant empty_graph demo_spec (mkConstantBinding None "a") "a").2
     demo_spec (mkConstantBinding None "b") "b").2.
Definition demo_node (d : NodeOutputDesc) : Res AddedNode * ModelGraph :=
  AddNode demo_base OpType.kAdd None [0; 1]%nat [d] AddParams [] "sum".
Definition activation_desc : NodeOutputDesc := mkOutputDesc PayloadNone default_quant "y".
Definition constant_desc : NodeOutputDesc :=
  mkOutputDesc (ConstantValue (mkConstantBinding None "y")) default_quant "y".

Lemma reachable_sorts_witness :
  exists order, TopologicalOrder (demo_node activation_desc).2 = Ret order.
Proof.
  destruct (reachable_sorts (demo_node activation_desc).2) as (_ & order & Ho & _); [|by exists order].
  unfold demo_node, demo_base. eapply rtc_l; [apply step_constant|].
  eapply rtc_l; [apply step_constant|]. eapply rtc_l; [apply step_node|]. apply rtc_refl.
Defined.

Lemma validate_sound_witness : graph_valid (demo_node activation_desc).2.
Proof. apply (validate_sound (demo_node activation_desc).2 [0%nat]). vm_compute. reflexivity. Defined.

Lemma AddNode_keeps_valid_witness :
  exists order, ValidateAndTopologicalOrder (demo_node activation_desc).2 = Ret order.
Proof.
  destruct (AddNode_keeps_valid demo_base [] OpType.kAdd None [0; 1]%nat [activation_desc] AddParams [] "sum"
    (mkAdded 0 [2%nat]) (demo_node activation_desc).2) as (order & Ho & _); [..|by exists order].
  - vm_compute. reflexivity.
  - vm_compute. reflexivity.
  - constructor; [|constructor]. intros b. discriminate.
  - intros v x Hv Hx. apply list_elem_of_singleton in Hv as ->. vm_compute in Hx.
    injection Hx as <-. vm_compute. reflexivity.
Defined.

Lemma constant_output_never_validates_witness :
  never_validates (demo_node constant_desc).2.
Proof.
  apply (constant_output_never_validates demo_base OpType.kAdd None [0; 1]%nat [constant_desc] AddParams []
    "sum" (mkAdded 0 [2%nat]) (demo_node constant_desc).2 0 constant_desc (mkConstantBinding None "y")).
  - vm_compute. reflexivity.
  - reflexivity.
  - reflexivity.
Defined.
