(* ===== verification/RewriteSession.v ===== *)
(** * RewriteSession: editing a model graph through a rewrite session

    [graph_rewrite.h] and the session part of
    [src/graph/optimization/graph_rewrite.cpp]: value kinds, value resolution with
    its path-compressing cache, the edits, the read-only views, the consumer index
    and the whole of [ValidateEdits]. Materialization is in [RewriteCommit], the
    theory of resolution in [RewriteResolve], the session invariant in
    [RewriteInvariant].

    The two [mutable] members written by [const] methods are part of the state:
    [GetResolvedValue] and [EnsureConsumerCache] return the session with the cache
    they leave behind. The readers built on them keep only the answer; that the
    answer never depends on the cache is proved in [RewriteResolve] and
    [RewriteInvariant]. Diagnostics keep their wording; the renderings of types and
    shapes some of them append are left out. *)
From S2P Require Import Prelude DataTypes ShapeSymbol ShapeConstraint OperatorSchema Graph Topology.

(** ** Data *)

(* @src include/aethermind/graph/optimization/graph_rewrite.h:63-66 RewriteOutputBinding *)
Record RewriteOutputBinding := mkBinding { desc : NodeOutputDesc; replaces : option nat }.

(* @src include/aethermind/graph/optimization/graph_rewrite.h:73-81 ReplacementNode *)
Record ReplacementNode := mkReplacement {
  rn_op_type : OpType.t; rn_layer : option nat; rn_inputs : list nat;
  rn_outputs : list RewriteOutputBinding; rn_attrs : list Z; rn_op_params : OpParams;
  rn_name : string }.

(* @src include/aethermind/graph/optimization/graph_rewrite.h:40-95 GraphMutation *)
Inductive GraphMutation :=
| SubgraphReplacement (old_nodes : list nat) (replacement_nodes : list ReplacementNode)
| NodeRemoval (node : nat)
| InputRedirection (node input_index new_value : nat)
| ValueReplacement (old_value new_value : nat).

(* @src include/aethermind/graph/optimization/graph_rewrite.h:103-112 GraphNodeView *)
Record GraphNodeView := mkView {
  view_node : nat; view_op_type : OpType.t; view_layer : option nat; view_inputs : list nat;
  view_outputs : list nat; view_attrs : list Z; view_op_params : OpParams; view_name : string }.

(* @src include/aethermind/graph/graph_types.h:269-274 GraphValueDesc *)
Record GraphValueDesc := mkValueDesc {
  vd_spec : TensorSpec; vd_payload : GraphValuePayload; vd_quantization : QuantizationSpec;
  vd_name : string }.

(* @src include/aethermind/graph/optimization/graph_rewrite.h:409-416 RewriteEntry *)
Record RewriteEntry := mkRewrite {
  old_nodes : list nat; replacements : list ReplacementNode; active : bool;
  exposes_node_view : bool }.

(* @src include/aethermind/graph/optimization/graph_rewrite.h:419-424 SessionConstant *)
Record SessionConstant := mkSessionConstant {
  sc_spec : TensorSpec; sc_binding : ConstantBinding; sc_quantization : QuantizationSpec;
  sc_name : string }.

Module ValueKind.
(* @src include/aethermind/graph/optimization/graph_rewrite.h:426-431 ValueKind *)
Inductive t := kSource | kSessionConstant | kSessionVirtual | kInvalid.
#[global] Instance eq_dec : EqDecision t.
Proof. solve_decision. Defined.
End ValueKind.

(* @src include/aethermind/graph/optimization/graph_rewrite.h:444-448 ConsumerCache *)
Record ConsumerCache := mkConsumerCache {
  generation : Z; original_consumers : list (list nat); replacement_consumer_counts : list Z }.

(* @src include/aethermind/graph/optimization/graph_rewrite.h:551-572 GraphRewriteSession (state) *)
Record Session := mkSession {
  graph_ : ModelGraph;
  session_value_metadata_ : list (option SessionConstant);
  rewrites_ : list RewriteEntry;
  node_to_rewrite_ : list (option nat);
  value_replacements_ : list (option nat);
  mutation_generation_ : Z;
  resolved_value_cache_ : list (option nat);
  consumer_cache_ : option ConsumerCache }.

(* @src src/graph/optimization/graph_rewrite.cpp:76-80 GraphRewriteSession::GraphRewriteSession *)
Definition new_session (g : ModelGraph) : Session :=
  mkSession g [] [] (replicate (length (nodes_ g)) None) (replicate (length (values_ g)) None)
    0 (replicate (length (values_ g)) None) None.

(** Member updates. *)
Definition with_rewrites (s : Session) (r : list RewriteEntry) (n : list (option nat)) : Session :=
  mkSession (graph_ s) (session_value_metadata_ s) r n (value_replacements_ s)
    (mutation_generation_ s) (resolved_value_cache_ s) (consumer_cache_ s).
Definition with_metadata (s : Session) (m : list (option SessionConstant)) : Session :=
  mkSession (graph_ s) m (rewrites_ s) (node_to_rewrite_ s) (value_replacements_ s)
    (mutation_generation_ s) (resolved_value_cache_ s) (consumer_cache_ s).
Definition with_replacements (s : Session) (r c : list (option nat)) : Session :=
  mkSession (graph_ s) (session_value_metadata_ s) (rewrites_ s) (node_to_rewrite_ s) r
    (mutation_generation_ s) c (consumer_cache_ s).
Definition with_caches (s : Session) (c : list (option nat)) (k : option ConsumerCache) : Session :=
  mkSession (graph_ s) (session_value_metadata_ s) (rewrites_ s) (node_to_rewrite_ s)
    (value_replacements_ s) (mutation_generation_ s) c k.

(* @src src/graph/optimization/graph_rewrite.cpp:1827-1830 GraphRewriteSession::InvalidateConsumerCache *)
Definition InvalidateConsumerCache (s : Session) : Session :=
  mkSession (graph_ s) (session_value_metadata_ s) (rewrites_ s) (node_to_rewrite_ s)
    (value_replacements_ s) (u64 (mutation_generation_ s + 1)) (resolved_value_cache_ s) None.

Definition value_count (s : Session) : nat := length (values_ (graph_ s)).

(** ** Value kinds *)

(* @src include/aethermind/graph/optimization/graph_rewrite.h:479-481 GetSessionValueIndex *)
Definition GetSessionValueIndex (s : Session) (v : nat) : nat := (v - value_count s)%nat.

(* @src src/graph/optimization/graph_rewrite.cpp:1245-1259 GraphRewriteSession::ClassifyValue *)
Definition ClassifyValue (s : Session) (v : nat) : ValueKind.t :=
  if (v <? value_count s)%nat then ValueKind.kSource
  else match session_value_metadata_ s !! GetSessionValueIndex s v with
       | None => ValueKind.kInvalid
       | Some (Some _) => ValueKind.kSessionConstant
       | Some None => ValueKind.kSessionVirtual
       end.

(* @src src/graph/optimization/graph_rewrite.cpp:1261-1264 GraphRewriteSession::IsSessionLocalValue *)
Definition IsSessionLocalValue (s : Session) (v : nat) : bool :=
  bool_decide (ClassifyValue s v = ValueKind.kSessionConstant) ||
  bool_decide (ClassifyValue s v = ValueKind.kSessionVirtual).
(* @src src/graph/optimization/graph_rewrite.cpp:1266-1268 GraphRewriteSession::IsSessionConstant *)
Definition IsSessionConstant (s : Session) (v : nat) : bool :=
  bool_decide (ClassifyValue s v = ValueKind.kSessionConstant).
(* @src src/graph/optimization/graph_rewrite.cpp:1270-1272 GraphRewriteSession::IsSessionVirtualValue *)
Definition IsSessionVirtualValue (s : Session) (v : nat) : bool :=
  bool_decide (ClassifyValue s v = ValueKind.kSessionVirtual).

(* @src src/graph/optimization/graph_rewrite.cpp:1172-1178 GraphRewriteSession::CheckSourceNodeId *)
Definition CheckSourceNodeId (s : Session) (n : nat) : Res unit :=
  reject_if (length (nodes_ (graph_ s)) <=? n)%nat
    (bad "GraphRewriteSession: source node id out of range").

(* @src src/graph/optimization/graph_rewrite.cpp:1187-1198 GraphRewriteSession::CheckNonVirtualValueId *)
Definition CheckNonVirtualValueId (s : Session) (v : nat) : Res unit :=
  match ClassifyValue s v with
  | ValueKind.kSource | ValueKind.kSessionConstant => Ret tt
  | ValueKind.kSessionVirtual =>
      Fail (bad "GraphRewriteSession: virtual value is not allowed in this operation")
  | ValueKind.kInvalid => Fail (bad "GraphRewriteSession: value id out of range")
  end.

(* @src src/graph/optimization/graph_rewrite.cpp:1207-1223 GraphRewriteSession::CheckSourceValueId *)
Definition CheckSourceValueId (s : Session) (v : nat) : Res unit :=
  match ClassifyValue s v with
  | ValueKind.kSource => Ret tt
  | ValueKind.kSessionConstant =>
      Fail (bad "GraphRewriteSession: expected source value id, got session constant")
  | ValueKind.kSessionVirtual =>
      Fail (bad "GraphRewriteSession: expected source value id, got session virtual value")
  | ValueKind.kInvalid => Fail (bad "GraphRewriteSession: value id out of range")
  end.

(* @src src/graph/optimization/graph_rewrite.cpp:1231-1236 GraphRewriteSession::CheckKnownValueId *)
Definition CheckKnownValueId (s : Session) (v : nat) : Res unit :=
  reject_if (bool_decide (ClassifyValue s v = ValueKind.kInvalid))
    (bad "GraphRewriteSession: value id out of range").

(** ** Session-local values *)

Definition next_value_index (s : Session) : nat :=
  (value_count s + length (session_value_metadata_ s))%nat.

Definition append_metadata (s : Session) (m : option SessionConstant) (why : string)
    : Res nat * Session :=
  if Z.of_nat (next_value_index s) <? UINT32_MAX then
    (Ret (next_value_index s),
     InvalidateConsumerCache (with_metadata s (session_value_metadata_ s ++ [m])))
  else (Panic why, s).

(* @src src/graph/optimization/graph_rewrite.cpp:90-99 GraphRewriteSession::AllocateVirtualValue *)
Definition AllocateVirtualValue (s : Session) : Res nat * Session :=
  append_metadata s None "Graph virtual value id space exhausted".

(* @src src/graph/optimization/graph_rewrite.cpp:108-123 GraphRewriteSession::AddSessionConstant *)
Definition AddSessionConstant (s : Session) (sp : TensorSpec) (b : ConstantBinding)
    (q : QuantizationSpec) (name : string) : Res nat * Session :=
  append_metadata s (Some (mkSessionConstant sp b q name))
    "Graph session constant value id space exhausted".

(** ** Resolution *)

(** One run of the loop: the walk stops outside the table, at a cached value or at
    a value without a replacement; [path] collects the visited ids. When the bound
    runs out the last value reached is the answer. *)
(* @src src/graph/optimization/graph_rewrite.cpp:370-392 GraphRewriteSession::GetResolvedValue (loop) *)
Fixpoint resolve_walk (depth : nat) (repl cache : list (option nat)) (cur : nat) (path : list nat)
    : nat * list nat :=
  match depth with
  | O => (cur, path)
  | S depth' =>
      if (length repl <=? cur)%nat then (cur, path)
      else match mjoin (cache !! cur) with
           | Some r => (r, path)
           | None =>
               match mjoin (repl !! cur) with
               | None => (cur, path ++ [cur])
               | Some next => resolve_walk depth' repl cache next (path ++ [cur])
               end
           end
  end.

(** Path compression: every visited id is cached to the terminal. *)
(* @src src/graph/optimization/graph_rewrite.cpp:394-397 GraphRewriteSession::GetResolvedValue (compression) *)
Definition compress (path : list nat) (resolved : nat) (cache : list (option nat)) : list (option nat) :=
  foldl (fun c i => <[i := Some resolved]> c) cache path.

(* @src src/graph/optimization/graph_rewrite.cpp:358-398 GraphRewriteSession::GetResolvedValue *)
Definition GetResolvedValue (s : Session) (v : nat) : nat * Session :=
  let repl := value_replacements_ s in
  let cache := resolved_value_cache_ s in
  if (length repl <=? v)%nat then (v, s)
  else match mjoin (cache !! v) with
       | Some r => (r, s)
       | None =>
           let '(resolved, path) := resolve_walk (length repl) repl cache v [] in
           (resolved, with_caches s (compress path resolved cache) (consumer_cache_ s))
       end.

(** The answer alone. *)
Definition resolved (s : Session) (v : nat) : nat := (GetResolvedValue s v).1.

(** ** Views *)

(** [rewrites_[i]] of an index held in [node_to_rewrite_]. *)
Definition rewrite_at (s : Session) (i : nat) : option RewriteEntry := rewrites_ s !! i.

(* @src src/graph/optimization/graph_rewrite.cpp:454-471 GraphRewriteSession::IsNodeLive *)
Definition IsNodeLive (s : Session) (n : nat) : bool :=
  match node_to_rewrite_ s !! n with
  | None => false
  | Some None => true
  | Some (Some r) =>
      match rewrite_at s r with
      | None => false
      | Some rw => active rw && exposes_node_view rw && bool_decide (old_nodes rw = [n]) &&
                   (length (replacements rw) =? 1)%nat
      end
  end.

(** The mirror replacement of a redirected node, when the node has one. *)
Definition mirror_of (s : Session) (n : nat) : Res (option ReplacementNode) :=
  match mjoin (node_to_rewrite_ s !! n) with
  | None => Ret None
  | Some r => rw ← vec_at (rewrites_ s) r; rn ← vec_at (replacements rw) 0; Ret (Some rn)
  end.

(* @src src/graph/optimization/graph_rewrite.cpp:410-444 GraphRewriteSession::GetNodeView *)
Definition GetNodeView (s : Session) (n : nat) : Res GraphNodeView :=
  _ ← CheckSourceNodeId s n;
  original ← GetNode (graph_ s) n;
  _ ← reject_if (bool_decide (mjoin (node_to_rewrite_ s !! n) <> None) && negb (IsNodeLive s n))
        (NotFound "GraphRewriteSession::GetNodeView node was removed or replaced");
  mirror ← mirror_of s n;
  Ret (match mirror with
       | Some rn =>
           mkView n (rn_op_type rn) (rn_layer rn) (resolved s <$> rn_inputs rn)
             (node_outputs original) (rn_attrs rn) (rn_op_params rn) (rn_name rn)
       | None =>
           mkView n (op_type original) (node_layer original) (resolved s <$> node_inputs original)
             (node_outputs original) (attrs original) (op_params original) (node_name original)
       end).

(* @src src/graph/optimization/graph_rewrite.cpp:479-493 GraphRewriteSession::GetTopologicalOrder *)
Definition GetTopologicalOrder (s : Session) : Res (list nat) :=
  order ← TopologicalOrder (graph_ s); Ret (filter (fun n => IsNodeLive s n = true) order).

(* @src src/graph/optimization/graph_rewrite.cpp:501-511 GraphRewriteSession::FindNodesByOpType *)
Definition FindLiveNodesByOpType (s : Session) (o : OpType.t) : list nat :=
  filter (fun n => IsNodeLive s n = true) (FindNodesByOpType (graph_ s) o).

Definition binds (rn : ReplacementNode) (v : nat) : bool :=
  existsb (fun out => bool_decide (replaces out = Some v)) (rn_outputs rn).

(* @src src/graph/optimization/graph_rewrite.cpp:1663-1674 rewrite_binds_value *)
Definition rewrite_binds_value (rw : RewriteEntry) (v : nat) : bool :=
  existsb (fun rn => binds rn v) (replacements rw).

(* @src src/graph/optimization/graph_rewrite.cpp:584-599 GraphRewriteSession::IsValueReplacedByActiveRewrite *)
Definition IsValueReplacedByActiveRewrite (s : Session) (v : nat) : bool :=
  existsb (fun rw => active rw && rewrite_binds_value rw v) (rewrites_ s).

(* @src src/graph/optimization/graph_rewrite.cpp:522-543 GraphRewriteSession::IsValueLive *)
Definition IsValueLive (s : Session) (v : nat) : bool :=
  if IsSessionConstant s v then true
  else match values_ (graph_ s) !! v with
       | None => false
       | Some x =>
           match producer x with
           | None => true
           | Some p => if IsNodeLive s p then true else IsValueReplacedByActiveRewrite s v
           end
       end.

(* @src src/graph/optimization/graph_rewrite.cpp:606-622 GraphRewriteSession::GetLiveValues *)
Definition GetLiveValues (s : Session) : list nat :=
  filter (fun v => IsValueLive s v = true) (seq 0 (value_count s)) ++
  filter (fun v => IsValueLive s v = true)
    (seq (value_count s) (length (session_value_metadata_ s))).

(** [*session_value_metadata_[i]] of a session constant. *)
Definition constant_at (s : Session) (v : nat) : Res SessionConstant :=
  m ← vec_at (session_value_metadata_ s) (GetSessionValueIndex s v);
  match m with Some c => Ret c | None => Panic "bad_optional_access" end.

(* @src src/graph/optimization/graph_rewrite.cpp:825-831 GraphRewriteSession::MakeOutputDescFromSessionConstant *)
Definition MakeOutputDescFromSessionConstant (s : Session) (v : nat) : Res GraphValueDesc :=
  c ← constant_at s v;
  Ret (mkValueDesc (sc_spec c) (ConstantValue (sc_binding c)) (sc_quantization c) (sc_name c)).

(* @src src/graph/optimization/graph_rewrite.cpp:551-561 GraphRewriteSession::GetValueOutputMetadata *)
Definition GetValueOutputMetadata (s : Session) (v : nat) : Res GraphValueDesc :=
  _ ← CheckNonVirtualValueId s v;
  if IsSessionConstant s v then MakeOutputDescFromSessionConstant s v
  else x ← GetValue (graph_ s) v;
       Ret (mkValueDesc (spec x) (payload x) (quantization x) (value_name x)).

(* @src src/graph/optimization/graph_rewrite.cpp:569-577 GraphRewriteSession::IsGraphOutput *)
Definition IsGraphOutput (s : Session) (v : nat) : bool :=
  (v <? value_count s)%nat && bool_decide (v ∈ outputs_ (graph_ s)).

(* @src src/graph/optimization/graph_rewrite.cpp:1281-1297 GraphRewriteSession::IsConstant *)
Definition IsConstant (s : Session) (v : nat) : bool :=
  let r := resolved s v in
  if IsSessionConstant s r then true
  else match values_ (graph_ s) !! r with
       | Some x => match payload x with ConstantValue _ | WeightValue _ => true | _ => false end
       | None => false
       end.

(* @src src/graph/optimization/graph_rewrite.cpp:1305-1314 GraphRewriteSession::AreAllInputsConstant *)
Definition AreAllInputsConstant (s : Session) (n : nat) : bool :=
  match GetNodeView s n with
  | Ret view => forallb (IsConstant s) (view_inputs view)
  | _ => false
  end.

(** ** The consumer index *)

(** The inputs a live node reads: the mirror's when it was redirected. *)
Definition live_inputs (s : Session) (n : nat) : list nat :=
  match mirror_of s n with
  | Ret (Some rn) => rn_inputs rn
  | _ => default [] (node_inputs <$> nodes_ (graph_ s) !! n)
  end.

(** One bucket entry per distinct resolved input in range. *)
(* @src src/graph/optimization/graph_rewrite.cpp:714-725 GraphRewriteSession::EnsureConsumerCache (node) *)
Fixpoint consume (s : Session) (count n : nat) (ins seen : list nat) (buckets : list (list nat))
    : list (list nat) :=
  match ins with
  | [] => buckets
  | v :: ins' =>
      let r := resolved s v in
      if (count <=? r)%nat || bool_decide (r ∈ seen) then consume s count n ins' seen buckets
      else consume s count n ins' (seen ++ [r]) (alter (fun b => b ++ [n]) r buckets)
  end.

(* @src src/graph/optimization/graph_rewrite.cpp:703-726 GraphRewriteSession::EnsureConsumerCache (original nodes) *)
Definition index_originals (s : Session) (count : nat) (order : list nat) : list (list nat) :=
  foldl (fun buckets n => if IsNodeLive s n then consume s count n (live_inputs s n) [] buckets
                          else buckets) (replicate count []) order.

(** Inputs of the active rewrites that are not mirrors. *)
Definition replacement_inputs (s : Session) : list nat :=
  rw ← filter (fun rw => active rw = true /\ exposes_node_view rw = false) (rewrites_ s);
  rn ← replacements rw;
  rn_inputs rn.

(* @src src/graph/optimization/graph_rewrite.cpp:728-741 GraphRewriteSession::EnsureConsumerCache (replacements) *)
Definition count_replacements (s : Session) (count : nat) : list Z :=
  foldl (fun counts v => alter (fun c => u32 (c + 1)) (resolved s v) counts)
    (replicate count 0) (replacement_inputs s).

(** The index for the current state, built from scratch. *)
Definition fresh_consumers (s : Session) : Res ConsumerCache :=
  let count := next_value_index s in
  order ← TopologicalOrder (graph_ s);
  Ret (mkConsumerCache (mutation_generation_ s) (index_originals s count order)
         (count_replacements s count)).

(* @src src/graph/optimization/graph_rewrite.cpp:689-744 GraphRewriteSession::EnsureConsumerCache *)
Definition EnsureConsumerCache (s : Session) : Res ConsumerCache * Session :=
  match consumer_cache_ s with
  | Some c =>
      if generation c =? mutation_generation_ s then (Ret c, s)
      else match fresh_consumers s with
           | Ret c' => (Ret c', with_caches s (resolved_value_cache_ s) (Some c'))
           | r => (r, s)
           end
  | None =>
      match fresh_consumers s with
      | Ret c' => (Ret c', with_caches s (resolved_value_cache_ s) (Some c'))
      | r => (r, s)
      end
  end.

(** Ids without consumers by definition: unknown and virtual values. *)
Definition not_addressable (s : Session) (v : nat) : bool :=
  ((value_count s <=? v)%nat && negb (IsSessionLocalValue s v)) || IsSessionVirtualValue s v.

(* @src src/graph/optimization/graph_rewrite.cpp:632-647 GraphRewriteSession::FindConsumers *)
Definition FindConsumers (s : Session) (v : nat) : Res (list nat) * Session :=
  if not_addressable s v then (Ret [], s)
  else
    let '(r, s1) := GetResolvedValue s v in
    let '(c, s2) := EnsureConsumerCache s1 in
    (cache ← c; Ret (default [] (original_consumers cache !! r)), s2).

(* @src src/graph/optimization/graph_rewrite.cpp:657-673 GraphRewriteSession::HasLiveConsumers *)
Definition HasLiveConsumers (s : Session) (v : nat) : Res bool * Session :=
  if not_addressable s v then (Ret false, s)
  else
    let '(r, s1) := GetResolvedValue s v in
    let '(c, s2) := EnsureConsumerCache s1 in
    (cache ← c;
     Ret (match original_consumers cache !! r with
          | None => false
          | Some b => bool_decide (b <> []) ||
                      (0 <? default 0 (replacement_consumer_counts cache !! r))
          end), s2).

(** ** Validation of replacement nodes *)

(* @src src/graph/optimization/graph_rewrite.cpp:1322-1334 GraphRewriteSession::ValidateReplacementNode *)
Definition ValidateReplacementNode (s : Session) (rn : ReplacementNode) : Res unit :=
  _ ← res_iter (CheckKnownValueId s) (rn_inputs rn);
  res_iter (fun out => match replaces out with
                       | Some v => CheckKnownValueId s v
                       | None => Ret tt
                       end) (rn_outputs rn).

(* @src src/graph/optimization/graph_rewrite.cpp:1347-1353 GraphRewriteSession::ValidateReplacementTargets (outputs) *)
Definition replaceable_outputs (s : Session) (olds : list nat) : Res (list nat) :=
  outs ← res_mapi (fun _ n => _ ← CheckSourceNodeId s n;
                     node ← GetNode (graph_ s) n; Ret (node_outputs node)) 0 olds;
  Ret (mjoin (M := list) outs).

(* @src src/graph/optimization/graph_rewrite.cpp:1356-1375 GraphRewriteSession::ValidateReplacementTargets (target) *)
Definition check_target (s : Session) (allowed : list nat) (real : list nat) (out : RewriteOutputBinding)
    : Res (list nat) :=
  match replaces out with
  | None => Ret real
  | Some v =>
      if IsSessionVirtualValue s v then Ret real
      else
        _ ← reject_if (bool_decide (v ∉ allowed))
              (bad "GraphRewriteSession: replacement output target is not produced by replaced old_nodes");
        _ ← reject_if (bool_decide (v ∈ real))
              (bad "GraphRewriteSession: replacement output target is produced more than once");
        Ret (real ++ [v])
  end.

(* @src src/graph/optimization/graph_rewrite.cpp:1344-1378 GraphRewriteSession::ValidateReplacementTargets *)
Definition ValidateReplacementTargets (s : Session) (olds : list nat) (rns : list ReplacementNode)
    : Res unit :=
  allowed ← replaceable_outputs s olds;
  _ ← res_foldl (fun real rn => res_foldl (check_target s allowed) real (rn_outputs rn)) [] rns;
  Ret tt.

(** [globally_produced] and [locally_available]. *)
(* @src src/graph/optimization/graph_rewrite.cpp:1402-1423 GraphRewriteSession::ValidateVirtualValues (replacement) *)
Definition track_virtual (s : Session) (st : list bool * list bool) (rn : ReplacementNode)
    : Res (list bool * list bool) :=
  _ ← res_iter (fun v =>
        if IsSessionVirtualValue s v then
          reject_if (negb (default false (st.2 !! GetSessionValueIndex s v)))
            (bad "GraphRewriteSession: virtual value is consumed before being produced")
        else Ret tt) (rn_inputs rn);
  res_foldl (fun st out =>
    match replaces out with
    | Some v =>
        if IsSessionVirtualValue s v then
          let i := GetSessionValueIndex s v in
          _ ← reject_if (default false (st.1 !! i))
                (bad "GraphRewriteSession: virtual value produced more than once");
          Ret (<[i := true]> st.1, <[i := true]> st.2)
        else Ret st
    | None => Ret st
    end) st (rn_outputs rn).

(* @src src/graph/optimization/graph_rewrite.cpp:1387-1426 GraphRewriteSession::ValidateVirtualValues *)
Definition ValidateVirtualValues (s : Session) : Res unit :=
  let none := replicate (length (session_value_metadata_ s)) false in
  _ ← res_foldl (fun produced rw =>
        if active rw then
          st ← res_foldl (track_virtual s) (produced, none) (replacements rw); Ret st.1
        else Ret produced) none (rewrites_ s);
  Ret tt.

(* @src src/graph/optimization/graph_rewrite.cpp:1435-1466 GraphRewriteSession::ResolveValueSpec *)
Definition ResolveValueSpec (s : Session) (v : nat) (virtual_specs : list (option TensorSpec))
    : Res TensorSpec :=
  match values_ (graph_ s) !! v with
  | Some x => Ret (spec x)
  | None =>
      _ ← reject_if (negb (IsSessionLocalValue s v))
            (bad ("GraphRewriteSession::ResolveValueSpec: value id " +:+ num v +:+ " out of range"));
      if IsSessionConstant s v then c ← constant_at s v; Ret (sc_spec c)
      else match mjoin (virtual_specs !! GetSessionValueIndex s v) with
           | Some sp => Ret sp
           | None => Fail (NotFound ("GraphRewriteSession: virtual value " +:+ num v +:+
                       " has no inferred spec (not produced by any analyzed replacement)"))
           end
  end.

Definition no_virtual_specs (s : Session) : list (option TensorSpec) :=
  replicate (length (session_value_metadata_ s)) None.

(** [TensorSpec]s that may stand for each other: equal dtype, shapes that unify. *)
Definition check_same_interface (old_spec new_spec : TensorSpec) (dtype_msg shape_msg : string)
    : Res unit :=
  e ← DataType.equal (dtype new_spec) (dtype old_spec);
  _ ← reject_if (negb e) (bad dtype_msg);
  match Unify (shape old_spec) (shape new_spec) with
  | Ret _ => Ret tt
  | Fail e => Fail (bad (shape_msg +:+ message e))
  | Panic w => Panic w
  end.

Section Edits.
Context {OS : OperatorSemantics}.

(** The spec of the value an output takes over, when it is not virtual. *)
(* @src src/graph/optimization/graph_rewrite.cpp:1585-1597 GraphRewriteSession::ValidateReplacementSemantics (target spec) *)
Definition target_spec (s : Session) (ctx : string) (v : nat) : Res TensorSpec :=
  match values_ (graph_ s) !! v with
  | Some x => Ret (spec x)
  | None =>
      if IsSessionConstant s v then c ← constant_at s v; Ret (sc_spec c)
      else Fail (bad ("GraphRewriteSession: " +:+ ctx +:+ " replaces invalid value " +:+ num v))
  end.

(* @src src/graph/optimization/graph_rewrite.cpp:1554-1621 GraphRewriteSession::ValidateReplacementSemantics (output) *)
Definition check_replaced_output (s : Session) (ctx : string) (specs : list (option TensorSpec))
    (x : RewriteOutputBinding * TensorSpec) : Res (list (option TensorSpec)) :=
  let '(binding, inferred_spec) := x in
  match replaces binding with
  | None => Ret specs
  | Some v =>
      if IsSessionVirtualValue s v then
        let i := GetSessionValueIndex s v in
        match specs !! i with
        | None => Fail (bad ("GraphRewriteSession: " +:+ ctx +:+
                    " replaces out-of-range virtual value " +:+ num v))
        | Some (Some _) => Fail (bad ("GraphRewriteSession: " +:+ ctx +:+
                    " replaces virtual value " +:+ num v +:+
                    " which is already produced by another replacement"))
        | Some None => Ret (<[i := Some inferred_spec]> specs)
        end
      else
        sp ← target_spec s ctx v;
        _ ← check_same_interface sp inferred_spec
              ("GraphRewriteSession: " +:+ ctx +:+
               " inferred dtype is incompatible with replaces target value " +:+ num v)
              ("GraphRewriteSession: " +:+ ctx +:+
               " inferred shape is incompatible with replaces target value " +:+ num v +:+ ": ");
        Ret specs
  end.

Definition debug_ctx (i : nat) (rn : ReplacementNode) : string :=
  "replacement[" +:+ num i +:+ "]" +:+
  (if bool_decide (rn_name rn = "") then "" else " '" +:+ rn_name rn +:+ "'").

(** Resolved specs of the inputs of one replacement. *)
Definition replacement_specs (s : Session) (specs : list (option TensorSpec)) (rn : ReplacementNode)
    : Res (list TensorSpec) :=
  res_mapi (fun _ v => ResolveValueSpec s (resolved s v) specs) 0 (rn_inputs rn).

(* @src src/graph/optimization/graph_rewrite.cpp:1486-1622 GraphRewriteSession::ValidateReplacementSemantics (replacement) *)
Definition replay_replacement (s : Session) (st : nat * list (option TensorSpec)) (rn : ReplacementNode)
    : Res (nat * list (option TensorSpec)) :=
  let '(i, specs) := st in
  let ctx := debug_ctx i rn in
  schema ← GetOperatorSchema (rn_op_type rn);
  _ ← reject_if (negb (length (rn_inputs rn) =? length (input_ports schema))%nat)
        (bad ("GraphRewriteSession: " +:+ ctx +:+ " input count " +:+ num (length (rn_inputs rn)) +:+
              " does not match schema expected " +:+ num (length (input_ports schema))));
  _ ← reject_if (negb (length (rn_outputs rn) =? length (output_ports schema))%nat)
        (bad ("GraphRewriteSession: " +:+ ctx +:+ " output count " +:+ num (length (rn_outputs rn)) +:+
              " does not match schema expected " +:+ num (length (output_ports schema))));
  ins ← replacement_specs s specs rn;
  inferred ← InferOp (rn_op_type rn) (rn_op_params rn) ins;
  _ ← reject_if (negb (length (outputs inferred) =? length (rn_outputs rn))%nat)
        (bad ("GraphRewriteSession: " +:+ ctx +:+ " inferred " +:+ num (length (outputs inferred)) +:+
              " outputs but binding has " +:+ num (length (rn_outputs rn))));
  specs' ← res_foldl (check_replaced_output s ctx) specs (zip (rn_outputs rn) (outputs inferred));
  Ret (S i, specs').

(* @src src/graph/optimization/graph_rewrite.cpp:1483-1624 GraphRewriteSession::ValidateReplacementSemantics *)
Definition ValidateReplacementSemantics (s : Session) (rns : list ReplacementNode)
    (specs : list (option TensorSpec)) : Res (list (option TensorSpec)) :=
  st ← res_foldl (replay_replacement s) (0%nat, specs) rns; Ret st.2.

(** ** Edits *)

(** Reset the entries of [old] that still point at rewrite [r]. *)
Definition clear_links (r : nat) (olds : list nat) (links : list (option nat)) : list (option nat) :=
  foldl (fun l n => if bool_decide (mjoin (l !! n) = Some r) then <[n := None]> l else l) links olds.

(* @src src/graph/optimization/graph_rewrite.cpp:1807-1820 GraphRewriteSession::DeactivateRewrite *)
Definition DeactivateRewrite (s : Session) (r : nat) : Session :=
  match rewrites_ s !! r with
  | None => s
  | Some rw =>
      if active rw then
        with_rewrites s
          (<[r := mkRewrite (old_nodes rw) (replacements rw) false (exposes_node_view rw)]> (rewrites_ s))
          (clear_links r (old_nodes rw) (node_to_rewrite_ s))
      else s
  end.

Definition deactivate_covering (s : Session) (n : nat) : Session :=
  match mjoin (node_to_rewrite_ s !! n) with
  | Some r => DeactivateRewrite s r
  | None => s
  end.

(** Append an active rewrite and point its nodes at it. *)
Definition install_rewrite (s : Session) (olds : list nat) (rns : list ReplacementNode)
    (exposes : bool) : Session :=
  let r := length (rewrites_ s) in
  InvalidateConsumerCache
    (with_rewrites s (rewrites_ s ++ [mkRewrite olds rns true exposes])
       (foldl (fun l n => <[n := Some r]> l) (node_to_rewrite_ s) olds)).

(** What [ReplaceSubgraph] checks before it changes anything. *)
(* @src src/graph/optimization/graph_rewrite.cpp:179-200 GraphRewriteSession::ReplaceSubgraph (checks) *)
Definition check_subgraph (s : Session) (olds : list nat) (rns : list ReplacementNode) : Res unit :=
  _ ← reject_if (bool_decide (olds = []))
        (bad "GraphRewriteSession::ReplaceSubgraph old node list is empty");
  _ ← res_iter (ValidateReplacementNode s) rns;
  _ ← ValidateReplacementTargets s olds rns;
  _ ← ValidateReplacementSemantics s rns (no_virtual_specs s);
  Ret tt.

(** A check followed by an update that cannot fail. *)
Definition guarded (s : Session) (check : Res unit) (update : Session) : Res unit * Session :=
  match check with
  | Ret _ => (Ret tt, update)
  | Fail e => (Fail e, s)
  | Panic w => (Panic w, s)
  end.

(* @src src/graph/optimization/graph_rewrite.cpp:177-217 GraphRewriteSession::ReplaceSubgraph *)
Definition ReplaceSubgraph (s : Session) (olds : list nat) (rns : list ReplacementNode)
    : Res unit * Session :=
  guarded s (check_subgraph s olds rns)
    (install_rewrite (foldl deactivate_covering s olds) olds rns false).

(* @src src/graph/optimization/graph_rewrite.cpp:162-166 GraphRewriteSession::RemoveNode *)
Definition RemoveNode (s : Session) (n : nat) : Res unit * Session :=
  match CheckSourceNodeId s n with
  | Ret _ => ReplaceSubgraph s [n] []
  | Fail e => (Fail e, s)
  | Panic w => (Panic w, s)
  end.

(* @src src/graph/optimization/graph_rewrite.cpp:40-44 MakeNodeOutputDesc *)
Definition MakeNodeOutputDesc (x : GraphValue) : NodeOutputDesc :=
  mkOutputDesc (payload x) (quantization x) (value_name x).

(* @src src/graph/optimization/graph_rewrite.cpp:49-66 BuildMirrorReplacement *)
Definition BuildMirrorReplacement (g : ModelGraph) (n : nat) : Res ReplacementNode :=
  original ← GetNode g n;
  outs ← res_mapi (fun _ v => x ← GetValue g v; Ret (mkBinding (MakeNodeOutputDesc x) (Some v))) 0
           (node_outputs original);
  Ret (mkReplacement (op_type original) (node_layer original) (node_inputs original) outs
         (attrs original) (op_params original) (node_name original)).

Definition set_input (rn : ReplacementNode) (i v : nat) : ReplacementNode :=
  mkReplacement (rn_op_type rn) (rn_layer rn) (<[i := v]> (rn_inputs rn)) (rn_outputs rn)
    (rn_attrs rn) (rn_op_params rn) (rn_name rn).

(** The checks common to both cases of [RedirectInput]. *)
(* @src src/graph/optimization/graph_rewrite.cpp:232-265 GraphRewriteSession::RedirectInput (checks) *)
Definition check_redirect (s : Session) (n i v : nat) : Res unit :=
  _ ← CheckSourceNodeId s n;
  _ ← CheckNonVirtualValueId s v;
  node ← GetNode (graph_ s) n;
  _ ← reject_if (length (node_inputs node) <=? i)%nat
        (bad "GraphRewriteSession::RedirectInput input index out of range");
  old_value ← vec_at (node_inputs node) i;
  old ← GetValue (graph_ s) old_value;
  new_spec ← rewrap (fun _ => "GraphRewriteSession::RedirectInput new value " +:+ num v +:+
               " resolves to a session virtual value, which cannot feed a node input")
               (ResolveValueSpec s (resolved s v) []);
  e ← DataType.equal (dtype new_spec) (dtype (spec old));
  reject_if (negb e)
    (bad ("GraphRewriteSession::RedirectInput input dtype mismatch: node '" +:+ node_name node +:+
          "' input " +:+ num i)).

(* @src src/graph/optimization/graph_rewrite.cpp:230-298 GraphRewriteSession::RedirectInput *)
Definition RedirectInput (s : Session) (n i v : nat) : Res unit * Session :=
  match check_redirect s n i v with
  | Fail e => (Fail e, s)
  | Panic w => (Panic w, s)
  | Ret _ =>
      match mjoin (node_to_rewrite_ s !! n) with
      | Some r =>
          if IsNodeLive s n then
            match rewrites_ s !! r with
            | Some (mkRewrite olds (rn :: rest) a e) =>
                if (length (rn_inputs rn) <=? i)%nat then
                  (Fail (bad "GraphRewriteSession::RedirectInput replacement input index mismatch"), s)
                else (Ret tt, InvalidateConsumerCache
                        (with_rewrites s (<[r := mkRewrite olds (set_input rn i v :: rest) a e]> (rewrites_ s))
                           (node_to_rewrite_ s)))
            | _ => (Panic "vector index", s)
            end
          else (Fail (bad ("GraphRewriteSession::RedirectInput cannot redirect a node " +:+
                           "that was removed or replaced by an active rewrite")), s)
      | None =>
          match BuildMirrorReplacement (graph_ s) n with
          | Ret rn => (Ret tt, install_rewrite s [n] [set_input rn i v] true)
          | Fail e => (Fail e, s)
          | Panic w => (Panic w, s)
          end
      end
  end.

(** The cycle search: does the chain from [cur] reach [target]? *)
(* @src src/graph/optimization/graph_rewrite.cpp:322-337 GraphRewriteSession::ReplaceValue (cycle check) *)
Fixpoint chain_reaches (depth : nat) (repl : list (option nat)) (cur target : nat) : bool :=
  match depth with
  | O => false
  | S depth' =>
      match mjoin (repl !! cur) with
      | None => false
      | Some next => if (next =? target)%nat then true else chain_reaches depth' repl next target
      end
  end.

(* @src src/graph/optimization/graph_rewrite.cpp:309-345 GraphRewriteSession::ReplaceValue *)
Definition ReplaceValue (s : Session) (old_value new_value : nat) : Res unit * Session :=
  match (_ ← CheckSourceValueId s old_value; CheckNonVirtualValueId s new_value) with
  | Fail e => (Fail e, s)
  | Panic w => (Panic w, s)
  | Ret _ =>
      if (old_value =? new_value)%nat then (Ret tt, s)
      else if chain_reaches (length (value_replacements_ s)) (value_replacements_ s) new_value old_value
      then (Fail (bad "GraphRewriteSession::ReplaceValue would create a replacement cycle"), s)
      else (Ret tt, InvalidateConsumerCache
              (with_replacements s (<[old_value := Some new_value]> (value_replacements_ s))
                 ((fun _ => None) <$> resolved_value_cache_ s)))
  end.

(* @src src/graph/optimization/graph_rewrite.cpp:135-148 GraphRewriteSession::Apply (visitor) *)
Definition apply_one (s : Session) (m : GraphMutation) : Res unit * Session :=
  match m with
  | SubgraphReplacement olds rns => ReplaceSubgraph s olds rns
  | NodeRemoval n => RemoveNode s n
  | InputRedirection n i v => RedirectInput s n i v
  | ValueReplacement o v => ReplaceValue s o v
  end.

(** Non-atomic: the mutations before a failing one stay applied. *)
(* @src src/graph/optimization/graph_rewrite.cpp:134-154 GraphRewriteSession::Apply *)
Fixpoint Apply (s : Session) (ms : list GraphMutation) : Res unit * Session :=
  match ms with
  | [] => (Ret tt, s)
  | m :: ms' => match apply_one s m with
                | (Ret _, s') => Apply s' ms'
                | r => r
                end
  end.

(** ** [ValidateEdits] *)

(* @src src/graph/optimization/graph_rewrite.cpp:757-792 GraphRewriteSession::ValidateEdits (value replacements) *)
Definition check_value_replacement (s : Session) (i : nat) (target : option nat) : Res unit :=
  match target with
  | None => Ret tt
  | Some v =>
      _ ← CheckNonVirtualValueId s v;
      old ← GetValue (graph_ s) i;
      new_spec ← ResolveValueSpec s (resolved s i) [];
      check_same_interface (spec old) new_spec
        ("GraphRewriteSession::ReplaceValue value " +:+ num i +:+
         " dtype cannot be replaced by value " +:+ num (resolved s i))
        ("GraphRewriteSession::ReplaceValue value " +:+ num i +:+
         " shape cannot be replaced by value " +:+ num (resolved s i) +:+ ": ")
  end.

(** [position[order[i]] = i]. *)
(* @src src/graph/optimization/graph_rewrite.cpp:1695-1698 ValidateReplacementInputAvailability (position) *)
Definition positions (count : nat) (order : list nat) : list Z :=
  foldl (fun p ix => <[ix.2 := Z.of_nat ix.1]> p) (replicate count 0)
    (zip (seq 0 (length order)) order).

(* @src src/graph/optimization/graph_rewrite.cpp:1700-1707 ValidateReplacementInputAvailability (emission point) *)
Definition emission_point (position : list Z) (rw : RewriteEntry) : Z :=
  foldl (fun e n => Z.min e (default 0 (position !! n))) UINT64_MAX (old_nodes rw).

(** Is the value at input [v] of replacement [r] of rewrite [i] emitted before? *)
(* @src src/graph/optimization/graph_rewrite.cpp:1721-1792 ValidateReplacementInputAvailability (input) *)
Definition check_available (s : Session) (position : list Z) (i : nat) (rw : RewriteEntry) (r : nat)
    (v : nat) : Res unit :=
  let res := resolved s v in
  match values_ (graph_ s) !! res with
  | None => Ret tt
  | Some x =>
      match producer x with
      | None => Ret tt
      | Some p =>
          let covering := j ← mjoin (node_to_rewrite_ s !! p);
                          rwp ← rewrites_ s !! j;
                          if active rwp then Some (j, rwp) else None in
          match covering with
          | None =>
              reject_if (emission_point position rw <=? default 0 (position !! p))
                (bad ("GraphRewriteSession: rewrite " +:+ num i +:+ " input value " +:+ num res +:+
                      " is produced by node " +:+ num p +:+
                      " which is not emitted before this rewrite's commit emission point"))
          | Some (j, rwp) =>
              _ ← reject_if (negb (rewrite_binds_value rwp res))
                    (bad ("GraphRewriteSession: rewrite " +:+ num i +:+ " input value " +:+ num res +:+
                          " is never produced during commit"));
              if (j =? i)%nat then
                reject_if (negb (existsb (fun rn => binds rn res) (take r (replacements rwp))))
                  (bad ("GraphRewriteSession: rewrite " +:+ num i +:+ " input value " +:+ num res +:+
                        " is produced within the same rewrite but not by an earlier replacement"))
              else
                reject_if (emission_point position rw <=? emission_point position rwp)
                  (bad ("GraphRewriteSession: rewrite " +:+ num i +:+ " input value " +:+ num res +:+
                        " is produced by rewrite " +:+ num j +:+
                        " which is not emitted before this rewrite's commit emission point"))
          end
      end
  end.

(* @src src/graph/optimization/graph_rewrite.cpp:1655-1797 GraphRewriteSession::ValidateReplacementInputAvailability *)
Definition ValidateReplacementInputAvailability (s : Session) : Res unit :=
  if bool_decide (length (rewrites_ s) = 0%nat) then Ret tt
  else
    order ← TopologicalOrder (graph_ s);
    let position := positions (length (nodes_ (graph_ s))) order in
    for_each (fun i rw =>
      if active rw then
        for_each (fun r rn => res_iter (check_available s position i rw r) (rn_inputs rn))
          (replacements rw)
      else Ret tt) (rewrites_ s).

(** Ids and targets of one active rewrite. *)
Definition check_rewrite_ids (s : Session) (rw : RewriteEntry) : Res unit :=
  if active rw then
    _ ← res_iter (ValidateReplacementNode s) (replacements rw);
    ValidateReplacementTargets s (old_nodes rw) (replacements rw)
  else Ret tt.

Definition check_rewrite_semantics (s : Session) (rw : RewriteEntry) : Res unit :=
  if active rw then _ ← ValidateReplacementSemantics s (replacements rw) (no_virtual_specs s); Ret tt
  else Ret tt.

(* @src src/graph/optimization/graph_rewrite.cpp:756-823 GraphRewriteSession::ValidateEdits *)
Definition ValidateEdits (s : Session) : Res unit :=
  _ ← for_each (check_value_replacement s) (value_replacements_ s);
  _ ← res_iter (check_rewrite_ids s) (rewrites_ s);
  _ ← ValidateVirtualValues s;
  _ ← res_iter (check_rewrite_semantics s) (rewrites_ s);
  ValidateReplacementInputAvailability s.
End Edits.
