(* ===== verification/RewriteResolve.v ===== *)
(** * RewriteResolve: value replacement chains

    The theory behind [GraphRewriteSession::GetResolvedValue] and [ReplaceValue]:
    replacement chains end, the bounded walk with its path-compressing cache
    finds the end of the chain, and the cycle check of [ReplaceValue] is exact. *)
From S2P Require Import Prelude DataTypes OperatorSchema Graph Topology RewriteSession.

(** ** Chains *)

(** [next_value repl v w]: the table sends [v] to [w]. *)
Definition next_value (repl : list (option nat)) (v w : nat) : Prop := mjoin (repl !! v) = Some w.

(** [leads repl k v t]: following the table [k] times from [v] ends at [t], which
    has no replacement. *)
Inductive leads (repl : list (option nat)) : nat -> nat -> nat -> Prop :=
| leads_end v : mjoin (repl !! v) = None -> leads repl 0 v v
| leads_next k v w t : next_value repl v w -> leads repl k w t -> leads repl (S k) v t.

Definition ends_at (repl : list (option nat)) (v t : nat) : Prop := exists k, leads repl k v t.

Definition chains_end (repl : list (option nat)) : Prop := forall v, exists t, ends_at repl v t.

Section Chains.
Context (repl : list (option nat)).

Lemma next_value_range v w : next_value repl v w -> (v < length repl)%nat.
Proof.
  unfold next_value. destruct (repl !! v) eqn:E; [|discriminate].
  intros _. by apply lookup_lt_Some in E.
Qed.

Lemma leads_functional k v t : leads repl k v t -> forall k' t', leads repl k' v t' -> k' = k /\ t' = t.
Proof.
  induction 1 as [v Hv|k v w t Hn _ IH]; intros k' t' H'; inversion H'; subst;
    unfold next_value in *; try congruence; [done|].
  assert (w0 = w) as -> by congruence. destruct (IH _ _ H0) as [-> ->]. done.
Qed.

Lemma ends_at_functional v t t' : ends_at repl v t -> ends_at repl v t' -> t = t'.
Proof. intros [k H] [k' H']. by destruct (leads_functional _ _ _ H _ _ H') as [_ ->]. Qed.

Lemma leads_terminal k v t : leads repl k v t -> mjoin (repl !! t) = None.
Proof. by induction 1. Qed.

Lemma ends_at_next v w t : next_value repl v w -> ends_at repl w t -> ends_at repl v t.
Proof. intros Hn [k H]. exists (S k). by econstructor. Qed.

Lemma ends_at_inv v w t : next_value repl v w -> ends_at repl v t -> ends_at repl w t.
Proof.
  intros Hn [k H]. inversion H; subst; unfold next_value in *; [congruence|].
  assert (w0 = w) as -> by congruence. by eexists.
Qed.

Lemma ends_at_rtc v w t : rtc (next_value repl) v w -> ends_at repl v t -> ends_at repl w t.
Proof. induction 1; [done|]. intros Ht. apply IHrtc. by eapply ends_at_inv. Qed.

Lemma ends_at_reach v t : ends_at repl v t -> rtc (next_value repl) v t.
Proof. intros [k H]. induction H; [done|]. by eapply rtc_l. Qed.

(** The values on a chain, the end excluded: distinct and inside the table. *)
Lemma leads_path k v t : leads repl k v t ->
  exists path, length path = k /\ NoDup path /\
    Forall (fun x => (x < length repl)%nat /\ exists j, (0 < j <= k)%nat /\ leads repl j x t) path.
Proof.
  induction 1 as [v Hv|k v w t Hn Hl (path & Hlen & Hnd & Hall)].
  - exists []. repeat constructor.
  - exists (v :: path). split; [simpl; lia|]. split.
    + apply NoDup_cons. split; [|done]. intros Hin.
      rewrite Forall_forall in Hall. destruct (Hall v Hin) as (_ & j & Hj & Hlj).
      assert (leads repl (S k) v t) as Hv by (by econstructor).
      destruct (leads_functional _ _ _ Hv _ _ Hlj). lia.
    + constructor.
      * split; [by eapply next_value_range|]. exists (S k). split; [lia|]. by econstructor.
      * eapply Forall_impl; [exact Hall|]. intros x [Hx (j & Hj & ?)]. split; [done|].
        exists j. split; [lia|done].
Qed.

(** A chain is no longer than the table. *)
Lemma leads_bound k v t : leads repl k v t -> (k <= length repl)%nat.
Proof.
  intros H. destruct (leads_path _ _ _ H) as (path & <- & Hnd & Hall).
  rewrite <- (length_seq (length repl) 0). apply submseteq_length, NoDup_submseteq; [done|].
  intros x Hx. rewrite Forall_forall in Hall. apply elem_of_seq. specialize (Hall x Hx). lia.
Qed.

(** ** The walk *)

Definition cache_sound (cache : list (option nat)) : Prop :=
  forall v r, mjoin (cache !! v) = Some r -> ends_at repl v r.

Lemma resolve_walk_spec cache t : cache_sound cache -> forall depth k cur path,
  leads repl k cur t -> (k <= depth)%nat ->
  exists visited, resolve_walk depth repl cache cur path = (t, path ++ visited) /\
    Forall (fun x => ends_at repl x t) visited.
Proof.
  intros Hc. induction depth as [|depth IH]; intros k cur path Hl Hk.
  { assert (k = 0)%nat as -> by lia. inversion Hl; subst. exists []. by rewrite app_nil_r. }
  simpl. destruct (Nat.leb_spec (length repl) cur) as [Hr|Hr].
  { inversion Hl as [? Hn|? ? ? ? Hn]; subst.
    - exists []. by rewrite app_nil_r.
    - apply next_value_range in Hn. lia. }
  destruct (mjoin (cache !! cur)) as [r|] eqn:Er.
  { apply Hc in Er. exists []. rewrite app_nil_r.
    by rewrite (ends_at_functional cur r t Er (ex_intro _ k Hl)). }
  inversion Hl as [? Hn|k' ? w ? Hn Hw]; subst.
  - rewrite Hn. exists [t]. split; [done|]. repeat constructor. by exists 0%nat.
  - rewrite Hn. destruct (IH k' w (path ++ [cur]) Hw ltac:(lia)) as (vis & -> & Hvis).
    exists (cur :: vis). split; [by rewrite <- app_assoc|]. constructor; [|done].
    by exists (S k').
Qed.

Lemma compress_lookup path t : forall cache v r,
  mjoin (compress path t cache !! v) = Some r -> mjoin (cache !! v) = Some r \/ v ∈ path /\ r = t.
Proof.
  unfold compress. induction path as [|x path IH]; intros cache v r H; simpl in *; [by left|].
  apply IH in H as [H|[H ->]]; [|right; split; [by right|done]].
  destruct (decide (x = v)) as [->|Hne].
  - destruct (decide (v < length cache)%nat) as [Hl|Hl].
    + rewrite list_lookup_insert_eq in H by done. injection H as ->. right. split; [left|done].
    + rewrite list_insert_ge in H by lia. by left.
  - rewrite list_lookup_insert_ne in H by done. by left.
Qed.

Lemma compress_length path t cache : length (compress path t cache) = length cache.
Proof.
  unfold compress. revert cache.
  induction path as [|x path IH]; intros cache; simpl; [done|]. by rewrite IH, length_insert.
Qed.

Lemma compress_sound path t cache :
  cache_sound cache -> Forall (fun x => ends_at repl x t) path -> cache_sound (compress path t cache).
Proof.
  intros Hc Hp v r H. apply compress_lookup in H as [H|[Hv ->]]; [by apply Hc|].
  rewrite Forall_forall in Hp. by apply Hp.
Qed.

(** ** The cycle check *)

Lemma chain_reaches_sound depth : forall cur target,
  chain_reaches depth repl cur target = true -> tc (next_value repl) cur target.
Proof.
  induction depth as [|depth IH]; intros cur target H; simpl in H; [discriminate|].
  destruct (mjoin (repl !! cur)) as [w|] eqn:E; [|discriminate].
  destruct (Nat.eqb_spec w target) as [->|Hne]; [by apply tc_once|].
  eapply tc_l; [exact E|]. by apply IH.
Qed.

Lemma chain_reaches_complete depth : forall k cur t target,
  leads repl k cur t -> (k <= depth)%nat -> tc (next_value repl) cur target ->
  chain_reaches depth repl cur target = true.
Proof.
  induction depth as [|depth IH]; intros k cur t target Hl Hk Ht.
  - assert (k = 0)%nat as -> by lia. inversion Hl as [? Hn|]; subst.
    inversion Ht as [? ? Hs|? ? ? Hs]; subst; unfold next_value in *; congruence.
  - simpl. inversion Hl as [? Hn|k' ? w ? Hn Hw]; subst.
    { inversion Ht as [? ? Hs|? ? ? Hs]; subst; unfold next_value in *; congruence. }
    rewrite Hn. destruct (Nat.eqb_spec w target) as [->|Hne]; [done|].
    apply (IH k' w t); [done|lia|].
    inversion Ht as [? ? Hs|? y ? Hs Hs']; subst; unfold next_value in *; [congruence|].
    by assert (y = w) as <- by congruence.
Qed.

Lemma chain_reaches_exact cur target : chains_end repl ->
  chain_reaches (length repl) repl cur target = true <-> tc (next_value repl) cur target.
Proof.
  intros He. split; [apply chain_reaches_sound|].
  destruct (He cur) as (t & k & Hl). apply (chain_reaches_complete _ k _ t); [done|].
  by eapply leads_bound.
Qed.

End Chains.

(** ** Recording a replacement *)

Section Insert.
Context (repl : list (option nat)).
Context (o n : nat) (Ho : (o < length repl)%nat) (Hne : o <> n).
Context (Hacyclic : ~ tc (next_value repl) n o).

Lemma insert_next v w : v <> o -> next_value (<[o := Some n]> repl) v w <-> next_value repl v w.
Proof. intros Hv. unfold next_value. by rewrite list_lookup_insert_ne by done. Qed.

Lemma insert_next_here : next_value (<[o := Some n]> repl) o n.
Proof. unfold next_value. by rewrite list_lookup_insert_eq. Qed.

Lemma insert_off_chain k v t :
  leads repl k v t -> ~ rtc (next_value repl) v o -> leads (<[o := Some n]> repl) k v t.
Proof.
  induction 1 as [v Hv|k v w t Hn Hl IH]; intros Hr.
  - constructor. destruct (decide (v = o)) as [->|]; [destruct Hr; done|].
    by rewrite list_lookup_insert_ne.
  - assert (v <> o) by (intros ->; by apply Hr). econstructor; [by apply insert_next|].
    apply IH. intros Hw. apply Hr. by eapply rtc_l.
Qed.

Lemma insert_target_off : ~ rtc (next_value repl) n o.
Proof. intros Hr. apply rtc_tc in Hr as [->|Hr]; [by apply Hne|by apply Hacyclic]. Qed.

Lemma insert_off v t :
  ends_at repl v t -> ~ rtc (next_value repl) v o -> ends_at (<[o := Some n]> repl) v t.
Proof. intros [k H] Hr. exists k. by apply insert_off_chain. Qed.

(** Chains through the replaced value continue with the new one. *)
Lemma insert_through v t :
  rtc (next_value repl) v o -> ends_at repl n t -> ends_at (<[o := Some n]> repl) v t.
Proof.
  intros Hr Ht. assert (ends_at (<[o := Some n]> repl) o t) as Hot.
  { eapply ends_at_next; [apply insert_next_here|]. apply insert_off; [done|]. apply insert_target_off. }
  revert v Hr. apply rtc_ind_l; [done|]. intros v w Hn _ IH.
  destruct (decide (v = o)) as [->|Hv]; [done|].
  eapply ends_at_next; [by apply insert_next|done].
Qed.
End Insert.

Lemma rtc_next_dec repl v o : chains_end repl -> Decision (rtc (next_value repl) v o).
Proof.
  intros He. destruct (decide (v = o)) as [->|Hne]; [left; done|].
  destruct (chain_reaches (length repl) repl v o) eqn:E.
  - left. apply chain_reaches_exact in E; [|done]. by apply tc_rtc.
  - right. intros Hr. apply rtc_tc in Hr as [?|Hr]; [done|].
    apply chain_reaches_exact in Hr; [|done]. congruence.
Qed.

Lemma insert_chains_end repl o n : chains_end repl -> (o < length repl)%nat -> o <> n ->
  ~ tc (next_value repl) n o -> chains_end (<[o := Some n]> repl).
Proof.
  intros He Ho Hne Hac v. destruct (rtc_next_dec repl v o He) as [Hr|Hr].
  - destruct (He n) as [t Ht]. exists t. by apply insert_through.
  - destruct (He v) as [t Ht]. exists t. by apply insert_off.
Qed.

(** ** The session's tables *)

Record resolve_ok (s : Session) : Prop := {
  ro_repl_len : length (value_replacements_ s) = value_count s;
  ro_cache_len : length (resolved_value_cache_ s) = value_count s;
  ro_chains : chains_end (value_replacements_ s);
  ro_cache : cache_sound (value_replacements_ s) (resolved_value_cache_ s) }.

(** The walk finds the end of the chain; the session changes only in its cache. *)
Lemma GetResolvedValue_spec s v : resolve_ok s ->
  exists cache', GetResolvedValue s v = (resolved s v, with_caches s cache' (consumer_cache_ s)) /\
    length cache' = length (resolved_value_cache_ s) /\
    cache_sound (value_replacements_ s) cache' /\
    ends_at (value_replacements_ s) v (resolved s v).
Proof.
  intros [Hl1 Hl2 He Hc]. unfold resolved, GetResolvedValue.
  destruct (Nat.leb_spec (length (value_replacements_ s)) v) as [Hr|Hr].
  { exists (resolved_value_cache_ s). split_and!; try done; [by destruct s|].
    exists 0%nat. constructor. by rewrite lookup_ge_None_2. }
  destruct (mjoin (resolved_value_cache_ s !! v)) as [r|] eqn:E.
  { exists (resolved_value_cache_ s). split_and!; try done; [by destruct s|]. by apply Hc. }
  destruct (He v) as (t & k & Hk). pose proof (leads_bound _ _ _ _ Hk) as Hb.
  destruct (resolve_walk_spec _ _ t Hc _ k v [] Hk Hb) as (vis & -> & Hvis). simpl.
  eexists. split_and!; [done|apply compress_length| |by exists k].
  by apply compress_sound.
Qed.

Lemma resolved_ends s v : resolve_ok s -> ends_at (value_replacements_ s) v (resolved s v).
Proof. intros H. by destruct (GetResolvedValue_spec s v H) as (? & _ & _ & _ & ?). Qed.

Lemma resolved_unique s v t :
  resolve_ok s -> ends_at (value_replacements_ s) v t -> resolved s v = t.
Proof. intros H Ht. eapply ends_at_functional; [by apply resolved_ends|done]. Qed.

Lemma GetResolvedValue_ok s v : resolve_ok s -> resolve_ok (GetResolvedValue s v).2.
Proof.
  intros H. destruct (GetResolvedValue_spec s v H) as (c & -> & Hlen & Hs & _).
  destruct H. constructor; simpl; try done. by rewrite Hlen.
Qed.

(** Resolution depends on the replacement table alone. *)
Lemma resolved_ext s s' v : resolve_ok s -> resolve_ok s' ->
  value_replacements_ s = value_replacements_ s' -> resolved s v = resolved s' v.
Proof. intros H H' E. apply resolved_unique; [done|]. rewrite E. by apply resolved_ends. Qed.

Lemma resolved_idem s v : resolve_ok s -> resolved s (resolved s v) = resolved s v.
Proof.
  intros H. apply resolved_unique; [done|]. destruct (resolved_ends s v H) as [k Hk].
  exists 0%nat. constructor. by eapply leads_terminal.
Qed.

Lemma resolved_out s v : (value_count s <= v)%nat -> resolve_ok s -> resolved s v = v.
Proof.
  intros Hv H. apply resolved_unique; [done|]. exists 0%nat. constructor.
  rewrite lookup_ge_None_2; [done|]. destruct H. lia.
Qed.

Lemma new_session_resolve_ok g : resolve_ok (new_session g).
Proof.
  assert (forall n v, mjoin (replicate n None !! v) = @None nat) as Hn.
  { intros n v. destruct (replicate n None !! v) eqn:E; [|done].
    by apply lookup_replicate in E as [-> _]. }
  constructor; simpl; [by rewrite length_replicate..| |].
  - intros v. exists v, 0%nat. constructor. apply Hn.
  - intros v r. rewrite Hn. discriminate.
Qed.

(** What a successful [ReplaceValue] did. *)
Inductive replaced (s : Session) (o n : nat) : Session -> Prop :=
| replaced_self : o = n -> replaced s o n s
| replaced_link : o <> n -> (o < value_count s)%nat -> CheckNonVirtualValueId s n = Ret tt ->
    ~ tc (next_value (value_replacements_ s)) n o ->
    replaced s o n (InvalidateConsumerCache
      (with_replacements s (<[o := Some n]> (value_replacements_ s))
         ((fun _ => None) <$> resolved_value_cache_ s))).

Lemma CheckSourceValueId_ret s v u : CheckSourceValueId s v = Ret u <-> (v < value_count s)%nat.
Proof.
  unfold CheckSourceValueId, ClassifyValue. destruct u.
  destruct (Nat.ltb_spec v (value_count s)); [done|].
  destruct (session_value_metadata_ s !! _) as [[?|]|]; split; intros; (discriminate || lia).
Qed.

Lemma ReplaceValue_cases s o n : resolve_ok s ->
  (exists s', ReplaceValue s o n = (Ret tt, s') /\ replaced s o n s') \/
  (exists e, ReplaceValue s o n = (Fail e, s) /\
    ((value_count s <= o)%nat \/ CheckNonVirtualValueId s n = Fail e \/
     o <> n /\ tc (next_value (value_replacements_ s)) n o)).
Proof.
  intros [Hl _ He _]. unfold ReplaceValue.
  destruct (decide (o < value_count s)%nat) as [Ho|Ho].
  - rewrite (proj2 (CheckSourceValueId_ret s o tt) Ho). cbn [mbind res_mbind res_bind].
    destruct (CheckNonVirtualValueId s n) as [[]|e|w] eqn:En.
    + destruct (Nat.eqb_spec o n) as [->|Hne]; [left; eexists; split; [done|by constructor]|].
      destruct (chain_reaches _ _ n o) eqn:Ec.
      * right. eexists. split; [done|]. right. right. split; [done|]. by eapply chain_reaches_sound.
      * left. eexists. split; [done|]. constructor; [done..|].
        rewrite <- chain_reaches_exact by done. by rewrite Ec.
    + right. exists e. auto.
    + unfold CheckNonVirtualValueId in En. by destruct (ClassifyValue s n).
  - right. destruct (CheckSourceValueId s o) as [u|e|w] eqn:E.
    + apply CheckSourceValueId_ret in E. lia.
    + exists e. split; [done|]. left. lia.
    + unfold CheckSourceValueId in E. by destruct (ClassifyValue s o).
Qed.

Lemma replaced_resolve_ok s o n s' : resolve_ok s -> replaced s o n s' -> resolve_ok s'.
Proof.
  intros Hok Hr. inversion Hr as [Heq|Hne Ho Hn Hac]; subst; [done|]. destruct Hok as [Hl1 Hl2 He Hc].
  constructor; simpl.
  - by rewrite length_insert.
  - by rewrite length_fmap.
  - apply insert_chains_end; [done|lia|done..].
  - intros v r. rewrite list_lookup_fmap. destruct (_ !! v); discriminate.
Qed.

Lemma ReplaceValue_ok s o n : resolve_ok s -> resolve_ok (ReplaceValue s o n).2.
Proof.
  intros H. destruct (ReplaceValue_cases s o n H) as [(s' & -> & Hr)|(e & -> & _)]; [|done].
  by eapply replaced_resolve_ok.
Qed.
