(* ===== verification/RewriteInvariant.v ===== *)
(** * RewriteInvariant: what every rewrite session keeps true

    The invariant of [GraphRewriteSession] between calls, its preservation by every
    edit, the transparency of the two caches, and the meaning of the consumer
    index. *)
From S2P Require Import Prelude DataTypes ShapeSymbol ShapeConstraint OperatorSchema OperatorInference Graph Topology GraphInvariant RewriteSession RewriteResolve.

(** ** Rewrites and the nodes they cover *)

(** A node points at an active rewrite that lists it, and an active rewrite owns
    every node it lists. *)
Record links_ok (s : Session) : Prop := {
  lo_len : length (node_to_rewrite_ s) = length (nodes_ (graph_ s));
  lo_link n r : node_to_rewrite_ s !! n = Some (Some r) ->
    exists rw, rewrites_ s !! r = Some rw /\ active rw = true /\ n ∈ old_nodes rw;
  lo_active r rw : rewrites_ s !! r = Some rw -> active rw = true ->
    old_nodes rw <> [] /\ forall n, n ∈ old_nodes rw -> node_to_rewrite_ s !! n = Some (Some r) }.

(** A rewrite that exposes a node view is the mirror of one node. *)
Definition mirror_entry (s : Session) (rw : RewriteEntry) : Prop :=
  exists n node rn, old_nodes rw = [n] /\ replacements rw = [rn] /\
    nodes_ (graph_ s) !! n = Some node /\
    rn_op_type rn = op_type node /\ rn_layer rn = node_layer node /\
    rn_op_params rn = op_params node /\ rn_attrs rn = attrs node /\ rn_name rn = node_name node /\
    length (rn_inputs rn) = length (node_inputs node) /\
    (replaces <$> rn_outputs rn) = (Some <$> node_outputs node).

Definition mirrors_ok (s : Session) : Prop :=
  forall r rw, rewrites_ s !! r = Some rw -> exposes_node_view rw = true -> mirror_entry s rw.

(** Targets of value replacements are source values or session constants. *)
Definition targets_known (s : Session) : Prop :=
  forall v w, value_replacements_ s !! v = Some (Some w) -> CheckNonVirtualValueId s w = Ret tt.

Record session_ok (s : Session) : Prop := {
  so_resolve : resolve_ok s;
  so_links : links_ok s;
  so_mirrors : mirrors_ok s;
  so_targets : targets_known s;
  so_consumers c : consumer_cache_ s = Some c -> fresh_consumers s = Ret c }.

Lemma mjoin_link (l : list (option nat)) n r : mjoin (l !! n) = Some r <-> l !! n = Some (Some r).
Proof. destruct (l !! n) as [[?|]|]; simpl; split; congruence. Qed.

(** ** Two sessions that differ in their caches only *)

Definition strip (s : Session) : Session := with_caches s [] None.

(** A partial equivalence: both sides must have sound resolution tables. *)
Definition agree (s s' : Session) : Prop := strip s = strip s' /\ resolve_ok s /\ resolve_ok s'.

#[global] Instance agree_per : RelationClasses.PER agree.
Proof.
  split.
  - intros s s' (E & H & H'). by split_and!.
  - intros a b c (E1 & H1 & _) (E2 & _ & H2). split_and!; [congruence|done..].
Qed.

Lemma agree_refl s : resolve_ok s -> agree s s.
Proof. intros H. by split_and!. Qed.

Lemma GetResolvedValue_agree s v : resolve_ok s -> agree s (GetResolvedValue s v).2.
Proof.
  intros H. split_and!; [|done|by apply GetResolvedValue_ok].
  by destruct (GetResolvedValue_spec s v H) as (c & -> & _).
Qed.

Section Agree.
Context (s s' : Session) (HA : agree s s').

Lemma agree_fields : graph_ s = graph_ s' /\ session_value_metadata_ s = session_value_metadata_ s' /\
  rewrites_ s = rewrites_ s' /\ node_to_rewrite_ s = node_to_rewrite_ s' /\
  value_replacements_ s = value_replacements_ s' /\ mutation_generation_ s = mutation_generation_ s'.
Proof. destruct HA as (E & _). unfold strip, with_caches in E. injection E. auto 10. Qed.

Lemma agree_resolved v : resolved s v = resolved s' v.
Proof. destruct HA as (_ & H & H'). apply resolved_ext; [done..|]. apply agree_fields. Qed.

Lemma agree_classify v : ClassifyValue s v = ClassifyValue s' v.
Proof.
  destruct agree_fields as (Eg & Em & _). unfold ClassifyValue, GetSessionValueIndex, value_count.
  by rewrite Eg, Em.
Qed.

Lemma agree_live n : IsNodeLive s n = IsNodeLive s' n.
Proof. destruct agree_fields as (_ & _ & Er & En & _). unfold IsNodeLive, rewrite_at. by rewrite Er, En. Qed.

Lemma agree_mirror n : mirror_of s n = mirror_of s' n.
Proof. destruct agree_fields as (_ & _ & Er & En & _). unfold mirror_of. by rewrite Er, En. Qed.

Lemma agree_live_inputs n : live_inputs s n = live_inputs s' n.
Proof. unfold live_inputs. rewrite agree_mirror. by rewrite (proj1 agree_fields). Qed.

Lemma agree_view n : GetNodeView s n = GetNodeView s' n.
Proof.
  unfold GetNodeView, CheckSourceNodeId. destruct agree_fields as (Eg & _ & Er & En & _).
  rewrite agree_live, agree_mirror, Eg, En. repeat (apply res_bind_ext; intros).
  assert (forall l : list nat, resolved s <$> l = resolved s' <$> l) as E.
  { intros l. apply list_fmap_ext. intros. apply agree_resolved. }
  by destruct a2; rewrite E.
Qed.

Lemma agree_consume count n ins : forall seen buckets,
  consume s count n ins seen buckets = consume s' count n ins seen buckets.
Proof.
  induction ins as [|v ins IH]; intros seen buckets; simpl; [done|].
  rewrite agree_resolved. destruct (_ || _); apply IH.
Qed.

Lemma agree_consumers : fresh_consumers s = fresh_consumers s'.
Proof.
  destruct agree_fields as (Eg & Em & Er & En & _ & Egen).
  unfold fresh_consumers, next_value_index, value_count. rewrite Eg, Em, Egen.
  apply res_bind_ext. intros order. do 2 f_equal.
  - unfold index_originals. apply foldl_ext_pointwise. intros b n.
    rewrite agree_live, agree_live_inputs. by rewrite agree_consume.
  - unfold count_replacements, replacement_inputs. rewrite Er.
    apply foldl_ext_pointwise. intros c v. by rewrite agree_resolved.
Qed.
End Agree.

(** ** Deactivation *)

Lemma clear_links_length r olds : forall links, length (clear_links r olds links) = length links.
Proof.
  unfold clear_links. induction olds as [|n olds IH]; intros links; simpl; [done|].
  rewrite IH. case_bool_decide; [by rewrite length_insert|done].
Qed.

Lemma clear_links_lookup r olds : forall links n,
  clear_links r olds links !! n =
  (if decide (n ∈ olds /\ links !! n = Some (Some r)) then Some None else links !! n).
Proof.
  unfold clear_links. induction olds as [|m olds IH]; intros links n; cbn [foldl].
  { rewrite decide_False; [done|]. intros [H _]. by apply not_elem_of_nil in H. }
  rewrite IH. clear IH. case_bool_decide as Hm; [apply mjoin_link in Hm|].
  - pose proof (lookup_lt_Some _ _ _ Hm) as Hlt. destruct (decide (m = n)) as [<-|Hne].
    + rewrite list_lookup_insert_eq by done. rewrite (decide_True (P := m ∈ m :: olds /\ _))
        by (split; [left|done]). by destruct (decide _).
    + rewrite list_lookup_insert_ne by done. 
      destruct (decide (n ∈ olds /\ _)) as [[H1 H2]|H1], (decide (n ∈ m :: olds /\ _)) as [[H3 H4]|H3]; try done.
      * destruct H3. split; [by right|done].
      * apply elem_of_cons in H3 as [->|H3]; [done|]. destruct H1. done.
  - destruct (decide (n ∈ olds /\ _)) as [[H1 H2]|H1], (decide (n ∈ m :: olds /\ _)) as [[H3 H4]|H3]; try done.
    + destruct H3. split; [by right|done].
    + apply elem_of_cons in H3 as [->|H3]; [|destruct H1; done]. by rewrite mjoin_link in Hm.
Qed.

(** The parts of the session that only depend on rewrites. *)
Definition covered_ok (s : Session) : Prop := links_ok s /\ mirrors_ok s.

Definition deactivated (rw : RewriteEntry) : RewriteEntry :=
  mkRewrite (old_nodes rw) (replacements rw) false (exposes_node_view rw).

Lemma DeactivateRewrite_links s r rw : links_ok s ->
  rewrites_ s !! r = Some rw -> active rw = true ->
  rewrites_ (DeactivateRewrite s r) = <[r := deactivated rw]> (rewrites_ s) /\
  forall n, node_to_rewrite_ (DeactivateRewrite s r) !! n =
    (if decide (node_to_rewrite_ s !! n = Some (Some r)) then Some None else node_to_rewrite_ s !! n).
Proof.
  intros Hl Hr Ha. unfold DeactivateRewrite. rewrite Hr, Ha. simpl. split; [done|]. intros n.
  rewrite clear_links_lookup. destruct (decide (node_to_rewrite_ s !! n = Some (Some r))) as [E|E].
  - rewrite decide_True; [done|]. split; [|done].
    destruct (lo_link s Hl n r E) as (rw' & Hr' & _ & Hn). congruence.
  - rewrite decide_False; [done|]. tauto.
Qed.

Lemma DeactivateRewrite_covered s r : covered_ok s -> covered_ok (DeactivateRewrite s r).
Proof.
  intros [Hl Hm]. destruct (rewrites_ s !! r) as [rw|] eqn:Hr.
  2: { unfold DeactivateRewrite. by rewrite Hr. }
  destruct (active rw) eqn:Ha. 2: { unfold DeactivateRewrite. by rewrite Hr, Ha. }
  destruct (DeactivateRewrite_links s r rw Hl Hr Ha) as [Erw Elk].
  assert (graph_ (DeactivateRewrite s r) = graph_ s) as Eg
    by (unfold DeactivateRewrite; by rewrite Hr, Ha).
  pose proof (lookup_lt_Some _ _ _ Hr) as Hlt. split.
  - constructor.
    + rewrite Eg, <- (lo_len s Hl). unfold DeactivateRewrite. rewrite Hr, Ha. apply clear_links_length.
    + intros n r'. rewrite Elk. destruct (decide _) as [|Hne]; [discriminate|]. intros E.
      destruct (lo_link s Hl n r' E) as (rw' & Hr' & Ha' & Hn). exists rw'. split; [|done].
      rewrite Erw, list_lookup_insert_ne; [done|]. intros ->. congruence.
    + intros r' rw'. rewrite Erw. destruct (decide (r = r')) as [<-|Hne].
      * rewrite list_lookup_insert_eq by done. intros [= <-]. discriminate.
      * rewrite list_lookup_insert_ne by done. intros Hr' Ha'.
        destruct (lo_active s Hl r' rw' Hr' Ha') as [Hnil Hall]. split; [done|].
        intros n Hn. rewrite Elk, Hall by done. rewrite decide_False; [done|]. congruence.
  - intros r' rw'. rewrite Erw. unfold mirror_entry. rewrite Eg.
    destruct (decide (r = r')) as [<-|Hne].
    + rewrite list_lookup_insert_eq by done. intros [= <-]. apply (Hm r rw Hr).
    + rewrite list_lookup_insert_ne by done. apply Hm.
Qed.

Lemma deactivate_covering_covered s n : covered_ok s -> covered_ok (deactivate_covering s n).
Proof.
  intros H. unfold deactivate_covering. destruct (mjoin _); [by apply DeactivateRewrite_covered|done].
Qed.

(** Only links and rewrites change, and links are only ever cleared. *)
Record deactivates (s s' : Session) : Prop := {
  de_rest : s' = with_rewrites s (rewrites_ s') (node_to_rewrite_ s');
  de_len : length (rewrites_ s') = length (rewrites_ s);
  de_cleared n : node_to_rewrite_ s !! n = Some None -> node_to_rewrite_ s' !! n = Some None;
  de_links n : node_to_rewrite_ s' !! n = node_to_rewrite_ s !! n \/ node_to_rewrite_ s' !! n = Some None }.

Lemma deactivates_refl s : deactivates s s.
Proof. constructor; [by destruct s|done..|by left]. Qed.

Lemma deactivates_trans a b c : deactivates a b -> deactivates b c -> deactivates a c.
Proof.
  intros [E1 L1 C1 K1] [E2 L2 C2 K2]. constructor.
  - rewrite E2, E1. done.
  - congruence.
  - auto.
  - intros n. destruct (K2 n) as [->|]; [apply K1|by right].
Qed.

Lemma DeactivateRewrite_deactivates s r : deactivates s (DeactivateRewrite s r).
Proof.
  unfold DeactivateRewrite. destruct (rewrites_ s !! r) as [rw|]; [|apply deactivates_refl].
  destruct (active rw); [|apply deactivates_refl]. constructor; simpl.
  - done.
  - by rewrite length_insert.
  - intros n E. rewrite clear_links_lookup, decide_False; [done|]. intros [_ E']. congruence.
  - intros n. rewrite clear_links_lookup. destruct (decide _); auto.
Qed.

Lemma deactivate_covering_spec s n : links_ok s -> (n < length (node_to_rewrite_ s))%nat ->
  deactivates s (deactivate_covering s n) /\ node_to_rewrite_ (deactivate_covering s n) !! n = Some None.
Proof.
  intros Hl Hn. unfold deactivate_covering.
  destruct (mjoin (node_to_rewrite_ s !! n)) as [r|] eqn:E.
  - split; [apply DeactivateRewrite_deactivates|]. apply mjoin_link in E.
    destruct (lo_link s Hl n r E) as (rw & Hr & Ha & _).
    destruct (DeactivateRewrite_links s r rw Hl Hr Ha) as [_ ->]. by rewrite decide_True.
  - split; [apply deactivates_refl|]. destruct (lookup_lt_is_Some_2 _ _ Hn) as [[r|] Er]; [|done].
    by rewrite Er in E.
Qed.

Lemma deactivate_all olds : forall s, covered_ok s ->
  Forall (fun n => (n < length (node_to_rewrite_ s))%nat) olds ->
  covered_ok (foldl deactivate_covering s olds) /\
  deactivates s (foldl deactivate_covering s olds) /\
  Forall (fun n => node_to_rewrite_ (foldl deactivate_covering s olds) !! n = Some None) olds.
Proof.
  induction olds as [|n olds IH]; intros s Hc Hlt; simpl.
  { split_and!; [done|apply deactivates_refl|done]. }
  inversion Hlt as [|? ? Hn Hlt']; subst.
  destruct (deactivate_covering_spec s n (proj1 Hc) Hn) as [Hd Hclear].
  pose proof (deactivate_covering_covered s n Hc) as Hc'.
  destruct (IH _ Hc') as (Hc2 & Hd2 & Hall).
  { rewrite (lo_len _ (proj1 Hc')), (de_rest _ _ Hd). simpl. by rewrite <- (lo_len _ (proj1 Hc)). }
  split_and!; [done|by eapply deactivates_trans|]. constructor; [|done]. by apply (de_cleared _ _ Hd2).
Qed.

(** ** Installing a rewrite *)

Lemma point_links_lookup r olds : forall (links : list (option nat)) n,
  foldl (fun l n => <[n := Some r]> l) links olds !! n =
  (if decide (n ∈ olds /\ (n < length links)%nat) then Some (Some r) else links !! n).
Proof.
  induction olds as [|m olds IH]; intros links n; cbn [foldl].
  { rewrite decide_False; [done|]. intros [H _]. by apply not_elem_of_nil in H. }
  rewrite IH, length_insert. destruct (decide (m = n)) as [<-|Hne].
  - destruct (decide (m < length links)%nat) as [Hlt|Hge].
    + rewrite list_lookup_insert_eq by done. rewrite (decide_True (P := m ∈ m :: olds /\ _))
        by (split; [left|done]). by destruct (decide _).
    + rewrite list_insert_ge by lia. rewrite !decide_False by tauto. done.
  - rewrite list_lookup_insert_ne by done.
    assert (n ∈ olds <-> n ∈ m :: olds) as E by (rewrite elem_of_cons; intuition congruence).
    destruct (decide (n ∈ olds /\ _)), (decide (n ∈ m :: olds /\ _)); tauto || done.
Qed.

Lemma point_links_length r olds : forall links : list (option nat),
  length (foldl (fun l n => <[n := Some r]> l) links olds) = length links.
Proof.
  induction olds as [|m olds IH]; intros links; simpl; [done|]. by rewrite IH, length_insert.
Qed.

Lemma install_covered s olds rns exposes : covered_ok s -> olds <> [] ->
  Forall (fun n => node_to_rewrite_ s !! n = Some None) olds ->
  (exposes = true -> mirror_entry s (mkRewrite olds rns true exposes)) ->
  covered_ok (install_rewrite s olds rns exposes).
Proof.
  intros [[Hlen Hlink Hact] Hm] Hnil Hfree Hmir. rewrite Forall_forall in Hfree. split.
  - constructor; simpl.
    + by rewrite point_links_length.
    + intros n r. rewrite point_links_lookup. destruct (decide _) as [[Hn _]|Hn].
      * intros [= <-]. eexists. split; [apply list_lookup_middle; done|]. done.
      * intros E. destruct (Hlink n r E) as (rw & Hr & ?). exists rw. split; [|done].
        by apply lookup_app_l_Some.
    + intros r rw Hr Ha. apply lookup_snoc_Some in Hr as [[Hlt Hr]|[-> <-]].
      * destruct (Hact r rw Hr Ha) as [Hne Hall]. split; [done|]. intros n Hn.
        rewrite point_links_lookup, decide_False; [by apply Hall|]. intros [Hn' _].
        apply Hall in Hn. rewrite Hfree in Hn by done. discriminate.
      * simpl. split; [done|]. intros n Hn. rewrite point_links_lookup, decide_True; [done|].
        split; [done|]. apply Hfree in Hn. by apply lookup_lt_Some in Hn.
  - intros r rw Hr He. simpl in Hr. apply lookup_snoc_Some in Hr as [[_ Hr]|[_ <-]]; [by apply (Hm r rw)|].
    by apply Hmir.
Qed.

(** Everything but the consumer index and the rewrite tables is untouched. *)
Lemma rewrites_ok s rw ln : session_ok s ->
  let s' := InvalidateConsumerCache (with_rewrites s rw ln) in
  covered_ok s' -> session_ok s'.
Proof.
  intros Hs s' [Hl Hm]. destruct Hs as [[R1 R2 R3 R4] _ _ Ht _]. subst s'. constructor; [|done..|].
  - by constructor.
  - discriminate.
Qed.

Section Preserve.
Context {OS : OperatorSemantics}.

Lemma replaceable_outputs_ret s olds allowed : replaceable_outputs s olds = Ret allowed ->
  Forall (fun n => (n < length (nodes_ (graph_ s)))%nat) olds /\
  forall v, v ∈ allowed -> exists n node, n ∈ olds /\ nodes_ (graph_ s) !! n = Some node /\ v ∈ node_outputs node.
Proof.
  unfold replaceable_outputs. intros H. res_inv. apply res_mapi_ret in Hm as [Hlen Hf].
  assert (forall k n, olds !! k = Some n -> exists node, nodes_ (graph_ s) !! n = Some node /\
            a !! k = Some (node_outputs node)) as Hk.
  { intros k n E. destruct (Hf k n E) as (y & Hy & H). res_inv. unfold GetNode in Hm0.
    destruct (nodes_ (graph_ s) !! n) as [node|] eqn:En; [|discriminate].
    injection Hm0 as <-. by exists node. }
  split.
  - apply Forall_lookup. intros k n E. destruct (Hk k n E) as (node & Hn & _).
    by apply lookup_lt_Some in Hn.
  - intros v Hv. apply list_elem_of_join in Hv as (outs & Hv & Hin).
    apply list_elem_of_lookup in Hin as [k Ek].
    destruct (lookup_lt_is_Some_2 olds k) as [n En]; [apply lookup_lt_Some in Ek; lia|].
    destruct (Hk k n En) as (node & Hn & Ha). exists n, node. split_and!; [|done|congruence].
    by apply list_elem_of_lookup_2 with k.
Qed.

Lemma check_subgraph_ret s olds rns u : check_subgraph s olds rns = Ret u ->
  olds <> [] /\ Forall (fun n => (n < length (nodes_ (graph_ s)))%nat) olds.
Proof.
  unfold check_subgraph, ValidateReplacementTargets. intros H. res_inv. bsplit. split; [done|].
  by eapply replaceable_outputs_ret.
Qed.

Lemma ReplaceSubgraph_ok s olds rns : session_ok s -> session_ok (ReplaceSubgraph s olds rns).2.
Proof.
  intros Hs. unfold ReplaceSubgraph, guarded.
  destruct (check_subgraph s olds rns) eqn:E; [|done..]. apply check_subgraph_ret in E as [Hnil Hlt].
  destruct (deactivate_all olds s) as (Hc & Hd & Hall); [by split; apply Hs| |].
  { by rewrite (lo_len _ (so_links s Hs)). }
  cbn [snd]. revert Hc Hall. rewrite (de_rest _ _ Hd). intros Hc Hall.
  apply (rewrites_ok s); [done|].
  by apply (install_covered _ olds rns false Hc).
Qed.

Lemma BuildMirrorReplacement_ret g n rn : BuildMirrorReplacement g n = Ret rn ->
  exists node, nodes_ g !! n = Some node /\
    rn_op_type rn = op_type node /\ rn_layer rn = node_layer node /\
    rn_op_params rn = op_params node /\ rn_attrs rn = attrs node /\ rn_name rn = node_name node /\
    rn_inputs rn = node_inputs node /\ (replaces <$> rn_outputs rn) = (Some <$> node_outputs node).
Proof.
  unfold BuildMirrorReplacement. intros H. res_inv. unfold GetNode in Hm.
  destruct (nodes_ g !! n) as [node|] eqn:En; [|discriminate]. injection Hm as <-.
  exists node. split_and!; try done. simpl. apply res_mapi_ret in Hm0 as [Hlen Hf].
  apply list_eq. intros k. rewrite !list_lookup_fmap. destruct (node_outputs node !! k) as [v|] eqn:Ev.
  - destruct (Hf k v Ev) as (y & -> & Hy). res_inv. done.
  - by rewrite lookup_ge_None_2; [|rewrite Hlen; by apply lookup_ge_None_1].
Qed.

Lemma RedirectInput_ok s n i v : session_ok s -> session_ok (RedirectInput s n i v).2.
Proof.
  intros Hs. unfold RedirectInput. destruct (check_redirect s n i v) eqn:Ec; [|done..].
  pose proof (so_links s Hs) as Hl. destruct (mjoin (node_to_rewrite_ s !! n)) as [r|] eqn:El.
  - destruct (IsNodeLive s n) eqn:Hlive; [|done]. apply mjoin_link in El.
    destruct (lo_link s Hl n r El) as (rw & Hr & Ha & Hn). rewrite Hr.
    destruct rw as [olds [|rn rest] act e]; [done|]. destruct (_ <=? i)%nat; [done|].
    apply (rewrites_ok s); [done|]. simpl in *. subst act.
    pose proof (lookup_lt_Some _ _ _ Hr) as Hlt. split.
    + destruct Hl as [L1 L2 L3]. constructor; simpl; [done| |].
      * intros m r' E. destruct (L2 m r' E) as (rw' & Hr' & Ha' & Hm'). destruct (decide (r = r')) as [<-|Hne].
        -- rewrite list_lookup_insert_eq by done. rewrite Hr in Hr'. injection Hr' as <-. by eexists.
        -- rewrite list_lookup_insert_ne by done. by eexists.
      * intros r' rw'. destruct (decide (r = r')) as [<-|Hne].
        -- rewrite list_lookup_insert_eq by done. intros [= <-] _. by apply (L3 r _ Hr).
        -- rewrite list_lookup_insert_ne by done. apply L3.
    + intros r' rw'. simpl. destruct (decide (r = r')) as [<-|Hne].
      * rewrite list_lookup_insert_eq by done. intros [= <-] He.
        destruct (so_mirrors s Hs r _ Hr He) as (m & node & rn' & E1 & E2 & E3 & E4 & E5 & E6 & E7 & E8 & E9 & E10).
        simpl in *. injection E2 as <- ->. exists m, node, (set_input rn i v). split_and!; try done.
        simpl. by rewrite length_insert.
      * rewrite list_lookup_insert_ne by done. apply (so_mirrors s Hs).
  - destruct (BuildMirrorReplacement (graph_ s) n) as [rn| |] eqn:Eb; [|done..].
    apply (rewrites_ok s); [done|]. apply BuildMirrorReplacement_ret in Eb
      as (node & E3 & E4 & E5 & E6 & E7 & E8 & E9 & E10).
    apply (install_covered s [n] [set_input rn i v] true); [by split; apply Hs|done| |].
    + constructor; [|done]. destruct (lookup_lt_is_Some_2 (node_to_rewrite_ s) n) as [[r|] Er].
      * rewrite (lo_len s Hl). by apply lookup_lt_Some in E3.
      * by rewrite Er in El.
      * done.
    + intros _. exists n, node, (set_input rn i v). split_and!; try done. simpl. by rewrite length_insert, E9.
Qed.

Lemma RemoveNode_ok s n : session_ok s -> session_ok (RemoveNode s n).2.
Proof. intros Hs. unfold RemoveNode. destruct (CheckSourceNodeId s n); [by apply ReplaceSubgraph_ok|done..]. Qed.

Lemma ReplaceValue_session_ok s o n : session_ok s -> session_ok (ReplaceValue s o n).2.
Proof.
  intros Hs. destruct (ReplaceValue_cases s o n (so_resolve s Hs)) as [(s' & -> & Hr)|(e & -> & _)]; [|done].
  pose proof (replaced_resolve_ok s o n s' (so_resolve s Hs) Hr) as Hok. simpl.
  pose proof (ro_repl_len s (so_resolve s Hs)) as Hlen.
  inversion Hr as [|Hne Ho Hn Hac]; subst; [done|]. destruct Hs as [_ [L1 L2 L3] Hm Ht _].
  constructor; [done|by constructor|done| |discriminate].
  intros v w. simpl. destruct (decide (o = v)) as [<-|Hv].
  - rewrite list_lookup_insert_eq by lia. by intros [= <-].
  - rewrite list_lookup_insert_ne by done. apply Ht.
Qed.

Lemma classify_grows s m v : CheckNonVirtualValueId s v = Ret tt ->
  CheckNonVirtualValueId (InvalidateConsumerCache (with_metadata s (session_value_metadata_ s ++ [m]))) v = Ret tt.
Proof.
  unfold CheckNonVirtualValueId, ClassifyValue, GetSessionValueIndex, value_count. simpl.
  destruct (_ <? _)%nat; [done|].
  destruct (session_value_metadata_ s !! _) as [[c|]|] eqn:E; try discriminate.
  by rewrite (lookup_app_l_Some _ _ _ _ E).
Qed.

Lemma append_metadata_ok s m why : session_ok s -> session_ok (append_metadata s m why).2.
Proof.
  intros Hs. unfold append_metadata. destruct (_ <? _) eqn:E; [|done].
  destruct Hs as [[R1 R2 R3 R4] [L1 L2 L3] Hm Ht _].
  constructor; [by constructor..|done| |discriminate].
  intros v w H. apply classify_grows. by apply (Ht v).
Qed.
End Preserve.

(** ** The consumer index *)

Lemma agree_session_ok s s' : session_ok s -> agree s s' ->
  (forall c, consumer_cache_ s' = Some c -> fresh_consumers s = Ret c) -> session_ok s'.
Proof.
  intros [_ [L1 L2 L3] Hm Ht _] HA Hc. pose proof (agree_fields s s' HA) as (Eg & Em & Er & En & Ev & _).
  constructor.
  - apply HA.
  - constructor; rewrite <- ?Eg, <- ?En, <- ?Er; done.
  - intros r rw. unfold mirror_entry. rewrite <- Er, <- Eg. apply Hm.
  - intros v w. rewrite <- Ev. unfold CheckNonVirtualValueId. rewrite <- (agree_classify s s' HA). apply Ht.
  - intros c E. rewrite <- (agree_consumers s s' HA). by apply Hc.
Qed.

Lemma GetResolvedValue_session_ok s v : session_ok s -> session_ok (GetResolvedValue s v).2.
Proof.
  intros Hs. apply (agree_session_ok s); [done|apply GetResolvedValue_agree, Hs|].
  destruct (GetResolvedValue_spec s v (so_resolve s Hs)) as (c & -> & _). apply (so_consumers s Hs).
Qed.

(** Cached or rebuilt, the index is the one of the current state. *)
Lemma EnsureConsumerCache_spec s : session_ok s ->
  (EnsureConsumerCache s).1 = fresh_consumers s /\ agree s (EnsureConsumerCache s).2 /\
  session_ok (EnsureConsumerCache s).2.
Proof.
  intros Hs. pose proof (so_resolve s Hs) as Hr. pose proof Hr as [R1 R2 R3 R4].
  assert (forall c, fresh_consumers s = Ret c ->
    agree s (with_caches s (resolved_value_cache_ s) (Some c)) /\
    session_ok (with_caches s (resolved_value_cache_ s) (Some c))) as Hnew.
  { intros c Ec. assert (agree s (with_caches s (resolved_value_cache_ s) (Some c))) as HA
      by (split_and!; [done..|by constructor]).
    split; [done|]. apply (agree_session_ok s); [done..|]. simpl. by intros ? [= <-]. }
  unfold EnsureConsumerCache. destruct (consumer_cache_ s) as [c|] eqn:E.
  - pose proof (so_consumers s Hs c E) as Hc.
    assert (generation c = mutation_generation_ s) as ->.
    { unfold fresh_consumers in Hc. res_inv. by subst. }
    rewrite Z.eqb_refl. simpl. split_and!; [done|by apply agree_refl|done].
  - destruct (fresh_consumers s) as [c| |] eqn:Ef; simpl; split_and!; try done;
      (by apply agree_refl) || by apply Hnew.
Qed.

Lemma consume_lookup s count n ins : forall seen buckets k, length buckets = count ->
  consume s count n ins seen buckets !! k =
  (fun b => b ++ (if decide (k ∈ resolved s <$> ins /\ k ∉ seen) then [n] else [])) <$> buckets !! k.
Proof.
  induction ins as [|v ins IH]; intros seen buckets k Hlen; cbn [consume].
  { rewrite decide_False; [|intros [H _]; by apply not_elem_of_nil in H].
    destruct (buckets !! k); simpl; [by rewrite app_nil_r|done]. }
  rewrite fmap_cons. destruct (_ || _) eqn:Eb.
  - rewrite IH by done. destruct (buckets !! k) as [b|] eqn:Ek; [|done]. simpl. do 2 f_equal.
    apply lookup_lt_Some in Ek. apply orb_true_iff in Eb.
    destruct (decide (k ∈ resolved s <$> ins /\ _)) as [[H1 H2]|H], (decide (k ∈ resolved s v :: _ /\ _)) as [[H3 H4]|H']; try done.
    + destruct H'. split; [by right|done].
    + destruct H. apply elem_of_cons in H3 as [->|H3]; [|done].
      destruct Eb as [Eb|Eb]; bsplit; [lia|done].
  - apply orb_false_iff in Eb as [E1 E2]. bsplit. rewrite IH by (by rewrite length_alter).
    destruct (decide (resolved s v = k)) as [<-|Hne].
    + rewrite list_lookup_alter_eq. destruct (buckets !! resolved s v); simpl; [|done]. f_equal.
      rewrite decide_False by (rewrite elem_of_app, list_elem_of_singleton; tauto).
      rewrite decide_True by (split; [left|done]). by rewrite app_nil_r.
    + rewrite list_lookup_alter_ne by done. destruct (buckets !! k); simpl; [|done]. do 2 f_equal.
      assert (k ∈ resolved s <$> ins /\ k ∉ seen ++ [resolved s v] <->
              k ∈ resolved s v :: (resolved s <$> ins) /\ k ∉ seen) as E.
      { rewrite elem_of_app, list_elem_of_singleton, elem_of_cons. intuition congruence. }
      destruct (decide (_ /\ k ∉ seen ++ _)), (decide (_ /\ k ∉ seen)); tauto || done.
Qed.

Lemma consume_length s count n ins : forall seen buckets,
  length (consume s count n ins seen buckets) = length buckets.
Proof.
  induction ins as [|v ins IH]; intros seen buckets; simpl; [done|].
  destruct (_ || _); rewrite IH; [done|by rewrite length_alter].
Qed.

(** [n] reads, after resolution, the value [r]. *)
Definition reads (s : Session) (n r : nat) : Prop :=
  IsNodeLive s n = true /\ r ∈ resolved s <$> live_inputs s n.
#[global] Instance reads_dec s n r : Decision (reads s n r).
Proof. unfold reads. apply _. Defined.

Lemma index_originals_lookup s count order k : (k < count)%nat ->
  index_originals s count order !! k = Some (filter (fun n => reads s n k) order).
Proof.
  intros Hk. unfold index_originals.
  assert (forall order buckets, length buckets = count ->
    foldl (fun buckets n => if IsNodeLive s n then consume s count n (live_inputs s n) [] buckets
                            else buckets) buckets order !! k =
    (fun b => b ++ filter (fun n => reads s n k) order) <$> buckets !! k) as H.
  { clear order. induction order as [|n order IH]; intros buckets Hl; cbn [foldl].
    { destruct (buckets !! k); simpl; [by rewrite app_nil_r|done]. }
    rewrite filter_cons. destruct (IsNodeLive s n) eqn:El.
    - rewrite IH by (by rewrite consume_length). rewrite consume_lookup by done.
      destruct (buckets !! k) as [b|]; simpl; [|done]. f_equal. rewrite <- app_assoc. f_equal.
      assert (k ∈ resolved s <$> live_inputs s n /\ k ∉ [] <-> reads s n k) as E.
      { unfold reads. rewrite El. pose proof (not_elem_of_nil k). tauto. }
      destruct (decide (_ /\ _ ∉ [])), (decide (reads s n k)); tauto || done.
    - rewrite IH by done. rewrite decide_False; [done|]. unfold reads. rewrite El. by intros [? _]. }
  rewrite H by apply length_replicate. rewrite lookup_replicate_2 by done. done.
Qed.

Lemma count_replacements_lookup s count k : (k < count)%nat ->
  count_replacements s count !! k =
  Some (u32 (Z.of_nat (length (filter (fun w => resolved s w = k) (replacement_inputs s))))).
Proof.
  intros Hk. unfold count_replacements.
  assert (forall ins (counts : list Z) c, counts !! k = Some c -> c = u32 c ->
    foldl (fun counts v => alter (fun c => u32 (c + 1)) (resolved s v) counts) counts ins !! k =
    Some (u32 (c + Z.of_nat (length (filter (fun w => resolved s w = k) ins))))) as H.
  { induction ins as [|v ins IH]; intros counts c Hc Eu; cbn [foldl].
    { rewrite Hc, Eu. simpl. unfold wrap. by rewrite Z.add_0_r, Z.mod_mod. }
    rewrite filter_cons. destruct (decide (resolved s v = k)) as [<-|Hne].
    - rewrite (IH _ (u32 (c + 1))); [|by rewrite list_lookup_alter_eq, Hc|unfold wrap; by rewrite Z.mod_mod].
      f_equal. unfold wrap. rewrite Zplus_mod_idemp_l. f_equal. simpl length. lia.
    - apply IH; [by rewrite list_lookup_alter_ne|done]. }
  by rewrite (H _ _ 0); [|by apply lookup_replicate_2|].
Qed.

(** A non-virtual value resolves to a non-virtual value. *)
Lemma ends_non_virtual s v t : targets_known s -> CheckNonVirtualValueId s v = Ret tt ->
  ends_at (value_replacements_ s) v t -> CheckNonVirtualValueId s t = Ret tt.
Proof.
  intros Ht Hv [k H]. induction H as [v|k v w t Hn _ IH]; [done|].
  apply IH. apply mjoin_link in Hn. by apply (Ht v).
Qed.

Lemma resolved_non_virtual s v : session_ok s -> CheckNonVirtualValueId s v = Ret tt ->
  CheckNonVirtualValueId s (resolved s v) = Ret tt.
Proof. intros Hs Hv. apply (ends_non_virtual s v); [apply Hs|done|apply resolved_ends, Hs]. Qed.

Lemma non_virtual_range s v : CheckNonVirtualValueId s v = Ret tt -> (v < next_value_index s)%nat.
Proof.
  unfold CheckNonVirtualValueId, ClassifyValue, next_value_index, GetSessionValueIndex.
  destruct (Nat.ltb_spec v (value_count s)) as [Hv|Hv]; [lia|].
  destruct (session_value_metadata_ s !! _) as [[c|]|] eqn:E; try discriminate.
  apply lookup_lt_Some in E. lia.
Qed.

Lemma addressable_iff s v : not_addressable s v = false <-> CheckNonVirtualValueId s v = Ret tt.
Proof.
  unfold not_addressable, CheckNonVirtualValueId, IsSessionLocalValue, IsSessionVirtualValue.
  unfold ClassifyValue. destruct (Nat.ltb_spec v (value_count s)) as [H|H].
  - rewrite (proj2 (Nat.leb_gt _ _) H). simpl. done.
  - rewrite (proj2 (Nat.leb_le _ _) H). by destruct (session_value_metadata_ s !! _) as [[c|]|].
Qed.

(** Both queries answer from the index of the current state. *)
Lemma query_index s v : session_ok s ->
  (EnsureConsumerCache (GetResolvedValue s v).2).1 = fresh_consumers s /\
  session_ok (EnsureConsumerCache (GetResolvedValue s v).2).2 /\
  agree s (EnsureConsumerCache (GetResolvedValue s v).2).2.
Proof.
  intros Hs. pose proof (GetResolvedValue_session_ok s v Hs) as Hs1.
  pose proof (GetResolvedValue_agree s v (so_resolve s Hs)) as HA.
  destruct (EnsureConsumerCache_spec _ Hs1) as (-> & HA2 & Hs2).
  split_and!; [|done|by etransitivity]. symmetry. by apply agree_consumers.
Qed.

Lemma HasLiveConsumers_session s v : session_ok s ->
  session_ok (HasLiveConsumers s v).2 /\ agree s (HasLiveConsumers s v).2.
Proof.
  intros Hs. unfold HasLiveConsumers. destruct (not_addressable s v).
  { split; [done|]. apply agree_refl, Hs. }
  destruct (query_index s v Hs) as (_ & H & HA). destruct (GetResolvedValue s v) as [r s1].
  simpl in *. by destruct (EnsureConsumerCache s1).
Qed.

Lemma FindConsumers_session s v : session_ok s ->
  session_ok (FindConsumers s v).2 /\ agree s (FindConsumers s v).2.
Proof.
  intros Hs. unfold FindConsumers. destruct (not_addressable s v).
  { split; [done|]. apply agree_refl, Hs. }
  destruct (query_index s v Hs) as (_ & H & HA). destruct (GetResolvedValue s v) as [r s1].
  simpl in *. by destruct (EnsureConsumerCache s1).
Qed.

Lemma FindConsumers_answer s v order : session_ok s -> TopologicalOrder (graph_ s) = Ret order ->
  CheckNonVirtualValueId s v = Ret tt ->
  (FindConsumers s v).1 = Ret (filter (fun n => reads s n (resolved s v)) order).
Proof.
  intros Hs Ho Hv. unfold FindConsumers. rewrite (proj2 (addressable_iff s v) Hv).
  destruct (query_index s v Hs) as (Hq & _). pose proof (resolved_non_virtual s v Hs Hv) as Hrv.
  unfold resolved in *. destruct (GetResolvedValue s v) as [r s1]. simpl in *.
  destruct (EnsureConsumerCache s1) as [c s2]. simpl in *. rewrite Hq.
  unfold fresh_consumers. rewrite Ho. simpl. f_equal.
  by rewrite index_originals_lookup by (by apply non_virtual_range).
Qed.

Lemma HasLiveConsumers_answer s v order : session_ok s -> TopologicalOrder (graph_ s) = Ret order ->
  CheckNonVirtualValueId s v = Ret tt ->
  (HasLiveConsumers s v).1 =
    Ret (bool_decide (filter (fun n => reads s n (resolved s v)) order <> []) ||
         (0 <? u32 (Z.of_nat (length (filter (fun w => resolved s w = resolved s v)
                                        (replacement_inputs s)))))).
Proof.
  intros Hs Ho Hv. unfold HasLiveConsumers. rewrite (proj2 (addressable_iff s v) Hv).
  destruct (query_index s v Hs) as (Hq & _). pose proof (resolved_non_virtual s v Hs Hv) as Hrv.
  change (resolved s v) with (GetResolvedValue s v).1 in *.
  destruct (GetResolvedValue s v) as [r s1]. simpl in *.
  destruct (EnsureConsumerCache s1) as [c s2]. simpl in *. rewrite Hq.
  unfold fresh_consumers. rewrite Ho. cbn [mbind res_mbind res_bind original_consumers replacement_consumer_counts].
  rewrite index_originals_lookup, count_replacements_lookup by (by apply non_virtual_range). done.
Qed.

Lemma HasLiveConsumers_iff s v order : session_ok s -> TopologicalOrder (graph_ s) = Ret order ->
  CheckNonVirtualValueId s v = Ret tt -> zlen (replacement_inputs s) < 2 ^ 32 ->
  exists b, (HasLiveConsumers s v).1 = Ret b /\
    (b = true <-> (exists n, n ∈ order /\ reads s n (resolved s v)) \/
                  (exists w, w ∈ replacement_inputs s /\ resolved s w = resolved s v)).
Proof.
  intros Hs Ho Hv Hb. eexists. split; [by apply HasLiveConsumers_answer|].
  set (F := filter (fun w => resolved s w = resolved s v) (replacement_inputs s)).
  assert (u32 (zlen F) = zlen F) as Eu.
  { apply wrap_small. split; [unfold zlen; lia|]. eapply Z.le_lt_trans; [|exact Hb].
    unfold zlen, F. apply inj_le, length_filter. }
  unfold zlen in Eu. rewrite Eu. rewrite orb_true_iff, bool_decide_eq_true, Z.ltb_lt.
  rewrite filter_nonempty. assert (0 < Z.of_nat (length F) <-> F <> []) as ->.
  { destruct F; simpl; split; [lia|done|done|lia]. }
  unfold F. by rewrite filter_nonempty.
Qed.

(** ** Reachable sessions *)

Section Steps.
Context {OS : OperatorSemantics}.

(** Every public call that can change the session, failing calls and the cache
    writes of the [const] readers included. *)
Inductive session_step (s : Session) : Session -> Prop :=
| step_virtual : session_step s (AllocateVirtualValue s).2
| step_add_constant sp b q name : session_step s (AddSessionConstant s sp b q name).2
| step_edit m : session_step s (apply_one s m).2
| step_resolve v : session_step s (GetResolvedValue s v).2
| step_find v : session_step s (FindConsumers s v).2
| step_has v : session_step s (HasLiveConsumers s v).2.

Definition edited (g : ModelGraph) (s : Session) : Prop := rtc session_step (new_session g) s.

Lemma new_session_ok g : session_ok (new_session g).
Proof.
  constructor; simpl; [apply new_session_resolve_ok| |done| |discriminate].
  - constructor; simpl; [by rewrite length_replicate| |done].
    intros n r H. apply lookup_replicate in H as [? _]. discriminate.
  - intros v w H. simpl in H. apply lookup_replicate in H as [? _]. discriminate.
Qed.

Lemma apply_one_ok s m : session_ok s -> session_ok (apply_one s m).2.
Proof.
  intros Hs. destruct m; simpl; [by apply ReplaceSubgraph_ok|by apply RemoveNode_ok|
    by apply RedirectInput_ok|by apply ReplaceValue_session_ok].
Qed.

Lemma step_ok s s' : session_ok s -> session_step s s' -> session_ok s'.
Proof.
  intros Hs []; [by apply append_metadata_ok..|by apply apply_one_ok|by apply GetResolvedValue_session_ok| |].
  - by apply FindConsumers_session.
  - by apply HasLiveConsumers_session.
Qed.

Lemma edited_ok g s : edited g s -> session_ok s.
Proof.
  unfold edited. intros H. assert (session_ok (new_session g)) as H0 by apply new_session_ok.
  induction H as [|a b c Hs _ IH]; [done|]. apply IH. by eapply step_ok.
Qed.

(** A single edit either succeeds or leaves the session exactly as it was. *)
Lemma apply_one_atomic s m : (apply_one s m).1 = Ret tt \/ (apply_one s m).2 = s.
Proof.
  destruct m as [olds rns|n|n i v|o v]; simpl.
  - unfold ReplaceSubgraph, guarded. destruct (check_subgraph _ _ _); auto.
  - unfold RemoveNode. destruct (CheckSourceNodeId _ _); auto.
    unfold ReplaceSubgraph, guarded. destruct (check_subgraph _ _ _); auto.
  - unfold RedirectInput. destruct (check_redirect _ _ _ _); auto.
    destruct (mjoin _) as [r|].
    + destruct (IsNodeLive s n); auto. destruct (_ !! _) as [[? [|? ?] ? ?]|]; auto.
      destruct (_ <=? _)%nat; auto.
    + destruct (BuildMirrorReplacement _ _); auto.
  - unfold ReplaceValue. destruct (_ ≫= _); auto. destruct (_ =? _)%nat; auto.
    destruct (chain_reaches _ _ _ _); auto.
Qed.

(** The session after a list of edits that all succeed. *)
Inductive edits (s : Session) : list GraphMutation -> Session -> Prop :=
| edits_nil : edits s [] s
| edits_cons m ms s1 s2 : apply_one s m = (Ret tt, s1) -> edits s1 ms s2 -> edits s (m :: ms) s2.

Lemma Apply_cases ms : forall s,
  (exists s', Apply s ms = (Ret tt, s') /\ edits s ms s') \/
  (exists pre m post s', ms = pre ++ m :: post /\ edits s pre s' /\ (apply_one s' m).1 <> Ret tt /\
     Apply s ms = ((apply_one s' m).1, s')).
Proof.
  induction ms as [|m ms IH]; intros s; simpl.
  - left. exists s. split; [done|constructor].
  - destruct (apply_one s m) as [[[]|e|w] s1] eqn:E.
    + destruct (IH s1) as [(s' & Ha & He)|(pre & m' & post & s' & -> & He & Hf & Ha)].
      * left. exists s'. split; [done|by econstructor].
      * right. exists (m :: pre), m', post, s'. split_and!; [done|by econstructor|done..].
    + right. exists [], m, ms, s. pose proof (apply_one_atomic s m) as Ha. rewrite E in Ha.
      destruct Ha as [?|Ha]; [done|]. simpl in Ha. subst s1. split_and!; [done|constructor|by rewrite E|by rewrite E].
    + right. exists [], m, ms, s. pose proof (apply_one_atomic s m) as Ha. rewrite E in Ha.
      destruct Ha as [?|Ha]; [done|]. simpl in Ha. subst s1. split_and!; [done|constructor|by rewrite E|by rewrite E].
Qed.
End Steps.

(** ** Live nodes *)

Section Live.
Context (s : Session) (Hs : session_ok s).

Lemma live_range n : IsNodeLive s n = true -> (n < length (nodes_ (graph_ s)))%nat.
Proof.
  unfold IsNodeLive. destruct (node_to_rewrite_ s !! n) eqn:E; [|discriminate]. intros _.
  apply lookup_lt_Some in E. by rewrite (lo_len s (so_links s Hs)) in E.
Qed.

(** A node is live when it is untouched or covered by its own mirror. *)
Lemma live_cases n : IsNodeLive s n = true <->
  node_to_rewrite_ s !! n = Some None \/
  exists r rw rn, node_to_rewrite_ s !! n = Some (Some r) /\ rewrites_ s !! r = Some rw /\
    active rw = true /\ exposes_node_view rw = true /\ old_nodes rw = [n] /\ replacements rw = [rn].
Proof.
  unfold IsNodeLive, rewrite_at. destruct (node_to_rewrite_ s !! n) as [[r|]|] eqn:E.
  - destruct (lo_link s (so_links s Hs) n r E) as (rw & Hr & Ha & _). rewrite Hr, Ha.
    split.
    + intros H. bsplit. right. destruct (replacements rw) as [|rn [|]] eqn:Erw; [discriminate| |discriminate].
      by exists r, rw, rn.
    + intros [?|(r' & rw' & rn & [= <-] & Hr' & _ & He & Ho & Erw)]; [discriminate|].
      rewrite Hr in Hr'. injection Hr' as <-. rewrite He, Ho, Erw. by rewrite bool_decide_true.
  - split; [by left|done].
  - split; [done|]. intros [?|(? & ? & ? & ? & _)]; discriminate.
Qed.

(** The view of a live node: the original node with its inputs as last wired. *)
Lemma view_live n : IsNodeLive s n = true -> exists node view,
  nodes_ (graph_ s) !! n = Some node /\ GetNodeView s n = Ret view /\
  view_op_type view = op_type node /\ view_layer view = node_layer node /\
  view_op_params view = op_params node /\ view_attrs view = attrs node /\ view_name view = node_name node /\
  view_outputs view = node_outputs node /\ view_inputs view = resolved s <$> live_inputs s n /\
  length (view_inputs view) = length (node_inputs node).
Proof.
  intros Hl. pose proof (live_range n Hl) as Hn. destruct (lookup_lt_is_Some_2 _ _ Hn) as [node Enode].
  assert (GetNodeView s n = (mirror ← mirror_of s n; Ret (match mirror with
       | Some rn => mkView n (rn_op_type rn) (rn_layer rn) (resolved s <$> rn_inputs rn)
             (node_outputs node) (rn_attrs rn) (rn_op_params rn) (rn_name rn)
       | None => mkView n (op_type node) (node_layer node) (resolved s <$> node_inputs node)
             (node_outputs node) (attrs node) (op_params node) (node_name node) end))) as Ev.
  { unfold GetNodeView, CheckSourceNodeId, GetNode. rewrite (proj2 (Nat.leb_gt _ _) Hn), Enode.
    simpl. rewrite Hl. by rewrite andb_false_r. }
  rewrite Ev. unfold live_inputs, mirror_of.
  apply live_cases in Hl as [E|(r & rw & rn & E & Hr & Ha & He & Ho & Erw)]; rewrite E; simpl.
  - rewrite Enode. exists node. eexists. split_and!; try done. simpl. by rewrite length_fmap.
  - unfold vec_at. rewrite Hr. simpl. rewrite Erw. simpl.
    destruct (so_mirrors s Hs r rw Hr He) as (n' & node' & rn' & M1 & M2 & M3 & M4 & M5 & M6 & M7 & M8 & M9 & _).
    rewrite Ho in M1. injection M1 as <-. rewrite Erw in M2. injection M2 as <-.
    rewrite Enode in M3. injection M3 as <-. exists node. eexists. split_and!; try done. simpl.
    by rewrite length_fmap.
Qed.

Lemma view_dead n : (n < length (nodes_ (graph_ s)))%nat -> IsNodeLive s n = false ->
  GetNodeView s n = Fail (NotFound "GraphRewriteSession::GetNodeView node was removed or replaced").
Proof.
  intros Hn Hl. destruct (lookup_lt_is_Some_2 _ _ Hn) as [node Enode].
  unfold GetNodeView, CheckSourceNodeId, GetNode. rewrite (proj2 (Nat.leb_gt _ _) Hn), Enode. simpl.
  rewrite Hl, andb_true_r. rewrite bool_decide_true; [done|].
  destruct (lookup_lt_is_Some_2 (node_to_rewrite_ s) n) as [[r|] E].
  - by rewrite (lo_len s (so_links s Hs)).
  - by rewrite E.
  - unfold IsNodeLive in Hl. rewrite E in Hl. discriminate.
Qed.
End Live.

(** ** Properties *)

Section Properties.
Context {OS : OperatorSemantics}.

Lemma apply_one_graph s m : covered_ok s -> graph_ (apply_one s m).2 = graph_ s.
Proof.
  intros Hc. assert (forall olds rns, graph_ (ReplaceSubgraph s olds rns).2 = graph_ s) as HR.
  { intros olds rns. unfold ReplaceSubgraph, guarded. destruct (check_subgraph s olds rns) eqn:E; [|done..].
    apply check_subgraph_ret in E as [_ Hlt]. destruct (deactivate_all olds s Hc) as (_ & Hd & _).
    { by rewrite (lo_len _ (proj1 Hc)). }
    simpl. by rewrite (de_rest _ _ Hd). }
  destruct m as [olds rns|n|n i v|o v]; simpl; [done| | |].
  - unfold RemoveNode. by destruct (CheckSourceNodeId s n).
  - unfold RedirectInput. destruct (check_redirect _ _ _ _); [|done..]. destruct (mjoin _) as [r|].
    + destruct (IsNodeLive s n); [|done]. destruct (_ !! _) as [[? [|? ?] ? ?]|]; [done| |done].
      by destruct (_ <=? _)%nat.
    + by destruct (BuildMirrorReplacement _ _).
  - unfold ReplaceValue. destruct (_ ≫= _); [|done..]. destruct (_ =? _)%nat; [done|].
    by destruct (chain_reaches _ _ _ _).
Qed.

Lemma step_graph s s' : session_ok s -> session_step s s' -> graph_ s' = graph_ s.
Proof.
  intros Hs []; simpl.
  - unfold AllocateVirtualValue, append_metadata. by destruct (_ <? _).
  - unfold AddSessionConstant, append_metadata. by destruct (_ <? _).
  - apply apply_one_graph. split; apply Hs.
  - symmetry. apply agree_fields, GetResolvedValue_agree, Hs.
  - symmetry. apply agree_fields. by apply FindConsumers_session.
  - symmetry. apply agree_fields. by apply HasLiveConsumers_session.
Qed.

Lemma session_invariant_of g s : edited g s -> graph_ s = g /\ session_ok s.
Proof.
  intros H. split; [|by eapply edited_ok].
  assert (forall a, rtc session_step a s -> session_ok a -> graph_ s = graph_ a) as HG.
  { clear H. intros a Ha. induction Ha as [|a b c Hab _ IH]; [done|]. intros Hok.
    rewrite IH by (by eapply step_ok). by eapply step_graph. }
  apply (HG (new_session g)); [done|apply new_session_ok].
Qed.

(** C8: Between any two public calls of a rewrite session, whatever edits were
    accepted or rejected before: the source graph is untouched, every covered node
    points at an active rewrite that lists it and every active rewrite owns all the
    nodes it lists, a rewrite that keeps its node visible is a mirror of that one
    node, value replacement chains are finite and lead to addressable values, and
    both caches describe the current state. *)
Theorem session_invariant g s : edited g s -> graph_ s = g /\ session_ok s.
Proof. exact (session_invariant_of g s). Qed.

(** Resolution terminates at the right value: in every reachable session the
    replacement chain of any value is finite, no longer than the value table, and
    [GetResolvedValue] returns its end although the walk is bounded and reads and
    writes a path-compressing cache; the call changes nothing but that cache, and
    the returned value resolves to itself. *)
Theorem resolution_terminates g s v : edited g s ->
  exists k t s', leads (value_replacements_ s) k v t /\ (k <= length (values_ g))%nat /\
    GetResolvedValue s v = (t, s') /\ agree s s' /\ (GetResolvedValue s' t).1 = t.
Proof.
  intros He. destruct (session_invariant_of g s He) as [<- Hs]. pose proof (so_resolve s Hs) as Hr.
  destruct (resolved_ends s v Hr) as [k Hk]. exists k, (resolved s v), (GetResolvedValue s v).2.
  pose proof (GetResolvedValue_agree s v Hr) as HA. split_and!; [done| | |done|].
  - pose proof (leads_bound _ _ _ _ Hk). by rewrite (ro_repl_len s Hr) in *.
  - unfold resolved. by destruct (GetResolvedValue s v).
  - change (resolved (GetResolvedValue s v).2 (resolved s v) = resolved s v).
    rewrite <- (agree_resolved _ _ HA). by apply resolved_idem.
Qed.

Lemma ReplaceValue_fail_code s o n e s' : ReplaceValue s o n = (Fail e, s') -> code e = StatusCode.kInvalidArgument.
Proof.
  unfold ReplaceValue, CheckSourceValueId, CheckNonVirtualValueId. destruct (ClassifyValue s o); cbn [mbind res_mbind res_bind]; [|by intros [= <- _]..].
  destruct (ClassifyValue s n); try (by intros [= <- _]); (destruct (o =? n)%nat; [discriminate|]); (destruct (chain_reaches _ _ _ _); [by intros [= <- _]|discriminate]).
Qed.

(** Ids a value may be replaced by: a value of the source graph or a constant the session
    added; virtual values and unknown ids are not. *)
Definition replacement_id (g : ModelGraph) (s : Session) (n : nat) : Prop :=
  (n < length (values_ g))%nat \/ ((length (values_ g) <= n)%nat /\ exists c, session_value_metadata_ s !! (n - length (values_ g))%nat = Some (Some c)).

Lemma CheckNonVirtualValueId_ret s n : CheckNonVirtualValueId s n = Ret tt <-> replacement_id (graph_ s) s n.
Proof.
  unfold CheckNonVirtualValueId, ClassifyValue, replacement_id, GetSessionValueIndex, value_count. destruct (Nat.ltb_spec n (length (values_ (graph_ s)))); [split; auto|].
  destruct (session_value_metadata_ s !! _) as [[c|]|]; (split; [intros H0; try done; right; by eauto|intros [?|[_ [c' E]]]; [lia|by simplify_eq]]).
Qed.

Lemma ReplaceValue_succeeds s o n s' : ReplaceValue s o n = (Ret tt, s') -> (o < value_count s)%nat /\ CheckNonVirtualValueId s n = Ret tt.
Proof.
  unfold ReplaceValue. destruct (CheckSourceValueId s o) as [[]|e|w] eqn:E1; cbn [mbind res_mbind res_bind]; [|discriminate..].
  destruct (CheckNonVirtualValueId s n) as [[]|e|w] eqn:E2; [|discriminate..]. intros _. split; [by apply CheckSourceValueId_ret in E1|done].
Qed.

(** C12: [ReplaceValue] redirects exactly what it should and rejects exactly what it must.
    It succeeds if and only if the old id is a value of the source graph, the new id is a
    value of the source graph or a constant of the session (not virtual, not unknown), and
    the new value does not already resolve through the old one, unless they are the same.
    Then every value whose chain ran through the old value resolves where the new value
    does and every other value resolves as before. Otherwise it fails with an invalid
    argument and changes nothing. *)
Theorem ReplaceValue_meaning g s o n : edited g s ->
  let through v := rtc (next_value (value_replacements_ s)) v o in
  let allowed := (o < length (values_ g))%nat /\ replacement_id g s n /\ (o = n \/ ~ through n) in
  (allowed /\ exists s', ReplaceValue s o n = (Ret tt, s') /\
    forall v, (through v -> resolved s' v = resolved s n) /\ (~ through v -> resolved s' v = resolved s v)) \/
  (~ allowed /\ exists e, ReplaceValue s o n = (Fail e, s) /\ code e = StatusCode.kInvalidArgument).
Proof.
  intros He through allowed. destruct (session_invariant_of g s He) as [<- Hs]. pose proof (so_resolve s Hs) as Hr.
  destruct (ReplaceValue_cases s o n Hr) as [(s' & E & Hrep)|(e & E & Hwhy)].
  - left. destruct (ReplaceValue_succeeds _ _ _ _ E) as [Ho0 Hn0]. split.
    { split_and!; [done|by apply CheckNonVirtualValueId_ret|]. inversion Hrep as [Heq|Hne Ho Hn Hac]; [by left|right]. intros Ht. apply Hac.
      apply rtc_tc in Ht as [?|?]; [congruence|done]. }
    exists s'. split; [done|]. pose proof (replaced_resolve_ok _ _ _ _ Hr Hrep) as Hr'.
    intros v. inversion Hrep as [Heq|Hne Ho Hn Hac]; subst s'.
    + subst o. split; [|done]. intros Hv. apply resolved_unique; [done|].
      destruct (ro_chains s Hr v) as [t Ht]. pose proof (ends_at_rtc _ _ _ _ Hv Ht) as Hn.
      by rewrite (resolved_unique s n t).
    + assert (o < length (value_replacements_ s))%nat by (rewrite (ro_repl_len s Hr); done).
      split; intros Hv; (apply resolved_unique; [done|]; simpl).
      * apply insert_through; [done..|by apply resolved_ends].
      * apply insert_off; [by apply resolved_ends|done].
  - right. split.
    + intros (Ho & Hn & Hc). destruct Hwhy as [?|[Hn'|[Hne Ht]]]; [unfold value_count in *; lia| |].
      * apply CheckNonVirtualValueId_ret in Hn. congruence.
      * destruct Hc as [?|Hc]; [done|]. by apply Hc, tc_rtc.
    + exists e. split; [done|]. by eapply ReplaceValue_fail_code.
Qed.

(** Edits are atomic one by one and sequential in a batch: a mutation that
    fails leaves the session exactly as it was, and [Apply] stops at the first
    failing mutation with its status, keeping precisely the effects of the
    mutations before it. *)
Theorem edits_atomic s ms :
  (forall m, (apply_one s m).1 = Ret tt \/ (apply_one s m).2 = s) /\
  ((exists s', Apply s ms = (Ret tt, s') /\ edits s ms s') \/
   (exists pre m post s', ms = pre ++ m :: post /\ edits s pre s' /\ (apply_one s' m).1 <> Ret tt /\
      Apply s ms = ((apply_one s' m).1, s'))).
Proof. split; [intros m; apply apply_one_atomic|apply Apply_cases]. Qed.

(** The consumer queries are exact, cached or not: on a graph that sorts and
    for an addressable value, [FindConsumers] lists in topological order, once
    each, exactly the live nodes that read the resolved value, and
    [HasLiveConsumers] is true exactly when such a node or an input of an active
    replacement reads it (while fewer than 2^32 replacement inputs exist). *)
Theorem consumer_queries_exact g s v order : edited g s -> TopologicalOrder g = Ret order ->
  CheckNonVirtualValueId s v = Ret tt -> zlen (replacement_inputs s) < 2 ^ 32 ->
  (FindConsumers s v).1 = Ret (filter (fun n => reads s n (resolved s v)) order) /\
  exists b, (HasLiveConsumers s v).1 = Ret b /\
    (b = true <-> (exists n, n ∈ order /\ reads s n (resolved s v)) \/
                  (exists w, w ∈ replacement_inputs s /\ resolved s w = resolved s v)).
Proof.
  intros He Ho Hv Hb. destruct (session_invariant_of g s He) as [Eg Hs]. rewrite <- Eg in Ho.
  split; [by apply FindConsumers_answer|by apply HasLiveConsumers_iff].
Qed.
End Properties.

(** ** Witnesses *)

(** [a + b], with one edit of each kind: [b] replaced by [a], then the first input
    redirected. *)
Definition sum_graph : ModelGraph := MarkOutput (demo_node activation_desc).2 2.
Definition aliased_session : Session := (apply_one (new_session sum_graph) (ValueReplacement 1 0)).2.
Definition redirected_session : Session := (apply_one aliased_session (InputRedirection 0 0 1)).2.

Lemma aliased_edited : edited sum_graph aliased_session.
Proof. apply rtc_once, step_edit. Defined.

Lemma redirected_edited : edited sum_graph redirected_session.
Proof. eapply rtc_r; [exact aliased_edited|apply step_edit]. Defined.

Lemma session_invariant_witness : session_ok redirected_session.
Proof. apply (session_invariant sum_graph). exact redirected_edited. Defined.

Lemma resolution_terminates_witness :
  (GetResolvedValue redirected_session 1).1 = 0%nat /\
  exists k t, leads (value_replacements_ redirected_session) k 1 t.
Proof.
  split; [vm_compute; reflexivity|].
  destruct (resolution_terminates sum_graph redirected_session 1 redirected_edited) as (k & t & s' & H & _).
  exists k, t. exact H.
Defined.

Lemma ReplaceValue_meaning_witness :
  resolved (ReplaceValue redirected_session 0 2).2 1 = 2%nat /\
  exists s', ReplaceValue redirected_session 0 2 = (Ret tt, s').
Proof.
  split; [vm_compute; reflexivity|].
  destruct (ReplaceValue_meaning sum_graph redirected_session 0 2 redirected_edited) as [(_ & s' & H & _)|(_ & e & H & _)].
  - exists s'. exact H.
  - vm_compute in H. discriminate H.
Defined.

Lemma consumer_queries_exact_witness :
  (FindConsumers redirected_session 1).1 = Ret [0%nat] /\ (HasLiveConsumers redirected_session 2).1 = Ret false.
Proof.
  destruct (consumer_queries_exact sum_graph redirected_session 1 [0%nat] redirected_edited) as [H1 _];
    [vm_compute; reflexivity..|].
  split; [rewrite H1; vm_compute; reflexivity|vm_compute; reflexivity].
Defined.
