(* ===== verification/RewriteCommit.v ===== *)
(** * RewriteCommit: materializing a session, and the subgraph builder

    [GraphRewriteSession::Commit] and its helpers, [SubgraphBuilder], from
    [src/graph/optimization/graph_rewrite.cpp]; what a passing [ValidateEdits]
    guarantees about the emission, and what a committed graph looks like. *)
From S2P Require Import Prelude DataTypes ShapeSymbol ShapeConstraint OperatorSchema OperatorInference Graph Topology GraphInvariant RewriteSession RewriteResolve RewriteInvariant.

(** ** Value maps *)

Abbreviation ValueMap := (list (option nat)).

(* @src include/aethermind/graph/optimization/graph_rewrite.h:435-440 CommitValueMaps *)
Record CommitValueMaps := mkMaps {
  source_values : ValueMap; session_constants : ValueMap; virtual_values : ValueMap }.

Definition set_source (m : CommitValueMaps) (i v : nat) : CommitValueMaps :=
  mkMaps (<[i := Some v]> (source_values m)) (session_constants m) (virtual_values m).
Definition set_constant (m : CommitValueMaps) (i v : nat) : CommitValueMaps :=
  mkMaps (source_values m) (<[i := Some v]> (session_constants m)) (virtual_values m).
Definition set_virtual (m : CommitValueMaps) (i v : nat) : CommitValueMaps :=
  mkMaps (source_values m) (session_constants m) (<[i := Some v]> (virtual_values m)).

(** The graph under construction with the maps into it. *)
Abbreviation Emission := (ModelGraph * CommitValueMaps)%type.

(* @src src/graph/optimization/graph_rewrite.cpp:19-26 FindInputName *)
Definition FindInputName (g : ModelGraph) (v : nat) : option string :=
  if bool_decide (v ∈ inputs_ g) then value_name <$> values_ g !! v else None.

(* @src src/graph/optimization/graph_rewrite.cpp:30-38 MapResolvedValue *)
Definition MapResolvedValue (v : nat) (m : ValueMap) : Res nat :=
  match mjoin (m !! v) with
  | Some r => Ret r
  | None => Fail (bad ("GraphRewriteSession: value " +:+ num v +:+
              " cannot be mapped during commit (producer removed or not yet emitted)"))
  end.

(* @src src/graph/optimization/graph_rewrite.cpp:840-869 GraphRewriteSession::MapCommittedValue *)
Definition MapCommittedValue (s : Session) (v : nat) (m : CommitValueMaps) : Res nat :=
  if (v <? value_count s)%nat then MapResolvedValue v (source_values m)
  else
    let i := GetSessionValueIndex s v in
    _ ← reject_if (length (session_value_metadata_ s) <=? i)%nat
          (bad "GraphRewriteSession: session value id out of range during commit");
    if IsSessionConstant s v then
      match mjoin (session_constants m !! i) with
      | Some r => Ret r
      | None => Fail (bad "GraphRewriteSession: session constant cannot be mapped during commit")
      end
    else
      match mjoin (virtual_values m !! i) with
      | Some r => Ret r
      | None => Fail (bad ("GraphRewriteSession: virtual value " +:+ num v +:+
                  " cannot be mapped during commit (not produced within its rewrite)"))
      end.

(** A builder call of the committed graph, which is abandoned on failure. *)
Definition built {A} (r : Res A * ModelGraph) : Res (A * ModelGraph) := a ← r.1; Ret (a, r.2).

Section Commit.
Context {OS : OperatorSemantics}.

(** ** External values and session constants *)

(* @src src/graph/optimization/graph_rewrite.cpp:902-927 GraphRewriteSession::CopyExternalValues (payload) *)
Definition add_external (g committed : ModelGraph) (i : nat) (x : GraphValue) : Res (nat * ModelGraph) :=
  match payload x with
  | ModelInputValue =>
      match FindInputName g i with
      | None => Fail (bad "GraphRewriteSession::Commit model input name not found")
      | Some name => built (AddInput committed (spec x) name)
      end
  | WeightValue b => built (AddWeight committed (spec x) b (value_name x))
  | ConstantValue b => built (AddConstant committed (spec x) b (value_name x))
  | StateValue b => built (AddState committed (spec x) b (value_name x))
  | PayloadNone => Fail (bad ("GraphRewriteSession::Commit external value has unspecified " +:+
      "(monostate) payload; ModelGraph values must be input, weight, constant, or state"))
  | ActivationValue =>
      Fail (bad "GraphRewriteSession::Commit external value has unsupported payload variant")
  end.

(* @src src/graph/optimization/graph_rewrite.cpp:896-930 GraphRewriteSession::CopyExternalValues (source value) *)
Definition copy_source (g : ModelGraph) (e : Emission) (ix : nat * GraphValue) : Res Emission :=
  let '(i, x) := ix in
  match producer x with
  | Some _ => Ret e
  | None =>
      added ← add_external g e.1 i x;
      q ← built (SetQuantization added.2 added.1 (quantization x));
      Ret (q.2, set_source e.2 i added.1)
  end.

(** Session constants a graph output resolves to. *)
(* @src src/graph/optimization/graph_rewrite.cpp:935-941 GraphRewriteSession::CopyExternalValues (outputs) *)
Definition referenced_by_outputs (s : Session) : list bool :=
  foldl (fun (r : list bool) v => let o := resolved s v in
           if IsSessionConstant s o then <[GetSessionValueIndex s o := true]> r else r)
    (replicate (length (session_value_metadata_ s)) false) (outputs_ (graph_ s)).

(* @src src/graph/optimization/graph_rewrite.cpp:943-954 GraphRewriteSession::CopyExternalValues (consumers) *)
Definition referenced_by_consumers (s : Session) (r : list bool) (i : nat) : Res (list bool) :=
  if default false (r !! i) then Ret r
  else match session_value_metadata_ s !! i with
       | Some (Some _) =>
           b ← (HasLiveConsumers s (value_count s + i)).1;
           Ret (if (b : bool) then <[i := true]> r else r)
       | _ => Ret r
       end.

(* @src src/graph/optimization/graph_rewrite.cpp:956-966 GraphRewriteSession::CopyExternalValues (constants) *)
Definition copy_constant (s : Session) (referenced : list bool) (e : Emission) (i : nat) : Res Emission :=
  if default false (referenced !! i) then
    c ← constant_at s (value_count s + i);
    added ← built (AddConstant e.1 (sc_spec c) (sc_binding c) (sc_name c));
    q ← built (SetQuantization added.2 added.1 (sc_quantization c));
    Ret (q.2, set_constant e.2 i added.1)
  else Ret e.

(* @src src/graph/optimization/graph_rewrite.cpp:893-968 GraphRewriteSession::CopyExternalValues *)
Definition CopyExternalValues (s : Session) (e : Emission) : Res Emission :=
  let values := values_ (graph_ s) in
  let locals := seq 0 (length (session_value_metadata_ s)) in
  e1 ← res_foldl (copy_source (graph_ s)) e (zip (seq 0 (length values)) values);
  referenced ← res_foldl (referenced_by_consumers s) (referenced_by_outputs s) locals;
  res_foldl (copy_constant s referenced) e1 locals.

(** ** Emission *)

Definition map_inputs (s : Session) (m : CommitValueMaps) (ins : list nat) : Res (list nat) :=
  res_mapi (fun _ v => MapCommittedValue s v m) 0 ins.

(* @src src/graph/optimization/graph_rewrite.cpp:1010-1031 GraphRewriteSession::EmitRewrite (outputs) *)
Definition bind_output (s : Session) (m : CommitValueMaps) (x : RewriteOutputBinding * nat)
    : Res CommitValueMaps :=
  match replaces x.1 with
  | None => Ret m
  | Some v =>
      if IsSessionVirtualValue s v then
        let i := GetSessionValueIndex s v in
        _ ← reject_if (bool_decide (mjoin (virtual_values m !! i) <> None))
              (bad "GraphRewriteSession::Commit replacement virtual value was already mapped");
        Ret (set_virtual m i x.2)
      else if IsSessionConstant s v then
        Fail (bad "GraphRewriteSession::Commit replacement cannot produce a session constant")
      else
        _ ← reject_if (bool_decide (mjoin (source_values m !! v) <> None))
              (bad "GraphRewriteSession::Commit replacement value was already mapped");
        Ret (set_source m v x.2)
  end.

(* @src src/graph/optimization/graph_rewrite.cpp:984-1032 GraphRewriteSession::EmitRewrite (replacement) *)
Definition emit_replacement (s : Session) (e : Emission) (rn : ReplacementNode) : Res Emission :=
  ins ← map_inputs s e.2 (resolved s <$> rn_inputs rn);
  added ← built (AddNode e.1 (rn_op_type rn) (rn_layer rn) ins (desc <$> rn_outputs rn)
                   (rn_op_params rn) (rn_attrs rn) (rn_name rn));
  m ← res_foldl (bind_output s) e.2 (zip (rn_outputs rn) (added_outputs added.1));
  Ret (added.2, m).

(* @src src/graph/optimization/graph_rewrite.cpp:978-1034 GraphRewriteSession::EmitRewrite *)
Definition EmitRewrite (s : Session) (e : Emission) (rw : RewriteEntry) : Res Emission :=
  res_foldl (emit_replacement s) e (replacements rw).

(* @src src/graph/optimization/graph_rewrite.cpp:1079-1085 GraphRewriteSession::EmitOriginalNode (outputs) *)
Definition bind_original (m : CommitValueMaps) (x : nat * nat) : Res CommitValueMaps :=
  _ ← reject_if (bool_decide (mjoin (source_values m !! x.1) <> None))
        (bad "GraphRewriteSession::Commit original node output was already mapped");
  Ret (set_source m x.1 x.2).

(* @src src/graph/optimization/graph_rewrite.cpp:1044-1087 GraphRewriteSession::EmitOriginalNode *)
Definition EmitOriginalNode (s : Session) (e : Emission) (n : nat) : Res Emission :=
  view ← GetNodeView s n;
  ins ← map_inputs s e.2 (view_inputs view);
  outs ← res_mapi (fun _ v => x ← GetValue (graph_ s) v; Ret (MakeNodeOutputDesc x)) 0 (view_outputs view);
  added ← built (AddNode e.1 (view_op_type view) (view_layer view) ins outs (view_op_params view)
                   (view_attrs view) (view_name view));
  m ← res_foldl bind_original e.2 (zip (view_outputs view) (added_outputs added.1));
  Ret (added.2, m).

(* @src src/graph/optimization/graph_rewrite.cpp:1096-1107 GraphRewriteSession::MarkCommittedOutputs *)
Definition MarkCommittedOutputs (s : Session) (e : Emission) : Res ModelGraph :=
  res_foldl (fun g v => r ← MapCommittedValue s (resolved s v) e.2; Ret (MarkOutput g r))
    e.1 (outputs_ (graph_ s)).

(** One node of the traversal: [emitted_rewrites] with the emission so far. *)
(* @src src/graph/optimization/graph_rewrite.cpp:1138-1160 GraphRewriteSession::Commit (node) *)
Definition emit_node (s : Session) (st : list bool * Emission) (n : nat) : Res (list bool * Emission) :=
  match mjoin (node_to_rewrite_ s !! n) with
  | Some r =>
      match rewrites_ s !! r with
      | None => Fail (bad "GraphRewriteSession::Commit rewrite index out of range")
      | Some rw =>
          _ ← reject_if (negb (active rw))
                (bad "GraphRewriteSession::Commit inactive rewrite is still referenced");
          if default false (st.1 !! r) then Ret st
          else e ← EmitRewrite s st.2 rw; Ret (<[r := true]> st.1, e)
      end
  | None => e ← EmitOriginalNode s st.2 n; Ret (st.1, e)
  end.

Definition empty_emission (s : Session) : Emission :=
  let locals := replicate (length (session_value_metadata_ s)) None in
  (empty_graph, mkMaps (replicate (value_count s) None) locals locals).

(* @src src/graph/optimization/graph_rewrite.cpp:1118-1165 GraphRewriteSession::Commit *)
Definition Commit (s : Session) : Res ModelGraph :=
  _ ← ValidateEdits s;
  e ← CopyExternalValues s (empty_emission s);
  order ← TopologicalOrder (graph_ s);
  st ← res_foldl (emit_node s) (replicate (length (rewrites_ s)) false, e) order;
  g ← MarkCommittedOutputs s st.2;
  _ ← Validate g;
  Ret g.
End Commit.

(** ** [SubgraphBuilder] *)

(** The session is borrowed by reference, so it is part of the state the builder
    calls thread. *)
(* @src include/aethermind/graph/optimization/graph_rewrite.h:678-695 SubgraphBuilder (state) *)
Record Builder := mkBuilder {
  builder_session : Session; builder_old_nodes : list nat; new_nodes_ : list ReplacementNode;
  aliases_ : gmap nat nat }.

(* @src include/aethermind/graph/optimization/graph_rewrite.h:602-603 SubgraphBuilder::SubgraphBuilder *)
Definition new_builder (s : Session) (olds : list nat) : Builder := mkBuilder s olds [] ∅.

Definition with_inputs (rn : ReplacementNode) (f : nat -> nat) : ReplacementNode :=
  mkReplacement (rn_op_type rn) (rn_layer rn) (f <$> rn_inputs rn) (rn_outputs rn) (rn_attrs rn)
    (rn_op_params rn) (rn_name rn).

(* @src src/graph/optimization/graph_rewrite.cpp:1957-1965 SubgraphBuilder::NormalizeInputs *)
Definition NormalizeInputs (nodes : list ReplacementNode) (from to : nat) : list ReplacementNode :=
  (fun rn => with_inputs rn (fun v => if (v =? from)%nat then to else v)) <$> nodes.

(** One fresh virtual value per descriptor. *)
(* @src src/graph/optimization/graph_rewrite.cpp:1884-1891 SubgraphBuilder::Emit (outputs) *)
Fixpoint allocate_outputs (s : Session) (descs : list NodeOutputDesc)
    : Res (list nat * list RewriteOutputBinding) * Session :=
  match descs with
  | [] => (Ret ([], []), s)
  | d :: descs' =>
      match AllocateVirtualValue s with
      | (Ret id, s1) =>
          let '(r, s2) := allocate_outputs s1 descs' in
          (x ← r; Ret (id :: x.1, mkBinding d (Some id) :: x.2), s2)
      | (Fail e, s1) => (Fail e, s1)
      | (Panic w, s1) => (Panic w, s1)
      end
  end.

(* @src src/graph/optimization/graph_rewrite.cpp:1852-1894 SubgraphBuilder::Emit *)
Definition EmitMulti (b : Builder) (o : OpType.t) (ins : list nat) (descs : list NodeOutputDesc)
    (p : OpParams) (layer : option nat) (name : string) : Res (list nat) * Builder :=
  let ins' := (fun v => default v (aliases_ b !! v)) <$> ins in
  let '(r, s') := allocate_outputs (builder_session b) descs in
  match r with
  | Ret (ids, outs) =>
      (Ret ids, mkBuilder s' (builder_old_nodes b)
         (new_nodes_ b ++ [mkReplacement o layer ins' outs [] p name]) (aliases_ b))
  | Fail e => (Fail e, mkBuilder s' (builder_old_nodes b) (new_nodes_ b) (aliases_ b))
  | Panic w => (Panic w, mkBuilder s' (builder_old_nodes b) (new_nodes_ b) (aliases_ b))
  end.

(* @src src/graph/optimization/graph_rewrite.cpp:1832-1850 SubgraphBuilder::Emit (single output) *)
Definition EmitOne (b : Builder) (o : OpType.t) (ins : list nat) (d : NodeOutputDesc)
    (p : OpParams) (layer : option nat) (name : string) : Res nat * Builder :=
  let '(r, b') := EmitMulti b o ins [d] p layer name in
  (ids ← r;
   _ ← am_check (length ids =? 1)%nat "SubgraphBuilder::Emit single-output wrapper expected one output";
   vec_at ids 0, b').

(* @src src/graph/optimization/graph_rewrite.cpp:1907-1916 SubgraphBuilder::Yield (producer search) *)
Fixpoint produced_by (s : Session) (olds : list nat) (v : nat) : Res bool :=
  match olds with
  | [] => Ret false
  | n :: olds' =>
      _ ← CheckSourceNodeId s n;
      node ← GetNode (graph_ s) n;
      if bool_decide (v ∈ node_outputs node) then Ret true else produced_by s olds' v
  end.

(** Redirect the first output bound to [internal]. *)
(* @src src/graph/optimization/graph_rewrite.cpp:1935-1947 SubgraphBuilder::Yield (rebinding) *)
Fixpoint rebind_outputs (outs : list RewriteOutputBinding) (internal target : nat)
    : option (list RewriteOutputBinding) :=
  match outs with
  | [] => None
  | out :: outs' =>
      if bool_decide (replaces out = Some internal) then Some (mkBinding (desc out) (Some target) :: outs')
      else (fun l => out :: l) <$> rebind_outputs outs' internal target
  end.

Fixpoint rebind_nodes (nodes : list ReplacementNode) (internal target : nat)
    : option (list ReplacementNode) :=
  match nodes with
  | [] => None
  | rn :: nodes' =>
      match rebind_outputs (rn_outputs rn) internal target with
      | Some outs => Some (mkReplacement (rn_op_type rn) (rn_layer rn) (rn_inputs rn) outs
                             (rn_attrs rn) (rn_op_params rn) (rn_name rn) :: nodes')
      | None => (fun l => rn :: l) <$> rebind_nodes nodes' internal target
      end
  end.

(* @src src/graph/optimization/graph_rewrite.cpp:1896-1950 SubgraphBuilder::Yield *)
Definition Yield (b : Builder) (internal target : nat) : Res unit * Builder :=
  let s := builder_session b in
  match (_ ← CheckSourceValueId s target; produced_by s (builder_old_nodes b) target) with
  | Fail e => (Fail e, b)
  | Panic w => (Panic w, b)
  | Ret false => (Fail (bad ("SubgraphBuilder::Yield: replacement target value " +:+ num target +:+
                    " is not produced by any old_node")), b)
  | Ret true =>
      match aliases_ b !! internal with
      | Some t => (Fail (bad ("SubgraphBuilder::Yield: internal value " +:+ num internal +:+
                     " has already been yielded to value " +:+ num t)), b)
      | None =>
          match rebind_nodes (NormalizeInputs (new_nodes_ b) internal target) internal target with
          | Some nodes => (Ret tt, mkBuilder s (builder_old_nodes b) nodes (<[internal := target]> (aliases_ b)))
          | None => (Fail (bad "SubgraphBuilder::Yield: internal_val was not produced by any Emit call"), b)
          end
      end
  end.

(* @src src/graph/optimization/graph_rewrite.cpp:1985-1988 SubgraphBuilder::Reset *)
Definition Reset (b : Builder) : Builder := mkBuilder (builder_session b) (builder_old_nodes b) [] ∅.

Section BuilderCommit.
Context {OS : OperatorSemantics}.

(* @src src/graph/optimization/graph_rewrite.cpp:1967-1983 SubgraphBuilder::Commit *)
Definition BuilderCommit (b : Builder) : Res unit * Builder :=
  let nodes := foldl (fun ns a => NormalizeInputs ns a.1 a.2) (new_nodes_ b) (map_to_list (aliases_ b)) in
  match ReplaceSubgraph (builder_session b) (builder_old_nodes b) nodes with
  | (Ret _, s') => (Ret tt, Reset (mkBuilder s' (builder_old_nodes b) nodes (aliases_ b)))
  | (Fail e, s') => (Fail e, mkBuilder s' (builder_old_nodes b) nodes (aliases_ b))
  | (Panic w, s') => (Panic w, mkBuilder s' (builder_old_nodes b) nodes (aliases_ b))
  end.
End BuilderCommit.

(** ** What emission maps *)

Definition is_mapped (m : ValueMap) (i : nat) : Prop := (i < length m)%nat -> exists v, m !! i = Some (Some v).

Definition map_le (m m' : ValueMap) : Prop :=
  length m = length m' /\ forall i, is_mapped m i -> is_mapped m' i.

#[global] Instance map_le_preorder : PreOrder map_le.
Proof.
  split; [by intros m|]. intros a b c [L1 H1] [L2 H2]. split; [congruence|]. auto.
Qed.

Lemma is_mapped_le m m' i : is_mapped m i -> map_le m m' -> is_mapped m' i.
Proof. intros H [_ Hle]. auto. Qed.

Lemma is_mapped_insert (m : ValueMap) i v : is_mapped (<[i := Some v]> m) i.
Proof. intros Hi. rewrite length_insert in Hi. exists v. by rewrite list_lookup_insert_eq. Qed.

Lemma map_le_insert (m : ValueMap) i v : map_le m (<[i := Some v]> m).
Proof.
  split; [by rewrite length_insert|]. intros j Hj.
  destruct (decide (i = j)) as [->|]; [apply is_mapped_insert|].
  unfold is_mapped. rewrite length_insert, list_lookup_insert_ne; done.
Qed.

(** Maps only grow. *)
Definition maps_le (m m' : CommitValueMaps) : Prop :=
  map_le (source_values m) (source_values m') /\ map_le (session_constants m) (session_constants m') /\
  map_le (virtual_values m) (virtual_values m').

#[global] Instance maps_le_preorder : PreOrder maps_le.
Proof.
  split; [by intros m; split_and!|]. intros a b c (A1 & A2 & A3) (B1 & B2 & B3).
  split_and!; by etransitivity.
Qed.

Definition emission_le (e e' : Emission) : Prop := maps_le e.2 e'.2.
#[global] Instance emission_le_preorder : PreOrder emission_le.
Proof. split; [by intros e|]. intros a b c. unfold emission_le. by etransitivity. Qed.

(** The value an output takes over, in the map of its kind. *)
Definition bound (s : Session) (m : CommitValueMaps) (v : nat) : Prop :=
  if IsSessionVirtualValue s v then is_mapped (virtual_values m) (GetSessionValueIndex s v)
  else is_mapped (source_values m) v.

Lemma bound_le s m m' v : bound s m v -> maps_le m m' -> bound s m' v.
Proof.
  unfold bound. intros H (H1 & _ & H3). destruct (IsSessionVirtualValue s v); by eapply is_mapped_le.
Qed.

Lemma source_mapped_le m m' v :
  is_mapped (source_values m) v -> maps_le m m' -> is_mapped (source_values m') v.
Proof. intros H (Hle & _). by eapply is_mapped_le. Qed.

Lemma bind_output_spec s m x m' : bind_output s m x = Ret m' ->
  maps_le m m' /\ forall v, replaces x.1 = Some v -> bound s m' v.
Proof.
  unfold bind_output, bound. destruct (replaces x.1) as [v|]; [|intros [= <-]; split; [done|discriminate]].
  destruct (IsSessionVirtualValue s v) eqn:Ev.
  - intros H. res_inv. split.
    + split_and!; simpl; [done..|apply map_le_insert].
    + intros w [= <-]. rewrite Ev. apply is_mapped_insert.
  - destruct (IsSessionConstant s v); [discriminate|]. intros H. res_inv. split.
    + split_and!; simpl; [apply map_le_insert|done..].
    + intros w [= <-]. rewrite Ev. apply is_mapped_insert.
Qed.

Section Mapped.
Context {OS : OperatorSemantics}.

Lemma built_ret {A} (r : Res A * ModelGraph) x : built r = Ret x -> r = (Ret x.1, x.2).
Proof. unfold built. intros H. res_inv. destruct r as [ra g]. simpl in *. by subst. Qed.

Lemma AddNode_ids g o layer ins outs p a name added g' :
  AddNode g o layer ins outs p a name = (Ret added, g') -> length (added_outputs added) = length outs.
Proof.
  intros H. unfold AddNode in H.
  destruct (prepare_node g o layer ins outs p a name) as [[[[i ids] vals] checks]| |] eqn:E;
    [|discriminate..].
  injection H as <- <-. apply prepare_node_ret in E as (_ & schema & inferred & HP).
  simpl. by rewrite (pr_ids _ _ _ _ _ _ _ _ _ _ _ _ HP), length_seq.
Qed.

(** Every bound output of an emitted replacement is mapped. *)
Lemma emit_replacement_spec s e rn e' : emit_replacement s e rn = Ret e' ->
  emission_le e e' /\ forall v, binds rn v = true -> bound s e'.2 v.
Proof.
  unfold emit_replacement. intros H. res_inv. apply built_ret, AddNode_ids in Hm0.
  rewrite length_fmap in Hm0.
  destruct (res_foldl_establish maps_le (fun x m => forall v, replaces x.1 = Some v -> bound s m v)
    (bind_output s) _ ltac:(intros x m m' Hx Hle v Hv; eapply bound_le; eauto)
    ltac:(intros; by eapply bind_output_spec) _ _ Hm1) as [Hle HQ].
  split; [done|]. intros v Hv. unfold binds in Hv. apply existsb_exists in Hv as (out & Hin & Hv).
  apply bool_decide_eq_true in Hv. apply list_elem_of_In in Hin.
  apply list_elem_of_lookup in Hin as [k Hk].
  destruct (lookup_lt_is_Some_2 (added_outputs a0.1) k) as [id Hid]; [apply lookup_lt_Some in Hk; lia|].
  apply (HQ (out, id)); [|done]. apply list_elem_of_lookup. exists k.
  by rewrite lookup_zip_with, Hk, Hid.
Qed.

Lemma emit_replacements_spec s rns e e' : res_foldl (emit_replacement s) e rns = Ret e' ->
  emission_le e e' /\ forall v, existsb (fun rn => binds rn v) rns = true -> bound s e'.2 v.
Proof.
  intros H. destruct (res_foldl_establish emission_le
    (fun rn (e : Emission) => forall v, binds rn v = true -> bound s e.2 v)
    (emit_replacement s) rns ltac:(intros rn x y Hx Hle v Hv; eapply bound_le; [by apply Hx|done])
    ltac:(intros; by eapply emit_replacement_spec) _ _ H) as [Hle HQ].
  split; [done|]. intros v Hv. apply existsb_exists in Hv as (rn & Hin & Hv).
  apply list_elem_of_In in Hin. by apply (HQ rn).
Qed.

(** Every output of an emitted original node is mapped. *)
Lemma EmitOriginalNode_spec s e n e' node : session_ok s -> nodes_ (graph_ s) !! n = Some node ->
  EmitOriginalNode s e n = Ret e' ->
  emission_le e e' /\ forall v, v ∈ node_outputs node -> is_mapped (source_values e'.2) v.
Proof.
  intros Hs Hn. unfold EmitOriginalNode. intros H. res_inv.
  assert (view_outputs a = node_outputs node) as Eo.
  { destruct (IsNodeLive s n) eqn:El.
    - destruct (view_live s Hs n El) as (node' & view & Hn' & Hv & _ & _ & _ & _ & _ & Ho & _).
      congruence.
    - rewrite (view_dead s Hs n) in Hm; [discriminate|by eapply lookup_lt_Some|done]. }
  apply built_ret, AddNode_ids in Hm2. apply res_mapi_ret in Hm1 as [Hl _].
  destruct (res_foldl_establish maps_le (fun (x : nat * nat) m => is_mapped (source_values m) x.1) bind_original
    (zip (view_outputs a) (added_outputs a2.1)) (fun x m m' => source_mapped_le m m' x.1))
    with (s := e.2) (r := a3) as [Hle HQ]; [|done|].
  { intros m x m' _ Hb. unfold bind_original in Hb. res_inv.
    split; [split_and!; simpl; [apply map_le_insert|done..]|apply is_mapped_insert]. }
  split; [done|]. intros v Hv. rewrite <- Eo in Hv. apply list_elem_of_lookup in Hv as [k Hk].
  destruct (lookup_lt_is_Some_2 (added_outputs a2.1) k) as [id Hid]; [apply lookup_lt_Some in Hk; lia|].
  apply (HQ (v, id)). apply list_elem_of_lookup. exists k. by rewrite lookup_zip_with, Hk, Hid.
Qed.
End Mapped.

Lemma order_elem g order n : TopologicalOrder g = Ret order -> (n < length (nodes_ g))%nat -> n ∈ order.
Proof.
  intros Ho Hn. pose proof (TopologicalOrder_outcome g) as H. rewrite Ho in H. destruct H as [Hp _].
  rewrite Hp. apply elem_of_seq. lia.
Qed.

Lemma order_nodup g order : TopologicalOrder g = Ret order ->
  NoDup order /\ Forall (fun n => (n < length (nodes_ g))%nat) order.
Proof.
  intros Ho. pose proof (TopologicalOrder_outcome g) as H. rewrite Ho in H. destruct H as [Hp _].
  split; [rewrite Hp; apply NoDup_seq|]. apply Forall_forall. intros n. rewrite Hp, elem_of_seq. lia.
Qed.

(** ** The traversal *)

Section Traversal.
Context {OS : OperatorSemantics}.
Context (s : Session) (Hs : session_ok s).

(** Flags and maps only grow. *)
Definition progress (st st' : list bool * Emission) : Prop :=
  length st.1 = length st'.1 /\ (forall r, st.1 !! r = Some true -> st'.1 !! r = Some true) /\
  emission_le st.2 st'.2.

#[local] Instance progress_preorder : PreOrder progress.
Proof.
  split; [by intros st|]. intros a b c (A1 & A2 & A3) (B1 & B2 & B3).
  split_and!; [congruence|auto|by etransitivity].
Qed.

(** What the traversal has done for a node it passed. *)
Definition passed (n : nat) (st : list bool * Emission) : Prop :=
  (forall node v, node_to_rewrite_ s !! n = Some None -> nodes_ (graph_ s) !! n = Some node ->
     v ∈ node_outputs node -> is_mapped (source_values st.2.2) v) /\
  (forall r, node_to_rewrite_ s !! n = Some (Some r) -> (r < length st.1)%nat -> st.1 !! r = Some true).

Lemma passed_progress n st st' : passed n st -> progress st st' -> passed n st'.
Proof.
  intros [H1 H2] (P1 & P2 & P3). split.
  - intros node v Hl Hn Hv. eapply source_mapped_le; [by eapply H1|done].
  - intros r Hl Hr. apply P2, H2; [done|congruence].
Qed.

(** Flagged rewrites have been emitted completely. *)
Definition flagged (st : list bool * Emission) : Prop :=
  forall r rw v, st.1 !! r = Some true -> rewrites_ s !! r = Some rw ->
    rewrite_binds_value rw v = true -> bound s st.2.2 v.

Lemma emit_node_spec st n st' : emit_node s st n = Ret st' ->
  progress st st' /\ passed n st' /\ (flagged st -> flagged st').
Proof.
  unfold emit_node. destruct (mjoin (node_to_rewrite_ s !! n)) as [r|] eqn:El.
  - apply mjoin_link in El. destruct (lo_link s (so_links s Hs) n r El) as (rw & Hr & Ha & _).
    rewrite Hr, Ha. cbn [negb reject_if mbind res_mbind res_bind].
    destruct (st.1 !! r) as [[|]|] eqn:Ef; simpl.
    + intros [= <-]. split_and!; [done| |done]. split; [intros; congruence|].
      intros r' Hr' _. congruence.
    + intros H. res_inv. apply emit_replacements_spec in Hm as [Hle Hb].
      pose proof (lookup_lt_Some _ _ _ Ef) as Hlt. split_and!.
      * split_and!; simpl; [by rewrite length_insert| |done]. intros r' Hr'.
        rewrite list_lookup_insert_ne; [done|congruence].
      * split; [intros; congruence|]. intros r' Hr' _. simpl. assert (r' = r) as -> by congruence.
        by rewrite list_lookup_insert_eq.
      * intros Hf r' rw' v Hr' Hrw' Hv. simpl in *. destruct (decide (r = r')) as [<-|Hne].
        -- apply Hb. assert (rw' = rw) as -> by congruence. exact Hv.
        -- rewrite list_lookup_insert_ne in Hr' by done. eapply bound_le; [by eapply Hf|done].
    + intros H. res_inv. apply emit_replacements_spec in Hm as [Hle Hb].
      apply lookup_ge_None_1 in Ef. rewrite list_insert_ge by done. split_and!.
      * by split_and!.
      * split; [intros; congruence|]. intros r' Hr' Hlt. simpl in *. assert (r' = r) as -> by congruence. lia.
      * intros Hf r' rw' v Hr' Hrw' Hv. simpl in *. eapply bound_le; [by eapply Hf|done].
  - intros H. res_inv.
    destruct (nodes_ (graph_ s) !! n) as [node|] eqn:En.
    + destruct (EmitOriginalNode_spec s _ _ _ _ Hs En Hm) as [Hle Hmap]. split_and!.
      * by split_and!.
      * split; [|by intros r Hr; rewrite Hr in El]. intros node' v _ Hn' Hv. simpl. apply Hmap. congruence.
      * intros Hf r' rw' v Hr' Hrw' Hv. simpl in *. eapply bound_le; [by eapply Hf|done].
    + exfalso. unfold EmitOriginalNode, GetNodeView, GetNode in Hm. rewrite En in Hm.
      by destruct (CheckSourceNodeId s n).
Qed.

Lemma emit_nodes_spec l st st' : flagged st -> res_foldl (emit_node s) st l = Ret st' ->
  progress st st' /\ flagged st' /\ forall n, n ∈ l -> passed n st'.
Proof.
  intros Hf H.
  destruct (res_foldl_establish progress passed (emit_node s) l passed_progress) with (s := st) (r := st')
    as [HP HQ]; [|done|].
  { intros a x b _ Hab. destruct (emit_node_spec a x b Hab) as (? & ? & _). done. }
  split_and!; [done| |done].
  eapply (res_foldl_inv flagged); [|exact Hf|exact H]. intros a x b _ Ha Hab.
  destruct (emit_node_spec a x b Hab) as (_ & _ & ?). auto.
Qed.

(** ** Positions *)

Lemma positions_lookup count order k n : NoDup order -> Forall (fun n => (n < count)%nat) order ->
  order !! k = Some n -> positions count order !! n = Some (Z.of_nat k).
Proof.
  intros Hnd Hlt Hk. unfold positions.
  assert (forall l i (p : list Z), length p = count -> Forall (fun n => (n < count)%nat) l -> NoDup l ->
    forall n z, (l !! z = Some n -> foldl (fun p ix => <[ix.2 := Z.of_nat ix.1]> p) p
                   (zip (seq i (length l)) l) !! n = Some (Z.of_nat (i + z)))) as H.
  2: { rewrite (H order 0%nat _ (length_replicate _ _) Hlt Hnd n k Hk). done. }
  clear. induction l as [|m l IH]; intros i p Hp Hlt Hnd n z Hz; [by rewrite lookup_nil in Hz|].
  simpl. inversion Hlt as [|? ? Hm Hlt']; subst. apply NoDup_cons in Hnd as [Hnin Hnd].
  destruct z as [|z]; simpl in Hz.
  - injection Hz as ->. rewrite Nat.add_0_r.
    assert (forall l i (p : list Z) v, n ∉ l -> p !! n = Some v ->
      foldl (fun p ix => <[ix.2 := Z.of_nat ix.1]> p) p (zip (seq i (length l)) l) !! n = Some v) as H.
    { clear. induction l as [|m l IH]; intros i p v Hn Hv; simpl; [done|].
      apply not_elem_of_cons in Hn as [Hne Hn]. apply IH; [done|]. by rewrite list_lookup_insert_ne. }
    apply H; [done|]. by rewrite list_lookup_insert_eq.
  - rewrite (IH (S i) _ (length_insert _ _ _) Hlt' Hnd n z Hz). do 2 f_equal. lia.
Qed.

Lemma fold_min_le (f : nat -> Z) l : forall z,
  foldl (fun e n => Z.min e (f n)) z l <= z /\
  (forall n, n ∈ l -> foldl (fun e n => Z.min e (f n)) z l <= f n) /\
  (foldl (fun e n => Z.min e (f n)) z l = z \/ exists n, n ∈ l /\ foldl (fun e n => Z.min e (f n)) z l = f n).
Proof.
  induction l as [|m l IH]; intros z; simpl.
  { split_and!; [lia|intros n Hn; by apply not_elem_of_nil in Hn|by left]. }
  destruct (IH (Z.min z (f m))) as (H1 & H2 & H3). split_and!; [lia| |].
  - intros n [->|Hn]%elem_of_cons; [lia|by apply H2].
  - destruct H3 as [E|(n & Hn & E)].
    + destruct (Z.min_spec z (f m)) as [[_ Em]|[_ Em]]; rewrite Em in E at 2; [by left|].
      right. exists m. split; [left|done].
    + right. exists n. split; [by right|done].
Qed.

Lemma emission_point_le p rw n : n ∈ old_nodes rw -> emission_point p rw <= default 0 (p !! n).
Proof. apply (fold_min_le (fun n => default 0 (p !! n)) (old_nodes rw) UINT64_MAX). Qed.

Lemma emission_point_attained p rw z : emission_point p rw < z -> z <= UINT64_MAX ->
  exists n, n ∈ old_nodes rw /\ default 0 (p !! n) < z.
Proof.
  intros H Hz. destruct (fold_min_le (fun n => default 0 (p !! n)) (old_nodes rw) UINT64_MAX) as (_ & _ & [E|(n & Hn & E)]);
    unfold emission_point in H; rewrite E in H; [lia|]. by exists n.
Qed.
End Traversal.

(** ** External values, session constants, virtual values *)

Section Externals.
Context {OS : OperatorSemantics}.
Context (s : Session) (Hs : session_ok s).

Lemma copy_sources_spec e e1 :
  res_foldl (copy_source (graph_ s)) e
    (zip (seq 0 (length (values_ (graph_ s)))) (values_ (graph_ s))) = Ret e1 ->
  emission_le e e1 /\ forall v x, values_ (graph_ s) !! v = Some x -> producer x = None ->
    is_mapped (source_values e1.2) v.
Proof.
  intros H. destruct (res_foldl_establish emission_le
    (fun (ix : nat * GraphValue) (e : Emission) => producer ix.2 = None -> is_mapped (source_values e.2) ix.1)
    (copy_source (graph_ s)) (zip (seq 0 (length (values_ (graph_ s)))) (values_ (graph_ s))))
    with (3 := H) as [Hle HQ].
  { intros ix a b Hx Hle Hp. eapply source_mapped_le; [by apply Hx|done]. }
  { intros a [i x] b _ Hab. unfold copy_source in Hab. destruct (producer x) eqn:Ep; simpl.
    - injection Hab as <-. split; [done|]. congruence.
    - res_inv. split; [split_and!; simpl; [apply map_le_insert|done..]|]. intros _. apply is_mapped_insert. }
  split; [done|]. intros v x Hv Hp. apply (HQ (v, x)); [|done]. apply list_elem_of_lookup. exists v.
  rewrite lookup_zip_with, Hv, lookup_seq_lt; [done|]. by apply lookup_lt_Some in Hv.
Qed.

(** The flags of the reachability scan only grow. *)
Definition flags_le (r r' : list bool) : Prop :=
  length r = length r' /\ forall i, r !! i = Some true -> r' !! i = Some true.
#[local] Instance flags_le_preorder : PreOrder flags_le.
Proof. split; [by intros r|]. intros a b c [L1 H1] [L2 H2]. split; [congruence|]. auto. Qed.

Lemma flags_le_set (r : list bool) i : flags_le r (<[i := true]> r).
Proof.
  split; [by rewrite length_insert|]. intros j Hj. destruct (decide (i = j)) as [->|].
  - rewrite list_lookup_insert_eq; [done|]. by apply lookup_lt_Some in Hj.
  - by rewrite list_lookup_insert_ne.
Qed.

Lemma referenced_outputs_length :
  length (referenced_by_outputs s) = length (session_value_metadata_ s).
Proof.
  unfold referenced_by_outputs. rewrite <- (length_replicate (length (session_value_metadata_ s)) false) at 2.
  generalize (replicate (length (session_value_metadata_ s)) false).
  induction (outputs_ (graph_ s)) as [|v l IH]; intros r; simpl; [done|]. rewrite IH.
  destruct (IsSessionConstant _ _); [by rewrite length_insert|done].
Qed.

Lemma referenced_spec r0 r locals : res_foldl (referenced_by_consumers s) r0 locals = Ret r ->
  flags_le r0 r /\ forall i c, i ∈ locals -> session_value_metadata_ s !! i = Some (Some c) ->
    (HasLiveConsumers s (value_count s + i)).1 = Ret true -> (i < length r0)%nat -> r !! i = Some true.
Proof.
  intros H. destruct (res_foldl_establish flags_le
    (fun i r => forall c, session_value_metadata_ s !! i = Some (Some c) ->
       (HasLiveConsumers s (value_count s + i)).1 = Ret true -> (i < length r)%nat -> r !! i = Some true)
    (referenced_by_consumers s) locals) with (3 := H) as [Hle HQ].
  - intros i a b Ha [HL Hab] c Hc Hl Hi. apply Hab, (Ha c); [done..|lia].
  - intros a i b _ Hab. unfold referenced_by_consumers in Hab.
    destruct (a !! i) as [[|]|] eqn:Ei; simpl in Hab.
    + injection Hab as <-. split; [done|]. intros; congruence.
    + destruct (session_value_metadata_ s !! i) as [[c|]|] eqn:Em; [|by injection Hab as <-..].
      destruct (HasLiveConsumers s (value_count s + i)).1 as [[|]| |]; simpl in Hab;
        [|by injection Hab as <-|discriminate..]. injection Hab as <-. split; [apply flags_le_set|].
      intros _ _ _ Hi. rewrite length_insert in Hi. by rewrite list_lookup_insert_eq.
    + assert (flags_le a b) as Hle.
      { destruct (session_value_metadata_ s !! i) as [[c|]|]; [|by injection Hab as <-..].
        destruct (HasLiveConsumers s (value_count s + i)).1 as [[|]| |]; simpl in Hab;
          [|by injection Hab as <-|discriminate..]. injection Hab as <-. apply flags_le_set. }
      split; [done|]. intros c _ _ Hi. apply lookup_ge_None_1 in Ei. destruct Hle. lia.
  - split; [done|]. intros i c Hi Hc Hl Hlt. apply (HQ i Hi c); [done..|]. destruct Hle. lia.
Qed.

Lemma copy_constants_spec flags e e1 locals : res_foldl (copy_constant s flags) e locals = Ret e1 ->
  emission_le e e1 /\ forall i, i ∈ locals -> flags !! i = Some true -> is_mapped (session_constants e1.2) i.
Proof.
  intros H. destruct (res_foldl_establish emission_le
    (fun i (e : Emission) => flags !! i = Some true -> is_mapped (session_constants e.2) i)
    (copy_constant s flags) locals) with (3 := H) as [Hle HQ]; [| |done].
  - intros i a b Ha (_ & Hab & _) Hi. eapply is_mapped_le; [by apply Ha|done].
  - intros a i b _ Hab. unfold copy_constant in Hab. destruct (flags !! i) as [[|]|] eqn:Ei; simpl in Hab.
    + res_inv. split; [split_and!; simpl; [done|apply map_le_insert|done]|]. intros _. apply is_mapped_insert.
    + injection Hab as <-. split; [done|]. discriminate.
    + injection Hab as <-. split; [done|]. discriminate.
Qed.

(** Copying maps every producer-less value and every constant with a consumer. *)
Lemma CopyExternalValues_spec e : CopyExternalValues s (empty_emission s) = Ret e ->
  emission_le (empty_emission s) e /\
  (forall v x, values_ (graph_ s) !! v = Some x -> producer x = None -> is_mapped (source_values e.2) v) /\
  (forall i c, session_value_metadata_ s !! i = Some (Some c) ->
     (HasLiveConsumers s (value_count s + i)).1 = Ret true -> is_mapped (session_constants e.2) i).
Proof.
  unfold CopyExternalValues. intros H. res_inv. apply copy_sources_spec in Hm as [H1 H2].
  apply referenced_spec in Hm0 as [_ H3]. apply copy_constants_spec in H as [H4 H5].
  split_and!; [by etransitivity| |].
  - intros v x Hv Hp. eapply source_mapped_le; [by eapply H2|done].
  - intros i c Hi Hl. pose proof (lookup_lt_Some _ _ _ Hi) as Hlt.
    assert (i ∈ seq 0 (length (session_value_metadata_ s))) as Hin by (apply elem_of_seq; lia).
    apply H5; [done|]. apply (H3 i c); [done..|]. by rewrite referenced_outputs_length.
Qed.

(** A session constant read by an active rewrite has a consumer. *)
Lemma constant_consumed order r rw rn w : TopologicalOrder (graph_ s) = Ret order ->
  zlen (replacement_inputs s) < 2 ^ 32 -> rewrites_ s !! r = Some rw -> active rw = true ->
  rn ∈ replacements rw -> w ∈ rn_inputs rn -> IsSessionConstant s (resolved s w) = true ->
  (HasLiveConsumers s (resolved s w)).1 = Ret true.
Proof.
  intros Ho Hb Hr Ha Hrn Hw Hc. apply bool_decide_eq_true in Hc.
  assert (CheckNonVirtualValueId s (resolved s w) = Ret tt) as Hnv
    by (unfold CheckNonVirtualValueId; by rewrite Hc).
  rewrite (HasLiveConsumers_answer s _ order Hs Ho Hnv).
  rewrite (resolved_idem s w (so_resolve s Hs)). f_equal. apply orb_true_iff.
  destruct (exposes_node_view rw) eqn:He.
  - left. apply bool_decide_eq_true, filter_nonempty.
    destruct (so_mirrors s Hs r rw Hr He) as (n & node & rn' & E1 & E2 & E3 & _).
    rewrite E2 in Hrn. apply list_elem_of_singleton in Hrn as ->.
    assert (node_to_rewrite_ s !! n = Some (Some r)) as Hl.
    { apply (lo_active s (so_links s Hs) r rw Hr Ha). rewrite E1. left. }
    exists n. split.
    + by apply (order_elem (graph_ s)); [|apply lookup_lt_Some in E3].
    + split.
      * apply live_cases; [done|]. right. by exists r, rw, rn'.
      * unfold live_inputs, mirror_of. rewrite Hl. simpl. unfold vec_at. rewrite Hr. simpl. rewrite E2. simpl.
        apply list_elem_of_fmap. by exists w.
  - right. assert (w ∈ replacement_inputs s) as Hin.
    { unfold replacement_inputs. apply list_elem_of_bind. exists rw. split.
      - apply list_elem_of_bind. by exists rn.
      - apply list_elem_of_filter. split; [done|]. by apply list_elem_of_lookup_2 with r. }
    pose proof (length_filter (fun w' => resolved s w' = resolved s w) (replacement_inputs s)) as Hlen.
    assert (w ∈ filter (fun w' => resolved s w' = resolved s w) (replacement_inputs s)) as Hf
      by (by apply list_elem_of_filter).
    destruct (filter _ _) as [|x l] eqn:E; [by apply not_elem_of_nil in Hf|].
    unfold zlen in Hb. apply Z.ltb_lt. rewrite wrap_small; simpl in *; [lia|]. unfold in_u. lia.
Qed.
End Externals.

(** ** Virtual values *)

Section Virtuals.
Context (s : Session).

Lemma virtual_index v : IsSessionVirtualValue s v = true ->
  (value_count s <= v)%nat /\ session_value_metadata_ s !! GetSessionValueIndex s v = Some None.
Proof.
  intros H. apply bool_decide_eq_true in H. unfold ClassifyValue in H.
  destruct (Nat.ltb_spec v (value_count s)) as [|Hv]; [discriminate|]. split; [done|].
  by destruct (session_value_metadata_ s !! _) as [[c|]|].
Qed.

(** What is locally available was bound by an earlier replacement. *)
Definition from_earlier (rns : list ReplacementNode) (st : list bool * list bool) : Prop :=
  forall v, IsSessionVirtualValue s v = true -> st.2 !! GetSessionValueIndex s v = Some true ->
    existsb (fun rn => binds rn v) rns = true.

Lemma index_inj v w : IsSessionVirtualValue s v = true -> IsSessionVirtualValue s w = true ->
  GetSessionValueIndex s v = GetSessionValueIndex s w -> v = w.
Proof.
  intros Hv Hw E. apply virtual_index in Hv as [Hv _]. apply virtual_index in Hw as [Hw _].
  unfold GetSessionValueIndex in E. lia.
Qed.

Lemma track_virtual_earlier rns rn st st' : rn ∈ rns -> from_earlier rns st ->
  track_virtual s st rn = Ret st' -> from_earlier rns st'.
Proof.
  intros Hin Hst H. unfold track_virtual in H. res_inv.
  eapply (res_foldl_inv (from_earlier rns)); [|exact Hst|exact H]. clear st st' Hst H Hm.
  intros st out st' Hout Hst H. cbv beta in H. destruct (replaces out) as [v|] eqn:Er; [|by res_inv].
  destruct (IsSessionVirtualValue s v) eqn:Ev; [|by res_inv]. res_inv.
  intros w Hw. simpl. destruct (decide (GetSessionValueIndex s v = GetSessionValueIndex s w)) as [E|E].
  - apply (index_inj v w Ev Hw) in E as <-. intros _. apply existsb_exists. exists rn.
    split; [by apply list_elem_of_In|]. apply existsb_exists. exists out.
    split; [by apply list_elem_of_In|]. by apply bool_decide_eq_true.
  - rewrite list_lookup_insert_ne by done. by apply Hst.
Qed.

(** A validated rewrite only reads virtual values its earlier replacements bind. *)
Lemma virtual_inputs_bound rw before rn after w : ValidateVirtualValues s = Ret tt ->
  rw ∈ rewrites_ s -> active rw = true -> replacements rw = before ++ rn :: after ->
  w ∈ rn_inputs rn -> IsSessionVirtualValue s w = true ->
  existsb (fun rn => binds rn w) before = true.
Proof.
  unfold ValidateVirtualValues. intros H Hrw Ha Erw Hw Hv. res_inv.
  destruct (res_foldl_elem _ _ _ Hrw _ _ Hm) as (p & q & Hf). rewrite Ha in Hf. res_inv.
  rewrite Erw, res_foldl_app in Hm0. res_inv. simpl in Hm0. res_inv.
  assert (from_earlier before a1) as He.
  { eapply (res_foldl_inv (from_earlier before)); [|  |exact Hm1].
    - intros. by eapply track_virtual_earlier.
    - intros v _ Hl. simpl in Hl. apply lookup_replicate in Hl as [? _]. discriminate. }
  apply He; [done|]. unfold track_virtual in Hm2. res_inv.
  rewrite res_iter_ret, Forall_forall in Hm3. specialize (Hm3 w Hw). cbv beta in Hm3. rewrite Hv in Hm3.
  apply reject_if_ret, negb_false_iff in Hm3.
  destruct (a1.2 !! GetSessionValueIndex s w) as [[|]|]; done.
Qed.
End Virtuals.

(** ** Properties *)

Section Properties.
Context {OS : OperatorSemantics}.

(** The parts of a passing [ValidateEdits]. *)
Record edits_valid (s : Session) : Prop := {
  ev_ids rw : rw ∈ rewrites_ s -> active rw = true ->
    Forall (fun rn => Forall (fun v => CheckKnownValueId s v = Ret tt) (rn_inputs rn)) (replacements rw);
  ev_virtual : ValidateVirtualValues s = Ret tt;
  ev_available order r rw k rn v : TopologicalOrder (graph_ s) = Ret order ->
    rewrites_ s !! r = Some rw -> active rw = true -> replacements rw !! k = Some rn -> v ∈ rn_inputs rn ->
    check_available s (positions (length (nodes_ (graph_ s))) order) r rw k v = Ret tt }.

Lemma ValidateEdits_valid s : ValidateEdits s = Ret tt -> edits_valid s.
Proof.
  unfold ValidateEdits. intros H. res_inv. constructor; [| done |].
  - intros rw Hrw Ha. rewrite res_iter_ret, Forall_forall in Hm0. specialize (Hm0 rw Hrw).
    unfold check_rewrite_ids in Hm0. rewrite Ha in Hm0. res_inv.
    rewrite res_iter_ret in Hm3. eapply Forall_impl; [exact Hm3|]. intros rn Hrn.
    unfold ValidateReplacementNode in Hrn. res_inv. by apply res_iter_ret.
  - intros order r rw k rn v Ho Hr Ha Hk Hv. unfold ValidateReplacementInputAvailability in H.
    case_bool_decide as Hl; [apply lookup_lt_Some in Hr; lia|]. rewrite Ho in H. simpl in H.
    rewrite for_each_ret in H. specialize (H r rw Hr). simpl in H. rewrite Ha, for_each_ret in H.
    specialize (H k rn Hk). simpl in H. rewrite res_iter_ret, Forall_forall in H. by apply H.
Qed.

Lemma known_kind s v : CheckKnownValueId s v = Ret tt <-> ClassifyValue s v <> ValueKind.kInvalid.
Proof. unfold CheckKnownValueId. rewrite reject_if_ret, bool_decide_eq_false. done. Qed.

Lemma map_source s m v x : values_ (graph_ s) !! v = Some x ->
  is_mapped (source_values m) v -> length (source_values m) = value_count s ->
  exists r, MapCommittedValue s v m = Ret r.
Proof.
  intros Hv Hm Hl. apply lookup_lt_Some in Hv. unfold MapCommittedValue.
  unfold value_count in *. rewrite (proj2 (Nat.ltb_lt _ _) Hv). unfold MapResolvedValue.
  destruct Hm as [r ->]; [lia|]. by exists r.
Qed.

Lemma map_virtual s m v : IsSessionVirtualValue s v = true ->
  is_mapped (virtual_values m) (GetSessionValueIndex s v) ->
  length (virtual_values m) = length (session_value_metadata_ s) ->
  exists r, MapCommittedValue s v m = Ret r.
Proof.
  intros Hv Hm Hl. pose proof (virtual_index s v Hv) as [Hge Hmeta].
  pose proof (lookup_lt_Some _ _ _ Hmeta) as Hlt. unfold MapCommittedValue.
  rewrite (proj2 (Nat.ltb_ge _ _) Hge), (proj2 (Nat.leb_gt _ _) Hlt). simpl.
  unfold IsSessionConstant. apply bool_decide_eq_true in Hv. rewrite Hv. simpl.
  destruct Hm as [r ->]; [lia|]. by exists r.
Qed.

Lemma map_constant s m v : IsSessionConstant s v = true ->
  is_mapped (session_constants m) (GetSessionValueIndex s v) ->
  length (session_constants m) = length (session_value_metadata_ s) ->
  exists r, MapCommittedValue s v m = Ret r.
Proof.
  intros Hv Hm Hl. unfold MapCommittedValue. rewrite Hv. apply bool_decide_eq_true in Hv.
  unfold ClassifyValue in Hv. destruct (Nat.ltb_spec v (value_count s)) as [|Hge]; [discriminate|].
  destruct (session_value_metadata_ s !! _) eqn:E; [|discriminate]. apply lookup_lt_Some in E.
  rewrite (proj2 (Nat.leb_gt _ _) E). simpl. destruct Hm as [r ->]; [lia|]. by exists r.
Qed.

(** The replacement about to be emitted, in the traversal of [Commit]. *)
Section Emitting.
Context (s : Session) (Hs : session_ok s) (HV : edits_valid s).
Context (Hprod : forall v x p, values_ (graph_ s) !! v = Some x -> producer x = Some p ->
  exists node, nodes_ (graph_ s) !! p = Some node /\ v ∈ node_outputs node).
Context (Hfew : zlen (replacement_inputs s) < 2 ^ 32).
Context (order pre : list nat) (n : nat) (post : list nat) (e : Emission) (st : list bool * Emission).
Context (Ho : TopologicalOrder (graph_ s) = Ret order) (Eo : order = pre ++ n :: post).
Context (He : CopyExternalValues s (empty_emission s) = Ret e).
Context (Hst : res_foldl (emit_node s) (replicate (length (rewrites_ s)) false, e) pre = Ret st).
Context (r : nat) (rw : RewriteEntry) (Hr : rewrites_ s !! r = Some rw).
Context (Hlink : node_to_rewrite_ s !! n = Some (Some r)).
Context (before : list ReplacementNode) (rn : ReplacementNode) (after : list ReplacementNode).
Context (Erw : replacements rw = before ++ rn :: after) (e' : Emission).
Context (Hbefore : res_foldl (emit_replacement s) st.2 before = Ret e').

Lemma emitting_active : active rw = true /\ n ∈ old_nodes rw.
Proof.
  destruct (lo_link s (so_links s Hs) n r Hlink) as (rw' & Hr' & Ha & Hn).
  assert (rw' = rw) as -> by congruence. done.
Qed.

Lemma emitting_state : progress (replicate (length (rewrites_ s)) false, e) st /\
  flagged s st /\ (forall m, m ∈ pre -> passed s m st) /\ emission_le st.2 e' /\
  (forall v, existsb (fun rn => binds rn v) before = true -> bound s e'.2 v).
Proof.
  destruct (emit_nodes_spec s Hs pre (replicate (length (rewrites_ s)) false, e) st) as (H1 & H2 & H3); [|done|].
  { intros r' rw' v Hf. simpl in Hf. apply lookup_replicate in Hf as [? _]. discriminate. }
  destruct (emit_replacements_spec s before _ _ Hbefore) as [H4 H5]. done.
Qed.

Lemma emitting_lengths : length (source_values e'.2) = value_count s /\
  length (virtual_values e'.2) = length (session_value_metadata_ s) /\
  length (session_constants e'.2) = length (session_value_metadata_ s) /\
  length st.1 = length (rewrites_ s).
Proof.
  destruct emitting_state as ((L & _ & P) & _ & _ & Q & _).
  destruct (CopyExternalValues_spec s e He) as (((A & _) & (B & _) & (C & _)) & _).
  destruct P as ((P1 & _) & (P2 & _) & (P3 & _)), Q as ((Q1 & _) & (Q2 & _) & (Q3 & _)).
  simpl in *. rewrite !length_replicate in *. split_and!; congruence.
Qed.

(** A node placed before [n] has been passed. *)
Lemma emitted_before m : (m < length (nodes_ (graph_ s)))%nat ->
  default 0 (positions (length (nodes_ (graph_ s))) order !! m) <
  default 0 (positions (length (nodes_ (graph_ s))) order !! n) -> m ∈ pre.
Proof.
  destruct (order_nodup _ _ Ho) as [Hnd Hlt]. intros Hm Hpos.
  pose proof (order_elem _ _ m Ho Hm) as Hin. apply list_elem_of_lookup in Hin as [i Hi].
  assert (order !! length pre = Some n) as Hn by (by rewrite Eo, list_lookup_middle).
  rewrite (positions_lookup _ _ _ _ Hnd Hlt Hi), (positions_lookup _ _ _ _ Hnd Hlt Hn) in Hpos. simpl in Hpos.
  rewrite Eo, lookup_app_l in Hi by lia. by apply list_elem_of_lookup_2 with i.
Qed.

Lemma source_input_mapped v x : v ∈ rn_inputs rn -> values_ (graph_ s) !! resolved s v = Some x ->
  is_mapped (source_values e'.2) (resolved s v).
Proof.
  intros Hv Hx. destruct emitting_active as [Ha Hn].
  destruct emitting_state as ((_ & _ & P) & HF & HP & Q & HB).
  destruct (CopyExternalValues_spec s e He) as (_ & Hext & _).
  assert (replacements rw !! length before = Some rn) as Hk by (by rewrite Erw, list_lookup_middle).
  assert (forall w, (w < value_count s)%nat -> bound s e'.2 w -> is_mapped (source_values e'.2) w) as Hsrc.
  { intros w Hw. unfold bound. destruct (IsSessionVirtualValue s w) eqn:Ew; [|done].
    apply virtual_index in Ew as [? _]. lia. }
  pose proof (lookup_lt_Some _ _ _ Hx) as Hlt.
  pose proof (ev_available s HV order r rw _ rn v Ho Hr Ha Hk Hv) as Hav. unfold check_available in Hav.
  rewrite Hx in Hav. destruct (producer x) as [p|] eqn:Ep.
  2: { eapply source_mapped_le; [|by transitivity st.2.2]. by eapply Hext. }
  destruct (Hprod _ _ _ Hx Ep) as (node & Hnode & Hout).
  pose proof (lookup_lt_Some _ _ _ Hnode) as Hp.
  pose proof (emission_point_le (positions (length (nodes_ (graph_ s))) order) rw n Hn) as Hmin.
  destruct (node_to_rewrite_ s !! p) as [[j|]|] eqn:El; simpl in Hav.
  - destruct (lo_link s (so_links s Hs) p j El) as (rwp & Hj & Haj & Hpj). rewrite Hj in Hav. simpl in Hav.
    rewrite Haj in Hav. res_inv. apply negb_false_iff in Hm. destruct (Nat.eqb_spec j r) as [->|Hne].
    + res_inv. apply negb_false_iff in Hav. assert (rwp = rw) as -> by congruence.
      rewrite Erw, take_app_length in Hav. apply Hsrc; [done|]. by apply HB.
    + res_inv. apply Z.leb_gt in Hav. destruct (emission_point_attained _ rwp _ Hav) as (m & Hm1 & Hm2).
      { pose proof (fold_min_le (fun n => default 0 (positions (length (nodes_ (graph_ s))) order !! n))
          (old_nodes rw) UINT64_MAX) as [? _]. done. }
      pose proof (proj2 (lo_active s (so_links s Hs) j rwp Hj Haj) m Hm1) as Hlm.
      assert (m ∈ pre) as Hmp.
      { apply emitted_before; [|lia]. apply lookup_lt_Some in Hlm. by rewrite (lo_len s (so_links s Hs)) in Hlm. }
      destruct (HP m Hmp) as [_ Hflag]. apply Hsrc; [done|]. eapply bound_le; [|exact Q].
      apply (HF j rwp); [|done..]. apply Hflag; [done|].
      destruct emitting_lengths as (_ & _ & _ & ->). by apply lookup_lt_Some in Hj.
  - res_inv. apply Z.leb_gt in Hav. destruct (HP p) as [Hmap _]; [apply emitted_before; [done|lia]|].
    eapply source_mapped_le; [by eapply Hmap|done].
  - apply lookup_ge_None_1 in El. rewrite (lo_len s (so_links s Hs)) in El. lia.
Qed.

Lemma emitting_input v : v ∈ rn_inputs rn -> exists c, MapCommittedValue s (resolved s v) e'.2 = Ret c.
Proof.
  intros Hv. destruct emitting_active as [Ha Hn]. destruct emitting_lengths as (L1 & L2 & L3 & _).
  assert (rn ∈ replacements rw) as Hrn by (rewrite Erw; apply elem_of_app; right; left).
  assert (rw ∈ rewrites_ s) as Hrw by (by apply list_elem_of_lookup_2 with r).
  pose proof (ev_ids s HV rw Hrw Ha) as Hids. rewrite Forall_forall in Hids.
  specialize (Hids rn Hrn). rewrite Forall_forall in Hids. specialize (Hids v Hv).
  apply known_kind in Hids.
  assert ((v < value_count s)%nat -> CheckNonVirtualValueId s (resolved s v) = Ret tt) as Hsrc.
  { intros Hlt. apply resolved_non_virtual; [done|]. unfold CheckNonVirtualValueId, ClassifyValue.
    by rewrite (proj2 (Nat.ltb_lt v (value_count s)) Hlt). }
  assert ((value_count s <= v)%nat -> resolved s v = v) as Hloc
    by (intros Hge; by apply resolved_out, Hs).
  unfold CheckNonVirtualValueId in Hsrc.
  destruct (ClassifyValue s (resolved s v)) eqn:Ek.
  - unfold ClassifyValue in Ek. destruct (Nat.ltb_spec (resolved s v) (value_count s)) as [Hlt|Hge].
    + destruct (lookup_lt_is_Some_2 _ _ Hlt) as [x Hx].
      eapply map_source; [done|by eapply source_input_mapped|done].
    + by destruct (session_value_metadata_ s !! _) as [[?|]|].
  - assert (IsSessionConstant s (resolved s v) = true) as Hc by (by apply bool_decide_eq_true).
    apply map_constant; [done| |done].
    pose proof (constant_consumed s Hs order r rw rn v Ho Hfew Hr Ha Hrn Hv Hc) as Hlive.
    unfold ClassifyValue in Ek. destruct (Nat.ltb_spec (resolved s v) (value_count s)) as [|Hge]; [discriminate|].
    destruct (session_value_metadata_ s !! _) as [[c|]|] eqn:Em; try discriminate.
    destruct (CopyExternalValues_spec s e He) as (_ & _ & Hconst).
    destruct emitting_state as ((_ & _ & P) & _ & _ & Q & _).
    eapply is_mapped_le; [apply (Hconst _ c Em)|].
    + unfold GetSessionValueIndex. by replace (value_count s + (resolved s v - value_count s))%nat with (resolved s v) by lia.
    + etransitivity; [apply P|apply Q].
  - destruct (decide (v < value_count s)%nat) as [Hlt|Hge]; [by specialize (Hsrc Hlt)|].
    rewrite Hloc in * by lia.
    assert (IsSessionVirtualValue s v = true) as Hvv by (by apply bool_decide_eq_true).
    apply map_virtual; [done| |done].
    pose proof (virtual_inputs_bound s rw before rn after v (ev_virtual s HV) Hrw Ha Erw Hv Hvv) as Hb.
    destruct emitting_state as (_ & _ & _ & _ & HB). specialize (HB v Hb). unfold bound in HB.
    by rewrite Hvv in HB.
  - destruct (decide (v < value_count s)%nat) as [Hlt|Hge]; [by specialize (Hsrc Hlt)|].
    rewrite Hloc in Ek by lia. done.
Qed.
End Emitting.

Lemma Validate_ret g u : Validate g = Ret u -> graph_valid g /\ exists order, TopologicalOrder g = Ret order.
Proof.
  unfold Validate, ValidateAndTopologicalOrder. intros H. res_inv.
  split; [by apply validate_structure_valid|by exists a].
Qed.

Lemma valid_producer g v x p : graph_valid g -> values_ g !! v = Some x -> producer x = Some p ->
  exists node, nodes_ g !! p = Some node /\ v ∈ node_outputs node.
Proof. intros HV Hx Hp. by destruct (value_ok_producer _ _ _ _ (gv_values g HV v x Hx) Hp) as [_ ?]. Qed.

Lemma valid_output g i node v : graph_valid g -> nodes_ g !! i = Some node -> v ∈ node_outputs node ->
  exists x, values_ g !! v = Some x /\ producer x = Some i.
Proof.
  intros HV Hn Hv. destruct (gv_nodes g HV i node Hn) as (schema & specs & derived & bs & HN).
  apply list_elem_of_lookup in Hv as [k Hk]. pose proof (lookup_lt_Some _ _ _ Hk) as Hlt.
  destruct (lookup_lt_is_Some_2 (output_ports schema) k) as [port Hp];
    [by rewrite <- (nv_out_arity _ _ _ _ _ _ _ HN)|].
  destruct (lookup_lt_is_Some_2 (outputs derived) k) as [sp Hsp];
    [by rewrite (nv_derived _ _ _ _ _ _ _ HN)|].
  destruct (nv_outputs _ _ _ _ _ _ _ HN k port v sp Hp Hk Hsp) as (x & Hx & Hpr & _). by exists x.
Qed.

(** C9: What [ValidateEdits] promises about [Commit]: when it accepts the session,
    then at every point of the traversal where [Commit] emits a replacement - after
    any prefix of the nodes and any prefix of the replacements of the rewrite that
    covers the next node - all of that replacement's inputs can be mapped into the
    committed graph, whether they are source values, session constants or virtual
    values, directly or through value replacement chains. *)
Theorem replacement_inputs_mappable g s order pre n post e st r rw before rn after e' :
  edited g s -> Validate g = Ret tt -> ValidateEdits s = Ret tt -> zlen (replacement_inputs s) < 2 ^ 32 ->
  TopologicalOrder g = Ret order -> order = pre ++ n :: post ->
  CopyExternalValues s (empty_emission s) = Ret e ->
  res_foldl (emit_node s) (replicate (length (rewrites_ s)) false, e) pre = Ret st ->
  node_to_rewrite_ s !! n = Some (Some r) -> rewrites_ s !! r = Some rw ->
  replacements rw = before ++ rn :: after ->
  res_foldl (emit_replacement s) st.2 before = Ret e' ->
  exists ins, map_inputs s e'.2 (resolved s <$> rn_inputs rn) = Ret ins.
Proof.
  intros Hed HV HE Hfew Ho Eo He Hst Hlink Hr Erw Hb.
  destruct (session_invariant_of g s Hed) as [<- Hs]. apply Validate_ret in HV as [HV _].
  apply res_mapi_total. intros k v Hk. rewrite list_lookup_fmap in Hk.
  destruct (rn_inputs rn !! k) as [w|] eqn:Ew; [|discriminate]. injection Hk as <-.
  eapply emitting_input; eauto using ValidateEdits_valid, valid_producer.
  by apply list_elem_of_lookup_2 with k.
Qed.
End Properties.

(** ** Witness *)

Lemma replacement_inputs_mappable_witness : exists e rn ins,
  CopyExternalValues redirected_session (empty_emission redirected_session) = Ret e /\
  map_inputs redirected_session e.2 (resolved redirected_session <$> rn_inputs rn) = Ret ins.
Proof.
  destruct (CopyExternalValues redirected_session (empty_emission redirected_session)) as [e| |] eqn:Ee;
    [|vm_compute in Ee; discriminate..].
  destruct (rewrites_ redirected_session) as [|rw rest] eqn:Er; [vm_compute in Er; discriminate|].
  destruct (replacements rw) as [|rn after] eqn:Erw.
  { vm_compute in Er. injection Er as <- _. discriminate Erw. }
  destruct (replacement_inputs_mappable sum_graph redirected_session [0%nat] [] 0 [] e
    (replicate (length (rewrites_ redirected_session)) false, e) 0 rw [] rn after e) as [ins Hins].
  - exact redirected_edited.
  - vm_compute. reflexivity.
  - vm_compute. reflexivity.
  - vm_compute. reflexivity.
  - vm_compute. reflexivity.
  - reflexivity.
  - exact Ee.
  - reflexivity.
  - vm_compute. reflexivity.
  - rewrite Er. reflexivity.
  - exact Erw.
  - reflexivity.
  - exists e, rn, ins. split; [reflexivity|exact Hins].
Defined.
