(* ===== verification/RewriteEmission.v ===== *)
(** * RewriteEmission: the graph a session commits

    The committed graph as a whole: which nodes it has, in which order, how they
    are wired, and what its outputs are, stated against a plan read off the session
    without running the emission. *)
From S2P Require Import Prelude DataTypes ShapeSymbol ShapeConstraint OperatorSchema OperatorInference Graph Topology GraphInvariant RewriteSession RewriteResolve RewriteInvariant RewriteCommit.

(** ** The plan *)

(** A node to be emitted: its operator, the session values it reads (resolved), the session
    value each output stands for and what is to be stored for it. *)
Record Item := mkItem {
  it_op : OpType.t; it_layer : option nat; it_params : OpParams; it_attrs : list Z; it_name : string;
  it_inputs : list nat; it_binds : list (option nat); it_descs : list NodeOutputDesc }.

Definition item_of_replacement (s : Session) (rn : ReplacementNode) : Item :=
  mkItem (rn_op_type rn) (rn_layer rn) (rn_op_params rn) (rn_attrs rn) (rn_name rn)
    (resolved s <$> rn_inputs rn) (replaces <$> rn_outputs rn) (desc <$> rn_outputs rn).

Definition descs_of (g : ModelGraph) (vs : list nat) : list NodeOutputDesc := omap (fun v => MakeNodeOutputDesc <$> values_ g !! v) vs.
Definition item_of_node (s : Session) (node : GraphNode) : Item :=
  mkItem (op_type node) (node_layer node) (op_params node) (attrs node) (node_name node)
    (resolved s <$> node_inputs node) (Some <$> node_outputs node) (descs_of (graph_ s) (node_outputs node)).

(** Untouched nodes in place, each rewrite at the first of its nodes. *)
Fixpoint emission_plan (s : Session) (order : list nat) (emitted : list bool) : list Item :=
  match order with
  | [] => []
  | n :: order' =>
      match mjoin (node_to_rewrite_ s !! n) with
      | None =>
          match nodes_ (graph_ s) !! n with
          | Some node => item_of_node s node :: emission_plan s order' emitted
          | None => emission_plan s order' emitted
          end
      | Some r =>
          if default false (emitted !! r) then emission_plan s order' emitted
          else match rewrites_ s !! r with
               | Some rw => (item_of_replacement s <$> replacements rw) ++
                            emission_plan s order' (<[r := true]> emitted)
               | None => emission_plan s order' emitted
               end
      end
  end.

(** What the nodes store, from node [k] on: each output's payload, quantization and name,
    and the node that produces it. *)
Definition planned_outputs (k : nat) (items : list Item) : list (nat * NodeOutputDesc) :=
  concat (imap (fun i it => pair (k + i)%nat <$> it_descs it) items).
Definition stores (x : nat * NodeOutputDesc) (v : GraphValue) : Prop :=
  payload v = normalize_payload (desc_payload x.2) /\ producer v = Some x.1 /\ quantization v = desc_quantization x.2 /\ value_name v = desc_name x.2.

(** Values without a producer are copied as they are, in their order. *)
Definition externals (vs : list GraphValue) : list GraphValue := filter (fun x => producer x = None) vs.
Definition input_ids (vs : list GraphValue) : list nat := (filter (fun ix => payload ix.2 = ModelInputValue) (zip (seq 0 (length vs)) vs)).*1.

(** The session constants that are still used, in their order. *)
Definition constant_value (c : SessionConstant) : GraphValue :=
  mkValue (ConstantValue (sc_binding c)) (sc_spec c) None (sc_quantization c) (sc_name c).
Definition kept_constants (s : Session) (used : list bool) (ids : list nat) : list SessionConstant :=
  omap (fun i => if default false (used !! i) then mjoin (session_value_metadata_ s !! i) else None) ids.

(** ** Maps that keep what they have *)

Definition map_ext (m m' : ValueMap) : Prop :=
  length m = length m' /\ forall i v, m !! i = Some (Some v) -> m' !! i = Some (Some v).

#[global] Instance map_ext_preorder : PreOrder map_ext.
Proof. split; [by intros m|]. intros a b c [L1 H1] [L2 H2]. split; [congruence|auto]. Qed.

Lemma map_ext_insert (m : ValueMap) i v : mjoin (m !! i) = None -> map_ext m (<[i := Some v]> m).
Proof.
  intros Hi. split; [by rewrite length_insert|]. intros j w Hj.
  destruct (decide (i = j)) as [->|]; [by rewrite Hj in Hi|]. by rewrite list_lookup_insert_ne.
Qed.

Definition maps_ext (m m' : CommitValueMaps) : Prop :=
  map_ext (source_values m) (source_values m') /\ map_ext (session_constants m) (session_constants m') /\
  map_ext (virtual_values m) (virtual_values m').

#[global] Instance maps_ext_preorder : PreOrder maps_ext.
Proof.
  split; [by intros m; split_and!|]. intros a b c (A1 & A2 & A3) (B1 & B2 & B3).
  split_and!; by etransitivity.
Qed.

Lemma mjoin_map_ext m m' i v : map_ext m m' -> mjoin (m !! i) = Some v -> mjoin (m' !! i) = Some v.
Proof. intros [_ H] E. apply mjoin_link in E. apply mjoin_link. auto. Qed.

Lemma MapCommittedValue_ext s m m' v r : maps_ext m m' ->
  MapCommittedValue s v m = Ret r -> MapCommittedValue s v m' = Ret r.
Proof.
  intros (H1 & H2 & H3). unfold MapCommittedValue, MapResolvedValue.
  destruct (_ <? _)%nat.
  - destruct (mjoin (source_values m !! v)) eqn:E; [|discriminate].
    by rewrite (mjoin_map_ext _ _ _ _ H1 E).
  - destruct (_ <=? _)%nat; [discriminate|]. simpl. destruct (IsSessionConstant s v).
    + destruct (mjoin (session_constants m !! _)) eqn:E; [|discriminate].
      by rewrite (mjoin_map_ext _ _ _ _ H2 E).
    + destruct (mjoin (virtual_values m !! _)) eqn:E; [|discriminate].
      by rewrite (mjoin_map_ext _ _ _ _ H3 E).
Qed.

Lemma map_inputs_ext s m m' ins r : maps_ext m m' ->
  map_inputs s m ins = Ret r -> map_inputs s m' ins = Ret r.
Proof.
  unfold map_inputs. rewrite !res_mapi_ret. intros Hm [Hl Hf]. split; [done|]. intros k v Hk.
  destruct (Hf k v Hk) as (y & Hy & Hv). exists y. split; [done|]. by eapply MapCommittedValue_ext.
Qed.

(** The maps cover the session's value space. *)
Definition sized (s : Session) (m : CommitValueMaps) : Prop :=
  length (source_values m) = value_count s /\
  length (session_constants m) = length (session_value_metadata_ s) /\
  length (virtual_values m) = length (session_value_metadata_ s).

Lemma sized_ext s m m' : sized s m -> maps_ext m m' -> sized s m'.
Proof. intros (A & B & C) ((A' & _) & (B' & _) & (C' & _)). split_and!; congruence. Qed.

Lemma sized_ext_inv s m m' : maps_ext m m' -> sized s m' -> sized s m.
Proof. intros ((A' & _) & (B' & _) & (C' & _)) (A & B & C). split_and!; congruence. Qed.

Lemma bind_output_ext s m x m' : bind_output s m x = Ret m' -> maps_ext m m' /\
  forall v, replaces x.1 = Some v -> CheckKnownValueId s v = Ret tt -> sized s m ->
    MapCommittedValue s v m' = Ret x.2.
Proof.
  unfold bind_output. destruct (replaces x.1) as [v|]; [|intros [= <-]; split; [done|discriminate]].
  destruct (IsSessionVirtualValue s v) eqn:Ev.
  - intros H. res_inv. apply bool_decide_eq_false in Hm. apply dec_stable in Hm. split.
    { split_and!; simpl; [done..|by apply map_ext_insert]. }
    intros w [= <-] _ (_ & _ & Hl). pose proof (virtual_index s v Ev) as [Hge Hmeta].
    pose proof (lookup_lt_Some _ _ _ Hmeta) as Hlt. unfold MapCommittedValue.
    rewrite (proj2 (Nat.ltb_ge _ _) Hge), (proj2 (Nat.leb_gt _ _) Hlt). simpl.
    unfold IsSessionConstant. apply bool_decide_eq_true in Ev. rewrite Ev. simpl.
    by rewrite list_lookup_insert_eq by lia.
  - destruct (IsSessionConstant s v) eqn:Ec; [discriminate|]. intros H. res_inv.
    apply bool_decide_eq_false in Hm. apply dec_stable in Hm. split.
    { split_and!; simpl; [by apply map_ext_insert|done..]. }
    intros w [= <-] Hk (Hl & _). apply known_kind in Hk.
    unfold IsSessionVirtualValue in Ev. unfold IsSessionConstant in Ec. bsplit.
    unfold MapCommittedValue, MapResolvedValue. unfold ClassifyValue in *.
    destruct (v <? value_count s)%nat eqn:Hv.
    + simpl. apply Nat.ltb_lt in Hv. by rewrite list_lookup_insert_eq by lia.
    + by destruct (session_value_metadata_ s !! _) as [[?|]|].
Qed.

(** ** Emitted nodes realize their items *)

Definition realizes (s : Session) (m : CommitValueMaps) (it : Item) (n : GraphNode) : Prop :=
  op_type n = it_op it /\ node_layer n = it_layer it /\ op_params n = it_params it /\
  node_name n = it_name it /\ attrs n = it_attrs it /\ map_inputs s m (it_inputs it) = Ret (node_inputs n) /\
  length (node_outputs n) = length (it_binds it) /\
  forall k v o, it_binds it !! k = Some (Some v) -> node_outputs n !! k = Some o ->
    MapCommittedValue s v m = Ret o.

Lemma realizes_ext s m m' it n : maps_ext m m' -> realizes s m it n -> realizes s m' it n.
Proof.
  intros Hm (A & B & C & D & D' & E & F & G). split_and!; try done.
  - by eapply map_inputs_ext.
  - intros k v o Hk Ho. eapply MapCommittedValue_ext; eauto.
Qed.

Section Emit.
Context {OS : OperatorSemantics}.

(** The committed graph grew by the nodes of a list of items. *)
Definition grew (s : Session) (e e' : Emission) (items : list Item) : Prop :=
  maps_ext e.2 e'.2 /\ outputs_ e'.1 = outputs_ e.1 /\ inputs_ e'.1 = inputs_ e.1 /\
  exists new vals, nodes_ e'.1 = nodes_ e.1 ++ new /\ Forall2 (realizes s e'.2) items new /\
    values_ e'.1 = values_ e.1 ++ vals /\ Forall2 stores (planned_outputs (length (nodes_ e.1)) items) vals /\
    concat (node_outputs <$> new) = seq (length (values_ e.1)) (length vals).

Lemma grew_refl s e : grew s e e [].
Proof. split_and!; [done..|]. exists [], []. split_and!; [by rewrite app_nil_r|constructor|by rewrite app_nil_r|constructor|done]. Qed.

Lemma planned_outputs_app k a b : planned_outputs k (a ++ b) = planned_outputs k a ++ planned_outputs (k + length a) b.
Proof.
  unfold planned_outputs. rewrite imap_app, concat_app. do 2 f_equal. apply imap_ext. intros i x _. simpl. by rewrite Nat.add_assoc.
Qed.

Lemma grew_trans s a b c i1 i2 : grew s a b i1 -> grew s b c i2 -> grew s a c (i1 ++ i2).
Proof.
  intros (M1 & O1 & I1 & n1 & w1 & N1 & F1 & V1 & P1 & S1) (M2 & O2 & I2 & n2 & w2 & N2 & F2 & V2 & P2 & S2).
  split_and!; [by etransitivity|congruence|congruence|]. exists (n1 ++ n2), (w1 ++ w2).
  split_and!; [by rewrite N2, N1, app_assoc| |by rewrite V2, V1, app_assoc| |].
  - apply Forall2_app; [|done]. eapply Forall2_impl; [exact F1|]. intros. by eapply realizes_ext.
  - rewrite planned_outputs_app. apply Forall2_app; [done|]. rewrite N1, length_app, <- (Forall2_length _ _ _ F1) in P2. exact P2.
  - rewrite fmap_app, concat_app, S1, S2, V1, !length_app, seq_app. done.
Qed.

Lemma stores_staged k outs : forall specs, length specs = length outs -> Forall2 stores (pair k <$> outs) (zip_with (stage_value k) outs specs).
Proof. induction outs as [|d outs IH]; intros [|sp specs] H; cbn in *; try lia; constructor; [done|]. apply IH. lia. Qed.

Lemma AddNode_grows g o layer ins outs p a name added g' :
  AddNode g o layer ins outs p a name = (Ret added, g') ->
  outputs_ g' = outputs_ g /\ inputs_ g' = inputs_ g /\ exists checks vals,
    nodes_ g' = nodes_ g ++ [mkNode o layer ins (added_outputs added) a p checks name] /\
    values_ g' = values_ g ++ vals /\ Forall2 stores (pair (length (nodes_ g)) <$> outs) vals /\
    added_outputs added = seq (length (values_ g)) (length vals).
Proof.
  unfold AddNode. destruct (prepare_node _ _ _ _ _ _ _ _) as [[[[i ids] vals] checks]| |] eqn:E; [|discriminate..].
  intros [= <- <-]. split; [done|]. split; [done|]. exists checks, vals. split; [done|]. split; [done|].
  apply prepare_node_ret in E as (-> & schema & inferred & HP). rewrite (pr_vals _ _ _ _ _ _ _ _ _ _ _ _ HP).
  pose proof (pr_inferred _ _ _ _ _ _ _ _ _ _ _ _ HP) as Hl. split.
  - by apply stores_staged.
  - simpl. rewrite (pr_ids _ _ _ _ _ _ _ _ _ _ _ _ HP), length_zip_with, Hl, Nat.min_id. done.
Qed.

(** One node. *)
Lemma grew_one s (e e' : Emission) it n vals : maps_ext e.2 e'.2 -> outputs_ e'.1 = outputs_ e.1 -> inputs_ e'.1 = inputs_ e.1 ->
  nodes_ e'.1 = nodes_ e.1 ++ [n] -> realizes s e'.2 it n -> values_ e'.1 = values_ e.1 ++ vals ->
  Forall2 stores (pair (length (nodes_ e.1)) <$> it_descs it) vals -> node_outputs n = seq (length (values_ e.1)) (length vals) -> grew s e e' [it].
Proof.
  intros H1 H2 H3 H4 H5 H6 H7 H8. split_and!; [done..|]. exists [n], vals. split_and!; [done| |done| |].
  - constructor; [done|constructor].
  - unfold planned_outputs. simpl. by rewrite Nat.add_0_r, app_nil_r.
  - simpl. by rewrite app_nil_r.
Qed.

Lemma emit_replacement_grows s e rn e' : sized s e.2 ->
  (forall out v, out ∈ rn_outputs rn -> replaces out = Some v -> CheckKnownValueId s v = Ret tt) ->
  emit_replacement s e rn = Ret e' -> grew s e e' [item_of_replacement s rn].
Proof.
  intros Hsz Hk H. unfold emit_replacement in H. res_inv. apply built_ret in Hm0.
  pose proof (AddNode_ids _ _ _ _ _ _ _ _ _ _ Hm0) as Hlen. rewrite length_fmap in Hlen.
  apply AddNode_grows in Hm0 as (Eo & Ei & checks & vals & En & Ev & Hst & Eids).
  destruct (res_foldl_establish maps_ext
    (fun x m => sized s m -> forall v, replaces x.1 = Some v ->
       CheckKnownValueId s v = Ret tt -> MapCommittedValue s v m = Ret x.2)
    (bind_output s) (zip (rn_outputs rn) (added_outputs a0.1))) with (s := e.2) (r := a1) as [Hx HQ]; [| |done|].
  - intros x m m' Hx Hle Hs0 v Hv Hkv. apply (MapCommittedValue_ext s m); [done|].
    apply Hx; [by eapply sized_ext_inv|done..].
  - intros m x m' _ Hb. destruct (bind_output_ext _ _ _ _ Hb) as [Hle Hv]. split; [done|].
    intros Hs0 v Hrv Hkv. apply Hv; [done..|by eapply sized_ext_inv].
  - eapply (grew_one s); [done..|exact En| |exact Ev|exact Hst|exact Eids]. split_and!; try done; simpl.
    + by eapply map_inputs_ext.
    + rewrite length_fmap. lia.
    + intros k v o Hkk Ho. rewrite list_lookup_fmap in Hkk.
      destruct (rn_outputs rn !! k) as [out|] eqn:Eout; [|discriminate]. injection Hkk as Hrep.
      apply (HQ (out, o)); [|by eapply sized_ext|done|].
      * apply list_elem_of_lookup. exists k. by rewrite lookup_zip_with, Eout, Ho.
      * apply (Hk out); [by apply list_elem_of_lookup_2 with k|done].
Qed.

Lemma EmitRewrite_grows s rns : forall e e', sized s e.2 ->
  (forall rn out v, rn ∈ rns -> out ∈ rn_outputs rn -> replaces out = Some v -> CheckKnownValueId s v = Ret tt) ->
  res_foldl (emit_replacement s) e rns = Ret e' -> grew s e e' (item_of_replacement s <$> rns).
Proof.
  induction rns as [|rn rns IH]; intros e e' Hsz Hk H; simpl in H.
  { injection H as <-. apply grew_refl. }
  destruct (emit_replacement s e rn) as [e1| |] eqn:E; [|discriminate..].
  pose proof (emit_replacement_grows s e rn e1 Hsz) as Hg.
  specialize (Hg ltac:(intros; eapply Hk; [left|done..]) E).
  eapply (grew_trans _ _ _ _ [_]); [exact Hg|]. apply IH; [|intros; eapply Hk; [by right|done..]|done].
  eapply sized_ext; [done|apply Hg].
Qed.

Lemma descs_of_ret g vs : forall k outs, res_mapi (fun _ v => x ← GetValue g v; Ret (MakeNodeOutputDesc x)) k vs = Ret outs -> outs = descs_of g vs.
Proof.
  induction vs as [|v vs IH]; intros k outs H; cbn [res_mapi] in H; [by injection H as <-|]. unfold descs_of in *. cbn.
  destruct (GetValue g v) as [x| |] eqn:Ex; [|discriminate..]. unfold GetValue in Ex.
  destruct (values_ g !! v) as [y|]; [|discriminate]. injection Ex as ->. res_inv. cbn. f_equal. by eapply IH.
Qed.

Lemma EmitOriginalNode_grows s e n e' node : session_ok s -> sized s e.2 ->
  nodes_ (graph_ s) !! n = Some node -> node_to_rewrite_ s !! n = Some None ->
  (forall v, v ∈ node_outputs node -> (v < value_count s)%nat) ->
  EmitOriginalNode s e n = Ret e' -> grew s e e' [item_of_node s node].
Proof.
  intros Hs Hsz Hn Hl Hrange. unfold EmitOriginalNode.
  assert (GetNodeView s n = Ret (mkView n (op_type node) (node_layer node) (resolved s <$> node_inputs node)
    (node_outputs node) (attrs node) (op_params node) (node_name node))) as ->.
  { unfold GetNodeView, CheckSourceNodeId, GetNode, mirror_of. rewrite Hn, Hl.
    apply lookup_lt_Some in Hn. rewrite (proj2 (Nat.leb_gt _ _) Hn). done. }
  cbn [mbind res_mbind res_bind view_inputs view_outputs view_op_type view_layer view_op_params view_attrs view_name].
  intros H. res_inv. apply built_ret in Hm1. pose proof (AddNode_ids _ _ _ _ _ _ _ _ _ _ Hm1) as Hlen.
  apply AddNode_grows in Hm1 as (Eo & Ei & checks & vals & En & Ev & Hst & Eids). pose proof (descs_of_ret _ _ _ _ Hm0) as Ed. apply res_mapi_ret in Hm0 as [Hlo _].
  destruct (res_foldl_establish maps_ext
    (fun (x : nat * nat) m => (x.1 < length (source_values m))%nat -> mjoin (source_values m !! x.1) = Some x.2)
    bind_original (zip (node_outputs node) (added_outputs a1.1))) with (s := e.2) (r := a2) as [Hx HQ]; [| |done|].
  - intros x m m' Hx ((L & Hle) & _) Hlt. rewrite <- L in Hlt. apply mjoin_link, Hle, mjoin_link. by apply Hx.
  - intros m x m' _ Hb. unfold bind_original in Hb. res_inv. apply bool_decide_eq_false in Hm0.
    apply dec_stable in Hm0. split; [split_and!; simpl; [by apply map_ext_insert|done..]|].
    simpl. intros Hlt. rewrite length_insert in Hlt. by rewrite list_lookup_insert_eq.
  - eapply (grew_one s); [done..|exact En| |exact Ev| |exact Eids]; [|simpl; by rewrite <- Ed]. split_and!; try done; simpl.
    + by eapply map_inputs_ext.
    + rewrite length_fmap. lia.
    + intros k v o Hk Ho. rewrite list_lookup_fmap in Hk.
      destruct (node_outputs node !! k) as [w|] eqn:Ew; [|discriminate]. injection Hk as ->.
      assert (v < value_count s)%nat as Hv by (apply Hrange; by apply list_elem_of_lookup_2 with k).
      unfold MapCommittedValue, MapResolvedValue. rewrite (proj2 (Nat.ltb_lt _ _) Hv).
      assert (mjoin (source_values a2 !! v) = Some o) as ->; [|done]. apply (HQ (v, o)).
      * apply list_elem_of_lookup. exists k. by rewrite lookup_zip_with, Ew, Ho.
      * simpl. destruct Hx as ((L & _) & _). rewrite <- L. destruct Hsz as (-> & _). done.
Qed.

(** Values the emission binds exist in the session. *)
Record bindable (s : Session) : Prop := {
  bi_rewrites rw rn out v : rw ∈ rewrites_ s -> active rw = true -> rn ∈ replacements rw ->
    out ∈ rn_outputs rn -> replaces out = Some v -> CheckKnownValueId s v = Ret tt;
  bi_nodes n node v : nodes_ (graph_ s) !! n = Some node -> v ∈ node_outputs node ->
    (v < value_count s)%nat }.

Lemma emit_nodes_grows s order : session_ok s -> bindable s -> forall st st', sized s st.2.2 ->
  res_foldl (emit_node s) st order = Ret st' -> grew s st.2 st'.2 (emission_plan s order st.1).
Proof.
  intros Hs Hb. induction order as [|n order IH]; intros st st' Hsz H; simpl in H.
  { injection H as <-. apply grew_refl. }
  destruct (emit_node s st n) as [st1| |] eqn:E; [|discriminate..]. simpl in H. cbn [emission_plan].
  unfold emit_node in E. destruct (mjoin (node_to_rewrite_ s !! n)) as [r|] eqn:El.
  - apply mjoin_link in El. destruct (lo_link s (so_links s Hs) n r El) as (rw & Hr & Ha & _).
    rewrite Hr in *. rewrite Ha in E. simpl in E. destruct (default false (st.1 !! r)).
    + injection E as <-. by apply IH.
    + res_inv. simpl in *.
      assert (grew s st.2 a (item_of_replacement s <$> replacements rw)) as Hg.
      { apply EmitRewrite_grows; [done| |done]. intros rn out v Hrn Hout Hv.
        eapply (bi_rewrites s Hb rw); eauto. by apply list_elem_of_lookup_2 with r. }
      eapply grew_trans; [exact Hg|]. apply (IH (<[r:=true]> st.1, a) st'); [|done].
      eapply sized_ext; [done|apply Hg].
  - res_inv. destruct (node_to_rewrite_ s !! n) as [[?|]|] eqn:El'; [discriminate| |].
    2: { exfalso. unfold EmitOriginalNode, GetNodeView, CheckSourceNodeId in Hm. apply lookup_ge_None_1 in El'.
         rewrite (lo_len s (so_links s Hs)) in El'. rewrite (proj2 (Nat.leb_le _ _) El') in Hm. discriminate. }
    pose proof (lookup_lt_Some _ _ _ El') as Hn. rewrite (lo_len s (so_links s Hs)) in Hn.
    destruct (lookup_lt_is_Some_2 _ _ Hn) as [node Enode]. rewrite Enode.
    assert (grew s st.2 a [item_of_node s node]) as Hg.
    { eapply EmitOriginalNode_grows; [done| |done..| |done]; [done|]. intros. by eapply (bi_nodes s Hb). }
    eapply (grew_trans _ _ _ _ [_]); [exact Hg|]. apply (IH (st.1, a) st'); [|done].
    eapply sized_ext; [done|apply Hg].
Qed.

(** *** Copied values *)

Lemma add_value_ret g p sp name id g' : built (add_value g p sp name) = Ret (id, g') ->
  id = length (values_ g) /\ g' = mkGraph (nodes_ g) (values_ g ++ [mkValue p sp None default_quant name]) (inputs_ g) (outputs_ g).
Proof.
  intros H. apply built_ret in H. unfold add_value, NextValueIndex in H. destruct (zlen (values_ g) <? UINT32_MAX); [|discriminate]. cbn in H. by injection H as <- <-.
Qed.

Lemma SetQuantization_last g vs x q r : values_ g = vs ++ [x] -> built (SetQuantization g (length vs) q) = Ret r ->
  r.2 = mkGraph (nodes_ g) (vs ++ [mkValue (payload x) (spec x) (producer x) q (value_name x)]) (inputs_ g) (outputs_ g).
Proof.
  intros Ev H. destruct r as [u g']. apply built_ret in H. unfold SetQuantization in H. rewrite Ev, list_lookup_middle in H by done.
  injection H as _ <-. cbn. f_equal. rewrite insert_app_r_alt by lia. by rewrite Nat.sub_diag.
Qed.

Lemma input_ids_app vs x : input_ids (vs ++ [x]) = input_ids vs ++ (if bool_decide (payload x = ModelInputValue) then [length vs] else []).
Proof.
  unfold input_ids. rewrite length_app, seq_app, zip_with_app by (by rewrite length_seq). rewrite filter_app, fmap_app. f_equal. cbn [length seq zip zip_with].
  rewrite filter_cons, filter_nil. case_bool_decide as E; [rewrite decide_True by done|rewrite decide_False by done]; done.
Qed.

(** The emission after the values of a prefix [pre] of the source were copied. *)
Record copied (s : Session) (pre : list GraphValue) (e : Emission) : Prop := {
  cp_nodes : nodes_ e.1 = [] /\ outputs_ e.1 = []; cp_values : values_ e.1 = externals pre; cp_inputs : inputs_ e.1 = input_ids (externals pre);
  cp_map v x : pre !! v = Some x -> producer x = None -> mjoin (source_values e.2 !! v) = Some (length (externals (take v pre)));
  cp_sized : sized s e.2 }.

Lemma externals_app a b : externals (a ++ b) = externals a ++ externals b.
Proof. apply filter_app. Qed.
Lemma externals_one x : externals [x] = if decide (producer x = None) then [x] else [].
Proof. unfold externals. rewrite filter_cons, filter_nil. done. Qed.

Lemma add_external_ret g c i x added : values_ g !! i = Some x -> producer x = None -> add_external g c i x = Ret added ->
  added.1 = length (values_ c) /\ added.2 = mkGraph (nodes_ c) (values_ c ++ [mkValue (payload x) (spec x) None default_quant (value_name x)])
    (inputs_ c ++ (if bool_decide (payload x = ModelInputValue) then [length (values_ c)] else [])) (outputs_ c).
Proof.
  intros Hx Hp H. destruct added as [id g']. unfold add_external in H. destruct (payload x) eqn:Ep; try discriminate;
    try (apply add_value_ret in H as [-> ->]; rewrite bool_decide_eq_false_2 by done; by rewrite app_nil_r).
  unfold FindInputName in H. destruct (bool_decide (i ∈ inputs_ g)); [|discriminate]. rewrite Hx in H. cbn in H. apply built_ret in H.
  unfold AddInput, NextValueIndex in H. destruct (zlen (values_ c) <? UINT32_MAX); [|discriminate]. cbn in H. injection H as <- <-. by rewrite bool_decide_eq_true_2.
Qed.

Lemma copy_source_step s pre x e e' : values_ (graph_ s) !! length pre = Some x -> copied s pre e ->
  copy_source (graph_ s) e (length pre, x) = Ret e' -> copied s (pre ++ [x]) e'.
Proof.
  intros Hx [Hn Hv Hi Hmap Hsz] H. unfold copy_source in H.
  assert (forall v y, (pre ++ [x]) !! v = Some y -> (v < length pre)%nat -> pre !! v = Some y /\ take v (pre ++ [x]) = take v pre) as Hpre.
  { intros v y Hy Hlt. rewrite lookup_app_l in Hy by done. split; [done|]. by rewrite take_app_le by lia. }
  assert (forall v y, (pre ++ [x]) !! v = Some y -> (v < length pre)%nat \/ (v = length pre /\ y = x)) as Hcase.
  { intros v y Hy. apply lookup_app_Some in Hy as [Hy|[Hge Hy]]; [left; by eapply lookup_lt_Some|right].
    apply list_lookup_singleton_Some in Hy as [E ->]. split; [lia|done]. }
  destruct (producer x) as [p|] eqn:Ep.
  - injection H as <-. constructor; try done; rewrite ?externals_app, ?externals_one, ?decide_False, ?app_nil_r by congruence; [done..|].
    intros v y Hy Hpy. destruct (Hcase v y Hy) as [Hlt|[-> ->]]; [|congruence]. destruct (Hpre v y Hy Hlt) as [Hy' ->]. by apply (Hmap v y).
  - res_inv. destruct (add_external_ret _ _ _ _ _ Hx Ep Hm) as [Ea Eg]. rewrite Ea in Hm0.
    apply (SetQuantization_last _ (values_ e.1) (mkValue (payload x) (spec x) None default_quant (value_name x))) in Hm0; [|by rewrite Eg].
    rewrite Eg in Hm0. cbn in Hm0. assert (mkValue (payload x) (spec x) None (quantization x) (value_name x) = x) as Ex by (destruct x; simpl in *; by subst).
    rewrite Ex in Hm0. rewrite Hm0. assert (externals (pre ++ [x]) = externals pre ++ [x]) as Eext by by rewrite externals_app, externals_one, decide_True.
    constructor; cbn [fst snd nodes_ values_ inputs_ outputs_ set_source source_values session_constants virtual_values]; try done.
    + by rewrite Hv, Eext.
    + by rewrite Hi, Hv, Eext, input_ids_app.
    + intros v y Hy Hpy. destruct (Hcase v y Hy) as [Hlt|[-> ->]].
      * rewrite list_lookup_insert_ne by lia. destruct (Hpre v y Hy Hlt) as [Hy' ->]. by apply (Hmap v y).
      * assert (length pre < length (source_values e.2))%nat as Hlt by (destruct Hsz as (-> & _); by apply lookup_lt_Some in Hx).
        rewrite list_lookup_insert_eq by done. cbn. rewrite Ea, Hv, take_app_le, take_ge by lia. done.
    + destruct Hsz as (A & B & C). split_and!; cbn; [by rewrite length_insert|done..].
Qed.

Lemma copy_sources_exact s l : forall pre e e', values_ (graph_ s) = pre ++ l -> copied s pre e ->
  res_foldl (copy_source (graph_ s)) e (zip (seq (length pre) (length l)) l) = Ret e' -> copied s (pre ++ l) e'.
Proof.
  induction l as [|x l IH]; intros pre e e' Ev Hc H; cbn [length seq zip zip_with res_foldl] in H.
  { injection H as <-. by rewrite app_nil_r. }
  destruct (copy_source (graph_ s) e (length pre, x)) as [e1| |] eqn:E; [|discriminate..]. cbn in H.
  assert (copied s (pre ++ [x]) e1) as H1 by (eapply copy_source_step; [by rewrite Ev, list_lookup_middle|done|done]).
  replace (S (length pre)) with (length (pre ++ [x])) in H by (rewrite length_app; cbn; lia).
  specialize (IH (pre ++ [x]) e1 e'). rewrite <- app_assoc in IH. apply (IH Ev H1 H).
Qed.

(** Which session constants are used. *)
Definition constant_used (s : Session) (i : nat) : Prop :=
  (exists o, o ∈ outputs_ (graph_ s) /\ resolved s o = (value_count s + i)%nat) \/ (HasLiveConsumers s (value_count s + i)).1 = Ret true.

Lemma referenced_by_outputs_exact s i c : session_value_metadata_ s !! i = Some (Some c) ->
  referenced_by_outputs s !! i = Some true <-> exists o, o ∈ outputs_ (graph_ s) /\ resolved s o = (value_count s + i)%nat.
Proof.
  intros Hi. pose proof (lookup_lt_Some _ _ _ Hi) as Hlt. unfold referenced_by_outputs.
  assert (forall l r, length r = length (session_value_metadata_ s) ->
    foldl (fun (r : list bool) v => let o := resolved s v in if IsSessionConstant s o then <[GetSessionValueIndex s o := true]> r else r) r l !! i = Some true <->
    r !! i = Some true \/ exists o, o ∈ l /\ resolved s o = (value_count s + i)%nat) as H.
  2: { rewrite H by apply length_replicate. split; [intros [Hr|?]; [by apply lookup_replicate in Hr as [? _]|done]|auto]. }
  induction l as [|v l IH]; intros r Hr; cbn [foldl].
  { split; [auto|]. intros [?|(o & Ho & _)]; [done|by apply not_elem_of_nil in Ho]. }
  assert ((if IsSessionConstant s (resolved s v) then <[GetSessionValueIndex s (resolved s v) := true]> r else r) !! i = Some true <->
    r !! i = Some true \/ resolved s v = (value_count s + i)%nat) as Hstep.
  { destruct (IsSessionConstant s (resolved s v)) eqn:Ec.
    - apply bool_decide_eq_true in Ec. unfold ClassifyValue in Ec. destruct (Nat.ltb_spec (resolved s v) (value_count s)); [done|].
      unfold GetSessionValueIndex. rewrite list_lookup_insert_Some. split; [intros [(E & _ & _)|[_ ?]]; [right; lia|auto]|].
      intros [?|E]; [|left; split_and!; [lia|done|lia]]. destruct (decide ((resolved s v - value_count s)%nat = i)); [left; split_and!; [done..|lia]|auto].
    - split; [auto|]. intros [?|E]; [done|]. exfalso. unfold IsSessionConstant, ClassifyValue, GetSessionValueIndex in Ec. rewrite E in Ec.
      rewrite (proj2 (Nat.ltb_ge _ _)) in Ec by lia. replace (value_count s + i - value_count s)%nat with i in Ec by lia. by rewrite Hi in Ec. }
  rewrite IH by (destruct (IsSessionConstant _ _); [by rewrite length_insert|done]). rewrite Hstep. setoid_rewrite elem_of_cons.
  split; [intros [[?|?]|(o & ? & ?)]; eauto|intros [?|(o & [->|?] & ?)]; eauto].
Qed.

Lemma referenced_by_consumers_exact s locals : forall r0 r, res_foldl (referenced_by_consumers s) r0 locals = Ret r ->
  length r = length r0 /\ forall i c, session_value_metadata_ s !! i = Some (Some c) -> (i < length r0)%nat ->
    r !! i = Some true <-> r0 !! i = Some true \/ (i ∈ locals /\ (HasLiveConsumers s (value_count s + i)).1 = Ret true).
Proof.
  induction locals as [|j locals IH]; intros r0 r H; cbn in H.
  { injection H as <-. split; [done|]. intros i c _ _. split; [auto|]. intros [?|[Hi _]]; [done|by apply not_elem_of_nil in Hi]. }
  destruct (referenced_by_consumers s r0 j) as [r1| |] eqn:E; [|discriminate..]. cbn in H. destruct (IH _ _ H) as [Hl Hex].
  assert (length r1 = length r0 /\ forall i c, session_value_metadata_ s !! i = Some (Some c) -> (i < length r0)%nat ->
    r1 !! i = Some true <-> r0 !! i = Some true \/ (i = j /\ (HasLiveConsumers s (value_count s + i)).1 = Ret true)) as [Hl1 H1].
  { unfold referenced_by_consumers in E. destruct (default false (r0 !! j)) eqn:Ej.
    { injection E as <-. split; [done|]. intros i c _ _. split; [auto|]. intros [?|[-> _]]; [done|]. destruct (r0 !! j) as [[]|]; done. }
    destruct (session_value_metadata_ s !! j) as [[cj|]|] eqn:Em.
    - destruct (HasLiveConsumers s (value_count s + j)).1 as [b| |] eqn:Eb; [|discriminate..]. cbn in E. injection E as <-.
      split; [by destruct b; rewrite ?length_insert|]. intros i c Hi Hlt. destruct (decide (i = j)) as [->|Hne].
      + destruct b; [rewrite list_lookup_insert_eq by done|]; rewrite Eb; split; auto. intros [?|[_ ?]]; [done|discriminate].
      + split; [|intros [?|[? _]]; [|done]]; destruct b; rewrite ?list_lookup_insert_ne by done; auto.
    - injection E as <-. split; [done|]. intros i c Hi _. split; [auto|]. intros [?|[-> _]]; [done|congruence].
    - injection E as <-. split; [done|]. intros i c Hi _. split; [auto|]. intros [?|[-> _]]; [done|congruence]. }
  split; [congruence|]. intros i c Hi Hlt. rewrite (Hex i c Hi) by congruence. rewrite (H1 i c Hi Hlt), elem_of_cons. tauto.
Qed.

(** The constants of the ids [ids] were copied after the values [vs]. *)
Record constants_copied (s : Session) (used : list bool) (vs : list GraphValue) (ids : list nat) (e e' : Emission) : Prop := {
  kc_values : values_ e'.1 = vs ++ (constant_value <$> kept_constants s used ids);
  kc_rest : nodes_ e'.1 = nodes_ e.1 /\ outputs_ e'.1 = outputs_ e.1 /\ inputs_ e'.1 = inputs_ e.1 /\ source_values e'.2 = source_values e.2;
  kc_map k i : ids !! k = Some i -> used !! i = Some true -> mjoin (session_constants e'.2 !! i) = Some (length vs + length (kept_constants s used (take k ids)))%nat;
  kc_sized : sized s e'.2 }.

Lemma copy_constants_exact s used l : forall vs pre e e0 e', NoDup (pre ++ l) -> (forall i, i ∈ l -> (i < length (session_value_metadata_ s))%nat) ->
  constants_copied s used vs pre e0 e -> res_foldl (copy_constant s used) e l = Ret e' -> constants_copied s used vs (pre ++ l) e0 e'.
Proof.
  induction l as [|i l IH]; intros vs pre e e0 e' Hnd Hlt Hc H; cbn in H; [injection H as <-; by rewrite app_nil_r|].
  destruct (copy_constant s used e i) as [e1| |] eqn:E; [|discriminate..]. cbn in H.
  rewrite (app_assoc pre [i] l : pre ++ i :: l = _) in *. apply (IH vs (pre ++ [i]) e1); [done|intros; apply Hlt; by right| |done].
  assert (i ∉ pre) as Hnin. { apply NoDup_app in Hnd as (Hnd & _ & _). apply NoDup_app in Hnd as (_ & Hnd & _). intros Hin. apply (Hnd i Hin). left. }
  destruct Hc as [Hv (Hn & Ho & Hin & Hsrc) Hmap Hsz]. unfold copy_constant in E.
  assert (forall k j, (pre ++ [i]) !! k = Some j -> (pre !! k = Some j /\ take k (pre ++ [i]) = take k pre) \/ (k = length pre /\ j = i /\ take k (pre ++ [i]) = pre)) as Hcase.
  { intros k j Hk. apply lookup_app_Some in Hk as [Hk|[Hge Hk]].
    - left. split; [done|]. apply lookup_lt_Some in Hk. by rewrite take_app_le by lia.
    - apply list_lookup_singleton_Some in Hk as [Hk ->]. right. assert (k = length pre) as -> by lia. split_and!; [done|done|]. by rewrite take_app_length. }
  assert (kept_constants s used (pre ++ [i]) = kept_constants s used pre ++ kept_constants s used [i]) as Hk by (unfold kept_constants; apply omap_app).
  destruct (default false (used !! i)) eqn:Eu.
  - res_inv. unfold constant_at in Hm. res_inv. apply vec_at_ret in Hm2. unfold GetSessionValueIndex in Hm2. replace (value_count s + i - value_count s)%nat with i in Hm2 by lia.
    destruct a2 as [c|]; [|discriminate]. injection Hm as ->. destruct a0 as [id g1]. apply add_value_ret in Hm0 as [-> ->]. cbn [fst snd] in Hm1.
    apply (SetQuantization_last _ (values_ e.1) (mkValue (ConstantValue (sc_binding a)) (sc_spec a) None default_quant (sc_name a))) in Hm1; [|done]. cbn in Hm1. rewrite Hm1.
    assert (kept_constants s used [i] = [a]) as Ek by (unfold kept_constants; cbn; by rewrite Eu, Hm2).
    assert (i < length (session_constants e.2))%nat as Hi by (destruct Hsz as (_ & -> & _); apply Hlt; left).
    constructor; cbn [fst snd nodes_ values_ inputs_ outputs_ set_constant source_values session_constants virtual_values]; try done.
    + by rewrite Hk, Ek, fmap_app, app_assoc, <- Hv.
    + intros k j Hkj Huj. destruct (Hcase k j Hkj) as [[Hp ->]|(-> & -> & ->)].
      * rewrite list_lookup_insert_ne; [by apply Hmap|]. intros <-. apply Hnin. by eapply list_elem_of_lookup_2.
      * rewrite list_lookup_insert_eq by done. cbn. by rewrite Hv, length_app, length_fmap.
    + destruct Hsz as (A & B & C). split_and!; cbn; [done|by rewrite length_insert|done].
  - injection E as <-. assert (kept_constants s used [i] = []) as Ek by (unfold kept_constants; cbn; by rewrite Eu).
    constructor; try done; [by rewrite Hk, Ek, app_nil_r|]. intros k j Hkj Huj. destruct (Hcase k j Hkj) as [[Hp ->]|(-> & -> & _)]; [by apply Hmap|]. by rewrite Huj in Eu.
Qed.

(** What the copy leaves: the producer-less values of the source as they are, then the used
    constants, with the maps that say where each went. *)
Record external_plan (s : Session) (used : list bool) (m : CommitValueMaps) : Prop := {
  xp_used i c : session_value_metadata_ s !! i = Some (Some c) -> used !! i = Some true <-> constant_used s i;
  xp_source v x : values_ (graph_ s) !! v = Some x -> producer x = None -> MapCommittedValue s v m = Ret (length (externals (take v (values_ (graph_ s)))));
  xp_constant i c : session_value_metadata_ s !! i = Some (Some c) -> constant_used s i ->
    MapCommittedValue s (value_count s + i) m = Ret (length (externals (values_ (graph_ s))) + length (kept_constants s used (seq 0 i)))%nat }.
Definition session_locals (s : Session) : list nat := seq 0 (length (session_value_metadata_ s)).

Lemma CopyExternalValues_exact s e : CopyExternalValues s (empty_emission s) = Ret e -> sized s e.2 /\ nodes_ e.1 = [] /\ outputs_ e.1 = [] /\
  inputs_ e.1 = input_ids (externals (values_ (graph_ s))) /\ exists used, external_plan s used e.2 /\
  values_ e.1 = externals (values_ (graph_ s)) ++ (constant_value <$> kept_constants s used (session_locals s)).
Proof.
  intros H. unfold CopyExternalValues in H. res_inv. rename a into e1, a0 into used. fold (session_locals s) in *.
  assert (copied s [] (empty_emission s)) as H0. { constructor; try done. split_and!; apply length_replicate. }
  apply (copy_sources_exact s _ []) in Hm as [[Hn Ho] Hv Hi Hmap Hsz]; [|done|done]. cbn [app] in *.
  destruct (referenced_by_consumers_exact s _ _ _ Hm0) as [Hlu Hu]. rewrite referenced_outputs_length in Hlu, Hu.
  apply (copy_constants_exact s used (session_locals s) (externals (values_ (graph_ s))) [] e1 e1 e) in H as [Kv (Kn & Ko & Ki & Ks) Km Kz].
  - assert (forall i c, session_value_metadata_ s !! i = Some (Some c) -> used !! i = Some true <-> constant_used s i) as HU.
    { intros i c Hc. pose proof (lookup_lt_Some _ _ _ Hc) as Hlt. rewrite (Hu i c Hc Hlt), (referenced_by_outputs_exact s i c Hc). unfold constant_used, session_locals.
      rewrite elem_of_seq. split; [intros [?|[_ ?]]; auto|intros [?|?]; [auto|right; split; [lia|done]]]. }
    split_and!; [done|congruence|congruence|congruence|]. exists used. split; [|done]. split; [done| |].
    + intros v x Hx Hp. unfold MapCommittedValue, MapResolvedValue.
      assert (v < value_count s)%nat as Hlt by exact (lookup_lt_Some _ _ _ Hx). rewrite (proj2 (Nat.ltb_lt _ _) Hlt), Ks, (Hmap v x Hx Hp). done.
    + intros i c Hc Hus. pose proof (lookup_lt_Some _ _ _ Hc) as Hlt. unfold MapCommittedValue, GetSessionValueIndex. rewrite (proj2 (Nat.ltb_ge _ _)) by lia.
      replace (value_count s + i - value_count s)%nat with i by lia. rewrite (proj2 (Nat.leb_gt _ _) Hlt). cbn.
      assert (IsSessionConstant s (value_count s + i) = true) as ->.
      { unfold IsSessionConstant, ClassifyValue, GetSessionValueIndex. rewrite (proj2 (Nat.ltb_ge _ _)) by lia. replace (value_count s + i - value_count s)%nat with i by lia. by rewrite Hc. }
      assert (session_locals s !! i = Some i) as Hl by (by apply lookup_seq). rewrite (Km i i Hl (proj2 (HU i c Hc) Hus)). cbn [app]. unfold session_locals. by rewrite take_seq, Nat.min_l by lia.
  - apply NoDup_seq.
  - intros i Hel%elem_of_seq. lia.
  - constructor; try done. by rewrite app_nil_r.
Qed.

Lemma MarkCommittedOutputs_spec s e g : MarkCommittedOutputs s e = Ret g ->
  nodes_ g = nodes_ e.1 /\ values_ g = values_ e.1 /\ inputs_ g = inputs_ e.1 /\ exists outs, outputs_ g = outputs_ e.1 ++ outs /\
    Forall2 (fun o r => MapCommittedValue s (resolved s o) e.2 = Ret r) (outputs_ (graph_ s)) outs.
Proof.
  unfold MarkCommittedOutputs. generalize (outputs_ (graph_ s)) as l. generalize e.1 as g0.
  intros g0 l. revert g0. induction l as [|o l IH]; intros g0 H; simpl in H.
  { injection H as <-. do 3 (split; [done|]). exists []. by rewrite app_nil_r. }
  destruct (MapCommittedValue s (resolved s o) e.2) as [r| |] eqn:E; [|discriminate..].
  simpl in H. destruct (IH _ H) as (N & V & I & outs & O & F). do 3 (split; [done|]). exists (r :: outs).
  split; [|by constructor]. simpl in O. by rewrite O, <- app_assoc.
Qed.

Lemma ValidateEdits_bindable s : graph_valid (graph_ s) -> ValidateEdits s = Ret tt -> bindable s.
Proof.
  intros HV. unfold ValidateEdits. intros H. res_inv. constructor.
  - intros rw rn out v Hrw Ha Hrn Hout Hv. rewrite res_iter_ret, Forall_forall in Hm0.
    specialize (Hm0 rw Hrw). unfold check_rewrite_ids in Hm0. rewrite Ha in Hm0. res_inv.
    rewrite res_iter_ret, Forall_forall in Hm3. specialize (Hm3 rn Hrn).
    unfold ValidateReplacementNode in Hm3. res_inv. rewrite res_iter_ret, Forall_forall in Hm3.
    specialize (Hm3 out Hout). cbv beta in Hm3. by rewrite Hv in Hm3.
  - intros n node v Hn Hv. destruct (valid_output _ n node v HV Hn Hv) as (x & Hx & _).
    by apply lookup_lt_Some in Hx.
Qed.
End Emit.

(** ** Properties *)

Section Properties.
Context {OS : OperatorSemantics}.

(** C7: The committed graph is the planned one, value by value and node by node. When
    [Commit] succeeds the result passes [Validate]. Its values are, in order: the values of
    the source without a producer (inputs, weights, constants, states), each exactly as it
    was; the session constants that an output or a live reader uses, with their payload,
    spec, quantization and name; and one value per output of each emitted node, with the
    planned payload, quantization, name and producer (and, by [Validate], the inferred
    spec). Its inputs are the copied inputs. Its nodes are exactly the untouched nodes in
    topological order with each active rewrite's replacements at the first node it covers
    (covered nodes and dropped rewrites leave no trace), their output ids consecutive. One
    value map, which sends every copied value and constant to its place, relates the
    session to the result: every node reads the images of its resolved inputs, every output
    it binds is the image of the value it takes over, and the graph outputs are, in order,
    the images of the resolved outputs of the source graph. *)
Theorem Commit_emits_plan g s g' : edited g s -> Validate g = Ret tt -> Commit s = Ret g' ->
  exists order m used produced, TopologicalOrder g = Ret order /\ Validate g' = Ret tt /\
    let items := emission_plan s order (replicate (length (rewrites_ s)) false) in
    let copies := externals (values_ g) ++ (constant_value <$> kept_constants s used (session_locals s)) in
    external_plan s used m /\
    values_ g' = copies ++ produced /\ Forall2 stores (planned_outputs 0 items) produced /\
    inputs_ g' = input_ids (externals (values_ g)) /\
    Forall2 (realizes s m) items (nodes_ g') /\
    concat (node_outputs <$> nodes_ g') = seq (length copies) (length produced) /\
    Forall2 (fun o r => MapCommittedValue s (resolved s o) m = Ret r) (outputs_ g) (outputs_ g').
Proof.
  intros Hed HV. destruct (session_invariant_of g s Hed) as [<- Hs]. apply Validate_ret in HV as [HV _].
  unfold Commit. intros H. res_inv.
  match goal with H : TopologicalOrder _ = Ret ?o |- _ => exists o end.
  apply CopyExternalValues_exact in Hm0 as (Hsz & Hn0 & Ho0 & Hi0 & used & Hx & Hv0).
  apply (emit_nodes_grows s _ Hs (ValidateEdits_bindable s HV Hm)) in Hm2 as (Hext & EO & EI & new & vals & EN & HF & EV & HS & Hids); [|done].
  apply MarkCommittedOutputs_spec in Hm3 as (EN' & EV' & EI' & outs & EO' & HF'). simpl in *.
  exists (a2.2.2), used, vals. rewrite Hn0 in EN, HS. cbn in EN, HS. split_and!; [done|done| | |done| | | |].
  - destruct Hx as [X1 X2 X3]. split; [done| |]; intros; eapply MapCommittedValue_ext; eauto.
  - by rewrite EV', EV, Hv0.
  - by rewrite EI', EI.
  - by rewrite EN', EN.
  - by rewrite EN', EN, Hids, Hv0.
  - by rewrite EO', EO, Ho0.
Qed.
End Properties.

(** ** Witness *)

Lemma Commit_emits_plan_witness : exists g', Commit redirected_session = Ret g' /\
  op_type <$> nodes_ g' = [OpType.kAdd] /\ node_inputs <$> nodes_ g' = [[0; 0]%nat] /\ Validate g' = Ret tt.
Proof.
  destruct (Commit redirected_session) as [g'| |] eqn:E; [|vm_compute in E; discriminate..].
  exists g'. split; [reflexivity|]. split; [vm_compute in E; injection E as <-; reflexivity|].
  split; [vm_compute in E; injection E as <-; reflexivity|].
  destruct (Commit_emits_plan sum_graph redirected_session g' redirected_edited) as (order & m & used & produced & _ & H & _);
    [vm_compute; reflexivity|exact E|exact H].
Defined.
