(* ===== verification/GraphPasses.v ===== *)
(** * GraphPasses: the pass pipeline, dead code elimination and SiLU-Mul fusion

    [graph_pass_manager.h/.cpp], [dead_code_elimination_pass.cpp] and
    [silu_mul_fusion_pass.cpp]: passes over a rewrite session, the pipeline with its
    checkpoints. *)
From S2P Require Import Prelude DataTypes ShapeSymbol ShapeConstraint OperatorSchema OperatorInference Graph Topology GraphInvariant RewriteSession RewriteResolve RewriteInvariant RewriteCommit.

(** ** Pass configuration *)

(* @src include/aethermind/graph/optimization/const_evaluator.h:27-33 ConstEvalPolicy *)
Record ConstEvalPolicy := mkPolicy { max_output_bytes : Z; max_compute_ops : Z }.

(* @src include/aethermind/graph/optimization/graph_pass_manager.h:33-47 PassContext *)
Record PassContext := mkPassContext {
  opt_level : Z; checkpoint_every : Z; enable_qkv_fusion : bool; enable_swiglu_fusion : bool;
  enable_dce : bool; enable_constant_folding : bool; enable_flash_attention_rewrite : bool;
  enable_fused_add_rms_norm : bool; const_eval_policy : ConstEvalPolicy }.

Definition default_context : PassContext :=
  mkPassContext 2 0 true true true true true true (mkPolicy 65536 65536).

(** A pass: its name and its effect on a session. *)
(* @src include/aethermind/graph/optimization/graph_pass_manager.h:54-74 GraphPass *)
Record GraphPass := mkPass { Name : string; RunPass : Session -> PassContext -> Res unit * Session }.

(** ** Dead code elimination *)

(* @src src/graph/optimization/dead_code_elimination_pass.cpp:10-16 IsDceRemovableOp *)
Definition IsDceRemovableOp (o : OpType.t) : bool :=
  match GetOperatorSchema o with
  | Ret schema => negb (has_side_effects (traits schema)) && negb (HasStatefulOutput schema)
  | _ => false
  end.

(* @src src/graph/optimization/dead_code_elimination_pass.cpp:18-40 AreAllOutputsDead *)
Fixpoint AreAllOutputsDead (s : Session) (outs : list nat) : Res bool :=
  match outs with
  | [] => Ret true
  | v :: outs' =>
      if negb (resolved s v =? v)%nat then AreAllOutputsDead s outs'
      else if IsGraphOutput s v then Ret false
      else
        has_consumers ← (HasLiveConsumers s v).1;
        if (has_consumers : bool) then Ret false else AreAllOutputsDead s outs'
  end.

Section Passes.
Context {OS : OperatorSemantics}.

(** The loop over the order, last node first; [changed] is the flag. *)
(* @src src/graph/optimization/dead_code_elimination_pass.cpp:46-57 RemoveDeadNodesOnce (loop) *)
Fixpoint sweep (nodes : list nat) (s : Session) (changed : bool) : Res bool * Session :=
  match nodes with
  | [] => (Ret changed, s)
  | n :: nodes' =>
      match (view ← GetNodeView s n; dead ← AreAllOutputsDead s (view_outputs view); Ret (view, dead)) with
      | Fail e => (Fail e, s)
      | Panic w => (Panic w, s)
      | Ret (view, dead) =>
          if negb (IsDceRemovableOp (view_op_type view)) || negb dead then sweep nodes' s changed
          else match RemoveNode s n with
               | (Ret _, s') => sweep nodes' s' true
               | (Fail e, s') => (Fail e, s')
               | (Panic w, s') => (Panic w, s')
               end
      end
  end.

(* @src src/graph/optimization/dead_code_elimination_pass.cpp:42-59 RemoveDeadNodesOnce *)
Definition RemoveDeadNodesOnce (s : Session) : Res bool * Session :=
  match GetTopologicalOrder s with
  | Ret order => sweep (rev order) s false
  | Fail e => (Fail e, s)
  | Panic w => (Panic w, s)
  end.

(** The [while (changed)] loop; [None] when [fuel] rounds are not enough. *)
(* @src src/graph/optimization/dead_code_elimination_pass.cpp:72-77 DeadCodeEliminationPass::Run (loop) *)
Fixpoint dce_rounds (fuel : nat) (s : Session) : option (Res unit * Session) :=
  match fuel with
  | O => None
  | S fuel' =>
      match RemoveDeadNodesOnce s with
      | (Ret true, s') => dce_rounds fuel' s'
      | (Ret false, s') => Some (Ret tt, s')
      | (Fail e, s') => Some (Fail e, s')
      | (Panic w, s') => Some (Panic w, s')
      end
  end.

(** One round more than there are nodes is enough. *)
(* @src src/graph/optimization/dead_code_elimination_pass.cpp:67-78 DeadCodeEliminationPass::Run *)
Definition RunDce (s : Session) (ctx : PassContext) : Res unit * Session :=
  if enable_dce ctx then
    default (Panic "diverges", s) (dce_rounds (S (length (nodes_ (graph_ s)))) s)
  else (Ret tt, s).

(* @src src/graph/optimization/dead_code_elimination_pass.cpp:63-78 DeadCodeEliminationPass *)
Definition DeadCodeEliminationPass : GraphPass := mkPass "DeadCodeEliminationPass" RunDce.

(** ** SiLU-Mul fusion *)

(* @src src/graph/optimization/silu_mul_fusion_pass.cpp:10-17 SiluMulPattern *)
Record SiluMulPattern := mkPattern {
  silu_node : nat; mul_node : nat; gate : nat; up : nat; mul_out : nat; pattern_layer : option nat }.

(** The operands of the multiplication: the one that is not the SiLU result. *)
(* @src src/graph/optimization/silu_mul_fusion_pass.cpp:67-82 FindSiluMulPattern (operands) *)
Definition other_operand (s : Session) (silu_out : nat) (ins : list nat) : option nat :=
  let target := resolved s silu_out in
  let up := match ins with
            | a :: b :: _ => if (resolved s a =? target)%nat then Some b
                             else if (resolved s b =? target)%nat then Some a else None
            | _ => None
            end in
  v ← up; if (resolved s v =? target)%nat then None else Some v.

(* @src src/graph/optimization/silu_mul_fusion_pass.cpp:19-92 FindSiluMulPattern *)
Definition FindSiluMulPattern (s : Session) (n : nat) : Res (option SiluMulPattern) :=
  if negb (IsNodeLive s n) then Ret None
  else
    silu ← GetNodeView s n;
    match view_op_type silu, view_inputs silu, view_outputs silu with
    | OpType.kSilu, [g], [silu_out] =>
        if negb (IsValueLive s silu_out) || IsGraphOutput s silu_out then Ret None
        else if negb (resolved s silu_out =? silu_out)%nat then Ret None
        else
          consumers ← (FindConsumers s silu_out).1;
          match (consumers : list nat) with
          | [m] =>
              if negb (IsNodeLive s m) then Ret None
              else
                mul ← GetNodeView s m;
                match view_op_type mul, view_outputs mul with
                | OpType.kElementwiseMul, [out] =>
                    if negb (length (view_inputs mul) =? 2)%nat ||
                       bool_decide (view_layer mul <> view_layer silu) then Ret None
                    else match other_operand s silu_out (view_inputs mul) with
                         | Some u => Ret (Some (mkPattern n m g u out (view_layer mul)))
                         | None => Ret None
                         end
                | _, _ => Ret None
                end
          | _ => Ret None
          end
    | _, _, _ => Ret None
    end.

(* @src src/graph/optimization/silu_mul_fusion_pass.cpp:94-118 TryFuseSilu *)
Definition TryFuseSilu (s : Session) (n : nat) : Res unit * Session :=
  match (p ← FindSiluMulPattern s n;
         match (p : option SiluMulPattern) with
         | None => Ret None
         | Some p => d ← GetValueOutputMetadata s (mul_out p); Ret (Some (p, d))
         end) with
  | Fail e => (Fail e, s)
  | Panic w => (Panic w, s)
  | Ret None => (Ret tt, s)
  | Ret (Some (p, d)) =>
      let b0 := new_builder s [silu_node p; mul_node p] in
      let '(r, b1) := EmitOne b0 OpType.kSiluMul [gate p; up p]
                        (mkOutputDesc (vd_payload d) (vd_quantization d) (vd_name d))
                        SiluMulParams (pattern_layer p) "silu_mul_fused" in
      match r with
      | Ret fused =>
          match Yield b1 fused (mul_out p) with
          | (Ret _, b2) => let '(r2, b3) := BuilderCommit b2 in (r2, builder_session b3)
          | (Fail e, b2) => (Fail e, builder_session b2)
          | (Panic w, b2) => (Panic w, builder_session b2)
          end
      | Fail e => (Fail e, builder_session b1)
      | Panic w => (Panic w, builder_session b1)
      end
  end.

Fixpoint fuse_all (nodes : list nat) (s : Session) : Res unit * Session :=
  match nodes with
  | [] => (Ret tt, s)
  | n :: nodes' => match TryFuseSilu s n with
                   | (Ret _, s') => fuse_all nodes' s'
                   | r => r
                   end
  end.

(* @src src/graph/optimization/silu_mul_fusion_pass.cpp:126-136 SiluMulFusionPass::Run *)
Definition RunSiluMulFusion (s : Session) (ctx : PassContext) : Res unit * Session :=
  if enable_swiglu_fusion ctx then fuse_all (FindLiveNodesByOpType s OpType.kSilu) s else (Ret tt, s).

(* @src src/graph/optimization/silu_mul_fusion_pass.cpp:122-136 SiluMulFusionPass *)
Definition SiluMulFusionPass : GraphPass := mkPass "SiluMulFusionPass" RunSiluMulFusion.

(** ** The pipeline *)

(* @src include/aethermind/graph/optimization/graph_pass_manager.h:122-123 GraphPassManager (state) *)
Record GraphPassManager := mkManager { passes_ : list GraphPass; ctx_ : PassContext }.

(** A null pass aborts. *)
(* @src src/graph/optimization/graph_pass_manager.cpp:17-23 GraphPassManager::Add *)
Definition Add (m : GraphPassManager) (p : option GraphPass) : Res GraphPassManager :=
  match p with
  | Some p => Ret (mkManager (passes_ m ++ [p]) (ctx_ m))
  | None => Panic ("GraphPassManager: pass #" +:+ num (length (passes_ m)) +:+ " cannot be null")
  end.

(* @src src/graph/optimization/graph_pass_manager.cpp:25-33 GraphPassManager::AddSequential *)
Definition AddSequential (m : GraphPassManager) (ps : list (option GraphPass)) : Res GraphPassManager :=
  res_foldl Add m ps.

(* @src src/graph/optimization/graph_pass_manager.cpp:35-38 GraphPassManager::SetCheckpointEvery *)
Definition SetCheckpointEvery (m : GraphPassManager) (n : Z) : GraphPassManager :=
  let c := ctx_ m in
  mkManager (passes_ m) (mkPassContext (opt_level c) n (enable_qkv_fusion c) (enable_swiglu_fusion c)
    (enable_dce c) (enable_constant_folding c) (enable_flash_attention_rewrite c)
    (enable_fused_add_rms_norm c) (const_eval_policy c)).

(** [AM_RETURN_IF_ERROR_WITH_MSG]: the code is kept, the message prefixed. *)
(* @src include/aethermind/base/status.h:433-447 AM_RETURN_IF_ERROR_WITH_MSG *)
Definition with_msg {A} (msg : string) (m : Res A) : Res A :=
  match m with
  | Fail e => Fail (mkStatus (code e) (msg +:+ ": " +:+ message e))
  | _ => m
  end.

Definition pass_label (p : GraphPass) (i : nat) : string :=
  "pass '" +:+ Name p +:+ "' [#" +:+ num i +:+ "]".

Definition at_checkpoint (ctx : PassContext) (i : nat) : bool :=
  negb (checkpoint_every ctx =? 0) && ((Z.of_nat i + 1) mod checkpoint_every ctx =? 0).

(** The pass loop from pass [i] on: the current session and, when the last pass was
    a checkpoint, the snapshot it committed. *)
(* @src src/graph/optimization/graph_pass_manager.cpp:65-90 GraphPassManager::Run (loop) *)
Fixpoint run_passes (ps : list GraphPass) (ctx : PassContext) (i : nat) (s : Session)
    (snapshot : option ModelGraph) : Res ModelGraph :=
  match ps with
  | [] => match snapshot with Some g => Ret g | None => Commit s end
  | p :: ps' =>
      let '(r, s') := RunPass p s ctx in
      _ ← with_msg (pass_label p i +:+ " failed") r;
      if at_checkpoint ctx i then
        g ← with_msg ("checkpoint after " +:+ pass_label p i +:+ " failed") (Commit s');
        run_passes ps' ctx (S i) (new_session g) (Some g)
      else run_passes ps' ctx (S i) s' None
  end.

(* @src src/graph/optimization/graph_pass_manager.cpp:40-91 GraphPassManager::Run *)
Definition RunPipeline (m : GraphPassManager) (g : ModelGraph) : Res ModelGraph :=
  _ ← Validate g;
  run_passes (passes_ m) (ctx_ m) 0 (new_session g) None.
End Passes.

(** ** Passes edit the session they are given *)

Section Editing.
Context {OS : OperatorSemantics}.

(** A pass reaches its result by public session calls. *)
Definition edits_session (p : GraphPass) : Prop :=
  forall s ctx, rtc session_step s (RunPass p s ctx).2.

Lemma edit_once s m : rtc session_step s (apply_one s m).2.
Proof. apply rtc_once, step_edit. Qed.

Lemma sweep_edits l : forall s changed, rtc session_step s (sweep l s changed).2.
Proof.
  induction l as [|n l IH]; intros s changed; [done|]. cbn [sweep].
  destruct (_ ≫= _) as [[view dead]| |]; [|done..]. destruct (_ || _); [apply IH|].
  pose proof (edit_once s (NodeRemoval n)) as He. simpl in He.
  destruct (RemoveNode s n) as [[[]|e|w] s1]; simpl in He; [|done..]. etransitivity; [exact He|apply IH].
Qed.

Lemma dce_rounds_edits fuel : forall s r, dce_rounds fuel s = Some r -> rtc session_step s r.2.
Proof.
  induction fuel as [|fuel IH]; intros s r H; [discriminate|]. cbn [dce_rounds] in H.
  assert (rtc session_step s (RemoveDeadNodesOnce s).2) as Hr.
  { unfold RemoveDeadNodesOnce. destruct (GetTopologicalOrder s); [apply sweep_edits|done..]. }
  destruct (RemoveDeadNodesOnce s) as [[[|]|e|w] s1]; simpl in Hr;
    [|by injection H as <-..]. etransitivity; [exact Hr|by apply IH].
Qed.

Lemma dce_edits_session : edits_session DeadCodeEliminationPass.
Proof.
  intros s ctx. simpl. unfold RunDce. destruct (enable_dce ctx); [|done].
  destruct (dce_rounds _ s) as [r|] eqn:E; [by eapply dce_rounds_edits|done].
Qed.

Lemma allocate_outputs_edits ds : forall s, rtc session_step s (allocate_outputs s ds).2.
Proof.
  induction ds as [|d ds IH]; intros s; [done|]. cbn [allocate_outputs].
  pose proof (rtc_once _ _ (step_virtual s)) as Hv.
  destruct (AllocateVirtualValue s) as [[id|e|w] s1]; simpl in Hv; [|done..].
  specialize (IH s1). destruct (allocate_outputs s1 ds) as [r s2]. simpl in *. by etransitivity.
Qed.

Lemma EmitOne_edits b o ins d p layer name :
  rtc session_step (builder_session b) (builder_session (EmitOne b o ins d p layer name).2).
Proof.
  unfold EmitOne, EmitMulti. pose proof (allocate_outputs_edits [d] (builder_session b)) as H.
  destruct (allocate_outputs _ _) as [[[ids outs]|e|w] s1]; done.
Qed.

Lemma Yield_session b i t : builder_session (Yield b i t).2 = builder_session b.
Proof.
  unfold Yield. destruct (_ ≫= _) as [[|]| |]; [|done..]. destruct (aliases_ b !! i); [done|].
  by destruct (rebind_nodes _ _ _).
Qed.

Lemma BuilderCommit_edits b : rtc session_step (builder_session b) (builder_session (BuilderCommit b).2).
Proof.
  unfold BuilderCommit. set (nodes := foldl _ _ _).
  pose proof (edit_once (builder_session b) (SubgraphReplacement (builder_old_nodes b) nodes)) as He.
  simpl in He. by destruct (ReplaceSubgraph _ _ _) as [[[]|e|w] s1].
Qed.

Lemma TryFuseSilu_edits s n : rtc session_step s (TryFuseSilu s n).2.
Proof.
  unfold TryFuseSilu. destruct (_ ≫= _) as [[[p d]|]| |]; [|done..]. simpl.
  set (b0 := new_builder s _). change s with (builder_session b0) at 1.
  destruct (EmitOne b0 _ _ _ _ _ _) as [[fused|e|w] b1] eqn:E1; simpl;
    (pose proof (EmitOne_edits b0 OpType.kSiluMul [gate p; up p]
       (mkOutputDesc (vd_payload d) (vd_quantization d) (vd_name d)) SiluMulParams (pattern_layer p)
       "silu_mul_fused") as H1; rewrite E1 in H1; simpl in H1); [|done..].
  destruct (Yield b1 fused (mul_out p)) as [[[]|e|w] b2] eqn:E2; simpl;
    (pose proof (Yield_session b1 fused (mul_out p)) as H2; rewrite E2 in H2; simpl in H2);
    [|by rewrite H2..].
  pose proof (BuilderCommit_edits b2) as H3. destruct (BuilderCommit b2) as [r3 b3]. simpl in *.
  etransitivity; [exact H1|]. by rewrite <- H2.
Qed.

Lemma fusion_edits_session : edits_session SiluMulFusionPass.
Proof.
  intros s ctx. simpl. unfold RunSiluMulFusion. destruct (enable_swiglu_fusion ctx); [|done].
  generalize (FindLiveNodesByOpType s OpType.kSilu) as l. intros l. revert s.
  induction l as [|n l IH]; intros s; [done|]. cbn [fuse_all].
  pose proof (TryFuseSilu_edits s n) as H. destruct (TryFuseSilu s n) as [[[]|e|w] s1]; simpl in H; [|done..].
  etransitivity; [exact H|apply IH].
Qed.

(** ** Properties *)

(** One materialized stage of the pipeline: a session over a valid graph was
    committed and the result is valid again. *)
Definition stage (g g' : ModelGraph) : Prop :=
  Validate g = Ret tt /\ Validate g' = Ret tt /\ exists s, edited g s /\ Commit s = Ret g'.

Lemma Commit_valid s g : Commit s = Ret g -> Validate g = Ret tt.
Proof. unfold Commit. intros H. by res_inv. Qed.

Lemma run_passes_stages ctx ps : Forall edits_session ps -> forall i g s snapshot g',
  Validate g = Ret tt -> edited g s -> (forall x, snapshot = Some x -> x = g) ->
  run_passes ps ctx i s snapshot = Ret g' -> rtc stage g g'.
Proof.
  induction 1 as [|p ps Hp _ IH]; intros i g s snapshot g' HV He Hsn H; cbn [run_passes] in H.
  - destruct snapshot as [x|].
    + injection H as <-. by rewrite (Hsn x eq_refl).
    + apply rtc_once. split_and!; [done|by eapply Commit_valid|by exists s].
  - pose proof (Hp s ctx) as Hr. destruct (RunPass p s ctx) as [r s1]. simpl in Hr.
    assert (edited g s1) as He1 by (unfold edited in *; by etransitivity). res_inv.
    destruct (at_checkpoint ctx i).
    + res_inv. unfold with_msg in Hm0. destruct (Commit s1) as [g1| |] eqn:Ec; [|discriminate..].
      injection Hm0 as <-. pose proof (Commit_valid s1 g1 Ec) as HV1.
      eapply rtc_l; [split_and!; [exact HV|exact HV1|by exists s1]|].
      eapply IH; [exact HV1|apply rtc_refl| |exact H]. by intros x [= <-].
    + eapply (IH _ g s1 None); [exact HV|exact He1|done|exact H].
Qed.

(** The pipeline only ever materializes valid graphs. For passes that work
    through the session interface - dead code elimination and SiLU-Mul fusion among
    them - a successful run means the source graph validated, and the result is
    reached from it through a chain of snapshots (one per checkpoint, then the
    final commit), each a valid graph committed from a session over the previous
    one. *)
Theorem RunPipeline_stages m g g' :
  edits_session DeadCodeEliminationPass /\ edits_session SiluMulFusionPass /\
  (Forall edits_session (passes_ m) -> RunPipeline m g = Ret g' ->
   Validate g = Ret tt /\ Validate g' = Ret tt /\ rtc stage g g').
Proof.
  split; [apply dce_edits_session|]. split; [apply fusion_edits_session|].
  intros Hps H. unfold RunPipeline in H. res_inv.
  assert (rtc stage g g') as Hst.
  { eapply run_passes_stages; [exact Hps|done|apply rtc_refl| |exact H]. done. }
  split_and!; [done| |done]. clear H. induction Hst as [|a b c (_ & Hb & _) _ IH]; [done|by apply IH].
Qed.

(** A found pattern is what the fused operator computes. *)
Lemma other_operand_some s silu_out ins u : other_operand s silu_out ins = Some u ->
  resolved s u <> resolved s silu_out /\
  exists a b rest, ins = a :: b :: rest /\
    (resolved s a = resolved s silu_out /\ u = b \/ resolved s b = resolved s silu_out /\ u = a).
Proof.
  unfold other_operand. destruct ins as [|a [|b rest]]; [discriminate..|].
  destruct (Nat.eqb_spec (resolved s a) (resolved s silu_out)) as [Ea|Ea]; simpl.
  - destruct (Nat.eqb_spec (resolved s b) (resolved s silu_out)); [discriminate|]. intros [= <-].
    split; [done|]. exists a, b, rest. auto.
  - destruct (Nat.eqb_spec (resolved s b) (resolved s silu_out)) as [Eb|]; [|discriminate]. simpl.
    destruct (Nat.eqb_spec (resolved s a) (resolved s silu_out)); [discriminate|]. intros [= <-].
    split; [done|]. exists a, b, rest. auto.
Qed.

(** The fusion pass only matches real SiLU-Mul pairs: in a reported pattern both
    nodes are live, the first is a SiLU of the gate, the second an elementwise
    product of the SiLU's result with the other operand (in either order, never
    with itself), both belong to the same layer, the SiLU's result is not a graph
    output and was not replaced, and among the live nodes only the product reads it. *)
Theorem FindSiluMulPattern_sound g s n p order : edited g s -> TopologicalOrder g = Ret order ->
  Validate g = Ret tt -> FindSiluMulPattern s n = Ret (Some p) ->
  exists silu mul silu_out,
    nodes_ g !! silu_node p = Some silu /\ nodes_ g !! mul_node p = Some mul /\
    IsNodeLive s (silu_node p) = true /\ IsNodeLive s (mul_node p) = true /\
    op_type silu = OpType.kSilu /\ op_type mul = OpType.kElementwiseMul /\
    node_layer silu = node_layer mul /\ pattern_layer p = node_layer mul /\
    node_outputs silu = [silu_out] /\ node_outputs mul = [mul_out p] /\
    (resolved s <$> live_inputs s (silu_node p)) = [gate p] /\
    ((resolved s <$> live_inputs s (mul_node p)) = [silu_out; up p] \/
     (resolved s <$> live_inputs s (mul_node p)) = [up p; silu_out]) /\
    up p <> silu_out /\ resolved s silu_out = silu_out /\ (silu_out ∉ outputs_ g) /\
    (forall m, reads s m silu_out <-> m = mul_node p).
Proof.
  intros He Ho HV H. destruct (session_invariant_of g s He) as [<- Hs].
  destruct (Validate_ret _ _ HV) as [HG _].
  unfold FindSiluMulPattern in H. destruct (IsNodeLive s n) eqn:Hl; [|discriminate]. simpl in H.
  destruct (view_live s Hs n Hl) as (silu & view & Hn & Hv & V1 & V2 & _ & _ & _ & V3 & V4 & _).
  rewrite Hv in H. cbn [mbind res_mbind res_bind] in H.
  destruct (view_op_type view) eqn:Eop; try discriminate.
  destruct (view_inputs view) as [|gt [|]] eqn:Ein; try discriminate.
  destruct (view_outputs view) as [|so [|]] eqn:Eout; try discriminate.
  destruct (negb (IsValueLive s so) || IsGraphOutput s so) eqn:Eg; [discriminate|].
  apply orb_false_iff in Eg as [_ Eg].
  destruct (Nat.eqb_spec (resolved s so) so) as [Er|]; [|discriminate]. cbn [negb] in H.
  assert (so < value_count s)%nat as Hso.
  { destruct (valid_output _ n silu so HG Hn) as (x & Hx & _); [rewrite <- V3; left|by apply lookup_lt_Some in Hx]. }
  assert (CheckNonVirtualValueId s so = Ret tt) as Hnv.
  { unfold CheckNonVirtualValueId, ClassifyValue. by rewrite (proj2 (Nat.ltb_lt _ _) Hso). }
  rewrite (FindConsumers_answer s so order Hs Ho Hnv), Er in H. cbn [mbind res_mbind res_bind] in H.
  destruct (filter (fun n => reads s n so) order) as [|m [|]] eqn:Ef; try discriminate.
  destruct (IsNodeLive s m) eqn:Hlm; [|discriminate]. cbn [negb] in H.
  destruct (view_live s Hs m Hlm) as (mul & mview & Hm & Hmv & W1 & W2 & _ & _ & _ & W3 & W4 & _).
  rewrite Hmv in H. cbn [mbind res_mbind res_bind] in H.
  destruct (view_op_type mview) eqn:Emop; try discriminate.
  destruct (view_outputs mview) as [|out [|]] eqn:Emout; try discriminate.
  destruct (Nat.eqb_spec (length (view_inputs mview)) 2) as [Elen|]; [|discriminate].
  cbn [negb orb] in H. case_bool_decide as Elay; [discriminate|].
  destruct (other_operand s so (view_inputs mview)) as [u|] eqn:Eu; [|discriminate]. injection H as <-.
  destruct (other_operand_some s so _ u Eu) as (Hne & a & b & rest & Ei & Hab). rewrite Er in Hne, Hab.
  rewrite Ei in Elen. destruct rest; [|discriminate].
  assert (forall x, x ∈ view_inputs mview -> resolved s x = x) as Hres.
  { rewrite W4. intros x Hx. apply list_elem_of_fmap in Hx as (w & -> & _). by apply resolved_idem, Hs. }
  rewrite Ei in Hres. pose proof (Hres a ltac:(left)) as Ha. pose proof (Hres b ltac:(right; left)) as Hb.
  exists silu, mul, so. simpl. split_and!; try done; try congruence.
  - rewrite <- W4, Ei. destruct Hab as [[E ->]|[E ->]]; [left|right]; congruence.
  - unfold IsGraphOutput in Eg. rewrite (proj2 (Nat.ltb_lt _ _) Hso) in Eg. simpl in Eg. by bsplit.
  - intros x. split.
    + intros Hx. assert (x ∈ filter (fun n => reads s n so) order) as Hin.
      { apply list_elem_of_filter. split; [done|]. apply (order_elem _ _ _ Ho). apply (live_range s Hs), Hx. }
      rewrite Ef in Hin. by apply list_elem_of_singleton in Hin.
    + intros ->. assert (m ∈ filter (fun n => reads s n so) order) as Hin by (rewrite Ef; left).
      by apply list_elem_of_filter in Hin as [? _].
Qed.
End Editing.

(** ** Fusion over a shared operand *)

Definition result (name : string) : NodeOutputDesc := mkOutputDesc PayloadNone default_quant name.

Definition constant_graph (names : list string) : ModelGraph :=
  foldl (fun g name => (AddConstant g demo_spec (mkConstantBinding None name) name).2) empty_graph names.

Definition add_silu (g : ModelGraph) (v : nat) (name : string) : ModelGraph :=
  (AddNode g OpType.kSilu None [v] [result name] SiluParams [] name).2.
Definition add_mul (g : ModelGraph) (a b : nat) (name : string) : ModelGraph :=
  (AddNode g OpType.kElementwiseMul None [a; b] [result name] ElementwiseMulParams [] name).2.

(** [p = silu x * silu y] and [q = silu y * z]: [silu y] is read twice. *)
Definition shared_silu_graph : ModelGraph :=
  MarkOutput (MarkOutput
    (add_mul (add_mul (add_silu (add_silu (constant_graph ["x"; "y"; "z"]) 0 "sx") 1 "sy") 3 4 "p") 4 2 "q")
    5) 6.

Definition default_pipeline : GraphPassManager :=
  mkManager [SiluMulFusionPass; DeadCodeEliminationPass] default_context.

(** The fusion pass breaks a valid model in which a SiLU result feeds two
    products, one of them already fused: consumers that are replacement nodes are
    not counted, so the second fusion removes the shared SiLU although the first
    fused node reads its result. The pass reports success and the pipeline then
    fails to commit, although the same graph compiles without the pass. *)
Theorem fusion_breaks_shared_silu :
  Validate shared_silu_graph = Ret tt /\
  (RunSiluMulFusion (new_session shared_silu_graph) default_context).1 = Ret tt /\
  RunPipeline default_pipeline shared_silu_graph =
    Fail (bad "GraphRewriteSession: rewrite 0 input value 4 is never produced during commit") /\
  is_ret (RunPipeline (mkManager [DeadCodeEliminationPass] default_context) shared_silu_graph) = true.
Proof. split_and!; vm_compute; reflexivity. Qed.

(** ** Witnesses *)

(** One pair to fuse. *)
Definition fusable_graph : ModelGraph :=
  MarkOutput (add_mul (add_silu (constant_graph ["x"; "z"]) 0 "sx") 2 1 "p") 3.

Lemma RunPipeline_stages_witness : exists g', RunPipeline default_pipeline fusable_graph = Ret g' /\
  length (nodes_ g') = 1%nat /\ Validate g' = Ret tt.
Proof.
  destruct (RunPipeline default_pipeline fusable_graph) as [g'| |] eqn:E; [|vm_compute in E; discriminate..].
  exists g'. split; [reflexivity|]. split.
  - vm_compute in E. injection E as <-. reflexivity.
  - destruct (RunPipeline_stages default_pipeline fusable_graph g') as (H1 & H2 & H3).
    apply (H3 ltac:(repeat constructor; [exact H2|exact H1]) E).
Defined.

Lemma FindSiluMulPattern_sound_witness : Validate fusable_graph = Ret tt /\
  forall m, reads (new_session fusable_graph) m 2 <-> m = 1%nat.
Proof.
  split; [vm_compute; reflexivity|].
  destruct (FindSiluMulPattern_sound fusable_graph (new_session fusable_graph) 0
    (mkPattern 0 1 0 1 3 None) [0; 1]%nat) as (silu & mul & so & H1 & _ & _ & _ & _ & _ & _ & _ & Ho & _ & _ & _ & _ & _ & _ & Hr).
  - apply rtc_refl.
  - vm_compute. reflexivity.
  - vm_compute. reflexivity.
  - vm_compute. reflexivity.
  - vm_compute in H1. injection H1 as <-. vm_compute in Ho. injection Ho as <-. exact Hr.
Defined.
