(* ===== verification/DeadCode.v ===== *)
(** * DeadCode: correctness of dead code elimination

    The removal step of [DeadCodeEliminationPass], the termination of its
    fixed-point loop, what it keeps and what it leaves behind, and the case in
    which it removes the value a graph output was redirected to. *)
From S2P Require Import Prelude DataTypes ShapeSymbol ShapeConstraint OperatorSchema OperatorInference Graph Topology GraphInvariant RewriteSession RewriteResolve RewriteInvariant RewriteCommit GraphPasses.

Section DeadCode.
Context {OS : OperatorSemantics}.

(** ** Removing one live node *)

Record removed (s : Session) (n : nat) (s' : Session) : Prop := {
  rm_graph : graph_ s' = graph_ s;
  rm_metadata : session_value_metadata_ s' = session_value_metadata_ s;
  rm_values : value_replacements_ s' = value_replacements_ s;
  rm_links m : node_to_rewrite_ s' !! m =
    (if decide (m = n) then Some (Some (length (rewrites_ s))) else node_to_rewrite_ s !! m);
  rm_new : rewrites_ s' !! length (rewrites_ s) = Some (mkRewrite [n] [] true false);
  rm_length : length (rewrites_ s') = S (length (rewrites_ s));
  rm_same r : (r < length (rewrites_ s))%nat -> node_to_rewrite_ s !! n <> Some (Some r) ->
    rewrites_ s' !! r = rewrites_ s !! r;
  rm_mirror r : node_to_rewrite_ s !! n = Some (Some r) ->
    exists rw, rewrites_ s !! r = Some rw /\ exposes_node_view rw = true /\ old_nodes rw = [n] /\
      rewrites_ s' !! r = Some (deactivated rw);
  rm_inputs : replacement_inputs s' = replacement_inputs s }.

Definition counted (rw : RewriteEntry) : Prop := active rw = true /\ exposes_node_view rw = false.

Lemma filter_insert_skip (l : list RewriteEntry) r x y : l !! r = Some y -> ~ counted x -> ~ counted y ->
  filter (fun rw => active rw = true /\ exposes_node_view rw = false) (<[r := x]> l) =
  filter (fun rw => active rw = true /\ exposes_node_view rw = false) l.
Proof.
  intros Hr Hx Hy. pose proof (lookup_lt_Some _ _ _ Hr) as Hlt.
  rewrite (insert_take_drop l r x Hlt). rewrite <- (take_drop_middle l r y Hr) at 3.
  rewrite !filter_app, !filter_cons. by rewrite !decide_False.
Qed.

Lemma RemoveNode_removes s n : session_ok s -> IsNodeLive s n = true ->
  exists s', RemoveNode s n = (Ret tt, s') /\ removed s n s' /\ session_ok s'.
Proof.
  intros Hs Hl. pose proof (live_range s Hs n Hl) as Hn.
  destruct (lookup_lt_is_Some_2 _ _ Hn) as [node Enode].
  assert (check_subgraph s [n] [] = Ret tt) as Hc.
  { unfold check_subgraph, ValidateReplacementTargets, replaceable_outputs, CheckSourceNodeId, GetNode.
    cbn [res_mapi]. rewrite (proj2 (Nat.leb_gt _ _) Hn), Enode. done. }
  eexists. unfold RemoveNode, CheckSourceNodeId. rewrite (proj2 (Nat.leb_gt _ _) Hn). simpl.
  unfold ReplaceSubgraph, guarded. rewrite Hc. split; [done|]. simpl.
  split.
  2: { pose proof (ReplaceSubgraph_ok s [n] [] Hs) as Hok. unfold ReplaceSubgraph, guarded in Hok.
       by rewrite Hc in Hok. }
  unfold deactivate_covering. apply live_cases in Hl as [El|(r & rw & rn & El & Hr & Ha & He & Ho & Erw)]; [| |done].
  - rewrite El. simpl. pose proof (lookup_lt_Some _ _ _ El) as Hlt. constructor; simpl; try done.
    + intros m. destruct (decide (m = n)) as [->|Hne].
      * by rewrite list_lookup_insert_eq.
      * by rewrite list_lookup_insert_ne.
    + by rewrite list_lookup_middle.
    + rewrite length_app. simpl. lia.
    + intros r Hr _. by rewrite lookup_app_l.
    + intros r Hr. congruence.
    + unfold replacement_inputs. simpl. rewrite filter_app, bind_app. simpl. by rewrite app_nil_r.
  - rewrite El. simpl. pose proof (lookup_lt_Some _ _ _ El) as Hlt.
    pose proof (lookup_lt_Some _ _ _ Hr) as Hltr.
    unfold DeactivateRewrite. rewrite Hr, Ha, Ho. simpl.
    rewrite bool_decide_true by (by rewrite El). constructor; simpl; try done.
    + intros m. rewrite length_insert. destruct (decide (m = n)) as [->|Hne].
      * by rewrite list_lookup_insert_eq by (by rewrite length_insert).
      * by rewrite !list_lookup_insert_ne.
    + by rewrite list_lookup_middle by (by rewrite length_insert).
    + rewrite length_app, length_insert. simpl. lia.
    + intros r' Hr' Hne. rewrite lookup_app_l by (by rewrite length_insert).
      rewrite list_lookup_insert_ne; [done|]. congruence.
    + intros r' Hr'. assert (r' = r) as -> by congruence. exists rw. split_and!; [done..|].
      rewrite lookup_app_l by (by rewrite length_insert). rewrite list_lookup_insert_eq by done.
      unfold deactivated. by rewrite Ho.
    + unfold replacement_inputs. simpl. rewrite filter_app, bind_app. simpl. rewrite app_nil_r.
      f_equal. apply (filter_insert_skip _ _ _ rw Hr); unfold counted; simpl; [by intros [? _]|].
      rewrite He. by intros [_ ?].
Qed.

Section Removed.
Context (s : Session) (n : nat) (s' : Session) (Hs : session_ok s) (Hs' : session_ok s').
Context (Hlive : IsNodeLive s n = true) (HR : removed s n s').

Lemma removed_resolved v : resolved s' v = resolved s v.
Proof. apply resolved_ext; [apply Hs'|apply Hs|apply (rm_values _ _ _ HR)]. Qed.

Lemma removed_not_live : IsNodeLive s' n = false.
Proof.
  unfold IsNodeLive, rewrite_at. rewrite (rm_links _ _ _ HR), decide_True by done.
  by rewrite (rm_new _ _ _ HR).
Qed.

(** The rewrite that covers another node is left alone. *)
Lemma removed_other m r : m <> n -> node_to_rewrite_ s !! m = Some (Some r) ->
  rewrites_ s' !! r = rewrites_ s !! r.
Proof.
  intros Hne Hm. destruct (lo_link s (so_links s Hs) m r Hm) as (rw & Hr & _ & Hin).
  apply (rm_same _ _ _ HR); [by apply lookup_lt_Some in Hr|]. intros Hn.
  destruct (rm_mirror _ _ _ HR r Hn) as (rw' & Hr' & _ & Ho & _).
  assert (rw' = rw) as -> by congruence. rewrite Ho in Hin. by apply list_elem_of_singleton in Hin.
Qed.

Lemma removed_live m : m <> n -> IsNodeLive s' m = IsNodeLive s m.
Proof.
  intros Hne. unfold IsNodeLive, rewrite_at. rewrite (rm_links _ _ _ HR), decide_False by done.
  destruct (node_to_rewrite_ s !! m) as [[r|]|] eqn:E; [|done..]. by rewrite (removed_other m r).
Qed.

Lemma removed_live_inputs m : m <> n -> live_inputs s' m = live_inputs s m.
Proof.
  intros Hne. unfold live_inputs, mirror_of. rewrite (rm_graph _ _ _ HR), (rm_links _ _ _ HR), decide_False by done.
  destruct (node_to_rewrite_ s !! m) as [[r|]|] eqn:E; [|done..]. unfold vec_at. simpl.
  by rewrite (removed_other m r).
Qed.

Lemma removed_reads m v : reads s' m v -> m <> n /\ reads s m v.
Proof.
  intros [Hl Hr]. assert (m <> n) as Hne by (intros ->; by rewrite removed_not_live in Hl).
  split; [done|]. split; [by rewrite <- removed_live|].
  rewrite <- (removed_live_inputs m Hne). apply list_elem_of_fmap in Hr as (w & -> & Hw).
  apply list_elem_of_fmap. exists w. split; [apply removed_resolved|done].
Qed.

Lemma removed_classify v : ClassifyValue s' v = ClassifyValue s v.
Proof.
  unfold ClassifyValue, GetSessionValueIndex, value_count.
  by rewrite (rm_graph _ _ _ HR), (rm_metadata _ _ _ HR).
Qed.

(** Values taken over by a rewrite stay taken over, unless they were mirrored. *)
Lemma removed_replaced v : IsValueReplacedByActiveRewrite s v = true ->
  IsValueReplacedByActiveRewrite s' v = true \/
  exists node, nodes_ (graph_ s) !! n = Some node /\ v ∈ node_outputs node.
Proof.
  unfold IsValueReplacedByActiveRewrite. intros H. apply existsb_exists in H as (rw & Hin & Hv).
  apply list_elem_of_In, list_elem_of_lookup in Hin as [r Hr].
  destruct (decide (node_to_rewrite_ s !! n = Some (Some r))) as [E|E].
  - right. destruct (rm_mirror _ _ _ HR r E) as (rw' & Hr' & He & _).
    assert (rw' = rw) as -> by congruence.
    destruct (so_mirrors s Hs r rw Hr He) as (n' & node & rn & M1 & M2 & M3 & _ & _ & _ & _ & _ & _ & M4).
    apply andb_true_iff in Hv as [Ha Hv].
    assert (n' = n) as ->.
    { assert (n' ∈ old_nodes rw) as Hn' by (rewrite M1; left).
      destruct (rm_mirror _ _ _ HR r E) as (rw' & Hr'' & _ & Ho & _).
      assert (rw' = rw) as -> by congruence. rewrite Ho in Hn'. by apply list_elem_of_singleton in Hn'. }
    exists node. split; [done|]. unfold rewrite_binds_value in Hv. rewrite M2 in Hv. simpl in Hv.
    rewrite orb_false_r in Hv. unfold binds in Hv. apply existsb_exists in Hv as (out & Hout & Hb).
    apply bool_decide_eq_true in Hb. apply list_elem_of_In in Hout.
    assert (Some v ∈ replaces <$> rn_outputs rn) as Hin by (apply list_elem_of_fmap; by exists out).
    rewrite M4 in Hin. apply list_elem_of_fmap in Hin as (w & [= <-] & Hw). done.
  - left. apply existsb_exists. exists rw. split; [|done]. apply list_elem_of_In.
    apply list_elem_of_lookup_2 with r. rewrite (rm_same _ _ _ HR); [done| |done].
    by apply lookup_lt_Some in Hr.
Qed.
End Removed.

(** ** The removal step *)

Inductive dce_step (s : Session) : Session -> Prop :=
| dce_remove n node s' : IsNodeLive s n = true -> nodes_ (graph_ s) !! n = Some node ->
    IsDceRemovableOp (op_type node) = true -> AreAllOutputsDead s (node_outputs node) = Ret true ->
    RemoveNode s n = (Ret tt, s') -> dce_step s s'.

(** Nothing is left to remove. *)
Definition dce_final (s : Session) : Prop := forall n node,
  IsNodeLive s n = true -> nodes_ (graph_ s) !! n = Some node -> IsDceRemovableOp (op_type node) = true ->
  AreAllOutputsDead s (node_outputs node) <> Ret true.

Definition live_nodes (s : Session) : list nat :=
  filter (fun n => IsNodeLive s n = true) (seq 0 (length (nodes_ (graph_ s)))).

Lemma live_nodes_bound s : (length (live_nodes s) <= length (nodes_ (graph_ s)))%nat.
Proof.
  pose proof (length_filter (fun n => IsNodeLive s n = true) (seq 0 (length (nodes_ (graph_ s))))) as H.
  by rewrite length_seq in H.
Qed.

Lemma step_removed s s' : session_ok s -> dce_step s s' ->
  exists n node, IsNodeLive s n = true /\ nodes_ (graph_ s) !! n = Some node /\
    IsDceRemovableOp (op_type node) = true /\ AreAllOutputsDead s (node_outputs node) = Ret true /\
    removed s n s' /\ session_ok s'.
Proof.
  intros Hs [n node s1 Hl Hn Hop Hdead Hrm].
  destruct (RemoveNode_removes s n Hs Hl) as (s2 & E & HR & Hok). rewrite Hrm in E. injection E as <-.
  by exists n, node.
Qed.

Lemma step_shrinks s s' : session_ok s -> dce_step s s' ->
  session_ok s' /\ graph_ s' = graph_ s /\ replacement_inputs s' = replacement_inputs s /\
  (forall m, IsNodeLive s' m = true -> IsNodeLive s m = true) /\
  (length (live_nodes s') < length (live_nodes s))%nat.
Proof.
  intros Hs Hst. destruct (step_removed s s' Hs Hst) as (n & node & Hl & Hn & _ & _ & HR & Hs').
  assert (forall m, IsNodeLive s' m = true -> m <> n /\ IsNodeLive s m = true) as Hsub.
  { intros m Hm. assert (m <> n) as Hne by (intros ->; by rewrite (removed_not_live s n s' HR) in Hm).
    split; [done|]. by rewrite <- (removed_live s n s' Hs HR). }
  split_and!; [done|apply HR|apply HR|by intros m Hm; apply Hsub|].
  unfold live_nodes. rewrite (rm_graph _ _ _ HR). pose proof (lookup_lt_Some _ _ _ Hn) as Hlt.
  set (l := seq 0 (length (nodes_ (graph_ s)))).
  assert (length (filter (fun n => IsNodeLive s' n = true) l) <
          length (n :: filter (fun n => IsNodeLive s' n = true) l))%nat as H1 by (simpl; lia).
  eapply Nat.lt_le_trans; [exact H1|]. apply submseteq_length, NoDup_submseteq.
  - apply NoDup_cons. split; [|apply NoDup_filter, NoDup_seq]. rewrite list_elem_of_filter.
    intros [Hn' _]. by apply Hsub in Hn' as [? _].
  - intros m [->|Hm]%elem_of_cons.
    + apply list_elem_of_filter. split; [done|]. apply elem_of_seq. lia.
    + apply list_elem_of_filter in Hm as [Hm1 Hm2]. apply list_elem_of_filter. split; [|done].
      by apply Hsub.
Qed.

Lemma steps_shrink s s' : session_ok s -> rtc dce_step s s' ->
  session_ok s' /\ graph_ s' = graph_ s /\ replacement_inputs s' = replacement_inputs s /\
  (forall m, IsNodeLive s' m = true -> IsNodeLive s m = true) /\
  (length (live_nodes s') <= length (live_nodes s))%nat.
Proof.
  intros Hs Hst. induction Hst as [s|s s1 s2 H1 _ IH]; [by split_and!|].
  destruct (step_shrinks s s1 Hs H1) as (A & B & C & D & E).
  destruct (IH A) as (A' & B' & C' & D' & E'). split_and!; [done|congruence..|auto|lia].
Qed.

(** ** One sweep *)

Section Sweep.
Context (s : Session) (Hs : session_ok s) (order : list nat) (Ho : TopologicalOrder (graph_ s) = Ret order).
Context (Hfew : zlen (replacement_inputs s) < 2 ^ 32).

Lemma source_non_virtual v : (v < value_count s)%nat -> CheckNonVirtualValueId s v = Ret tt.
Proof.
  intros Hv. unfold CheckNonVirtualValueId, ClassifyValue. by rewrite (proj2 (Nat.ltb_lt _ _) Hv).
Qed.

(** The test for dead outputs always has an answer, and it is right. *)
Lemma AreAllOutputsDead_spec outs : Forall (fun v => (v < value_count s)%nat) outs ->
  exists b, AreAllOutputsDead s outs = Ret b /\ (b = true -> forall v, v ∈ outs -> resolved s v = v ->
    (v ∉ outputs_ (graph_ s)) /\ (forall n, ~ reads s n v) /\
    forall w, w ∈ replacement_inputs s -> resolved s w <> v).
Proof.
  induction outs as [|v outs IH]; intros Hall.
  { exists true. split; [done|]. intros _ v Hv. by apply not_elem_of_nil in Hv. }
  inversion Hall as [|? ? Hv Hall']; subst. destruct (IH Hall') as (b & Eb & Hb). cbn [AreAllOutputsDead].
  destruct (Nat.eqb_spec (resolved s v) v) as [Er|Er]; cbn [negb].
  2: { exists b. split; [done|]. intros Ht w [->|Hw]%elem_of_cons; [by intros ?|by apply Hb]. }
  unfold IsGraphOutput at 1. rewrite (proj2 (Nat.ltb_lt _ _) Hv). cbn [andb].
  case_bool_decide as Hout; [exists false; split; [done|discriminate]|].
  destruct (HasLiveConsumers_iff s v order Hs Ho (source_non_virtual v Hv) Hfew) as (c & -> & Hc).
  cbn [mbind res_mbind res_bind]. destruct c.
  { exists false. split; [done|discriminate]. }
  exists b. split; [done|]. intros Ht w [->|Hw]%elem_of_cons; [|by apply Hb]. intros _.
  rewrite Er in Hc. split_and!; [done| |].
  - intros n Hr. enough (false = true) by done. apply Hc. left. exists n. split; [|done].
    apply (order_elem _ _ _ Ho). apply (live_range s Hs), Hr.
  - intros w' Hw' E. enough (false = true) by done. apply Hc. right. by exists w'.
Qed.
End Sweep.

Lemma sweep_spec g order : TopologicalOrder g = Ret order -> graph_valid g -> forall l s changed,
  session_ok s -> graph_ s = g -> zlen (replacement_inputs s) < 2 ^ 32 ->
  NoDup l -> Forall (fun n => IsNodeLive s n = true) l ->
  exists c s', sweep l s changed = (Ret c, s') /\ rtc dce_step s s' /\ (changed = true -> c = true) /\
    (c = true -> changed = true \/ tc dce_step s s') /\
    (c = false -> s' = s /\ forall n node, n ∈ l -> nodes_ g !! n = Some node ->
       IsDceRemovableOp (op_type node) = true -> AreAllOutputsDead s (node_outputs node) <> Ret true).
Proof.
  intros Ho HV. induction l as [|n l IH]; intros s changed Hs Eg Hfew Hnd Hl.
  { exists changed, s. split_and!; [done..|by left|]. intros _. split; [done|]. intros m node Hm.
    by apply not_elem_of_nil in Hm. }
  apply NoDup_cons in Hnd as [Hnin Hnd]. inversion Hl as [|? ? Hn Hl']; subst.
  destruct (view_live s Hs n Hn) as (node & view & Enode & Ev & Eop & _ & _ & _ & _ & Eout & _).
  destruct (AreAllOutputsDead_spec s Hs order Ho Hfew (node_outputs node)) as (b & Eb & _).
  { apply Forall_forall. intros v Hv. destruct (valid_output _ n node v HV Enode Hv) as (x & Hx & _).
    by apply lookup_lt_Some in Hx. }
  cbn [sweep]. rewrite Ev. cbn [mbind res_mbind res_bind]. rewrite Eout, Eb. cbn [mbind res_mbind res_bind].
  rewrite Eop. destruct (negb (IsDceRemovableOp (op_type node)) || negb b) eqn:Ek.
  - destruct (IH s changed Hs eq_refl Hfew Hnd Hl') as (c & s' & -> & H1 & H0 & H2 & H3).
    exists c, s'. split_and!; [done..|]. intros Hc. destruct (H3 Hc) as [-> H4]. split; [done|].
    intros m node' [->|Hm]%elem_of_cons Hnode' Hop; [|by eapply H4].
    assert (node' = node) as -> by congruence. rewrite Eb. intros [= ->]. by rewrite Hop in Ek.
  - apply orb_false_iff in Ek as [Hop%negb_false_iff ->%negb_false_iff].
    destruct (RemoveNode_removes s n Hs Hn) as (s1 & E1 & HR & Hs1). rewrite E1.
    assert (dce_step s s1) as Hstep by (by econstructor).
    destruct (IH s1 true Hs1) as (c & s' & -> & H1 & H0 & H2 & H3); [apply HR| |done| |].
    { by rewrite (rm_inputs _ _ _ HR). }
    { rewrite Forall_forall in Hl' |- *. intros m Hm.
      rewrite (removed_live s n s1 Hs HR); [by apply Hl'|]. congruence. }
    exists c, s'. split_and!; [done|by eapply rtc_l|by intros _; apply H0| |].
    + intros _. right. by eapply tc_rtc_r; [apply tc_once|].
    + intros ->. by specialize (H0 eq_refl).
Qed.

(** ** The loop *)

Lemma RemoveDeadNodesOnce_spec g s : Validate g = Ret tt -> session_ok s -> graph_ s = g ->
  zlen (replacement_inputs s) < 2 ^ 32 ->
  exists c s', RemoveDeadNodesOnce s = (Ret c, s') /\ rtc dce_step s s' /\
    (c = true -> tc dce_step s s') /\ (c = false -> s' = s /\ dce_final s).
Proof.
  intros HV Hs Eg Hfew. apply Validate_ret in HV as (HV & order & Ho).
  unfold RemoveDeadNodesOnce, GetTopologicalOrder. rewrite Eg, Ho. cbn [mbind res_mbind res_bind].
  set (l := filter (fun n => IsNodeLive s n = true) order).
  destruct (sweep_spec g order Ho HV (rev l) s false Hs Eg Hfew) as (c & s' & -> & H1 & _ & H2 & H3).
  - apply NoDup_ListNoDup, NoDup_rev, NoDup_ListNoDup.
    apply NoDup_filter, (order_nodup _ _ Ho).
  - apply Forall_rev, Forall_forall. intros n Hn. by apply list_elem_of_filter in Hn as [? _].
  - exists c, s'. split_and!; [done..| |].
    + intros Hc. by destruct (H2 Hc).
    + intros Hc. destruct (H3 Hc) as [-> H4]. split; [done|]. intros n node Hl Hn Hop.
      apply (H4 n node); [|by rewrite <- Eg|done]. apply list_elem_of_In, in_rev. rewrite rev_involutive.
      apply list_elem_of_In, list_elem_of_filter. split; [done|]. apply (order_elem _ _ _ Ho).
      rewrite <- Eg. by apply lookup_lt_Some in Hn.
Qed.

Lemma dce_rounds_spec g : Validate g = Ret tt -> forall fuel s,
  session_ok s -> graph_ s = g -> zlen (replacement_inputs s) < 2 ^ 32 ->
  (length (live_nodes s) < fuel)%nat ->
  exists s', dce_rounds fuel s = Some (Ret tt, s') /\ rtc dce_step s s' /\ dce_final s'.
Proof.
  intros HV. induction fuel as [|fuel IH]; intros s Hs Eg Hfew Hfuel; [lia|]. cbn [dce_rounds].
  destruct (RemoveDeadNodesOnce_spec g s HV Hs Eg Hfew) as ([|] & s1 & -> & H1 & H2 & H3).
  - specialize (H2 eq_refl).
    assert (exists s0, dce_step s s0 /\ rtc dce_step s0 s1) as (s0 & Hs0 & Hr0).
    { inversion H2; subst; [by eexists|]. eexists. split; [done|]. by apply tc_rtc. }
    destruct (step_shrinks s s0 Hs Hs0) as (A & B & C & _ & D).
    destruct (steps_shrink s0 s1 A Hr0) as (A' & B' & C' & _ & D').
    destruct (IH s1) as (s' & -> & H4 & H5); [done|congruence|by rewrite C', C|lia|].
    exists s'. split_and!; [done|by etransitivity|done].
  - destruct (H3 eq_refl) as [-> Hf]. by exists s.
Qed.

(** ** What is kept *)

(** Values the committed graph needs: read by a live node or by an active
    replacement, or the end of a graph output's chain. *)
Definition demanded (s : Session) (v : nat) : Prop :=
  (exists n, reads s n v) \/ (exists w, w ∈ replacement_inputs s /\ resolved s w = v) \/
  (exists o, o ∈ outputs_ (graph_ s) /\ resolved s o = v).

(** Every needed value is still produced. *)
Definition closed (s : Session) : Prop := forall v, demanded s v -> IsValueLive s v = true.

(** Redirected graph outputs end at a graph output or at a value without producer. *)
Definition outputs_direct (s : Session) : Prop := forall o x, o ∈ outputs_ (graph_ s) ->
  values_ (graph_ s) !! resolved s o = Some x -> resolved s o ∈ outputs_ (graph_ s) \/ producer x = None.

Section KeepsClosed.
Context (s : Session) (Hs : session_ok s) (HV : Validate (graph_ s) = Ret tt).
Context (Hfew : zlen (replacement_inputs s) < 2 ^ 32).
Context (n : nat) (node : GraphNode) (s' : Session) (Hs' : session_ok s').
Context (Hl : IsNodeLive s n = true) (Hn : nodes_ (graph_ s) !! n = Some node).
Context (Hdead : AreAllOutputsDead s (node_outputs node) = Ret true) (HR : removed s n s').

Lemma demanded_before v : demanded s' v -> demanded s v.
Proof.
  intros [[m Hm]|[(w & Hw & E)|(o & Ho & E)]].
  - left. exists m. by apply (removed_reads s n s' Hs Hs' HR).
  - right. left. exists w. rewrite <- (rm_inputs _ _ _ HR). split; [done|].
    by rewrite <- (removed_resolved s n s' Hs Hs' HR).
  - right. right. exists o. rewrite <- (rm_graph _ _ _ HR). split; [done|].
    by rewrite <- (removed_resolved s n s' Hs Hs' HR).
Qed.

Lemma demanded_terminal v : demanded s v -> resolved s v = v.
Proof.
  intros [[m [_ Hm]]|[(w & _ & <-)|(o & _ & <-)]]; [|by apply resolved_idem, Hs..].
  apply list_elem_of_fmap in Hm as (w & -> & _). by apply resolved_idem, Hs.
Qed.

(** Nothing needs the outputs of a removed node. *)
Lemma removed_outputs_unneeded v x : outputs_direct s -> demanded s v ->
  values_ (graph_ s) !! v = Some x -> v ∈ node_outputs node -> False.
Proof.
  intros Hdir Hd Hx Hv. pose proof (demanded_terminal v Hd) as Ht.
  destruct (Validate_ret _ _ HV) as (HG & order & Ho).
  destruct (valid_output _ n node v HG Hn Hv) as (x' & Hx' & Hp).
  destruct (AreAllOutputsDead_spec s Hs order Ho Hfew (node_outputs node)) as (b & Eb & Hb).
  { apply Forall_forall. intros w Hw. destruct (valid_output _ n node w HG Hn Hw) as (y & Hy & _).
    by apply lookup_lt_Some in Hy. }
  rewrite Hdead in Eb. injection Eb as <-. destruct (Hb eq_refl v Hv Ht) as (H1 & H2 & H3).
  destruct Hd as [[m Hm]|[(w & Hw & E)|(o & Hoo & E)]].
  - by apply (H2 m).
  - by apply (H3 w).
  - subst v. destruct (Hdir o x Hoo Hx) as [?|?]; [done|]. congruence.
Qed.

Lemma removal_keeps_closed : outputs_direct s -> closed s -> closed s'.
Proof.
  intros Hdir Hc v Hd. pose proof (demanded_before v Hd) as Hd0. pose proof (Hc v Hd0) as Hlive.
  unfold IsValueLive in *. unfold IsSessionConstant in *.
  rewrite (removed_classify s n s' HR), (rm_graph _ _ _ HR).
  destruct (bool_decide _); [done|]. destruct (values_ (graph_ s) !! v) as [x|] eqn:Hx; [|done].
  destruct (producer x) as [p|] eqn:Ep; [|done].
  destruct (Validate_ret _ _ HV) as (HG & _).
  destruct (valid_producer _ v x p HG Hx Ep) as (np & Hnp & Hv).
  destruct (decide (p = n)) as [->|Hne].
  { exfalso. assert (np = node) as -> by congruence. by eapply removed_outputs_unneeded. }
  rewrite (removed_live s n s' Hs HR p Hne). destruct (IsNodeLive s p); [done|].
  destruct (removed_replaced s n s' Hs HR v Hlive) as [?|(node' & Hn' & Hv')]; [done|].
  exfalso. assert (node' = node) as -> by congruence. by eapply removed_outputs_unneeded.
Qed.

Lemma removal_keeps_direct : outputs_direct s -> outputs_direct s'.
Proof.
  intros H o x. rewrite (rm_graph _ _ _ HR), (removed_resolved s n s' Hs Hs' HR). apply H.
Qed.
End KeepsClosed.

Lemma steps_keep_closed g s s' : Validate g = Ret tt -> session_ok s -> graph_ s = g ->
  zlen (replacement_inputs s) < 2 ^ 32 -> outputs_direct s -> closed s -> rtc dce_step s s' ->
  closed s' /\ forall n node, IsNodeLive s n = true -> IsNodeLive s' n = false ->
    nodes_ g !! n = Some node -> IsDceRemovableOp (op_type node) = true.
Proof.
  intros HV Hs Eg Hfew Hdir Hc Hst. induction Hst as [s|s s1 s2 H1 Hst IH].
  { split; [done|]. intros. congruence. }
  destruct (step_removed s s1 Hs H1) as (n & node & Hl & Hn & Hop & Hdead & HR & Hs1).
  assert (Validate (graph_ s) = Ret tt) as HV' by (by rewrite Eg).
  destruct IH as [Hc2 Hkeep].
  - done.
  - by rewrite (rm_graph _ _ _ HR).
  - by rewrite (rm_inputs _ _ _ HR).
  - by apply (removal_keeps_direct s Hs n s1 Hs1 HR).
  - by apply (removal_keeps_closed s Hs HV' Hfew n node s1 Hs1 Hn Hdead HR).
  - split; [done|]. intros m node' Hm Hm' Hnode'. destruct (IsNodeLive s1 m) eqn:E; [by eapply Hkeep|].
    destruct (decide (m = n)) as [->|Hne]; [congruence|]. by rewrite (removed_live s n s1 Hs HR) in E; [congruence|].
Qed.

(** ** Properties *)

(** C11: Dead code elimination terminates and is complete. On any reachable session
    over a validated graph the [while (changed)] loop stops within one round more
    than there are nodes, it never fails, and when it stops no removable node with
    only dead outputs is left. *)
Theorem dce_terminates g s ctx : edited g s -> Validate g = Ret tt ->
  zlen (replacement_inputs s) < 2 ^ 32 -> enable_dce ctx = true ->
  exists s', dce_rounds (S (length (nodes_ g))) s = Some (Ret tt, s') /\
    RunDce s ctx = (Ret tt, s') /\ dce_final s'.
Proof.
  intros He HV Hfew Hen. destruct (session_invariant_of g s He) as [Eg Hs].
  destruct (dce_rounds_spec g HV (S (length (nodes_ g))) s Hs Eg Hfew) as (s' & E & _ & Hf).
  { pose proof (live_nodes_bound s) as H. rewrite Eg in H. lia. }
  exists s'. split_and!; [done| |done]. unfold RunDce. by rewrite Hen, Eg, E.
Qed.

(** A session that was not edited meets both conditions. *)
Lemma new_session_resolved g v : resolved (new_session g) v = v.
Proof.
  apply resolved_unique; [apply new_session_resolve_ok|]. exists 0%nat. constructor. cbn.
  destruct (replicate _ _ !! v) as [r|] eqn:E; [|done]. by apply lookup_replicate in E as [-> _].
Qed.

Lemma new_session_live g v : graph_valid g -> is_Some (values_ g !! v) -> IsValueLive (new_session g) v = true.
Proof.
  intros HV [x Hx]. unfold IsValueLive. destruct (IsSessionConstant _ _); [done|]. cbn. rewrite Hx. destruct (producer x) as [p|] eqn:Ep; [|done].
  destruct (value_ok_producer _ _ _ _ (gv_values g HV v x Hx) Ep) as (_ & n & Hn & _).
  unfold IsNodeLive. cbn. by rewrite (proj2 (lookup_replicate _ _ _ _) (conj eq_refl (lookup_lt_Some _ _ _ Hn))).
Qed.

Lemma new_session_keeps g : Validate g = Ret tt -> outputs_direct (new_session g) /\ closed (new_session g).
Proof.
  intros HV. apply Validate_ret in HV as [HV _]. split.
  - intros o x Ho _. left. by rewrite new_session_resolved.
  - intros v Hd. apply new_session_live; [done|]. destruct Hd as [[n [Hl Hr]]|[(w & Hw & _)|(o & Ho & <-)]].
    + apply list_elem_of_fmap in Hr as (w & -> & Hw). rewrite new_session_resolved. unfold live_inputs, mirror_of in Hw. cbn in Hw.
      destruct (nodes_ g !! n) as [node|] eqn:En; [|by destruct (replicate _ _ !! n) as [[?|]|]; apply not_elem_of_nil in Hw].
      rewrite (proj2 (lookup_replicate _ _ _ _) (conj eq_refl (lookup_lt_Some _ _ _ En))) in Hw. by eapply valid_input.
    + by apply not_elem_of_nil in Hw.
    + rewrite new_session_resolved. destruct (gv_outputs g HV o Ho) as (x & Hx & _). by exists x.
Qed.

(** C10: Dead code elimination only removes dead code. Take a session over a validated
    graph that meets two conditions: every value a live node, an active replacement or a
    graph output reads is produced, and every graph output that was redirected ends at a
    graph output or at a value without a producer. An unedited session meets both
    ([new_session_keeps]); when an output was redirected elsewhere the pass can drop its
    producer ([dce_drops_redirected_output]). Under these conditions, after the pass every
    value read by a live node or by an active replacement, and every value a graph output
    ends at, is still produced; no node comes back to life; and only operators without
    side effects and without state outputs were removed. *)
Theorem dce_keeps_needed g s ctx : edited g s -> Validate g = Ret tt ->
  zlen (replacement_inputs s) < 2 ^ 32 -> outputs_direct s -> closed s ->
  closed (RunDce s ctx).2 /\
  (forall n, IsNodeLive (RunDce s ctx).2 n = true -> IsNodeLive s n = true) /\
  (forall n node, IsNodeLive s n = true -> IsNodeLive (RunDce s ctx).2 n = false ->
     nodes_ g !! n = Some node -> IsDceRemovableOp (op_type node) = true).
Proof.
  intros He HV Hfew Hdir Hc. destruct (session_invariant_of g s He) as [Eg Hs].
  assert (rtc dce_step s (RunDce s ctx).2) as Hst.
  { unfold RunDce. destruct (enable_dce ctx); [|done].
    destruct (dce_rounds_spec g HV (S (length (nodes_ g))) s Hs Eg Hfew) as (s' & E & Hst & _).
    { pose proof (live_nodes_bound s) as H. rewrite Eg in H. lia. }
    by rewrite Eg, E. }
  destruct (steps_keep_closed g s _ HV Hs Eg Hfew Hdir Hc Hst) as [H1 H2].
  split_and!; [done|apply (steps_shrink s _ Hs Hst)|done].
Qed.
End DeadCode.

(** ** Witnesses and the redirected-output case *)

(** Two copies of the same activation, the second one a graph output. *)
Definition twin_graph : ModelGraph := MarkOutput (add_silu (add_silu (constant_graph ["x"]) 0 "a") 0 "b") 2.

(** The output's producer was found redundant: its value is replaced by the twin. *)
Definition twin_session : Session := (ReplaceValue (new_session twin_graph) 2 1).2.

(** Dead code elimination removes a value the model still returns when a graph
    output was redirected to it: the output itself is replaced and no longer
    protects its producer, the value it resolves to is not itself marked as an
    output, so both producers are removed and the session, which commits before the
    pass, cannot be committed after it. *)
Theorem dce_drops_redirected_output :
  Validate twin_graph = Ret tt /\ edited twin_graph twin_session /\
  (exists g', Commit twin_session = Ret g') /\ (RunDce twin_session default_context).1 = Ret tt /\
  Commit (RunDce twin_session default_context).2 =
    Fail (bad "GraphRewriteSession: value 1 cannot be mapped during commit (producer removed or not yet emitted)").
Proof.
  split; [vm_compute; reflexivity|]. split.
  { eapply rtc_l; [apply (step_edit _ (ValueReplacement 2 1))|]. apply rtc_refl. }
  split; [|split; vm_compute; reflexivity].
  destruct (Commit twin_session) as [g'| |] eqn:E; [by exists g'|vm_compute in E; discriminate..].
Qed.

(** A dead branch next to a live one. *)
Definition branch_graph : ModelGraph := MarkOutput (add_silu (add_silu (constant_graph ["x"]) 0 "a") 0 "b") 1.

Lemma branch_few : zlen (replacement_inputs (new_session branch_graph)) < 2 ^ 32.
Proof. vm_compute. reflexivity. Qed.

Lemma dce_terminates_witness :
  exists s', RunDce (new_session branch_graph) default_context = (Ret tt, s') /\ dce_final s'.
Proof.
  destruct (dce_terminates branch_graph (new_session branch_graph) default_context) as (s' & _ & H1 & H2).
  - apply rtc_refl.
  - vm_compute. reflexivity.
  - apply branch_few.
  - reflexivity.
  - exists s'. split; [exact H1|exact H2].
Defined.

Lemma dce_keeps_needed_witness :
  IsNodeLive (RunDce (new_session branch_graph) default_context).2 1 = false /\
  closed (RunDce (new_session branch_graph) default_context).2.
Proof.
  split; [vm_compute; reflexivity|].
  apply (dce_keeps_needed branch_graph (new_session branch_graph) default_context).
  - apply rtc_refl.
  - vm_compute. reflexivity.
  - apply branch_few.
  - apply new_session_keeps. vm_compute. reflexivity.
  - apply new_session_keeps. vm_compute. reflexivity.
Defined.
