(* ===== verification/FloatFormat.v ===== *)
(** * FloatFormat: binary floating-point formats and their decimal text

    The pieces of the C++ floating-point environment the sources rely on, written out
    on bit patterns: decoding an IEEE-style pattern to an exact integer multiple of a
    power of two, rounding a positive ratio of integers to the nearest pattern (ties to
    even), the six-digit text that [operator<<] prints by default ([%.6g]) and the
    number [std::from_chars] reads back. *)
From Stdlib Require Import Ascii.
From S2P Require Import Prelude.

(** ** Formats *)

(** A format with [exp_bits] exponent bits and [mant_bits] stored fraction bits. *)
Record FloatFormat := mkFormat { exp_bits : Z; mant_bits : Z }.

Definition binary32 : FloatFormat := mkFormat 8 23.
Definition binary64 : FloatFormat := mkFormat 11 52.

Definition fbias (f : FloatFormat) : Z := 2 ^ (exp_bits f - 1) - 1.
Definition finf (f : FloatFormat) : Z := (2 ^ exp_bits f - 1) * 2 ^ mant_bits f.
Definition fsign (f : FloatFormat) : Z := 2 ^ (exp_bits f + mant_bits f).

(** A finite value is [(-1)^neg * m * 2^e]. *)
Inductive FloatClass := Finite (neg : bool) (m e : Z) | Infinite (neg : bool) | NaN (neg : bool).

Definition decode (f : FloatFormat) (x : Z) : FloatClass :=
  let neg := fsign f <=? x in
  let y := if neg then x - fsign f else x in
  if y =? finf f then Infinite neg
  else if finf f <? y then NaN neg
  else let biased := y / 2 ^ mant_bits f in
       let frac := y mod 2 ^ mant_bits f in
       if biased =? 0 then Finite neg frac (1 - fbias f - mant_bits f)
       else Finite neg (frac + 2 ^ mant_bits f) (biased - fbias f - mant_bits f).

(** Powers with a possibly negative exponent, split over a numerator and a
    denominator. *)
Definition ppow (b i : Z) : Z := b ^ Z.max i 0.

(** [n / d] rounded to the nearest integer, ties to even. *)
Definition round_div (n d : Z) : Z :=
  let q := n / d in let r := n mod d in
  if (d <? 2 * r) || ((2 * r =? d) && Z.odd q) then q + 1 else q.

(** The floor of the binary logarithm of [n / d]. *)
Definition flog2 (n d : Z) : Z :=
  let k := Z.log2 n - Z.log2 d in
  if n * ppow 2 (- k) <? d * ppow 2 k then k - 1 else k.

(** The pattern nearest to the positive ratio [n / d]; at or above [finf] the value
    is out of range. *)
Definition encode (f : FloatFormat) (n d : Z) : Z :=
  let e := Z.max (flog2 n d) (1 - fbias f) - mant_bits f in
  let q := round_div (n * ppow 2 (- e)) (d * ppow 2 e) in
  (e + mant_bits f + fbias f - 1) * 2 ^ mant_bits f + q.

(** ** Printing with six significant digits *)

(** The decimal exponent of the positive ratio [n / d]: the least [X] with
    [n / d < 10^(X+1)], searched over every exponent a double can have. *)
Fixpoint search_exp (fuel : nat) (X n d : Z) : Z :=
  match fuel with
  | O => X
  | S k => if n * ppow 10 (- (X + 1)) <? d * ppow 10 (X + 1) then X else search_exp k (X + 1) n d
  end.

Definition flog10 (n d : Z) : Z := search_exp 700 (-340) n d.

(** Six digits and the decimal exponent of the leading one. *)
Definition six_digits (n d : Z) : Z * Z :=
  let X := flog10 n d in
  let D := round_div (n * ppow 10 (- (X - 5))) (d * ppow 10 (X - 5)) in
  if D =? 10 ^ 6 then (10 ^ 5, X + 1) else (D, X).

Fixpoint string_take (n : nat) (s : string) : string :=
  match n, s with
  | S n', String c s' => String c (string_take n' s')
  | _, _ => EmptyString
  end.
Fixpoint string_drop (n : nat) (s : string) : string :=
  match n, s with
  | S n', String _ s' => string_drop n' s'
  | _, _ => s
  end.
Fixpoint strip_zeros (s : string) : string :=
  match s with
  | EmptyString => EmptyString
  | String c s' =>
      match strip_zeros s' with
      | EmptyString => if Ascii.eqb c "0"%char then EmptyString else String c EmptyString
      | t => String c t
      end
  end.
Fixpoint zeros (n : nat) : string := match n with O => EmptyString | S k => String "0"%char (zeros k) end.

Definition with_fraction (int frac : string) : string :=
  match strip_zeros frac with EmptyString => int | t => int +:+ "." +:+ t end.

Definition exponent_text (X : Z) : string :=
  (if X <? 0 then "-" else "+") +:+
  (let t := pretty (Z.to_N (Z.abs X)) in if Z.abs X <? 10 then "0" +:+ t else t).

Definition decimal_text (D X : Z) : string :=
  let ds := pretty (Z.to_N D) in
  if (X <? -4) || (6 <=? X) then
    with_fraction (string_take 1 ds) (string_drop 1 ds) +:+ "e" +:+ exponent_text X
  else if X <? 0 then with_fraction "0" (zeros (Z.to_nat (- X - 1)) +:+ ds)
  else with_fraction (string_take (Z.to_nat (X + 1)) ds) (string_drop (Z.to_nat (X + 1)) ds).

Definition minus (neg : bool) (s : string) : string := if neg then "-" +:+ s else s.

Definition print_float (f : FloatFormat) (x : Z) : string :=
  match decode f x with
  | NaN neg => minus neg "nan"
  | Infinite neg => minus neg "inf"
  | Finite neg m e =>
      minus neg (if m =? 0 then "0"
                 else let '(D, X) := six_digits (m * ppow 2 e) (ppow 2 (- e)) in decimal_text D X)
  end.

(** ** Reading *)

Definition digit_of (c : ascii) : option N :=
  let n := N_of_ascii c in
  if ((48 <=? n) && (n <=? 57))%N then Some (n - 48)%N else None.

(** A maximal run of digits: its length, its value on top of [acc], and the rest. *)
Fixpoint read_digits (s : string) (len : nat) (acc : N) : nat * N * string :=
  match s with
  | String c s' =>
      match digit_of c with
      | Some k => read_digits s' (S len) (10 * acc + k)%N
      | None => (len, acc, s)
      end
  | EmptyString => (len, acc, EmptyString)
  end.

(** [digits [. digits]] with at least one digit: the digits as one number, the number
    of fraction digits, and the rest. *)
Definition read_mantissa (s : string) : option (N * nat * string) :=
  let '(n1, v1, r1) := read_digits s 0 0%N in
  match r1 with
  | String "."%char r2 =>
      let '(n2, v2, r3) := read_digits r2 0 v1 in
      if ((n1 + n2) =? 0)%nat then None else Some (v2, n2, r3)
  | _ => if (n1 =? 0)%nat then None else Some (v1, 0%nat, r1)
  end.

(** The optional exponent part, which has to be the end of the text. *)
Definition read_exponent (s : string) : option Z :=
  let finish (neg : bool) (t : string) :=
    match read_digits t 0 0%N with
    | (S _, v, EmptyString) => Some (if neg then - Z.of_N v else Z.of_N v)
    | _ => None
    end in
  match s with
  | EmptyString => Some 0
  | String c t =>
      if Ascii.eqb c "e"%char || Ascii.eqb c "E"%char then
        match t with
        | String "-"%char t' => finish true t'
        | String "+"%char t' => finish false t'
        | _ => finish false t
        end
      else None
  end.

(** The nearest pattern of [v * 10^i]; a nonzero number that rounds to zero or past the
    largest finite value is [result_out_of_range]. *)
Definition from_decimal (f : FloatFormat) (v i : Z) : option Z :=
  if v =? 0 then Some 0
  else let x := encode f (v * ppow 10 i) (ppow 10 (- i)) in
       if (x =? 0) || (finf f <=? x) then None else Some x.

Definition lower (c : ascii) : ascii :=
  let n := N_of_ascii c in
  if ((65 <=? n) && (n <=? 90))%N then ascii_of_N (n + 32) else c.
Fixpoint lowercase (s : string) : string :=
  match s with EmptyString => EmptyString | String c s' => String (lower c) (lowercase s') end.

(** [nan], optionally with a parenthesized sequence of letters, digits and
    underscores. *)
Fixpoint nan_sequence (s : string) : bool :=
  match s with
  | String c EmptyString => Ascii.eqb c ")"%char
  | String c s' =>
      let n := N_of_ascii (lower c) in
      (bool_decide (is_Some (digit_of c)) || ((97 <=? n) && (n <=? 122))%N || Ascii.eqb c "_"%char) && nan_sequence s'
  | EmptyString => false
  end.
Definition is_nan (s : string) : bool :=
  match lowercase (string_take 3 s), string_drop 3 s with
  | t, EmptyString => bool_decide (t = "nan")
  | t, String c s' => bool_decide (t = "nan") && Ascii.eqb c "("%char && nan_sequence s'
  end.

(** [std::from_chars] on the whole text, the result required to end where the text
    does. *)
Definition read_unsigned (f : FloatFormat) (s : string) : option Z :=
  if bool_decide (lowercase s = "inf") || bool_decide (lowercase s = "infinity") then Some (finf f)
  else if is_nan s then Some (finf f + 2 ^ (mant_bits f - 1))
  else
    '(v, frac, rest) ← read_mantissa s;
    i ← read_exponent rest;
    from_decimal f (Z.of_N v) (i - Z.of_nat frac).

Definition read_float (f : FloatFormat) (s : string) : option Z :=
  match s with
  | String "-"%char s' => x ← read_unsigned f s'; Some (x + fsign f)
  | _ => read_unsigned f s
  end.

(** ** Digits *)

Fixpoint all_chars (f : ascii -> bool) (s : string) : bool :=
  match s with EmptyString => true | String c s' => f c && all_chars f s' end.
Definition all_digits : string -> bool := all_chars (fun c => bool_decide (is_Some (digit_of c))).

Lemma string_app_nil s : s +:+ "" = s.
Proof. induction s as [|c s IH]; [done|]. change (String c (s +:+ "") = String c s). by rewrite IH. Qed.
Lemma string_app_assoc a b c : (a +:+ b) +:+ c = a +:+ (b +:+ c).
Proof.
  induction a as [|x a IH]; [done|].
  change (String x ((a +:+ b) +:+ c) = String x (a +:+ (b +:+ c))). by rewrite IH.
Qed.

Lemma all_chars_app f s t : all_chars f (s +:+ t) = all_chars f s && all_chars f t.
Proof. induction s as [|c s IH]; simpl; [done|]. by rewrite IH, andb_assoc. Qed.

Lemma all_chars_impl (f g : ascii -> bool) s :
  (forall c, f c = true -> g c = true) -> all_chars f s = true -> all_chars g s = true.
Proof.
  intros H. induction s as [|c s IH]; simpl; [done|]. intros [Hc Hs]%andb_true_iff.
  by rewrite (H c Hc), (IH Hs).
Qed.

Definition is_digit (c : ascii) : bool := bool_decide (is_Some (digit_of c)).

Lemma pretty_char_digit n : (n < 10)%N -> digit_of (pretty_N_char n) = Some n.
Proof.
  intros H. destruct n as [|p]; [done|].
  do 4 (destruct p as [p|p|]; try done); lia.
Qed.

Lemma pretty_go_digits x : forall s, all_digits s = true -> all_digits (pretty_N_go x s) = true.
Proof.
  induction (N.lt_wf_0 x) as [x _ IH]; intros s Hs.
  destruct (decide (x = 0)%N) as [->|Hx]; [by rewrite pretty_N_go_0|].
  rewrite pretty_N_go_step by lia. apply IH; [apply N.div_lt; lia|].
  unfold all_digits. simpl. rewrite pretty_char_digit by (apply N.mod_lt; lia). simpl. done.
Qed.

Lemma pretty_N_digits (n : N) : all_digits (pretty n) = true.
Proof. unfold pretty, pretty_N. case_decide; [done|]. by apply pretty_go_digits. Qed.

(** Reading the digits of a number accumulates its value. *)
Lemma read_digits_go (x : N) : forall (s : string) (l : nat), exists l' : nat,
  (l <= l')%nat /\ (x <> 0%N -> (l < l')%nat) /\
  read_digits (pretty_N_go x s) l 0%N = read_digits s l' x.
Proof.
  induction (N.lt_wf_0 x) as [x _ IH]; intros s l.
  destruct (decide (x = 0)%N) as [->|Hx]; [exists l; by rewrite pretty_N_go_0|].
  rewrite pretty_N_go_step by lia.
  destruct (IH (x / 10)%N ltac:(apply N.div_lt; lia) (String (pretty_N_char (x mod 10)) s) l)
    as (l' & Hl & _ & E).
  exists (S l'). split; [lia|]. split; [lia|]. rewrite E. simpl.
  rewrite pretty_char_digit by (apply N.mod_lt; lia). f_equal. pose proof (N.div_mod x 10). lia.
Qed.

Lemma read_digits_pretty (n : N) : exists l, read_digits (pretty n) 0 0%N = (S l, n, "").
Proof.
  unfold pretty, pretty_N. case_decide as H; [subst; by exists 0%nat|].
  destruct (read_digits_go n "" 0) as (l & _ & Hl & E). rewrite E. simpl.
  destruct l; [lia|]. by exists l.
Qed.

Lemma all_digits_head c s : all_digits (String c s) = true -> is_digit c = true.
Proof. unfold all_digits. simpl. by intros [? _]%andb_true_iff. Qed.

Lemma pretty_N_cons (n : N) : exists c s, pretty n = String c s /\ is_digit c = true.
Proof.
  pose proof (pretty_N_digits n) as H. destruct (read_digits_pretty n) as [l E].
  destruct (pretty n) as [|c s]; [discriminate|]. exists c, s. split; [done|].
  by apply all_digits_head in H.
Qed.
