(* ===== verification/FloatText.v ===== *)
(** * FloatText: decimals of six digits survive the default stream output

    Why the parameters models are configured with come back unchanged although only six
    digits are written: a floating value that is nearest to a decimal of at most six
    significant digits prints as that decimal and reads back as the same value. *)
From Stdlib Require Import Ascii.
From S2P Require Import Prelude FloatFormat.

(** ** Powers split over numerator and denominator *)

Lemma ppow_pos b i : 0 < b -> 0 < ppow b i.
Proof. intros. apply Z.pow_pos_nonneg; lia. Qed.

Lemma ppow_shift b i j : 0 < b -> j <= i ->
  ppow b i * ppow b (- j) = ppow b j * ppow b (- i) * b ^ (i - j).
Proof.
  intros Hb H. unfold ppow. rewrite <- !Z.pow_add_r by lia. f_equal. lia.
Qed.

(** [p / q < b^i], exactly. *)
Definition below (b p q i : Z) : Prop := p * ppow b (- i) < q * ppow b i.

Lemma below_shift b p q i j : 0 < b -> j <= i -> below b p q i <-> p * ppow b (- j) < q * b ^ (i - j) * ppow b j.
Proof.
  intros Hb H. unfold below. pose proof (ppow_shift b i j Hb H) as E.
  pose proof (ppow_pos b i Hb). pose proof (ppow_pos b (- i) Hb).
  pose proof (ppow_pos b j Hb). pose proof (ppow_pos b (- j) Hb).
  rewrite (Z.mul_lt_mono_pos_r (ppow b (- j)) (p * ppow b (- i))) by done.
  rewrite (Z.mul_lt_mono_pos_r (ppow b (- i)) (p * ppow b (- j))) by done.
  replace (q * ppow b i * ppow b (- j)) with (q * (ppow b i * ppow b (- j))) by ring. rewrite E.
  split; intros; nia.
Qed.

Lemma below_mono b p q i j : 1 < b -> 0 < q -> j <= i -> below b p q j -> below b p q i.
Proof.
  intros Hb Hq H Hl. apply (below_shift b p q i j); [lia..|]. unfold below in Hl.
  pose proof (ppow_pos b j ltac:(lia)). assert (1 <= b ^ (i - j)) by (pose proof (Z.pow_pos_nonneg b (i - j)); lia).
  nia.
Qed.

Lemma below_scale b p q i k : 0 < k -> below b (p * k) (q * k) i <-> below b p q i.
Proof.
  intros Hk. unfold below.
  replace (p * k * ppow b (- i)) with (p * ppow b (- i) * k) by ring.
  replace (q * k * ppow b i) with (q * ppow b i * k) by ring.
  symmetry. by apply Z.mul_lt_mono_pos_r.
Qed.

(** ** Rounded division *)

Lemma round_div_bound n d : 0 < d -> 2 * Z.abs (n - round_div n d * d) <= d.
Proof.
  intros Hd. unfold round_div. pose proof (Z.div_mod n d). pose proof (Z.mod_pos_bound n d Hd).
  destruct (Z.ltb_spec d (2 * (n mod d))); simpl; [nia|].
  destruct (Z.eqb_spec (2 * (n mod d)) d); simpl; [destruct (Z.odd _); nia|nia].
Qed.

Lemma round_div_unique n d q : 0 < d -> 2 * Z.abs (n - q * d) < d -> round_div n d = q.
Proof. intros Hd H. pose proof (round_div_bound n d Hd). nia. Qed.

Lemma round_div_scale n d k : 0 < d -> 0 < k -> round_div (n * k) (d * k) = round_div n d.
Proof.
  intros Hd Hk. unfold round_div. rewrite Z.div_mul_cancel_r, Zmult_mod_distr_r by lia.
  replace (2 * (n mod d * k)) with (2 * (n mod d) * k) by ring.
  assert ((d * k <? 2 * (n mod d) * k) = (d <? 2 * (n mod d))) as ->.
  { apply eq_bool_prop_intro. rewrite !Is_true_true, !Z.ltb_lt. symmetry. by apply Z.mul_lt_mono_pos_r. }
  assert ((2 * (n mod d) * k =? d * k) = (2 * (n mod d) =? d)) as ->; [|done].
  apply eq_bool_prop_intro. rewrite !Is_true_true, !Z.eqb_eq. nia.
Qed.

(** ** Binary logarithm *)

Definition between (b n d k : Z) : Prop := ~ below b n d k /\ below b n d (k + 1).

Lemma between_unique b n d k k' : 1 < b -> 0 < d -> between b n d k -> between b n d k' -> k = k'.
Proof.
  intros Hb Hd [H1 H2] [H3 H4]. destruct (Z.lt_trichotomy k k') as [H|[?|H]]; [|done|].
  - exfalso. apply H3. by apply (below_mono b n d k' (k + 1)); [..|lia|].
  - exfalso. apply H1. by apply (below_mono b n d k (k' + 1)); [..|lia|].
Qed.

Lemma flog2_between n d : 0 < n -> 0 < d -> between 2 n d (flog2 n d).
Proof.
  intros Hn Hd. pose proof (Z.log2_spec n Hn) as [Hn1 Hn2]. pose proof (Z.log2_spec d Hd) as [Hd1 Hd2].
  pose proof (Z.log2_nonneg n). pose proof (Z.log2_nonneg d).
  unfold flog2. set (a := Z.log2 n) in *. set (b := Z.log2 d) in *.
  rewrite Z.pow_succ_r in Hn2, Hd2 by lia.
  assert (below 2 n d (a - b + 1)) as Hhi.
  { apply (below_shift 2 n d _ (- b)); [lia..|]. unfold ppow. rewrite Z.opp_involutive.
    rewrite (Z.max_l b 0), (Z.max_r (- b) 0) by lia. replace (a - b + 1 - - b) with (Z.succ a) by lia.
    rewrite Z.pow_succ_r by lia. nia. }
  assert (~ below 2 n d (a - b - 1)) as Hlo.
  { intros H'. apply (below_shift 2 n d (a - b - 1) (- b - 1)) in H'; [|lia..]. unfold ppow in H'.
    replace (- (- b - 1)) with (Z.succ b) in H' by lia.
    rewrite (Z.max_l (Z.succ b) 0), (Z.max_r (- b - 1) 0) in H' by lia.
    replace (a - b - 1 - (- b - 1)) with a in H' by lia. rewrite Z.pow_succ_r in H' by lia. nia. }
  destruct (Z.ltb_spec (n * ppow 2 (- (a - b))) (d * ppow 2 (a - b))) as [Hk|Hk]; split; try done.
  - by replace (a - b - 1 + 1) with (a - b) by lia.
  - unfold below. lia.
Qed.

Lemma flog2_scale n d k : 0 < n -> 0 < d -> 0 < k -> flog2 (n * k) (d * k) = flog2 n d.
Proof.
  intros Hn Hd Hk. apply (between_unique 2 n d); [lia..| |by apply flog2_between].
  pose proof (flog2_between (n * k) (d * k) ltac:(nia) ltac:(nia)) as [H1 H2].
  by split; [rewrite <- (below_scale 2 n d _ k)|apply (below_scale 2 n d _ k)].
Qed.

Lemma encode_scale f n d k : 0 < n -> 0 < d -> 0 < k -> encode f (n * k) (d * k) = encode f n d.
Proof.
  intros Hn Hd Hk. unfold encode. rewrite flog2_scale by done. f_equal. set (e := _ - mant_bits f).
  replace (n * k * ppow 2 (- e)) with (n * ppow 2 (- e) * k) by ring.
  replace (d * k * ppow 2 e) with (d * ppow 2 e * k) by ring.
  apply round_div_scale; [|done]. pose proof (ppow_pos 2 e). nia.
Qed.

(** Equal ratios encode alike. *)
Lemma encode_ratio f n d n' d' : 0 < n -> 0 < d -> 0 < n' -> 0 < d' -> n * d' = n' * d ->
  encode f n d = encode f n' d'.
Proof.
  intros Hn Hd Hn' Hd' E. rewrite <- (encode_scale f n d d'), <- (encode_scale f n' d' d) by done.
  by rewrite E, (Z.mul_comm d d').
Qed.

(** ** A normal value and its encoding *)

Section Normal.
Context (f : FloatFormat) (Hexp : 1 < exp_bits f) (Hmant : 23 <= mant_bits f).

Lemma fbias_pos : 0 < fbias f.
Proof. unfold fbias. pose proof (Z.pow_lt_mono_r 2 0 (exp_bits f - 1)). lia. Qed.

Lemma finf_below_sign : finf f < fsign f.
Proof.
  unfold finf, fsign. rewrite Z.pow_add_r by lia. pose proof (Z.pow_pos_nonneg 2 (mant_bits f)). nia.
Qed.

(** A positive ratio in the normal range: the integer significand [q] and exponent [e]
    that rounding picks. *)
Record rounds (n d q e : Z) : Prop := {
  rd_exp : 1 - fbias f <= e + mant_bits f;
  rd_lo : 2 ^ mant_bits f <= q; rd_hi : q <= 2 ^ (mant_bits f + 1);
  rd_near : 2 * Z.abs (n * ppow 2 (- e) - q * (d * ppow 2 e)) <= d * ppow 2 e;
  rd_ulp : 2 ^ mant_bits f * (d * ppow 2 e) <= n * ppow 2 (- e) }.

Lemma encode_rounds n d : 0 < n -> 0 < d -> 1 - fbias f <= flog2 n d ->
  exists q e, rounds n d q e /\ encode f n d = (e + mant_bits f + fbias f - 1) * 2 ^ mant_bits f + q.
Proof.
  intros Hn Hd Hk. unfold encode. rewrite Z.max_l by lia. set (e := flog2 n d - mant_bits f).
  exists (round_div (n * ppow 2 (- e)) (d * ppow 2 e)), e. split; [|done].
  destruct (flog2_between n d Hn Hd) as [H1 H2].
  rewrite (below_shift 2 n d _ e) in H1 by lia. rewrite (below_shift 2 n d _ e) in H2 by lia.
  replace (flog2 n d - e) with (mant_bits f) in H1 by lia.
  replace (flog2 n d + 1 - e) with (mant_bits f + 1) in H2 by lia.
  pose proof (ppow_pos 2 e). assert (0 < d * ppow 2 e) as Hp by nia.
  pose proof (round_div_bound (n * ppow 2 (- e)) _ Hp) as HB.
  pose proof (Z.pow_pos_nonneg 2 (mant_bits f)). rewrite Z.pow_add_r in H2 by lia.
  constructor; [lia| |rewrite Z.pow_add_r by lia| |]; nia.
Qed.

(** Decoding gives the significand and exponent back, up to one shift. *)
Lemma decode_rounds n d q e :
  rounds n d q e -> (e + mant_bits f + fbias f - 1) * 2 ^ mant_bits f + q < finf f ->
  exists m e', decode f ((e + mant_bits f + fbias f - 1) * 2 ^ mant_bits f + q) = Finite false m e' /\
    0 < m /\ (m = q /\ e' = e \/ q = 2 * m /\ e' = e + 1).
Proof.
  intros [He Hlo Hhi _ _] Hfin. set (x := _ + q) in *.
  pose proof finf_below_sign. pose proof (Z.pow_pos_nonneg 2 (mant_bits f)) as Hp.
  rewrite Z.pow_add_r in Hhi by lia. unfold decode.
  rewrite (proj2 (Z.leb_gt (fsign f) x)) by lia. rewrite (proj2 (Z.eqb_neq x (finf f))) by lia.
  rewrite (proj2 (Z.ltb_ge (finf f) x)) by lia.
  destruct (Z.lt_ge_cases q (2 ^ (mant_bits f) * 2)) as [Hq|Hq].
  - assert (x / 2 ^ mant_bits f = e + mant_bits f + fbias f) as ->.
    { symmetry. apply (Z.div_unique x _ _ (q - 2 ^ mant_bits f)); unfold x; nia. }
    assert (x mod 2 ^ mant_bits f = q - 2 ^ mant_bits f) as ->.
    { symmetry. apply (Z.mod_unique x _ (e + mant_bits f + fbias f)); unfold x; nia. }
    rewrite (proj2 (Z.eqb_neq _ 0)) by lia. eexists _, _. split; [done|]. split; [lia|]. left. lia.
  - assert (x / 2 ^ mant_bits f = e + mant_bits f + fbias f + 1) as ->.
    { symmetry. apply (Z.div_unique x _ _ 0); unfold x; nia. }
    assert (x mod 2 ^ mant_bits f = 0) as ->.
    { symmetry. apply (Z.mod_unique x _ (e + mant_bits f + fbias f + 1)); unfold x; nia. }
    rewrite (proj2 (Z.eqb_neq _ 0)) by lia. eexists _, _. split; [done|]. split; [lia|]. right. lia.
Qed.
End Normal.

(** ** Six digits *)

Lemma search_exp_spec fuel : forall X n d k, 0 < d -> between 10 n d k -> X <= k < X + Z.of_nat fuel ->
  search_exp fuel X n d = k.
Proof.
  induction fuel as [|fuel IH]; intros X n d k Hd Hk Hr; [lia|]. cbn [search_exp].
  destruct Hk as [Hlo Hhi]. destruct (Z.eq_dec X k) as [->|Hne].
  - unfold below in Hhi. by rewrite (proj2 (Z.ltb_lt _ _) Hhi).
  - assert (~ below 10 n d (X + 1)) as Hn.
    { intros H. apply Hlo. by apply (below_mono 10 n d k (X + 1)); [lia|done|lia|]. }
    unfold below in Hn. rewrite (proj2 (Z.ltb_ge _ _)) by lia. apply IH; [done|done|lia].
Qed.

Lemma flog10_spec n d k : 0 < d -> between 10 n d k -> -340 <= k < 360 -> flog10 n d = k.
Proof. intros. apply search_exp_spec; [done..|]. lia. Qed.

(** A ratio within half a unit of the sixth digit of a decimal has the digits of that
    decimal. *)
Lemma six_digits_near n d c j : 0 < n -> 0 < d -> 10 ^ 5 <= c < 10 ^ 6 -> -335 <= j <= 350 ->
  let a := n * ppow 10 (- j) in let b := d * ppow 10 j in
  2 ^ 24 * Z.abs (c * b - a) <= c * b -> six_digits n d = (c, j + 5).
Proof.
  intros Hn Hd Hc Hj a b Hw. pose proof (ppow_pos 10 j ltac:(lia)) as Hpj.
  pose proof (ppow_pos 10 (- j) ltac:(lia)) as Hpj'. assert (0 < b) by (unfold b; nia).
  assert (forall t, 0 <= t -> below 10 n d (j + t) <-> a < 10 ^ t * b) as HB.
  { intros t Ht. rewrite (below_shift 10 n d (j + t) j) by lia. replace (j + t - j) with t by lia.
    unfold a, b. by replace (10 ^ t * (d * ppow 10 j)) with (d * 10 ^ t * ppow 10 j) by ring. }
  assert (c * b < 10 ^ 6 * b) by nia. assert (10 ^ 5 * b <= c * b) by nia.
  unfold six_digits. destruct (Z.lt_ge_cases a (10 ^ 5 * b)) as [Hlow|Hhigh].
  - assert (c = 10 ^ 5) as -> by nia.
    rewrite (flog10_spec n d (j + 4)); [|done| |lia].
    2:{ split; [rewrite HB by lia; lia|]. replace (j + 4 + 1) with (j + 5) by lia. by apply HB. }
    pose proof (ppow_shift 10 j (j + 4 - 5) ltac:(lia) ltac:(lia)) as E.
    replace (j - (j + 4 - 5)) with 1 in E by lia. rewrite Z.pow_1_r in E.
    set (pu := ppow 10 (j + 4 - 5)) in *. set (pd := ppow 10 (- (j + 4 - 5))) in *.
    assert (0 < pu) by (apply ppow_pos; lia). assert (0 < pd) by (apply ppow_pos; lia).
    assert (round_div (n * pd) (d * pu) = 10 ^ 6) as ->.
    { apply round_div_unique; [nia|].
      enough (2 * Z.abs (n * pd - 10 ^ 6 * (d * pu)) * ppow 10 (- j) < d * pu * ppow 10 (- j)) by nia.
      assert (n * pd * ppow 10 (- j) = a * pd) as Ea by (unfold a; ring).
      assert (10 * (d * pu) * ppow 10 (- j) = b * pd) as Eb by (unfold b; nia).
      rewrite <- Z.mul_assoc, <- (Z.abs_eq (ppow 10 (- j))) at 1 by lia. rewrite <- Z.abs_mul. nia. }
    rewrite Z.eqb_refl. f_equal; lia.
  - rewrite (flog10_spec n d (j + 5)); [|done| |lia].
    2:{ split; [rewrite HB by lia; lia|]. replace (j + 5 + 1) with (j + 6) by lia. apply HB; [lia|]. nia. }
    replace (j + 5 - 5) with j by lia. fold a b.
    assert (round_div a b = c) as -> by (apply round_div_unique; [done|nia]).
    rewrite (proj2 (Z.eqb_neq c (10 ^ 6))) by lia. done.
Qed.

(** The digits of the value nearest to [c * 10^j] are those of [c]. *)
Lemma six_digits_encoded f c j m e' : 1 < exp_bits f -> 23 <= mant_bits f ->
  10 ^ 5 <= c < 10 ^ 6 -> -335 <= j <= 350 ->
  let n := c * ppow 10 j in let d := ppow 10 (- j) in
  1 - fbias f <= flog2 n d -> encode f n d < finf f -> decode f (encode f n d) = Finite false m e' ->
  0 < m /\ six_digits (m * ppow 2 e') (ppow 2 (- e')) = (c, j + 5).
Proof.
  intros Hx Hm Hc Hj n d Hk Hfin Hdec. pose proof (ppow_pos 10 j ltac:(lia)) as Hp.
  pose proof (ppow_pos 10 (- j) ltac:(lia)) as Hp'.
  destruct (encode_rounds f Hm n d ltac:(unfold n; nia) Hp' Hk) as (q & e & HR & E). rewrite E in Hfin, Hdec.
  destruct (decode_rounds f Hx Hm n d q e HR Hfin) as (m1 & e1 & E1 & Hm1 & Hcase).
  rewrite E1 in Hdec. injection Hdec as <- <-. split; [done|].
  destruct HR as [_ _ _ Hnear Hulp]. pose proof (ppow_pos 2 e ltac:(lia)) as Hu.
  pose proof (ppow_pos 2 (- e) ltac:(lia)) as Hv. unfold n, d in *.
  assert (2 ^ 23 <= 2 ^ mant_bits f) by (apply Z.pow_le_mono_r; lia).
  assert (2 ^ 24 * Z.abs (c * (ppow 2 (- e) * ppow 10 j) - q * ppow 2 e * ppow 10 (- j)) <=
          c * (ppow 2 (- e) * ppow 10 j)) as Hw.
  { set (w := ppow 10 (- j) * ppow 2 e) in *. assert (0 < w) by (unfold w; nia).
    replace (c * (ppow 2 (- e) * ppow 10 j)) with (c * ppow 10 j * ppow 2 (- e)) by ring.
    replace (q * ppow 2 e * ppow 10 (- j)) with (q * w) by (unfold w; ring). nia. }
  destruct Hcase as [[-> ->]|[-> ->]].
  - apply six_digits_near; [nia|done|done|done|exact Hw].
  - pose proof (ppow_shift 2 (e + 1) e ltac:(lia) ltac:(lia)) as Es. replace (e + 1 - e) with 1 in Es by lia.
    rewrite Z.pow_1_r in Es. pose proof (ppow_pos 2 (e + 1) ltac:(lia)) as Hu'.
    pose proof (ppow_pos 2 (- (e + 1)) ltac:(lia)) as Hv'.
    apply six_digits_near; [nia|done|done|done|].
    set (A := c * (ppow 2 (- e) * ppow 10 j)) in *. set (B := 2 * m1 * ppow 2 e * ppow 10 (- j)) in *.
    set (A' := c * (ppow 2 (- (e + 1)) * ppow 10 j)). set (B' := m1 * ppow 2 (e + 1) * ppow 10 (- j)).
    assert (A' * ppow 2 (- e) = A * ppow 2 (- (e + 1))) as EA by (unfold A, A'; ring).
    assert (B' * ppow 2 (- e) = B * ppow 2 (- (e + 1))) as EB.
    { unfold B, B'. transitivity (m1 * ppow 10 (- j) * (ppow 2 (e + 1) * ppow 2 (- e))); [ring|]. rewrite Es. ring. }
    assert (Z.abs (A' - B') * ppow 2 (- e) = Z.abs (A - B) * ppow 2 (- (e + 1))) as ED.
    { rewrite <- (Z.abs_eq (ppow 2 (- e))), <- (Z.abs_eq (ppow 2 (- (e + 1)))) at 1 by lia.
      rewrite <- !Z.abs_mul. f_equal. lia. }
    nia.
Qed.

(** ** Reading digits *)

(** The value of a run of digits on top of [acc]. *)
Fixpoint dval (acc : N) (s : string) : N :=
  match s with
  | EmptyString => acc
  | String c s' => dval (10 * acc + default 0%N (digit_of c))%N s'
  end.

Definition starts_plain (s : string) : Prop :=
  match s with EmptyString => True | String c _ => is_digit c = false /\ c <> "."%char end.

Lemma read_digits_run s r : forall l acc, all_digits s = true -> starts_plain r \/ (exists r', r = String "." r') ->
  read_digits (s +:+ r) l acc = ((l + String.length s)%nat, dval acc s, r).
Proof.
  induction s as [|c s IH]; intros l acc Hs Hr.
  - change ("" +:+ r) with r. simpl. rewrite Nat.add_0_r. destruct r as [|c r]; [done|]. simpl.
    assert (is_digit c = false) as Hc by (destruct Hr as [[? _]|[r' [= -> _]]]; done).
    unfold is_digit in Hc. apply bool_decide_eq_false in Hc. destruct (digit_of c); [|done].
    exfalso. apply Hc. by eexists.
  - change (String c s +:+ r) with (String c (s +:+ r)). unfold all_digits in Hs. simpl in Hs.
    apply andb_true_iff in Hs as [Hc Hs]. apply bool_decide_eq_true in Hc as [k Hk].
    cbn [read_digits dval String.length]. rewrite Hk. rewrite IH by done. simpl. f_equal. f_equal. lia.
Qed.

Lemma dval_app s t : forall acc, dval acc (s +:+ t) = dval (dval acc s) t.
Proof.
  induction s as [|c s IH]; intros acc; [done|]. change (String c s +:+ t) with (String c (s +:+ t)).
  simpl. apply IH.
Qed.

Lemma dval_zeros k acc : Z.of_N (dval acc (zeros k)) = Z.of_N acc * 10 ^ Z.of_nat k.
Proof.
  revert acc. induction k as [|k IH]; intros acc; [simpl; lia|]. cbn [zeros dval].
  rewrite IH, Nat2Z.inj_succ, Z.pow_succ_r by lia. change (default 0%N (digit_of "0")) with 0%N. lia.
Qed.

Lemma dval_pretty (n : N) : dval 0 (pretty n) = n.
Proof.
  destruct (read_digits_pretty n) as [l E].
  pose proof (read_digits_run (pretty n) "" 0 0%N (pretty_N_digits n) (or_introl I)) as E'.
  rewrite string_app_nil, E in E'. congruence.
Qed.

Lemma strip_zeros_split s : exists k, s = strip_zeros s +:+ zeros k.
Proof.
  induction s as [|c s [k IH]]; [by exists 0%nat|]. simpl. destruct (strip_zeros s) as [|d t] eqn:E.
  - destruct (Ascii.eqb_spec c "0"%char) as [->|Hc]; [exists (S k); by rewrite IH at 1|].
    exists k. by rewrite IH at 1.
  - exists k. by rewrite IH at 1.
Qed.

Lemma string_length_app s t : String.length (s +:+ t) = (String.length s + String.length t)%nat.
Proof. induction s as [|c s IH]; [done|]. change (S (String.length (s +:+ t)) = S (String.length s + String.length t)%nat). by rewrite IH. Qed.

Lemma zeros_length k : String.length (zeros k) = k.
Proof. induction k; simpl; congruence. Qed.

Lemma all_digits_app s t : all_digits (s +:+ t) = all_digits s && all_digits t.
Proof. apply all_chars_app. Qed.

(** A mantissa with its fraction, trailing zeros dropped. *)
Lemma read_mantissa_fraction int frac rest :
  all_digits int = true -> int <> "" -> all_digits frac = true -> starts_plain rest ->
  exists v k, read_mantissa (with_fraction int frac +:+ rest) = Some (v, (String.length frac - k)%nat, rest) /\
    (k <= String.length frac)%nat /\ Z.of_N (dval 0 (int +:+ frac)) = Z.of_N v * 10 ^ Z.of_nat k.
Proof.
  intros Hi Hne Hf Hr. destruct (strip_zeros_split frac) as [k Ek]. unfold with_fraction.
  assert (String.length int <> 0)%nat as Hl by (by destruct int).
  destruct (strip_zeros frac) as [|c t] eqn:Es.
  - change ("" +:+ zeros k) with (zeros k) in Ek. exists (dval 0 int), k. subst frac. rewrite zeros_length.
    unfold read_mantissa. rewrite read_digits_run by auto. simpl.
    rewrite dval_app, dval_zeros, Nat.sub_diag. split; [|done].
    destruct rest as [|c r]; [by rewrite (proj2 (Nat.eqb_neq _ 0) Hl)|]. destruct Hr as [Hd Hp].
    destruct c as [[] [] [] [] [] [] [] []]; try (by rewrite (proj2 (Nat.eqb_neq _ 0) Hl)). done.
  - set (u := String c t) in *.
    assert (all_digits u = true) as Hu.
    { rewrite Ek, all_digits_app in Hf. by apply andb_true_iff in Hf as [? _]. }
    assert (String.length frac = String.length u + k)%nat as El by (by rewrite Ek, string_length_app, zeros_length).
    exists (dval (dval 0 int) u), k. rewrite El. split; [|split; [lia|]].
    + replace (String.length u + k - k)%nat with (String.length u) by lia. rewrite !string_app_assoc.
      change ("." +:+ (u +:+ rest)) with (String "." (u +:+ rest)).
      unfold read_mantissa. rewrite read_digits_run by eauto. cbn iota beta. rewrite read_digits_run by auto.
      cbn iota beta. by rewrite (proj2 (Nat.eqb_neq _ 0)) by (unfold u; simpl; lia).
    + by rewrite dval_app, Ek, dval_app, dval_zeros.
Qed.

(** ** Reading what was printed *)

Lemma pretty_go_length k : forall x s, 10 ^ Z.of_nat k <= Z.of_N x < 10 ^ (Z.of_nat k + 1) ->
  String.length (pretty_N_go x s) = (S k + String.length s)%nat.
Proof.
  induction k as [|k IH]; intros x s H.
  - change (10 ^ Z.of_nat 0) with 1 in H. change (10 ^ (Z.of_nat 0 + 1)) with 10 in H.
    rewrite pretty_N_go_step by lia. rewrite N.div_small by lia. by rewrite pretty_N_go_0.
  - rewrite pretty_N_go_step by lia.
    rewrite Nat2Z.inj_succ in H. unfold Z.succ in H. rewrite !Z.pow_add_r in H by lia.
    change (10 ^ 1) with 10 in H. rewrite IH; [simpl; lia|].
    rewrite N2Z.inj_div, Z.pow_add_r by lia. change (Z.of_N 10) with 10. change (10 ^ 1) with 10.
    split; [apply Z.div_le_lower_bound; lia|apply Z.div_lt_upper_bound; lia].
Qed.

Lemma pretty_six_length D : 10 ^ 5 <= D < 10 ^ 6 -> String.length (pretty (Z.to_N D)) = 6%nat.
Proof.
  intros H. unfold pretty, pretty_N. rewrite decide_False by lia.
  apply (pretty_go_length 5 (Z.to_N D) ""). rewrite Z2N.id by lia. exact H.
Qed.

Lemma take_drop n s : string_take n s +:+ string_drop n s = s.
Proof.
  revert s. induction n as [|n IH]; intros [|c s]; try done.
  change (String c (string_take n s +:+ string_drop n s) = String c s). by rewrite IH.
Qed.

Lemma string_drop_length n s : String.length (string_drop n s) = (String.length s - n)%nat.
Proof. revert s. induction n as [|n IH]; intros [|c s]; try done. simpl. apply IH. Qed.

Lemma take_drop_digits n s : all_digits s = true ->
  all_digits (string_take n s) = true /\ all_digits (string_drop n s) = true.
Proof. intros H. rewrite <- (take_drop n s), all_digits_app in H. by apply andb_true_iff in H. Qed.

Lemma zeros_digits k : all_digits (zeros k) = true.
Proof. by induction k. Qed.

Lemma read_exponent_text X : read_exponent ("e" +:+ exponent_text X) = Some X.
Proof.
  unfold exponent_text. set (t := if Z.abs X <? 10 then _ else _).
  assert (exists l, read_digits t 0 0%N = (S l, Z.to_N (Z.abs X), "")) as [l E].
  { destruct (read_digits_pretty (Z.to_N (Z.abs X))) as [l E]. unfold t. case_match; [|eauto].
    pose proof (read_digits_run (pretty (Z.to_N (Z.abs X))) "" 1 0%N (pretty_N_digits _) (or_introl I)) as E'.
    rewrite string_app_nil, dval_pretty in E'. eexists.
    change ("0" +:+ pretty (Z.to_N (Z.abs X))) with (String "0" (pretty (Z.to_N (Z.abs X)))).
    cbn [read_digits]. change (digit_of "0") with (Some 0%N). cbn iota beta. exact E'. }
  destruct (Z.ltb_spec X 0).
  - change (read_exponent (String "e" (String "-" t)) = Some X). unfold read_exponent. simpl. rewrite E. f_equal. lia.
  - change (read_exponent (String "e" (String "+" t)) = Some X). unfold read_exponent. simpl. rewrite E. f_equal. lia.
Qed.

(** The three layouts of [decimal_text] share one shape. *)
Lemma decimal_text_shape D X : 10 ^ 5 <= D < 10 ^ 6 ->
  exists int frac rest i, decimal_text D X = with_fraction int frac +:+ rest /\
    all_digits int = true /\ int <> "" /\ all_digits frac = true /\ starts_plain rest /\
    read_exponent rest = Some i /\ dval 0 (int +:+ frac) = Z.to_N D /\ i - Z.of_nat (String.length frac) = X - 5.
Proof.
  intros HD. pose proof (pretty_six_length D HD) as Hl. pose proof (dval_pretty (Z.to_N D)) as Hv.
  pose proof (pretty_N_digits (Z.to_N D)) as Hd. unfold decimal_text. set (ds := pretty (Z.to_N D)) in *.
  assert (forall n, (0 < n)%nat -> string_take n ds <> "") as Hne.
  { intros [|n] Hn; [lia|]. by destruct ds. }
  destruct ((X <? -4) || (6 <=? X)) eqn:E1; [|destruct (Z.ltb_spec X 0)].
  - exists (string_take 1 ds), (string_drop 1 ds), ("e" +:+ exponent_text X), X.
    destruct (take_drop_digits 1 ds Hd) as [? ?]. rewrite take_drop, string_drop_length, Hl.
    split_and!; [done|done|apply Hne; lia|done|done|apply read_exponent_text|done|lia].
  - exists "0", (zeros (Z.to_nat (- X - 1)) +:+ ds), "", 0. apply orb_false_iff in E1 as [?%Z.ltb_ge _].
    rewrite string_app_nil, string_length_app, zeros_length, Hl, all_digits_app, zeros_digits, Hd.
    split_and!; [done|done|done|done|done|done| |lia]. change ("0" +:+ (zeros (Z.to_nat (- X - 1)) +:+ ds))
      with (zeros (S (Z.to_nat (- X - 1))) +:+ ds).
    rewrite dval_app. assert (dval 0 (zeros (S (Z.to_nat (- X - 1)))) = 0%N) as -> by
      (apply N2Z.inj; rewrite dval_zeros; lia). done.
  - exists (string_take (Z.to_nat (X + 1)) ds), (string_drop (Z.to_nat (X + 1)) ds), "", 0.
    apply orb_false_iff in E1 as [_ ?%Z.leb_gt]. destruct (take_drop_digits (Z.to_nat (X + 1)) ds Hd) as [? ?].
    rewrite string_app_nil, take_drop, string_drop_length, Hl. split_and!; [done|done|apply Hne; lia|done|done|done|done|lia].
Qed.

Lemma digit_head_not_word c s : is_digit c = true ->
  (bool_decide (lowercase (String c s) = "inf") || bool_decide (lowercase (String c s) = "infinity")) = false /\
  is_nan (String c s) = false.
Proof.
  intros Hc. unfold is_nan. split.
  - apply orb_false_iff. split; apply bool_decide_eq_false; intros [= Hl _];
      destruct c as [[] [] [] [] [] [] [] []]; vm_compute in Hc, Hl; discriminate.
  - assert (lowercase (string_take 3 (String c s)) <> "nan") as Hn.
    { intros [= Hl _]. destruct c as [[] [] [] [] [] [] [] []]; vm_compute in Hc, Hl; discriminate. }
    destruct (string_drop 3 (String c s)); rewrite bool_decide_false by done; done.
Qed.

Lemma ppow_ratio v k i : 0 <= k -> (v * 10 ^ k) * ppow 10 (i - k) * ppow 10 (- i) = v * ppow 10 i * ppow 10 (- (i - k)).
Proof.
  intros Hk. pose proof (ppow_shift 10 i (i - k) ltac:(lia) ltac:(lia)) as E.
  replace (i - (i - k)) with k in E by lia.
  transitivity (v * (ppow 10 (i - k) * ppow 10 (- i) * 10 ^ k)); [ring|]. rewrite <- E. ring.
Qed.

(** Reading the text gives the value nearest to the printed decimal. *)
Lemma read_decimal_text f D X : 10 ^ 5 <= D < 10 ^ 6 ->
  let x := encode f (D * ppow 10 (X - 5)) (ppow 10 (- (X - 5))) in
  0 < x < finf f -> read_unsigned f (decimal_text D X) = Some x /\
  exists c s, decimal_text D X = String c s /\ is_digit c = true.
Proof.
  intros HD x Hx. destruct (decimal_text_shape D X HD) as (int & frac & rest & i & E & Hi & Hne & Hf & Hr & He & Hv & HX).
  destruct (read_mantissa_fraction int frac rest Hi Hne Hf Hr) as (v & k & Em & Hk & Hval).
  rewrite <- E in Em. assert (exists c s, decimal_text D X = String c s /\ is_digit c = true) as (c & s & Ec & Hc).
  { destruct int as [|c s]; [done|]. rewrite E. unfold with_fraction. apply all_digits_head in Hi.
    destruct (strip_zeros frac); [by exists c, (s +:+ rest)|].
    exists c, ((s +:+ "." +:+ String a s0) +:+ rest). done. }
  split; [|by exists c, s]. unfold read_unsigned. rewrite Ec.
  destruct (digit_head_not_word c s Hc) as [-> ->]. rewrite <- Ec, Em. cbn [mbind option_bind]. rewrite He. cbn [mbind option_bind].
  rewrite Hv, Z2N.id in Hval by lia. unfold from_decimal.
  assert (0 < Z.of_N v) as Hv0 by (pose proof (Z.pow_pos_nonneg 10 (Z.of_nat k)); nia).
  rewrite (proj2 (Z.eqb_neq _ 0)) by lia.
  assert (encode f (Z.of_N v * ppow 10 (i - Z.of_nat (String.length frac - k)))
    (ppow 10 (- (i - Z.of_nat (String.length frac - k)))) = x) as ->.
  { unfold x. apply encode_ratio; try (apply ppow_pos; lia);
      try (pose proof (ppow_pos 10 (X - 5) ltac:(lia)); pose proof (ppow_pos 10 (i - Z.of_nat (String.length frac - k)) ltac:(lia)); nia).
    rewrite Hval. pose proof (ppow_ratio (Z.of_N v) (Z.of_nat k) (i - Z.of_nat (String.length frac - k)) ltac:(lia)) as Eq.
    replace (i - Z.of_nat (String.length frac - k) - Z.of_nat k) with (X - 5) in Eq by lia. by rewrite Eq. }
  rewrite (proj2 (Z.eqb_neq x 0)), (proj2 (Z.leb_gt (finf f) x)) by lia. done.
Qed.

(** ** Decimals of six digits *)

(** [x] is the pattern nearest to a decimal of at most six significant digits in the
    normal range, or a zero. *)
Inductive six_digit (f : FloatFormat) : Z -> Prop :=
| six_zero (neg : bool) : six_digit f (if neg then fsign f else 0)
| six_decimal (neg : bool) c j x :
    0 < c < 10 ^ 6 -> -330 <= j <= 350 -> 1 - fbias f <= flog2 (c * ppow 10 j) (ppow 10 (- j)) ->
    encode f (c * ppow 10 j) (ppow 10 (- j)) = x -> x < finf f ->
    six_digit f (if neg then x + fsign f else x).

Lemma decode_sign f x : 0 <= x < finf f -> finf f < fsign f ->
  decode f (x + fsign f) =
    match decode f x with Finite _ m e => Finite true m e | Infinite _ => Infinite true | NaN _ => NaN true end.
Proof.
  intros Hx Hs. unfold decode. rewrite (proj2 (Z.leb_le (fsign f) (x + fsign f))) by lia.
  rewrite (proj2 (Z.leb_gt (fsign f) x)) by lia. replace (x + fsign f - fsign f) with x by lia.
  by repeat case_match.
Qed.

Lemma normalize_six c : 0 < c < 10 ^ 6 -> exists t, 0 <= t <= 5 /\ 10 ^ 5 <= c * 10 ^ t < 10 ^ 6.
Proof.
  intros H. destruct (Z.lt_ge_cases c 10); [exists 5; lia|]. destruct (Z.lt_ge_cases c 100); [exists 4; lia|].
  destruct (Z.lt_ge_cases c 1000); [exists 3; lia|]. destruct (Z.lt_ge_cases c 10000); [exists 2; lia|].
  destruct (Z.lt_ge_cases c 100000); [exists 1; lia|exists 0; lia].
Qed.

(** The positive case, with all six digits written. *)
Lemma normal_text f c j : 1 < exp_bits f -> 23 <= mant_bits f -> 10 ^ 5 <= c < 10 ^ 6 -> -335 <= j <= 350 ->
  let x := encode f (c * ppow 10 j) (ppow 10 (- j)) in
  1 - fbias f <= flog2 (c * ppow 10 j) (ppow 10 (- j)) -> x < finf f ->
  exists m e, 0 < x /\ decode f x = Finite false m e /\ 0 < m /\
    six_digits (m * ppow 2 e) (ppow 2 (- e)) = (c, j + 5) /\
    read_unsigned f (decimal_text c (j + 5)) = Some x /\
    exists ch s, decimal_text c (j + 5) = String ch s /\ is_digit ch = true.
Proof.
  intros He Hm Hc Hj x Hk Hx. pose proof (ppow_pos 10 j ltac:(lia)). pose proof (ppow_pos 10 (- j) ltac:(lia)).
  destruct (encode_rounds f Hm (c * ppow 10 j) (ppow 10 (- j)) ltac:(nia) ltac:(lia) Hk) as (q & e & HR & E).
  fold x in E. assert (0 < x) as Hx0.
  { destruct HR as [HR1 HR2 _ _ _]. pose proof (Z.pow_pos_nonneg 2 (mant_bits f)). nia. }
  rewrite E in Hx. destruct (decode_rounds f He Hm _ _ q e HR Hx) as (m & e' & Hd & Hm0 & _).
  rewrite <- E in Hd, Hx. exists m, e'.
  destruct (six_digits_encoded f c j m e' He Hm Hc Hj Hk Hx Hd) as [_ H6].
  destruct (read_decimal_text f c (j + 5) Hc) as [Hr Hh].
  { replace (j + 5 - 5) with j by lia. fold x. lia. }
  replace (j + 5 - 5) with j in Hr by lia. done.
Qed.

(** A decimal of six digits is read back from its text. *)
Lemma six_digit_reads f x : 1 < exp_bits f -> 23 <= mant_bits f -> six_digit f x ->
  read_float f (print_float f x) = Some x.
Proof.
  intros He Hm H. pose proof (finf_below_sign f He Hm) as Hs.
  assert (0 < finf f) as Hf.
  { unfold finf. pose proof (Z.pow_pos_nonneg 2 (mant_bits f)). pose proof (Z.pow_gt_1 2 (exp_bits f)). nia. }
  assert (decode f 0 = Finite false 0 (1 - fbias f - mant_bits f)) as H0.
  { unfold decode. rewrite (proj2 (Z.leb_gt (fsign f) 0)), (proj2 (Z.eqb_neq 0 (finf f))), (proj2 (Z.ltb_ge (finf f) 0)) by lia.
    by rewrite Z.div_0_l, Z.mod_0_l by (pose proof (Z.pow_pos_nonneg 2 (mant_bits f)); lia). }
  destruct H as [neg|neg c j x Hc Hj Hk Ex Hx].
  - unfold print_float. destruct neg; [|by rewrite H0].
    rewrite <- (Z.add_0_l (fsign f)) at 1. rewrite decode_sign, H0 by lia. done.
  - destruct (normalize_six c Hc) as (t & Ht & Hct).
    assert (0 < ppow 10 j /\ 0 < ppow 10 (- j) /\ 0 < ppow 10 (j - t) /\ 0 < ppow 10 (- (j - t))) as (P1 & P2 & P3 & P4)
      by (split_and!; apply ppow_pos; lia).
    pose proof (ppow_ratio c t j ltac:(lia)) as Er.
    assert (encode f (c * 10 ^ t * ppow 10 (j - t)) (ppow 10 (- (j - t))) = x) as Ex'.
    { rewrite <- Ex. apply encode_ratio; [nia|done|nia|done|]. by rewrite Er. }
    assert (flog2 (c * 10 ^ t * ppow 10 (j - t)) (ppow 10 (- (j - t))) = flog2 (c * ppow 10 j) (ppow 10 (- j))) as El.
    { rewrite <- (flog2_scale _ _ (ppow 10 (- j))), <- (flog2_scale (c * ppow 10 j) _ (ppow 10 (- (j - t)))) by nia.
      by rewrite Er, (Z.mul_comm (ppow 10 (- j))). }
    destruct (normal_text f (c * 10 ^ t) (j - t) He Hm Hct ltac:(lia)) as (m & e & Hx0 & Hd & Hm0 & H6 & Hr & ch & s & Eh & Hch);
      [by rewrite El|by rewrite Ex'|]. rewrite Ex' in Hx0, Hd, Hr.
    unfold print_float. destruct neg.
    + rewrite decode_sign, Hd by lia. rewrite (proj2 (Z.eqb_neq m 0)), H6 by lia.
      change (read_float f (String "-" (decimal_text (c * 10 ^ t) (j - t + 5))) = Some (x + fsign f)).
      unfold read_float. by rewrite Hr.
    + rewrite Hd, (proj2 (Z.eqb_neq m 0)), H6 by lia. unfold minus, read_float. rewrite Eh in *.
      destruct ch as [[] [] [] [] [] [] [] []]; first [exact Hr|vm_compute in Hch; discriminate].
Qed.
