(* ===== verification/ReducedFloat.v ===== *)
(** * ReducedFloat: the 16-bit and 8-bit floating-point types

    [src/dtypes/half.cpp], [bfloat16.cpp], [float8_e4m3fn.cpp], [float8_e5m2.cpp] and
    the reference conversions kept in [float8_e4m3fn.h]. Values are bit patterns; a
    binary32 [float] is its 32-bit pattern, so [fp32_to_bits] and [fp32_from_bits] are
    the identity. The two additions of binary32 numbers in the conversions to 8-bit
    subnormals are [fp32_add], the sum rounded to nearest even. *)
From S2P Require Import Prelude FloatFormat FloatText.

Abbreviation i32 := (wrap_signed 32).

(** ** Formats *)

Definition binary16 : FloatFormat := mkFormat 5 10.
Definition bfloat16 : FloatFormat := mkFormat 8 7.
Definition e4m3 : FloatFormat := mkFormat 4 3.
Definition e5m2 : FloatFormat := mkFormat 5 2.

(** The value of a magnitude (a pattern without sign) in units of [2^-149], the
    smallest positive binary32 number. The exponent range is taken as unbounded: the
    patterns of infinities and NaNs stand for the numbers that would follow. *)
Definition magnitude (f : FloatFormat) (p : Z) : Z :=
  let b := p / 2 ^ mant_bits f in
  if b =? 0 then p mod 2 ^ mant_bits f * 2 ^ (150 - fbias f - mant_bits f)
  else (p mod 2 ^ mant_bits f + 2 ^ mant_bits f) * 2 ^ (149 + b - fbias f - mant_bits f).

(** [r] is the number of the format nearest to [v], the even one of two. *)
Definition nearest_even (f : FloatFormat) (v r : Z) : Prop :=
  0 <= r /\ forall p, 0 <= p -> p <> r ->
    Z.abs (v - magnitude f r) < Z.abs (v - magnitude f p) \/
    (Z.abs (v - magnitude f r) = Z.abs (v - magnitude f p) /\ Z.even r = true).

(** The sum of two non-negative finite binary32 numbers. *)
Definition fp32_add (x y : Z) : Z :=
  let v := magnitude binary32 x + magnitude binary32 y in
  if v =? 0 then 0 else Z.min (encode binary32 v (2 ^ 149)) (finf binary32).

Definition countl_zero32 (x : Z) : Z := if x =? 0 then 32 else 31 - Z.log2 x.

(** ** binary16 *)

(* @src src/dtypes/half.cpp:17-45 fp16_to_fp32_bits *)
Definition fp16_to_fp32_bits (h : Z) : Z :=
  let w := u32 (Z.shiftl h 16) in
  let sign := Z.land w 0x80000000 in
  let exponent := Z.land w 0x7C000000 in
  let mantissa := Z.land w 0x03FF0000 in
  if (exponent =? 0) && (mantissa =? 0) then sign
  else if exponent =? 0x7C000000 then Z.lor (Z.lor sign 0x7F800000) (Z.shiftr mantissa 3)
  else
    let nonsign := Z.land w 0x7FFFFFFF in
    let renorm_shift := countl_zero32 nonsign in
    let renorm_shift := if 5 <? renorm_shift then renorm_shift - 5 else 0 in
    Z.lor sign (u32 (Z.shiftr (u32 (Z.shiftl nonsign renorm_shift)) 3 + u32 (Z.shiftl (0x70 - renorm_shift) 23))).

(* @src src/dtypes/half.cpp:50-117 fp16_from_fp32_value *)
Definition fp16_from_fp32_value (x : Z) : Z :=
  let sign := Z.land x 0x80000000 in
  let exponent := Z.land x 0x7F800000 in
  let mantissa := Z.land x 0x007FFFFF in
  if (exponent =? 0) && (mantissa =? 0) then u16 (Z.shiftr sign 16)
  else if exponent =? 0x7F800000 then
    if mantissa =? 0 then u16 (Z.lor (Z.shiftr sign 16) 0x7C00)
    else
      let nan_payload := u16 (Z.shiftr mantissa 13) in
      let nan_payload := if nan_payload =? 0 then 0x0200 else Z.lor nan_payload 0x0200 in
      u16 (Z.lor (Z.lor (Z.shiftr sign 16) 0x7C00) nan_payload)
  else
    let exp32 := i32 (u32 (Z.shiftr exponent 23 - 127)) in
    if exp32 <? -14 then u16 (Z.shiftr sign 16)
    else if 15 <? exp32 then u16 (Z.lor (Z.shiftr sign 16) 0x7C00)
    else
      let res := Z.shiftr sign 16 in
      let res := Z.lor res (u32 (Z.shiftl (u32 (exp32 + 15)) 10)) in
      let res := Z.lor res (Z.shiftr mantissa 13) in
      let rounding_bit := Z.land mantissa 0x00001000 in
      let sticky_bits := Z.land mantissa 0x00000FFF in
      u16 (if negb (rounding_bit =? 0) && (negb (sticky_bits =? 0) || negb (Z.land res 1 =? 0))
           then u32 (res + 1) else res).

(** ** bfloat16 *)

(* @src src/dtypes/bfloat16.cpp:11-17 bf16_to_fp32_value *)
Definition bf16_to_fp32_value (input : Z) : Z := u32 (Z.shiftl input 16).

(** [std::isnan] of a binary32 pattern. *)
Definition fp32_isnan (x : Z) : bool := 0x7F800000 <? Z.land x 0x7FFFFFFF.

(* @src src/dtypes/bfloat16.cpp:19-33 bf16_from_fp32_value *)
Definition bf16_from_fp32_value (x : Z) : Z :=
  if fp32_isnan x then 0x7FC0
  else
    let rounding_bias := u32 (Z.land (Z.shiftr x 16) 1 + 0x7FFF) in
    u16 (Z.shiftr (u32 (x + rounding_bias)) 16).

(** ** E4M3FN *)

(* @src src/dtypes/float8_e4m3fn.cpp:11-53 fp8e4m3fn_to_fp32_bits *)
Definition fp8e4m3fn_to_fp32_bits (input : Z) : Z :=
  let w := u32 (Z.shiftl input 24) in
  let sign := Z.land w 0x80000000 in
  let exponent := Z.land w 0x78000000 in
  let mantissa := Z.land w 0x07000000 in
  if (exponent =? 0) && (mantissa =? 0) then sign
  else if (exponent =? 0x78000000) && (mantissa =? 0x07000000) then
    Z.lor (Z.lor sign 0x7F800000) (Z.shiftr mantissa 4)
  else
    let nonsign := Z.land w 0x7FFFFFFF in
    let renorm_shift := countl_zero32 nonsign in
    let renorm_shift := if 4 <? renorm_shift then renorm_shift - 4 else 0 in
    Z.lor sign (u32 (Z.shiftr (u32 (Z.shiftl nonsign renorm_shift)) 4 + u32 (Z.shiftl (0x78 - renorm_shift) 23))).

(* @src src/dtypes/float8_e4m3fn.cpp:59-118 fp8e4m3fn_from_fp32_value *)
Definition fp8e4m3fn_from_fp32_value (x : Z) : Z :=
  let sign := Z.land x 0x80000000 in
  let exponent := Z.land x 0x7F800000 in
  let mantissa := Z.land x 0x007FFFFF in
  if (exponent =? 0) && (mantissa =? 0) then u8 (Z.shiftr sign 24)
  else
    let nonsign := Z.lor exponent mantissa in
    if (exponent =? 0x7F800000) || (0x43F00000 <=? nonsign) then u8 (Z.lor (Z.shiftr sign 24) 0x7F)
    else if nonsign <? Z.shiftl 121 23 then
      let denorm_mask := Z.shiftl 141 23 in
      let nonsign := fp32_add nonsign denorm_mask in
      Z.lor (u8 (u32 (nonsign - denorm_mask))) (u8 (Z.shiftr sign 24))
    else
      let exp32 := i32 (u32 (Z.shiftr exponent 23 - 127)) in
      let res := Z.shiftr sign 24 in
      let res := Z.lor res (u32 (Z.shiftl (u32 (exp32 + 7)) 3)) in
      let res := Z.lor res (Z.shiftr mantissa 20) in
      let rounding_bit := Z.land mantissa 0x00080000 in
      let sticky_bits := Z.land mantissa 0x0007FFFF in
      u8 (if negb (rounding_bit =? 0) && (negb (sticky_bits =? 0) || negb (Z.land res 1 =? 0))
          then u32 (res + 1) else res).

(* @src src/dtypes/float8_e4m3fn.cpp:128-133 Float8_e4m3fn::isnan *)
Definition e4m3fn_isnan (x : Z) : bool := Z.land x 0x7F =? 0x7F.

(** The masks are [int32_t]: [inf_nan_mask] is all exponent bits or none,
    [zero_mask] all bits or none. *)
(* @src include/aethermind/dtypes/float8_e4m3fn.h:47-143 fp8e4m3fn_to_fp32_value_bk *)
Definition fp8e4m3fn_to_fp32_value_bk (input : Z) : Z :=
  let w := u32 (Z.shiftl input 24) in
  let sign := Z.land w 0x80000000 in
  let nonsign := Z.land w 0x7FFFFFFF in
  let renorm_shift := if negb (nonsign =? 0) then countl_zero32 nonsign else 32 in
  let renorm_shift := if 4 <? renorm_shift then renorm_shift - 4 else 0 in
  let inf_nan_mask := Z.land (Z.shiftr (i32 (u32 (nonsign + 0x01000000))) 8) 0x7F800000 in
  let zero_mask := Z.shiftr (i32 (u32 (nonsign - 1))) 31 in
  Z.lor sign
    (Z.land (Z.lor (u32 (Z.shiftr (u32 (Z.shiftl nonsign renorm_shift)) 4 + u32 (Z.shiftl (u32 (0x78 - renorm_shift)) 23)))
                   (u32 inf_nan_mask))
            (u32 (Z.lnot zero_mask))).

(* @src include/aethermind/dtypes/float8_e4m3fn.h:145-206 fp8e4m3fn_from_fp32_value_bk *)
Definition fp8e4m3fn_from_fp32_value_bk (f_bits : Z) : Z :=
  let fp8_max := Z.shiftl 1087 20 in
  let denorm_mask := Z.shiftl 141 23 in
  let sign := Z.land f_bits 0x80000000 in
  let f_bits := Z.lxor f_bits sign in
  let result :=
    if fp8_max <=? f_bits then 0x7F
    else if f_bits <? Z.shiftl 121 23 then
      let f_bits := fp32_add f_bits denorm_mask in
      u8 (u32 (f_bits - denorm_mask))
    else
      let mant_odd := u8 (Z.land (Z.shiftr f_bits 20) 1) in
      let f_bits := u32 (f_bits + u32 (u32 (Z.shiftl (u32 (7 - 127)) 23) + 0x7FFFF)) in
      let f_bits := u32 (f_bits + mant_odd) in
      u8 (Z.shiftr f_bits 20) in
  u8 (Z.lor result (u8 (Z.shiftr sign 24))).

(** ** E5M2 *)

(* @src src/dtypes/float8_e5m2.cpp:18-45 fp8e5m2_to_fp32_bits *)
Definition fp8e5m2_to_fp32_bits (input : Z) : Z :=
  let w := u32 (Z.shiftl input 24) in
  let sign := Z.land w 0x80000000 in
  let exponent := Z.land w 0x7C000000 in
  let mantissa := Z.land w 0x03FF0000 in
  if (exponent =? 0) && (mantissa =? 0) then sign
  else if exponent =? 0x7C000000 then Z.lor (Z.lor sign 0x7F800000) (Z.shiftr mantissa 3)
  else
    let nonsign := Z.land w 0x7FFFFFFF in
    let renorm_shift := countl_zero32 nonsign in
    let renorm_shift := if 5 <? renorm_shift then renorm_shift - 5 else 0 in
    Z.lor sign (u32 (Z.shiftr (u32 (Z.shiftl nonsign renorm_shift)) 3 + u32 (Z.shiftl (0x70 - renorm_shift) 23))).

(* @src src/dtypes/float8_e5m2.cpp:55-123 fp8e5m2_from_fp32_value *)
Definition fp8e5m2_from_fp32_value (x : Z) : Z :=
  let sign := Z.land x 0x80000000 in
  let exponent := Z.land x 0x7F800000 in
  let mantissa := Z.land x 0x007FFFFF in
  if (exponent =? 0) && (mantissa =? 0) then u8 (Z.shiftr sign 24)
  else if exponent =? 0x7F800000 then
    if mantissa =? 0 then u8 (Z.lor (Z.shiftr sign 24) 0x7C) else u8 (Z.lor (Z.shiftr sign 24) 0x7E)
  else
    let nonsign := Z.lor exponent mantissa in
    if 0x47800000 <=? nonsign then
      if 0x7F800000 <? nonsign then u8 (Z.lor (Z.shiftr sign 24) 0x7F) else u8 (Z.lor (Z.shiftr sign 24) 0x7C)
    else if nonsign <? Z.shiftl 113 23 then
      let denorm_mask := Z.shiftl 134 23 in
      let nonsign := fp32_add nonsign denorm_mask in
      Z.lor (u8 (u32 (nonsign - denorm_mask))) (u8 (Z.shiftr sign 24))
    else
      let exp32 := i32 (u32 (Z.shiftr exponent 23 - 127)) in
      let res := Z.shiftr sign 24 in
      let res := Z.lor res (u32 (Z.shiftl (u32 (exp32 + 15)) 2)) in
      let res := Z.lor res (Z.shiftr mantissa 21) in
      let rounding_bit := Z.land mantissa 0x00100000 in
      let sticky_bits := Z.land mantissa 0x000FFFFF in
      u8 (if negb (rounding_bit =? 0) && (negb (sticky_bits =? 0) || negb (Z.land res 1 =? 0))
          then u32 (res + 1) else res).

(* @src src/dtypes/float8_e5m2.cpp:133-136 Float8_e5m2::isinf *)
Definition e5m2_isinf (x : Z) : bool := Z.land x 0x7F =? 0x7C.

(* @src src/dtypes/float8_e5m2.cpp:138-143 Float8_e5m2::isnan *)
Definition e5m2_isnan (x : Z) : bool := 0x7C <? Z.land x 0x7F.

(** ** Lemmas: bit fields *)

Lemma land_field x k n : 0 <= k -> 0 <= n -> Z.land x (Z.ones n * 2 ^ k) = x / 2 ^ k mod 2 ^ n * 2 ^ k.
Proof.
  intros Hk Hn. rewrite <- Z.land_ones, <- Z.shiftr_div_pow2, <- !Z.shiftl_mul_pow2 by done.
  apply Z.bits_inj'. intros i Hi. rewrite Z.land_spec, !Z.shiftl_spec by done.
  destruct (Z.ltb_spec i k); [rewrite !(Z.testbit_neg_r _ (i - k)), andb_false_r by lia; done|].
  rewrite Z.land_spec, Z.shiftr_spec by lia. by replace (i - k + k) with i by lia.
Qed.

(** Sign, exponent and fraction of a binary32 pattern, as the code masks them. *)
Lemma fp32_fields x : in_u 32 x -> exists g E M,
  (g = 0 \/ g = 1) /\ 0 <= E < 256 /\ 0 <= M < 2 ^ 23 /\ x = g * 2 ^ 31 + (E * 2 ^ 23 + M) /\
  Z.land x 0x80000000 = g * 2 ^ 31 /\ Z.land x 0x7F800000 = E * 2 ^ 23 /\ Z.land x 0x007FFFFF = M.
Proof.
  intros Hx. unfold in_u in Hx. exists (x / 2 ^ 31), (x / 2 ^ 23 mod 2 ^ 8), (x mod 2 ^ 23).
  change 0x80000000 with (Z.ones 1 * 2 ^ 31). change 0x7F800000 with (Z.ones 8 * 2 ^ 23).
  change 0x007FFFFF with (Z.ones 23). rewrite !land_field, Z.land_ones by lia.
  repeat split; try done; dlia.
Qed.

(** The tests on the dropped bits decide whether the kept ones are rounded up. *)
Lemma round_bits M s odd : 0 < s ->
  negb (Z.land M (2 ^ (s - 1)) =? 0) && (negb (Z.land M (2 ^ (s - 1) - 1) =? 0) || odd) =
  (2 ^ s <? 2 * (M mod 2 ^ s)) || ((2 * (M mod 2 ^ s) =? 2 ^ s) && odd).
Proof.
  intros Hs. set (n := s - 1). assert (0 <= n) as Hn by lia. replace s with (Z.succ n) by lia.
  rewrite Z.pow_succ_r by done. pose proof (Z.pow_pos_nonneg 2 n ltac:(lia) Hn) as Hp.
  replace (2 ^ n - 1) with (Z.ones n) by (rewrite Z.ones_equiv; lia).
  pose proof (land_field M n 1 Hn ltac:(lia)) as Hf. change (Z.ones 1) with 1 in Hf. rewrite Z.mul_1_l in Hf.
  rewrite Hf, Z.land_ones by done. change (2 ^ 1) with 2.
  assert (M mod (2 * 2 ^ n) = M / 2 ^ n mod 2 * 2 ^ n + M mod 2 ^ n) as ->.
  { rewrite Z.mul_comm, Z.rem_mul_r by lia. ring. }
  pose proof (Z.mod_pos_bound M (2 ^ n) Hp). pose proof (Z.mod_pos_bound (M / 2 ^ n) 2 ltac:(lia)).
  assert (M / 2 ^ n mod 2 = 0 \/ M / 2 ^ n mod 2 = 1) as [-> | ->] by lia; zcases; destruct odd; simpl; try done; lia.
Qed.

(** ** Lemmas: the magnitudes of a format *)

Section Magnitudes.
Context (f : FloatFormat) (Hm : 0 <= mant_bits f) (Hb : fbias f + mant_bits f <= 150).

Definition ulp (p : Z) : Z := 2 ^ (149 + Z.max (p / 2 ^ mant_bits f) 1 - fbias f - mant_bits f).

Lemma ulp_pos p : 0 < ulp p.
Proof. apply Z.pow_pos_nonneg; lia. Qed.

Lemma magnitude_fields b r : 0 <= b -> 0 <= r < 2 ^ mant_bits f ->
  magnitude f (b * 2 ^ mant_bits f + r) =
  (if b =? 0 then r else r + 2 ^ mant_bits f) * 2 ^ (149 + Z.max b 1 - fbias f - mant_bits f).
Proof.
  intros Hb' Hr. unfold magnitude.
  assert ((b * 2 ^ mant_bits f + r) / 2 ^ mant_bits f = b) as -> by (symmetry; apply (Z.div_unique_pos _ _ b r); lia).
  assert ((b * 2 ^ mant_bits f + r) mod 2 ^ mant_bits f = r) as -> by (symmetry; apply (Z.mod_unique_pos _ _ b r); lia).
  destruct (Z.eqb_spec b 0) as [->|]; do 2 f_equal; lia.
Qed.

Lemma pattern_fields p : 0 <= p -> exists b r,
  0 <= b /\ 0 <= r < 2 ^ mant_bits f /\ p = b * 2 ^ mant_bits f + r /\ p / 2 ^ mant_bits f = b.
Proof.
  intros Hp. pose proof (Z.pow_pos_nonneg 2 _ ltac:(lia) Hm) as H2. exists (p / 2 ^ mant_bits f), (p mod 2 ^ mant_bits f).
  split; [by apply Z.div_pos|]. split; [by apply Z.mod_pos_bound|]. split; [|done].
  pose proof (Z.div_mod p (2 ^ mant_bits f)). lia.
Qed.

Lemma magnitude_succ p : 0 <= p -> magnitude f (p + 1) = magnitude f p + ulp p.
Proof.
  intros Hp. destruct (pattern_fields p Hp) as (b & r & Hb' & Hr & -> & Hd). unfold ulp. rewrite Hd.
  rewrite (magnitude_fields b r) by done.
  destruct (Z.eq_dec (r + 1) (2 ^ mant_bits f)) as [E|E].
  - replace (b * 2 ^ mant_bits f + r + 1) with ((b + 1) * 2 ^ mant_bits f + 0) by lia. rewrite magnitude_fields by lia.
    rewrite (proj2 (Z.eqb_neq (b + 1) 0)) by lia. destruct (Z.eqb_spec b 0) as [->|Hb0].
    + replace (149 + Z.max (0 + 1) 1 - fbias f - mant_bits f) with (149 + Z.max 0 1 - fbias f - mant_bits f) by lia. rewrite <- E. ring.
    + replace (149 + Z.max (b + 1) 1 - fbias f - mant_bits f) with (Z.succ (149 + Z.max b 1 - fbias f - mant_bits f)) by lia.
      rewrite Z.pow_succ_r, <- E by lia. ring.
  - rewrite <- Z.add_assoc, magnitude_fields by lia. destruct (b =? 0); ring.
Qed.

Lemma magnitude_run p c : 0 <= p -> 0 <= c -> p + c <= (p / 2 ^ mant_bits f + 1) * 2 ^ mant_bits f ->
  magnitude f (p + c) = magnitude f p + c * ulp p.
Proof.
  intros Hp Hc. pose proof (Z.pow_pos_nonneg 2 _ ltac:(lia) Hm) as H2.
  pattern c. apply natlike_ind; [rewrite Z.add_0_r; lia| |done]. clear c Hc. intros c Hc IH Hle.
  rewrite <- Z.add_1_r, Z.add_assoc, magnitude_succ, IH by lia.
  assert ((p + c) / 2 ^ mant_bits f = p / 2 ^ mant_bits f) as E.
  { destruct (pattern_fields p Hp) as (b & r & Hb' & Hr & Ep & Hd). rewrite Hd in *. symmetry.
    apply (Z.div_unique_pos _ _ b (r + c)); lia. }
  unfold ulp. rewrite E. ring.
Qed.

Lemma magnitude_lt p q : 0 <= p -> p < q -> magnitude f p < magnitude f q.
Proof.
  intros Hp Hq. replace q with (p + 1 + (q - p - 1)) by lia. assert (0 <= q - p - 1) as Hk by lia. revert Hk.
  generalize (q - p - 1). intros k Hk. pattern k. apply natlike_ind; [| |done].
  - rewrite Z.add_0_r, magnitude_succ by done. pose proof (ulp_pos p). lia.
  - intros x Hx IH. rewrite <- Z.add_1_r, Z.add_assoc, magnitude_succ by lia. pose proof (ulp_pos (p + 1 + x)). lia.
Qed.

Lemma magnitude_le p q : 0 <= p -> p <= q -> magnitude f p <= magnitude f q.
Proof. intros. destruct (Z.eq_dec p q) as [->|]; [lia|]. pose proof (magnitude_lt p q). lia. Qed.

(** Rounding [y / d] to an integer rounds [v] to the format, when the numbers of the
    format around [v] are [d] small steps apart and [v] is [y mod d] steps above the
    lower one. *)
Lemma nearest_step q v y d u : 0 <= q -> 0 < d -> 0 < u ->
  v = magnitude f q + y mod d * u -> magnitude f (q + 1) = magnitude f q + d * u ->
  Z.odd q = Z.odd (y / d) -> nearest_even f v (q + (round_div y d - y / d)).
Proof.
  intros Hq Hd Hu -> Hs Ho. pose proof (Z.mod_pos_bound y d Hd) as Ha. unfold round_div. rewrite <- Ho.
  set (a := y mod d) in *. assert (0 <= a * u < d * u) as Hau by nia.
  assert (forall p, 0 <= p -> magnitude f p <= magnitude f q \/ magnitude f (q + 1) <= magnitude f p) as Hc.
  { intros p Hp. destruct (Z.le_gt_cases p q); [left|right]; apply magnitude_le; lia. }
  assert (forall r, r = q \/ r = q + 1 ->
    (r = q -> 2 * a < d \/ (2 * a = d /\ Z.odd q = false)) ->
    (r = q + 1 -> d < 2 * a \/ (2 * a = d /\ Z.odd q = true)) -> nearest_even f (magnitude f q + a * u) r) as HN.
  { intros r Hr H0 H1. split; [lia|]. intros p Hp Hne.
    assert (Z.even r = true \/ 2 * a <> d) as Hev.
    { destruct Hr as [-> | ->]; [destruct (H0 eq_refl) as [?|[_ H]]|destruct (H1 eq_refl) as [?|[_ H]]]; try (right; lia); left.
      - by rewrite <- Z.negb_odd, H.
      - by rewrite Z.add_1_r, Z.even_succ. }
    assert (magnitude f p <= magnitude f q - ulp 0 \/ p = q \/ p = q + 1 \/ magnitude f (q + 1) < magnitude f p) as Hp'.
    { destruct (Z.lt_trichotomy p q) as [H|[H|H]]; [left| |].
      - pose proof (magnitude_le (p + 1) q ltac:(lia) ltac:(lia)). rewrite magnitude_succ in * by done.
        assert (ulp 0 <= ulp p); [|lia]. unfold ulp. apply Z.pow_le_mono_r; [lia|].
        rewrite Z.div_0_l by (pose proof (Z.pow_pos_nonneg 2 _ ltac:(lia) Hm); lia). lia.
      - tauto.
      - destruct (Z.eq_dec p (q + 1)); [tauto|]. right. right. right. apply magnitude_lt; lia. }
    pose proof (ulp_pos 0).
    destruct Hr as [-> | ->]; [destruct (H0 eq_refl) as [?|[? _]]|destruct (H1 eq_refl) as [?|[? _]]];
      destruct Hp' as [?|[->|[->|?]]]; try lia;
      try (left; rewrite ?Hs in *; nia); destruct Hev; try lia; try (right; split; [rewrite ?Hs in *; nia|done]). }
  destruct (Z.ltb_spec d (2 * a)); simpl; [apply HN; lia|].
  destruct (Z.eqb_spec (2 * a) d), (Z.odd q) eqn:Eo; simpl; apply HN; try lia.
Qed.

Lemma nearest_unique p r : 0 <= p -> nearest_even f (magnitude f p) r -> r = p.
Proof.
  intros Hp [Hr H]. destruct (Z.eq_dec r p) as [|Hne]; [done|]. specialize (H p Hp ltac:(lia)).
  pose proof (magnitude_lt p r Hp). pose proof (magnitude_lt r p Hr). lia.
Qed.
End Magnitudes.

(** ** Lemmas: numbers of a narrow format inside binary32 *)

Section Narrowing.
Context (f : FloatFormat) (Hm : 0 < mant_bits f < 23) (Hb : 0 < fbias f <= 127).

(** The distance of the two exponent biases, as patterns. *)
Definition rebias : Z := (127 - fbias f) * 2 ^ mant_bits f.

Lemma split_23 : 2 ^ 23 = 2 ^ mant_bits f * 2 ^ (23 - mant_bits f).
Proof. rewrite <- Z.pow_add_r by lia. f_equal. lia. Qed.

Lemma widen_magnitude q : 0 <= q -> 2 ^ mant_bits f <= q \/ fbias f = 127 ->
  magnitude binary32 ((q + rebias) * 2 ^ (23 - mant_bits f)) = magnitude f q.
Proof.
  intros Hq Hn. destruct (pattern_fields f ltac:(lia) q Hq) as (b & r & Hb0 & Hr & -> & Hd).
  rewrite (magnitude_fields f ltac:(lia) b r) by done. unfold rebias.
  replace ((b * 2 ^ mant_bits f + r + (127 - fbias f) * 2 ^ mant_bits f) * 2 ^ (23 - mant_bits f))
    with ((b + (127 - fbias f)) * 2 ^ mant_bits binary32 + r * 2 ^ (23 - mant_bits f))
    by (change (2 ^ mant_bits binary32) with (2 ^ 23); rewrite split_23; ring).
  pose proof (Z.pow_pos_nonneg 2 (23 - mant_bits f) ltac:(lia) ltac:(lia)) as Hp.
  assert (1 <= b \/ fbias f = 127) as Hn' by (destruct Hn as [Hn|]; [left; nia|by right]).
  rewrite magnitude_fields; [|simpl; lia|lia|change (2 ^ mant_bits binary32) with (2 ^ 23); rewrite split_23; nia].
  change (mant_bits binary32) with 23. change (fbias binary32) with 127.
  replace (149 + Z.max b 1 - fbias f - mant_bits f)
    with (23 - mant_bits f + (149 + Z.max (b + (127 - fbias f)) 1 - 127 - 23)) by lia.
  rewrite (Z.pow_add_r 2 (23 - mant_bits f)), split_23 by lia.
  destruct (Z.eqb_spec b 0), (Z.eqb_spec (b + (127 - fbias f)) 0); try lia; ring.
Qed.

Lemma narrow_normal y : 0 <= y -> rebias <= y / 2 ^ (23 - mant_bits f) ->
  2 ^ mant_bits f + rebias <= y / 2 ^ (23 - mant_bits f) \/ fbias f = 127 ->
  nearest_even f (magnitude binary32 y) (round_div y (2 ^ (23 - mant_bits f)) - rebias).
Proof.
  intros Hy Hk Hn. set (d := 2 ^ (23 - mant_bits f)) in *. set (q := y / d - rebias).
  assert (0 < d) as Hd by (apply Z.pow_pos_nonneg; lia).
  pose proof (Z.div_mod y d ltac:(lia)) as Hdm. pose proof (Z.mod_pos_bound y d Hd) as Hmod.
  assert (y / d * d / 2 ^ 23 = y / 2 ^ 23) as E23.
  { rewrite split_23, (Z.mul_comm (2 ^ mant_bits f)), <- !Z.div_div, Z.div_mul by (fold d; pose proof (Z.pow_pos_nonneg 2 (mant_bits f)); lia). done. }
  assert (y / d * d + d <= (y / 2 ^ 23 + 1) * 2 ^ 23) as Hfit.
  { rewrite split_23. fold d. rewrite (Z.mul_comm (2 ^ mant_bits f)), <- Z.div_div by (pose proof (Z.pow_pos_nonneg 2 (mant_bits f)); lia).
    pose proof (Z.mod_pos_bound (y / d) (2 ^ mant_bits f) ltac:(apply Z.pow_pos_nonneg; lia)).
    pose proof (Z.div_mod (y / d) (2 ^ mant_bits f) ltac:(pose proof (Z.pow_pos_nonneg 2 (mant_bits f)); lia)). nia. }
  assert (0 <= y / d * d) as H0 by (pose proof (Z.div_pos y d); nia).
  pose proof (magnitude_run binary32 ltac:(simpl; lia) ltac:(vm_compute; congruence) (y / d * d)) as Hrun.
  change (2 ^ mant_bits binary32) with (2 ^ 23) in Hrun. rewrite E23 in Hrun.
  replace (round_div y d - rebias) with (q + (round_div y d - y / d)) by (unfold q; lia).
  assert (magnitude binary32 (y / d * d) = magnitude f q) as Eq.
  { rewrite <- widen_magnitude; [|unfold q; lia|unfold q; destruct Hn; [left; lia|by right]]. f_equal. fold d. unfold q. ring. }
  apply (nearest_step f ltac:(lia) ltac:(lia) q _ y d (ulp binary32 (y / d * d))); [unfold q; lia|done| | | |].
  - apply ulp_pos; vm_compute; congruence.
  - rewrite <- Eq, <- Hrun by lia. f_equal. lia.
  - rewrite <- Eq, <- Hrun, <- widen_magnitude by (unfold q; lia). f_equal. fold d. unfold q. ring.
  - unfold q, rebias. rewrite Z.odd_sub, Z.odd_mul, Z.odd_pow by lia. by rewrite andb_false_r, xorb_false_r.
Qed.

(** Below the normal numbers the format is evenly spaced. *)
Lemma narrow_subnormal v : 0 <= v < 2 ^ mant_bits f * ulp f 0 ->
  nearest_even f v (round_div v (ulp f 0)).
Proof.
  intros Hv. pose proof (ulp_pos f ltac:(lia) ltac:(lia) 0) as Hu. pose proof (Z.pow_pos_nonneg 2 (mant_bits f) ltac:(lia) ltac:(lia)) as H2.
  set (q := v / ulp f 0). assert (0 <= q < 2 ^ mant_bits f) as Hq.
  { split; [apply Z.div_pos; lia|]. apply Z.div_lt_upper_bound; lia. }
  assert (forall c, 0 <= c <= 2 ^ mant_bits f -> magnitude f c = c * ulp f 0) as Hlin.
  { intros c Hc. pose proof (magnitude_run f ltac:(lia) ltac:(lia) 0 c) as H. rewrite Z.div_0_l in H by lia.
    rewrite Z.add_0_l in H. rewrite H by lia. unfold magnitude. rewrite Z.div_0_l, Z.mod_0_l by lia. simpl. lia. }
  replace (round_div v (ulp f 0)) with (q + (round_div v (ulp f 0) - v / ulp f 0)) by (unfold q; lia).
  apply (nearest_step f ltac:(lia) ltac:(lia) q v v (ulp f 0) 1); try lia.
  - rewrite Hlin by lia. pose proof (Z.div_mod v (ulp f 0)). unfold q. lia.
  - rewrite !Hlin by lia. ring.
  - done.
Qed.
End Narrowing.

(** ** Lemmas: the binary32 addition *)

Lemma round_div_add a n d : 0 < d -> Z.even a = true -> round_div (a * d + n) d = a + round_div n d.
Proof.
  intros Hd Ha. unfold round_div. rewrite (Z.add_comm (a * d)), Z.div_add, Z.mod_add, Z.odd_add by lia.
  rewrite <- (Z.negb_even a), Ha, xorb_false_r. destruct (_ || _); lia.
Qed.

(** Adding a power of two moves the rounding position to its last bit. *)
Lemma fp32_add_power y t : 0 <= t < 23 -> 0 <= magnitude binary32 y < 2 ^ (149 + t) ->
  fp32_add y ((t + 127) * 2 ^ 23) = (t + 127) * 2 ^ 23 + round_div (magnitude binary32 y) (2 ^ (126 + t)).
Proof.
  intros Ht Hv. unfold fp32_add. set (v := magnitude binary32 y) in *.
  assert (magnitude binary32 ((t + 127) * 2 ^ 23) = 2 ^ (149 + t)) as ->.
  { rewrite <- (Z.add_0_r (_ * _)). change (2 ^ 23) with (2 ^ mant_bits binary32).
    rewrite magnitude_fields by (simpl; lia). change (mant_bits binary32) with 23. change (fbias binary32) with 127.
    rewrite (proj2 (Z.eqb_neq _ 0)), Z.add_0_l, <- Z.pow_add_r by lia. f_equal. lia. }
  assert (2 ^ (149 + t) = 2 ^ 23 * 2 ^ (126 + t)) as E1 by (rewrite <- Z.pow_add_r by lia; f_equal; lia).
  assert (2 ^ 149 = 2 ^ (23 - t) * 2 ^ (126 + t)) as E2 by (rewrite <- Z.pow_add_r by lia; f_equal; lia).
  assert (2 ^ (149 + t) = 2 ^ 149 * 2 ^ t) as E3 by (by rewrite <- Z.pow_add_r by lia).
  pose proof (Z.pow_pos_nonneg 2 (149 + t) ltac:(lia) ltac:(lia)). pose proof (Z.pow_pos_nonneg 2 (126 + t) ltac:(lia) ltac:(lia)).
  rewrite (proj2 (Z.eqb_neq _ 0)) by lia.
  assert (flog2 (v + 2 ^ (149 + t)) (2 ^ 149) = t) as Hl.
  { eapply (between_unique 2 _ (2 ^ 149)); [lia|lia|apply flog2_between; lia|].
    unfold between, below, ppow. rewrite (Z.max_r (- t)), (Z.max_r (- (t + 1))), (Z.max_l t), (Z.max_l (t + 1)) by lia.
    rewrite Z.pow_0_r, (Z.pow_add_r 2 t 1) by lia. change (2 ^ 1) with 2. rewrite E3 in *. lia. }
  unfold encode. rewrite Hl. change (fbias binary32) with 127. change (mant_bits binary32) with 23.
  replace (Z.max t (1 - 127) - 23) with (- (23 - t)) by lia. unfold ppow.
  rewrite Z.opp_involutive, (Z.max_l (23 - t)), (Z.max_r (- (23 - t))), Z.pow_0_r, Z.mul_1_r by lia.
  rewrite E2, (Z.mul_comm (2 ^ (23 - t))), round_div_scale by (try apply Z.pow_pos_nonneg; lia).
  rewrite E1, (Z.add_comm v), round_div_add by (done || lia).
  assert (0 <= round_div v (2 ^ (126 + t)) <= 2 ^ 23) as Hr.
  { pose proof (round_div_bound v (2 ^ (126 + t)) ltac:(lia)). nia. }
  rewrite Z.min_l; [lia|]. change (finf binary32) with (255 * 2 ^ 23). nia.
Qed.

(** ** Lemmas: the conversions compute the rounded quotient *)

Lemma round_div_floor n d : n / d <= round_div n d <= n / d + 1.
Proof. unfold round_div. destruct (_ || _); lia. Qed.

Lemma wrap_signed_small w x : 0 < w -> in_i w x -> wrap_signed w x = x.
Proof. intros. by apply wrap_signed_id_iff. Qed.

(** Exponent of a finite pattern as a signed number. *)
Lemma exp32_of E : 0 <= E < 256 -> i32 (u32 (Z.shiftr (E * 2 ^ 23) 23 - 127)) = E - 127.
Proof.
  intros HE. rewrite Z.shiftr_div_pow2, Z.div_mul by lia. unfold wrap_signed, wrap. change (2 ^ (32 - 1)) with (2 ^ 31). dlia.
Qed.

Section Code.
Context (f : FloatFormat) (Hm : 0 < mant_bits f < 23) (Hb : 0 < fbias f <= 127) (He : 0 < exp_bits f < 9).
Context (g E M : Z) (Hg : g = 0 \/ g = 1) (HM : 0 <= M < 2 ^ 23).

Let s : Z := 23 - mant_bits f.
Let W : Z := exp_bits f + mant_bits f.

Lemma quotient_fields : (E * 2 ^ 23 + M) / 2 ^ s = E * 2 ^ mant_bits f + M / 2 ^ s /\
  (E * 2 ^ 23 + M) mod 2 ^ s = M mod 2 ^ s /\ 0 <= M / 2 ^ s < 2 ^ mant_bits f.
Proof.
  assert (0 < 2 ^ s) as Hs by (apply Z.pow_pos_nonneg; unfold s; lia).
  rewrite (split_23 f Hm) in HM |- *. fold s in HM |- *. rewrite Z.mul_assoc, Z.add_comm, Z.div_add, Z.mod_add by lia.
  split; [lia|]. split; [done|]. split; [apply Z.div_pos; lia|apply Z.div_lt_upper_bound; lia].
Qed.

(** The exponent field of the result, above the subnormals and below the overflow. *)
Context (HE : 128 - fbias f <= E) (HE' : E - (127 - fbias f) < 2 ^ exp_bits f).

Definition packed : Z :=
  Z.lor (Z.lor (g * 2 ^ W) (u32 (Z.shiftl (u32 (E - 127 + fbias f)) (mant_bits f)))) (Z.shiftr M s).

Lemma field_range : 0 <= (E - 127 + fbias f) * 2 ^ mant_bits f + M / 2 ^ s < 2 ^ W.
Proof.
  destruct quotient_fields as (_ & _ & H). unfold W. rewrite Z.pow_add_r by lia.
  pose proof (Z.pow_pos_nonneg 2 (mant_bits f) ltac:(lia) ltac:(lia)). nia.
Qed.

Lemma packed_fields : packed = g * 2 ^ W + ((E - 127 + fbias f) * 2 ^ mant_bits f + M / 2 ^ s).
Proof.
  destruct quotient_fields as (_ & _ & H). pose proof field_range as HR. unfold packed.
  pose proof (Z.pow_pos_nonneg 2 (mant_bits f) ltac:(lia) ltac:(lia)) as Hp.
  assert (2 ^ W <= 2 ^ 30) as HW by (apply Z.pow_le_mono_r; unfold W; lia).
  assert (2 ^ exp_bits f <= 2 ^ 8) as H8 by (apply Z.pow_le_mono_r; lia).
  rewrite (wrap_small 32 (E - 127 + fbias f)) by (unfold in_u; lia).
  rewrite Z.shiftl_mul_pow2, Z.shiftr_div_pow2 by (unfold s; lia).
  rewrite (wrap_small 32) by (unfold in_u; nia).
  rewrite lor_add by (unfold W in *; nia || lia).
  assert (g * 2 ^ W + (E - 127 + fbias f) * 2 ^ mant_bits f =
          (g * 2 ^ exp_bits f + (E - 127 + fbias f)) * 2 ^ mant_bits f) as ->
    by (unfold W; rewrite Z.pow_add_r by lia; ring).
  rewrite lor_add by lia. unfold W. rewrite Z.pow_add_r by lia. ring.
Qed.

Lemma narrow_code (half_bit sticky : Z) : half_bit = 2 ^ (s - 1) -> sticky = 2 ^ (s - 1) - 1 ->
  (if negb (Z.land M half_bit =? 0) && (negb (Z.land M sticky =? 0) || negb (Z.land packed 1 =? 0))
   then u32 (packed + 1) else packed)
  = g * 2 ^ W + (round_div (E * 2 ^ 23 + M) (2 ^ s) - rebias f).
Proof.
  intros -> ->. destruct quotient_fields as (Eq & Em & H). pose proof field_range as HR.
  assert (negb (Z.land packed 1 =? 0) = Z.odd (M / 2 ^ s)) as Ho.
  { change 1 with (Z.ones 1). rewrite Z.land_ones, packed_fields by lia. change (2 ^ 1) with 2.
    rewrite Zmod_odd, !Z.odd_add, !Z.odd_mul, !Z.odd_pow by (unfold W; lia).
    rewrite !andb_false_r, !xorb_false_l. by destruct (Z.odd (M / 2 ^ s)). }
  rewrite round_bits, Ho by (unfold s; lia). unfold round_div. rewrite Eq, Em.
  assert (Z.odd (E * 2 ^ mant_bits f + M / 2 ^ s) = Z.odd (M / 2 ^ s)) as ->.
  { rewrite Z.odd_add, Z.odd_mul, Z.odd_pow by lia. by rewrite andb_false_r, xorb_false_l. }
  assert (2 ^ W <= 2 ^ 30) as HW by (apply Z.pow_le_mono_r; unfold W; lia).
  rewrite packed_fields. unfold rebias. destruct (_ || _); [|ring].
  rewrite wrap_small; [ring|]. unfold in_u. destruct Hg as [-> | ->]; lia.
Qed.
End Code.

Lemma sign_shift g k : 0 <= k <= 31 -> Z.shiftr (g * 2 ^ 31) k = g * 2 ^ (31 - k).
Proof.
  intros Hk. rewrite Z.shiftr_div_pow2 by lia. replace 31 with (31 - k + k) at 1 by lia.
  rewrite Z.pow_add_r, Z.mul_assoc, Z.div_mul by lia. done.
Qed.

Lemma lor_exponent E M : 0 <= M < 2 ^ 23 -> Z.lor (E * 2 ^ 23) M = E * 2 ^ 23 + M.
Proof. intros. apply lor_add; lia. Qed.

(** The shape of a finite binary32 pattern. *)
Record finite32 (x g E M : Z) : Prop := {
  f_sign : g = 0 \/ g = 1; f_exp : 0 <= E < 255; f_frac : 0 <= M < 2 ^ 23;
  f_land_sign : Z.land x 0x80000000 = g * 2 ^ 31;
  f_land_exp : Z.land x 0x7F800000 = E * 2 ^ 23;
  f_land_frac : Z.land x 0x007FFFFF = M }.

Lemma half_code x g E M : finite32 x g E M ->
  fp16_from_fp32_value x =
  g * 2 ^ 15 + (if E <? 113 then 0 else Z.min (round_div (E * 2 ^ 23 + M) (2 ^ 13) - rebias binary16) 0x7C00).
Proof.
  intros [Hg HE HM Es Ee Em]. unfold fp16_from_fp32_value. rewrite Es, Ee, Em, exp32_of, (sign_shift g 16) by lia.
  change (2 ^ (31 - 16)) with (2 ^ 15).
  assert (u16 (g * 2 ^ 15) = g * 2 ^ 15) as Hz by (destruct Hg as [-> | ->]; done).
  assert (u16 (Z.lor (g * 2 ^ 15) 0x7C00) = g * 2 ^ 15 + 0x7C00) as Hinf by (destruct Hg as [-> | ->]; done).
  rewrite Hz, Hinf. replace (E - 127 <? -14) with (E <? 113) by (destruct (Z.ltb_spec E 113), (Z.ltb_spec (E - 127) (-14)); (done || lia)).
  rewrite (proj2 (Z.eqb_neq (E * 2 ^ 23) 0x7F800000)) by lia.
  destruct (Z.ltb_spec E 113) as [|H1]; [destruct (_ && _); lia|].
  rewrite (proj2 (Z.eqb_neq (E * 2 ^ 23) 0)) by lia. cbn [andb].
  destruct (quotient_fields binary16 ltac:(simpl; lia) E M HM) as (Eq & _ & Hq).
  change (2 ^ (23 - mant_bits binary16)) with (2 ^ 13) in *. change (2 ^ mant_bits binary16) with (2 ^ 10) in *.
  pose proof (round_div_floor (E * 2 ^ 23 + M) (2 ^ 13)) as Hrd. rewrite Eq in Hrd.
  change (rebias binary16) with (112 * 2 ^ 10).
  destruct (Z.ltb_spec 15 (E - 127)); [rewrite Z.min_r by lia; done|]. rewrite Z.min_l by lia.
  pose proof (narrow_code binary16 ltac:(simpl; lia) ltac:(vm_compute; split; congruence) ltac:(simpl; lia) g E M
    Hg HM ltac:(change (fbias binary16) with 15; lia) ltac:(change (fbias binary16) with 15; simpl; lia)
    0x00001000 0x00000FFF eq_refl eq_refl) as HC.
  unfold packed in HC. change (fbias binary16) with 15 in HC. cbn [exp_bits mant_bits binary16] in HC.
  change (5 + 10) with 15 in HC. change (23 - 10) with 13 in HC. rewrite HC.
  change (rebias binary16) with (112 * 2 ^ 10). apply wrap_small. unfold in_u. lia.
Qed.

(** Adding just under half a unit, plus one when the kept part is odd, rounds to even. *)
Lemma rounding_bias y s : 0 < s -> (y + (Z.b2z (Z.odd (y / 2 ^ s)) + (2 ^ (s - 1) - 1))) / 2 ^ s = round_div y (2 ^ s).
Proof.
  intros Hs. set (n := s - 1). assert (0 <= n) as Hn by lia. replace s with (Z.succ n) by lia.
  rewrite Z.pow_succ_r by done. pose proof (Z.pow_pos_nonneg 2 n ltac:(lia) Hn) as Hp. unfold round_div.
  pose proof (Z.mod_pos_bound y (2 * 2 ^ n) ltac:(lia)) as Hr. pose proof (Z.div_mod y (2 * 2 ^ n) ltac:(lia)) as Hd.
  set (q := y / (2 * 2 ^ n)) in *. set (r := y mod (2 * 2 ^ n)) in *. symmetry.
  destruct (Z.ltb_spec (2 * 2 ^ n) (2 * r)), (Z.eqb_spec (2 * r) (2 * 2 ^ n)), (Z.odd q); simpl Z.b2z; cbn [andb orb]; try lia;
    first [apply (Z.div_unique_pos _ _ (q + 1) (r + 2 ^ n - 1 - 2 * 2 ^ n)); lia
          |apply (Z.div_unique_pos _ _ (q + 1) (r + 2 ^ n - 2 * 2 ^ n)); lia
          |apply (Z.div_unique_pos _ _ q (r + 2 ^ n - 1)); lia
          |apply (Z.div_unique_pos _ _ q (r + 2 ^ n)); lia].
Qed.

Lemma odd_bit x : Z.land x 1 = Z.b2z (Z.odd x).
Proof. change 1 with (Z.ones 1) at 1. rewrite Z.land_ones by lia. change (2 ^ 1) with 2. rewrite Zmod_odd. by destruct (Z.odd x). Qed.

Lemma land_magnitude x : in_u 32 x -> Z.land x 0x7FFFFFFF = x mod 2 ^ 31.
Proof. intros _. change 0x7FFFFFFF with (Z.ones 31). by rewrite Z.land_ones by lia. Qed.

Lemma bf16_code g y : g = 0 \/ g = 1 -> 0 <= y < 255 * 2 ^ 23 ->
  bf16_from_fp32_value (g * 2 ^ 31 + y) = g * 2 ^ 15 + round_div y (2 ^ 16).
Proof.
  intros Hg Hy. unfold bf16_from_fp32_value, fp32_isnan.
  assert ((g * 2 ^ 31 + y) mod 2 ^ 31 = y) as Em by (symmetry; apply (Z.mod_unique_pos _ _ g); lia).
  rewrite land_magnitude, Em by (unfold in_u; destruct Hg as [-> | ->]; lia).
  rewrite (proj2 (Z.ltb_ge _ _)) by lia. rewrite odd_bit, !Z.shiftr_div_pow2 by lia.
  assert (Z.odd ((g * 2 ^ 31 + y) / 2 ^ 16) = Z.odd (y / 2 ^ 16)) as ->.
  { replace (g * 2 ^ 31 + y) with (y + g * 2 ^ 15 * 2 ^ 16) by ring. rewrite Z.div_add, Z.odd_add, Z.odd_mul by lia.
    by rewrite andb_false_r, xorb_false_r. }
  set (o := Z.b2z (Z.odd (y / 2 ^ 16))). assert (0 <= o <= 1) as Ho by (unfold o; destruct (Z.odd _); simpl; lia).
  rewrite (wrap_small 32 (o + 0x7FFF)) by (unfold in_u; lia).
  rewrite (wrap_small 32) by (unfold in_u; destruct Hg as [-> | ->]; lia).
  replace (g * 2 ^ 31 + y + (o + 0x7FFF)) with (y + (o + (2 ^ (16 - 1) - 1)) + g * 2 ^ 15 * 2 ^ 16) by lia.
  pose proof (rounding_bias y 16 ltac:(lia)) as HR. fold o in HR. rewrite Z.div_add, HR by lia. pose proof (round_div_floor y (2 ^ 16)).
  rewrite Z.add_comm. apply wrap_small. unfold in_u. destruct Hg as [-> | ->]; dlia.
Qed.

(** Magnitudes below [2^k]. *)
Lemma magnitude_below E M k : 0 <= M < 2 ^ 23 -> 0 <= E < k -> 
  0 <= magnitude binary32 (E * 2 ^ 23 + M) < 2 ^ (22 + k).
Proof.
  intros HM HE. assert (magnitude binary32 0 = 0) as E0 by reflexivity.
  assert (magnitude binary32 (k * 2 ^ 23) = 2 ^ (22 + k)) as Ek.
  { rewrite <- (Z.add_0_r (_ * _)). change (2 ^ 23) with (2 ^ mant_bits binary32). rewrite magnitude_fields by (simpl; lia).
    change (mant_bits binary32) with 23. change (fbias binary32) with 127.
    rewrite (proj2 (Z.eqb_neq _ 0)), Z.add_0_l, <- Z.pow_add_r by lia. f_equal. lia. }
  rewrite <- Ek, <- E0 at 1. split; [apply magnitude_le|apply magnitude_lt]; try (vm_compute; congruence); lia.
Qed.

(** What the two 8-bit conversions compute before the overflow value is applied. *)
Definition rounded8 (f : FloatFormat) (E M : Z) : Z :=
  if E <? 128 - fbias f then round_div (magnitude binary32 (E * 2 ^ 23 + M)) (ulp f 0)
  else round_div (E * 2 ^ 23 + M) (2 ^ (23 - mant_bits f)) - rebias f.

(** The addition of a power of two rounds a number below the normal range. *)
Lemma subnormal_code f t E M : 0 <= t < 23 -> 0 < mant_bits f < 7 -> t = 24 - fbias f - mant_bits f -> 0 < fbias f <= 127 ->
  0 <= M < 2 ^ 23 -> 0 <= E < 128 - fbias f ->
  0 <= rounded8 f E M <= 2 ^ mant_bits f /\
  u8 (u32 (fp32_add (E * 2 ^ 23 + M) ((t + 127) * 2 ^ 23) - (t + 127) * 2 ^ 23)) = rounded8 f E M.
Proof.
  intros Ht Hm Et Hb HM HE. pose proof (magnitude_below E M (128 - fbias f) HM HE) as Hv.
  assert (2 ^ (22 + (128 - fbias f)) = 2 ^ mant_bits f * 2 ^ (126 + t)) as Ev
    by (rewrite <- Z.pow_add_r by lia; f_equal; lia).
  assert (ulp f 0 = 2 ^ (126 + t)) as Eu.
  { unfold ulp. rewrite Z.div_0_l by (apply Z.pow_nonzero; lia). f_equal. lia. }
  unfold rounded8. rewrite (proj2 (Z.ltb_lt _ _)), Eu by lia.
  pose proof (Z.pow_pos_nonneg 2 (126 + t) ltac:(lia) ltac:(lia)).
  pose proof (round_div_bound (magnitude binary32 (E * 2 ^ 23 + M)) (2 ^ (126 + t)) ltac:(lia)) as Hrd.
  assert (2 ^ mant_bits f < 2 ^ 7) by (apply Z.pow_lt_mono_r; lia).
  assert (0 <= round_div (magnitude binary32 (E * 2 ^ 23 + M)) (2 ^ (126 + t)) <= 2 ^ mant_bits f) as Hr by nia.
  split; [done|]. rewrite fp32_add_power; [|done|].
  - rewrite Z.add_simpl_l, (wrap_small 32), (wrap_small 8) by (unfold in_u; lia). done.
  - split; [lia|]. etrans; [apply Hv|]. apply Z.pow_lt_mono_r; lia.
Qed.

(** The same, for the normal range of an 8-bit format. *)
Lemma normal_code8 f g E M half_bit sticky : 0 < mant_bits f < 23 -> 0 < fbias f <= 127 -> exp_bits f + mant_bits f = 7 ->
  0 < exp_bits f -> g = 0 \/ g = 1 -> 0 <= M < 2 ^ 23 -> 128 - fbias f <= E -> E - (127 - fbias f) < 2 ^ exp_bits f ->
  rounded8 f E M < 128 -> half_bit = 2 ^ (23 - mant_bits f - 1) -> sticky = 2 ^ (23 - mant_bits f - 1) - 1 ->
  let packed := Z.lor (Z.lor (g * 2 ^ 7) (u32 (Z.shiftl (u32 (E - 127 + fbias f)) (mant_bits f))))
                  (Z.shiftr M (23 - mant_bits f)) in
  u8 (if negb (Z.land M half_bit =? 0) && (negb (Z.land M sticky =? 0) || negb (Z.land packed 1 =? 0))
      then u32 (packed + 1) else packed) = g * 2 ^ 7 + rounded8 f E M.
Proof.
  intros Hm Hb HW He Hg HM HE HE' Hr Hh Hs.
  pose proof (narrow_code f Hm Hb ltac:(lia) g E M Hg HM HE HE' half_bit sticky Hh Hs) as HC.
  pose proof (field_range f Hm Hb ltac:(lia) E M HM HE HE') as HF.
  destruct (quotient_fields f Hm E M HM) as (Eq & _ & _).
  unfold packed in HC. rewrite HW in HC. intros packed. subst packed. rewrite HC.
  unfold rounded8 in *. rewrite (proj2 (Z.ltb_ge _ _)) in * by lia.
  apply wrap_small. unfold in_u, rebias in *. pose proof (round_div_floor (E * 2 ^ 23 + M) (2 ^ (23 - mant_bits f))).
  destruct Hg as [-> | ->]; lia.
Qed.

Lemma lor_sign8 g r : 0 <= r < 128 -> Z.lor r (g * 2 ^ 7) = g * 2 ^ 7 + r.
Proof. intros. rewrite Z.lor_comm. apply lor_add; lia. Qed.

Lemma zero_rounds f : 0 < mant_bits f < 7 -> 0 < fbias f < 128 -> rounded8 f 0 0 = 0.
Proof.
  intros Hm Hb. unfold rounded8. rewrite (proj2 (Z.ltb_lt _ _)) by lia.
  change (magnitude binary32 (0 * 2 ^ 23 + 0)) with 0. unfold round_div.
  pose proof (ulp_pos f ltac:(lia) ltac:(lia) 0). rewrite Z.div_0_l, Z.mod_0_l by lia. cbn [Z.odd]. rewrite andb_false_r.
  by rewrite (proj2 (Z.ltb_ge _ _)) by lia.
Qed.

Lemma e4m3_code x g E M : finite32 x g E M ->
  fp8e4m3fn_from_fp32_value x = g * 2 ^ 7 + Z.min (rounded8 e4m3 E M) 0x7F.
Proof.
  intros [Hg HE HM Es Ee Em]. unfold fp8e4m3fn_from_fp32_value. rewrite Es, Ee, Em, exp32_of, (sign_shift g 24), lor_exponent by lia.
  change (2 ^ (31 - 24)) with (2 ^ 7). change (Z.shiftl 121 23) with (121 * 2 ^ 23). change (Z.shiftl 141 23) with ((14 + 127) * 2 ^ 23).
  assert (u8 (g * 2 ^ 7) = g * 2 ^ 7) as Hz by (destruct Hg as [-> | ->]; done).
  assert (u8 (Z.lor (g * 2 ^ 7) 0x7F) = g * 2 ^ 7 + 0x7F) as Hinf by (destruct Hg as [-> | ->]; done).
  rewrite Hz, Hinf, (proj2 (Z.eqb_neq (E * 2 ^ 23) 0x7F800000)) by lia. cbn [orb].
  destruct (Z.lt_ge_cases E 121) as [H1|H1].
  - destruct (subnormal_code e4m3 14 E M) as [Hr Hc]; try done; [change (128 - fbias e4m3) with 121; lia|].
    change (2 ^ mant_bits e4m3) with 8 in Hr. rewrite Hc, lor_sign8, Z.min_l by lia.
    destruct (Z.eqb_spec (E * 2 ^ 23) 0), (Z.eqb_spec M 0) as [->|]; cbn [andb];
      [assert (E = 0) as -> by lia; symmetry; apply Z.add_0_r|..];
      by rewrite (proj2 (Z.leb_gt _ _)), (proj2 (Z.ltb_lt _ _)) by lia.
  - rewrite (proj2 (Z.eqb_neq (E * 2 ^ 23) 0)) by lia. cbn [andb].
    pose proof (round_div_floor (E * 2 ^ 23 + M) (2 ^ 20)) as Hrd.
    assert (rounded8 e4m3 E M = round_div (E * 2 ^ 23 + M) (2 ^ 20) - 960) as ER.
    { unfold rounded8. change (128 - fbias e4m3) with 121. by rewrite (proj2 (Z.ltb_ge _ _)) by lia. }
    destruct (Z.leb_spec 0x43F00000 (E * 2 ^ 23 + M)) as [H2|H2]; [rewrite Z.min_r by dlia; done|].
    rewrite (proj2 (Z.ltb_ge _ _)) by lia. rewrite Z.min_l by dlia.
    apply (normal_code8 e4m3 g E M); try done; change (fbias e4m3) with 7; cbn [exp_bits e4m3]; dlia.
Qed.

Lemma e5m2_code x g E M : finite32 x g E M ->
  fp8e5m2_from_fp32_value x = g * 2 ^ 7 + Z.min (rounded8 e5m2 E M) 0x7C.
Proof.
  intros [Hg HE HM Es Ee Em]. unfold fp8e5m2_from_fp32_value. rewrite Es, Ee, Em, exp32_of, (sign_shift g 24), lor_exponent by lia.
  change (2 ^ (31 - 24)) with (2 ^ 7). change (Z.shiftl 113 23) with (113 * 2 ^ 23). change (Z.shiftl 134 23) with ((7 + 127) * 2 ^ 23).
  assert (u8 (g * 2 ^ 7) = g * 2 ^ 7) as Hz by (destruct Hg as [-> | ->]; done).
  assert (u8 (Z.lor (g * 2 ^ 7) 0x7C) = g * 2 ^ 7 + 0x7C) as Hinf by (destruct Hg as [-> | ->]; done).
  rewrite Hz, Hinf, (proj2 (Z.eqb_neq (E * 2 ^ 23) 0x7F800000)) by lia.
  destruct (Z.lt_ge_cases E 113) as [H1|H1].
  - destruct (subnormal_code e5m2 7 E M) as [Hr Hc]; try done; [change (128 - fbias e5m2) with 113; lia|].
    change (2 ^ mant_bits e5m2) with 4 in Hr. rewrite Hc, lor_sign8, Z.min_l by lia.
    destruct (Z.eqb_spec (E * 2 ^ 23) 0), (Z.eqb_spec M 0) as [->|]; cbn [andb];
      [assert (E = 0) as -> by lia; symmetry; apply Z.add_0_r|..];
      by rewrite (proj2 (Z.leb_gt _ _)), (proj2 (Z.ltb_lt _ _)) by lia.
  - rewrite (proj2 (Z.eqb_neq (E * 2 ^ 23) 0)) by lia. cbn [andb].
    pose proof (round_div_floor (E * 2 ^ 23 + M) (2 ^ 21)) as Hrd.
    assert (rounded8 e5m2 E M = round_div (E * 2 ^ 23 + M) (2 ^ 21) - 448) as ER.
    { unfold rounded8. change (128 - fbias e5m2) with 113. by rewrite (proj2 (Z.ltb_ge _ _)) by lia. }
    destruct (Z.leb_spec 0x47800000 (E * 2 ^ 23 + M)) as [H2|H2].
    { rewrite (proj2 (Z.ltb_ge _ _)) by lia. rewrite Z.min_r by dlia. done. }
    rewrite (proj2 (Z.ltb_ge _ _)) by lia. rewrite Z.min_l by dlia.
    apply (normal_code8 e5m2 g E M); try done; change (fbias e5m2) with 15; cbn [exp_bits e5m2]; dlia.
Qed.

(** ** Lemmas: special values *)

Lemma fp32_cases x : in_u 32 x ->
  (exists g E M, finite32 x g E M /\ x = g * 2 ^ 31 + (E * 2 ^ 23 + M)) \/
  (exists g M, (g = 0 \/ g = 1) /\ 0 <= M < 2 ^ 23 /\ x = g * 2 ^ 31 + (255 * 2 ^ 23 + M) /\
    Z.land x 0x80000000 = g * 2 ^ 31 /\ Z.land x 0x7F800000 = 0x7F800000 /\ Z.land x 0x007FFFFF = M).
Proof.
  intros Hx. destruct (fp32_fields x Hx) as (g & E & M & Hg & HE & HM & Ex & Hs & He & Hf).
  destruct (Z.eq_dec E 255) as [->|]; [right; by exists g, M|left].
  exists g, E, M. split; [split; (done || lia)|done].
Qed.

(** ** Lemmas: widening *)

(** Exhaustive checks over short ranges of patterns. *)
Fixpoint all_from (k : nat) (z : Z) (P : Z -> bool) : bool :=
  match k with O => true | S k' => P z && all_from k' (z + 1) P end.

Lemma all_from_spec k : forall z P, all_from k z P = true -> forall x, z <= x < z + Z.of_nat k -> P x = true.
Proof.
  induction k as [|k IH]; intros z P H x Hx; simpl in H; [lia|]. apply andb_true_iff in H as [H0 H].
  destruct (Z.eq_dec x z) as [->|]; [done|]. apply (IH (z + 1)); [done|lia].
Qed.

(** [to] maps the numbers of the format below [top] to equal binary32 numbers, sign
    included. *)
Definition widens (f : FloatFormat) (top W : Z) (to : Z -> Z) : Prop :=
  forall g p, g = 0 \/ g = 1 -> 0 <= p < top -> exists y,
    0 <= y < finf binary32 /\ to (g * 2 ^ W + p) = g * 2 ^ 31 + y /\ magnitude binary32 y = magnitude f p.

(** One pattern, checked by evaluation. *)
Definition widens_at (f : FloatFormat) (W : Z) (to : Z -> Z) (p : Z) : bool :=
  (to (2 ^ W + p) =? 2 ^ 31 + to p) && (0 <=? to p) && (to p <? finf binary32) &&
  (magnitude binary32 (to p) =? magnitude f p).

Lemma widens_at_spec f W to p g : g = 0 \/ g = 1 -> widens_at f W to p = true -> exists y,
  0 <= y < finf binary32 /\ to (g * 2 ^ W + p) = g * 2 ^ 31 + y /\ magnitude binary32 y = magnitude f p.
Proof.
  intros Hg H. unfold widens_at in H. rewrite !andb_true_iff, !Z.eqb_eq, Z.leb_le, Z.ltb_lt in H.
  destruct H as (((H1 & H2) & H3) & H4). exists (to p). split; [done|]. split; [|done].
  destruct Hg as [-> | ->]; rewrite ?Z.mul_0_l, ?Z.add_0_l, ?Z.mul_1_l; done.
Qed.

Lemma widens_by_check f top W to : 0 <= top -> all_from (Z.to_nat top) 0 (widens_at f W to) = true -> widens f top W to.
Proof.
  intros Ht H g p Hg Hp. apply widens_at_spec; [done|]. apply (all_from_spec _ _ _ H). lia.
Qed.

Lemma e4m3_widens : widens e4m3 0x7F 7 fp8e4m3fn_to_fp32_bits.
Proof. apply widens_by_check; [lia|]. vm_compute. reflexivity. Qed.
Lemma e5m2_widens : widens e5m2 0x7C 7 fp8e5m2_to_fp32_bits.
Proof. apply widens_by_check; [lia|]. vm_compute. reflexivity. Qed.

Lemma bf16_widens : widens bfloat16 0x7F80 15 bf16_to_fp32_value.
Proof.
  intros g p Hg Hp. exists (p * 2 ^ 16). unfold bf16_to_fp32_value. rewrite Z.shiftl_mul_pow2 by lia.
  split; [change (finf binary32) with (255 * 2 ^ 23); lia|]. split.
  - rewrite wrap_small; [ring|]. unfold in_u. destruct Hg as [-> | ->]; lia.
  - rewrite <- (widen_magnitude bfloat16 ltac:(simpl; lia) ltac:(vm_compute; split; congruence)) by (try (by right); lia).
    f_equal. change (rebias bfloat16) with 0. change (2 ^ (23 - mant_bits bfloat16)) with (2 ^ 16). ring.
Qed.

Lemma half_subnormals : all_from 1024 0 (widens_at binary16 15 fp16_to_fp32_bits) = true.
Proof. vm_compute. reflexivity. Qed.

Lemma half_normal g p : g = 0 \/ g = 1 -> 2 ^ 10 <= p < 0x7C00 ->
  fp16_to_fp32_bits (g * 2 ^ 15 + p) = g * 2 ^ 31 + (p + 112 * 2 ^ 10) * 2 ^ 13.
Proof.
  intros Hg Hp. unfold fp16_to_fp32_bits. set (h := g * 2 ^ 15 + p).
  assert (in_u 16 h) as Hh by (unfold in_u, h; destruct Hg as [-> | ->]; lia). unfold in_u in Hh.
  rewrite Z.shiftl_mul_pow2, (wrap_small 32) by (unfold in_u; lia).
  assert (forall k n, 0 <= k -> 0 <= n -> Z.land (h * 2 ^ 16) (Z.ones n * 2 ^ (16 + k)) = h / 2 ^ k mod 2 ^ n * 2 ^ (16 + k)) as HL.
  { intros k n Hk Hn. rewrite land_field by lia. rewrite Z.pow_add_r, <- Z.div_div, Z.div_mul by lia. done. }
  pose proof (HL 10 5 ltac:(lia) ltac:(lia)) as HE. change (Z.ones 5 * 2 ^ (16 + 10)) with 0x7C000000 in HE. rewrite HE.
  change 0x80000000 with (Z.ones 1 * 2 ^ (16 + 15)). rewrite HL by lia.
  assert (h / 2 ^ 15 mod 2 ^ 1 = g) as -> by (unfold h; destruct Hg as [-> | ->]; dlia).
  assert (h / 2 ^ 10 mod 2 ^ 5 = p / 2 ^ 10) as -> by (unfold h; destruct Hg as [-> | ->]; dlia).
  change (2 ^ (16 + 15)) with (2 ^ 31). change (2 ^ (16 + 10)) with (2 ^ 26).
  assert (1 <= p / 2 ^ 10 < 31) as Hq by dlia.
  rewrite (proj2 (Z.eqb_neq _ 0)) by lia. cbn [andb]. rewrite (proj2 (Z.eqb_neq _ 0x7C000000)) by lia.
  change 0x7FFFFFFF with (Z.ones 31). rewrite Z.land_ones by lia.
  assert ((h * 2 ^ 16) mod 2 ^ 31 = p * 2 ^ 16) as -> by (unfold h; destruct Hg as [-> | ->]; dlia).
  assert (countl_zero32 (p * 2 ^ 16) <= 5) as Hc.
  { unfold countl_zero32. rewrite (proj2 (Z.eqb_neq _ 0)) by lia. pose proof (Z.log2_le_mono (2 ^ 26) (p * 2 ^ 16) ltac:(lia)) as H.
    rewrite Z.log2_pow2 in H by lia. lia. }
  rewrite (proj2 (Z.ltb_ge _ _)) by lia. rewrite Z.shiftl_0_r, (wrap_small 32 (p * 2 ^ 16)) by (unfold in_u; lia).
  rewrite Z.shiftr_div_pow2 by lia. replace (p * 2 ^ 16 / 2 ^ 3) with (p * 2 ^ 13) by dlia.
  change (u32 (Z.shiftl (0x70 - 0) 23)) with (112 * 2 ^ 23). rewrite (wrap_small 32) by (unfold in_u; lia).
  rewrite lor_add by lia. lia.
Qed.

Lemma half_widens : widens binary16 0x7C00 15 fp16_to_fp32_bits.
Proof.
  intros g p Hg Hp. destruct (Z.lt_ge_cases p 1024) as [H|H].
  - apply widens_at_spec; [done|]. apply (all_from_spec _ _ _ half_subnormals). simpl. lia.
  - exists ((p + 112 * 2 ^ 10) * 2 ^ 13). split; [change (finf binary32) with (255 * 2 ^ 23); lia|].
    split; [apply half_normal; (done || lia)|].
    apply (widen_magnitude binary16 ltac:(simpl; lia) ltac:(vm_compute; split; congruence) p); [lia|]. left. simpl. lia.
Qed.

(** ** Lemmas: narrowing *)

(** [from] rounds every finite binary32 number to the nearest one of the format, ties to
    even; numbers past the range give [top], as infinities do; magnitudes below the
    pattern [flush] give zero; a NaN gives a NaN, at or above [nan]. The sign is kept
    (for NaNs, a sign is chosen). *)
Definition narrows (f : FloatFormat) (top nan flush W : Z) (from : Z -> Z) : Prop :=
  (forall g y, g = 0 \/ g = 1 -> 0 <= y < finf binary32 ->
    (y < flush -> from (g * 2 ^ 31 + y) = g * 2 ^ W) /\
    (flush <= y -> exists r, nearest_even f (magnitude binary32 y) r /\
      from (g * 2 ^ 31 + y) = g * 2 ^ W + Z.min r top)) /\
  (forall g, g = 0 \/ g = 1 -> from (g * 2 ^ 31 + finf binary32) = g * 2 ^ W + top) /\
  (forall g M, g = 0 \/ g = 1 -> finf binary32 < M < 2 ^ 31 -> exists g' p,
    (g' = 0 \/ g' = 1) /\ nan <= p < 2 ^ W /\ from (g * 2 ^ 31 + M) = g' * 2 ^ W + p).

Lemma finite_fields g y : g = 0 \/ g = 1 -> 0 <= y < finf binary32 ->
  exists E M, y = E * 2 ^ 23 + M /\ finite32 (g * 2 ^ 31 + y) g E M.
Proof.
  intros Hg Hy. change (finf binary32) with (255 * 2 ^ 23) in Hy.
  destruct (fp32_cases (g * 2 ^ 31 + y)) as [(g' & E & M & HF & Ex)|(g' & M & Hg' & HM & Ex & _)].
  - unfold in_u. destruct Hg as [-> | ->]; lia.
  - destruct HF as [Hg' HE HM Hs He Hf]. assert (g' = g) as -> by (destruct Hg as [-> | ->], Hg' as [-> | ->]; lia).
    exists E, M. split; [lia|]. by split.
  - destruct Hg as [-> | ->], Hg' as [-> | ->]; lia.
Qed.

Lemma special_fields g M : g = 0 \/ g = 1 -> finf binary32 <= M < 2 ^ 31 ->
  let x := g * 2 ^ 31 + M in
  Z.land x 0x80000000 = g * 2 ^ 31 /\ Z.land x 0x7F800000 = 0x7F800000 /\ Z.land x 0x007FFFFF = M - finf binary32 /\
  Z.land x 0x7FFFFFFF = M.
Proof.
  intros Hg HM x. change (finf binary32) with (255 * 2 ^ 23) in *.
  assert (in_u 32 x) as Hx by (unfold in_u, x; destruct Hg as [-> | ->]; lia).
  rewrite land_magnitude by done.
  destruct (fp32_cases x Hx) as [(g' & E & M' & [Hg' HE HM' _ _ _] & Ex)|(g' & M' & Hg' & HM' & Ex & -> & -> & ->)].
  - exfalso. unfold x in *. destruct Hg as [-> | ->], Hg' as [-> | ->]; lia.
  - unfold x in *. assert (g' = g) as -> by (destruct Hg as [-> | ->], Hg' as [-> | ->]; lia).
    repeat split; [lia|]. symmetry. apply (Z.mod_unique_pos _ _ g); lia.
Qed.

Lemma rounded8_nearest f E M : 0 < mant_bits f < 7 -> 0 < fbias f <= 127 -> 0 <= M < 2 ^ 23 -> 0 <= E ->
  nearest_even f (magnitude binary32 (E * 2 ^ 23 + M)) (rounded8 f E M).
Proof.
  intros Hm Hb HM HE. unfold rounded8. destruct (Z.ltb_spec E (128 - fbias f)) as [H|H].
  - apply narrow_subnormal; [lia|lia|]. pose proof (magnitude_below E M (128 - fbias f) HM ltac:(lia)) as Hv.
    assert (2 ^ (22 + (128 - fbias f)) = 2 ^ mant_bits f * ulp f 0) as <-; [|done].
    unfold ulp. rewrite Z.div_0_l, <- Z.pow_add_r by (try apply Z.pow_nonzero; lia). f_equal. lia.
  - pose proof (quotient_fields f ltac:(lia) E M HM) as (Eq & _ & Hq).
    pose proof (Z.pow_pos_nonneg 2 (mant_bits f) ltac:(lia) ltac:(lia)).
    apply narrow_normal; [lia|lia|lia| |left]; rewrite Eq; unfold rebias; nia.
Qed.

Lemma half_narrows : narrows binary16 0x7C00 0x7C01 (113 * 2 ^ 23) 15 fp16_from_fp32_value.
Proof.
  split; [|split].
  - intros g y Hg Hy. destruct (finite_fields g y Hg Hy) as (E & M & -> & HF). rewrite (half_code _ g E M HF).
    pose proof (f_exp _ _ _ _ HF) as HE. pose proof (f_frac _ _ _ _ HF) as HM. split; intros H.
    + rewrite (proj2 (Z.ltb_lt _ _)) by lia. lia.
    + rewrite (proj2 (Z.ltb_ge _ _)) by lia. eexists. split; [|done].
      destruct (quotient_fields binary16 ltac:(simpl; lia) E M HM) as (Eq & _ & Hq).
      apply (narrow_normal binary16); [simpl; lia|vm_compute; split; congruence|lia| |left];
        rewrite Eq; change (rebias binary16) with (112 * 2 ^ 10); cbn [mant_bits binary16] in *; lia.
  - intros g [-> | ->]; reflexivity.
  - intros g M Hg HM. destruct (special_fields g M Hg ltac:(lia)) as (Es & Ee & Ef & _).
    change (finf binary32) with (255 * 2 ^ 23) in *. unfold fp16_from_fp32_value. rewrite Es, Ee, Ef.
    set (m := M - 255 * 2 ^ 23) in *. assert (0 < m < 2 ^ 23) as Hm by (unfold m; lia).
    change (0x7F800000 =? 0) with false. rewrite Z.eqb_refl, (proj2 (Z.eqb_neq m 0)), (sign_shift g 16) by lia. cbn [andb].
    rewrite Z.shiftr_div_pow2 by lia. assert (0 <= m / 2 ^ 13 < 2 ^ 10) as Hq by dlia.
    rewrite (wrap_small 16 (m / _)) by (unfold in_u; lia). change (2 ^ (31 - 16)) with (2 ^ 15).
    set (n := if m / 2 ^ 13 =? 0 then 0x200 else Z.lor (m / 2 ^ 13) 0x200).
    assert (0 < n < 2 ^ 10) as Hn.
    { unfold n. destruct (Z.eqb_spec (m / 2 ^ 13) 0); [lia|]. split; [|].
      - pose proof (Z.lor_nonneg (m / 2 ^ 13) 0x200) as [_ H]. specialize (H ltac:(lia)).
        destruct (Z.eq_dec (Z.lor (m / 2 ^ 13) 0x200) 0) as [E0|]; [|lia]. by apply Z.lor_eq_0_l in E0.
      - apply Z.log2_lt_cancel. rewrite Z.log2_lor, Z.log2_pow2 by lia. apply Z.max_lub_lt; [|reflexivity].
        apply Z.log2_lt_pow2; lia. }
    assert (Z.lor (g * 2 ^ 15) 0x7C00 = (g * 2 ^ 5 + 31) * 2 ^ 10) as -> by (destruct Hg as [-> | ->]; done).
    rewrite lor_add by lia. exists g, (0x7C00 + n). split; [done|]. split; [lia|].
    rewrite wrap_small by (unfold in_u; destruct Hg as [-> | ->]; lia). lia.
Qed.

Lemma bf16_narrows : narrows bfloat16 0x7F80 0x7F81 0 15 bf16_from_fp32_value.
Proof.
  split; [|split].
  - intros g y Hg Hy. change (finf binary32) with (255 * 2 ^ 23) in Hy. split; [lia|]. intros _.
    rewrite bf16_code by done. exists (round_div y (2 ^ 16)). pose proof (round_div_floor y (2 ^ 16)) as Hr.
    split; [|rewrite Z.min_l by dlia; done].
    pose proof (narrow_normal bfloat16 ltac:(simpl; lia) ltac:(vm_compute; split; congruence) y) as HN.
    change (rebias bfloat16) with 0 in HN. rewrite Z.sub_0_r in HN. apply HN; [lia|apply Z.div_pos; simpl; lia|by right].
  - intros g [-> | ->]; reflexivity.
  - intros g M Hg HM. destruct (special_fields g M Hg ltac:(lia)) as (_ & _ & _ & E).
    unfold bf16_from_fp32_value, fp32_isnan. rewrite E, (proj2 (Z.ltb_lt _ _)) by (change (finf binary32) with 0x7F800000 in HM; lia).
    exists 0, 0x7FC0. split; [by left|]. split; [lia|done].
Qed.

Lemma e4m3_narrows : narrows e4m3 0x7F 0x7F 0 7 fp8e4m3fn_from_fp32_value.
Proof.
  split; [|split].
  - intros g y Hg Hy. split; [lia|]. intros _. destruct (finite_fields g y Hg Hy) as (E & M & -> & HF).
    exists (rounded8 e4m3 E M). split; [|by apply e4m3_code].
    apply rounded8_nearest; [simpl; lia|vm_compute; split; congruence|apply HF|apply HF].
  - intros g [-> | ->]; reflexivity.
  - intros g M Hg HM. destruct (special_fields g M Hg ltac:(lia)) as (Es & Ee & Ef & _).
    unfold fp8e4m3fn_from_fp32_value. rewrite Es, Ee. exists g, 0x7F. split; [done|]. split; [lia|].
    change (0x7F800000 =? 0) with false. cbn [andb orb Z.eqb Pos.eqb].
    destruct Hg as [-> | ->]; reflexivity.
Qed.

Lemma e5m2_narrows : narrows e5m2 0x7C 0x7D 0 7 fp8e5m2_from_fp32_value.
Proof.
  split; [|split].
  - intros g y Hg Hy. split; [lia|]. intros _. destruct (finite_fields g y Hg Hy) as (E & M & -> & HF).
    exists (rounded8 e5m2 E M). split; [|by apply e5m2_code].
    apply rounded8_nearest; [simpl; lia|vm_compute; split; congruence|apply HF|apply HF].
  - intros g [-> | ->]; reflexivity.
  - intros g M Hg HM. destruct (special_fields g M Hg ltac:(lia)) as (Es & Ee & Ef & _).
    unfold fp8e5m2_from_fp32_value. rewrite Es, Ee, Ef. exists g, 0x7E. split; [done|]. split; [lia|].
    change (0x7F800000 =? 0) with false. rewrite Z.eqb_refl, (proj2 (Z.eqb_neq _ 0)) by lia. cbn [andb].
    destruct Hg as [-> | ->]; reflexivity.
Qed.

(** Rounding a widened number gives it back. *)
Lemma widen_narrow f top nan flush W to from g p :
  0 <= mant_bits f -> fbias f + mant_bits f <= 150 -> widens f top W to -> narrows f top nan flush W from ->
  g = 0 \/ g = 1 -> 0 <= p < top -> magnitude binary32 flush <= magnitude f p \/ flush = 0 -> 0 <= flush ->
  from (to (g * 2 ^ W + p)) = g * 2 ^ W + p.
Proof.
  intros Hm Hb Hw (Hn & _ & _) Hg Hp Hf Hf0. destruct (Hw g p Hg Hp) as (y & Hy & -> & Ey).
  destruct (Hn g y Hg Hy) as [_ H]. destruct H as (r & Hr & ->).
  - destruct Hf as [Hf| ->]; [|lia]. rewrite <- Ey in Hf.
    destruct (Z.le_gt_cases flush y); [done|]. pose proof (magnitude_lt binary32 ltac:(vm_compute; congruence) ltac:(vm_compute; congruence) y flush). lia.
  - rewrite Ey in Hr. apply nearest_unique in Hr as ->; [|lia..]. by rewrite Z.min_l by lia.
Qed.

(** ** Lemmas: the reference narrowing of E4M3FN *)

Lemma lxor_sign g y : g = 0 \/ g = 1 -> 0 <= y < 2 ^ 31 -> Z.lxor (g * 2 ^ 31 + y) (g * 2 ^ 31) = y.
Proof.
  intros Hg Hy. rewrite <- (lor_add g y 31), Z.lor_comm by lia.
  rewrite <- Z.lxor_lor, Z.lxor_assoc, Z.lxor_nilpotent, Z.lxor_0_r; [done|].
  destruct Hg as [-> | ->]; [apply Z.land_0_r|]. change (1 * 2 ^ 31) with (Z.ones 1 * 2 ^ 31). rewrite land_field by lia.
  rewrite Z.div_small by lia. done.
Qed.

(** Rebiasing and rounding in one wrapping addition. *)
Lemma bias_rebias y : 121 * 2 ^ 23 <= y < 0x43F00000 ->
  let o := u8 (Z.land (Z.shiftr y 20) 1) in
  0 <= round_div y (2 ^ 20) - 960 < 128 /\
  u8 (Z.shiftr (u32 (u32 (y + u32 (u32 (Z.shiftl (u32 (7 - 127)) 23) + 0x7FFFF)) + o)) 20) = round_div y (2 ^ 20) - 960.
Proof.
  intros Hy. cbv zeta. assert (968 <= y / 2 ^ 20 <= 1086) as Hq by dlia. pose proof (round_div_floor y (2 ^ 20)) as Hrd.
  rewrite odd_bit, !Z.shiftr_div_pow2 by lia. pose proof (rounding_bias y 20 ltac:(lia)) as HR.
  set (b := Z.b2z (Z.odd (y / 2 ^ 20))) in *. assert (0 <= b <= 1) as Ho by (unfold b; destruct (Z.odd _); simpl; lia).
  rewrite (wrap_small 8 b) by (unfold in_u; lia). split; [lia|].
  change (u32 (u32 (Z.shiftl (u32 (7 - 127)) 23) + 0x7FFFF)) with (2 ^ 32 - 960 * 2 ^ 20 + 0x7FFFF).
  replace (u32 (y + (2 ^ 32 - 960 * 2 ^ 20 + 0x7FFFF))) with (y - 960 * 2 ^ 20 + 0x7FFFF)
    by (unfold wrap; apply (Z.mod_unique_pos _ _ 1); lia).
  rewrite (wrap_small 32) by (unfold in_u; lia).
  replace (y - 960 * 2 ^ 20 + 0x7FFFF + b) with (y + (b + (2 ^ (20 - 1) - 1)) + (- 960) * 2 ^ 20) by lia.
  rewrite Z.div_add, HR by lia. rewrite (wrap_small 8) by (unfold in_u; lia). lia.
Qed.

Lemma bk_code g E M : g = 0 \/ g = 1 -> 0 <= E < 256 -> 0 <= M < 2 ^ 23 ->
  fp8e4m3fn_from_fp32_value_bk (g * 2 ^ 31 + (E * 2 ^ 23 + M)) =
  g * 2 ^ 7 + (if 0x43F00000 <=? E * 2 ^ 23 + M then 0x7F else rounded8 e4m3 E M).
Proof.
  intros Hg HE HM. set (y := E * 2 ^ 23 + M).
  assert (Z.land (g * 2 ^ 31 + y) 0x80000000 = g * 2 ^ 31) as Hs.
  { change 0x80000000 with (Z.ones 1 * 2 ^ 31). rewrite land_field by lia. f_equal.
    unfold y. destruct Hg as [-> | ->]; dlia. }
  unfold fp8e4m3fn_from_fp32_value_bk. rewrite Hs, lxor_sign, (sign_shift g 24) by (unfold y; (done || lia)).
  change (2 ^ (31 - 24)) with (2 ^ 7). change (Z.shiftl 1087 20) with 0x43F00000.
  change (Z.shiftl 121 23) with (121 * 2 ^ 23). change (Z.shiftl 141 23) with ((14 + 127) * 2 ^ 23).
  assert (u8 (g * 2 ^ 7) = g * 2 ^ 7) as -> by (destruct Hg as [-> | ->]; done).
  assert (forall r, 0 <= r < 128 -> u8 (Z.lor r (g * 2 ^ 7)) = g * 2 ^ 7 + r) as HO.
  { intros r Hr. rewrite lor_sign8 by done. apply wrap_small. unfold in_u. destruct Hg as [-> | ->]; lia. }
  destruct (Z.leb_spec 0x43F00000 y) as [|H0]; [apply HO; lia|]. destruct (Z.ltb_spec y (121 * 2 ^ 23)) as [H1|H1].
  - destruct (subnormal_code e4m3 14 E M) as [Hr Hc]; try done; [change (128 - fbias e4m3) with 121; unfold y in *; lia|].
    change (2 ^ mant_bits e4m3) with 8 in Hr. fold y in Hc. rewrite Hc, HO by lia. done.
  - destruct (bias_rebias y ltac:(lia)) as [Hr Hc]. rewrite Hc, HO by done. f_equal. unfold rounded8.
    change (128 - fbias e4m3) with 121. by rewrite (proj2 (Z.ltb_ge _ _)) by (unfold y in *; lia).
Qed.

Lemma e4m3_saturates E M : 0 <= M < 2 ^ 23 -> 0 <= E < 255 ->
  Z.min (rounded8 e4m3 E M) 0x7F = if 0x43F00000 <=? E * 2 ^ 23 + M then 0x7F else rounded8 e4m3 E M.
Proof.
  intros HM HE. pose proof (round_div_floor (E * 2 ^ 23 + M) (2 ^ 20)) as Hrd.
  destruct (Z.lt_ge_cases E 121) as [H1|H1].
  - destruct (subnormal_code e4m3 14 E M) as [Hr Hc]; try done; [change (128 - fbias e4m3) with 121; lia|].
    change (2 ^ mant_bits e4m3) with 8 in Hr. rewrite (proj2 (Z.leb_gt _ _)) by lia. lia.
  - assert (rounded8 e4m3 E M = round_div (E * 2 ^ 23 + M) (2 ^ 20) - 960) as ->.
    { unfold rounded8. change (128 - fbias e4m3) with 121. by rewrite (proj2 (Z.ltb_ge _ _)) by lia. }
    destruct (Z.leb_spec 0x43F00000 (E * 2 ^ 23 + M)); [apply Z.min_r|apply Z.min_l]; dlia.
Qed.

(** ** Properties *)

(** C38: Conversion to the reduced types is correctly rounded. For [Half],
    [BFloat16], [Float8_e4m3fn] and [Float8_e5m2], the bit manipulation (and, for 8-bit
    subnormals, the addition of a power of two) sends every finite binary32 number to the
    number of the format nearest to it, ties to even, subnormals included; results past
    the largest finite number become infinity ([Float8_e4m3fn]: NaN), infinities and NaNs
    map to themselves, and the sign is kept. [Half] alone sends everything below its
    smallest normal number to zero. *)
Theorem narrowing_nearest_even :
  narrows binary16 0x7C00 0x7C01 (113 * 2 ^ 23) 15 fp16_from_fp32_value /\
  narrows bfloat16 0x7F80 0x7F81 0 15 bf16_from_fp32_value /\
  narrows e4m3 0x7F 0x7F 0 7 fp8e4m3fn_from_fp32_value /\
  narrows e5m2 0x7C 0x7D 0 7 fp8e5m2_from_fp32_value.
Proof. split; [apply half_narrows|]. split; [apply bf16_narrows|]. split; [apply e4m3_narrows|apply e5m2_narrows]. Qed.

(** Conversion to [float] is exact, and converting back restores every number of
    the format with its sign: all finite patterns of [BFloat16] and of the 8-bit types,
    and the zeros and normal numbers of [Half]; the subnormal numbers of [Half] come back
    as zeros. *)
Theorem reduced_roundtrip :
  (widens binary16 0x7C00 15 fp16_to_fp32_bits /\ widens bfloat16 0x7F80 15 bf16_to_fp32_value /\
   widens e4m3 0x7F 7 fp8e4m3fn_to_fp32_bits /\ widens e5m2 0x7C 7 fp8e5m2_to_fp32_bits) /\
  forall g p, g = 0 \/ g = 1 -> 0 <= p ->
    (p < 0x7C00 -> fp16_from_fp32_value (fp16_to_fp32_bits (g * 2 ^ 15 + p)) =
                   g * 2 ^ 15 + (if p <? 2 ^ 10 then 0 else p)) /\
    (p < 0x7F80 -> bf16_from_fp32_value (bf16_to_fp32_value (g * 2 ^ 15 + p)) = g * 2 ^ 15 + p) /\
    (p < 0x7F -> fp8e4m3fn_from_fp32_value (fp8e4m3fn_to_fp32_bits (g * 2 ^ 7 + p)) = g * 2 ^ 7 + p) /\
    (p < 0x7C -> fp8e5m2_from_fp32_value (fp8e5m2_to_fp32_bits (g * 2 ^ 7 + p)) = g * 2 ^ 7 + p).
Proof.
  split; [auto using half_widens, bf16_widens, e4m3_widens, e5m2_widens|]. intros g p Hg Hp.
  split; [|split; [|split]]; intros Ht.
  - destruct (Z.ltb_spec p (2 ^ 10)) as [H|H].
    + destruct (half_widens g p Hg ltac:(lia)) as (y & Hy & -> & Ey). rewrite Z.add_0_r.
      apply (proj1 half_narrows g y Hg Hy). destruct (Z.lt_ge_cases y (113 * 2 ^ 23)) as [|Hge]; [done|].
      pose proof (magnitude_le binary32 ltac:(vm_compute; congruence) ltac:(vm_compute; congruence) (113 * 2 ^ 23) y ltac:(lia) Hge) as H1.
      pose proof (magnitude_lt binary16 ltac:(vm_compute; congruence) ltac:(vm_compute; congruence) p (2 ^ 10) Hp H) as H2.
      rewrite Ey in H1. change (magnitude binary32 (113 * 2 ^ 23)) with (magnitude binary16 (2 ^ 10)) in H1. lia.
    + eapply (widen_narrow binary16); [..|apply half_widens|apply half_narrows|done|done| |lia]; [vm_compute; congruence..|].
      left. change (magnitude binary32 (113 * 2 ^ 23)) with (magnitude binary16 (2 ^ 10)).
      apply magnitude_le; [vm_compute; congruence..|lia|done].
  - eapply (widen_narrow bfloat16); [..|apply bf16_widens|apply bf16_narrows|done|done|by right|lia]; vm_compute; congruence.
  - eapply (widen_narrow e4m3); [..|apply e4m3_widens|apply e4m3_narrows|done|done|by right|lia]; vm_compute; congruence.
  - eapply (widen_narrow e5m2); [..|apply e5m2_widens|apply e5m2_narrows|done|done|by right|lia]; vm_compute; congruence.
Qed.

(** The rewritten [Float8_e4m3fn] conversions agree with the reference versions kept
    in the header, in both directions and on every input. *)
Theorem e4m3fn_conversions_agree :
  (forall b, in_u 8 b -> fp8e4m3fn_to_fp32_value_bk b = fp8e4m3fn_to_fp32_bits b) /\
  (forall x, in_u 32 x -> fp8e4m3fn_from_fp32_value_bk x = fp8e4m3fn_from_fp32_value x).
Proof.
  split.
  - assert (all_from 256 0 (fun b => fp8e4m3fn_to_fp32_value_bk b =? fp8e4m3fn_to_fp32_bits b) = true) as H by (vm_compute; reflexivity).
    intros b Hb. apply Z.eqb_eq, (all_from_spec _ _ _ H). unfold in_u in Hb. simpl. lia.
  - intros x Hx. destruct (fp32_cases x Hx) as [(g & E & M & HF & Ex)|(g & M & Hg & HM & Ex & Es & Ee & _)].
    + rewrite (e4m3_code x g E M HF), e4m3_saturates, Ex by apply HF.
      apply bk_code; [apply HF| |apply HF]. pose proof (f_exp _ _ _ _ HF). lia.
    + unfold fp8e4m3fn_from_fp32_value. rewrite Es, Ee, Ex, bk_code by (done || lia).
      rewrite (proj2 (Z.leb_le _ _)) by lia. destruct Hg as [-> | ->]; reflexivity.
Qed.

Lemma reduced_roundtrip_witness : bf16_from_fp32_value (bf16_to_fp32_value (1 * 2 ^ 15 + 0x3F81)) = 1 * 2 ^ 15 + 0x3F81.
Proof. apply (proj2 reduced_roundtrip 1 0x3F81); [right; reflexivity|lia|lia]. Defined.

Lemma e4m3fn_conversions_agree_witness : in_u 32 0x3F8CCCCD /\
  fp8e4m3fn_from_fp32_value_bk 0x3F8CCCCD = fp8e4m3fn_from_fp32_value 0x3F8CCCCD.
Proof. split; [unfold in_u; lia|]. apply (proj2 e4m3fn_conversions_agree). unfold in_u. lia. Defined.
