(* ===== verification/OpParamsSerde.v ===== *)
(** * OpParamsSerde: the textual form of operator parameters

    [src/operators/op_params_serde.cpp]: [SerializeOpParams] writes a kind followed by
    [name=value] fields, [ParseOpParams] reads them back. Integers are decimal, floating
    values go through the default six-digit stream output and [std::from_chars]
    ([FloatFormat]); shapes and permutations are bracketed lists. *)
From Stdlib Require Import Ascii.
From S2P Require Import Prelude DataTypes ShapeSymbol ShapeConstraint OperatorSchema FloatFormat FloatText.

Definition serde_error (what : string) : Status := InvalidArgument ("ParseOpParams: " +:+ what).

(* @src src/operators/op_params_serde.cpp:17-17 FieldMap *)
Abbreviation FieldMap := (gmap string string).

(** ** Characters and tokens *)

(** The white space [operator>>] skips in the default locale. *)
Definition is_space (c : ascii) : bool :=
  let n := N_of_ascii c in (n =? 32)%N || ((9 <=? n) && (n <=? 13))%N.

(** The tokens successive [input >> token] read; [cur] is the token being read. *)
Fixpoint words (cur s : string) : list string :=
  match s with
  | EmptyString => if bool_decide (cur = "") then [] else [cur]
  | String c s' =>
      if is_space c then
        if bool_decide (cur = "") then words "" s' else cur :: words "" s'
      else words (cur +:+ String c "") s'
  end.

(** [token.find(c)]: the text before and after the first [c]. *)
Fixpoint split_at (c : ascii) (s : string) : option (string * string) :=
  match s with
  | EmptyString => None
  | String d s' =>
      if Ascii.eqb d c then Some ("", s')
      else '(a, b) ← split_at c s'; Some (String d a, b)
  end.

(** [std::from_chars] for unsigned integers over the whole text. *)
Definition read_unsigned_int (s : string) : option Z :=
  match read_digits s 0 0%N with
  | (S _, v, EmptyString) => Some (Z.of_N v)
  | _ => None
  end.

Definition in_range (lo hi : Z) (v : Z) : option Z := if (lo <=? v) && (v <=? hi) then Some v else None.

Definition from_chars_u64 (s : string) : option Z := read_unsigned_int s ≫= in_range 0 UINT64_MAX.

(** For [int64_t] a leading minus is accepted, a plus is not. *)
Definition from_chars_i64 (s : string) : option Z :=
  match s with
  | String "-"%char s' => v ← read_unsigned_int s'; in_range INT64_MIN INT64_MAX (- v)
  | _ => v ← read_unsigned_int s; in_range INT64_MIN INT64_MAX v
  end.

(** ** Fields *)

Definition find_field (fields : FieldMap) (name what : string) : Res string :=
  match fields !! name with
  | Some v => Ret v
  | None => Fail (serde_error ("missing " +:+ what))
  end.

Definition read_field {A} (read : string -> option A) (fields : FieldMap) (name what : string) : Res A :=
  text ← find_field fields name (what +:+ " field");
  match read text with
  | Some v => Ret v
  | None => Fail (serde_error ("invalid " +:+ what +:+ " field"))
  end.

(* @src src/operators/op_params_serde.cpp:19-32 ParseInt64 *)
Definition ParseInt64 (fields : FieldMap) (name : string) : Res Z :=
  read_field from_chars_i64 fields name "integer".

(* @src src/operators/op_params_serde.cpp:34-47 ParseFloat *)
Definition ParseFloat (fields : FieldMap) (name : string) : Res Z :=
  read_field (read_float binary32) fields name "float".

(* @src src/operators/op_params_serde.cpp:49-62 ParseDouble *)
Definition ParseDouble (fields : FieldMap) (name : string) : Res Z :=
  read_field (read_float binary64) fields name "double".

(* @src src/operators/op_params_serde.cpp:64-78 ParseBool *)
Definition ParseBool (fields : FieldMap) (name : string) : Res bool :=
  read_field (fun s => if bool_decide (s = "true") then Some true
                       else if bool_decide (s = "false") then Some false else None) fields name "bool".

(* @src src/operators/op_params_serde.cpp:80-96 ParseFields *)
Fixpoint ParseFields (tokens : list string) (fields : FieldMap) : Res FieldMap :=
  match tokens with
  | [] => Ret fields
  | token :: tokens' =>
      let '(name, value) := default (token, "") (split_at "="%char token) in
      if bool_decide (is_Some (fields !! name))
      then Fail (serde_error ("duplicate field '" +:+ name +:+ "'"))
      else ParseFields tokens' (<[name := value]> fields)
  end.

(* @src src/operators/op_params_serde.cpp:98-112 ParseRopeScalingField *)
Definition ParseRopeScalingField (fields : FieldMap) : Res RoPEScalingType :=
  read_field (fun s => if bool_decide (s = "none") then Some kNone
                       else if bool_decide (s = "linear") then Some kLinear else None)
    fields "scaling_type" "scaling_type".

(* @src src/operators/op_params_serde.cpp:114-131 ParseOptionalDouble *)
Definition ParseOptionalDouble (fields : FieldMap) (name : string) : Res (option Z) :=
  read_field (fun s => if bool_decide (s = "none") then Some None else Some <$> read_float binary64 s)
    fields name "optional double".

(* @src src/operators/op_params_serde.cpp:133-138 EnsureNoExtraFields *)
Definition EnsureNoExtraFields (fields : FieldMap) (expected_count : nat) : Res unit :=
  reject_if (negb (size fields =? expected_count)%nat) (serde_error "unexpected field count").

(** ** Bracketed lists *)

Definition opt_res {A} (o : option A) (what : string) : Res A :=
  match o with Some a => Ret a | None => Fail (serde_error what) end.

(* @src src/operators/op_params_serde.cpp:145-200 ParseReshapeDimToken *)
Definition ParseReshapeDimToken (token : string) : Res ReshapeDim :=
  match token with
  | EmptyString => Fail (serde_error "empty Reshape dim token")
  | String "*"%char EmptyString => Ret ReshapeInferDim
  | String "@"%char digits =>
      _ ← reject_if (bool_decide (digits = "")) (serde_error "Reshape axis reference without digits");
      _ ← reject_if (negb (all_digits digits)) (serde_error "non-digit in Reshape axis reference");
      axis ← opt_res (from_chars_u64 digits) "invalid Reshape axis reference";
      _ ← reject_if (UINT32_MAX <? axis) (serde_error "Reshape axis reference overflow");
      Ret (ReshapeInputDim (Z.to_nat axis))
  | _ =>
      _ ← reject_if (negb (all_digits token)) (serde_error "invalid Reshape literal dim");
      v ← opt_res (from_chars_i64 token) "invalid Reshape literal dim";
      Ret (ReshapeLiteralDim v)
  end.

(* @src src/operators/op_params_serde.cpp:243-273 ParsePermuteAxisToken *)
Definition ParsePermuteAxisToken (token : string) : Res nat :=
  match token with
  | EmptyString => Fail (serde_error "empty Permute axis token")
  | String c rest =>
      _ ← reject_if (negb (all_digits token)) (serde_error "non-digit in Permute axis");
      _ ← reject_if (Ascii.eqb c "0"%char && negb (bool_decide (rest = "")))
            (serde_error "non-canonical leading zero in Permute axis");
      axis ← opt_res (from_chars_u64 token) "invalid Permute axis";
      _ ← reject_if (UINT32_MAX <? axis) (serde_error "Permute axis overflow");
      Ret (Z.to_nat axis)
  end.

(** The pieces between the commas, [interior.find(',', start)] from the left. *)
Fixpoint comma_tokens (s : string) : list string :=
  match s with
  | EmptyString => [""]
  | String c s' =>
      if Ascii.eqb c ","%char then "" :: comma_tokens s'
      else match comma_tokens s' with
           | t :: ts => String c t :: ts
           | [] => [String c ""]
           end
  end.

(** [value.back()] and the text before it. *)
Fixpoint split_last (s : string) : option (string * ascii) :=
  match s with
  | EmptyString => None
  | String c s' =>
      match split_last s' with
      | Some (t, l) => Some (String c t, l)
      | None => Some ("", c)
      end
  end.

(** What [ParseReshapeShape] and [ParsePermutation] share, the element parser aside. *)
Definition parse_bracketed {A} (element : string -> Res A) (what empty : string) (value : string)
    : Res (list A) :=
  match value with
  | String "["%char rest =>
      match split_last rest with
      | Some (interior, "]"%char) =>
          if bool_decide (interior = "") then Ret []
          else res_mapi (fun _ t =>
                 _ ← reject_if (bool_decide (t = "")) (serde_error empty); element t) 0 (comma_tokens interior)
      | _ => Fail (serde_error (what +:+ " must be bracketed"))
      end
  | _ => Fail (serde_error (what +:+ " must be bracketed"))
  end.

(* @src src/operators/op_params_serde.cpp:206-237 ParseReshapeShape *)
Definition ParseReshapeShape (value : string) : Res (list ReshapeDim) :=
  parse_bracketed ParseReshapeDimToken "Reshape shape" "empty Reshape dim token" value.

(* @src src/operators/op_params_serde.cpp:282-315 ParsePermutation *)
Definition ParsePermutation (value : string) : Res (list nat) :=
  parse_bracketed ParsePermuteAxisToken "Permute permutation" "empty Permute axis token" value.

(** ** Writing *)

Fixpoint comma_join (l : list string) : string :=
  match l with
  | [] => ""
  | [t] => t
  | t :: l' => t +:+ "," +:+ comma_join l'
  end.

Definition reshape_token (d : ReshapeDim) : string :=
  match d with
  | ReshapeLiteralDim v => pretty v
  | ReshapeInputDim a => "@" +:+ pretty (N.of_nat a)
  | ReshapeInferDim => "*"
  end.

(* @src src/operators/op_params_serde.cpp:326-343 SerializeReshapeShape *)
Definition SerializeReshapeShape (target_shape : list ReshapeDim) : string :=
  "[" +:+ comma_join (reshape_token <$> target_shape) +:+ "]".

(* @src src/operators/op_params_serde.cpp:348-359 SerializePermutation *)
Definition SerializePermutation (permutation : list nat) : string :=
  "[" +:+ comma_join ((fun a => pretty (N.of_nat a)) <$> permutation) +:+ "]".

(* @src src/operators/op_params_serde.cpp:361-382 OpParamsKindName *)
Definition OpParamsKindName (p : OpParams) : string :=
  match p with
  | monostate => "monostate" | EmbeddingParams => "Embedding" | RmsNormParams _ => "RmsNorm"
  | LinearParams => "Linear" | RoPEParams_ _ => "RoPE" | MatMulParams _ => "MatMul"
  | SoftmaxParams _ => "Softmax" | AddParams => "Add" | SiluParams => "Silu" | SiluMulParams => "SiluMul"
  | ElementwiseMulParams => "ElementwiseMul" | KVCacheUpdateParams => "KVCacheUpdate"
  | AttentionParams_ _ => "Attention" | ArgmaxParams _ => "Argmax" | ReshapeParams _ => "Reshape"
  | PermuteParams _ => "Permute" | ReorderParams => "Reorder"
  end.

(* @src include/aethermind/operators/op_params.h:42-50 ToString(RoPEScalingType) *)
Definition scaling_name (t : RoPEScalingType) : string :=
  match t with kNone => "none" | kLinear => "linear" end.

(* @src src/operators/op_params_serde.cpp:384-431 SerializeOpParams *)
Definition SerializeOpParams (p : OpParams) : string :=
  match p with
  | monostate => "monostate"
  | EmbeddingParams => "Embedding"
  | RmsNormParams eps => "RmsNorm eps=" +:+ print_float binary32 eps
  | LinearParams => "Linear"
  | RoPEParams_ p =>
      "RoPE head_dim=" +:+ pretty (rope_head_dim p)
      +:+ " num_attention_heads=" +:+ pretty (rope_num_attention_heads p)
      +:+ " num_key_value_heads=" +:+ pretty (rope_num_key_value_heads p)
      +:+ " max_position_embeddings=" +:+ pretty (max_position_embeddings p)
      +:+ " theta=" +:+ print_float binary64 (theta p)
      +:+ " scaling_factor="
      +:+ match scaling_factor p with Some x => print_float binary64 x | None => "none" end
      +:+ " scaling_type=" +:+ scaling_name (scaling_type p)
  | MatMulParams t => "MatMul transpose_rhs=" +:+ (if t then "true" else "false")
  | SoftmaxParams axis => "Softmax axis=" +:+ pretty axis
  | AddParams => "Add"
  | SiluParams => "Silu"
  | SiluMulParams => "SiluMul"
  | ElementwiseMulParams => "ElementwiseMul"
  | KVCacheUpdateParams => "KVCacheUpdate"
  | AttentionParams_ p =>
      "Attention num_attention_heads=" +:+ pretty (num_attention_heads p)
      +:+ " num_key_value_heads=" +:+ pretty (num_key_value_heads p)
      +:+ " head_dim=" +:+ pretty (head_dim p)
  | ArgmaxParams axis => "Argmax axis=" +:+ pretty axis
  | ReshapeParams sh => "Reshape shape=" +:+ SerializeReshapeShape sh
  | PermuteParams pm => "Permute permutation=" +:+ SerializePermutation pm
  | ReorderParams => "Reorder"
  end.

(** ** Reading *)

Definition plain (fields : FieldMap) (p : OpParams) : Res OpParams :=
  _ ← EnsureNoExtraFields fields 0; Ret p.

(* @src src/operators/op_params_serde.cpp:465-488 ParseOpParams (RoPE) *)
Definition parse_rope (fields : FieldMap) : Res OpParams :=
  _ ← EnsureNoExtraFields fields 7;
  head_dim ← ParseInt64 fields "head_dim";
  num_attention_heads ← ParseInt64 fields "num_attention_heads";
  num_key_value_heads ← ParseInt64 fields "num_key_value_heads";
  max_position_embeddings ← ParseInt64 fields "max_position_embeddings";
  theta ← ParseDouble fields "theta";
  scaling_factor ← ParseOptionalDouble fields "scaling_factor";
  scaling_type ← ParseRopeScalingField fields;
  Ret (RoPEParams_ (mkRoPE head_dim num_attention_heads num_key_value_heads max_position_embeddings
                      theta scaling_factor scaling_type)).

(* @src src/operators/op_params_serde.cpp:529-540 ParseOpParams (Attention) *)
Definition parse_attention (fields : FieldMap) : Res OpParams :=
  _ ← EnsureNoExtraFields fields 3;
  num_attention_heads ← ParseInt64 fields "num_attention_heads";
  num_key_value_heads ← ParseInt64 fields "num_key_value_heads";
  head_dim ← ParseInt64 fields "head_dim";
  Ret (AttentionParams_ (mkAttention num_attention_heads num_key_value_heads head_dim)).

(* @src src/operators/op_params_serde.cpp:433-578 ParseOpParams *)
Definition ParseOpParams (text : string) : Res OpParams :=
  match words "" text with
  | [] => Fail (serde_error "empty input")
  | kind :: tokens =>
      fields ← ParseFields tokens ∅;
      let kind_is k := bool_decide (kind = k) in
      if kind_is "monostate" then plain fields monostate
      else if kind_is "Embedding" then plain fields EmbeddingParams
      else if kind_is "RmsNorm" then
        _ ← EnsureNoExtraFields fields 1; eps ← ParseFloat fields "eps"; Ret (RmsNormParams eps)
      else if kind_is "Linear" then plain fields LinearParams
      else if kind_is "RoPE" then parse_rope fields
      else if kind_is "MatMul" then
        _ ← EnsureNoExtraFields fields 1; t ← ParseBool fields "transpose_rhs"; Ret (MatMulParams t)
      else if kind_is "Softmax" then
        _ ← EnsureNoExtraFields fields 1; a ← ParseInt64 fields "axis"; Ret (SoftmaxParams a)
      else if kind_is "Add" then plain fields AddParams
      else if kind_is "Silu" then plain fields SiluParams
      else if kind_is "SiluMul" then plain fields SiluMulParams
      else if kind_is "ElementwiseMul" then plain fields ElementwiseMulParams
      else if kind_is "KVCacheUpdate" then plain fields KVCacheUpdateParams
      else if kind_is "Attention" then parse_attention fields
      else if kind_is "Argmax" then
        _ ← EnsureNoExtraFields fields 1; a ← ParseInt64 fields "axis"; Ret (ArgmaxParams a)
      else if kind_is "Reshape" then
        _ ← EnsureNoExtraFields fields 1;
        v ← find_field fields "shape" "shape field";
        sh ← ParseReshapeShape v; Ret (ReshapeParams sh)
      else if kind_is "Permute" then
        _ ← EnsureNoExtraFields fields 1;
        v ← find_field fields "permutation" "permutation field";
        pm ← ParsePermutation v; Ret (PermuteParams pm)
      else if kind_is "Reorder" then plain fields ReorderParams
      else Fail (serde_error "unknown parameter kind")
  end.

(** ** Characters *)

Lemma read_unsigned_pretty (n : N) : read_unsigned_int (pretty n) = Some (Z.of_N n).
Proof. unfold read_unsigned_int. by destruct (read_digits_pretty n) as [l ->]. Qed.

Definition solid (c : ascii) : bool := negb (is_space c).

Lemma digit_solid c : is_digit c = true -> solid c = true.
Proof.
  unfold is_digit, digit_of, solid, is_space. set (n := N_of_ascii c).
  destruct ((48 <=? n) && (n <=? 57))%N eqn:E; [|done]. intros _. apply negb_true_iff.
  apply andb_true_iff in E as [E1%N.leb_le E2%N.leb_le].
  apply orb_false_iff. split; [apply N.eqb_neq; lia|]. apply andb_false_iff. right. apply N.leb_gt. lia.
Qed.

(** A digit is none of the characters with a meaning of their own. *)
Lemma digit_not c d : is_digit c = true -> is_digit d = false -> Ascii.eqb c d = false.
Proof. intros Hc Hd. apply Ascii.eqb_neq. intros ->. congruence. Qed.

Lemma pretty_N_solid (n : N) : all_chars solid (pretty n) = true.
Proof. apply (all_chars_impl is_digit); [apply digit_solid|apply pretty_N_digits]. Qed.

Lemma pretty_Z_cases (z : Z) :
  (0 <= z /\ pretty z = pretty (Z.to_N z)) \/ (z < 0 /\ pretty z = "-" +:+ pretty (Z.to_N (- z))).
Proof. destruct z as [|p|p]; [left|left|right]; split; done || lia. Qed.

Lemma pretty_Z_solid (z : Z) : all_chars solid (pretty z) = true.
Proof. destruct (pretty_Z_cases z) as [[_ ->]|[_ ->]]; [apply pretty_N_solid|]. simpl. apply pretty_N_solid. Qed.

Section FloatChars.
Variable f : ascii -> bool.

Lemma all_chars_take n s : all_chars f s = true -> all_chars f (string_take n s) = true.
Proof.
  revert s. induction n as [|n IH]; intros [|c s]; simpl; try done. intros [Hc Hs]%andb_true_iff.
  by rewrite Hc, IH.
Qed.
Lemma all_chars_drop n s : all_chars f s = true -> all_chars f (string_drop n s) = true.
Proof. revert s. induction n as [|n IH]; intros [|c s]; simpl; try done. intros [_ Hs]%andb_true_iff. auto. Qed.
Lemma all_chars_strip s : all_chars f s = true -> all_chars f (strip_zeros s) = true.
Proof.
  induction s as [|c s IH]; simpl; [done|]. intros [Hc Hs]%andb_true_iff. specialize (IH Hs).
  destruct (strip_zeros s) eqn:E.
  - case_match; simpl; [done|]. by rewrite Hc.
  - simpl in *. by rewrite Hc.
Qed.
Lemma all_chars_fraction a b : f "."%char = true -> all_chars f a = true -> all_chars f b = true ->
  all_chars f (with_fraction a b) = true.
Proof.
  intros Hd Ha Hb. unfold with_fraction. apply all_chars_strip in Hb.
  destruct (strip_zeros b); [done|]. by rewrite !all_chars_app, Ha, Hb; simpl; rewrite Hd.
Qed.
End FloatChars.

Lemma zeros_solid n : all_chars solid (zeros n) = true.
Proof. induction n; simpl; [done|]. by rewrite IHn. Qed.

Lemma exponent_text_solid X : all_chars solid (exponent_text X) = true.
Proof.
  unfold exponent_text. rewrite all_chars_app. pose proof (pretty_N_solid (Z.to_N (Z.abs X))).
  apply andb_true_iff. split; [by case_match|]. by case_match.
Qed.

Lemma decimal_text_solid D X : all_chars solid (decimal_text D X) = true.
Proof.
  unfold decimal_text. pose proof (pretty_N_solid (Z.to_N D)) as HD. case_match; [|case_match].
  - rewrite !all_chars_app, exponent_text_solid, andb_true_r.
    apply all_chars_fraction; [done|by apply all_chars_take|by apply all_chars_drop].
  - apply all_chars_fraction; [done..|]. by rewrite all_chars_app, zeros_solid.
  - apply all_chars_fraction; [done|by apply all_chars_take|by apply all_chars_drop].
Qed.

Lemma print_float_solid f x : all_chars solid (print_float f x) = true.
Proof.
  unfold print_float, minus. destruct (decode f x) as [neg m e|neg|neg]; destruct neg; try done.
  all: case_match; [done|]; destruct (six_digits _ _); simpl; apply decimal_text_solid.
Qed.

(** ** Tokens *)

Lemma words_token cur w s : all_chars solid w = true -> cur +:+ w <> "" ->
  words cur (w +:+ String " " s) = (cur +:+ w) :: words "" s.
Proof.
  revert cur. induction w as [|c w IH]; intros cur Hw Hne; simpl.
  - rewrite string_app_nil in *. by rewrite bool_decide_false.
  - apply andb_true_iff in Hw as [Hc Hw]. unfold solid in Hc. apply negb_true_iff in Hc. rewrite Hc.
    assert (cur +:+ String c w = (cur +:+ String c "") +:+ w) as E by (by rewrite string_app_assoc).
    rewrite E in *. by apply IH.
Qed.

Lemma words_last cur w : all_chars solid w = true -> cur +:+ w <> "" -> words cur w = [cur +:+ w].
Proof.
  revert cur. induction w as [|c w IH]; intros cur Hw Hne; simpl.
  - rewrite string_app_nil in *. by rewrite bool_decide_false.
  - apply andb_true_iff in Hw as [Hc Hw]. unfold solid in Hc. apply negb_true_iff in Hc. rewrite Hc.
    assert (cur +:+ String c w = (cur +:+ String c "") +:+ w) as E by (by rewrite string_app_assoc).
    rewrite E in *. by apply IH.
Qed.

(** Tokens joined by single spaces read back as they were. *)
Fixpoint space_join (l : list string) : string :=
  match l with
  | [] => ""
  | [t] => t
  | t :: l' => t +:+ " " +:+ space_join l'
  end.

Lemma words_join l : Forall (fun t => all_chars solid t = true /\ t <> "") l -> words "" (space_join l) = l.
Proof.
  induction 1 as [|t l [Ht Hne] Hl IH]; [done|]. destruct l as [|u l]; [by apply words_last|].
  change (space_join (t :: u :: l)) with (t +:+ String " " (space_join (u :: l))).
  rewrite words_token by done. by rewrite IH.
Qed.

(** ** Bracketed lists *)

Definition no_comma (c : ascii) : bool := negb (Ascii.eqb c ","%char).

Lemma comma_tokens_one t : all_chars no_comma t = true -> comma_tokens t = [t].
Proof.
  induction t as [|c t IH]; simpl; [done|]. intros [Hc%negb_true_iff Ht]%andb_true_iff.
  by rewrite Hc, IH.
Qed.

Lemma comma_tokens_cons t s : all_chars no_comma t = true ->
  comma_tokens (t +:+ String "," s) = t :: comma_tokens s.
Proof.
  induction t as [|c t IH]; simpl; [done|]. intros [Hc%negb_true_iff Ht]%andb_true_iff.
  by rewrite Hc, IH.
Qed.

Lemma comma_tokens_join l : l <> [] -> Forall (fun t => all_chars no_comma t = true) l ->
  comma_tokens (comma_join l) = l.
Proof.
  intros Hne. induction 1 as [|t l Ht Hl IH]; [done|]. destruct l as [|u l]; [by apply comma_tokens_one|].
  change (comma_join (t :: u :: l)) with (t +:+ String "," (comma_join (u :: l))).
  by rewrite comma_tokens_cons, IH.
Qed.

Lemma split_last_app s c : split_last (s +:+ String c "") = Some (s, c).
Proof. induction s as [|d s IH]; simpl; [done|]. by rewrite IH. Qed.

(** A bracketed list of printed elements parses back, when every element does. *)
Lemma parse_bracketed_join {A} (element : string -> Res A) (token : A -> string) what empty l :
  Forall (fun a => element (token a) = Ret a /\ token a <> "" /\ all_chars no_comma (token a) = true) l ->
  parse_bracketed element what empty ("[" +:+ comma_join (token <$> l) +:+ "]") = Ret l.
Proof.
  intros Hl. change (parse_bracketed element what empty
    (String "[" (comma_join (token <$> l) +:+ String "]" "")) = Ret l).
  unfold parse_bracketed. rewrite split_last_app. destruct l as [|a l]; [done|].
  rewrite bool_decide_false.
  2:{ inversion Hl as [|? ? (_ & Hne & _) _]; subst. cbn [fmap list_fmap comma_join].
      destruct (token a); [done|]. by destruct (token <$> l). }
  rewrite comma_tokens_join; [|done|].
  2:{ apply Forall_fmap. eapply Forall_impl; [exact Hl|]. by intros x (_ & _ & ?). }
  generalize 0%nat. induction Hl as [|x l' (Hx & Hne & _) Hl' IH]; intros i; simpl; [done|].
  rewrite bool_decide_false by done. simpl. rewrite Hx. simpl. by rewrite IH.
Qed.

(** ** Elements and fields *)

#[local] Arguments from_chars_i64 : simpl never.
#[local] Arguments from_chars_u64 : simpl never.

Ltac digit_cases c H :=
  destruct c as [[] [] [] [] [] [] [] []]; try (exfalso; vm_compute in H; discriminate H).

Lemma in_range_ok lo hi v : lo <= v <= hi -> in_range lo hi v = Some v.
Proof. intros H. unfold in_range. zcases; [done|lia..]. Qed.

Lemma from_chars_i64_digits (n : N) :
  from_chars_i64 (pretty n) = in_range INT64_MIN INT64_MAX (Z.of_N n).
Proof.
  pose proof (read_unsigned_pretty n) as E. destruct (pretty_N_cons n) as (c & s & Hp & Hc).
  rewrite Hp in *. unfold from_chars_i64. digit_cases c Hc; by rewrite E.
Qed.

Lemma from_chars_i64_pretty (z : Z) : INT64_MIN <= z <= INT64_MAX -> from_chars_i64 (pretty z) = Some z.
Proof.
  intros Hz. destruct (pretty_Z_cases z) as [[Hs ->]|[Hs ->]].
  - rewrite from_chars_i64_digits, Z2N.id by done. by apply in_range_ok.
  - change (from_chars_i64 (String "-" (pretty (Z.to_N (- z)))) = Some z). unfold from_chars_i64.
    rewrite read_unsigned_pretty, Z2N.id by lia. cbn [mbind option_bind]. rewrite Z.opp_involutive.
    by apply in_range_ok.
Qed.

Lemma from_chars_u64_pretty (n : N) : Z.of_N n <= UINT64_MAX -> from_chars_u64 (pretty n) = Some (Z.of_N n).
Proof. intros H. unfold from_chars_u64. rewrite read_unsigned_pretty. apply in_range_ok. lia. Qed.

Definition axis_ok (a : nat) : Prop := Z.of_nat a <= UINT32_MAX.
Definition reshape_dim_ok (d : ReshapeDim) : Prop :=
  match d with
  | ReshapeLiteralDim v => 0 <= v <= INT64_MAX
  | ReshapeInputDim a => axis_ok a
  | ReshapeInferDim => True
  end.

Lemma axis_u64 a : axis_ok a -> from_chars_u64 (pretty (N.of_nat a)) = Some (Z.of_nat a) /\ (UINT32_MAX <? Z.of_nat a) = false.
Proof.
  unfold axis_ok, UINT32_MAX. intros H. split; [|apply Z.ltb_ge; lia].
  rewrite from_chars_u64_pretty; [f_equal; lia|]. unfold UINT64_MAX. lia.
Qed.

Lemma ParseReshapeDimToken_ok d : reshape_dim_ok d -> ParseReshapeDimToken (reshape_token d) = Ret d.
Proof.
  destruct d as [v|a|]; simpl; intros H; [| |done].
  - destruct (pretty_Z_cases v) as [[_ E]|[? _]]; [|lia].
    pose proof (pretty_N_digits (Z.to_N v)) as Hd. pose proof (from_chars_i64_digits (Z.to_N v)) as Hv.
    rewrite Z2N.id, in_range_ok in Hv by (unfold INT64_MIN; lia).
    rewrite E. destruct (pretty_N_cons (Z.to_N v)) as (c & s & Hp & Hc). rewrite Hp in *.
    unfold ParseReshapeDimToken. digit_cases c Hc; rewrite Hd; simpl; rewrite Hv; done.
  - destruct (axis_u64 a H) as [Ha Hm]. pose proof (pretty_N_digits (N.of_nat a)) as Hd.
    change (ParseReshapeDimToken (String "@" (pretty (N.of_nat a))) = Ret (ReshapeInputDim a)).
    unfold ParseReshapeDimToken.
    destruct (pretty_N_cons (N.of_nat a)) as (c & s & Hp & Hc). rewrite Hp in *.
    rewrite bool_decide_false by done. rewrite Hd. simpl. rewrite Ha. simpl. rewrite Hm. simpl.
    by rewrite Nat2Z.id.
Qed.

(** Printed numbers have no leading zero. *)
Lemma pretty_go_head x : forall s, x <> 0%N -> exists c t, pretty_N_go x s = String c t /\ c <> "0"%char.
Proof.
  induction (N.lt_wf_0 x) as [x _ IH]; intros s Hx. rewrite pretty_N_go_step by lia.
  destruct (decide (x / 10 = 0)%N) as [E|E].
  - rewrite E, pretty_N_go_0. eexists _, _. split; [done|].
    intros Hc. pose proof (pretty_char_digit (x mod 10) ltac:(apply N.mod_lt; lia)) as Hd.
    rewrite Hc in Hd. injection Hd as Hd. pose proof (N.div_mod x 10). lia.
  - apply IH; [apply N.div_lt; lia|done].
Qed.

Lemma ParsePermuteAxisToken_ok a : axis_ok a -> ParsePermuteAxisToken (pretty (N.of_nat a)) = Ret a.
Proof.
  intros H. destruct (axis_u64 a H) as [Ha Hm]. pose proof (pretty_N_digits (N.of_nat a)) as Hd.
  assert (exists c s, pretty (N.of_nat a) = String c s /\
    Ascii.eqb c "0"%char && negb (bool_decide (s = "")) = false) as (c & s & Hp & Hz).
  { unfold pretty, pretty_N. case_decide as Ez; [by exists "0"%char, ""|].
    destruct (pretty_go_head (N.of_nat a) "" Ez) as (c & s & -> & Hc). exists c, s. split; [done|].
    by rewrite (proj2 (Ascii.eqb_neq c "0"%char) Hc). }
  rewrite Hp in *. unfold ParsePermuteAxisToken. rewrite Hd, Hz. simpl. rewrite Ha. simpl. rewrite Hm. simpl.
  by rewrite Nat2Z.id.
Qed.

Lemma pretty_N_no_comma (n : N) : all_chars no_comma (pretty n) = true.
Proof.
  eapply all_chars_impl; [|apply pretty_N_digits]. intros c Hc. unfold no_comma.
  by rewrite (digit_not c ","%char Hc eq_refl).
Qed.

Lemma pretty_N_ne (n : N) : pretty n <> "".
Proof. by destruct (pretty_N_cons n) as (c & s & -> & _). Qed.

Lemma reshape_token_shape d : reshape_dim_ok d ->
  reshape_token d <> "" /\ all_chars no_comma (reshape_token d) = true /\ all_chars solid (reshape_token d) = true.
Proof.
  destruct d as [v|a|]; simpl; intros H; [| |done].
  - destruct (pretty_Z_cases v) as [[_ ->]|[? _]]; [|lia].
    auto using pretty_N_ne, pretty_N_no_comma, pretty_N_solid.
  - split; [done|]. split; [apply (pretty_N_no_comma (N.of_nat a))|apply (pretty_N_solid (N.of_nat a))].
Qed.

Lemma comma_join_solid l : Forall (fun t => all_chars solid t = true) l -> all_chars solid (comma_join l) = true.
Proof.
  induction 1 as [|t l Ht Hl IH]; [done|]. destruct l as [|u l]; [done|].
  change (comma_join (t :: u :: l)) with (t +:+ String "," (comma_join (u :: l))).
  rewrite all_chars_app, Ht. exact IH.
Qed.

Lemma bracket_solid l : Forall (fun t => all_chars solid t = true) l ->
  all_chars solid ("[" +:+ comma_join l +:+ "]") = true.
Proof. intros H. rewrite !all_chars_app, comma_join_solid by done. done. Qed.

Lemma ParseReshapeShape_ok sh : Forall reshape_dim_ok sh ->
  ParseReshapeShape (SerializeReshapeShape sh) = Ret sh /\ all_chars solid (SerializeReshapeShape sh) = true.
Proof.
  intros H. split.
  - apply parse_bracketed_join. eapply Forall_impl; [exact H|]. intros d Hd.
    destruct (reshape_token_shape d Hd) as (? & ? & _). auto using ParseReshapeDimToken_ok.
  - apply bracket_solid, Forall_fmap. eapply Forall_impl; [exact H|]. intros d Hd. by apply reshape_token_shape.
Qed.

Lemma ParsePermutation_ok pm : Forall axis_ok pm ->
  ParsePermutation (SerializePermutation pm) = Ret pm /\ all_chars solid (SerializePermutation pm) = true.
Proof.
  intros H. split.
  - apply parse_bracketed_join. eapply Forall_impl; [exact H|]. intros a Ha.
    auto using ParsePermuteAxisToken_ok, pretty_N_ne, pretty_N_no_comma.
  - apply bracket_solid, Forall_fmap, Forall_forall. intros a _. apply pretty_N_solid.
Qed.

(** ** Round trip *)

Definition int64_ok (z : Z) : Prop := INT64_MIN <= z <= INT64_MAX.

(** A floating value that comes back from its text. *)
Definition survives (f : FloatFormat) (x : Z) : Prop := read_float f (print_float f x) = Some x.

(** The parameters the textual form can carry: machine integers, axes of 32 bits,
    non-negative literal dimensions, and floating values nearest to a decimal of six
    digits. *)
Definition serializable (p : OpParams) : Prop :=
  match p with
  | RmsNormParams eps => six_digit binary32 eps
  | RoPEParams_ p =>
      int64_ok (rope_head_dim p) /\ int64_ok (rope_num_attention_heads p) /\
      int64_ok (rope_num_key_value_heads p) /\ int64_ok (max_position_embeddings p) /\
      six_digit binary64 (theta p) /\ from_option (six_digit binary64) True (scaling_factor p)
  | AttentionParams_ p =>
      int64_ok (num_attention_heads p) /\ int64_ok (num_key_value_heads p) /\ int64_ok (head_dim p)
  | SoftmaxParams a | ArgmaxParams a => int64_ok a
  | ReshapeParams sh => Forall reshape_dim_ok sh
  | PermuteParams pm => Forall axis_ok pm
  | _ => True
  end.

Lemma read_field_ok {A} (read : string -> option A) fields name what text v :
  fields !! name = Some text -> read text = Some v -> read_field read fields name what = Ret v.
Proof. intros Hf Hr. unfold read_field, find_field. rewrite Hf. simpl. by rewrite Hr. Qed.

Definition field (nv : string * string) : string := nv.1 +:+ "=" +:+ nv.2.

Lemma field_solid n v : all_chars solid n = true -> all_chars solid v = true ->
  all_chars solid (field (n, v)) = true /\ field (n, v) <> "".
Proof.
  intros Hn Hv. unfold field. simpl. rewrite !all_chars_app, Hn, Hv. split; [done|]. by destruct n.
Qed.

Lemma words_fields kind l : all_chars solid kind = true -> kind <> "" ->
  Forall (fun nv => all_chars solid nv.1 = true /\ all_chars solid nv.2 = true) l ->
  words "" (space_join (kind :: (field <$> l))) = kind :: (field <$> l).
Proof.
  intros Hk Hne Hl. apply words_join. constructor; [done|]. apply Forall_fmap.
  eapply Forall_impl; [exact Hl|]. intros [n v] [Hn Hv]. by apply field_solid.
Qed.

Lemma float_survives eps : six_digit binary32 eps -> survives binary32 eps.
Proof. by apply six_digit_reads. Qed.

Lemma double_survives x : six_digit binary64 x -> survives binary64 x.
Proof. by apply six_digit_reads. Qed.

Lemma optional_double_ok x : from_option (six_digit binary64) True x ->
  let text := match x with Some x => print_float binary64 x | None => "none" end in
  (if bool_decide (text = "none") then Some None else Some <$> read_float binary64 text) = Some x.
Proof.
  destruct x as [x|]; simpl; [|done]. intros Hx%double_survives. unfold survives in Hx. rewrite bool_decide_false.
  - by rewrite Hx.
  - intros E. rewrite E in Hx. vm_compute in Hx. discriminate.
Qed.

(** Read the next field, whose text reads by [H]. *)
Ltac read_next H :=
  match goal with |- res_bind _ (read_field ?r ?fs ?n ?w) = _ =>
    erewrite (read_field_ok r fs n w); [|reflexivity|exact H]
  | |- (read_field ?r ?fs ?n ?w ≫= _) = _ =>
    erewrite (read_field_ok r fs n w); [|reflexivity|exact H]
  end; cbn [mbind res_mbind res_bind].

(** Bring the text into the form of a kind and its fields and read its tokens. *)
Ltac read_kind kind fs :=
  unfold ParseOpParams;
  let W := fresh "W" in
  pose proof (words_fields kind fs) as W;
  match type of W with _ -> _ -> _ -> words _ ?t = _ =>
    match goal with |- context [words _ ?u] => change u with t end end;
  rewrite W; [clear W|done|done|try (by repeat constructor)].

(** Open the branch of the kind that was read. *)
Ltac open_kind :=
  cbn [mbind res_mbind res_bind]; rewrite ?bool_decide_false by done;
  rewrite bool_decide_true by done.

Lemma rope_roundtrip p : serializable (RoPEParams_ p) ->
  ParseOpParams (SerializeOpParams (RoPEParams_ p)) = Ret (RoPEParams_ p).
Proof.
  destruct p as [hd na nk mp th sf st]. intros (H1 & H2 & H3 & H4 & H5 & H6). cbn in H1, H2, H3, H4, H5, H6.
  apply from_chars_i64_pretty in H1, H2, H3, H4. apply optional_double_ok in H6. cbv zeta in H6.
  apply double_survives in H5. unfold survives in H5. cbn [SerializeOpParams rope_head_dim rope_num_attention_heads
    rope_num_key_value_heads max_position_embeddings theta scaling_factor scaling_type].
  pose proof (pretty_Z_solid hd) as S1. pose proof (pretty_Z_solid na) as S2.
  pose proof (pretty_Z_solid nk) as S3. pose proof (pretty_Z_solid mp) as S4.
  pose proof (print_float_solid binary64 th) as S5.
  assert (all_chars solid match sf with Some x => print_float binary64 x | None => "none" end = true) as S6.
  { destruct sf; [apply print_float_solid|done]. }
  revert H1 H2 H3 H4 H5 H6 S1 S2 S3 S4 S5 S6.
  generalize (match sf with Some x => print_float binary64 x | None => "none" end).
  generalize (print_float binary64 th), (pretty hd), (pretty na), (pretty nk), (pretty mp).
  intros v5 v1 v2 v3 v4 v6 H1 H2 H3 H4 H5 H6 S1 S2 S3 S4 S5 S6.
  read_kind "RoPE" [("head_dim", v1); ("num_attention_heads", v2); ("num_key_value_heads", v3);
    ("max_position_embeddings", v4); ("theta", v5); ("scaling_factor", v6); ("scaling_type", scaling_name st)];
    [|by repeat constructor; destruct st].
  match goal with |- context [ParseFields ?l ∅] =>
    assert (ParseFields l ∅ = Ret (<["scaling_type" := scaling_name st]> (<["scaling_factor" := v6]> (<["theta" := v5]>
      (<["max_position_embeddings" := v4]> (<["num_key_value_heads" := v3]> (<["num_attention_heads" := v2]>
      {["head_dim" := v1]}))))))) as -> by reflexivity end.
  open_kind. unfold parse_rope.
  change (EnsureNoExtraFields _ 7) with (Ret tt). cbn [mbind res_mbind res_bind].
  unfold ParseInt64, ParseDouble, ParseOptionalDouble, ParseRopeScalingField.
  read_next H1.
  read_next H2.
  read_next H3.
  read_next H4.
  read_next H5.
  read_next H6.
  erewrite read_field_ok; [done|reflexivity|]. by destruct st.
Qed.

Lemma attention_roundtrip p : serializable (AttentionParams_ p) ->
  ParseOpParams (SerializeOpParams (AttentionParams_ p)) = Ret (AttentionParams_ p).
Proof.
  destruct p as [na nk hd]. intros (H1 & H2 & H3). cbn in H1, H2, H3.
  apply from_chars_i64_pretty in H1, H2, H3. cbn [SerializeOpParams num_attention_heads num_key_value_heads head_dim].
  pose proof (pretty_Z_solid na) as S1. pose proof (pretty_Z_solid nk) as S2. pose proof (pretty_Z_solid hd) as S3.
  revert H1 H2 H3 S1 S2 S3. generalize (pretty na), (pretty nk), (pretty hd). intros v1 v2 v3 H1 H2 H3 S1 S2 S3.
  read_kind "Attention" [("num_attention_heads", v1); ("num_key_value_heads", v2); ("head_dim", v3)].
  match goal with |- context [ParseFields ?l ∅] =>
    assert (ParseFields l ∅ = Ret (<["head_dim" := v3]> (<["num_key_value_heads" := v2]>
      {["num_attention_heads" := v1]}))) as -> by reflexivity end.
  open_kind. unfold parse_attention. change (EnsureNoExtraFields _ 3) with (Ret tt).
  cbn [mbind res_mbind res_bind]. unfold ParseInt64. read_next H1. read_next H2. read_next H3. done.
Qed.

(** Kinds with one field. *)
Ltac one_field kind name v :=
  read_kind kind [(name, v)];
  match goal with |- context [ParseFields ?l ∅] =>
    assert (ParseFields l ∅ = Ret {[name := v]}) as -> by reflexivity end;
  open_kind; change (EnsureNoExtraFields _ 1) with (Ret tt); cbn [mbind res_mbind res_bind].

(** C36: Operator parameters survive their textual form: for every kind of parameters
    with machine integers, 32-bit axes, non-negative literal dimensions and floating
    values nearest to a decimal of at most six significant digits, [ParseOpParams] reads back exactly what
    [SerializeOpParams] wrote. *)
Theorem SerializeOpParams_roundtrip p : serializable p -> ParseOpParams (SerializeOpParams p) = Ret p.
Proof.
  destruct p as [| |eps| |p|t|a| | | | | |p|a|sh|pm|]; intros H; try reflexivity.
  - cbn [SerializeOpParams]. apply float_survives in H. pose proof (print_float_solid binary32 eps) as S. revert H S.
    unfold survives. generalize (print_float binary32 eps). intros v H S.
    one_field "RmsNorm" "eps" v. unfold ParseFloat. by read_next H.
  - by apply rope_roundtrip.
  - destruct t; reflexivity.
  - cbn [SerializeOpParams]. apply from_chars_i64_pretty in H. pose proof (pretty_Z_solid a) as S. revert H S.
    generalize (pretty a). intros v H S. one_field "Softmax" "axis" v. unfold ParseInt64. by read_next H.
  - by apply attention_roundtrip.
  - cbn [SerializeOpParams]. apply from_chars_i64_pretty in H. pose proof (pretty_Z_solid a) as S. revert H S.
    generalize (pretty a). intros v H S. one_field "Argmax" "axis" v. unfold ParseInt64. by read_next H.
  - cbn [SerializeOpParams]. apply ParseReshapeShape_ok in H as [H S]. revert H S.
    generalize (SerializeReshapeShape sh). intros v H S. one_field "Reshape" "shape" v.
    unfold find_field. change (_ !! _) with (Some v). cbn [mbind res_mbind res_bind]. by rewrite H.
  - cbn [SerializeOpParams]. apply ParsePermutation_ok in H as [H S]. revert H S.
    generalize (SerializePermutation pm). intros v H S. one_field "Permute" "permutation" v.
    unfold find_field. change (_ !! _) with (Some v). cbn [mbind res_mbind res_bind]. by rewrite H.
Qed.

(** The parameters of a Llama model: theta 500000, linear scaling by 8.5. *)
Definition llama_rope : RoPEParams := mkRoPE 128 32 8 8192 4692333547057315840 (Some 4620974692658839552) kLinear.

Lemma SerializeOpParams_roundtrip_witness :
  SerializeOpParams (RoPEParams_ llama_rope) =
    "RoPE head_dim=128 num_attention_heads=32 num_key_value_heads=8 max_position_embeddings=8192 theta=500000 scaling_factor=8.5 scaling_type=linear" /\
  ParseOpParams (SerializeOpParams (RoPEParams_ llama_rope)) = Ret (RoPEParams_ llama_rope) /\
  ParseOpParams (SerializeOpParams (RmsNormParams 925353388)) = Ret (RmsNormParams 925353388).
Proof.
  split; [vm_compute; reflexivity|]. split.
  - apply (SerializeOpParams_roundtrip (RoPEParams_ llama_rope)).
    split_and!; try (vm_compute; split; discriminate).
    + apply (six_decimal binary64 false 5 5); [lia|lia|vm_compute; discriminate|vm_compute; reflexivity|reflexivity].
    + apply (six_decimal binary64 false 85 (-1)); [lia|lia|vm_compute; discriminate|vm_compute; reflexivity|reflexivity].
  - apply (SerializeOpParams_roundtrip (RmsNormParams 925353388)).
    apply (six_decimal binary32 false 1 (-5)); [lia|lia|vm_compute; discriminate|vm_compute; reflexivity|reflexivity].
Defined.

(** Only six digits are written: a rotary base of 1234567.0, a finite positive
    double, is read back as 1234570.0 without any error, so the textual form does not
    determine the parameters it was written from. *)
Theorem serialization_loses_digits :
  exists p q, ParseOpParams (SerializeOpParams (RoPEParams_ p)) = Ret (RoPEParams_ q) /\
    theta p = encode binary64 1234567 1 /\ theta q = encode binary64 1234570 1 /\ p <> q.
Proof.
  exists (mkRoPE 128 32 8 8192 (encode binary64 1234567 1) None kNone),
         (mkRoPE 128 32 8 8192 (encode binary64 1234570 1) None kNone).
  split; [vm_compute; reflexivity|]. split_and!; [done|done|]. intros E. apply (f_equal theta) in E.
  vm_compute in E. discriminate.
Qed.
