(* ===== verification/SizeClasses.v ===== *)
(** * SizeClasses: the size ladder of the allocator

    [ammalloc/include/ammalloc/size_class.h] and the constants of [config.h]:
    the piecewise formulas, the generated tables, and the policies indexed by
    size class. Sizes and indices are unsigned machine integers held in [Z];
    table cells keep the narrowing casts. Reading a table out of range is
    undefined behaviour in the source and [Panic] here. *)
From S2P Require Import Prelude.

Module SystemConfig.
Definition PAGE_SIZE : Z := 4096.
Definition PAGE_SHIFT : Z := 12.
Definition ALIGNMENT : Z := 16.
End SystemConfig.

Module SizeConfig.
Definition MAX_TC_SIZE : Z := 32 * 1024.
Definition kStepsPerGroup : Z := 4.
Definition kStepShift : Z := 2.
Definition kSmallSizeThreshold : Z := 1024.
End SizeConfig.

Module PageConfig.
Definition MAX_PAGE_NUM : Z := 128.
End PageConfig.

(** [std::bit_width]. *)
Definition bit_width (n : Z) : Z := if n =? 0 then 0 else Z.log2 n + 1.

(** [std::array::operator[]]. *)
Definition array_at {A} (l : list A) (i : Z) : Res A :=
  match l !! Z.to_nat i with
  | Some x => if 0 <=? i then Ret x else Panic "array index"
  | None => Panic "array index"
  end.

(** The table a [consteval] loop [for (i = 0; i < n; ++i) t[i] = f(i)] builds. *)
Definition table {A} (n : Z) (f : Z -> A) : list A := (fun i => f (Z.of_nat i)) <$> seq 0 (Z.to_nat n).

Module SizeClass.

(** ** Formulas *)

(* @src ammalloc/include/ammalloc/size_class.h:23-46 CalculateIndex *)
Definition CalculateIndex (original_size : Z) : Z :=
  if original_size =? 0 then 0
  else if original_size <=? 128 then Z.shiftr (original_size - 1) 3
  else
    let msb := bit_width (original_size - 1) - 1 in
    let group_idx := msb - 7 in
    let base_idx := 16 + Z.shiftl group_idx SizeConfig.kStepShift in
    let shift := msb - SizeConfig.kStepShift in
    let group_offset := Z.land (Z.shiftr (original_size - 1) shift) (SizeConfig.kStepsPerGroup - 1) in
    base_idx + group_offset.

(* @src ammalloc/include/ammalloc/size_class.h:48-63 CalculateSize *)
Definition CalculateSize (idx : Z) : Z :=
  if idx <? 16 then Z.shiftl (idx + 1) 3
  else
    let relative_idx := idx - 16 in
    let group_idx := Z.shiftr relative_idx SizeConfig.kStepShift in
    let step_idx := Z.land relative_idx (SizeConfig.kStepsPerGroup - 1) in
    let msb := group_idx + 7 in
    let base_size := Z.shiftl 1 msb in
    let step_size := Z.shiftl 1 (msb - SizeConfig.kStepShift) in
    base_size + (step_idx + 1) * step_size.

(* @src ammalloc/include/ammalloc/size_class.h:256-256 SizeClass::kNumSizeClasses *)
Definition kNumSizeClasses : Z := CalculateIndex SizeConfig.MAX_TC_SIZE + 1.
(* @src ammalloc/include/ammalloc/size_class.h:259-259 SizeClass::kMaxBatchSize *)
Definition kMaxBatchSize : Z := 512.

(** ** Tables *)

(* @src ammalloc/include/ammalloc/size_class.h:271-277 SizeClass::small_index_table_ *)
Definition small_index_table_ : list Z :=
  table (SizeConfig.kSmallSizeThreshold + 1) (fun sz => u8 (CalculateIndex sz)).

(* @src ammalloc/include/ammalloc/size_class.h:280-286 SizeClass::size_table_ *)
Definition size_table_ : list Z := table kNumSizeClasses (fun idx => u32 (CalculateSize idx)).

(* @src ammalloc/include/ammalloc/size_class.h:288-302 SizeClass::batch_table_ *)
Definition batch_table_ : list Z :=
  (fun norm =>
     let batch := SizeConfig.MAX_TC_SIZE / norm in
     let batch := if batch <? 2 then 2 else batch in
     let batch := if kMaxBatchSize <? batch then kMaxBatchSize else batch in
     u16 batch) <$> size_table_.

(* @src ammalloc/include/ammalloc/size_class.h:304-323 SizeClass::move_page_table_ *)
Definition move_page_table_ : list Z :=
  zip_with (fun norm batch =>
    let total_objs := Z.shiftl batch 3 in
    let total_bytes := total_objs * norm in
    let total_bytes := if total_bytes <? 32 * 1024 then 32 * 1024 else total_bytes in
    let pages := Z.shiftr (total_bytes + SystemConfig.PAGE_SIZE - 1) SystemConfig.PAGE_SHIFT in
    let pages := if PageConfig.MAX_PAGE_NUM <? pages then PageConfig.MAX_PAGE_NUM else pages in
    u16 pages) size_table_ batch_table_.

(** ** Interface *)

(* @src ammalloc/include/ammalloc/size_class.h:125-139 SizeClass::Index *)
Definition Index (original_size : Z) : Res Z :=
  if SizeConfig.MAX_TC_SIZE <? original_size then Ret UINT64_MAX
  else if original_size <=? SizeConfig.kSmallSizeThreshold then array_at small_index_table_ original_size
  else Ret (CalculateIndex original_size).

(* @src ammalloc/include/ammalloc/size_class.h:171-173 SizeClass::Size *)
Definition Size (idx : Z) : Res Z := array_at size_table_ idx.

(* @src ammalloc/include/ammalloc/size_class.h:183-191 SizeClass::SafeSize *)
Definition SafeSize (idx : Z) : Res Z :=
  if kNumSizeClasses <=? idx then Panic "SizeClass::Size index out of range" else array_at size_table_ idx.

(* @src ammalloc/include/ammalloc/size_class.h:205-214 SizeClass::RoundUp *)
Definition RoundUp (original_size : Z) : Res Z :=
  idx ← Index original_size;
  if idx =? UINT64_MAX then Ret original_size else array_at size_table_ idx.

(* @src ammalloc/include/ammalloc/size_class.h:227-235 SizeClass::CalculateBatchSize *)
Definition CalculateBatchSize (aligned_size : Z) : Res Z :=
  if (aligned_size =? 0) || (SizeConfig.MAX_TC_SIZE <? aligned_size) then Ret 0
  else idx ← Index aligned_size; array_at batch_table_ idx.

(* @src ammalloc/include/ammalloc/size_class.h:248-251 SizeClass::GetMovePageNum *)
Definition GetMovePageNum (aligned_size : Z) : Res Z :=
  if (aligned_size =? 0) || (SizeConfig.MAX_TC_SIZE <? aligned_size) then Ret 0
  else idx ← Index aligned_size; array_at move_page_table_ idx.

(** ** Lemmas: the formulas *)

(** Above 128 bytes: group [m] (bytes [2^m+1] to [2^(m+1)]) and step [k]. *)
Lemma CalculateIndex_large s :
  128 < s -> exists m k, 7 <= m /\ 0 <= k < 4 /\ CalculateIndex s = 16 + 4 * (m - 7) + k /\
    2 ^ m + k * 2 ^ (m - 2) < s <= 2 ^ m + (k + 1) * 2 ^ (m - 2).
Proof.
  intros Hs. set (m := Z.log2 (s - 1)).
  assert (Hm : 7 <= m) by (change 7 with (Z.log2 128); apply Z.log2_le_mono; lia).
  pose proof (Z.log2_spec (s - 1) ltac:(lia)) as [Hlo Hhi]. fold m in Hlo, Hhi.
  set (st := 2 ^ (m - 2)).
  assert (Hst : 0 < st) by (apply Z.pow_pos_nonneg; lia).
  assert (H4 : 2 ^ m = 4 * st).
  { unfold st. change 4 with (2 ^ 2). rewrite <- Z.pow_add_r by lia. f_equal. lia. }
  assert (H8 : 2 ^ Z.succ m = 8 * st) by (rewrite Z.pow_succ_r by lia; lia).
  set (q := (s - 1) / st).
  pose proof (Z.div_mod (s - 1) st ltac:(lia)) as Hdm. pose proof (Z.mod_pos_bound (s - 1) st Hst) as Hmod.
  fold q in Hdm. assert (Hq : 4 <= q < 8) by nia.
  exists m, (q - 4). split; [done|]. split; [lia|]. split; [|fold st; nia].
  unfold CalculateIndex, bit_width, SizeConfig.kStepShift, SizeConfig.kStepsPerGroup.
  rewrite (proj2 (Z.eqb_neq s 0)), (proj2 (Z.leb_gt s 128)), (proj2 (Z.eqb_neq (s - 1) 0)) by lia.
  fold m. replace (m + 1 - 1) with m by lia.
  rewrite Z.shiftl_mul_pow2, Z.shiftr_div_pow2 by lia. fold st. fold q.
  change (4 - 1) with (Z.ones 2). rewrite Z.land_ones by lia.
  assert (q mod 2 ^ 2 = q - 4) as -> by (symmetry; apply (Z.mod_unique_pos q (2 ^ 2) 1); lia).
  lia.
Qed.

Lemma CalculateSize_large m k :
  7 <= m -> 0 <= k < 4 -> CalculateSize (16 + 4 * (m - 7) + k) = 2 ^ m + (k + 1) * 2 ^ (m - 2).
Proof.
  intros Hm Hk. unfold CalculateSize, SizeConfig.kStepShift, SizeConfig.kStepsPerGroup.
  rewrite (proj2 (Z.ltb_ge _ 16)) by lia.
  replace (16 + 4 * (m - 7) + k - 16) with (k + (m - 7) * 4) by lia.
  change (4 - 1) with (Z.ones 2). rewrite Z.land_ones, Z.shiftr_div_pow2 by lia. change (2 ^ 2) with 4.
  rewrite Z.div_add, Z.div_small, Z.mod_add, Z.mod_small by lia.
  rewrite !Z.shiftl_mul_pow2 by lia. replace (0 + (m - 7) + 7) with m by lia. lia.
Qed.

Lemma CalculateIndex_small s : 1 <= s <= 128 -> CalculateIndex s = (s - 1) / 8 /\ 0 <= CalculateIndex s < 16.
Proof.
  intros Hs. unfold CalculateIndex.
  rewrite (proj2 (Z.eqb_neq s 0)), (proj2 (Z.leb_le s 128)) by lia.
  rewrite Z.shiftr_div_pow2 by lia. change (2 ^ 3) with 8. dlia.
Qed.

Lemma CalculateSize_small i : i < 16 -> CalculateSize i = 8 * (i + 1).
Proof.
  intros Hi. unfold CalculateSize. rewrite (proj2 (Z.ltb_lt i 16)) by lia.
  rewrite Z.shiftl_mul_pow2 by lia. lia.
Qed.

(** Decomposition of an index above the linear part. *)
Lemma index_decompose i : 16 <= i -> exists m k, 7 <= m /\ 0 <= k < 4 /\ i = 16 + 4 * (m - 7) + k.
Proof. intros Hi. exists ((i - 16) / 4 + 7), ((i - 16) mod 4). dlia. Qed.

Lemma pow_quarter m : 7 <= m -> 0 < 2 ^ (m - 2) /\ 2 ^ m = 4 * 2 ^ (m - 2) /\ 2 ^ (m + 1) = 8 * 2 ^ (m - 2).
Proof.
  intros Hm. split; [apply Z.pow_pos_nonneg; lia|].
  replace m with (m - 2 + 2) at 1 by lia. replace (m + 1) with (m - 2 + 3) by lia.
  rewrite !Z.pow_add_r by lia. lia.
Qed.

Lemma CalculateSize_step i : 0 <= i -> CalculateSize i < CalculateSize (i + 1).
Proof.
  intros Hi. destruct (Z.lt_ge_cases (i + 1) 16) as [H|H].
  { rewrite !CalculateSize_small by lia. lia. }
  destruct (Z.eq_dec i 15) as [->|Hne]; [reflexivity|].
  destruct (index_decompose i ltac:(lia)) as (m & k & Hm & Hk & ->).
  rewrite CalculateSize_large by done. destruct (pow_quarter m Hm) as (Hp & H4 & H8).
  destruct (Z.eq_dec k 3) as [->|Hk3].
  - replace (16 + 4 * (m - 7) + 3 + 1) with (16 + 4 * (m + 1 - 7) + 0) by lia.
    rewrite CalculateSize_large by lia.
    pose proof (Z.pow_pos_nonneg 2 (m + 1 - 2) ltac:(lia) ltac:(lia)). lia.
  - rewrite <- Z.add_assoc. rewrite CalculateSize_large by lia. nia.
Qed.

Lemma CalculateSize_mono i j : 0 <= i < j -> CalculateSize i < CalculateSize j.
Proof.
  intros H. replace j with (i + 1 + Z.of_nat (Z.to_nat (j - i - 1))) by lia.
  induction (Z.to_nat (j - i - 1)) as [|n IH].
  - rewrite Z.add_0_r. apply CalculateSize_step. lia.
  - etrans; [exact IH|]. replace (i + 1 + Z.of_nat (S n)) with (i + 1 + Z.of_nat n + 1) by lia.
    apply CalculateSize_step. lia.
Qed.

Lemma CalculateSize_le i j : 0 <= i <= j -> CalculateSize i <= CalculateSize j.
Proof.
  intros H. destruct (Z.eq_dec i j) as [->|]; [done|]. apply Z.lt_le_incl, CalculateSize_mono. lia.
Qed.

Lemma CalculateSize_min i : 0 <= i -> 8 <= CalculateSize i.
Proof. intros Hi. by apply (CalculateSize_le 0 i). Qed.

(** The class of [s] is the first one that is large enough. *)
Lemma CalculateIndex_fits s :
  1 <= s -> 0 <= CalculateIndex s /\ s <= CalculateSize (CalculateIndex s) /\
  forall j, 0 <= j < CalculateIndex s -> CalculateSize j < s.
Proof.
  intros Hs. destruct (Z.le_gt_cases s 128) as [Hsm|Hlg].
  { destruct (CalculateIndex_small s ltac:(lia)) as [-> Hr]. rewrite CalculateSize_small by dlia.
    split_and!; [dlia|dlia|]. intros j Hj. rewrite CalculateSize_small by dlia. dlia. }
  destruct (CalculateIndex_large s Hlg) as (m & k & Hm & Hk & -> & Hlo & Hhi).
  rewrite CalculateSize_large by done. destruct (pow_quarter m Hm) as (Hp & H4 & _).
  split_and!; [lia|done|]. intros j Hj.
  assert (Hle : CalculateSize j <= CalculateSize (16 + 4 * (m - 7) + k - 1)).
  { apply CalculateSize_le. lia. }
  enough (CalculateSize (16 + 4 * (m - 7) + k - 1) < s) by lia.
  destruct (Z.eq_dec k 0) as [->|Hk0].
  - destruct (Z.eq_dec m 7) as [->|Hm7]; [rewrite CalculateSize_small by lia; lia|].
    replace (16 + 4 * (m - 7) + 0 - 1) with (16 + 4 * (m - 1 - 7) + 3) by lia.
    rewrite CalculateSize_large by lia. destruct (pow_quarter (m - 1) ltac:(lia)) as (_ & H4' & H8').
    replace (m - 1 + 1) with m in H8' by lia. lia.
  - replace (16 + 4 * (m - 7) + k - 1) with (16 + 4 * (m - 7) + (k - 1)) by lia.
    rewrite CalculateSize_large by lia. lia.
Qed.

(** ** Lemmas: the tables *)

Lemma array_at_table {A} n (f : Z -> A) i : 0 <= i < n -> array_at (table n f) i = Ret (f i).
Proof.
  intros Hi. unfold array_at, table. rewrite list_lookup_fmap, lookup_seq_lt by lia. simpl.
  rewrite (proj2 (Z.leb_le 0 i)) by lia. f_equal. f_equal. lia.
Qed.

Lemma array_at_ret {A} (l : list A) i x : array_at l i = Ret x -> 0 <= i < zlen l /\ l !! Z.to_nat i = Some x.
Proof.
  unfold array_at, zlen. destruct (l !! Z.to_nat i) eqn:E; [|done]. zcases; [|done].
  intros [= ->]. apply lookup_lt_Some in E as Hlt. split; [lia|done].
Qed.

Lemma last_size : CalculateSize (kNumSizeClasses - 1) = SizeConfig.MAX_TC_SIZE.
Proof. reflexivity. Qed.

Lemma CalculateIndex_range s : 0 <= s <= SizeConfig.MAX_TC_SIZE -> 0 <= CalculateIndex s < kNumSizeClasses.
Proof.
  intros Hs. destruct (Z.eq_dec s 0) as [->|Hne]; [vm_compute; split; congruence|].
  destruct (CalculateIndex_fits s ltac:(lia)) as (H0 & _ & Hmin). split; [done|].
  destruct (Z.lt_ge_cases (CalculateIndex s) kNumSizeClasses) as [|Hge]; [done|].
  specialize (Hmin (kNumSizeClasses - 1)). rewrite last_size in Hmin.
  assert (1 <= kNumSizeClasses) by (vm_compute; congruence). specialize (Hmin ltac:(lia)). lia.
Qed.

Lemma Index_ret s : 0 <= s <= SizeConfig.MAX_TC_SIZE -> Index s = Ret (CalculateIndex s).
Proof.
  intros Hs. unfold Index. rewrite (proj2 (Z.ltb_ge _ s)) by lia.
  destruct (Z.leb_spec s SizeConfig.kSmallSizeThreshold) as [Hle|]; [|done].
  unfold small_index_table_. rewrite array_at_table by lia. f_equal. apply wrap_small.
  pose proof (CalculateIndex_range s Hs) as Hr. change kNumSizeClasses with 48 in Hr.
  unfold in_u. change (2 ^ 8) with 256. lia.
Qed.

Lemma CalculateSize_range i : 0 <= i < kNumSizeClasses -> 8 <= CalculateSize i <= SizeConfig.MAX_TC_SIZE.
Proof.
  intros Hi. split; [apply CalculateSize_min; lia|]. rewrite <- last_size. apply CalculateSize_le. lia.
Qed.

Lemma Size_ret i : 0 <= i < kNumSizeClasses -> Size i = Ret (CalculateSize i).
Proof.
  intros Hi. unfold Size, size_table_. rewrite array_at_table by done. f_equal. apply wrap_small.
  pose proof (CalculateSize_range i Hi) as Hr. unfold SizeConfig.MAX_TC_SIZE in Hr.
  unfold in_u. change (2 ^ 32) with 4294967296. lia.
Qed.

Lemma Size_inv i c : Size i = Ret c -> 0 <= i < kNumSizeClasses /\ c = CalculateSize i.
Proof.
  intros H. assert (Hi : 0 <= i < kNumSizeClasses).
  { unfold Size in H. apply array_at_ret in H as [Hi _]. exact Hi. }
  rewrite Size_ret in H by done. split; [done|]. congruence.
Qed.

Lemma index_le_iff s i : 0 <= s -> 0 <= i -> CalculateIndex s <= i <-> s <= CalculateSize i.
Proof.
  intros Hs Hi. destruct (Z.eq_dec s 0) as [->|Hne].
  { change (CalculateIndex 0) with 0. pose proof (CalculateSize_min i Hi). lia. }
  destruct (CalculateIndex_fits s ltac:(lia)) as (H0 & Hfit & Hmin). split.
  - intros Hle. etrans; [exact Hfit|]. apply CalculateSize_le. lia.
  - intros Hle. destruct (Z.le_gt_cases (CalculateIndex s) i) as [|Hgt]; [done|].
    specialize (Hmin i). lia.
Qed.

Lemma index_of_size i : 0 <= i -> CalculateIndex (CalculateSize i) = i.
Proof.
  intros Hi. pose proof (CalculateSize_min i Hi) as H8. apply Z.le_antisymm.
  - apply index_le_iff; [lia|done|done].
  - destruct (Z.le_gt_cases i (CalculateIndex (CalculateSize i))) as [|Hgt]; [done|].
    destruct (CalculateIndex_fits (CalculateSize i) ltac:(lia)) as (H0 & Hfit & _).
    pose proof (CalculateSize_mono (CalculateIndex (CalculateSize i)) i). lia.
Qed.

(** Internal fragmentation above the linear part stays below a quarter. *)
Lemma size_waste s : 128 < s -> 4 * (CalculateSize (CalculateIndex s) - s) < s.
Proof.
  intros Hs. destruct (CalculateIndex_large s Hs) as (m & k & Hm & Hk & -> & Hlo & _).
  rewrite CalculateSize_large by done. destruct (pow_quarter m Hm) as (Hp & H4 & _). nia.
Qed.

Lemma RoundUp_ret s : 0 <= s <= SizeConfig.MAX_TC_SIZE -> RoundUp s = Ret (CalculateSize (CalculateIndex s)).
Proof.
  intros Hs. unfold RoundUp. rewrite Index_ret by done. simpl.
  pose proof (CalculateIndex_range s Hs) as Hr. change kNumSizeClasses with 48 in Hr.
  rewrite (proj2 (Z.eqb_neq _ UINT64_MAX)) by (unfold UINT64_MAX; lia).
  apply Size_ret. change kNumSizeClasses with 48. lia.
Qed.
End SizeClass.
Import SizeClass.

(** ** Properties *)

(** [Index] and [Size] form a Galois connection on the whole range of
    cacheable sizes (the header only samples class boundaries): the class of
    [s] is at most [i] exactly when objects of class [i] can hold [s] bytes, the
    table fast path included, and [Index] inverts [Size]. *)
Theorem size_class_galois s i :
  0 <= s <= SizeConfig.MAX_TC_SIZE -> 0 <= i < kNumSizeClasses ->
  exists j c, Index s = Ret j /\ 0 <= j < kNumSizeClasses /\ Size i = Ret c /\
    (j <= i <-> s <= c) /\ Index c = Ret i.
Proof.
  intros Hs Hi. exists (CalculateIndex s), (CalculateSize i).
  pose proof (CalculateSize_range i Hi) as Hc.
  split_and!; [by apply Index_ret|by apply CalculateIndex_range..|by apply Size_ret|apply index_le_iff; lia|].
  rewrite Index_ret by lia. f_equal. apply index_of_size. lia.
Qed.

Lemma size_class_galois_witness : exists j c, Index 129 = Ret j /\ Size 16 = Ret c /\ Index c = Ret 16.
Proof.
  destruct (size_class_galois 129 16) as (j & c & H1 & _ & H2 & _ & H3); [vm_compute; split; congruence..|].
  by exists j, c.
Defined.

(** [RoundUp] returns the smallest class size that holds the request, is
    idempotent, and wastes less than a quarter of the request above 128 bytes;
    larger requests pass through unchanged. *)
Theorem RoundUp_smallest s :
  0 <= s <= UINT64_MAX ->
  exists c, RoundUp s = Ret c /\ s <= c /\
    (s <= SizeConfig.MAX_TC_SIZE ->
       (exists i, Size i = Ret c) /\ (forall i c', Size i = Ret c' -> s <= c' -> c <= c') /\
       RoundUp c = Ret c /\ (128 < s -> 4 * (c - s) < s)) /\
    (SizeConfig.MAX_TC_SIZE < s -> c = s).
Proof.
  intros Hs. destruct (Z.le_gt_cases s SizeConfig.MAX_TC_SIZE) as [Hle|Hgt].
  - exists (CalculateSize (CalculateIndex s)).
    pose proof (CalculateIndex_range s ltac:(lia)) as Hi. pose proof (CalculateSize_range _ Hi) as Hc.
    split_and!; [by apply RoundUp_ret; lia|apply index_le_iff; lia| |lia].
    intros _. split_and!.
    + exists (CalculateIndex s). by apply Size_ret.
    + intros i c' Hsz Hc'. apply Size_inv in Hsz as [Hir ->].
      apply (index_le_iff s i) in Hc'; [|lia..].
      apply CalculateSize_le. lia.
    + rewrite RoundUp_ret by lia. by rewrite index_of_size by lia.
    + apply size_waste.
  - exists s. unfold RoundUp, Index. rewrite (proj2 (Z.ltb_lt _ s)) by done. simpl.
    split_and!; [done|lia|lia|done].
Qed.

Lemma RoundUp_smallest_witness : exists c, RoundUp 1000 = Ret c /\ 1000 <= c.
Proof.
  destruct (RoundUp_smallest 1000) as (c & H1 & H2 & _); [vm_compute; split; congruence|]. by exists c.
Defined.
