(* ===== verification/SpanAlloc.v ===== *)
(** * SpanAlloc: object allocation inside a span

    [ammalloc/src/span.cpp] and the accessors of
    [ammalloc/include/ammalloc/span.h]. A span is one range of pages whose
    first bytes hold a bitmap (bit set = object free) followed by the objects.
    The record keeps the metadata at its width; the bitmap words written by
    [Init] are a list, and touching a word beyond them (that memory belongs to
    the objects) is [Panic]. [AMMALLOC_DCHECK]s are kept, and shown never to
    fire under the invariant, so release builds behave the same. *)
From S2P Require Import Prelude SizeClasses.
Import SizeClass.

(** ** Bit operations *)

(** Rounding up to a multiple of [ALIGNMENT] by masking. *)
Definition align16 (x : Z) : Z :=
  Z.land (x + SystemConfig.ALIGNMENT - 1) (Z.lnot (SystemConfig.ALIGNMENT - 1)).

(** ** Metadata *)

(* @src ammalloc/include/ammalloc/span.h:20-54 Span *)
Record Span := mkSpan {
  start_page_idx : Z; page_num : Z; flags : Z; size_class_idx : Z;
  aligned_obj_size : Z; capacity : Z; use_count : Z; scan_cursor : Z;
  obj_offset : Z; owner_shard_id : Z; last_used_time_ms : Z }.

Definition kUsedMask : Z := 1.
Definition kCommittedMask : Z := 2.

Definition set_flags (sp : Span) (f : Z) : Span :=
  mkSpan (start_page_idx sp) (page_num sp) f (size_class_idx sp) (aligned_obj_size sp) (capacity sp)
    (use_count sp) (scan_cursor sp) (obj_offset sp) (owner_shard_id sp) (last_used_time_ms sp).

(** The two counters [AllocObject] and [FreeObject] change. *)
Definition set_counters (sp : Span) (used cursor : Z) : Span :=
  mkSpan (start_page_idx sp) (page_num sp) (flags sp) (size_class_idx sp) (aligned_obj_size sp)
    (capacity sp) used cursor (obj_offset sp) (owner_shard_id sp) (last_used_time_ms sp).

(* @src ammalloc/include/ammalloc/span.h:57-59 Span::IsUsed *)
Definition IsUsed (sp : Span) : bool := negb (Z.land (flags sp) kUsedMask =? 0).
(* @src ammalloc/include/ammalloc/span.h:63-65 Span::IsCommitted *)
Definition IsCommitted (sp : Span) : bool := negb (Z.land (flags sp) kCommittedMask =? 0).
(* @src ammalloc/include/ammalloc/span.h:69-71 Span::SetUsed *)
Definition SetUsed (sp : Span) (used : bool) : Span :=
  set_flags sp (u16 (Z.lor (Z.land (flags sp) (Z.lnot kUsedMask)) (if used then kUsedMask else 0))).
(* @src ammalloc/include/ammalloc/span.h:75-77 Span::SetCommitted *)
Definition SetCommitted (sp : Span) (committed : bool) : Span :=
  set_flags sp (u16 (Z.lor (Z.land (flags sp) (Z.lnot kCommittedMask)) (if committed then kCommittedMask else 0))).

(* @src ammalloc/include/ammalloc/span.h:82-84 Span::GetPageBaseAddr *)
Definition GetPageBaseAddr (sp : Span) : Z := u64 (Z.shiftl (start_page_idx sp) SystemConfig.PAGE_SHIFT).
(** [capacity + 63] is computed at 32 bits. *)
(* @src ammalloc/include/ammalloc/span.h:94-96 Span::GetBitmapNum *)
Definition GetBitmapNum (sp : Span) : Z := Z.shiftr (u32 (capacity sp + 63)) 6.
(* @src ammalloc/include/ammalloc/span.h:100-102 Span::GetDataBasePtr *)
Definition GetDataBasePtr (sp : Span) : Z := u64 (GetPageBaseAddr sp + obj_offset sp).

(** ** Operations *)

(** The bitmap after initialization: [full] words of ones, one word with the
    tail bits, zeroes. *)
(* @src ammalloc/src/span.cpp:28-40 Span::Init (bitmap) *)
Definition init_bitmap (cap bitmap_num : Z) : list Z :=
  let full_bitmap_num := cap / 64 in
  let tail_bits := Z.land cap 63 in
  table bitmap_num (fun i =>
    if i <? full_bitmap_num then UINT64_MAX
    else if i =? full_bitmap_num then if tail_bits =? 0 then 0 else Z.shiftl 1 tail_bits - 1
    else 0).

(** The sizes [Init] computes: bitmap words, offset of the first object,
    capacity. [page_num << PAGE_SHIFT] and [aligned_obj_size * 8 + 1] are 32-bit
    expressions. *)
(* @src ammalloc/src/span.cpp:10-26 Span::Init (layout) *)
Definition init_layout (start_page pages size : Z) : Z * Z * Z :=
  let start_ptr := u64 (Z.shiftl start_page SystemConfig.PAGE_SHIFT) in
  let total_bytes := u32 (Z.shiftl pages SystemConfig.PAGE_SHIFT) in
  let max_objs := u64 (total_bytes * 8) / u32 (size * 8 + 1) in
  let bitmap_num := Z.shiftr (max_objs + 64 - 1) 6 in
  let data_start := u64 (align16 (u64 (start_ptr + bitmap_num * 8))) in
  let offset := u32 (data_start - start_ptr) in
  let data_end := u64 (start_ptr + total_bytes) in
  let cap := if data_end <=? data_start then 0 else u32 ((data_end - data_start) / size) in
  (bitmap_num, offset, cap).

(* @src ammalloc/src/span.cpp:6-44 Span::Init *)
Definition Init (sp : Span) (aligned_object_size : Z) : Res (Span * list Z) :=
  _ ← am_check ((0 <? aligned_object_size) && (aligned_object_size <=? UINT32_MAX)) "Span::Init";
  let size := u32 aligned_object_size in
  idx ← Index size;
  let '(bitmap_num, offset, cap) := init_layout (start_page_idx sp) (page_num sp) size in
  Ret (mkSpan (start_page_idx sp) (page_num sp) (flags sp) (u16 idx) size cap 0 0 offset
         (owner_shard_id sp) (last_used_time_ms sp),
       init_bitmap cap bitmap_num).

(** One pass of the loop over the words [i, i + n). *)
(* @src ammalloc/src/span.cpp:54-69 Span::AllocObject (loop) *)
Fixpoint alloc_scan (n : nat) (i : Z) (sp : Span) (bitmap : list Z)
    : Res (option Z * (Span * list Z)) :=
  match n with
  | O => Ret (None, (sp, bitmap))
  | S n' =>
      val ← array_at bitmap i;
      if val =? 0 then alloc_scan n' (i + 1) sp bitmap
      else
        let bit_pos := countr_zero val in
        let val := Z.land val (Z.lnot (Z.shiftl 1 bit_pos)) in
        let bitmap := <[Z.to_nat i := val]> bitmap in
        let cursor := if val =? 0 then u32 (i + 1) else u32 i in
        let global_obj_idx := i * 64 + bit_pos in
        Ret (Some (u64 (GetDataBasePtr sp + global_obj_idx * aligned_obj_size sp)),
             (set_counters sp (u32 (use_count sp + 1)) cursor, bitmap))
  end.

(* @src ammalloc/src/span.cpp:46-71 Span::AllocObject *)
Definition AllocObject (st : Span * list Z) : Res (option Z * (Span * list Z)) :=
  let '(sp, bitmap) := st in
  if capacity sp <=? use_count sp then Ret (None, st)
  else alloc_scan (Z.to_nat (GetBitmapNum sp - scan_cursor sp)) (scan_cursor sp) sp bitmap.

(** The object number of an offset: a shift for powers of two. *)
(* @src ammalloc/src/span.cpp:78-85 Span::FreeObject (index) *)
Definition object_index (offset size : Z) : Z :=
  if has_single_bit size then Z.shiftr offset (countr_zero size) else offset / size.

(* @src ammalloc/src/span.cpp:73-96 Span::FreeObject *)
Definition FreeObject (st : Span * list Z) (ptr : Z) : Res (Span * list Z) :=
  let '(sp, bitmap) := st in
  let base_ptr := GetDataBasePtr sp in
  _ ← am_check (base_ptr <=? ptr) "Pointer underflow detected!";
  let offset := u64 (ptr - base_ptr) in
  _ ← am_check (offset mod aligned_obj_size sp =? 0) "offset % aligned_obj_size == 0";
  let global_obj_idx := object_index offset (aligned_obj_size sp) in
  let bitmap_idx := u32 (Z.shiftr global_obj_idx 6) in
  _ ← am_check (bitmap_idx <? GetBitmapNum sp) "bitmap_idx < GetBitmapNum()";
  let bit_pos := Z.land global_obj_idx 63 in
  let mask := Z.shiftl 1 bit_pos in
  val ← array_at bitmap bitmap_idx;
  _ ← am_check (Z.land val mask =? 0) "double free detected.";
  Ret (set_counters sp (u32 (use_count sp - 1)) (Z.min (scan_cursor sp) bitmap_idx),
       <[Z.to_nat bitmap_idx := Z.lor val mask]> bitmap).

(** ** Lemmas: bits *)

Lemma ctz_pos_lowest p :
  Z.testbit (Z.pos p) (ctz_pos p) = true /\ forall i, 0 <= i < ctz_pos p -> Z.testbit (Z.pos p) i = false.
Proof.
  induction p as [p IH|p IH|]; simpl ctz_pos; [split; [done|lia]| |split; [done|lia]].
  pose proof (ctz_pos_nonneg p) as H0. destruct IH as [IH1 IH2].
  assert (HS : forall k, 0 <= k -> Z.testbit (Z.pos p~0) (1 + k) = Z.testbit (Z.pos p) k).
  { intros k Hk. replace (1 + k) with (Z.succ k) by lia. rewrite Pos2Z.inj_xO. by apply Z.testbit_even_succ. }
  split; [by rewrite HS|]. intros i Hi. destruct (Z.eq_dec i 0) as [->|Hne]; [done|].
  replace i with (1 + (i - 1)) by lia. rewrite HS by lia. apply IH2. lia.
Qed.

Lemma countr_zero_lowest v :
  in_u 64 v -> v <> 0 ->
  0 <= countr_zero v < 64 /\ Z.testbit v (countr_zero v) = true /\
  forall i, 0 <= i < countr_zero v -> Z.testbit v i = false.
Proof.
  intros [H0 H1] Hv. destruct v as [|p|p]; [done| |lia]. simpl.
  destruct (ctz_pos_lowest p) as [Ht Hl]. pose proof (ctz_pos_nonneg p) as Hn.
  split; [|done]. split; [done|]. destruct (Z.lt_ge_cases (ctz_pos p) 64) as [|Hge]; [done|].
  rewrite (Z.bits_above_log2 (Z.pos p) (ctz_pos p)) in Ht; [done|lia|].
  apply Z.lt_le_trans with 64; [|done]. apply Z.log2_lt_pow2; lia.
Qed.

Lemma testbit_one_shift b i : 0 <= b -> 0 <= i -> Z.testbit (Z.shiftl 1 b) i = (i =? b).
Proof.
  intros Hb Hi. rewrite Z.shiftl_mul_pow2, Z.mul_1_l by done. rewrite Z.pow2_bits_eqb by done.
  apply Z.eqb_sym.
Qed.

(** Clearing and setting one bit of a word. *)
Lemma clear_bit v b i : 0 <= b -> 0 <= i ->
  Z.testbit (Z.land v (Z.lnot (Z.shiftl 1 b))) i = Z.testbit v i && negb (i =? b).
Proof. intros Hb Hi. by rewrite Z.land_spec, Z.lnot_spec, testbit_one_shift by lia. Qed.

Lemma set_bit v b i : 0 <= b -> 0 <= i ->
  Z.testbit (Z.lor v (Z.shiftl 1 b)) i = Z.testbit v i || (i =? b).
Proof. intros Hb Hi. by rewrite Z.lor_spec, testbit_one_shift by lia. Qed.

Lemma word_above v i : in_u 64 v -> 64 <= i -> Z.testbit v i = false.
Proof.
  intros [H0 H1] Hi. destruct (Z.eq_dec v 0) as [->|Hv]; [apply Z.testbit_0_l|].
  apply Z.bits_above_log2; [lia|]. apply Z.lt_le_trans with 64; [|done]. apply Z.log2_lt_pow2; lia.
Qed.

(** A non-negative number without bits from 64 on is a word. *)
Lemma word_of_bits v : 0 <= v -> (forall i, 64 <= i -> Z.testbit v i = false) -> in_u 64 v.
Proof.
  intros H0 Hb. split; [done|]. destruct (Z.eq_dec v 0) as [->|Hv]; [done|].
  apply Z.log2_lt_pow2; [lia|]. destruct (Z.lt_ge_cases (Z.log2 v) 64) as [|Hge]; [done|].
  specialize (Hb _ Hge). rewrite Z.bit_log2 in Hb by lia. done.
Qed.

Lemma clear_bit_word v b : in_u 64 v -> 0 <= b -> in_u 64 (Z.land v (Z.lnot (Z.shiftl 1 b))).
Proof.
  intros Hv Hb. apply word_of_bits.
  - apply Z.land_nonneg. left. apply Hv.
  - intros i Hi. rewrite clear_bit by lia. by rewrite (word_above v i).
Qed.

Lemma set_bit_word v b : in_u 64 v -> 0 <= b < 64 -> in_u 64 (Z.lor v (Z.shiftl 1 b)).
Proof.
  intros Hv Hb. apply word_of_bits.
  - apply Z.lor_nonneg. split; [apply Hv|]. apply Z.shiftl_nonneg. lia.
  - intros i Hi. rewrite set_bit by lia. rewrite (word_above v i) by done. simpl. lia.
Qed.

Lemma mask_test v b : 0 <= b -> (Z.land v (Z.shiftl 1 b) =? 0) = negb (Z.testbit v b).
Proof.
  intros Hb. destruct (Z.testbit v b) eqn:E; simpl.
  - apply Z.eqb_neq. intros H. assert (Z.testbit (Z.land v (Z.shiftl 1 b)) b = false) as Hf
      by (rewrite H; apply Z.testbit_0_l).
    rewrite Z.land_spec, testbit_one_shift, E, Z.eqb_refl in Hf by done. done.
  - apply Z.eqb_eq. apply Z.bits_inj'. intros i Hi.
    rewrite Z.land_spec, testbit_one_shift, Z.testbit_0_l by done.
    destruct (Z.eqb_spec i b) as [->|]; [by rewrite E|apply andb_false_r].
Qed.

Lemma object_index_div offset size : 0 <= offset -> object_index offset size = offset / size.
Proof.
  intros Ho. unfold object_index. destruct (has_single_bit size) eqn:E; [|done].
  apply single_bit_pow in E as [Hp H0]. rewrite Z.shiftr_div_pow2 by done. by rewrite <- Hp.
Qed.

Lemma align16_spec x : align16 x = (x + 15) / 16 * 16.
Proof.
  unfold align16, SystemConfig.ALIGNMENT. change (16 - 1) with (Z.ones 4).
  replace (x + 16 - 1) with (x + 15) by lia. rewrite <- Z.ldiff_land, Z.ldiff_ones_r by lia.
  rewrite Z.shiftl_mul_pow2, Z.shiftr_div_pow2 by lia. done.
Qed.

(** ** The invariant *)

(** Object [j] is free. *)
Definition free_bit (bitmap : list Z) (j : Z) : bool :=
  match bitmap !! Z.to_nat (j / 64) with Some w => Z.testbit w (j mod 64) | None => false end.

Definition free_list (cap : Z) (bitmap : list Z) : list Z :=
  filter (fun j => free_bit bitmap j = true) (seqZ 0 cap).

(** Bitmap, padding and objects lie one after the other inside the pages; the
    set bits are the free objects; the counter counts the others; no free
    object lies before the scan cursor. *)
Record span_wf (sp : Span) (bitmap : list Z) : Prop := {
  sw_start : 0 <= start_page_idx sp;
  sw_size : 0 < aligned_obj_size sp;
  sw_cap : 0 <= capacity sp <= 64 * zlen bitmap;
  sw_bitmap : 8 * zlen bitmap <= obj_offset sp;
  sw_fits : 0 < capacity sp ->
    obj_offset sp + capacity sp * aligned_obj_size sp <= page_num sp * SystemConfig.PAGE_SIZE;
  sw_space : start_page_idx sp * SystemConfig.PAGE_SIZE + page_num sp * SystemConfig.PAGE_SIZE < 2 ^ 64;
  sw_bound : capacity sp + 63 < 2 ^ 32 /\ obj_offset sp < 2 ^ 32;
  sw_pages : 0 <= page_num sp;
  sw_base : start_page_idx sp * SystemConfig.PAGE_SIZE + obj_offset sp < 2 ^ 64;
  sw_words : Forall (in_u 64) bitmap;
  sw_free : forall j, 0 <= j -> free_bit bitmap j = true -> j < capacity sp;
  sw_count : use_count sp + zlen (free_list (capacity sp) bitmap) = capacity sp;
  sw_cursor : 0 <= scan_cursor sp <= zlen bitmap;
  sw_scanned : forall j, 0 <= j < 64 * scan_cursor sp -> free_bit bitmap j = false }.

(** The address of object [j]. *)
Definition object_addr (sp : Span) (j : Z) : Z :=
  start_page_idx sp * SystemConfig.PAGE_SIZE + obj_offset sp + j * aligned_obj_size sp.

Lemma data_base sp bm : span_wf sp bm -> GetDataBasePtr sp = object_addr sp 0.
Proof.
  intros []. unfold GetDataBasePtr, GetPageBaseAddr, object_addr, zlen in *.
  rewrite Z.shiftl_mul_pow2 by (unfold SystemConfig.PAGE_SHIFT; lia).
  change (2 ^ SystemConfig.PAGE_SHIFT) with SystemConfig.PAGE_SIZE.
  unfold SystemConfig.PAGE_SIZE in *.
  rewrite !wrap_small; unfold in_u; try lia. rewrite wrap_small; unfold in_u; lia.
Qed.

Lemma object_addr_range sp bm j :
  span_wf sp bm -> 0 <= j < capacity sp ->
  start_page_idx sp * SystemConfig.PAGE_SIZE + 8 * zlen bm <= object_addr sp j /\
  object_addr sp j + aligned_obj_size sp <=
    start_page_idx sp * SystemConfig.PAGE_SIZE + page_num sp * SystemConfig.PAGE_SIZE.
Proof. intros [] Hj. unfold object_addr. specialize (sw_fits0 ltac:(lia)). nia. Qed.

Lemma bitmap_num sp bm : span_wf sp bm -> GetBitmapNum sp = (capacity sp + 63) / 64.
Proof.
  intros []. unfold GetBitmapNum. rewrite wrap_small by (unfold in_u; lia).
  by rewrite Z.shiftr_div_pow2 by lia.
Qed.

Lemma free_list_in cap bm j : j ∈ free_list cap bm <-> 0 <= j < cap /\ free_bit bm j = true.
Proof. unfold free_list. rewrite list_elem_of_filter, elem_of_seqZ. split; intros [? ?]; split; done || lia. Qed.

Lemma filter_ext_in (P Q : Z -> bool) (l : list Z) :
  (forall i, i ∈ l -> Q i = P i) -> filter (fun i => Q i = true) l = filter (fun i => P i = true) l.
Proof.
  induction l as [|x l IH]; intros H; [done|]. rewrite !filter_cons, (H x) by left.
  rewrite IH by (intros i Hi; apply H; by right). done.
Qed.

(** Removing one element from a filter predicate removes one element. *)
Lemma filter_remove (P Q : Z -> bool) (l : list Z) j :
  NoDup l -> j ∈ l -> P j = true -> (forall i, i ∈ l -> Q i = P i && negb (i =? j)) ->
  length (filter (fun i => P i = true) l) = S (length (filter (fun i => Q i = true) l)).
Proof.
  intros Hnd Hj HP HQ. induction l as [|x l IH]; [by apply elem_of_nil in Hj|].
  apply NoDup_cons in Hnd as [Hx Hnd]. rewrite !filter_cons. rewrite (HQ x ltac:(left)).
  apply elem_of_cons in Hj as [->|Hj].
  - rewrite decide_True by done. rewrite decide_False by (rewrite Z.eqb_refl, andb_false_r; done). simpl. do 2 f_equal.
    symmetry. apply filter_ext_in. intros i Hi. rewrite (HQ i) by (by right).
    destruct (Z.eqb_spec i x) as [->|]; [done|]. by rewrite andb_true_r.
  - assert (x <> j) by (intros ->; done). rewrite (proj2 (Z.eqb_neq x j)), andb_true_r by done.
    assert (HQ' : forall i, i ∈ l -> Q i = P i && negb (i =? j)) by (intros i Hi; apply HQ; by right).
    destruct (decide (P x = true)); simpl; rewrite (IH Hnd Hj HQ'); done.
Qed.

(** Replacing word [i] only affects the bits of that word. *)
Lemma free_bit_insert bm i w j :
  0 <= i < zlen bm -> 0 <= j ->
  free_bit (<[Z.to_nat i := w]> bm) j = if j / 64 =? i then Z.testbit w (j mod 64) else free_bit bm j.
Proof.
  unfold zlen. intros Hi Hj. unfold free_bit. destruct (Z.eqb_spec (j / 64) i) as [->|Hne].
  - by rewrite list_lookup_insert_eq by lia.
  - rewrite list_lookup_insert_ne; [done|]. pose proof (Z.div_pos j 64). lia.
Qed.

Lemma bit_position i b j : 0 <= b < 64 -> j / 64 = i /\ j mod 64 = b <-> j = i * 64 + b.
Proof. intros Hb. split; intros H; dlia. Qed.

(** Clearing bit [b] of word [i] takes object [64 i + b] out of the free set. *)
Lemma free_bit_clear bm i b v j :
  bm !! Z.to_nat i = Some v -> 0 <= i -> 0 <= b < 64 -> 0 <= j ->
  free_bit (<[Z.to_nat i := Z.land v (Z.lnot (Z.shiftl 1 b))]> bm) j =
  free_bit bm j && negb (j =? i * 64 + b).
Proof.
  intros Hv Hi Hb Hj. apply lookup_lt_Some in Hv as Hlt.
  rewrite free_bit_insert by (unfold zlen; lia).
  pose proof (Z.mod_pos_bound j 64 ltac:(lia)) as Hm. pose proof (bit_position i b j Hb) as Hbp.
  destruct (Z.eqb_spec (j / 64) i) as [Hd|Hd].
  - rewrite clear_bit by lia. unfold free_bit. rewrite Hd, Hv. f_equal. f_equal.
    destruct (Z.eqb_spec (j mod 64) b), (Z.eqb_spec j (i * 64 + b)); tauto.
  - destruct (Z.eqb_spec j (i * 64 + b)); [tauto|]. by rewrite andb_true_r.
Qed.

Lemma free_bit_set bm i b v j :
  bm !! Z.to_nat i = Some v -> 0 <= i -> 0 <= b < 64 -> 0 <= j ->
  free_bit (<[Z.to_nat i := Z.lor v (Z.shiftl 1 b)]> bm) j = free_bit bm j || (j =? i * 64 + b).
Proof.
  intros Hv Hi Hb Hj. apply lookup_lt_Some in Hv as Hlt.
  rewrite free_bit_insert by (unfold zlen; lia).
  pose proof (Z.mod_pos_bound j 64 ltac:(lia)) as Hm. pose proof (bit_position i b j Hb) as Hbp.
  destruct (Z.eqb_spec (j / 64) i) as [Hd|Hd].
  - rewrite set_bit by lia. unfold free_bit. rewrite Hd, Hv. f_equal.
    destruct (Z.eqb_spec (j mod 64) b), (Z.eqb_spec j (i * 64 + b)); tauto.
  - destruct (Z.eqb_spec j (i * 64 + b)); [tauto|]. by rewrite orb_false_r.
Qed.

Lemma free_bit_none bm j : 64 * zlen bm <= j -> free_bit bm j = false.
Proof.
  unfold zlen, free_bit. intros Hj. rewrite (proj2 (lookup_ge_None bm _)); [done|].
  assert (Z.of_nat (length bm) <= j / 64) by dlia. lia.
Qed.

(** What a successful allocation of object [j] does. *)
Record allocated (sp : Span) (bm : list Z) (j : Z) (sp' : Span) (bm' : list Z) : Prop := {
  al_range : 0 <= j < capacity sp;
  al_was_free : free_bit bm j = true;
  al_lowest : forall i, 0 <= i < j -> free_bit bm i = false;
  al_bits : forall i, 0 <= i -> free_bit bm' i = free_bit bm i && negb (i =? j);
  al_count : use_count sp' = use_count sp + 1;
  al_wf : span_wf sp' bm' }.

(** Taking the lowest bit of the first non-zero word. *)
Lemma take_lowest sp bm i v :
  span_wf sp bm -> 0 <= i -> bm !! Z.to_nat i = Some v -> v <> 0 ->
  (forall j, 0 <= j < 64 * i -> free_bit bm j = false) ->
  let b := countr_zero v in
  let v' := Z.land v (Z.lnot (Z.shiftl 1 b)) in
  allocated sp bm (i * 64 + b)
    (set_counters sp (u32 (use_count sp + 1)) (if v' =? 0 then u32 (i + 1) else u32 i))
    (<[Z.to_nat i := v']> bm).
Proof.
  intros HW Hi Hv Hv0 Hlow b v'. apply lookup_lt_Some in Hv as Hlt.
  assert (Hw : in_u 64 v) by exact (Forall_lookup_1 _ _ _ _ (sw_words _ _ HW) Hv).
  destruct (countr_zero_lowest v Hw Hv0) as (Hb & Ht & Hbl). fold b in Hb, Ht, Hbl.
  assert (Hat : forall c, 0 <= c < 64 -> free_bit bm (i * 64 + c) = Z.testbit v c).
  { intros c Hc. unfold free_bit. destruct (proj2 (bit_position i c (i * 64 + c) Hc) eq_refl) as [-> ->]. by rewrite Hv. }
  assert (Hfree : free_bit bm (i * 64 + b) = true) by (by rewrite Hat).
  assert (Hlowest : forall k, 0 <= k < i * 64 + b -> free_bit bm k = false).
  { intros k Hk. destruct (Z.lt_ge_cases k (64 * i)); [apply Hlow; lia|].
    replace k with (i * 64 + (k - i * 64)) by lia. rewrite Hat by lia. apply Hbl. lia. }
  assert (Hbits : forall k, 0 <= k ->
    free_bit (<[Z.to_nat i := v']> bm) k = free_bit bm k && negb (k =? i * 64 + b))
    by (intros; by apply free_bit_clear).
  pose proof (sw_free _ _ HW (i * 64 + b) ltac:(lia) Hfree) as Hcap.
  destruct HW as [H1 H2 H3 H4 H5 H6 [H7 H7'] H8 H9 Hwords Hf Hcount Hcur Hscan].
  assert (Hrem : zlen (free_list (capacity sp) bm) =
                 zlen (free_list (capacity sp) (<[Z.to_nat i := v']> bm)) + 1).
  { unfold zlen, free_list. erewrite (filter_remove (free_bit bm) (free_bit (<[Z.to_nat i := v']> bm)) _ (i * 64 + b));
      [lia|apply NoDup_seqZ|apply elem_of_seqZ; lia|done|].
    intros k Hk. apply elem_of_seqZ in Hk. apply Hbits. lia. }
  assert (Huse : u32 (use_count sp + 1) = use_count sp + 1).
  { apply wrap_small. unfold in_u, zlen in *.
    assert (use_count sp + Z.of_nat (length (free_list (capacity sp) bm)) = capacity sp) by done.
    assert (Hle : (length (free_list (capacity sp) bm) <= Z.to_nat (capacity sp))%nat).
    { unfold free_list. etrans; [apply length_filter|]. by rewrite length_seqZ. }
    lia. }
  unfold zlen in Hcur, H3.
  assert (Hc0 : u32 i = i /\ u32 (i + 1) = i + 1) by (rewrite !wrap_small; unfold in_u, zlen in *; lia).
  destruct Hc0 as [Hc0 Hc1].
  split; [lia|done|done|done|done|].
  split; simpl; rewrite ?Huse, ?Hc0, ?Hc1; unfold zlen in *; rewrite ?length_insert; try done; try lia.
  - apply Forall_insert; [done|]. by apply clear_bit_word; [|lia].
  - intros k Hk Hkf. rewrite Hbits in Hkf by done. apply Hf; [done|]. by destruct (free_bit bm k).
  - destruct (v' =? 0); lia.
  - intros k Hk. rewrite Hbits by lia. destruct (Z.eqb_spec v' 0) as [Hz|Hz].
    + destruct (Z.lt_ge_cases k (64 * i)) as [|Hge]; [by rewrite Hlow by lia|].
      assert (Hkb : Z.testbit v' (k - i * 64) = false) by (rewrite Hz; apply Z.testbit_0_l).
      unfold v' in Hkb. rewrite clear_bit in Hkb by lia.
      replace k with (i * 64 + (k - i * 64)) at 1 by lia. rewrite Hat by lia.
      rewrite <- Hkb. f_equal. f_equal. destruct (Z.eqb_spec k (i * 64 + b)), (Z.eqb_spec (k - i * 64) b); lia.
    + by rewrite Hlow by lia.
Qed.

Lemma zero_word bm i : 0 <= i -> bm !! Z.to_nat i = Some 0 ->
  (forall j, 0 <= j < 64 * i -> free_bit bm j = false) ->
  forall j, 0 <= j < 64 * (i + 1) -> free_bit bm j = false.
Proof.
  intros Hi Hw Hlow j Hj. destruct (Z.lt_ge_cases j (64 * i)); [apply Hlow; lia|].
  unfold free_bit. replace (j / 64) with i by dlia. rewrite Hw. apply Z.testbit_0_l.
Qed.

Lemma alloc_scan_spec sp bm n : forall i,
  span_wf sp bm -> 0 <= i -> Z.of_nat n = GetBitmapNum sp - i ->
  (forall j, 0 <= j < 64 * i -> free_bit bm j = false) ->
  (exists j, 0 <= j /\ free_bit bm j = true) ->
  exists j sp' bm', alloc_scan n i sp bm = Ret (Some (object_addr sp j), (sp', bm')) /\
    allocated sp bm j sp' bm' /\ sp' = set_counters sp (use_count sp') (scan_cursor sp').
Proof.
  induction n as [|n IH]; intros i HW Hi Hn Hlow [j0 [Hj0 Hf0]].
  - exfalso. pose proof (sw_free _ _ HW j0 Hj0 Hf0) as Hc.
    rewrite (bitmap_num sp bm HW) in Hn. rewrite Hlow in Hf0; [done|]. dlia.
  - simpl. assert (Hlt : (Z.to_nat i < length bm)%nat).
    { rewrite (bitmap_num sp bm HW) in Hn. pose proof (sw_cap _ _ HW) as Hc. unfold zlen in Hc. dlia. }
    destruct (lookup_lt_is_Some_2 bm _ Hlt) as [v Hv].
    assert (array_at bm i = Ret v) as ->
      by (unfold array_at; rewrite Hv; by rewrite (proj2 (Z.leb_le 0 i))).
    simpl. destruct (Z.eqb_spec v 0) as [->|Hv0].
    + apply IH; [done|lia|lia| |by exists j0]. by apply zero_word.
    + pose proof (take_lowest sp bm i v HW Hi Hv Hv0 Hlow) as HA. simpl in HA.
      eexists _, _, _. split; [|split; [exact HA|done]]. do 3 f_equal.
      rewrite (data_base sp bm HW). pose proof (object_addr_range sp bm _ HW (al_range _ _ _ _ _ HA)) as Hr.
      pose proof (sw_space _ _ HW). pose proof (sw_size _ _ HW). pose proof (sw_start _ _ HW).
      unfold object_addr, zlen, SystemConfig.PAGE_SIZE in *. rewrite wrap_small; [|unfold in_u; lia]. lia.
Qed.

(** Allocation: lowest free object, or nothing when full. *)
Lemma AllocObject_spec sp bm :
  span_wf sp bm ->
  (use_count sp = capacity sp /\ AllocObject (sp, bm) = Ret (None, (sp, bm))) \/
  exists j sp' bm', AllocObject (sp, bm) = Ret (Some (object_addr sp j), (sp', bm')) /\
    allocated sp bm j sp' bm' /\ sp' = set_counters sp (use_count sp') (scan_cursor sp').
Proof.
  intros HW. unfold AllocObject. pose proof (sw_count _ _ HW) as Hc. unfold zlen in Hc.
  destruct (Z.leb_spec (capacity sp) (use_count sp)) as [Hle|Hgt]; [left; split; [lia|done]|]. right.
  destruct (free_list (capacity sp) bm) as [|j0 l] eqn:HF; [simpl in Hc; lia|].
  assert (Hj0 : j0 ∈ free_list (capacity sp) bm) by (rewrite HF; left).
  apply free_list_in in Hj0 as [Hr Hf].
  pose proof (sw_cursor _ _ HW) as Hcur.
  assert (Hnc : 64 * scan_cursor sp <= j0).
  { destruct (Z.lt_ge_cases j0 (64 * scan_cursor sp)) as [Hlt|]; [|done].
    rewrite (sw_scanned _ _ HW j0) in Hf by lia. done. }
  apply alloc_scan_spec; [done|lia| |apply (sw_scanned _ _ HW)|by exists j0; split; [lia|]].
  rewrite (bitmap_num sp bm HW). dlia.
Qed.

(** The word of an object in range. *)
Lemma object_word sp bm j :
  span_wf sp bm -> 0 <= j < capacity sp ->
  exists v, bm !! Z.to_nat (j / 64) = Some v /\ array_at bm (j / 64) = Ret v /\ in_u 64 v /\
    free_bit bm j = Z.testbit v (j mod 64).
Proof.
  intros HW Hj. pose proof (sw_cap _ _ HW) as Hc. unfold zlen in Hc.
  assert (H0 : 0 <= j / 64 < Z.of_nat (length bm)) by dlia.
  destruct (lookup_lt_is_Some_2 bm (Z.to_nat (j / 64))) as [v Hv]; [lia|].
  exists v. unfold array_at, free_bit. rewrite Hv, (proj2 (Z.leb_le 0 (j / 64))) by lia.
  split_and!; [done|done|exact (Forall_lookup_1 _ _ _ _ (sw_words _ _ HW) Hv)|done].
Qed.

Definition freed (sp : Span) (bm : list Z) (j v : Z) : Span * list Z :=
  (set_counters sp (u32 (use_count sp - 1)) (Z.min (scan_cursor sp) (j / 64)),
   <[Z.to_nat (j / 64) := Z.lor v (Z.shiftl 1 (j mod 64))]> bm).

(** The checks of [FreeObject] on the address of object [j]: only the
    double-free check can fire. *)
Lemma FreeObject_run sp bm j v :
  span_wf sp bm -> 0 <= j < capacity sp -> array_at bm (j / 64) = Ret v ->
  FreeObject (sp, bm) (object_addr sp j) =
    if Z.testbit v (j mod 64) then Panic "double free detected." else Ret (freed sp bm j v).
Proof.
  intros HW Hj Hv. pose proof (object_addr_range sp bm j HW Hj) as Hr.
  pose proof (bitmap_num sp bm HW) as Hbn. unfold FreeObject. rewrite (data_base sp bm HW).
  destruct HW as [H1 H2 H3 H4 H5 H6 [H7 H7'] H8 H9 _ _ _ _ _].
  assert (Hjs : 0 <= j * aligned_obj_size sp) by nia.
  assert (Hoff : object_addr sp j - object_addr sp 0 = j * aligned_obj_size sp) by (unfold object_addr; lia).
  rewrite (proj2 (Z.leb_le (object_addr sp 0) _)) by lia. simpl. rewrite Hoff.
  rewrite (wrap_small 64) by (unfold in_u, object_addr, zlen, SystemConfig.PAGE_SIZE in *; lia).
  rewrite Z.mod_mul by lia. simpl. rewrite object_index_div, Z.div_mul, Z.shiftr_div_pow2 by lia.
  change (2 ^ 6) with 64. assert (Hw : 0 <= j / 64 <= j) by (split; [apply Z.div_pos|apply Z.div_le_upper_bound]; lia).
  rewrite (wrap_small 32 (j / 64)) by (unfold in_u; lia).
  rewrite Hbn, (proj2 (Z.ltb_lt (j / 64) _)) by dlia. simpl.
  change 63 with (Z.ones 6). rewrite Z.land_ones by lia. change (2 ^ 6) with 64.
  pose proof (Z.mod_pos_bound j 64 ltac:(lia)) as Hm.
  rewrite Hv. simpl. rewrite mask_test by lia. by destruct (Z.testbit v (j mod 64)).
Qed.

Lemma freed_bits sp bm j v :
  span_wf sp bm -> 0 <= j < capacity sp -> bm !! Z.to_nat (j / 64) = Some v ->
  forall i, 0 <= i -> free_bit (freed sp bm j v).2 i = free_bit bm i || (i =? j).
Proof.
  intros HW Hj Hv i Hi. simpl. pose proof (Z.mod_pos_bound j 64 ltac:(lia)) as Hm.
  rewrite (free_bit_set bm (j / 64) (j mod 64) v i Hv) by dlia. do 2 f_equal.
  rewrite Z.mul_comm. symmetry. apply Z.div_mod. lia.
Qed.

Lemma freed_wf sp bm j v :
  span_wf sp bm -> 0 <= j < capacity sp -> bm !! Z.to_nat (j / 64) = Some v -> free_bit bm j = false ->
  use_count (freed sp bm j v).1 = use_count sp - 1 /\ span_wf (freed sp bm j v).1 (freed sp bm j v).2.
Proof.
  intros HW Hj Hv Hf. pose proof (freed_bits sp bm j v HW Hj Hv) as Hbits.
  pose proof HW as [H1 H2 H3 H4 H5 H6 [H7 H7'] H8 H9 Hwords Hfr Hcount Hcur Hscan].
  pose proof (Z.mod_pos_bound j 64 ltac:(lia)) as Hm.
  assert (Hadd : zlen (free_list (capacity sp) (freed sp bm j v).2) = zlen (free_list (capacity sp) bm) + 1).
  { unfold zlen, free_list. rewrite (filter_remove (free_bit (freed sp bm j v).2) (free_bit bm) _ j);
      [lia|apply NoDup_seqZ|apply elem_of_seqZ; lia|by rewrite Hbits, Z.eqb_refl, orb_true_r by lia|].
    intros i Hi. apply elem_of_seqZ in Hi. rewrite Hbits by lia.
    destruct (Z.eqb_spec i j) as [->|]; [by rewrite Hf|]. by rewrite orb_false_r, andb_true_r. }
  assert (Hle : zlen (free_list (capacity sp) (freed sp bm j v).2) <= capacity sp).
  { unfold zlen, free_list. pose proof (length_filter (fun i => free_bit (freed sp bm j v).2 i = true)
      (seqZ 0 (capacity sp))) as HL. rewrite length_seqZ in HL. lia. }
  assert (Huse : u32 (use_count sp - 1) = use_count sp - 1).
  { apply wrap_small. unfold in_u, zlen in *. lia. }
  split; [exact Huse|]. simpl in Hbits, Hadd.
  split; simpl; unfold zlen in *; rewrite ?Huse, ?length_insert; try done; try lia.
  - apply Forall_insert; [done|]. apply set_bit_word; [|lia]. exact (Forall_lookup_1 _ _ _ _ Hwords Hv).
  - intros i Hi Hif. rewrite (Hbits i Hi) in Hif. destruct (Z.eqb_spec i j) as [->|]; [lia|].
    rewrite orb_false_r in Hif. by apply Hfr.
  - dlia.
  - intros i Hi. rewrite (Hbits i) by lia. rewrite Hscan by lia. simpl.
    apply Z.eqb_neq. intros ->. dlia.
Qed.

(** ** Initialization *)

(** The layout [Init] computes, without machine arithmetic. *)
Definition layout (pages size : Z) : Z * Z * Z :=
  let total := pages * SystemConfig.PAGE_SIZE in
  let bitmap_num := (total * 8 / (size * 8 + 1) + 63) / 64 in
  let offset := (bitmap_num * 8 + 15) / 16 * 16 in
  (bitmap_num, offset, if total <=? offset then 0 else (total - offset) / size).

(** A page range in the 48-bit address space and sizes that fit 32 bits. *)
Definition in_space (start_page pages size : Z) : Prop :=
  0 <= start_page /\ 0 < pages < 2 ^ 20 /\ 0 < size < 2 ^ 29 /\
  (start_page + pages) * SystemConfig.PAGE_SIZE <= 2 ^ 48.

Lemma layout_bounds pages size :
  0 < pages < 2 ^ 20 -> 0 < size < 2 ^ 29 ->
  let '(bn, off, cap) := layout pages size in
  0 <= bn < 2 ^ 30 /\ 8 * bn <= off /\ off < 2 ^ 31 /\ 0 <= cap < 2 ^ 32 - 64 /\
  (0 < cap -> off + cap * size <= pages * SystemConfig.PAGE_SIZE).
Proof.
  intros Hp Hs. unfold layout, SystemConfig.PAGE_SIZE. set (m := pages * 4096 * 8 / (size * 8 + 1)).
  assert (Hm : 0 <= m <= pages * 4096).
  { unfold m. split; [apply Z.div_pos; lia|]. apply Z.div_le_upper_bound; [lia|]. nia. }
  set (bn := (m + 63) / 64). assert (Hbn : 0 <= bn /\ 64 * bn <= m + 63) by (unfold bn; dlia).
  set (off := (bn * 8 + 15) / 16 * 16). assert (Hoff : bn * 8 <= off <= bn * 8 + 15) by (unfold off; dlia).
  change (2 ^ 20) with 1048576 in Hp. change (2 ^ 29) with 536870912 in Hs.
  change (2 ^ 30) with 1073741824. change (2 ^ 31) with 2147483648. change (2 ^ 32) with 4294967296.
  destruct (Z.leb_spec (pages * 4096) off) as [Hle|Hlt]; [split_and!; lia|].
  set (q := (pages * 4096 - off) / size).
  assert (Hq : 0 <= q /\ q * size <= pages * 4096 - off).
  { unfold q. split; [apply Z.div_pos; lia|]. rewrite Z.mul_comm. apply Z.mul_div_le. lia. }
  split_and!; lia.
Qed.

Lemma init_layout_eq start pages size :
  in_space start pages size -> init_layout start pages size = layout pages size.
Proof.
  intros (H0 & Hp & Hs & Hsp). pose proof (layout_bounds pages size Hp Hs) as HB.
  unfold init_layout, layout in *. unfold SystemConfig.PAGE_SHIFT.
  rewrite !Z.shiftl_mul_pow2, Z.shiftr_div_pow2 by lia. change (2 ^ 12) with SystemConfig.PAGE_SIZE.
  change (2 ^ 6) with 64. unfold SystemConfig.PAGE_SIZE in *.
  change (2 ^ 20) with 1048576 in Hp. change (2 ^ 29) with 536870912 in Hs. change (2 ^ 48) with 281474976710656 in Hsp.
  change (2 ^ 30) with 1073741824 in HB. change (2 ^ 31) with 2147483648 in HB. change (2 ^ 32) with 4294967296 in HB.
  rewrite (wrap_small 64 (start * 4096)), (wrap_small 32 (pages * 4096)) by (unfold in_u; lia).
  rewrite (wrap_small 64 (pages * 4096 * 8)), (wrap_small 32 (size * 8 + 1)) by (unfold in_u; lia).
  set (m := pages * 4096 * 8 / (size * 8 + 1)) in *. replace (m + 64 - 1) with (m + 63) by lia.
  set (bn := (m + 63) / 64) in *. destruct HB as (Hbn & Hoff & Hof & Hcap & _).
  rewrite (wrap_small 64 (start * 4096 + bn * 8)) by (unfold in_u; lia). rewrite align16_spec.
  assert ((start * 4096 + bn * 8 + 15) / 16 * 16 = start * 4096 + (bn * 8 + 15) / 16 * 16) as ->
    by (replace (start * 4096 + bn * 8 + 15) with (bn * 8 + 15 + (start * 256) * 16) by lia;
        rewrite Z.div_add by lia; lia).
  set (off := (bn * 8 + 15) / 16 * 16) in *.
  rewrite (wrap_small 64 (start * 4096 + off)), (wrap_small 64 (start * 4096 + pages * 4096)) by (unfold in_u; lia).
  replace (start * 4096 + off - start * 4096) with off by lia.
  replace (start * 4096 + pages * 4096 - (start * 4096 + off)) with (pages * 4096 - off) by lia.
  rewrite (wrap_small 32 off) by (unfold in_u; lia). f_equal.
  destruct (Z.leb_spec (pages * 4096) off) as [Hle|Hlt].
  - by rewrite (proj2 (Z.leb_le _ _)) by lia.
  - rewrite (proj2 (Z.leb_gt _ _)) by lia. apply wrap_small. unfold in_u. lia.
Qed.

Lemma init_bitmap_bits cap bn j :
  0 <= cap <= 64 * bn -> 0 <= j -> free_bit (init_bitmap cap bn) j = (j <? cap).
Proof.
  intros Hc Hj. unfold free_bit, init_bitmap, table.
  pose proof (Z.mod_pos_bound j 64 ltac:(lia)) as Hm. pose proof (Z.div_pos j 64 Hj ltac:(lia)) as Hd.
  rewrite list_lookup_fmap. destruct (Z.lt_ge_cases (j / 64) bn) as [Hlt|Hge].
  2: { rewrite (proj2 (lookup_ge_None (seq 0 (Z.to_nat bn)) _)) by (rewrite length_seq; lia). simpl.
       symmetry. apply Z.ltb_ge. dlia. }
  rewrite lookup_seq_lt by lia. simpl. rewrite Z2Nat.id by done.
  change 63 with (Z.ones 6). rewrite Z.land_ones by lia. change (2 ^ 6) with 64.
  destruct (Z.ltb_spec (j / 64) (cap / 64)) as [H1|H1].
  { unfold UINT64_MAX. rewrite Z.sub_1_r, <- Z.ones_equiv, Z.ones_spec_low by lia.
    symmetry. apply Z.ltb_lt. dlia. }
  destruct (Z.eqb_spec (j / 64) (cap / 64)) as [H2|H2].
  2: { rewrite Z.testbit_0_l. symmetry. apply Z.ltb_ge. dlia. }
  pose proof (Z.mod_pos_bound cap 64 ltac:(lia)) as Ht. destruct (Z.eqb_spec (cap mod 64) 0) as [H3|H3].
  { rewrite Z.testbit_0_l. symmetry. apply Z.ltb_ge. dlia. }
  rewrite Z.shiftl_mul_pow2, Z.mul_1_l, Z.sub_1_r, <- Z.ones_equiv by lia.
  destruct (Z.ltb_spec j cap).
  - apply Z.ones_spec_low. dlia.
  - apply Z.ones_spec_high. dlia.
Qed.

Lemma init_bitmap_words cap bn : 0 <= cap -> Forall (in_u 64) (init_bitmap cap bn).
Proof.
  intros Hc. unfold init_bitmap, table. apply Forall_fmap, Forall_true. intros i. unfold compose.
  assert (0 <= Z.land cap 63 < 64) as Ht.
  { change 63 with (Z.ones 6). rewrite Z.land_ones by lia. apply Z.mod_pos_bound. lia. }
  destruct (_ <? _); [unfold in_u, UINT64_MAX; lia|]. destruct (_ =? _); [|unfold in_u; lia].
  destruct (Z.eqb_spec (Z.land cap 63) 0); [unfold in_u; lia|].
  rewrite Z.shiftl_mul_pow2, Z.mul_1_l by lia. unfold in_u.
  pose proof (Z.pow_pos_nonneg 2 (Z.land cap 63)).
  pose proof (Z.pow_lt_mono_r 2 (Z.land cap 63) 64 ltac:(lia) ltac:(lia) ltac:(lia)). lia.
Qed.

Lemma init_bitmap_length cap bn : 0 <= bn -> zlen (init_bitmap cap bn) = bn.
Proof. intros H. unfold zlen, init_bitmap, table. rewrite length_fmap, length_seq. lia. Qed.

(** [Init] establishes the invariant with every object free, provided the
    bitmap words cover the capacity. *)
Lemma Init_wf sp size :
  in_space (start_page_idx sp) (page_num sp) size -> size <= SizeConfig.MAX_TC_SIZE ->
  (let '(bn, _, cap) := layout (page_num sp) size in cap <= 64 * bn) ->
  exists sp' bm, Init sp size = Ret (sp', bm) /\ span_wf sp' bm /\ use_count sp' = 0 /\
    aligned_obj_size sp' = size /\ start_page_idx sp' = start_page_idx sp /\ page_num sp' = page_num sp /\
    capacity sp' = (layout (page_num sp) size).2 /\
    forall j, 0 <= j -> free_bit bm j = (j <? capacity sp').
Proof.
  intros HS Hmax Hcov. pose proof HS as (H0 & Hp & Hs & Hsp).
  pose proof (layout_bounds (page_num sp) size Hp Hs) as HB. unfold Init.
  unfold SizeConfig.MAX_TC_SIZE in Hmax. unfold UINT32_MAX.
  rewrite (proj2 (Z.ltb_lt 0 size)), (proj2 (Z.leb_le size _)) by lia.
  rewrite (wrap_small 32 size) by (unfold in_u; lia).
  rewrite Index_ret, init_layout_eq by (done || unfold SizeConfig.MAX_TC_SIZE; lia).
  destruct (layout (page_num sp) size) as [[bn off] cap] eqn:HL.
  destruct HB as (Hbn & Hoff & Hof & Hcap & Hfit).
  eexists _, _. split; [reflexivity|].
  assert (Hbits : forall j, 0 <= j -> free_bit (init_bitmap cap bn) j = (j <? cap))
    by (intros j Hj; by apply init_bitmap_bits; lia).
  split; [|simpl; done].
  split; simpl; rewrite ?init_bitmap_length by lia; try lia; try done.
  - unfold SystemConfig.PAGE_SIZE in *. lia.
  - by apply init_bitmap_words; lia.
  - intros j Hj Hf. rewrite Hbits in Hf by done. lia.
  - unfold zlen, free_list.
    rewrite (filter_ext_in (fun _ => true)); [|intros j Hj; apply elem_of_seqZ in Hj; rewrite Hbits by lia; lia].
    assert (filter (fun _ : Z => true = true) (seqZ 0 cap) = seqZ 0 cap) as ->.
    { induction (seqZ 0 cap) as [|x l IH]; [done|]. rewrite filter_cons, decide_True by done. by rewrite IH. }
    rewrite length_seqZ. lia.
Qed.

(** ** Refilling a size class *)

(** The policy tables at class [i] against the span layout. *)
Definition class_ok (i : Z) : bool :=
  match Size i, array_at batch_table_ i, array_at move_page_table_ i with
  | Ret c, Ret b, Ret p =>
      let '(bn, _, cap) := layout p c in
      (0 <? p) && (p <=? PageConfig.MAX_PAGE_NUM) && (2 <=? b) && (b <=? kMaxBatchSize) &&
      (b <=? cap) && (cap <=? 64 * bn)
  | _, _, _ => false
  end.

Lemma all_classes_ok : forallb class_ok (seqZ 0 kNumSizeClasses) = true.
Proof. vm_compute. reflexivity. Qed.

Lemma class_policy s :
  1 <= s <= SizeConfig.MAX_TC_SIZE ->
  exists c b p, RoundUp s = Ret c /\ CalculateBatchSize s = Ret b /\ GetMovePageNum s = Ret p /\
    8 <= c <= SizeConfig.MAX_TC_SIZE /\ 0 < p <= PageConfig.MAX_PAGE_NUM /\ 2 <= b <= kMaxBatchSize /\
    b <= (layout p c).2 /\ (let '(bn, _, cap) := layout p c in cap <= 64 * bn).
Proof.
  intros Hs. pose proof (CalculateIndex_range s ltac:(lia)) as Hi.
  pose proof all_classes_ok as HA. rewrite forallb_forall in HA.
  specialize (HA (CalculateIndex s)). rewrite <- list_elem_of_In, elem_of_seqZ in HA.
  specialize (HA ltac:(lia)). unfold class_ok in HA. rewrite Size_ret in HA by done.
  destruct (array_at batch_table_ (CalculateIndex s)) as [b| |] eqn:Hb; [|done..].
  destruct (array_at move_page_table_ (CalculateIndex s)) as [p| |] eqn:Hp; [|done..].
  exists (CalculateSize (CalculateIndex s)), b, p.
  destruct (layout p (CalculateSize (CalculateIndex s))) as [[bn off] cap]. bsplit.
  unfold CalculateBatchSize, GetMovePageNum.
  rewrite (proj2 (Z.eqb_neq s 0)), (proj2 (Z.ltb_ge SizeConfig.MAX_TC_SIZE s)), Index_ret by lia. simpl.
  split_and!; try lia; try done; [by apply RoundUp_ret; lia|by apply CalculateSize_range..].
Qed.

(** For every cacheable request size, a span of the page count the refill
    policy chooses and initialized for the rounded size has a sound layout: the
    bitmap, its padding and all objects follow each other inside the pages,
    every bitmap bit has a word of its own, all objects are free, and at least
    one whole transfer batch (2 to 512 objects) fits. *)
Theorem refill_span_layout s sp :
  1 <= s <= SizeConfig.MAX_TC_SIZE -> 0 <= start_page_idx sp ->
  GetMovePageNum s = Ret (page_num sp) ->
  (start_page_idx sp + page_num sp) * SystemConfig.PAGE_SIZE <= 2 ^ 48 ->
  exists c b sp' bm, RoundUp s = Ret c /\ CalculateBatchSize s = Ret b /\
    Init sp c = Ret (sp', bm) /\ span_wf sp' bm /\ use_count sp' = 0 /\
    2 <= b <= kMaxBatchSize /\ b <= capacity sp' /\
    forall j, 0 <= j -> free_bit bm j = (j <? capacity sp').
Proof.
  intros Hs H0 Hp Hsp. destruct (class_policy s Hs) as (c & b & p & Hr & Hb & Hp' & Hc & Hpr & Hbr & Hbc & Hcov).
  assert (p = page_num sp) as -> by congruence.
  unfold SizeConfig.MAX_TC_SIZE, PageConfig.MAX_PAGE_NUM in *.
  destruct (Init_wf sp c) as (sp' & bm & HI & HW & Hu & _ & _ & _ & Hcap & Hf).
  - unfold in_space. change (2 ^ 20) with 1048576. change (2 ^ 29) with 536870912. split_and!; lia.
  - unfold SizeConfig.MAX_TC_SIZE. lia.
  - done.
  - exists c, b, sp', bm. rewrite Hcap. split_and!; try done; try lia. by rewrite <- Hcap.
Qed.

Definition fresh_span (start pages : Z) : Span := mkSpan start pages 0 0 0 0 0 0 0 0 0.

Lemma refill_span_layout_witness : exists b sp' bm, CalculateBatchSize 100 = Ret b /\
  Init (fresh_span 7 64) 104 = Ret (sp', bm) /\ b <= capacity sp'.
Proof.
  destruct (refill_span_layout 100 (fresh_span 7 64)) as (c & b & sp' & bm & Hc & Hb & HI & _ & _ & _ & Hle & _).
  - vm_compute. split; congruence.
  - vm_compute. congruence.
  - vm_compute. reflexivity.
  - vm_compute. congruence.
  - exists b, sp', bm. assert (c = 104) as -> by (vm_compute in Hc; congruence). done.
Defined.

(** The layout formula is not sound for every page count: 64 pages of
    16-byte objects get a capacity one above the number of objects the bitmap
    was sized for, so the last bitmap word is the memory of the first object. *)
Theorem Init_bitmap_overlaps_objects :
  exists sp' bm, Init (fresh_span 1 64) 16 = Ret (sp', bm) /\
    capacity sp' = 64 * zlen bm + 1 /\ obj_offset sp' < 8 * GetBitmapNum sp'.
Proof.
  assert (HL : init_layout 1 64 16 = (254, 2032, 16257)) by (vm_compute; reflexivity).
  unfold Init. cbn [fresh_span start_page_idx page_num flags owner_shard_id last_used_time_ms].
  change (u32 16) with 16. rewrite HL, Index_ret by (vm_compute; split; congruence).
  eexists _, _. split; [reflexivity|]. cbn [capacity obj_offset GetBitmapNum].
  rewrite init_bitmap_length by lia. split; [reflexivity|]. vm_compute. reflexivity.
Qed.

(** ** Clients of a span *)

(** One call by a client that frees only what it holds. *)
Inductive span_step : (Span * list Z) * list Z -> (Span * list Z) * list Z -> Prop :=
| step_alloc st live p st' :
    AllocObject st = Ret (Some p, st') -> span_step (st, live) (st', p :: live)
| step_full st live st' : AllocObject st = Ret (None, st') -> span_step (st, live) (st', live)
| step_free st live1 p live2 st' :
    FreeObject st p = Ret st' -> span_step (st, live1 ++ p :: live2) (st', live1 ++ live2).

(** The held pointers are the addresses of distinct objects, those whose bit is
    clear; geometry never changes. *)
Record span_inv (sp0 : Span) (s : (Span * list Z) * list Z) : Prop := {
  si_wf : span_wf s.1.1 s.1.2;
  si_geom : s.1.1 = set_counters sp0 (use_count s.1.1) (scan_cursor s.1.1);
  si_objs : exists js, s.2 = object_addr sp0 <$> js /\ NoDup js /\
    (forall j, j ∈ js <-> 0 <= j < capacity sp0 /\ free_bit s.1.2 j = false) }.

Lemma object_addr_counters sp u c j : object_addr (set_counters sp u c) j = object_addr sp j.
Proof. done. Qed.

Lemma inv_geom sp0 sp bm live :
  span_inv sp0 (sp, bm, live) ->
  capacity sp = capacity sp0 /\ aligned_obj_size sp = aligned_obj_size sp0 /\
  forall j, object_addr sp j = object_addr sp0 j.
Proof. intros [_ Hg _]. simpl in Hg. rewrite Hg. done. Qed.

(** The number of held objects is the use count. *)
Lemma inv_count sp0 sp bm live : span_inv sp0 (sp, bm, live) -> zlen live = use_count sp.
Proof.
  intros HI. destruct (inv_geom _ _ _ _ HI) as (Hcap & _ & _).
  destruct HI as [HW _ (js & Hjs & Hnd & Hin)]. cbn [fst snd] in *.
  pose proof (sw_count _ _ HW) as Hc. rewrite Hcap in Hc.
  assert (Hperm : js ++ free_list (capacity sp0) bm ≡ₚ seqZ 0 (capacity sp0)).
  { apply NoDup_Permutation.
    - apply NoDup_app. split; [done|]. split; [|apply NoDup_filter, NoDup_seqZ].
      intros j Hj Hf. apply Hin in Hj as [_ Hj]. apply free_list_in in Hf as [_ Hf]. congruence.
    - apply NoDup_seqZ.
    - intros j. rewrite elem_of_app, Hin, free_list_in, elem_of_seqZ. destruct (free_bit bm j); intuition (lia || congruence). }
  apply Permutation_length in Hperm. rewrite length_app, length_seqZ in Hperm.
  pose proof (sw_cap _ _ HW) as Hcp. rewrite Hcap in Hcp. unfold zlen in *. rewrite Hjs, length_fmap. lia.
Qed.

Lemma inv_alloc sp0 sp bm live j sp' bm' :
  span_inv sp0 (sp, bm, live) -> allocated sp bm j sp' bm' ->
  sp' = set_counters sp (use_count sp') (scan_cursor sp') ->
  span_inv sp0 (sp', bm', object_addr sp j :: live).
Proof.
  intros HI Hal Hs'. destruct (inv_geom _ _ _ _ HI) as (Hcap & _ & Hadr).
  destruct HI as [HW Hg (js & Hjs & Hnd & Hin)]. cbn [fst snd] in *.
  destruct Hal. split; cbn [fst snd]; [done|rewrite Hs', Hg; done|].
  exists (j :: js). rewrite Hjs, Hadr. split; [done|]. split.
  - constructor; [|done]. intros Hj. apply Hin in Hj as [_ Hj]. congruence.
  - intros i. rewrite elem_of_cons, Hin. split.
    + intros [->|[Hr Hf]]; (split; [lia|]); rewrite al_bits0 by lia;
        [rewrite Z.eqb_refl; apply andb_false_r|by rewrite Hf].
    + intros [Hr Hf]. rewrite al_bits0 in Hf by lia. destruct (Z.eqb_spec i j) as [->|]; [by left|].
      right. split; [done|]. by rewrite andb_true_r in Hf.
Qed.

Lemma inv_free sp0 sp bm l1 p l2 sp' bm' :
  span_inv sp0 (sp, bm, l1 ++ p :: l2) -> FreeObject (sp, bm) p = Ret (sp', bm') ->
  span_inv sp0 (sp', bm', l1 ++ l2).
Proof.
  intros HI HF. destruct (inv_geom _ _ _ _ HI) as (Hcap & _ & Hadr).
  destruct HI as [HW Hg (js & Hjs & Hnd & Hin)]. cbn [fst snd] in *.
  symmetry in Hjs. apply fmap_app_inv in Hjs as (js1 & js0 & Hl1 & Hl0 & ->).
  symmetry in Hl0. apply fmap_cons_inv in Hl0 as (j & js2 & Hp & Hl2 & ->).
  assert (Hj : 0 <= j < capacity sp0 /\ free_bit bm j = false) by (apply Hin, elem_of_app; right; left).
  rewrite <- Hcap in Hj. destruct Hj as [Hr Hf].
  destruct (object_word sp bm j HW Hr) as (v & Hv & Hat & _ & Hfb).
  rewrite Hp, <- Hadr, (FreeObject_run sp bm j v HW Hr Hat), <- Hfb, Hf in HF.
  destruct (freed_wf sp bm j v HW Hr Hv Hf) as [_ HW']. pose proof (freed_bits sp bm j v HW Hr Hv) as Hbits.
  injection HF as <- <-. split; cbn [fst snd]; [exact HW'|by rewrite Hg|].
  exists (js1 ++ js2). rewrite fmap_app, Hl1, Hl2. split; [done|].
  apply NoDup_app in Hnd as (Hn1 & Hd & Hn2). apply NoDup_cons in Hn2 as [Hj2 Hn2]. split.
  - apply NoDup_app. split_and!; [done| |done]. intros x Hx Hx2. apply (Hd x Hx). by right.
  - intros i. simpl in Hbits. specialize (Hin i). rewrite elem_of_app, elem_of_cons in Hin.
    rewrite elem_of_app. split.
    + intros Hi. assert (Hr2 : 0 <= i < capacity sp0 /\ free_bit bm i = false) by (apply Hin; tauto).
      split; [tauto|]. rewrite Hbits by lia. destruct (Z.eqb_spec i j) as [->|]; [|rewrite orb_false_r; tauto].
      exfalso. destruct Hi as [Hi|Hi]; [|done]. apply (Hd j Hi). left.
    + intros [Hr2 Hf2]. rewrite Hbits in Hf2 by lia. destruct (Z.eqb_spec i j) as [->|];
        [by rewrite orb_true_r in Hf2|]. rewrite orb_false_r in Hf2.
      destruct (proj2 Hin (conj Hr2 Hf2)) as [?|[?|?]]; tauto.
Qed.

Lemma step_keeps_inv sp0 s s' : span_inv sp0 s -> span_step s s' -> span_inv sp0 s'.
Proof.
  intros HI HS.
  destruct HS as [[sp bm] live p [sp' bm'] HA|[sp bm] live [sp' bm'] HA|[sp bm] l1 p l2 [sp' bm'] HF];
    pose proof (si_wf _ _ HI) as HW; cbn [fst snd] in HW; [| |by eapply inv_free];
    destruct (AllocObject_spec sp bm HW) as [[_ HN]|(j & sp2 & bm2 & HA2 & Hal & Hs2)]; try congruence.
  assert (p = object_addr sp j /\ sp2 = sp' /\ bm2 = bm') as (-> & -> & ->) by (split_and!; congruence).
  by eapply inv_alloc.
Qed.

(** A freshly initialized span satisfies the client invariant with nothing held. *)
Lemma inv_init sp bm :
  span_wf sp bm -> (forall j, 0 <= j -> free_bit bm j = (j <? capacity sp)) -> span_inv sp (sp, bm, []).
Proof.
  intros HW Hf. split; cbn [fst snd]; [done|by destruct sp|]. exists []. split; [done|]. split; [constructor|].
  intros j. split; [intros Hj; by apply elem_of_nil in Hj|]. intros [Hr Hj]. rewrite Hf in Hj by lia. lia.
Qed.

Lemma reach_inv sp0 s s' : span_inv sp0 s -> rtc span_step s s' -> span_inv sp0 s'.
Proof. intros HI HR. induction HR as [|a b c Hab _ IH]; [done|]. apply IH. by eapply step_keeps_inv. Qed.

(** Two held objects do not overlap. *)
Definition disjoint (size p q : Z) : Prop := p + size <= q \/ q + size <= p.

Lemma objects_disjoint sp i j : 0 < aligned_obj_size sp -> i <> j ->
  disjoint (aligned_obj_size sp) (object_addr sp i) (object_addr sp j).
Proof. intros Hs Hij. unfold disjoint, object_addr. destruct (Z.lt_ge_cases i j); [left|right]; nia. Qed.

(** However a client interleaves allocations and releases of what it holds
    on an initialized span, the held objects lie inside the span's pages behind
    the bitmap, never overlap, and number exactly the use count; an allocation
    never aborts and fails only when all objects are held; releasing any held
    object never trips a check. *)
Theorem span_no_overlap sp0 bm0 sp bm live :
  span_wf sp0 bm0 -> (forall j, 0 <= j -> free_bit bm0 j = (j <? capacity sp0)) ->
  rtc span_step ((sp0, bm0), []) ((sp, bm), live) ->
  zlen live = use_count sp /\
  (forall k p, live !! k = Some p ->
     start_page_idx sp0 * SystemConfig.PAGE_SIZE + 8 * zlen bm <= p /\
     p + aligned_obj_size sp0 <= (start_page_idx sp0 + page_num sp0) * SystemConfig.PAGE_SIZE) /\
  (forall k l p q, live !! k = Some p -> live !! l = Some q -> k <> l ->
     disjoint (aligned_obj_size sp0) p q) /\
  (exists r st', AllocObject (sp, bm) = Ret (r, st') /\ (r = None <-> zlen live = capacity sp0)) /\
  (forall p, p ∈ live -> exists st', FreeObject (sp, bm) p = Ret st').
Proof.
  intros HW0 Hf0 HR. pose proof (reach_inv sp0 _ _ (inv_init sp0 bm0 HW0 Hf0) HR) as HI.
  pose proof (inv_count _ _ _ _ HI) as Hcnt. destruct (inv_geom _ _ _ _ HI) as (Hcap & Hsz & Hadr).
  pose proof HI as [HW Hg (js & Hjs & Hnd & Hin)]. cbn [fst snd] in *.
  assert (Hobj : forall k p, live !! k = Some p -> exists j, js !! k = Some j /\ p = object_addr sp0 j /\
    0 <= j < capacity sp0 /\ free_bit bm j = false).
  { intros k p Hk. rewrite Hjs, list_lookup_fmap in Hk. destruct (js !! k) as [j|] eqn:Hj; [|done].
    injection Hk as <-. exists j. split; [done|]. split; [done|]. by apply Hin, (list_elem_of_lookup_2 _ k). }
  split_and!; [done| | | |].
  - intros k p Hk. destruct (Hobj k p Hk) as (j & _ & -> & Hr & _). rewrite <- Hcap in Hr.
    pose proof (object_addr_range sp bm j HW Hr) as HB. rewrite Hadr in HB. rewrite Hg in HB. simpl in HB. lia.
  - intros k l p q Hk Hl Hkl. destruct (Hobj k p Hk) as (i & Hi & -> & _). destruct (Hobj l q Hl) as (j & Hj & -> & _).
    apply objects_disjoint; [by apply (sw_size _ _ HW0)|]. intros ->. apply Hkl. by eapply NoDup_lookup.
  - destruct (AllocObject_spec sp bm HW) as [[Hfull ->]|(j & sp' & bm' & -> & Hal & Hs2)]; eexists _, _; (split; [done|]).
    + split; [intros _; lia|done].
    + split; [done|]. intros Hz. exfalso. destruct Hal. destruct al_wf0.
      assert (capacity sp' = capacity sp0 /\ 0 <= zlen (free_list (capacity sp') bm')) as [? ?]; [|lia].
      split; [|unfold zlen; lia]. by rewrite Hs2.
  - intros p Hp. apply list_elem_of_lookup_1 in Hp as [k Hk]. destruct (Hobj k p Hk) as (j & _ & -> & Hr & Hfb).
    rewrite <- Hcap in Hr. destruct (object_word sp bm j HW Hr) as (v & Hv & Hat & _ & Hfv).
    rewrite <- Hadr, (FreeObject_run sp bm j v HW Hr Hat), <- Hfv, Hfb. by eexists.
Qed.

(** A one-page span of three 1024-byte objects. *)
Definition demo_span : Span := mkSpan 7 1 0 27 1024 3 0 0 16 0 0.

Lemma demo_init : Init (fresh_span 7 1) 1024 = Ret (demo_span, [7]).
Proof. vm_compute. reflexivity. Qed.

Lemma demo_wf : span_wf demo_span [7] /\ forall j, 0 <= j -> free_bit [7] j = (j <? capacity demo_span).
Proof.
  destruct (Init_wf (fresh_span 7 1) 1024) as (sp & bm & HI & HW & _ & _ & _ & _ & _ & Hf).
  - repeat split; vm_compute; congruence.
  - vm_compute. congruence.
  - vm_compute. congruence.
  - rewrite demo_init in HI. injection HI as <- <-. done.
Qed.

Lemma span_no_overlap_witness :
  exists sp bm, rtc span_step ((demo_span, [7]), []) ((sp, bm), [29712; 28688]) /\ disjoint 1024 29712 28688.
Proof.
  exists (set_counters demo_span 2 0), [4].
  assert (HR : rtc span_step ((demo_span, [7]), []) ((set_counters demo_span 2 0, [4]), [29712; 28688])).
  { eapply rtc_l; [apply step_alloc; vm_compute; reflexivity|].
    eapply rtc_l; [apply step_alloc; vm_compute; reflexivity|]. apply rtc_refl. }
  split; [exact HR|].
  destruct (span_no_overlap demo_span [7] (set_counters demo_span 2 0) [4] [29712; 28688]) as (_ & _ & Hd & _);
    [apply demo_wf..|exact HR|].
  by apply (Hd 0%nat 1%nat).
Defined.

(** Allocation takes the lowest free object and releasing it restores the
    free set and the use count exactly; releasing it a second time is caught as
    a double free. *)
Theorem alloc_free_roundtrip sp bm p st1 :
  span_wf sp bm -> AllocObject (sp, bm) = Ret (Some p, st1) ->
  exists j sp2 bm2, p = object_addr sp j /\ free_bit bm j = true /\
    (forall i, 0 <= i < j -> free_bit bm i = false) /\
    FreeObject st1 p = Ret (sp2, bm2) /\ span_wf sp2 bm2 /\ use_count sp2 = use_count sp /\
    (forall i, 0 <= i -> free_bit bm2 i = free_bit bm i) /\
    FreeObject (sp2, bm2) p = Panic "double free detected.".
Proof.
  intros HW HA. destruct (AllocObject_spec sp bm HW) as [[_ HN]|(j & sp1 & bm1 & HA1 & Hal & Hs1)]; [congruence|].
  assert (p = object_addr sp j /\ st1 = (sp1, bm1)) as [-> ->] by (split; congruence). destruct Hal.
  assert (Hc1 : capacity sp1 = capacity sp) by (by rewrite Hs1).
  assert (Ha1 : object_addr sp1 j = object_addr sp j) by (by rewrite Hs1).
  assert (Hf1 : free_bit bm1 j = false) by (rewrite al_bits0, Z.eqb_refl by lia; apply andb_false_r).
  assert (Hr1 : 0 <= j < capacity sp1) by lia.
  destruct (object_word sp1 bm1 j al_wf0 Hr1) as (v & Hv & Hat & _ & Hfv).
  destruct (freed_wf sp1 bm1 j v al_wf0 Hr1 Hv Hf1) as [Hu HW2].
  pose proof (freed_bits sp1 bm1 j v al_wf0 Hr1 Hv) as Hb2.
  exists j, (freed sp1 bm1 j v).1, (freed sp1 bm1 j v).2. split_and!; try done.
  - by rewrite <- Ha1, (FreeObject_run sp1 bm1 j v al_wf0 Hr1 Hat), <- Hfv, Hf1.
  - rewrite Hu. lia.
  - intros i Hi. rewrite Hb2, al_bits0 by done. destruct (Z.eqb_spec i j) as [->|]; [by rewrite al_was_free0|].
    by rewrite andb_true_r, orb_false_r.
  - destruct (object_word _ _ j HW2 Hr1) as (w & _ & Hat2 & _ & Hfw).
    rewrite <- Ha1. change (object_addr sp1 j) with (object_addr (freed sp1 bm1 j v).1 j).
    rewrite (FreeObject_run _ _ j w HW2 Hr1 Hat2), <- Hfw, Hb2, Z.eqb_refl, orb_true_r by lia. done.
Qed.

Lemma alloc_free_roundtrip_witness :
  exists sp2 bm2, FreeObject (set_counters demo_span 1 0, [6]) 28688 = Ret (sp2, bm2) /\ use_count sp2 = 0.
Proof.
  destruct (alloc_free_roundtrip demo_span [7] 28688 (set_counters demo_span 1 0, [6]))
    as (j & sp2 & bm2 & _ & _ & _ & HF & _ & Hu & _); [apply demo_wf|vm_compute; reflexivity|].
  by exists sp2, bm2.
Defined.
