(* ===== verification/SpanList.v ===== *)
(** * SpanList: the intrusive circular list of spans

    [SpanList] of [ammalloc/include/ammalloc/span.h]: the links live in the spans, the
    list object is a sentinel. The links are a store of next and previous pointers
    (absent = null); following a null pointer is [Panic]. The theorems show that the
    pointer operations implement sequence operations, which is how the page cache and
    the central cache use them. *)
From S2P Require Import Prelude.

(** ** Links *)

Abbreviation Node := nat.
Record Links := mkLinks { next : gmap Node Node; prev : gmap Node Node }.

Definition set_next (h : Links) (x y : Node) : Links := mkLinks (<[x := y]> (next h)) (prev h).
Definition set_prev (h : Links) (x y : Node) : Links := mkLinks (next h) (<[x := y]> (prev h)).
Definition clear_links_of (h : Links) (x : Node) : Links := mkLinks (delete x (next h)) (delete x (prev h)).

Definition deref (o : option Node) : Res Node := match o with Some x => Ret x | None => Panic "null Span" end.

(* @src ammalloc/include/ammalloc/span.h:130-133 SpanList::SpanList *)
Definition new_list (h : Links) (head : Node) : Links := set_prev (set_next h head head) head head.

(* @src ammalloc/include/ammalloc/span.h:140-140 SpanList::begin *)
Definition begin_ (h : Links) (head : Node) : Res Node := deref (next h !! head).

(* @src ammalloc/include/ammalloc/span.h:146-146 SpanList::empty *)
Definition empty_ (h : Links) (head : Node) : bool := bool_decide (next h !! head = Some head).

(* @src ammalloc/include/ammalloc/span.h:153-159 SpanList::insert *)
Definition insert_ (h : Links) (pos span : Node) : Res Links :=
  let h := set_next h span pos in
  p ← deref (prev h !! pos);
  let h := set_prev h span p in
  let h := set_next h p span in
  Ret (set_prev h pos span).

(* @src ammalloc/include/ammalloc/span.h:163-163 SpanList::push_front *)
Definition push_front (h : Links) (head span : Node) : Res Links := b ← begin_ h head; insert_ h b span.

(* @src ammalloc/include/ammalloc/span.h:167-167 SpanList::push_back *)
Definition push_back (h : Links) (head span : Node) : Res Links := insert_ h head span.

(** [erase] also returns the node that followed. *)
(* @src ammalloc/include/ammalloc/span.h:173-182 SpanList::erase *)
Definition erase_ (h : Links) (head span : Node) : Res (Node * Links) :=
  _ ← am_check (negb (span =? head)%nat) "span != &head_";
  p ← deref (prev h !! span);
  n ← deref (next h !! span);
  let h := set_next h p n in
  let h := set_prev h n p in
  Ret (n, clear_links_of h span).

(* @src ammalloc/include/ammalloc/span.h:186-196 SpanList::pop_front *)
Definition pop_front (h : Links) (head : Node) : Res (option Node * Links) :=
  if empty_ h head then Ret (None, h)
  else
    span ← begin_ h head;
    '(_, h') ← erase_ h head span;
    Ret (Some span, h').

(** ** Segments *)

(** From [a] through [l] to [b], both directions. *)
Fixpoint segment (h : Links) (a : Node) (l : list Node) (b : Node) : Prop :=
  match l with
  | [] => next h !! a = Some b /\ prev h !! b = Some a
  | x :: l' => next h !! a = Some x /\ prev h !! x = Some a /\ segment h x l' b
  end.

(** The list object [head] holds the sequence [l]. *)
Definition holds (h : Links) (head : Node) (l : list Node) : Prop :=
  segment h head l head /\ NoDup (head :: l).

(** A segment only depends on the links inside it. *)
Lemma segment_frame h h' a l b :
  (forall x, x = a \/ x ∈ l -> next h' !! x = next h !! x) ->
  (forall x, x = b \/ x ∈ l -> prev h' !! x = prev h !! x) ->
  segment h a l b -> segment h' a l b.
Proof.
  revert a. induction l as [|x l IH]; intros a Hn Hp; simpl.
  - rewrite Hn, Hp by auto. done.
  - rewrite (Hn a), (Hp x) by (auto; right; left). intros (H1 & H2 & H3). split_and!; [done..|].
    apply IH; [| |done]; intros y [->|Hy]; [apply Hn|apply Hn|apply Hp|apply Hp]; auto; right; (left || by right).
Qed.

Lemma segment_app h a l1 x l2 b : segment h a (l1 ++ x :: l2) b <-> segment h a l1 x /\ segment h x l2 b.
Proof. revert a. induction l1 as [|y l1 IH]; intros a; simpl; [tauto|]. rewrite IH. tauto. Qed.

(** Splitting at a gap: the last node of [a :: l1] is linked to the first of [l2 ++ [b]]. *)
Lemma segment_gap h a l1 l2 b : segment h a (l1 ++ l2) b ->
  let x := List.last l1 a in let y := List.hd b l2 in
  next h !! x = Some y /\ prev h !! y = Some x.
Proof.
  revert a. induction l1 as [|z l1 IH]; intros a H.
  - destruct l2 as [|y l2]; simpl in *; [tauto|destruct H as (? & ? & _); auto].
  - simpl in H. destruct H as (_ & _ & H). specialize (IH z H). destruct l1 as [|w l1]; [exact IH|].
    change (List.last (z :: w :: l1) a) with (List.last (w :: l1) a).
    assert (List.last (w :: l1) a = List.last (w :: l1) z) as ->; [|exact IH].
    clear. revert w. induction l1 as [|v l1 IHl]; intros w; [done|]. apply (IHl v).
Qed.

Lemma last_in (a : Node) l : List.last l a = a \/ List.last l a ∈ l.
Proof.
  induction l as [|x l IH]; [by left|]. right. destruct l as [|y l]; [left|].
  change (List.last (x :: y :: l) a) with (List.last (y :: l) a).
  right. destruct IH as [E|?]; [|done]. clear - E. revert y E. induction l as [|z l IHl]; intros y E; simpl in *; [by left|].
  right. by apply IHl.
Qed.

(** The same links outside a set of nodes. *)
Definition same_outside (h h' : Links) (l : list Node) : Prop :=
  forall x, x ∉ l -> next h' !! x = next h !! x /\ prev h' !! x = prev h !! x.

(** Lists that share no node with the changed ones are not affected. *)
Lemma holds_outside h h' l head m : same_outside h h' l -> (forall x, x ∈ head :: m -> x ∉ l) ->
  holds h head m -> holds h' head m.
Proof.
  intros Hs Hd [H Hn]. split; [|done]. eapply segment_frame; [| |exact H]; intros x Hx;
    apply Hs, Hd, elem_of_cons; exact Hx.
Qed.

(** What [insert] does to the links: [span] between [x] and [y]. *)
Definition linked_in (h : Links) (x span y : Node) : Links :=
  set_prev (set_next (set_prev (set_next h span y) span x) x span) y span.

Lemma linked_in_prefix h head l1 l2 span : holds h head (l1 ++ l2) -> span ∉ head :: l1 ++ l2 ->
  segment (linked_in h (List.last l1 head) span (List.hd head l2)) head l1 span.
Proof.
  intros [H Hnd] Hs. destruct l1 as [|x l1 _] using rev_ind.
  - simpl. split; [by rewrite lookup_insert_eq|].
    rewrite lookup_insert_ne; [by rewrite lookup_insert_eq|]. intros E. apply Hs. subst.
    destruct l2; [left|right; left].
  - rewrite List.last_last. rewrite <- app_assoc in H, Hnd, Hs. apply segment_app in H as [H _].
    apply segment_app. apply NoDup_cons in Hnd as [Hh Hnd]. apply NoDup_app in Hnd as (Hnd1 & Hd & Hnd2).
    set (y := List.hd head l2).
    assert (y ∉ l1 ++ [x]) as Hy.
    { unfold y. destruct l2 as [|y' l2]; simpl.
      - intros Hin. apply Hh. rewrite app_assoc. apply elem_of_app. by left.
      - intros [Hin|Hin%list_elem_of_singleton]%elem_of_app; [apply (Hd _ Hin); right; left|].
        subst. apply NoDup_cons in Hnd2 as [Hnx _]. apply Hnx. left. }
    assert (x ∉ head :: l1) as Hx.
    { intros [->|Hin]%elem_of_cons; [apply Hh, elem_of_app; right; left|]. apply (Hd _ Hin). left. }
    assert (span <> x /\ span <> y /\ span ∉ l1 /\ span <> head) as (Hsx & Hsy & Hsl & Hsh).
    { repeat split; intros E; apply Hs; subst.
      - right. apply elem_of_app. right. left.
      - unfold y. destruct l2; [left|]. right. apply elem_of_app. right. right. left.
      - right. apply elem_of_app. by left.
      - left. }
    split.
    + eapply segment_frame; [| |exact H]; intros z Hz; unfold linked_in; simpl.
      * rewrite !lookup_insert_ne; [done|..]; intros ->; [destruct Hz; naive_solver|].
        apply Hx, elem_of_cons. exact Hz.
      * rewrite !lookup_insert_ne; [done|..]; intros ->.
        -- destruct Hz as [->|Hz]; naive_solver.
        -- apply Hy, elem_of_app. destruct Hz as [->|Hz]; [right; left|by left].
    + simpl. unfold linked_in. simpl. rewrite lookup_insert_eq. split; [done|].
      rewrite lookup_insert_ne by done. by rewrite lookup_insert_eq.
Qed.

Lemma linked_in_suffix h head l1 l2 span : holds h head (l1 ++ l2) -> span ∉ head :: l1 ++ l2 ->
  segment (linked_in h (List.last l1 head) span (List.hd head l2)) span l2 head.
Proof.
  intros [H Hnd] Hs. set (x := List.last l1 head).
  assert (span <> x) as Hsx.
  { intros ->. apply Hs. unfold x. destruct (last_in head l1) as [->|Hin]; [left|].
    right. apply elem_of_app. by left. }
  destruct l2 as [|y l2]; simpl.
  - rewrite lookup_insert_ne by done. by rewrite !lookup_insert_eq.
  - rewrite lookup_insert_ne by done. rewrite !lookup_insert_eq. split_and!; [done..|].
    apply segment_app in H as [_ H]. apply NoDup_cons in Hnd as [Hh Hnd]. apply NoDup_app in Hnd as (Hnd1 & Hd & Hnd2).
    apply NoDup_cons in Hnd2 as [Hny _].
    assert (span <> y /\ span ∉ l2 /\ span <> head) as (Hsy & Hsl & Hsh).
    { repeat split; intros E; apply Hs; subst; [right|right|left]; apply elem_of_app; right; [left|by right]. }
    assert (x ∉ y :: l2) as Hx.
    { unfold x. destruct (last_in head l1) as [->|Hin]; [|by apply Hd].
      intros Hin. apply Hh, elem_of_app. by right. }
    eapply segment_frame; [| |exact H]; intros z Hz; unfold linked_in; simpl.
    + rewrite !lookup_insert_ne; [done|..]; intros ->; [destruct Hz; naive_solver|]. apply Hx, elem_of_cons. exact Hz.
    + rewrite !lookup_insert_ne; [done|..]; intros ->; [destruct Hz; naive_solver|].
      destruct Hz as [->|Hz]; [|done]. apply Hh, elem_of_app. right. left.
Qed.

Lemma insert_holds h head l1 l2 span : holds h head (l1 ++ l2) -> span ∉ head :: l1 ++ l2 ->
  exists h', insert_ h (List.hd head l2) span = Ret h' /\ holds h' head (l1 ++ span :: l2) /\
    same_outside h h' (span :: head :: l1 ++ l2).
Proof.
  intros Hh Hs. destruct (segment_gap h head l1 l2 head (proj1 Hh)) as [_ Hp].
  unfold insert_. simpl. rewrite Hp. cbn [deref mbind res_mbind res_bind].
  eexists. split; [done|]. split.
  - split.
    + apply segment_app. split; [by apply linked_in_prefix|by apply linked_in_suffix].
    + destruct Hh as [_ Hn]. rewrite !NoDup_cons, !NoDup_app, NoDup_cons in *. set_solver.
  - intros x Hx. apply not_elem_of_cons in Hx as [Hxs Hx]. simpl.
    assert (x <> List.last l1 head) as Hx1.
    { intros ->. apply Hx. destruct (last_in head l1) as [->|?]; set_solver. }
    assert (x <> List.hd head l2) as Hx2 by (intros ->; apply Hx; destruct l2; set_solver).
    by rewrite !lookup_insert_ne by congruence.
Qed.

(** What [erase] does to the links: [x] and [y] become neighbours. *)
Definition linked_out (h : Links) (x span y : Node) : Links :=
  clear_links_of (set_prev (set_next h x y) y x) span.

(** The nodes before the gap, up to any end [y] whose back link is in place. *)
Lemma linked_out_prefix h head l1 span l2 : holds h head (l1 ++ span :: l2) ->
  let y := List.hd head l2 in
  segment (linked_out h (List.last l1 head) span y) head l1 y.
Proof.
  intros [H Hnd] y. apply NoDup_cons in Hnd as [Hh Hnd]. apply NoDup_app in Hnd as (Hnd1 & Hd & Hnd2).
  apply NoDup_cons in Hnd2 as [Hns _].
  assert (span <> y) as Hsy.
  { intros E. unfold y in E. destruct l2 as [|y' l2]; simpl in E; subst; [|apply Hns; left].
    apply Hh, elem_of_app. right. left. }
  destruct l1 as [|x l1 _] using rev_ind.
  - simpl. rewrite !lookup_delete_ne by (try done; intros ->; apply Hh; left). by rewrite !lookup_insert_eq.
  - rewrite List.last_last. rewrite <- app_assoc in H. apply segment_app in H as [H _]. apply segment_app.
    assert (x ∉ head :: l1) as Hx.
    { intros [->|Hin]%elem_of_cons; [apply Hh; set_solver|]. apply NoDup_app in Hnd1 as (_ & Hd1 & _).
      apply (Hd1 x Hin). left. }
    assert (y ∉ l1 ++ [x]) as Hy.
    { unfold y. destruct l2 as [|y' l2]; simpl; [set_solver|]. intros Hin. apply (Hd _ Hin). set_solver. }
    assert (span ∉ head :: l1 ++ [x]) as Hsp by set_solver.
    split.
    + eapply segment_frame; [| |exact H]; intros z Hz; simpl; rewrite lookup_delete_ne by set_solver;
        by rewrite lookup_insert_ne by set_solver.
    + simpl. rewrite !lookup_delete_ne by set_solver. by rewrite !lookup_insert_eq.
Qed.

Lemma erase_holds h head l1 span l2 : holds h head (l1 ++ span :: l2) ->
  exists h', erase_ h head span = Ret (List.hd head l2, h') /\ holds h' head (l1 ++ l2) /\
    same_outside h h' (head :: l1 ++ span :: l2).
Proof.
  intros Hh. pose proof (linked_out_prefix h head l1 span l2 Hh) as HP. destruct Hh as [H Hnd].
  pose proof (segment_gap h head l1 (span :: l2) head H) as [_ Hp].
  assert (segment h head ((l1 ++ [span]) ++ l2) head) as H' by (by rewrite <- app_assoc).
  pose proof (segment_gap h head (l1 ++ [span]) l2 head H') as [Hn _]. rewrite List.last_last in Hn. simpl in Hp.
  assert (span <> head /\ span ∉ l1 /\ span ∉ l2) as (Hsh & Hs1 & Hs2).
  { rewrite NoDup_cons, NoDup_app, NoDup_cons in Hnd. set_solver. }
  unfold erase_. rewrite (proj2 (Nat.eqb_neq span head)) by done. cbn [negb am_check mbind res_mbind res_bind].
  rewrite Hp, Hn. cbn [deref mbind res_mbind res_bind].
  eexists. split; [done|]. split.
  - split; [|rewrite NoDup_cons, NoDup_app in *; rewrite NoDup_cons in *; set_solver].
    simpl in HP. destruct l2 as [|y l2]; [by rewrite app_nil_r|]. apply segment_app. split; [exact HP|].
    apply segment_app in H' as [_ H'].
    assert (List.last l1 head ∉ y :: l2) as Hx.
    { rewrite NoDup_cons, NoDup_app in Hnd. destruct (last_in head l1) as [->|?]; set_solver. }
    rewrite NoDup_cons, NoDup_app, !NoDup_cons in Hnd.
    eapply segment_frame; [| |exact H']; intros z Hz; simpl; rewrite lookup_delete_ne by set_solver;
      by rewrite lookup_insert_ne by set_solver.
  - intros z Hz. simpl. assert (z <> List.last l1 head) by (destruct (last_in head l1) as [->|?]; set_solver).
    assert (z <> List.hd head l2) by (destruct l2; set_solver).
    rewrite !lookup_delete_ne by set_solver. by rewrite !lookup_insert_ne by done.
Qed.

(** ** The list interface *)

Lemma begin_holds h head l : holds h head l -> begin_ h head = Ret (List.hd head l).
Proof. intros [H _]. unfold begin_. destruct l; simpl in H; destruct H as [-> _]; done. Qed.

Lemma empty_holds h head l : holds h head l -> empty_ h head = bool_decide (l = []).
Proof.
  intros [H Hn]. unfold empty_. apply bool_decide_ext. destruct l as [|x l]; simpl in H; destruct H as [-> _]; [done|].
  split; [|done]. intros [= ->]. apply NoDup_cons in Hn as [Hn _]. exfalso. apply Hn. left.
Qed.

(** C20: The pointer manipulations of [SpanList] implement a sequence: a new list is
    empty, [push_front] and [push_back] add an unlinked node at either end,
    [pop_front] removes the first node or reports an empty list, [erase] removes any
    node and returns its successor; no operation follows a null pointer, and no other
    list sees a change. *)
Theorem SpanList_refines_sequence h head l span : holds h head l -> span ∉ head :: l ->
  holds (new_list h head) head [] /\ empty_ h head = bool_decide (l = []) /\
  (exists h', push_front h head span = Ret h' /\ holds h' head (span :: l) /\ same_outside h h' (span :: head :: l)) /\
  (exists h', push_back h head span = Ret h' /\ holds h' head (l ++ [span]) /\ same_outside h h' (span :: head :: l)) /\
  (exists h', pop_front h head = Ret (List.head l, h') /\ holds h' head (tail l) /\ same_outside h h' (head :: l)) /\
  (forall l1 x l2, l = l1 ++ x :: l2 -> exists h', erase_ h head x = Ret (List.hd head l2, h') /\
     holds h' head (l1 ++ l2) /\ same_outside h h' (head :: l)).
Proof.
  intros H Hs. split; [|split; [by apply empty_holds|]].
  { split; [|apply NoDup_singleton]. simpl. by rewrite !lookup_insert_eq. }
  split. { unfold push_front. rewrite (begin_holds h head l) by done. by apply (insert_holds h head [] l span). }
  split.
  { unfold push_back. destruct (insert_holds h head l [] span) as (h' & ? & ? & ?); [by rewrite app_nil_r..|].
    rewrite app_nil_r in *. eauto. }
  split; [|by intros l1 x l2 ->; apply erase_holds].
  unfold pop_front. rewrite (empty_holds h head l) by done. destruct l as [|x l].
  - rewrite bool_decide_true by done. exists h. split; [done|]. by split.
  - rewrite bool_decide_false by done. rewrite (begin_holds h head (x :: l)) by done. cbn [mbind res_mbind res_bind List.hd].
    destruct (erase_holds h head [] x l H) as (h' & -> & ? & ?). cbn [mbind res_mbind res_bind]. eauto.
Qed.

Definition two_spans : Links :=
  match (h ← push_front (new_list (mkLinks ∅ ∅) 0) 0 1; push_back h 0 2) with Ret h => h | _ => mkLinks ∅ ∅ end.

Lemma SpanList_refines_sequence_witness :
  holds two_spans 0 [1; 2]%nat /\ exists h', push_front two_spans 0 3 = Ret h' /\ holds h' 0 [3; 1; 2]%nat.
Proof.
  assert (holds two_spans 0 [1; 2]%nat) as H.
  { split; [vm_compute; repeat split; reflexivity|]. apply (bool_decide_unpack (NoDup [0; 1; 2]%nat)). vm_compute. exact I. }
  split; [exact H|].
  destruct (SpanList_refines_sequence two_spans 0 [1; 2]%nat 3 H) as (_ & _ & (h' & H1 & H2 & _) & _).
  { intros Hin. apply (bool_decide_unpack (3%nat ∉ [0; 1; 2]%nat)) in Hin; [exact Hin|vm_compute; exact I]. }
  exists h'. split; [exact H1|exact H2].
Defined.
