(* ===== verification/PageMap.v ===== *)
(** * PageMap: the radix tree from page numbers to spans

    [PageMap] of [ammalloc/include/ammalloc/page_cache.h] and
    [ammalloc/src/page_cache.cpp]: four levels of 512-way nodes, created on the write
    path and never removed. A null child is an absent key; every node has one parent,
    so nodes are values. Span pointers are names ([SpanPtr]); the memory order of the
    loads and stores is not modelled, writers hold the shard lock. The theorems show
    that the tree implements a partial function from page numbers to spans. *)
From S2P Require Import Prelude SizeClasses.

Abbreviation SpanPtr := nat.

Module RadixConfig.
(* @src ammalloc/include/ammalloc/config.h:23-29 SystemConfig::PAGE_ID_BITS *)
Definition VA_BITS : Z := 48.
Definition PAGE_ID_BITS : Z := VA_BITS - SystemConfig.PAGE_SHIFT.
(* @src ammalloc/include/ammalloc/config.h:44-48 PageConfig (radix) *)
Definition RADIX_NODE_BITS : Z := 9.
Definition RADIX_NODE_SIZE : Z := Z.shiftl 1 RADIX_NODE_BITS.
Definition RADIX_ROOT_BITS : Z := PAGE_ID_BITS - 3 * RADIX_NODE_BITS.
Definition RADIX_ROOT_SIZE : Z := Z.shiftl 1 RADIX_ROOT_BITS.
Definition RADIX_MASK : Z := RADIX_NODE_SIZE - 1.
End RadixConfig.
Import RadixConfig.

(** Nodes by level, the lowest one holding span pointers. *)
Abbreviation Node3 := (gmap Z SpanPtr).
Abbreviation Node2 := (gmap Z Node3).
Abbreviation Node1 := (gmap Z Node2).
Abbreviation Root := (gmap Z Node1).

(** [root_] is null until the first [SetSpan]. *)
Abbreviation PageMap := (option Root).

(** A new root has no children. *)
(* @src ammalloc/include/ammalloc/page_cache.h:28-36 RadixRootNode *)
Definition new_root : Root := ∅.

Definition index0 (page_id : Z) : Z := Z.shiftr page_id (RADIX_NODE_BITS * 3).
Definition index1 (page_id : Z) : Z := Z.land (Z.shiftr page_id (RADIX_NODE_BITS * 2)) RADIX_MASK.
Definition index2 (page_id : Z) : Z := Z.land (Z.shiftr page_id RADIX_NODE_BITS) RADIX_MASK.
Definition index3 (page_id : Z) : Z := Z.land page_id RADIX_MASK.

(* @src ammalloc/src/page_cache.cpp:12-48 PageMap::GetSpan *)
Definition GetSpan (m : PageMap) (page_id : Z) : option SpanPtr :=
  match m with
  | None => None
  | Some curr =>
      if RADIX_ROOT_SIZE <=? index0 page_id then None
      else
        p1 ← curr !! index0 page_id;
        p2 ← p1 !! index1 page_id;
        p3 ← p2 !! index2 page_id;
        p3 !! index3 page_id
  end.

(** Look up by address. *)
(* @src ammalloc/include/ammalloc/page_cache.h:66-68 PageMap::GetSpan(void star) *)
Definition GetSpan_ptr (m : PageMap) (ptr : Z) : option SpanPtr :=
  GetSpan m (Z.shiftr ptr SystemConfig.PAGE_SHIFT).

(** The exception of a node pool that cannot get memory. *)
Definition no_nodes : string := "std::bad_alloc".

(** An existing node, or a new empty one from the node pool; when the pool cannot get
    memory the exception leaves [SetSpan]. *)
Definition get_or_new {K} `{Empty K} (nodes_ok : bool) (o : option K) : Res K :=
  match o with
  | Some n => Ret n
  | None => if nodes_ok then Ret ∅ else Panic no_nodes
  end.

(** The stores into one leaf node. *)
Definition fill (p3 : Node3) (i cnt : Z) (s : SpanPtr) : Node3 :=
  foldl (fun m k => <[i + k := s]> m) p3 (seqZ 0 cnt).

(** One pass of the loop: the pages from [start] to the end of its leaf. Writing
    outside the root array is undefined. *)
(* @src ammalloc/src/page_cache.cpp:64-96 PageMap::SetSpan (loop body) *)
Definition set_chunk (nodes_ok : bool) (curr : Root) (s : SpanPtr) (start end_ : Z) : Res (Root * Z) :=
  _ ← am_check (index0 start <? RADIX_ROOT_SIZE) "PageMap root index";
  p1 ← get_or_new nodes_ok (curr !! index0 start);
  p2 ← get_or_new nodes_ok (p1 !! index1 start);
  p3 ← get_or_new nodes_ok (p2 !! index2 start);
  let cnt := Z.min (end_ - start) (RADIX_NODE_SIZE - index3 start) in
  Ret (<[index0 start := <[index1 start := <[index2 start := fill p3 (index3 start) cnt s]> p2]> p1]> curr,
       start + cnt).

(** Every pass advances by at least one page. *)
Fixpoint set_loop (fuel : nat) (nodes_ok : bool) (curr : Root) (s : SpanPtr) (start end_ : Z) : Res Root :=
  if start <? end_ then
    match fuel with
    | O => Panic "set_loop: out of fuel"
    | S k => '(curr', start') ← set_chunk nodes_ok curr s start end_; set_loop k nodes_ok curr' s start' end_
    end
  else Ret curr.

(* @src ammalloc/src/page_cache.cpp:50-98 PageMap::SetSpan *)
Definition SetSpan (nodes_ok : bool) (m : PageMap) (s : SpanPtr) (start_page_idx page_num : Z) : Res PageMap :=
  let curr := default new_root m in
  curr' ← set_loop (Z.to_nat page_num) nodes_ok curr s start_page_idx (start_page_idx + page_num);
  Ret (Some curr').

Definition erase_leaf (p3 : Node3) (i cnt : Z) : Node3 := foldl (fun m k => delete (i + k) m) p3 (seqZ 0 cnt).

(** The step over a missing subtree that covers [coverage] pages. *)
Definition skip_missing (coverage cur remaining : Z) : Z :=
  Z.min remaining (coverage - Z.land cur (coverage - 1)).

(** One pass of the loop: the tree and how far to advance. *)
(* @src ammalloc/src/page_cache.cpp:109-151 PageMap::ClearRange (loop body) *)
Definition clear_chunk (curr : Root) (cur remaining : Z) : Root * Z :=
  match curr !! index0 cur with
  | None => (curr, skip_missing (Z.shiftl 1 (RADIX_NODE_BITS * 3)) cur remaining)
  | Some p1 =>
      match p1 !! index1 cur with
      | None => (curr, skip_missing (Z.shiftl 1 (RADIX_NODE_BITS * 2)) cur remaining)
      | Some p2 =>
          match p2 !! index2 cur with
          | None => (curr, skip_missing (Z.shiftl 1 RADIX_NODE_BITS) cur remaining)
          | Some p3 =>
              let cnt := Z.min remaining (RADIX_NODE_SIZE - index3 cur) in
              (<[index0 cur := <[index1 cur := <[index2 cur := erase_leaf p3 (index3 cur) cnt]> p2]> p1]> curr, cnt)
          end
      end
  end.

Fixpoint clear_loop (fuel : nat) (curr : Root) (cur remaining : Z) : option Root :=
  if 0 <? remaining then
    match fuel with
    | O => None
    | S k => let '(curr', step) := clear_chunk curr cur remaining in
             clear_loop k curr' (cur + step) (remaining - step)
    end
  else Some curr.

(* @src ammalloc/src/page_cache.cpp:100-152 PageMap::ClearRange *)
Definition ClearRange (m : PageMap) (start_page_id page_num : Z) : PageMap :=
  match m with
  | None => None
  | Some curr => match clear_loop (Z.to_nat page_num) curr start_page_id page_num with
                 | Some curr' => Some curr'
                 | None => m
                 end
  end.

(* @src ammalloc/src/page_cache.cpp:154-157 PageMap::Reset *)
Definition PageMap_Reset (_ : PageMap) : PageMap := None.

(** ** Indices *)

Lemma index_div p : 0 <= p ->
  index0 p = p / 2 ^ 27 /\ index1 p = p / 2 ^ 18 mod 512 /\ index2 p = p / 512 mod 512 /\ index3 p = p mod 512.
Proof.
  intros Hp. unfold index0, index1, index2, index3, RADIX_MASK, RADIX_NODE_SIZE, RADIX_NODE_BITS.
  change (Z.shiftl 1 9 - 1) with (Z.ones 9). rewrite !Z.land_ones, !Z.shiftr_div_pow2 by lia. done.
Qed.

Definition max_page : Z := 2 ^ PAGE_ID_BITS.

Lemma index0_bound p : 0 <= p -> index0 p < RADIX_ROOT_SIZE <-> p < max_page.
Proof.
  intros Hp. destruct (index_div p Hp) as [-> _]. unfold max_page.
  change RADIX_ROOT_SIZE with 512. change (2 ^ PAGE_ID_BITS) with (2 ^ 36). dlia.
Qed.

(** The first three indices name the leaf. *)
Lemma same_leaf p q : 0 <= p -> 0 <= q ->
  (index0 p = index0 q /\ index1 p = index1 q /\ index2 p = index2 q) <-> p / 512 = q / 512.
Proof.
  intros Hp Hq. destruct (index_div p Hp) as (-> & -> & -> & _). destruct (index_div q Hq) as (-> & -> & -> & _).
  replace (2 ^ 27) with (512 * (512 * 512)) by done. replace (2 ^ 18) with (512 * 512) by done.
  rewrite <- !Z.div_div by lia. generalize (p / 512), (q / 512). intros a b. split; [|by intros ->].
  intros (H0 & H1 & H2). rewrite (Z.div_mod a 512), (Z.div_mod b 512) by lia.
  rewrite (Z.div_mod (a / 512) 512), (Z.div_mod (b / 512) 512) by lia. congruence.
Qed.

(** ** The tree as a function *)

Definition leaf_of (curr : Root) (p : Z) : Node3 :=
  default ∅ (p1 ← curr !! index0 p; p2 ← p1 !! index1 p; p2 !! index2 p).

(** The span of a page, without the bound on the root index. *)
Definition at_page (curr : Root) (p : Z) : option SpanPtr := leaf_of curr p !! index3 p.

Lemma GetSpan_at m p : 0 <= p < max_page -> GetSpan m p = m ≫= (fun curr => at_page curr p).
Proof.
  intros Hp. unfold GetSpan, at_page, leaf_of. destruct m as [curr|]; [|done]. cbn [mbind option_bind].
  rewrite (proj2 (Z.leb_gt _ _)) by (apply index0_bound; lia).
  destruct (curr !! index0 p) as [p1|]; cbn [mbind option_bind from_option id]; [|by rewrite lookup_empty].
  destruct (p1 !! index1 p) as [p2|]; cbn [mbind option_bind from_option id]; [|by rewrite lookup_empty].
  by destruct (p2 !! index2 p) as [p3|]; cbn [mbind option_bind from_option id]; [|by rewrite lookup_empty].
Qed.

Lemma GetSpan_outside m p : 0 <= p -> max_page <= p -> GetSpan m p = None.
Proof.
  intros Hp Hm. unfold GetSpan. destruct m; [|done].
  destruct (Z.leb_spec RADIX_ROOT_SIZE (index0 p)) as [|H]; [done|]. apply index0_bound in H; lia.
Qed.

(** Rewriting the leaf of [p] changes the pages of that leaf and no other. *)
Lemma leaf_of_insert curr p1 p2 p3 p q : 0 <= p -> 0 <= q ->
  default ∅ (curr !! index0 p) = p1 -> default ∅ (p1 !! index1 p) = p2 ->
  leaf_of (<[index0 p := <[index1 p := <[index2 p := p3]> p2]> p1]> curr) q =
    if decide (q / 512 = p / 512) then p3 else leaf_of curr q.
Proof.
  intros Hp Hq E1 E2. unfold leaf_of. destruct (decide _) as [E|E].
  - apply same_leaf in E as (-> & -> & ->); [|done..].
    rewrite lookup_insert_eq. cbn [mbind option_bind from_option id]. rewrite lookup_insert_eq. cbn [mbind option_bind from_option id]. by rewrite lookup_insert_eq.
  - rewrite <- (same_leaf q p) in E by done.
    destruct (decide (index0 q = index0 p)) as [E0|N0]; [|by rewrite lookup_insert_ne].
    rewrite E0, lookup_insert_eq. cbn [mbind option_bind from_option id].
    destruct (decide (index1 q = index1 p)) as [E1'|N1].
    + rewrite E1', lookup_insert_eq. cbn [mbind option_bind from_option id]. rewrite lookup_insert_ne by (intros Heq; apply E; split_and!; congruence).
      subst p2 p1. destruct (curr !! index0 p) as [p1|]; cbn [mbind option_bind from_option id]; [|by rewrite !lookup_empty].
      destruct (p1 !! index1 p); cbn [mbind option_bind from_option id]; [done|by rewrite lookup_empty].
    + rewrite lookup_insert_ne by done. subst p1.
      destruct (curr !! index0 p) as [p1|]; cbn [mbind option_bind from_option id]; [done|by rewrite lookup_empty].
Qed.

Lemma fill_lookup p3 i cnt s j : 0 <= cnt -> fill p3 i cnt s !! j = if decide (i <= j < i + cnt) then Some s else p3 !! j.
Proof.
  intros Hc. unfold fill. rewrite <- (Z2Nat.id cnt) by done. generalize (Z.to_nat cnt) as n. clear cnt Hc. intros n.
  induction n as [|n IH].
  - simpl. rewrite decide_False by lia. done.
  - rewrite seqZ_S, foldl_app, Nat2Z.inj_succ by lia. cbn [foldl].
    destruct (decide (j = i + Z.of_nat n)) as [->|Hne].
    + by rewrite lookup_insert_eq, decide_True by lia.
    + rewrite lookup_insert_ne by lia. rewrite IH. repeat case_decide; (done || lia).
Qed.

Lemma erase_lookup p3 i cnt j : 0 <= cnt -> erase_leaf p3 i cnt !! j = if decide (i <= j < i + cnt) then None else p3 !! j.
Proof.
  intros Hc. unfold erase_leaf. rewrite <- (Z2Nat.id cnt) by done. generalize (Z.to_nat cnt) as n. clear cnt Hc. intros n.
  induction n as [|n IH].
  - simpl. rewrite decide_False by lia. done.
  - rewrite seqZ_S, foldl_app, Nat2Z.inj_succ by lia. cbn [foldl].
    destruct (decide (j = i + Z.of_nat n)) as [->|Hne].
    + by rewrite lookup_delete_eq, decide_True by lia.
    + rewrite lookup_delete_ne by lia. rewrite IH. repeat case_decide; (done || lia).
Qed.

(** ** SetSpan and ClearRange *)

Lemma index3_bound p : 0 <= p -> 0 <= index3 p < 512 /\ p = 512 * (p / 512) + index3 p.
Proof. intros Hp. destruct (index_div p Hp) as (_ & _ & _ & ->). split; [apply Z.mod_pos_bound; lia|apply Z.div_mod; lia]. Qed.

(** Inside one leaf, being in a range of pages is being in a range of slots. *)
Lemma leaf_range p q cnt : 0 <= p -> 0 <= q -> index3 p + cnt <= 512 ->
  (p <= q < p + cnt) <-> q / 512 = p / 512 /\ index3 p <= index3 q < index3 p + cnt.
Proof.
  intros Hp Hq Hc. destruct (index3_bound p Hp) as [Bp Ep]. destruct (index3_bound q Hq) as [Bq Eq].
  set (a := p / 512) in *. set (b := q / 512) in *. lia.
Qed.

Lemma set_chunk_spec curr s start end_ : 0 <= start < end_ -> start < max_page ->
  exists curr' cnt, set_chunk true curr s start end_ = Ret (curr', start + cnt) /\
    1 <= cnt <= end_ - start /\
    forall q, 0 <= q -> at_page curr' q = if decide (start <= q < start + cnt) then Some s else at_page curr q.
Proof.
  intros Hs Hm. destruct (index3_bound start ltac:(lia)) as [Hb _]. unfold set_chunk.
  rewrite (proj2 (Z.ltb_lt _ _)) by (apply index0_bound; lia). cbn [am_check mbind res_mbind res_bind].
  assert (forall K (E : Empty K) (o : option K), get_or_new true o = Ret (default ∅ o)) as HN by (by intros ? ? [?|]).
  rewrite !HN. cbn [mbind res_mbind res_bind]. rewrite !HN. cbn [mbind res_mbind res_bind]. rewrite !HN.
  cbn [mbind res_mbind res_bind]. change RADIX_NODE_SIZE with 512.
  set (cnt := Z.min _ _). eexists _, cnt. split; [done|]. split; [lia|]. intros q Hq. unfold at_page.
  rewrite leaf_of_insert by (done || lia).
  pose proof (leaf_range start q cnt ltac:(lia) Hq ltac:(lia)) as HR.
  destruct (decide (q / 512 = start / 512)) as [E|E].
  - rewrite fill_lookup by lia.
    assert (default ∅ (default ∅ (default ∅ (curr !! index0 start) !! index1 start) !! index2 start) = leaf_of curr q) as ->.
    { apply (same_leaf q start) in E as (E0 & E1 & E2); [|lia..]. unfold leaf_of. rewrite E0, E1, E2.
      destruct (curr !! index0 start) as [p1|]; cbn [mbind option_bind from_option id]; [|by rewrite !lookup_empty].
      destruct (p1 !! index1 start); cbn [mbind option_bind from_option id]; [done|by rewrite lookup_empty]. }
    destruct (decide (start <= q < start + cnt)) as [D|D].
    + by rewrite decide_True by (by apply HR).
    + by rewrite decide_False by (intros ?; by apply D, HR).
  - rewrite decide_False by (intros D; by apply HR in D as [? _]). done.
Qed.

Lemma set_loop_spec fuel : forall curr s start end_, 0 <= start -> end_ <= max_page ->
  end_ - start <= Z.of_nat fuel ->
  exists curr', set_loop fuel true curr s start end_ = Ret curr' /\
    forall q, 0 <= q -> at_page curr' q = if decide (start <= q < end_) then Some s else at_page curr q.
Proof.
  induction fuel as [|fuel IH]; intros curr s start end_ Hs Hm Hf; cbn [set_loop];
    destruct (Z.ltb_spec start end_) as [Hlt|Hge]; try lia.
  1, 3: exists curr; split; [done|]; intros q Hq; by rewrite decide_False by lia.
  destruct (set_chunk_spec curr s start end_) as (curr1 & cnt & -> & Hc & H1); [lia..|].
  cbn [mbind res_mbind res_bind].
  destruct (IH curr1 s (start + cnt) end_) as (curr' & -> & H2); [lia..|].
  exists curr'. split; [done|]. intros q Hq. rewrite H2, H1 by done. repeat case_decide; (done || lia).
Qed.

Lemma clear_chunk_spec curr cur remaining : 0 <= cur -> 0 < remaining ->
  let '(curr', step) := clear_chunk curr cur remaining in
  1 <= step <= remaining /\
  forall q, 0 <= q -> at_page curr' q = if decide (cur <= q < cur + step) then None else at_page curr q.
Proof.
  intros Hc Hr. destruct (index3_bound cur Hc) as [Hb Ec]. destruct (index_div cur Hc) as (D0 & D1 & D2 & D3).
  assert (forall cov k, cov = 512 * k -> 0 < k -> Z.land cur (cov - 1) = cur mod cov ->
    1 <= skip_missing cov cur remaining <= remaining /\
    forall q, cur <= q < cur + skip_missing cov cur remaining -> q / cov = cur / cov) as HS.
  { intros cov k Ecov Hk E. unfold skip_missing. rewrite E. pose proof (Z.mod_pos_bound cur cov ltac:(lia)).
    split; [lia|]. intros q Hq. pose proof (Z.div_mod cur cov ltac:(lia)).
    symmetry. apply (Z.div_unique q cov (cur / cov) (q - cov * (cur / cov))); lia. }
  assert (forall m, 0 <= m -> Z.land cur (Z.shiftl 1 m - 1) = cur mod 2 ^ m) as HL.
  { intros m Hm. rewrite Z.shiftl_mul_pow2, Z.mul_1_l, Z.sub_1_r, <- Z.ones_equiv, Z.land_ones by lia. done. }
  unfold clear_chunk, RADIX_NODE_BITS.
  destruct (curr !! index0 cur) as [p1|] eqn:E1; [destruct (p1 !! index1 cur) as [p2|] eqn:E2; [destruct (p2 !! index2 cur) as [p3|] eqn:E3|]|].
  - change RADIX_NODE_SIZE with 512. set (cnt := Z.min _ _). split; [lia|]. intros q Hq. unfold at_page.
    rewrite leaf_of_insert; [|done|done|by rewrite E1|by rewrite E2].
    pose proof (leaf_range cur q cnt Hc Hq ltac:(lia)) as HR. destruct (decide (q / 512 = cur / 512)) as [E|E].
    + rewrite erase_lookup by lia. assert (leaf_of curr q = p3) as ->.
      { unfold leaf_of. apply (same_leaf q cur) in E as (-> & -> & ->); [|done..]. rewrite E1. cbn [mbind option_bind]. rewrite E2. cbn [mbind option_bind]. by rewrite E3. }
      destruct (decide (cur <= q < cur + cnt)) as [D|D].
      * by rewrite decide_True by (by apply HR).
      * by rewrite decide_False by (intros ?; by apply D, HR).
    + rewrite decide_False by (intros D; by apply HR in D as [? _]). done.
  - destruct (HS (Z.shiftl 1 9) 1) as [H1 H2]; [done|lia|by rewrite HL|]. split; [done|]. intros q Hq.
    case_decide as D; [|done]. apply H2 in D. change (Z.shiftl 1 9) with 512 in D. unfold at_page, leaf_of.
    apply (same_leaf q cur) in D as (-> & -> & ->); [|done..]. rewrite E1. cbn [mbind option_bind]. rewrite E2.
    cbn [mbind option_bind]. by rewrite E3.
  - destruct (HS (Z.shiftl 1 18) 512) as [H1 H2]; [done|lia|by rewrite HL|]. split; [done|]. intros q Hq.
    case_decide as D; [|done]. apply H2 in D. change (Z.shiftl 1 18) with (2 ^ 18) in D. unfold at_page, leaf_of.
    destruct (index_div q Hq) as (-> & -> & _). rewrite D.
    assert (q / 2 ^ 27 = cur / 2 ^ 27) as ->.
    { replace (2 ^ 27) with (2 ^ 18 * 512) by done. rewrite <- !Z.div_div by lia. by rewrite D. }
    rewrite <- D0, <- D1, E1. cbn [mbind option_bind]. rewrite E2. done.
  - destruct (HS (Z.shiftl 1 27) (512 * 512)) as [H1 H2]; [done|lia|by rewrite HL|]. split; [done|]. intros q Hq.
    case_decide as D; [|done]. apply H2 in D. change (Z.shiftl 1 27) with (2 ^ 27) in D. unfold at_page, leaf_of.
    destruct (index_div q Hq) as (-> & _). rewrite D, <- D0, E1. done.
Qed.

Lemma clear_loop_spec fuel : forall curr cur remaining, 0 <= cur -> remaining <= Z.of_nat fuel ->
  exists curr', clear_loop fuel curr cur remaining = Some curr' /\
    forall q, 0 <= q -> at_page curr' q = if decide (cur <= q < cur + remaining) then None else at_page curr q.
Proof.
  induction fuel as [|fuel IH]; intros curr cur remaining Hc Hf; cbn [clear_loop];
    destruct (Z.ltb_spec 0 remaining) as [Hlt|Hge]; try lia.
  1, 3: exists curr; split; [done|]; intros q Hq; by rewrite decide_False by lia.
  pose proof (clear_chunk_spec curr cur remaining Hc Hlt) as HC.
  destruct (clear_chunk curr cur remaining) as [curr1 step]. destruct HC as [Hs H1].
  destruct (IH curr1 (cur + step) (remaining - step)) as (curr' & -> & H2); [lia..|].
  exists curr'. split; [done|]. intros q Hq. rewrite H2, H1 by done. repeat case_decide; (done || lia).
Qed.

(** ** The interface the page cache relies on *)

(** The map agrees with a partial function on the page numbers of the address space. *)
Definition represents (m : PageMap) (f : Z -> option SpanPtr) : Prop :=
  forall p, 0 <= p < max_page -> GetSpan m p = f p.

Lemma SetSpan_represents m f s start n : represents m f -> 0 <= start -> 0 <= n -> start + n <= max_page ->
  exists m', SetSpan true m s start n = Ret m' /\
    represents m' (fun p => if decide (start <= p < start + n) then Some s else f p).
Proof.
  intros Hm Hs Hn Hb. unfold SetSpan.
  destruct (set_loop_spec (Z.to_nat n) (default new_root m) s start (start + n)) as (curr & -> & H); [lia..|].
  cbn [mbind res_mbind res_bind]. exists (Some curr). split; [done|]. intros p Hp.
  rewrite GetSpan_at by done. cbn [mbind option_bind]. rewrite H by lia. case_decide; [done|].
  rewrite <- Hm, GetSpan_at by done. by destruct m.
Qed.

Lemma ClearRange_represents m f start n : represents m f -> 0 <= start -> 0 <= n ->
  represents (ClearRange m start n) (fun p => if decide (start <= p < start + n) then None else f p).
Proof.
  intros Hm Hs Hn p Hp. unfold ClearRange. destruct m as [curr|].
  - destruct (clear_loop_spec (Z.to_nat n) curr start n) as (curr' & -> & H); [lia..|].
    rewrite GetSpan_at by done. cbn [mbind option_bind]. rewrite H by lia. case_decide; [done|].
    by rewrite <- Hm, GetSpan_at by done.
  - case_decide; [done|]. by rewrite <- Hm by done.
Qed.

(** C19: The radix tree implements a finite map from pages to spans: on the pages of the
    address space [SetSpan] maps exactly the pages of the span to it, [ClearRange]
    unmaps exactly the given range, both leave every other page as it was, whatever
    nodes existed before, and a lookup beyond the address space finds nothing. *)
Theorem PageMap_refines_function m f s start n : represents m f ->
  0 <= start -> 0 <= n -> start + n <= max_page ->
  (exists m', SetSpan true m s start n = Ret m' /\
     represents m' (fun p => if decide (start <= p < start + n) then Some s else f p)) /\
  represents (ClearRange m start n) (fun p => if decide (start <= p < start + n) then None else f p) /\
  (forall p, max_page <= p -> GetSpan m p = None).
Proof.
  intros Hm Hs Hn Hb. split; [by apply SetSpan_represents|]. split; [by apply ClearRange_represents|].
  intros p Hp. apply GetSpan_outside; [|done]. change max_page with (2 ^ 36) in Hp. lia.
Qed.

Lemma PageMap_refines_function_witness : exists m,
  SetSpan true None 7 510 4 = Ret m /\ GetSpan m 513 = Some 7%nat /\ GetSpan m 514 = None /\
  GetSpan (ClearRange m 511 1) 511 = None /\ GetSpan (ClearRange m 511 1) 512 = Some 7%nat.
Proof.
  destruct (PageMap_refines_function None (fun _ => None) 7 510 4) as [(m & Hm & H) _];
    [intros p _; reflexivity|lia|lia|vm_compute; discriminate|].
  exists m. split; [exact Hm|].
  destruct (PageMap_refines_function m _ 7 511 1 H) as [_ [Hc _]]; [lia|lia|vm_compute; discriminate|].
  rewrite (H 513), (H 514), (Hc 511), (Hc 512) by (split; [lia|vm_compute; reflexivity]).
  split; [reflexivity|]. split; [reflexivity|]. split; reflexivity.
Defined.

(** Pages that are mapped already need no new node. *)
Lemma at_page_nodes curr p : is_Some (at_page curr p) ->
  exists p1 p2 p3, curr !! index0 p = Some p1 /\ p1 !! index1 p = Some p2 /\ p2 !! index2 p = Some p3.
Proof.
  unfold at_page, leaf_of. intros [v Hv].
  destruct (curr !! index0 p) as [p1|] eqn:E1; cbn [mbind option_bind from_option id] in Hv; [|by rewrite lookup_empty in Hv].
  destruct (p1 !! index1 p) as [p2|] eqn:E2; cbn [mbind option_bind from_option id] in Hv; [|by rewrite lookup_empty in Hv].
  destruct (p2 !! index2 p) as [p3|] eqn:E3; cbn [mbind option_bind from_option id] in Hv; [|by rewrite lookup_empty in Hv].
  exists p1, p2, p3. done.
Qed.

Lemma set_loop_mapped fuel : forall b curr s start end_, 0 <= start -> end_ <= max_page ->
  (forall p, start <= p < end_ -> is_Some (at_page curr p)) ->
  set_loop fuel b curr s start end_ = set_loop fuel true curr s start end_.
Proof.
  induction fuel as [|fuel IH]; intros b curr s start end_ Hs Hm Hp; cbn [set_loop]; [done|].
  destruct (Z.ltb_spec start end_) as [Hlt|Hge]; [|done].
  destruct (at_page_nodes curr start) as (p1 & p2 & p3 & E1 & E2 & E3); [apply Hp; lia|].
  assert (set_chunk b curr s start end_ = set_chunk true curr s start end_) as ->.
  { unfold set_chunk. rewrite E1. cbn [get_or_new mbind res_mbind res_bind].
    destruct (am_check _ _); cbn [mbind res_mbind res_bind]; [|done..]. rewrite E2.
    cbn [get_or_new mbind res_mbind res_bind]. by rewrite E3. }
  destruct (set_chunk_spec curr s start end_) as (curr1 & cnt & -> & Hc & H1); [lia..|].
  cbn [mbind res_mbind res_bind]. apply IH; [lia|done|]. intros p Hr. rewrite H1 by lia.
  case_decide; [by eexists|apply Hp; lia].
Qed.

Lemma SetSpan_mapped b m s start n : 0 <= start -> start + n <= max_page ->
  (forall p, start <= p < start + n -> is_Some (GetSpan m p)) ->
  SetSpan b m s start n = SetSpan true m s start n.
Proof.
  intros Hs Hb Hp. unfold SetSpan. destruct (Z.le_gt_cases n 0).
  { replace (Z.to_nat n) with 0%nat by lia. cbn [set_loop]. by rewrite (proj2 (Z.ltb_ge _ _)) by lia. }
  rewrite (set_loop_mapped _ b); [done|done|done|]. intros p Hr. specialize (Hp p Hr).
  rewrite GetSpan_at in Hp by lia. destruct m; [exact Hp|destruct Hp as [? ?]; done].
Qed.

(** Without memory for nodes the outcome is the same, or the exception. *)
Lemma set_loop_refused s fuel : forall curr start end_,
  set_loop fuel false curr s start end_ = Panic no_nodes \/ set_loop fuel false curr s start end_ = set_loop fuel true curr s start end_.
Proof.
  induction fuel as [|fuel IH]; intros curr start end_; cbn [set_loop]; destruct (start <? end_); auto.
  unfold set_chunk. destruct (index0 start <? RADIX_ROOT_SIZE); cbn [am_check mbind res_mbind res_bind]; [|auto].
  destruct (curr !! index0 start) as [p1|]; cbn [get_or_new mbind res_mbind res_bind]; [|auto].
  destruct (p1 !! index1 start) as [p2|]; cbn [get_or_new mbind res_mbind res_bind]; [|auto].
  destruct (p2 !! index2 start) as [p3|]; cbn [get_or_new mbind res_mbind res_bind]; [|auto]. apply IH.
Qed.
Lemma SetSpan_refused b m s start n : (SetSpan b m s start n = Panic no_nodes /\ b = false) \/ SetSpan b m s start n = SetSpan true m s start n.
Proof.
  destruct b; [by right|]. unfold SetSpan. destruct (set_loop_refused s (Z.to_nat n) (default new_root m) start (start + n)) as [-> | ->]; auto.
Qed.
