(* ===== verification/PageCache.v ===== *)
(** * PageCache: splitting and coalescing spans of pages

    [PageCacheShard] and [PageCache] of [ammalloc/include/ammalloc/page_cache.h] and
    [ammalloc/src/page_cache.cpp], in the sharded build with its one active shard. The
    state is the store of live span metadata ([span_pool_]), the free lists by page
    count (sequences: [SpanList] shows the intrusive lists implement them) and the
    radix page map. The operating system, the metadata pool and the clock answer
    through an [Env] per pass of the allocation loop; dereferencing a span that is not
    live is [Panic]. *)
From S2P Require Import Prelude SizeClasses SpanAlloc PageMap.
Import PageConfig.

(** ** State *)

(** Answers of the environment during one pass: the base address [SystemAlloc] returns
    (null on failure), whether [span_pool_.New] and the radix node pool get memory, and
    the clock. *)
Record Env := mkEnv { sys_ptr : option Z; new_ok : bool; nodes_ok : bool; now_ms : Z }.

(* @src ammalloc/include/ammalloc/page_cache.h:133-138 PageCacheShard (state) *)
Record Shard := mkShard {
  spans : gmap SpanPtr Span; span_lists_ : list (list SpanPtr); page_map : PageMap }.

Definition new_shard : Shard := mkShard ∅ (replicate (S (Z.to_nat MAX_PAGE_NUM)) []) None.

Definition with_spans (st : Shard) (m : gmap SpanPtr Span) : Shard := mkShard m (span_lists_ st) (page_map st).
Definition with_map (st : Shard) (m : PageMap) : Shard := mkShard (spans st) (span_lists_ st) m.

Definition bucket (st : Shard) (i : Z) : list SpanPtr := default [] (span_lists_ st !! Z.to_nat i).
Definition set_bucket (st : Shard) (i : Z) (l : list SpanPtr) : Shard :=
  mkShard (spans st) (<[Z.to_nat i := l]> (span_lists_ st)) (page_map st).

Definition span_at (st : Shard) (s : SpanPtr) : Res Span :=
  match spans st !! s with Some sp => Ret sp | None => Panic "use of a deleted Span" end.
Definition put_span (st : Shard) (s : SpanPtr) (sp : Span) : Shard := with_spans st (<[s := sp]> (spans st)).
Definition delete_span (st : Shard) (s : SpanPtr) : Shard := with_spans st (delete s (spans st)).

(** Unlinking a span that is in no list follows null links. *)
Definition erase_from (st : Shard) (i : Z) (s : SpanPtr) : Res Shard :=
  _ ← am_check (bool_decide (s ∈ bucket st i)) "null Span";
  Ret (set_bucket st i (filter (fun t => t <> s) (bucket st i))).
Definition push_front_to (st : Shard) (i : Z) (s : SpanPtr) : Shard := set_bucket st i (s :: bucket st i).

(** ** Span metadata *)

(* @src ammalloc/include/ammalloc/span.h:52-53 Span::Span *)
Definition new_span (start n : Z) : Span := mkSpan start n 0 0 0 0 0 0 0 0 0.

Definition set_range (sp : Span) (start n : Z) : Span :=
  mkSpan start n (flags sp) (size_class_idx sp) (aligned_obj_size sp) (capacity sp)
    (use_count sp) (scan_cursor sp) (obj_offset sp) (owner_shard_id sp) (last_used_time_ms sp).
Definition set_owner (sp : Span) (o : Z) : Span :=
  mkSpan (start_page_idx sp) (page_num sp) (flags sp) (size_class_idx sp) (aligned_obj_size sp) (capacity sp)
    (use_count sp) (scan_cursor sp) (obj_offset sp) o (last_used_time_ms sp).
Definition set_time (sp : Span) (t : Z) : Span :=
  mkSpan (start_page_idx sp) (page_num sp) (flags sp) (size_class_idx sp) (aligned_obj_size sp) (capacity sp)
    (use_count sp) (scan_cursor sp) (obj_offset sp) (owner_shard_id sp) t.
(** The fields [ReleaseSpanLocked] resets. *)
Definition reset_objects (sp : Span) : Span :=
  mkSpan (start_page_idx sp) (page_num sp) (flags sp) (size_class_idx sp) 0 0 0
    (scan_cursor sp) 0 (owner_shard_id sp) (last_used_time_ms sp).

Definition used_span (sp : Span) : Span := SetCommitted (SetUsed sp true) true.
Definition free_span (sp : Span) (now : Z) : Span := set_time (SetCommitted (SetUsed sp false) true) now.

(* @src ammalloc/include/ammalloc/common.h:40-48 PtrToPageId *)
Definition PtrToPageId (ptr : Z) : Z := Z.shiftr ptr SystemConfig.PAGE_SHIFT.

Definition publish (e : Env) (st : Shard) (s : SpanPtr) : Res Shard :=
  sp ← span_at st s;
  m ← SetSpan (nodes_ok e) (page_map st) s (start_page_idx sp) (page_num sp);
  Ret (with_map st m).

(** ** Allocation *)

(** A pass ends the loop with a result or leaves the state for the next pass. *)
Inductive Pass := Done (r : option SpanPtr) (st : Shard) | Again (st : Shard).

(* @src ammalloc/src/page_cache.cpp:167-186 AllocSpanLocked (oversized) *)
Definition alloc_oversized (e : Env) (st : Shard) (n : Z) : Res Pass :=
  match sys_ptr e with
  | None => Ret (Done None st)
  | Some ptr =>
      if new_ok e then
        let s := fresh (dom (spans st)) in
        let sp := set_owner (used_span (new_span (PtrToPageId ptr) (u32 n))) 0 in
        st' ← publish e (put_span st s sp) s;
        Ret (Done (Some s) st')
      else Ret (Done None st)
  end.

(** [popped] is the state with [big] taken off list [i]. *)
(* @src ammalloc/src/page_cache.cpp:203-228 AllocSpanLocked (split) *)
Definition split_span (e : Env) (popped : Shard) (i n : Z) (big : SpanPtr) : Res Pass :=
  bsp ← span_at popped big;
  _ ← am_check (page_num bsp =? i) "big_span->page_num == i";
  _ ← am_check (negb (IsUsed bsp)) "!big_span->IsUsed()";
  if new_ok e then
    let small := fresh (dom (spans popped)) in
    let ssp := set_owner (used_span (new_span (start_page_idx bsp) (u32 n))) (owner_shard_id bsp) in
    let bsp' := free_span (set_range bsp (u64 (start_page_idx bsp + n)) (u32 (page_num bsp - u32 n))) (now_ms e) in
    let st := put_span (put_span popped small ssp) big bsp' in
    let st := push_front_to st (page_num bsp') big in
    st ← publish e st small;
    st ← publish e st big;
    Ret (Done (Some small) st)
  else Ret (Done None (push_front_to popped i big)).

(** The first non-empty list among the given page counts, with its front taken off. *)
(* @src ammalloc/src/page_cache.cpp:198-203 AllocSpanLocked (scan) *)
Fixpoint find_larger (st : Shard) (candidates : list Z) : option (Z * SpanPtr * Shard) :=
  match candidates with
  | [] => None
  | i :: rest =>
      match bucket st i with
      | [] => find_larger st rest
      | big :: l => Some (i, big, set_bucket st i l)
      end
  end.

(* @src ammalloc/src/page_cache.cpp:232-250 AllocSpanLocked (refill) *)
Definition refill (e : Env) (st : Shard) : Res Pass :=
  match sys_ptr e with
  | None => Ret (Done None st)
  | Some ptr =>
      if new_ok e then
        let s := fresh (dom (spans st)) in
        let sp := set_owner (free_span (new_span (PtrToPageId ptr) (u32 MAX_PAGE_NUM)) (now_ms e)) 0 in
        st' ← publish e (push_front_to (put_span st s sp) MAX_PAGE_NUM s) s;
        Ret (Again st')
      else Ret (Done None st)
  end.

(* @src ammalloc/src/page_cache.cpp:165-251 AllocSpanLocked (one pass) *)
Definition alloc_pass (e : Env) (st : Shard) (n : Z) : Res Pass :=
  if MAX_PAGE_NUM <? n then alloc_oversized e st n
  else
    _ ← am_check ((1 <=? n) && (n <=? MAX_PAGE_NUM)) "page_num";
    match bucket st n with
    | s :: l =>
        sp ← span_at st s;
        Ret (Done (Some s) (put_span (set_bucket st n l) s (used_span sp)))
    | [] =>
        match find_larger st (seqZ (n + 1) (MAX_PAGE_NUM - n)) with
        | Some (i, big, popped) => split_span e popped i n big
        | None => refill e st
        end
    end.

(** The loop, one environment per pass. *)
(* @src ammalloc/src/page_cache.cpp:159-252 PageCacheShard::AllocSpanLocked *)
Fixpoint alloc_loop (es : list Env) (st : Shard) (n : Z) : Res (option SpanPtr * Shard) :=
  match es with
  | [] => Panic "out of environment"
  | e :: es' =>
      r ← alloc_pass e st n;
      match r with
      | Done r st' => Ret (r, st')
      | Again st' => alloc_loop es' st' n
      end
  end.

(* @src ammalloc/src/page_cache.cpp:159-163 AllocSpanLocked (guard) *)
Definition AllocSpanLocked (es : list Env) (st : Shard) (n : Z) : Res (option SpanPtr * Shard) :=
  if (n =? 0) || (UINT32_MAX <? n) then Ret (None, st) else alloc_loop es st n.

(** The shard is always shard zero. *)
(* @src ammalloc/include/ammalloc/page_cache.h:282-284 PageCache::SelectShardForAlloc *)
Definition SelectShardForAlloc (n : Z) : Z := 0.

(* @src ammalloc/src/page_cache.cpp:327-336 PageCache::AllocSpan *)
Definition AllocSpan (es : list Env) (st : Shard) (n : Z) : Res (option SpanPtr * Shard) :=
  let shard_id := SelectShardForAlloc n in
  '(r, st') ← AllocSpanLocked es st n;
  match r with
  | None => Ret (None, st')
  | Some s => sp ← span_at st' s; Ret (Some s, put_span st' s (set_owner sp shard_id))
  end.

(** ** Release *)

(** The condition under which a neighbour is left alone. *)
Definition cannot_merge (sp other : Span) : bool :=
  IsUsed other || negb (owner_shard_id other =? owner_shard_id sp) ||
  (MAX_PAGE_NUM <? u32 (page_num sp + page_num other)).

(* @src ammalloc/src/page_cache.cpp:268-284 ReleaseSpanLocked (left neighbours) *)
Fixpoint merge_left (fuel : nat) (st : Shard) (s : SpanPtr) : Res Shard :=
  match fuel with
  | O => Panic "merge_left: out of fuel"
  | S k =>
      sp ← span_at st s;
      if start_page_idx sp =? 0 then Ret st
      else
        match GetSpan (page_map st) (start_page_idx sp - 1) with
        | None => Ret st
        | Some l =>
            lsp ← span_at st l;
            if cannot_merge sp lsp then Ret st
            else
              st ← erase_from st (page_num lsp) l;
              let st := put_span st s (set_range sp (start_page_idx lsp) (u32 (page_num sp + page_num lsp))) in
              merge_left k (delete_span st l) s
        end
  end.

(* @src ammalloc/src/page_cache.cpp:286-298 ReleaseSpanLocked (right neighbours) *)
Fixpoint merge_right (fuel : nat) (st : Shard) (s : SpanPtr) : Res Shard :=
  match fuel with
  | O => Panic "merge_right: out of fuel"
  | S k =>
      sp ← span_at st s;
      match GetSpan (page_map st) (u64 (start_page_idx sp + page_num sp)) with
      | None => Ret st
      | Some r =>
          rsp ← span_at st r;
          if cannot_merge sp rsp then Ret st
          else
            st ← erase_from st (page_num rsp) r;
            let st := put_span st s (set_range sp (start_page_idx sp) (u32 (page_num sp + page_num rsp))) in
            merge_right k (delete_span st r) s
      end
  end.

(** Every merge deletes a span. *)
Definition merge_fuel (st : Shard) : nat := S (size (spans st)).

(* @src ammalloc/src/page_cache.cpp:254-311 PageCacheShard::ReleaseSpanLocked *)
Definition ReleaseSpanLocked (e : Env) (st : Shard) (s : SpanPtr) : Res Shard :=
  sp ← span_at st s;
  if MAX_PAGE_NUM <? page_num sp then
    let st := with_map st (ClearRange (page_map st) (start_page_idx sp) (page_num sp)) in
    Ret (delete_span st s)
  else
    st ← merge_left (merge_fuel st) st s;
    st ← merge_right (merge_fuel st) st s;
    sp ← span_at st s;
    let sp' := set_time (reset_objects (SetCommitted (SetUsed sp false) true)) (now_ms e) in
    publish e (push_front_to (put_span st s sp') (page_num sp') s) s.

(** The owner shard is the one shard there is. *)
(* @src ammalloc/src/page_cache.cpp:338-343 PageCache::ReleaseSpan *)
Definition ReleaseSpan (e : Env) (st : Shard) (s : SpanPtr) : Res Shard :=
  sp ← span_at st s;
  _ ← am_check (owner_shard_id sp <? 1) "span->owner_shard_id < active_shard_count_";
  ReleaseSpanLocked e st s.

(** The pages returned to the system, list by list. *)
(* @src ammalloc/src/page_cache.cpp:313-324 PageCacheShard::ResetLocked *)
Definition ResetLocked (st : Shard) : Res (list (Z * Z) * Shard) :=
  freed ← res_mapi (fun _ s => sp ← span_at st s; Ret (GetPageBaseAddr sp, page_num sp)) 0 (concat (span_lists_ st));
  Ret (freed, mkShard ∅ ((fun _ => []) <$> span_lists_ st) (PageMap_Reset (page_map st))).

(** ** The invariant *)

Definition in_span (sp : Span) (p : Z) : Prop := start_page_idx sp <= p < start_page_idx sp + page_num sp.
#[global] Instance in_span_dec sp p : Decision (in_span sp p).
Proof. unfold in_span. apply _. Defined.

Record span_ok (sp : Span) : Prop := {
  ok_start : 0 <= start_page_idx sp; ok_num : 1 <= page_num sp < 2 ^ 32;
  ok_end : start_page_idx sp + page_num sp <= max_page;
  ok_owner : owner_shard_id sp = 0; ok_flags : 0 <= flags sp < 2 ^ 16;
  ok_small : IsUsed sp = false -> page_num sp <= MAX_PAGE_NUM }.

(** The state is consistent, up to spans being worked on: those in [lh] are in no list,
    and the page map need not be right about the pages of those in [mh]. *)
Record heap_inv (mh lh : gset SpanPtr) (st : Shard) : Prop := {
  hi_ok : forall s sp, spans st !! s = Some sp -> span_ok sp;
  hi_disj : forall s t sp tp p, spans st !! s = Some sp -> spans st !! t = Some tp ->
    in_span sp p -> in_span tp p -> s = t;
  hi_map : forall p, 0 <= p < max_page ->
    (forall s sp, s ∈ mh -> spans st !! s = Some sp -> ~ in_span sp p) ->
    forall t, GetSpan (page_map st) p = Some t <-> exists tp, spans st !! t = Some tp /\ in_span tp p;
  hi_lists : length (span_lists_ st) = S (Z.to_nat MAX_PAGE_NUM);
  hi_free : forall i s, 0 <= i <= MAX_PAGE_NUM -> s ∈ bucket st i <->
    s ∉ lh /\ exists sp, spans st !! s = Some sp /\ IsUsed sp = false /\ page_num sp = i;
  hi_nodup : forall i, 0 <= i <= MAX_PAGE_NUM -> NoDup (bucket st i) }.

Definition heap_ok : Shard -> Prop := heap_inv ∅ ∅.

(** ** Flags *)

Lemma flag_bits sp : 0 <= flags sp < 2 ^ 16 ->
  (forall b, IsUsed (SetUsed sp b) = b) /\ (forall b, IsUsed (SetCommitted sp b) = IsUsed sp) /\
  (forall b, 0 <= flags (SetUsed sp b) < 2 ^ 16) /\ (forall b, 0 <= flags (SetCommitted sp b) < 2 ^ 16).
Proof.
  intros Hf. unfold IsUsed, SetUsed, SetCommitted, set_flags, kUsedMask, kCommittedMask. simpl.
  assert (forall x, negb (Z.land x 1 =? 0) = Z.testbit x 0) as HT.
  { intros x. change 1 with (Z.shiftl 1 0) at 1. rewrite mask_test by lia. by rewrite negb_involutive. }
  assert (forall x, Z.testbit (u16 x) 0 = Z.testbit x 0) as HU.
  { intros x. unfold wrap. by rewrite Z.mod_pow2_bits_low by lia. }
  split_and!; intros b; try (apply wrap_range; lia); rewrite !HT, HU, Z.lor_spec, Z.land_spec, Z.lnot_spec by lia;
    destruct b; simpl; by rewrite ?andb_false_r, ?andb_true_r, ?orb_false_r.
Qed.

Lemma used_span_flags sp : 0 <= flags sp < 2 ^ 16 ->
  IsUsed (used_span sp) = true /\ 0 <= flags (used_span sp) < 2 ^ 16.
Proof.
  intros Hf. destruct (flag_bits sp Hf) as (H1 & _ & H3 & _). destruct (flag_bits (SetUsed sp true)) as (_ & H2 & _ & H4); [done|].
  unfold used_span. by rewrite H2, H1.
Qed.

Lemma free_span_flags sp t : 0 <= flags sp < 2 ^ 16 ->
  IsUsed (free_span sp t) = false /\ 0 <= flags (free_span sp t) < 2 ^ 16.
Proof.
  intros Hf. destruct (flag_bits sp Hf) as (H1 & _ & H3 & _). destruct (flag_bits (SetUsed sp false)) as (_ & H2 & _ & H4); [done|].
  unfold free_span. change (IsUsed (SetCommitted (SetUsed sp false) true) = false /\ 0 <= flags (SetCommitted (SetUsed sp false) true) < 2 ^ 16).
  by rewrite H2, H1.
Qed.

(** ** Buckets *)

Lemma bucket_set st i j l : length (span_lists_ st) = S (Z.to_nat MAX_PAGE_NUM) ->
  0 <= i <= MAX_PAGE_NUM -> 0 <= j <= MAX_PAGE_NUM ->
  bucket (set_bucket st i l) j = if decide (j = i) then l else bucket st j.
Proof.
  intros Hl Hi Hj. unfold bucket, set_bucket. simpl. case_decide as E.
  - subst. by rewrite list_lookup_insert_eq by (rewrite Hl; lia).
  - by rewrite list_lookup_insert_ne by lia.
Qed.

Lemma lists_set st i l : length (span_lists_ (set_bucket st i l)) = length (span_lists_ st).
Proof. apply length_insert. Qed.

(** ** Steps that keep the invariant *)

Lemma span_at_some st s sp : spans st !! s = Some sp -> span_at st s = Ret sp.
Proof. intros H. unfold span_at. by rewrite H. Qed.

Lemma heap_weaken mh mh' lh st : mh ⊆ mh' -> heap_inv mh lh st -> heap_inv mh' lh st.
Proof.
  intros Hs H. constructor; try apply H. intros p Hp Hh. apply (hi_map _ _ _ H); [done|].
  intros s sp Hin. apply Hh. by apply Hs.
Qed.

(** A used span is in no list anyway. *)
Lemma heap_drop_used mh lh st s sp : heap_inv mh ({[s]} ∪ lh) st -> spans st !! s = Some sp -> IsUsed sp = true ->
  heap_inv mh lh st.
Proof.
  intros H Hs Hu. constructor; try apply H. intros i t Hi. rewrite (hi_free _ _ _ H) by done.
  split; intros [Hn Ht]; (split; [|done]); [set_solver|].
  intros [->%elem_of_singleton|?]%elem_of_union; [|done]. destruct Ht as (sp' & ? & ? & _). congruence.
Qed.

Lemma heap_add_fresh mh lh st s : heap_inv mh lh st -> spans st !! s = None -> heap_inv mh ({[s]} ∪ lh) st.
Proof.
  intros H Hs. constructor; try apply H. intros i t Hi. rewrite (hi_free _ _ _ H) by done.
  split; intros [Hn Ht]; (split; [|done]); [|set_solver].
  intros [->%elem_of_singleton|?]%elem_of_union; [|done]. destruct Ht as (sp' & ? & _). congruence.
Qed.

(** Taking a span off its list. *)
Lemma heap_take mh lh st i s l : heap_inv mh lh st -> 0 <= i <= MAX_PAGE_NUM -> s ∈ bucket st i ->
  NoDup l -> (forall t, t ∈ l <-> t ∈ bucket st i /\ t <> s) ->
  heap_inv mh ({[s]} ∪ lh) (set_bucket st i l).
Proof.
  intros H Hi Hin Hnd Hl. constructor; simpl; try apply H.
  - rewrite length_insert. apply H.
  - intros j t Hj. rewrite bucket_set by (done || apply H). rewrite not_elem_of_union, not_elem_of_singleton.
    case_decide as E.
    + subst j. rewrite Hl, (hi_free _ _ _ H) by done. tauto.
    + rewrite (hi_free _ _ _ H) by done. split; [|tauto]. intros [Hn Ht]. split; [|done]. split; [|done].
      intros ->. destruct Ht as (sp & Hs & _ & Hp). apply (hi_free _ _ _ H) in Hin as [_ (sp' & Hs' & _ & Hp')]; [|done].
      congruence.
  - intros j Hj. rewrite bucket_set by (done || apply H). case_decide; [done|by apply H].
Qed.

Lemma heap_pop mh lh st i s l : heap_inv mh lh st -> 0 <= i <= MAX_PAGE_NUM -> bucket st i = s :: l ->
  heap_inv mh ({[s]} ∪ lh) (set_bucket st i l).
Proof.
  intros H Hi E. pose proof (hi_nodup _ _ _ H i Hi) as Hnd. rewrite E in Hnd. apply NoDup_cons in Hnd as [Hn Hnd].
  apply (heap_take mh lh st i s l); [done|done|rewrite E; left|done|]. intros t. rewrite E, elem_of_cons.
  split; [intros Ht; split; [by right|congruence]|tauto].
Qed.

Lemma heap_erase mh lh st i s : heap_inv mh lh st -> 0 <= i <= MAX_PAGE_NUM -> s ∈ bucket st i ->
  exists st', erase_from st i s = Ret st' /\ heap_inv mh ({[s]} ∪ lh) st' /\
    spans st' = spans st /\ page_map st' = page_map st.
Proof.
  intros H Hi Hin. unfold erase_from. rewrite bool_decide_true by done. cbn [am_check mbind res_mbind res_bind].
  eexists. split; [done|]. split; [|done]. apply heap_take; [done|done|done| |].
  - apply NoDup_filter. by apply H.
  - intros t. rewrite list_elem_of_filter. tauto.
Qed.

(** Putting a free span on the list of its size. *)
Lemma heap_push mh lh st s sp : heap_inv mh ({[s]} ∪ lh) st -> s ∉ lh -> spans st !! s = Some sp -> IsUsed sp = false ->
  heap_inv mh lh (push_front_to st (page_num sp) s).
Proof.
  intros H Hnl Hs Hu. pose proof (hi_ok _ _ _ H s sp Hs) as Hok. pose proof (ok_small sp Hok Hu) as Hsm.
  destruct (ok_num sp Hok) as [Hlo _]. unfold push_front_to.
  assert (s ∉ bucket st (page_num sp)) as Hnin by (rewrite (hi_free _ _ _ H) by lia; set_solver).
  constructor; simpl; try apply H.
  - rewrite length_insert. apply H.
  - intros i t Hr. rewrite bucket_set by (apply H || lia). case_decide as D.
    + subst i. rewrite elem_of_cons, (hi_free _ _ _ H), not_elem_of_union, not_elem_of_singleton by done. split.
      * intros [->|[[_ ?] Ht]]; (split; [done|]); eauto.
      * intros [Hn Ht]. destruct (decide (t = s)) as [->|]; [by left|right]. done.
    + rewrite (hi_free _ _ _ H), not_elem_of_union, not_elem_of_singleton by done.
      split; [tauto|]. intros [Hn Ht]. split; [|done]. split; [|done]. intros ->.
      destruct Ht as (sp' & H1 & _ & H3). simplify_eq.
  - intros i Hr. rewrite bucket_set by (apply H || lia). case_decide; [|by apply H].
    apply NoDup_cons. split; [done|]. apply H. lia.
Qed.

(** ** Publishing a span *)

(** The pages of [s] are mapped to something. *)
Definition mapped (st : Shard) (s : SpanPtr) : Prop :=
  forall sp p, spans st !! s = Some sp -> in_span sp p -> is_Some (GetSpan (page_map st) p).

Lemma heap_publish e mh lh st s sp : heap_inv ({[s]} ∪ mh) lh st -> spans st !! s = Some sp ->
  (publish e st s = Panic no_nodes /\ nodes_ok e = false /\ ~ mapped st s) \/
  exists m, publish e st s = Ret (with_map st m) /\ heap_inv mh lh (with_map st m) /\
    forall p, 0 <= p < max_page -> is_Some (GetSpan (page_map st) p) -> is_Some (GetSpan m p).
Proof.
  intros H Hs. pose proof (hi_ok _ _ _ H s sp Hs) as Hok.
  destruct (SetSpan_refused (nodes_ok e) (page_map st) s (start_page_idx sp) (page_num sp)) as [[E Hn]|E].
  { destruct (SetSpan_represents (page_map st) (GetSpan (page_map st)) s (start_page_idx sp) (page_num sp)) as (m & Em & _); [done|apply Hok|destruct Hok; lia|apply Hok|].
    left. unfold publish, span_at. rewrite Hs. cbn [mbind res_mbind res_bind]. rewrite E. split; [done|]. split; [done|]. intros Hm.
    rewrite (SetSpan_mapped (nodes_ok e)), Em in E; [done|apply Hok..|]. intros p Hp. by apply (Hm sp). }
  right. destruct (SetSpan_represents (page_map st) (GetSpan (page_map st)) s (start_page_idx sp) (page_num sp))
    as (m & Em & Hm); [done|apply Hok|destruct Hok; lia|apply Hok|].
  exists m. unfold publish, span_at. rewrite Hs. cbn [mbind res_mbind res_bind]. rewrite E, Em. split; [done|].
  split; [|intros p Hp Hsome; rewrite Hm by done; case_decide; [by eexists|done]].
  constructor; simpl; try apply H. intros p Hp Hh t. rewrite Hm by done. case_decide as D.
  - split; [intros [= <-]; eauto|]. intros (tp & Ht & Hin). f_equal. by eapply (hi_disj _ _ _ H).
  - apply (hi_map _ _ _ H); [done|]. intros s' sp' [->%elem_of_singleton|Hin]%elem_of_union Hs'; [|by apply (Hh s' sp')].
    simplify_eq. done.
Qed.

(** ** Changing the metadata *)

(** A new span over pages no live span has. *)
Lemma heap_new mh lh st s sp : heap_inv mh lh st -> spans st !! s = None -> span_ok sp ->
  (forall t tp p, spans st !! t = Some tp -> in_span tp p -> ~ in_span sp p) ->
  heap_inv ({[s]} ∪ mh) ({[s]} ∪ lh) (put_span st s sp).
Proof.
  intros H Hs Hok Hd. apply (heap_add_fresh _ _ _ s) in H; [|done]. constructor; simpl; try apply H.
  - intros t tp [[<- <-]|[Hne Ht]]%lookup_insert_Some; [done|]. by apply (hi_ok _ _ _ H t).
  - intros t u tp up p [[<- <-]|[Hne Ht]]%lookup_insert_Some [[<- <-]|[Hne' Hu]]%lookup_insert_Some H1 H2;
      [done|by destruct (Hd _ _ _ Hu H2)|by destruct (Hd _ _ _ Ht H1)|by apply (hi_disj _ _ _ H t u tp up p)].
  - intros p Hp Hh t. assert (~ in_span sp p) as Hnp by (apply (Hh s); [set_solver|apply lookup_insert_eq]).
    rewrite (hi_map _ _ _ H p Hp).
    + split; intros (tp & Ht & Hin); exists tp; (split; [|done]).
      * rewrite lookup_insert_ne; [done|]. congruence.
      * apply lookup_insert_Some in Ht as [[_ <-]|[_ ?]]; done.
    + intros u up Hu Hup. apply (Hh u); [set_solver|]. rewrite lookup_insert_ne; [done|]. congruence.
  - intros i t Hi. change (bucket (put_span st s sp) i) with (bucket st i). rewrite (hi_free _ _ _ H) by done.
    split; intros [Hn (tp & Ht & ?)]; (split; [done|]); exists tp; (split; [|done]).
    + rewrite lookup_insert_ne; [done|]. set_solver.
    + apply lookup_insert_Some in Ht as [[<- _]|[_ ?]]; [set_solver|done].
Qed.

(** Changing flags and counters of a span that is in no list. *)
Lemma heap_update mh lh st s sp sp' : heap_inv mh lh st -> s ∈ lh -> spans st !! s = Some sp -> span_ok sp' ->
  start_page_idx sp' = start_page_idx sp -> page_num sp' = page_num sp ->
  heap_inv mh lh (put_span st s sp').
Proof.
  intros H Hl Hs Hok E1 E2. assert (forall p, in_span sp' p <-> in_span sp p) as HE by (intros p; unfold in_span; by rewrite E1, E2).
  constructor; simpl; try apply H.
  - intros t tp [[<- <-]|[Hne Ht]]%lookup_insert_Some; [done|]. by apply (hi_ok _ _ _ H t).
  - intros t u tp up p [[<- <-]|[Hne Ht]]%lookup_insert_Some [[<- <-]|[Hne' Hu]]%lookup_insert_Some H1 H2;
      rewrite ?HE in *; [done| | |]; by eapply (hi_disj _ _ _ H).
  - intros p Hp Hh t. rewrite (hi_map _ _ _ H p Hp).
    + split; intros (tp & Ht & Hin).
      * destruct (decide (t = s)) as [->|]; [exists sp'|exists tp]; rewrite ?lookup_insert_eq, ?lookup_insert_ne by done;
          (split; [done|]); [|done]. simplify_eq. by apply HE.
      * apply lookup_insert_Some in Ht as [[<- <-]|[_ ?]]; [exists sp; by rewrite <- HE|by exists tp].
    + intros u up Hu Hup. destruct (decide (u = s)) as [->|].
      * simplify_eq. rewrite <- HE. apply (Hh s); [done|apply lookup_insert_eq].
      * apply (Hh u); [done|]. by rewrite lookup_insert_ne.
  - intros i t Hi. change (bucket (put_span st s sp') i) with (bucket st i). rewrite (hi_free _ _ _ H) by done.
    split; intros [Hn (tp & Ht & ?)]; (split; [done|]); exists tp; (split; [|done]).
    + rewrite lookup_insert_ne; [done|]. set_solver.
    + apply lookup_insert_Some in Ht as [[<- _]|[_ ?]]; [set_solver|done].
Qed.

(** Replacing two adjacent ranges by another division of the same pages: splitting
    [big] into [small] and the rest. *)
Lemma heap_split mh lh st big bsp small ssp bsp' : heap_inv mh lh st -> big ∈ lh -> spans st !! big = Some bsp ->
  spans st !! small = None -> span_ok ssp -> span_ok bsp' ->
  (forall p, in_span bsp p <-> in_span ssp p \/ in_span bsp' p) -> (forall p, in_span ssp p -> ~ in_span bsp' p) ->
  heap_inv ({[small]} ∪ ({[big]} ∪ mh)) ({[small]} ∪ lh) (put_span (put_span st small ssp) big bsp').
Proof.
  intros H Hl Hb Hs Hok Hok' Hu Hd. assert (big <> small) as Hne by congruence.
  apply (heap_add_fresh _ _ _ small) in H; [|done].
  assert (forall t tp, <[big := bsp']> (<[small := ssp]> (spans st)) !! t = Some tp ->
    (t = big /\ tp = bsp') \/ (t = small /\ tp = ssp) \/ (t <> big /\ t <> small /\ spans st !! t = Some tp)) as HI.
  { intros t tp [[<- <-]|[H1 [[<- <-]|[H2 ?]]%lookup_insert_Some]]%lookup_insert_Some; auto. }
  constructor; simpl; try apply H.
  - intros t tp [[-> ->]|[[-> ->]|(_ & _ & Ht)]]%HI; [done..|]. by apply (hi_ok _ _ _ H t).
  - assert (forall t tp p, t <> big -> spans st !! t = Some tp -> in_span tp p -> ~ in_span bsp p) as HB.
    { intros t tp p Ht Htp H1 H2. apply Ht. by eapply (hi_disj _ _ _ H). }
    intros t u tp up p [[-> ->]|[[-> ->]|(T1 & T2 & Ht)]]%HI [[-> ->]|[[-> ->]|(U1 & U2 & Hu')]]%HI H1 H2;
      [done|by destruct (Hd p)| |by destruct (Hd p)|done| | | |by apply (hi_disj _ _ _ H t u tp up p)]; exfalso.
    + by apply (HB u up p); [..|apply Hu; auto].
    + by apply (HB u up p); [..|apply Hu; auto].
    + by apply (HB t tp p); [..|apply Hu; auto].
    + by apply (HB t tp p); [..|apply Hu; auto].
  - intros p Hp Hh t.
    assert (~ in_span ssp p) as N1 by (apply (Hh small); [set_solver|rewrite lookup_insert_ne by done; apply lookup_insert_eq]).
    assert (~ in_span bsp' p) as N2 by (apply (Hh big); [set_solver|apply lookup_insert_eq]).
    rewrite (hi_map _ _ _ H p Hp).
    + split; intros (tp & Ht & Hin); exists tp; (split; [|done]).
      * assert (t <> big) by (intros ->; simplify_eq; apply Hu in Hin; tauto).
        rewrite !lookup_insert_ne by congruence. done.
      * apply HI in Ht as [[-> ->]|[[-> ->]|(_ & _ & Ht)]]; done.
    + intros u up Hu' Hup Hin. assert (u <> big) by (intros ->; simplify_eq; apply Hu in Hin; tauto).
      apply (Hh u up); [set_solver| |done]. rewrite !lookup_insert_ne by congruence. done.
  - intros i t Hi. change (bucket (put_span (put_span st small ssp) big bsp') i) with (bucket st i).
    rewrite (hi_free _ _ _ H) by done.
    split; intros [Hn (tp & Ht & ?)]; (split; [done|]); exists tp; (split; [|done]).
    + rewrite !lookup_insert_ne; [done|set_solver..].
    + apply HI in Ht as [[-> _]|[[-> _]|(_ & _ & Ht)]]; [set_solver..|done].
Qed.

(** Absorbing [l] into [s]. *)
Lemma heap_merge mh lh st s sp l lsp sp' : heap_inv mh lh st -> s ∈ mh -> s ∈ lh -> l ∈ lh -> l ∉ mh -> l <> s ->
  spans st !! s = Some sp -> spans st !! l = Some lsp -> span_ok sp' ->
  (forall p, in_span sp' p <-> in_span sp p \/ in_span lsp p) ->
  heap_inv mh (lh ∖ {[l]}) (delete_span (put_span st s sp') l).
Proof.
  intros H Hsm Hs Hl Hlm Hne Es El Hok Hu.
  assert (forall t tp, delete l (<[s := sp']> (spans st)) !! t = Some tp ->
    (t = s /\ tp = sp') \/ (t <> s /\ t <> l /\ spans st !! t = Some tp)) as HI.
  { intros t tp [? [[<- <-]|[? ?]]%lookup_insert_Some]%lookup_delete_Some; auto. }
  constructor; simpl; try apply H.
  - intros t tp [[-> ->]|(_ & _ & Ht)]%HI; [done|]. by apply (hi_ok _ _ _ H t).
  - assert (forall t tp p, t <> s -> t <> l -> spans st !! t = Some tp -> in_span tp p -> ~ in_span sp' p) as HB.
    { intros t tp p H1 H2 Ht Hin [Hin'|Hin']%Hu; [apply H1|apply H2]; by eapply (hi_disj _ _ _ H). }
    intros t u tp up p [[-> ->]|(T1 & T2 & Ht)]%HI [[-> ->]|(U1 & U2 & Hu')]%HI H1 H2; [done| | |].
    + by destruct (HB u up p).
    + by destruct (HB t tp p).
    + by apply (hi_disj _ _ _ H t u tp up p).
  - intros p Hp Hh t.
    assert (~ in_span sp' p) as N by (apply (Hh s); [done|rewrite lookup_delete_ne by done; apply lookup_insert_eq]).
    rewrite Hu in N. rewrite (hi_map _ _ _ H p Hp).
    + split; intros (tp & Ht & Hin); exists tp; (split; [|done]).
      * assert (t <> s) by (intros ->; simplify_eq; tauto). assert (t <> l) by (intros ->; simplify_eq; tauto).
        rewrite lookup_delete_ne by done. by rewrite lookup_insert_ne.
      * apply HI in Ht as [[-> ->]|(_ & _ & Ht)]; [exfalso; apply N; by apply Hu|done].
    + intros u up Hu' Hup Hin. assert (u <> s) by (intros ->; simplify_eq; tauto).
      apply (Hh u up); [done| |done]. rewrite lookup_delete_ne by (intros ->; done). by rewrite lookup_insert_ne.
  - intros i t Hi. change (bucket (delete_span (put_span st s sp') l) i) with (bucket st i).
    rewrite (hi_free _ _ _ H) by done. split; intros [Hn (tp & Ht & ?)].
    + split; [set_solver|]. exists tp. split; [|done]. rewrite lookup_delete_ne by set_solver.
      rewrite lookup_insert_ne; [done|]. set_solver.
    + apply HI in Ht as [[-> _]|(_ & ? & Ht)]; [set_solver|]. split; [set_solver|]. eauto.
Qed.

(** Giving a span back to the system. *)
Lemma heap_remove st s sp : heap_ok st -> spans st !! s = Some sp -> IsUsed sp = true ->
  heap_ok (delete_span (with_map st (ClearRange (page_map st) (start_page_idx sp) (page_num sp))) s).
Proof.
  intros H Hs Hused. pose proof (hi_ok _ _ _ H s sp Hs) as Hok.
  pose proof (ClearRange_represents (page_map st) (GetSpan (page_map st)) (start_page_idx sp) (page_num sp)
    ltac:(done) ltac:(apply Hok) ltac:(destruct Hok; lia)) as Hc.
  constructor; simpl; try apply H.
  - intros t tp [_ Ht]%lookup_delete_Some. by apply (hi_ok _ _ _ H t).
  - intros t u tp up p [_ Ht]%lookup_delete_Some [_ Hu]%lookup_delete_Some. by apply (hi_disj _ _ _ H t u tp up p).
  - intros p Hp _ t. rewrite Hc by done. case_decide as D.
    + split; [done|]. intros (tp & [Hne Ht]%lookup_delete_Some & Hin). exfalso. apply Hne.
      by eapply (hi_disj _ _ _ H s t).
    + rewrite (hi_map _ _ _ H p Hp) by (intros ? ? ?; set_solver).
      split; intros (tp & Ht & Hin); exists tp; (split; [|done]).
      * apply lookup_delete_Some. split; [|done]. intros ->. simplify_eq. done.
      * by apply lookup_delete_Some in Ht as [_ ?].
  - intros i t Hi. change (bucket (delete_span (with_map st _) s) i) with (bucket st i). rewrite (hi_free _ _ _ H) by done.
    split; intros [Hn (tp & Ht & Hf & ?)]; (split; [done|]); exists tp; (split; [|done]).
    + apply lookup_delete_Some. split; [|done]. congruence.
    + by apply lookup_delete_Some in Ht as [_ ?].
Qed.

(** ** Allocation *)

Definition covered (st : Shard) (p : Z) : Prop := exists t tp, spans st !! t = Some tp /\ in_span tp p.

(** What the operating system promises about a mapping of [n] pages: it lies in the
    address space and overlaps no page in use. *)
Definition os_law (e : Env) (st : Shard) (n : Z) : Prop :=
  forall ptr, sys_ptr e = Some ptr -> 0 <= PtrToPageId ptr /\ PtrToPageId ptr + n <= max_page /\
    forall p, PtrToPageId ptr <= p < PtrToPageId ptr + n -> ~ covered st p.

(** The used spans other than [s] are the same before and after. *)
Definition same_used (s : option SpanPtr) (st st' : Shard) : Prop :=
  forall t tp, s <> Some t -> IsUsed tp = true -> spans st !! t = Some tp <-> spans st' !! t = Some tp.

(** [s] was handed out with [n] pages. *)
Record granted (st st' : Shard) (s : SpanPtr) (n : Z) : Prop := {
  gr_ok : heap_ok st';
  gr_span : exists sp, spans st' !! s = Some sp /\ page_num sp = n /\ IsUsed sp = true;
  gr_new : forall sp, spans st !! s = Some sp -> IsUsed sp = false;
  gr_used : same_used (Some s) st st';
  gr_cover : forall p, covered st p -> covered st' p }.

Lemma fresh_span_none st : spans st !! fresh (dom (spans st)) = None.
Proof. apply not_elem_of_dom, is_fresh. Qed.

Lemma new_span_ok start n o : 0 <= start -> 1 <= n < 2 ^ 32 -> start + n <= max_page -> o = 0 ->
  span_ok (set_owner (used_span (new_span start n)) o) /\ IsUsed (set_owner (used_span (new_span start n)) o) = true.
Proof.
  intros Hs Hn He ->. destruct (used_span_flags (new_span start n)) as [Hu Hf]; [simpl; lia|].
  split; [|exact Hu]. by constructor.
Qed.

Lemma free_span_ok sp start n t : 0 <= start -> 1 <= n <= MAX_PAGE_NUM -> start + n <= max_page ->
  owner_shard_id sp = 0 -> 0 <= flags sp < 2 ^ 16 ->
  span_ok (free_span (set_range sp start n) t) /\ IsUsed (free_span (set_range sp start n) t) = false.
Proof.
  unfold MAX_PAGE_NUM. intros Hs Hn He Ho Hf. destruct (free_span_flags (set_range sp start n) t Hf) as [Hu Hf'].
  split; [|done]. constructor; simpl; try done; unfold MAX_PAGE_NUM; lia.
Qed.

(** Pages came from the system but not the radix nodes to register them. *)
Definition unmappable (e : Env) : Prop := nodes_ok e = false /\ is_Some (sys_ptr e).

Lemma alloc_oversized_spec e st n : heap_ok st -> MAX_PAGE_NUM < n <= UINT32_MAX -> os_law e st n ->
  (alloc_oversized e st n = Panic no_nodes /\ unmappable e) \/
  exists r st', alloc_oversized e st n = Ret (Done r st') /\
    match r with Some s => granted st st' s n | None => st' = st /\ (sys_ptr e = None \/ new_ok e = false) end.
Proof.
  unfold MAX_PAGE_NUM, UINT32_MAX. intros H Hn Hos. unfold alloc_oversized.
  destruct (sys_ptr e) as [ptr|] eqn:Ep; [|by right; exists None, st; auto].
  destruct (new_ok e) eqn:En; [|by right; exists None, st; auto].
  destruct (Hos ptr Ep) as (H0 & H1 & Hfree). set (s := fresh (dom (spans st))).
  rewrite (wrap_small 32 n) by (unfold in_u; lia). set (sp := set_owner _ 0).
  destruct (new_span_ok (PtrToPageId ptr) n 0 H0 ltac:(lia) H1 eq_refl) as [Hok Hu]. fold sp in Hok, Hu.
  pose proof (fresh_span_none st) as Hs. fold s in Hs.
  assert (heap_inv ({[s]} ∪ ∅) ({[s]} ∪ ∅) (put_span st s sp)) as Hi.
  { apply heap_new; [done|done|done|]. intros t tp p Ht Hin Hp. apply (Hfree p); [exact Hp|]. by exists t, tp. }
  assert (spans (put_span st s sp) !! s = Some sp) as Es by apply lookup_insert_eq.
  apply heap_drop_used with (sp := sp) in Hi; [|done|done].
  destruct (heap_publish e ∅ ∅ (put_span st s sp) s sp Hi Es) as [(-> & Hno & _)|(m & -> & Hm & _)];
    cbn [mbind res_mbind res_bind]; [left; split; [done|]; split; [done|by rewrite Ep]|]. right. exists (Some s), (with_map (put_span st s sp) m). split; [done|].
  constructor; [done|by exists sp| | |].
  - intros sp' Hs'. congruence.
  - intros t tp Hne _. simpl. rewrite lookup_insert_ne by congruence. done.
  - intros p (t & tp & Ht & Hin). exists t, tp. split; [|done]. simpl. rewrite lookup_insert_ne by congruence. done.
Qed.

Lemma find_larger_some st l i big popped : find_larger st l = Some (i, big, popped) ->
  i ∈ l /\ exists rest, bucket st i = big :: rest /\ popped = set_bucket st i rest.
Proof.
  induction l as [|j l IH]; simpl; [done|]. destruct (bucket st j) as [|b rest] eqn:E.
  - intros H. destruct (IH H) as [? ?]. split; [by right|done].
  - intros [= <- <- <-]. split; [left|]. by exists rest.
Qed.

Lemma find_larger_none st l : find_larger st l = None -> forall i, i ∈ l -> bucket st i = [].
Proof.
  induction l as [|j l IH]; simpl; [intros _ i Hi; by apply not_elem_of_nil in Hi|].
  destruct (bucket st j) as [|b rest] eqn:E; [|done]. intros H i [->|Hi]%elem_of_cons; [done|by apply IH].
Qed.

(** Popping and pushing back is no change. *)
Lemma push_popped st i s l : bucket st i = s :: l -> push_front_to (set_bucket st i l) i s = st.
Proof.
  unfold bucket, push_front_to, set_bucket. intros E. destruct st as [sp ls pm]. simpl in *.
  destruct (ls !! Z.to_nat i) as [b|] eqn:El; [|done]. simpl in E. subst b. f_equal. unfold bucket. simpl.
  rewrite list_lookup_insert_eq by (by apply lookup_lt_Some in El). simpl. rewrite list_insert_insert_eq. by apply list_insert_id.
Qed.

Lemma split_spec e st i n big l : heap_ok st -> 1 <= n -> n < i <= MAX_PAGE_NUM -> bucket st i = big :: l ->
  exists r st', split_span e (set_bucket st i l) i n big = Ret (Done r st') /\
    match r with Some s => granted st st' s n | None => st' = st /\ new_ok e = false end.
Proof.
  unfold MAX_PAGE_NUM. intros H Hn Hi Hb.
  assert (exists bsp, spans st !! big = Some bsp /\ IsUsed bsp = false /\ page_num bsp = i) as (bsp & Eb & Hu & Hpn).
  { apply (hi_free _ _ _ H i big); [unfold MAX_PAGE_NUM; lia|]. rewrite Hb. left. }
  pose proof (hi_ok _ _ _ H big bsp Eb) as Hok. unfold split_span, span_at. simpl. rewrite Eb.
  cbn [mbind res_mbind res_bind]. rewrite Hpn, Z.eqb_refl, Hu. cbn [am_check negb mbind res_mbind res_bind].
  destruct (new_ok e) eqn:En; [|exists None, st; rewrite push_popped by done; auto].
  set (small := fresh (dom (spans st))). pose proof (fresh_span_none st) as Hsm. fold small in Hsm.
  rewrite !(wrap_small 32 n), (wrap_small 32 (i - n)) by (unfold in_u; lia).
  rewrite (wrap_small 64 (start_page_idx bsp + n)).
  2:{ destruct Hok. change max_page with (2 ^ 36) in *. unfold in_u. lia. }
  set (ssp := set_owner _ _). set (bsp' := free_span _ _).
  assert (span_ok ssp /\ IsUsed ssp = true) as [Hsok Hsu].
  { apply new_span_ok; destruct Hok; lia. }
  assert (span_ok bsp' /\ IsUsed bsp' = false) as [Hbok Hbu].
  { apply free_span_ok; unfold MAX_PAGE_NUM; destruct Hok; (done || lia). }
  assert (heap_inv ∅ ({[big]} ∪ ∅) (set_bucket st i l)) as H1 by (apply heap_pop; (done || unfold MAX_PAGE_NUM; lia)).
  apply (heap_split _ _ _ big bsp small ssp bsp') in H1; [|set_solver|done|done|done|done| |].
  2:{ intros p. unfold in_span. simpl. destruct Hok. lia. }
  2:{ intros p. unfold in_span. simpl. destruct Hok. lia. }
  set (st2 := put_span (put_span (set_bucket st i l) small ssp) big bsp') in *.
  assert (spans st2 !! big = Some bsp') as E2b by apply lookup_insert_eq.
  assert (big <> small) as Hne by congruence.
  assert (spans st2 !! small = Some ssp) as E2s by (simpl; rewrite lookup_insert_ne by done; apply lookup_insert_eq).
  apply heap_drop_used with (sp := ssp) in H1; [|done|done].
  apply (heap_push _ ∅ _ big bsp') in H1; [|set_solver|done|done].
  change (page_num bsp') with (i - n) in *. set (st3 := push_front_to st2 (i - n) big) in *.
  assert (forall p, in_span bsp p -> 0 <= p < max_page /\ is_Some (GetSpan (page_map st) p)) as Hold.
  { intros p Hp. assert (0 <= p < max_page) as Hr by (unfold in_span in Hp; destruct Hok; lia). split; [done|]. exists big.
    apply (hi_map _ _ _ H); [done|set_solver|by exists bsp]. }
  destruct (heap_publish e _ _ st3 small ssp H1 E2s) as [(_ & _ & [])|(m & -> & H3 & Hkeep)]; cbn [mbind res_mbind res_bind].
  { intros sp' p Hs' Hp. rewrite E2s in Hs' || (simpl in Hs'; rewrite lookup_insert_ne, lookup_insert_eq in Hs' by done). injection Hs' as <-. apply Hold. unfold in_span in *. simpl in Hp. lia. }
  destruct (heap_publish e _ _ (with_map st3 m) big bsp' H3 E2b) as [(_ & _ & [])|(m' & -> & H4 & _)]; cbn [mbind res_mbind res_bind].
  { intros sp' p Hs' Hp. simpl in Hs'; rewrite lookup_insert_eq in Hs'. injection Hs' as <-. destruct (Hold p) as [? ?]; [unfold in_span in *; simpl in Hp; lia|]. by apply Hkeep. }
   exists (Some small), (with_map (with_map st3 m) m'). split; [done|].
  constructor; [done|by exists ssp| | |].
  - intros sp' Hs'. congruence.
  - intros t tp Hnt Hut. simpl. destruct (decide (t = big)) as [->|].
    + rewrite lookup_insert_eq, Eb. split; intros [= <-]; congruence.
    + rewrite !lookup_insert_ne by congruence. done.
  - intros p (t & tp & Ht & Hin). destruct (decide (t = big)) as [->|].
    + simplify_eq. destruct (decide (in_span bsp' p)); [by exists big, bsp'|]. exists small, ssp. split; [done|].
      unfold in_span in *. simpl in *. lia.
    + exists t, tp. split; [|done]. simpl. rewrite !lookup_insert_ne by congruence. done.
Qed.

Lemma refill_spec e st : heap_ok st -> os_law e st MAX_PAGE_NUM ->
  (refill e st = Panic no_nodes /\ unmappable e) \/
  (refill e st = Ret (Done None st) /\ (sys_ptr e = None \/ new_ok e = false)) \/
  (exists st', refill e st = Ret (Again st') /\ heap_ok st' /\ bucket st' MAX_PAGE_NUM <> [] /\
    same_used None st st' /\ forall p, covered st p -> covered st' p).
Proof.
  intros H Hos. unfold refill. destruct (sys_ptr e) as [ptr|] eqn:Ep; [|auto].
  destruct (new_ok e) eqn:En; [|auto]. destruct (Hos ptr Ep) as (H0 & H1 & Hfree).
  change (u32 MAX_PAGE_NUM) with MAX_PAGE_NUM. set (s := fresh (dom (spans st))). set (sp := set_owner _ 0).
  pose proof (fresh_span_none st) as Hs. fold s in Hs.
  destruct (free_span_ok (new_span (PtrToPageId ptr) MAX_PAGE_NUM) (PtrToPageId ptr) MAX_PAGE_NUM (now_ms e))
    as [Hok Hu]; [done|unfold MAX_PAGE_NUM; lia|done|done|simpl; lia|].
  change (span_ok sp) in Hok. change (IsUsed sp = false) in Hu.
  assert (heap_inv ({[s]} ∪ ∅) ({[s]} ∪ ∅) (put_span st s sp)) as Hi.
  { apply heap_new; [done|done|done|]. intros t tp p Ht Hin Hp. apply (Hfree p); [exact Hp|]. by exists t, tp. }
  assert (spans (put_span st s sp) !! s = Some sp) as Es by apply lookup_insert_eq.
  apply (heap_push _ ∅ _ s sp) in Hi; [|set_solver|done|done].
  change (page_num sp) with MAX_PAGE_NUM in *. set (st2 := push_front_to (put_span st s sp) MAX_PAGE_NUM s) in *.
  destruct (heap_publish e ∅ ∅ st2 s sp Hi Es) as [(-> & Hno & _)|(m & -> & Hm & _)]; cbn [mbind res_mbind res_bind];
    [left; split; [done|]; split; [done|by rewrite Ep]|]. right. right.
  exists (with_map st2 m). split; [done|]. split; [done|]. split.
  - assert (s ∈ bucket (with_map st2 m) MAX_PAGE_NUM) as Hin; [|intros E; rewrite E in Hin; by apply not_elem_of_nil in Hin].
    apply (hi_free _ _ _ Hm); [unfold MAX_PAGE_NUM; lia|]. split; [set_solver|]. exists sp. done.
  - split.
    + intros t tp _ Hut. simpl. destruct (decide (t = s)) as [->|].
      * rewrite lookup_insert_eq, Hs. split; [done|]. intros [= <-]. congruence.
      * by rewrite lookup_insert_ne.
    + intros p (t & tp & Ht & Hin). exists t, tp. split; [|done]. simpl. rewrite lookup_insert_ne by congruence. done.
Qed.

(** What can make an allocation fail. *)
Definition starved (e : Env) : Prop := sys_ptr e = None \/ new_ok e = false.

(** One pass, for a request of at least one page. *)
Lemma alloc_pass_spec e st n : heap_ok st -> 1 <= n <= UINT32_MAX ->
  (n <= MAX_PAGE_NUM /\ bucket st MAX_PAGE_NUM <> []) \/ os_law e st (Z.max n MAX_PAGE_NUM) ->
  (alloc_pass e st n = Panic no_nodes /\ unmappable e /\ ~ (n <= MAX_PAGE_NUM /\ bucket st MAX_PAGE_NUM <> [])) \/
  (exists r st', alloc_pass e st n = Ret (Done r st') /\
     match r with Some s => granted st st' s n | None => st' = st /\ starved e end) \/
  (exists st', alloc_pass e st n = Ret (Again st') /\ n <= MAX_PAGE_NUM /\ bucket st MAX_PAGE_NUM = [] /\
     heap_ok st' /\ bucket st' MAX_PAGE_NUM <> [] /\ same_used None st st' /\ forall p, covered st p -> covered st' p).
Proof.
  intros H Hn Hlaw. unfold alloc_pass. destruct (Z.ltb_spec MAX_PAGE_NUM n) as [Hbig|Hsmall].
  { destruct Hlaw as [[? _]|Hlaw]; [lia|]. rewrite Z.max_l in Hlaw by lia.
    destruct (alloc_oversized_spec e st n H ltac:(lia) Hlaw) as [[E Hu]|(r & st' & E & Hr)]; [left; split_and!; [done..|lia]|].
    right. left. exists r, st'. done. }
  rewrite (proj2 (Z.leb_le 1 n)), (proj2 (Z.leb_le n MAX_PAGE_NUM)) by lia. cbn [andb am_check mbind res_mbind res_bind].
  destruct (bucket st n) as [|s l] eqn:Eb.
  - destruct (find_larger st _) as [[[i big] popped]|] eqn:Ef.
    + right. left. apply find_larger_some in Ef as [Hi (rest & Er & ->)]. apply elem_of_seqZ in Hi.
      destruct (split_spec e st i n big rest H) as (r & st' & E & Hr); [lia|lia|done|].
      exists r, st'. split; [done|]. destruct r; [done|]. destruct Hr as [? ?]. split; [done|by right].
    + pose proof (find_larger_none _ _ Ef) as Hnone.
      assert (bucket st MAX_PAGE_NUM = []) as HM.
      { destruct (Z.eq_dec n MAX_PAGE_NUM) as [->|]; [done|]. apply Hnone, elem_of_seqZ. lia. }
      destruct Hlaw as [[_ ?]|Hlaw]; [done|]. rewrite Z.max_r in Hlaw by lia.
      destruct (refill_spec e st H Hlaw) as [[-> Hu]|[[-> Hs]|(st' & -> & H1 & H2 & H3 & H4)]].
      * left. split_and!; [done..|]. by intros [_ ?].
      * right. left. by exists None, st.
      * right. right. by exists st'.
  - right. left. assert (s ∈ bucket st n) as Hin by (rewrite Eb; left).
    apply (hi_free _ _ _ H) in Hin as [_ (sp & Es & Hu & Hp)]; [|lia].
    unfold span_at. rewrite Es. cbn [mbind res_mbind res_bind]. eexists (Some s), _. split; [done|].
    pose proof (hi_ok _ _ _ H s sp Es) as Hok.
    destruct (used_span_flags sp (ok_flags sp Hok)) as [Hu' Hf'].
    assert (span_ok (used_span sp)) as Hok'.
    { destruct Hok. constructor; simpl; try done. intros Hx. congruence. }
    assert (heap_inv ∅ ({[s]} ∪ ∅) (set_bucket st n l)) as H1 by (apply heap_pop; (done || lia)).
    apply (heap_update _ _ _ s sp (used_span sp)) in H1; [|set_solver|done|done|done|done].
    constructor.
    + eapply heap_drop_used; [exact H1|apply lookup_insert_eq|done].
    + exists (used_span sp). split; [apply lookup_insert_eq|]. done.
    + intros sp' Hs'. congruence.
    + intros t tp Hne Hut. simpl. rewrite lookup_insert_ne by congruence. done.
    + intros p (t & tp & Ht & Hin). destruct (decide (t = s)) as [->|].
      * exists s, (used_span sp). split; [apply lookup_insert_eq|]. simplify_eq. done.
      * exists t, tp. split; [|done]. simpl. by rewrite lookup_insert_ne.
Qed.

Lemma granted_after st st1 st' s n : same_used None st st1 -> (forall p, covered st p -> covered st1 p) ->
  granted st1 st' s n -> granted st st' s n.
Proof.
  intros Hu Hc [H1 H2 H3 H4 H5]. constructor; try done.
  - intros sp Hs. destruct (IsUsed sp) eqn:E; [|done]. apply (Hu s sp) in Hs; [|done|done]. by rewrite <- E, (H3 sp).
  - intros t tp Hne Hut. rewrite (Hu t tp) by done. by apply H4.
  - intros p Hp. by apply H5, Hc.
Qed.

(** The second pass always ends the loop. *)
Lemma alloc_loop_spec e1 e2 es st n : heap_ok st -> 1 <= n <= UINT32_MAX -> os_law e1 st (Z.max n MAX_PAGE_NUM) ->
  (alloc_loop (e1 :: e2 :: es) st n = Panic no_nodes /\ unmappable e1) \/
  exists r st', alloc_loop (e1 :: e2 :: es) st n = Ret (r, st') /\
    match r with
    | Some s => granted st st' s n
    | None => heap_ok st' /\ same_used None st st' /\ (starved e1 \/ starved e2)
    end.
Proof.
  intros H Hn Hlaw. cbn [alloc_loop].
  destruct (alloc_pass_spec e1 st n H Hn (or_intror Hlaw)) as
    [(-> & Hu & _)|[(r & st' & -> & Hr)|(st1 & -> & Hs & _ & H1 & Hb & Hu & Hc)]]; cbn [mbind res_mbind res_bind]; [by left|right..].
  { exists r, st'. split; [done|]. destruct r; [done|]. destruct Hr as [-> ?]. split; [done|]. split; [done|]. by left. }
  destruct (alloc_pass_spec e2 st1 n H1 Hn (or_introl (conj Hs Hb))) as
    [(_ & _ & [])|[(r & st' & -> & Hr)|(st2 & _ & _ & ? & _)]]; cbn [mbind res_mbind res_bind]; [done| |done].
  exists r, st'. split; [done|]. destruct r as [s|]; [by eapply granted_after|]. destruct Hr as [-> ?]. auto.
Qed.

Lemma put_same st s sp : spans st !! s = Some sp -> put_span st s sp = st.
Proof. intros H. unfold put_span, with_spans. rewrite insert_id by done. by destruct st. Qed.

Lemma AllocSpan_outcome e1 e2 es st n : heap_ok st -> 0 <= n -> os_law e1 st (Z.max n MAX_PAGE_NUM) ->
  (AllocSpan (e1 :: e2 :: es) st n = Panic no_nodes /\ unmappable e1) \/
  exists r st', AllocSpan (e1 :: e2 :: es) st n = Ret (r, st') /\
    match r with
    | Some s => granted st st' s n
    | None => heap_ok st' /\ same_used None st st' /\ (n = 0 \/ UINT32_MAX < n \/ starved e1 \/ starved e2)
    end.
Proof.
  intros H Hn Hlaw. unfold AllocSpan, AllocSpanLocked, SelectShardForAlloc.
  destruct (Z.eqb_spec n 0) as [->|Hn0]; cbn [orb mbind res_mbind res_bind].
  { right. exists None, st. split; [done|]. split; [done|]. split; [done|auto]. }
  destruct (Z.ltb_spec UINT32_MAX n); cbn [mbind res_mbind res_bind].
  { right. exists None, st. split; [done|]. split; [done|]. split; [done|auto]. }
  destruct (alloc_loop_spec e1 e2 es st n H ltac:(lia) Hlaw) as [[-> Hu]|(r & st' & -> & Hr)];
    cbn [mbind res_mbind res_bind]; [by left|right]. destruct r as [s|].
  - destruct (gr_span _ _ _ _ Hr) as (sp & Es & _). unfold span_at. rewrite Es. cbn [mbind res_mbind res_bind].
    exists (Some s), st'. split; [|done]. do 2 f_equal.
    assert (set_owner sp 0 = sp) as ->; [|by apply put_same].
    pose proof (ok_owner sp (hi_ok _ _ _ (gr_ok _ _ _ _ Hr) s sp Es)) as Ho. destruct sp. simpl in Ho. subst. done.
  - exists None, st'. split; [done|]. destruct Hr as (? & ? & ?). split; [done|]. split; [done|auto].
Qed.

(** ** Release *)

(** While a span is merged with its neighbours: its range grows, the other used spans
    and the set of covered pages stay. *)
Record merging (s : SpanPtr) (st : Shard) (sp : Span) (st' : Shard) (sp' : Span) : Prop := {
  mg_inv : heap_inv {[s]} {[s]} st';
  mg_at : spans st' !! s = Some sp';
  mg_range : exists a b, sp' = set_range sp a b;
  mg_num : page_num sp <= page_num sp' <= MAX_PAGE_NUM;
  mg_in : forall p, in_span sp p -> in_span sp' p;
  mg_mapped : mapped st' s;
  mg_used : same_used (Some s) st st';
  mg_cover : forall p, covered st p <-> covered st' p;
  mg_size : (size (spans st') <= size (spans st))%nat }.

Lemma merging_refl s st sp : heap_inv {[s]} {[s]} st -> spans st !! s = Some sp -> page_num sp <= MAX_PAGE_NUM ->
  mapped st s -> merging s st sp st sp.
Proof.
  intros H Hs Hn Hm. constructor; try done. exists (start_page_idx sp), (page_num sp). by destruct sp.
Qed.

Lemma merging_trans s st sp st1 sp1 st2 sp2 : merging s st sp st1 sp1 -> merging s st1 sp1 st2 sp2 -> merging s st sp st2 sp2.
Proof.
  intros [I1 A1 (a1 & b1 & R1) N1 In1 M1 U1 C1 S1] [I2 A2 (a2 & b2 & R2) N2 In2 M2 U2 C2 S2].
  constructor; try done; try lia.
  - exists a2, b2. by rewrite R2, R1.
  - auto.
  - intros t tp Hne Hu. rewrite (U1 t tp) by done. by apply U2.
  - intros p. by rewrite C1, C2.
Qed.

Lemma merge_once st s sp l lsp a : heap_inv {[s]} {[s]} st -> spans st !! s = Some sp -> page_num sp <= MAX_PAGE_NUM ->
  mapped st s -> spans st !! l = Some lsp -> l <> s -> IsUsed sp = true -> cannot_merge sp lsp = false ->
  (forall p, a <= p < a + (page_num sp + page_num lsp) <-> in_span sp p \/ in_span lsp p) ->
  exists st1, erase_from st (page_num lsp) l = Ret st1 /\ spans st1 = spans st /\
    let sp' := set_range sp a (u32 (page_num sp + page_num lsp)) in
    merging s st sp (delete_span (put_span st1 s sp') l) sp' /\
    (size (spans (delete_span (put_span st1 s sp') l)) < size (spans st))%nat.
Proof.
  intros H Es Hn Hm El Hne Hu Hc Hr. unfold cannot_merge in Hc. bsplit.
  pose proof (hi_ok _ _ _ H s sp Es) as Hok. pose proof (hi_ok _ _ _ H l lsp El) as Hokl.
  pose proof (ok_num sp Hok) as N1. pose proof (ok_num lsp Hokl) as N2. pose proof (ok_small lsp Hokl ltac:(done)) as N3.
  unfold MAX_PAGE_NUM in Hn, N3. rewrite (wrap_small 32) in * by (unfold in_u; lia).
  destruct (heap_erase _ _ st (page_num lsp) l H) as (st1 & -> & Hinv & Esp & Epm); [unfold MAX_PAGE_NUM; lia| |].
  { apply (hi_free _ _ _ H); [unfold MAX_PAGE_NUM; lia|]. split; [set_solver|]. eauto. }
  exists st1. split; [done|]. split; [done|]. intros sp'. set (st' := delete_span (put_span st1 s sp') l).
  assert (spans st' = delete l (<[s := sp']> (spans st))) as Est by (unfold st'; simpl; by rewrite Esp).
  assert (forall p, in_span sp' p <-> in_span sp p \/ in_span lsp p) as HU by (intros p; apply Hr).
  assert (span_ok sp') as Hok'.
  { assert (in_span sp' a) as Ha by (unfold in_span; simpl; lia). assert (in_span sp' (a + (page_num sp + page_num lsp) - 1)) as Hz
      by (unfold in_span; simpl; lia).
    apply HU in Ha. apply HU in Hz. destruct Hok, Hokl. unfold in_span in Ha, Hz.
    constructor; simpl; try done; lia. }
  assert (spans st' !! s = Some sp') as Es' by (rewrite Est, lookup_delete_ne by done; apply lookup_insert_eq).
  split; [constructor|].
  - rewrite <- Esp in Es, El. pose proof (heap_merge _ _ st1 s sp l lsp sp' Hinv ltac:(set_solver) ltac:(set_solver) ltac:(set_solver)
      ltac:(set_solver) Hne Es El Hok' HU) as Hinv'.
    replace (({[l]} ∪ {[s]}) ∖ {[l]}) with ({[s]} : gset SpanPtr) in Hinv' by set_solver. exact Hinv'.
  - done.
  - by eexists _, _.
  - simpl. lia.
  - intros p Hp. apply HU. by left.
  - intros spx p Hx Hin. rewrite Es' in Hx. injection Hx as <-. change (page_map st') with (page_map st1). rewrite Epm.
    apply HU in Hin as [Hin|Hin]; [by apply (Hm sp)|]. exists l. apply (hi_map _ _ _ H).
    + destruct Hokl. unfold in_span in Hin. lia.
    + intros x xp ->%elem_of_singleton Hx Hin'. simplify_eq. apply Hne. by eapply (hi_disj _ _ _ H).
    + by exists lsp.
  - intros t tp Hnt Hut. rewrite Est, lookup_delete_Some, lookup_insert_ne by congruence.
    split; [|by intros [_ ?]]. intros Ht. split; [|done]. intros <-. congruence.
  - intros p. unfold covered. rewrite Est. split.
    + intros (t & tp & Ht & Hin). destruct (decide (t = s)) as [->|Hts]; [|destruct (decide (t = l)) as [->|Htl]].
      * exists s, sp'. simplify_eq. rewrite lookup_delete_ne, lookup_insert_eq by done. split; [done|]. apply HU. by left.
      * exists s, sp'. simplify_eq. rewrite lookup_delete_ne, lookup_insert_eq by done. split; [done|]. apply HU. by right.
      * exists t, tp. by rewrite lookup_delete_ne, lookup_insert_ne by done.
    + intros (t & tp & [Htl [[<- <-]|[Hts Ht]]%lookup_insert_Some]%lookup_delete_Some & Hin); [|eauto].
      apply HU in Hin as [?|?]; eauto.
  - rewrite Est, map_size_delete_Some by (by rewrite lookup_insert_ne).
    rewrite map_size_insert_Some by done. lia.
  - rewrite Est, map_size_delete_Some by (by rewrite lookup_insert_ne).
    rewrite map_size_insert_Some by done.
    assert (size (spans st) <> 0)%nat as Hz; [|lia]. rewrite map_size_ne_0_lookup. exists s. by rewrite Es.
Qed.

(** Nothing to merge on the side whose end is [q]: no free span with a fitting size
    touches it. *)
Definition stuck (st : Shard) (s : SpanPtr) (sp : Span) (side : Span -> Prop) : Prop :=
  forall t tp, t <> s -> spans st !! t = Some tp -> IsUsed tp = false -> side tp ->
    MAX_PAGE_NUM < page_num sp + page_num tp.

Definition touches_left (sp tp : Span) : Prop := start_page_idx tp + page_num tp = start_page_idx sp.
Definition touches_right (sp tp : Span) : Prop := start_page_idx sp + page_num sp = start_page_idx tp.

(** The span found at a page next to [s] is another live span with that page. *)
Lemma neighbour st s sp p : heap_inv {[s]} {[s]} st -> spans st !! s = Some sp -> 0 <= p < max_page -> ~ in_span sp p ->
  match GetSpan (page_map st) p with
  | Some l => exists lsp, spans st !! l = Some lsp /\ in_span lsp p /\ l <> s
  | None => ~ covered st p
  end.
Proof.
  intros H Es Hp Hn.
  assert (forall t, GetSpan (page_map st) p = Some t <-> exists tp, spans st !! t = Some tp /\ in_span tp p) as HM.
  { apply (hi_map _ _ _ H); [done|]. intros x xp ->%elem_of_singleton Hx. simplify_eq. done. }
  destruct (GetSpan (page_map st) p) as [l|] eqn:E.
  - destruct (proj1 (HM l) eq_refl) as (lsp & El & Hin). exists lsp. split; [done|]. split; [done|].
    intros ->. simplify_eq. done.
  - intros (t & tp & Ht & Hin). assert (None = Some t) as Hx; [|done]. apply HM. by exists tp.
Qed.

Lemma cannot_merge_stuck st s sp l lsp : heap_inv {[s]} {[s]} st -> spans st !! l = Some lsp -> spans st !! s = Some sp ->
  page_num sp <= MAX_PAGE_NUM -> cannot_merge sp lsp = true -> IsUsed lsp = false -> MAX_PAGE_NUM < page_num sp + page_num lsp.
Proof.
  intros H El Es Hn Hc Hu. pose proof (hi_ok _ _ _ H s sp Es) as Hok. pose proof (hi_ok _ _ _ H l lsp El) as Hokl.
  unfold cannot_merge in Hc. rewrite Hu, (ok_owner _ Hok), (ok_owner _ Hokl) in Hc. simpl in Hc.
  pose proof (ok_num sp Hok). pose proof (ok_num lsp Hokl). pose proof (ok_small lsp Hokl Hu). unfold MAX_PAGE_NUM in *.
  rewrite (wrap_small 32) in Hc by (unfold in_u; lia). lia.
Qed.

Lemma merge_left_spec fuel : forall st s sp, (size (spans st) < fuel)%nat ->
  heap_inv {[s]} {[s]} st -> spans st !! s = Some sp -> page_num sp <= MAX_PAGE_NUM -> mapped st s -> IsUsed sp = true ->
  exists st' sp', merge_left fuel st s = Ret st' /\ merging s st sp st' sp' /\ IsUsed sp' = true /\
    stuck st' s sp' (touches_left sp').
Proof.
  induction fuel as [|fuel IH]; intros st s sp Hf H Es Hn Hm Hu; [lia|]. cbn [merge_left].
  rewrite (span_at_some st s sp Es). cbn [mbind res_mbind res_bind].
  pose proof (hi_ok _ _ _ H s sp Es) as Hok.
  destruct (Z.eqb_spec (start_page_idx sp) 0) as [E0|Hne0].
  { exists st, sp. split; [done|]. split; [by apply merging_refl|]. split; [done|]. intros t tp _ Ht _ HT.
    pose proof (hi_ok _ _ _ H t tp Ht) as Hokt. destruct Hokt. unfold touches_left in HT. lia. }
  assert (forall t tp, t <> s -> spans st !! t = Some tp -> touches_left sp tp -> in_span tp (start_page_idx sp - 1)) as HT.
  { intros t tp Hts Ht HT. destruct (hi_ok _ _ _ H t tp Ht). unfold touches_left, in_span in *. lia. }
  pose proof (neighbour st s sp (start_page_idx sp - 1) H Es) as HN.
  destruct (GetSpan (page_map st) (start_page_idx sp - 1)) as [l|] eqn:Eg.
  2:{ exists st, sp. split; [done|]. split; [by apply merging_refl|]. split; [done|]. intros t tp Hts Ht _ Hl.
      exfalso. apply HN; [destruct Hok; lia|unfold in_span; lia|]. exists t, tp. split; [done|]. by apply (HT t). }
  destruct HN as (lsp & El & Hin & Hls); [destruct Hok; lia|unfold in_span; lia|].
  rewrite (span_at_some st l lsp El). cbn [mbind res_mbind res_bind]. destruct (cannot_merge sp lsp) eqn:Ec.
  { exists st, sp. split; [done|]. split; [by apply merging_refl|]. split; [done|]. intros t tp Hts Ht Hut Hl.
    assert (t = l) as -> by (eapply (hi_disj _ _ _ H t l); [done|done|by apply (HT t)|done]). simplify_eq.
    by eapply (cannot_merge_stuck st s sp l). }
  assert (touches_left sp lsp) as Hadj.
  { unfold touches_left. destruct (Z.eq_dec (start_page_idx lsp + page_num lsp) (start_page_idx sp)) as [|Hx]; [done|].
    exfalso. apply Hls. eapply (hi_disj _ _ _ H l s lsp sp (start_page_idx sp)); [done|done|unfold in_span in *; lia|].
    unfold in_span. destruct Hok. lia. }
  destruct (merge_once st s sp l lsp (start_page_idx lsp) H Es Hn Hm El Hls Hu Ec) as (st1 & -> & Esp & HM & Hsz).
  { intros p. unfold touches_left, in_span in *. destruct Hok, (hi_ok _ _ _ H l lsp El). lia. }
  cbn [mbind res_mbind res_bind].
  destruct (IH _ s _ (Nat.lt_le_trans _ _ _ Hsz (proj1 (Nat.lt_succ_r _ _) Hf)) (mg_inv _ _ _ _ _ HM) (mg_at _ _ _ _ _ HM)) as (st' & sp' & -> & HM' & Hu' & Hst);
    [apply HM|apply HM|done|].
  exists st', sp'. split; [done|]. split; [by eapply merging_trans|]. done.
Qed.

(** The right side: merging there keeps the left side stuck. *)
Lemma merge_right_spec fuel : forall st s sp, (size (spans st) < fuel)%nat ->
  heap_inv {[s]} {[s]} st -> spans st !! s = Some sp -> page_num sp <= MAX_PAGE_NUM -> mapped st s -> IsUsed sp = true ->
  stuck st s sp (touches_left sp) ->
  exists st' sp', merge_right fuel st s = Ret st' /\ merging s st sp st' sp' /\
    stuck st' s sp' (touches_left sp') /\ stuck st' s sp' (touches_right sp').
Proof.
  induction fuel as [|fuel IH]; intros st s sp Hf H Es Hn Hm Hu HL; [lia|]. cbn [merge_right].
  rewrite (span_at_some st s sp Es). cbn [mbind res_mbind res_bind].
  pose proof (hi_ok _ _ _ H s sp Es) as Hok. destruct Hok as [O1 O2 O3 O4 O5 O6].
  change max_page with (2 ^ 36) in O3. rewrite (wrap_small 64) by (unfold in_u; lia).
  set (q := start_page_idx sp + page_num sp).
  assert (forall t tp, t <> s -> spans st !! t = Some tp -> touches_right sp tp -> in_span tp q) as HT.
  { intros t tp Hts Ht HT. destruct (hi_ok _ _ _ H t tp Ht). unfold touches_right, in_span, q in *. lia. }
  destruct (Z.lt_ge_cases q max_page) as [Hq|Hq].
  2:{ rewrite GetSpan_outside by (unfold q; lia). exists st, sp. split; [done|]. split; [by apply merging_refl|]. split; [done|].
      intros t tp Hts Ht _ Hr. apply (HT t tp) in Hr; [|done|done]. destruct (hi_ok _ _ _ H t tp Ht). unfold in_span in Hr. lia. }
  pose proof (neighbour st s sp q H Es ltac:(unfold q in *; lia) ltac:(unfold in_span, q; lia)) as HN.
  destruct (GetSpan (page_map st) q) as [l|] eqn:Eg.
  2:{ exists st, sp. split; [done|]. split; [by apply merging_refl|]. split; [done|]. intros t tp Hts Ht _ Hl.
      exfalso. apply HN. exists t, tp. split; [done|]. by apply (HT t). }
  destruct HN as (lsp & El & Hin & Hls).
  rewrite (span_at_some st l lsp El). cbn [mbind res_mbind res_bind]. destruct (cannot_merge sp lsp) eqn:Ec.
  { exists st, sp. split; [done|]. split; [by apply merging_refl|]. split; [done|]. intros t tp Hts Ht Hut Hl.
    assert (t = l) as -> by (eapply (hi_disj _ _ _ H t l); [done|done|by apply (HT t)|done]). simplify_eq.
    by eapply (cannot_merge_stuck st s sp l). }
  assert (touches_right sp lsp) as Hadj.
  { unfold touches_right. destruct (Z.eq_dec q (start_page_idx lsp)) as [|Hx]; [done|].
    exfalso. apply Hls. eapply (hi_disj _ _ _ H l s lsp sp (q - 1)); [done|done|unfold in_span in *; lia|].
    unfold in_span, q. lia. }
  destruct (merge_once st s sp l lsp (start_page_idx sp) H Es Hn Hm El Hls Hu Ec) as (st1 & -> & Esp & HM & Hsz).
  { intros p. unfold touches_right, in_span in *. destruct (hi_ok _ _ _ H l lsp El). lia. }
  cbn [mbind res_mbind res_bind].
  destruct (IH _ s _ (Nat.lt_le_trans _ _ _ Hsz (proj1 (Nat.lt_succ_r _ _) Hf)) (mg_inv _ _ _ _ _ HM) (mg_at _ _ _ _ _ HM))
    as (st' & sp' & -> & HM' & Hst1 & Hst2); [apply HM|apply HM|done| |].
  { intros t tp Hts Ht Hut Hl. destruct (mg_num _ _ _ _ _ HM) as [Hg _].
    enough (MAX_PAGE_NUM < page_num sp + page_num tp) by lia.
    apply (HL t tp Hts); [|done|exact Hl]. simpl in Ht. apply lookup_delete_Some in Ht as [Htl Ht].
    rewrite lookup_insert_ne, Esp in Ht by done. done. }
  exists st', sp'. split; [done|]. split; [by eapply merging_trans|]. done.
Qed.

Lemma heap_add_used mh lh st s sp : heap_inv mh lh st -> spans st !! s = Some sp -> IsUsed sp = true ->
  heap_inv mh ({[s]} ∪ lh) st.
Proof.
  intros H Hs Hu. constructor; try apply H. intros i t Hi. rewrite (hi_free _ _ _ H) by done.
  split; intros [Hn Ht]; (split; [|done]); [|set_solver].
  intros [->%elem_of_singleton|?]%elem_of_union; [|done]. destruct Ht as (sp' & ? & ? & _). congruence.
Qed.

Lemma heap_mapped st s : heap_ok st -> mapped st s.
Proof.
  intros H sp p Hs Hin. exists s. apply (hi_map _ _ _ H); [|set_solver|by exists sp].
  destruct (hi_ok _ _ _ H s sp Hs). unfold in_span in Hin. lia.
Qed.

(** [s] was taken back. *)
Record released (st st' : Shard) (s : SpanPtr) (sp : Span) : Prop := {
  rl_ok : heap_ok st';
  rl_used : same_used (Some s) st st';
  rl_free : forall tp, spans st' !! s = Some tp -> IsUsed tp = false;
  rl_cover : forall p, covered st' p <-> covered st p /\ (MAX_PAGE_NUM < page_num sp -> ~ in_span sp p);
  rl_merged : page_num sp <= MAX_PAGE_NUM -> exists fsp, spans st' !! s = Some fsp /\
    (forall p, in_span sp p -> in_span fsp p) /\
    stuck st' s fsp (touches_left fsp) /\ stuck st' s fsp (touches_right fsp) }.

Lemma release_oversized st s sp : heap_ok st -> spans st !! s = Some sp -> IsUsed sp = true -> MAX_PAGE_NUM < page_num sp ->
  released st (delete_span (with_map st (ClearRange (page_map st) (start_page_idx sp) (page_num sp))) s) s sp.
Proof.
  intros H Es Hu Hbig. constructor; [by apply heap_remove| | | |lia].
  - intros t tp Hne _. simpl. by rewrite lookup_delete_ne by congruence.
  - intros tp Ht. simpl in Ht. by rewrite lookup_delete_eq in Ht.
  - intros p. unfold covered. simpl. split.
    + intros (t & tp & [Hne Ht]%lookup_delete_Some & Hin). split; [eauto|]. intros _ Hin'. apply Hne.
      by eapply (hi_disj _ _ _ H s t).
    + intros [(t & tp & Ht & Hin) Hno]. exists t, tp. split; [|done]. apply lookup_delete_Some. split; [|done].
      intros ->. simplify_eq. by apply Hno.
Qed.

(** The last steps: flags, list, page map. *)
Lemma release_finish e st s sp st2 sp2 : merging s st sp st2 sp2 -> IsUsed sp2 = true ->
  stuck st2 s sp2 (touches_left sp2) -> stuck st2 s sp2 (touches_right sp2) ->
  let sp3 := set_time (reset_objects (SetCommitted (SetUsed sp2 false) true)) (now_ms e) in
  exists st', publish e (push_front_to (put_span st2 s sp3) (page_num sp3) s) s = Ret st' /\ released st st' s sp.
Proof.
  intros HM Hu2 HL HR sp3. pose proof (mg_inv _ _ _ _ _ HM) as H2. pose proof (mg_at _ _ _ _ _ HM) as E2.
  pose proof (hi_ok _ _ _ H2 s sp2 E2) as Hok2. pose proof (mg_num _ _ _ _ _ HM) as Hn2.
  destruct (free_span_flags sp2 (now_ms e) (ok_flags sp2 Hok2)) as [Hf3 Hr3].
  assert (IsUsed sp3 = false) as Hu3 by exact Hf3.
  assert (span_ok sp3) as Hok3 by (destruct Hok2; constructor; simpl; (done || lia)).
  assert (heap_inv {[s]} ({[s]} ∪ ∅) (put_span st2 s sp3)) as H3.
  { apply (heap_update _ _ _ s sp2 sp3); [by rewrite union_empty_r_L|set_solver|done|done|done|done]. }
  assert (spans (put_span st2 s sp3) !! s = Some sp3) as E3 by apply lookup_insert_eq.
  apply (heap_push _ ∅ _ s sp3) in H3; [|set_solver|done|done]. rewrite <- (union_empty_r_L {[s]}) in H3.
  destruct (heap_publish e ∅ ∅ _ s sp3 H3 E3) as [(_ & _ & [])|(m & -> & H4 & _)].
  { intros spx p Hx Hin. change (spans (put_span st2 s sp3) !! s = Some spx) in Hx. rewrite E3 in Hx. injection Hx as <-. by apply (mg_mapped _ _ _ _ _ HM sp2). }
  eexists. split; [done|]. set (st4 := with_map _ m) in *. assert (spans st4 = <[s := sp3]> (spans st2)) as E4 by done.
  assert (forall p, covered st4 p <-> covered st2 p) as HC.
  { intros p. unfold covered. rewrite E4. split.
    - intros (t & tp & [[<- <-]|[? Ht]]%lookup_insert_Some & Hin); [exists s, sp2; done|eauto].
    - intros (t & tp & Ht & Hin). destruct (decide (t = s)) as [->|]; [exists s, sp3|exists t, tp];
        rewrite ?lookup_insert_eq, ?lookup_insert_ne by done; (split; [done|]); [simplify_eq; exact Hin|done]. }
  assert (forall side, stuck st2 s sp2 side -> stuck st4 s sp3 side) as HS.
  { intros side Hs t tp Hne Ht. rewrite E4, lookup_insert_ne in Ht by done. by apply (Hs t tp). }
  constructor; [done| | | |].
  - intros t tp Hne Hut. rewrite (mg_used _ _ _ _ _ HM t tp) by done. rewrite E4, lookup_insert_ne by congruence. done.
  - intros tp Ht. rewrite E4, lookup_insert_eq in Ht. congruence.
  - intros p. rewrite HC, <- (mg_cover _ _ _ _ _ HM p). split; [|tauto]. intros Hp. split; [done|]. lia.
  - intros _. exists sp3. rewrite E4, lookup_insert_eq. split; [done|]. split; [apply HM|]. split; by apply HS.
Qed.

Lemma ReleaseSpan_outcome e st s sp : heap_ok st -> spans st !! s = Some sp -> IsUsed sp = true ->
  exists st', ReleaseSpan e st s = Ret st' /\ released st st' s sp.
Proof.
  intros H Es Hu. pose proof (hi_ok _ _ _ H s sp Es) as Hok. unfold ReleaseSpan, ReleaseSpanLocked.
  rewrite (span_at_some st s sp Es). cbn [mbind res_mbind res_bind]. rewrite (ok_owner sp Hok).
  cbn [Z.ltb Z.compare am_check mbind res_mbind res_bind].
  destruct (Z.ltb_spec MAX_PAGE_NUM (page_num sp)) as [Hbig|Hsmall].
  { eexists. split; [done|]. by apply release_oversized. }
  assert (heap_inv {[s]} {[s]} st) as H1.
  { rewrite <- (union_empty_r_L {[s]}) at 2. eapply heap_add_used; [|done|done]. by eapply heap_weaken, H. }
  destruct (merge_left_spec (merge_fuel st) st s sp) as (st1 & sp1 & -> & HM1 & Hu1 & HL1);
    [unfold merge_fuel; lia|done|done|done|by apply heap_mapped|done|]. cbn [mbind res_mbind res_bind].
  destruct (merge_right_spec (merge_fuel st1) st1 s sp1) as (st2 & sp2 & -> & HM2 & HL2 & HR2);
    [unfold merge_fuel; lia|apply HM1|apply HM1|apply HM1|apply HM1|done|done|]. cbn [mbind res_mbind res_bind].
  rewrite (span_at_some st2 s sp2) by apply HM2. cbn [mbind res_mbind res_bind].
  apply (release_finish e st s sp st2 sp2); [by eapply merging_trans| |done|done].
  destruct (mg_range _ _ _ _ _ HM2) as (a & b & ->). exact Hu1.
Qed.

(** ** The page cache over time *)

Lemma new_shard_bucket i : 0 <= i <= MAX_PAGE_NUM -> bucket new_shard i = [].
Proof.
  intros Hi. unfold bucket, new_shard. cbn [span_lists_]. rewrite lookup_replicate_2; [done|].
  apply le_n_S, Z2Nat.inj_le; lia.
Qed.

Lemma new_shard_ok : heap_ok new_shard.
Proof.
  constructor.
  - intros s sp Hs. simpl in Hs. by rewrite lookup_empty in Hs.
  - intros s t sp tp p Hs. simpl in Hs. by rewrite lookup_empty in Hs.
  - intros p Hp _ t. split; [done|]. intros (tp & Ht & _). simpl in Ht. by rewrite lookup_empty in Ht.
  - reflexivity.
  - intros i s Hi. rewrite new_shard_bucket by done.
    split; [intros Hin; by apply not_elem_of_nil in Hin|]. intros [_ (sp & Hs & _)]. simpl in Hs. by rewrite lookup_empty in Hs.
  - intros i Hi. rewrite new_shard_bucket by done. constructor.
Qed.

(** The calls the allocator makes: an allocation with any answers of an environment
    that keeps the promise of the operating system, or the release of a span that is in
    use. A call that throws [std::bad_alloc] ends the history. *)
Inductive cache_step (st st' : Shard) : Prop :=
| step_alloc e1 e2 es n r : 0 <= n -> os_law e1 st (Z.max n MAX_PAGE_NUM) ->
    AllocSpan (e1 :: e2 :: es) st n = Ret (r, st') -> cache_step st st'
| step_release e s sp : spans st !! s = Some sp -> IsUsed sp = true -> ReleaseSpan e st s = Ret st' -> cache_step st st'.

Definition reachable : Shard -> Prop := rtc cache_step new_shard.

Lemma reachable_ok st : reachable st -> heap_ok st.
Proof.
  intros Hr. assert (forall a b, rtc cache_step a b -> heap_ok a -> heap_ok b) as H; [|by apply (H _ _ Hr), new_shard_ok].
  clear. induction 1 as [|a b c Hs _ IH]; [done|]. intros Ha. apply IH. destruct Hs as [e1 e2 es n r Hn Hlaw E|e s sp Es Hu E].
  - destruct (AllocSpan_outcome e1 e2 es a n Ha Hn Hlaw) as [[E' _]|(r' & b' & E' & Hr)]; rewrite E' in E; [discriminate|]. injection E as <- <-. destruct r' as [s|]; [apply Hr|by destruct Hr].
  - destruct (ReleaseSpan_outcome e a s sp Ha Es Hu) as (b' & E' & Hb). rewrite E' in E. injection E as <-. apply Hb.
Qed.

(** The page heap stays consistent through any sequence of allocations and
    releases: live spans never overlap and lie in the address space, the page map
    names, for every page, exactly the live span that contains it, and the free list
    of each page count holds exactly the unused spans of that size, each once. *)
Theorem page_heap_invariant st : reachable st -> heap_ok st.
Proof. exact (reachable_ok st). Qed.

(** C17: Page allocation is correct on every outcome: on a reachable heap [AllocSpan] ends
    within two passes of its loop and either hands out a span of exactly the requested
    number of pages that no used span overlaps and that was not in use before - leaving
    every other used span as it was - or returns null, which only happens for zero or too
    many pages or when the system or the metadata pool is out of memory, or throws
    [std::bad_alloc], which only happens when the system gave new pages in the first pass
    but no memory for the radix nodes that register them. Splitting a cached span never
    throws. *)
Theorem AllocSpan_correct e1 e2 es st n : reachable st -> 0 <= n -> os_law e1 st (Z.max n MAX_PAGE_NUM) ->
  match AllocSpan (e1 :: e2 :: es) st n with
  | Ret (Some s, st') => heap_ok st' /\ exists sp, spans st' !! s = Some sp /\ page_num sp = n /\ IsUsed sp = true /\
      (forall sp0, spans st !! s = Some sp0 -> IsUsed sp0 = false) /\ same_used (Some s) st st' /\
      (forall t tp p, spans st !! t = Some tp -> IsUsed tp = true -> in_span sp p -> ~ in_span tp p)
  | Ret (None, st') => heap_ok st' /\ same_used None st st' /\ (n = 0 \/ UINT32_MAX < n \/ starved e1 \/ starved e2)
  | Panic msg => msg = no_nodes /\ unmappable e1
  | Fail _ => False
  end.
Proof.
  intros Hr Hn Hlaw. apply reachable_ok in Hr.
  destruct (AllocSpan_outcome e1 e2 es st n Hr Hn Hlaw) as [[-> Hu]|(r & st' & -> & Hg)]; [done|].
  destruct r as [s|]; [|by destruct Hg as (? & ? & ?)]. destruct Hg as [G1 (sp & Es & En & Eu) G3 G4 _].
  split; [done|]. exists sp. split_and!; [done..|]. intros t tp p Ht Hut Hin Hin'.
  assert (t <> s) as Hne by (intros ->; rewrite (G3 tp Ht) in Hut; done).
  apply (G4 t tp) in Ht; [|congruence|done]. apply Hne. by eapply (hi_disj _ _ _ G1).
Qed.

(** C18: Releasing a span is correct, needs no memory and always succeeds: other used
    spans stay as they were; a span of cacheable size becomes part of a free span that
    contains its pages and cannot be merged further with a free neighbour on either
    side within the size limit, so no page is lost; a larger span's pages leave the
    heap. *)
Theorem ReleaseSpan_correct e st s sp : reachable st -> spans st !! s = Some sp -> IsUsed sp = true ->
  exists st', ReleaseSpan e st s = Ret st' /\ released st st' s sp.
Proof. intros Hr. apply ReleaseSpan_outcome. by apply reachable_ok. Qed.

(** ** A concrete run: three pages from a fresh heap, then two more, then the first
    three back *)

Definition good_env : Env := mkEnv (Some 4096000) true true 5.
Definition after_alloc (st : Shard) (n : Z) : Shard :=
  match AllocSpan [good_env; good_env] st n with Ret (_, st') => st' | _ => st end.
Definition heap_three : Shard := after_alloc new_shard 3.

Lemma empty_law n : 0 <= n -> n <= 1000000 -> os_law good_env new_shard n.
Proof.
  intros H0 Hn ptr [= <-]. change (PtrToPageId 4096000) with 1000. change max_page with (2 ^ 36).
  split; [lia|]. split; [lia|]. intros p _ (t & tp & Ht & _). simpl in Ht. by rewrite lookup_empty in Ht.
Qed.

Lemma heap_three_reachable : reachable heap_three.
Proof.
  apply rtc_once. apply (step_alloc new_shard heap_three good_env good_env [] 3 (Some 1%nat)); [lia| |vm_compute; reflexivity].
  apply empty_law; vm_compute; discriminate.
Qed.

Lemma page_heap_invariant_witness : heap_ok heap_three /\ GetSpan (page_map heap_three) 1002 = Some 1%nat.
Proof. split; [apply page_heap_invariant; exact heap_three_reachable|vm_compute; reflexivity]. Defined.

Lemma AllocSpan_correct_witness : exists s st', AllocSpan [good_env; good_env] new_shard 3 = Ret (Some s, st') /\ heap_ok st'.
Proof.
  pose proof (AllocSpan_correct good_env good_env [] new_shard 3 (rtc_refl _ _) ltac:(lia) ltac:(apply empty_law; vm_compute; discriminate)) as H.
  assert (match AllocSpan [good_env; good_env] new_shard 3 with Ret (Some _, _) => true | _ => false end = true) as E by (vm_compute; reflexivity).
  destruct (AllocSpan [good_env; good_env] new_shard 3) as [[[s|] st']|e|w]; [|discriminate E..]. exists s, st'. split; [reflexivity|apply H].
Defined.

(** The exception that [AllocSpan] does not turn into null. *)
Example nodes_refused_throws : AllocSpan [mkEnv (Some 4096000) true false 5; good_env] new_shard 3 = Panic no_nodes.
Proof. vm_compute. reflexivity. Qed.

Lemma ReleaseSpan_correct_witness : exists st' sp, ReleaseSpan good_env heap_three 1 = Ret st' /\ released heap_three st' 1 sp.
Proof.
  destruct (spans heap_three !! 1%nat) as [sp|] eqn:E; [|vm_compute in E; discriminate].
  destruct (ReleaseSpan_correct good_env heap_three 1 sp heap_three_reachable E) as (st' & H1 & H2).
  - vm_compute in E. injection E as <-. reflexivity.
  - exists st', sp. split; [exact H1|exact H2].
Defined.
