(* ===== verification/CentralCache.v ===== *)
(** * CentralCache: objects shared between threads

    [ammalloc/include/ammalloc/central_cache.h] and [ammalloc/src/central_cache.cpp] over
    the page cache of [PageCache] and the spans of [SpanAlloc]. The intrusive chains of
    free objects, whose links live in the objects themselves, are lists of addresses. The
    bitmap at the head of a span is kept beside its metadata. Each call runs to completion
    before the next one: the windows in which a bucket is unlocked are not interleaved.
    What the operating system answers is an interface, [OperatingSystem]. *)
From S2P Require Import Prelude SizeClasses SpanAlloc PageMap PageCache.
Import PageConfig SizeClass.

(** ** The operating system *)

(** Answers to the [k]-th request for pages: one environment for each pass of the
    allocation loop, and whether the pages of the transfer caches can be mapped. They may
    depend on everything and fail at any time, for pages, span metadata and radix nodes
    alike, but never hand out pages in use. *)
Class OperatingSystem := {
  answers : nat -> Shard -> Z -> Env * Env;
  maps_transfer : nat -> bool;
  answers_law k st n : heap_ok st -> os_law (answers k st n).1 st (Z.max n MAX_PAGE_NUM) }.

(** ** State *)

(** A LIFO list of free objects with its quota. [size_], [max_size_] and [overages_] are
    [uint32_t]. *)
(* @src ammalloc/include/ammalloc/central_cache.h:120-139 FreeList (state) *)
Record FreeList := mkFreeList { chain : list Z; fl_size : Z; max_size : Z; overages : Z }.

(* @src ammalloc/include/ammalloc/central_cache.h:32-33 FreeList::FreeList *)
Definition new_free_list : FreeList := mkFreeList [] 0 1 0.

(* @src ammalloc/include/ammalloc/central_cache.h:59-66 FreeList::push *)
Definition fl_push (l : FreeList) (ptr : Z) : FreeList :=
  if ptr =? 0 then l else mkFreeList (ptr :: chain l) (u32 (fl_size l + 1)) (max_size l) (overages l).

(** The chain from [begin] to [end] is given as a list. *)
(* @src ammalloc/include/ammalloc/central_cache.h:73-81 FreeList::push_range *)
Definition fl_push_range (l : FreeList) (ptrs : list Z) (count : Z) : FreeList :=
  match ptrs with
  | [] => l
  | _ => if count =? 0 then l
         else mkFreeList (ptrs ++ chain l) (u32 (fl_size l + count)) (max_size l) (overages l)
  end.

(* @src ammalloc/include/ammalloc/central_cache.h:85-94 FreeList::pop *)
Definition fl_pop (l : FreeList) : option Z * FreeList :=
  match chain l with
  | [] => (None, l)
  | p :: rest => (Some p, mkFreeList rest (u32 (fl_size l - 1)) (max_size l) (overages l))
  end.

(* @src ammalloc/include/ammalloc/central_cache.h:104-106 FreeList::set_max_size *)
Definition set_max_size (l : FreeList) (n : Z) : FreeList := mkFreeList (chain l) (fl_size l) (u32 n) (overages l).
(* @src ammalloc/include/ammalloc/central_cache.h:116-118 FreeList::set_overages *)
Definition set_overages (l : FreeList) (n : Z) : FreeList := mkFreeList (chain l) (fl_size l) (max_size l) (u32 n).

(** [transfer_cache] holds the first [transfer_cache_count] cells. *)
(* @src ammalloc/include/ammalloc/central_cache.h:150-164 CentralCache::Bucket *)
Record Bucket := mkBucket { transfer_cache : list Z; transfer_cache_capacity : Z; span_list : list SpanPtr }.

(** The central cache with the page heap below it; [tick] numbers the requests to the
    operating system. The central cache is a function-local static: before its first use
    it has no buckets. *)
(* @src ammalloc/include/ammalloc/central_cache.h:217-217 CentralCache (state) *)
Record Central := mkCentral { shard : Shard; bitmaps : gmap SpanPtr (list Z); buckets_ : list Bucket; tick : nat }.

Definition with_shard (c : Central) (st : Shard) : Central := mkCentral st (bitmaps c) (buckets_ c) (tick c).
Definition with_buckets (c : Central) (bs : list Bucket) : Central := mkCentral (shard c) (bitmaps c) bs (tick c).
Definition bucket_at (c : Central) (i : Z) : Res Bucket := vec_at (buckets_ c) (Z.to_nat i).
Definition put_bucket (c : Central) (i : Z) (b : Bucket) : Central := with_buckets c (<[Z.to_nat i := b]> (buckets_ c)).
Definition set_transfer (b : Bucket) (l : list Z) : Bucket := mkBucket l (transfer_cache_capacity b) (span_list b).
Definition set_spans (b : Bucket) (l : list SpanPtr) : Bucket := mkBucket (transfer_cache b) (transfer_cache_capacity b) l.

(** Metadata and bitmap of a span. *)
Definition object_span (c : Central) (s : SpanPtr) : Res (Span * list Z) :=
  sp ← span_at (shard c) s;
  match bitmaps c !! s with Some bm => Ret (sp, bm) | None => Panic "no bitmap" end.
Definition put_object_span (c : Central) (s : SpanPtr) (x : Span * list Z) : Central :=
  mkCentral (put_span (shard c) s x.1) (<[s := x.2]> (bitmaps c)) (buckets_ c) (tick c).

(* @src ammalloc/include/ammalloc/central_cache.h:215-215 CentralCache::kCapScale *)
Definition kCapScale : Z := 8.

(** ** Initialization *)

Definition no_transfer : string := "CentralCache failed to allocate memory for TransferCaches!".

(** When the backing pages cannot be mapped the process aborts. *)
(* @src ammalloc/src/central_cache.cpp:230-253 CentralCache::InitTransferCache *)
Definition InitTransferCache (mapped : bool) : Res (list Bucket) :=
  _ ← am_check mapped no_transfer;
  res_mapi (fun _ i =>
    size ← Size i;
    batch_num ← CalculateBatchSize size;
    Ret (mkBucket [] (batch_num * kCapScale) [])) 0 (seqZ 0 kNumSizeClasses).

(** ** Spans of a bucket *)

Section Operations.
Context {OS : OperatingSystem}.

(** Constructed by the first call. *)
(* @src ammalloc/include/ammalloc/central_cache.h:169-172 CentralCache::GetInstance *)
Definition GetInstance (c : Central) : Res Central :=
  match buckets_ c with
  | [] => bs ← InitTransferCache (maps_transfer (tick c)); Ret (mkCentral (shard c) (bitmaps c) bs (S (tick c)))
  | _ => Ret c
  end.

Definition page_alloc (c : Central) (n : Z) : Res (option SpanPtr * Central) :=
  let '(e1, e2) := answers (tick c) (shard c) n in
  '(r, st) ← AllocSpan [e1; e2] (shard c) n;
  Ret (r, mkCentral st (bitmaps c) (buckets_ c) (S (tick c))).

(** The bitmap of a released span is no longer addressed. *)
Definition page_release (c : Central) (s : SpanPtr) : Res Central :=
  st ← ReleaseSpan (answers (tick c) (shard c) 0).1 (shard c) s;
  Ret (mkCentral st (delete s (bitmaps c)) (buckets_ c) (S (tick c))).

(* @src ammalloc/src/central_cache.cpp:255-267 CentralCache::GetOneSpan *)
Definition GetOneSpan (c : Central) (i aligned_size : Z) : Res (option SpanPtr * Central) :=
  page_num ← GetMovePageNum aligned_size;
  '(r, c) ← page_alloc c page_num;
  match r with
  | None => Ret (None, c)
  | Some s =>
      sp ← span_at (shard c) s;
      x ← Init sp aligned_size;
      let c := put_object_span c s x in
      b ← bucket_at c i;
      Ret (Some s, put_bucket c i (set_spans b (s :: span_list b)))
  end.

Definition alloc_object (c : Central) (s : SpanPtr) : Res (option Z * Central) :=
  x ← object_span c s;
  '(r, x') ← AllocObject x;
  Ret (r, put_object_span c s x').

(** The inner loop: up to [n] objects of span [s]; [true] when the span ran out. *)
(* @src ammalloc/src/central_cache.cpp:59-80 CentralCache::FetchRange (inner loop) *)
Fixpoint take_objects (n : nat) (c : Central) (s : SpanPtr) : Res (list Z * bool * Central) :=
  match n with
  | O => Ret ([], false, c)
  | S n' =>
      '(r, c) ← alloc_object c s;
      match r with
      | None => Ret ([], true, c)
      | Some p => '(ps, full, c) ← take_objects n' c s; Ret (p :: ps, full, c)
      end
  end.

(** Unlinking a span that is in no list follows null links. *)
Definition erase_span (b : Bucket) (s : SpanPtr) : Res Bucket :=
  _ ← am_check (bool_decide (s ∈ span_list b)) "null Span";
  Ret (set_spans b (filter (fun t => t <> s) (span_list b))).

Definition needs_span (c : Central) (b : Bucket) : Res bool :=
  match span_list b with
  | [] => Ret true
  | s :: _ => sp ← span_at (shard c) s; Ret (capacity sp <=? use_count sp)
  end.

Definition no_span : string := "unlock of a mutex that is not held".

(** The outer loop: [n] objects are still wanted; each pass takes at least one. When no
    span can be had, [GetOneSpan] has released the mutex and the [lock.unlock()] after the
    loop throws [std::system_error]; its caller is [noexcept], so the process ends. *)
(* @src ammalloc/src/central_cache.cpp:49-83 CentralCache::FetchRange (outer loop) *)
Fixpoint extract (fuel n : nat) (c : Central) (i aligned_size : Z) : Res (list Z * Central) :=
  match fuel with
  | O => Panic "extract: out of fuel"
  | S fuel' =>
      if (n =? 0)%nat then Ret ([], c)
      else
        b ← bucket_at c i;
        dry ← needs_span c b;
        '(got, c) ← (if (dry : bool) then GetOneSpan c i aligned_size else Ret (head (span_list b), c));
        match got with
        | None => Panic no_span
        | Some _ =>
            b ← bucket_at c i;
            match span_list b with
            | [] => Panic "null Span"
            | s :: _ =>
                '(ps, full, c) ← take_objects n c s;
                c ← (if (full : bool) then
                       b ← bucket_at c i;
                       b ← erase_span b s;
                       Ret (put_bucket c i (set_spans b (span_list b ++ [s])))
                     else Ret c);
                '(qs, c) ← extract fuel' (n - length ps) c i aligned_size;
                Ret (ps ++ qs, c)
            end
        end
  end.

(** Filling the transfer cache up to its capacity; what does not fit is left over. *)
(* @src ammalloc/src/central_cache.cpp:86-92 CentralCache::FetchRange (publish) *)
Definition fill_transfer (b : Bucket) (ptrs : list Z) : Bucket * list Z :=
  let room := Z.to_nat (transfer_cache_capacity b - zlen (transfer_cache b)) in
  (set_transfer b (transfer_cache b ++ take room ptrs), drop room ptrs).

(** ** Returning objects *)

(* @src ammalloc/src/central_cache.cpp:140-160 CentralCache::ReleaseListToSpans (one object) *)
Definition release_object (c : Central) (i obj : Z) : Res Central :=
  match GetSpan_ptr (page_map (shard c)) obj with
  | None => Ret c
  | Some s =>
      x ← object_span c s;
      x' ← FreeObject x obj;
      let c := put_object_span c s x' in
      c ← (if use_count x'.1 =? u32 (capacity x'.1 - 1) then
             b ← bucket_at c i;
             b ← erase_span b s;
             Ret (put_bucket c i (set_spans b (s :: span_list b)))
           else Ret c);
      if use_count x'.1 =? 0 then
        b ← bucket_at c i;
        b ← erase_span b s;
        page_release (put_bucket c i b) s
      else Ret c
  end.

(** The chain in portions of [kMaxBatchSize]. *)
(* @src ammalloc/src/central_cache.cpp:119-163 CentralCache::ReleaseListToSpans (loop) *)
Fixpoint release_portions (fuel : nat) (c : Central) (i : Z) (cur : list Z) : Res Central :=
  match cur, fuel with
  | [], _ => Ret c
  | _, O => Panic "release: out of fuel"
  | _, S fuel' =>
      let portion := take (Z.to_nat kMaxBatchSize) cur in
      b ← bucket_at c i;
      let '(b, rest) := fill_transfer b portion in
      c ← res_foldl (fun c obj => release_object c i obj) (put_bucket c i b) rest;
      release_portions fuel' c i (drop (Z.to_nat kMaxBatchSize) cur)
  end.

(* @src ammalloc/src/central_cache.cpp:116-164 CentralCache::ReleaseListToSpans *)
Definition ReleaseListToSpans (c : Central) (start : list Z) (aligned_size : Z) : Res Central :=
  i ← Index aligned_size;
  release_portions (length start) c i start.

(** ** Fetching objects *)

(** The prefetched pointers: into the transfer cache, the excess back to the spans in
    reverse order. *)
(* @src ammalloc/src/central_cache.cpp:85-107 CentralCache::FetchRange (prefetched) *)
Definition publish_prefetched (c : Central) (i aligned_size : Z) (ptrs : list Z) : Res Central :=
  match ptrs with
  | [] => Ret c
  | _ =>
      b ← bucket_at c i;
      let '(b, leftover) := fill_transfer b ptrs in
      let c := put_bucket c i b in
      match leftover with
      | [] => Ret c
      | _ => ReleaseListToSpans c (reverse leftover) aligned_size
      end
  end.

(** The fetched objects as a chain, and the number of them. *)
(* @src ammalloc/src/central_cache.cpp:9-114 CentralCache::FetchRange *)
Definition FetchRange (c : Central) (l : FreeList) (batch_num aligned_size : Z) : Res (Z * FreeList * Central) :=
  _ ← am_check (batch_num <=? kMaxBatchSize) "batch_num <= SizeClass::kMaxBatchSize";
  i ← Index aligned_size;
  b ← bucket_at c i;
  let count := length (transfer_cache b) in
  let grab_count := Nat.min (Z.to_nat batch_num) count in
  let local := reverse (drop (count - grab_count) (transfer_cache b)) in
  let c := put_bucket c i (set_transfer b (take (count - grab_count) (transfer_cache b))) in
  if Z.of_nat grab_count <? batch_num then
    let need := Z.to_nat (batch_num - Z.of_nat grab_count) in
    let total := (need + Z.to_nat batch_num)%nat in
    '(ps, c) ← extract (S total) total c i aligned_size;
    let mine := take need ps in
    c ← publish_prefetched c i aligned_size (drop need ps);
    let fetched := zlen mine + zlen local in
    Ret (fetched, (if 0 <? fetched then fl_push_range l (reverse mine ++ local) fetched else l), c)
  else
    let fetched := zlen local in
    Ret (fetched, (if 0 <? fetched then fl_push_range l local fetched else l), c).

(** ** Teardown *)

(** Objects detached from the transfer cache go back to their bitmaps; the spans of the
    bucket, last one first, back to the page cache. *)
(* @src ammalloc/src/central_cache.cpp:184-191 CentralCache::Reset (bitmaps) *)
Definition restore_object (c : Central) (obj : Z) : Res Central :=
  match GetSpan_ptr (page_map (shard c)) obj with
  | None => Ret c
  | Some s => x ← object_span c s; x' ← FreeObject x obj; Ret (put_object_span c s x')
  end.

(* @src ammalloc/src/central_cache.cpp:168-206 CentralCache::Reset (one bucket) *)
Definition reset_bucket (c : Central) (i : Z) : Res Central :=
  b ← bucket_at c i;
  let objs := reverse (transfer_cache b) in
  let c := put_bucket c i (set_transfer b []) in
  c ← res_foldl restore_object c objs;
  b ← bucket_at c i;
  let spans := reverse (span_list b) in
  res_foldl page_release (put_bucket c i (set_spans b [])) spans.

(** [backed]: bucket zero has its transfer cache, i.e. the mapping exists. *)
(* @src ammalloc/src/central_cache.cpp:166-228 CentralCache::Reset *)
Definition Reset (c : Central) (backed : bool) : Res Central :=
  c ← res_foldl reset_bucket c (seqZ 0 kNumSizeClasses);
  Ret (if backed then with_buckets c ((fun b => mkBucket [] 0 (span_list b)) <$> buckets_ c) else c).
End Operations.

(** ** Lemmas: object fields of a used span *)

(** Same pages, flags and owner. *)
Record same_pages (sp sp' : Span) : Prop := {
  sp_start : start_page_idx sp' = start_page_idx sp; sp_num : page_num sp' = page_num sp;
  sp_flags : flags sp' = flags sp; sp_owner : owner_shard_id sp' = owner_shard_id sp }.

Lemma same_pages_used sp sp' : same_pages sp sp' -> IsUsed sp' = IsUsed sp.
Proof. intros []. unfold IsUsed. congruence. Qed.
Lemma same_pages_in sp sp' p : same_pages sp sp' -> in_span sp' p <-> in_span sp p.
Proof. intros []. unfold in_span. by rewrite sp_start0, sp_num0. Qed.
Lemma same_pages_counters sp u k : same_pages sp (set_counters sp u k).
Proof. done. Qed.
#[export] Hint Resolve same_pages_counters : am.

Lemma spans_put st s sp' t tp : spans (put_span st s sp') !! t = Some tp <->
  (t = s /\ tp = sp') \/ (t <> s /\ spans st !! t = Some tp).
Proof.
  simpl. rewrite lookup_insert_Some. split; [intros [[-> ->]|[? ?]]; auto|].
  intros [[-> ->]|[? ?]]; auto.
Qed.

Lemma put_span_ok st s sp sp' : heap_ok st -> spans st !! s = Some sp -> same_pages sp sp' -> heap_ok (put_span st s sp').
Proof.
  intros H Es Hg. pose proof (same_pages_used _ _ Hg) as Hu.
  assert (forall t tp p, spans (put_span st s sp') !! t = Some tp -> exists tp0,
    spans st !! t = Some tp0 /\ IsUsed tp = IsUsed tp0 /\ page_num tp = page_num tp0 /\ (in_span tp p <-> in_span tp0 p)) as HB.
  { intros t tp p [[-> ->]|[_ Ht]]%spans_put; [exists sp|by exists tp].
    split_and!; [done|done|apply Hg|by apply same_pages_in]. }
  assert (forall t tp0 p, spans st !! t = Some tp0 -> exists tp, spans (put_span st s sp') !! t = Some tp /\
    IsUsed tp = IsUsed tp0 /\ page_num tp = page_num tp0 /\ (in_span tp p <-> in_span tp0 p)) as HF.
  { intros t tp0 p Ht. destruct (decide (t = s)) as [->|Hne].
    - simplify_eq. exists sp'. split; [apply spans_put; auto|]. split_and!; [done|apply Hg|by apply same_pages_in].
    - exists tp0. split; [apply spans_put; auto|done]. }
  constructor; simpl page_map; simpl span_lists_.
  - intros t tp [[-> ->]|[_ Ht]]%spans_put; [|by apply (hi_ok _ _ _ H t)].
    destruct (hi_ok _ _ _ H s sp Es). destruct Hg as [Eg1 Eg2 Eg3 Eg4].
    constructor; rewrite ?Eg1, ?Eg2, ?Eg3, ?Eg4; try done. by rewrite Hu.
  - intros t t' tp tp' p Ht Ht' Hin Hin'. destruct (HB t tp p Ht) as (a & Ha & _ & _ & Ia).
    destruct (HB t' tp' p Ht') as (b & Hb & _ & _ & Ib). by apply (hi_disj _ _ _ H t t' a b p); [| |apply Ia|apply Ib].
  - intros p Hp _ t. rewrite (hi_map _ _ _ H p Hp) by set_solver. split.
    + intros (tp & Ht & Hin). destruct (HF t tp p Ht) as (tp' & Ht' & _ & _ & Iff). exists tp'. split; [done|by apply Iff].
    + intros (tp & Ht & Hin). destruct (HB t tp p Ht) as (tp0 & Ht0 & _ & _ & Iff). exists tp0. split; [done|by apply Iff].
  - apply H.
  - intros i t Hi. change (bucket (put_span st s sp') i) with (bucket st i). rewrite (hi_free _ _ _ H i t Hi).
    apply and_iff_compat_l. split.
    + intros (tp & Ht & ? & ?). destruct (HF t tp 0 Ht) as (tp' & Ht' & ? & ? & _). exists tp'. split; [done|split; congruence].
    + intros (tp & Ht & ? & ?). destruct (HB t tp 0 Ht) as (tp0 & Ht0 & ? & ? & _). exists tp0. split; [done|split; congruence].
  - intros i Hi. by apply (hi_nodup _ _ _ H i).
Qed.

(** ** Lemmas: free spans carry no object size *)

Definition clean (st : Shard) : Prop :=
  forall s sp, spans st !! s = Some sp -> IsUsed sp = false -> aligned_obj_size sp = 0.

(** Every span after an operation is an old one or carries no object size. *)
Definition reset_or_old (st st' : Shard) : Prop :=
  forall t tp, spans st' !! t = Some tp -> aligned_obj_size tp = 0 \/ spans st !! t = Some tp.

Lemma reset_or_old_clean st st' : reset_or_old st st' -> clean st -> clean st'.
Proof. intros H Hc s sp Hs Hu. destruct (H s sp Hs); [done|]. by eapply Hc. Qed.

Lemma publish_spans e st s st' : publish e st s = Ret st' -> spans st' = spans st.
Proof. intros H. unfold publish in H. by res_inv. Qed.

Lemma alloc_pass_clean e st n r : heap_ok st -> clean st -> 0 <= n -> alloc_pass e st n = Ret r ->
  match r with
  | Done None st' => reset_or_old st st'
  | Done (Some s) st' => reset_or_old st st' /\ exists sp, spans st' !! s = Some sp /\ aligned_obj_size sp = 0
  | Again st' => reset_or_old st st'
  end.
Proof.
  intros H Hc Hn HA. unfold alloc_pass in HA. destruct (Z.ltb_spec MAX_PAGE_NUM n) as [|Hle].
  - unfold alloc_oversized in HA. destruct (sys_ptr e) as [ptr|]; [|simplify_eq; intros t tp; auto].
    destruct (new_ok e); [|simplify_eq; intros t tp; auto]. res_inv. apply publish_spans in Hm as E. rewrite !E.
    split; [|eexists; split; [apply lookup_insert_eq|done]].
    intros t tp Ht. rewrite E in Ht. apply spans_put in Ht as [[-> ->]|[_ Ht]]; auto.
  - res_inv. bsplit. destruct (bucket st n) as [|s l] eqn:Eb.
    + destruct (find_larger st (seqZ (n + 1) (MAX_PAGE_NUM - n))) as [[[i big] popped]|] eqn:Ef.
      * apply find_larger_some in Ef as (Hi & l & Ebig & ->). apply elem_of_seqZ in Hi.
        unfold split_span in HA. res_inv. destruct (new_ok e).
        -- res_inv. apply publish_spans in Hm2 as E3. apply publish_spans in Hm3 as E4. rewrite !E4, !E3.
           assert (spans st !! big = Some a) as Hbig by (unfold span_at in Hm; simpl in Hm; destruct (spans st !! big); simplify_eq; done).
           assert (aligned_obj_size a = 0) as Ha.
           { apply (Hc big); [done|]. destruct (hi_free _ _ _ H i big ltac:(lia)) as [Hf _].
             destruct Hf as (_ & sp & Hs & Hu & _); [rewrite Ebig; left|]. congruence. }
           split.
           ++ intros t tp Ht. rewrite E4, E3 in Ht. simpl in Ht. rewrite !lookup_insert_Some in Ht.
              destruct Ht as [[<- <-]|[_ [[<- <-]|[_ Ht]]]]; [left; exact Ha|by left|by right].
           ++ eexists. split; [simpl; rewrite lookup_insert_ne; [apply lookup_insert_eq|]|done].
              intros E. pose proof (fresh_span_none st) as Hfr. rewrite <- E in Hfr. simpl in *. congruence.
        -- simplify_eq. intros t tp; auto.
      * unfold refill in HA. destruct (sys_ptr e) as [ptr|]; [|simplify_eq; intros t tp; auto].
        destruct (new_ok e); [|simplify_eq; intros t tp; auto]. res_inv. apply publish_spans in Hm as E.
        intros t tp Ht. rewrite E in Ht. apply spans_put in Ht as [[-> ->]|[_ Ht]]; auto.
    + res_inv. assert (spans st !! s = Some a) as Hs by (unfold span_at in Hm; destruct (spans st !! s); simplify_eq; done).
      assert (aligned_obj_size a = 0) as Ha.
      { apply (Hc s); [done|]. destruct (hi_free _ _ _ H n s ltac:(lia)) as [Hf _].
        destruct Hf as (_ & sp & Hs' & Hu & _); [rewrite Eb; left|]. congruence. }
      split; [|exists (used_span a); split; [apply lookup_insert_eq|done]].
      intros t tp Ht. apply spans_put in Ht as [[-> ->]|[_ Ht]]; auto.
Qed.

Lemma reset_or_old_trans st st1 st2 : reset_or_old st st1 -> reset_or_old st1 st2 -> reset_or_old st st2.
Proof. intros H1 H2 t tp Ht. destruct (H2 t tp Ht); auto. Qed.

Lemma AllocSpan_clean e1 e2 st n r st' : heap_ok st -> clean st -> 0 <= n ->
  os_law e1 st (Z.max n MAX_PAGE_NUM) -> AllocSpan [e1; e2] st n = Ret (r, st') ->
  reset_or_old st st' /\ forall s, r = Some s -> exists sp, spans st' !! s = Some sp /\ aligned_obj_size sp = 0.
Proof.
  intros H Hc Hn Hl HA. unfold AllocSpan in HA. res_inv. destruct a as [r' st1].
  assert (reset_or_old st st1 /\ forall s, r' = Some s -> exists sp, spans st1 !! s = Some sp /\ aligned_obj_size sp = 0) as [HR HS].
  { unfold AllocSpanLocked in Hm. destruct (Z.eqb_spec n 0), (Z.ltb_spec UINT32_MAX n); cbn [orb] in Hm;
      try (simplify_eq; split; [intros t tp; auto|done]).
    cbn [alloc_loop] in Hm. res_inv. pose proof (alloc_pass_clean _ _ _ _ H Hc Hn Hm0) as HP.
    destruct a as [[s|] st2|st2].
    - simplify_eq. split; [apply HP|]. intros s' [= <-]. apply HP.
    - simplify_eq. done.
    - res_inv. assert (heap_ok st2) as Hok2.
      { destruct (alloc_pass_spec e1 st n H ltac:(lia) (or_intror Hl)) as [(E & _)|[(r0 & st0 & E & _)|(st0 & E & _ & _ & Hok & _)]];
          rewrite Hm0 in E; by simplify_eq. }
      pose proof (alloc_pass_clean _ _ _ _ Hok2 (reset_or_old_clean _ _ HP Hc) Hn Hm1) as HP2.
      destruct a as [[s|] st3|st3]; [..|done]; simplify_eq.
      + split; [by eapply reset_or_old_trans, HP2|]. intros s' [= <-]. apply HP2.
      + split; [by eapply reset_or_old_trans|done]. }
  destruct r' as [s|].
  - res_inv. assert (spans st1 !! s = Some a) as Es by (unfold span_at in Hm0; destruct (spans st1 !! s); simplify_eq; done).
    destruct (HS s eq_refl) as (sp & Es' & Ea). simplify_eq. split.
    + intros t tp [[-> ->]|[_ Ht]]%spans_put; [by left|]. by apply HR.
    + intros s' [= <-]. eexists. split; [apply lookup_insert_eq|done].
  - simplify_eq. done.
Qed.

(** Merging removes neighbours and widens [s]. *)
Definition widened (s : SpanPtr) (st st' : Shard) : Prop :=
  forall t tp, spans st' !! t = Some tp -> t <> s -> spans st !! t = Some tp.

Lemma merge_left_widened fuel : forall st s st', merge_left fuel st s = Ret st' -> widened s st st'.
Proof.
  induction fuel as [|fuel IH]; intros st s st' H; [done|]. cbn [merge_left] in H. res_inv.
  destruct (start_page_idx a =? 0); [simplify_eq; intros t tp; auto|].
  destruct (GetSpan (page_map st) (start_page_idx a - 1)) as [l|]; [|simplify_eq; intros t tp; auto]. res_inv.
  destruct (cannot_merge a a0); [simplify_eq; intros t tp; auto|]. res_inv.
  apply IH in H. intros t tp Ht Hne. apply (H t tp) in Ht; [|done]. simpl in Ht.
  rewrite lookup_delete_Some in Ht. destruct Ht as [_ Ht]. unfold erase_from in Hm1. res_inv. simpl in Ht.
  by rewrite lookup_insert_ne in Ht by done.
Qed.

Lemma merge_right_widened fuel : forall st s st', merge_right fuel st s = Ret st' -> widened s st st'.
Proof.
  induction fuel as [|fuel IH]; intros st s st' H; [done|]. cbn [merge_right] in H. res_inv.
  destruct (GetSpan (page_map st) _) as [l|]; [|simplify_eq; intros t tp; auto]. res_inv.
  destruct (cannot_merge a a0); [simplify_eq; intros t tp; auto|]. res_inv.
  apply IH in H. intros t tp Ht Hne. apply (H t tp) in Ht; [|done]. simpl in Ht.
  rewrite lookup_delete_Some in Ht. destruct Ht as [_ Ht]. unfold erase_from in Hm1. res_inv. simpl in Ht.
  by rewrite lookup_insert_ne in Ht by done.
Qed.

Lemma ReleaseSpan_clean e st s st' : ReleaseSpan e st s = Ret st' -> reset_or_old st st'.
Proof.
  intros H. unfold ReleaseSpan, ReleaseSpanLocked in H. res_inv. destruct (MAX_PAGE_NUM <? page_num a1).
  - res_inv. intros t tp Ht. simpl in Ht. apply lookup_delete_Some in Ht as [_ Ht]. auto.
  - res_inv. apply publish_spans in H. apply merge_left_widened in Hm2. apply merge_right_widened in Hm3.
    intros t tp Ht. rewrite H in Ht. simpl in Ht. rewrite lookup_insert_Some in Ht. destruct Ht as [[<- <-]|[Hne Ht]]; [by left|].
    right. apply Hm2; [|done]. by apply Hm3.
Qed.

(** ** The invariant *)

(** [s] is a span of size class [i], with its metadata and bitmap. *)
Record class_span (c : Central) (i : nat) (s : SpanPtr) (sp : Span) (bm : list Z) : Prop := {
  cs_listed : exists b, buckets_ c !! i = Some b /\ s ∈ span_list b;
  cs_span : spans (shard c) !! s = Some sp;
  cs_bitmap : bitmaps c !! s = Some bm }.

(** [p] is an object of class [i] that its span counts as handed out. *)
Definition handed_out (c : Central) (i : nat) (p : Z) : Prop :=
  exists s sp bm j, class_span c i s sp bm /\ 0 <= j < capacity sp /\ p = object_addr sp j /\ free_bit bm j = false.

(** The spans of the central cache are sound, and every object in [objs] (by class and
    address, each once) is one its span counts as handed out. [big] are used spans that
    hold no objects. *)
Record central_wf (big : gmap SpanPtr Span) (c : Central) (objs : list (nat * Z)) : Prop := {
  co_heap : heap_ok (shard c);
  co_clean : clean (shard c);
  co_len : buckets_ c = [] \/ length (buckets_ c) = Z.to_nat kNumSizeClasses;
  co_span : forall i b s, buckets_ c !! i = Some b -> s ∈ span_list b -> exists sp bm,
    spans (shard c) !! s = Some sp /\ bitmaps c !! s = Some bm /\ IsUsed sp = true /\ span_wf sp bm /\
    aligned_obj_size sp = CalculateSize (Z.of_nat i) /\ 0 < capacity sp;
  co_once : forall i b, buckets_ c !! i = Some b -> NoDup (span_list b);
  co_objs : NoDup objs;
  co_out : forall i p, (i, p) ∈ objs -> handed_out c i p;
  co_big : forall t tp, big !! t = Some tp -> spans (shard c) !! t = Some tp /\ IsUsed tp = true /\ aligned_obj_size tp = 0 }.

#[local] Arguments co_heap {big} _ _ _.
#[local] Arguments co_clean {big} _ _ _.
#[local] Arguments co_len {big} _ _ _.
#[local] Arguments co_span {big} _ _ _.
#[local] Arguments co_once {big} _ _ _.
#[local] Arguments co_objs {big} _ _ _.
#[local] Arguments co_out {big} _ _ _.
#[local] Arguments co_big {big} _ _ _.

(** One set of large spans for all that follows. *)
Section Specs.
Context (big : gmap SpanPtr Span).
#[local] Abbreviation central_ok := (central_wf big).

Lemma class_span_ok c objs i s sp bm : central_ok c objs -> class_span c i s sp bm ->
  IsUsed sp = true /\ span_wf sp bm /\ aligned_obj_size sp = CalculateSize (Z.of_nat i) /\ 0 < capacity sp /\ span_ok sp.
Proof.
  intros H [(b & Hb & Hs) E1 E2]. destruct (co_span _ _ H i b s Hb Hs) as (sp' & bm' & E1' & E2' & ? & ? & ? & ?).
  simplify_eq. split_and!; try done. by apply (hi_ok _ _ _ (co_heap _ _ H) s).
Qed.

Lemma listed_span c objs i b s : central_ok c objs -> buckets_ c !! i = Some b -> s ∈ span_list b ->
  exists sp bm, class_span c i s sp bm.
Proof.
  intros H Hb Hs. destruct (co_span _ _ H i b s Hb Hs) as (sp & bm & E1 & E2 & _). exists sp, bm. split; eauto.
Qed.

(** The page of an object belongs to its span. *)
Lemma object_page sp bm j : span_wf sp bm -> 0 <= j < capacity sp ->
  in_span sp (Z.shiftr (object_addr sp j) SystemConfig.PAGE_SHIFT).
Proof.
  intros HW Hj. pose proof (object_addr_range sp bm j HW Hj) as HR. pose proof (sw_size _ _ HW).
  rewrite Z.shiftr_div_pow2 by (unfold SystemConfig.PAGE_SHIFT; lia).
  change (2 ^ SystemConfig.PAGE_SHIFT) with 4096. unfold SystemConfig.PAGE_SIZE, zlen in HR.
  unfold in_span. split; [apply Z.div_le_lower_bound|apply Z.div_lt_upper_bound]; lia.
Qed.

Lemma same_object c objs i i' s s' sp sp' bm bm' j j' : central_ok c objs ->
  class_span c i s sp bm -> class_span c i' s' sp' bm' -> 0 <= j < capacity sp -> 0 <= j' < capacity sp' ->
  object_addr sp j = object_addr sp' j' -> s = s' /\ j = j'.
Proof.
  intros H Hs Hs' Hj Hj' E. destruct (class_span_ok _ _ _ _ _ _ H Hs) as (_ & HW & _).
  destruct (class_span_ok _ _ _ _ _ _ H Hs') as (_ & HW' & _).
  assert (s = s') as ->.
  { eapply (hi_disj _ _ _ (co_heap _ _ H)); [apply Hs|apply Hs'|by eapply object_page|rewrite E; by eapply object_page]. }
  split; [done|]. pose proof (cs_span _ _ _ _ _ Hs) as E1. pose proof (cs_span _ _ _ _ _ Hs') as E2. simplify_eq.
  unfold object_addr in E. pose proof (sw_size _ _ HW). nia.
Qed.

Lemma same_class c objs i i' s sp sp' bm bm' : central_ok c objs ->
  class_span c i s sp bm -> class_span c i' s sp' bm' -> i = i'.
Proof.
  intros H Hs Hs'. destruct (class_span_ok _ _ _ _ _ _ H Hs) as (_ & _ & E & _).
  destruct (class_span_ok _ _ _ _ _ _ H Hs') as (_ & _ & E' & _).
  pose proof (cs_span _ _ _ _ _ Hs). pose proof (cs_span _ _ _ _ _ Hs'). simplify_eq. rewrite E in E'.
  destruct (Nat.lt_trichotomy i i') as [Hl|[?|Hl]]; [|done|].
  - pose proof (CalculateSize_mono (Z.of_nat i) (Z.of_nat i') ltac:(lia)). lia.
  - pose proof (CalculateSize_mono (Z.of_nat i') (Z.of_nat i) ltac:(lia)). lia.
Qed.

(** A span of some class is not a large one. *)
Lemma class_span_small c objs i s sp bm : central_ok c objs -> class_span c i s sp bm -> big !! s = None.
Proof.
  intros H Hs. destruct (big !! s) as [tp|] eqn:E; [|done]. destruct (co_big _ _ H s tp E) as (Es & _ & E0).
  rewrite (cs_span _ _ _ _ _ Hs) in Es. injection Es as ->. destruct (class_span_ok _ _ _ _ _ _ H Hs) as (_ & HW & _).
  pose proof (sw_size _ _ HW). lia.
Qed.

Lemma big_put c objs i s sp bm x : central_ok c objs -> class_span c i s sp bm -> forall t tp, big !! t = Some tp ->
  spans (shard (put_object_span c s x)) !! t = Some tp /\ IsUsed tp = true /\ aligned_obj_size tp = 0.
Proof.
  intros H Hs t tp Ht. destruct (co_big _ _ H t tp Ht) as (E & R). split; [|done]. apply spans_put. right. split; [|done].
  intros ->. by rewrite (class_span_small _ _ _ _ _ _ H Hs) in Ht.
Qed.

Lemma central_perm c objs objs' : central_ok c objs -> objs ≡ₚ objs' -> central_ok c objs'.
Proof.
  intros [] Hp. constructor; try done; [by rewrite <- Hp|]. intros i p Hin. apply co_out0. by rewrite Hp.
Qed.

Lemma central_sub c objs objs' : central_ok c (objs ++ objs') -> central_ok c objs'.
Proof.
  intros []. constructor; try done; [by apply NoDup_app in co_objs0 as (_ & _ & ?)|].
  intros i p Hin. apply co_out0, elem_of_app. auto.
Qed.

(** ** Lemmas: one span *)

Lemma object_span_run c i s sp bm : class_span c i s sp bm -> object_span c s = Ret (sp, bm).
Proof. intros [_ E1 E2]. unfold object_span, span_at. rewrite E1. cbn [mbind res_mbind res_bind]. by rewrite E2. Qed.

Lemma class_span_put c i s sp bm sp' bm' i' t tp tm : class_span c i s sp bm ->
  class_span (put_object_span c s (sp', bm')) i' t tp tm <->
  (exists b, buckets_ c !! i' = Some b /\ t ∈ span_list b) /\
  ((t = s /\ tp = sp' /\ tm = bm') \/ (t <> s /\ class_span c i' t tp tm)).
Proof.
  intros Hs. split.
  - intros [Hl E1 E2]. split; [done|]. apply spans_put in E1. simpl in E2. rewrite lookup_insert_Some in E2.
    destruct E1 as [[-> ->]|[Hne E1]], E2 as [[? <-]|[? E2]]; try done; [by left|right]. split; [done|]. by split.
  - intros [Hl [(-> & -> & ->)|[Hne [_ E1 E2]]]]; split; try done; simpl; rewrite ?lookup_insert_eq, ?lookup_insert_ne by done; done.
Qed.

(** Replacing the counters and the bitmap of a span. *)
Lemma put_object_ok c objs objs' i s sp bm u k bm' : central_ok c objs -> class_span c i s sp bm ->
  span_wf (set_counters sp u k) bm' -> NoDup objs' ->
  (forall i' p, (i', p) ∈ objs' -> (i', p) ∈ objs \/ exists j, i' = i /\ 0 <= j < capacity sp /\ p = object_addr sp j) ->
  (forall j, 0 <= j < capacity sp -> (i, object_addr sp j) ∈ objs' -> free_bit bm' j = false) ->
  central_ok (put_object_span c s (set_counters sp u k, bm')) objs'.
Proof.
  intros H Hs HW Hnd Hobj Hbit. destruct (class_span_ok _ _ _ _ _ _ H Hs) as (Hu & _ & Hsz & Hcap & _).
  constructor; cbn [put_object_span shard bitmaps buckets_].
  - eapply put_span_ok; [apply H|apply Hs|done].
  - intros t tp [[-> ->]|[_ Ht]]%spans_put Hut; [|by apply (co_clean _ _ H t)].
    change (IsUsed (set_counters sp u k, bm').1) with (IsUsed sp) in Hut. congruence.
  - apply H.
  - intros i' b t Hb Ht. destruct (decide (t = s)) as [->|Hne].
    + destruct (listed_span _ _ _ _ _ H Hb Ht) as (tp & tm & Ht'). pose proof (same_class _ _ _ _ _ _ _ _ _ H Hs Ht') as <-.
      exists (set_counters sp u k), bm'. cbn [fst snd]. split; [by apply spans_put; left|].
      split; [apply lookup_insert_eq|]. by split_and!.
    + destruct (co_span _ _ H i' b t Hb Ht) as (tp & tm & E1 & E2 & R). exists tp, tm.
      split; [apply spans_put; auto|]. split; [by rewrite lookup_insert_ne by done|done].
  - apply H.
  - done.
  - intros i' p Hin. destruct (Hobj i' p Hin) as [Ho|(j & -> & Hj & ->)].
    + destruct (co_out _ _ H i' p Ho) as (t & tp & tm & j & Ht & Hj & -> & Hf). destruct (decide (t = s)) as [->|Hne].
      * pose proof (same_class _ _ _ _ _ _ _ _ _ H Hs Ht) as <-.
        pose proof (cs_span _ _ _ _ _ Hs). pose proof (cs_span _ _ _ _ _ Ht). simplify_eq.
        exists s, (set_counters sp u k), bm', j. split; [|split; [exact Hj|split; [done|by apply Hbit]]].
        apply (class_span_put c i s sp bm); [done|]. split; [apply Hs|]. by left.
      * exists t, tp, tm, j. split; [|done]. apply (class_span_put c i s sp bm); [done|]. split; [apply Ht|]. by right.
    + exists s, (set_counters sp u k), bm', j. split; [|split; [exact Hj|split; [done|by apply Hbit]]].
      apply (class_span_put c i s sp bm); [done|]. split; [apply Hs|]. by left.
  - by eapply big_put.
Qed.

Lemma put_object_same c i s sp bm : class_span c i s sp bm -> put_object_span c s (sp, bm) = c.
Proof.
  intros [_ E1 E2]. unfold put_object_span. cbn [fst snd]. rewrite put_same, insert_id by done. by destruct c.
Qed.

(** Everything but the span store and the bitmaps. *)
Definition same_lists (c c' : Central) : Prop := buckets_ c' = buckets_ c.

(** An object of a span that is not full, or nothing. *)
Lemma alloc_object_spec c objs i s sp bm : central_ok c objs -> class_span c i s sp bm ->
  (capacity sp = use_count sp /\ alloc_object c s = Ret (None, c)) \/
  exists p c', alloc_object c s = Ret (Some p, c') /\ central_ok c' ((i, p) :: objs) /\ same_lists c c' /\ tick c' = tick c.
Proof.
  intros H Hs. destruct (class_span_ok _ _ _ _ _ _ H Hs) as (_ & HW & _). unfold alloc_object.
  rewrite (object_span_run _ _ _ _ _ Hs). cbn [mbind res_mbind res_bind].
  destruct (AllocObject_spec sp bm HW) as [[E ->]|(j & sp' & bm' & -> & Ha & Esp)]; cbn [mbind res_mbind res_bind].
  - left. split; [done|]. by rewrite (put_object_same _ _ _ _ _ Hs).
  - right. eexists _, _. split; [done|]. split; [|by split]. destruct Ha as [Hj Hf _ Hbits _ HW']. rewrite Esp in HW' |- *.
    assert (forall j', 0 <= j' < capacity sp -> (i, object_addr sp j') ∈ objs -> free_bit bm j' = false) as Hout.
    { intros j' Hj' Hin. destruct (co_out _ _ H _ _ Hin) as (t & tp & tm & k & Ht & Hk & E & Hfk).
      destruct (same_object _ _ _ _ _ _ _ _ _ _ _ _ H Hs Ht Hj' Hk E) as [<- <-].
      pose proof (cs_bitmap _ _ _ _ _ Hs). pose proof (cs_bitmap _ _ _ _ _ Ht). by simplify_eq. }
    eapply (put_object_ok c objs); [done|done|done| | |].
    + constructor; [|apply H]. intros Hin. rewrite (Hout j Hj Hin) in Hf. done.
    + intros i' p [[= -> ->]|Hin]%elem_of_cons; [right; by exists j|by left].
    + intros k Hk Hin. rewrite Hbits by lia. destruct (Z.eqb_spec k j) as [->|Hne]; [apply andb_false_r|].
      apply elem_of_cons in Hin as [[= E]|Hin]; [|by rewrite Hout].
      unfold object_addr in E. pose proof (sw_size _ _ HW). nia.
Qed.

(** The span of a handed-out object, found through the page map. *)
Lemma span_of_object c objs i p : central_ok c objs -> handed_out c i p -> exists s sp bm j,
  class_span c i s sp bm /\ 0 <= j < capacity sp /\ p = object_addr sp j /\ free_bit bm j = false /\
  GetSpan_ptr (page_map (shard c)) p = Some s.
Proof.
  intros H (s & sp & bm & j & Hs & Hj & -> & Hf). exists s, sp, bm, j. split_and!; try done; try lia.
  destruct (class_span_ok _ _ _ _ _ _ H Hs) as (_ & HW & _ & _ & Hok). pose proof (object_page sp bm j HW Hj) as Hp.
  unfold GetSpan_ptr. apply (hi_map _ _ _ (co_heap _ _ H)); [|set_solver|].
  - unfold in_span in Hp. destruct Hok. lia.
  - exists sp. split; [apply Hs|done].
Qed.

(** Returning a handed-out object to its bitmap. *)
Lemma free_object_spec c objs i s sp bm j : central_ok c ((i, object_addr sp j) :: objs) -> class_span c i s sp bm ->
  0 <= j < capacity sp -> free_bit bm j = false -> exists sp' bm',
  FreeObject (sp, bm) (object_addr sp j) = Ret (sp', bm') /\
  central_ok (put_object_span c s (sp', bm')) objs /\ class_span (put_object_span c s (sp', bm')) i s sp' bm' /\
  sp' = set_counters sp (use_count sp') (scan_cursor sp') /\ span_wf sp' bm' /\ use_count sp' = use_count sp - 1.
Proof.
  intros H Hs Hj Hf. destruct (class_span_ok _ _ _ _ _ _ H Hs) as (_ & HW & _).
  destruct (object_word sp bm j HW Hj) as (v & Hv & Hat & _ & Hfv).
  rewrite (FreeObject_run sp bm j v HW Hj Hat), <- Hfv, Hf. destruct (freed_wf sp bm j v HW Hj Hv Hf) as [Hu HW'].
  pose proof (freed_bits sp bm j v HW Hj Hv) as Hbits.
  exists (freed sp bm j v).1, (freed sp bm j v).2. split; [done|]. cbn [freed fst snd] in *.
  pose proof (co_objs _ _ H) as [Hni Hnd]%NoDup_cons. split; [|split; [|done]].
  - eapply (put_object_ok c _); [apply H|done|done|done| |].
    + intros i' p Hin. left. by right.
    + intros k Hk Hin. rewrite Hbits by lia. assert (k <> j) as Hne by (intros ->; done).
      rewrite (proj2 (Z.eqb_neq k j)), orb_false_r by done.
      destruct (co_out _ _ H i (object_addr sp k)) as (t & tp & tm & l & Ht & Hl & E & Hfl); [by right|].
      destruct (same_object _ _ _ _ _ _ _ _ _ _ _ _ H Hs Ht Hk Hl E) as [<- <-].
      pose proof (cs_bitmap _ _ _ _ _ Hs). pose proof (cs_bitmap _ _ _ _ _ Ht). by simplify_eq.
  - apply (class_span_put c i s sp bm); [done|]. split; [apply Hs|]. by left.
Qed.

(** ** Lemmas: buckets *)

Lemma bucket_at_run c i b : buckets_ c !! i = Some b -> bucket_at c (Z.of_nat i) = Ret b.
Proof. intros H. unfold bucket_at. rewrite Nat2Z.id. by apply vec_at_ret. Qed.

Lemma buckets_put c i b i' b' : buckets_ (put_bucket c (Z.of_nat i) b) !! i' = Some b' <->
  (i' = i /\ b' = b /\ (i < length (buckets_ c))%nat) \/ (i' <> i /\ buckets_ c !! i' = Some b').
Proof.
  simpl. rewrite Nat2Z.id, list_lookup_insert_Some. split.
  - intros [(-> & -> & ?)|[? ?]]; auto.
  - intros [(-> & -> & ?)|[? ?]]; auto.
Qed.

Lemma put_bucket_same c i b : buckets_ c !! i = Some b -> put_bucket c (Z.of_nat i) b = c.
Proof. intros H. unfold put_bucket, with_buckets. rewrite Nat2Z.id, list_insert_id by done. by destruct c. Qed.

Lemma put_bucket_len (l : list Bucket) i b n : l = [] \/ length l = n -> <[i := b]> l = [] \/ length (<[i := b]> l) = n.
Proof. intros [-> |Hl]; [by left|]. right. by rewrite length_insert. Qed.

(** Lists of spans may be reordered, transfer caches changed. *)
Lemma reorder_ok c objs i b l tc : central_ok c objs -> buckets_ c !! i = Some b -> l ≡ₚ span_list b ->
  central_ok (put_bucket c (Z.of_nat i) (mkBucket tc (transfer_cache_capacity b) l)) objs.
Proof.
  intros H Hb Hl.
  assert (forall i' b', buckets_ (put_bucket c (Z.of_nat i) (mkBucket tc (transfer_cache_capacity b) l)) !! i' = Some b' ->
    exists b0, buckets_ c !! i' = Some b0 /\ span_list b' ≡ₚ span_list b0) as HB.
  { intros i' b' [(-> & -> & _)|[_ Hb']]%buckets_put; [by exists b|by exists b']. }
  assert (forall i' s sp bm, class_span c i' s sp bm ->
    class_span (put_bucket c (Z.of_nat i) (mkBucket tc (transfer_cache_capacity b) l)) i' s sp bm) as HC.
  { intros i' s sp bm [(b0 & Hb0 & Hs) E1 E2]. split; [|done..]. destruct (decide (i' = i)) as [->|Hne].
    - simplify_eq. eexists. split; [apply buckets_put; left; split_and!; [done..|by eapply lookup_lt_Some]|].
      simpl. by rewrite Hl.
    - exists b0. split; [apply buckets_put; auto|done]. }
  constructor; cbn [put_bucket with_buckets shard bitmaps]; try apply H.
  - by apply put_bucket_len, H.
  - intros i' b' s Hb' Hs. destruct (HB i' b' Hb') as (b0 & Hb0 & Hp). apply (co_span _ _ H i' b0 s Hb0). by rewrite <- Hp.
  - intros i' b' Hb'. destruct (HB i' b' Hb') as (b0 & Hb0 & Hp). rewrite Hp. by apply (co_once _ _ H i').
  - intros i' p Hin. destruct (co_out _ _ H i' p Hin) as (s & sp & bm & j & Hs & R). exists s, sp, bm, j. split; [by apply HC|done].
Qed.

Lemma erase_span_run b s : s ∈ span_list b -> erase_span b s = Ret (set_spans b (filter (fun t => t <> s) (span_list b))).
Proof. intros Hs. unfold erase_span. by rewrite bool_decide_eq_true_2. Qed.

Lemma filter_perm (l : list SpanPtr) s : NoDup l -> s ∈ l -> s :: filter (fun t => t <> s) l ≡ₚ l.
Proof.
  intros Hnd Hs. apply NoDup_Permutation; [constructor; [|by apply NoDup_filter]|done|].
  - rewrite list_elem_of_filter. tauto.
  - intros t. rewrite elem_of_cons, list_elem_of_filter. destruct (decide (t = s)) as [->|]; [tauto|].
    split; [intros [?|[? ?]]; [done|done]|auto].
Qed.

(** The contents of the transfer caches. *)
Definition transfers (c : Central) : list (list Z) := transfer_cache <$> buckets_ c.

Lemma transfers_put c i b l : buckets_ c !! i = Some b -> transfers (put_bucket c (Z.of_nat i) (set_spans b l)) = transfers c.
Proof.
  intros Hb. unfold transfers. simpl. rewrite Nat2Z.id, list_fmap_insert. apply list_insert_id.
  by rewrite list_lookup_fmap, Hb.
Qed.

Lemma transfers_set c i b l : transfers (put_bucket c (Z.of_nat i) (set_transfer b l)) = <[i := l]> (transfers c).
Proof. unfold transfers. simpl. by rewrite Nat2Z.id, list_fmap_insert. Qed.

Context {OS : OperatingSystem}.

(** The system refuses memory for the next request, one for [n] pages. *)
Definition refused (c : Central) (n : Z) : Prop :=
  starved (answers (tick c) (shard c) n).1 \/ starved (answers (tick c) (shard c) n).2.

(** New pages could be had for it, but not the radix nodes to register them. *)
Definition unregistered (c : Central) (n : Z) : Prop := unmappable (answers (tick c) (shard c) n).1.

Lemma page_alloc_spec c objs n : central_ok c objs -> 0 <= n ->
  (page_alloc c n = Panic no_nodes /\ unregistered c n) \/ exists r c', page_alloc c n = Ret (r, c') /\
  tick c' = S (tick c) /\ buckets_ c' = buckets_ c /\ bitmaps c' = bitmaps c /\ heap_ok (shard c') /\ reset_or_old (shard c) (shard c') /\
  match r with
  | Some s => granted (shard c) (shard c') s n /\ exists sp, spans (shard c') !! s = Some sp /\ aligned_obj_size sp = 0
  | None => same_used None (shard c) (shard c') /\ (n = 0 \/ UINT32_MAX < n \/ refused c n)
  end.
Proof.
  intros H Hn. unfold page_alloc. pose proof (answers_law (tick c) (shard c) n (co_heap _ _ H)) as Hlaw.
  destruct (answers (tick c) (shard c) n) as [e1 e2] eqn:Ea. cbn [fst snd] in *.
  destruct (AllocSpan_outcome e1 e2 [] (shard c) n (co_heap _ _ H) Hn Hlaw) as [[E Hu]|(r & st & E & Hr)].
  { left. rewrite E. split; [done|]. unfold unregistered. by rewrite Ea. }
  right. destruct (AllocSpan_clean _ _ _ _ _ _ (co_heap _ _ H) (co_clean _ _ H) Hn Hlaw E) as [HR HS].
  rewrite E. cbn [mbind res_mbind res_bind]. eexists _, _. split; [done|]. cbn [buckets_ bitmaps shard tick].
  split; [done|]. split; [done|]. split; [done|]. destruct r as [s|].
  - split; [apply Hr|]. split; [done|]. split; [done|]. by apply HS.
  - destruct Hr as (Hok & Hsame & Hwhy). split; [done|]. split; [done|]. split; [done|].
    destruct Hwhy as [?|[?|Hst]]; [auto..|]. right. right. unfold refused. by rewrite Ea.
Qed.

(** The central cache is unaffected by other spans coming and going. *)
Lemma central_frame c c' objs : central_ok c objs -> buckets_ c' = buckets_ c ->
  heap_ok (shard c') -> clean (shard c') ->
  (forall i s sp bm, class_span c i s sp bm -> spans (shard c') !! s = Some sp /\ bitmaps c' !! s = Some bm) ->
  forall big', (forall t tp, big' !! t = Some tp -> spans (shard c') !! t = Some tp /\ IsUsed tp = true /\ aligned_obj_size tp = 0) ->
  central_wf big' c' objs.
Proof.
  intros H Hb Hh Hc HC big' HG. assert (forall i s sp bm, class_span c i s sp bm -> class_span c' i s sp bm) as HC'.
  { intros i s sp bm Hs. destruct (HC _ _ _ _ Hs). split; [|done..]. rewrite Hb. apply Hs. }
  constructor; rewrite ?Hb; try done; try apply H.
  - intros i b s Hi Hs. destruct (listed_span _ _ _ _ _ H Hi Hs) as (sp & bm & Hs').
    destruct (class_span_ok _ _ _ _ _ _ H Hs') as (? & ? & ? & ? & _). destruct (HC _ _ _ _ Hs'). by exists sp, bm.
  - intros i p Hin. destruct (co_out _ _ H i p Hin) as (s & sp & bm & j & Hs & R). exists s, sp, bm, j. split; [by apply HC'|done].
Qed.

(** No bit of an empty span is handed out. *)
Lemma empty_span_free sp bm j : span_wf sp bm -> use_count sp = 0 -> 0 <= j < capacity sp -> free_bit bm j = true.
Proof.
  intros HW Hu Hj. pose proof (sw_count _ _ HW) as Hc. rewrite Hu in Hc.
  destruct (free_bit bm j) eqn:E; [done|]. exfalso.
  assert (zlen (free_list (capacity sp) bm) < capacity sp); [|lia].
  unfold zlen, free_list. rewrite <- (Z2Nat.id (capacity sp)) at 2 by lia. rewrite <- (length_seqZ 0 (capacity sp)). apply inj_lt.
  assert (j ∈ seqZ 0 (capacity sp)) as Hin by (apply elem_of_seqZ; lia).
  clear -E Hin. induction (seqZ 0 (capacity sp)) as [|x l IH]; [by apply not_elem_of_nil in Hin|].
  pose proof (length_filter (fun j => free_bit bm j = true) l) as Hle. rewrite filter_cons.
  apply elem_of_cons in Hin as [->|Hin].
  - rewrite decide_False by congruence. simpl. lia.
  - specialize (IH Hin). case_decide; simpl; lia.
Qed.

(** Giving an empty span back to the page cache. *)
Lemma drop_span_spec c objs i b s sp bm : central_ok c objs -> buckets_ c !! i = Some b -> class_span c i s sp bm ->
  use_count sp = 0 -> exists c',
  page_release (put_bucket c (Z.of_nat i) (set_spans b (filter (fun t => t <> s) (span_list b)))) s = Ret c' /\
  central_ok c' objs /\ transfers c' = transfers c.
Proof.
  intros H Hb Hs Hu. destruct (class_span_ok _ _ _ _ _ _ H Hs) as (Hused & HW & Hsz & _).
  unfold page_release. simpl shard. simpl tick.
  destruct (ReleaseSpan_outcome (answers (tick c) (shard c) 0).1 (shard c) s sp (co_heap _ _ H) (cs_span _ _ _ _ _ Hs) Hused)
    as (st & E & HR). rewrite E. cbn [mbind res_mbind res_bind]. eexists. split; [done|]. split; [|by apply transfers_put].
  assert (forall i' t tp tm, class_span c i' t tp tm -> t <> s ->
    spans st !! t = Some tp /\ delete s (bitmaps c) !! t = Some tm) as HC.
  { intros i' t tp tm Ht Hne. destruct (class_span_ok _ _ _ _ _ _ H Ht) as (Hut & _).
    split; [apply (rl_used _ _ _ _ HR t tp); [congruence|done|apply Ht]|]. rewrite lookup_delete_ne by done. apply Ht. }
  assert (forall i' b', buckets_ (put_bucket c (Z.of_nat i) (set_spans b (filter (fun t => t <> s) (span_list b)))) !! i' = Some b' ->
    exists b0, buckets_ c !! i' = Some b0 /\ forall t, t ∈ span_list b' -> t ∈ span_list b0 /\ t <> s) as HB.
  { intros i' b' [(-> & -> & _)|[Hne Hb']]%buckets_put.
    - exists b. split; [done|]. intros t. simpl. rewrite list_elem_of_filter. tauto.
    - exists b'. split; [done|]. intros t Ht. split; [done|]. intros ->.
      destruct (listed_span _ _ _ _ _ H Hb' Ht) as (? & ? & Hs'). apply Hne. symmetry. by eapply same_class. }
  constructor; cbn [shard bitmaps buckets_].
  - apply HR.
  - eapply reset_or_old_clean, H. by eapply ReleaseSpan_clean.
  - by apply put_bucket_len, H.
  - intros i' b' t Hb' Ht. destruct (HB i' b' Hb') as (b0 & Hb0 & Hsub). destruct (Hsub t Ht) as [Ht0 Hne].
    destruct (listed_span _ _ _ _ _ H Hb0 Ht0) as (tp & tm & Ht'). destruct (HC _ _ _ _ Ht' Hne).
    destruct (class_span_ok _ _ _ _ _ _ H Ht') as (? & ? & ? & ? & _). by exists tp, tm.
  - intros i' b' Hb'. apply buckets_put in Hb' as [(-> & -> & _)|[_ Hb']]; [|by apply (co_once _ _ H i')].
    simpl. apply NoDup_filter. by apply (co_once _ _ H i).
  - apply H.
  - intros i' p Hin. destruct (co_out _ _ H i' p Hin) as (t & tp & tm & j & Ht & Hj & -> & Hf).
    assert (t <> s) as Hne.
    { intros ->. pose proof (cs_span _ _ _ _ _ Hs). pose proof (cs_span _ _ _ _ _ Ht).
      pose proof (cs_bitmap _ _ _ _ _ Hs). pose proof (cs_bitmap _ _ _ _ _ Ht). simplify_eq.
      by rewrite (empty_span_free sp bm j HW Hu Hj) in Hf. }
    destruct (HC _ _ _ _ Ht Hne) as [E1 E2]. exists t, tp, tm, j. split; [|done]. split; [|done|done].
    destruct (cs_listed _ _ _ _ _ Ht) as (b0 & Hb0 & Ht0). destruct (decide (i' = i)) as [->|Hi].
    + eexists. split; [apply buckets_put; left; split_and!; [done..|by eapply lookup_lt_Some]|]. simplify_eq. simpl.
      by apply list_elem_of_filter.
    + exists b0. split; [apply buckets_put; auto|done].
  - intros t tp Ht. destruct (co_big _ _ H t tp Ht) as (E0 & Hut & Hz). split; [|done].
    apply (rl_used _ _ _ _ HR t tp); [|done|done]. intros [= ->]. by rewrite (class_span_small _ _ _ _ _ _ H Hs) in Ht.
Qed.

(** Moving a span of the bucket to another place of its list. *)
Lemma move_span_spec c objs i b s sp bm l : central_ok c objs -> buckets_ c !! i = Some b -> class_span c i s sp bm ->
  l ≡ₚ span_list b -> let c' := put_bucket c (Z.of_nat i) (set_spans b l) in
  central_ok c' objs /\ transfers c' = transfers c /\ buckets_ c' !! i = Some (set_spans b l) /\ class_span c' i s sp bm.
Proof.
  intros H Hb Hs Hl c'. assert (buckets_ c' !! i = Some (set_spans b l)) as Hb'.
  { apply buckets_put. left. split_and!; [done..|by eapply lookup_lt_Some]. }
  split; [by apply reorder_ok|]. split; [by apply transfers_put|]. split; [done|].
  split; [|apply Hs..]. eexists. split; [done|]. simpl. rewrite Hl. destruct (cs_listed _ _ _ _ _ Hs) as (? & ? & ?). by simplify_eq.
Qed.

Lemma release_object_spec c objs i p : central_ok c ((i, p) :: objs) ->
  exists c', release_object c (Z.of_nat i) p = Ret c' /\ central_ok c' objs /\ transfers c' = transfers c.
Proof.
  intros H. destruct (span_of_object _ _ i p H) as (s & sp & bm & j & Hs & Hj & -> & Hf & Eg); [apply H; by left|].
  unfold release_object. rewrite Eg, (object_span_run _ _ _ _ _ Hs). cbn [mbind res_mbind res_bind].
  destruct (free_object_spec _ _ _ _ _ _ _ H Hs Hj Hf) as (sp' & bm' & -> & H1 & Hs1 & _ & HW' & _).
  cbn [mbind res_mbind res_bind fst snd]. set (c1 := put_object_span c s (sp', bm')) in *.
  destruct (cs_listed _ _ _ _ _ Hs1) as (b & Hb & Hin).
  pose proof (co_once _ _ H1 i b Hb) as Hnd. rewrite (bucket_at_run c1 i b Hb).
  assert (exists c2 b2, (if use_count sp' =? u32 (capacity sp' - 1) then
      b ← Ret b; b ← erase_span b s; Ret (put_bucket c1 (Z.of_nat i) (set_spans b (s :: span_list b))) else Ret c1) = Ret c2 /\
    central_ok c2 objs /\ transfers c2 = transfers c /\ buckets_ c2 !! i = Some b2 /\ class_span c2 i s sp' bm')
    as (c2 & b2 & -> & H2 & Et & Hb2 & Hs2).
  { destruct (_ =? _); [|by exists c1, b]. cbn [mbind res_mbind res_bind]. rewrite erase_span_run by done.
    cbn [mbind res_mbind res_bind]. eexists _, _. split; [done|].
    destruct (move_span_spec c1 objs i b s sp' bm' (s :: filter (fun t => t <> s) (span_list b)) H1 Hb Hs1) as (? & ? & ? & ?);
      [by apply filter_perm|]. done. }
  cbn [mbind res_mbind res_bind]. destruct (Z.eqb_spec (use_count sp') 0) as [Hu|]; [|by exists c2].
  rewrite (bucket_at_run c2 i b2 Hb2). cbn [mbind res_mbind res_bind]. rewrite erase_span_run.
  - cbn [mbind res_mbind res_bind]. destruct (drop_span_spec c2 objs i b2 s sp' bm' H2 Hb2 Hs2 Hu) as (c' & E & H3 & E3).
    exists c'. split; [done|]. split; [done|]. congruence.
  - destruct (cs_listed _ _ _ _ _ Hs2) as (? & ? & ?). by simplify_eq.
Qed.

Lemma release_objects_spec ps : forall c objs i, central_ok c ((pair i <$> ps) ++ objs) ->
  exists c', res_foldl (fun c obj => release_object c (Z.of_nat i) obj) c ps = Ret c' /\ central_ok c' objs /\ transfers c' = transfers c.
Proof.
  induction ps as [|p ps IH]; intros c objs i H; [by exists c|]. cbn [res_foldl]. cbn in H.
  destruct (release_object_spec _ _ _ _ H) as (c1 & -> & H1 & E1). cbn [mbind res_mbind res_bind].
  destruct (IH _ _ _ H1) as (c' & -> & H' & E'). exists c'. split; [done|]. split; [done|congruence].
Qed.

(** ** Lemmas: objects in the transfer caches *)

Definition cached_in (ts : list (list Z)) : list (nat * Z) := concat (imap (fun i l => pair i <$> l) ts).

Lemma concat_imap_insert {A B} (f : nat -> A -> list B) l : forall g i x y, (forall j, g j = f (i + j)%nat) ->
  forall k, l !! k = Some x -> exists rest,
  concat (imap g l) ≡ₚ g k x ++ rest /\ concat (imap g (<[k := y]> l)) ≡ₚ g k y ++ rest.
Proof.
  induction l as [|a l IH]; intros g i x y Hg k Hk; [done|]. destruct k as [|k].
  - injection Hk as <-. exists (concat (imap (g ∘ S) l)). done.
  - simpl in Hk. destruct (IH (g ∘ S) (S i) x y) with k as (rest & E1 & E2); [|done|].
    { intros j. simpl. rewrite Hg. f_equal. lia. }
    exists (g 0%nat a ++ rest). rewrite !imap_cons. simpl. rewrite E1, E2. simpl. split; apply Permutation_app_swap_app.
Qed.

Lemma cached_insert ts i l l' : ts !! i = Some l -> exists rest,
  cached_in ts ≡ₚ (pair i <$> l) ++ rest /\ cached_in (<[i := l']> ts) ≡ₚ (pair i <$> l') ++ rest.
Proof. intros H. by apply (concat_imap_insert (fun i l => pair i <$> l) ts (fun i l => pair i <$> l) 0). Qed.

(** [out] are the objects outside the central cache. *)
Definition central_inv (c : Central) (out : list (nat * Z)) : Prop := central_ok c (cached_in (transfers c) ++ out).

Lemma central_inv_perm c out out' : central_inv c out -> out ≡ₚ out' -> central_inv c out'.
Proof. intros H Hp. eapply central_perm; [done|]. by rewrite Hp. Qed.

(** Changing a transfer cache and the objects outside, nothing lost. *)
Lemma move_transfer_spec c i b l xs ys out : central_ok c (cached_in (transfers c) ++ (pair i <$> xs) ++ out) ->
  buckets_ c !! i = Some b -> transfer_cache b ++ xs ≡ₚ l ++ ys ->
  central_ok (put_bucket c (Z.of_nat i) (set_transfer b l))
    (cached_in (transfers (put_bucket c (Z.of_nat i) (set_transfer b l))) ++ (pair i <$> ys) ++ out) /\
  buckets_ (put_bucket c (Z.of_nat i) (set_transfer b l)) !! i = Some (set_transfer b l).
Proof.
  intros H Hb Hp. split; [|apply buckets_put; left; split_and!; [done..|by eapply lookup_lt_Some]].
  rewrite transfers_set. destruct (cached_insert (transfers c) i (transfer_cache b) l) as (rest & E1 & E2).
  { unfold transfers. by rewrite list_lookup_fmap, Hb. }
  eapply central_perm; [by apply (reorder_ok c _ i b (span_list b) l)|]. rewrite E1, E2.
  transitivity ((pair i <$> (transfer_cache b ++ xs)) ++ rest ++ out).
  { rewrite fmap_app, <- !app_assoc. apply Permutation_app_head. by rewrite Permutation_app_swap_app. }
  rewrite Hp, fmap_app, <- !app_assoc. apply Permutation_app_head. by rewrite Permutation_app_swap_app.
Qed.

Lemma fill_transfer_perm b ptrs : let '(b', rest) := fill_transfer b ptrs in
  b' = set_transfer b (transfer_cache b') /\ transfer_cache b ++ ptrs ≡ₚ transfer_cache b' ++ rest.
Proof. cbn [fill_transfer]. split; [done|]. simpl. by rewrite <- app_assoc, take_drop. Qed.

(** ** Lemmas: the operations *)

Lemma bucket_exists c objs i : central_ok c objs -> buckets_ c <> [] -> (i < Z.to_nat kNumSizeClasses)%nat -> exists b, buckets_ c !! i = Some b.
Proof. intros H Hne Hi. apply lookup_lt_is_Some_2. destruct (co_len _ _ H) as [?| ->]; done. Qed.

(** The bucket of an object. *)
Lemma object_bucket c objs i p : central_ok c objs -> (i, p) ∈ objs -> exists b, buckets_ c !! i = Some b.
Proof. intros H Hin. destruct (co_out _ _ H i p Hin) as (s & sp & bm & j & Hs & _). destruct (cs_listed _ _ _ _ _ Hs) as (b & Hb & _). eauto. Qed.

Lemma put_bucket_built c i b : buckets_ c <> [] -> buckets_ (put_bucket c i b) <> [].
Proof. intros H E. apply H. apply (f_equal length) in E. simpl in E. rewrite length_insert in E. by destruct (buckets_ c). Qed.

Lemma release_portions_spec fuel : forall c i cur out, (length cur <= fuel)%nat -> (i < Z.to_nat kNumSizeClasses)%nat ->
  central_inv c ((pair i <$> cur) ++ out) ->
  exists c', release_portions fuel c (Z.of_nat i) cur = Ret c' /\ central_inv c' out.
Proof.
  induction fuel as [|fuel IH]; intros c i cur out Hf Hi H.
  { destruct cur; [|simpl in Hf; lia]. by exists c. }
  destruct cur as [|p cur]; [by exists c|]. cbn [release_portions].
  set (portion := take (Z.to_nat kMaxBatchSize) (p :: cur)). set (later := drop (Z.to_nat kMaxBatchSize) (p :: cur)).
  assert (p :: cur = portion ++ later) as E by (symmetry; apply take_drop).
  destruct (object_bucket _ _ i p H) as [b Hb]; [rewrite !elem_of_app; right; left; left|]. rewrite (bucket_at_run _ _ _ Hb). cbn [mbind res_mbind res_bind].
  pose proof (fill_transfer_perm b portion) as HF. destruct (fill_transfer b portion) as [b' rest]. destruct HF as [Eb Hp].
  destruct (move_transfer_spec c i b (transfer_cache b') portion rest ((pair i <$> later) ++ out)) as [H1 Hb1]; [|done|done|].
  { rewrite E, fmap_app, <- app_assoc in H. exact H. }
  rewrite <- Eb in *. set (c1 := put_bucket c (Z.of_nat i) b') in *.
  destruct (release_objects_spec rest c1 (cached_in (transfers c1) ++ (pair i <$> later) ++ out) i) as (c2 & -> & H2 & E2).
  { eapply central_perm; [exact H1|]. by rewrite Permutation_app_swap_app. }
  cbn [mbind res_mbind res_bind]. rewrite <- E2 in H2. apply (IH c2 i later out); [|done|done].
  apply (f_equal length) in E. rewrite length_app in E. simpl in E, Hf.
  assert (1 <= length portion)%nat; [|lia]. unfold portion. rewrite length_take. simpl. 
  change (Z.to_nat kMaxBatchSize) with 512%nat. lia.
Qed.

Lemma class_index i : (i < Z.to_nat kNumSizeClasses)%nat -> Index (CalculateSize (Z.of_nat i)) = Ret (Z.of_nat i).
Proof.
  intros Hi. pose proof (CalculateSize_range (Z.of_nat i) ltac:(unfold kNumSizeClasses in *; lia)).
  rewrite Index_ret, index_of_size by lia. done.
Qed.

Lemma ReleaseListToSpans_spec c i ptrs out : (i < Z.to_nat kNumSizeClasses)%nat ->
  central_inv c ((pair i <$> ptrs) ++ out) ->
  exists c', ReleaseListToSpans c ptrs (CalculateSize (Z.of_nat i)) = Ret c' /\ central_inv c' out.
Proof.
  intros Hi H. unfold ReleaseListToSpans. rewrite (class_index i Hi). cbn [mbind res_mbind res_bind].
  by apply release_portions_spec.
Qed.

Lemma Init_same_pages sp size sp' bm : Init sp size = Ret (sp', bm) -> same_pages sp sp'.
Proof.
  intros H. unfold Init in H. res_inv. destruct (init_layout _ _ _) as [[bn off] cap]. by simplify_eq.
Qed.

(** A fresh span joins its bucket. *)
Lemma add_span_ok c objs i b s sp sp' bm : central_ok c objs -> buckets_ c !! i = Some b ->
  (forall i' b', buckets_ c !! i' = Some b' -> s ∉ span_list b') -> spans (shard c) !! s = Some sp -> IsUsed sp = true ->
  same_pages sp sp' -> span_wf sp' bm -> aligned_obj_size sp' = CalculateSize (Z.of_nat i) -> 0 < capacity sp' ->
  big !! s = None ->
  let c' := put_bucket (put_object_span c s (sp', bm)) (Z.of_nat i) (set_spans b (s :: span_list b)) in
  central_ok c' objs /\ transfers c' = transfers c /\ class_span c' i s sp' bm /\
  buckets_ c' !! i = Some (set_spans b (s :: span_list b)).
Proof.
  intros H Hb Hnot Es Hu Hg HW Hsz Hcap Hsm c'.
  assert (buckets_ c' !! i = Some (set_spans b (s :: span_list b))) as Hb'.
  { apply buckets_put. left. split_and!; [done..|by eapply lookup_lt_Some]. }
  assert (forall i' b', buckets_ c' !! i' = Some b' -> exists b0, buckets_ c !! i' = Some b0 /\
    (b' = b0 \/ (i' = i /\ b0 = b /\ b' = set_spans b (s :: span_list b)))) as HB.
  { intros i' b' [(-> & -> & _)|[_ Hi']]%buckets_put; [exists b; auto|exists b'; auto]. }
  assert (forall i' t tp tm, class_span c i' t tp tm -> class_span c' i' t tp tm) as HC.
  { intros i' t tp tm Ht. destruct (cs_listed _ _ _ _ _ Ht) as (b0 & Hb0 & Hin).
    assert (t <> s) as Hne by (intros ->; by apply (Hnot i' b0)). split.
    - destruct (decide (i' = i)) as [->|Hi].
      + simplify_eq. eexists. split; [exact Hb'|]. simpl. by right.
      + exists b0. split; [apply buckets_put; auto|done].
    - apply spans_put. right. split; [done|apply Ht].
    - simpl. rewrite lookup_insert_ne by done. apply Ht. }
  assert (class_span c' i s sp' bm) as Hs.
  { split; [eexists; split; [exact Hb'|by left]|by apply spans_put; left|simpl; apply lookup_insert_eq]. }
  split; [|split; [|done]].
  - constructor.
    + eapply put_span_ok; [apply H|done|done].
    + intros t tp [[-> ->]|[_ Ht]]%spans_put Hut; [|by apply (co_clean _ _ H t)].
      cbn [fst] in Hut. rewrite (same_pages_used _ _ Hg) in Hut. congruence.
    + by apply put_bucket_len, H.
    + intros i' b' t Hi' Ht. destruct (HB i' b' Hi') as (b0 & Hb0 & Hcase).
      assert ((i' = i /\ t = s) \/ t ∈ span_list b0) as [[-> ->]|Hin].
      { destruct Hcase as [->|(-> & -> & ->)]; [by right|]. simpl in Ht. apply elem_of_cons in Ht as [->|]; auto. }
      * exists sp', bm. split; [apply Hs|]. split; [apply Hs|]. rewrite (same_pages_used _ _ Hg). done.
      * destruct (listed_span _ _ _ _ _ H Hb0 Hin) as (tp & tm & Ht').
        destruct (class_span_ok _ _ _ _ _ _ H Ht') as (? & ? & ? & ? & _). apply HC in Ht'. exists tp, tm.
        split; [apply Ht'|]. split; [apply Ht'|done].
    + intros i' b' Hi'. destruct (HB i' b' Hi') as (b0 & Hb0 & [->|(-> & -> & ->)]); [by apply (co_once _ _ H i')|].
      simpl. constructor; [by apply (Hnot i b)|]. by apply (co_once _ _ H i).
    + apply H.
    + intros i' p Hin. destruct (co_out _ _ H i' p Hin) as (t & tp & tm & j & Ht & R). exists t, tp, tm, j. split; [by apply HC|done].
    + intros t tp Ht. destruct (co_big _ _ H t tp Ht) as (E & R). split; [|done]. apply spans_put. right. split; [congruence|done].
  - unfold c'. by apply (transfers_put (put_object_span c s (sp', bm))).
Qed.

Lemma GetOneSpan_spec c objs i : central_ok c objs -> buckets_ c <> [] -> (i < Z.to_nat kNumSizeClasses)%nat ->
  (GetOneSpan c (Z.of_nat i) (CalculateSize (Z.of_nat i)) = Panic no_nodes /\ exists n, unregistered c n) \/ exists r c',
  GetOneSpan c (Z.of_nat i) (CalculateSize (Z.of_nat i)) = Ret (r, c') /\ (tick c <= tick c')%nat /\
  match r with
  | None => exists n, refused c n
  | Some s => central_ok c' objs /\ transfers c' = transfers c /\ exists b l sp bm, buckets_ c' !! i = Some b /\
      span_list b = s :: l /\ class_span c' i s sp bm /\ use_count sp < capacity sp
  end.
Proof.
  intros H Hne0 Hi. assert (0 <= Z.of_nat i < kNumSizeClasses) as Hiz by (unfold kNumSizeClasses in *; lia).
  pose proof (CalculateSize_range _ Hiz) as Hcs.
  destruct (class_policy (CalculateSize (Z.of_nat i)) ltac:(lia)) as (sz & bt & n & Hr & _ & Hn & _ & Hnr & Hbr & Hcap & Hcov).
  rewrite RoundUp_ret, index_of_size in Hr by lia. injection Hr as <-.
  unfold GetOneSpan. rewrite Hn. cbn [mbind res_mbind res_bind].
  destruct (page_alloc_spec c objs n H ltac:(lia)) as [[-> Hu]|(r & c1 & -> & Et1 & Eb & Em & Hok & HRO & Hres)]; cbn [mbind res_mbind res_bind];
    [left; by eauto|right]. destruct r as [s|].
  2: { exists None, c1. split; [done|]. split; [lia|]. destruct Hres as (_ & [?|[?|?]]); [lia|change (MAX_PAGE_NUM) with 128 in *; change UINT32_MAX with 4294967295 in *; lia|by exists n]. }
  destruct Hres as [[_ (sp & Es & Ep & Hu) Hnew Hsame _] _].
  assert (forall i' t tp tm, class_span c i' t tp tm -> t <> s) as Hne.
  { intros i' t tp tm Ht ->. destruct (class_span_ok _ _ _ _ _ _ H Ht) as (Hut & _).
    rewrite (Hnew tp (cs_span _ _ _ _ _ Ht)) in Hut. done. }
  assert (big !! s = None) as Hsm.
  { destruct (big !! s) as [tp|] eqn:E; [|done]. destruct (co_big _ _ H s tp E) as (E0 & Hut & _). rewrite (Hnew tp E0) in Hut. done. }
  assert (central_ok c1 objs) as H1.
  { apply (central_frame c); [done|done|done|by eapply reset_or_old_clean, H| |].
    - intros i' t tp tm Ht.
      destruct (class_span_ok _ _ _ _ _ _ H Ht) as (Hut & _). split; [|rewrite Em; apply Ht].
      apply (Hsame t tp); [|done|apply Ht]. intros [= <-]. by eapply Hne.
    - intros t tp Ht. destruct (co_big _ _ H t tp Ht) as (E0 & Hut & Hz). split; [|done]. apply (Hsame t tp); [congruence|done|done]. }
  unfold span_at. rewrite Es. cbn [mbind res_mbind res_bind].
  pose proof (hi_ok _ _ _ Hok s sp Es) as [Ho1 Ho2 Ho3 _ _ _]. subst n.
  change max_page with (2 ^ 36) in Ho3. change MAX_PAGE_NUM with 128 in *.
  destruct (Init_wf sp (CalculateSize (Z.of_nat i))) as (sp' & bm & EI & HW & Hu0 & Hsz & _ & _ & Hc & _).
  { unfold in_space. change SystemConfig.PAGE_SIZE with 4096. unfold SizeConfig.MAX_TC_SIZE in Hcs. split_and!; lia. }
  { lia. }
  { done. }
  rewrite EI. cbn [mbind res_mbind res_bind]. destruct (bucket_exists _ _ i H1 ltac:(by rewrite Eb) Hi) as [b Hb].
  rewrite (bucket_at_run (put_object_span c1 s (sp', bm)) i b) by exact Hb. cbn [mbind res_mbind res_bind].
  eexists _, _. split; [done|]. split; [simpl; lia|]. cbn beta iota.
  destruct (add_span_ok c1 objs i b s sp sp' bm H1 Hb) as (H2 & Et & Hs2 & Hb2); try done.
  - intros i' b' Hb' Hin. rewrite Eb in Hb'. destruct (listed_span _ _ _ _ _ H Hb' Hin) as (? & ? & Ht). by eapply Hne.
  - by eapply Init_same_pages.
  - rewrite Hc. lia.
  - split; [done|]. split; [rewrite Et; unfold transfers; by rewrite Eb|].
    eexists _, _, sp', bm. split; [done|]. split; [done|]. split; [done|]. rewrite Hu0, Hc. lia.
Qed.

(** The inner loop: it stops short only when the span is full. *)
Lemma take_objects_spec n : forall c objs i b s, central_ok c objs -> buckets_ c !! i = Some b -> s ∈ span_list b ->
  exists ps full c', take_objects n c s = Ret (ps, full, c') /\ central_ok c' ((pair i <$> ps) ++ objs) /\ same_lists c c' /\
  tick c' = tick c /\ (length ps <= n)%nat /\
  ((0 < n)%nat -> (forall sp, spans (shard c) !! s = Some sp -> use_count sp < capacity sp) -> (0 < length ps)%nat).
Proof.
  induction n as [|n IH]; intros c objs i b s H Hb Hs.
  { exists [], false, c. split; [done|]. split; [done|]. split; [done|]. split; [done|]. simpl. lia. }
  destruct (listed_span _ _ _ _ _ H Hb Hs) as (sp & bm & Hc). cbn [take_objects].
  destruct (alloc_object_spec _ _ _ _ _ _ H Hc) as [[Ef ->]|(p & c1 & -> & H1 & Hl1 & Et1)]; cbn [mbind res_mbind res_bind].
  - exists [], true, c. split; [done|]. split; [done|]. split; [done|]. split; [done|]. split; [simpl; lia|].
    intros _ Hu. specialize (Hu sp (cs_span _ _ _ _ _ Hc)). lia.
  - destruct (IH c1 ((i, p) :: objs) i b s) as (ps & full & c' & -> & H' & Hl' & Et' & Hn & _); [done|by rewrite Hl1|done|].
    cbn [mbind res_mbind res_bind]. exists (p :: ps), full, c'. split; [done|].
    split; [eapply central_perm; [exact H'|]; simpl; by rewrite Permutation_middle|].
    split; [unfold same_lists in *; congruence|]. split; [congruence|]. simpl. lia.
Qed.

(** The head of a bucket that is not dry has an object left; when the bucket is dry the
    page cache supplies a new span. *)
Lemma supply_spec c objs i : central_ok c objs -> buckets_ c <> [] -> (i < Z.to_nat kNumSizeClasses)%nat -> exists b,
  bucket_at c (Z.of_nat i) = Ret b /\
  let m := dry ← needs_span c b; if (dry : bool) then GetOneSpan c (Z.of_nat i) (CalculateSize (Z.of_nat i)) else Ret (head (span_list b), c) in
  (m = Panic no_nodes /\ exists n, unregistered c n) \/ exists r c', m = Ret (r, c') /\ (tick c <= tick c')%nat /\
  match r with
  | None => exists n, refused c n
  | Some s => central_ok c' objs /\ transfers c' = transfers c /\ exists b' l, buckets_ c' !! i = Some b' /\
      span_list b' = s :: l /\ forall sp, spans (shard c') !! s = Some sp -> use_count sp < capacity sp
  end.
Proof.
  intros H Hne Hi. destruct (bucket_exists _ _ _ H Hne Hi) as [b Hb]. exists b. rewrite (bucket_at_run _ _ _ Hb). split; [done|].
  assert ((GetOneSpan c (Z.of_nat i) (CalculateSize (Z.of_nat i)) = Panic no_nodes /\ exists n, unregistered c n) \/
    exists r c', GetOneSpan c (Z.of_nat i) (CalculateSize (Z.of_nat i)) = Ret (r, c') /\ (tick c <= tick c')%nat /\ match r with
    | None => exists n, refused c n
    | Some s => central_ok c' objs /\ transfers c' = transfers c /\ exists b' l, buckets_ c' !! i = Some b' /\
      span_list b' = s :: l /\ forall sp, spans (shard c') !! s = Some sp -> use_count sp < capacity sp end) as Hnew.
  { destruct (GetOneSpan_spec _ _ i H Hne Hi) as [?|(r & c' & E & Ht & Hr)]; [by left|right]. exists r, c'. split; [done|]. split; [done|]. destruct r as [s|]; [|done].
    destruct Hr as (H' & Et & b' & l & sp & bm & Hb' & El & Hs & Hu). split; [done|]. split; [done|]. exists b', l.
    split; [done|]. split; [done|]. intros sp' Es. rewrite (cs_span _ _ _ _ _ Hs) in Es. by injection Es as <-. }
  cbv zeta. unfold needs_span. destruct (span_list b) as [|s l] eqn:El; cbn [mbind res_mbind res_bind]; [exact Hnew|].
  destruct (listed_span _ _ _ b s H Hb) as (sp & bm & Hs); [rewrite El; by left|].
  unfold span_at. rewrite (cs_span _ _ _ _ _ Hs). cbn [mbind res_mbind res_bind].
  destruct (Z.leb_spec (capacity sp) (use_count sp)) as [Hle|Hlt]; [exact Hnew|].
  right. exists (Some s), c. split; [done|]. split; [done|]. split; [done|]. split; [done|]. exists b, l. split; [done|]. split; [done|].
  intros sp' Es. rewrite (cs_span _ _ _ _ _ Hs) in Es. by injection Es as <-.
Qed.

(** The ways to end the process while objects are fetched, each with the request the
    system refused: no span could be had, its pages could not be registered, or the
    transfer caches could not be mapped. *)
Inductive fetch_abort (c : Central) : string -> Prop :=
| abort_span c' n : (tick c <= tick c')%nat -> refused c' n -> fetch_abort c no_span
| abort_nodes c' n : (tick c <= tick c')%nat -> unregistered c' n -> fetch_abort c no_nodes
| abort_transfer : buckets_ c = [] -> maps_transfer (tick c) = false -> fetch_abort c no_transfer.

Lemma fetch_abort_later c c' msg : buckets_ c' <> [] -> (tick c <= tick c')%nat -> fetch_abort c' msg -> fetch_abort c msg.
Proof.
  intros Hne Ht [c1 n H1 H2|c1 n H1 H2|H1 _]; [apply (abort_span c c1 n)|apply (abort_nodes c c1 n)|done]; (lia || done).
Qed.

(** The outer loop: [n] objects, or an abort when the system is out of memory. *)
Lemma extract_spec fuel : forall n c objs i, (n < fuel)%nat -> central_ok c objs -> buckets_ c <> [] -> (i < Z.to_nat kNumSizeClasses)%nat ->
  (exists msg, extract fuel n c (Z.of_nat i) (CalculateSize (Z.of_nat i)) = Panic msg /\ fetch_abort c msg) \/
  exists ps c', extract fuel n c (Z.of_nat i) (CalculateSize (Z.of_nat i)) = Ret (ps, c') /\ length ps = n /\
    central_ok c' ((pair i <$> ps) ++ objs) /\ transfers c' = transfers c.
Proof.
  induction fuel as [|fuel IH]; intros n c objs i Hf H Hne Hi; [lia|]. cbn [extract].
  destruct (Nat.eqb_spec n 0) as [->|Hn]; [right; by exists [], c|].
  destruct (supply_spec _ _ i H Hne Hi) as (b & -> & Hs). cbn [mbind res_mbind res_bind] in *.
  destruct Hs as [(E & k & Hk)|(r & c1 & E & Ht1 & Hr)].
  { left. exists no_nodes. split; [|by apply (abort_nodes c c k)]. destruct (needs_span c b) as [dry|?|?]; cbn [mbind res_mbind res_bind] in *; [by rewrite E|done|congruence]. }
  destruct (needs_span c b) as [dry|?|?]; [|done..]. cbn [mbind res_mbind res_bind] in *.
  rewrite E. cbn [mbind res_mbind res_bind].
  destruct r as [s|]; [|destruct Hr as [k Hk]; left; exists no_span; split; [done|by apply (abort_span c c k)]].
  destruct Hr as (H1 & Et & b1 & l & Hb1 & El & Hu). rewrite (bucket_at_run _ _ _ Hb1). cbn [mbind res_mbind res_bind]. rewrite El.
  destruct (take_objects_spec n c1 objs i b1 s H1 Hb1) as (ps & full & c2 & -> & H2 & Hl2 & Ht2 & Hlen & Hpos); [rewrite El; by left|].
  cbn [mbind res_mbind res_bind]. specialize (Hpos ltac:(lia) Hu).
  assert (buckets_ c2 !! i = Some b1) as Hb2 by (by rewrite Hl2).
  assert (transfers c2 = transfers c) as Et2 by (rewrite <- Et; unfold transfers; by rewrite Hl2).
  assert (exists c3, (if full then b ← bucket_at c2 (Z.of_nat i); b ← erase_span b s;
      Ret (put_bucket c2 (Z.of_nat i) (set_spans b (span_list b ++ [s]))) else Ret c2) = Ret c3 /\
    central_ok c3 ((pair i <$> ps) ++ objs) /\ transfers c3 = transfers c /\ tick c3 = tick c2) as (c3 & -> & H3 & Et3 & Ht3).
  { destruct full; [|by exists c2]. rewrite (bucket_at_run _ _ _ Hb2). cbn [mbind res_mbind res_bind].
    assert (s ∈ span_list b1) as Hin by (rewrite El; by left). rewrite erase_span_run by done. cbn [mbind res_mbind res_bind].
    destruct (listed_span _ _ _ _ _ H2 Hb2 Hin) as (sp & bm & Hs). eexists. split; [done|].
    destruct (move_span_spec c2 _ i b1 s sp bm (filter (fun t => t <> s) (span_list b1) ++ [s]) H2 Hb2 Hs) as (H3 & E3 & _).
    { rewrite <- Permutation_cons_append. apply filter_perm; [|done]. by apply (co_once _ _ H2 i). }
    split; [exact H3|]. split; [by rewrite <- Et2|done]. }
  cbn [mbind res_mbind res_bind]. assert (buckets_ c3 <> []) as Hne3.
  { intros E0. assert (length (transfers c3) = length (transfers c)) as El3 by congruence. unfold transfers in El3. rewrite !length_fmap, E0 in El3. by destruct (buckets_ c). }
  destruct (IH (n - length ps)%nat c3 _ i ltac:(lia) H3 Hne3 Hi) as [(msg & -> & Ha)|(qs & c4 & -> & Hq & H4 & E4)];
    [left; exists msg; split; [done|]; eapply (fetch_abort_later c c3); [done|lia|done]|].
  right. exists (ps ++ qs), c4. split; [done|]. rewrite length_app. split; [lia|]. split; [|congruence].
  eapply central_perm; [exact H4|]. rewrite fmap_app, <- app_assoc. apply Permutation_app_swap_app.
Qed.

(** Prefetched objects end up in the transfer cache or back in their spans. *)
Lemma publish_prefetched_spec c i ps out : (i < Z.to_nat kNumSizeClasses)%nat -> central_inv c ((pair i <$> ps) ++ out) ->
  exists c', publish_prefetched c (Z.of_nat i) (CalculateSize (Z.of_nat i)) ps = Ret c' /\ central_inv c' out.
Proof.
  intros Hi H. destruct ps as [|p ps]; [by exists c|]. unfold publish_prefetched.
  destruct (object_bucket _ _ i p H) as [b Hb]; [rewrite !elem_of_app; right; left; left|]. rewrite (bucket_at_run _ _ _ Hb). cbn [mbind res_mbind res_bind].
  pose proof (fill_transfer_perm b (p :: ps)) as HF. destruct (fill_transfer b (p :: ps)) as [b' rest]. destruct HF as [Eb Hp].
  destruct (move_transfer_spec c i b (transfer_cache b') (p :: ps) rest out H Hb Hp) as [H1 _]. rewrite <- Eb in H1.
  destruct rest as [|q rest]; [by eexists|]. apply (ReleaseListToSpans_spec _ i _ out Hi).
  eapply central_inv_perm; [exact H1|]. by rewrite reverse_Permutation.
Qed.

(** What [FetchRange] promises: [batch_num] objects nobody else holds. *)
Lemma FetchRange_spec c l i batch out : (i < Z.to_nat kNumSizeClasses)%nat -> 1 <= batch <= kMaxBatchSize -> central_inv c out -> buckets_ c <> [] ->
  (exists msg, FetchRange c l batch (CalculateSize (Z.of_nat i)) = Panic msg /\ fetch_abort c msg) \/
  exists ps c', FetchRange c l batch (CalculateSize (Z.of_nat i)) = Ret (batch, fl_push_range l ps batch, c') /\
    zlen ps = batch /\ central_inv c' ((pair i <$> ps) ++ out).
Proof.
  intros Hi Hbt H Hne. unfold FetchRange. rewrite (proj2 (Z.leb_le _ _)) by lia. cbn [mbind res_mbind res_bind].
  rewrite (class_index i Hi). cbn [mbind res_mbind res_bind].
  destruct (bucket_exists _ _ i H Hne Hi) as [b Hb]. rewrite (bucket_at_run _ _ _ Hb). cbn [mbind res_mbind res_bind].
  set (count := length (transfer_cache b)). set (grab := Nat.min (Z.to_nat batch) count).
  set (kept := take (count - grab) (transfer_cache b)). set (loc := reverse (drop (count - grab) (transfer_cache b))).
  assert (length loc = grab) as Hloc by (unfold loc; rewrite length_reverse, length_drop; fold count; lia).
  destruct (move_transfer_spec c i b kept [] loc out) as [H1 _]; [exact H|done| |].
  { rewrite app_nil_r. unfold kept, loc. by rewrite reverse_Permutation, take_drop. }
  set (c1 := put_bucket c (Z.of_nat i) (set_transfer b kept)) in *.
  destruct (Z.ltb_spec (Z.of_nat grab) batch) as [Hlt|Hge].
  2: { right. exists loc, c1. assert (zlen loc = batch) as E by (unfold zlen; lia). rewrite E.
       rewrite (proj2 (Z.ltb_lt 0 batch)) by lia. by split. }
  set (need := Z.to_nat (batch - Z.of_nat grab)). set (total := (need + Z.to_nat batch)%nat).
  destruct (extract_spec (S total) total c1 _ i ltac:(lia) H1 (put_bucket_built _ _ _ Hne) Hi) as [(msg & -> & Ha)|(ps & c2 & -> & Hps & H2 & E2)];
    cbn [mbind res_mbind res_bind]; [left; exists msg; split; [done|]; by eapply (fetch_abort_later c c1); [apply put_bucket_built| |]|]. right.
  destruct (publish_prefetched_spec c2 i (drop need ps) ((pair i <$> (reverse (take need ps) ++ loc)) ++ out) Hi) as (c3 & -> & H3).
  { unfold central_inv. rewrite E2. eapply central_perm; [exact H2|]. rewrite <- (take_drop need ps) at 1.
    rewrite !fmap_app, reverse_Permutation, <- !app_assoc. solve_Permutation. }
  cbn [mbind res_mbind res_bind]. exists (reverse (take need ps) ++ loc), c3.
  assert (zlen (take need ps) + zlen loc = batch) as E by (unfold zlen; rewrite length_take; lia). rewrite E.
  rewrite (proj2 (Z.ltb_lt 0 batch)) by lia. split; [done|]. split; [|done].
  rewrite <- E. unfold zlen. rewrite length_app, length_reverse. lia.
Qed.

(** The first use constructs the central cache. *)
Lemma InitTransferCache_built b bs : InitTransferCache b = Ret bs ->
  length bs = Z.to_nat kNumSizeClasses /\ Forall (fun b => transfer_cache b = [] /\ span_list b = []) bs.
Proof.
  destruct b; [|done]. intros E. assert (match InitTransferCache true with
    | Ret bs => (length bs =? 48)%nat && forallb (fun b => match transfer_cache b, span_list b with [], [] => true | _, _ => false end) bs
    | _ => false end = true) as HC by (vm_compute; reflexivity).
  rewrite E in HC. clear E. apply andb_prop in HC as [Hl%Nat.eqb_eq Hb]. split; [exact Hl|]. rewrite forallb_forall in Hb.
  apply Forall_forall. intros b Hin%list_elem_of_In. specialize (Hb b Hin). by destruct (transfer_cache b), (span_list b).
Qed.
Lemma empty_transfers bs : Forall (fun b => transfer_cache b = [] /\ span_list b = []) bs -> cached_in (transfer_cache <$> bs) = [].
Proof.
  intros Hb. unfold cached_in. assert (forall g : nat -> list Z -> list (nat * Z), (forall i, g i [] = []) ->
    concat (imap g (transfer_cache <$> bs)) = []) as HG; [|by apply HG].
  induction Hb as [|b bs [E _] _ IH]; intros g Hg; [done|]. rewrite fmap_cons, imap_cons. simpl. rewrite E, Hg. apply IH. intros. apply Hg.
Qed.
Lemma GetInstance_spec c out : central_inv c out -> (GetInstance c = Panic no_transfer /\ fetch_abort c no_transfer) \/
  exists c', GetInstance c = Ret c' /\ central_inv c' out /\ buckets_ c' <> [] /\ (tick c <= tick c')%nat.
Proof.
  intros H. unfold GetInstance. destruct (buckets_ c) as [|b bs] eqn:Eb; [|right; exists c; split_and!; [done..|by rewrite Eb|done]].
  destruct (maps_transfer (tick c)) eqn:Em; [|left; split; [reflexivity|by apply abort_transfer]].
  destruct (InitTransferCache true) as [bs|?|?] eqn:E; [|vm_compute in E; discriminate..]. destruct (InitTransferCache_built _ _ E) as [Hlen Hb].
  right. eexists. split; [done|]. split; [|split; [by destruct bs|simpl; lia]]. unfold central_inv, transfers in *. cbn [buckets_]. rewrite (empty_transfers bs Hb).
  rewrite Eb in H. change (cached_in (transfer_cache <$> [])) with (@nil (nat * Z)) in H. rewrite Forall_lookup in Hb.
  assert (out = []) as ->. { destruct out as [|[i p] out]; [done|]. destruct (object_bucket _ _ i p H) as [b Hb']; [left|]. by rewrite Eb in Hb'. }
  constructor; cbn [shard bitmaps buckets_]; try apply H.
  - by right.
  - intros i b s Hi Hs. destruct (Hb i b Hi) as [_ E0]. rewrite E0 in Hs. by apply not_elem_of_nil in Hs.
  - intros i b Hi. destruct (Hb i b Hi) as [_ ->]. constructor.
  - intros i p Hin. by apply not_elem_of_nil in Hin.
Qed.
(** While objects are out there is nothing to construct. *)
Lemma GetInstance_built c i p out : central_inv c out -> (i, p) ∈ out -> GetInstance c = Ret c.
Proof.
  intros H Hin. destruct (object_bucket _ _ i p H) as [b Hb]; [rewrite elem_of_app; by right|]. unfold GetInstance. by destruct (buckets_ c).
Qed.
End Specs.
