(* ===== verification/ThreadCache.v ===== *)
(** * ThreadCache: per-thread caches and the public entry points

    [ammalloc/include/ammalloc/thread_cache.h], [ammalloc/src/thread_cache.cpp] and
    [ammalloc/src/ammalloc.cpp]. A thread is its thread-local pointer to a cache and the
    flag set when it shuts down; any number of threads share one [Central] and call it in
    any order, one call at a time. [std::terminate] (an exception leaving a [noexcept]
    function) and failed [AMMALLOC_DCHECK]s are [Panic]. *)
From S2P Require Import Prelude SizeClasses SpanAlloc PageMap PageCache CentralCache.
Import PageConfig SizeClass.

(** The member [free_lists_], one list for each size class. *)
Abbreviation ThreadCache := (list FreeList).

(* @src ammalloc/include/ammalloc/thread_cache.h:37-37 ThreadCache::ThreadCache *)
Definition new_thread_cache : ThreadCache := replicate (Z.to_nat kNumSizeClasses) new_free_list.

Section Operations.
Context {OS : OperatingSystem}.

(* @src ammalloc/src/thread_cache.cpp:51-57 FetchFromCentralCache (quota) *)
Definition grow_quota (l : FreeList) (batch_num : Z) : FreeList :=
  if max_size l <? batch_num then
    let inc := Z.max 1 (max_size l) in set_max_size l (Z.min batch_num (max_size l + inc))
  else if max_size l <? batch_num * 8 then
    let inc := Z.max 1 (batch_num / 8) in set_max_size l (Z.min (batch_num * 8) (max_size l + inc))
  else l.

(* @src ammalloc/src/thread_cache.cpp:37-62 ThreadCache::FetchFromCentralCache *)
Definition FetchFromCentralCache (c : Central) (l : FreeList) (aligned_size : Z)
    : Res (option Z * FreeList * Central) :=
  batch_num ← CalculateBatchSize aligned_size;
  let fetch_num := Z.min batch_num (max_size l) in
  c ← GetInstance c;
  '(fetched, l, c) ← FetchRange c l fetch_num aligned_size;
  if fetched =? 0 then Ret (None, l, c)
  else
    let l := set_overages (grow_quota l batch_num) 0 in
    let '(r, l) := fl_pop l in Ret (r, l, c).

(* @src ammalloc/include/ammalloc/thread_cache.h:53-69 ThreadCache::Allocate *)
Definition Allocate (c : Central) (tc : ThreadCache) (aligned_size : Z) : Res (option Z * ThreadCache * Central) :=
  _ ← am_check (0 <? aligned_size) "aligned_size > 0";
  _ ← am_check (aligned_size <=? SizeConfig.MAX_TC_SIZE) "aligned_size <= SizeConfig::MAX_TC_SIZE";
  rounded ← RoundUp aligned_size;
  _ ← am_check (aligned_size =? rounded) "aligned_size == SizeClass::RoundUp(aligned_size)";
  idx ← Index aligned_size;
  l ← vec_at tc (Z.to_nat idx);
  match chain l with
  | _ :: _ => let '(r, l) := fl_pop l in Ret (r, <[Z.to_nat idx := l]> tc, c)
  | [] => '(r, l, c) ← FetchFromCentralCache c l aligned_size; Ret (r, <[Z.to_nat idx := l]> tc, c)
  end.

(** Up to [n] objects popped, as the chain they are linked into. *)
(* @src ammalloc/src/thread_cache.cpp:70-74 DeallocateSlowPath (pop) *)
Fixpoint pop_chain (n : nat) (l : FreeList) (start : list Z) : list Z * FreeList :=
  match n with
  | O => (start, l)
  | S n' => match fl_pop l with (Some p, l) => pop_chain n' l (p :: start) | (None, l) => (start, l) end
  end.

(* @src ammalloc/src/thread_cache.cpp:84-95 DeallocateSlowPath (decay) *)
Definition decay_quota (l : FreeList) (batch_num : Z) : FreeList :=
  if batch_num <? max_size l then
    let l := set_overages l (overages l + 1) in
    if 3 <=? overages l then set_overages (set_max_size l (Z.max (max_size l - batch_num) batch_num)) 0 else l
  else set_overages l 0.

(* @src ammalloc/src/thread_cache.cpp:64-96 ThreadCache::DeallocateSlowPath *)
Definition DeallocateSlowPath (c : Central) (l : FreeList) (aligned_size : Z) : Res (FreeList * Central) :=
  batch_num ← CalculateBatchSize aligned_size;
  let '(start, l) := pop_chain (Z.to_nat batch_num) l [] in
  c ← (match start with [] => Ret c | _ => c ← GetInstance c; ReleaseListToSpans c start aligned_size end);
  Ret (decay_quota l batch_num, c).

(* @src ammalloc/include/ammalloc/thread_cache.h:81-97 ThreadCache::Deallocate *)
Definition Deallocate (c : Central) (tc : ThreadCache) (ptr aligned_size : Z) : Res (ThreadCache * Central) :=
  _ ← am_check (negb (ptr =? 0)) "ptr != nullptr";
  _ ← am_check (aligned_size <=? SizeConfig.MAX_TC_SIZE) "aligned_size <= SizeConfig::MAX_TC_SIZE";
  idx ← Index aligned_size;
  l ← vec_at tc (Z.to_nat idx);
  let l := fl_push l ptr in
  '(l, c) ← (if max_size l <? fl_size l then DeallocateSlowPath c l aligned_size else Ret (l, c));
  Ret (<[Z.to_nat idx := l]> tc, c).

(* @src ammalloc/src/thread_cache.cpp:15-33 ThreadCache::ReleaseAll (one class) *)
Definition release_class (st : ThreadCache * Central) (i : Z) : Res (ThreadCache * Central) :=
  let '(tc, c) := st in
  l ← vec_at tc (Z.to_nat i);
  match chain l with
  | [] => Ret (tc, c)
  | _ =>
      size ← Size i;
      let '(start, l) := pop_chain (Z.to_nat (fl_size l)) l [] in
      c ← GetInstance c;
      c ← ReleaseListToSpans c start size;
      Ret (<[Z.to_nat i := set_overages (set_max_size l 1) 0]> tc, c)
  end.

(* @src ammalloc/src/thread_cache.cpp:13-35 ThreadCache::ReleaseAll *)
Definition ReleaseAll (c : Central) (tc : ThreadCache) : Res (ThreadCache * Central) :=
  res_foldl release_class (tc, c) (seqZ 0 kNumSizeClasses).

(** ** Threads *)

(* @src ammalloc/src/ammalloc.cpp:17-18 pTLSThreadCache, g_ThreadCacheAlreadyDestructed *)
Record Thread := mkThread { tls : option ThreadCache; destructed : bool }.

Definition new_thread : Thread := mkThread None false.

Definition no_cache : string := "placement new at a null address".

(** [mapped]: the pages for the cache could be had. Without them the cache is constructed
    at the null address. *)
(* @src ammalloc/src/ammalloc.cpp:20-35 CreateThreadCache *)
Definition CreateThreadCache (t : Thread) (mapped : bool) : Res (option ThreadCache) :=
  if destructed t then Ret None
  else match tls t with
       | Some tc => Ret (Some tc)
       | None => _ ← am_check mapped no_cache; Ret (Some new_thread_cache)
       end.

(** ** Entry points *)

(** [AlignUp] to pages wraps for sizes within a page of the top of the address space. *)
(* @src ammalloc/include/ammalloc/common.h:22-34 AlignUp *)
Definition AlignUp (size align : Z) : Z :=
  if size =? 0 then align
  else if has_single_bit align then Z.land (u64 (size + align - 1)) (Z.lnot (align - 1))
  else u64 (u64 (size + align - 1) / align * align).

(* @src ammalloc/src/ammalloc.cpp:93-102 am_malloc_slow_path (large) *)
Definition malloc_large (c : Central) (original_size : Z) : Res (option Z * Central) :=
  let aligned_size := AlignUp original_size SystemConfig.PAGE_SIZE in
  let page_num := Z.shiftr aligned_size SystemConfig.PAGE_SHIFT in
  '(r, c) ← page_alloc c page_num;
  match r with
  | None => Ret (None, c)
  | Some s => sp ← span_at (shard c) s; Ret (Some (GetPageBaseAddr sp), c)
  end.

(* @src ammalloc/src/ammalloc.cpp:88-112 am_malloc_slow_path *)
Definition am_malloc_slow_path (c : Central) (t : Thread) (mapped : bool) (original_size : Z)
    : Res (option Z * Thread * Central) :=
  if SizeConfig.MAX_TC_SIZE <? original_size then
    '(r, c) ← malloc_large c original_size; Ret (r, t, c)
  else
    tc ← (match tls t with Some tc => Ret (Some tc) | None => CreateThreadCache t mapped end);
    match tc with
    | None => Ret (None, t, c)
    | Some tc =>
        size ← RoundUp original_size;
        '(r, tc, c) ← Allocate c tc size;
        Ret (r, mkThread (Some tc) (destructed t), c)
    end.

(* @src ammalloc/src/ammalloc.cpp:139-149 am_malloc *)
Definition am_malloc (c : Central) (t : Thread) (mapped : bool) (original_size : Z)
    : Res (option Z * Thread * Central) :=
  match tls t with
  | Some tc =>
      if SizeConfig.MAX_TC_SIZE <? original_size then am_malloc_slow_path c t mapped original_size
      else
        size ← RoundUp original_size;
        '(r, tc, c) ← Allocate c tc size;
        Ret (r, mkThread (Some tc) (destructed t), c)
  | None => am_malloc_slow_path c t mapped original_size
  end.

(* @src ammalloc/src/ammalloc.cpp:114-133 am_free_slow_path *)
Definition am_free_slow_path (c : Central) (t : Thread) (mapped : bool) (ptr : Z) (s : SpanPtr) (aligned_size : Z)
    : Res (Thread * Central) :=
  if aligned_size =? 0 then c ← page_release c s; Ret (t, c)
  else
    tc ← (match tls t with Some tc => Ret (Some tc) | None => CreateThreadCache t mapped end);
    match tc with
    | None => c ← GetInstance c; c ← ReleaseListToSpans c [ptr] aligned_size; Ret (t, c)
    | Some tc => '(tc, c) ← Deallocate c tc ptr aligned_size; Ret (mkThread (Some tc) (destructed t), c)
    end.

(* @src ammalloc/src/ammalloc.cpp:151-171 am_free *)
Definition am_free (c : Central) (t : Thread) (mapped : bool) (ptr : Z) : Res (Thread * Central) :=
  if ptr =? 0 then Ret (t, c)
  else
    match GetSpan_ptr (page_map (shard c)) ptr with
    | None => Ret (t, c)
    | Some s =>
        sp ← span_at (shard c) s;
        let aligned_size := aligned_obj_size sp in
        match tls t with
        | Some tc =>
            if aligned_size =? 0 then am_free_slow_path c t mapped ptr s aligned_size
            else '(tc, c) ← Deallocate c tc ptr aligned_size; Ret (mkThread (Some tc) (destructed t), c)
        | None => am_free_slow_path c t mapped ptr s aligned_size
        end
    end.

(* @src ammalloc/src/ammalloc.cpp:48-57 ThreadCacheCleaner::~ThreadCacheCleaner *)
Definition thread_exit (c : Central) (t : Thread) : Res (Thread * Central) :=
  match tls t with
  | Some tc => '(_, c) ← ReleaseAll c tc; Ret (mkThread None true, c)
  | None => Ret (mkThread None true, c)
  end.
End Operations.

(** ** The invariant of a thread cache *)

(** Objects moved at a time for class [i]. *)
Definition batch_of (i : nat) : Z :=
  match CalculateBatchSize (CalculateSize (Z.of_nat i)) with Ret b => b | _ => 0 end.

Lemma class_size i : (i < Z.to_nat kNumSizeClasses)%nat -> 8 <= CalculateSize (Z.of_nat i) <= SizeConfig.MAX_TC_SIZE.
Proof. intros Hi. apply CalculateSize_range. unfold kNumSizeClasses in *. lia. Qed.

Lemma batch_of_spec i : (i < Z.to_nat kNumSizeClasses)%nat ->
  CalculateBatchSize (CalculateSize (Z.of_nat i)) = Ret (batch_of i) /\ 2 <= batch_of i <= kMaxBatchSize.
Proof.
  intros Hi. pose proof (class_size i Hi).
  destruct (class_policy (CalculateSize (Z.of_nat i)) ltac:(lia)) as (c & b & p & _ & Hb & _ & _ & _ & Hr & _).
  unfold batch_of. rewrite Hb. done.
Qed.

(** The recorded size is the length of the chain; the quota stays between one object and
    eight batches; the list exceeds it by at most one object, and only right after the
    quota was lowered. *)
Record list_ok (i : nat) (l : FreeList) : Prop := {
  lo_size : fl_size l = zlen (chain l);
  lo_max : 1 <= max_size l <= 8 * batch_of i;
  lo_over : 0 <= overages l <= 2;
  lo_quota : fl_size l <= max_size l + (if overages l =? 0 then 1 else 0) }.

Record tc_ok (tc : ThreadCache) : Prop := {
  to_len : length tc = Z.to_nat kNumSizeClasses;
  to_list : forall i l, tc !! i = Some l -> list_ok i l }.

Lemma u32_small n : 0 <= n < 2 ^ 32 -> u32 n = n.
Proof. intros H. apply wrap_small. exact H. Qed.

Lemma new_list_ok i : (i < Z.to_nat kNumSizeClasses)%nat -> list_ok i new_free_list.
Proof. intros Hi. destruct (batch_of_spec i Hi). constructor; simpl; unfold zlen; simpl; lia. Qed.

Lemma new_thread_cache_ok : tc_ok new_thread_cache.
Proof.
  constructor; [apply length_replicate|]. intros i l Hl. apply lookup_replicate in Hl as [-> Hi]. by apply new_list_ok.
Qed.

Lemma tc_put_ok tc i l : tc_ok tc -> list_ok i l -> tc_ok (<[i := l]> tc).
Proof.
  intros H Hl. constructor; [rewrite length_insert; apply H|]. intros j l' Hj.
  apply list_lookup_insert_Some in Hj as [(-> & <- & _)|[_ Hj]]; [done|]. by apply (to_list _ H).
Qed.

(** ** Lemmas: free lists *)

(** Popping [n] objects. *)
Lemma pop_chain_spec n : forall l start, fl_size l = zlen (chain l) -> zlen (chain l) < 2 ^ 32 -> exists l',
  pop_chain n l start = (reverse (take n (chain l)) ++ start, l') /\ chain l' = drop n (chain l) /\
  fl_size l' = zlen (chain l') /\ max_size l' = max_size l /\ overages l' = overages l.
Proof.
  induction n as [|n IH]; intros l start Hs Hb; [by exists l|]. cbn [pop_chain]. unfold fl_pop.
  destruct (chain l) as [|p rest] eqn:E.
  - exists l. rewrite E. simpl. done.
  - unfold zlen in *. simpl in Hs, Hb.
    destruct (IH (mkFreeList rest (u32 (fl_size l - 1)) (max_size l) (overages l)) (p :: start)) as (l' & -> & ? & ? & ? & ?).
    { simpl. rewrite u32_small; lia. }
    { simpl. lia. }
    exists l'. split_and!; try done. simpl. by rewrite reverse_cons, <- app_assoc.
Qed.

Section Lists.
Context (i : nat) (Hi : (i < Z.to_nat kNumSizeClasses)%nat).

Lemma list_bound l : list_ok i l -> 0 <= fl_size l <= 4097 /\ max_size l <= 4096.
Proof.
  intros []. destruct (batch_of_spec i Hi) as [_ Hb]. change kMaxBatchSize with 512 in Hb.
  rewrite lo_size0. unfold zlen in *. destruct (overages l =? 0); lia.
Qed.

Lemma pop_ok l p rest : list_ok i l -> chain l = p :: rest ->
  exists l', fl_pop l = (Some p, l') /\ chain l' = rest /\ list_ok i l'.
Proof.
  intros H E. pose proof (list_bound l H) as HB. destruct H as [Hs Hm Ho Hq]. unfold fl_pop. rewrite E.
  eexists. split; [done|]. split; [done|]. rewrite E in Hs. unfold zlen in Hs. simpl in Hs.
  constructor; cbn [chain fl_size max_size overages]; try done; unfold zlen; rewrite u32_small; lia.
Qed.

(** The quota after a fetch, and after a release of a batch. *)
Lemma grow_quota_ok l : 1 <= max_size l <= 8 * batch_of i -> let l' := grow_quota l (batch_of i) in
  chain l' = chain l /\ fl_size l' = fl_size l /\ max_size l <= max_size l' <= 8 * batch_of i.
Proof.
  intros Hm. destruct (batch_of_spec i Hi) as [_ Hb]. change kMaxBatchSize with 512 in Hb. unfold grow_quota.
  assert (0 <= batch_of i / 8) by (apply Z.div_pos; lia).
  destruct (Z.ltb_spec (max_size l) (batch_of i)); [|destruct (Z.ltb_spec (max_size l) (batch_of i * 8))];
    (split; [done|]); (split; [done|]); cbn [set_max_size max_size]; rewrite ?u32_small; lia.
Qed.

Lemma decay_quota_ok l : fl_size l = zlen (chain l) -> 1 <= max_size l <= 8 * batch_of i -> 0 <= overages l <= 2 ->
  fl_size l <= Z.max 0 (max_size l + (if overages l =? 0 then 2 else 1) - batch_of i) ->
  list_ok i (decay_quota l (batch_of i)) /\ chain (decay_quota l (batch_of i)) = chain l.
Proof.
  intros Hs Hm Ho Hq. destruct (batch_of_spec i Hi) as [_ Hb]. change kMaxBatchSize with 512 in Hb. unfold decay_quota.
  destruct (Z.ltb_spec (batch_of i) (max_size l)) as [Hlt|Hge].
  - cbn [set_overages overages]. rewrite (u32_small (overages l + 1)) by lia.
    destruct (Z.leb_spec 3 (overages l + 1)).
    + split; [|done]. destruct (Z.eqb_spec (overages l) 0); [lia|].
      constructor; cbn [set_overages set_max_size chain fl_size max_size overages]; rewrite ?u32_small by lia; try done; try lia.
      change (if 0 =? 0 then 1 else 0) with 1. lia.
    + split; [|done]. constructor; cbn [set_overages set_max_size chain fl_size max_size overages]; rewrite ?u32_small by lia; try done; try lia.
      destruct (Z.eqb_spec (overages l + 1) 0), (Z.eqb_spec (overages l) 0); lia.
  - split; [|done]. constructor; cbn [set_overages chain fl_size max_size overages]; rewrite ?u32_small by lia; try done; try lia.
    change (if 0 =? 0 then 1 else 0) with 1. destruct (overages l =? 0); lia.
Qed.
End Lists.

(** ** Lemmas: objects of a thread cache *)

(** The objects of a thread cache, by class. *)
Definition held (tc : ThreadCache) : list (nat * Z) := cached_in (chain <$> tc).

Lemma held_put tc i l l' : tc !! i = Some l -> exists rest,
  held tc ≡ₚ (pair i <$> chain l) ++ rest /\ held (<[i := l']> tc) ≡ₚ (pair i <$> chain l') ++ rest.
Proof.
  intros Hl. unfold held. rewrite list_fmap_insert. apply cached_insert. by rewrite list_lookup_fmap, Hl.
Qed.

Lemma new_held : held new_thread_cache = [].
Proof. reflexivity. Qed.

Section Specs.
Context {OS : OperatingSystem} (big : gmap SpanPtr Span).

(** Moving objects between list [i] and the outside. *)
Lemma held_move c tc i l l' xs ys out : central_inv big c (held tc ++ (pair i <$> xs) ++ out) -> tc !! i = Some l ->
  chain l ++ xs ≡ₚ chain l' ++ ys -> central_inv big c (held (<[i := l']> tc) ++ (pair i <$> ys) ++ out).
Proof.
  intros H Hl Hp. destruct (held_put tc i l l' Hl) as (rest & E1 & E2). eapply central_inv_perm; [exact H|]. rewrite E1, E2.
  transitivity ((pair i <$> (chain l ++ xs)) ++ rest ++ out).
  - rewrite fmap_app. solve_Permutation.
  - rewrite Hp, fmap_app. solve_Permutation.
Qed.

Lemma list_exists tc i : tc_ok tc -> (i < Z.to_nat kNumSizeClasses)%nat -> exists l, tc !! i = Some l.
Proof. intros H Hi. apply lookup_lt_is_Some_2. by rewrite (to_len _ H). Qed.

Lemma FetchFromCentralCache_spec c l i out : (i < Z.to_nat kNumSizeClasses)%nat -> list_ok i l -> chain l = [] ->
  central_inv big c out ->
  (exists msg, FetchFromCentralCache c l (CalculateSize (Z.of_nat i)) = Panic msg /\ fetch_abort c msg) \/
  exists p l' c', FetchFromCentralCache c l (CalculateSize (Z.of_nat i)) = Ret (Some p, l', c') /\ list_ok i l' /\
    central_inv big c' ((pair i <$> chain l') ++ (i, p) :: out).
Proof.
  intros Hi Hok Hnil H. destruct (batch_of_spec i Hi) as [Hb Hbr]. unfold FetchFromCentralCache. rewrite Hb.
  cbn [mbind res_mbind res_bind]. set (n := Z.min (batch_of i) (max_size l)). destruct Hok as [Hs Hm Ho _].
  assert (1 <= n <= kMaxBatchSize) as Hn by lia.
  destruct (GetInstance_spec big c out H) as [[-> Ha]|(c0 & -> & H0 & Hne & Ht)]; cbn [mbind res_mbind res_bind]; [left; by eauto|].
  destruct (FetchRange_spec big c0 l i n out Hi Hn H0 Hne) as [(msg & -> & Ha)|(ps & c' & -> & Hlen & H')];
    cbn [mbind res_mbind res_bind]; [left; exists msg; split; [done|by eapply fetch_abort_later]|]. right.
  rewrite (proj2 (Z.eqb_neq n 0)) by lia. destruct ps as [|p ps]; [unfold zlen in Hlen; simpl in Hlen; lia|].
  set (l1 := fl_push_range l (p :: ps) n). assert (chain l1 = p :: ps /\ fl_size l1 = n /\ max_size l1 = max_size l) as (C1 & S1 & M1).
  { unfold l1, fl_push_range. rewrite (proj2 (Z.eqb_neq n 0)), Hs, Hnil by lia. cbn [chain fl_size max_size]. rewrite app_nil_r.
    change kMaxBatchSize with 512 in *. split; [done|]. split; [|done]. apply u32_small. unfold zlen. simpl. lia. }
  destruct (grow_quota_ok i Hi l1) as (C2 & S2 & M2); [lia|]. set (l2 := set_overages (grow_quota l1 (batch_of i)) 0).
  destruct (pop_ok i Hi l2 p ps) as (l3 & E & C3 & Hok3).
  { constructor; unfold l2; cbn [set_overages chain fl_size max_size overages].
    - rewrite S2, C2, S1, C1. done.
    - lia.
    - change (u32 0) with 0. lia.
    - change (if u32 0 =? 0 then 1 else 0) with 1. lia. }
  { unfold l2. simpl. by rewrite C2. }
  fold l2. rewrite E. exists p, l3, c'. split; [done|]. split; [done|]. rewrite C3.
  eapply central_inv_perm; [exact H'|]. simpl. by rewrite Permutation_middle.
Qed.

Lemma Allocate_spec c tc i out : (i < Z.to_nat kNumSizeClasses)%nat -> tc_ok tc -> central_inv big c (held tc ++ out) ->
  (exists msg, Allocate c tc (CalculateSize (Z.of_nat i)) = Panic msg /\ fetch_abort c msg) \/
  exists p tc' c', Allocate c tc (CalculateSize (Z.of_nat i)) = Ret (Some p, tc', c') /\ tc_ok tc' /\
    central_inv big c' (held tc' ++ (i, p) :: out).
Proof.
  intros Hi Hok H. pose proof (class_size i Hi) as Hsz. unfold Allocate.
  rewrite (proj2 (Z.ltb_lt 0 _)), (proj2 (Z.leb_le _ SizeConfig.MAX_TC_SIZE)) by lia. cbn [am_check mbind res_mbind res_bind].
  rewrite RoundUp_ret, index_of_size by lia. cbn [mbind res_mbind res_bind]. rewrite Z.eqb_refl. cbn [am_check mbind res_mbind res_bind].
  rewrite (class_index i Hi). cbn [mbind res_mbind res_bind]. rewrite Nat2Z.id.
  destruct (list_exists tc i Hok Hi) as [l Hl]. rewrite (proj2 (vec_at_ret _ _ _) Hl). cbn [mbind res_mbind res_bind].
  pose proof (to_list _ Hok i l Hl) as Hlo. destruct (chain l) as [|p rest] eqn:E.
  - destruct (FetchFromCentralCache_spec c l i (held tc ++ out) Hi Hlo E H) as [(msg & -> & Ha)|(p & l' & c' & -> & Hlo' & H')];
      cbn [mbind res_mbind res_bind]; [left; by eauto|]. right. exists p, (<[i := l']> tc), c'.
    split; [done|]. split; [by apply tc_put_ok|]. eapply (held_move c' tc i l l' (chain l' ++ [p]) [p] out); [|done|by rewrite E].
    eapply central_inv_perm; [exact H'|]. rewrite fmap_app. simpl. solve_Permutation.
  - right. destruct (pop_ok i Hi l p rest Hlo E) as (l' & -> & E' & Hlo'). exists p, (<[i := l']> tc), c. split; [done|].
    split; [by apply tc_put_ok|]. apply (held_move c tc i l l' [] [p] out H Hl). rewrite E, E', app_nil_r. apply Permutation_cons_append.
Qed.

(** Every object has a proper address. *)
Lemma object_pos c objs i p : central_wf big c objs -> (i, p) ∈ objs -> 0 < p.
Proof.
  intros H Hin. destruct (span_of_object big _ _ _ _ H (co_out _ _ _ H _ _ Hin)) as (s & sp & bm & j & Hs & Hj & -> & _).
  destruct (class_span_ok big _ _ _ _ _ _ H Hs) as (_ & HW & _ & Hc & _). pose proof (object_addr_range sp bm j HW Hj).
  destruct HW. unfold SystemConfig.PAGE_SIZE in *. lia.
Qed.

Lemma Deallocate_spec c tc i p out : (i < Z.to_nat kNumSizeClasses)%nat -> tc_ok tc ->
  central_inv big c (held tc ++ (i, p) :: out) ->
  exists tc' c', Deallocate c tc p (CalculateSize (Z.of_nat i)) = Ret (tc', c') /\ tc_ok tc' /\ central_inv big c' (held tc' ++ out).
Proof.
  intros Hi Hok H. pose proof (class_size i Hi) as Hsz.
  assert (0 < p) as Hp by (eapply object_pos; [exact H|]; rewrite !elem_of_app; right; right; left).
  unfold Deallocate. rewrite (proj2 (Z.eqb_neq p 0)), (proj2 (Z.leb_le _ SizeConfig.MAX_TC_SIZE)) by lia.
  cbn [negb am_check mbind res_mbind res_bind]. rewrite (class_index i Hi). cbn [mbind res_mbind res_bind]. rewrite Nat2Z.id.
  destruct (list_exists tc i Hok Hi) as [l Hl]. rewrite (proj2 (vec_at_ret _ _ _) Hl). cbn [mbind res_mbind res_bind].
  pose proof (to_list _ Hok i l Hl) as Hlo. pose proof (list_bound i Hi l Hlo) as HB. destruct Hlo as [Hs Hm Ho Hq].
  set (l1 := fl_push l p). assert (chain l1 = p :: chain l /\ fl_size l1 = fl_size l + 1 /\ max_size l1 = max_size l /\ overages l1 = overages l)
    as (C1 & S1 & M1 & O1).
  { unfold l1, fl_push. rewrite (proj2 (Z.eqb_neq p 0)) by lia. cbn [chain fl_size max_size overages]. rewrite u32_small by lia. done. }
  rewrite M1, S1. destruct (Z.ltb_spec (max_size l) (fl_size l + 1)) as [Hover|Hle].
  - unfold DeallocateSlowPath. destruct (batch_of_spec i Hi) as [Hb Hbr]. rewrite Hb. cbn [mbind res_mbind res_bind].
    assert (zlen (chain l1) = fl_size l + 1) as Z1 by (rewrite C1, Hs; unfold zlen; simpl; lia).
    destruct (pop_chain_spec (Z.to_nat (batch_of i)) l1 []) as (l2 & -> & C2 & S2 & M2 & O2); [congruence|lia|]. rewrite app_nil_r.
    set (ps := take (Z.to_nat (batch_of i)) (chain l1)) in *.
    destruct (decay_quota_ok i Hi l2) as [Hlo2 C3]; [done|lia|lia| |].
    { rewrite S2, M2, O2, C2, M1, O1. unfold zlen in Z1 |- *. rewrite length_drop. destruct (overages l =? 0); lia. }
    set (tc' := <[i := decay_quota l2 (batch_of i)]> tc).
    assert (central_inv big c ((pair i <$> reverse ps) ++ held tc' ++ out)) as H1.
    { eapply central_inv_perm; [eapply (held_move c tc i l (decay_quota l2 (batch_of i)) [p] (reverse ps) out H Hl)|solve_Permutation].
      rewrite C3, C2, reverse_Permutation, (Permutation_app_comm (drop _ _)). unfold ps. rewrite take_drop, C1. symmetry. apply Permutation_cons_append. }
    assert (exists c', match reverse ps with [] => Ret c | _ => c ← GetInstance c; ReleaseListToSpans c (reverse ps) (CalculateSize (Z.of_nat i)) end = Ret c' /\
      central_inv big c' (held tc' ++ out)) as (c' & -> & H').
    { destruct (reverse ps) as [|q qs] eqn:E; [by exists c|]. rewrite (GetInstance_built big c i q _ H1) by left. by apply ReleaseListToSpans_spec. }
    cbn [mbind res_mbind res_bind]. eexists _, c'. split; [done|]. split; [by apply tc_put_ok|done].
  - cbn [mbind res_mbind res_bind]. eexists _, c. split; [done|]. split.
    + apply tc_put_ok; [done|]. constructor; rewrite ?S1, ?M1, ?O1, ?C1; try done; [|destruct (overages l =? 0); lia].
      rewrite Hs. unfold zlen. simpl. lia.
    + apply (held_move c tc i l l1 [p] [] out H Hl). rewrite C1, app_nil_r. symmetry. apply Permutation_cons_append.
Qed.

(** Class [i] has no objects. *)
Definition emptied (tc : ThreadCache) (i : nat) : Prop := forall l, tc !! i = Some l -> chain l = [].

Lemma release_class_spec c tc i out : (i < Z.to_nat kNumSizeClasses)%nat -> tc_ok tc -> central_inv big c (held tc ++ out) ->
  exists tc' c', release_class (tc, c) (Z.of_nat i) = Ret (tc', c') /\ tc_ok tc' /\ central_inv big c' (held tc' ++ out) /\
  emptied tc' i /\ forall j, emptied tc j -> emptied tc' j.
Proof.
  intros Hi Hok H. unfold release_class. rewrite Nat2Z.id. destruct (list_exists tc i Hok Hi) as [l Hl].
  rewrite (proj2 (vec_at_ret _ _ _) Hl). cbn [mbind res_mbind res_bind]. destruct (chain l) as [|p rest] eqn:E.
  { exists tc, c. split_and!; try done. intros l' Hl'. by simplify_eq. }
  rewrite Size_ret by (unfold kNumSizeClasses in *; lia). cbn [mbind res_mbind res_bind]. pose proof (to_list _ Hok i l Hl) as Hlo.
  pose proof (list_bound i Hi l Hlo) as HB. destruct (pop_chain_spec (Z.to_nat (fl_size l)) l []) as (l' & -> & C & S' & _ & _).
  { apply Hlo. } { rewrite <- (lo_size _ _ Hlo). lia. }
  assert (Z.to_nat (fl_size l) = length (chain l)) as En by (rewrite (lo_size _ _ Hlo); unfold zlen; lia).
  rewrite En, drop_all in C. rewrite En, firstn_all, app_nil_r. set (tc' := <[i := set_overages (set_max_size l' 1) 0]> tc).
  assert (central_inv big c ((pair i <$> reverse (chain l)) ++ held tc' ++ out)) as H1.
  { eapply central_inv_perm; [eapply (held_move c tc i l (set_overages (set_max_size l' 1) 0) [] (reverse (chain l)) out H Hl)|solve_Permutation].
    simpl. rewrite C, app_nil_r, reverse_Permutation. done. }
  rewrite (GetInstance_built big c i p _ H1) by (rewrite E, elem_of_app, list_elem_of_fmap; left; exists p; split; [done|]; apply elem_of_reverse; left).
  cbn [mbind res_mbind res_bind]. destruct (ReleaseListToSpans_spec big c i (reverse (chain l)) (held tc' ++ out) Hi H1) as (c' & -> & H').
  cbn [mbind res_mbind res_bind]. exists tc', c'. split; [done|]. split.
  { apply tc_put_ok; [done|]. destruct (batch_of_spec i Hi) as [_ Hb].
    constructor; cbn [set_overages set_max_size chain fl_size max_size overages]; [done|change (u32 1) with 1; lia|change (u32 0) with 0; lia|].
    rewrite S', C. change (u32 1) with 1. change (zlen []) with 0. destruct (u32 0 =? 0); lia. }
  split; [done|]. split.
  - intros l2 Hl2. unfold tc' in Hl2. apply list_lookup_insert_Some in Hl2 as [(_ & <- & _)|[? _]]; [exact C|done].
  - intros j Hj l2 Hl2. unfold tc' in Hl2. apply list_lookup_insert_Some in Hl2 as [(_ & <- & _)|[_ ?]]; [exact C|by apply Hj].
Qed.

Lemma release_classes_spec l : forall c tc out, (forall i, i ∈ l -> (i < Z.to_nat kNumSizeClasses)%nat) -> tc_ok tc ->
  central_inv big c (held tc ++ out) -> exists tc' c', res_foldl release_class (tc, c) (Z.of_nat <$> l) = Ret (tc', c') /\
  tc_ok tc' /\ central_inv big c' (held tc' ++ out) /\ (forall i, i ∈ l -> emptied tc' i) /\ forall j, emptied tc j -> emptied tc' j.
Proof.
  induction l as [|i l IH]; intros c tc out Hl Hok H.
  { exists tc, c. split_and!; try done. intros i Hi. by apply not_elem_of_nil in Hi. }
  cbn [fmap list_fmap res_foldl].
  destruct (release_class_spec c tc i out) as (tc1 & c1 & -> & Hok1 & H1 & He1 & Hk1); [apply Hl; by left|done|done|].
  cbn [mbind res_mbind res_bind]. destruct (IH c1 tc1 out) as (tc2 & c2 & -> & Hok2 & H2 & He2 & Hk2); [|done|done|].
  { intros j Hj. apply Hl. by right. }
  exists tc2, c2. split_and!; try done; [|auto]. intros j [->|Hj]%elem_of_cons; auto.
Qed.

Lemma emptied_held tc : (forall i, emptied tc i) -> held tc = [].
Proof.
  intros H. unfold held, cached_in. assert (forall g : nat -> list Z -> list (nat * Z), (forall i, g i [] = []) ->
    concat (imap g (chain <$> tc)) = []) as HG; [|by apply HG].
  induction tc as [|l tc IH]; intros g Hg; [done|]. rewrite fmap_cons, imap_cons. simpl.
  rewrite (H O l eq_refl), Hg. simpl. apply IH; [|intros; apply Hg]. intros i l' Hl'. by apply (H (S i)).
Qed.

Lemma ReleaseAll_spec c tc out : tc_ok tc -> central_inv big c (held tc ++ out) ->
  exists tc' c', ReleaseAll c tc = Ret (tc', c') /\ central_inv big c' out.
Proof.
  intros Hok H. unfold ReleaseAll. change (seqZ 0 kNumSizeClasses) with (Z.of_nat <$> seq 0 (Z.to_nat kNumSizeClasses)).
  destruct (release_classes_spec (seq 0 (Z.to_nat kNumSizeClasses)) c tc out) as (tc' & c' & -> & Hok' & H' & He & _); [|done|done|].
  { intros i Hi. apply elem_of_seq in Hi. lia. }
  exists tc', c'. split; [done|]. rewrite emptied_held in H'; [exact H'|]. intros i. destruct (decide (i < Z.to_nat kNumSizeClasses)%nat) as [Hi|Hi].
  - apply He, elem_of_seq. lia.
  - intros l Hl. apply lookup_lt_Some in Hl. rewrite (to_len _ Hok') in Hl. lia.
Qed.
End Specs.
