(* ===== verification/Allocator.v ===== *)
(** * Allocator: any number of threads over one heap

    The guarantees of [am_malloc] and [am_free] ([ammalloc/src/ammalloc.cpp]) to the
    program that links them, from the page heap to the thread caches: whatever calls the
    threads make and in whatever order, the blocks they hold never overlap. *)
From S2P Require Import Prelude SizeClasses SpanAlloc PageMap PageCache CentralCache ThreadCache.
Import PageConfig SizeClass.

(** ** One call *)

(** The thread needs a cache and the system refuses it. *)
Definition no_cache_yet (t : Thread) (mapped : bool) : Prop := tls t = None /\ destructed t = false /\ mapped = false.
Definition thread_ok (t : Thread) : Prop := forall tc, tls t = Some tc -> tc_ok tc.
Definition objs_of (t : Thread) : list (nat * Z) := match tls t with Some tc => held tc | None => [] end.

(** Pages of a large request. *)
Definition large_pages (n : Z) : Z := Z.shiftr (AlignUp n SystemConfig.PAGE_SIZE) SystemConfig.PAGE_SHIFT.

Lemma large_pages_spec n : 0 < n <= UINT64_MAX ->
  (n <= large_pages n * SystemConfig.PAGE_SIZE < n + SystemConfig.PAGE_SIZE \/ (large_pages n = 0 /\ UINT64_MAX - 4095 < n)) /\
  0 <= large_pages n.
Proof.
  intros Hn. unfold large_pages, AlignUp, SystemConfig.PAGE_SIZE, SystemConfig.PAGE_SHIFT, UINT64_MAX in *.
  rewrite (proj2 (Z.eqb_neq n 0)) by lia. change (has_single_bit 4096) with true. cbn iota. change (4096 - 1) with (Z.ones 12).
  rewrite <- Z.ldiff_land, Z.ldiff_ones_r, Z.shiftr_shiftl_l, Z.sub_diag, Z.shiftl_0_r by lia.
  rewrite Z.shiftr_div_pow2 by lia. change (2 ^ 12) with 4096. unfold u64, wrap. change (2 ^ 64) with 18446744073709551616.
  destruct (Z.le_gt_cases (n + 4096 - 1) 18446744073709551615).
  - rewrite Z.mod_small by lia. pose proof (Z.div_mod (n + 4096 - 1) 4096). pose proof (Z.mod_pos_bound (n + 4096 - 1) 4096). lia.
  - replace (n + 4096 - 1) with (n + 4096 - 1 - 18446744073709551616 + 1 * 18446744073709551616) by lia.
    rewrite Z.mod_add, Z.mod_small, Z.div_small by lia. lia.
Qed.

Section Calls.
Context {OS : OperatingSystem} (big : gmap SpanPtr Span).

(** Large blocks: a span of their own. *)
Lemma malloc_large_spec c n out : SizeConfig.MAX_TC_SIZE < n <= UINT64_MAX -> central_inv big c out ->
  (malloc_large c n = Panic no_nodes /\ unregistered c (large_pages n)) \/
  exists r c', malloc_large c n = Ret (r, c') /\
  match r with
  | None => central_inv big c' out /\ (UINT32_MAX * SystemConfig.PAGE_SIZE < n \/ refused c (large_pages n))
  | Some p => exists s sp, central_inv (<[s := sp]> big) c' out /\ big !! s = None /\
      p = start_page_idx sp * SystemConfig.PAGE_SIZE /\ n <= page_num sp * SystemConfig.PAGE_SIZE
  end.
Proof.
  intros Hn H. unfold SizeConfig.MAX_TC_SIZE in Hn. destruct (large_pages_spec n ltac:(lia)) as [Hp Hp0].
  unfold malloc_large. fold (large_pages n). destruct (page_alloc_spec big c _ (large_pages n) H Hp0) as [[-> Hu]|(r & c1 & -> & _ & Eb & Em & Hok & HRO & Hres)];
    cbn [mbind res_mbind res_bind]; [by left|right].
  assert (transfers c1 = transfers c) as Et by (unfold transfers; by rewrite Eb).
  destruct r as [s|].
  - destruct Hres as [[_ (sp & Es & Ep & Hu) Hnew Hsame _] (sp' & Es' & Hz)]. simplify_eq.
    unfold span_at. rewrite Es. cbn [mbind res_mbind res_bind]. pose proof (hi_ok _ _ _ Hok s sp Es) as Hsp.
    assert (big !! s = None) as Hsm.
    { destruct (big !! s) as [tp|] eqn:E; [|done]. destruct (co_big _ _ _ H s tp E) as (E0 & Hut & _). rewrite (Hnew tp E0) in Hut. done. }
    eexists _, _. split; [done|]. exists s, sp. split; [|split; [done|]].
    + unfold central_inv. rewrite Et. eapply (central_frame big c); [exact H|done|done|by eapply reset_or_old_clean, H| |].
      * intros i t tp tm Ht. destruct (class_span_ok big _ _ _ _ _ _ H Ht) as (Hut & _). split; [|rewrite Em; apply Ht].
        apply (Hsame t tp); [|done|apply Ht]. intros [= <-]. rewrite (Hnew tp (cs_span _ _ _ _ _ Ht)) in Hut. done.
      * intros t tp [[<- <-]|[Hne Ht]]%lookup_insert_Some; [done|]. destruct (co_big _ _ _ H t tp Ht) as (E0 & Hut & Hz').
        split; [|done]. apply (Hsame t tp); [congruence|done|done].
    + destruct Hsp as [Ho1 Ho2 Ho3 _ _ _]. change max_page with (2 ^ 36) in Ho3. split.
      * unfold GetPageBaseAddr, SystemConfig.PAGE_SIZE, SystemConfig.PAGE_SHIFT. rewrite Z.shiftl_mul_pow2 by lia.
        change (2 ^ 12) with 4096. apply wrap_small. unfold in_u. lia.
      * rewrite Ep. destruct Hp as [?|[? _]]; [lia|lia].
  - eexists _, _. split; [done|]. destruct Hres as [Hsame Hwhy]. split.
    + unfold central_inv. rewrite Et. eapply (central_frame big c); [exact H|done|done|by eapply reset_or_old_clean, H| |].
      * intros i t tp tm Ht. destruct (class_span_ok big _ _ _ _ _ _ H Ht) as (Hut & _). split; [|rewrite Em; apply Ht].
        apply (Hsame t tp); [done|done|apply Ht].
      * intros t tp Ht. destruct (co_big _ _ _ H t tp Ht) as (E0 & Hut & Hz'). split; [|done]. by apply (Hsame t tp).
    + unfold SystemConfig.PAGE_SIZE, UINT64_MAX, UINT32_MAX in *. destruct Hwhy as [?|[?|?]]; [left; lia|left; lia|by right].
Qed.

Lemma free_large_spec c s sp out : central_inv big c out -> big !! s = Some sp ->
  exists c', page_release c s = Ret c' /\ central_inv (delete s big) c' out.
Proof.
  intros H Hs. destruct (co_big _ _ _ H s sp Hs) as (Es & Hu & _). unfold page_release.
  destruct (ReleaseSpan_outcome (answers (tick c) (shard c) 0).1 (shard c) s sp (co_heap _ _ _ H) Es Hu) as (st & E & HR).
  rewrite E. cbn [mbind res_mbind res_bind]. eexists. split; [done|]. unfold central_inv.
  eapply (central_frame big c); [exact H|done|apply HR| | |].
  - eapply reset_or_old_clean, H. by eapply ReleaseSpan_clean.
  - intros i t tp tm Ht. destruct (class_span_ok big _ _ _ _ _ _ H Ht) as (Hut & _).
    assert (t <> s) as Hne by (intros ->; by rewrite (class_span_small big _ _ _ _ _ _ H Ht) in Hs).
    split; [apply (rl_used _ _ _ _ HR t tp); [congruence|done|apply Ht]|]. simpl. rewrite lookup_delete_ne by done. apply Ht.
  - intros t tp [Hne Ht]%lookup_delete_Some. destruct (co_big _ _ _ H t tp Ht) as (E0 & Hut & Hz). split; [|done].
    apply (rl_used _ _ _ _ HR t tp); [congruence|done|done].
Qed.

Lemma with_cache_ok t tc : tc_ok tc -> thread_ok (mkThread (Some tc) t).
Proof. intros H tc' [= <-]. exact H. Qed.

(** A small block from the cache of a thread that has one. *)
Lemma allocate_small_spec c tc n out : 0 <= n <= SizeConfig.MAX_TC_SIZE -> tc_ok tc -> central_inv big c (held tc ++ out) ->
  (exists msg, (size ← RoundUp n; Allocate c tc size) = Panic msg /\ fetch_abort c msg) \/
  exists p tc' c' i, (size ← RoundUp n; Allocate c tc size) = Ret (Some p, tc', c') /\ tc_ok tc' /\
    (i < Z.to_nat kNumSizeClasses)%nat /\ n <= CalculateSize (Z.of_nat i) /\ central_inv big c' (held tc' ++ (i, p) :: out).
Proof.
  intros Hn Hok H. rewrite RoundUp_ret by done. cbn [mbind res_mbind res_bind]. pose proof (CalculateIndex_range n Hn) as Hi.
  rewrite <- (Z2Nat.id (CalculateIndex n)) by lia. set (i := Z.to_nat (CalculateIndex n)).
  assert (i < Z.to_nat kNumSizeClasses)%nat as Hin by (unfold i; lia).
  destruct (Allocate_spec big c tc i out Hin Hok H) as [?|(p & tc' & c' & E & Hok' & H')]; [by left|]. right.
  exists p, tc', c', i. split_and!; try done. apply index_le_iff; [lia|lia|]. unfold i. lia.
Qed.

(** The outcome of [am_malloc]. *)
Definition malloc_result (c : Central) (t : Thread) (n : Z) (out : list (nat * Z)) (r : option Z) (t' : Thread) (c' : Central) : Prop :=
  match r with
  | None => central_inv big c' (objs_of t' ++ out) /\
      ((SizeConfig.MAX_TC_SIZE < n /\ (UINT32_MAX * SystemConfig.PAGE_SIZE < n \/ refused c (large_pages n))) \/
       (n <= SizeConfig.MAX_TC_SIZE /\ tls t = None /\ destructed t = true))
  | Some p =>
      (exists i, (i < Z.to_nat kNumSizeClasses)%nat /\ n <= CalculateSize (Z.of_nat i) /\ central_inv big c' (objs_of t' ++ (i, p) :: out)) \/
      (exists s sp, central_inv (<[s := sp]> big) c' (objs_of t' ++ out) /\ big !! s = None /\
        p = start_page_idx sp * SystemConfig.PAGE_SIZE /\ n <= page_num sp * SystemConfig.PAGE_SIZE)
  end.

(** The ways [am_malloc] ends without a result, each after a refusal of the system. For
    small blocks they end the process: objects cannot be fetched ([fetch_abort]), or the
    thread has no cache and the system refuses it the pages for one. For a large block
    whose pages cannot be registered [std::bad_alloc] leaves [am_malloc]. *)
Definition malloc_abort (c : Central) (t : Thread) (mapped : bool) (n : Z) (msg : string) : Prop :=
  (n <= SizeConfig.MAX_TC_SIZE /\ (fetch_abort c msg \/ (msg = no_cache /\ no_cache_yet t mapped))) \/
  (SizeConfig.MAX_TC_SIZE < n /\ msg = no_nodes /\ unregistered c (large_pages n)).

Lemma am_malloc_spec c t mapped n out : 0 <= n <= UINT64_MAX -> thread_ok t -> central_inv big c (objs_of t ++ out) ->
  (exists msg, am_malloc c t mapped n = Panic msg /\ malloc_abort c t mapped n msg) \/
  exists r t' c', am_malloc c t mapped n = Ret (r, t', c') /\ thread_ok t' /\ destructed t' = destructed t /\
    malloc_result c t n out r t' c'.
Proof.
  intros Hn Hok H.
  assert (forall tc, tc_ok tc -> central_inv big c (held tc ++ out) -> n <= SizeConfig.MAX_TC_SIZE ->
    let m := size ← RoundUp n; '(r, tc, c) ← Allocate c tc size; Ret (r, mkThread (Some tc) (destructed t), c) in
    (exists msg, m = Panic msg /\ malloc_abort c t mapped n msg) \/
    exists r t' c', m = Ret (r, t', c') /\ thread_ok t' /\ destructed t' = destructed t /\ malloc_result c t n out r t' c') as Hsmall.
  { intros tc Htc Hc Hle m. destruct (allocate_small_spec c tc n out ltac:(lia) Htc Hc) as [(msg & E & Ha)|(p & tc' & c' & i & E & Hok' & Hi & Hni & H')].
    - left. exists msg. split; [|left; split; [done|by left]]. unfold m. rewrite RoundUp_ret in E |- * by lia. cbn [mbind res_mbind res_bind] in *. by rewrite E.
    - right. unfold m. rewrite RoundUp_ret in E |- * by lia. cbn [mbind res_mbind res_bind] in *. rewrite E.
      eexists _, _, _. split; [done|]. split; [by apply with_cache_ok|]. split; [done|]. left. by exists i. }
  unfold am_malloc, am_malloc_slow_path. destruct (Z.ltb_spec SizeConfig.MAX_TC_SIZE n) as [Hlt|Hle].
  - destruct (malloc_large_spec c n (objs_of t ++ out) ltac:(lia) H) as [[E Hu]|(r & c' & E & Hr)].
    { left. exists no_nodes. split; [by destruct (tls t); rewrite E|by right]. }
    right. exists r, t, c'. split; [by destruct (tls t); rewrite E|]. split; [done|]. split; [done|]. destruct r as [p|]; [by right|].
    destruct Hr as [? ?]. split; [done|]. left. done.
  - unfold CreateThreadCache, objs_of, thread_ok in *. destruct (tls t) as [tc|] eqn:Et; [by apply Hsmall; auto|].
    destruct (destructed t) eqn:Ed.
    + right. cbn [mbind res_mbind res_bind]. exists None, t, c. split; [done|]. split; [intros tc'; congruence|]. split; [done|].
      split; [by unfold objs_of; rewrite Et|]. right. done.
    + destruct mapped; cbn [am_check mbind res_mbind res_bind]; [|left; eexists; split; [done|left; by split; [|right]]].
      apply (Hsmall new_thread_cache); [apply new_thread_cache_ok|by rewrite new_held|lia].
Qed.

(** Freeing a small block: every check passes. *)
Lemma am_free_small_spec c t mapped i p out : (i < Z.to_nat kNumSizeClasses)%nat -> thread_ok t ->
  central_inv big c (objs_of t ++ (i, p) :: out) ->
  (am_free c t mapped p = Panic no_cache /\ no_cache_yet t mapped) \/
  exists t' c', am_free c t mapped p = Ret (t', c') /\ thread_ok t' /\ destructed t' = destructed t /\ central_inv big c' (objs_of t' ++ out).
Proof.
  intros Hi Hok H. assert ((i, p) ∈ cached_in (transfers c) ++ objs_of t ++ (i, p) :: out) as Hin by (rewrite !elem_of_app; right; right; left).
  pose proof (object_pos big _ _ _ _ H Hin) as Hp. pose proof (class_size i Hi) as Hsz. unfold am_free. rewrite (proj2 (Z.eqb_neq p 0)) by lia.
  destruct (span_of_object big _ _ _ _ H (co_out _ _ _ H _ _ Hin)) as (s & sp & bm & j & Hs & _ & _ & _ & ->).
  destruct (class_span_ok big _ _ _ _ _ _ H Hs) as (_ & _ & Ez & _). unfold span_at. rewrite (cs_span _ _ _ _ _ Hs).
  cbn [mbind res_mbind res_bind]. rewrite Ez. unfold am_free_slow_path. rewrite (proj2 (Z.eqb_neq _ 0)) by lia.
  assert (forall tc, tc_ok tc -> central_inv big c (held tc ++ (i, p) :: out) -> exists t' c',
    ('(tc, c) ← Deallocate c tc p (CalculateSize (Z.of_nat i)); Ret (mkThread (Some tc) (destructed t), c)) = Ret (t', c') /\
    thread_ok t' /\ destructed t' = destructed t /\ central_inv big c' (objs_of t' ++ out)) as HD.
  { intros tc Htc Hc. destruct (Deallocate_spec big c tc i p out Hi Htc Hc) as (tc' & c' & -> & Hok' & H'). cbn [mbind res_mbind res_bind].
    eexists _, _. split; [done|]. split; [by apply with_cache_ok|]. done. }
  unfold CreateThreadCache, objs_of, thread_ok in *. destruct (tls t) as [tc|] eqn:Et; [right; by apply HD; auto|].
  destruct (destructed t) eqn:Ed; cbn [mbind res_mbind res_bind].
  - right. rewrite (GetInstance_built big c i p _ H) by left. cbn [mbind res_mbind res_bind].
    destruct (ReleaseListToSpans_spec big c i [p] out Hi H) as (c' & -> & H'). cbn [mbind res_mbind res_bind].
    exists t, c'. split; [done|]. split; [intros tc'; congruence|]. split; [done|]. by rewrite Et.
  - destruct mapped; cbn [am_check mbind res_mbind res_bind]; [|by left]. right.
    apply (HD new_thread_cache); [apply new_thread_cache_ok|by rewrite new_held].
Qed.

(** Freeing a large block. *)
Lemma am_free_large_spec c t mapped s sp out : central_inv big c (objs_of t ++ out) -> big !! s = Some sp ->
  exists c', am_free c t mapped (start_page_idx sp * SystemConfig.PAGE_SIZE) = Ret (t, c') /\
  (central_inv big c' (objs_of t ++ out) \/ central_inv (delete s big) c' (objs_of t ++ out)).
Proof.
  intros H Hs. destruct (co_big _ _ _ H s sp Hs) as (Es & Hu & Ez). pose proof (hi_ok _ _ _ (co_heap _ _ _ H) s sp Es) as Hok.
  unfold am_free. destruct (Z.eqb_spec (start_page_idx sp * SystemConfig.PAGE_SIZE) 0); [exists c; split; [done|by left]|].
  assert (GetSpan_ptr (page_map (shard c)) (start_page_idx sp * SystemConfig.PAGE_SIZE) = Some s) as ->.
  { unfold GetSpan_ptr. rewrite Z.shiftr_div_pow2 by (unfold SystemConfig.PAGE_SHIFT; lia).
    change (2 ^ SystemConfig.PAGE_SHIFT) with SystemConfig.PAGE_SIZE. rewrite Z.div_mul by (unfold SystemConfig.PAGE_SIZE; lia).
    apply (hi_map _ _ _ (co_heap _ _ _ H)); [destruct Hok; lia|set_solver|]. exists sp. split; [done|]. unfold in_span. destruct Hok. lia. }
  unfold span_at. rewrite Es. cbn [mbind res_mbind res_bind]. rewrite Ez. cbn [Z.eqb]. unfold am_free_slow_path. cbn [Z.eqb].
  destruct (free_large_spec c s sp _ H Hs) as (c' & -> & H'). exists c'. cbn [mbind res_mbind res_bind].
  split; [by destruct (tls t)|by right].
Qed.

Lemma thread_exit_spec c t out : thread_ok t -> central_inv big c (objs_of t ++ out) ->
  exists c', thread_exit c t = Ret (mkThread None true, c') /\ central_inv big c' out.
Proof.
  intros Hok H. unfold thread_exit, objs_of, thread_ok in *. destruct (tls t) as [tc|]; [|by exists c].
  destruct (ReleaseAll_spec big c tc out (Hok tc eq_refl) H) as (tc' & c' & -> & H'). by exists c'.
Qed.
End Calls.

(** ** The world *)

(** The heap, the threads, and the blocks (address and requested size) the program holds. *)
Record World := mkWorld { heap : Central; threads : list Thread; live : list (Z * Z) }.

(** Calls by thread [k]; [mapped]: pages for a thread cache can be had, should one be
    created. *)
Inductive Call :=
| Malloc (k : nat) (mapped : bool) (size : Z)
| Free (k : nat) (mapped : bool) (ptr : Z)
| Exit (k : nat).

Section World.
Context {OS : OperatingSystem}.

Definition run (w : World) (call : Call) : Res (option Z * World) :=
  match call with
  | Malloc k mapped n =>
      t ← vec_at (threads w) k;
      '(r, t, c) ← am_malloc (heap w) t mapped n;
      Ret (r, mkWorld c (<[k := t]> (threads w))
        (match r with Some p => if p =? 0 then live w else (p, n) :: live w | None => live w end))
  | Free k mapped p =>
      t ← vec_at (threads w) k;
      '(t, c) ← am_free (heap w) t mapped p;
      Ret (None, mkWorld c (<[k := t]> (threads w)) (filter (fun b => b.1 <> p) (live w)))
  | Exit k =>
      t ← vec_at (threads w) k;
      '(t, c) ← thread_exit (heap w) t;
      Ret (None, mkWorld c (<[k := t]> (threads w)) (live w))
  end.

(** What the program must respect: it frees only what it holds, or null. *)
Definition legal (w : World) (call : Call) : Prop :=
  match call with
  | Malloc k _ n => (k < length (threads w))%nat /\ 0 <= n <= UINT64_MAX
  | Free k _ p => (k < length (threads w))%nat /\ (p = 0 \/ p ∈ (live w).*1)
  | Exit k => (k < length (threads w))%nat
  end.

(** [n] threads before their first call: an empty heap and no central cache yet. *)
Definition boot (n : nat) : World := mkWorld (mkCentral new_shard ∅ [] 0) (replicate n new_thread) [].

Definition world_step (w w' : World) : Prop := exists call r, legal w call /\ run w call = Ret (r, w').
Definition runs_to (n : nat) (w : World) : Prop := rtc world_step (boot n) w.
End World.

(** ** Lemmas: where blocks are *)

(** A block of [size] bytes at [p] in span [s]. *)
Inductive placed (big : gmap SpanPtr Span) (c : Central) (p size : Z) (s : SpanPtr) (sp : Span) : Prop :=
| placed_small i bm j : class_span c i s sp bm -> 0 <= j < capacity sp -> p = object_addr sp j ->
    size = aligned_obj_size sp -> placed big c p size s sp
| placed_large : big !! s = Some sp -> p = start_page_idx sp * SystemConfig.PAGE_SIZE ->
    size = page_num sp * SystemConfig.PAGE_SIZE -> placed big c p size s sp.

(** What the program was given: an object of [smalls] or a span of [big]. *)
Definition block (big : gmap SpanPtr Span) (smalls : list (nat * Z)) (p n : Z) : Prop :=
  (exists i, (i < Z.to_nat kNumSizeClasses)%nat /\ (i, p) ∈ smalls /\ n <= CalculateSize (Z.of_nat i)) \/
  (exists s sp, big !! s = Some sp /\ p = start_page_idx sp * SystemConfig.PAGE_SIZE /\ n <= page_num sp * SystemConfig.PAGE_SIZE).

Section Places.
Context (big : gmap SpanPtr Span) (c : Central) (objs : list (nat * Z)) (H : central_wf big c objs).

Lemma placed_in p size s sp : placed big c p size s sp -> spans (shard c) !! s = Some sp /\ span_ok sp /\ 0 < size /\
  start_page_idx sp * SystemConfig.PAGE_SIZE <= p /\ p + size <= (start_page_idx sp + page_num sp) * SystemConfig.PAGE_SIZE.
Proof.
  intros [i bm j Hs Hj -> ->|Hs -> ->].
  - destruct (class_span_ok big _ _ _ _ _ _ H Hs) as (_ & HW & _ & _ & Hok). split; [apply Hs|]. split; [done|].
    pose proof (object_addr_range sp bm j HW Hj) as HR. destruct HW. unfold zlen in HR. split; [done|]. lia.
  - destruct (co_big _ _ _ H s sp Hs) as (Es & _). pose proof (hi_ok _ _ _ (co_heap _ _ _ H) s sp Es) as Hok.
    split; [done|]. split; [done|]. destruct Hok. unfold SystemConfig.PAGE_SIZE. lia.
Qed.

Lemma spans_apart s t sp tp : spans (shard c) !! s = Some sp -> spans (shard c) !! t = Some tp -> s <> t ->
  start_page_idx sp + page_num sp <= start_page_idx tp \/ start_page_idx tp + page_num tp <= start_page_idx sp.
Proof.
  intros Hs Ht Hne. pose proof (co_heap _ _ _ H) as Hh. destruct (hi_ok _ _ _ Hh s sp Hs), (hi_ok _ _ _ Hh t tp Ht).
  assert (~ in_span tp (Z.max (start_page_idx sp) (start_page_idx tp)) \/ ~ in_span sp (Z.max (start_page_idx sp) (start_page_idx tp))) as HD.
  { destruct (decide (in_span tp (Z.max (start_page_idx sp) (start_page_idx tp)))) as [D|]; [|by left]. right. intros D'.
    apply Hne. by eapply (hi_disj _ _ _ Hh). }
  unfold in_span in HD. lia.
Qed.

(** Distinct blocks do not overlap. *)
Lemma placed_apart p size s sp q size' t tp : placed big c p size s sp -> placed big c q size' t tp -> p <> q ->
  p + size <= q \/ q + size' <= p.
Proof.
  intros Hp Hq Hne. destruct (placed_in _ _ _ _ Hp) as (Es & _ & Hs0 & Hlo & Hhi).
  destruct (placed_in _ _ _ _ Hq) as (Et & _ & Ht0 & Hlo' & Hhi'). destruct (decide (s = t)) as [<-|Hst].
  - assert (sp = tp) as <- by congruence. destruct Hp as [i bm j Hs Hj -> ->|Hs -> ->], Hq as [i' bm' j' Hs' Hj' -> ->|Hs' -> ->].
    + assert (j <> j') by congruence. unfold object_addr. destruct (class_span_ok big _ _ _ _ _ _ H Hs) as (_ & HW & _).
      pose proof (sw_size _ _ HW). nia.
    + by rewrite (class_span_small big _ _ _ _ _ _ H Hs) in Hs'.
    + by rewrite (class_span_small big _ _ _ _ _ _ H Hs') in Hs.
    + done.
  - unfold SystemConfig.PAGE_SIZE in *. destruct (spans_apart _ _ _ _ Es Et Hst); lia.
Qed.

Lemma placed_same p size s sp size' t tp : placed big c p size s sp -> placed big c p size' t tp -> s = t.
Proof.
  intros Hp Hq. destruct (placed_in _ _ _ _ Hp) as (Es & _ & Hs0 & Hlo & Hhi). destruct (placed_in _ _ _ _ Hq) as (Et & _ & Ht0 & Hlo' & Hhi').
  destruct (decide (s = t)) as [|Hst]; [done|]. unfold SystemConfig.PAGE_SIZE in *. destruct (spans_apart _ _ _ _ Es Et Hst); lia.
Qed.

Lemma object_placed i p : (i, p) ∈ objs -> exists s sp bm, class_span c i s sp bm /\
  placed big c p (CalculateSize (Z.of_nat i)) s sp.
Proof.
  intros Hin. destruct (co_out _ _ _ H i p Hin) as (s & sp & bm & j & Hs & Hj & -> & _).
  destruct (class_span_ok big _ _ _ _ _ _ H Hs) as (_ & _ & E & _). exists s, sp, bm. split; [done|]. by eapply placed_small.
Qed.

Lemma block_placed smalls p n : (forall x, x ∈ smalls -> x ∈ objs) -> block big smalls p n ->
  exists s sp size, placed big c p size s sp /\ Z.max 1 n <= size.
Proof.
  intros Hsub [(i & Hi & Hin & Hn)|(s & sp & Hs & -> & Hn)].
  - destruct (object_placed i p (Hsub _ Hin)) as (s & sp & bm & _ & Hp). exists s, sp, (CalculateSize (Z.of_nat i)).
    split; [done|]. pose proof (class_size i Hi). lia.
  - exists s, sp, (page_num sp * SystemConfig.PAGE_SIZE). assert (placed big c (start_page_idx sp * SystemConfig.PAGE_SIZE)
      (page_num sp * SystemConfig.PAGE_SIZE) s sp) as Hp by by apply placed_large.
    split; [done|]. destruct (placed_in _ _ _ _ Hp) as (_ & _ & ? & _). lia.
Qed.

(** An object and a block at its address are the same object. *)
Lemma object_block smalls i p n : (forall x, x ∈ smalls -> x ∈ objs) -> (i, p) ∈ objs -> block big smalls p n -> (i, p) ∈ smalls.
Proof.
  intros Hsub Hin Hb. destruct (object_placed i p Hin) as (s & sp & bm & Hs & Hp). destruct Hb as [(i' & _ & Hin' & _)|(t & tp & Ht & E & _)].
  - destruct (object_placed i' p (Hsub _ Hin')) as (s' & sp' & bm' & Hs' & Hp'). pose proof (placed_same _ _ _ _ _ _ _ Hp Hp') as <-.
    by rewrite (same_class big _ _ _ _ _ _ _ _ _ H Hs Hs').
  - exfalso. assert (placed big c p (page_num tp * SystemConfig.PAGE_SIZE) t tp) as Hp' by by apply placed_large.
    pose proof (placed_same _ _ _ _ _ _ _ Hp Hp') as <-. by rewrite (class_span_small big _ _ _ _ _ _ H Hs) in Ht.
Qed.
End Places.

(** ** The invariant *)

Definition cached_by (ts : list Thread) : list (nat * Z) := concat (objs_of <$> ts).

(** Every object is in one place: free in its span, in a transfer cache, in the cache of
    one thread, or with the program; every block the program holds is one of those. *)
Definition world_wf (big : gmap SpanPtr Span) (smalls : list (nat * Z)) (w : World) : Prop :=
  central_inv big (heap w) (cached_by (threads w) ++ smalls) /\ Forall thread_ok (threads w) /\
  NoDup (live w).*1 /\ forall p n, (p, n) ∈ live w -> p <> 0 /\ block big smalls p n.
Definition world_ok (w : World) : Prop := exists big smalls, world_wf big smalls w.

Lemma cached_by_put ts k t : ts !! k = Some t -> exists rest, forall t',
  cached_by ts ≡ₚ objs_of t ++ rest /\ cached_by (<[k := t']> ts) ≡ₚ objs_of t' ++ rest.
Proof.
  intros Hk. pose proof (lookup_lt_Some _ _ _ Hk) as Hlt. exists (cached_by (take k ts) ++ cached_by (drop (S k) ts)). intros t'.
  unfold cached_by. split.
  - rewrite <- (take_drop_middle ts k t Hk) at 1. rewrite fmap_app, concat_app. simpl. by rewrite Permutation_app_swap_app.
  - rewrite insert_take_drop by done. rewrite fmap_app, concat_app. simpl. by rewrite Permutation_app_swap_app.
Qed.

Lemma block_mono big big' smalls smalls' p n : (forall s sp, big !! s = Some sp -> big' !! s = Some sp) ->
  (forall x, x ∈ smalls -> x ∈ smalls') -> block big smalls p n -> block big' smalls' p n.
Proof.
  intros H1 H2 [(i & ? & ? & ?)|(s & sp & ? & ? & ?)]; [left; exists i; auto|right; exists s, sp; auto].
Qed.

Section Invariant.
Context {OS : OperatingSystem}.

(** The world seen from thread [k]. *)
Lemma thread_view big smalls w k t : world_wf big smalls w -> threads w !! k = Some t -> exists rest,
  thread_ok t /\ central_inv big (heap w) (objs_of t ++ rest ++ smalls) /\
  forall big' smalls' c' t' l', central_inv big' c' (objs_of t' ++ rest ++ smalls') -> thread_ok t' ->
    NoDup l'.*1 -> (forall p n, (p, n) ∈ l' -> p <> 0 /\ block big' smalls' p n) ->
    world_ok (mkWorld c' (<[k := t']> (threads w)) l').
Proof.
  intros (H & Ht & _) Hk. destruct (cached_by_put _ _ _ Hk) as [rest Hr]. exists rest.
  split; [by eapply (Forall_lookup_1 thread_ok)|]. split.
  { eapply central_inv_perm; [exact H|]. rewrite (proj1 (Hr t)). by rewrite app_assoc. }
  intros big' smalls' c' t' l' H' Ht' Hnd Hbl. exists big', smalls'. split; [|split; [by apply Forall_insert|done]].
  eapply central_inv_perm; [exact H'|]. simpl. rewrite (proj2 (Hr t')). by rewrite app_assoc.
Qed.

Lemma new_small_fresh big c xs ys i p smalls (l : list (Z * Z)) : central_inv big c (xs ++ ys ++ (i, p) :: smalls) ->
  (forall q n, (q, n) ∈ l -> q <> 0 /\ block big smalls q n) -> p ∉ l.*1.
Proof.
  intros H Hl [[q n] [-> Hin]]%list_elem_of_fmap. simpl in *. destruct (Hl _ _ Hin) as [_ Hb].
  assert ((i, q) ∈ smalls) as Hq.
  { eapply (object_block big c _ H smalls i q n); [| |done].
    - intros x Hx. rewrite !elem_of_app, elem_of_cons. auto.
    - rewrite !elem_of_app, elem_of_cons. auto. }
  pose proof (co_objs _ _ _ H) as Hnd. rewrite !app_assoc in Hnd. apply NoDup_app in Hnd as (_ & _ & Hnd).
  by apply NoDup_cons in Hnd as [? _].
Qed.

Lemma new_large_fresh big c xs ys s sp smalls (l : list (Z * Z)) : central_inv (<[s := sp]> big) c (xs ++ ys ++ smalls) -> big !! s = None ->
  (forall q n, (q, n) ∈ l -> q <> 0 /\ block big smalls q n) -> start_page_idx sp * SystemConfig.PAGE_SIZE ∉ l.*1.
Proof.
  intros H Hs Hl [[q n] [E Hin]]%list_elem_of_fmap. simpl in E. subst q. destruct (Hl _ _ Hin) as [_ Hb].
  assert (placed (<[s := sp]> big) c (start_page_idx sp * SystemConfig.PAGE_SIZE) (page_num sp * SystemConfig.PAGE_SIZE) s sp) as Hp.
  { apply placed_large; [apply lookup_insert_eq|done|done]. }
  destruct Hb as [(i & _ & Hi & _)|(t & tp & Ht & E & _)].
  - destruct (object_placed _ c _ H i (start_page_idx sp * SystemConfig.PAGE_SIZE)) as (t & tp & bm & Ht & Hp').
    { rewrite !elem_of_app. auto. }
    pose proof (placed_same _ c _ H _ _ _ _ _ _ _ Hp Hp') as <-. pose proof (class_span_small _ _ _ _ _ _ _ H Ht) as Hn.
    by rewrite lookup_insert_eq in Hn.
  - assert (t <> s) as Hne by congruence.
    assert (placed (<[s := sp]> big) c (start_page_idx sp * SystemConfig.PAGE_SIZE) (page_num tp * SystemConfig.PAGE_SIZE) t tp) as Hp'.
    { apply placed_large; [by rewrite lookup_insert_ne|done|done]. }
    by pose proof (placed_same _ c _ H _ _ _ _ _ _ _ Hp Hp').
Qed.

(** What thread [k] learns from a call. *)
Definition call_result (w : World) (call : Call) (r : option Z) (w' : World) : Prop :=
  match call with
  | Malloc k _ n =>
      match r with
      | Some p => (p = 0 /\ live w' = live w) \/ ((p ∉ (live w).*1) /\ live w' = (p, n) :: live w)
      | None => live w' = live w /\
          ((SizeConfig.MAX_TC_SIZE < n /\ (UINT32_MAX * SystemConfig.PAGE_SIZE < n \/ refused (heap w) (large_pages n))) \/
           (n <= SizeConfig.MAX_TC_SIZE /\ exists t, threads w !! k = Some t /\ destructed t = true))
      end
  | Free _ _ p => live w' = filter (fun b => b.1 <> p) (live w)
  | Exit _ => live w' = live w
  end.

(** The ways a call can end the process. *)
Definition call_abort (w : World) (call : Call) (msg : string) : Prop :=
  match call with
  | Malloc k mapped n => exists t, threads w !! k = Some t /\ malloc_abort (heap w) t mapped n msg
  | Free k mapped _ => exists t, threads w !! k = Some t /\ msg = no_cache /\ no_cache_yet t mapped
  | Exit _ => False
  end.

Lemma run_malloc w k mapped n : world_ok w -> legal w (Malloc k mapped n) ->
  (exists msg, run w (Malloc k mapped n) = Panic msg /\ call_abort w (Malloc k mapped n) msg) \/
  exists r w', run w (Malloc k mapped n) = Ret (r, w') /\ world_ok w' /\ call_result w (Malloc k mapped n) r w'.
Proof.
  intros (big & smalls & Hw) [Hk Hn]. destruct (lookup_lt_is_Some_2 _ _ Hk) as [t Ht]. cbn [run].
  rewrite (proj2 (vec_at_ret _ _ _) Ht). cbn [mbind res_mbind res_bind].
  destruct (thread_view _ _ _ _ _ Hw Ht) as (rest & Hok & H & Hback). destruct Hw as (_ & _ & Hnd & Hl).
  destruct (am_malloc_spec big (heap w) t mapped n _ Hn Hok H) as [(msg & -> & Hwhy)|(r & t' & c' & -> & Hok' & _ & Hres)];
    cbn [mbind res_mbind res_bind]; [left; exists msg; split; [done|by exists t]|]. right. eexists _, _. split; [done|]. destruct r as [p|].
  - destruct Hres as [(i & Hi & Hni & H')|(s & sp & H' & Hs & -> & Hns)].
    + assert (central_inv big c' (objs_of t' ++ rest ++ (i, p) :: smalls)) as H1.
      { eapply central_inv_perm; [exact H'|]. by rewrite Permutation_middle. }
      assert (0 < p) as Hp by (eapply object_pos; [exact H1|]; rewrite !elem_of_app, elem_of_cons; auto).
      pose proof (new_small_fresh big c' _ _ i p smalls (live w) (central_inv_perm _ _ _ _ H1 ltac:(done)) Hl) as Hf.
      rewrite (proj2 (Z.eqb_neq p 0)) by lia. split; [|by right].
      eapply (Hback big ((i, p) :: smalls)); [exact H1|done|by constructor|].
      intros q m [[= -> ->]|Hin]%elem_of_cons.
      * split; [lia|]. left. exists i. split; [done|]. split; [by left|done].
      * destruct (Hl _ _ Hin). split; [done|]. eapply block_mono; [..|done]; [done|]. intros x. rewrite elem_of_cons. auto.
    + pose proof (new_large_fresh big c' _ _ s sp smalls (live w) H' Hs Hl) as Hf.
      assert (forall q m, (q, m) ∈ live w -> q <> 0 /\ block (<[s := sp]> big) smalls q m) as Hl'.
      { intros q m Hin. destruct (Hl _ _ Hin). split; [done|]. eapply block_mono; [..|done]; [|done].
        intros t0 tp Ht0. rewrite lookup_insert_ne; [done|]. congruence. }
      destruct (Z.eqb_spec (start_page_idx sp * SystemConfig.PAGE_SIZE) 0) as [E0|E0].
      * split; [by eapply (Hback _ smalls)|]. by left.
      * split; [|by right]. eapply (Hback _ smalls); [done|done|by constructor|]. intros q m [[= -> ->]|Hin]%elem_of_cons; [|auto].
        split; [done|]. right. exists s, sp. split; [apply lookup_insert_eq|done].
  - destruct Hres as [H' Hwhy]. split; [by eapply (Hback big smalls)|]. split; [done|].
    destruct Hwhy as [?|(? & _ & ?)]; [by left|right]. split; [done|]. by exists t.
Qed.

Lemma filter_live (l : list (Z * Z)) p q n : (q, n) ∈ filter (fun b => b.1 <> p) l -> (q, n) ∈ l /\ q <> p.
Proof. rewrite list_elem_of_filter. simpl. tauto. Qed.

Lemma filter_live_once (l : list (Z * Z)) p : NoDup l.*1 -> NoDup (filter (fun b => b.1 <> p) l).*1.
Proof. intros H. eapply sublist_NoDup; [exact H|]. apply fmap_sublist, sublist_filter. Qed.

Lemma run_free w k mapped p : world_ok w -> legal w (Free k mapped p) ->
  (exists msg, run w (Free k mapped p) = Panic msg /\ call_abort w (Free k mapped p) msg) \/
  exists w', run w (Free k mapped p) = Ret (None, w') /\ world_ok w' /\ call_result w (Free k mapped p) None w'.
Proof.
  intros (big & smalls & Hw) [Hk Hp]. destruct (lookup_lt_is_Some_2 _ _ Hk) as [t Ht]. cbn [run].
  rewrite (proj2 (vec_at_ret _ _ _) Ht). cbn [mbind res_mbind res_bind].
  destruct (thread_view _ _ _ _ _ Hw Ht) as (rest & Hok & H & Hback). destruct Hw as (_ & _ & Hnd & Hl).
  destruct Hp as [->|[[q n] [E Hin]]%list_elem_of_fmap]; simpl in *.
  { right. eexists. split; [done|]. split; [|done]. eapply (Hback big smalls); [done|done|by apply filter_live_once|].
    intros q m [Hq _]%filter_live. auto. }
  subst q. destruct (Hl _ _ Hin) as [Hp0 [(i & Hi & Hsm & _)|(s & sp & Hs & -> & _)]].
  - apply list_elem_of_split in Hsm as (l1 & l2 & ->).
    destruct (am_free_small_spec big (heap w) t mapped i p (rest ++ l1 ++ l2) Hi Hok) as [[-> ?]|(t' & c' & -> & Hok' & _ & H')].
    { eapply central_inv_perm; [exact H|]. solve_Permutation. }
    { left. eexists. split; [done|]. by exists t. }
    right. cbn [mbind res_mbind res_bind]. eexists. split; [done|]. split; [|done].
    eapply (Hback big (l1 ++ l2)); [done|done|by apply filter_live_once|]. intros q m [Hq Hne]%filter_live.
    destruct (Hl _ _ Hq) as [Hq0 Hb]. split; [done|]. destruct Hb as [(i' & ? & Hin' & ?)|?]; [left|by right].
    exists i'. split; [done|]. split; [|done]. rewrite elem_of_app in *. rewrite elem_of_cons in Hin'. destruct Hin' as [?|[[= -> ->]|?]]; auto. done.
  - destruct (am_free_large_spec big (heap w) t mapped s sp _ H Hs) as (c' & -> & H'). cbn [mbind res_mbind res_bind].
    right. eexists. split; [done|]. split; [|done]. destruct H' as [H'|H'].
    + eapply (Hback big smalls); [done|done|by apply filter_live_once|]. intros q m [Hq _]%filter_live. auto.
    + eapply (Hback _ smalls); [done|done|by apply filter_live_once|]. intros q m [Hq Hne]%filter_live.
      destruct (Hl _ _ Hq) as [Hq0 Hb]. split; [done|]. destruct Hb as [?|(s' & sp' & Hs' & -> & ?)]; [by left|right].
      exists s', sp'. split; [|done]. rewrite lookup_delete_ne; [done|]. intros ->. congruence.
Qed.

Lemma run_exit w k : world_ok w -> legal w (Exit k) -> exists w', run w (Exit k) = Ret (None, w') /\ world_ok w' /\ live w' = live w.
Proof.
  intros (big & smalls & Hw) Hk. destruct (lookup_lt_is_Some_2 _ _ Hk) as [t Ht]. cbn [run].
  rewrite (proj2 (vec_at_ret _ _ _) Ht). cbn [mbind res_mbind res_bind].
  destruct (thread_view _ _ _ _ _ Hw Ht) as (rest & Hok & H & Hback). destruct Hw as (_ & _ & Hnd & Hl).
  destruct (thread_exit_spec big (heap w) t _ Hok H) as (c' & -> & H'). cbn [mbind res_mbind res_bind].
  eexists. split; [done|]. split; [|done]. by eapply (Hback big smalls).
Qed.

Lemma run_outcome w call : world_ok w -> legal w call ->
  (exists msg, run w call = Panic msg /\ call_abort w call msg) \/
  exists r w', run w call = Ret (r, w') /\ world_ok w' /\ call_result w call r w'.
Proof.
  intros H HL. destruct call as [k m n|k m p|k].
  - by apply run_malloc.
  - destruct (run_free w k m p H HL) as [(msg & ? & ?)|(w' & ?)]; [left; eauto|right; by exists None, w'].
  - destruct (run_exit w k H HL) as (w' & ?). right. by exists None, w'.
Qed.

(** ** From the start *)

Lemma boot_ok n : world_ok (boot n).
Proof.
  assert (cached_by (replicate n new_thread) = []) as Ec by (by induction n).
  exists ∅, []. split; [|split; [|split]]; simpl.
  - rewrite Ec. unfold central_inv. change (cached_in (transfers (mkCentral new_shard ∅ [] 0))) with (@nil (nat * Z)).
    constructor; simpl; try done.
    + apply new_shard_ok.
    + by left.
    + constructor.
    + intros i p Hin. by apply not_elem_of_nil in Hin.
  - apply Forall_replicate. intros tc. done.
  - constructor.
  - intros p m Hin. by apply not_elem_of_nil in Hin.
Qed.

Lemma runs_to_ok n w : runs_to n w -> world_ok w.
Proof.
  intros Hr. unfold runs_to in Hr. pose proof (boot_ok n) as Hb. revert Hb. generalize (boot n) Hr. clear. intros wb Hr Hb. induction Hr as [|w0 w1 w2 (call & r & HL & E) _ IH]; [done|]. apply IH.
  destruct (run_outcome w0 call Hb HL) as [(msg & E' & _)|(r' & w' & E' & Hw & _)]; [congruence|]. congruence.
Qed.
End Invariant.

(** ** Memory kept by a thread *)

(** Bytes in the lists of a thread cache. *)
Definition cached_bytes (tc : ThreadCache) : Z :=
  foldr Z.add 0 (imap (fun i l => CalculateSize (Z.of_nat i) * zlen (chain l)) tc).

Definition list_limit (i : nat) : Z := 8 * batch_of i + 1.
Definition bytes_limit : Z := foldr Z.add 0 ((fun i => CalculateSize (Z.of_nat i) * list_limit i) <$> seq 0 (Z.to_nat kNumSizeClasses)).

Lemma list_limit_ok i l : list_ok i l -> zlen (chain l) <= list_limit i.
Proof. intros [Hs ? ? ?]. unfold list_limit. rewrite <- Hs. destruct (overages l =? 0); lia. Qed.

Lemma sum_le (f g : nat -> FreeList -> Z) l : (forall i x, l !! i = Some x -> f i x <= g i x) ->
  foldr Z.add 0 (imap f l) <= foldr Z.add 0 (imap g l).
Proof.
  revert f g. induction l as [|x l IH]; intros f g H; [done|]. rewrite !imap_cons. simpl.
  pose proof (H O x eq_refl). specialize (IH (f ∘ S) (g ∘ S) (fun i y Hy => H (S i) y Hy)). lia.
Qed.

Lemma imap_const {A B} (f : nat -> B) (l : list A) : imap (fun i _ => f i) l = f <$> seq 0 (length l).
Proof. induction l as [|x l IH] using rev_ind; [done|]. rewrite imap_app, length_app, seq_app, fmap_app, IH. simpl. by rewrite Nat.add_0_r. Qed.

Lemma cached_bytes_le tc : tc_ok tc -> cached_bytes tc <= bytes_limit.
Proof.
  intros H. unfold cached_bytes, bytes_limit. rewrite <- (to_len _ H), <- imap_const.
  apply sum_le. intros i l Hl. pose proof (list_limit_ok i l (to_list _ H i l Hl)).
  assert (i < Z.to_nat kNumSizeClasses)%nat as Hi by (rewrite <- (to_len _ H); by eapply lookup_lt_Some).
  pose proof (class_size i Hi). nia.
Qed.

(** ** Guarantees *)

Section Guarantees.
Context {OS : OperatingSystem}.

(** C1: Whatever the threads do, blocks never overlap: in every state reached by any
    sequence of [am_malloc], [am_free] of held blocks and thread exits by any threads over
    any operating system that never hands out pages in use, two different blocks the
    program holds are disjoint for the sizes that were asked for, and every block lies in
    the 48-bit address space above null. *)
Theorem blocks_never_overlap n w : runs_to n w ->
  (forall p a, (p, a) ∈ live w -> 0 < p /\ p + Z.max 1 a <= 2 ^ 48) /\
  forall j k p a q b, live w !! j = Some (p, a) -> live w !! k = Some (q, b) -> j <> k ->
    p + Z.max 1 a <= q \/ q + Z.max 1 b <= p.
Proof.
  intros (big & smalls & H & _ & Hnd & Hl)%runs_to_ok.
  assert (forall p a, (p, a) ∈ live w -> exists s sp size, placed big (heap w) p size s sp /\ Z.max 1 a <= size) as HP.
  { intros p a Hin. eapply block_placed; [exact H| |by apply Hl]. intros x Hx. rewrite !elem_of_app. auto. }
  split.
  - intros p a Hin. destruct (HP p a Hin) as (s & sp & size & Hp & Hle). destruct (Hl p a Hin) as [Hp0 _].
    destruct (placed_in _ _ _ H _ _ _ _ Hp) as (_ & [] & _ & ? & ?). change max_page with (2 ^ 36) in *. unfold SystemConfig.PAGE_SIZE in *. lia.
  - intros j k p a q b Hj Hk Hne. destruct (HP p a) as (s & sp & size & Hp & Hle); [by eapply list_elem_of_lookup_2|].
    destruct (HP q b) as (t & tp & size' & Hq & Hle'); [by eapply list_elem_of_lookup_2|].
    assert (p <> q) as Hpq.
    { intros <-. apply Hne. apply (NoDup_lookup (live w).*1 j k p Hnd); rewrite list_lookup_fmap, ?Hj, ?Hk; done. }
    destruct (placed_apart _ _ _ H _ _ _ _ _ _ _ _ Hp Hq Hpq); lia.
Qed.


(** C39: A thread cache stays small: in every reachable state each of its lists records its
    true length and holds at most eight batches and one object, and all lists together
    hold at most 12 MiB. *)
Theorem thread_cache_bounded n w k t tc : runs_to n w -> threads w !! k = Some t -> tls t = Some tc ->
  cached_bytes tc <= 12 * 2 ^ 20 /\
  forall i l, tc !! i = Some l -> fl_size l = zlen (chain l) /\ fl_size l <= 8 * batch_of i + 1 /\ 1 <= max_size l <= 8 * batch_of i.
Proof.
  intros (big & smalls & _ & Hok & _)%runs_to_ok Hk Htc. assert (tc_ok tc) as Ht by (by eapply (Forall_lookup_1 thread_ok)).
  split.
  - pose proof (cached_bytes_le tc Ht) as HB. assert ((bytes_limit <=? 12 * 2 ^ 20) = true) as HL by (vm_compute; reflexivity). lia.
  - intros i l Hl. pose proof (to_list _ Ht i l Hl) as Hlo. pose proof (list_limit_ok i l Hlo). destruct Hlo. unfold list_limit in *.
    split; [done|]. split; [lia|done].
Qed.
End Guarantees.

(** ** Examples *)

Module Examples.

(** One past the last page of any span. *)
Definition frontier (st : Shard) : Z := map_fold (fun _ sp m => Z.max (start_page_idx sp + page_num sp) m) 16 (spans st).

Lemma frontier_above st s sp : spans st !! s = Some sp -> start_page_idx sp + page_num sp <= frontier st.
Proof.
  unfold frontier. revert s sp. apply (map_fold_weak_ind (fun m g => forall s sp, g !! s = Some sp -> start_page_idx sp + page_num sp <= m)).
  - intros s sp Hs. by rewrite lookup_empty in Hs.
  - intros i x m r _ IH s sp [[<- <-]|[_ Hs]]%lookup_insert_Some; [lia|]. specialize (IH s sp Hs). lia.
Qed.

Lemma frontier_pos st : 16 <= frontier st.
Proof.
  unfold frontier. apply (map_fold_weak_ind (fun m _ => 16 <= m)); [lia|]. intros. lia.
Qed.

(** A system that maps new pages above all others while the address space lasts. *)
Definition bump_env (st : Shard) (n : Z) : Env :=
  mkEnv (if frontier st + Z.max n MAX_PAGE_NUM <=? max_page then Some (frontier st * SystemConfig.PAGE_SIZE) else None) true true 0.

Lemma bump_law st n : heap_ok st -> os_law (bump_env st n) st (Z.max n MAX_PAGE_NUM).
Proof.
  intros _ ptr. cbn [bump_env sys_ptr]. destruct (Z.leb_spec (frontier st + Z.max n MAX_PAGE_NUM) max_page) as [Hle|]; [|done]. intros [= <-].
  assert (PtrToPageId (frontier st * SystemConfig.PAGE_SIZE) = frontier st) as ->.
  { unfold PtrToPageId. rewrite Z.shiftr_div_pow2 by (unfold SystemConfig.PAGE_SHIFT; lia). apply Z.div_mul. done. }
  pose proof (frontier_pos st). split; [lia|]. split; [done|]. intros p Hp (t & tp & Ht & Hin). pose proof (frontier_above st t tp Ht).
  unfold in_span in Hin. lia.
Qed.

Definition bump_os : OperatingSystem.
Proof. exists (fun _ st n => (bump_env st n, bump_env st n)); [exact (fun _ => true)|intros; by apply bump_law]. Defined.

(** A system without memory once the central cache exists, one that has none for it, and
    one that has pages but no radix nodes. *)
Definition refusing_os (transfer : bool) : OperatingSystem.
Proof. exists (fun _ _ _ => (mkEnv None true true 0, mkEnv None true true 0)); [exact (fun _ => transfer)|intros k st n H ptr; done]. Defined.
Definition nodeless (e : Env) : Env := mkEnv (sys_ptr e) (new_ok e) false (now_ms e).
Definition nodeless_os : OperatingSystem.
Proof. exists (fun _ st n => (nodeless (bump_env st n), bump_env st n)); [exact (fun _ => true)|intros k st n H; exact (bump_law st n H)]. Defined.

Instance legal_dec w call : Decision (legal w call).
Proof. destruct call; unfold legal; apply _. Defined.

Fixpoint run_all (OS : OperatingSystem) (w : World) (calls : list Call) : Res World :=
  match calls with
  | [] => Ret w
  | call :: rest =>
      _ ← am_check (bool_decide (legal w call)) "illegal call";
      '(_, w) ← run w call; run_all OS w rest
  end.

Lemma run_all_steps (OS : OperatingSystem) calls : forall w w', run_all OS w calls = Ret w' -> rtc world_step w w'.
Proof.
  induction calls as [|call rest IH]; intros w w' H; cbn [run_all] in H; [injection H as <-; apply rtc_refl|].
  destruct (decide (legal w call)) as [HL|HL].
  - rewrite bool_decide_eq_true_2 in H by done. cbn [am_check mbind res_mbind res_bind] in H.
    destruct (run w call) as [[r w1]|?|?] eqn:E; [|done..]. eapply rtc_l; [|by apply IH]. by exists call, r.
  - by rewrite bool_decide_eq_false_2 in H.
Qed.

Definition after (OS : OperatingSystem) (n : nat) (calls : list Call) : Res World := run_all OS (boot n) calls.

Lemma after_runs (OS : OperatingSystem) n calls w : after OS n calls = Ret w -> runs_to n w.
Proof.
  intros H. by eapply run_all_steps.
Qed.

(** Two threads, small and large blocks. *)
Definition two_threads : list Call :=
  [Malloc 0 true 100; Malloc 1 true 100; Malloc 0 true 300000; Malloc 1 true 0; Exit 0; Malloc 0 true 24].

Lemma two_threads_end : exists w, after bump_os 2 two_threads = Ret w /\
  live w = [(893440, 0); (589824, 300000); (65960, 100); (65856, 100)].
Proof.
  destruct (after bump_os 2 two_threads) as [w|?|?] eqn:E; [exists w; split; [done|]|exfalso..].
  - assert (match after bump_os 2 two_threads with Ret w => live w | _ => [] end
      = [(893440, 0); (589824, 300000); (65960, 100); (65856, 100)]) as HE by (vm_compute; reflexivity). by rewrite E in HE.
  - assert (match after bump_os 2 two_threads with Ret _ => true | _ => false end = true) as HE by (vm_compute; reflexivity). by rewrite E in HE.
  - assert (match after bump_os 2 two_threads with Ret _ => true | _ => false end = true) as HE by (vm_compute; reflexivity). by rewrite E in HE.
Qed.

Lemma blocks_never_overlap_witness : exists w, live w = [(893440, 0); (589824, 300000); (65960, 100); (65856, 100)] /\
  (65960 + Z.max 1 100 <= 65856 \/ 65856 + Z.max 1 100 <= 65960).
Proof.
  destruct two_threads_end as (w & E & Hl). exists w. split; [exact Hl|].
  apply (proj2 (@blocks_never_overlap bump_os 2 w (after_runs _ _ _ _ E)) 2%nat 3%nat); [rewrite Hl; reflexivity|rewrite Hl; reflexivity|discriminate].
Defined.


Lemma thread_cache_bounded_witness : exists w t tc, @runs_to bump_os 2 w /\ threads w !! 1%nat = Some t /\ tls t = Some tc /\
  cached_bytes tc <= 12 * 2 ^ 20.
Proof.
  destruct two_threads_end as (w & E & Hl). exists w.
  assert (match after bump_os 2 two_threads with
    | Ret w => match threads w !! 1%nat with Some t => match tls t with Some _ => true | _ => false end | _ => false end
    | _ => false end = true) as HT by (vm_compute; reflexivity). rewrite E in HT.
  destruct (threads w !! 1%nat) as [t|] eqn:Et; [|discriminate HT]. destruct (tls t) as [tc|] eqn:Ec; [|discriminate HT].
  exists t, tc. split; [exact (after_runs _ _ _ _ E)|]. split; [reflexivity|]. split; [exact Ec|].
  exact (proj1 (@thread_cache_bounded bump_os 2 w 1 t tc (after_runs _ _ _ _ E) Et Ec)).
Defined.

(** When the system has no memory, a large request gets null but a small one ends the
    process: the failed search for a span has released the mutex that [FetchRange] then
    unlocks again, and the exception leaves a [noexcept] function. *)
Theorem small_malloc_aborts_without_memory : @run (refusing_os true) (boot 1) (Malloc 0 true 100) = Panic no_span /\
  @run (refusing_os false) (boot 1) (Malloc 0 true 100) = Panic no_transfer /\
  exists w', @run (refusing_os false) (boot 1) (Malloc 0 true 100000) = Ret (None, w').
Proof. split; [vm_compute; reflexivity|]. split; [vm_compute; reflexivity|]. eexists. vm_compute. reflexivity. Qed.

(** When only the radix nodes cannot be had, a large request throws instead of returning
    null: the page cache catches the exception of the metadata pool but not this one. *)
Theorem large_malloc_throws_without_nodes : @run nodeless_os (boot 1) (Malloc 0 true 100000) = Panic no_nodes.
Proof. vm_compute. reflexivity. Qed.
End Examples.
