(* ===== verification/Workspace.v ===== *)
(** * Workspace: scratch memory planning and binding

    [include/aethermind/runtime/workspace.h], [src/backend/cpu/cpu_workspace_arena.cpp]
    and the workspace part of [src/execution/runtime_binding_context.cpp]. Sizes,
    offsets and addresses are [size_t] values on [Z]. Planning writes offsets
    into the requirements it is given, so it returns them with its result,
    changed as far as the run got. *)
From S2P Require Import Prelude OverflowCheck.

(** ** Planning *)

(* @src include/aethermind/runtime/workspace.h:32-45 WorkspaceLifetime *)
Inductive WorkspaceLifetime :=
| kLifetimeNone | kPerOperator | kPerLayer | kPerToken | kPerSequence | kPersistent.
#[global] Instance WorkspaceLifetime_eq_dec : EqDecision WorkspaceLifetime.
Proof. solve_decision. Defined.

(* @src include/aethermind/runtime/workspace.h:51-73 WorkspaceRequirement *)
Record WorkspaceRequirement := mkReq {
  ws_bytes : Z; ws_alignment : Z; ws_lifetime : WorkspaceLifetime; ws_reusable : bool; ws_offset : Z }.
#[global] Instance WorkspaceRequirement_eq_dec : EqDecision WorkspaceRequirement.
Proof. solve_decision. Defined.

Definition default_requirement : WorkspaceRequirement := mkReq 0 64 kLifetimeNone true 0.

Definition at_offset (r : WorkspaceRequirement) (o : Z) : WorkspaceRequirement :=
  mkReq (ws_bytes r) (ws_alignment r) (ws_lifetime r) (ws_reusable r) o.

(** A null pointer is address 0. *)
(* @src include/aethermind/runtime/workspace.h:84-91 WorkspaceBinding *)
Record WorkspaceBinding := mkBinding { ws_data : Z; ws_size : Z }.

(* @src include/aethermind/runtime/workspace.h:97-106 WorkspacePlanLayout *)
Record WorkspacePlanLayout := mkPlan { total_bytes : Z; required_alignment : Z }.

(* @src include/aethermind/runtime/workspace.h:114-116 IsValidWorkspaceAlignment *)
Definition IsValidWorkspaceAlignment (a : Z) : bool := negb (a =? 0) && (Z.land a (a - 1) =? 0).

(* @src include/aethermind/runtime/workspace.h:134-146 AlignWorkspaceOffset *)
Definition AlignWorkspaceOffset (offset a : Z) : Res Z :=
  _ ← reject_if (negb (IsValidWorkspaceAlignment a))
        (InvalidArgument "Workspace alignment must be a non-zero power of two");
  let '(o, t) := CheckOverflowAdd uint64_ty offset (a - 1) in
  _ ← reject_if o (Overflow "Workspace offset alignment overflowed size_t");
  Ret (Z.land t (u64 (Z.lnot (a - 1)))).

(** The second loop; [placed] are the requirements already visited. *)
(* @src include/aethermind/runtime/workspace.h:191-213 PlanWorkspaceRequirements (placement) *)
Fixpoint place_loop (layout : WorkspacePlanLayout) (placed todo : list WorkspaceRequirement)
    : Res WorkspacePlanLayout * list WorkspaceRequirement :=
  match todo with
  | [] => (Ret layout, placed)
  | r :: todo' =>
      let align := Z.max (required_alignment layout) (ws_alignment r) in
      if ws_bytes r =? 0 then
        place_loop (mkPlan (total_bytes layout) align) (placed ++ [at_offset r (total_bytes layout)]) todo'
      else
        match AlignWorkspaceOffset (total_bytes layout) (ws_alignment r) with
        | Ret o =>
            let r' := at_offset r o in
            let '(over, next_total) := CheckOverflowAdd uint64_ty o (ws_bytes r) in
            if over then
              (Fail (Overflow "Workspace planning exceeded size_t capacity"), placed ++ r' :: todo')
            else place_loop (mkPlan next_total align) (placed ++ [r']) todo'
        | Fail e => (Fail e, placed ++ r :: todo')
        | Panic w => (Panic w, placed ++ r :: todo')
        end
  end.

(* @src include/aethermind/runtime/workspace.h:179-216 PlanWorkspaceRequirements *)
Definition PlanWorkspaceRequirements (reqs : list WorkspaceRequirement)
    : Res WorkspacePlanLayout * list WorkspaceRequirement :=
  if forallb (fun r => IsValidWorkspaceAlignment (ws_alignment r)) reqs then
    place_loop (mkPlan 0 1) [] reqs
  else (Fail (InvalidArgument "Workspace requirement alignment must be a non-zero power of two"), reqs).

(** ** Binding *)

(* @src include/aethermind/backend/cpu/cpu_workspace_arena.h:19-21 CpuWorkspaceArena *)
Record CpuWorkspaceArena := mkArena { base_ : Z; size_ : Z }.

Definition null_binding : WorkspaceBinding := mkBinding 0 0.

(* @src src/backend/cpu/cpu_workspace_arena.cpp:10-30 CpuWorkspaceArena::Bind *)
Definition Bind (arena : CpuWorkspaceArena) (r : WorkspaceRequirement) : WorkspaceBinding :=
  let bytes := ws_bytes r in
  let align := ws_alignment r in
  let offset := ws_offset r in
  if (base_ arena =? 0) || (bytes =? 0) || (align =? 0) || (size_ arena <=? offset) then null_binding
  else if u64 (size_ arena - offset) <? bytes then null_binding
  else
    let ptr := base_ arena + offset in
    if negb (ptr mod align =? 0) then null_binding else mkBinding ptr bytes.

(** The arena is any [WorkspaceArena], given by its [Bind]. *)
(* @src src/execution/runtime_binding_context.cpp:15-37 RuntimeBindingContext::BindWorkspace *)
Definition BindWorkspace (arena : option (WorkspaceRequirement -> WorkspaceBinding))
    (r : WorkspaceRequirement) : Res WorkspaceBinding :=
  _ ← reject_if (negb (IsValidWorkspaceAlignment (ws_alignment r)))
        (InvalidArgument "Workspace requirement alignment must be a non-zero power of two");
  if ws_bytes r =? 0 then Ret null_binding
  else
    match arena with
    | None => Fail (FailedPrecondition
        "RuntimeBindingContext requires a WorkspaceArena for non-zero workspace requirements")
    | Some bind =>
        let binding := bind r in
        if (ws_data binding =? 0) || (ws_size binding <? ws_bytes r) then
          Fail (FailedPrecondition "WorkspaceArena could not satisfy execution-time workspace binding")
        else Ret binding
    end.

(** ** What a plan is *)

Definition round_up (pos a : Z) : Z := (pos + a - 1) / a * a.

(** The reference placement: each non-empty slice at the first aligned position
    after the previous one, over unbounded integers. *)
Fixpoint place (pos : Z) (reqs : list WorkspaceRequirement) : list WorkspaceRequirement * Z :=
  match reqs with
  | [] => ([], pos)
  | r :: reqs' =>
      let o := if ws_bytes r =? 0 then pos else round_up pos (ws_alignment r) in
      let '(rs, e) := place (o + ws_bytes r) reqs' in (at_offset r o :: rs, e)
  end.

Definition req_range (r : WorkspaceRequirement) : Prop := in_u 64 (ws_bytes r) /\ in_u 64 (ws_alignment r).

Definition max_alignment (reqs : list WorkspaceRequirement) : Z := foldl Z.max 1 (ws_alignment <$> reqs).

(** ** Lemmas *)

Lemma valid_alignment_pow a : in_u 64 a -> IsValidWorkspaceAlignment a = true ->
  exists k, 0 <= k < 64 /\ a = 2 ^ k.
Proof.
  intros [H0 H1] H. unfold IsValidWorkspaceAlignment in H. bsplit.
  destruct (single_bit_pow a) as [Hp Hk].
  { unfold has_single_bit. apply andb_true_iff. split; [apply Z.ltb_lt; lia|by apply Z.eqb_eq]. }
  exists (countr_zero a). split; [|done]. split; [done|]. apply (Z.pow_lt_mono_r_iff 2); lia.
Qed.

Lemma CheckOverflowAdd_u64 a b : in_u 64 (a + b) -> CheckOverflowAdd uint64_ty a b = (false, a + b).
Proof.
  intros H. unfold CheckOverflowAdd, int_trunc. simpl. rewrite wrap_small by done. by rewrite Z.eqb_refl.
Qed.

Lemma CheckOverflowAdd_u64_over a b : 2 ^ 64 <= a + b -> (CheckOverflowAdd uint64_ty a b).1 = true.
Proof.
  intros H. unfold CheckOverflowAdd, int_trunc. simpl. apply negb_true_iff, Z.eqb_neq. intros E.
  apply (proj1 (wrap_id_iff 64 _ ltac:(lia))) in E. unfold in_u in E. lia.
Qed.

Lemma round_up_bounds pos a : 0 < a -> pos <= round_up pos a < pos + a /\ round_up pos a mod a = 0.
Proof.
  intros Ha. unfold round_up. rewrite Z.mod_mul by lia. split; [|done]. dlia.
Qed.

Lemma AlignWorkspaceOffset_spec offset a : in_u 64 offset -> in_u 64 a ->
  IsValidWorkspaceAlignment a = true ->
  AlignWorkspaceOffset offset a =
    if round_up offset a <? 2 ^ 64 then Ret (round_up offset a)
    else Fail (Overflow "Workspace offset alignment overflowed size_t").
Proof.
  intros Ho Ha Hv. pose proof (valid_alignment_pow a Ha Hv) as (k & Hk & ->).
  pose proof (Z.pow_pos_nonneg 2 k ltac:(lia) ltac:(lia)) as Hpos.
  pose proof (round_up_bounds offset (2 ^ k) Hpos) as [Hb Hm].
  unfold AlignWorkspaceOffset. rewrite Hv. cbn [negb reject_if mbind res_mbind res_bind].
  assert (exists m, 2 ^ 64 = m * 2 ^ k) as [m Em].
  { exists (2 ^ (64 - k)). rewrite <- Z.pow_add_r by lia. f_equal. lia. }
  apply Z.mod_divide in Hm as [q Eq]; [|lia]. unfold in_u in *.
  destruct (Z.ltb_spec (round_up offset (2 ^ k)) (2 ^ 64)) as [Hlt|Hge].
  - assert (q + 1 <= m) by nia.
    rewrite CheckOverflowAdd_u64 by (unfold in_u; nia). cbn [reject_if mbind res_mbind res_bind]. f_equal.
    replace (Z.land _ _) with (Z.land (offset + (2 ^ k - 1)) (Z.lnot (2 ^ k - 1))).
    + rewrite mask_low by lia. unfold round_up. f_equal. f_equal. lia.
    + assert (in_u 64 (offset + (2 ^ k - 1))) as Ht by (unfold in_u; nia).
      rewrite <- (wrap_small 64 _ Ht). unfold wrap. rewrite <- !Z.land_ones by lia.
      rewrite <- !Z.land_assoc. f_equal. rewrite (Z.land_comm (Z.lnot _)), Z.land_assoc, Z.land_diag. done.
  - destruct (CheckOverflowAdd uint64_ty offset (2 ^ k - 1)) as [b t] eqn:E.
    pose proof (CheckOverflowAdd_u64_over offset (2 ^ k - 1) ltac:(lia)) as Hov. rewrite E in Hov.
    simpl in Hov. by subst.
Qed.

Definition valid_reqs (reqs : list WorkspaceRequirement) : Prop :=
  Forall (fun r => IsValidWorkspaceAlignment (ws_alignment r) = true) reqs.

Lemma valid_positive r : req_range r -> IsValidWorkspaceAlignment (ws_alignment r) = true -> 0 < ws_alignment r.
Proof. intros [_ Ha] Hv. destruct (valid_alignment_pow _ Ha Hv) as (k & ? & ->). by apply Z.pow_pos_nonneg; lia. Qed.

Lemma place_mono reqs : forall pos, Forall req_range reqs -> valid_reqs reqs -> pos <= (place pos reqs).2.
Proof.
  induction reqs as [|r reqs IH]; intros pos Hr Hv; simpl; [lia|].
  apply Forall_cons in Hr as [Hr Hrs]. apply Forall_cons in Hv as [Hv Hvs].
  set (o := if ws_bytes r =? 0 then pos else round_up pos (ws_alignment r)).
  specialize (IH (o + ws_bytes r) Hrs Hvs). destruct (place (o + ws_bytes r) reqs) as [rs e]. simpl in *.
  pose proof (round_up_bounds pos _ (valid_positive _ Hr Hv)) as [Hb _]. destruct Hr as [[Hb0 _] _].
  assert (pos <= o) by (unfold o; destruct (ws_bytes r =? 0); lia). lia.
Qed.

Lemma place_loop_spec todo : forall layout placed,
  Forall req_range todo -> valid_reqs todo -> in_u 64 (total_bytes layout) ->
  let '(rs, e) := place (total_bytes layout) todo in
  if e <? 2 ^ 64 then
    place_loop layout placed todo =
      (Ret (mkPlan e (foldl Z.max (required_alignment layout) (ws_alignment <$> todo))), placed ++ rs)
  else exists msg rs', place_loop layout placed todo = (Fail (Overflow msg), placed ++ rs').
Proof.
  induction todo as [|r todo IH]; intros layout placed Hr Hv Ht; cbn [place place_loop].
  { simpl. destruct (Z.ltb_spec (total_bytes layout) (2 ^ 64)); [|unfold in_u in Ht; lia].
    rewrite app_nil_r. by destruct layout. }
  apply Forall_cons in Hr as [Hr Hrs]. apply Forall_cons in Hv as [Hv Hvs].
  rewrite fmap_cons. cbn [foldl].
  set (align := Z.max (required_alignment layout) (ws_alignment r)).
  destruct (Z.eqb_spec (ws_bytes r) 0) as [E0|E0].
  { rewrite E0, Z.add_0_r.
    specialize (IH (mkPlan (total_bytes layout) align) (placed ++ [at_offset r (total_bytes layout)]) Hrs Hvs Ht).
    cbn [total_bytes required_alignment] in IH. destruct (place (total_bytes layout) todo) as [rs e].
    rewrite <- !app_assoc in IH. destruct (e <? 2 ^ 64); [done|].
    destruct IH as (msg & rs' & ->). exists msg. eexists. by rewrite <- app_assoc. }
  pose proof (valid_positive _ Hr Hv) as Hpos.
  pose proof (round_up_bounds (total_bytes layout) _ Hpos) as [Hb _].
  destruct Hr as [[Hb0 Hb1] Ha]. unfold in_u in Ht.
  rewrite AlignWorkspaceOffset_spec by done.
  set (o := round_up (total_bytes layout) (ws_alignment r)) in *.
  pose proof (place_mono todo (o + ws_bytes r) Hrs Hvs) as Hmono.
  destruct (Z.ltb_spec o (2 ^ 64)) as [Ho|Ho]; cbv iota beta.
  - destruct (Z.lt_ge_cases (o + ws_bytes r) (2 ^ 64)) as [Hs|Hs].
    + rewrite CheckOverflowAdd_u64 by (unfold in_u; lia).
      specialize (IH (mkPlan (o + ws_bytes r) align) (placed ++ [at_offset r o]) Hrs Hvs
        ltac:(unfold in_u; simpl; lia)).
      cbn [total_bytes required_alignment] in IH. destruct (place (o + ws_bytes r) todo) as [rs e].
      rewrite <- !app_assoc in IH. destruct (e <? 2 ^ 64); [done|].
      destruct IH as (msg & rs' & ->). exists msg. eexists. by rewrite <- app_assoc.
    + destruct (CheckOverflowAdd uint64_ty o (ws_bytes r)) as [b t] eqn:E.
      pose proof (CheckOverflowAdd_u64_over o (ws_bytes r) Hs) as Hov. rewrite E in Hov. simpl in Hov. subst b.
      destruct (place (o + ws_bytes r) todo) as [rs e]. simpl in Hmono.
      destruct (Z.ltb_spec e (2 ^ 64)); [lia|]. eauto.
  - destruct (place (o + ws_bytes r) todo) as [rs e]. simpl in Hmono.
    destruct (Z.ltb_spec e (2 ^ 64)); [lia|]. eauto.
Qed.

(** A sound layout: non-empty slices are aligned, in order, disjoint and inside
    the total; the base alignment is a multiple of every slice's. *)
Record plan_ok (rs : list WorkspaceRequirement) (total align : Z) : Prop := {
  pl_inside : forall r, r ∈ rs -> ws_bytes r <> 0 ->
    0 <= ws_offset r /\ ws_offset r mod ws_alignment r = 0 /\ ws_offset r + ws_bytes r <= total;
  pl_align : forall r, r ∈ rs -> (ws_alignment r | align);
  pl_disjoint : forall i j r r', (i < j)%nat -> rs !! i = Some r -> rs !! j = Some r' ->
    ws_bytes r <> 0 -> ws_bytes r' <> 0 -> ws_offset r + ws_bytes r <= ws_offset r' }.

Lemma place_layout reqs : forall pos, 0 <= pos -> Forall req_range reqs -> valid_reqs reqs ->
  (forall r, r ∈ (place pos reqs).1 -> ws_bytes r <> 0 ->
    pos <= ws_offset r /\ ws_offset r mod ws_alignment r = 0 /\ ws_offset r + ws_bytes r <= (place pos reqs).2) /\
  (forall i j r r', (i < j)%nat -> (place pos reqs).1 !! i = Some r -> (place pos reqs).1 !! j = Some r' ->
    ws_bytes r <> 0 -> ws_bytes r' <> 0 -> ws_offset r + ws_bytes r <= ws_offset r').
Proof.
  induction reqs as [|r reqs IH]; intros pos Hp Hr Hv; simpl.
  { split; [by intros r H%not_elem_of_nil|]. intros i j ? ? ? H. by rewrite lookup_nil in H. }
  apply Forall_cons in Hr as [Hr Hrs]. apply Forall_cons in Hv as [Hv Hvs].
  pose proof (round_up_bounds pos _ (valid_positive _ Hr Hv)) as [Hb Hm]. destruct Hr as [[Hb0 _] _].
  set (o := if ws_bytes r =? 0 then pos else round_up pos (ws_alignment r)).
  assert (pos <= o) as Hpo by (unfold o; destruct (ws_bytes r =? 0); lia).
  destruct (IH (o + ws_bytes r) ltac:(lia) Hrs Hvs) as [IH1 IH2].
  pose proof (place_mono reqs (o + ws_bytes r) Hrs Hvs) as Hmono.
  destruct (place (o + ws_bytes r) reqs) as [rs e]. simpl in *. split.
  - intros r' Hr' Hne. apply elem_of_cons in Hr' as [->|Hr']; simpl in *.
    + split; [done|]. split; [|lia]. unfold o. by destruct (Z.eqb_spec (ws_bytes r) 0).
    + destruct (IH1 _ Hr' Hne) as (? & ? & ?). split; [lia|done].
  - intros [|i] [|j] r1 r2 Hij H1 H2 Hn1 Hn2; simpl in *; try lia.
    + simplify_eq. simpl. apply list_elem_of_lookup_2 in H2. destruct (IH1 _ H2 Hn2) as (? & _). lia.
    + apply (IH2 i j); [lia|done..].
Qed.

Lemma max_divides l : forall m, Forall (fun a => exists k, 0 <= k /\ a = 2 ^ k) l ->
  (exists k, 0 <= k /\ m = 2 ^ k) ->
  (m | foldl Z.max m l) /\ Forall (fun a => (a | foldl Z.max m l)) l.
Proof.
  assert (forall a b, (exists k, 0 <= k /\ a = 2 ^ k) -> (exists k, 0 <= k /\ b = 2 ^ k) ->
    (a | Z.max a b) /\ (b | Z.max a b)) as Hmax.
  { intros a b (ka & Ha & ->) (kb & Hb & ->).
    assert (forall x y, 0 <= x <= y -> (2 ^ x | 2 ^ y)) as Hd.
    { intros x y Hxy. exists (2 ^ (y - x)). rewrite <- Z.pow_add_r by lia. f_equal. lia. }
    destruct (Z.le_ge_cases ka kb).
    - rewrite Z.max_r by (apply Z.pow_le_mono_r; lia). split; [by apply Hd|apply Z.divide_refl].
    - rewrite Z.max_l by (apply Z.pow_le_mono_r; lia). split; [apply Z.divide_refl|by apply Hd]. }
  induction l as [|a l IH]; intros m Hl Hm; simpl; [split; [apply Z.divide_refl|constructor]|].
  apply Forall_cons in Hl as [Ha Hl]. destruct (Hmax m a Hm Ha) as [D1 D2].
  destruct (IH (Z.max m a) Hl) as [I1 I2].
  { destruct (Z.max_spec_le m a) as [[_ ->]|[_ ->]]; done. }
  split; [by etrans|]. constructor; [by etrans|done].
Qed.

Lemma place_fields reqs : forall pos, ws_alignment <$> (place pos reqs).1 = ws_alignment <$> reqs /\
  ws_bytes <$> (place pos reqs).1 = ws_bytes <$> reqs.
Proof.
  induction reqs as [|r reqs IH]; intros pos; cbn [place]; [done|].
  set (o := if ws_bytes r =? 0 then pos else round_up pos (ws_alignment r)).
  destruct (IH (o + ws_bytes r)) as [E1 E2]. destruct (place (o + ws_bytes r) reqs) as [rs e].
  cbn [fst] in *. by rewrite !fmap_cons, E1, E2.
Qed.

Lemma place_plan_ok reqs : Forall req_range reqs -> valid_reqs reqs ->
  plan_ok (place 0 reqs).1 (place 0 reqs).2 (max_alignment reqs).
Proof.
  intros Hr Hv. destruct (place_layout reqs 0 ltac:(lia) Hr Hv) as [H1 H2]. split; [done| |done].
  intros r Hin. destruct (place_fields reqs 0) as [E _].
  assert (ws_alignment r ∈ ws_alignment <$> reqs) as Ha by (rewrite <- E; by apply list_elem_of_fmap_2).
  destruct (max_divides (ws_alignment <$> reqs) 1) as [_ Hd].
  - apply Forall_fmap, Forall_forall. intros x Hx. unfold valid_reqs in Hv. rewrite Forall_forall in Hr, Hv.
    destruct (valid_alignment_pow _ (proj2 (Hr _ Hx)) (Hv _ Hx)) as (k & ? & ?). exists k. split; [lia|done].
  - exists 0. split; [lia|done].
  - rewrite Forall_forall in Hd. by apply Hd.
Qed.

Lemma placed_range reqs r : Forall req_range reqs -> valid_reqs reqs -> r ∈ (place 0 reqs).1 ->
  req_range r /\ IsValidWorkspaceAlignment (ws_alignment r) = true.
Proof.
  intros Hr Hv Hin. destruct (place_fields reqs 0) as [E1 E2]. apply list_elem_of_lookup_1 in Hin as [i Hi].
  assert ((ws_alignment <$> reqs) !! i = Some (ws_alignment r)) as A by (by rewrite <- E1, list_lookup_fmap, Hi).
  assert ((ws_bytes <$> reqs) !! i = Some (ws_bytes r)) as B by (by rewrite <- E2, list_lookup_fmap, Hi).
  rewrite list_lookup_fmap in A, B. destruct (reqs !! i) as [q|] eqn:Eq; [|done]. simpl in A, B.
  injection A as A. injection B as B.
  pose proof (Forall_lookup_1 _ _ _ _ Hr Eq) as [? ?]. pose proof (Forall_lookup_1 _ _ _ _ Hv Eq) as Hq.
  unfold req_range. by rewrite <- A, <- B.
Qed.

Lemma max_alignment_pos reqs : 1 <= max_alignment reqs.
Proof.
  unfold max_alignment. enough (forall q m, 1 <= m -> 1 <= foldl Z.max m q) as H by (apply H; lia).
  induction q as [|a q IH]; intros m Hm; simpl; [done|]. apply IH. lia.
Qed.

(** ** Properties *)

Lemma forallb_valid reqs :
  forallb (fun r => IsValidWorkspaceAlignment (ws_alignment r)) reqs = true <-> valid_reqs reqs.
Proof. unfold valid_reqs. rewrite forallb_forall, Forall_forall. by setoid_rewrite <- list_elem_of_In. Qed.

Lemma Plan_outcome reqs : Forall req_range reqs ->
  match PlanWorkspaceRequirements reqs with
  | (Ret l, rs) => valid_reqs reqs /\ rs = (place 0 reqs).1 /\ total_bytes l = (place 0 reqs).2 /\
      total_bytes l < 2 ^ 64 /\ required_alignment l = max_alignment reqs /\
      plan_ok rs (total_bytes l) (required_alignment l)
  | (Fail e, rs) =>
      (code e = StatusCode.kInvalidArgument /\ ~ valid_reqs reqs /\ rs = reqs) \/
      (code e = StatusCode.kOverflow /\ valid_reqs reqs /\ 2 ^ 64 <= (place 0 reqs).2)
  | (Panic _, _) => False
  end.
Proof.
  intros Hr. unfold PlanWorkspaceRequirements.
  destruct (forallb _ reqs) eqn:E.
  - apply forallb_valid in E.
    pose proof (place_loop_spec reqs (mkPlan 0 1) [] Hr E ltac:(unfold in_u; simpl; lia)) as H.
    pose proof (place_plan_ok reqs Hr E) as Hok.
    cbn [total_bytes required_alignment] in H. destruct (place 0 reqs) as [rs e].
    destruct (Z.ltb_spec e (2 ^ 64)) as [Hlt|Hge].
    + rewrite H. simpl. split_and!; done.
    + destruct H as (msg & rs' & ->). right. done.
  - left. split; [done|]. split; [|done]. intros Hv. apply forallb_valid in Hv. congruence.
Qed.

(** C34: Workspace planning refines the obvious placement over unbounded
    integers. Planning succeeds exactly when all alignments are powers of two
    and the reference layout ends below [2^64]; the offsets written are the
    reference ones; non-empty slices are aligned, ordered, pairwise disjoint and
    inside [total_bytes]; [required_alignment] is a multiple of every slice's
    alignment. Otherwise the error is [kInvalidArgument] with nothing written,
    or [kOverflow]. *)
Theorem PlanWorkspaceRequirements_refines reqs :
  Forall req_range reqs ->
  match PlanWorkspaceRequirements reqs with
  | (Ret l, rs) => valid_reqs reqs /\ rs = (place 0 reqs).1 /\ total_bytes l = (place 0 reqs).2 /\
      total_bytes l < 2 ^ 64 /\ required_alignment l = max_alignment reqs /\
      plan_ok rs (total_bytes l) (required_alignment l)
  | (Fail e, rs) =>
      (code e = StatusCode.kInvalidArgument /\ ~ valid_reqs reqs /\ rs = reqs) \/
      (code e = StatusCode.kOverflow /\ valid_reqs reqs /\ 2 ^ 64 <= (place 0 reqs).2)
  | (Panic _, _) => False
  end.
Proof. apply Plan_outcome. Qed.

Lemma Bind_slice arena r align :
  0 < base_ arena -> base_ arena mod align = 0 -> 0 < ws_alignment r -> (ws_alignment r | align) -> align <> 0 ->
  in_u 64 (size_ arena) ->
  0 < ws_bytes r -> 0 <= ws_offset r -> ws_offset r mod ws_alignment r = 0 ->
  ws_offset r + ws_bytes r <= size_ arena ->
  Bind arena r = mkBinding (base_ arena + ws_offset r) (ws_bytes r).
Proof.
  intros Hb Hba Ha Hd Hn Hsz Hbytes Ho Hm Hs. unfold Bind, in_u in *.
  rewrite !(proj2 (Z.eqb_neq _ 0)) by lia. simpl. rewrite (proj2 (Z.leb_gt _ _)) by lia. simpl.
  rewrite wrap_small by (unfold in_u; lia). rewrite (proj2 (Z.ltb_ge _ _)) by lia.
  replace ((base_ arena + ws_offset r) mod ws_alignment r) with 0; [done|].
  apply Z.mod_divide in Hba; [|done]. apply Z.mod_divide in Hm; [|lia]. symmetry.
  apply Z.mod_divide; [lia|]. apply Z.divide_add_r; [by apply (Z.divide_trans _ align)|done].
Qed.

(** A planned workspace can be served. Given a plan and a CPU arena whose
    base has the plan's alignment and whose size covers its total, every planned
    requirement binds: empty ones to the null binding, the others to their own
    slice of the arena, at an address with the requested alignment, inside the
    arena, and disjoint from every other slice. *)
Theorem planned_binds reqs l rs arena :
  Forall req_range reqs -> PlanWorkspaceRequirements reqs = (Ret l, rs) ->
  0 < base_ arena -> base_ arena mod required_alignment l = 0 -> total_bytes l <= size_ arena ->
  in_u 64 (size_ arena) ->
  (forall r, r ∈ rs ->
    BindWorkspace (Some (Bind arena)) r =
      Ret (if ws_bytes r =? 0 then null_binding else mkBinding (base_ arena + ws_offset r) (ws_bytes r))) /\
  (forall r, r ∈ rs -> ws_bytes r <> 0 ->
    (base_ arena + ws_offset r) mod ws_alignment r = 0 /\
    base_ arena <= base_ arena + ws_offset r /\
    base_ arena + ws_offset r + ws_bytes r <= base_ arena + size_ arena) /\
  (forall i j r r', (i < j)%nat -> rs !! i = Some r -> rs !! j = Some r' ->
    ws_bytes r <> 0 -> ws_bytes r' <> 0 ->
    base_ arena + ws_offset r + ws_bytes r <= base_ arena + ws_offset r').
Proof.
  intros Hr HP Hb Hal Hsz Hu. pose proof (Plan_outcome reqs Hr) as H. rewrite HP in H.
  destruct H as (Hv & Hrs & Ht & Ht' & Hreq & [Hin Hdv Hdj]).
  assert (forall r, r ∈ rs -> req_range r /\ IsValidWorkspaceAlignment (ws_alignment r) = true) as Hf
    by (intros r; rewrite Hrs; by apply placed_range).
  pose proof (max_alignment_pos reqs) as Hmax. rewrite <- Hreq in Hmax.
  assert (forall r, r ∈ rs -> ws_bytes r <> 0 ->
    Bind arena r = mkBinding (base_ arena + ws_offset r) (ws_bytes r)) as HB.
  { intros r Hr' Hne. destruct (Hf _ Hr') as [Hrr Hva]. destruct (Hin _ Hr' Hne) as (? & ? & ?).
    pose proof (valid_positive _ Hrr Hva). destruct Hrr as [[Hb0 _] _].
    apply (Bind_slice _ _ (required_alignment l)); auto; lia. }
  split_and!.
  - intros r Hr'. destruct (Hf _ Hr') as [[[Hb0 _] _] Hva]. unfold BindWorkspace. rewrite Hva. simpl.
    destruct (Z.eqb_spec (ws_bytes r) 0) as [|Hne]; [done|]. rewrite HB by done. simpl.
    destruct (Hin _ Hr' Hne) as (? & ? & ?).
    rewrite (proj2 (Z.eqb_neq _ 0)), (proj2 (Z.ltb_ge _ _)) by lia. done.
  - intros r Hr' Hne. destruct (Hin _ Hr' Hne) as (? & Hm & ?). destruct (Hf _ Hr') as [Hrr Hva].
    pose proof (valid_positive _ Hrr Hva) as Hp. split; [|lia].
    rewrite Z.add_mod, Hm, Z.add_0_r, Z.mod_mod by lia. apply Z.mod_divide; [lia|].
    etrans; [by apply Hdv|]. apply Z.mod_divide; [lia|done].
  - intros i j r r' Hij Hi Hj H1 H2. specialize (Hdj i j r r' Hij Hi Hj H1 H2). lia.
Qed.

(** A failed plan may still have moved offsets: when a later requirement
    overflows, the offsets of the earlier ones are already written. *)
Theorem failed_plan_moves_offsets :
  exists reqs e rs, Forall req_range reqs /\ PlanWorkspaceRequirements reqs = (Fail e, rs) /\
    ws_offset <$> rs <> ws_offset <$> reqs.
Proof.
  exists [mkReq 8 8 kPerLayer true 7; mkReq (2 ^ 64 - 8) 8 kPerLayer true 0].
  eexists _, _. split; [repeat constructor; vm_compute; congruence|].
  split; [vm_compute; reflexivity|]. vm_compute. congruence.
Qed.

(** ** Witnesses *)

Definition demo_reqs : list WorkspaceRequirement :=
  [mkReq 10 16 kPerLayer true 0; mkReq 0 8 kLifetimeNone true 0; mkReq 100 64 kPerToken true 0].

Lemma demo_range : Forall req_range demo_reqs.
Proof. repeat constructor; vm_compute; congruence. Qed.

Lemma PlanWorkspaceRequirements_refines_witness :
  PlanWorkspaceRequirements demo_reqs =
    (Ret (mkPlan 164 64),
     [mkReq 10 16 kPerLayer true 0; mkReq 0 8 kLifetimeNone true 10; mkReq 100 64 kPerToken true 64]) /\
  plan_ok (PlanWorkspaceRequirements demo_reqs).2 164 64.
Proof.
  split; [vm_compute; reflexivity|].
  pose proof (PlanWorkspaceRequirements_refines demo_reqs demo_range) as H.
  replace (PlanWorkspaceRequirements demo_reqs) with
    (Ret (mkPlan 164 64),
     [mkReq 10 16 kPerLayer true 0; mkReq 0 8 kLifetimeNone true 10; mkReq 100 64 kPerToken true 64]) in *
    by (vm_compute; reflexivity).
  apply H.
Defined.

Lemma planned_binds_witness :
  BindWorkspace (Some (Bind (mkArena 4096 256))) (mkReq 100 64 kPerToken true 64) = Ret (mkBinding 4160 100).
Proof.
  apply (planned_binds demo_reqs (mkPlan 164 64)
    [mkReq 10 16 kPerLayer true 0; mkReq 0 8 kLifetimeNone true 10; mkReq 100 64 kPerToken true 64]
    (mkArena 4096 256) demo_range); first [vm_compute; (reflexivity || congruence || split; congruence) | do 2 right; left].
Defined.
