(* ===== verification/KVCache.v ===== *)
(** * KVCache: the key/value cache manager and its session views

    [src/execution/kv_cache_manager.cpp], [kv_cache_view.cpp] and their
    headers. A view holds pointers to the manager's layout, storage and slot and
    the generation at which it was issued, so every view operation takes the
    manager's current state: the aliasing is explicit. The outcome of each
    [posix_memalign] call is an argument of [Init]. *)
From S2P Require Import Prelude OverflowCheck DataTypes Workspace.

(** ** Data *)

(* @src include/aethermind/execution/kv_cache_view.h:11-30 KVCacheLayout *)
Record KVCacheLayout := mkLayout {
  num_layers : Z; num_kv_heads : Z; max_tokens : Z; head_dim : Z; head_dim_stride : Z;
  token_stride : Z; head_stride : Z; layer_stride : Z; kv_dtype : DataType.t; alignment : Z }.

Definition default_layout : KVCacheLayout := mkLayout 0 0 0 0 0 0 0 0 DataType.default_type 64.

(** A buffer is its base address and size; [None] is the empty handle. *)
(* @src include/aethermind/execution/kv_cache_view.h:32-39 KVCacheStorage *)
Record KVCacheStorage := mkStorage {
  key_buffer : option (Z * Z); value_buffer : option (Z * Z);
  storage_dtype : DataType.t; storage_alignment : Z }.

Definition default_storage : KVCacheStorage := mkStorage None None DataType.default_type 64.

(* @src include/aethermind/execution/kv_cache_view.h:41-47 SessionKVSlot *)
Record SessionKVSlot := mkSlot {
  generation : Z; in_use : bool; capacity_tokens : Z; prompt_len : Z; slot_pos : Z }.

Definition default_slot : SessionKVSlot := mkSlot 0 false 0 0 0.

(* @src include/aethermind/execution/kv_cache_manager.h:30-34 KVCacheManager (state) *)
Record KVCacheManager := mkManager {
  layout_ : KVCacheLayout; storage_ : KVCacheStorage; slot_ : SessionKVSlot;
  total_bytes_ : Z; initialized_ : bool }.

Definition new_manager : KVCacheManager := mkManager default_layout default_storage default_slot 0 false.

(** The three pointers are set together by the constructor and cleared together
    by [Invalidate]. *)
(* @src include/aethermind/execution/kv_cache_view.h:102-105 KVCacheView (state) *)
Record KVCacheView := mkView { bound : bool; view_generation : Z }.

(** ** Layout *)

(* @src src/execution/kv_cache_view.cpp:17-19 KVCacheLayout::ElementBytes *)
Definition ElementBytes (l : KVCacheLayout) : Res Z := DataType.nbytes (kv_dtype l).

(* @src src/execution/kv_cache_view.cpp:21-39 KVCacheLayout::Validate *)
Definition layout_Validate (l : KVCacheLayout) : Res unit :=
  _ ← reject_if ((num_layers l =? 0) || (num_kv_heads l =? 0) || (max_tokens l =? 0) || (head_dim l =? 0))
        (InvalidArgument "KV layout dimensions must be non-zero");
  _ ← reject_if (negb (IsValidWorkspaceAlignment (alignment l)))
        (InvalidArgument "KV layout alignment must be a non-zero power of two");
  bad_dtype ← (if DataType.bits (kv_dtype l) =? 0 then Ret true
               else n ← DataType.lanes (kv_dtype l); Ret (n =? 0));
  _ ← reject_if bad_dtype (InvalidArgument "KV layout dtype must be initialized");
  reject_if (head_dim_stride l <? head_dim l)
    (InvalidArgument "KV head_dim_stride must be >= head_dim").

(* @src src/execution/kv_cache_view.cpp:7-13 ValidateIndexRange *)
Definition ValidateIndexRange (index upper_bound : Z) (label : string) : Res unit :=
  reject_if (upper_bound <=? index) (OutOfRange (label +:+ " index out of range")).

(** [CheckOverflowMul(...) || CheckOverflowAdd(...)] then an overflow status. *)
Definition checked_mul (a b : Z) (msg : string) : Res Z :=
  let '(o, r) := CheckOverflowMul uint64_ty a b in _ ← reject_if o (Overflow msg); Ret r.
Definition checked_add (a b : Z) (msg : string) : Res Z :=
  let '(o, r) := CheckOverflowAdd uint64_ty a b in _ ← reject_if o (Overflow msg); Ret r.

Arguments checked_mul : simpl never.
Arguments checked_add : simpl never.

(* @src src/execution/kv_cache_view.cpp:41-75 KVCacheLayout::Offset *)
Definition layout_Offset (l : KVCacheLayout) (layer_idx kv_head_idx seq_pos dim_idx : Z) : Res Z :=
  _ ← layout_Validate l;
  _ ← ValidateIndexRange layer_idx (num_layers l) "layer";
  _ ← ValidateIndexRange kv_head_idx (num_kv_heads l) "kv_head";
  _ ← ValidateIndexRange seq_pos (max_tokens l) "seq_pos";
  _ ← ValidateIndexRange dim_idx (head_dim l) "dim";
  offset ← checked_mul layer_idx (layer_stride l) "KV layer offset overflowed size_t";
  head_offset ← checked_mul kv_head_idx (head_stride l) "KV head offset overflowed size_t";
  offset ← checked_add offset head_offset "KV head offset overflowed size_t";
  token_offset ← checked_mul seq_pos (token_stride l) "KV token offset overflowed size_t";
  offset ← checked_add offset token_offset "KV token offset overflowed size_t";
  eb ← ElementBytes l;
  dim_offset ← checked_mul dim_idx eb "KV dim offset overflowed size_t";
  checked_add offset dim_offset "KV dim offset overflowed size_t".

(* @src src/execution/kv_cache_view.cpp:77-84 KVCacheLayout::BytesPerPlane *)
Definition BytesPerPlane (l : KVCacheLayout) : Res Z :=
  _ ← layout_Validate l;
  checked_mul (num_layers l) (layer_stride l) "KV bytes-per-plane overflowed size_t".

(* @src src/execution/kv_cache_view.cpp:86-88 KVCacheStorage::is_initialized *)
Definition storage_initialized (s : KVCacheStorage) : bool :=
  bool_decide (key_buffer s <> None) && bool_decide (value_buffer s <> None).

(** ** Manager *)

(* @src src/execution/kv_cache_manager.cpp:14-27 AllocateAlignedCpuBuffer *)
Definition AllocateAlignedCpuBuffer (mem : option Z) (nbytes align : Z) : Res (Z * Z) :=
  _ ← reject_if (negb (IsValidWorkspaceAlignment align))
        (InvalidArgument "KV buffer alignment must be a non-zero power of two");
  match mem with
  | Some ptr => _ ← reject_if (ptr =? 0) (ResourceExhausted "Failed to allocate aligned KV buffer");
                Ret (ptr, nbytes)
  | None => Fail (ResourceExhausted "Failed to allocate aligned KV buffer")
  end.

(* @src src/execution/kv_cache_manager.cpp:31-47 KVCacheManager::AllocateStorage *)
Definition AllocateStorage (l : KVCacheLayout) (key_mem value_mem : option Z) (bytes_per_plane align : Z)
    : Res KVCacheStorage :=
  k ← AllocateAlignedCpuBuffer key_mem bytes_per_plane align;
  v ← AllocateAlignedCpuBuffer value_mem bytes_per_plane align;
  Ret (mkStorage (Some k) (Some v) (kv_dtype l) align).

(** The layout as [Init] first fills it, and with the strides written so far. *)
Definition layout_with (nl nh mt hd : Z) (dt : DataType.t) (al ts hs ls : Z) : KVCacheLayout :=
  mkLayout nl nh mt hd hd ts hs ls dt al.

(** A failed [Init] leaves the reset manager with the layout written so far. *)
Definition failed_init {A} (r : Res A) (l : KVCacheLayout) : Res unit * KVCacheManager :=
  (match r with Fail e => Fail e | Panic w => Panic w | Ret _ => Ret tt end,
   mkManager l default_storage default_slot 0 false).

(* @src src/execution/kv_cache_manager.cpp:49-97 KVCacheManager::Init *)
Definition Init (nl nh mt hd : Z) (dt : DataType.t) (al : Z) (key_mem value_mem : option Z)
    : Res unit * KVCacheManager :=
  let overflow := Fail (A := unit) (Overflow "KV layout stride computation overflowed size_t") in
  let l0 := layout_with nl nh mt hd dt al 0 0 0 in
  match ElementBytes l0 with
  | Ret eb =>
      if eb =? 0 then
        failed_init (Fail (A := unit) (InvalidArgument "KV dtype must have non-zero element bytes")) l0
      else
        let '(o1, ts) := CheckOverflowMul uint64_ty hd eb in
        let l1 := layout_with nl nh mt hd dt al ts 0 0 in
        if o1 then failed_init overflow l1 else
        let '(o2, hs) := CheckOverflowMul uint64_ty mt ts in
        let l2 := layout_with nl nh mt hd dt al ts hs 0 in
        if o2 then failed_init overflow l2 else
        let '(o3, ls) := CheckOverflowMul uint64_ty nh hs in
        let l3 := layout_with nl nh mt hd dt al ts hs ls in
        if o3 then failed_init overflow l3 else
        let r :=
          _ ← layout_Validate l3;
          bytes_per_plane ← BytesPerPlane l3;
          total ← checked_mul bytes_per_plane 2 "KV total bytes overflowed size_t";
          storage ← AllocateStorage l3 key_mem value_mem bytes_per_plane al;
          Ret (storage, total) in
        match r with
        | Ret (storage, total) => (Ret tt, mkManager l3 storage default_slot total true)
        | _ => failed_init r l3
        end
  | r => failed_init r l0
  end.

Definition set_slot (m : KVCacheManager) (s : SessionKVSlot) : KVCacheManager :=
  mkManager (layout_ m) (storage_ m) s (total_bytes_ m) (initialized_ m).

(** [KVCacheView(&layout_, &storage_, &slot_)]. *)
(* @src src/execution/kv_cache_view.cpp:90-94 KVCacheView::KVCacheView *)
Definition make_view (m : KVCacheManager) : KVCacheView := mkView true (generation (slot_ m)).

(* @src src/execution/kv_cache_manager.cpp:99-126 KVCacheManager::ReserveForSession *)
Definition ReserveForSession (m : KVCacheManager) (plen max_new_tokens : Z)
    : Res KVCacheView * KVCacheManager :=
  let check :=
    _ ← reject_if (negb (initialized_ m)) (FailedPrecondition "KVCacheManager is not initialized");
    _ ← reject_if (in_use (slot_ m))
          (FailedPrecondition "KVCacheManager already has an active session reservation");
    requested ← checked_add plen max_new_tokens "KV session reservation overflowed size_t";
    _ ← reject_if (requested =? 0)
          (InvalidArgument "KV session reservation must request at least one token");
    _ ← reject_if (max_tokens (layout_ m) <? requested)
          (OutOfRange "KV session reservation exceeds physical KV capacity");
    Ret requested in
  match check with
  | Ret requested =>
      let m' := set_slot m (mkSlot (u64 (generation (slot_ m) + 1)) true requested plen plen) in
      (Ret (make_view m'), m')
  | Fail e => (Fail e, m)
  | Panic w => (Panic w, m)
  end.

(** ** View state *)

(* @src src/execution/kv_cache_view.cpp:96-98 KVCacheView::IsSlotAlive *)
Definition IsSlotAlive (m : KVCacheManager) (v : KVCacheView) : bool :=
  bound v && in_use (slot_ m) && (generation (slot_ m) =? view_generation v).

(* @src src/execution/kv_cache_view.cpp:100-102 KVCacheView::valid *)
Definition valid (m : KVCacheManager) (v : KVCacheView) : bool :=
  bound v && storage_initialized (storage_ m) && IsSlotAlive m v.

(* @src src/execution/kv_cache_view.cpp:108-110 KVCacheView::current_pos *)
Definition current_pos (m : KVCacheManager) (v : KVCacheView) : Z :=
  if valid m v then slot_pos (slot_ m) else 0.
(* @src src/execution/kv_cache_view.cpp:124-126 KVCacheView::token_capacity *)
Definition token_capacity (m : KVCacheManager) (v : KVCacheView) : Z :=
  if valid m v then capacity_tokens (slot_ m) else 0.

(* @src src/execution/kv_cache_manager.cpp:128-138 KVCacheManager::ResetSession *)
Definition ResetSession (m : KVCacheManager) (v : KVCacheView) : Res unit * KVCacheManager :=
  if negb (initialized_ m) then (Fail (FailedPrecondition "KVCacheManager is not initialized"), m)
  else if negb (valid m v) then
    (Fail (FailedPrecondition "Cannot reset an invalid or stale KVCacheView"), m)
  else let s := slot_ m in
    (Ret tt, set_slot m (mkSlot (generation s) (in_use s) (capacity_tokens s) (prompt_len s) (prompt_len s))).

(* @src src/execution/kv_cache_view.cpp:259-264 KVCacheView::Invalidate *)
Definition Invalidate (v : KVCacheView) : KVCacheView := mkView false 0.

(* @src src/execution/kv_cache_manager.cpp:140-155 KVCacheManager::ReleaseSession *)
Definition ReleaseSession (m : KVCacheManager) (v : KVCacheView)
    : Res unit * KVCacheManager * KVCacheView :=
  if negb (initialized_ m) then (Fail (FailedPrecondition "KVCacheManager is not initialized"), m, v)
  else if negb (valid m v) then
    (Fail (FailedPrecondition "Cannot release an invalid or stale KVCacheView"), m, v)
  else (Ret tt, set_slot m (mkSlot (u64 (generation (slot_ m) + 1)) false 0 0 0), Invalidate v).

(* @src src/execution/kv_cache_view.cpp:132-146 KVCacheView::ValidateBaseState *)
Definition ValidateBaseState (m : KVCacheManager) (v : KVCacheView) : Res unit :=
  _ ← reject_if (negb (bound v)) (FailedPrecondition "KVCacheView is not bound to manager-owned state");
  _ ← reject_if (negb (storage_initialized (storage_ m)))
        (FailedPrecondition "KVCacheView storage is not initialized");
  _ ← reject_if (negb (IsSlotAlive m v)) (FailedPrecondition "KVCacheView is stale or released");
  layout_Validate (layout_ m).

(* @src src/execution/kv_cache_view.cpp:148-173 KVCacheView::ValidateWrite *)
Definition ValidateWrite (m : KVCacheManager) (v : KVCacheView)
    (layer_idx kv_head_idx seq_pos token_count : Z) : Res unit :=
  _ ← ValidateBaseState m v;
  _ ← ValidateIndexRange layer_idx (num_layers (layout_ m)) "layer";
  _ ← ValidateIndexRange kv_head_idx (num_kv_heads (layout_ m)) "kv_head";
  _ ← reject_if (token_count =? 0) (InvalidArgument "KV write token_count must be non-zero");
  seq_end ← checked_add seq_pos token_count "KV write range overflowed size_t";
  _ ← reject_if (capacity_tokens (slot_ m) <? seq_end)
        (OutOfRange "KV write exceeds reserved session token capacity");
  reject_if (max_tokens (layout_ m) <? seq_end) (OutOfRange "KV write exceeds physical KV capacity").

(* @src src/execution/kv_cache_view.cpp:175-189 KVCacheView::ValidateRead *)
Definition ValidateRead (m : KVCacheManager) (v : KVCacheView)
    (layer_idx kv_head_idx seq_begin seq_end : Z) : Res unit :=
  _ ← ValidateBaseState m v;
  _ ← ValidateIndexRange layer_idx (num_layers (layout_ m)) "layer";
  _ ← ValidateIndexRange kv_head_idx (num_kv_heads (layout_ m)) "kv_head";
  _ ← reject_if (seq_end <? seq_begin) (InvalidArgument "KV read seq_begin must be <= seq_end");
  reject_if (slot_pos (slot_ m) <? seq_end) (OutOfRange "KV read exceeds committed token range").

(* @src src/execution/kv_cache_view.cpp:191-197 KVCacheView::Offset *)
Definition view_Offset (m : KVCacheManager) (v : KVCacheView) (layer_idx kv_head_idx seq_pos dim_idx : Z)
    : Res Z :=
  _ ← ValidateBaseState m v; layout_Offset (layout_ m) layer_idx kv_head_idx seq_pos dim_idx.

(** [impl_->data()] of an empty buffer dereferences null. *)
Definition buffer_data (b : option (Z * Z)) : Res Z :=
  match b with Some (p, _) => Ret p | None => Panic "null buffer" end.

(* @src src/execution/kv_cache_view.cpp:199-209 KVCacheView::MutableKeyData *)
Definition MutableKeyData (m : KVCacheManager) (v : KVCacheView) (layer_idx kv_head_idx seq_pos dim_idx : Z)
    : Res Z :=
  _ ← ValidateWrite m v layer_idx kv_head_idx seq_pos 1;
  offset ← view_Offset m v layer_idx kv_head_idx seq_pos dim_idx;
  base ← buffer_data (key_buffer (storage_ m)); Ret (base + offset).

(* @src src/execution/kv_cache_view.cpp:211-221 KVCacheView::MutableValueData *)
Definition MutableValueData (m : KVCacheManager) (v : KVCacheView) (layer_idx kv_head_idx seq_pos dim_idx : Z)
    : Res Z :=
  _ ← ValidateWrite m v layer_idx kv_head_idx seq_pos 1;
  offset ← view_Offset m v layer_idx kv_head_idx seq_pos dim_idx;
  base ← buffer_data (value_buffer (storage_ m)); Ret (base + offset).

(** [seq_pos + 1] wraps. *)
(* @src src/execution/kv_cache_view.cpp:223-233 KVCacheView::KeyData *)
Definition KeyData (m : KVCacheManager) (v : KVCacheView) (layer_idx kv_head_idx seq_pos dim_idx : Z)
    : Res Z :=
  _ ← ValidateRead m v layer_idx kv_head_idx seq_pos (u64 (seq_pos + 1));
  offset ← view_Offset m v layer_idx kv_head_idx seq_pos dim_idx;
  base ← buffer_data (key_buffer (storage_ m)); Ret (base + offset).

(* @src src/execution/kv_cache_view.cpp:235-245 KVCacheView::ValueData *)
Definition ValueData (m : KVCacheManager) (v : KVCacheView) (layer_idx kv_head_idx seq_pos dim_idx : Z)
    : Res Z :=
  _ ← ValidateRead m v layer_idx kv_head_idx seq_pos (u64 (seq_pos + 1));
  offset ← view_Offset m v layer_idx kv_head_idx seq_pos dim_idx;
  base ← buffer_data (value_buffer (storage_ m)); Ret (base + offset).

(* @src src/execution/kv_cache_view.cpp:247-257 KVCacheView::CommitUntil *)
Definition CommitUntil (m : KVCacheManager) (v : KVCacheView) (new_pos : Z) : Res unit * KVCacheManager :=
  let s := slot_ m in
  let check :=
    _ ← ValidateBaseState m v;
    _ ← reject_if (new_pos <? slot_pos s) (InvalidArgument "KV commit position cannot move backwards");
    reject_if (capacity_tokens s <? new_pos)
      (OutOfRange "KV commit exceeds reserved session token capacity") in
  match check with
  | Ret _ => (Ret tt, set_slot m (mkSlot (generation s) (in_use s) (capacity_tokens s) (prompt_len s) new_pos))
  | Fail e => (Fail e, m)
  | Panic w => (Panic w, m)
  end.

(** ** The invariant *)

(** The strides are those of a dense row-major array of elements. *)
Record layout_wf (l : KVCacheLayout) (eb bpp : Z) : Prop := {
  lw_dims : 0 < num_layers l /\ 0 < num_kv_heads l /\ 0 < max_tokens l /\ 0 < head_dim l;
  lw_eb : ElementBytes l = Ret eb /\ 0 < eb;
  lw_token : token_stride l = head_dim l * eb;
  lw_head : head_stride l = max_tokens l * token_stride l;
  lw_layer : layer_stride l = num_kv_heads l * head_stride l;
  lw_bytes : bpp = num_layers l * layer_stride l;
  lw_bound : bpp < 2 ^ 64;
  lw_valid : layout_Validate l = Ret tt }.

Definition slot_wf (l : KVCacheLayout) (s : SessionKVSlot) : Prop :=
  in_u 64 (generation s) /\
  (in_use s = true -> 0 <= prompt_len s <= slot_pos s /\ slot_pos s <= capacity_tokens s /\
     0 < capacity_tokens s <= max_tokens l).

(** The manager between calls. *)
Definition manager_wf (m : KVCacheManager) : Prop :=
  slot_wf (layout_ m) (slot_ m) /\
  if initialized_ m then
    exists eb bpp kp vp, layout_wf (layout_ m) eb bpp /\ total_bytes_ m = 2 * bpp /\
      storage_ m = mkStorage (Some (kp, bpp)) (Some (vp, bpp)) (kv_dtype (layout_ m)) (alignment (layout_ m))
  else storage_initialized (storage_ m) = false /\ in_use (slot_ m) = false.

Lemma checked_mul_ret a b msg r : checked_mul a b msg = Ret r <-> r = a * b /\ in_u 64 (a * b).
Proof.
  unfold checked_mul. rewrite CheckOverflowMul_u64. split.
  - intros H. res_inv. bsplit. split; [done|]. by apply (wrap_id_iff 64).
  - intros [-> Hr]. rewrite wrap_small by done. by rewrite Z.eqb_refl.
Qed.

Lemma checked_add_ret a b msg r : checked_add a b msg = Ret r <-> r = a + b /\ in_u 64 (a + b).
Proof.
  unfold checked_add, CheckOverflowAdd. cbn [int_trunc ty_signed uint64_ty ty_width]. split.
  - intros H. res_inv. bsplit. split; [done|]. by apply (wrap_id_iff 64).
  - intros [-> Hr]. rewrite wrap_small by done. by rewrite Z.eqb_refl.
Qed.

Lemma checked_mul_ok a b msg : in_u 64 (a * b) -> checked_mul a b msg = Ret (a * b).
Proof. intros. by apply checked_mul_ret. Qed.

Lemma checked_add_ok a b msg : in_u 64 (a + b) -> checked_add a b msg = Ret (a + b).
Proof. intros. by apply checked_add_ret. Qed.

Lemma default_slot_wf l : slot_wf l default_slot.
Proof. split; [unfold in_u; simpl; lia|done]. Qed.

Lemma mul_check a b o r :
  CheckOverflowMul uint64_ty a b = (o, r) -> o = false -> r = a * b /\ in_u 64 (a * b).
Proof.
  rewrite CheckOverflowMul_u64. intros [= <- <-] H. bsplit. split; [done|]. by apply (wrap_id_iff 64).
Qed.

Lemma layout_Validate_ret l :
  layout_Validate l = Ret tt ->
  num_layers l <> 0 /\ num_kv_heads l <> 0 /\ max_tokens l <> 0 /\ head_dim l <> 0.
Proof. unfold layout_Validate. intros H. res_inv. bsplit. done. Qed.

Lemma nbytes_nonneg d n : 0 <= DataType.bits d -> DataType.nbytes d = Ret n -> 0 <= n.
Proof.
  unfold DataType.nbytes, DataType.lanes. intros Hb H. res_inv. bsplit. apply Z.div_pos; [|lia]. nia.
Qed.

(** A successful [Init] establishes the invariant and an idle slot. *)
Lemma Init_ret nl nh mt hd dt al km vm m :
  0 <= nl -> 0 <= nh -> 0 <= mt -> 0 <= hd -> 0 <= DataType.bits dt ->
  Init nl nh mt hd dt al km vm = (Ret tt, m) ->
  manager_wf m /\ initialized_ m = true /\ slot_ m = default_slot /\
  exists ts hs ls, layout_ m = layout_with nl nh mt hd dt al ts hs ls.
Proof.
  intros Hnl Hnh Hmt Hhd Hb H. unfold Init, failed_init in H.
  destruct (ElementBytes _) as [eb| |] eqn:HE; [|done..].
  destruct (Z.eqb_spec eb 0) as [|Heb]; [done|].
  destruct (CheckOverflowMul uint64_ty hd eb) as [o1 ts] eqn:H1. destruct o1; [done|].
  destruct (CheckOverflowMul uint64_ty mt ts) as [o2 hs] eqn:H2. destruct o2; [done|].
  destruct (CheckOverflowMul uint64_ty nh hs) as [o3 ls] eqn:H3. destruct o3; [done|].
  apply mul_check in H1 as [H1 _]; [|done]. apply mul_check in H2 as [H2 _]; [|done].
  apply mul_check in H3 as [H3 _]; [|done].
  match type of H with (match ?r with _ => _ end) = _ => destruct r as [[st tot]| |] eqn:HR end; [|done..].
  injection H as <-. res_inv. unfold BytesPerPlane in Hm0. res_inv. clear Hm3.
  apply checked_mul_ret in Hm0 as [-> Hbp]. apply checked_mul_ret in Hm1 as [-> Htot].
  unfold AllocateStorage, AllocateAlignedCpuBuffer in Hm2. destruct km as [kp|], vm as [vp|]; try done; res_inv; try done.
  simpl in *. pose proof (layout_Validate_ret _ Hm) as Hd. simpl in Hd.
  pose proof (nbytes_nonneg dt eb Hb HE) as Heb0.
  split; [|split; [done|split; [done|by eexists _, _, _]]]. split; [apply default_slot_wf|]. simpl.
  exists eb, (nl * (nh * (mt * (hd * eb)))), kp, vp. split; [|split; [simpl; lia|done]].
  unfold in_u in Hbp. split; simpl; try done; try lia. split; [done|lia].
Qed.

Lemma kv_Init_wf nl nh mt hd dt al km vm :
  0 <= nl -> 0 <= nh -> 0 <= mt -> 0 <= hd -> 0 <= DataType.bits dt ->
  manager_wf (Init nl nh mt hd dt al km vm).2.
Proof.
  intros Hnl Hnh Hmt Hhd Hb. destruct (Init nl nh mt hd dt al km vm) as [[[]|e|w] m] eqn:HI; simpl.
  - by apply (Init_ret nl nh mt hd dt al km vm m) in HI as [? _].
  - unfold Init, failed_init in HI. repeat case_match; simplify_eq; (split; [apply default_slot_wf|done]).
  - unfold Init, failed_init in HI. repeat case_match; simplify_eq; (split; [apply default_slot_wf|done]).
Qed.

(** ** Offsets *)

(** Row-major element number. *)
Definition element (l : KVCacheLayout) (layer head pos dim : Z) : Z :=
  ((layer * num_kv_heads l + head) * max_tokens l + pos) * head_dim l + dim.

Definition in_layout (l : KVCacheLayout) (layer head pos dim : Z) : Prop :=
  0 <= layer < num_layers l /\ 0 <= head < num_kv_heads l /\ 0 <= pos < max_tokens l /\ 0 <= dim < head_dim l.

(** Mixed-radix digits: the number is below the next power and determines them. *)
Lemma radix_bound a b n m : 0 <= a < n -> 0 <= b < m -> 0 <= a * m + b < n * m.
Proof. intros. nia. Qed.

Lemma radix_inj a b a' b' m : 0 <= b < m -> 0 <= b' < m -> a * m + b = a' * m + b' -> a = a' /\ b = b'.
Proof. intros. assert (a = a') by nia. split; [done|]. subst. lia. Qed.

Lemma element_bound l layer head pos dim :
  in_layout l layer head pos dim ->
  0 <= element l layer head pos dim < num_layers l * num_kv_heads l * max_tokens l * head_dim l.
Proof.
  intros (H1 & H2 & H3 & H4). unfold element.
  apply radix_bound; [|done]. apply radix_bound; [|done]. by apply radix_bound.
Qed.

Lemma element_inj l a b c d a' b' c' d' :
  in_layout l a b c d -> in_layout l a' b' c' d' ->
  element l a b c d = element l a' b' c' d' -> (a, b, c, d) = (a', b', c', d').
Proof.
  intros (H1 & H2 & H3 & H4) (G1 & G2 & G3 & G4) H. unfold element in H.
  apply radix_inj in H as [H ->]; [|done..]. apply radix_inj in H as [H ->]; [|done..].
  apply radix_inj in H as [-> ->]; done.
Qed.

Lemma bytes_eq l eb bpp : layout_wf l eb bpp ->
  bpp = num_layers l * num_kv_heads l * max_tokens l * head_dim l * eb.
Proof. intros []. rewrite lw_bytes0, lw_layer0, lw_head0, lw_token0. ring. Qed.

(** In range, [Offset] is the element number times the element size. *)
Lemma Offset_exact l eb bpp layer head pos dim :
  layout_wf l eb bpp -> in_layout l layer head pos dim ->
  layout_Offset l layer head pos dim = Ret (element l layer head pos dim * eb) /\
  0 <= element l layer head pos dim * eb /\ element l layer head pos dim * eb + eb <= bpp.
Proof.
  intros HW HI. pose proof (element_bound _ _ _ _ _ HI) as HB. pose proof (bytes_eq l eb bpp HW) as Hbytes.
  destruct HW as [Hd [He He0] Ht Hh Hl _ Hmax Hv]. pose proof HI as (H1 & H2 & H3 & H4).
  set (e := element l layer head pos dim) in *.
  assert (Hle : 0 <= e * eb /\ e * eb + eb <= bpp) by (rewrite Hbytes; nia).
  split; [|done].
  assert (Hsum : layer * layer_stride l + head * head_stride l + pos * token_stride l + dim * eb = e * eb).
  { unfold e, element. rewrite Hl, Hh, Ht. ring. }
  assert (0 <= token_stride l) by nia. assert (0 <= head_stride l) by nia. assert (0 <= layer_stride l) by nia.
  assert (0 <= layer * layer_stride l) by nia. assert (0 <= head * head_stride l) by nia.
  assert (0 <= pos * token_stride l) by nia. assert (0 <= dim * eb) by nia.
  unfold layout_Offset, ValidateIndexRange. rewrite Hv. simpl.
  rewrite (proj2 (Z.leb_gt _ layer)), (proj2 (Z.leb_gt _ head)), (proj2 (Z.leb_gt _ pos)), (proj2 (Z.leb_gt _ dim)) by lia.
  simpl. clear HI HB Hbytes Ht Hh Hl. clearbody e.
  rewrite (checked_mul_ok layer), (checked_mul_ok head), (checked_mul_ok pos) by (unfold in_u; lia). simpl.
  rewrite checked_add_ok by (unfold in_u; lia). simpl.
  rewrite checked_add_ok by (unfold in_u; lia). simpl. rewrite He. simpl.
  rewrite (checked_mul_ok dim) by (unfold in_u; lia). simpl.
  rewrite checked_add_ok by (unfold in_u; lia). by rewrite Hsum.
Qed.

(** Out of range, [Offset] fails. *)
Lemma Offset_in_range l layer head pos dim r :
  0 <= layer -> 0 <= head -> 0 <= pos -> 0 <= dim ->
  layout_Offset l layer head pos dim = Ret r -> in_layout l layer head pos dim.
Proof.
  unfold layout_Offset, ValidateIndexRange. intros ? ? ? ? H. res_inv. bsplit. unfold in_layout. lia.
Qed.

(** After a successful [Init] the cache is a dense four-dimensional array:
    every in-range index has the row-major byte offset, computed without
    overflow, its element lies inside the plane, different indices never
    overlap, and every other index is rejected. *)
Theorem kv_layout_dense nl nh mt hd dt al km vm m :
  0 <= nl -> 0 <= nh -> 0 <= mt -> 0 <= hd -> 0 <= DataType.bits dt ->
  Init nl nh mt hd dt al km vm = (Ret tt, m) ->
  exists eb bpp, ElementBytes (layout_ m) = Ret eb /\ 0 < eb /\ BytesPerPlane (layout_ m) = Ret bpp /\
    total_bytes_ m = 2 * bpp /\
    (forall a b c d, in_layout (layout_ m) a b c d -> exists off,
       layout_Offset (layout_ m) a b c d = Ret off /\ off = element (layout_ m) a b c d * eb /\
       0 <= off /\ off + eb <= bpp) /\
    (forall a b c d a' b' c' d' off off',
       0 <= a -> 0 <= b -> 0 <= c -> 0 <= d -> 0 <= a' -> 0 <= b' -> 0 <= c' -> 0 <= d' ->
       layout_Offset (layout_ m) a b c d = Ret off -> layout_Offset (layout_ m) a' b' c' d' = Ret off' ->
       (a, b, c, d) <> (a', b', c', d') -> off + eb <= off' \/ off' + eb <= off).
Proof.
  intros Hnl Hnh Hmt Hhd Hb HI. destruct (Init_ret _ _ _ _ _ _ _ _ _ Hnl Hnh Hmt Hhd Hb HI) as ([_ HW] & Hi & _).
  rewrite Hi in HW. destruct HW as (eb & bpp & kp & vp & HL & Htot & _). exists eb, bpp.
  pose proof HL as [_ [He He0] _ _ _ Hbytes Hbound Hv].
  split_and!; [done|done| |done| |].
  - unfold BytesPerPlane. rewrite Hv. simpl. apply checked_mul_ret. split; [done|].
    destruct HL as [Hd _ Ht Hh Hl _ _ _]. rewrite <- Hbytes. split; [|done].
    rewrite Hbytes, Hl, Hh, Ht. repeat apply Z.mul_nonneg_nonneg; lia.
  - intros a b c d Hin. destruct (Offset_exact _ _ _ _ _ _ _ HL Hin) as (-> & H0 & Hle). by eexists.
  - intros a b c d a' b' c' d' off off' Ha Hb' Hc Hd Ha' Hb2 Hc' Hd' H1 H2 Hne.
    apply Offset_in_range in H1 as R1; [|done..]. apply Offset_in_range in H2 as R2; [|done..].
    destruct (Offset_exact _ _ _ _ _ _ _ HL R1) as (E1 & _). destruct (Offset_exact _ _ _ _ _ _ _ HL R2) as (E2 & _).
    assert (off = element (layout_ m) a b c d * eb) as -> by congruence.
    assert (off' = element (layout_ m) a' b' c' d' * eb) as -> by congruence.
    assert (element (layout_ m) a b c d <> element (layout_ m) a' b' c' d').
    { intros HE. apply Hne. by eapply element_inj. }
    destruct (Z.lt_ge_cases (element (layout_ m) a b c d) (element (layout_ m) a' b' c' d')); [left|right]; nia.
Qed.

(** ** Sessions *)

(** Calls on an existing manager, with arbitrary (copied, stale, forged) views. *)
Inductive session_step (m : KVCacheManager) : KVCacheManager -> Prop :=
| step_reserve p n : 0 <= p -> 0 <= n -> session_step m (ReserveForSession m p n).2
| step_reset v : session_step m (ResetSession m v).2
| step_release v : session_step m (ReleaseSession m v).1.2
| step_commit v n : 0 <= n -> session_step m (CommitUntil m v n).2.

Inductive kv_step (m : KVCacheManager) : KVCacheManager -> Prop :=
| step_init nl nh mt hd dt al km vm :
    0 <= nl -> 0 <= nh -> 0 <= mt -> 0 <= hd -> 0 <= DataType.bits dt ->
    kv_step m (Init nl nh mt hd dt al km vm).2
| step_session m' : session_step m m' -> kv_step m m'.

Lemma set_slot_wf m s :
  manager_wf m -> slot_wf (layout_ m) s -> (initialized_ m = false -> in_use s = false) ->
  manager_wf (set_slot m s).
Proof. intros [_ HW] Hs Hu. split; [done|]. simpl. destruct (initialized_ m); [done|]. split; [apply HW|by apply Hu]. Qed.

Lemma valid_in_use m v : valid m v = true -> in_use (slot_ m) = true.
Proof. unfold valid, IsSlotAlive. intros H. by bsplit. Qed.

Lemma base_state_ret m v : ValidateBaseState m v = Ret tt -> valid m v = true.
Proof. unfold ValidateBaseState, valid. intros H. res_inv. bsplit. by rewrite Hm, Hm0, Hm1. Qed.

Lemma ReserveForSession_cases m p n :
  0 <= p -> 0 <= n ->
  (initialized_ m = true /\ in_use (slot_ m) = false /\ 0 < p + n <= max_tokens (layout_ m) /\
     ReserveForSession m p n =
       let m' := set_slot m (mkSlot (u64 (generation (slot_ m) + 1)) true (p + n) p p) in (Ret (make_view m'), m'))
  \/ exists e, ReserveForSession m p n = (Fail e, m).
Proof.
  intros Hp Hn. unfold ReserveForSession.
  match goal with |- context [match ?c with _ => _ end] => destruct c as [r|e|w] eqn:HC end.
  - left. res_inv. bsplit. apply checked_add_ret in Hm1 as [-> Hr]. split_and!; try done; lia.
  - right. by exists e.
  - exfalso. unfold reject_if, checked_add in HC. revert HC.
    destruct (negb (initialized_ m)), (in_use (slot_ m)); simpl; try done.
    unfold reject_if. repeat (case_match; simpl; try done).
Qed.

Lemma CommitUntil_cases m v n :
  (valid m v = true /\ slot_pos (slot_ m) <= n <= capacity_tokens (slot_ m) /\
     CommitUntil m v n = (Ret tt, set_slot m (mkSlot (generation (slot_ m)) (in_use (slot_ m))
       (capacity_tokens (slot_ m)) (prompt_len (slot_ m)) n))) \/ (CommitUntil m v n).2 = m.
Proof.
  unfold CommitUntil.
  match goal with |- context [match ?c with _ => _ end] => destruct c as [r|e|w] eqn:HC end; [left|by right..].
  res_inv. bsplit. split_and!; try done; try lia. by apply base_state_ret.
Qed.

Lemma session_wf m m' : manager_wf m -> session_step m m' -> manager_wf m'.
Proof.
  intros HW HS. pose proof HW as [[Hg Hs] HI]. destruct HS as [p n Hp Hn|v|v|v n Hn].
  - destruct (ReserveForSession_cases m p n Hp Hn) as [(Hi & _ & Hr & ->) | [e ->]]; [|done]. simpl.
    apply set_slot_wf; [done| |congruence]. split; simpl; [by apply wrap_range|]. intros _. lia.
  - unfold ResetSession. destruct (initialized_ m) eqn:Hi; [|done]. destruct (valid m v) eqn:Hv; [|done]. simpl.
    apply set_slot_wf; [done| |congruence]. split; [done|]. simpl. intros Hu. specialize (Hs Hu). lia.
  - unfold ReleaseSession. destruct (initialized_ m) eqn:Hi; [|done]. destruct (valid m v) eqn:Hv; [|done]. simpl.
    apply set_slot_wf; [done| |done]. split; [by apply wrap_range|done].
  - destruct (CommitUntil_cases m v n) as [(Hv & Hr & ->) | ->]; [|done]. simpl. apply valid_in_use in Hv as Hu.
    apply set_slot_wf; [done| |]; [split; [done|]; simpl; intros _; specialize (Hs Hu); lia|].
    intros Hi. rewrite Hi in HI. by apply HI.
Qed.

Lemma kv_step_wf m m' : manager_wf m -> kv_step m m' -> manager_wf m'.
Proof. intros HW [nl nh mt hd dt al km vm|m2 HS]; [by apply kv_Init_wf|by eapply session_wf]. Qed.

Lemma new_manager_wf : manager_wf new_manager.
Proof. split; [apply default_slot_wf|done]. Qed.

Definition kv_reachable (m : KVCacheManager) : Prop := rtc kv_step new_manager m.

Lemma kv_reachable_wf m : kv_reachable m -> manager_wf m.
Proof.
  intros H. unfold kv_reachable in H. pose proof new_manager_wf as HW.
  induction H as [|a b c Hab _ IH]; [done|]. apply IH. by eapply kv_step_wf.
Qed.

(** An address inside a plane, for one whole element. *)
Definition in_plane (b : option (Z * Z)) (p eb : Z) : Prop :=
  exists base bytes, b = Some (base, bytes) /\ base <= p /\ p + eb <= base + bytes.

Lemma initialized_of_valid m v : manager_wf m -> valid m v = true -> initialized_ m = true.
Proof.
  intros [_ HW] Hv. destruct (initialized_ m); [done|]. destruct HW as [HW _].
  unfold valid in Hv. rewrite HW in Hv. by rewrite andb_false_r in Hv.
Qed.

(** Base address plus an offset of the layout. *)
Lemma view_Offset_in_plane m v a b c d off :
  manager_wf m -> 0 <= a -> 0 <= b -> 0 <= c -> 0 <= d -> view_Offset m v a b c d = Ret off ->
  valid m v = true /\ exists eb, ElementBytes (layout_ m) = Ret eb /\ 0 < eb /\
    (forall base, buffer_data (key_buffer (storage_ m)) = Ret base -> in_plane (key_buffer (storage_ m)) (base + off) eb) /\
    (forall base, buffer_data (value_buffer (storage_ m)) = Ret base -> in_plane (value_buffer (storage_ m)) (base + off) eb).
Proof.
  intros HW Ha Hb Hc Hd H. unfold view_Offset in H. res_inv. apply base_state_ret in Hm as Hv. split; [done|].
  pose proof (initialized_of_valid m v HW Hv) as Hi. destruct HW as [_ HW]. rewrite Hi in HW.
  destruct HW as (eb & bpp & kp & vp & HL & _ & Hst). exists eb. pose proof HL as [_ [He He0] _ _ _ _ _ _].
  apply Offset_in_range in H as HR; [|done..]. destruct (Offset_exact _ _ _ _ _ _ _ HL HR) as (E & H0 & Hle).
  assert (off = element (layout_ m) a b c d * eb) as -> by congruence.
  split_and!; [done|done|..]; intros base Hbase; rewrite Hst in *; simpl in *; injection Hbase as <-;
    eexists _, _; (split; [done|]); lia.
Qed.

Lemma data_access_ret {A} (check : Res A) m v a b c d buf p :
  (_ ← check; offset ← view_Offset m v a b c d; base ← buffer_data buf; Ret (base + offset)) = Ret p ->
  exists r off base, check = Ret r /\ view_Offset m v a b c d = Ret off /\ buffer_data buf = Ret base /\
    p = base + off.
Proof. intros H. res_inv. by eexists _, _, _. Qed.

Lemma ValidateWrite_ret m v a b c k :
  ValidateWrite m v a b c k = Ret tt -> c + k <= capacity_tokens (slot_ m) /\ c + k <= max_tokens (layout_ m).
Proof. unfold ValidateWrite. intros H. res_inv. bsplit. apply checked_add_ret in Hm3 as [-> _]. lia. Qed.

Lemma ValidateRead_ret m v a b lo hi :
  ValidateRead m v a b lo hi = Ret tt -> lo <= hi <= slot_pos (slot_ m).
Proof. unfold ValidateRead. intros H. res_inv. bsplit. lia. Qed.

Lemma succ_not_wrapped c : in_u 64 c -> c <= u64 (c + 1) -> u64 (c + 1) = c + 1.
Proof.
  intros Hc Hle. apply wrap_small. unfold in_u in *. split; [lia|].
  destruct (Z.lt_ge_cases (c + 1) (2 ^ 64)) as [|Hge]; [done|exfalso].
  assert (c + 1 = 2 ^ 64) as E by lia. rewrite E in Hle. change (u64 (2 ^ 64)) with 0 in Hle. lia.
Qed.

(** C37: Memory safety of session access on every reachable manager and for any
    view value: an address handed out for writing or reading holds one whole
    element inside the key or value plane, only through a live view, only for
    positions within the reservation (writes) or already committed (reads). *)
Theorem kv_access_safe m v a b c d p :
  kv_reachable m -> 0 <= a -> 0 <= b -> in_u 64 c -> 0 <= d ->
  exists eb, (initialized_ m = true -> ElementBytes (layout_ m) = Ret eb /\ 0 < eb) /\
  (MutableKeyData m v a b c d = Ret p ->
     valid m v = true /\ c < token_capacity m v <= max_tokens (layout_ m) /\ in_plane (key_buffer (storage_ m)) p eb) /\
  (MutableValueData m v a b c d = Ret p ->
     valid m v = true /\ c < token_capacity m v <= max_tokens (layout_ m) /\ in_plane (value_buffer (storage_ m)) p eb) /\
  (KeyData m v a b c d = Ret p ->
     valid m v = true /\ c < current_pos m v <= token_capacity m v /\ in_plane (key_buffer (storage_ m)) p eb) /\
  (ValueData m v a b c d = Ret p ->
     valid m v = true /\ c < current_pos m v <= token_capacity m v /\ in_plane (value_buffer (storage_ m)) p eb).
Proof.
  intros HR Ha Hb Hc Hd. apply kv_reachable_wf in HR as HW.
  assert (He : exists eb, initialized_ m = true -> ElementBytes (layout_ m) = Ret eb /\ 0 < eb).
  { destruct HW as [_ HW]. destruct (initialized_ m); [|by exists 0].
    destruct HW as (eb & ? & ? & ? & HL & _). exists eb. intros _. apply HL. }
  destruct He as [eb He]. exists eb. split; [done|].
  assert (Hslot : valid m v = true -> slot_pos (slot_ m) <= capacity_tokens (slot_ m) /\
    capacity_tokens (slot_ m) <= max_tokens (layout_ m)).
  { intros Hv. destruct HW as [[_ Hs] _]. specialize (Hs (valid_in_use m v Hv)). lia. }
  assert (HO : forall off, view_Offset m v a b c d = Ret off -> valid m v = true /\
    (forall base, buffer_data (key_buffer (storage_ m)) = Ret base -> in_plane (key_buffer (storage_ m)) (base + off) eb) /\
    (forall base, buffer_data (value_buffer (storage_ m)) = Ret base -> in_plane (value_buffer (storage_ m)) (base + off) eb)).
  { intros off Hoff. destruct (view_Offset_in_plane m v a b c d off HW Ha Hb ltac:(apply Hc) Hd Hoff)
      as (Hv & eb' & He' & _ & HK & HV).
    destruct (He (initialized_of_valid m v HW Hv)) as [He2 _]. assert (eb' = eb) as -> by congruence. done. }
  unfold token_capacity, current_pos.
  split_and!; intros H; apply data_access_ret in H as (u & off & base & Hck & Hoff & Hbase & ->);
    destruct u; destruct (HO off Hoff) as (Hv & HK & HV); specialize (Hslot Hv); rewrite Hv;
    (split; [done|]); (split; [|by auto]).
  1,2: apply ValidateWrite_ret in Hck; lia.
  1,2: apply ValidateRead_ret in Hck; rewrite succ_not_wrapped in Hck by (done || lia); lia.
Qed.

(** A stale view. *)
Lemma session_generation m m' v :
  generation (slot_ m) + 1 < 2 ^ 64 -> 0 <= generation (slot_ m) -> session_step m m' ->
  generation (slot_ m) <= generation (slot_ m') <= generation (slot_ m) + 1 /\
  (view_generation v <= generation (slot_ m) -> IsSlotAlive m v = false -> IsSlotAlive m' v = false).
Proof.
  intros Hg H0 HS. unfold IsSlotAlive.
  assert (Hu : u64 (generation (slot_ m) + 1) = generation (slot_ m) + 1)
    by (apply wrap_small; unfold in_u; lia).
  destruct HS as [p n Hp Hn|w|w|w n Hn].
  - destruct (ReserveForSession_cases m p n Hp Hn) as [(_ & _ & _ & ->) | [e ->]]; [|split; [simpl; lia|done]].
    simpl. rewrite Hu. split; [lia|]. intros Hv _. rewrite (proj2 (Z.eqb_neq _ _)) by lia. apply andb_false_r.
  - unfold ResetSession. destruct (negb (initialized_ m)); [split; [simpl; lia|done]|].
    destruct (negb (valid m w)); split; simpl; done || lia.
  - unfold ReleaseSession. destruct (negb (initialized_ m)); [split; [simpl; lia|done]|].
    destruct (negb (valid m w)); [split; [simpl; lia|done]|]. simpl. rewrite Hu. split; [lia|].
    intros _ _. by rewrite andb_false_r.
  - destruct (CommitUntil_cases m w n) as [(_ & _ & ->) | ->]; split; simpl; done || lia.
Qed.

(** A view that is stale stays stale: through any sequence of reserve,
    reset, release and commit calls (fewer than the generation counter has
    room for), no copy of a released or superseded view becomes usable again,
    so it can neither read, write, commit nor release a later session. *)
Theorem stale_views_stay_stale m m' v k :
  manager_wf m -> nsteps session_step k m m' -> generation (slot_ m) + Z.of_nat k < 2 ^ 64 ->
  view_generation v <= generation (slot_ m) -> IsSlotAlive m v = false -> valid m' v = false.
Proof.
  intros HW HS. revert HW. induction HS as [m|k m m1 m' H1 _ IH]; intros HW Hk Hv Hs.
  - unfold valid. rewrite Hs. apply andb_false_r.
  - destruct (session_generation m m1 v) as [Hg Hst]; [lia|apply HW|done|].
    apply IH; [by eapply session_wf|lia|lia|by apply Hst].
Qed.

(** The guarantee does not extend over a second [Init], which restarts the
    generation counter: a view of the first session after the first [Init] is
    valid again, and indistinguishable from the owner's view, in the first
    session after the second. *)
Theorem reinit_revives_stale_view nl nh mt hd dt al km vm m1 p n v1 m2
    nl' nh' mt' hd' dt' al' km' vm' m3 p' n' v2 m4 :
  0 <= nl -> 0 <= nh -> 0 <= mt -> 0 <= hd -> 0 <= DataType.bits dt -> 0 <= p -> 0 <= n ->
  0 <= nl' -> 0 <= nh' -> 0 <= mt' -> 0 <= hd' -> 0 <= DataType.bits dt' -> 0 <= p' -> 0 <= n' ->
  Init nl nh mt hd dt al km vm = (Ret tt, m1) -> ReserveForSession m1 p n = (Ret v1, m2) ->
  Init nl' nh' mt' hd' dt' al' km' vm' = (Ret tt, m3) -> ReserveForSession m3 p' n' = (Ret v2, m4) ->
  valid m3 v1 = false /\ v1 = v2 /\ valid m4 v1 = true.
Proof.
  intros A1 A2 A3 A4 A5 A6 A7 B1 B2 B3 B4 B5 B6 B7 HI1 HR1 HI2 HR2.
  destruct (Init_ret _ _ _ _ _ _ _ _ _ A1 A2 A3 A4 A5 HI1) as (_ & _ & Hs1 & _).
  destruct (Init_ret _ _ _ _ _ _ _ _ _ B1 B2 B3 B4 B5 HI2) as ([_ HW] & Hi & Hs2 & _).
  destruct (ReserveForSession_cases m1 p n A6 A7) as [(_ & _ & _ & E1) | [e E1]]; [|congruence].
  destruct (ReserveForSession_cases m3 p' n' B6 B7) as [(_ & _ & _ & E2) | [e E2]]; [|congruence].
  rewrite HR1, Hs1 in E1. rewrite HR2, Hs2 in E2. injection E1 as -> ->. injection E2 as -> ->.
  split_and!; [|done|].
  - unfold valid, IsSlotAlive. rewrite Hs2. simpl. apply andb_false_r.
  - rewrite Hi in HW. destruct HW as (eb & bpp & kp & vp & _ & _ & Hst).
    unfold valid, IsSlotAlive. simpl. by rewrite Hst.
Qed.

(** ** Witnesses *)

Definition kv_demo : Res unit * KVCacheManager := Init 2 2 8 4 DataType.Float32 64 (Some 4096) (Some 8192).
Definition kv_demo_session : Res KVCacheView * KVCacheManager := ReserveForSession kv_demo.2 3 2.

Lemma kv_layout_dense_witness : exists bpp, BytesPerPlane (layout_ kv_demo.2) = Ret bpp.
Proof.
  destruct (kv_layout_dense 2 2 8 4 DataType.Float32 64 (Some 4096) (Some 8192) kv_demo.2)
    as (eb & bpp & _ & _ & Hb & _); [vm_compute; congruence..|vm_compute; reflexivity|by exists bpp].
Defined.

Lemma kv_access_safe_witness :
  exists eb, in_plane (key_buffer (storage_ kv_demo_session.2)) 4128 eb.
Proof.
  destruct (kv_access_safe kv_demo_session.2 (mkView true 1) 0 0 2 0 4128) as (eb & _ & _ & _ & HK & _).
  - eapply rtc_l; [apply (step_init _ 2 2 8 4 DataType.Float32 64 (Some 4096) (Some 8192)); vm_compute; congruence|].
    eapply rtc_l; [apply step_session, (step_reserve _ 3 2); vm_compute; congruence|]. apply rtc_refl.
  - lia.
  - lia.
  - vm_compute. split; congruence.
  - lia.
  - exists eb. apply HK. vm_compute. reflexivity.
Defined.

Lemma stale_views_stay_stale_witness :
  valid (ReserveForSession (ReleaseSession kv_demo_session.2 (mkView true 1)).1.2 1 1).2 (mkView true 1) = false.
Proof.
  apply (stale_views_stay_stale (ReleaseSession kv_demo_session.2 (mkView true 1)).1.2 _ _ 1).
  - eapply session_wf; [|apply step_release]. eapply session_wf; [|apply (step_reserve _ 3 2); lia].
    apply (kv_Init_wf 2 2 8 4 DataType.Float32 64 (Some 4096) (Some 8192)); vm_compute; congruence.
  - eapply nsteps_l; [apply (step_reserve _ 1 1); lia|constructor].
  - vm_compute. reflexivity.
  - vm_compute. congruence.
  - vm_compute. reflexivity.
Defined.

Lemma reinit_revives_stale_view_witness :
  valid (ReserveForSession kv_demo.2 1 1).2 (mkView true 1) = true.
Proof.
  refine (proj2 (proj2 (reinit_revives_stale_view 2 2 8 4 DataType.Float32 64 (Some 4096) (Some 8192) kv_demo.2
    3 2 (mkView true 1) kv_demo_session.2 2 2 8 4 DataType.Float32 64 (Some 4096) (Some 8192) kv_demo.2
    1 1 (mkView true 1) _ _ _ _ _ _ _ _ _ _ _ _ _ _ _ _ _ _ _)));
    first [reflexivity | vm_compute; congruence | vm_compute; reflexivity].
Defined.
