(* ===== verification/KernelRegistry.v ===== *)
(** * KernelRegistry: kernel selection

    [include/aethermind/backend/kernel_selector.h], [kernel_descriptor.h],
    [kernel_registry.h] and [src/backend/kernel_selector.cpp],
    [kernel_registry.cpp], [backend_registry.cpp], [cpu/cpu_backend.cpp]. Function
    pointers are opaque handles, nullable where the source tests for null.
    Selectors contain element types, whose comparison aborts on scalable
    vectors, so matching is a [Res]; the set of registration keys is searched
    with the same comparison. Whether building the bucket index runs out of
    memory is an argument of [Freeze]. *)
From S2P Require Import Prelude DataTypes ShapeSymbol ShapeConstraint OperatorSchema.

(** ** Selectors *)

Module DeviceType.
(* @src include/aethermind/base/device.h:23-28 DeviceType *)
Inductive t := kCPU | kCUDA | kCANN | kUndefined.
#[global] Instance eq_dec : EqDecision t.
Proof. solve_decision. Defined.
End DeviceType.

(** [lower_case] is false at every call here; the default branch throws. *)
(* @src src/base/device.cpp:13-32 DeviceType2Str *)
Definition DeviceType2Str (d : DeviceType.t) (lower_case : bool) : Res string :=
  match d with
  | DeviceType.kCPU => Ret (if lower_case then "cpu" else "CPU")
  | DeviceType.kCUDA => Ret (if lower_case then "cuda" else "CUDA")
  | DeviceType.kCANN => Ret (if lower_case then "cann" else "CANN")
  | DeviceType.kUndefined => Panic "Unsupported device type: 3"
  end.

Module IsaLevel.
(* @src include/aethermind/backend/kernel_selector.h:12-17 IsaLevel *)
Inductive t := kScalar | kAVX2 | kAVX512 | kAMX.
#[global] Instance eq_dec : EqDecision t.
Proof. solve_decision. Defined.
Definition rank (i : t) : Z := match i with kScalar => 0 | kAVX2 => 1 | kAVX512 => 2 | kAMX => 3 end.
(* @src src/backend/kernel_selector.cpp:7-20 ToString(IsaLevel) *)
Definition ToString (i : t) : string :=
  match i with kScalar => "Scalar" | kAVX2 => "AVX2" | kAVX512 => "AVX512" | kAMX => "AMX" end.
End IsaLevel.

Module ExecPhase.
(* @src include/aethermind/backend/kernel_selector.h:19-23 ExecPhase *)
Inductive t := kPrefill | kDecode | kBoth.
#[global] Instance eq_dec : EqDecision t.
Proof. solve_decision. Defined.
(* @src src/backend/kernel_selector.cpp:22-33 ToString(ExecPhase) *)
Definition ToString (p : t) : string :=
  match p with kPrefill => "Prefill" | kDecode => "Decode" | kBoth => "Both" end.
End ExecPhase.

Module WeightFormat.
(* @src include/aethermind/backend/kernel_selector.h:25-30 WeightFormat *)
Inductive t := kPlain | kPacked | kQuantizedInt8 | kQuantizedInt4.
#[global] Instance eq_dec : EqDecision t.
Proof. solve_decision. Defined.
(* @src src/backend/kernel_selector.cpp:35-48 ToString(WeightFormat) *)
Definition ToString (f : t) : string :=
  match f with
  | kPlain => "Plain" | kPacked => "Packed"
  | kQuantizedInt8 => "QuantizedInt8" | kQuantizedInt4 => "QuantizedInt4"
  end.
End WeightFormat.

(* @src include/aethermind/backend/kernel_selector.h:36-39 PhaseMatches *)
Definition PhaseMatches (candidate request : ExecPhase.t) : bool :=
  bool_decide (candidate = request) || bool_decide (candidate = ExecPhase.kBoth).

(* @src include/aethermind/backend/kernel_selector.h:41-47 KernelSelector *)
Record KernelSelector := mkSelector {
  device_type : DeviceType.t; act_dtype : DataType.t; weight_dtype : DataType.t;
  weight_format : WeightFormat.t; isa : IsaLevel.t; phase : ExecPhase.t }.

(** [a && b] where evaluating [b] may abort. *)
Definition res_and (a : bool) (b : Res bool) : Res bool := if a then b else Ret false.

(* @src include/aethermind/backend/kernel_selector.h:49-56 operator==(KernelSelector) *)
Definition selector_equal (l r : KernelSelector) : Res bool :=
  res_and (bool_decide (device_type l = device_type r)) (
  a ← DataType.equal (act_dtype l) (act_dtype r); res_and a (
  w ← DataType.equal (weight_dtype l) (weight_dtype r);
  Ret (w && bool_decide (weight_format l = weight_format r) &&
       bool_decide (isa l = isa r) && bool_decide (phase l = phase r)))).

(* @src include/aethermind/backend/kernel_selector.h:63-71 SelectorMatches *)
Definition SelectorMatches (candidate request : KernelSelector) : Res bool :=
  res_and (bool_decide (device_type candidate = device_type request)) (
  a ← DataType.equal (act_dtype candidate) (act_dtype request); res_and a (
  w ← DataType.equal (weight_dtype candidate) (weight_dtype request);
  Ret (w && bool_decide (weight_format candidate = weight_format request) &&
       PhaseMatches (phase candidate) (phase request) &&
       (IsaLevel.rank (isa candidate) <=? IsaLevel.rank (isa request))))).

(* @src src/backend/kernel_selector.cpp:50-66 ToString(KernelSelector) *)
Definition selector_string (s : KernelSelector) : Res string :=
  d ← DeviceType2Str (device_type s) false;
  Ret ("KernelSelector{device=" +:+ d +:+ ", activation_dtype=" +:+
    pretty (DataType.bits (act_dtype s)) +:+ "bit" +:+ ", weight_dtype=" +:+
    pretty (DataType.bits (weight_dtype s)) +:+ "bit" +:+ ", weight_format=" +:+
    WeightFormat.ToString (weight_format s) +:+ ", isa=" +:+ IsaLevel.ToString (isa s) +:+
    ", phase=" +:+ ExecPhase.ToString (phase s) +:+ "}").

(** ** Descriptors *)

(** Handles of kernel entry points and of parameter builders. *)
Definition KernelFunc := nat.
Definition KernelParamsBuilder := nat.

(* @src include/aethermind/backend/kernel_types.h:51-51 kMaxKernelParamsSize *)
Definition kMaxKernelParamsSize : Z := 512.

(* @src include/aethermind/backend/kernel_descriptor.h:12-21 KernelDescriptor *)
Record KernelDescriptor := mkDescriptor {
  d_op : OpType.t; d_selector : KernelSelector; kernel_func : option KernelFunc; d_name : string;
  priority : Z; params_builder : option KernelParamsBuilder; params_size : Z }.

(* @src include/aethermind/backend/kernel_descriptor.h:23-28 IsValidKernelDescriptor *)
Definition IsValidKernelDescriptor (d : KernelDescriptor) : bool :=
  bool_decide (d_op d <> OpType.kUnknown) && bool_decide (kernel_func d <> None) &&
  bool_decide (d_name d <> "") && bool_decide (device_type (d_selector d) <> DeviceType.kUndefined).

(* @src include/aethermind/backend/kernel_descriptor.h:30-57 ValidateKernelDescriptor *)
Definition ValidateKernelDescriptor (d : KernelDescriptor) : Res unit :=
  _ ← reject_if (bool_decide (d_op d = OpType.kUnknown))
        (InvalidArgument "Kernel descriptor op_type cannot be kUnknown");
  _ ← reject_if (bool_decide (kernel_func d = None))
        (InvalidArgument "Kernel descriptor function cannot be null");
  _ ← reject_if (bool_decide (d_name d = ""))
        (InvalidArgument "Kernel descriptor name cannot be empty");
  _ ← reject_if (bool_decide (device_type (d_selector d) = DeviceType.kUndefined))
        (InvalidArgument "Kernel descriptor device_type cannot be kUndefined");
  match params_builder d with
  | None => Ret tt
  | Some _ =>
      _ ← reject_if (params_size d =? 0)
            (InvalidArgument "params_size must be > 0 when params_builder is set");
      reject_if (kMaxKernelParamsSize <? params_size d)
        (InvalidArgument "params_size exceeds kMaxKernelParamsSize")
  end.

(** ** The registry *)

#[global] Instance OpType_countable : Countable OpType.t.
Proof.
  set (all := [OpType.kUnknown; OpType.kEmbedding; OpType.kRmsNorm; OpType.kLinear; OpType.kMatMul;
    OpType.kRoPE; OpType.kAttention; OpType.kSilu; OpType.kSiluMul; OpType.kElementwiseMul;
    OpType.kKVCacheUpdate; OpType.kAdd; OpType.kSoftmax; OpType.kArgmax; OpType.kReshape;
    OpType.kPermute; OpType.kReorder]).
  apply (inj_countable (fun o => default 0%nat (fst <$> list_find (fun x => x = o) all)) (fun i => all !! i)).
  intros []; reflexivity.
Defined.

(* @src include/aethermind/backend/kernel_registry.h:22-29 RegistrationKey *)
Record RegistrationKey := mkKey { key_op : OpType.t; key_selector : KernelSelector }.

(* @src include/aethermind/backend/kernel_registry.h:26-28 operator==(RegistrationKey) *)
Definition key_equal (l r : RegistrationKey) : Res bool :=
  res_and (bool_decide (key_op l = key_op r)) (selector_equal (key_selector l) (key_selector r)).

(* @src include/aethermind/backend/kernel_registry.h:73-76 KernelRegistry *)
Record KernelRegistry := mkRegistry {
  frozen_ : bool; kernels_ : list KernelDescriptor; buckets_ : gmap OpType.t (list nat);
  registration_keys_ : list RegistrationKey }.

Definition empty_registry : KernelRegistry := mkRegistry false [] ∅ [].

(** Membership in [registration_keys_]. *)
Fixpoint has_key (key : RegistrationKey) (keys : list RegistrationKey) : Res bool :=
  match keys with
  | [] => Ret false
  | k :: keys' => e ← key_equal k key; if (e : bool) then Ret true else has_key key keys'
  end.

Definition key_of (d : KernelDescriptor) : RegistrationKey := mkKey (d_op d) (d_selector d).

(* @src src/backend/kernel_registry.cpp:30-49 KernelRegistry::Register *)
Definition Register (r : KernelRegistry) (d : KernelDescriptor) : Res unit * KernelRegistry :=
  let verdict :=
    _ ← reject_if (frozen_ r)
          (FailedPrecondition "Cannot register kernel after registry has been frozen");
    _ ← ValidateKernelDescriptor d;
    dup ← has_key (key_of d) (registration_keys_ r);
    reject_if dup (AlreadyExists "Duplicate kernel registration") in
  match verdict with
  | Ret _ => (Ret tt, mkRegistry (frozen_ r) (kernels_ r ++ [d]) (buckets_ r)
                        (key_of d :: registration_keys_ r))
  | e => (e, r)
  end.

(* @src src/backend/kernel_registry.cpp:66-68 BuildBucketIndex (loop) *)
Fixpoint bucket_kernels (i : nat) (kernels : list KernelDescriptor)
    (buckets : gmap OpType.t (list nat)) : gmap OpType.t (list nat) :=
  match kernels with
  | [] => buckets
  | d :: kernels' =>
      bucket_kernels (S i) kernels' (<[d_op d := default [] (buckets !! d_op d) ++ [i]]> buckets)
  end.

(* @src src/backend/kernel_registry.cpp:63-76 KernelRegistry::BuildBucketIndex *)
Definition BuildBucketIndex (out_of_memory : bool) (r : KernelRegistry) : Res unit * KernelRegistry :=
  if out_of_memory then
    (Fail (ResourceExhausted "Failed to build kernel registry bucket index"), r)
  else
    (Ret tt, mkRegistry (frozen_ r) (kernels_ r) (bucket_kernels 0 (kernels_ r) ∅)
               (registration_keys_ r)).

(* @src src/backend/kernel_registry.cpp:51-61 KernelRegistry::Freeze *)
Definition Freeze (out_of_memory : bool) (r : KernelRegistry) : Res unit * KernelRegistry :=
  if frozen_ r then (Ret tt, r)
  else
    match BuildBucketIndex out_of_memory r with
    | (Ret _, r') => (Ret tt, mkRegistry true (kernels_ r') (buckets_ r') (registration_keys_ r'))
    | (e, r') => (e, r')
    end.

(* @src src/backend/kernel_registry.cpp:10-21 ValidateResolveArgs *)
Definition ValidateResolveArgs (o : OpType.t) (s : KernelSelector) : Res unit :=
  _ ← reject_if (bool_decide (o = OpType.kUnknown)) (InvalidArgument "op_type cannot be kUnknown");
  reject_if (bool_decide (device_type s = DeviceType.kUndefined))
    (InvalidArgument "device_type cannot be kUndefined").

(* @src src/backend/kernel_registry.cpp:91-103 KernelRegistry::Resolve (scan) *)
Fixpoint resolve_scan (kernels : list KernelDescriptor) (request : KernelSelector) (bucket : list nat)
    (best : option KernelDescriptor) : Res (option KernelDescriptor) :=
  match bucket with
  | [] => Ret best
  | idx :: bucket' =>
      d ← vec_at kernels idx;
      m ← SelectorMatches (d_selector d) request;
      resolve_scan kernels request bucket'
        (if negb m then best
         else match best with
              | None => Some d
              | Some b => if priority b <? priority d then Some d else best
              end)
  end.

(* @src src/backend/kernel_registry.cpp:78-112 KernelRegistry::Resolve *)
Definition Resolve (r : KernelRegistry) (o : OpType.t) (s : KernelSelector) : Res KernelDescriptor :=
  _ ← reject_if (negb (frozen_ r))
        (FailedPrecondition "Cannot resolve kernel before registry has been frozen");
  _ ← ValidateResolveArgs o s;
  best ← match buckets_ r !! o with
         | Some bucket => resolve_scan (kernels_ r) s bucket None
         | None => Ret None
         end;
  match best with
  | Some d => Ret d
  | None =>
      str ← selector_string s;
      Fail (NotFound ("No matching kernel registered for op_type=" +:+ OpType.ToString o +:+
                      ", selector=" +:+ str))
  end.

(* @src src/backend/kernel_registry.cpp:114-128 KernelRegistry::FindByOpType *)
Definition FindByOpType (r : KernelRegistry) (o : OpType.t) : Res (list KernelDescriptor) :=
  _ ← reject_if (negb (frozen_ r))
        (FailedPrecondition "Cannot find kernels by op_type before registry has been frozen");
  match buckets_ r !! o with
  | Some bucket => res_mapi (fun _ idx => vec_at (kernels_ r) idx) 0 bucket
  | None => Ret []
  end.

(** ** Backends *)

(* @src include/aethermind/backend/resolved_kernel.h:12-26 ResolvedKernel *)
Record ResolvedKernel := mkResolved {
  rk_op : OpType.t; rk_fn : option KernelFunc; rk_attrs : list Z; rk_debug_name : option string;
  rk_builder : option KernelParamsBuilder; rk_params_size : Z }.

(** [ResolvedKernel{}]. *)
Definition no_kernel : ResolvedKernel := mkResolved OpType.kUnknown None [] None None 0.

(** The CPU backend reads the global registry, which is frozen when the first
    backend is created. *)
(* @src src/backend/cpu/cpu_backend.cpp:20-31 CpuBackend::ResolveKernel *)
Definition CpuResolveKernel (global : KernelRegistry) (o : OpType.t) (s : KernelSelector)
    : Res (option KernelFunc) :=
  if negb (bool_decide (device_type s = DeviceType.kCPU)) then Ret None
  else match Resolve global o s with
       | Ret d => Ret (kernel_func d)
       | Fail _ => Ret None
       | Panic w => Panic w
       end.

(* @src src/backend/cpu/cpu_backend.cpp:33-53 CpuBackend::ResolveKernelInfo *)
Definition CpuResolveKernelInfo (global : KernelRegistry) (o : OpType.t) (s : KernelSelector)
    : Res ResolvedKernel :=
  _ ← reject_if (negb (bool_decide (device_type s = DeviceType.kCPU)))
        (InvalidArgument "CpuBackend cannot resolve non-CPU kernel selector");
  d ← Resolve global o s;
  Ret (mkResolved o (kernel_func d) [] (Some (d_name d)) (params_builder d) (params_size d)).

(** What plan building asks of a backend: a lookup whose successful results
    carry the operator asked for and a non-null entry point. *)
Class KernelBackend := {
  ResolveKernelInfo : OpType.t -> KernelSelector -> Res ResolvedKernel;
  ResolveKernelInfo_fn o s k : ResolveKernelInfo o s = Ret k ->
    rk_op k = o /\ rk_fn k <> None /\ rk_attrs k = [] }.

#[global] Instance DeviceType_countable : Countable DeviceType.t.
Proof.
  set (all := [DeviceType.kCPU; DeviceType.kCUDA; DeviceType.kCANN; DeviceType.kUndefined]).
  apply (inj_countable (fun o => default 0%nat (fst <$> list_find (fun x => x = o) all)) (fun i => all !! i)).
  intros []; reflexivity.
Defined.

(** A factory is what its [Create] returns ([None] for a null pointer); a
    created backend is its handle. *)
(* @src include/aethermind/backend/backend_registry.h:28-29 BackendRegistry *)
Record BackendRegistry := mkBackends {
  factories_ : gmap DeviceType.t (option nat); backends_ : gmap DeviceType.t nat }.

(* @src src/backend/backend_registry.cpp:6-11 BackendRegistry::RegisterFactory *)
Definition RegisterFactory (r : BackendRegistry) (ty : DeviceType.t) (factory : option (option nat))
    : Res BackendRegistry :=
  _ ← am_check (bool_decide (ty <> DeviceType.kUndefined))
        "Cannot register factory for kUndefined device type";
  f ← match factory with Some f => Ret f | None => Panic "Backend factory cannot be null" end;
  _ ← am_check (bool_decide (factories_ r !! ty = None))
        "Backend factory already registered for device type";
  Ret (mkBackends (<[ty := f]> (factories_ r)) (backends_ r)).

(* @src src/backend/backend_registry.cpp:13-19 BackendRegistry::SetFactory *)
Definition SetFactory (r : BackendRegistry) (ty : DeviceType.t) (factory : option (option nat))
    : Res BackendRegistry :=
  _ ← am_check (bool_decide (ty <> DeviceType.kUndefined))
        "Cannot register factory for kUndefined device type";
  f ← match factory with Some f => Ret f | None => Panic "Backend factory cannot be null" end;
  Ret (mkBackends (<[ty := f]> (factories_ r)) (delete ty (backends_ r))).

(** [GetBackend] is [noexcept]: an exception while composing its messages
    terminates the process. *)
(* @src src/backend/backend_registry.cpp:21-44 BackendRegistry::GetBackend *)
Definition GetBackend (r : BackendRegistry) (ty : DeviceType.t) : Res nat * BackendRegistry :=
  match backends_ r !! ty with
  | Some b => (Ret b, r)
  | None =>
      match factories_ r !! ty with
      | None =>
          (s ← DeviceType2Str ty false;
           Fail (NotFound ("No backend factory registered for device type: " +:+ s)), r)
      | Some None =>
          (s ← DeviceType2Str ty false;
           Fail (Internal ("Failed to create backend for device type: " +:+ s)), r)
      | Some (Some b) => (Ret b, mkBackends (factories_ r) (<[ty := b]> (backends_ r)))
      end
  end.

(** ** What selection means *)

(** Fixed-length element types, the ones whose comparison is defined. *)
Definition fixed_dtype (d : DataType.t) : Prop := DataType.wf d /\ DataType.IsScalableVector d = false.

Definition fixed (s : KernelSelector) : Prop := fixed_dtype (act_dtype s) /\ fixed_dtype (weight_dtype s).

(** One element type: equal, all undefined types being one. *)
Definition same_dtype (a b : DataType.t) : Prop :=
  a = b \/ (DataType.IsUndefined a = true /\ DataType.IsUndefined b = true).

#[global] Instance same_dtype_dec a b : Decision (same_dtype a b).
Proof. unfold same_dtype. apply _. Defined.

#[global] Instance same_dtype_equiv : Equivalence same_dtype.
Proof. unfold same_dtype. split; [intros a; auto|intros a b; naive_solver|intros a b c; naive_solver]. Qed.

(** A kernel built for [c] can serve the request [r]: same device, types and
    format, a phase it covers, and instructions the target has. *)
Definition can_serve (c r : KernelSelector) : Prop :=
  device_type c = device_type r /\ same_dtype (act_dtype c) (act_dtype r) /\
  same_dtype (weight_dtype c) (weight_dtype r) /\ weight_format c = weight_format r /\
  (phase c = phase r \/ phase c = ExecPhase.kBoth) /\
  IsaLevel.rank (isa c) <= IsaLevel.rank (isa r).

#[global] Instance can_serve_dec c r : Decision (can_serve c r).
Proof. unfold can_serve. apply _. Defined.

Definition serves (o : OpType.t) (s : KernelSelector) (d : KernelDescriptor) : Prop :=
  d_op d = o /\ can_serve (d_selector d) s.

#[global] Instance serves_dec o s d : Decision (serves o s d).
Proof. unfold serves. apply _. Defined.

(** [d], at position [i], is the kernel of [l] to use: no other one that can
    serve has a higher priority, or the same priority and was registered
    earlier. *)
Definition best_at (l : list KernelDescriptor) (o : OpType.t) (s : KernelSelector)
    (i : nat) (d : KernelDescriptor) : Prop :=
  l !! i = Some d /\ serves o s d /\
  forall j d', l !! j = Some d' -> serves o s d' ->
    priority d' < priority d \/ (priority d' = priority d /\ (i <= j)%nat).

Definition same_selector (a b : KernelSelector) : Prop :=
  device_type a = device_type b /\ same_dtype (act_dtype a) (act_dtype b) /\
  same_dtype (weight_dtype a) (weight_dtype b) /\ weight_format a = weight_format b /\
  isa a = isa b /\ phase a = phase b.

#[global] Instance same_selector_dec a b : Decision (same_selector a b).
Proof. unfold same_selector. apply _. Defined.

#[global] Instance same_selector_equiv : Equivalence same_selector.
Proof.
  unfold same_selector. split.
  - intros a. repeat split; reflexivity.
  - intros a b (? & ? & ? & ? & ? & ?). repeat split; symmetry; done.
  - intros a b c (? & ? & ? & ? & ? & ?) (? & ? & ? & ? & ? & ?). repeat split; etrans; done.
Qed.

(** Selection does not depend on which representative of a selector is used. *)
#[global] Instance can_serve_proper : Proper (same_selector ==> same_selector ==> iff) can_serve.
Proof.
  intros a a' (D & A & W & F & I & P) b b' (D' & A' & W' & F' & I' & P').
  unfold can_serve. rewrite D, D', F, F', I, I', P, P', A, A', W, W'. done.
Qed.

(** ** Lemmas: comparisons on fixed selectors *)

Lemma equal_same a b : fixed_dtype a -> fixed_dtype b ->
  DataType.equal a b = Ret (bool_decide (same_dtype a b)).
Proof.
  intros [Wa Ha] [Wb Hb]. rewrite DataType.equal_fixed by done. f_equal. apply bool_decide_ext.
  unfold same_dtype, DataType.IsUndefined. rewrite !DataType.eqb_eq.
  destruct a as [ca ba la], b as [cb bb lb]. simpl. split.
  - intros (-> & [->|[-> ->]]); auto.
  - intros [[= -> -> ->]|[-> ->]]; auto.
Qed.

Lemma SelectorMatches_fixed c r : fixed c -> fixed r ->
  SelectorMatches c r = Ret (bool_decide (can_serve c r)).
Proof.
  intros [Ca Cw] [Ra Rw]. unfold SelectorMatches. rewrite !equal_same by done. cbn.
  unfold can_serve, PhaseMatches, res_and.
  repeat case_bool_decide; cbn; try (f_equal; symmetry; rewrite ?bool_decide_eq_false; tauto);
    destruct (Z.leb_spec (IsaLevel.rank (isa c)) (IsaLevel.rank (isa r)));
    f_equal; symmetry; rewrite ?bool_decide_eq_true, ?bool_decide_eq_false; first [tauto | lia].
Qed.

Lemma selector_equal_fixed c r : fixed c -> fixed r ->
  selector_equal c r = Ret (bool_decide (same_selector c r)).
Proof.
  intros [Ca Cw] [Ra Rw]. unfold selector_equal. rewrite !equal_same by done. cbn.
  unfold same_selector, res_and.
  repeat case_bool_decide; cbn; f_equal; symmetry; rewrite ?bool_decide_eq_true, ?bool_decide_eq_false; tauto.
Qed.

(** ** Lemmas: the bucket index *)

(** Positions, counted from [i], of the kernels of [ks] for operator [o]. *)
Fixpoint op_positions (o : OpType.t) (i : nat) (ks : list KernelDescriptor) : list nat :=
  match ks with
  | [] => []
  | d :: ks' => if decide (d_op d = o) then i :: op_positions o (S i) ks' else op_positions o (S i) ks'
  end.

Lemma bucket_kernels_spec o ks : forall i b,
  default [] (bucket_kernels i ks b !! o) = default [] (b !! o) ++ op_positions o i ks.
Proof.
  induction ks as [|d ks IH]; intros i b; simpl; [by rewrite app_nil_r|]. rewrite IH. case_decide as E.
  - subst o. rewrite lookup_insert_eq. simpl. by rewrite <- app_assoc.
  - by rewrite lookup_insert_ne.
Qed.

(** [best] is the choice among the kernels of [l]. *)
Definition chosen (l : list KernelDescriptor) (o : OpType.t) (s : KernelSelector)
    (best : option KernelDescriptor) : Prop :=
  match best with
  | None => forall d, d ∈ l -> ~ serves o s d
  | Some d => exists i, best_at l o s i d
  end.

Lemma chosen_skip l o s best d : chosen l o s best -> ~ serves o s d -> chosen (l ++ [d]) o s best.
Proof.
  intros H Hd. destruct best as [b|]; simpl in *.
  - destruct H as (i & Hi & Hs & Hbest). exists i. split; [by apply lookup_app_l_Some|]. split; [done|].
    intros j d' Hj Hs'. apply lookup_app_Some in Hj as [Hj|[_ Hj]]; [by apply (Hbest j)|].
    apply list_lookup_singleton_Some in Hj as [_ <-]. done.
  - intros d' Hd'. apply elem_of_app in Hd' as [? | ->%list_elem_of_singleton]; auto.
Qed.

Lemma chosen_take l o s best d : chosen l o s best -> serves o s d ->
  chosen (l ++ [d]) o s
    (match best with None => Some d | Some b => if priority b <? priority d then Some d else best end).
Proof.
  intros H Hd. destruct best as [b|]; simpl in *.
  - destruct H as (i & Hi & Hs & Hbest). destruct (Z.ltb_spec (priority b) (priority d)) as [Hlt|Hge].
    + exists (length l). split; [by apply list_lookup_middle|]. split; [done|]. intros j d' Hj Hs'.
      apply lookup_app_Some in Hj as [Hj|[Hl Hj]]; [left; destruct (Hbest j d' Hj Hs'); lia|].
      apply list_lookup_singleton_Some in Hj as [? <-]. right. split; [done|lia].
    + exists i. split; [by apply lookup_app_l_Some|]. split; [done|]. intros j d' Hj Hs'.
      pose proof (lookup_lt_Some _ _ _ Hi).
      apply lookup_app_Some in Hj as [Hj|[Hl Hj]]; [by apply (Hbest j)|].
      apply list_lookup_singleton_Some in Hj as [? <-]. lia.
  - exists (length l). split; [by apply list_lookup_middle|]. split; [done|]. intros j d' Hj Hs'.
    apply lookup_app_Some in Hj as [Hj|[Hl Hj]]; [by apply list_elem_of_lookup_2, H in Hj|].
    apply list_lookup_singleton_Some in Hj as [? <-]. right. split; [done|lia].
Qed.

Definition fixed_kernels (l : list KernelDescriptor) : Prop := Forall (fun d => fixed (d_selector d)) l.

Lemma resolve_scan_spec o s ks : fixed s -> forall pre best,
  fixed_kernels ks -> chosen pre o s best ->
  exists best', resolve_scan (pre ++ ks) s (op_positions o (length pre) ks) best = Ret best' /\
    chosen (pre ++ ks) o s best'.
Proof.
  intros Hs. induction ks as [|d ks IH]; intros pre best Hf Hc.
  { exists best. by rewrite app_nil_r. }
  apply Forall_cons in Hf as [Hd Hf].
  replace (pre ++ d :: ks) with ((pre ++ [d]) ++ ks) by (by rewrite <- app_assoc).
  simpl. replace (S (length pre)) with (length (pre ++ [d])) by (rewrite length_app; simpl; lia).
  case_decide as Ho; [|apply IH; [done|]; apply chosen_skip; [done|]; by intros [? _]].
  simpl. unfold vec_at. rewrite lookup_app_l, list_lookup_middle by (rewrite ?length_app; simpl; lia || done).
  cbn [mbind res_mbind res_bind]. rewrite SelectorMatches_fixed by done. cbn [mbind res_mbind res_bind].
  apply IH; [done|]. case_bool_decide as Hm; simpl.
  - apply chosen_take; [done|by split].
  - apply chosen_skip; [done|]. by intros [_ ?].
Qed.

(** ** The registry invariant *)

Record registry_ok (r : KernelRegistry) : Prop := {
  r_valid : Forall (fun d => ValidateKernelDescriptor d = Ret tt) (kernels_ r);
  r_fixed : fixed_kernels (kernels_ r);
  r_keys : registration_keys_ r = reverse (key_of <$> kernels_ r);
  r_unique : forall i j d d', kernels_ r !! i = Some d -> kernels_ r !! j = Some d' ->
    d_op d = d_op d' -> same_selector (d_selector d) (d_selector d') -> i = j;
  r_index : frozen_ r = true ->
    forall o, default [] (buckets_ r !! o) = op_positions o 0 (kernels_ r) }.

(** One call on the registry, whatever its result. *)
Inductive registry_step (r : KernelRegistry) : KernelRegistry -> Prop :=
| step_Register d : fixed (d_selector d) -> registry_step r (Register r d).2
| step_Freeze oom : registry_step r (Freeze oom r).2.

Definition registry_reachable (r : KernelRegistry) : Prop := rtc registry_step empty_registry r.

Lemma has_key_spec k keys : fixed (key_selector k) -> Forall (fun k' => fixed (key_selector k')) keys ->
  exists b, has_key k keys = Ret b /\
    (b = true <-> exists k', k' ∈ keys /\ key_op k' = key_op k /\
                    same_selector (key_selector k') (key_selector k)).
Proof.
  intros Hk. induction 1 as [|k' keys Hk' Hkeys (b & E & IH)]; simpl.
  { exists false. split; [done|]. split; [done|]. intros (k' & H & _). by apply not_elem_of_nil in H. }
  unfold key_equal. rewrite selector_equal_fixed by done. unfold res_and.
  setoid_rewrite elem_of_cons.
  case_bool_decide as Ho; cbn [mbind res_mbind res_bind].
  - case_bool_decide as Hsel; [exists true; naive_solver|exists b; naive_solver].
  - exists b. naive_solver.
Qed.

Lemma empty_registry_ok : registry_ok empty_registry.
Proof.
  split; simpl; try done; try constructor.
Qed.

Lemma Register_ok r d : registry_ok r -> fixed (d_selector d) -> registry_ok (Register r d).2.
Proof.
  intros Hr Hd. unfold Register.
  destruct (reject_if (frozen_ r) _) as [[]| |] eqn:Ef; [|done..]. simpl.
  destruct (ValidateKernelDescriptor d) as [[]| |] eqn:Ev; [|done..]. simpl.
  apply reject_if_ret in Ef. destruct Hr as [Hv Hf Hkeys Hu Hi].
  assert (Forall (fun k' => fixed (key_selector k')) (registration_keys_ r)) as Hfk.
  { rewrite Hkeys. apply Forall_reverse, Forall_fmap. done. }
  destruct (has_key_spec (key_of d) _ Hd Hfk) as (b & Eb & Hb). rewrite Eb. simpl.
  destruct b; simpl; [by split|]. split; simpl.
  - apply Forall_app. split; [done|]. by apply Forall_singleton.
  - apply Forall_app. split; [done|]. by apply Forall_singleton.
  - rewrite Hkeys, fmap_app, reverse_app. done.
  - assert (forall i d', kernels_ r !! i = Some d' -> d_op d' = d_op d ->
      same_selector (d_selector d') (d_selector d) -> False) as Hnew.
    { intros i d' Hi' Ho Hsel. enough (false = true) by done. apply Hb. exists (key_of d').
      split; [|done]. rewrite Hkeys. apply elem_of_reverse, list_elem_of_fmap_2.
      by eapply list_elem_of_lookup_2. }
    intros i j d1 d2 H1 H2 Ho Hsel.
    apply lookup_app_Some in H1 as [H1|[L1 H1]]; apply lookup_app_Some in H2 as [H2|[L2 H2]].
    + by apply (Hu i j d1 d2).
    + apply list_lookup_singleton_Some in H2 as [? <-]. by destruct (Hnew i d1).
    + apply list_lookup_singleton_Some in H1 as [? <-]. by destruct (Hnew j d2); [..|symmetry].
    + apply list_lookup_singleton_Some in H1 as [? <-]. apply list_lookup_singleton_Some in H2 as [? <-]. lia.
  - congruence.
Qed.

Lemma Freeze_ok oom r : registry_ok r -> registry_ok (Freeze oom r).2.
Proof.
  intros [Hv Hf Hkeys Hu Hi]. unfold Freeze, BuildBucketIndex.
  destruct (frozen_ r) eqn:E; [split; auto|]. destruct oom; [split; auto; simpl; congruence|].
  split; simpl; try done. intros _ o. by rewrite bucket_kernels_spec, lookup_empty.
Qed.

Lemma registry_reachable_ok r : registry_reachable r -> registry_ok r.
Proof.
  unfold registry_reachable. intros H. pose proof empty_registry_ok as H0.
  induction H as [r|r1 r2 r3 Hs Hr IH]; [done|]. apply IH.
  destruct Hs; [by apply Register_ok|by apply Freeze_ok].
Qed.

Lemma frozen_step r r' : frozen_ r = true -> registry_step r r' -> r' = r.
Proof. intros Hf []; unfold Register, Freeze; by rewrite Hf. Qed.

(** ** Properties *)

(** What [Resolve] returns, on a registry satisfying the invariant. *)
Lemma Resolve_outcome r o s : registry_ok r -> fixed s ->
  match Resolve r o s with
  | Ret d => frozen_ r = true /\ exists i, best_at (kernels_ r) o s i d
  | Fail e =>
      (frozen_ r = false /\ code e = StatusCode.kFailedPrecondition) \/
      (frozen_ r = true /\ (o = OpType.kUnknown \/ device_type s = DeviceType.kUndefined) /\
        code e = StatusCode.kInvalidArgument) \/
      (frozen_ r = true /\ code e = StatusCode.kNotFound /\ forall d, d ∈ kernels_ r -> ~ serves o s d)
  | Panic _ => False
  end.
Proof.
  intros Hr Hs. unfold Resolve, ValidateResolveArgs.
  destruct (frozen_ r) eqn:Ef; simpl; [|by left].
  destruct (decide (o = OpType.kUnknown)) as [Ho|Ho].
  { rewrite (bool_decide_eq_true_2 _ Ho). right. left. auto. }
  rewrite (bool_decide_eq_false_2 _ Ho). cbn.
  case_bool_decide as Hdev; cbn; [right; left; auto|].
  assert (exists best, match buckets_ r !! o with
     | Some bucket => resolve_scan (kernels_ r) s bucket None
     | None => Ret None end = Ret best /\ chosen (kernels_ r) o s best) as (best & -> & Hc).
  { pose proof (r_index _ Hr Ef o) as Hi.
    destruct (resolve_scan_spec o s (kernels_ r) Hs [] None (r_fixed _ Hr)) as (best & E & Hc).
    - intros d Hd. by apply not_elem_of_nil in Hd.
    - simpl in E. rewrite <- Hi in E. exists best. by destruct (buckets_ r !! o). }
  simpl. destruct best as [d|]; [done|].
  unfold selector_string. destruct (device_type s); [right; right; simpl; auto..|done].
Qed.


(** The registry's state is always consistent: every stored descriptor is
    valid, no two stored kernels have the same operator and selector (so the
    best kernel at a priority is unique per selector), and once frozen the
    registry never changes again, its index listing each operator's kernels in
    registration order. *)
Theorem registry_invariant r :
  registry_reachable r ->
  registry_ok r /\ (frozen_ r = true -> forall r', rtc registry_step r r' -> r' = r).
Proof.
  intros Hr. split; [by apply registry_reachable_ok|]. intros Hf r' H.
  induction H as [|r1 r2 r3 Hs H IH]; [done|].
  pose proof (frozen_step _ _ Hf Hs) as ->. auto using frozen_step.
Qed.

(** Asking for a richer instruction set never loses a kernel, and never
    selects one of lower priority. *)
Theorem Resolve_isa_monotone r o s i d :
  registry_reachable r -> fixed s -> IsaLevel.rank (isa s) <= IsaLevel.rank i ->
  Resolve r o s = Ret d ->
  exists d', Resolve r o (mkSelector (device_type s) (act_dtype s) (weight_dtype s) (weight_format s) i
                            (phase s)) = Ret d' /\ priority d <= priority d'.
Proof.
  intros Hr Hs Hi E. pose proof (registry_reachable_ok _ Hr) as Hok.
  pose proof (Resolve_outcome r o s Hok Hs) as H1. rewrite E in H1. destruct H1 as (Hf & k & Hk & [Ho Hc] & _).
  set (s' := mkSelector _ _ _ _ _ _).
  assert (serves o s' d) as Hs'.
  { split; [done|]. destruct Hc as (? & ? & ? & ? & ? & ?). repeat split; simpl; try done. lia. }
  pose proof (Resolve_outcome r o s' Hok ltac:(done)) as H2.
  unfold Resolve in E. rewrite Hf in E. simpl in E. unfold ValidateResolveArgs in E.
  res_inv. bsplit.
  destruct (Resolve r o s') as [d'|e|w]; [|exfalso|done].
  - exists d'. split; [done|]. destruct H2 as (_ & j & _ & _ & Hb). destruct (Hb k d Hk Hs'); lia.
  - destruct H2 as [[? _]|[(_ & [?|Hd] & _)|(_ & _ & Hn)]]; [congruence|congruence|by simpl in Hd|].
    by apply (Hn d); [by eapply list_elem_of_lookup_2|].
Qed.

(** ** The CPU backend as an instance of the interface *)

Lemma resolve_scan_elem kernels s bucket : forall best d,
  resolve_scan kernels s bucket best = Ret (Some d) -> d ∈ kernels \/ best = Some d.
Proof.
  induction bucket as [|i bucket IH]; intros best d H; simpl in H; [by simplify_eq; right|].
  res_inv. apply vec_at_ret in Hm. apply list_elem_of_lookup_2 in Hm.
  destruct (IH _ _ H) as [?|E]; [by left|].
  destruct a0; simpl in E; [|by right]. destruct best as [b|]; [|simplify_eq; by left].
  destruct (priority b <? priority a); simplify_eq; auto.
Qed.

Lemma Resolve_elem r o s d : Resolve r o s = Ret d -> d ∈ kernels_ r.
Proof.
  unfold Resolve. intros H. res_inv. destruct a1 as [d'|]; [|by res_inv]. simplify_eq.
  destruct (buckets_ r !! o); [|done]. by destruct (resolve_scan_elem _ _ _ _ _ Hm1).
Qed.

Lemma CpuResolveKernelInfo_ok r o s k : registry_ok r -> CpuResolveKernelInfo r o s = Ret k ->
  rk_op k = o /\ rk_fn k <> None /\ rk_attrs k = [].
Proof.
  intros Hr H. unfold CpuResolveKernelInfo in H. res_inv. apply Resolve_elem in Hm0.
  pose proof (r_valid _ Hr) as Hv. rewrite Forall_forall in Hv. specialize (Hv _ Hm0).
  unfold ValidateKernelDescriptor in Hv. res_inv. bsplit. done.
Qed.

(** The CPU backend meets the interface of plan building. *)
Definition CpuBackend (r : KernelRegistry) (Hr : registry_ok r) : KernelBackend :=
  {| ResolveKernelInfo := CpuResolveKernelInfo r;
     ResolveKernelInfo_fn := fun o s k => CpuResolveKernelInfo_ok r o s k Hr |}.

(** No device without a factory reaches a backend, and a created backend is
    reused; the undefined device, which can have no factory, terminates the
    process instead of returning an error. *)
Theorem GetBackend_undefined_aborts r :
  factories_ r !! DeviceType.kUndefined = None -> backends_ r !! DeviceType.kUndefined = None ->
  exists w, (GetBackend r DeviceType.kUndefined).1 = Panic w.
Proof. intros Hf Hb. unfold GetBackend. rewrite Hb, Hf. by eexists. Qed.

(** ** Witnesses *)

Module Examples.
Definition f32 : DataType.t := DataType.Float32.
Definition request (i : IsaLevel.t) : KernelSelector :=
  mkSelector DeviceType.kCPU f32 f32 WeightFormat.kPlain i ExecPhase.kDecode.
Definition kernel (i : IsaLevel.t) (p : Z) (fn : nat) : KernelDescriptor :=
  mkDescriptor OpType.kAdd (mkSelector DeviceType.kCPU f32 f32 WeightFormat.kPlain i ExecPhase.kBoth)
    (Some fn) "add" p None 0.
Definition registry : KernelRegistry :=
  (Freeze false (Register (Register (Register empty_registry (kernel IsaLevel.kScalar 0 1)).2
    (kernel IsaLevel.kAVX2 10 2)).2 (kernel IsaLevel.kAVX512 20 3)).2).2.

Lemma request_fixed i : fixed (request i).
Proof. split; (split; [split; [reflexivity|split; vm_compute; split; congruence]|reflexivity]). Qed.

Lemma kernel_fixed i p fn : fixed (d_selector (kernel i p fn)).
Proof. apply (request_fixed IsaLevel.kScalar). Qed.

Lemma registry_is_reachable : registry_reachable registry.
Proof.
  unfold registry_reachable, registry.
  eapply rtc_l; [apply (step_Register _ (kernel IsaLevel.kScalar 0 1)), kernel_fixed|].
  eapply rtc_l; [apply (step_Register _ (kernel IsaLevel.kAVX2 10 2)), kernel_fixed|].
  eapply rtc_l; [apply (step_Register _ (kernel IsaLevel.kAVX512 20 3)), kernel_fixed|].
  eapply rtc_l; [apply (step_Freeze _ false)|]. apply rtc_refl.
Qed.
End Examples.


Lemma registry_invariant_witness :
  registry_ok Examples.registry /\ (Register Examples.registry (Examples.kernel IsaLevel.kAMX 0 9)).2 = Examples.registry.
Proof.
  destruct (registry_invariant Examples.registry Examples.registry_is_reachable) as [H1 H2].
  split; [exact H1|]. apply H2; [reflexivity|].
  apply rtc_once, step_Register, Examples.kernel_fixed.
Defined.

Lemma Resolve_isa_monotone_witness :
  exists d', Resolve Examples.registry OpType.kAdd (Examples.request IsaLevel.kAMX) = Ret d' /\ 0 <= priority d'.
Proof.
  apply (Resolve_isa_monotone Examples.registry OpType.kAdd (Examples.request IsaLevel.kScalar) IsaLevel.kAMX
    (Examples.kernel IsaLevel.kScalar 0 1) Examples.registry_is_reachable (Examples.request_fixed _));
    vm_compute; [congruence|reflexivity].
Defined.

Lemma GetBackend_undefined_aborts_witness :
  exists w, (GetBackend (mkBackends ∅ ∅) DeviceType.kUndefined).1 = Panic w.
Proof. apply (GetBackend_undefined_aborts (mkBackends ∅ ∅)); reflexivity. Defined.
