(* ===== verification/Lowering.v ===== *)
(** * Lowering: from model graphs to execution steps

    [src/graph/compilation/graph_lowering.cpp], [execution_node_spec.h],
    [src/execution/state_alias_plan.cpp]. Lowering walks the validated graph in
    topological order and emits, per node, a step (what to run), a binding (on
    which values) and, for cache updates, alias records (which values share a
    buffer); [ResolveStateAliases] turns aliases into step and port
    coordinates and [ForStep] looks them up. [std::ranges::sort] promises only a
    sorted permutation; it is the class [AliasSort]. *)
From S2P Require Import Prelude DataTypes ShapeSymbol ShapeConstraint OperatorSchema OperatorInference Graph Topology GraphInvariant KernelRegistry Workspace.
From stdpp Require Import sorting.

(** ** Data *)

(* @src include/aethermind/graph/compilation/graph_lowering.h:25-30 GraphLoweringConfig *)
Record GraphLoweringConfig := mkConfig {
  cfg_device : DeviceType.t; cfg_isa : IsaLevel.t; cfg_format : WeightFormat.t; cfg_phase : ExecPhase.t }.

(* @src include/aethermind/execution/execution_node_spec.h:18-38 ExecutionPlanNodeSpec *)
Record ExecutionPlanNodeSpec := mkNodeSpec {
  ns_op : OpType.t; ns_device : DeviceType.t; ns_act_dtype : DataType.t; ns_weight_dtype : DataType.t;
  ns_format : WeightFormat.t; ns_isa : IsaLevel.t; ns_phase : ExecPhase.t;
  ns_workspace : WorkspaceRequirement; ns_input_specs : list TensorSpec;
  ns_output_specs : list TensorSpec; ns_checks : list ShapeConstraint; ns_attrs : list Z;
  ns_params : OpParams }.

(* @src include/aethermind/graph/compilation/graph_lowering.h:37-40 LoweredConstantBinding *)
Record LoweredConstantBinding := mkConstant { lc_port : nat; lc_binding : ConstantBinding }.

(* @src include/aethermind/graph/compilation/graph_lowering.h:48-53 LoweredStepBinding *)
Record LoweredStepBinding := mkStepBinding {
  lb_node : nat; input_values : list nat; output_values : list nat;
  constant_bindings : list LoweredConstantBinding }.

(* @src include/aethermind/graph/compilation/graph_lowering.h:59-62 LoweredStateAlias *)
Record LoweredStateAlias := mkLoweredAlias { alias_input : nat; alias_output : nat }.

(* @src include/aethermind/graph/compilation/graph_lowering.h:72-78 LoweredGraph *)
Record LoweredGraph := mkLowered {
  steps : list ExecutionPlanNodeSpec; step_bindings : list LoweredStepBinding;
  model_inputs : list nat; model_outputs : list nat; state_aliases : list LoweredStateAlias }.

(* @src include/aethermind/execution/state_alias_plan.h:16-20 ResolvedStateAlias *)
Record ResolvedStateAlias := mkAlias { step_index : nat; input_port : nat; output_port : nat }.
#[global] Instance ResolvedStateAlias_eq_dec : EqDecision ResolvedStateAlias.
Proof. solve_decision. Defined.

(** ** Lowering one node *)

(** The locals of the input loop: bound values, specs, constants and the two
    optional selector types. *)
Record input_state := mkIn {
  li_values : list nat; li_specs : list TensorSpec; li_constants : list LoweredConstantBinding;
  li_act : option DataType.t; li_weight : option DataType.t }.

Definition no_inputs : input_state := mkIn [] [] [] None None.

(* @src src/graph/compilation/graph_lowering.cpp:13-29 MaybeSetSelectorDTypes *)
Definition MaybeSetSelectorDTypes (port : OperatorInputPort) (s : TensorSpec)
    (act weight : option DataType.t) : option DataType.t * option DataType.t :=
  if negb (contributes_tensor_spec port) then (act, weight)
  else if bool_decide (in_kind port = OperatorPortKind.kActivation) && bool_decide (act = None) then
    (Some (dtype s), weight)
  else if bool_decide (in_kind port = OperatorPortKind.kWeight) && bool_decide (weight = None) then
    (act, Some (dtype s))
  else (act, weight).

(** The body of the input loop, once the value is fetched. *)
(* @src src/graph/compilation/graph_lowering.cpp:126-143 LowerModelGraph (one input) *)
Definition take_input (st : input_state) (x : OperatorInputPort * (nat * GraphValue)) : input_state :=
  let '(port, (id, v)) := x in
  let '(act, weight) := MaybeSetSelectorDTypes port (spec v) (li_act st) (li_weight st) in
  mkIn (li_values st ++ [id]) (li_specs st ++ [spec v])
    (match payload v with
     | ConstantValue b => li_constants st ++ [mkConstant (in_index port) b]
     | _ => li_constants st
     end) act weight.

(* @src src/graph/compilation/graph_lowering.cpp:123-144 LowerModelGraph (inputs) *)
Definition lower_input (values : list GraphValue) (ins : list nat) (st : input_state)
    (port : OperatorInputPort) : Res input_state :=
  id ← vec_at ins (in_index port);
  v ← vec_at values id;
  Ret (take_input st (port, (id, v))).

(* @src src/graph/compilation/graph_lowering.cpp:146-150 LowerModelGraph (outputs) *)
Definition lower_output (values : list GraphValue) (outs : list nat) (port : OperatorOutputPort)
    : Res (nat * TensorSpec) :=
  id ← vec_at outs (out_index port);
  v ← vec_at values id;
  Ret (id, spec v).

(* @src src/graph/compilation/graph_lowering.cpp:31-48 MaybeSetActivationDTypeFromOutputs *)
Definition MaybeSetActivationDTypeFromOutputs (schema : OperatorSchema) (n : GraphNode)
    (values : list GraphValue) (act : option DataType.t) : Res (option DataType.t) :=
  match act with
  | Some d => Ret (Some d)
  | None =>
      match List.find (fun p => bool_decide (out_kind p = OperatorPortKind.kActivation)) (output_ports schema) with
      | None => Ret None
      | Some port =>
          id ← vec_at (node_outputs n) (out_index port);
          v ← vec_at values id;
          Ret (Some (dtype (spec v)))
      end
  end.

(* @src src/graph/compilation/graph_lowering.cpp:50-76 AddKVCacheLoweringTimeAliases *)
Definition AddKVCacheLoweringTimeAliases (schema : OperatorSchema) (n : GraphNode)
    : Res (list LoweredStateAlias) :=
  if negb (bool_decide (op_type n = OpType.kKVCacheUpdate)) then Ret []
  else
    k_in ← FindInputPortIndex schema kCacheIn;
    v_in ← FindInputPortIndex schema vCacheIn;
    k_out ← FindOutputPortIndex schema kCacheOut;
    v_out ← FindOutputPortIndex schema vCacheOut;
    ki ← vec_at (node_inputs n) k_in; ko ← vec_at (node_outputs n) k_out;
    vi ← vec_at (node_inputs n) v_in; vo ← vec_at (node_outputs n) v_out;
    Ret [mkLoweredAlias ki ko; mkLoweredAlias vi vo].

(** The dtype left unset falls back to the default, then to the activation's. *)
(* @src src/graph/compilation/graph_lowering.cpp:106-120 LowerModelGraph (step) *)
Definition make_step (cfg : GraphLoweringConfig) (n : GraphNode) (st : input_state)
    (outs : list TensorSpec) (act : option DataType.t) : ExecutionPlanNodeSpec :=
  let a := default DataType.default_type act in
  mkNodeSpec (op_type n) (cfg_device cfg) a (default a (li_weight st)) (cfg_format cfg)
    (cfg_isa cfg) (cfg_phase cfg) default_requirement (li_specs st) outs (node_checks n)
    (attrs n) (op_params n).

(* @src src/graph/compilation/graph_lowering.cpp:100-160 LowerModelGraph (one node) *)
Definition lower_node (g : ModelGraph) (cfg : GraphLoweringConfig) (l : LoweredGraph) (id : nat)
    : Res LoweredGraph :=
  n ← GetNode g id;
  schema ← GetOperatorSchema (op_type n);
  st ← res_foldl (lower_input (values_ g) (node_inputs n)) no_inputs (input_ports schema);
  outs ← res_mapi (fun _ => lower_output (values_ g) (node_outputs n)) 0 (output_ports schema);
  act ← MaybeSetActivationDTypeFromOutputs schema n (values_ g) (li_act st);
  aliases ← AddKVCacheLoweringTimeAliases schema n;
  Ret (mkLowered (steps l ++ [make_step cfg n st outs.*2 act])
         (step_bindings l ++ [mkStepBinding id (li_values st) outs.*1 (li_constants st)])
         (model_inputs l) (model_outputs l) (state_aliases l ++ aliases)).

(* @src src/graph/compilation/graph_lowering.cpp:80-163 LowerModelGraph *)
Definition LowerModelGraph `{OS : OperatorSemantics} (g : ModelGraph) (cfg : GraphLoweringConfig)
    : Res LoweredGraph :=
  order ← ValidateAndTopologicalOrder g;
  res_foldl (lower_node g cfg) (mkLowered [] [] (inputs_ g) (outputs_ g) []) order.

(** ** State aliases *)

(** [std::ranges::find] as an index. *)
Definition find_value (x : nat) (l : list nat) : option nat := fst <$> list_find (eq x) l.

(* @src src/graph/compilation/graph_lowering.cpp:169-187 ResolveStateAliases (search) *)
Fixpoint find_alias_step (a : LoweredStateAlias) (s : nat) (bindings : list LoweredStepBinding)
    : option ResolvedStateAlias :=
  match bindings with
  | [] => None
  | b :: bindings' =>
      match find_value (alias_input a) (input_values b), find_value (alias_output a) (output_values b) with
      | Some i, Some o => Some (mkAlias s i o)
      | _, _ => find_alias_step a (S s) bindings'
      end
  end.

Definition by_step (a b : ResolvedStateAlias) : Prop := (step_index a <= step_index b)%nat.

(** What [std::ranges::sort] with the step comparison promises. *)
Class AliasSort := {
  sort_aliases : list ResolvedStateAlias -> list ResolvedStateAlias;
  sort_aliases_perm l : sort_aliases l ≡ₚ l;
  sort_aliases_sorted l : StronglySorted by_step (sort_aliases l) }.

(* @src src/graph/compilation/graph_lowering.cpp:165-203 ResolveStateAliases *)
Definition ResolveStateAliases `{AliasSort} (l : LoweredGraph) : Res (list ResolvedStateAlias) :=
  aliases ← res_mapi (fun _ a =>
    match find_alias_step a 0 (step_bindings l) with
    | Some r => Ret r
    | None => Fail (InvalidArgument
        "ResolveStateAliases: aliased GraphValueId not found in any step binding")
    end) 0 (state_aliases l);
  Ret (sort_aliases aliases).

(** [std::lower_bound] and [std::upper_bound] on a sorted range: the first
    element that does not satisfy the predicate. *)
Definition partition_point (p : ResolvedStateAlias -> bool) (l : list ResolvedStateAlias) : nat :=
  default (length l) (fst <$> list_find (fun a => p a = false) l).

(* @src src/execution/state_alias_plan.cpp:15-38 StateAliasPlan::ForStep *)
Definition ForStep (aliases : list ResolvedStateAlias) (s : nat) : list ResolvedStateAlias :=
  let lower := partition_point (fun a => (step_index a <? s)%nat) aliases in
  match aliases !! lower with
  | None => []
  | Some a =>
      if negb (step_index a =? s)%nat then []
      else
        let rest := drop lower aliases in
        let count := partition_point (fun a => negb (s <? step_index a)%nat) rest in
        take count rest
  end.

(** ** What a lowered graph is *)

(** Ports with the values wired to them. *)
Abbreviation wired := (list (OperatorInputPort * (nat * GraphValue))).

(** The types offered by the contributing ports of one kind, in port order. *)
Definition port_dtypes (k : OperatorPortKind.t) (w : wired) : list DataType.t :=
  (fun x => dtype (spec x.2.2)) <$>
    filter (fun x => contributes_tensor_spec x.1 = true /\ in_kind x.1 = k) w.

Definition constants_of (w : wired) : list LoweredConstantBinding :=
  omap (fun x => match payload x.2.2 with
                 | ConstantValue b => Some (mkConstant (in_index x.1) b)
                 | _ => None
                 end) w.

(** Step [st] and binding [b] are what node [id] becomes. *)
Record lowers_to (g : ModelGraph) (cfg : GraphLoweringConfig) (id : nat)
    (st : ExecutionPlanNodeSpec) (b : LoweredStepBinding) : Prop := {
  lt_node : lb_node b = id;
  lt_step : exists n schema (w : wired),
    nodes_ g !! id = Some n /\ GetOperatorSchema (op_type n) = Ret schema /\
    w.*1 = input_ports schema /\ w.*2.*1 = node_inputs n /\
    Forall (fun x => values_ g !! x.2.1 = Some x.2.2) w /\
    input_values b = node_inputs n /\ output_values b = node_outputs n /\
    constant_bindings b = constants_of w /\
    ns_op st = op_type n /\ ns_device st = cfg_device cfg /\ ns_format st = cfg_format cfg /\
    ns_isa st = cfg_isa cfg /\ ns_phase st = cfg_phase cfg /\ ns_workspace st = default_requirement /\
    ns_input_specs st = (fun x => spec x.2.2) <$> w /\
    Forall2 (fun v s => exists x, values_ g !! v = Some x /\ spec x = s) (node_outputs n) (ns_output_specs st) /\
    ns_checks st = node_checks n /\ ns_attrs st = [] /\ ns_params st = op_params n /\
    (forall d, head (port_dtypes OperatorPortKind.kActivation w) = Some d -> ns_act_dtype st = d) /\
    ns_weight_dtype st =
      default (ns_act_dtype st) (head (port_dtypes OperatorPortKind.kWeight w)) }.

(** The alias records of a node: cache input [2] with output [0], [3] with [1]. *)
Definition aliases_of (b : LoweredStepBinding) (st : ExecutionPlanNodeSpec) : list LoweredStateAlias :=
  if decide (ns_op st = OpType.kKVCacheUpdate) then
    [mkLoweredAlias (default 0%nat (input_values b !! 2%nat)) (default 0%nat (output_values b !! 0%nat));
     mkLoweredAlias (default 0%nat (input_values b !! 3%nat)) (default 0%nat (output_values b !! 1%nat))]
  else [].

Record lowered_as (g : ModelGraph) (cfg : GraphLoweringConfig) (order : list nat) (l : LoweredGraph) : Prop := {
  la_steps : Forall2 (fun id x => lowers_to g cfg id x.1 x.2) order (zip (steps l) (step_bindings l));
  la_len : length (steps l) = length (step_bindings l);
  la_inputs : model_inputs l = inputs_ g;
  la_outputs : model_outputs l = outputs_ g;
  la_aliases : state_aliases l = concat (zip_with aliases_of (step_bindings l) (steps l)) }.

(** ** Lemmas: the input loop *)

Definition wired_ok (values : list GraphValue) (ins : list nat) (w : wired) : Prop :=
  Forall (fun x => ins !! in_index x.1 = Some x.2.1 /\ values !! x.2.1 = Some x.2.2) w.

Lemma lower_inputs_run values ins w : forall st, wired_ok values ins w ->
  res_foldl (lower_input values ins) st w.*1 = Ret (foldl take_input st w).
Proof.
  induction w as [|[port [id v]] w IH]; intros st Hw; [done|].
  apply Forall_cons in Hw as [[Hi Hv] Hw]. simpl in Hi, Hv. rewrite fmap_cons. cbn [res_foldl foldl fst].
  assert (lower_input values ins st port = Ret (take_input st (port, (id, v)))) as ->; [|by apply IH].
  unfold lower_input, vec_at. by rewrite Hi; cbn [mbind res_mbind res_bind]; rewrite Hv.
Qed.

(** [a] unless unset. *)
Definition or_else {A} (a b : option A) : option A := match a with Some _ => a | None => b end.

Lemma take_inputs_state w : forall st,
  let r := foldl take_input st w in
  li_values r = li_values st ++ w.*2.*1 /\
  li_specs r = li_specs st ++ ((fun x => spec x.2.2) <$> w) /\
  li_constants r = li_constants st ++ constants_of w /\
  li_act r = or_else (li_act st) (head (port_dtypes OperatorPortKind.kActivation w)) /\
  li_weight r = or_else (li_weight st) (head (port_dtypes OperatorPortKind.kWeight w)).
Proof.
  induction w as [|[port [id v]] w IH]; intros st.
  { simpl. rewrite !app_nil_r. by destruct (li_act st), (li_weight st). }
  cbn [foldl]. specialize (IH (take_input st (port, (id, v)))). cbn zeta in IH |- *.
  destruct IH as (-> & -> & -> & -> & ->).
  unfold take_input, port_dtypes, constants_of, MaybeSetSelectorDTypes. rewrite !fmap_cons. simpl.
  rewrite !filter_cons. simpl.
  destruct (contributes_tensor_spec port), (in_kind port), (li_act st), (li_weight st); simpl;
    destruct (payload v); rewrite <- ?app_assoc; done.
Qed.

(** ** Lemmas: one valid node *)

Section ValidNode.
Context {OS : OperatorSemantics}.

(** The wiring of a valid node: its inputs, port by port. *)
Lemma valid_wiring values i n schema specs derived bs :
  node_valid values i n schema specs derived bs ->
  exists w : wired, w.*1 = input_ports schema /\ w.*2.*1 = node_inputs n /\
    (fun x => spec x.2.2) <$> w = specs /\ wired_ok values (node_inputs n) w /\
    Forall (fun x => PayloadMatchesPort (payload x.2.2) (in_kind x.1) = true) w.
Proof.
  intros Hn. destruct (GetOperatorSchema_ret _ _ (nv_schema _ _ _ _ _ _ _ Hn)) as [_ (Hidx & _)].
  pose proof (nv_in_arity _ _ _ _ _ _ _ Hn) as Hlen. pose proof (nv_inputs _ _ _ _ _ _ _ Hn) as Hin.
  pose proof (proj1 (input_specs_ret _ _ _) (nv_specs _ _ _ _ _ _ _ Hn)) as Hsp.
  assert (exists vs, Forall2 (fun v x => values !! v = Some x) (node_inputs n) vs /\ spec <$> vs = specs) as (vs & Hvs & Es).
  { clear -Hsp. induction Hsp as [|v s ins ss (x & Hx & Hs) _ (vs & IH & E)]; [by exists []|].
    exists (x :: vs). rewrite fmap_cons, E, Hs. split; [by constructor|done]. }
  pose proof (Forall2_length _ _ _ Hvs) as Hl.
  exists (zip (input_ports schema) (zip (node_inputs n) vs)).
  rewrite !fst_zip by (rewrite ?length_zip_with; lia). rewrite !snd_zip by (rewrite length_zip_with; lia).
  rewrite fst_zip by lia. split; [done|]. split; [done|].
  assert (forall k p id x, zip (input_ports schema) (zip (node_inputs n) vs) !! k = Some (p, (id, x)) ->
    input_ports schema !! k = Some p /\ node_inputs n !! k = Some id /\ vs !! k = Some x) as Hz.
  { intros k p id x H. apply lookup_zip_Some in H as [Hp H]. apply lookup_zip_Some in H as [? ?]. done. }
  split.
  { rewrite <- Es. rewrite <- (snd_zip (node_inputs n) vs) at 2 by lia.
    rewrite <- (snd_zip (input_ports schema) (zip (node_inputs n) vs)) at 2 by (rewrite length_zip_with; lia).
    rewrite <- !list_fmap_compose. done. }
  split; apply Forall_lookup; intros k [p [id x]] H; simpl; apply Hz in H as (Hp & Hi & Hx).
  - assert (in_index p = k) as Hk.
    { assert ((in_index <$> input_ports schema) !! k = Some (in_index p)) as E by (by rewrite list_lookup_fmap, Hp).
      rewrite Hidx in E. apply lookup_seq in E. lia. }
    rewrite Hk. split; [done|]. exact (Forall2_lookup_lr _ _ _ _ _ _ Hvs Hi Hx).
  - destruct (Hin k p id Hp Hi) as (x' & Hx' & Hm & _).
    assert (values !! id = Some x) by exact (Forall2_lookup_lr _ _ _ _ _ _ Hvs Hi Hx). by simplify_eq.
Qed.

(** The outputs of a valid node, port by port. *)
Lemma valid_outputs values i n schema specs derived bs :
  node_valid values i n schema specs derived bs ->
  exists outs, res_mapi (fun _ => lower_output values (node_outputs n)) 0 (output_ports schema) = Ret outs /\
    outs.*1 = node_outputs n /\
    Forall2 (fun v s => exists x, values !! v = Some x /\ spec x = s) (node_outputs n) outs.*2.
Proof.
  intros Hn. destruct (GetOperatorSchema_ret _ _ (nv_schema _ _ _ _ _ _ _ Hn)) as [_ (_ & Hidx & _)].
  pose proof (nv_out_arity _ _ _ _ _ _ _ Hn) as Hlen. pose proof (nv_outputs _ _ _ _ _ _ _ Hn) as Hout.
  pose proof (nv_derived _ _ _ _ _ _ _ Hn) as Hder.
  assert (forall k p, output_ports schema !! k = Some p -> out_index p = k) as Hk.
  { intros k p Hp. assert ((out_index <$> output_ports schema) !! k = Some (out_index p)) as E
      by (by rewrite list_lookup_fmap, Hp). rewrite Hidx in E. apply lookup_seq in E. lia. }
  assert (forall k p, output_ports schema !! k = Some p -> exists v x, node_outputs n !! k = Some v /\
    values !! v = Some x /\ lower_output values (node_outputs n) p = Ret (v, spec x)) as Hp.
  { intros k p Hp. pose proof (lookup_lt_Some _ _ _ Hp).
    destruct (lookup_lt_is_Some_2 (node_outputs n) k) as [v Hv]; [lia|].
    destruct (lookup_lt_is_Some_2 (outputs derived) k) as [s Hs]; [lia|].
    destruct (Hout k p v s Hp Hv Hs) as (x & Hx & _). exists v, x. split; [done|]. split; [done|].
    unfold lower_output, vec_at. rewrite (Hk k p Hp), Hv. cbn [mbind res_mbind res_bind]. by rewrite Hx. }
  destruct (res_mapi_total (fun _ => lower_output values (node_outputs n)) (output_ports schema) 0) as [outs Ho].
  { intros k p Hkp. destruct (Hp k p Hkp) as (v & x & _ & _ & E). eauto. }
  exists outs. split; [done|]. apply res_mapi_ret in Ho as [Hol Hof].
  assert (forall k v s, outs !! k = Some (v, s) -> node_outputs n !! k = Some v /\
    exists x, values !! v = Some x /\ spec x = s) as Hel.
  { intros k v s Hvs. pose proof (lookup_lt_Some _ _ _ Hvs).
    destruct (lookup_lt_is_Some_2 (output_ports schema) k) as [p Hpk]; [lia|].
    destruct (Hof k p Hpk) as (y & Hy & E). destruct (Hp k p Hpk) as (v' & x & ? & ? & E').
    cbn beta in E. rewrite E' in E. simplify_eq. split; [done|by exists x]. }
  assert (outs.*1 = node_outputs n) as Efst.
  { apply list_eq_same_length with (length (node_outputs n)); [done|by rewrite length_fmap; lia|].
    intros k v1 v2 _ H1 H2. rewrite list_lookup_fmap in H1. destruct (outs !! k) as [[v s]|] eqn:E; [|done].
    destruct (Hel k v s E) as [? _]. simpl in H1. by simplify_eq. }
  split; [done|]. rewrite <- Efst. apply Forall2_fmap_2, Forall_Forall2_diag, Forall_lookup.
  intros k [v s] H. simpl. by destruct (Hel k v s H).
Qed.

Lemma activation_dtype_total values i n schema specs derived bs act :
  node_valid values i n schema specs derived bs ->
  exists r, MaybeSetActivationDTypeFromOutputs schema n values act = Ret r /\ (act = None \/ r = act).
Proof.
  intros Hn. destruct act as [d|]; simpl; [by eauto|].
  destruct (List.find _ (output_ports schema)) as [p|] eqn:E; [|by eauto].
  apply find_some in E as [Hp _]. apply list_elem_of_In, list_elem_of_lookup_1 in Hp as [k Hk].
  destruct (valid_outputs _ _ _ _ _ _ _ Hn) as (outs & Ho & _). apply res_mapi_ret in Ho as [_ Ho].
  destruct (Ho k p Hk) as (y & _ & Hy). cbn beta in Hy. unfold lower_output in Hy. res_inv.
  rewrite Hm. cbn [mbind res_mbind res_bind]. rewrite Hm0. simpl. eauto.
Qed.

Lemma list_of_4 {A} (l : list A) : length l = 4%nat -> exists a b c d, l = [a; b; c; d].
Proof. destruct l as [|? [|? [|? [|? []]]]]; try discriminate. eauto. Qed.

Lemma list_of_2 {A} (l : list A) : length l = 2%nat -> exists a b, l = [a; b].
Proof. destruct l as [|? [|? []]]; try discriminate. eauto. Qed.

(** A cache update has its four inputs and two outputs. *)
Lemma valid_kv_arity values i n schema specs derived bs :
  node_valid values i n schema specs derived bs -> op_type n = OpType.kKVCacheUpdate ->
  GetOperatorSchema OpType.kKVCacheUpdate = Ret schema /\
  exists k v kc vc ko vo, node_inputs n = [k; v; kc; vc] /\ node_outputs n = [ko; vo].
Proof.
  intros Hn Ho. pose proof (nv_schema _ _ _ _ _ _ _ Hn) as Hs. rewrite Ho in Hs. split; [done|].
  pose proof (nv_in_arity _ _ _ _ _ _ _ Hn) as Hi. pose proof (nv_out_arity _ _ _ _ _ _ _ Hn) as Hu.
  injection Hs as <-. destruct (list_of_4 _ Hi) as (a & b & c & d & ->).
  destruct (list_of_2 _ Hu) as (e & f & ->). by repeat eexists.
Qed.

Lemma kv_aliases values i n schema specs derived bs :
  node_valid values i n schema specs derived bs ->
  AddKVCacheLoweringTimeAliases schema n = Ret
    (if decide (op_type n = OpType.kKVCacheUpdate) then
      [mkLoweredAlias (default 0%nat (node_inputs n !! 2%nat)) (default 0%nat (node_outputs n !! 0%nat));
       mkLoweredAlias (default 0%nat (node_inputs n !! 3%nat)) (default 0%nat (node_outputs n !! 1%nat))]
     else []).
Proof.
  intros Hn. unfold AddKVCacheLoweringTimeAliases. destruct (decide (op_type n = OpType.kKVCacheUpdate)) as [Ho|Ho].
  - rewrite (bool_decide_eq_true_2 _ Ho).
    destruct (valid_kv_arity _ _ _ _ _ _ _ Hn Ho) as ([= <-] & k & v & kc & vc & ko & vo & -> & ->). reflexivity.
  - by rewrite (bool_decide_eq_false_2 _ Ho).
Qed.

Lemma lower_node_valid g cfg l id n :
  graph_valid g -> nodes_ g !! id = Some n ->
  exists st b, lowers_to g cfg id st b /\
    lower_node g cfg l id = Ret (mkLowered (steps l ++ [st]) (step_bindings l ++ [b])
      (model_inputs l) (model_outputs l) (state_aliases l ++ aliases_of b st)).
Proof.
  intros Hg Hid. destruct (gv_nodes _ Hg id n Hid) as (schema & specs & derived & bs & Hn).
  destruct (valid_wiring _ _ _ _ _ _ _ Hn) as (w & Hw1 & Hw2 & Hws & Hwok & Hwp).
  destruct (valid_outputs _ _ _ _ _ _ _ Hn) as (outs & Ho & Ho1 & Ho2).
  destruct (take_inputs_state w no_inputs) as (Ev & Es & Ec & Ea & Ew).
  set (st := foldl take_input no_inputs w) in *. cbn [no_inputs li_values li_specs li_constants li_act li_weight app or_else] in *.
  destruct (activation_dtype_total _ _ _ _ _ _ _ (li_act st) Hn) as (act & Hact & Hact').
  exists (make_step cfg n st outs.*2 act), (mkStepBinding id (li_values st) outs.*1 (li_constants st)).
  split.
  - split; [done|]. exists n, schema, w.
    rewrite Ev, Ec, Ho1, <- Hw2. cbn [input_values output_values constant_bindings].
    unfold make_step. cbn [ns_op ns_device ns_format ns_isa ns_phase ns_workspace ns_input_specs ns_output_specs
      ns_checks ns_attrs ns_params ns_act_dtype ns_weight_dtype]. rewrite Es, Ew.
    pose proof (nv_schema _ _ _ _ _ _ _ Hn). pose proof (nv_attrs _ _ _ _ _ _ _ Hn).
    split_and!; try done.
    + eapply Forall_impl; [exact Hwok|]. by intros x [_ ?].
    + intros d Hd. rewrite Hd in Ea. destruct Hact' as [? | ->]; [congruence|]. by rewrite Ea.
  - unfold lower_node, GetNode, vec_at. rewrite Hid. cbn [mbind res_mbind res_bind].
    rewrite (nv_schema _ _ _ _ _ _ _ Hn). cbn [mbind res_mbind res_bind].
    rewrite <- Hw1, (lower_inputs_run _ _ _ _ Hwok). cbn [mbind res_mbind res_bind]. fold st.
    rewrite Ho. cbn [mbind res_mbind res_bind]. rewrite Hact. cbn [mbind res_mbind res_bind].
    rewrite (kv_aliases _ _ _ _ _ _ _ Hn). cbn [mbind res_mbind res_bind].
    unfold aliases_of, make_step. cbn [ns_op input_values output_values]. by rewrite Ev, Ho1, Hw2.
Qed.

Lemma lower_nodes_valid g cfg ids : graph_valid g -> (forall id, id ∈ ids -> is_Some (nodes_ g !! id)) ->
  forall done l, lowered_as g cfg done l ->
  exists l', res_foldl (lower_node g cfg) l ids = Ret l' /\ lowered_as g cfg (done ++ ids) l'.
Proof.
  intros Hg. induction ids as [|id ids IH]; intros Hids don l Hl.
  { exists l. by rewrite app_nil_r. }
  destruct (Hids id (list_elem_of_here _ _)) as [n Hn].
  destruct (lower_node_valid g cfg l id n Hg Hn) as (st & b & Hst & E). cbn [res_foldl]. rewrite E.
  cbn [mbind res_mbind res_bind]. replace (don ++ id :: ids) with ((don ++ [id]) ++ ids) by (by rewrite <- app_assoc).
  apply IH; [intros; apply Hids; by right|]. destruct Hl as [H1 H2 H3 H4 H5].
  split; cbn [steps step_bindings model_inputs model_outputs state_aliases]; [| |done|done|].
  - rewrite zip_with_app by done. apply Forall2_app; [done|]. by constructor.
  - rewrite !length_app. simpl. lia.
  - rewrite zip_with_app, concat_app, <- H5 by done. simpl. by rewrite app_nil_r.
Qed.
End ValidNode.

(** ** Lemmas: looking aliases up *)

Lemma partition_point_app p l1 l2 :
  Forall (fun a => p a = true) l1 -> (forall a, head l2 = Some a -> p a = false) ->
  partition_point p (l1 ++ l2) = length l1.
Proof.
  intros H1 H2. unfold partition_point. destruct l2 as [|a l2].
  - rewrite app_nil_r. destruct (list_find _ l1) as [[i x]|] eqn:E; [|done].
    apply list_find_Some in E as (Hi & Hf & _). rewrite (Forall_lookup_1 _ _ _ _ H1 Hi) in Hf. done.
  - rewrite list_find_app_r.
    + simpl. rewrite decide_True by (by apply H2). simpl. lia.
    + apply list_find_None. eapply Forall_impl; [exact H1|]. simpl. congruence.
Qed.

Lemma sorted_split s l : StronglySorted by_step l -> exists lo mid hi, l = lo ++ mid ++ hi /\
  Forall (fun a => step_index a < s)%nat lo /\ Forall (fun a => step_index a = s) mid /\
  Forall (fun a => s < step_index a)%nat hi.
Proof.
  induction 1 as [|a l Hs (lo & mid & hi & -> & Hlo & Hmid & Hhi) Ha]; [by exists [], [], []|].
  rewrite !Forall_app in Ha. destruct Ha as (Alo & Amid & _). unfold by_step in *.
  assert (forall P (q : list ResolvedStateAlias), Forall P q -> (forall x, P x -> by_step a x -> False) ->
    Forall (by_step a) q -> q = []) as Hnil.
  { intros P q HP Hc Hq. destruct q; [done|]. inversion HP. inversion Hq. by destruct (Hc r). }
  destruct (Nat.lt_total (step_index a) s) as [Hlt|[Heq|Hgt]].
  - exists (a :: lo), mid, hi. split; [done|]. split; [by constructor|done].
  - rewrite (Hnil _ lo Hlo) by (done || (intros x ?; unfold by_step; lia)).
    exists [], (a :: mid), hi. split; [done|]. split; [done|]. split; [by constructor|done].
  - rewrite (Hnil _ lo Hlo) by (done || (intros x ?; unfold by_step; lia)).
    rewrite (Hnil _ mid Hmid) by (done || (intros x ?; unfold by_step; lia)).
    exists [], [], (a :: hi). split; [done|]. split; [done|]. split; [done|]. by constructor.
Qed.

Lemma filter_all {A} (P : A -> Prop) `{forall x, Decision (P x)} l : Forall P l -> filter P l = l.
Proof. induction 1 as [|x l Hx _ IH]; [done|]. by rewrite filter_cons_True, IH. Qed.

Lemma filter_none {A} (P : A -> Prop) `{forall x, Decision (P x)} l : Forall (fun x => ~ P x) l -> filter P l = [].
Proof. induction 1 as [|x l Hx _ IH]; [done|]. by rewrite filter_cons_False. Qed.

(** On a sorted plan the binary searches return exactly the step's records. *)
Lemma ForStep_filter l s : StronglySorted by_step l -> ForStep l s = filter (fun a => step_index a = s) l.
Proof.
  intros Hl. destruct (sorted_split s l Hl) as (lo & mid & hi & -> & Hlo & Hmid & Hhi).
  rewrite !filter_app, (filter_none _ lo), (filter_all _ mid), (filter_none _ hi), app_nil_r, app_nil_l;
    [|eapply Forall_impl; [done|simpl; lia]|done|eapply Forall_impl; [done|simpl; lia]].
  unfold ForStep. cbn zeta. rewrite partition_point_app.
  - rewrite lookup_app_r, Nat.sub_diag by done.
    rewrite drop_app_length. destruct mid as [|a mid]; simpl.
    + destruct hi as [|b hi]; [done|]. simpl. apply Forall_cons in Hhi as [? _].
      by rewrite (proj2 (Nat.eqb_neq _ _)) by lia.
    + apply Forall_cons in Hmid as [Ha Hmid]. rewrite (proj2 (Nat.eqb_eq _ _) Ha). simpl.
      change (a :: mid ++ hi) with ((a :: mid) ++ hi). rewrite partition_point_app.
      * by rewrite take_app_length.
      * constructor; [|eapply Forall_impl; [done|]; intros x Hx; simpl in Hx];
          apply negb_true_iff, Nat.ltb_ge; lia.
      * intros b Hb. destruct hi; simplify_eq/=. apply Forall_cons in Hhi as [? _].
        apply negb_false_iff, Nat.ltb_lt. lia.
  - eapply Forall_impl; [done|]. intros x Hx. by apply Nat.ltb_lt.
  - intros a Ha. apply Nat.ltb_ge. destruct mid; simplify_eq/=.
    + destruct hi; simplify_eq/=. apply Forall_cons in Hhi as [? _]. lia.
    + apply Forall_cons in Hmid as [? _]. lia.
Qed.

(** ** Lemmas: resolving aliases *)

Lemma find_value_first x l i : l !! i = Some x -> (forall j y, (j < i)%nat -> l !! j = Some y -> y <> x) ->
  find_value x l = Some i.
Proof.
  intros Hi Hj. unfold find_value.
  assert (list_find (eq x) l = Some (i, x)) as ->; [|done].
  apply list_find_Some. split; [done|]. split; [done|]. intros j y Hy Hlt E. by apply (Hj j y).
Qed.

Lemma find_value_none x l : x ∉ l -> find_value x l = None.
Proof.
  intros H. unfold find_value. assert (list_find (eq x) l = None) as ->; [|done].
  apply list_find_None, Forall_forall. by intros y Hy <-.
Qed.

Lemma find_alias_step_at a pre b post i o : forall k,
  Forall (fun b' => alias_output a ∉ output_values b') pre ->
  find_value (alias_input a) (input_values b) = Some i ->
  find_value (alias_output a) (output_values b) = Some o ->
  find_alias_step a k (pre ++ b :: post) = Some (mkAlias (k + length pre) i o).
Proof.
  induction pre as [|b' pre IH]; intros k Hpre Hi Ho; simpl.
  - rewrite Hi, Ho. by rewrite Nat.add_0_r.
  - apply Forall_cons in Hpre as [Hb Hpre]. rewrite (find_value_none _ _ Hb), IH by done.
    replace (S k + length pre)%nat with (k + S (length pre))%nat by lia.
    by destruct (find_value (alias_input a) (input_values b')).
Qed.

(** The resolved aliases of step [s]. *)
Definition resolved_of (s : nat) (st : ExecutionPlanNodeSpec) : list ResolvedStateAlias :=
  if decide (ns_op st = OpType.kKVCacheUpdate) then [mkAlias s 2 0; mkAlias s 3 1] else [].

Fixpoint resolved_from (k : nat) (sts : list ExecutionPlanNodeSpec) : list ResolvedStateAlias :=
  match sts with
  | [] => []
  | st :: sts' => resolved_of k st ++ resolved_from (S k) sts'
  end.

Lemma resolved_from_step sts : forall k s,
  filter (fun a => step_index a = (k + s)%nat) (resolved_from k sts) =
  default [] (resolved_of (k + s) <$> sts !! s).
Proof.
  assert (forall k sts s, (s < k)%nat -> filter (fun a => step_index a = s) (resolved_from k sts) = []) as Hlow.
  { intros k sts'. revert k. induction sts' as [|st sts' IH]; intros k s Hs; simpl; [done|].
    rewrite filter_app, IH by lia. unfold resolved_of. case_decide; [|done].
    rewrite filter_none; [done|]. repeat constructor; simpl; lia. }
  induction sts as [|st sts IH]; intros k s; simpl; [done|]. rewrite filter_app. destruct s as [|s]; simpl.
  - rewrite Nat.add_0_r, Hlow, app_nil_r by lia. unfold resolved_of. case_decide; [|done].
    by rewrite filter_all by repeat constructor.
  - replace (k + S s)%nat with (S k + s)%nat by lia. rewrite IH.
    rewrite filter_none; [done|]. unfold resolved_of. case_decide; repeat constructor; simpl; lia.
Qed.

Section Aliases.
Context {OS : OperatorSemantics}.

(** Every output of a valid node is produced by that node and no other. *)
Lemma valid_output_producer g i n v : graph_valid g -> nodes_ g !! i = Some n -> v ∈ node_outputs n ->
  exists x, values_ g !! v = Some x /\ producer x = Some i.
Proof.
  intros Hg Hi Hv. destruct (gv_nodes _ Hg i n Hi) as (schema & specs & derived & bs & Hn).
  apply list_elem_of_lookup_1 in Hv as [k Hk]. pose proof (lookup_lt_Some _ _ _ Hk).
  pose proof (nv_out_arity _ _ _ _ _ _ _ Hn). pose proof (nv_derived _ _ _ _ _ _ _ Hn).
  destruct (lookup_lt_is_Some_2 (output_ports schema) k) as [p Hp]; [lia|].
  destruct (lookup_lt_is_Some_2 (outputs derived) k) as [s Hs]; [lia|].
  destruct (nv_outputs _ _ _ _ _ _ _ Hn k p v s Hp Hk Hs) as (x & ? & ? & _). eauto.
Qed.

Lemma state_input_value values ins k b : state_input values ins k = Ret b ->
  exists id x, ins !! k = Some id /\ values !! id = Some x /\ payload x = StateValue b.
Proof.
  unfold state_input. intros H. res_inv. apply vec_at_ret in Hm, Hm0. unfold get_state in H.
  exists a, a0. destruct (payload a0); by simplify_eq.
Qed.

Lemma slot_ret b s msg u : RequireStateSlot b s msg = Ret u -> exists l, b = KVCacheStateBinding l s.
Proof.
  unfold RequireStateSlot. destruct b as [l sl| |]; try done. intros H.
  apply reject_if_ret_any in H. bsplit. exists l. f_equal. by apply dec_stable.
Qed.

Lemma check_state_output_slot values ids bs k v b sl m1 m2 :
  bindings_of values ids bs -> ids !! k = Some v ->
  (exists x b, values !! v = Some x /\ payload x = StateValue b) ->
  check_state_output bs k b sl m1 m2 = Ret tt ->
  exists x l, values !! v = Some x /\ payload x = StateValue (KVCacheStateBinding l sl).
Proof.
  intros Hbs Hk (x & b' & Hx & Hp) H. pose proof (lookup_lt_Some _ _ _ Hk).
  pose proof (Forall2_length _ _ _ Hbs).
  destruct (lookup_lt_is_Some_2 bs k) as [o Ho]; [lia|].
  destruct (Forall2_lookup_lr _ _ _ _ _ _ Hbs Hk Ho) as (x' & Hx' & Ho'). simplify_eq.
  rewrite Hp in Ho. simpl in Ho. unfold check_state_output in H. rewrite Ho in H. res_inv.
  apply slot_ret in Hm as [l ->]. eauto.
Qed.

Lemma valid_state_output values i n schema specs derived bs j p w :
  node_valid values i n schema specs derived bs -> node_outputs n !! j = Some w ->
  output_ports schema !! j = Some p -> out_kind p = OperatorPortKind.kState ->
  exists x b, values !! w = Some x /\ payload x = StateValue b.
Proof.
  intros Hn Hw Hp Hk. pose proof (nv_derived _ _ _ _ _ _ _ Hn) as Hd.
  pose proof (lookup_lt_Some _ _ _ Hw). destruct (lookup_lt_is_Some_2 (outputs derived) j) as [s Hs]; [lia|].
  destruct (nv_outputs _ _ _ _ _ _ _ Hn j p w s Hp Hw Hs) as (x & Hx & _ & Hm & _). rewrite Hk in Hm. exists x.
  destruct (payload x); try done. eauto.
Qed.

(** The state ports of a cache update carry five different values. *)
Lemma valid_kv_distinct values i n schema specs derived bs :
  node_valid values i n schema specs derived bs -> op_type n = OpType.kKVCacheUpdate ->
  exists k v kc vc ko vo, node_inputs n = [k; v; kc; vc] /\ node_outputs n = [ko; vo] /\
    kc <> k /\ kc <> v /\ vc <> k /\ vc <> v /\ kc <> vc /\ ko <> vo.
Proof.
  intros Hn Ho. destruct (valid_kv_arity _ _ _ _ _ _ _ Hn Ho) as (Hs & k & v & kc & vc & ko & vo & Ei & Eo).
  injection Hs as <-. pose proof (nv_inputs _ _ _ _ _ _ _ Hn) as Hin. rewrite Ei in Hin.
  pose proof (nv_state _ _ _ _ _ _ _ Hn) as Hst. rewrite Ho, Ei in Hst.
  pose proof (nv_bindings _ _ _ _ _ _ _ Hn) as Hbs. rewrite Eo in Hbs.
  pose proof (fun j p w => valid_state_output _ _ _ _ _ _ _ j p w Hn) as Hos.
  rewrite Eo in Hos. unfold ValidateStateBindingsForNode in Hst.
  cbv [FindInputPortIndex FindOutputPortIndex FindPortIndex] in Hst. simpl in Hst. res_inv.
  repeat match goal with H : RequireStateSlot _ _ _ = Ret _ |- _ => apply slot_ret in H as [? ->] end.
  repeat match goal with H : state_input _ _ _ = Ret _ |- _ =>
    apply state_input_value in H as (? & ? & ? & ? & ?) end. simplify_eq/=.
  match goal with H : check_state_output _ 0 _ _ _ _ = Ret _ |- _ =>
    apply (check_state_output_slot _ _ _ _ ko _ _ _ _ Hbs) in H as (xk & lk & Hxk & Hpk); [|done|by eapply (Hos 0%nat)] end.
  match goal with H : check_state_output _ 1 _ _ _ _ = Ret _ |- _ =>
    apply (check_state_output_slot _ _ _ _ vo _ _ _ _ Hbs) in H as (xv & lv & Hxv & Hpv); [|done|by eapply (Hos 1%nat)] end.
  destruct (Hin 0%nat _ k eq_refl eq_refl) as (y0 & Hy0 & Hn0 & _).
  destruct (Hin 1%nat _ v eq_refl eq_refl) as (y1 & Hy1 & Hn1 & _).
  eexists _, _, _, _, _, _. split; [exact Ei|]. split; [exact Eo|].
  split_and!; intros ->; simplify_eq;
    repeat match goal with H : payload ?x = _, H' : context [payload ?x] |- _ => rewrite H in H' end; done.
Qed.

Lemma lowered_lookup g cfg order l s st b : lowered_as g cfg order l ->
  steps l !! s = Some st -> step_bindings l !! s = Some b ->
  exists id, order !! s = Some id /\ lowers_to g cfg id st b.
Proof.
  intros [Hl _ _ _ _] Hs Hb.
  destruct (Forall2_lookup_r _ _ _ s (st, b) Hl) as (id & Hid & Ht); [by apply lookup_zip_Some|]. eauto.
Qed.

(** The aliases of a step resolve to that step. *)
Lemma step_aliases_resolve g cfg order l s st b :
  graph_valid g -> NoDup order -> lowered_as g cfg order l ->
  steps l !! s = Some st -> step_bindings l !! s = Some b ->
  Forall2 (fun a r => find_alias_step a 0 (step_bindings l) = Some r) (aliases_of b st) (resolved_of s st).
Proof.
  intros Hg Hnd Hl Hs Hb. unfold aliases_of, resolved_of. case_decide as Hop; [|constructor].
  destruct (lowered_lookup _ _ _ _ _ _ _ Hl Hs Hb) as (id & Hid & [_ Ht]).
  destruct Ht as (n & schema & w & Hn & _ & _ & _ & _ & Ein & Eout & _ & Eop & _).
  destruct (gv_nodes _ Hg id n Hn) as (schema' & specs & derived & bs & Hv).
  rewrite Eop in Hop. destruct (valid_kv_distinct _ _ _ _ _ _ _ Hv Hop)
    as (k & v & kc & vc & ko & vo & Ei & Eo & N1 & N2 & N3 & N4 & N5 & N6).
  assert (forall out, out ∈ node_outputs n ->
    Forall (fun b' => out ∉ output_values b') (take s (step_bindings l))) as Hpre.
  { intros out Hout. apply Forall_lookup. intros s' b' Hb' Hin. apply lookup_take_Some in Hb' as [Hb' Hlt].
    pose proof (lookup_lt_Some _ _ _ Hb'). rewrite <- (la_len _ _ _ _ Hl) in H.
    destruct (lookup_lt_is_Some_2 (steps l) s') as [st' Hs']; [done|].
    destruct (lowered_lookup _ _ _ _ _ _ _ Hl Hs' Hb') as (id' & Hid' & [_ Ht']).
    destruct Ht' as (n' & ? & ? & Hn' & _ & _ & _ & _ & _ & Eout' & _). rewrite Eout' in Hin.
    destruct (valid_output_producer g id n out Hg Hn Hout) as (y & Hy & Hp).
    destruct (valid_output_producer g id' n' out Hg Hn' Hin) as (y' & Hy' & Hp'). simplify_eq.
    pose proof (NoDup_lookup _ _ _ _ Hnd Hid Hid'). lia. }
  pose proof (take_drop_middle _ _ _ Hb) as Hsplit. pose proof (lookup_lt_Some _ _ _ Hb) as Hslt.
  assert (forall a i o, alias_output a ∈ node_outputs n ->
    find_value (alias_input a) (node_inputs n) = Some i -> find_value (alias_output a) (node_outputs n) = Some o ->
    find_alias_step a 0 (step_bindings l) = Some (mkAlias s i o)) as Hfind.
  { intros a i o Ha Hi Ho. rewrite <- Hsplit. rewrite <- Ein in Hi. rewrite <- Eout in Ho.
    rewrite (find_alias_step_at a _ b _ i o 0 (Hpre _ Ha) Hi Ho). by rewrite length_take_le by lia. }
  rewrite Ein, Eout, Ei, Eo. rewrite Ei, Eo in Hfind. simpl.
  constructor; [apply Hfind|constructor; [apply Hfind|constructor]]; simpl alias_input; simpl alias_output;
    [left| | |right; left| |];
    (apply find_value_first; [reflexivity|]; intros [|[|[|j]]] y Hj Hy; simpl in Hy; simplify_eq; done || lia).
Qed.

Lemma Forall2_resolved (R : LoweredStateAlias -> ResolvedStateAlias -> Prop) sts : forall bs k,
  length sts = length bs ->
  (forall i b st, bs !! i = Some b -> sts !! i = Some st -> Forall2 R (aliases_of b st) (resolved_of (k + i) st)) ->
  Forall2 R (concat (zip_with aliases_of bs sts)) (resolved_from k sts).
Proof.
  induction sts as [|st sts IH]; intros [|b bs] k Hlen H; try discriminate; simpl; [constructor|].
  apply Forall2_app.
  - specialize (H 0%nat b st eq_refl eq_refl). by rewrite Nat.add_0_r in H.
  - apply IH; [by injection Hlen|]. intros i b' st' Hb Hs. specialize (H (S i) b' st' Hb Hs).
    by replace (S k + i)%nat with (k + S i)%nat by lia.
Qed.

Lemma res_mapi_Forall2 {A B} (f : A -> Res B) l r : forall i,
  Forall2 (fun a b => f a = Ret b) l r -> res_mapi (fun _ => f) i l = Ret r.
Proof.
  intros i H. revert i. induction H as [|a b l r Ha _ IH]; intros i; simpl; [done|]. by rewrite Ha; simpl; rewrite IH.
Qed.

Lemma lowered_aliases g cfg order l :
  graph_valid g -> NoDup order -> lowered_as g cfg order l ->
  Forall2 (fun a r => find_alias_step a 0 (step_bindings l) = Some r)
    (state_aliases l) (resolved_from 0 (steps l)).
Proof.
  intros Hg Hnd Hl. rewrite (la_aliases _ _ _ _ Hl). apply Forall2_resolved; [apply Hl|].
  intros i b st Hb Hs. by apply (step_aliases_resolve g cfg order).
Qed.

(** ** Properties *)

Lemma LowerModelGraph_outcome g cfg :
  match ValidateAndTopologicalOrder g with
  | Ret order => schedule g order /\ graph_valid g /\
      exists l, LowerModelGraph g cfg = Ret l /\ lowered_as g cfg order l
  | Fail e => LowerModelGraph g cfg = Fail e
  | Panic w => LowerModelGraph g cfg = Panic w
  end.
Proof.
  unfold LowerModelGraph. destruct (ValidateAndTopologicalOrder g) as [order|e|w] eqn:E; [|done..].
  destruct (validate_sound_of g order E) as [Hs Hg]. split; [done|]. split; [done|].
  destruct (lower_nodes_valid g cfg order Hg) with (done := @nil nat)
    (l := mkLowered [] [] (inputs_ g) (outputs_ g) []) as (l & Hl & Hok).
  - intros id Hid. destruct Hs as [Hp _]. rewrite Hp in Hid. apply elem_of_seq in Hid.
    apply lookup_lt_is_Some. lia.
  - by repeat constructor.
  - eauto.
Qed.

(** Lowering is total on valid graphs and faithful. It fails only as
    validation fails, with the same status. Otherwise the result lists, in a
    schedule of the graph (producers before consumers), one step and one binding
    per node: the binding names the node and its inputs and outputs in port
    order, together with exactly the constants among its inputs; the step carries
    the node's operator, parameters, runtime checks and the stored specs of its
    values, the configuration, and the selector types of the first contributing
    activation and weight ports; alias records pair the cache ports of exactly
    the cache updates. *)
Theorem LowerModelGraph_faithful g cfg :
  match ValidateAndTopologicalOrder g with
  | Ret order => schedule g order /\ graph_valid g /\
      exists l, LowerModelGraph g cfg = Ret l /\ lowered_as g cfg order l
  | Fail e => LowerModelGraph g cfg = Fail e
  | Panic w => LowerModelGraph g cfg = Panic w
  end.
Proof. apply LowerModelGraph_outcome. Qed.

Lemma lowered_inv g cfg l : LowerModelGraph g cfg = Ret l ->
  exists order, schedule g order /\ graph_valid g /\ lowered_as g cfg order l.
Proof.
  intros H. pose proof (LowerModelGraph_outcome g cfg) as Ho.
  destruct (ValidateAndTopologicalOrder g) as [order|e|w]; [|congruence..].
  destruct Ho as (? & ? & l' & E & ?). rewrite H in E. injection E as <-. eauto.
Qed.

Lemma ResolveStateAliases_outcome `{AliasSort} g cfg l :
  LowerModelGraph g cfg = Ret l ->
  exists plan, ResolveStateAliases l = Ret plan /\ StronglySorted by_step plan /\
    plan ≡ₚ resolved_from 0 (steps l).
Proof.
  intros Hl. destruct (lowered_inv _ _ _ Hl) as (order & [Hp _] & Hg & Hok).
  assert (NoDup order) as Hnd by (rewrite Hp; apply NoDup_seq).
  exists (sort_aliases (resolved_from 0 (steps l))). split; [|split; [apply sort_aliases_sorted|apply sort_aliases_perm]].
  unfold ResolveStateAliases. erewrite res_mapi_Forall2; [done|].
  eapply Forall2_impl; [by apply (lowered_aliases g cfg order)|]. simpl. by intros a r ->.
Qed.

(** Alias resolution succeeds on every lowered graph and recovers exactly
    the cache ports: looking up a step returns its two records (input port 2
    with output port 0, input port 3 with output port 1) when the step is a
    cache update, and nothing for any other step or beyond the last one, in
    whatever order the unstable sort leaves equal elements. *)
Theorem ResolveStateAliases_exact `{AliasSort} g cfg l :
  LowerModelGraph g cfg = Ret l ->
  exists plan, ResolveStateAliases l = Ret plan /\ StronglySorted by_step plan /\
    forall s, ForStep plan s ≡ₚ
      match steps l !! s with
      | Some st => if decide (ns_op st = OpType.kKVCacheUpdate) then [mkAlias s 2 0; mkAlias s 3 1] else []
      | None => []
      end.
Proof.
  intros Hl. destruct (ResolveStateAliases_outcome g cfg l Hl) as (plan & E & Hs & Hp).
  exists plan. split; [done|]. split; [done|]. intros s. rewrite ForStep_filter, Hp by done.
  pose proof (resolved_from_step (steps l) 0 s) as Hf. cbn [Nat.add] in Hf. rewrite Hf.
  by destruct (steps l !! s).
Qed.
End Aliases.

(** ** Witnesses *)

#[global] Instance by_step_dec : RelDecision by_step.
Proof. intros a b. unfold by_step. apply _. Defined.

#[global] Instance by_step_trans : Transitive by_step.
Proof. intros a b c. unfold by_step. lia. Qed.

#[global] Instance by_step_total : Total by_step.
Proof. intros a b. unfold by_step. lia. Qed.

(** Merge sort keeps the promise of [std::ranges::sort]. *)
#[global] Instance merge_alias_sort : AliasSort := {|
  sort_aliases := merge_sort by_step;
  sort_aliases_perm := merge_sort_Permutation by_step;
  sort_aliases_sorted := StronglySorted_merge_sort by_step |}.

Module Examples.
Definition spec_of (dims : list Z) : TensorSpec := mkSpec DataType.Float32 (Some (mkSym <$> dims)).
Definition key : GraphValuePayload := StateValue (KVCacheStateBinding 0 kKey).
Definition value : GraphValuePayload := StateValue (KVCacheStateBinding 0 kValue).
Definition base : ModelGraph :=
  let g := (AddConstant empty_graph (spec_of [2; 8]%Z) (mkConstantBinding None "k") "k").2 in
  let g := (AddConstant g (spec_of [2; 8]%Z) (mkConstantBinding None "v") "v").2 in
  let g := (AddState g (spec_of [2; 16; 4]%Z) (KVCacheStateBinding 0 kKey) "kc").2 in
  (AddState g (spec_of [2; 16; 4]%Z) (KVCacheStateBinding 0 kValue) "vc").2.
(** An addition, then a cache update of its result. *)
Definition graph : ModelGraph :=
  let g := (AddNode base OpType.kAdd None [0; 1]%nat [mkOutputDesc PayloadNone default_quant "s"] AddParams [] "add").2 in
  (AddNode g OpType.kKVCacheUpdate (Some 0%nat) [4; 1; 2; 3]%nat
    [mkOutputDesc key default_quant "ko"; mkOutputDesc value default_quant "vo"]
    KVCacheUpdateParams [] "update").2.
Definition config : GraphLoweringConfig :=
  mkConfig DeviceType.kCPU IsaLevel.kAVX2 WeightFormat.kPlain ExecPhase.kBoth.
Definition lowered : LoweredGraph :=
  match LowerModelGraph graph config with Ret l => l | _ => mkLowered [] [] [] [] [] end.
End Examples.

Lemma ResolveStateAliases_exact_witness :
  exists plan, ResolveStateAliases Examples.lowered = Ret plan /\ StronglySorted by_step plan /\
    ForStep plan 1 ≡ₚ [mkAlias 1 2 0; mkAlias 1 3 1].
Proof.
  destruct (ResolveStateAliases_exact Examples.graph Examples.config Examples.lowered) as (plan & E & S & F).
  - vm_compute. reflexivity.
  - exists plan. split; [exact E|]. split; [exact S|]. exact (F 1%nat).
Defined.
