(* ===== verification/Tensor.v ===== *)
(** * Tensor: strided storage, slices and views

    [src/base/shape_and_stride.cpp], [tensor.cpp], [tensor_view.cpp] and their
    headers. The fixed arrays of [ShapeAndStride] are lists of the current rank
    (the unused slots are zero and never read). A buffer is its address, size
    and alignment; tensors that share a buffer share this record. All the
    [noexcept] members abort on a failed check, which is [Panic]; debug checks
    ([AM_DCHECK]) are kept. Elements are addressed by an index, as the scalar
    product [dot] of index and strides. *)
From S2P Require Import Prelude OverflowCheck ShapeSymbol ShapeConstraint Broadcast DataTypes Workspace.

(** ** Checked [int64_t] and [size_t] arithmetic *)

Definition mul_i64_or (a b : Z) (why : string) : Res Z :=
  let '(o, r) := CheckOverflowMul int64_ty a b in _ ← am_check (negb o) why; Ret r.
Definition mul_u64_or (a b : Z) (why : string) : Res Z :=
  let '(o, r) := CheckOverflowMul uint64_ty a b in _ ← am_check (negb o) why; Ret r.
Definition add_u64_or (a b : Z) (why : string) : Res Z :=
  let '(o, r) := CheckOverflowAdd uint64_ty a b in _ ← am_check (negb o) why; Ret r.
Definition add_i64_or (a b : Z) (why : string) : Res Z :=
  let '(o, r) := CheckOverflowAdd int64_ty a b in _ ← am_check (negb o) why; Ret r.

(** ** Shape and strides *)

(* @src include/aethermind/base/shape_and_stride.h:155-155 ShapeAndStride::kMaxRank *)
Definition kMaxRank : Z := 8.

(* @src include/aethermind/base/shape_and_stride.h:157-161 ShapeAndStride (state) *)
Record ShapeAndStride := mkSas { sas_initialized : bool; sas_shape : list Z; sas_strides : list Z }.

Definition no_shape : ShapeAndStride := mkSas false [] [].

Definition check_dims (shape : list Z) : Res unit :=
  res_iter (fun d => am_check (0 <=? d) "shape dimensions must be non-negative") shape.

(* @src src/base/shape_and_stride.cpp:27-45 ShapeAndStride::set *)
Definition sas_set (shape strides : list Z) : Res ShapeAndStride :=
  _ ← am_check (length shape =? length strides)%nat "shape/strides size mismatch";
  _ ← am_check (zlen shape <=? kMaxRank) "rank exceeds kMaxRank";
  _ ← check_dims shape;
  Ret (mkSas true shape strides).

(** [strides_[i] = strides_[i + 1] * shape_[i + 1]], from the innermost axis
    outwards. *)
(* @src src/base/shape_and_stride.cpp:73-77 ShapeAndStride::set_contiguous (strides) *)
Fixpoint contiguous_strides (shape : list Z) : Res (list Z) :=
  match shape with
  | [] => Ret []
  | _ :: rest =>
      strides ← contiguous_strides rest;
      match rest, strides with
      | d :: _, s :: _ => t ← mul_i64_or s d "Stride calculation overflow"; Ret (t :: strides)
      | _, _ => Ret [1]
      end
  end.

(* @src src/base/shape_and_stride.cpp:53-83 ShapeAndStride::set_contiguous *)
Definition sas_set_contiguous (shape : list Z) : Res ShapeAndStride :=
  _ ← am_check (zlen shape <=? kMaxRank) "rank exceeds kMaxRank";
  _ ← check_dims shape;
  strides ← contiguous_strides shape;
  Ret (mkSas true shape strides).

(* @src src/base/shape_and_stride.cpp:91-105 ShapeAndStride::numel *)
Definition sas_numel (s : ShapeAndStride) : Res Z :=
  match sas_shape s with
  | [] => Ret (if sas_initialized s then 1 else 0)
  | shape =>
      let '(overflow, n) := SafeMultiplyU64 shape in
      _ ← am_check (negb (overflow || (INT64_MAX <? n))) "Integer multiplication overflow when compute numel.";
      Ret n
  end.

(** The loop over axes, innermost first. *)
(* @src src/base/shape_and_stride.cpp:120-135 ShapeAndStride::is_contiguous (loop) *)
Fixpoint contiguous_loop (expected : Z) (axes : list (Z * Z)) : Res bool :=
  match axes with
  | [] => Ret true
  | (d, s) :: axes' =>
      if d =? 1 then contiguous_loop expected axes'
      else if negb (s =? expected) then Ret false
      else
        next ← mul_i64_or expected d "Stride validation overflow";
        contiguous_loop next axes'
  end.

(* @src src/base/shape_and_stride.cpp:115-136 ShapeAndStride::is_contiguous *)
Definition sas_is_contiguous (s : ShapeAndStride) : Res bool :=
  match sas_shape s with
  | [] => Ret (sas_initialized s)
  | shape => contiguous_loop 1 (reverse (zip shape (sas_strides s)))
  end.

(** [true] when a zero dimension ends the scan. *)
(* @src src/base/shape_and_stride.cpp:151-157 ShapeAndStride::max_element_offset (scan) *)
Fixpoint scan_axes (axes : list (Z * Z)) : Res bool :=
  match axes with
  | [] => Ret false
  | (d, s) :: axes' =>
      _ ← am_check (0 <=? d) "shape_[i] >= 0";
      _ ← am_check (0 <=? s) "strides_[i] >= 0";
      if d =? 0 then Ret true else scan_axes axes'
  end.

(* @src src/base/shape_and_stride.cpp:159-168 ShapeAndStride::max_element_offset (sum) *)
Fixpoint sum_offsets (offset : Z) (axes : list (Z * Z)) : Res Z :=
  match axes with
  | [] => Ret offset
  | (d, s) :: axes' =>
      term ← mul_i64_or (d - 1) s "!CheckOverflowMul((shape_[i] - 1), strides_[i], &term)";
      _ ← am_check (0 <=? term) "term >= 0";
      _ ← am_check (offset <=? INT64_MAX - term) "max_element_offset overflow.";
      sum_offsets (offset + term) axes'
  end.

(* @src src/base/shape_and_stride.cpp:146-169 ShapeAndStride::max_element_offset *)
Definition sas_max_element_offset (s : ShapeAndStride) : Res Z :=
  let axes := zip (sas_shape s) (sas_strides s) in
  zero ← scan_axes axes;
  if (zero : bool) then Ret 0 else sum_offsets 0 axes.

(** ** Tensors *)

(** [buf_data = 0] is the null pointer of an empty handle. *)
(* @src include/aethermind/memory/buffer.h:17-59 BufferImpl *)
Record Buffer := mkBuffer { buf_data : Z; buf_nbytes : Z; buf_alignment : Z }.

(* @src include/aethermind/base/tensor.h:242-245 Tensor (state) *)
Record Tensor := mkTensor {
  t_buffer : option Buffer; byte_offset_ : Z; dtype_ : DataType.t; shape_and_strides_ : ShapeAndStride }.

(* @src include/aethermind/memory/buffer.h:73-75 Buffer::is_initialized *)
Definition buffer_initialized (b : option Buffer) : bool :=
  match b with Some b => negb (buf_data b =? 0) | None => false end.

(* @src include/aethermind/base/tensor.h:71-73 Tensor::is_initialized *)
Definition t_is_initialized (t : Tensor) : bool := buffer_initialized (t_buffer t).

Definition t_rank (t : Tensor) : Z := zlen (sas_shape (shape_and_strides_ t)).
Definition t_numel (t : Tensor) : Res Z := sas_numel (shape_and_strides_ t).

(** [buffer_->nbytes()] dereferences the implementation. *)
Definition buffer_nbytes (b : option Buffer) : Res Z :=
  match b with Some b => Ret (buf_nbytes b) | None => Panic "null buffer" end.

(* @src src/base/tensor.cpp:26-34 Tensor::logical_nbytes *)
Definition t_logical_nbytes (t : Tensor) : Res Z :=
  n ← t_numel t;
  _ ← am_check (0 <=? n) "n >= 0";
  size ← DataType.nbytes (dtype_ t);
  mul_u64_or n size "!overflow".

(* @src src/base/tensor.cpp:36-49 Tensor::max_touched_span_bytes *)
Definition max_touched_span_bytes (t : Tensor) : Res Z :=
  if negb (t_is_initialized t) then Ret 0
  else
    n ← t_numel t;
    if n =? 0 then Ret 0
    else
      off ← sas_max_element_offset (shape_and_strides_ t);
      _ ← am_check (0 <=? off) "max_elem_offset >= 0";
      size ← DataType.nbytes (dtype_ t);
      mul_u64_or (u64 (off + 1)) size "!overflow".

(* @src src/base/tensor.cpp:51-72 Tensor::storage_range_is_valid *)
Definition storage_range_is_valid (t : Tensor) : Res bool :=
  if negb (t_is_initialized t) then Ret false
  else
    buffer_bytes ← buffer_nbytes (t_buffer t);
    if buffer_bytes <? byte_offset_ t then Ret false
    else
      span ← max_touched_span_bytes t;
      if span =? 0 then Ret true
      else
        let '(overflow, res) := CheckOverflowAdd uint64_ty (byte_offset_ t) span in
        Ret (negb overflow && (res <=? buffer_bytes)).

(* @src src/base/tensor.cpp:163-180 Tensor::validate *)
Definition t_validate (t : Tensor) : Res unit :=
  let sas := shape_and_strides_ t in
  _ ← am_check (t_is_initialized t) "Tensor buffer is not initialized.";
  _ ← am_check (sas_initialized sas) "Tensor metadata is not initialized.";
  nb ← buffer_nbytes (t_buffer t);
  _ ← am_check (byte_offset_ t <=? nb) "Tensor byte_offset out of buffer range.";
  _ ← am_check (t_rank t <=? kMaxRank) "Invalid tensor rank.";
  _ ← am_check (negb (DataType.IsScalableVector (dtype_ t)))
        "Tensor storage does not support scalable vector DataType.";
  size ← DataType.nbytes (dtype_ t);
  _ ← am_check (0 <? size) "Tensor dtype itemsize must be positive.";
  _ ← res_iter (fun a =>
        _ ← am_check (0 <=? a.1) "Tensor shape must be non-negative.";
        am_check (0 <=? a.2) "Tensor stride requires non-negative.") (zip (sas_shape sas) (sas_strides sas));
  n ← t_numel t;
  _ ← am_check (0 <=? n) "numel() >= 0";
  off ← sas_max_element_offset sas;
  _ ← am_check (0 <=? off) "max_touched_element_offset() >= 0";
  ok ← storage_range_is_valid t;
  am_check ok "storage_range_is_valid()".

(** The validating constructor. *)
(* @src include/aethermind/base/tensor.h:49-54 Tensor::Tensor *)
Definition make_tensor (b : option Buffer) (off : Z) (d : DataType.t) (sas : ShapeAndStride) : Res Tensor :=
  let t := mkTensor b off d sas in _ ← t_validate t; Ret t.

(** ** Slices *)

(* @src src/base/tensor.cpp:90-103 Tensor::slice (normalize_bound) *)
Definition normalize_bound (dim_size idx : Z) : Z :=
  let v := if idx <? 0 then idx + dim_size else idx in
  let v := if v <? 0 then 0 else v in
  if dim_size <? v then dim_size else v.

(* @src src/base/tensor.cpp:135-154 Tensor::slice (byte offset) *)
Definition slice_offset (t : Tensor) (begin stride : Z) : Res Z :=
  if 0 <? begin then
    elem_delta ← mul_i64_or begin stride "slice element offset overflow.";
    _ ← am_check (0 <=? elem_delta) "slice expects non-negative element offset delta.";
    size ← DataType.nbytes (dtype_ t);
    byte_delta ← mul_u64_or (u64 elem_delta) size "slice byte offset overflow.";
    add_u64_or (byte_offset_ t) byte_delta "slice byte offset overflow."
  else Ret (byte_offset_ t).

(* @src src/base/tensor.cpp:111-117 Tensor::slice (extent) *)
Definition slice_extent (extent step : Z) : Res Z :=
  if 0 <? extent then n ← add_i64_or extent (step - 1) "slice extent overflow."; Ret (n / step)
  else Ret 0.

(* @src src/base/tensor.cpp:74-161 Tensor::slice *)
Definition slice (t : Tensor) (dim_idx start finish step : Z) : Res Tensor :=
  let sas := shape_and_strides_ t in
  _ ← am_check (t_is_initialized t) "Cannot slice uninitialized tensor.";
  _ ← am_check (0 <? step) "slice currently supports step > 0 only.";
  let r := t_rank t in
  _ ← am_check (1 <=? r) "slice expects rank >= 1 tensor.";
  let normalized_dim := if dim_idx <? 0 then dim_idx + r else dim_idx in
  _ ← am_check ((0 <=? normalized_dim) && (normalized_dim <? r)) "slice dim out of range.";
  let k := Z.to_nat normalized_dim in
  dim_size ← vec_at (sas_shape sas) k;
  stride ← vec_at (sas_strides sas) k;
  _ ← am_check (0 <=? dim_size) "slice expects non-negative dimension size.";
  let begin := normalize_bound dim_size start in
  let finish := Z.max begin (normalize_bound dim_size finish) in
  out_dim_size ← slice_extent (finish - begin) step;
  stepped_stride ← mul_i64_or stride step "slice stride overflow.";
  _ ← am_check (0 <=? stepped_stride) "slice stride must be non-negative.";
  new_byte_offset ← slice_offset t begin stride;
  sliced ← sas_set (<[k := out_dim_size]> (sas_shape sas)) (<[k := stepped_stride]> (sas_strides sas));
  make_tensor (t_buffer t) new_byte_offset (dtype_ t) sliced.

(** [start + length] is a signed addition. *)
(* @src include/aethermind/base/tensor.h:213-216 Tensor::narrow *)
Definition narrow (t : Tensor) (dim_idx start len : Z) : Res Tensor :=
  _ ← am_check (0 <=? len) "length >= 0";
  if (INT64_MIN <=? start + len) && (start + len <=? INT64_MAX) then slice t dim_idx start (start + len) 1
  else Panic "signed integer overflow".

(** ** Views *)

(** Pointers to metadata are null only for rank 0, so lists suffice. *)
(* @src include/aethermind/base/tensor_view.h:140-146 TensorView *)
Record TensorView := mkTensorView {
  v_data : Z; v_dtype : DataType.t; v_shape : list Z; v_strides : list Z; v_alignment : Z }.

(* @src src/base/tensor_view.cpp:28-66 HasValidMetadata *)
Definition HasValidMetadata (d : DataType.t) (shape strides : list Z) : Res bool :=
  if DataType.IsScalableVector d then Ret false
  else
    size ← DataType.nbytes d;
    Ret ((0 <? size) && (length shape =? length strides)%nat && (zlen shape <=? kMaxRank) &&
         forallb (fun a => (0 <=? a.1) && (0 <=? a.2)) (zip shape strides)).

(* @src src/base/tensor_view.cpp:74-91 HasValidAlignment *)
Definition HasValidAlignment (data align : Z) : bool :=
  if align =? 0 then true
  else if negb (has_single_bit align) then false
  else if data =? 0 then true
  else Z.land data (align - 1) =? 0.

(* @src src/base/tensor_view.cpp:99-111 HasAnyElement *)
Definition HasAnyElement (shape : list Z) : bool := forallb (fun d => negb (d =? 0)) shape.

(* @src src/base/tensor_view.cpp:119-129 ComputeNumel *)
Definition ComputeNumel (shape : list Z) : Res Z :=
  let '(overflow, product) := SafeMultiplyU64 shape in
  _ ← am_check (negb overflow && (product <=? INT64_MAX))
        "Integer multiplication overflow when computing TensorView numel.";
  Ret product.

(* @src src/base/tensor_view.cpp:137-145 ComputeLogicalNBytes *)
Definition ComputeLogicalNBytes (shape : list Z) (itemsize : Z) : Res Z :=
  n ← ComputeNumel shape;
  _ ← am_check (0 <=? n) "n >= 0";
  mul_u64_or n itemsize "TensorView logical_nbytes overflow.".

(* @src src/base/tensor_view.cpp:154-179 IsContiguous *)
Definition IsContiguous (shape strides : list Z) : Res bool :=
  match shape with
  | [] => Ret true
  | _ =>
      if negb (length shape =? length strides)%nat then Ret false
      else contiguous_loop 1 (reverse (zip shape strides))
  end.

(* @src src/base/tensor_view.cpp:211-225 TensorView::is_valid *)
Definition v_is_valid (v : TensorView) : Res bool :=
  m ← HasValidMetadata (v_dtype v) (v_shape v) (v_strides v);
  Ret (m && HasValidAlignment (v_data v) (v_alignment v) &&
       negb (HasAnyElement (v_shape v) && (v_data v =? 0))).

(* @src src/base/tensor_view.cpp:186-197 TensorView::TensorView *)
Definition make_view (data : Z) (d : DataType.t) (shape strides : list Z) (align : Z) : Res TensorView :=
  let v := mkTensorView data d shape strides align in
  ok ← v_is_valid v;
  _ ← am_check ok "TensorView must borrow a valid Tensor-like state.";
  Ret v.

(* @src src/base/tensor_view.cpp:227-230 TensorView::numel *)
Definition v_numel (v : TensorView) : Res Z :=
  ok ← v_is_valid v; _ ← am_check ok "numel() requires a valid TensorView."; ComputeNumel (v_shape v).

(* @src src/base/tensor_view.cpp:232-235 TensorView::logical_nbytes *)
Definition v_logical_nbytes (v : TensorView) : Res Z :=
  ok ← v_is_valid v; _ ← am_check ok "logical_nbytes() requires a valid TensorView.";
  size ← DataType.nbytes (v_dtype v);
  ComputeLogicalNBytes (v_shape v) size.

(* @src src/base/tensor_view.cpp:237-240 TensorView::is_contiguous *)
Definition v_is_contiguous (v : TensorView) : Res bool :=
  ok ← v_is_valid v; _ ← am_check ok "is_contiguous() requires a valid TensorView.";
  IsContiguous (v_shape v) (v_strides v).

(* @src include/aethermind/base/tensor.h:95-106 Tensor::alignment *)
Definition t_alignment (t : Tensor) : Res Z :=
  match t_buffer t with
  | None => Panic "null buffer"
  | Some b => Ret (if buf_alignment b =? 0 then 0
                   else if byte_offset_ t =? 0 then buf_alignment b
                   else Z.gcd (buf_alignment b) (byte_offset_ t))
  end.

(* @src include/aethermind/base/tensor.h:140-147 Tensor::data *)
Definition t_data (t : Tensor) : Z :=
  match t_buffer t with
  | Some b => if buf_data b =? 0 then 0 else buf_data b + byte_offset_ t
  | None => 0
  end.

(* @src src/base/tensor.cpp:18-20 Tensor::view *)
Definition t_view (t : Tensor) : Res TensorView :=
  a ← t_alignment t;
  let sas := shape_and_strides_ t in
  make_view (t_data t) (dtype_ t) (sas_shape sas) (sas_strides sas) a.

(** ** What a valid tensor is *)

(** The largest offset an index can reach. *)
Fixpoint max_off (shape strides : list Z) : Z :=
  match shape, strides with
  | d :: shape', s :: strides' => (d - 1) * s + max_off shape' strides'
  | _, _ => 0
  end.

Definition nonneg (l : list Z) : Prop := Forall (fun x => 0 <= x) l.

(** [numel] is defined: no prefix product leaves [uint64_t], and the product
    fits [int64_t]. *)
Definition numel_ok (shape : list Z) : Prop :=
  (forall k, product (take k shape) < 2 ^ 64) /\ product shape <= INT64_MAX.

(** Machine ranges of the fields of a tensor; strides accompany dimensions. *)
Record tensor_range (t : Tensor) : Prop := {
  tr_offset : in_u 64 (byte_offset_ t);
  tr_buffer : forall b, t_buffer t = Some b -> in_u 64 (buf_nbytes b);
  tr_shape : Forall (in_i 64) (sas_shape (shape_and_strides_ t));
  tr_strides : Forall (in_i 64) (sas_strides (shape_and_strides_ t));
  tr_len : length (sas_shape (shape_and_strides_ t)) = length (sas_strides (shape_and_strides_ t)) }.

(** A tensor over buffer [b] with elements of [size] bytes. *)
Record tensor_ok (t : Tensor) (b : Buffer) (size : Z) : Prop := {
  to_range : tensor_range t;
  to_buffer : t_buffer t = Some b;
  to_data : buf_data b <> 0;
  to_init : sas_initialized (shape_and_strides_ t) = true;
  to_rank : t_rank t <= kMaxRank;
  to_fixed : DataType.IsScalableVector (dtype_ t) = false;
  to_size : DataType.nbytes (dtype_ t) = Ret size;
  to_size_pos : 0 < size;
  to_shape : nonneg (sas_shape (shape_and_strides_ t));
  to_strides : nonneg (sas_strides (shape_and_strides_ t));
  to_numel : numel_ok (sas_shape (shape_and_strides_ t));
  to_offset : byte_offset_ t <= buf_nbytes b;
  to_span : HasAnyElement (sas_shape (shape_and_strides_ t)) = true ->
    max_off (sas_shape (shape_and_strides_ t)) (sas_strides (shape_and_strides_ t)) <= INT64_MAX /\
    byte_offset_ t + (max_off (sas_shape (shape_and_strides_ t)) (sas_strides (shape_and_strides_ t)) + 1) * size
      <= buf_nbytes b }.

(** The address of an element. *)
Definition elem_addr (t : Tensor) (b : Buffer) (size : Z) (idx : list Z) : Z :=
  buf_data b + byte_offset_ t + dot idx (sas_strides (shape_and_strides_ t)) * size.

(** ** Lemmas: checked arithmetic *)

Lemma mul_i64_or_ret a b why r : mul_i64_or a b why = Ret r <-> r = a * b /\ in_i 64 (a * b).
Proof.
  unfold mul_i64_or, CheckOverflowMul, int_trunc. simpl.
  destruct (Z.eqb_spec (wrap_signed 64 (a * b)) (a * b)) as [E|E]; simpl.
  - apply wrap_signed_id_iff in E; [|lia]. split; [intros [= <-]; split; [|done]; by apply wrap_signed_id_iff; [lia|]|].
    intros [-> _]. f_equal. by apply wrap_signed_id_iff; [lia|].
  - split; [done|]. intros [_ H]. destruct E. by apply wrap_signed_id_iff; [lia|].
Qed.

Lemma mul_u64_or_ret a b why r : mul_u64_or a b why = Ret r <-> r = a * b /\ in_u 64 (a * b).
Proof.
  unfold mul_u64_or, CheckOverflowMul, int_trunc. simpl.
  destruct (Z.eqb_spec (wrap 64 (a * b)) (a * b)) as [E|E]; simpl.
  - pose proof (proj1 (wrap_id_iff 64 _ ltac:(lia)) E). rewrite E. split; [intros [= <-]; done|by intros [-> _]].
  - split; [done|]. intros [_ H]. destruct E. by apply wrap_small.
Qed.

Lemma add_u64_or_ret a b why r : add_u64_or a b why = Ret r <-> r = a + b /\ in_u 64 (a + b).
Proof.
  unfold add_u64_or, CheckOverflowAdd, int_trunc. simpl.
  destruct (Z.eqb_spec (wrap 64 (a + b)) (a + b)) as [E|E]; simpl.
  - pose proof (proj1 (wrap_id_iff 64 _ ltac:(lia)) E). rewrite E. split; [intros [= <-]; done|by intros [-> _]].
  - split; [done|]. intros [_ H]. destruct E. by apply wrap_small.
Qed.

Lemma add_i64_or_ret a b why r : add_i64_or a b why = Ret r <-> r = a + b /\ in_i 64 (a + b).
Proof.
  unfold add_i64_or, CheckOverflowAdd, int_trunc. simpl.
  destruct (Z.eqb_spec (wrap_signed 64 (a + b)) (a + b)) as [E|E]; simpl.
  - pose proof (proj1 (wrap_signed_id_iff 64 _ ltac:(lia)) E). rewrite E. split; [intros [= <-]; done|by intros [-> _]].
  - split; [done|]. intros [_ H]. destruct E. by apply wrap_signed_id_iff; [lia|].
Qed.

(** ** Lemmas: offsets *)

Lemma max_off_nonneg shape strides : Forall (fun d => 1 <= d) shape -> nonneg strides ->
  0 <= max_off shape strides.
Proof.
  intros Hd. revert strides. induction Hd as [|d shape Hd _ IH]; intros [|s strides] Hs; simpl; try lia.
  apply Forall_cons in Hs as [Hs0 Hs]. specialize (IH strides Hs). nia.
Qed.

Lemma any_element shape : nonneg shape -> HasAnyElement shape = true <-> Forall (fun d => 1 <= d) shape.
Proof.
  intros Hn. unfold HasAnyElement. induction Hn as [|d shape Hd _ IH]; simpl; [split; [constructor|done]|].
  rewrite andb_true_iff, IH, Forall_cons, negb_true_iff, Z.eqb_neq. intuition lia.
Qed.

(** Every element lies between the first and the last one. *)
Lemma dot_bounds shape : forall strides idx, nonneg strides -> length shape = length strides ->
  in_shape idx shape -> 0 <= dot idx strides <= max_off shape strides.
Proof.
  induction shape as [|d shape IH]; intros [|s strides] [|i idx] Hs Hl Hi; try discriminate;
    try (by inversion Hi); simpl.
  apply Forall_cons in Hs as [Hs0 Hs]. inversion Hi as [|? ? ? ? Hi0 Hi']; subst.
  specialize (IH strides idx Hs ltac:(by injection Hl) Hi'). nia.
Qed.

Lemma scan_axes_spec shape : forall strides, nonneg shape -> nonneg strides -> length shape = length strides ->
  scan_axes (zip shape strides) = Ret (negb (HasAnyElement shape)).
Proof.
  induction shape as [|d shape IH]; intros [|s strides] Hd Hs Hl; try discriminate; [done|].
  apply Forall_cons in Hd as [Hd0 Hd]. apply Forall_cons in Hs as [Hs0 Hs]. simpl.
  rewrite (proj2 (Z.leb_le 0 d) Hd0), (proj2 (Z.leb_le 0 s) Hs0). simpl.
  destruct (Z.eqb_spec d 0); simpl; [done|]. apply IH; [done|done|by injection Hl].
Qed.

Lemma sum_offsets_spec shape : forall strides off, Forall (fun d => 1 <= d) shape -> nonneg strides ->
  length shape = length strides -> 0 <= off <= INT64_MAX ->
  (forall r, sum_offsets off (zip shape strides) = Ret r <->
    r = off + max_off shape strides /\ off + max_off shape strides <= INT64_MAX).
Proof.
  induction shape as [|d shape IH]; intros [|s strides] off Hd Hs Hl Ho r; try discriminate; simpl.
  { rewrite Z.add_0_r. split; [intros [= <-]; lia|by intros [-> _]]. }
  apply Forall_cons in Hd as [Hd0 Hd]. apply Forall_cons in Hs as [Hs0 Hs]. injection Hl as Hl.
  pose proof (max_off_nonneg shape strides Hd Hs) as Hm.
  split.
  - intros H. res_inv. apply mul_i64_or_ret in Hm0 as [-> Hr]. bsplit.
    apply IH in H as [-> ?]; try done; [lia|]. lia.
  - intros [-> Hle]. assert (0 <= (d - 1) * s) as Hterm by nia. unfold INT64_MAX in *.
    assert (in_i 64 ((d - 1) * s)) as Hin by (unfold in_i; lia).
    rewrite (proj2 (mul_i64_or_ret (d - 1) s _ _) (conj eq_refl Hin)). cbn [mbind res_mbind res_bind].
    rewrite (proj2 (Z.leb_le _ _) Hterm). cbn [am_check mbind res_mbind res_bind].
    rewrite (proj2 (Z.leb_le _ _)) by lia. cbn [am_check mbind res_mbind res_bind].
    apply IH; [done|done|done|lia|]. split; lia.
Qed.

Lemma max_element_offset_spec s : nonneg (sas_shape s) -> nonneg (sas_strides s) ->
  length (sas_shape s) = length (sas_strides s) -> forall r,
  sas_max_element_offset s = Ret r <->
    (if HasAnyElement (sas_shape s) then r = max_off (sas_shape s) (sas_strides s) /\ r <= INT64_MAX else r = 0).
Proof.
  intros Hd Hs Hl r. unfold sas_max_element_offset. rewrite scan_axes_spec by done.
  cbn [mbind res_mbind res_bind]. destruct (HasAnyElement (sas_shape s)) eqn:E; simpl.
  - apply any_element in E; [|done]. rewrite sum_offsets_spec by (done || (unfold INT64_MAX; lia)).
    rewrite Z.add_0_l. intuition congruence.
  - split; [by intros [= <-]|by intros ->].
Qed.

(** ** Lemmas: element counts *)

Lemma product_zero shape : nonneg shape -> product shape = 0 <-> HasAnyElement shape = false.
Proof.
  intros Hn. unfold HasAnyElement. induction Hn as [|d shape Hd _ IH]; simpl; [split; done|].
  rewrite andb_false_iff, negb_false_iff, Z.eqb_eq, <- IH, Z.mul_eq_0. done.
Qed.

Lemma nonneg_in_u shape : nonneg shape -> Forall (in_i 64) shape -> Forall (in_u 64) shape.
Proof.
  intros Hn Hi. apply Forall_forall. intros d Hd. unfold nonneg in Hn. rewrite Forall_forall in Hn, Hi.
  specialize (Hn d Hd). specialize (Hi d Hd). unfold in_i, in_u in *. lia.
Qed.

Lemma product_take_nonneg shape k : nonneg shape -> 0 <= product (take k shape).
Proof. intros Hn. apply product_nonneg. by apply Forall_take. Qed.

Lemma safe_multiply_spec shape : nonneg shape -> Forall (in_i 64) shape ->
  (exists p, SafeMultiplyU64 shape = (true, p) /\ exists k, 2 ^ 64 <= product (take k shape)) \/
  (SafeMultiplyU64 shape = (false, product shape) /\ forall k, product (take k shape) < 2 ^ 64).
Proof.
  intros Hn Hi. pose proof (nonneg_in_u _ Hn Hi) as Hu. unfold SafeMultiplyU64.
  destruct (decide (Exists (fun k => 2 ^ 64 <= product (take k shape)) (seq 0 (S (length shape))))) as [H|H].
  - left. apply Exists_exists in H as (k & _ & Hk).
    destruct (foldl SafeMultiplyU64_step (false, 1) shape) as [o p] eqn:E. exists p. split; [|eauto].
    pose proof (SafeMultiplyU64_overflow shape 1 k ltac:(unfold in_u; lia) Hu) as Ho. rewrite E in Ho. simpl in Ho.
    rewrite Ho; [done|]. unfold in_u. lia.
  - right. assert (forall k, product (take k shape) < 2 ^ 64) as Hk.
    { intros k. apply Z.nle_gt. intros Hk. apply H, Exists_exists. exists (k `min` length shape)%nat.
      split; [apply elem_of_seq; lia|]. destruct (decide (k <= length shape)%nat) as [Hl|Hl].
      - by rewrite Nat.min_l.
      - rewrite Nat.min_r by lia. rewrite (take_ge shape k) in Hk by lia. by rewrite take_ge by lia. }
    split; [|done]. rewrite SafeMultiplyU64_exact; [by rewrite Z.mul_1_l|done|].
    intros k. rewrite Z.mul_1_l. split; [by apply product_take_nonneg|apply Hk].
Qed.

Lemma sas_numel_spec s : nonneg (sas_shape s) -> Forall (in_i 64) (sas_shape s) -> sas_initialized s = true ->
  forall n, sas_numel s = Ret n <-> n = product (sas_shape s) /\ numel_ok (sas_shape s).
Proof.
  intros Hn Hi Hini n. unfold sas_numel. rewrite Hini.
  destruct (sas_shape s) as [|d shape] eqn:E.
  { split; [|by intros [-> _]]. intros [= <-]. split; [done|]. split; [|unfold INT64_MAX; simpl; lia].
    intros k. rewrite take_nil. simpl. lia. }
  rewrite <- E in *. destruct (safe_multiply_spec _ Hn Hi) as [(p & -> & k & Hk)|[-> Hk]]; simpl.
  - split; [done|]. intros [_ [H _]]. specialize (H k). lia.
  - destruct (Z.ltb_spec INT64_MAX (product (sas_shape s))) as [Hlt|Hle]; simpl.
    + split; [done|]. intros [_ [_ ?]]. lia.
    + split; [by intros [= <-]|by intros [-> _]].
Qed.

Lemma numel_ok_mono a b : Forall2 (fun x y => 0 <= x <= y) a b -> numel_ok b -> numel_ok a.
Proof.
  assert (forall a b, Forall2 (fun x y => 0 <= x <= y) a b -> 0 <= product a <= product b) as Hp.
  { intros x y. induction 1 as [|u v x y Huv _ IH]; simpl; [lia|]. nia. }
  intros H [Hk Hm]. split.
  - intros k. specialize (Hk k). destruct (Hp (take k a) (take k b) (Forall2_take _ _ _ k H)). lia.
  - destruct (Hp a b H). lia.
Qed.

(** ** Lemmas: validation *)

Lemma axes_nonneg shape strides : length shape = length strides ->
  res_iter (fun a : Z * Z => _ ← am_check (0 <=? a.1) "Tensor shape must be non-negative.";
    am_check (0 <=? a.2) "Tensor stride requires non-negative.") (zip shape strides) = Ret tt <->
  nonneg shape /\ nonneg strides.
Proof.
  revert strides. induction shape as [|d shape IH]; intros [|s strides] Hl; try discriminate; simpl.
  { split; [by repeat constructor|done]. }
  injection Hl as Hl. unfold nonneg. rewrite !Forall_cons.
  destruct (Z.leb_spec 0 d); simpl; [|split; [done|intros [[? _] _]; lia]].
  destruct (Z.leb_spec 0 s); simpl; [|split; [done|intros [_ [? _]]; lia]].
  rewrite IH by done. unfold nonneg. tauto.
Qed.

(** The span check, once the metadata is known to be good. *)
Lemma storage_range_spec t b size :
  let sas := shape_and_strides_ t in
  tensor_range t -> t_buffer t = Some b -> buf_data b <> 0 -> sas_initialized sas = true ->
  DataType.nbytes (dtype_ t) = Ret size -> 0 < size -> nonneg (sas_shape sas) -> nonneg (sas_strides sas) ->
  numel_ok (sas_shape sas) ->
  (HasAnyElement (sas_shape sas) = true -> max_off (sas_shape sas) (sas_strides sas) <= INT64_MAX) ->
  byte_offset_ t <= buf_nbytes b ->
  storage_range_is_valid t = Ret true <->
  (HasAnyElement (sas_shape sas) = true ->
    byte_offset_ t + (max_off (sas_shape sas) (sas_strides sas) + 1) * size <= buf_nbytes b).
Proof.
  cbn zeta. intros [Ho Hb Hsh Hst Hl] HB Hd Hini Hsz Hpos Hn1 Hn2 Hnum Hmax Hoff.
  specialize (Hb b HB). unfold storage_range_is_valid, max_touched_span_bytes, t_numel.
  unfold t_is_initialized, buffer_initialized, buffer_nbytes. rewrite HB.
  rewrite (proj2 (Z.eqb_neq _ _) Hd). cbn [negb mbind res_mbind res_bind].
  rewrite (proj2 (Z.ltb_ge _ _) Hoff).
  rewrite (proj2 (sas_numel_spec _ Hn1 Hsh Hini _) (conj eq_refl Hnum)). cbn [mbind res_mbind res_bind].
  destruct (HasAnyElement (sas_shape (shape_and_strides_ t))) eqn:E.
  - destruct (Z.eqb_spec (product (sas_shape (shape_and_strides_ t))) 0) as [Hz|_].
    { apply product_zero in Hz; [congruence|done]. }
    specialize (Hmax eq_refl). pose proof E as Ed. apply any_element in Ed; [|done].
    pose proof (max_off_nonneg _ _ Ed Hn2) as Hm0.
    rewrite (proj2 (max_element_offset_spec _ Hn1 Hn2 Hl _)) by (rewrite E; split; [reflexivity|done]).
    cbn [mbind res_mbind res_bind]. rewrite (proj2 (Z.leb_le _ _) Hm0). cbn [am_check mbind res_mbind res_bind].
    rewrite Hsz. cbn [mbind res_mbind res_bind]. unfold INT64_MAX, in_u in *.
    rewrite wrap_small by (unfold in_u; lia).
    set (span := (max_off (sas_shape (shape_and_strides_ t)) (sas_strides (shape_and_strides_ t)) + 1) * size).
    assert (0 < span) as Hspan by (unfold span; nia).
    destruct (mul_u64_or _ size _) as [r|e|w] eqn:Em; cbn [mbind res_mbind res_bind].
    + apply mul_u64_or_ret in Em as [-> Hin]. fold span in Hin |- *. unfold in_u in Hin.
      rewrite (proj2 (Z.eqb_neq _ 0)) by lia.
      destruct (Z.lt_ge_cases (byte_offset_ t + span) (2 ^ 64)) as [Hlt|Hge].
      * rewrite CheckOverflowAdd_u64 by (unfold in_u; lia). simpl.
        destruct (Z.leb_spec (byte_offset_ t + span) (buf_nbytes b)); split; try done.
        intros H'. specialize (H' eq_refl). lia.
      * destruct (CheckOverflowAdd uint64_ty (byte_offset_ t) span) as [o r] eqn:Ea.
        pose proof (CheckOverflowAdd_u64_over (byte_offset_ t) span Hge) as Hov. rewrite Ea in Hov. simpl in Hov. subst o.
        simpl. split; [done|]. intros H. specialize (H eq_refl). lia.
    + unfold mul_u64_or in Em. destruct (CheckOverflowMul _ _ _) as [[] ?]; discriminate Em.
    + split; [done|]. intros H. specialize (H eq_refl). exfalso.
      assert (mul_u64_or (max_off (sas_shape (shape_and_strides_ t)) (sas_strides (shape_and_strides_ t)) + 1)
        size "!overflow" = Ret span) as Ec; [|congruence].
      apply mul_u64_or_ret. split; [done|]. fold span. unfold in_u. lia.
  - rewrite (proj2 (product_zero _ Hn1) E). simpl. split; [done|reflexivity].
Qed.

Lemma validate_spec t : tensor_range t -> t_validate t = Ret tt <-> exists b size, tensor_ok t b size.
Proof.
  intros Hr. unfold t_validate. split.
  - intros H. res_inv. unfold t_is_initialized, buffer_initialized, buffer_nbytes in *.
    destruct (t_buffer t) as [b|] eqn:HB; [|discriminate]. bsplit. simplify_eq.
    apply axes_nonneg in Hm7 as [Hn1 Hn2]; [|apply Hr].
    apply (sas_numel_spec _ Hn1 (tr_shape _ Hr) Hm0) in Hm8 as [-> Hnum].
    pose proof (proj1 (max_element_offset_spec _ Hn1 Hn2 (tr_len _ Hr) _) Hm10) as Hmax.
    assert (HasAnyElement (sas_shape (shape_and_strides_ t)) = true ->
      max_off (sas_shape (shape_and_strides_ t)) (sas_strides (shape_and_strides_ t)) <= INT64_MAX) as Hmax'.
    { intros E. rewrite E in Hmax. destruct Hmax as [<- ?]. done. }
    exists b, a5. split; try done. intros E. split; [by apply Hmax'|].
    by apply (storage_range_spec t b a5).
  - intros (b & size & [_ HB Hd Hini Hrank Hfix Hsz Hpos Hn1 Hn2 Hnum Hoff Hspan]).
    unfold t_is_initialized, buffer_initialized, buffer_nbytes. rewrite HB, (proj2 (Z.eqb_neq _ _) Hd), Hini.
    cbn [negb am_check mbind res_mbind res_bind].
    rewrite (proj2 (Z.leb_le _ _) Hoff), (proj2 (Z.leb_le _ _) Hrank), Hfix, Hsz.
    cbn [negb am_check mbind res_mbind res_bind]. rewrite (proj2 (Z.ltb_lt _ _) Hpos).
    cbn [negb am_check mbind res_mbind res_bind].
    rewrite (proj2 (axes_nonneg _ _ (tr_len _ Hr)) (conj Hn1 Hn2)). cbn [mbind res_mbind res_bind].
    unfold t_numel. rewrite (proj2 (sas_numel_spec _ Hn1 (tr_shape _ Hr) Hini _) (conj eq_refl Hnum)).
    cbn [mbind res_mbind res_bind]. rewrite (proj2 (Z.leb_le _ _) (product_nonneg _ Hn1)).
    cbn [am_check mbind res_mbind res_bind].
    assert (exists off, sas_max_element_offset (shape_and_strides_ t) = Ret off /\ 0 <= off) as (off & -> & Hoff0).
    { destruct (HasAnyElement (sas_shape (shape_and_strides_ t))) eqn:E.
      - destruct (Hspan eq_refl) as [Hm _]. eexists. split.
        + apply (max_element_offset_spec _ Hn1 Hn2 (tr_len _ Hr)). rewrite E. by split.
        + apply max_off_nonneg; [by apply any_element|done].
      - exists 0. split; [|lia]. apply (max_element_offset_spec _ Hn1 Hn2 (tr_len _ Hr)). by rewrite E. }
    cbn [mbind res_mbind res_bind]. rewrite (proj2 (Z.leb_le _ _) Hoff0). cbn [am_check mbind res_mbind res_bind].
    rewrite (proj2 (storage_range_spec t b size Hr HB Hd Hini Hsz Hpos Hn1 Hn2 Hnum (fun E => proj1 (Hspan E)) Hoff)
      (fun E => proj2 (Hspan E))). done.
Qed.

(** ** Lemmas: slicing *)

Lemma dot_insert_index idx : forall strides k i s x, idx !! k = Some i -> strides !! k = Some s ->
  dot (<[k := x]> idx) strides = dot idx strides + (x - i) * s.
Proof.
  induction idx as [|j idx IH]; intros [|u strides] [|k] i s x Hi Hs; simplify_eq/=; [lia|].
  rewrite (IH strides k i s) by done. lia.
Qed.

Lemma dot_insert_stride idx : forall strides k i s x, idx !! k = Some i -> strides !! k = Some s ->
  dot idx (<[k := x]> strides) = dot idx strides + i * (x - s).
Proof.
  induction idx as [|j idx IH]; intros [|u strides] [|k] i s x Hi Hs; simplify_eq/=; [lia|].
  rewrite (IH strides k i s) by done. lia.
Qed.

Lemma max_off_insert shape : forall strides k d s n x, shape !! k = Some d -> strides !! k = Some s ->
  max_off (<[k := n]> shape) (<[k := x]> strides) = max_off shape strides + (n - 1) * x - (d - 1) * s.
Proof.
  induction shape as [|e shape IH]; intros [|u strides] [|k] d s n x Hd Hs; simplify_eq/=; [lia|].
  rewrite (IH strides k d s) by done. lia.
Qed.

Lemma max_off_term shape : forall strides k d s, Forall (fun d => 1 <= d) shape -> nonneg strides ->
  shape !! k = Some d -> strides !! k = Some s -> (d - 1) * s <= max_off shape strides.
Proof.
  induction shape as [|e shape IH]; intros [|u strides] [|k] d s Hp Hn Hd Hs; simplify_eq/=;
    apply Forall_cons in Hp as [He Hp]; apply Forall_cons in Hn as [Hu Hn].
  - pose proof (max_off_nonneg shape strides Hp Hn). lia.
  - specialize (IH strides k d s Hp Hn Hd Hs). nia.
Qed.

Lemma normalize_bound_range d i : 0 <= d -> 0 <= normalize_bound d i <= d.
Proof. intros Hd. unfold normalize_bound. zcases; lia. Qed.

(** The number of selected positions. *)
Lemma extent_count extent step : 0 < extent -> 0 < step ->
  let n := (extent + step - 1) / step in
  1 <= n <= extent /\ (n - 1) * step < extent /\ forall j, 0 <= j -> j < n <-> j * step < extent.
Proof.
  intros He Hs n. assert (n * step <= extent + step - 1 < (n + 1) * step) as [H1 H2].
  { unfold n. pose proof (Z.div_mod (extent + step - 1) step ltac:(lia)).
    pose proof (Z.mod_pos_bound (extent + step - 1) step Hs). nia. }
  split; [nia|]. split; [nia|]. intros j Hj. split; nia.
Qed.

Lemma nonneg_insert k x l : 0 <= x -> nonneg l -> nonneg (<[k := x]> l).
Proof. intros Hx Hl. by apply Forall_insert. Qed.

Lemma check_dims_nonneg l : nonneg l -> check_dims l = Ret tt.
Proof.
  intros Hl. apply res_iter_ret. eapply Forall_impl; [exact Hl|]. simpl. intros x Hx.
  by rewrite (proj2 (Z.leb_le 0 x) Hx).
Qed.

(** The tensor a slice describes. *)
Definition sliced (t : Tensor) (k : nat) (size s first n step : Z) : Tensor :=
  mkTensor (t_buffer t) (byte_offset_ t + first * s * size) (dtype_ t)
    (mkSas true (<[k := n]> (sas_shape (shape_and_strides_ t)))
       (<[k := s * step]> (sas_strides (shape_and_strides_ t)))).

Section Slice.
Context (t : Tensor) (b : Buffer) (size : Z) (k : nat) (d s first last step : Z).
Let n := (last - first + step - 1) / step.
Context (Hok : tensor_ok t b size).
Context (Hany : HasAnyElement (sas_shape (shape_and_strides_ t)) = true).
Context (Hd : sas_shape (shape_and_strides_ t) !! k = Some d).
Context (Hs : sas_strides (shape_and_strides_ t) !! k = Some s).
Context (Hstep : 0 < step) (Hrange : 0 <= first < last) (Hlast : last <= d).
Context (Hss : in_i 64 (s * step)).

Lemma slice_bounds : 0 <= s /\ 1 <= n <= d /\ 0 <= first * s /\
  first * s + max_off (<[k := n]> (sas_shape (shape_and_strides_ t)))
                      (<[k := s * step]> (sas_strides (shape_and_strides_ t)))
    <= max_off (sas_shape (shape_and_strides_ t)) (sas_strides (shape_and_strides_ t)).
Proof.
  pose proof (Forall_lookup_1 _ _ _ _ (to_strides _ _ _ Hok) Hs) as Hs0. simpl in Hs0.
  destruct (extent_count (last - first) step ltac:(lia) Hstep) as (Hn & Hn1 & _). fold n in Hn, Hn1.
  rewrite (max_off_insert _ _ _ d s) by done. split; [done|]. split; [lia|]. split; [nia|].
  assert (first + (n - 1) * step <= d - 1) by lia. nia.
Qed.

Lemma sliced_shape_pos : Forall (fun x => 1 <= x) (<[k := n]> (sas_shape (shape_and_strides_ t))).
Proof. apply Forall_insert; [|apply slice_bounds]. apply any_element; [apply Hok|done]. Qed.

Lemma sliced_ok : tensor_ok (sliced t k size s first n step) b size.
Proof.
  destruct slice_bounds as (Hs0 & Hn & Hf & Hmax). destruct (to_span _ _ _ Hok Hany) as [Hm Hsp].
  pose proof sliced_shape_pos as Hpos. pose proof (to_size_pos _ _ _ Hok) as Hsz.
  assert (nonneg (<[k := s * step]> (sas_strides (shape_and_strides_ t)))) as Hnn
    by (apply nonneg_insert; [nia|apply Hok]).
  pose proof (max_off_nonneg _ _ Hpos Hnn) as Hm0.
  pose proof (to_offset _ _ _ Hok). pose proof (tr_offset _ (to_range _ _ _ Hok)) as [Ho0 _].
  pose proof (tr_buffer _ (to_range _ _ _ Hok) b (to_buffer _ _ _ Hok)) as [_ Hb].
  assert (byte_offset_ t + first * s * size <= buf_nbytes b) by nia.
  split; cbn [sliced t_buffer byte_offset_ dtype_ shape_and_strides_ sas_initialized sas_shape sas_strides t_rank];
    try apply Hok; try done.
  - destruct Hok as [[R1 R2 R3 R4 R5] _ _ _ _ _ _ _ _ _ _ _ _]. split; cbn; try done.
    + unfold in_u. nia.
    + apply Forall_insert; [done|]. pose proof (Forall_lookup_1 _ _ _ _ R3 Hd) as Hdd. simpl in Hdd.
      unfold in_i in *. lia.
    + by apply Forall_insert.
    + by rewrite !length_insert.
  - unfold t_rank. cbn. unfold zlen. rewrite length_insert. apply Hok.
  - apply nonneg_insert; [lia|apply Hok].
  - apply (numel_ok_mono _ (sas_shape (shape_and_strides_ t))); [|apply Hok].
    apply Forall2_same_length_lookup_2; [by rewrite length_insert|].
    intros j x y Hx Hy. pose proof (Forall_lookup_1 _ _ _ _ (to_shape _ _ _ Hok) Hy) as Hy0. simpl in Hy0.
    apply list_lookup_insert_Some in Hx as [(-> & -> & _)|[_ Hx]]; simplify_eq; lia.
  - intros _. split; nia.
Qed.

(** Reading the slice at [idx] reads the tensor at the stepped index. *)
Lemma sliced_elements idx i :
  in_shape idx (<[k := n]> (sas_shape (shape_and_strides_ t))) -> idx !! k = Some i ->
  in_shape (<[k := first + i * step]> idx) (sas_shape (shape_and_strides_ t)) /\
  elem_addr (sliced t k size s first n step) b size idx =
    elem_addr t b size (<[k := first + i * step]> idx).
Proof.
  intros Hin Hi. destruct (extent_count (last - first) step ltac:(lia) Hstep) as (_ & _ & Hj). fold n in Hj. split.
  - apply Forall2_same_length_lookup_2.
    { rewrite length_insert. apply Forall2_length in Hin. by rewrite length_insert in Hin. }
    intros j x y Hx Hy. destruct (decide (j = k)) as [->|Hne].
    + rewrite list_lookup_insert_eq in Hx by (by eapply lookup_lt_Some). simplify_eq.
      assert (0 <= i < n) as Hin'.
      { apply (Forall2_lookup_lr _ _ _ k i n Hin Hi). by rewrite list_lookup_insert_eq by (by eapply lookup_lt_Some). }
      pose proof (proj1 (Hj i ltac:(lia)) ltac:(lia)). nia.
    + rewrite list_lookup_insert_ne in Hx by done.
      apply (Forall2_lookup_lr _ _ _ j x y Hin Hx). by rewrite list_lookup_insert_ne by done.
  - unfold elem_addr, sliced. cbn [byte_offset_ shape_and_strides_ sas_strides].
    rewrite (dot_insert_stride _ _ k i s), (dot_insert_index _ _ k i s) by done. ring.
Qed.

Lemma slice_offset_run : slice_offset t first s = Ret (byte_offset_ t + first * s * size).
Proof.
  destruct slice_bounds as (Hs0 & Hn & Hfs & Hmax). destruct (to_span _ _ _ Hok Hany) as [Hm Hsp].
  pose proof (to_size_pos _ _ _ Hok) as Hsz. pose proof (tr_offset _ (to_range _ _ _ Hok)) as [Ho0 Ho1].
  pose proof (tr_buffer _ (to_range _ _ _ Hok) b (to_buffer _ _ _ Hok)) as [_ Hb].
  pose proof (max_off_nonneg _ _ sliced_shape_pos
    (nonneg_insert k (s * step) _ ltac:(nia) (to_strides _ _ _ Hok))) as Hm0.
  unfold slice_offset, INT64_MAX in *. destruct (Z.ltb_spec 0 first); [|replace first with 0 by lia; f_equal; lia].
  assert (in_i 64 (first * s)) as Hi by (unfold in_i; lia).
  rewrite (proj2 (mul_i64_or_ret first s _ _) (conj eq_refl Hi)). cbn [mbind res_mbind res_bind].
  rewrite (proj2 (Z.leb_le 0 (first * s)) Hfs). cbn [am_check mbind res_mbind res_bind].
  rewrite (to_size _ _ _ Hok). cbn [mbind res_mbind res_bind]. rewrite wrap_small by (unfold in_u; lia).
  assert (in_u 64 (first * s * size)) as Hu by (unfold in_u; nia).
  rewrite (proj2 (mul_u64_or_ret _ size _ _) (conj eq_refl Hu)). cbn [mbind res_mbind res_bind].
  apply add_u64_or_ret. split; [done|]. unfold in_u. nia.
Qed.
End Slice.

Lemma slice_run t b size k d s dim start finish step :
  tensor_ok t b size -> HasAnyElement (sas_shape (shape_and_strides_ t)) = true ->
  (if dim <? 0 then dim + t_rank t else dim) = Z.of_nat k ->
  sas_shape (shape_and_strides_ t) !! k = Some d -> sas_strides (shape_and_strides_ t) !! k = Some s ->
  0 < step ->
  let first := normalize_bound d start in
  let last := normalize_bound d finish in
  first < last -> in_i 64 (s * step) -> in_i 64 (last - first + (step - 1)) ->
  slice t dim start finish step =
    Ret (sliced t k size s first ((last - first + step - 1) / step) step).
Proof.
  intros Hok Hany Hdim Hd Hs Hstep first last Hlt Hss Hext.
  pose proof (Forall_lookup_1 _ _ _ _ (to_shape _ _ _ Hok) Hd) as Hd0. simpl in Hd0.
  pose proof (normalize_bound_range d start Hd0) as Hf. pose proof (normalize_bound_range d finish Hd0) as Hl.
  fold first in Hf. fold last in Hl.
  destruct (slice_bounds t b size k d s first last step) as (Hs0 & Hn & Hfs & Hmax); try done; try lia.
  pose proof (sliced_ok t b size k d s first last step Hok Hany Hd Hs Hstep ltac:(lia) ltac:(lia) Hss) as Hok'.
  pose proof (lookup_lt_Some _ _ _ Hd) as Hk.
  unfold slice, t_is_initialized, buffer_initialized. rewrite (to_buffer _ _ _ Hok).
  rewrite (proj2 (Z.eqb_neq _ _) (to_data _ _ _ Hok)), (proj2 (Z.ltb_lt 0 step) Hstep).
  cbn [negb am_check mbind res_mbind res_bind]. unfold t_rank in *.
  rewrite (proj2 (Z.leb_le 1 _)) by (unfold zlen; lia). cbn [am_check mbind res_mbind res_bind].
  rewrite Hdim, (proj2 (Z.leb_le 0 _)), (proj2 (Z.ltb_lt _ _)) by (unfold zlen; lia).
  cbn [andb am_check mbind res_mbind res_bind]. rewrite Nat2Z.id. unfold vec_at. rewrite Hd, Hs.
  cbn [mbind res_mbind res_bind]. rewrite (proj2 (Z.leb_le 0 d) Hd0). cbn [am_check mbind res_mbind res_bind].
  fold first last. rewrite Z.max_r by lia. unfold slice_extent. rewrite (proj2 (Z.ltb_lt 0 _)) by lia.
  rewrite (proj2 (add_i64_or_ret _ _ _ _) (conj eq_refl Hext)). cbn [mbind res_mbind res_bind].
  rewrite (proj2 (mul_i64_or_ret s step _ _) (conj eq_refl Hss)). cbn [mbind res_mbind res_bind].
  rewrite (proj2 (Z.leb_le 0 (s * step))) by nia. cbn [am_check mbind res_mbind res_bind].
  replace (last - first + (step - 1)) with (last - first + step - 1) by lia.
  rewrite (slice_offset_run t b size k d s first last step Hok Hany Hd Hs Hstep ltac:(lia) ltac:(lia)).
  cbn [mbind res_mbind res_bind]. unfold sas_set. rewrite !length_insert, (tr_len _ (to_range _ _ _ Hok)), Nat.eqb_refl.
  cbn [am_check mbind res_mbind res_bind]. unfold zlen. rewrite length_insert.
  rewrite (proj2 (Z.leb_le _ kMaxRank)) by apply Hok. cbn [am_check mbind res_mbind res_bind].
  rewrite check_dims_nonneg by (apply nonneg_insert; [lia|apply Hok]). cbn [mbind res_mbind res_bind].
  unfold make_tensor. rewrite <- (to_buffer _ _ _ Hok). fold (sliced t k size s first ((last - first + step - 1) / step) step).
  by rewrite (proj2 (validate_spec _ (to_range _ _ _ Hok')) (ex_intro _ b (ex_intro _ size Hok'))).
Qed.

(** ** Lemmas: views *)

Lemma pow2_single_bit i : 0 <= i -> has_single_bit (2 ^ i) = true.
Proof.
  intros Hi. unfold has_single_bit. pose proof (Z.pow_pos_nonneg 2 i ltac:(lia) Hi).
  apply andb_true_iff. split; [by apply Z.ltb_lt|]. apply Z.eqb_eq.
  rewrite Z.sub_1_r, <- Z.ones_equiv, Z.land_ones by lia. by apply Z.mod_same; lia.
Qed.

Lemma pow2_divisor j g : 0 <= j -> 0 <= g -> (g | 2 ^ j) -> exists i, 0 <= i /\ g = 2 ^ i.
Proof.
  intros Hj. revert g. pattern j. apply natlike_ind; [| |done].
  - intros g Hg Hd. exists 0. split; [lia|]. apply Z.divide_1_r_nonneg; done.
  - intros x Hx IH g Hg [q Hq]. rewrite Z.pow_succ_r in Hq by done.
    destruct (Z.Even_or_Odd g) as [[h ->]|[o ->]].
    + destruct (IH h ltac:(lia)) as (i & Hi & ->); [exists q; lia|].
      exists (Z.succ i). rewrite Z.pow_succ_r by done. split; [lia|done].
    + apply IH; [done|]. destruct (Z.Even_or_Odd q) as [[h ->]|[h ->]]; [exists h; lia|].
      exfalso. assert (2 * 2 ^ x = 2 * (2 * h * o + h + o) + 1) as Hodd by lia. lia.
Qed.

Lemma forallb_axes shape strides : length shape = length strides ->
  forallb (fun a : Z * Z => (0 <=? a.1) && (0 <=? a.2)) (zip shape strides) = true <-> nonneg shape /\ nonneg strides.
Proof.
  revert strides. induction shape as [|d shape IH]; intros [|s strides] Hl; try discriminate; simpl.
  { split; [by repeat constructor|done]. }
  injection Hl as Hl. unfold nonneg in *. rewrite !andb_true_iff, !Forall_cons, IH, !Z.leb_le by done. tauto.
Qed.

(** ** Lemmas: row-major layout *)

Fixpoint row_major (idx shape : list Z) : Z :=
  match idx, shape with
  | i :: idx', _ :: shape' => i * product shape' + row_major idx' shape'
  | _, _ => 0
  end.

Lemma row_major_range idx shape : in_shape idx shape -> 0 <= row_major idx shape < product shape.
Proof. induction 1 as [|i d idx shape Hi _ IH]; simpl; nia. Qed.

Lemma row_major_inj idx idx' shape : in_shape idx shape -> in_shape idx' shape ->
  row_major idx shape = row_major idx' shape -> idx = idx'.
Proof.
  intros H. revert idx'. induction H as [|i d idx shape Hi Hin IH]; intros idx' H' E; inversion H' as [|i' ? idx2 ? Hi' Hin']; subst; [done|].
  simpl in E. pose proof (row_major_range _ _ Hin). pose proof (row_major_range _ _ Hin').
  assert (i = i') as -> by nia. f_equal. apply IH; [done|]. nia.
Qed.

Lemma row_major_surj shape : nonneg shape -> forall off, 0 <= off < product shape ->
  exists idx, in_shape idx shape /\ row_major idx shape = off.
Proof.
  induction 1 as [|d shape Hd Hn IH]; intros off Ho; simpl in *.
  { exists []. split; [constructor|simpl; lia]. }
  pose proof (product_nonneg shape Hn) as Hp.
  assert (0 < product shape) as Hp' by nia.
  destruct (IH (off mod product shape)) as (idx & Hin & E); [by apply Z.mod_pos_bound|].
  exists (off / product shape :: idx). split.
  - constructor; [|done]. split; [apply Z.div_pos; lia|]. apply Z.div_lt_upper_bound; lia.
  - simpl. rewrite E. pose proof (Z.div_mod off (product shape) ltac:(lia)). lia.
Qed.

Lemma row_major_snoc idx : forall shape i d, length idx = length shape ->
  row_major (idx ++ [i]) (shape ++ [d]) = row_major idx shape * d + i.
Proof.
  induction idx as [|j idx IH]; intros [|e shape] i d Hl; try discriminate; simpl; [lia|].
  rewrite IH, product_app by (by injection Hl). simpl. ring.
Qed.

Lemma dot_snoc idx : forall strides i s, length idx = length strides ->
  dot (idx ++ [i]) (strides ++ [s]) = dot idx strides + i * s.
Proof.
  induction idx as [|j idx IH]; intros [|e strides] i s Hl; try discriminate; simpl; [lia|].
  rewrite IH by (by injection Hl). lia.
Qed.

(** What the contiguity check establishes, innermost axis first. *)
Lemma contiguous_loop_layout shape : forall strides e idx, length shape = length strides ->
  contiguous_loop e (reverse (zip shape strides)) = Ret true -> in_shape idx shape ->
  dot idx strides = e * row_major idx shape.
Proof.
  induction shape as [|d shape IH] using rev_ind; intros strides e idx Hl H Hin.
  { inversion Hin; subst. simpl. lia. }
  destruct strides as [|s strides _] using rev_ind; [by rewrite length_app in Hl; simpl in Hl; lia|].
  rewrite !length_app in Hl. simpl in Hl. assert (length shape = length strides) as Hl' by lia.
  apply Forall2_app_inv_r in Hin as (idx' & last & Hin & Hlast & ->).
  inversion Hlast as [|i ? ? ? Hi Hnil]; subst. inversion Hnil; subst.
  pose proof (Forall2_length _ _ _ Hin) as Hli. fold (in_shape idx' shape) in Hin.
  rewrite zip_with_app, reverse_app in H by done. simpl in H. rewrite dot_snoc, row_major_snoc by lia.
  destruct (Z.eqb_spec d 1) as [->|Hd].
  - rewrite (IH strides e idx' Hl' H Hin). replace i with 0 by lia. ring.
  - destruct (Z.eqb_spec s e) as [->|]; [|discriminate]. simpl in H. res_inv.
    apply mul_i64_or_ret in Hm as [-> _]. rewrite (IH strides (e * d) idx' Hl' H Hin). ring.
Qed.

Lemma contiguous_strides_length shape strides : contiguous_strides shape = Ret strides ->
  length strides = length shape.
Proof.
  revert strides. induction shape as [|d shape IH]; intros strides H; simpl in H; [by injection H as <-|].
  res_inv. specialize (IH a Hm). destruct shape as [|d' shape], a as [|s a]; try discriminate.
  - by injection H as <-.
  - res_inv. simpl in *. lia.
Qed.

Lemma contiguous_strides_head shape : forall d s strides,
  contiguous_strides (d :: shape) = Ret (s :: strides) -> s = product shape.
Proof.
  induction shape as [|d' shape IH]; intros d s strides H.
  { simpl in H. by simplify_eq. }
  change (contiguous_strides (d :: d' :: shape)) with
    (strides ← contiguous_strides (d' :: shape);
     match strides with s :: _ => t ← mul_i64_or s d' "Stride calculation overflow"; Ret (t :: strides)
     | _ => Ret [1] end) in H.
  res_inv. pose proof (contiguous_strides_length _ _ Hm). destruct a as [|s' a]; [discriminate|].
  res_inv. apply mul_i64_or_ret in Hm0 as [-> _]. rewrite (IH _ _ _ Hm). simpl. ring.
Qed.

(** The strides that are computed pass the check. *)
Lemma contiguous_strides_pass shape : nonneg shape -> forall strides rest,
  contiguous_strides shape = Ret strides -> product shape <= INT64_MAX ->
  contiguous_loop 1 (reverse (zip shape strides) ++ rest) = contiguous_loop (product shape) rest.
Proof.
  induction 1 as [|d shape Hd Hn IH]; intros strides rest H Hp; [simpl in H; by injection H as <-|].
  pose proof (contiguous_strides_length _ _ H) as Hlen. destruct strides as [|s strides]; [discriminate|].
  pose proof (contiguous_strides_head _ _ _ _ H) as ->. pose proof (product_nonneg shape Hn) as Hp0.
  assert (contiguous_strides shape = Ret strides /\ product shape <= INT64_MAX) as [Hs Hps].
  { simpl in H. res_inv. unfold INT64_MAX. destruct shape as [|d' shape].
    - injection Hm as <-. simplify_eq. simpl. split; [done|lia].
    - destruct a as [|s' a]; [by apply contiguous_strides_length in Hm|]. res_inv.
      apply mul_i64_or_ret in Hm0 as [E Hin]. split; [done|]. rewrite <- E in Hin. unfold in_i in Hin. simpl in *. lia. }
  cbn [zip_with]. rewrite reverse_cons, <- app_assoc, (IH strides) by done. simpl.
  destruct (Z.eqb_spec d 1) as [->|_]; [by rewrite Z.mul_1_l|]. rewrite Z.eqb_refl. simpl in *.
  unfold INT64_MAX in *.
  rewrite (proj2 (mul_i64_or_ret (product shape) d _ (product shape * d))) by (split; [done|unfold in_i; nia]).
  cbn [mbind res_mbind res_bind]. by rewrite Z.mul_comm.
Qed.

(** ** Properties *)

(** C35: Slicing that selects something is exact and memory-safe. Take a valid tensor with
    at least one element, an axis of it (negative ones count from the end), a positive step,
    and bounds that, wrapped from the end and clamped as in [normalize_bound], select at
    least one position, with the new stride and the rounded-up width representable as
    [int64_t]. Then [slice] succeeds; the result is again valid, shares the buffer, and its
    axis has one position per selected index [first + j * step < last]; reading it at any
    index reads, at the same address, the source element with the axis index mapped to
    [first + i * step]. An empty selection is not covered: it may terminate the process
    ([empty_slice_aborts]). *)
Theorem slice_exact t b size k d s dim start finish step :
  tensor_ok t b size -> HasAnyElement (sas_shape (shape_and_strides_ t)) = true ->
  (if dim <? 0 then dim + t_rank t else dim) = Z.of_nat k ->
  sas_shape (shape_and_strides_ t) !! k = Some d -> sas_strides (shape_and_strides_ t) !! k = Some s ->
  0 < step ->
  let first := normalize_bound d start in
  let last := normalize_bound d finish in
  first < last -> in_i 64 (s * step) -> in_i 64 (last - first + (step - 1)) ->
  exists t' n, slice t dim start finish step = Ret t' /\ tensor_ok t' b size /\
    sas_shape (shape_and_strides_ t') = <[k := n]> (sas_shape (shape_and_strides_ t)) /\
    (forall j, 0 <= j -> j < n <-> first + j * step < last) /\
    forall idx i, in_shape idx (sas_shape (shape_and_strides_ t')) -> idx !! k = Some i ->
      in_shape (<[k := first + i * step]> idx) (sas_shape (shape_and_strides_ t)) /\
      elem_addr t' b size idx = elem_addr t b size (<[k := first + i * step]> idx).
Proof.
  intros Hok Hany Hdim Hd Hs Hstep first last Hlt Hss Hext.
  pose proof (Forall_lookup_1 _ _ _ _ (to_shape _ _ _ Hok) Hd) as Hd0. simpl in Hd0.
  pose proof (normalize_bound_range d start Hd0) as Hf. pose proof (normalize_bound_range d finish Hd0) as Hl.
  fold first in Hf. fold last in Hl.
  exists (sliced t k size s first ((last - first + step - 1) / step) step), ((last - first + step - 1) / step).
  split; [exact (slice_run t b size k d s dim start finish step Hok Hany Hdim Hd Hs Hstep Hlt Hss Hext)|].
  split; [by apply (sliced_ok t b size k d s first last step); try done; lia|]. split; [done|]. split.
  - intros j Hj. destruct (extent_count (last - first) step ltac:(lia) Hstep) as (_ & _ & H).
    etrans; [exact (H j Hj)|lia].
  - intros idx i Hin Hi. apply (sliced_elements t b size k d s first last step); try done; lia.
Qed.

(** Every element of a validated tensor lies inside its buffer: a tensor
    that passes [validate] has non-negative strides and a span that fits, so any
    in-range index addresses whole elements of the buffer, past its offset. *)
Theorem tensor_elements_in_bounds t idx :
  tensor_range t -> t_validate t = Ret tt -> in_shape idx (sas_shape (shape_and_strides_ t)) ->
  exists b size, t_buffer t = Some b /\ DataType.nbytes (dtype_ t) = Ret size /\ 0 < size /\
    buf_data b + byte_offset_ t <= elem_addr t b size idx /\
    elem_addr t b size idx + size <= buf_data b + buf_nbytes b.
Proof.
  intros Hr Hv Hin. apply validate_spec in Hv as (b & size & Hok); [|done].
  exists b, size. split; [apply Hok|]. split; [apply Hok|]. split; [apply Hok|].
  assert (HasAnyElement (sas_shape (shape_and_strides_ t)) = true) as Hany.
  { apply any_element; [apply Hok|]. clear -Hin. induction Hin; constructor; [lia|done]. }
  destruct (to_span _ _ _ Hok Hany) as [_ Hsp]. pose proof (to_size_pos _ _ _ Hok).
  pose proof (dot_bounds _ _ idx (to_strides _ _ _ Hok) (tr_len _ Hr) Hin). unfold elem_addr. nia.
Qed.

(** Contiguity is exactly the dense row-major layout. Metadata built by
    [set_contiguous] for a countable shape reports itself contiguous; and
    whenever [is_contiguous] answers yes, offsets and elements correspond one
    to one: every in-range index has its row-major position as offset, below the
    element count, and every offset below the count belongs to exactly one
    index. *)
Theorem contiguous_dense :
  (forall shape s, Forall (in_i 64) shape -> sas_set_contiguous shape = Ret s -> numel_ok shape ->
    sas_shape s = shape /\ length (sas_strides s) = length shape /\ sas_is_contiguous s = Ret true) /\
  (forall s, nonneg (sas_shape s) -> length (sas_shape s) = length (sas_strides s) ->
    sas_is_contiguous s = Ret true ->
    (forall idx, in_shape idx (sas_shape s) ->
      dot idx (sas_strides s) = row_major idx (sas_shape s) /\
      0 <= dot idx (sas_strides s) < product (sas_shape s)) /\
    (forall off, 0 <= off < product (sas_shape s) ->
      exists idx, in_shape idx (sas_shape s) /\ dot idx (sas_strides s) = off /\
        forall idx', in_shape idx' (sas_shape s) -> dot idx' (sas_strides s) = off -> idx' = idx)).
Proof.
  split.
  - intros shape s Hi H Hnum. unfold sas_set_contiguous, check_dims in H. res_inv. apply res_iter_ret in Hm0.
    assert (nonneg shape) as Hn.
    { eapply Forall_impl; [exact Hm0|]. simpl. intros d Hd. apply am_check_ret_any in Hd. by bsplit. }
    simpl. split; [done|]. split; [by apply contiguous_strides_length|].
    unfold sas_is_contiguous. cbn [sas_shape sas_strides sas_initialized]. destruct shape as [|d shape]; [done|].
    rewrite <- (app_nil_r (reverse _)), (contiguous_strides_pass (d :: shape) Hn a1 [] Hm1) by apply Hnum. done.
  - intros s Hn Hl H.
    assert (forall idx, in_shape idx (sas_shape s) -> dot idx (sas_strides s) = row_major idx (sas_shape s)) as Hrm.
    { intros idx Hin. unfold sas_is_contiguous in H. destruct (sas_shape s) as [|d shape] eqn:E.
      - inversion Hin; subst. done.
      - rewrite (contiguous_loop_layout (d :: shape) _ 1 idx Hl H Hin). lia. }
    split.
    + intros idx Hin. rewrite (Hrm idx Hin). split; [done|]. by apply row_major_range.
    + intros off Ho. destruct (row_major_surj _ Hn off Ho) as (idx & Hin & E). exists idx.
      split; [done|]. split; [by rewrite Hrm|]. intros idx' Hin' E'. rewrite Hrm in E' by done.
      apply (row_major_inj _ _ (sas_shape s)); [done|done|]. congruence.
Qed.

(** A view of a valid tensor is always constructible when the buffer honours
    its own alignment: the alignment reported for an offset divides the address. *)
Theorem view_total t b size :
  tensor_ok t b size -> 0 < buf_data b ->
  (buf_alignment b = 0 \/ (exists j, 0 <= j /\ buf_alignment b = 2 ^ j) /\ buf_data b mod buf_alignment b = 0) ->
  exists v, t_view t = Ret v /\ v_is_valid v = Ret true.
Proof.
  intros Hok Hpos Hal. set (a := if buf_alignment b =? 0 then 0 else if byte_offset_ t =? 0 then buf_alignment b
    else Z.gcd (buf_alignment b) (byte_offset_ t)).
  pose proof (tr_offset _ (to_range _ _ _ Hok)) as [Ho0 _].
  assert (HasValidAlignment (t_data t) a = true) as HA.
  { unfold HasValidAlignment, t_data, a. rewrite (to_buffer _ _ _ Hok), (proj2 (Z.eqb_neq _ _) (to_data _ _ _ Hok)).
    destruct (Z.eqb_spec (buf_alignment b) 0) as [E0|E0]; [done|].
    destruct Hal as [?|[(j & Hj & Ej) Hmod]]; [done|].
    assert (exists i, 0 <= i /\ (if byte_offset_ t =? 0 then buf_alignment b else Z.gcd (buf_alignment b) (byte_offset_ t)) = 2 ^ i) as (i & Hi & Ei).
    { destruct (Z.eqb_spec (byte_offset_ t) 0); [eauto|]. rewrite Ej.
      apply (pow2_divisor j); [done|apply Z.gcd_nonneg|apply Z.gcd_divide_l]. }
    rewrite Ei. pose proof (Z.pow_pos_nonneg 2 i ltac:(lia) Hi) as Hp.
    rewrite (proj2 (Z.eqb_neq _ 0)) by lia. rewrite pow2_single_bit by done. simpl.
    rewrite (proj2 (Z.eqb_neq _ 0)) by lia.
    rewrite Z.sub_1_r, <- Z.ones_equiv, Z.land_ones by lia. apply Z.eqb_eq. rewrite <- Ei.
    apply Z.mod_divide; [rewrite Ei; lia|]. apply Z.mod_divide in Hmod; [|done].
    destruct (Z.eqb_spec (byte_offset_ t) 0) as [->|].
    - by rewrite Z.add_0_r.
    - apply Z.divide_add_r; [|apply Z.gcd_divide_r]. etrans; [apply Z.gcd_divide_l|done]. }
  assert (v_is_valid (mkTensorView (t_data t) (dtype_ t) (sas_shape (shape_and_strides_ t))
    (sas_strides (shape_and_strides_ t)) a) = Ret true) as HV.
  { unfold v_is_valid, HasValidMetadata. cbn [v_dtype v_shape v_strides v_data v_alignment].
    rewrite (to_fixed _ _ _ Hok), (to_size _ _ _ Hok). cbn [mbind res_mbind res_bind].
    rewrite (proj2 (Z.ltb_lt _ _) (to_size_pos _ _ _ Hok)), (tr_len _ (to_range _ _ _ Hok)), Nat.eqb_refl, HA.
    rewrite (proj2 (Z.leb_le _ kMaxRank)) by apply Hok.
    rewrite (proj2 (forallb_axes _ _ (tr_len _ (to_range _ _ _ Hok))) (conj (to_shape _ _ _ Hok) (to_strides _ _ _ Hok))).
    unfold t_data. rewrite (to_buffer _ _ _ Hok), (proj2 (Z.eqb_neq _ _) (to_data _ _ _ Hok)).
    rewrite (proj2 (Z.eqb_neq _ 0)) by lia. by rewrite andb_false_r. }
  eexists. split; [|exact HV]. unfold t_view, t_alignment. rewrite (to_buffer _ _ _ Hok).
  cbn [mbind res_mbind res_bind]. unfold make_view. fold a. rewrite HV. done.
Qed.

(** ** Computed instances *)

Module Examples.

(** Two rows of three floats, eight apart, in a buffer that ends with the last
    element. *)
Definition f32 : DataType.t := DataType.Float 32.
Definition storage : Buffer := mkBuffer 4096 44 64.
Definition padded : Tensor := mkTensor (Some storage) 0 f32 (mkSas true [2; 3] [8; 1]).

Lemma padded_range : tensor_range padded.
Proof. split; simpl; try (by repeat constructor). intros b [= <-]. by vm_compute. Qed.

Lemma padded_ok : tensor_ok padded storage 4.
Proof.
  assert (t_validate padded = Ret tt) as H by (vm_compute; reflexivity).
  apply (validate_spec _ padded_range) in H as (b & size & H).
  pose proof (to_buffer _ _ _ H) as [= <-]. pose proof (to_size _ _ _ H) as Hs. vm_compute in Hs. by injection Hs as <-.
Qed.

(** Every other column of the padded tensor. *)
Lemma slice_exact_witness :
  exists t' n, slice padded (-1) 0 100 2 = Ret t' /\ tensor_ok t' storage 4 /\
    sas_shape (shape_and_strides_ t') = <[1%nat := n]> [2; 3] /\
    (forall j, 0 <= j -> j < n <-> 0 + j * 2 < 3) /\
    forall idx i, in_shape idx (sas_shape (shape_and_strides_ t')) -> idx !! 1%nat = Some i ->
      in_shape (<[1%nat := 0 + i * 2]> idx) [2; 3] /\
      elem_addr t' storage 4 idx = elem_addr padded storage 4 (<[1%nat := 0 + i * 2]> idx).
Proof.
  apply (slice_exact padded storage 4 1 3 1 (-1) 0 100 2 padded_ok); try reflexivity; vm_compute; split; congruence.
Defined.

Lemma tensor_elements_in_bounds_witness :
  exists b size, t_buffer padded = Some b /\ DataType.nbytes f32 = Ret size /\ 0 < size /\
    buf_data b + 0 <= elem_addr padded b size [1; 2] /\
    elem_addr padded b size [1; 2] + size <= buf_data b + buf_nbytes b.
Proof.
  apply (tensor_elements_in_bounds padded [1; 2] padded_range).
  - vm_compute. reflexivity.
  - repeat constructor; lia.
Defined.

Lemma contiguous_dense_witness :
  sas_set_contiguous [2; 3] = Ret (mkSas true [2; 3] [3; 1]) /\
  exists idx, in_shape idx [2; 3] /\ dot idx [3; 1] = 4 /\
    forall idx', in_shape idx' [2; 3] -> dot idx' [3; 1] = 4 -> idx' = idx.
Proof.
  split; [reflexivity|]. apply (proj2 contiguous_dense (mkSas true [2; 3] [3; 1])); simpl; [|done|done|lia].
  repeat constructor; lia.
Defined.

Lemma padded_view : exists v, t_view padded = Ret v /\ v_is_valid v = Ret true.
Proof.
  apply (view_total padded storage 4 padded_ok); [simpl; lia|]. right. split; [|done]. exists 6. split; [lia|done].
Qed.

(** An empty slice at the end of an axis is in range for the bounds, but its
    offset lies past the buffer, so the checked constructor stops the process:
    [slice] is [noexcept]. *)
Lemma empty_slice_aborts :
  t_validate padded = Ret tt /\ slice padded 0 2 2 1 = Panic "Tensor byte_offset out of buffer range.".
Proof. split; vm_compute; reflexivity. Qed.

End Examples.
