(* ===== verification/OperatorExec.v ===== *)
(** * OperatorExec: executable operators

    [src/operators/operator_registry.cpp], the [Prepare] and [Run] methods of the eight
    operators that register themselves, [function_operator.h], [operator.h] and
    [src/execution/runtime_binding_context.cpp]. Kernels are function pointers held by the
    kernel registry: what they and the builders of their parameters do is the class
    [Kernels], over a memory it names. *)
From S2P Require Import Prelude DataTypes ShapeSymbol ShapeConstraint OperatorSchema OperatorInference KernelRegistry Workspace KVCache Tensor.

(** ** Run-time bindings *)

(* @src include/aethermind/execution/runtime_binding_context.h:16-21 TempBufferKind *)
Inductive TempBufferKind := kHiddenState | kLogits | kScratch.
#[global] Instance TempBufferKind_eq_dec : EqDecision TempBufferKind.
Proof. solve_decision. Defined.
(* @src include/aethermind/execution/runtime_binding_context.h:95-97 RuntimeBindingContext::ToIndex *)
Definition ToIndex (k : TempBufferKind) : nat := match k with kHiddenState => 0 | kLogits => 1 | kScratch => 2 end.

(* @src include/aethermind/execution/runtime_binding_context.h:23-30 TempBufferBinding *)
Record TempBufferBinding := mkTemp { temp_data : Z; temp_size : Z }.
Definition no_temp : TempBufferBinding := mkTemp 0 0.
(* @src include/aethermind/execution/runtime_binding_context.h:27-29 TempBufferBinding::valid *)
Definition temp_valid (b : TempBufferBinding) : bool := negb (temp_data b =? 0) && negb (temp_size b =? 0).

(* @src include/aethermind/execution/runtime_binding_context.h:32-38 RuntimeSequenceState *)
Record RuntimeSequenceState := mkSequence {
  prepared : bool; prefill_done : bool; prompt_len : Z; generated_len : Z; sequence_pos : Z }.
Definition new_sequence : RuntimeSequenceState := mkSequence false false 0 0 0.

(* @src include/aethermind/execution/runtime_binding_context.h:44-47 StepTensorBinding *)
Record StepTensorBinding := mkStepTensors { sb_inputs : list TensorView; sb_outputs : list TensorView }.
Definition no_tensors : StepTensorBinding := mkStepTensors [] [].

(** The arena is given by its [Bind]. *)
(* @src include/aethermind/execution/runtime_binding_context.h:99-103 RuntimeBindingContext (state) *)
Record RuntimeBindingContext := mkBindings {
  workspace_arena_ : option (WorkspaceRequirement -> WorkspaceBinding); kv_cache_view_ : KVCacheView;
  temp_buffers_ : list TempBufferBinding; sequence_state_ : RuntimeSequenceState;
  step_tensor_bindings_ : list StepTensorBinding }.

(* @src include/aethermind/execution/runtime_binding_context.h:51-53 RuntimeBindingContext::RuntimeBindingContext *)
Definition new_bindings (arena : option (WorkspaceRequirement -> WorkspaceBinding)) : RuntimeBindingContext :=
  mkBindings arena (mkView false 0) (replicate 3 no_temp) new_sequence [].

(* @src src/execution/runtime_binding_context.cpp:7-9 RuntimeBindingContext::SetWorkspaceArena *)
Definition SetWorkspaceArena (b : RuntimeBindingContext) a :=
  mkBindings a (kv_cache_view_ b) (temp_buffers_ b) (sequence_state_ b) (step_tensor_bindings_ b).
(* @src src/execution/runtime_binding_context.cpp:39-41 RuntimeBindingContext::SetKVCacheView *)
Definition SetKVCacheView (b : RuntimeBindingContext) (v : KVCacheView) :=
  mkBindings (workspace_arena_ b) v (temp_buffers_ b) (sequence_state_ b) (step_tensor_bindings_ b).
(** The view points into the state of the manager [m]. *)
(* @src src/execution/runtime_binding_context.cpp:47-49 RuntimeBindingContext::HasKVCacheView *)
Definition HasKVCacheView (m : KVCacheManager) (b : RuntimeBindingContext) : bool := KVCache.valid m (kv_cache_view_ b).
(* @src src/execution/runtime_binding_context.cpp:51-53 RuntimeBindingContext::ClearKVCacheView *)
Definition ClearKVCacheView (b : RuntimeBindingContext) := SetKVCacheView b (mkView false 0).
Definition with_temps (b : RuntimeBindingContext) (l : list TempBufferBinding) :=
  mkBindings (workspace_arena_ b) (kv_cache_view_ b) l (sequence_state_ b) (step_tensor_bindings_ b).
(* @src src/execution/runtime_binding_context.cpp:55-59 RuntimeBindingContext::SetTempBufferBinding *)
Definition SetTempBufferBinding (b : RuntimeBindingContext) (k : TempBufferKind) (t : TempBufferBinding) :=
  with_temps b (<[ToIndex k := t]> (temp_buffers_ b)).
(* @src src/execution/runtime_binding_context.cpp:61-64 RuntimeBindingContext::GetTempBufferBinding *)
Definition GetTempBufferBinding (b : RuntimeBindingContext) (k : TempBufferKind) : Res TempBufferBinding :=
  vec_at (temp_buffers_ b) (ToIndex k).
(* @src src/execution/runtime_binding_context.cpp:66-68 RuntimeBindingContext::HasTempBufferBinding *)
Definition HasTempBufferBinding (b : RuntimeBindingContext) (k : TempBufferKind) : Res bool :=
  t ← GetTempBufferBinding b k; Ret (temp_valid t).
(* @src src/execution/runtime_binding_context.cpp:70-72 RuntimeBindingContext::ClearTempBufferBinding *)
Definition ClearTempBufferBinding (b : RuntimeBindingContext) (k : TempBufferKind) := SetTempBufferBinding b k no_temp.
(* @src src/execution/runtime_binding_context.cpp:74-76 RuntimeBindingContext::ClearAllTempBufferBindings *)
Definition ClearAllTempBufferBindings (b : RuntimeBindingContext) := with_temps b ((fun _ => no_temp) <$> temp_buffers_ b).
(* @src src/execution/runtime_binding_context.cpp:86-88 RuntimeBindingContext::ResetSequenceState *)
Definition ResetSequenceState (b : RuntimeBindingContext) :=
  mkBindings (workspace_arena_ b) (kv_cache_view_ b) (temp_buffers_ b) new_sequence (step_tensor_bindings_ b).

(** [vector::resize]. *)
Definition resized {A} (l : list A) (n : nat) (x : A) : list A := take n l ++ replicate (n - length l) x.
(* @src src/execution/runtime_binding_context.cpp:90-96 RuntimeBindingContext::SetStepTensorBinding *)
Definition SetStepTensorBinding (b : RuntimeBindingContext) (step : nat) (t : StepTensorBinding) :=
  let l := step_tensor_bindings_ b in
  let l := if (length l <=? step)%nat then resized l (S step) no_tensors else l in
  mkBindings (workspace_arena_ b) (kv_cache_view_ b) (temp_buffers_ b) (sequence_state_ b) (<[step := t]> l).

(* @src src/execution/runtime_binding_context.cpp:98-111 RuntimeBindingContext::GetStepTensorBinding *)
Definition GetStepTensorBinding (b : RuntimeBindingContext) (step : nat) : Res StepTensorBinding :=
  match step_tensor_bindings_ b !! step with
  | None => Fail (InvalidArgument ("RuntimeBindingContext has no tensor binding for step " +:+ pretty step))
  | Some t =>
      match sb_inputs t, sb_outputs t with
      | [], [] => Fail (InvalidArgument ("RuntimeBindingContext tensor binding for step " +:+ pretty step +:+ " is empty"))
      | _, _ => Ret t
      end
  end.

(** The arena's own [Reset] is virtual and keeps no state here. *)
(* @src src/execution/runtime_binding_context.cpp:113-120 RuntimeBindingContext::Reset *)
Definition ResetBindings (b : RuntimeBindingContext) := ResetSequenceState (ClearAllTempBufferBindings (ClearKVCacheView b)).

(** ** Kernels *)

(* @src include/aethermind/backend/kernel_context.h:14-22 KernelContext *)
Record KernelContext := mkContext {
  kc_device : DeviceType.t; kc_arena : bool; kc_binding : WorkspaceBinding; kc_packed : option Z;
  kc_params : option (list Z); kc_attrs : list Z }.
Definition with_binding (c : KernelContext) (b : WorkspaceBinding) : KernelContext :=
  mkContext (kc_device c) (kc_arena c) b (kc_packed c) (kc_params c) (kc_attrs c).
Definition with_params (c : KernelContext) (p : list Z) : KernelContext :=
  mkContext (kc_device c) (kc_arena c) (kc_binding c) (kc_packed c) (Some p) (kc_attrs c).

(** What kernels and builders of kernel parameters do. *)
Class Kernels (Mem : Type) := {
  invoke : KernelFunc -> KernelContext -> Exec Mem unit;
  build_params : KernelParamsBuilder -> list TensorView -> list TensorView -> Res (list Z) }.

(** ** Operators *)

(** The classes that register themselves. *)
Module OpClass.
Inductive t := EmbeddingOp | RmsNormOp | LinearOp | MatMulOp | AddOp | SiluMulOp | SiluOp | ElementwiseMulOp.
#[global] Instance eq_dec : EqDecision t.
Proof. solve_decision. Defined.

Definition Type_ (c : t) : OpType.t :=
  match c with
  | EmbeddingOp => OpType.kEmbedding | RmsNormOp => OpType.kRmsNorm | LinearOp => OpType.kLinear
  | MatMulOp => OpType.kMatMul | AddOp => OpType.kAdd | SiluMulOp => OpType.kSiluMul
  | SiluOp => OpType.kSilu | ElementwiseMulOp => OpType.kElementwiseMul
  end.

(** [OpClass::Params{}]; the default epsilon is [1.0e-5f]. *)
Definition default_params (c : t) : OpParams :=
  match c with
  | EmbeddingOp => EmbeddingParams | RmsNormOp => RmsNormParams 0x3727C5AC | LinearOp => LinearParams
  | MatMulOp => MatMulParams false | AddOp => AddParams | SiluMulOp => SiluMulParams
  | SiluOp => SiluParams | ElementwiseMulOp => ElementwiseMulParams
  end.

(** [std::get_if<Params>]. *)
Definition holds_params (c : t) (p : OpParams) : bool :=
  match c, p with
  | EmbeddingOp, EmbeddingParams | RmsNormOp, RmsNormParams _ | LinearOp, LinearParams
  | MatMulOp, MatMulParams _ | AddOp, AddParams | SiluMulOp, SiluMulParams
  | SiluOp, SiluParams | ElementwiseMulOp, ElementwiseMulParams => true
  | _, _ => false
  end.
End OpClass.

(** An operator with the kernel its [Prepare] cached. *)
Inductive Operator :=
| TypedOperator (c : OpClass.t) (params : OpParams) (resolved_kernel : ResolvedKernel)
| FunctionOperator (resolved_kernel : ResolvedKernel).

(* @src include/aethermind/operators/operator.h:96-96 Operator::GetResolvedKernel *)
Definition GetResolvedKernel (o : Operator) : ResolvedKernel :=
  match o with TypedOperator _ _ k | FunctionOperator k => k end.

(** Only the fields the constructor takes are kept. *)
(* @src include/aethermind/operators/function_operator.h:23-32 FunctionOperator::FunctionOperator *)
Definition make_function_operator (k : ResolvedKernel) : Operator :=
  FunctionOperator (mkResolved (rk_op k) (rk_fn k) (rk_attrs k) (rk_debug_name k) None 0).

(** ** The registry *)

(* @src include/aethermind/operators/operator_registry.h:29-32 OperatorRegistry::Descriptor *)
Record Descriptor := mkOpDescriptor {
  factory_ : option (OpParams -> Res Operator); make_default_params_ : option (Res OpParams) }.
Definition OperatorRegistry : Type := gmap OpType.t Descriptor.

(* @src src/operators/operator_registry.cpp:9-21 OperatorRegistry::Register *)
Definition RegisterOperator (r : OperatorRegistry) (o : OpType.t) (d : Descriptor) : Res OperatorRegistry :=
  _ ← reject_if (bool_decide (o = OpType.kUnknown) || negb (match factory_ d with Some _ => true | None => false end))
        (InvalidArgument "OperatorRegistry requires a known OpType and non-null factory");
  _ ← reject_if (match r !! o with Some _ => true | None => false end)
        (AlreadyExists ("Operator factory already registered for " +:+ OpType.ToString o));
  Ret (<[o := d]> r).

(* @src src/operators/operator_registry.cpp:23-34 OperatorRegistry::RegisterOrAbort *)
Definition RegisterOrAbort (r : OperatorRegistry) (o : OpType.t) (d : Descriptor) : Res OperatorRegistry :=
  match RegisterOperator r o d with Ret r => Ret r | Fail _ => Panic "abort" | Panic w => Panic w end.

(* @src include/aethermind/operators/operator_registry.h:54-62 OperatorRegistry::CreateTypedOperator *)
Definition CreateTypedOperator (c : OpClass.t) (params : OpParams) : Res Operator :=
  _ ← reject_if (negb (OpClass.holds_params c params)) (InvalidArgument "Wrong params type for operator");
  Ret (TypedOperator c params no_kernel).

(* @src include/aethermind/operators/operator_registry.h:89-100 AM_REGISTER_OPERATOR *)
Definition register_class (r : OperatorRegistry) (c : OpClass.t) : Res OperatorRegistry :=
  RegisterOrAbort r (OpClass.Type_ c)
    (mkOpDescriptor (Some (CreateTypedOperator c)) (Some (Ret (OpClass.default_params c)))).

(** What static initialization registers; the keys differ, so the order does not matter. *)
Definition registered_classes : list OpClass.t :=
  [OpClass.LinearOp; OpClass.RmsNormOp; OpClass.SiluOp; OpClass.MatMulOp; OpClass.AddOp;
   OpClass.ElementwiseMulOp; OpClass.EmbeddingOp; OpClass.SiluMulOp].
Definition static_registry : Res OperatorRegistry := res_foldl register_class ∅ registered_classes.

(* @src src/operators/operator_registry.cpp:36-54 OperatorRegistry::Create *)
Definition CreateOperator (r : OperatorRegistry) (o : OpType.t) (params : OpParams) : Res Operator :=
  _ ← reject_if (bool_decide (o = OpType.kUnknown)) (InvalidArgument "OperatorRegistry cannot create kUnknown operator");
  match r !! o with
  | None => Fail (NotFound ("No operator factory registered for " +:+ OpType.ToString o))
  | Some d => match factory_ d with Some f => f params | None => Panic "std::bad_function_call" end
  end.

(* @src src/operators/operator_registry.cpp:56-78 OperatorRegistry::CreateDefaultParams *)
Definition CreateDefaultParams (r : OperatorRegistry) (o : OpType.t) : Res OpParams :=
  _ ← reject_if (bool_decide (o = OpType.kUnknown))
        (InvalidArgument "OperatorRegistry cannot create default params for kUnknown operator");
  match r !! o with
  | None => Fail (NotFound ("No operator descriptor registered for " +:+ OpType.ToString o))
  | Some d =>
      match make_default_params_ d with
      | None => Fail (NotFound ("No default params factory registered for " +:+ OpType.ToString o))
      | Some f => f
      end
  end.

(** ** Preparing *)

(** The common part: the backend is a reference here, so the null check cannot fire. *)
Definition resolve_checked `{KernelBackend} (name : string) (o : OpType.t) (s : KernelSelector) : Res ResolvedKernel :=
  k ← ResolveKernelInfo o s;
  _ ← reject_if (bool_decide (rk_fn k = None)) (Internal (name +:+ " Prepare resolved a kernel with null fn"));
  Ret k.

(** Little-endian bytes of a binary32 pattern. *)
Definition float_bytes (x : Z) : list Z := [x mod 256; Z.shiftr x 8 mod 256; Z.shiftr x 16 mod 256; Z.shiftr x 24 mod 256].

(* @src src/operators/add_op.cpp:10-27 AddOp::Prepare *)
Definition AddOp_Prepare `{KernelBackend} (s : KernelSelector) : Res ResolvedKernel := resolve_checked "Add" OpType.kAdd s.
(* @src src/operators/elementwise_mul_op.cpp:12-31 ElementwiseMulOp::Prepare *)
Definition ElementwiseMulOp_Prepare `{KernelBackend} (s : KernelSelector) : Res ResolvedKernel := resolve_checked "ElementwiseMul" OpType.kElementwiseMul s.
(* @src src/operators/embedding_op.cpp:10-28 EmbeddingOp::Prepare *)
Definition EmbeddingOp_Prepare `{KernelBackend} (s : KernelSelector) : Res ResolvedKernel := resolve_checked "Embedding" OpType.kEmbedding s.
(* @src src/operators/linear_op.cpp:11-29 LinearOp::Prepare *)
Definition LinearOp_Prepare `{KernelBackend} (s : KernelSelector) : Res ResolvedKernel := resolve_checked "Linear" OpType.kLinear s.
(* @src src/operators/matmul_op.cpp:10-28 MatMulOp::Prepare *)
Definition MatMulOp_Prepare `{KernelBackend} (s : KernelSelector) : Res ResolvedKernel := resolve_checked "MatMul" OpType.kMatMul s.
(* @src src/operators/rmsnorm_op.cpp:9-29 RmsNormOp::Prepare *)
Definition RmsNormOp_Prepare `{KernelBackend} (eps : Z) (s : KernelSelector) : Res ResolvedKernel :=
  k ← resolve_checked "RmsNorm" OpType.kRmsNorm s;
  Ret (mkResolved (rk_op k) (rk_fn k) (float_bytes eps) (rk_debug_name k) (rk_builder k) (rk_params_size k)).
(* @src src/operators/silu_mul_op.cpp:12-30 SiluMulOp::Prepare *)
Definition SiluMulOp_Prepare `{KernelBackend} (s : KernelSelector) : Res ResolvedKernel := resolve_checked "SiluMul" OpType.kSiluMul s.
(* @src src/operators/silu_op.cpp:11-29 SiluOp::Prepare *)
Definition SiluOp_Prepare `{KernelBackend} (s : KernelSelector) : Res ResolvedKernel := resolve_checked "Silu" OpType.kSilu s.

(** The virtual call. *)
(* @src include/aethermind/operators/operator.h:75-75 Operator::Prepare *)
Definition Prepare `{KernelBackend} (o : Operator) (s : KernelSelector) : Res Operator :=
  match o with
  | TypedOperator c p _ =>
      k ← match c, p with
          | OpClass.AddOp, _ => AddOp_Prepare s
          | OpClass.ElementwiseMulOp, _ => ElementwiseMulOp_Prepare s
          | OpClass.EmbeddingOp, _ => EmbeddingOp_Prepare s
          | OpClass.LinearOp, _ => LinearOp_Prepare s
          | OpClass.MatMulOp, _ => MatMulOp_Prepare s
          | OpClass.RmsNormOp, RmsNormParams eps => RmsNormOp_Prepare eps s
          | OpClass.RmsNormOp, _ => Panic "no RmsNormParams"
          | OpClass.SiluMulOp, _ => SiluMulOp_Prepare s
          | OpClass.SiluOp, _ => SiluOp_Prepare s
          end;
      Ret (TypedOperator c p k)
  | FunctionOperator k => Ret (FunctionOperator k)
  end.

(** ** Running *)

Section Run.
Context {Mem : Type} {KS : Kernels Mem}.

(** A resolved kernel without a function is never called. *)
(* @src include/aethermind/operators/operator.h:115-127 Operator::InvokeResolvedKernel *)
Definition InvokeResolvedKernel (k : ResolvedKernel) (c : KernelContext) (ins outs : list TensorView) : Exec Mem unit :=
  c ← lift (match rk_builder k with
            | Some b => p ← build_params b ins outs; Ret (with_params c p)
            | None => Ret c
            end);
  match rk_fn k with Some fn => invoke fn c | None => lift (Panic "null kernel function") end.

(** The checks every [Run] starts with. *)
Definition checked_binding (name : string) (arity : nat) (k : ResolvedKernel) (b : RuntimeBindingContext) (step : nat)
    : Res StepTensorBinding :=
  _ ← reject_if (bool_decide (rk_fn k = None)) (FailedPrecondition (name +:+ " Run called before Prepare"));
  t ← GetStepTensorBinding b step;
  _ ← reject_if (negb (length (sb_inputs t) =? arity)%nat)
        (InvalidArgument (name +:+ " requires " +:+ pretty arity +:+ " input tensor binding" +:+
           (if (arity =? 1)%nat then "" else "s") +:+ ", got " +:+ pretty (length (sb_inputs t))));
  _ ← reject_if (negb (length (sb_outputs t) =? 1)%nat)
        (InvalidArgument (name +:+ " requires 1 output tensor binding, got " +:+ pretty (length (sb_outputs t))));
  Ret t.

(* @src src/operators/add_op.cpp:29-53 AddOp::Run *)
Definition AddOp_Run (k : ResolvedKernel) (c : KernelContext) (b : RuntimeBindingContext) (step : nat) : Exec Mem unit :=
  t ← lift (checked_binding "Add" 2 k b step);
  InvokeResolvedKernel k c (sb_inputs t) (sb_outputs t).
(* @src src/operators/elementwise_mul_op.cpp:33-59 ElementwiseMulOp::Run *)
Definition ElementwiseMulOp_Run (k : ResolvedKernel) (c : KernelContext) (b : RuntimeBindingContext) (step : nat) : Exec Mem unit :=
  t ← lift (checked_binding "ElementwiseMul" 2 k b step);
  InvokeResolvedKernel k c (sb_inputs t) (sb_outputs t).
(* @src src/operators/embedding_op.cpp:30-56 EmbeddingOp::Run *)
Definition EmbeddingOp_Run (k : ResolvedKernel) (c : KernelContext) (b : RuntimeBindingContext) (step : nat) : Exec Mem unit :=
  t ← lift (checked_binding "Embedding" 2 k b step);
  InvokeResolvedKernel k c (sb_inputs t) (sb_outputs t).
(* @src src/operators/linear_op.cpp:31-57 LinearOp::Run *)
Definition LinearOp_Run (k : ResolvedKernel) (c : KernelContext) (b : RuntimeBindingContext) (step : nat) : Exec Mem unit :=
  t ← lift (checked_binding "Linear" 2 k b step);
  InvokeResolvedKernel k c (sb_inputs t) (sb_outputs t).
(* @src src/operators/matmul_op.cpp:30-59 MatMulOp::Run *)
Definition MatMulOp_Run (k : ResolvedKernel) (c : KernelContext) (b : RuntimeBindingContext) (step : nat) : Exec Mem unit :=
  _ ← lift (checked_binding "MatMul" 2 k b step);
  lift (Fail (Unimplemented "MatMul kernel not yet implemented")).
(* @src src/operators/rmsnorm_op.cpp:31-57 RmsNormOp::Run *)
Definition RmsNormOp_Run (k : ResolvedKernel) (c : KernelContext) (b : RuntimeBindingContext) (step : nat) : Exec Mem unit :=
  t ← lift (checked_binding "RmsNorm" 2 k b step);
  InvokeResolvedKernel k c (sb_inputs t) (sb_outputs t).
(* @src src/operators/silu_mul_op.cpp:32-61 SiluMulOp::Run *)
Definition SiluMulOp_Run (k : ResolvedKernel) (c : KernelContext) (b : RuntimeBindingContext) (step : nat) : Exec Mem unit :=
  _ ← lift (checked_binding "SiluMul" 2 k b step);
  lift (Fail (Unimplemented "SiluMul kernel not yet implemented")).
(* @src src/operators/silu_op.cpp:31-60 SiluOp::Run *)
Definition SiluOp_Run (k : ResolvedKernel) (c : KernelContext) (b : RuntimeBindingContext) (step : nat) : Exec Mem unit :=
  _ ← lift (checked_binding "Silu" 1 k b step);
  lift (Fail (Unimplemented "Silu kernel not yet implemented")).

(* @src include/aethermind/operators/function_operator.h:46-55 FunctionOperator::Run *)
Definition FunctionOperator_Run (k : ResolvedKernel) (c : KernelContext) : Exec Mem unit :=
  match rk_fn k with
  | None => lift (Fail (FailedPrecondition "FunctionOperator kernel function cannot be null"))
  | Some fn => invoke fn c
  end.

(** The virtual call. *)
(* @src include/aethermind/operators/operator.h:88-90 Operator::Run *)
Definition RunOperator (o : Operator) (c : KernelContext) (b : RuntimeBindingContext) (step : nat) : Exec Mem unit :=
  match o with
  | FunctionOperator k => FunctionOperator_Run k c
  | TypedOperator OpClass.AddOp _ k => AddOp_Run k c b step
  | TypedOperator OpClass.ElementwiseMulOp _ k => ElementwiseMulOp_Run k c b step
  | TypedOperator OpClass.EmbeddingOp _ k => EmbeddingOp_Run k c b step
  | TypedOperator OpClass.LinearOp _ k => LinearOp_Run k c b step
  | TypedOperator OpClass.MatMulOp _ k => MatMulOp_Run k c b step
  | TypedOperator OpClass.RmsNormOp _ k => RmsNormOp_Run k c b step
  | TypedOperator OpClass.SiluMulOp _ k => SiluMulOp_Run k c b step
  | TypedOperator OpClass.SiluOp _ k => SiluOp_Run k c b step
  end.
End Run.
