(* ===== verification/Prepack.v ===== *)
(** * Prepack: packed weights of a model

    [src/model/weight_prepack_planner.cpp], [src/model/backend_sidecar.cpp],
    [src/model/model_instance.cpp], [src/backend/cpu/cpu_weight_prepacker.cpp]. A packed
    artifact is a copy of the bytes of a weight, filed in the sidecar of the model under
    its operator and selector. Weights are addresses in a memory of bytes; what
    [posix_memalign] answers is a parameter. *)
From S2P Require Import Prelude DataTypes OperatorSchema OperatorInference KernelRegistry Tensor.

(** ** Weights *)

(** [storage] is the owner that keeps the bytes alive; only its presence matters. *)
(* @src include/aethermind/model/raw_weight.h:19-35 RawWeightView *)
Record RawWeightView := mkWeight {
  rw_data : Z; rw_bytes : Z; rw_dtype : DataType.t; rw_shape : list Z; rw_storage : bool; rw_contiguous : bool }.

(* @src include/aethermind/model/raw_weight.h:27-29 RawWeightView::IsValid *)
Definition weight_valid (w : RawWeightView) : bool :=
  rw_storage w && (0 <? DataType.bits (rw_dtype w)) && (negb (rw_data w =? 0) || (rw_bytes w =? 0)).
(* @src include/aethermind/model/raw_weight.h:31-34 RawWeightView::IsAligned *)
Definition weight_aligned (w : RawWeightView) (a : Z) : bool :=
  negb (a =? 0) && negb (rw_data w =? 0) && (rw_data w mod a =? 0).

(* @src include/aethermind/model/resolved_model_weights.h:11-16 AttnRawWeights *)
Record AttnRawWeights := mkAttn { q_proj : RawWeightView; k_proj : RawWeightView; v_proj : RawWeightView; o_proj : RawWeightView }.
(* @src include/aethermind/model/resolved_model_weights.h:18-22 MLPRawWeights *)
Record MLPRawWeights := mkMLP { gate_proj : RawWeightView; up_proj : RawWeightView; down_proj : RawWeightView }.
(* @src include/aethermind/model/resolved_model_weights.h:24-27 NormRawWeights *)
Record NormRawWeights := mkNorm { input_rmsnorm : RawWeightView; post_attn_rmsnorm : RawWeightView }.
(* @src include/aethermind/model/resolved_model_weights.h:29-33 DecoderLayerRawWeights *)
Record DecoderLayerRawWeights := mkLayer { layer_norm : NormRawWeights; layer_attn : AttnRawWeights; layer_mlp : MLPRawWeights }.
(* @src include/aethermind/model/resolved_model_weights.h:35-42 ResolvedModelWeights *)
Record ResolvedModelWeights := mkWeights {
  embed_tokens : RawWeightView; final_norm : RawWeightView; lm_head : option RawWeightView; layers : list DecoderLayerRawWeights }.

(** ** Requests *)

(* @src include/aethermind/model/weight_prepack_planner.h:20-24 WeightPrepackPlanner::Request *)
Record Request := mkRequest { req_op : OpType.t; raw_weight : RawWeightView; req_selector : KernelSelector }.

(* @src src/model/weight_prepack_planner.cpp:16-25 MakePackedSelector *)
Definition MakePackedSelector (device : DeviceType.t) (d : DataType.t) : KernelSelector :=
  mkSelector device DataType.Float32 d WeightFormat.kPacked IsaLevel.kAVX2 ExecPhase.kBoth.

Definition linear_request (device : DeviceType.t) (w : RawWeightView) : Request :=
  mkRequest OpType.kLinear w (MakePackedSelector device (rw_dtype w)).

(** The projections of a layer, in the order they are requested. *)
Definition projections (l : DecoderLayerRawWeights) : list RawWeightView :=
  [q_proj (layer_attn l); k_proj (layer_attn l); v_proj (layer_attn l); o_proj (layer_attn l);
   gate_proj (layer_mlp l); up_proj (layer_mlp l); down_proj (layer_mlp l)].

(* @src src/model/weight_prepack_planner.cpp:29-67 WeightPrepackPlanner::BuildRequests *)
Definition BuildRequests (device : DeviceType.t) (w : ResolvedModelWeights) : list Request :=
  (linear_request device <$> (layers w ≫= projections)) ++
  match lm_head w with Some h => [linear_request device h] | None => [] end.

(** ** Packing *)

(** The copy: where it is and what it holds. *)
(* @src src/backend/cpu/cpu_weight_prepacker.cpp:32-57 CpuPackedWeights *)
Record PackedWeights := mkPacked { pw_op : OpType.t; pw_selector : KernelSelector; pw_data : Z; pw_bytes : list Z }.

Section Packing.
(** The byte at an address, and what an allocation of some bytes at some alignment
    yields. *)
Context (byte_at : Z -> Z) (posix_memalign : Z -> Z -> option Z).

Definition read_bytes (data n : Z) : list Z := (fun i => byte_at (data + i)) <$> seqZ 0 n.

(** An allocation that yields a null address counts as failed. *)
(* @src src/backend/cpu/cpu_weight_prepacker.cpp:16-30 AllocateCpuPackedBuffer *)
Definition AllocateCpuPackedBuffer (nbytes alignment : Z) : option Z :=
  match posix_memalign (if nbytes =? 0 then 1 else nbytes) (if alignment =? 0 then 64 else alignment) with
  | Some p => if p =? 0 then None else Some p
  | None => None
  end.

(** [noexcept]: a failed check inside terminates. *)
(* @src src/backend/cpu/cpu_weight_prepacker.cpp:88-119 CpuWeightPrepacker::Pack *)
Definition Pack (o : OpType.t) (w : TensorView) (s : KernelSelector) : Res PackedWeights :=
  _ ← reject_if (bool_decide (o = OpType.kUnknown)) (InvalidArgument "CpuWeightPrepacker requires a concrete op type");
  _ ← reject_if (negb (bool_decide (device_type s = DeviceType.kCPU))) (InvalidArgument "CpuWeightPrepacker only supports CPU selectors");
  _ ← reject_if (negb (bool_decide (weight_format s = WeightFormat.kPacked)))
        (InvalidArgument "CpuWeightPrepacker requires WeightFormat::kPacked");
  ok ← v_is_valid w;
  _ ← reject_if (negb ok) (InvalidArgument "CpuWeightPrepacker requires a valid logical weight TensorView");
  packed_nbytes ← v_logical_nbytes w;
  match AllocateCpuPackedBuffer packed_nbytes (v_alignment w) with
  | None => Fail (ResourceExhausted "Failed to allocate packed CPU weight storage")
  | Some p => Ret (mkPacked o s p (read_bytes (v_data w) packed_nbytes))
  end.

(** ** The sidecar *)

Definition BackendSidecar : Type := list PackedWeights.

(* @src src/model/backend_sidecar.cpp:19-28 BackendSidecar::Find *)
Fixpoint Find (l : BackendSidecar) (o : OpType.t) (s : KernelSelector) : Res (option PackedWeights) :=
  match l with
  | [] => Ret None
  | p :: l' =>
      e ← res_and (bool_decide (pw_op p = o)) (selector_equal (pw_selector p) s);
      if (e : bool) then Ret (Some p) else Find l' o s
  end.

(* @src src/model/backend_sidecar.cpp:5-17 BackendSidecar::Store *)
Definition Store (l : BackendSidecar) (p : PackedWeights) : Res BackendSidecar :=
  f ← Find l (pw_op p) (pw_selector p);
  _ ← reject_if (match f with Some _ => true | None => false end)
        (AlreadyExists "Packed weights already exist for the requested op/selector");
  Ret (l ++ [p]).

(** Row-major strides; overflow is undefined behaviour. *)
(* @src src/model/weight_prepack_planner.cpp:92-98 PrepackAndStore (strides) *)
Fixpoint packed_strides (shape : list Z) : Res (list Z) :=
  match shape with
  | [] => Ret []
  | [_] => Ret [1]
  | _ :: ((d :: _) as rest) =>
      ss ← packed_strides rest;
      match ss with
      | s :: _ => p ← mul_i64 s d; Ret (p :: ss)
      | [] => Ret [1]
      end
  end.

(* @src src/model/weight_prepack_planner.cpp:80-86 PrepackAndStore (duplicates) *)
Fixpoint already_stored (keys : list (OpType.t * KernelSelector)) (r : Request) : Res bool :=
  match keys with
  | [] => Ret false
  | (o, s) :: keys' =>
      e ← res_and (bool_decide (o = req_op r)) (selector_equal s (req_selector r));
      if (e : bool) then Ret true else already_stored keys' r
  end.

(* @src src/model/weight_prepack_planner.cpp:91-109 PrepackAndStore (one request) *)
Definition pack_request (r : Request) : Res PackedWeights :=
  let w := raw_weight r in
  strides ← packed_strides (rw_shape w);
  view ← make_view (rw_data w) (rw_dtype w) (rw_shape w) strides 0;
  Pack (req_op r) view (req_selector r).

(* @src src/model/weight_prepack_planner.cpp:79-113 PrepackAndStore (loop) *)
Fixpoint prepack_loop (sidecar : BackendSidecar) (stored : list (OpType.t * KernelSelector)) (reqs : list Request)
    : Res BackendSidecar :=
  match reqs with
  | [] => Ret sidecar
  | r :: reqs' =>
      dup ← already_stored stored r;
      if (dup : bool) then prepack_loop sidecar stored reqs'
      else
        p ← pack_request r;
        sidecar ← Store sidecar p;
        prepack_loop sidecar (stored ++ [(req_op r, req_selector r)]) reqs'
  end.

(* @src src/model/weight_prepack_planner.cpp:69-116 WeightPrepackPlanner::PrepackAndStore *)
Definition PrepackAndStore (reqs : list Request) : Res BackendSidecar := prepack_loop [] [] reqs.

(** ** Specification *)

Definition same_key (o o' : OpType.t) (s s' : KernelSelector) : Prop := o = o' /\ same_selector s s'.
#[local] Instance same_key_dec o o' s s' : Decision (same_key o o' s s').
Proof. unfold same_key. apply _. Defined.

Definition has_same_key (keys : list (OpType.t * KernelSelector)) (o : OpType.t) (s : KernelSelector) : Prop :=
  Exists (fun k => same_key k.1 o k.2 s) keys.
#[local] Instance has_same_key_dec keys o s : Decision (has_same_key keys o s).
Proof. unfold has_same_key. apply _. Defined.

(** The first request of each key, the keys of [seen] left out. *)
Fixpoint firsts (seen : list (OpType.t * KernelSelector)) (reqs : list Request) : list Request :=
  match reqs with
  | [] => []
  | r :: reqs' =>
      if decide (has_same_key seen (req_op r) (req_selector r)) then firsts seen reqs'
      else r :: firsts (seen ++ [(req_op r, req_selector r)]) reqs'
  end.

Definition pw_key (p : PackedWeights) : OpType.t * KernelSelector := (pw_op p, pw_selector p).
Definition fixed_keys (keys : list (OpType.t * KernelSelector)) : Prop := Forall (fun k => fixed k.2) keys.

(** ** Lemmas *)

Lemma key_test (o o' : OpType.t) s s' : fixed s -> fixed s' ->
  res_and (bool_decide (o = o')) (selector_equal s s') = Ret (bool_decide (same_key o o' s s')).
Proof.
  intros Hs Hs'. rewrite selector_equal_fixed by done. unfold res_and, same_key.
  destruct (decide (o = o')) as [E|E]; [rewrite bool_decide_eq_true_2 by done|rewrite bool_decide_eq_false_2 by done].
  - f_equal. apply bool_decide_ext. tauto.
  - rewrite bool_decide_eq_false_2; [done|tauto].
Qed.

Lemma already_stored_spec keys r : fixed_keys keys -> fixed (req_selector r) ->
  already_stored keys r = Ret (bool_decide (has_same_key keys (req_op r) (req_selector r))).
Proof.
  intros Hk Hr. induction Hk as [|[o s] keys Hs Hk IH]; cbn [already_stored].
  { rewrite bool_decide_eq_false_2; [done|]. intros H. by apply Exists_nil in H. }
  simpl in Hs. rewrite key_test by done. cbn [mbind res_mbind res_bind]. destruct (decide (same_key o (req_op r) s (req_selector r))) as [E|E]; [rewrite (bool_decide_eq_true_2 _ E)|rewrite (bool_decide_eq_false_2 _ E)].
  - rewrite bool_decide_eq_true_2; [done|]. by apply Exists_cons_hd.
  - rewrite IH. f_equal. apply bool_decide_ext. unfold has_same_key. rewrite Exists_cons. simpl. tauto.
Qed.

Lemma Find_none l o s : fixed_keys (pw_key <$> l) -> fixed s -> ~ has_same_key (pw_key <$> l) o s -> Find l o s = Ret None.
Proof.
  intros Hk Hs Hno. induction l as [|p l IH]; [done|]. cbn [Find]. apply Forall_cons in Hk as [Hp Hk].
  rewrite key_test by done. cbn [mbind res_mbind res_bind]. unfold has_same_key in Hno. rewrite fmap_cons, Exists_cons in Hno.
  rewrite bool_decide_eq_false_2; [apply IH; [done|]|]; intros E; apply Hno; [right|left]; exact E.
Qed.

Lemma Find_some l o s pre p post : l = pre ++ p :: post -> fixed_keys (pw_key <$> l) -> fixed s ->
  ~ has_same_key (pw_key <$> pre) o s -> same_key (pw_op p) o (pw_selector p) s -> Find l o s = Ret (Some p).
Proof.
  intros -> Hk Hs Hno Hp. induction pre as [|q pre IH]; cbn [Find app].
  - simpl in Hk. apply Forall_cons in Hk as [Hf _]. rewrite key_test by done. by rewrite bool_decide_eq_true_2.
  - simpl in Hk. apply Forall_cons in Hk as [Hf Hk]. rewrite key_test by done. cbn [mbind res_mbind res_bind].
    unfold has_same_key in Hno. rewrite fmap_cons, Exists_cons in Hno.
    rewrite bool_decide_eq_false_2; [apply IH; [done|]|]; intros E; apply Hno; [right|left]; exact E.
Qed.

Lemma pack_request_key r p : pack_request r = Ret p -> pw_key p = (req_op r, req_selector r).
Proof.
  unfold pack_request, Pack. intros H. res_inv. destruct (AllocateCpuPackedBuffer _ _); [|done]. by injection H as <-.
Qed.

(** Packing requests one after the other. *)
Fixpoint pack_all (reqs : list Request) : Res (list PackedWeights) :=
  match reqs with
  | [] => Ret []
  | r :: reqs' => p ← pack_request r; ps ← pack_all reqs'; Ret (p :: ps)
  end.

Lemma prepack_loop_spec reqs : forall sidecar, fixed_keys (pw_key <$> sidecar) -> Forall (fun r => fixed (req_selector r)) reqs ->
  prepack_loop sidecar (pw_key <$> sidecar) reqs =
  (ps ← pack_all (firsts (pw_key <$> sidecar) reqs); Ret (sidecar ++ ps)).
Proof.
  induction reqs as [|r reqs IH]; intros sidecar Hk Hr; cbn [prepack_loop firsts pack_all].
  { cbn [mbind res_mbind res_bind]. by rewrite app_nil_r. }
  apply Forall_cons in Hr as [Hf Hr]. rewrite already_stored_spec by done. cbn [mbind res_mbind res_bind].
  destruct (decide (has_same_key _ _ _)) as [Hs|Hs]; [rewrite bool_decide_eq_true_2 by done; by apply IH|].
  rewrite bool_decide_eq_false_2 by done. cbn [pack_all].
  destruct (pack_request r) as [p|?|?] eqn:E; cbn [mbind res_mbind res_bind]; [|done..].
  pose proof (pack_request_key r p E) as Ek. unfold Store. injection Ek as Eo Es. rewrite Eo, Es, Find_none by done.
  cbn [reject_if mbind res_mbind res_bind].
  assert ((pw_key <$> sidecar) ++ [(req_op r, req_selector r)] = pw_key <$> (sidecar ++ [p])) as Ekeys.
  { rewrite fmap_app. simpl. unfold pw_key at 3. by rewrite Eo, Es. }
  rewrite Ekeys, IH; [|rewrite fmap_app; apply Forall_app; split; [done|]; constructor; [simpl; by rewrite Es|constructor]|done].
  destruct (pack_all _) as [ps|?|?]; cbn [mbind res_mbind res_bind]; [|done..]. by rewrite <- app_assoc.
Qed.

Lemma PrepackAndStore_run reqs : Forall (fun r => fixed (req_selector r)) reqs ->
  PrepackAndStore reqs = pack_all (firsts [] reqs).
Proof.
  intros Hr. unfold PrepackAndStore. etrans; [apply (prepack_loop_spec reqs []); [constructor|done]|].
  simpl. by destruct (pack_all _).
Qed.

(** A request is represented by the first one with its key. *)
Definition first_request (reqs : list Request) (r r0 : Request) : Prop :=
  exists pre post, reqs = pre ++ r0 :: post /\ same_key (req_op r0) (req_op r) (req_selector r0) (req_selector r) /\
    Forall (fun q => ~ same_key (req_op q) (req_op r) (req_selector q) (req_selector r)) pre.

Lemma has_same_key_trans keys o o' s s' : same_key o o' s s' -> has_same_key keys o s <-> has_same_key keys o' s'.
Proof.
  intros [-> E]. unfold has_same_key, same_key. rewrite !Exists_exists. split; intros (k & Hk & Ek & H); exists k; (split; [done|]);
    (split; [done|]); [by etrans|]. by etrans; [|symmetry].
Qed.

(** Where the artifact of a request is. *)
Lemma firsts_find r reqs : forall seen ps, r ∈ reqs -> ~ has_same_key seen (req_op r) (req_selector r) ->
  pack_all (firsts seen reqs) = Ret ps -> exists r0 pre p post, first_request reqs r r0 /\ pack_request r0 = Ret p /\
  ps = pre ++ p :: post /\ ~ has_same_key (pw_key <$> pre) (req_op r) (req_selector r).
Proof.
  induction reqs as [|q reqs IH]; intros seen ps Hin Hseen HP; [by apply not_elem_of_nil in Hin|]. cbn [firsts] in HP.
  destruct (decide (same_key (req_op q) (req_op r) (req_selector q) (req_selector r))) as [Hq|Hq].
  - rewrite decide_False in HP; [|by rewrite has_same_key_trans]. cbn [pack_all] in HP. res_inv.
    exists q, [], a, a0. split; [by exists [], reqs|]. split; [done|]. split; [done|]. intros E. by apply Exists_nil in E.
  - assert (r ∈ reqs) as Hin'. { apply elem_of_cons in Hin as [<-|]; [|done]. destruct Hq. split; reflexivity. }
    assert (forall r0, first_request reqs r r0 -> first_request (q :: reqs) r r0) as HF.
    { intros r0 (pre & post & -> & E & Hp). exists (q :: pre), post. split; [done|]. split; [done|]. by constructor. }
    destruct (decide (has_same_key seen (req_op q) (req_selector q))).
    + destruct (IH seen ps Hin' Hseen HP) as (r0 & pre & p & post & H1 & R). exists r0, pre, p, post. auto.
    + cbn [pack_all] in HP. res_inv. destruct (IH (seen ++ [(req_op q, req_selector q)]) a0 Hin') as (r0 & pre & p & post & H1 & H2 & -> & H4).
      * unfold has_same_key in *. rewrite Exists_app, Exists_cons, Exists_nil. simpl. tauto.
      * done.
      * exists r0, (a :: pre), p, post. split; [auto|]. split; [done|]. split; [done|]. rewrite fmap_cons.
        unfold has_same_key in *. rewrite Exists_cons, (pack_request_key _ _ Hm). simpl. tauto.
Qed.

Lemma firsts_fixed reqs : forall seen ps, Forall (fun r => fixed (req_selector r)) reqs -> pack_all (firsts seen reqs) = Ret ps ->
  fixed_keys (pw_key <$> ps).
Proof.
  induction reqs as [|q reqs IH]; intros seen ps Hf HP; [injection HP as <-; constructor|]. apply Forall_cons in Hf as [Hq Hf].
  cbn [firsts] in HP. destruct (decide _); [by eapply IH|]. cbn [pack_all] in HP. res_inv. rewrite fmap_cons.
  constructor; [by rewrite (pack_request_key _ _ Hm)|by eapply IH].
Qed.

(** Looking up any request finds the artifact of the first request with its key. *)
Lemma Find_first reqs l r : Forall (fun r => fixed (req_selector r)) reqs -> PrepackAndStore reqs = Ret l -> r ∈ reqs ->
  exists r0 p, first_request reqs r r0 /\ pack_request r0 = Ret p /\ Find l (req_op r) (req_selector r) = Ret (Some p).
Proof.
  intros Hf HP Hin. rewrite PrepackAndStore_run in HP by done.
  destruct (firsts_find r reqs [] l Hin) as (r0 & pre & p & post & H1 & H2 & E & Hno); [|done|].
  { intros E. by apply Exists_nil in E. }
  exists r0, p. split; [done|]. split; [done|]. eapply (Find_some l _ _ pre p post E); [by eapply firsts_fixed| |done|].
  - rewrite Forall_forall in Hf. by apply Hf.
  - pose proof (pack_request_key _ _ H2) as [= -> ->]. destruct H1 as (? & ? & _ & ? & _). done.
Qed.

(** ** Guarantees *)

(** Prepacking packs the first request of each operator and selector, in order, and
    stops at the first that cannot be packed; a lookup under the key of any request finds
    the artifact of the first request with that key. *)
Theorem PrepackAndStore_exact reqs : Forall (fun r => fixed (req_selector r)) reqs ->
  PrepackAndStore reqs = pack_all (firsts [] reqs) /\
  forall l r, PrepackAndStore reqs = Ret l -> r ∈ reqs ->
    exists r0 p, first_request reqs r r0 /\ pack_request r0 = Ret p /\ Find l (req_op r) (req_selector r) = Ret (Some p).
Proof. intros Hf. split; [by apply PrepackAndStore_run|]. intros l r. by apply Find_first. Qed.

(** C29: In a model whose projections have one element type only the query projection of
    the first layer is ever packed: whatever projection a step asks for, it is given a
    copy of that one. *)
Theorem one_projection_packed w l0 ls d l : layers w = l0 :: ls -> fixed_dtype d ->
  Forall (fun r => rw_dtype (raw_weight r) = d) (BuildRequests DeviceType.kCPU w) ->
  PrepackAndStore (BuildRequests DeviceType.kCPU w) = Ret l ->
  exists p, l = [p] /\ pack_request (linear_request DeviceType.kCPU (q_proj (layer_attn l0))) = Ret p /\
  forall x, x ∈ BuildRequests DeviceType.kCPU w -> Find l (req_op x) (req_selector x) = Ret (Some p).
Proof.
  intros El Hd Hty HP.
  assert (forall x, x ∈ BuildRequests DeviceType.kCPU w -> req_op x = OpType.kLinear /\ req_selector x = MakePackedSelector DeviceType.kCPU d) as Hx.
  { intros x Hin. rewrite Forall_forall in Hty. pose proof (Hty x Hin) as E. unfold BuildRequests in Hin. apply elem_of_app in Hin as [Hin|Hin].
    - apply list_elem_of_fmap in Hin as (y & -> & _). simpl in *. by rewrite E.
    - destruct (lm_head w) as [h|]; [|by apply not_elem_of_nil in Hin]. apply list_elem_of_singleton in Hin as ->. simpl in *. by rewrite E. }
  assert (fixed (MakePackedSelector DeviceType.kCPU d)) as Hfix by (split; [split; vm_compute; repeat split; congruence|done]).
  assert (Forall (fun r => fixed (req_selector r)) (BuildRequests DeviceType.kCPU w)) as Hf.
  { apply Forall_forall. intros x Hin. destruct (Hx x Hin) as [_ ->]. done. }
  pose proof HP as HP'. rewrite PrepackAndStore_run in HP' by done.
  set (q := linear_request DeviceType.kCPU (q_proj (layer_attn l0))).
  assert (exists rest, BuildRequests DeviceType.kCPU w = q :: rest) as [rest Er] by (unfold BuildRequests; rewrite El; eexists; reflexivity).
  destruct (Hx q) as [Eo Es]; [rewrite Er; by left|].
  assert (forall seen reqs, has_same_key seen OpType.kLinear (MakePackedSelector DeviceType.kCPU d) ->
    (forall x, x ∈ reqs -> req_op x = OpType.kLinear /\ req_selector x = MakePackedSelector DeviceType.kCPU d) -> firsts seen reqs = []) as HN.
  { intros seen reqs Hs. induction reqs as [|x reqs IH]; intros Hr; [done|]. cbn [firsts]. destruct (Hr x) as [-> ->]; [by left|].
    rewrite decide_True by done. apply IH. intros y Hy. apply Hr. by right. }
  assert (firsts [] (BuildRequests DeviceType.kCPU w) = [q]) as Ef.
  { rewrite Er in Hx |- *. cbn [firsts]. rewrite decide_False by (intros E; by apply Exists_nil in E). f_equal. apply HN.
    - rewrite Eo, Es. apply Exists_cons_hd. split; reflexivity.
    - intros x Hin. apply Hx. by right. }
  rewrite Ef in HP'. cbn [pack_all] in HP'. destruct (pack_request q) as [p|?|?] eqn:Ep; [|done..]. injection HP' as <-.
  exists p. split; [done|]. split; [done|]. intros x Hin. destruct (Hx x Hin) as [Hxo Hxs]. rewrite Hxo, Hxs.
  assert (pw_op p = req_op q /\ pw_selector p = req_selector q) as [Kp Ks].
  { pose proof (pack_request_key _ _ Ep) as K. unfold pw_key in K. by injection K. }
  apply (Find_some [p] _ _ [] p []); [done| |done|intros E; by apply Exists_nil in E|].
  - constructor; [simpl; by rewrite Ks, Es|constructor].
  - split; [congruence|]. rewrite Ks, Es. reflexivity.
Qed.
End Packing.

Module Examples.
Definition weight (data : Z) : RawWeightView := mkWeight data 16 DataType.Float32 [2; 2] true true.
Definition layer : DecoderLayerRawWeights :=
  mkLayer (mkNorm (weight 100) (weight 116)) (mkAttn (weight 200) (weight 216) (weight 232) (weight 248))
    (mkMLP (weight 264) (weight 280) (weight 296)).
Definition model : ResolvedModelWeights := mkWeights (weight 300) (weight 316) (Some (weight 332)) [layer].
Definition bytes (a : Z) : Z := a mod 256.
Definition heap (n a : Z) : option Z := Some 4096.
Definition query : Request := linear_request DeviceType.kCPU (weight 200).

Lemma model_fixed : Forall (fun r => fixed (req_selector r)) (BuildRequests DeviceType.kCPU model).
Proof. repeat constructor; vm_compute; congruence. Qed.

Lemma PrepackAndStore_exact_witness : exists l, PrepackAndStore bytes heap (BuildRequests DeviceType.kCPU model) = Ret l /\
  exists r0 p, first_request (BuildRequests DeviceType.kCPU model) query r0 /\
    Find l (req_op query) (req_selector query) = Ret (Some p).
Proof.
  eexists. split; [vm_compute; reflexivity|].
  destruct (proj2 (PrepackAndStore_exact bytes heap _ model_fixed) _ query ltac:(vm_compute; reflexivity) ltac:(left)) as (r0 & p & H1 & _ & H3).
  exists r0, p. split; assumption.
Defined.

Lemma one_projection_packed_witness : exists l, PrepackAndStore bytes heap (BuildRequests DeviceType.kCPU model) = Ret l /\
  exists p, l = [p] /\ pw_bytes p = read_bytes bytes 200 16 /\
  Find l OpType.kLinear (req_selector (linear_request DeviceType.kCPU (weight 280))) = Ret (Some p).
Proof.
  eexists. split; [vm_compute; reflexivity|].
  destruct (one_projection_packed bytes heap model layer [] DataType.Float32 _ eq_refl ltac:(split; vm_compute; repeat split; congruence)
    ltac:(repeat constructor) ltac:(vm_compute; reflexivity)) as (p & E & Ep & HF).
  exists p. split; [exact E|]. split; [injection E as <-; reflexivity|].
  apply (HF (linear_request DeviceType.kCPU (weight 280))). right. right. right. right. right. left.
Defined.
End Examples.
