(* ===== verification/ExecutionPlan.v ===== *)
(** * ExecutionPlan: building and running plans

    [src/execution/execution_plan_builder.cpp], [src/execution/execution_plan.cpp],
    [src/execution/layer_runner.cpp], [src/execution/executor.cpp]. Nodes come either from
    lowering (trusted: the specs and checks they carry are used as they are) or from a
    caller (untrusted: they must equal what inference derives). Building changes the backend
    registry, which creates backends on first use; running changes the memory of the
    kernels. Both are computations of [OperatorExec]. *)
From S2P Require Import Prelude DataTypes ShapeSymbol ShapeConstraint OperatorSchema OperatorInference Graph GraphInvariant KernelRegistry Workspace KVCache Tensor Lowering OperatorExec Prepack.

(** ** Data *)

(* @src include/aethermind/execution/execution_plan.h:16-25 ExecutionStep *)
Record ExecutionStep := mkStep {
  es_selector : KernelSelector; es_op : option Operator; es_packed : option Z; es_workspace : WorkspaceRequirement;
  es_inputs : list TensorSpec; es_outputs : list TensorSpec; es_checks : list ShapeConstraint; es_name : option string }.

(* @src include/aethermind/execution/execution_plan.h:27-43 ExecutionPlan *)
Record ExecutionPlan := mkExecutionPlan { plan_steps : list ExecutionStep; plan_aliases : list ResolvedStateAlias }.

(* @src src/execution/execution_plan.cpp:20-33 ExecutionPlan::AddStep *)
Definition AddStep (p : ExecutionPlan) (s : ExecutionStep) : Res ExecutionPlan :=
  match es_op s with
  | None => Fail (InvalidArgument "Execution step operator cannot be null")
  | Some o =>
      _ ← reject_if (bool_decide (rk_fn (GetResolvedKernel o) = None))
            (InvalidArgument "Execution step operator resolved kernel function cannot be null");
      _ ← reject_if (negb (IsValidWorkspaceAlignment (ws_alignment (es_workspace s))))
            (InvalidArgument "Execution step workspace alignment must be a non-zero power of two");
      Ret (mkExecutionPlan (plan_steps p ++ [s]) (plan_aliases p))
  end.

(* @src src/execution/execution_plan.cpp:7-18 ExecutionPlan::Create *)
Definition CreatePlan (steps : list ExecutionStep) (aliases : list ResolvedStateAlias) : Res ExecutionPlan :=
  res_foldl AddStep (mkExecutionPlan [] aliases) steps.

(** ** Preparing operators *)

(* @src src/execution/execution_plan_builder.cpp:13-22 MakeSelectorForNode *)
Definition MakeSelectorForNode (n : ExecutionPlanNodeSpec) : KernelSelector :=
  mkSelector (ns_device n) (ns_act_dtype n) (ns_weight_dtype n) (ns_format n) (ns_isa n) (ns_phase n).

(** [None] for a null pointer. The sidecar is absent without a model instance. *)
(* @src src/execution/execution_plan_builder.cpp:24-39 ResolvePackedWeightsForNode *)
Definition ResolvePackedWeightsForNode (model : option BackendSidecar) (n : ExecutionPlanNodeSpec) : Res (option Z) :=
  if negb (bool_decide (ns_format n = WeightFormat.kPacked)) then Ret None
  else
    match model with
    | None => Fail (NotFound "Packed-weight node requires a ModelInstance sidecar")
    | Some sidecar =>
        f ← Find sidecar (ns_op n) (MakeSelectorForNode n);
        match f with
        | None => Fail (NotFound "Packed weights not found for ExecutionPlan node")
        | Some p => Ret (Some (pw_data p))
        end
    end.

(* @src src/execution/execution_plan_builder.cpp:41-49 PreparedOperator *)
Record PreparedOperator := mkPrepared {
  po_op : option Operator; po_inputs : list TensorSpec; po_outputs : list TensorSpec; po_checks : list ShapeConstraint }.

(** [vector::operator==]. *)
Fixpoint specs_equal (a b : list TensorSpec) : Res bool :=
  match a, b with
  | [], [] => Ret true
  | x :: a', y :: b' => if (length a' =? length b')%nat then e ← spec_equal x y; if (e : bool) then specs_equal a' b' else Ret false else Ret false
  | _, _ => Ret false
  end.

(** Constraints are compared by their conditions alone, whatever the error texts. *)
(* @src include/aethermind/shape_inference/shape_constraint.h:115-118 ShapeConstraint::operator== *)
Definition checks_equal (a b : list ShapeConstraint) : bool := bool_decide (condition <$> a = condition <$> b).

(* @src src/execution/execution_plan_builder.cpp:60-87 ValidateCallerMetadata *)
Definition ValidateCallerMetadata (n : ExecutionPlanNodeSpec) (compact : list TensorSpec)
    : Res (list TensorSpec * list ShapeConstraint) :=
  _ ← reject_if (bool_decide (ns_params n = monostate))
        (InvalidArgument "Untrusted ExecutionPlanNodeSpec adapter requires typed op_params; monostate is not accepted");
  analyzed ← InferOperator (ns_op n) (ns_params n) compact;
  e ← specs_equal (outputs analyzed) (ns_output_specs n);
  _ ← reject_if (negb e) (InvalidArgument "ExecutionPlanNodeSpec.output_specs does not match InferOperator");
  _ ← reject_if (negb (checks_equal (runtime_checks analyzed) (ns_checks n)))
        (InvalidArgument "ExecutionPlanNodeSpec.runtime_checks does not match InferOperator");
  Ret (outputs analyzed, runtime_checks analyzed).

(** The specs and checks of a step: the node's own, or the validated ones. *)
Definition node_metadata (trusted : bool) (n : ExecutionPlanNodeSpec) (compact : list TensorSpec)
    : Res (list TensorSpec * list ShapeConstraint) :=
  if trusted then Ret (ns_output_specs n, ns_checks n) else ValidateCallerMetadata n compact.

Section Build.
(** The registered operators, and the backend behind a handle. *)
Context (registry : OperatorRegistry) (backend_of : nat -> KernelBackend).

(* @src src/execution/execution_plan_builder.cpp:89-200 CreateAndPrepareOperator *)
Definition CreateAndPrepareOperator (backend : nat) (n : ExecutionPlanNodeSpec) (trusted : bool) : Res PreparedOperator :=
  _ ← reject_if (negb trusted && bool_decide (ns_params n = monostate))
        (InvalidArgument "Untrusted ExecutionPlanNodeSpec adapter requires typed op_params; monostate is not accepted");
  match CreateOperator registry (ns_op n) (ns_params n) with
  | Panic w => Panic w
  | Fail e =>
      if negb (bool_decide (code e = StatusCode.kNotFound)) then Fail e
      else '(outs, checks) ← node_metadata trusted n (ns_input_specs n);
           Ret (mkPrepared None (ns_input_specs n) outs checks)
  | Ret op =>
      _ ← reject_if (negb (match ns_attrs n with [] => true | _ => false end))
            (InvalidArgument "ExecutionPlanNodeSpec.attrs is only supported by raw kernel fallback; use op_params for registered operators");
      compact ← match ns_input_specs n with
                | [] => Ret []
                | _ => schema ← GetOperatorSchema (ns_op n); MakeCompactInputSpecs schema (ns_input_specs n)
                end;
      '(outs, checks) ← node_metadata trusted n compact;
      op ← @Prepare (backend_of backend) op (MakeSelectorForNode n);
      Ret (mkPrepared (Some op) compact outs checks)
  end.

(* @src src/execution/execution_plan_builder.cpp:273-289 ExecutionPlanBuilder::ResolveKernelForNode *)
Definition ResolveKernelForNode (backend : nat) (n : ExecutionPlanNodeSpec) : Res ResolvedKernel :=
  _ ← reject_if (bool_decide (ns_op n = OpType.kUnknown)) (InvalidArgument "ExecutionPlanNodeSpec.op_type cannot be kUnknown");
  k ← @ResolveKernelInfo (backend_of backend) (ns_op n) (MakeSelectorForNode n);
  Ret (mkResolved (rk_op k) (rk_fn k) (ns_attrs n) (rk_debug_name k) (rk_builder k) (rk_params_size k)).

(** One node with its planned workspace. *)
(* @src src/execution/execution_plan_builder.cpp:222-265 BuildExecutionPlan (one node) *)
Definition build_step (model : option BackendSidecar) (trusted : bool) (n : ExecutionPlanNodeSpec) (ws : WorkspaceRequirement)
    : Exec BackendRegistry ExecutionStep :=
  backend ← (fun r => GetBackend r (ns_device n));
  lift (prepared ← CreateAndPrepareOperator backend n trusted;
        op ← match po_op prepared with
             | Some op => Ret op
             | None => k ← ResolveKernelForNode backend n; Ret (make_function_operator k)
             end;
        packed ← ResolvePackedWeightsForNode model n;
        Ret (mkStep (MakeSelectorForNode n) (Some op) packed ws (po_inputs prepared) (po_outputs prepared)
               (po_checks prepared) None)).

Fixpoint build_steps (model : option BackendSidecar) (trusted : bool) (l : list (ExecutionPlanNodeSpec * WorkspaceRequirement))
    : Exec BackendRegistry (list ExecutionStep) :=
  match l with
  | [] => mret []
  | (n, ws) :: l' => s ← build_step model trusted n ws; ss ← build_steps model trusted l'; mret (s :: ss)
  end.

(* @src src/execution/execution_plan_builder.cpp:202-269 BuildExecutionPlan *)
Definition BuildExecutionPlan (model : option BackendSidecar) (nodes : list ExecutionPlanNodeSpec)
    (aliases : list ResolvedStateAlias) (trusted : bool) : Exec BackendRegistry ExecutionPlan :=
  let '(layout, ws) := PlanWorkspaceRequirements (ns_workspace <$> nodes) in
  _ ← lift layout;
  steps ← build_steps model trusted (zip nodes ws);
  lift (CreatePlan steps aliases).

(** The overloads of [ExecutionPlanBuilder::Build]. *)
(* @src src/execution/execution_plan_builder.cpp:291-304 ExecutionPlanBuilder::Build (nodes) *)
Definition BuildFromNodes (model : option BackendSidecar) (nodes : list ExecutionPlanNodeSpec) : Exec BackendRegistry ExecutionPlan :=
  BuildExecutionPlan model nodes [] false.

(* @src src/execution/execution_plan_builder.cpp:306-323 ExecutionPlanBuilder::Build (lowered) *)
Definition BuildFromLowered `{AliasSort} (model : option BackendSidecar) (l : LoweredGraph) : Exec BackendRegistry ExecutionPlan :=
  aliases ← lift (ResolveStateAliases l);
  BuildExecutionPlan model (Lowering.steps l) aliases true.
End Build.

(** ** Running *)

Section Run.
Context {Mem : Type} {KS : Kernels Mem}.

(* @src src/execution/layer_runner.cpp:9-20 BuildKernelContext *)
Definition BuildKernelContext (s : ExecutionStep) (o : Operator) (b : RuntimeBindingContext) : KernelContext :=
  mkContext (device_type (es_selector s)) (match workspace_arena_ b with Some _ => true | None => false end) null_binding
    (es_packed s) None (rk_attrs (GetResolvedKernel o)).

(* @src src/execution/layer_runner.cpp:69-93 LayerRunner::ValidateStateAliasesForStep *)
Definition ValidateStateAliasesForStep (m : KVCacheManager) (step : nat) (aliases : list ResolvedStateAlias)
    (b : RuntimeBindingContext) : Res unit :=
  match ForStep aliases step with
  | [] => Ret tt
  | _ => reject_if (negb (HasKVCacheView m b)) (InvalidArgument "State alias requires a valid KVCacheView")
  end.

(** The checks of a step in their order; what is left is the call. *)
(* @src src/execution/layer_runner.cpp:37-67 LayerRunner::RunStep *)
Definition RunStep (m : KVCacheManager) (step : nat) (s : ExecutionStep) (b : RuntimeBindingContext)
    (aliases : list ResolvedStateAlias) : Exec Mem unit :=
  match es_op s with
  | None => lift (Fail (InvalidArgument "Execution step operator cannot be null"))
  | Some o =>
      c ← lift (_ ← ValidateStateAliasesForStep m step aliases b;
                ws ← BindWorkspace (workspace_arena_ b) (es_workspace s);
                let c := with_binding (BuildKernelContext s o b) ws in
                _ ← match es_checks s with
                    | [] => Ret tt
                    | cs => t ← GetStepTensorBinding b step;
                            ValidateShapeConstraints cs (v_shape <$> sb_inputs t) (v_shape <$> sb_outputs t)
                    end;
                Ret c);
      RunOperator o c b step
  end.

(* @src src/execution/layer_runner.cpp:24-35 LayerRunner::Run (loop) *)
Fixpoint run_steps (m : KVCacheManager) (i : nat) (steps : list ExecutionStep) (b : RuntimeBindingContext)
    (aliases : list ResolvedStateAlias) : Exec Mem unit :=
  match steps with
  | [] => mret tt
  | s :: steps' => _ ← RunStep m i s b aliases; run_steps m (S i) steps' b aliases
  end.

(* @src src/execution/executor.cpp:8-11 Executor::Execute *)
Definition Execute (m : KVCacheManager) (p : ExecutionPlan) (b : RuntimeBindingContext) : Exec Mem unit :=
  run_steps m 0 (plan_steps p) b (plan_aliases p).
End Run.

(** ** Facts about building *)

Lemma AddStep_inv p s p' : AddStep p s = Ret p' ->
  p' = mkExecutionPlan (plan_steps p ++ [s]) (plan_aliases p) /\
  exists o, es_op s = Some o /\ rk_fn (GetResolvedKernel o) <> None.
Proof.
  unfold AddStep. destruct (es_op s) as [o|]; [|done]. intros. res_inv. split; [congruence|].
  exists o. split; [done|]. by apply bool_decide_eq_false in Hm.
Qed.

Lemma add_steps_inv steps : forall p q, res_foldl AddStep p steps = Ret q ->
  q = mkExecutionPlan (plan_steps p ++ steps) (plan_aliases p) /\
  Forall (fun s => exists o, es_op s = Some o /\ rk_fn (GetResolvedKernel o) <> None) steps.
Proof.
  induction steps as [|s steps IH]; intros p q H; cbn in H.
  - injection H as <-. rewrite app_nil_r. split; [by destruct p|constructor].
  - res_inv. apply AddStep_inv in Hm as [-> Ho]. apply IH in H as [-> Hf]. cbn.
    rewrite <- app_assoc. split; [done|by constructor].
Qed.

Lemma CreatePlan_inv steps aliases p : CreatePlan steps aliases = Ret p ->
  p = mkExecutionPlan steps aliases /\
  Forall (fun s => exists o, es_op s = Some o /\ rk_fn (GetResolvedKernel o) <> None) steps.
Proof. apply add_steps_inv. Qed.

(** What [Prepare] leaves in an operator: a kernel of the operator's own type. *)
Lemma Prepare_inv `{KernelBackend} c p k s op : Prepare (TypedOperator c p k) s = Ret op ->
  exists k', op = TypedOperator c p k' /\ rk_op k' = OpClass.Type_ c /\ rk_fn k' <> None.
Proof.
  cbn. intros. res_inv. exists a. split; [congruence|].
  assert (forall name o k, resolve_checked name o s = Ret k -> rk_op k = o /\ rk_fn k <> None) as Hc.
  { intros name o k1 H1. unfold resolve_checked in H1. res_inv. apply ResolveKernelInfo_fn in Hm0 as (? & ? & ?).
    by simplify_eq. }
  destruct c; try (by apply Hc in Hm). destruct p; try done. unfold RmsNormOp_Prepare in Hm. res_inv.
  apply Hc in Hm0 as [? ?]. by simplify_eq.
Qed.

Lemma static_registry_lookup r o d : static_registry = Ret r -> r !! o = Some d ->
  exists c, OpClass.Type_ c = o /\ d = mkOpDescriptor (Some (CreateTypedOperator c)) (Some (Ret (OpClass.default_params c))).
Proof.
  intros Hr. assert (r = list_to_map ((fun c => (OpClass.Type_ c, mkOpDescriptor (Some (CreateTypedOperator c))
    (Some (Ret (OpClass.default_params c))))) <$> reverse registered_classes)) as ->.
  { symmetry. cut (@Ret OperatorRegistry (list_to_map ((fun c => (OpClass.Type_ c, mkOpDescriptor (Some (CreateTypedOperator c))
    (Some (Ret (OpClass.default_params c))))) <$> reverse registered_classes)) = Ret r); [congruence|].
    rewrite <- Hr. reflexivity. }
  intros Hd. apply elem_of_list_to_map_2, list_elem_of_fmap in Hd as (c & [= -> ->] & _). eauto.
Qed.





(** Node [n], planned at [ws], became step [s]. *)
Record step_of (model : option BackendSidecar) (n : ExecutionPlanNodeSpec) (ws : WorkspaceRequirement) (s : ExecutionStep) : Prop := {
  so_selector : es_selector s = MakeSelectorForNode n;
  so_workspace : es_workspace s = ws;
  so_kernel : exists o, es_op s = Some o /\ rk_op (GetResolvedKernel o) = ns_op n /\ rk_fn (GetResolvedKernel o) <> None;
  so_packed : ResolvePackedWeightsForNode model n = Ret (es_packed s) }.

Lemma compact_registered c schema l l' : GetOperatorSchema (OpClass.Type_ c) = Ret schema ->
  MakeCompactInputSpecs schema l = Ret l' -> l' = l.
Proof.
  unfold MakeCompactInputSpecs. intros Hs H.
  destruct (negb _) eqn:E; [done|]. apply negb_false_iff, Nat.eqb_eq in E. revert H.
  destruct c; injection Hs as <-; (destruct l as [|? [|? [|? [|? [|? ?]]]]]; try discriminate E); cbn; congruence.
Qed.

Section BuildFacts.
Context (registry : OperatorRegistry) (backend_of : nat -> KernelBackend) (Hreg : static_registry = Ret registry).

Lemma CreateOperator_inv o p op : CreateOperator registry o p = Ret op ->
  exists c, op = TypedOperator c p no_kernel /\ OpClass.Type_ c = o.
Proof.
  unfold CreateOperator. intros. res_inv. destruct (registry !! o) as [d|] eqn:E; [|done].
  destruct (static_registry_lookup _ _ _ Hreg E) as (c & Hc & ->). cbn in H. unfold CreateTypedOperator in H.
  res_inv. exists c. split; congruence.
Qed.

Lemma CreateAndPrepare_inv b n trusted q : CreateAndPrepareOperator registry backend_of b n trusted = Ret q ->
  po_inputs q = ns_input_specs n /\
  node_metadata trusted n (ns_input_specs n) = Ret (po_outputs q, po_checks q) /\
  forall op, po_op q = Some op -> rk_op (GetResolvedKernel op) = ns_op n /\ rk_fn (GetResolvedKernel op) <> None.
Proof using Hreg.
  unfold CreateAndPrepareOperator. intros. res_inv.
  destruct (CreateOperator registry (ns_op n) (ns_params n)) as [op|e|w] eqn:E; [| |done].
  - apply CreateOperator_inv in E as (c & -> & Hc). res_inv.
    assert (a0 = ns_input_specs n) as ->.
    { destruct (ns_input_specs n) eqn:Ei; [by injection Hm1 as <-|]. res_inv. rewrite <- Hc in Hm3. by eapply compact_registered. }
    destruct a1 as [outs checks]. res_inv.
    cbn [po_inputs po_outputs po_checks po_op]. split_and!; [done|done|].
    intros op [= <-]. match goal with Hp : Prepare _ _ = Ret _ |- _ => apply Prepare_inv in Hp as (k' & -> & Hk & ?) end.
    split; [cbn; congruence|done].
  - destruct (bool_decide (code e = _)); [|done]; cbn [negb] in H. res_inv. destruct a as [outs checks]. res_inv. cbn [po_inputs po_outputs po_checks po_op]. by split_and!.
Qed.

Lemma build_step_inv model trusted n ws st s st' :
  build_step registry backend_of model trusted n ws st = (Ret s, st') ->
  step_of model n ws s /\ es_inputs s = ns_input_specs n /\
  node_metadata trusted n (ns_input_specs n) = Ret (es_outputs s, es_checks s).
Proof using Hreg.
  unfold build_step. intros H. apply exec_bind_inv in H as (b & st1 & _ & H). apply lift_inv in H as [H _]. res_inv.
  apply CreateAndPrepare_inv in Hm as (Hi & Hn & Ho).
  split; [|by cbn; rewrite Hi]. split; cbn [es_selector es_workspace es_op es_packed]; try done.
  eexists. split; [done|]. destruct (po_op a) as [op|]; [injection Hm0 as <-; by apply Ho|]. res_inv.
  cbn. unfold ResolveKernelForNode in Hm. res_inv. cbn.
  match goal with Hk : ResolveKernelInfo _ _ = Ret _ |- _ => by apply ResolveKernelInfo_fn in Hk as (? & ? & _) end.
Qed.

Lemma build_steps_inv model trusted l : forall st ss st',
  build_steps registry backend_of model trusted l st = (Ret ss, st') ->
  Forall2 (fun x s => step_of model x.1 x.2 s /\ es_inputs s = ns_input_specs x.1 /\
    node_metadata trusted x.1 (ns_input_specs x.1) = Ret (es_outputs s, es_checks s)) l ss.
Proof using Hreg.
  induction l as [|[n ws] l IH]; intros st ss st' H; cbn [build_steps] in H.
  - injection H as <- <-. constructor.
  - apply exec_bind_inv in H as (s & st1 & H1 & H). apply exec_bind_inv in H as (ss' & st2 & H2 & H).
    injection H as <- <-. constructor; [by eapply build_step_inv|by eapply IH].
Qed.
End BuildFacts.



Section BuildTheorem.
Context (registry : OperatorRegistry) (backend_of : nat -> KernelBackend) (Hreg : static_registry = Ret registry).

Lemma BuildExecutionPlan_inv model nodes aliases trusted st p st' :
  BuildExecutionPlan registry backend_of model nodes aliases trusted st = (Ret p, st') ->
  exists layout ws, PlanWorkspaceRequirements (ns_workspace <$> nodes) = (Ret layout, ws) /\ plan_aliases p = aliases /\
    Forall2 (fun x s => step_of model x.1 x.2 s /\ es_inputs s = ns_input_specs x.1 /\
      node_metadata trusted x.1 (ns_input_specs x.1) = Ret (es_outputs s, es_checks s)) (zip nodes ws) (plan_steps p).
Proof using Hreg.
  unfold BuildExecutionPlan. destruct (PlanWorkspaceRequirements (ns_workspace <$> nodes)) as [lay ws].
  intros H. apply exec_bind_inv in H as (layout & st1 & H1 & H). apply lift_inv in H1 as [-> ->].
  apply exec_bind_inv in H as (ss & st2 & H2 & H). apply lift_inv in H as [H _].
  apply CreatePlan_inv in H as [-> _]. exists layout, ws. split_and!; [done|done|]. by eapply build_steps_inv.
Qed.


End BuildTheorem.


(** ** Facts about running *)

(** Kernels that also record each call with its context and what the kernel returned. *)
Section Logged.
Context {Mem : Type} {KS : Kernels Mem}.
Abbreviation Call := (KernelFunc * KernelContext)%type.
Abbreviation Log := (list (Call * Res unit)).

Definition logged : Kernels (Mem * Log) := {|
  invoke fn c := fun '(m, log) => let '(r, m') := invoke fn c m in (r, (m', log ++ [(fn, c, r)]));
  build_params := build_params |}.

(** The context of step [s], with the parameters its builder made, if it has one. *)
Definition context_of (b : RuntimeBindingContext) (s : ExecutionStep) (o : Operator) (ws : WorkspaceBinding) (c : KernelContext) : Prop :=
  let c0 := with_binding (BuildKernelContext s o b) ws in c = c0 \/ exists p, c = with_params c0 p.

(** What has been checked when the kernel of step [i] is called. *)
Record admitted (m : KVCacheManager) (b : RuntimeBindingContext) (aliases : list ResolvedStateAlias) (i : nat)
    (s : ExecutionStep) (call : Call) : Prop := {
  ad_aliases : ForStep aliases i <> [] -> HasKVCacheView m b = true;
  ad_checks : es_checks s <> [] -> exists t, GetStepTensorBinding b i = Ret t /\
    ValidateShapeConstraints (es_checks s) (v_shape <$> sb_inputs t) (v_shape <$> sb_outputs t) = Ret tt;
  ad_kernel : exists o ws, es_op s = Some o /\ rk_fn (GetResolvedKernel o) = Some call.1 /\
    BindWorkspace (workspace_arena_ b) (es_workspace s) = Ret ws /\ context_of b s o ws call.2 }.

(** A computation that calls at most one kernel, in a context satisfying [P], and then
    returns what the kernel returned; without a call it fails. *)
Definition calls_one (P : Call -> Prop) (x : Exec (Mem * Log) unit) : Prop := forall mem log r mem' log',
  x (mem, log) = (r, (mem', log')) ->
  (log' = log /\ r <> Ret tt) \/ exists call, log' = log ++ [(call, r)] /\ P call.

Lemma calls_one_fail P (r : Res unit) : r <> Ret tt -> calls_one P (lift r).
Proof using. intros Hr mem log r' mem' log' [= <- <- <-]. by left. Qed.

Lemma calls_one_bind {A} P (m : Res A) (f : A -> Exec (Mem * Log) unit) :
  (forall a, m = Ret a -> calls_one P (f a)) -> calls_one P (a ← lift m; f a).
Proof using.
  intros Hf mem log r mem' log' H. unfold mbind, exec_mbind, exec_bind, lift in H.
  destruct m as [a|e|w]; [by eapply (Hf a)|by injection H as <- <- <-; left..].
Qed.

Lemma calls_one_invoke (P : Call -> Prop) fn c : P (fn, c) -> calls_one P (@invoke _ logged fn c).
Proof using.
  intros HP mem log r mem' log' H. cbn in H. destruct (invoke fn c mem) as [r1 m1]. injection H as <- <- <-. right. eauto.
Qed.

Lemma calls_one_resolved (P : Call -> Prop) k c ins outs :
  (forall fn c', rk_fn k = Some fn -> c' = c \/ (exists p, c' = with_params c p) -> P (fn, c')) ->
  calls_one P (@InvokeResolvedKernel _ logged k c ins outs).
Proof using.
  intros HP. apply calls_one_bind. intros c' Hc.
  assert (c' = c \/ exists p, c' = with_params c p) as Hc'.
  { destruct (rk_builder k); res_inv; subst; eauto. }
  destruct (rk_fn k) as [fn|]; [by apply calls_one_invoke, HP|by apply calls_one_fail].
Qed.

Lemma RunOperator_calls (P : Call -> Prop) o c b i :
  (forall fn c', rk_fn (GetResolvedKernel o) = Some fn -> c' = c \/ (exists p, c' = with_params c p) -> P (fn, c')) ->
  calls_one P (@RunOperator _ logged o c b i).
Proof using.
  intros HP. destruct o as [[] p k|k]; cbn [RunOperator GetResolvedKernel] in *;
    try (apply calls_one_bind; intros t _; first [by apply calls_one_resolved | by apply calls_one_fail]).
  unfold FunctionOperator_Run. destruct (rk_fn k) as [fn|]; [apply calls_one_invoke; eauto|by apply calls_one_fail].
Qed.

Lemma RunStep_calls m i s b aliases : calls_one (admitted m b aliases i s) (@RunStep _ logged m i s b aliases).
Proof using.
  unfold RunStep. destruct (es_op s) as [o|] eqn:Eo; [|by apply calls_one_fail].
  apply calls_one_bind. intros c Hc. res_inv. apply RunOperator_calls. intros fn c' Hfn Hc'. split.
  - intros Hne. unfold ValidateStateAliasesForStep in *. destruct (ForStep aliases i); [done|]. res_inv. by bsplit.
  - intros Hne. destruct (es_checks s); [done|]. res_inv. eauto.
  - exists o, a0. eauto.
Qed.

(** Steps that ran, and how the run ended. *)
Definition ended (n : nat) (r : Res unit) (log : Log) : Prop :=
  exists done rest, log = done ++ rest /\ Forall (fun x => x.2 = Ret tt) done /\
    match r with
    | Ret _ => rest = [] /\ length done = n
    | _ => (rest = [] \/ exists call, rest = [(call, r)]) /\ (length done < n)%nat
    end.

Lemma ended_cons n r call log : ended n r log -> ended (S n) r ((call, Ret tt) :: log).
Proof using.
  intros (done & rest & -> & Hd & Hr). exists ((call, Ret tt) :: done), rest. split; [done|]. split; [by constructor|].
  destruct r; cbn [length]; [|destruct Hr; split; [done|lia]..]. destruct Hr. split; [done|lia].
Qed.
Lemma ended_now n r : r <> Ret tt -> ended (S n) r [].
Proof using. intros Hr. exists [], []. split; [done|]. split; [done|]. destruct r as [[]|e|w]; [done|split; [by left|cbn; lia]..]. Qed.
Lemma ended_call n r call : r <> Ret tt -> ended (S n) r [(call, r)].
Proof using. intros Hr. exists [], [(call, r)]. split; [done|]. split; [done|]. destruct r as [[]|e|w]; [done|split; [eauto|cbn; lia]..]. Qed.

Lemma run_steps_calls m b aliases steps : forall i mem log r mem' log',
  @run_steps _ logged m i steps b aliases (mem, log) = (r, (mem', log')) ->
  exists calls, log' = log ++ calls /\ ended (length steps) r calls /\
    forall j call, calls.*1 !! j = Some call -> exists s, steps !! j = Some s /\ admitted m b aliases (i + j) s call.
Proof using.
  induction steps as [|s steps IH]; intros i mem log r mem' log' H.
  { injection H as <- <- <-. exists []. rewrite app_nil_r. split; [done|]. split; [by exists [], []|done]. }
  cbn [run_steps] in H. unfold mbind, exec_mbind, exec_bind in H.
  destruct (@RunStep _ logged m i s b aliases (mem, log)) as [r1 [m1 log1]] eqn:E1. apply RunStep_calls in E1.
  assert (r1 <> Ret tt -> r = r1 /\ log' = log1) as Hstop by (destruct r1 as [[]|e|w]; intros ?; [done|by injection H..]).
  destruct E1 as [[-> Hr]|(call & -> & Ha)].
  { destruct (Hstop Hr) as [-> ->]. exists []. rewrite app_nil_r. split_and!; [done|by apply ended_now|done]. }
  assert (forall j x, [call] !! j = Some x -> exists s', (s :: steps) !! j = Some s' /\ admitted m b aliases (i + j) s' x) as Hone.
  { intros [|j] x Hx; [injection Hx as <-; exists s; by rewrite Nat.add_0_r|done]. }
  destruct (decide (r1 = Ret tt)) as [->|Hr].
  - apply IH in H as (calls & -> & Hend & Hc). exists ((call, Ret tt) :: calls). rewrite <- app_assoc. split; [done|]. split; [by apply ended_cons|].
    intros [|j] x Hx; [by apply (Hone 0%nat)|]. destruct (Hc j x Hx) as (s' & Hs' & Had). exists s'. by rewrite Nat.add_succ_r.
  - destruct (Hstop Hr) as [-> ->]. exists [(call, r1)]. split_and!; [done|by apply ended_call|exact Hone].
Qed.
End Logged.


(** The calls of an executed plan are those of the nodes it was built from. *)
Lemma calls_of_nodes `{Kernels Mem} registry backend_of model nodes aliases trusted st p st' m b mem r mem' log :
  static_registry = Ret registry ->
  BuildExecutionPlan registry backend_of model nodes aliases trusted st = (Ret p, st') ->
  @Execute _ logged m p b (mem, []) = (r, (mem', log)) ->
  exists layout ws, PlanWorkspaceRequirements (ns_workspace <$> nodes) = (Ret layout, ws) /\
    forall j call, log.*1 !! j = Some call -> exists n w s, nodes !! j = Some n /\ ws !! j = Some w /\
      step_of model n w s /\ admitted m b aliases j s call.
Proof.
  intros Hreg Hb He. destruct (BuildExecutionPlan_inv _ _ Hreg _ _ _ _ _ _ _ Hb) as (layout & ws & Hp & Ha & Hf).
  exists layout, ws. split; [done|]. intros j call Hj.
  apply run_steps_calls in He as (calls & -> & _ & Hc). destruct (Hc j call Hj) as (s & Hs & Had).
  destruct (Forall2_lookup_r _ _ _ _ _ Hf Hs) as ([n w] & Hn & Hst & _). apply lookup_zip_Some in Hn as [? ?].
  exists n, w, s. by rewrite <- Ha.
Qed.

(** In a plan built from a lowered graph, the kernel of a cache update is called only
    when the bindings hold a valid view of a live cache slot, and a call at position [j] is
    always the kernel of the [j]-th lowered step's operator, whatever the kernels do. *)
Theorem cache_update_needs_view `{AliasSort} `{Kernels Mem} registry backend_of model g cfg l st p st' m b mem r mem' log :
  static_registry = Ret registry -> LowerModelGraph g cfg = Ret l ->
  BuildFromLowered registry backend_of model l st = (Ret p, st') ->
  @Execute _ logged m p b (mem, []) = (r, (mem', log)) ->
  forall j call, log.*1 !! j = Some call -> exists n o, steps l !! j = Some n /\
    rk_op (GetResolvedKernel o) = ns_op n /\ rk_fn (GetResolvedKernel o) = Some call.1 /\
    kc_device call.2 = ns_device n /\
    (ns_op n = OpType.kKVCacheUpdate -> HasKVCacheView m b = true).
Proof.
  intros Hreg Hl Hb He j call Hj. unfold BuildFromLowered in Hb.
  apply exec_bind_inv in Hb as (aliases & st1 & Ha & Hb). apply lift_inv in Ha as [Ha ->].
  destruct (calls_of_nodes _ _ _ _ _ _ _ _ _ _ _ _ _ _ _ Hreg Hb He) as (layout & ws & _ & Hc).
  destruct (Hc j call Hj) as (n & w & s & Hn & _ & Hs & [Hal _ (o & wb & Ho & Hfn & _ & Hctx)]).
  destruct (so_kernel _ _ _ _ Hs) as (o' & Ho' & Hop & _). rewrite Ho in Ho'. injection Ho' as <-.
  exists n, o. split_and!; [done|done|done| |].
  - pose proof (so_selector _ _ _ _ Hs) as Hsel. by destruct Hctx as [-> | [q ->]]; cbn; rewrite Hsel.
  - intros Hk. apply Hal. destruct (ResolveStateAliases_outcome g cfg l Hl) as (plan & E & Hsort & Hperm).
    rewrite Ha in E. injection E as <-. intros Hnil. apply (f_equal length) in Hnil. revert Hnil.
    rewrite ForStep_filter, Hperm by done. pose proof (resolved_from_step (steps l) 0 j) as Hf.
    cbn [Nat.add] in Hf. rewrite Hf, Hn. cbn. unfold resolved_of. by rewrite decide_True.
Qed.

(** The workspaces kernels receive never overlap. Whatever requirements the nodes of a
    plan state, when it runs on an arena with the planned size and alignment, two kernel
    calls that get non-empty workspace get disjoint pieces of the arena. *)
Theorem kernel_workspaces_disjoint `{Kernels Mem} registry backend_of model nodes st p st' m b arena layout ws mem r mem' log :
  static_registry = Ret registry -> Forall req_range (ns_workspace <$> nodes) ->
  BuildFromNodes registry backend_of model nodes st = (Ret p, st') ->
  PlanWorkspaceRequirements (ns_workspace <$> nodes) = (Ret layout, ws) ->
  workspace_arena_ b = Some (Bind arena) ->
  0 < base_ arena -> base_ arena mod required_alignment layout = 0 -> total_bytes layout <= size_ arena ->
  in_u 64 (size_ arena) ->
  @Execute _ logged m p b (mem, []) = (r, (mem', log)) ->
  forall i j ci cj, (i < j)%nat -> log.*1 !! i = Some ci -> log.*1 !! j = Some cj ->
    let bi := kc_binding ci.2 in let bj := kc_binding cj.2 in
    ws_size bi <> 0 -> ws_size bj <> 0 ->
    base_ arena <= ws_data bi /\ ws_data bi + ws_size bi <= ws_data bj /\
    ws_data bj + ws_size bj <= base_ arena + size_ arena.
Proof.
  intros Hreg Hr Hb Hp Har Hbase Hal Hsz Hu He i j ci cj Hij Hi Hj.
  destruct (calls_of_nodes _ _ _ _ _ _ _ _ _ _ _ _ _ _ _ Hreg Hb He) as (layout' & ws' & Hp' & Hc).
  rewrite Hp in Hp'. injection Hp' as <- <-.
  destruct (planned_binds _ _ _ _ Hr Hp Hbase Hal Hsz Hu) as (Hbind & Hin & Hdis).
  assert (forall k c, log.*1 !! k = Some c -> exists w, ws !! k = Some w /\ w ∈ ws /\
    kc_binding c.2 = if ws_bytes w =? 0 then null_binding else mkBinding (base_ arena + ws_offset w) (ws_bytes w)) as Hw.
  { intros k c Hk. destruct (Hc k c Hk) as (n & w & s & _ & Hw & Hs & [_ _ (o & wb & _ & _ & Hbw & Hctx)]).
    exists w. apply list_elem_of_lookup_2 in Hw as Hel. split_and!; [done|done|].
    rewrite Har, (so_workspace _ _ _ _ Hs), (Hbind _ Hel) in Hbw. injection Hbw as Hbw. rewrite Hbw.
    by destruct Hctx as [-> | [q ->]]. }
  destruct (Hw i ci Hi) as (wi & Hwi & Heli & Ei). destruct (Hw j cj Hj) as (wj & Hwj & Helj & Ej).
  cbv zeta. rewrite Ei, Ej.
  destruct (Z.eqb_spec (ws_bytes wi) 0) as [|Hni]; [done|]. destruct (Z.eqb_spec (ws_bytes wj) 0) as [|Hnj]; [done|].
  cbn. intros _ _. destruct (Hin wi Heli Hni) as (_ & ? & _). destruct (Hin wj Helj Hnj) as (_ & _ & ?).
  specialize (Hdis i j wi wj Hij Hwi Hwj Hni Hnj). lia.
Qed.

(** ** Witnesses *)

Module PlanExamples.
Definition kernel (o : OpType.t) (fn : nat) : KernelDescriptor :=
  mkDescriptor o (mkSelector DeviceType.kCPU DataType.Float32 DataType.Float32 WeightFormat.kPlain IsaLevel.kScalar ExecPhase.kBoth)
    (Some fn) "k" 0 None 0.
Definition kernels : KernelRegistry :=
  (Freeze false (Register (Register empty_registry (kernel OpType.kAdd 1)).2 (kernel OpType.kKVCacheUpdate 2)).2).2.

Lemma kernels_ok : registry_ok kernels.
Proof.
  apply registry_reachable_ok. unfold registry_reachable, kernels.
  assert (forall o fn, fixed (d_selector (kernel o fn))) as Hf
    by (intros; split; (split; [split; [reflexivity|split; vm_compute; split; congruence]|reflexivity])).
  eapply rtc_l; [by apply (step_Register _ (kernel OpType.kAdd 1))|].
  eapply rtc_l; [by apply (step_Register _ (kernel OpType.kKVCacheUpdate 2))|].
  eapply rtc_l; [apply (step_Freeze _ false)|]. apply rtc_refl.
Qed.

Definition backend (_ : nat) : KernelBackend := CpuBackend kernels kernels_ok.
Definition backends : BackendRegistry := mkBackends {[DeviceType.kCPU := Some 0%nat]} ∅.
Definition operators : OperatorRegistry := match static_registry with Ret r => r | _ => ∅ end.

Lemma operators_registered : static_registry = Ret operators.
Proof. reflexivity. Qed.

(** A kernel that counts its calls. *)
Definition counting : Kernels nat := {|
  invoke _ _ := fun n => (Ret tt, S n); build_params _ _ _ := Ret [] |}.

Definition plan : ExecutionPlan :=
  match (BuildFromLowered operators backend None Lowering.Examples.lowered backends).1 with
  | Ret p => p | _ => mkExecutionPlan [] [] end.

Definition tensors (ins outs : nat) : StepTensorBinding :=
  let v := mkTensorView 4096 DataType.Float32 [2; 8] [8; 1] 64 in mkStepTensors (replicate ins v) (replicate outs v).
Definition bindings : RuntimeBindingContext :=
  SetStepTensorBinding (SetStepTensorBinding (SetKVCacheView (new_bindings None) (mkView true 1)) 0 (tensors 2 1)) 1 (tensors 4 2).

(** Two additions made by a caller, each with 100 bytes of workspace. *)
Definition add_node : ExecutionPlanNodeSpec :=
  let sp := Lowering.Examples.spec_of [2; 8] in
  mkNodeSpec OpType.kAdd DeviceType.kCPU DataType.Float32 DataType.Float32 WeightFormat.kPlain IsaLevel.kScalar ExecPhase.kBoth
    (mkReq 100 64 kPerLayer true 0) [sp; sp] [sp] [] [] AddParams.
Definition caller_plan : ExecutionPlan :=
  match (BuildFromNodes operators backend None [add_node; add_node] backends).1 with
  | Ret p => p | _ => mkExecutionPlan [] [] end.
Definition arena : CpuWorkspaceArena := mkArena 4096 256.
Definition caller_bindings : RuntimeBindingContext :=
  SetStepTensorBinding (SetStepTensorBinding (new_bindings (Some (Bind arena))) 0 (tensors 2 1)) 1 (tensors 2 1).
End PlanExamples.



Lemma cache_update_needs_view_witness :
  exists n o, steps Lowering.Examples.lowered !! 1%nat = Some n /\ rk_op (GetResolvedKernel o) = ns_op n /\
    (ns_op n = OpType.kKVCacheUpdate -> HasKVCacheView kv_demo_session.2 PlanExamples.bindings = true).
Proof.
  destruct (cache_update_needs_view (H0 := PlanExamples.counting) PlanExamples.operators PlanExamples.backend None
    Lowering.Examples.graph Lowering.Examples.config Lowering.Examples.lowered PlanExamples.backends PlanExamples.plan
    (BuildFromLowered PlanExamples.operators PlanExamples.backend None Lowering.Examples.lowered PlanExamples.backends).2
    kv_demo_session.2 PlanExamples.bindings 0%nat (Ret tt) 2%nat
    [(1%nat, mkContext DeviceType.kCPU false null_binding None None [], Ret tt); (2%nat, mkContext DeviceType.kCPU false null_binding None None [], Ret tt)])
    with (j := 1%nat) (call := (2%nat, mkContext DeviceType.kCPU false null_binding None None []))
    as (n & o & H1 & H2 & _ & _ & H3); [exact PlanExamples.operators_registered|vm_compute; reflexivity..|]. eauto.
Defined.

Lemma kernel_workspaces_disjoint_witness : exists a b, 4096 <= a /\ a + 100 <= b /\ b + 100 <= 4096 + 256.
Proof.
  exists 4096, 4224. set (call a := (1%nat, mkContext DeviceType.kCPU true (mkBinding a 100) None None [])).
  apply (kernel_workspaces_disjoint (H := PlanExamples.counting) PlanExamples.operators PlanExamples.backend None
    [PlanExamples.add_node; PlanExamples.add_node] PlanExamples.backends PlanExamples.caller_plan
    (BuildFromNodes PlanExamples.operators PlanExamples.backend None [PlanExamples.add_node; PlanExamples.add_node] PlanExamples.backends).2
    new_manager PlanExamples.caller_bindings PlanExamples.arena
    (match (PlanWorkspaceRequirements [mkReq 100 64 kPerLayer true 0; mkReq 100 64 kPerLayer true 0]).1 with Ret l => l | _ => mkPlan 0 1 end)
    (PlanWorkspaceRequirements [mkReq 100 64 kPerLayer true 0; mkReq 100 64 kPerLayer true 0]).2
    0%nat (Ret tt) 2%nat [(call 4096, Ret tt); (call 4224, Ret tt)]) with (i := 0%nat) (j := 1%nat) (ci := call 4096) (cj := call 4224);
    [exact PlanExamples.operators_registered
    |change (Forall req_range [mkReq 100 64 kPerLayer true 0; mkReq 100 64 kPerLayer true 0]); repeat constructor; vm_compute; congruence
    |vm_compute; reflexivity|vm_compute; reflexivity|reflexivity|vm_compute; reflexivity|vm_compute; reflexivity
    |vm_compute; congruence|split; [|reflexivity]; vm_compute; congruence|vm_compute; reflexivity|lia|reflexivity|reflexivity|done|done].
Defined.
