(* ===== verification/AmStringSearch.v ===== *)
(** * AmStringSearch: substring search of [BasicString]

    [include/amstring/basic_string.hpp], [FindRange] and the routines it chooses between:
    a search by first letter, a hybrid that gives up after sixteen failed candidates, and
    the two-way algorithm with its critical factorization. Texts are lists of code units
    and pointers positions in them; a read outside a text is a [Panic], [npos] is [None].
    Loops that are not structural take fuel; the theorem says it is enough. *)
From S2P Require Import Prelude.

Local Open Scope nat_scope.

(** ** Traits *)

Abbreviation text := (list Z).

(* @src include/amstring/char_algorithms.hpp:59-61 CharAlgorithm::eq *)
Definition traits_eq (a b : Z) : bool := (a =? b)%Z.
(* @src include/amstring/char_algorithms.hpp:63-65 CharAlgorithm::lt *)
Definition traits_lt (a b : Z) : bool := (a <? b)%Z.

(** [Traits::find(s + from, len, ch)]: the position of the first match. *)
(* @src include/amstring/char_algorithms.hpp:39-45 CharAlgorithm::find *)
Definition traits_find (s : text) (from len : nat) (ch : Z) : Res (option nat) :=
  if length s <? from + len then Panic "read out of range"
  else Ret ((fun p => from + p.1) <$> list_find (fun c => c = ch) (take len (drop from s))).

(** [Traits::compare(a + i, b + j, len) == 0]. *)
(* @src include/amstring/char_algorithms.hpp:47-49 CharAlgorithm::compare *)
Definition traits_same (a : text) (i : nat) (b : text) (j len : nat) : Res bool :=
  if (length a <? i + len) || (length b <? j + len) then Panic "read out of range"
  else Ret (bool_decide (take len (drop i a) = take len (drop j b))).

(** ** First-letter search *)

(* @src include/amstring/basic_string.hpp:467-480 BasicString::FindRangeNaive (loop) *)
Fixpoint naive_loop (fuel : nat) (hay needle : text) (first : Z) (cur : nat) : Res (option nat) :=
  match fuel with
  | O => Panic "out of fuel"
  | S fuel =>
      if length hay - length needle <? cur then Ret None
      else
        found ← traits_find hay cur (length hay - cur - length needle + 1) first;
        match found with
        | None => Ret None
        | Some cur =>
            e ← traits_same hay cur needle 0 (length needle);
            if (e : bool) then Ret (Some cur) else naive_loop fuel hay needle first (S cur)
        end
  end.

(* @src include/amstring/basic_string.hpp:458-481 BasicString::FindRangeNaive *)
Definition FindRangeNaive (hay needle : text) (pos : nat) : Res (option nat) :=
  _ ← am_check (0 <? length needle) "needle_size > 0";
  _ ← am_check (pos <? length hay) "pos < haystack_size";
  _ ← am_check (length needle <=? length hay - pos) "needle_size <= haystack_size - pos";
  first ← vec_at needle 0;
  naive_loop (S (length hay)) hay needle first pos.

(** ** Two-way search *)

(** The order of the alphabet, or its reverse. *)
Definition suffix_cmp (reversed : bool) (lhs rhs : Z) : bool := if reversed then traits_lt rhs lhs else traits_lt lhs rhs.

(* @src include/amstring/basic_string.hpp:535-548 BasicString::MaximalSuffix (loop) *)
Fixpoint suffix_loop (fuel : nat) (needle : text) (reversed : bool) (ms j k : nat) : Res (nat * nat) :=
  match fuel with
  | O => Panic "out of fuel"
  | S fuel =>
      if negb (j <? length needle) then Ret (ms, k)
      else
        cur ← vec_at needle j;
        expected ← vec_at needle (j - k);
        if traits_eq cur expected then suffix_loop fuel needle reversed ms (S j) k
        else if suffix_cmp reversed expected cur then suffix_loop fuel needle reversed (j - k + 1) (j - k + 2) 1
        else suffix_loop fuel needle reversed ms (S j) (S j - ms)
  end.

(** Every restart moves [ms] forward, so [j] runs at most [length] times over [length]. *)
(* @src include/amstring/basic_string.hpp:524-549 BasicString::MaximalSuffix *)
Definition MaximalSuffix (needle : text) (reversed : bool) : Res (nat * nat) :=
  suffix_loop (S (length needle * S (length needle))) needle reversed 0 1 1.

(* @src include/amstring/basic_string.hpp:551-555 BasicString::CriticalFactorization *)
Definition CriticalFactorization (needle : text) : Res (nat * nat) :=
  forward ← MaximalSuffix needle false;
  reverse ← MaximalSuffix needle true;
  Ret (if reverse.1 <? forward.1 then forward else reverse).

(* @src include/amstring/basic_string.hpp:557-561 BasicString::HasPeriodAtCriticalPosition *)
Definition HasPeriodAtCriticalPosition (needle : text) (period critical_pos : nat) : Res bool :=
  if critical_pos <=? length needle - period then traits_same needle 0 needle period critical_pos else Ret false.

(** The scan to the right from [j]; [fuel] is the length of what is left. *)
(* @src include/amstring/basic_string.hpp:579-581 BasicString::FindRangeTwoWay (right scan) *)
Fixpoint scan_right (fuel : nat) (hay needle : text) (cur j : nat) : Res nat :=
  match fuel with
  | O => Ret j
  | S fuel =>
      if negb (j <? length needle) then Ret j
      else
        a ← vec_at needle j;
        b ← vec_at hay (cur + j);
        if traits_eq a b then scan_right fuel hay needle cur (S j) else Ret j
  end.

(** The scan to the left from [j] down to [low]. *)
(* @src include/amstring/basic_string.hpp:590-592 BasicString::FindRangeTwoWay (left scan) *)
Fixpoint scan_left (hay needle : text) (cur low j : nat) : Res nat :=
  match j with
  | O => Ret 0
  | S j' =>
      if negb (low <? j) then Ret j
      else
        a ← vec_at needle j';
        b ← vec_at hay (cur + j');
        if traits_eq a b then scan_left hay needle cur low j' else Ret j
  end.

(* @src include/amstring/basic_string.hpp:575-602 BasicString::FindRangeTwoWay (periodic needle) *)
Fixpoint periodic_loop (fuel : nat) (hay needle : text) (critical_pos period cur memory : nat) : Res (option nat) :=
  match fuel with
  | O => Panic "out of fuel"
  | S fuel =>
      if length hay - length needle <? cur then Ret None
      else
        let start := Nat.max critical_pos memory in
        j ← scan_right (length needle - start) hay needle cur start;
        if j <? length needle then periodic_loop fuel hay needle critical_pos period (cur + (j - critical_pos + 1)) 0
        else
          j ← scan_left hay needle cur memory critical_pos;
          if j <=? memory then Ret (Some cur)
          else periodic_loop fuel hay needle critical_pos period (cur + period) (length needle - period)
  end.

(* @src include/amstring/basic_string.hpp:605-629 BasicString::FindRangeTwoWay (other needles) *)
Fixpoint shifting_loop (fuel : nat) (hay needle : text) (critical_pos shift cur : nat) : Res (option nat) :=
  match fuel with
  | O => Panic "out of fuel"
  | S fuel =>
      if length hay - length needle <? cur then Ret None
      else
        j ← scan_right (length needle - critical_pos) hay needle cur critical_pos;
        if j <? length needle then shifting_loop fuel hay needle critical_pos shift (cur + (j - critical_pos + 1))
        else
          j ← scan_left hay needle cur 0 critical_pos;
          if j =? 0 then Ret (Some cur)
          else shifting_loop fuel hay needle critical_pos shift (cur + shift)
  end.

(** The left scan of the second loop is the first one's with nothing remembered. *)
(* @src include/amstring/basic_string.hpp:563-630 BasicString::FindRangeTwoWay *)
Definition FindRangeTwoWay (hay needle : text) (pos : nat) : Res (option nat) :=
  _ ← am_check (2 <=? length needle) "needle_size >= 2";
  _ ← am_check (pos <? length hay) "pos < haystack_size";
  _ ← am_check (length needle <=? length hay - pos) "needle_size <= haystack_size - pos";
  '(critical_pos, period) ← CriticalFactorization needle;
  periodic ← HasPeriodAtCriticalPosition needle period critical_pos;
  if (periodic : bool) then periodic_loop (S (length hay)) hay needle critical_pos period pos 0
  else shifting_loop (S (length hay)) hay needle critical_pos
         (Nat.max critical_pos (length needle - critical_pos) + 1) pos.

(** ** The choice *)

Definition kMaxNaiveCandidates : nat := 16.

(* @src include/amstring/basic_string.hpp:494-521 BasicString::FindRangeHybrid (loop) *)
Fixpoint hybrid_loop (fuel : nat) (hay needle : text) (first last : Z) (failed cur : nat) : Res (option nat) :=
  match fuel with
  | O => Panic "out of fuel"
  | S fuel =>
      let last_start := length hay - length needle in
      if last_start <? cur then Ret None
      else
        found ← traits_find hay cur (length hay - cur - length needle + 1) first;
        match found with
        | None => Ret None
        | Some cur =>
            let next :=
              let cur := S cur in let failed := S failed in
              if (failed =? kMaxNaiveCandidates) && (cur <=? last_start) then FindRangeTwoWay hay needle cur
              else hybrid_loop fuel hay needle first last failed cur in
            c ← vec_at hay (cur + length needle - 1);
            if negb (traits_eq c last) then next
            else
              e ← traits_same hay cur needle 0 (length needle);
              if (e : bool) then Ret (Some cur) else next
        end
  end.

(* @src include/amstring/basic_string.hpp:483-522 BasicString::FindRangeHybrid *)
Definition FindRangeHybrid (hay needle : text) (pos : nat) : Res (option nat) :=
  _ ← am_check (2 <=? length needle) "needle_size >= 2";
  _ ← am_check (pos <? length hay) "pos < haystack_size";
  _ ← am_check (length needle <=? length hay - pos) "needle_size <= haystack_size - pos";
  first ← vec_at needle 0;
  last ← vec_at needle (length needle - 1);
  hybrid_loop (S (length hay)) hay needle first last 0 pos.

(* @src include/amstring/basic_string.hpp:436-456 BasicString::FindRange *)
Definition FindRange (hay needle : text) (pos : nat) : Res (option nat) :=
  if length needle =? 0 then Ret (if pos <=? length hay then Some pos else None)
  else if (length hay <=? pos) || (length hay - pos <? length needle) then Ret None
  else if length needle =? 1 then c ← vec_at needle 0; traits_find hay pos (length hay - pos) c
  else if (length needle <? 8) || (length hay - pos <? 128) then FindRangeNaive hay needle pos
  else FindRangeHybrid hay needle pos.

(* @src include/amstring/basic_string.hpp:355-364 BasicString::find (character) *)
Definition find_char (hay : text) (ch : Z) (pos : nat) : Res (option nat) :=
  if length hay <=? pos then Ret None else traits_find hay pos (length hay - pos) ch.

(** ** Reference *)

Definition occurs_at (hay needle : text) (i : nat) : Prop := take (length needle) (drop i hay) = needle /\ i <= length hay.
#[global] Instance occurs_at_dec hay needle i : Decision (occurs_at hay needle i).
Proof. unfold occurs_at. apply _. Defined.

(** The first position from [pos] on where the needle occurs. *)
Definition find_reference (hay needle : text) (pos : nat) : option nat :=
  List.find (fun i => bool_decide (occurs_at hay needle i)) (seq pos (S (length hay) - pos)).

(** ** Suffixes in lexicographic order *)

Section Words.
(** A word of length [n], as a function. *)
Context (n : nat) (v : nat -> Z).

(** The suffix at [i] is less than the one at [i']. *)
Definition slt (i i' : nat) : Prop := exists q, (forall p, p < q -> v (i + p) = v (i' + p)) /\ i' + q < n /\
  (i + q = n \/ (i + q < n /\ (v (i + q) < v (i' + q))%Z)).

Definition period_from (m k : nat) : Prop := forall p, m <= p -> p + k < n -> v p = v (p + k).

(** The suffix at [m] is the greatest one. *)
Definition max_suffix (m : nat) : Prop := m < n /\ forall i, i < n -> i <> m -> slt i m.

(** [k] is the least period of the suffix at [m]. *)
Definition least_period (m k : nat) : Prop := 1 <= k <= n - m /\ period_from m k /\
  forall t, 1 <= t -> period_from m t -> k <= t \/ n - m < t.

Lemma slt_trans a b c : slt a b -> slt b c -> slt a c.
Proof using.
  intros (q & Hq & Hb & Ha) (r & Hr & Hc & Hb'). destruct (Nat.lt_trichotomy q r) as [Hlt|[->|Hlt]].
  - exists q. split; [intros p Hp; rewrite Hq, Hr by lia; done|]. split; [lia|]. rewrite <- (Hr q) by lia. lia.
  - exists r. split; [intros p Hp; rewrite Hq, Hr by lia; done|]. split; [lia|]. destruct Ha as [?|[? ?]]; [by left|].
    right. split; [done|]. destruct Hb' as [?|[? ?]]; lia.
  - exists r. split; [intros p Hp; rewrite Hq, Hr by lia; done|]. split; [lia|].
    destruct Hb' as [?|[? ?]]; [lia|]. right. split; [lia|]. by rewrite Hq.
Qed.

(** A first difference decides. *)
Lemma slt_at a b q : slt a b -> (forall p, p < q -> v (a + p) = v (b + p)) -> v (a + q) <> v (b + q) ->
  a + q < n -> b + q < n -> (v (a + q) < v (b + q))%Z.
Proof using.
  intros (r & Hr & Hb & Ha) Hq Hne Haq Hbq. destruct (Nat.lt_trichotomy q r) as [Hlt|[->|Hlt]].
  - by destruct Hne; apply Hr.
  - lia.
  - destruct Ha as [?|[? Hl]]; [lia|]. rewrite (Hq r) in Hl by lia. lia.
Qed.

(** The greatest suffix does not reappear earlier. *)
Lemma max_no_earlier m d : max_suffix m -> 1 <= d <= m -> (forall p, m <= p < n -> v p = v (p - d)) -> False.
Proof using.
  intros [Hm Hmax] Hd Heq. destruct (Hmax (m - d)) as (q & Hq & Hb & Ha); [lia..|].
  destruct Ha as [?|[? Hl]]; [lia|]. rewrite (Heq (m + q)) in Hl by lia.
  replace (m - d + q) with (m + q - d) in Hl by lia. lia.
Qed.

(** A repetition that ends in a difference goes down after the greatest suffix's start. *)
Lemma max_break m d j : max_suffix m -> 1 <= d -> m + d <= j < n ->
  (forall p, m + d <= p < j -> v p = v (p - d)) -> v j <> v (j - d) -> (v j < v (j - d))%Z.
Proof using.
  intros [Hm Hmax] Hd Hj Heq Hne. pose proof (slt_at (m + d) m (j - m - d) (Hmax (m + d) ltac:(lia) ltac:(lia))) as H.
  replace (m + d + (j - m - d)) with j in H by lia. replace (m + (j - m - d)) with (j - d) in H by lia.
  apply H; [|done|lia|lia]. intros p Hp. rewrite (Heq (m + d + p)) by lia. f_equal. lia.
Qed.
End Words.

(** ** The maximal suffix *)

(** The word in the chosen order of the alphabet. *)
Definition letter (s : text) (i : nat) : Z := default 0%Z (s !! i).
Definition signed (reversed : bool) (s : text) (i : nat) : Z := if reversed then (- letter s i)%Z else letter s i.

Section SuffixLoop.
Context (n : nat) (v : nat -> Z).

(** What is known of the part [v\[ms..j)] read so far. *)
Record suffix_inv (ms j k : nat) : Prop := {
  si_range : ms < j <= n /\ 1 <= k <= j - ms;
  si_period : forall p, ms <= p -> p + k < j -> v p = v (p + k);
  si_before : forall i, i < ms -> exists i', i < i' < n /\ slt n v i i';
  si_shift : forall t, 1 <= t <= j - ms ->
    (k <= t /\ forall p, ms <= p -> p + t < j -> v p = v (p + t)) \/
    (exists q, ms + t + q < j /\ (forall p, p < q -> v (ms + t + p) = v (ms + p)) /\ (v (ms + t + q) < v (ms + q))%Z) }.

(** Where a later border continues, the letter after the last period is no greater. *)
Lemma border_letter ms j k t : suffix_inv ms j k -> k <= t <= j - ms ->
  (forall p, ms <= p -> p + t < j -> v p = v (p + t)) -> (v (j - k) <= v (j - t))%Z.
Proof using.
  intros [Hr Hp _ Hs] Ht Hper. destruct (decide (t = k)) as [->|]; [lia|].
  assert (forall p, p < j - ms - t -> v (ms + (t - k) + p) = v (ms + p)) as Heq.
  { intros p Hp'. rewrite (Hp (ms + (t - k) + p)) by lia. rewrite (Hper (ms + p)) by lia. f_equal. lia. }
  destruct (Hs (t - k) ltac:(lia)) as [[_ Hq]|(q & Hq1 & Hq2 & Hq3)].
  - specialize (Hq (j - t) ltac:(lia) ltac:(lia)). replace (j - t + (t - k)) with (j - k) in Hq by lia. lia.
  - destruct (Nat.lt_trichotomy q (j - ms - t)) as [Hlt|[->|Hlt]].
    + rewrite Heq in Hq3 by done. lia.
    + replace (ms + (t - k) + (j - ms - t)) with (j - k) in Hq3 by lia.
      replace (ms + (j - ms - t)) with (j - t) in Hq3 by lia. lia.
    + specialize (Hq2 (j - ms - t) Hlt). replace (ms + (t - k) + (j - ms - t)) with (j - k) in Hq2 by lia.
      replace (ms + (j - ms - t)) with (j - t) in Hq2 by lia. lia.
Qed.

Lemma suffix_inv_equal ms j k : suffix_inv ms j k -> j < n -> v j = v (j - k) -> suffix_inv ms (S j) k.
Proof using.
  intros HI Hj He. pose proof HI as [Hr Hp Hb Hs]. split; [lia| |done|].
  - intros p Hp1 Hp2. destruct (decide (p + k = j)) as [E|E]; [|apply Hp; lia].
    rewrite E, He. f_equal. lia.
  - intros t Ht. assert ((k <= t <= j - ms /\ forall p, ms <= p -> p + t < j -> v p = v (p + t)) \/
      (exists q, ms + t + q < j /\ (forall p, p < q -> v (ms + t + p) = v (ms + p)) /\ (v (ms + t + q) < v (ms + q))%Z) \/ t = S (j - ms))
      as [[Ht' Hper]|[(q & Hq)|Ht']].
    { destruct (decide (t = S (j - ms))); [by right; right|]. destruct (Hs t ltac:(lia)) as [[? ?]|?]; [left; split; [lia|done]|auto]. }
    + pose proof (border_letter _ _ _ _ HI Ht' Hper) as Hle. rewrite <- He in Hle.
      destruct (decide (v j = v (j - t))) as [Eq|Ne].
      * left. split; [lia|]. intros p Hp1 Hp2. destruct (decide (p + t = j)) as [E|E]; [|apply Hper; lia].
        rewrite E, Eq. f_equal. lia.
      * right. exists (j - ms - t). split; [lia|]. replace (ms + t + (j - ms - t)) with j by lia.
        replace (ms + (j - ms - t)) with (j - t) by lia. split; [|lia]. intros p Hp'.
        replace (ms + t + p) with (ms + p + t) by lia. symmetry. apply Hper; lia.
    + right. exists q. destruct Hq as (? & ? & ?). split_and!; [lia|done|done].
    + left. split; [lia|]. lia.
Qed.

Lemma suffix_inv_less ms j k : suffix_inv ms j k -> j < n -> (v j < v (j - k))%Z -> suffix_inv ms (S j) (S j - ms).
Proof using.
  intros HI Hj He. pose proof HI as [Hr Hp Hb Hs]. split; [lia|intros; lia|done|].
  intros t Ht. destruct (decide (t = S j - ms)) as [->|]; [left; split; [lia|intros; lia]|]. right.
  destruct (Hs t ltac:(lia)) as [[Hkt Hper]|(q & ? & ? & ?)]; [|exists q; split_and!; [lia|done|done]].
  pose proof (border_letter ms j k t HI ltac:(lia) Hper) as Hle.
  exists (j - ms - t). split; [lia|]. replace (ms + t + (j - ms - t)) with j by lia.
  replace (ms + (j - ms - t)) with (j - t) by lia. split; [|lia]. intros p Hp'.
  replace (ms + t + p) with (ms + p + t) by lia. symmetry. apply Hper; lia.
Qed.

Lemma suffix_inv_greater ms j k : suffix_inv ms j k -> j < n -> (v (j - k) < v j)%Z -> suffix_inv (j - k + 1) (j - k + 2) 1.
Proof using.
  intros [Hr Hp Hb Hs] Hj He. split; [lia|intros; lia| |].
  - intros i Hi. destruct (decide (i < ms)) as [?|Hge]; [by apply Hb|]. exists (i + k). split; [lia|].
    exists (j - k - i). split; [intros p Hp'; rewrite (Hp (i + p)) by lia; f_equal; lia|].
    replace (i + k + (j - k - i)) with j by lia. replace (i + (j - k - i)) with (j - k) by lia. split; [lia|]. right. lia.
  - intros t Ht. left. split; [lia|]. intros; lia.
Qed.

Lemma suffix_inv_final ms k : suffix_inv ms n k -> max_suffix n v ms /\ least_period n v ms k.
Proof using.
  intros [Hr Hp Hb Hs].
  assert (forall i, ms < i < n -> slt n v i ms) as Hafter.
  { intros i Hi. destruct (Hs (i - ms) ltac:(lia)) as [[_ Hper]|(q & Hq1 & Hq2 & Hq3)].
    - exists (n - i). split; [|lia]. intros p Hp'. replace (i + p) with (ms + p + (i - ms)) by lia. symmetry. apply Hper; lia.
    - replace (ms + (i - ms)) with i in * by lia. exists q. split; [done|]. split; [lia|]. right. lia. }
  split.
  - split; [lia|]. intros i Hi Hne. destruct (decide (ms < i)); [apply Hafter; lia|].
    assert (i < ms) as Hlt by lia. clear Hne Hi. remember (ms - i) as d eqn:Hd. revert i Hlt Hd n0.
    induction (lt_wf d) as [d _ IH]. intros i Hlt -> Hn. destruct (Hb i Hlt) as (i' & Hi' & Hs').
    destruct (Nat.lt_trichotomy i' ms) as [Hl|[->|Hl]]; [|done|].
    + eapply slt_trans; [exact Hs'|]. eapply (IH (ms - i')); lia.
    + eapply slt_trans; [exact Hs'|]. apply Hafter. lia.
  - split; [lia|]. split; [exact Hp|]. intros t Ht Hper. destruct (decide (n - ms < t)); [by right|left].
    destruct (Hs t ltac:(lia)) as [[? _]|(q & Hq1 & _ & Hq3)]; [done|].
    rewrite (Hper (ms + q)) in Hq3 by lia. replace (ms + q + t) with (ms + t + q) in Hq3 by lia. lia.
Qed.
End SuffixLoop.

(** ** Shifts of the two-way search *)

Section TwoWay.
(** The needle with its critical position [c], where the greatest suffix starts; the one of
    the reversed order starts no later. The text is [h]. *)
Context (n : nat) (v h : nat -> Z) (c c' k : nat).
Hypothesis (Hmax : max_suffix n v c) (Hrev : max_suffix n (fun i => (- v i)%Z) c') (Hc : c' <= c)
  (Hk : least_period n v c k).

Definition occ (cur : nat) : Prop := forall i, i < n -> h (cur + i) = v i.

(** After a mismatch at [j] on the right no occurrence starts before [cur + (j - c) + 1]. *)
Lemma right_mismatch cur j d : c <= j < n -> (forall p, c <= p < j -> h (cur + p) = v p) -> h (cur + j) <> v j ->
  1 <= d <= j - c -> ~ occ (cur + d).
Proof using Hmax Hrev Hc Hk.
  intros Hj Hm Hne Hd Ho.
  assert (forall p, c <= p < j -> d <= p -> v p = v (p - d)) as Heq.
  { intros p Hp Hdp. rewrite <- Hm, <- (Ho (p - d)) by lia. f_equal. lia. }
  assert (v j <> v (j - d)) as Hdiff.
  { rewrite <- (Ho (j - d)) by lia. intros E. apply Hne. rewrite E. f_equal. lia. }
  pose proof (max_break n v c d j Hmax ltac:(lia) ltac:(lia) ltac:(intros; apply Heq; lia) Hdiff) as Hlt.
  destruct (decide (d <= c)) as [Hle|Hgt].
  - destruct Hmax as [_ Hmx]. pose proof (slt_at n v (c - d) c (j - c) (Hmx (c - d) ltac:(lia) ltac:(lia))) as H.
    replace (c - d + (j - c)) with (j - d) in H by lia. replace (c + (j - c)) with j in H by lia.
    enough ((v (j - d) < v j)%Z) by lia. apply H; [|done|lia|lia].
    intros p Hp. rewrite (Heq (c + p)) by lia. f_equal. lia.
  - pose proof (max_break n (fun i => (- v i)%Z) c' d j Hrev ltac:(lia) ltac:(lia)) as H. cbn beta in H.
    enough ((- v j < - v (j - d))%Z) by lia. apply H; [|lia]. intros p Hp. rewrite (Heq p) by lia. done.
Qed.

(** When the right part matches, a later overlapping occurrence needs a period of the needle
    longer than the left part. *)
Lemma right_match cur d : (forall p, c <= p < n -> h (cur + p) = v p) -> 1 <= d < n -> occ (cur + d) ->
  c < d /\ forall p, p + d < n -> v p = v (p + d).
Proof using Hmax Hrev Hc Hk.
  intros Hm Hd Ho.
  assert (forall p, c <= p < n -> d <= p -> v p = v (p - d)) as Heq.
  { intros p Hp Hdp. rewrite <- Hm, <- (Ho (p - d)) by lia. f_equal. lia. }
  assert (c < d) as Hlt.
  { destruct (decide (d <= c)) as [Hle|]; [|lia]. exfalso. eapply (max_no_earlier n v c d Hmax); [lia|]. intros; apply Heq; lia. }
  split; [done|]. intros p Hp. rewrite (Heq (p + d)) by lia. f_equal. lia.
Qed.

Lemma period_at_least d : 1 <= d < n -> (forall p, p + d < n -> v p = v (p + d)) -> k <= d.
Proof using Hmax Hrev Hc Hk.
  intros Hd Hp. destruct Hk as (Hr & _ & Hleast).
  destruct (Hleast d ltac:(lia)) as [?|?]; [intros p _; apply Hp|done|lia].
Qed.

Lemma period_mult m p q : c <= p -> q = p + m * k -> q < n -> v p = v q.
Proof using Hmax Hrev Hc Hk.
  intros Hp. revert q. induction m as [|m IH]; intros q -> Hq; [f_equal; lia|].
  destruct Hk as (_ & Hper & _). rewrite (IH (p + m * k)) by lia. rewrite Hper by lia. f_equal. lia.
Qed.

(** A period no longer than the right part is a multiple of the least period there. *)
Lemma period_divides d : c < d < n -> d <= n - c -> (forall p, p + d < n -> v p = v (p + d)) -> exists m, d = m * k.
Proof using Hmax Hrev Hc Hk.
  intros Hd Hdc Hp. pose proof Hk as (Hkr & Hper & Hleast). pose proof Hmax as [Hcn Hmx]. pose proof Hrev as [_ Hmx'].
  destruct (decide (d mod k = 0)) as [E|E].
  { exists (d / k). rewrite (Nat.div_mod_eq d k) at 1. lia. }
  exfalso. assert (exists m r, d = m * k + r /\ 1 <= r < k) as (m & r & Hdm & Hr).
  { exists (d / k), (d mod k). pose proof (Nat.mod_upper_bound d k). pose proof (Nat.div_mod_eq d k). lia. }
  clear E.
  assert (k <= d) as Hkd by (apply period_at_least; [lia|done]).
  (* the first [r] letters of the right part end with the left part, or with its end *)
  assert (forall i, i < c -> i < r -> v (c - 1 - i) = v (c + r - 1 - i)) as Hend.
  { intros i Hi Hir. rewrite (Hp (c - 1 - i)) by lia. symmetry. apply (period_mult m); lia. }
  assert (~ period_from n v c r) as Hnp by (intros Hpr; destruct (Hleast r ltac:(lia) Hpr); lia).
  assert (exists q, c + r + q < n /\ (forall p, p < q -> v (c + r + p) = v (c + p)) /\ (v (c + r + q) < v (c + q))%Z)
    as (q & Hq1 & Hq2 & Hq3).
  { destruct (Hmx (c + r) ltac:(lia) ltac:(lia)) as (q & Ha & Hb & [Hl|[Hl1 Hl2]]).
    - destruct Hnp. intros p Hp1 Hp2. specialize (Ha (p - c) ltac:(lia)).
      replace (c + r + (p - c)) with (p + r) in Ha by lia. replace (c + (p - c)) with p in Ha by lia. done.
    - by exists q. }
  destruct (decide (r <= c)) as [Hle|Hgt].
  - (* prefixing the first [r] letters to the greatest suffix gives a greater one *)
    pose proof (slt_at n v (c - r) c (r + q) (Hmx (c - r) ltac:(lia) ltac:(lia))) as H.
    replace (c - r + (r + q)) with (c + q) in H by lia. replace (c + (r + q)) with (c + r + q) in H by lia.
    enough ((v (c + q) < v (c + r + q))%Z) by lia. apply H; [|lia|lia|lia]. intros p Hpq.
    destruct (decide (p < r)) as [Hlt|Hge].
    + specialize (Hend (r - 1 - p) ltac:(lia) ltac:(lia)). replace (c - 1 - (r - 1 - p)) with (c - r + p) in Hend by lia.
      by replace (c + r - 1 - (r - 1 - p)) with (c + p) in Hend by lia.
    + replace (c - r + p) with (c + (p - r)) by lia. rewrite <- Hq2 by lia. f_equal. lia.
  - (* the greatest suffix of the reversed order also starts like the part after them *)
    pose proof (slt_at n (fun i => (- v i)%Z) (c' + r) c' (c - c' + q) (Hmx' (c' + r) ltac:(lia) ltac:(lia))) as H.
    replace (c' + r + (c - c' + q)) with (c + r + q) in H by lia. replace (c' + (c - c' + q)) with (c + q) in H by lia.
    cbn beta in H. enough ((- v (c + r + q) < - v (c + q))%Z) by lia. apply H; [|lia|lia|lia]. intros p Hpq. f_equal.
    destruct (decide (p < c - c')) as [Hlt|Hge].
    + specialize (Hend (c - c' - 1 - p) ltac:(lia) ltac:(lia)). replace (c - 1 - (c - c' - 1 - p)) with (c' + p) in Hend by lia.
      replace (c + r - 1 - (c - c' - 1 - p)) with (c' + r + p) in Hend by lia. done.
    + replace (c' + r + p) with (c + r + (p - (c - c'))) by lia. rewrite Hq2 by lia. f_equal. lia.
Qed.

(** The test for a periodic needle fails only when every period is longer than both parts. *)
Lemma period_test d : c < d <= n - c -> (forall p, p + d < n -> v p = v (p + d)) ->
  c <= n - k /\ forall i, i < c -> v i = v (i + k).
Proof using Hmax Hrev Hc Hk.
  intros Hd Hp. pose proof Hk as (Hkr & Hper & _). destruct (decide (c = 0)) as [->|]; [split; lia|].
  destruct (period_divides d ltac:(lia) ltac:(lia) Hp) as [m Hm].
  assert (k <= d) by (apply period_at_least; [lia|done]). split; [lia|]. intros i Hi.
  destruct (decide (i + k + d < n)) as [Hlt|Hge].
  - rewrite (Hp (i + k)), (Hp i) by lia. rewrite (Hper (i + d)) by lia. f_equal. lia.
  - rewrite (Hp i) by lia. symmetry. destruct m as [|m]; [lia|]. apply (period_mult m); nia.
Qed.

(** A needle that passes the test has [k] as its period, longer than the left part. *)
Lemma period_global : c <= n - k -> (forall i, i < c -> v i = v (i + k)) ->
  (forall p, p + k < n -> v p = v (p + k)) /\ c < k.
Proof using Hmax Hrev Hc Hk.
  intros Hck Hi. pose proof Hk as (Hkr & Hper & _).
  assert (forall p, p + k < n -> v p = v (p + k)) as Hg.
  { intros p Hp. destruct (decide (p < c)); [by apply Hi|apply Hper; lia]. }
  split; [done|]. destruct (decide (k <= c)) as [Hle|]; [|lia]. exfalso.
  eapply (max_no_earlier n v c k Hmax); [lia|]. intros p Hp. rewrite (Hg (p - k)) by lia. f_equal. lia.
Qed.
End TwoWay.

(** ** Reading texts *)

Lemma vec_letter s i : i < length s -> vec_at s i = Ret (letter s i).
Proof. intros H. unfold vec_at, letter. by destruct (lookup_lt_is_Some_2 s i H) as [x ->]. Qed.

Lemma letter_take_drop s i len p : p < len -> letter (take len (drop i s)) p = letter s (i + p).
Proof. intros H. unfold letter. by rewrite lookup_take_lt, lookup_drop by done. Qed.

Lemma letters_eq a b : length a = length b -> (forall p, p < length a -> letter a p = letter b p) -> a = b.
Proof.
  intros Hl He. apply (list_eq_same_length _ _ (length a)); [done|done|]. intros p x y Hp Hx Hy.
  specialize (He p Hp). unfold letter in He. by rewrite Hx, Hy in He.
Qed.

Lemma occurs_letters hay needle i : occurs_at hay needle i <->
  i + length needle <= length hay /\ forall p, p < length needle -> letter hay (i + p) = letter needle p.
Proof.
  unfold occurs_at. split.
  - intros [E Hi]. assert (i + length needle <= length hay) as Hl.
    { apply (f_equal length) in E. rewrite length_take, length_drop in E. lia. }
    split; [done|]. intros p Hp. rewrite <- (letter_take_drop hay i (length needle)) by done. by rewrite E.
  - intros [Hl He]. split; [|lia]. apply letters_eq; rewrite length_take, length_drop; [lia|].
    intros p Hp. rewrite letter_take_drop by lia. apply He. lia.
Qed.

Lemma traits_same_spec a i b j len : i + len <= length a -> j + len <= length b ->
  exists e, traits_same a i b j len = Ret e /\ (e = true <-> forall p, p < len -> letter a (i + p) = letter b (j + p)).
Proof.
  intros Ha Hb. unfold traits_same. rewrite (proj2 (Nat.ltb_ge (length a) _)), (proj2 (Nat.ltb_ge (length b) _)) by done.
  eexists. split; [done|]. rewrite bool_decide_eq_true. split.
  - intros E p Hp. by rewrite <- (letter_take_drop a i len), <- (letter_take_drop b j len), E.
  - intros E. apply letters_eq; rewrite !length_take, !length_drop; [lia|].
    intros p Hp. rewrite !letter_take_drop by lia. apply E. lia.
Qed.

Lemma traits_find_spec s from len ch : from + len <= length s ->
  exists r, traits_find s from len ch = Ret r /\
    match r with
    | Some i => from <= i < from + len /\ letter s i = ch /\ forall p, from <= p < i -> letter s p <> ch
    | None => forall p, from <= p < from + len -> letter s p <> ch
    end.
Proof.
  intros Hl. unfold traits_find. rewrite (proj2 (Nat.ltb_ge _ _)) by done. eexists. split; [done|].
  assert (forall p, p < len -> take len (drop from s) !! p = Some (letter s (from + p))) as Hget.
  { intros p Hp. rewrite lookup_take_lt, lookup_drop by done. unfold letter.
    by destruct (lookup_lt_is_Some_2 s (from + p) ltac:(lia)) as [x ->]. }
  destruct (list_find _ _) as [[i x]|] eqn:E; cbn.
  - apply list_find_Some in E as (Hi & -> & Hb). pose proof (lookup_lt_Some _ _ _ Hi) as Hlt. rewrite length_take in Hlt.
    rewrite Hget in Hi by lia. injection Hi as Hi. split; [lia|]. split; [done|]. intros p Hp Hch.
    apply (Hb (p - from) (letter s p)); [|lia|done]. rewrite Hget by lia. f_equal. f_equal. lia.
  - apply list_find_None in E. intros p Hp Hch. rewrite Forall_lookup in E.
    apply (E (p - from) (letter s p)); [|done]. rewrite Hget by lia. f_equal. f_equal. lia.
Qed.

(** ** Results of a search *)

Definition first_from (hay needle : text) (pos : nat) (r : option nat) : Prop :=
  match r with
  | Some i => pos <= i /\ occurs_at hay needle i /\ forall p, pos <= p < i -> ~ occurs_at hay needle p
  | None => forall p, pos <= p -> ~ occurs_at hay needle p
  end.

Lemma first_from_later hay needle pos cur r : pos <= cur -> (forall p, pos <= p < cur -> ~ occurs_at hay needle p) ->
  first_from hay needle cur r -> first_from hay needle pos r.
Proof.
  intros Hp Hn. destruct r as [i|]; cbn.
  - intros (Hi & Ho & Hb). split; [lia|]. split; [done|]. intros p Hpi. destruct (decide (p < cur)); [apply Hn; lia|apply Hb; lia].
  - intros Hb p Hpp. destruct (decide (p < cur)); [apply Hn; lia|apply Hb; lia].
Qed.

Lemma first_from_end hay needle cur : length hay - length needle < cur -> length needle <= length hay -> first_from hay needle cur None.
Proof. intros Hc Hl p Hp Ho. apply occurs_letters in Ho as [? _]. lia. Qed.

Lemma find_seq_first (f : nat -> bool) len : forall a,
  match List.find f (seq a len) with
  | Some i => a <= i < a + len /\ f i = true /\ forall p, a <= p < i -> f p = false
  | None => forall p, a <= p < a + len -> f p = false
  end.
Proof.
  induction len as [|len IH]; intros a; cbn; [intros; lia|]. destruct (f a) eqn:E; [split_and!; [lia..|done|intros; lia]|].
  specialize (IH (S a)). destruct (List.find f (seq (S a) len)) as [i|].
  - destruct IH as (? & ? & Hb). split_and!; [lia..|done|]. intros p Hp. destruct (decide (p = a)) as [->|]; [done|apply Hb; lia].
  - intros p Hp. destruct (decide (p = a)) as [->|]; [done|apply IH; lia].
Qed.

Lemma first_from_reference hay needle pos r : first_from hay needle pos r -> r = find_reference hay needle pos.
Proof.
  intros H. unfold find_reference. pose proof (find_seq_first (fun i => bool_decide (occurs_at hay needle i)) (S (length hay) - pos) pos) as Hf.
  destruct (List.find _ _) as [i|].
  - destruct Hf as (Hi & Ho & Hb). apply bool_decide_eq_true in Ho.
    destruct r as [i'|]; [|by destruct (H i ltac:(lia))]. destruct H as (Hp & Ho' & Hb'). f_equal.
    destruct (Nat.lt_trichotomy i i') as [Hlt|[->|Hlt]]; [by destruct (Hb' i ltac:(lia))|done|].
    specialize (Hb i' ltac:(lia)). by rewrite bool_decide_true in Hb.
  - destruct r as [i|]; [|done]. destruct H as (Hp & Ho & _). assert (i <= length hay) by (by destruct Ho).
    specialize (Hf i ltac:(lia)). by rewrite bool_decide_true in Hf.
Qed.

(** ** The loops *)

Lemma suffix_loop_spec s r fuel : forall ms j k, suffix_inv (length s) (signed r s) ms j k ->
  (length s - ms) * length s + (length s - j) < fuel ->
  exists m p, suffix_loop fuel s r ms j k = Ret (m, p) /\ max_suffix (length s) (signed r s) m /\ least_period (length s) (signed r s) m p.
Proof.
  induction fuel as [|fuel IH]; intros ms j k HI Hfuel; [nia|]. cbn [suffix_loop].
  pose proof (si_range _ _ _ _ _ HI) as Hr. destruct (Nat.ltb_spec j (length s)) as [Hj|Hj]; cbn [negb].
  - rewrite (vec_letter s j), (vec_letter s (j - k)) by lia. cbn [mbind res_mbind res_bind].
    unfold traits_eq. destruct (Z.eqb_spec (letter s j) (letter s (j - k))) as [E|E].
    { apply IH; [|nia]. apply suffix_inv_equal; [done|done|]. unfold signed. destruct r; lia. }
    destruct (suffix_cmp r (letter s (j - k)) (letter s j)) eqn:Ec.
    + apply IH; [|nia]. apply (suffix_inv_greater _ _ ms); [done|done|].
      unfold suffix_cmp, traits_lt, signed in *. destruct r; lia.
    + apply IH; [|nia]. apply (suffix_inv_less _ _ ms j k); [done|done|].
      unfold suffix_cmp, traits_lt, signed in *. destruct r; lia.
  - assert (j = length s) as -> by lia. exists ms, k. split; [done|]. by apply suffix_inv_final.
Qed.

Lemma MaximalSuffix_spec s r : 1 <= length s ->
  exists m p, MaximalSuffix s r = Ret (m, p) /\ max_suffix (length s) (signed r s) m /\ least_period (length s) (signed r s) m p.
Proof.
  intros Hs. apply suffix_loop_spec; [|nia]. split; [lia|intros; lia|intros; lia|].
  intros t Ht. left. split; [lia|intros; lia].
Qed.

Lemma max_suffix_ext n v w m : (forall i, v i = w i) -> max_suffix n v m -> max_suffix n w m.
Proof.
  intros E [Hm Hx]. split; [done|]. intros i Hi Hne. destruct (Hx i Hi Hne) as (q & H1 & H2 & H3).
  exists q. rewrite <- !E. split; [intros p Hp; rewrite <- !E; by apply H1|done].
Qed.

Lemma CriticalFactorization_spec s : 1 <= length s ->
  exists r c k c', CriticalFactorization s = Ret (c, k) /\ max_suffix (length s) (signed r s) c /\
    max_suffix (length s) (fun i => (- signed r s i)%Z) c' /\ c' <= c /\ least_period (length s) (signed r s) c k.
Proof.
  intros Hs. unfold CriticalFactorization.
  destruct (MaximalSuffix_spec s false Hs) as (m1 & p1 & -> & H1 & Q1).
  destruct (MaximalSuffix_spec s true Hs) as (m2 & p2 & -> & H2 & Q2). cbn [mbind res_mbind res_bind fst].
  destruct (Nat.ltb_spec m2 m1); [exists false, m1, p1, m2|exists true, m2, p2, m1]; split_and!; try done; try lia.
  eapply max_suffix_ext; [|exact H1]. intros i. unfold signed. lia.
Qed.

Lemma scan_right_spec hay needle cur : cur + length needle <= length hay -> forall fuel j, fuel = length needle - j -> j <= length needle ->
  exists i, scan_right fuel hay needle cur j = Ret i /\ j <= i <= length needle /\
    (forall p, j <= p < i -> letter hay (cur + p) = letter needle p) /\
    (i < length needle -> letter hay (cur + i) <> letter needle i).
Proof.
  intros Hl fuel. induction fuel as [|fuel IH]; intros j Hf Hj; cbn [scan_right].
  { exists j. split_and!; [done|lia|lia|intros; lia|lia]. }
  rewrite (proj2 (Nat.ltb_lt _ _)) by lia. cbn [negb]. rewrite (vec_letter needle j), (vec_letter hay (cur + j)) by lia.
  cbn [mbind res_mbind res_bind]. unfold traits_eq. destruct (Z.eqb_spec (letter needle j) (letter hay (cur + j))) as [E|E].
  - destruct (IH (S j) ltac:(lia) ltac:(lia)) as (i & -> & Hi & He & Hn). exists i. split_and!; [done|lia|lia| |done].
    intros p Hp. destruct (decide (p = j)) as [->|]; [done|apply He; lia].
  - exists j. split_and!; [done|lia|lia|intros; lia|intros _ E'; by apply E].
Qed.

Lemma scan_left_spec hay needle cur low : cur + length needle <= length hay -> forall j, j <= length needle ->
  exists i, scan_left hay needle cur low j = Ret i /\ i <= j /\
    (forall p, i <= p < j -> letter hay (cur + p) = letter needle p) /\
    (low < i -> exists p, low <= p < j /\ letter hay (cur + p) <> letter needle p).
Proof.
  intros Hl j. induction j as [|j IH]; intros Hj; cbn [scan_left]; [exists 0; split_and!; [done|lia|intros; lia|lia]|].
  destruct (Nat.ltb_spec low (S j)) as [Hlt|Hge]; cbn [negb]; [|exists (S j); split_and!; [done|lia|intros; lia|lia]].
  rewrite (vec_letter needle j), (vec_letter hay (cur + j)) by lia.
  cbn [mbind res_mbind res_bind]. unfold traits_eq. destruct (Z.eqb_spec (letter needle j) (letter hay (cur + j))) as [E|E].
  - destruct (IH ltac:(lia)) as (i & -> & Hi & He & Hn). exists i. split_and!; [done|lia| |].
    + intros p Hp. destruct (decide (p = j)) as [->|]; [done|apply He; lia].
    + intros Hi'. destruct (Hn Hi') as (p & ? & ?). exists p. split; [lia|done].
  - exists (S j). split_and!; [done|lia|intros; lia|]. intros _. exists j. split; [lia|intros E'; by apply E].
Qed.

Lemma signed_eq r (a b : text) i j : signed r a i = signed r b j <-> letter a i = letter b j.
Proof. unfold signed. destruct r; lia. Qed.

Section Search.
Context (hay needle : text) (r : bool) (c k c' : nat).
Hypothesis (Hlen : length needle <= length hay) (Hmax : max_suffix (length needle) (signed r needle) c)
  (Hrev : max_suffix (length needle) (fun i => (- signed r needle i)%Z) c') (Hc : c' <= c)
  (Hk : least_period (length needle) (signed r needle) c k).
Abbreviation nn := (length needle).
Abbreviation occ_at := (occ (length needle) (signed r needle) (signed r hay)).

Lemma occurs_occ i : occurs_at hay needle i -> occ_at i.
Proof using. rewrite occurs_letters. intros [_ H] p Hp. by apply signed_eq, H. Qed.

Lemma no_occurrence_mismatch cur j : c <= j < nn -> (forall p, c <= p < j -> letter hay (cur + p) = letter needle p) ->
  letter hay (cur + j) <> letter needle j -> forall p, cur <= p < cur + (j - c + 1) -> ~ occurs_at hay needle p.
Proof using All.
  intros Hj Hm Hne p Hp Ho. destruct (decide (p = cur)) as [->|].
  { apply occurs_letters in Ho as [_ Ho]. apply Hne, Ho. lia. }
  apply occurs_occ in Ho. replace p with (cur + (p - cur)) in Ho by lia. revert Ho.
  apply (right_mismatch nn (signed r needle) (signed r hay) c c' k Hmax Hrev Hc Hk cur j); [done| |by rewrite signed_eq|lia].
  intros q Hq. by apply signed_eq, Hm.
Qed.

Lemma no_occurrence_shift cur s : (forall p, c <= p < nn -> letter hay (cur + p) = letter needle p) ->
  (exists p, p < c /\ letter hay (cur + p) <> letter needle p) ->
  (forall d, 1 <= d < s -> d < nn /\ ((forall p, p + d < nn -> signed r needle p = signed r needle (p + d)) -> c < d -> False)) ->
  forall p, cur <= p < cur + s -> ~ occurs_at hay needle p.
Proof using All.
  intros Hm (q & Hq & Hne) Hd p Hp Ho. destruct (decide (p = cur)) as [->|].
  { apply occurs_letters in Ho as [_ Ho]. apply Hne, Ho. destruct Hmax. lia. }
  apply occurs_occ in Ho. replace p with (cur + (p - cur)) in Ho by lia.
  destruct (Hd (p - cur) ltac:(lia)) as [Hlt Hno].
  destruct (right_match nn (signed r needle) (signed r hay) c c' k Hmax Hrev Hc Hk cur (p - cur)) as [Hcd Hper]; [|lia|done|by apply Hno].
  intros i Hi. by apply signed_eq, Hm.
Qed.

(** The periodic loop, with the first [memory] letters at [cur] known to match. *)
Lemma periodic_loop_spec : c <= nn - k -> (forall i, i < c -> letter needle i = letter needle (i + k)) ->
  forall fuel cur memory, length hay - cur < fuel -> memory < nn ->
  (forall p, p < memory -> letter hay (cur + p) = letter needle p) ->
  exists res, periodic_loop fuel hay needle c k cur memory = Ret res /\ first_from hay needle cur res.
Proof using All.
  intros Hck Htest. pose proof Hk as (Hkr & _). pose proof Hmax as [Hcn _].
  destruct (period_global nn (signed r needle) c c' k Hmax Hrev Hc Hk Hck) as [Hglob Hlt].
  { intros i Hi. by apply signed_eq, Htest. }
  intros fuel. induction fuel as [|fuel IH]; intros cur memory Hf Hmem Hpre; [lia|]. cbn [periodic_loop].
  destruct (Nat.ltb_spec (length hay - nn) cur) as [Hend|Hin]; [eexists; split; [done|by apply first_from_end]|].
  destruct (scan_right_spec hay needle cur ltac:(lia) (nn - Nat.max c memory) (Nat.max c memory)) as (j & -> & Hj & Heq & Hne); [done|lia|].
  cbn [mbind res_mbind res_bind].
  assert (forall p, c <= p < j -> letter hay (cur + p) = letter needle p) as Hright.
  { intros p Hp. destruct (decide (p < memory)); [by apply Hpre|apply Heq; lia]. }
  destruct (Nat.ltb_spec j nn) as [Hjn|Hjn].
  { destruct (IH (cur + (j - c + 1)) 0) as (res & -> & Hres); [lia|lia|intros; lia|]. exists res. split; [done|].
    eapply first_from_later; [| |exact Hres]; [lia|]. apply no_occurrence_mismatch; [lia|done|by apply Hne]. }
  destruct (scan_left_spec hay needle cur memory ltac:(lia) c ltac:(lia)) as (i & -> & Hi & Hle & Hbad).
  cbn [mbind res_mbind res_bind]. destruct (Nat.leb_spec i memory) as [Him|Him].
  { exists (Some cur). split; [done|]. cbn. split; [lia|]. split; [|intros; lia]. apply occurs_letters. split; [lia|].
    intros p Hp. destruct (decide (p < memory)); [by apply Hpre|]. destruct (decide (p < c)); [apply Hle; lia|apply Hright; lia]. }
  destruct (IH (cur + k) (nn - k)) as (res & -> & Hres); [lia|lia| |].
  { intros p Hp. replace (cur + k + p) with (cur + (p + k)) by lia. rewrite Hright by lia. symmetry.
    apply (signed_eq r), Hglob. lia. }
  exists res. split; [done|]. eapply first_from_later; [| |exact Hres]; [lia|].
  apply no_occurrence_shift; [intros; apply Hright; lia|destruct (Hbad Him) as (p & ? & ?); exists p; split; [lia|done]|].
  intros d Hd. split; [lia|]. intros Hper _.
  pose proof (period_at_least nn (signed r needle) c c' k Hmax Hrev Hc Hk d ltac:(lia) Hper). lia.
Qed.

Lemma shifting_loop_spec : ~ (c <= nn - k /\ forall i, i < c -> letter needle i = letter needle (i + k)) ->
  forall fuel cur, length hay - cur < fuel ->
  exists res, shifting_loop fuel hay needle c (Nat.max c (nn - c) + 1) cur = Ret res /\ first_from hay needle cur res.
Proof using All.
  intros Htest. pose proof Hk as (Hkr & _). pose proof Hmax as [Hcn _].
  assert (1 <= c) as Hc1 by (destruct (decide (c = 0)) as [E|]; [destruct Htest; split; intros; lia|lia]).
  intros fuel. induction fuel as [|fuel IH]; intros cur Hf; [lia|]. cbn [shifting_loop].
  destruct (Nat.ltb_spec (length hay - nn) cur) as [Hend|Hin]; [eexists; split; [done|by apply first_from_end]|].
  destruct (scan_right_spec hay needle cur ltac:(lia) (nn - c) c) as (j & -> & Hj & Hright & Hne); [done|lia|].
  cbn [mbind res_mbind res_bind]. destruct (Nat.ltb_spec j nn) as [Hjn|Hjn].
  { destruct (IH (cur + (j - c + 1))) as (res & -> & Hres); [lia|]. exists res. split; [done|].
    eapply first_from_later; [| |exact Hres]; [lia|]. apply no_occurrence_mismatch; [lia|done|by apply Hne]. }
  destruct (scan_left_spec hay needle cur 0 ltac:(lia) c ltac:(lia)) as (i & -> & Hi & Hle & Hbad).
  cbn [mbind res_mbind res_bind]. destruct (Nat.eqb_spec i 0) as [->|Hi0].
  { exists (Some cur). split; [done|]. cbn. split; [lia|]. split; [|intros; lia]. apply occurs_letters. split; [lia|].
    intros p Hp. destruct (decide (p < c)); [apply Hle; lia|apply Hright; lia]. }
  destruct (IH (cur + (Nat.max c (nn - c) + 1))) as (res & -> & Hres); [lia|].
  exists res. split; [done|]. eapply first_from_later; [| |exact Hres]; [lia|].
  apply no_occurrence_shift; [intros; apply Hright; lia|destruct (Hbad ltac:(lia)) as (p & ? & ?); exists p; split; [lia|done]|].
  intros d Hd. split; [lia|]. intros Hper Hcd. apply Htest.
  destruct (period_test nn (signed r needle) c c' k Hmax Hrev Hc Hk d ltac:(lia) Hper) as [? Hi'].
  split; [done|]. intros q Hq. by apply (signed_eq r), Hi'.
Qed.
End Search.

Lemma HasPeriod_spec needle c k : k <= length needle -> exists e, HasPeriodAtCriticalPosition needle k c = Ret e /\
  (e = true <-> c <= length needle - k /\ forall i, i < c -> letter needle i = letter needle (i + k)).
Proof.
  intros Hk. unfold HasPeriodAtCriticalPosition. destruct (Nat.leb_spec c (length needle - k)) as [Hle|Hgt].
  - destruct (traits_same_spec needle 0 needle k c) as (e & -> & He); [lia|lia|]. exists e. split; [done|]. rewrite He.
    split; [intros H; split; [done|]|intros [_ H]]; intros i Hi; specialize (H i Hi); by rewrite (Nat.add_comm i k) in * || rewrite (Nat.add_comm k i).
  - exists false. split; [done|]. split; [done|lia].
Qed.

Lemma FindRangeTwoWay_spec hay needle pos : 2 <= length needle -> pos < length hay -> length needle <= length hay - pos ->
  exists r, FindRangeTwoWay hay needle pos = Ret r /\ first_from hay needle pos r.
Proof.
  intros Hn Hp Hl. unfold FindRangeTwoWay.
  rewrite (proj2 (Nat.leb_le _ _)), (proj2 (Nat.ltb_lt _ _)), (proj2 (Nat.leb_le _ _)) by done.
  cbn [mbind res_mbind res_bind am_check].
  destruct (CriticalFactorization_spec needle ltac:(lia)) as (r & c & k & c' & -> & Hmax & Hrev & Hc & Hk).
  cbn [mbind res_mbind res_bind]. pose proof Hk as (Hkr & _).
  destruct (HasPeriod_spec needle c k ltac:(lia)) as (e & -> & He). cbn [mbind res_mbind res_bind]. destruct e.
  - destruct He as [He _]. destruct (He eq_refl) as [H1 H2].
    eapply (periodic_loop_spec hay needle r c k c'); try done; try lia.
  - eapply (shifting_loop_spec hay needle r c k c'); try done; try lia. intros H. by apply He in H.
Qed.

(** One step of the searches by first letter: the candidates skipped are no occurrences. *)
Lemma skip_to_first hay needle cur i : 1 <= length needle -> (forall p, cur <= p < i -> letter hay p <> letter needle 0) ->
  forall p, cur <= p < i -> ~ occurs_at hay needle p.
Proof.
  intros Hn Hb p Hp Ho. apply occurs_letters in Ho as [_ Ho]. apply (Hb p Hp).
  specialize (Ho 0 ltac:(lia)). by rewrite Nat.add_0_r in Ho.
Qed.

(** The position [i] is no occurrence either, so the search goes on after it. *)
Lemma skip_candidate hay needle cur i r : cur <= i -> (forall p, cur <= p < i -> ~ occurs_at hay needle p) ->
  ~ occurs_at hay needle i -> first_from hay needle (S i) r -> first_from hay needle cur r.
Proof.
  intros Hi Hb Hn. apply first_from_later; [lia|]. intros p Hp. destruct (decide (p = i)) as [->|]; [done|apply Hb; lia].
Qed.

Lemma no_first_letter hay needle cur : 1 <= length needle -> length needle <= length hay ->
  (forall p, cur <= p < cur + (length hay - cur - length needle + 1) -> letter hay p <> letter needle 0) ->
  first_from hay needle cur None.
Proof.
  intros Hn Hl Hb p Hp Ho. pose proof Ho as Ho'. apply occurs_letters in Ho' as [? _].
  eapply (skip_to_first hay needle cur (S p)); [lia| |split; [exact Hp|]; lia|exact Ho]. intros q Hq. apply Hb. lia.
Qed.

Lemma naive_loop_spec hay needle : 1 <= length needle -> length needle <= length hay -> forall fuel cur,
  length hay - cur < fuel -> cur <= length hay ->
  exists r, naive_loop fuel hay needle (letter needle 0) cur = Ret r /\ first_from hay needle cur r.
Proof.
  intros Hn Hl fuel. induction fuel as [|fuel IH]; intros cur Hf Hcur; [lia|]. cbn [naive_loop].
  destruct (Nat.ltb_spec (length hay - length needle) cur) as [Hend|Hin]; [eexists; split; [done|by apply first_from_end]|].
  destruct (traits_find_spec hay cur (length hay - cur - length needle + 1) (letter needle 0)) as ([i|] & -> & Hr); [lia| |];
    cbn [mbind res_mbind res_bind].
  - destruct Hr as (Hi & Hlet & Hb). destruct (traits_same_spec hay i needle 0 (length needle)) as (e & -> & He); [lia|lia|].
    cbn [mbind res_mbind res_bind]. pose proof (skip_to_first hay needle cur i Hn Hb) as Hskip. destruct e.
    + exists (Some i). split; [done|]. split; [lia|]. split; [|done]. apply occurs_letters. split; [lia|by apply He].
    + destruct (IH (S i)) as (r & -> & Hres); [lia|lia|]. exists r. split; [done|].
      apply (skip_candidate hay needle cur i); [lia|done| |done]. intros Ho. apply occurs_letters in Ho as [_ Ho].
      apply He in Ho. done.
  - exists None. split; [done|]. by apply no_first_letter.
Qed.

Lemma hybrid_loop_spec hay needle : 2 <= length needle -> length needle <= length hay -> forall fuel failed cur,
  length hay - cur < fuel -> cur <= length hay ->
  exists r, hybrid_loop fuel hay needle (letter needle 0) (letter needle (length needle - 1)) failed cur = Ret r /\ first_from hay needle cur r.
Proof.
  intros Hn Hl fuel. induction fuel as [|fuel IH]; intros failed cur Hf Hcur; [lia|]. cbn [hybrid_loop].
  destruct (Nat.ltb_spec (length hay - length needle) cur) as [Hend|Hin]; [eexists; split; [done|by apply first_from_end]|].
  destruct (traits_find_spec hay cur (length hay - cur - length needle + 1) (letter needle 0)) as ([i|] & -> & Hr); [lia| |];
    cbn [mbind res_mbind res_bind]; [|exists None; split; [done|by apply no_first_letter; [lia|..]]].
  destruct Hr as (Hi & Hlet & Hb). pose proof (skip_to_first hay needle cur i ltac:(lia) Hb) as Hskip.
  match goal with |- context [if _ && _ then ?a else ?b] => set (next := if _ && _ then a else b) end.
  assert (exists r, next = Ret r /\ first_from hay needle (S i) r) as (rn & Hnext & Hrn).
  { subst next. destruct (_ && _) eqn:E; [|apply IH; lia]. bsplit. apply FindRangeTwoWay_spec; lia. }
  clearbody next. rewrite (vec_letter hay) by lia. cbn [mbind res_mbind res_bind]. unfold traits_eq.
  destruct (Z.eqb_spec (letter hay (i + length needle - 1)) (letter needle (length needle - 1))) as [E|E]; cbn [negb].
  - destruct (traits_same_spec hay i needle 0 (length needle)) as (e & -> & He); [lia|lia|].
    cbn [mbind res_mbind res_bind]. destruct e.
    + exists (Some i). split; [done|]. split; [lia|]. split; [|done]. apply occurs_letters. split; [lia|by apply He].
    + exists rn. split; [done|]. apply (skip_candidate hay needle cur i); [lia|done| |done].
      intros Ho. apply occurs_letters in Ho as [_ Ho]. apply He in Ho. done.
  - exists rn. split; [done|]. apply (skip_candidate hay needle cur i); [lia|done| |done].
    intros Ho. apply occurs_letters in Ho as [_ Ho]. apply E. rewrite <- Ho by lia. f_equal. lia.
Qed.

(** ** Properties *)

Lemma FindRange_first hay needle pos : exists r, FindRange hay needle pos = Ret r /\ first_from hay needle pos r.
Proof.
  unfold FindRange. destruct (Nat.eqb_spec (length needle) 0) as [Hz|Hz].
  { eexists. split; [done|]. destruct (Nat.leb_spec pos (length hay)); cbn.
    - split; [lia|]. split; [|intros; lia]. apply occurs_letters. split; [lia|intros; lia].
    - intros p Hp Ho. apply occurs_letters in Ho as [? _]. lia. }
  destruct (_ || _) eqn:E.
  { eexists. split; [done|]. intros p Hp Ho. apply occurs_letters in Ho as [? _].
    apply orb_true_iff in E as [E|E]; [apply Nat.leb_le in E|apply Nat.ltb_lt in E]; lia. }
  bsplit. destruct (Nat.eqb_spec (length needle) 1) as [H1|H1].
  - rewrite (vec_letter needle) by lia. cbn [mbind res_mbind res_bind].
    destruct (traits_find_spec hay pos (length hay - pos) (letter needle 0)) as (r & -> & Hr); [lia|]. exists r. split; [done|].
    destruct r as [i|]; cbn.
    + destruct Hr as (Hi & Hlet & Hb). split; [lia|]. split; [|by apply (skip_to_first hay needle pos i); [lia|]].
      apply occurs_letters. split; [lia|]. intros p Hp. replace p with 0 by lia. by rewrite Nat.add_0_r.
    + intros p Hp Ho. apply occurs_letters in Ho as [Hle Ho]. apply (Hr p ltac:(lia)). specialize (Ho 0 ltac:(lia)).
      by rewrite Nat.add_0_r in Ho.
  - destruct (_ || _).
    + unfold FindRangeNaive. rewrite (proj2 (Nat.ltb_lt 0 _)), (proj2 (Nat.ltb_lt _ _)), (proj2 (Nat.leb_le _ _)) by lia.
      cbn [mbind res_mbind res_bind am_check]. rewrite (vec_letter needle) by lia. apply naive_loop_spec; lia.
    + unfold FindRangeHybrid. rewrite (proj2 (Nat.leb_le 2 _)), (proj2 (Nat.ltb_lt _ _)), (proj2 (Nat.leb_le _ _)) by lia.
      cbn [mbind res_mbind res_bind am_check]. rewrite !(vec_letter needle) by lia. apply hybrid_loop_spec; lia.
Qed.

(** C32: Substring search is exact on every text, needle and start, whichever of its four
    algorithms is chosen and wherever the hybrid hands over to the two-way search: it
    returns the first position from the start at which the needle occurs, [npos] when there
    is none, never reads outside the two texts, trips none of its checks, and ends. *)
Theorem FindRange_exact hay needle pos : FindRange hay needle pos = Ret (find_reference hay needle pos).
Proof. destruct (FindRange_first hay needle pos) as (r & -> & H). f_equal. by apply first_from_reference. Qed.

(** The two-way search computes a critical factorization in finitely many steps and is
    exact on its own, not only for the long needles it is used for. *)
Theorem FindRangeTwoWay_exact hay needle pos :
  2 <= length needle -> pos < length hay -> length needle <= length hay - pos ->
  FindRangeTwoWay hay needle pos = Ret (find_reference hay needle pos).
Proof.
  intros H1 H2 H3. destruct (FindRangeTwoWay_spec hay needle pos H1 H2 H3) as (r & -> & H). f_equal. by apply first_from_reference.
Qed.

(** Search for one character is the search for the text of it. *)
Theorem find_char_exact hay ch pos : find_char hay ch pos = Ret (find_reference hay [ch] pos).
Proof.
  destruct (FindRange_first hay [ch] pos) as (r & E & H). rewrite <- (first_from_reference _ _ _ _ H), <- E. clear.
  unfold find_char, FindRange. cbn [length Nat.eqb vec_at lookup list_lookup mbind res_mbind res_bind].
  destruct (Nat.leb_spec (length hay) pos) as [|H]; [done|]. cbn [orb].
  rewrite (proj2 (Nat.ltb_ge _ _)) by lia. done.
Qed.

(** ** Witnesses *)

(** "abaabab" in "abaabaabaabab": the match overlaps earlier partial ones. *)
Lemma FindRangeTwoWay_exact_witness :
  FindRangeTwoWay [97; 98; 97; 97; 98; 97; 97; 98; 97; 97; 98; 97; 98]%Z [97; 98; 97; 97; 98; 97; 98]%Z 1 = Ret (Some 6).
Proof.
  pose proof (FindRangeTwoWay_exact [97; 98; 97; 97; 98; 97; 97; 98; 97; 97; 98; 97; 98]%Z [97; 98; 97; 97; 98; 97; 98]%Z 1
    ltac:(cbn; lia) ltac:(cbn; lia) ltac:(cbn; lia)) as H.
  rewrite H. vm_compute. reflexivity.
Defined.
