(* ===== verification/AmStringLayout.v ===== *)
(** * AmStringLayout: storage layouts of [BasicString]

    [include/amstring/char_layout_policy.hpp] and [generic_layout_policy.hpp], little
    endian. A string object is 24 bytes: either an inline array of code units whose last
    unit is a probe that counts down from the inline capacity, or a pointer, a size and a
    capacity whose top bits mark it as external. The bytes are a list of code units; words
    are read from them and written to them. Blocks of the heap are lists of cells, empty
    until written. The class [Layout] is what the string core asks of a policy. *)
From S2P Require Import Prelude.

(** ** Words as code units *)

(** The low [m] digits of [x] in base [B], least significant first. *)
Fixpoint le_units (m : nat) (B x : Z) : list Z :=
  match m with O => [] | S m => x mod B :: le_units m B (x / B) end.
Fixpoint le_val (B : Z) (l : list Z) : Z := match l with [] => 0 | u :: l => u + B * le_val B l end.

(** ** Memory *)

Abbreviation Heap := (gmap Z (list (option Z))).
Abbreviation Storage := (list Z).

(** [p\[i\] = c] and reading [p\[i\]]; outside a live block either is undefined. *)
Definition heap_write (p : Z) (i : nat) (c : Z) : Exec Heap unit := fun h =>
  match h !! p with
  | Some b => if (i <? length b)%nat then (Ret tt, <[p := <[i := Some c]> b]> h) else (Panic "write out of range", h)
  | None => (Panic "write to a dead block", h)
  end.
Definition heap_read (p : Z) (i : nat) : Exec Heap Z := fun h =>
  match h !! p with
  | Some b => match b !! i with Some (Some c) => (Ret c, h) | _ => (Panic "read of an unwritten cell", h) end
  | None => (Panic "read of a dead block", h)
  end.

(** A pointer to the characters: the inline array or a block of the heap. *)
Inductive Ptr := PInline | PHeap (p : Z).
#[global] Instance Ptr_eq_dec : EqDecision Ptr.
Proof. solve_decision. Defined.

(** [storage.small\[i\] = c]. *)
Definition small_set (st : Storage) (i : nat) (c : Z) : Res Storage :=
  if (i <? length st)%nat then Ret (<[i := c]> st) else Panic "inline write out of range".

(* @src include/amstring/char_layout_policy.hpp:52-56 CharLayoutPolicy::Category *)
Inductive Category := kSmall | kExternal | kInvalid.
#[global] Instance Category_eq_dec : EqDecision Category.
Proof. solve_decision. Defined.

(* @src include/amstring/char_layout_policy.hpp:58-62 CharLayoutPolicy::DecodedProbe *)
Record DecodedProbe := mkProbe { dp_category : Category; dp_size : Z; dp_capacity : Z }.

(** Of the three words of the external form, each [m] units: the [k]-th. *)
Definition word (m : nat) (B : Z) (st : Storage) (k : nat) : Z := le_val B (take m (drop (k * m) st)).
Definition set_word (m : nat) (B : Z) (st : Storage) (k : nat) (x : Z) : Storage :=
  take (k * m) st ++ le_units m B x ++ drop (S k * m) st.

(** What is checked of any view of the characters. *)
(* @src include/amstring/invariant.hpp:19-26 CheckDataInvariants *)
Definition CheckDataInvariants (st : Storage) (data : Ptr) (size capacity : Z) : Exec Heap unit :=
  _ ← lift (am_check (match data with PInline => true | PHeap p => negb (p =? 0) end) "data != nullptr");
  _ ← lift (am_check (size <=? capacity) "size <= capacity");
  c ← match data with
      | PInline => lift (vec_at st (Z.to_nat size))
      | PHeap p => heap_read p (Z.to_nat size)
      end;
  lift (am_check (c =? 0) "data[size] == CharT{}").

(** ** The layout of [char] *)

Module CharLayout.
Definition kStorageBytes : nat := 24.
Definition kSmallCapacity : Z := 23.
Definition kPayloadBits : Z := 62.
Definition kTagBitShift : Z := 56.
Definition kCategoryMask : Z := 0xC0.
Definition kExternalTag : Z := 0x80.
(** [~(SizeType(kCategoryMask) << kTagBitShift)]. *)
Definition kCapacityMask : Z := 2 ^ 64 - 1 - Z.shiftl kCategoryMask kTagBitShift.

(* @src include/amstring/char_layout_policy.hpp:301-303 CharLayoutPolicy::GetProbe *)
Definition GetProbe (st : Storage) : Z := default 0 (st !! 23%nat).
(* @src include/amstring/char_layout_policy.hpp:336-342 CharLayoutPolicy::UnpackCapacity *)
Definition UnpackCapacity (capacity_with_tag : Z) : Z := Z.land capacity_with_tag kCapacityMask.
(* @src include/amstring/char_layout_policy.hpp:358-360 CharLayoutPolicy::TagFromProbe *)
Definition TagFromProbe (probe : Z) : Z := Z.land probe kCategoryMask.
(* @src include/amstring/char_layout_policy.hpp:344-351 CharLayoutPolicy::UnpackTag *)
Definition UnpackTag (capacity_with_tag : Z) : Z := TagFromProbe (wrap 8 (Z.shiftr capacity_with_tag kTagBitShift)).
(* @src include/amstring/char_layout_policy.hpp:151-159 CharLayoutPolicy::max_external_capacity *)
Definition max_external_capacity : Z := Z.shiftl 1 kPayloadBits - 1.

(* @src include/amstring/char_layout_policy.hpp:104-125 CharLayoutPolicy::DecodeProbe *)
Definition DecodeProbe (st : Storage) : DecodedProbe :=
  let probe := GetProbe st in
  if probe <? Z.of_nat kStorageBytes then mkProbe kSmall (kSmallCapacity - probe) kSmallCapacity
  else if Z.land probe kCategoryMask =? kExternalTag then
    mkProbe kExternal (word 8 256 st 1) (UnpackCapacity (word 8 256 st 2))
  else mkProbe kInvalid 0 0.

(* @src include/amstring/char_layout_policy.hpp:84-86 CharLayoutPolicy::is_small *)
Definition is_small (st : Storage) : bool := bool_decide (dp_category (DecodeProbe st) = kSmall).
(* @src include/amstring/char_layout_policy.hpp:92-94 CharLayoutPolicy::is_external *)
Definition is_external (st : Storage) : bool := bool_decide (dp_category (DecodeProbe st) = kExternal).
(* @src include/amstring/char_layout_policy.hpp:100-102 CharLayoutPolicy::category *)
Definition category (st : Storage) : Category := dp_category (DecodeProbe st).
(* @src include/amstring/char_layout_policy.hpp:161-163 CharLayoutPolicy::data *)
Definition data (st : Storage) : Ptr := if is_small st then PInline else PHeap (word 8 256 st 0).
(* @src include/amstring/char_layout_policy.hpp:191-193 CharLayoutPolicy::size *)
Definition size (st : Storage) : Z := dp_size (DecodeProbe st).
(* @src include/amstring/char_layout_policy.hpp:199-201 CharLayoutPolicy::capacity *)
Definition capacity (st : Storage) : Z := dp_capacity (DecodeProbe st).

(* @src include/amstring/char_layout_policy.hpp:311-313 CharLayoutPolicy::EncodeSmallSizeToProbe *)
Definition EncodeSmallSizeToProbe (size : Z) : Z := kSmallCapacity - size.
(* @src include/amstring/char_layout_policy.hpp:305-309 CharLayoutPolicy::SetSmallProbeUnchecked *)
Definition SetSmallProbeUnchecked (st : Storage) (small_meta : Z) : Res Storage := small_set st 23 (wrap 8 small_meta).
(* @src include/amstring/char_layout_policy.hpp:354-356 CharLayoutPolicy::ClearStorage *)
Definition ClearStorage : Storage := replicate kStorageBytes 0.
(* @src include/amstring/char_layout_policy.hpp:327-334 CharLayoutPolicy::PackCapacityWithTag *)
Definition PackCapacityWithTag (capacity : Z) : Res Z :=
  _ ← am_check (capacity <=? max_external_capacity) "capacity <= max_external_capacity()";
  Ret (Z.lor capacity (Z.shiftl kExternalTag kTagBitShift)).

(* @src include/amstring/char_layout_policy.hpp:233-237 CharLayoutPolicy::SetSmallSize *)
Definition SetSmallSize (st : Storage) (size : Z) : Res Storage :=
  _ ← am_check (size <=? kSmallCapacity) "size <= kSmallCapacity";
  st ← small_set st (Z.to_nat size) 0;
  SetSmallProbeUnchecked st (EncodeSmallSizeToProbe size).
(* @src include/amstring/char_layout_policy.hpp:207-210 CharLayoutPolicy::InitEmpty *)
Definition InitEmpty : Res Storage := SetSmallSize ClearStorage 0.

(** [memcpy(storage.small, src, size)] after clearing; [src] is not null here. *)
Definition copy_in (slots : nat) (src : list Z) (size : nat) : Res Storage :=
  if (length src <? size)%nat || (slots <? size)%nat then Panic "copy out of range"
  else Ret (take size src ++ replicate (slots - size) 0).

(* @src include/amstring/char_layout_policy.hpp:212-221 CharLayoutPolicy::InitSmall *)
Definition InitSmall (src : list Z) (size : Z) : Res Storage :=
  _ ← am_check (size <=? kSmallCapacity) "size <= kSmallCapacity";
  st ← copy_in kStorageBytes src (Z.to_nat size);
  st ← small_set st (Z.to_nat size) 0;
  SetSmallProbeUnchecked st (EncodeSmallSizeToProbe size).

(* @src include/amstring/char_layout_policy.hpp:223-231 CharLayoutPolicy::InitExternal *)
Definition InitExternal (ptr size capacity : Z) : Exec Heap Storage :=
  st ← lift (_ ← am_check (negb (ptr =? 0)) "ptr != nullptr";
             _ ← am_check (size <=? capacity) "size <= capacity";
             _ ← am_check (capacity <=? max_external_capacity) "capacity <= max_external_capacity()";
             packed ← PackCapacityWithTag capacity;
             Ret (le_units 8 256 ptr ++ le_units 8 256 size ++ le_units 8 256 packed));
  _ ← heap_write ptr (Z.to_nat size) 0;
  mret st.

(* @src include/amstring/char_layout_policy.hpp:239-243 CharLayoutPolicy::SetExternalSize *)
Definition SetExternalSize (st : Storage) (size : Z) : Exec Heap Storage :=
  _ ← lift (am_check (size <=? capacity st) "size <= capacity(storage)");
  let st := set_word 8 256 st 1 size in
  _ ← heap_write (word 8 256 st 0) (Z.to_nat size) 0;
  mret st.

(* @src include/amstring/char_layout_policy.hpp:245-249 CharLayoutPolicy::SetExternalCapacity *)
Definition SetExternalCapacity (st : Storage) (capacity : Z) : Res Storage :=
  _ ← am_check (word 8 256 st 1 <=? capacity) "storage.external.size <= capacity";
  _ ← am_check (capacity <=? max_external_capacity) "capacity <= max_external_capacity()";
  packed ← PackCapacityWithTag capacity;
  Ret (set_word 8 256 st 2 packed).

(** The result, and the storage afterwards. *)
(* @src include/amstring/char_layout_policy.hpp:251-283 CharLayoutPolicy::TryPushBackInplace *)
Definition TryPushBackInplace (st : Storage) (ch : Z) : Exec Heap (bool * Storage) :=
  let decoded := DecodeProbe st in
  let size := dp_size decoded in
  match dp_category decoded with
  | kExternal =>
      if dp_capacity decoded <=? size then mret (false, st)
      else
        _ ← heap_write (word 8 256 st 0) (Z.to_nat size) ch;
        _ ← heap_write (word 8 256 st 0) (Z.to_nat (size + 1)) 0;
        mret (true, set_word 8 256 st 1 (size + 1))
  | kInvalid => mret (false, st)
  | kSmall =>
      if kSmallCapacity <=? size then mret (false, st)
      else
        lift (st ← small_set st (Z.to_nat size) ch;
              st ← small_set st (Z.to_nat (size + 1)) 0;
              st ← SetSmallProbeUnchecked st (EncodeSmallSizeToProbe (size + 1));
              Ret (true, st))
  end.

(* @src include/amstring/char_layout_policy.hpp:362-367 CharLayoutPolicy::CheckSmallInvariants *)
Definition CheckSmallInvariants (st : Storage) (decoded : DecodedProbe) : Exec Heap unit :=
  _ ← lift (am_check (bool_decide (dp_category decoded = kSmall)) "category");
  _ ← lift (am_check (dp_size decoded <=? kSmallCapacity) "size");
  _ ← lift (am_check (dp_capacity decoded =? kSmallCapacity) "capacity");
  CheckDataInvariants st PInline (dp_size decoded) (dp_capacity decoded).
(* @src include/amstring/char_layout_policy.hpp:369-375 CharLayoutPolicy::CheckExternalInvariants *)
Definition CheckExternalInvariants (st : Storage) (decoded : DecodedProbe) : Exec Heap unit :=
  _ ← lift (am_check (bool_decide (dp_category decoded = kExternal)) "category");
  _ ← lift (am_check (UnpackTag (word 8 256 st 2) =? kExternalTag) "tag");
  _ ← lift (am_check (negb (word 8 256 st 0 =? 0)) "data");
  _ ← lift (am_check (dp_size decoded <=? dp_capacity decoded) "size");
  CheckDataInvariants st (PHeap (word 8 256 st 0)) (dp_size decoded) (dp_capacity decoded).
(* @src include/amstring/char_layout_policy.hpp:285-299 CharLayoutPolicy::CheckInvariants *)
Definition CheckInvariants (st : Storage) : Exec Heap unit :=
  let decoded := DecodeProbe st in
  match dp_category decoded with
  | kSmall => CheckSmallInvariants st decoded
  | kExternal => CheckExternalInvariants st decoded
  | kInvalid => lift (Panic "AM_DCHECK(false)")
  end.
End CharLayout.

(** ** The layout of the other character types *)

Module GenericLayout.
Section Generic.
(** [sizeof(CharT)]: 1, 2 or 4. *)
Context (w : nat).

Definition kSmallSlots : nat := 24 / w.
Definition kSmallCapacity : Z := Z.of_nat kSmallSlots - 1.
Definition kProbeBits : Z := Z.of_nat w * 8.
Definition kPayloadBits : Z := 64 - kProbeBits.
Definition kExternalTag : Z := kSmallCapacity + 1.
Definition kCapacityMask : Z := Z.shiftl 1 kPayloadBits - 1.
(** A word is [8 / w] units in base [2 ^ (8 w)]. *)
Definition units_per_word : nat := 8 / w.
Definition unit_base : Z := 2 ^ kProbeBits.
Abbreviation word_at := (word units_per_word unit_base).

(* @src include/amstring/generic_layout_policy.hpp:400-404 GenericLayoutPolicy::GetProbe *)
Definition GetProbe (st : Storage) : Z := default 0 (st !! (kSmallSlots - 1)%nat).
(* @src include/amstring/generic_layout_policy.hpp:406-408 GenericLayoutPolicy::SetProbe *)
Definition SetProbe (st : Storage) (probe : Z) : Res Storage := small_set st (kSmallSlots - 1) (wrap kProbeBits probe).
(* @src include/amstring/generic_layout_policy.hpp:448-454 GenericLayoutPolicy::UnpackCapacity *)
Definition UnpackCapacity (capacity_with_tag : Z) : Z := Z.land capacity_with_tag kCapacityMask.
(* @src include/amstring/generic_layout_policy.hpp:457-463 GenericLayoutPolicy::UnpackTag *)
Definition UnpackTag (capacity_with_tag : Z) : Z := wrap kProbeBits (Z.shiftr capacity_with_tag kPayloadBits).
(* @src include/amstring/generic_layout_policy.hpp:188-196 GenericLayoutPolicy::max_external_capacity *)
Definition max_external_capacity : Z := Z.shiftl 1 kPayloadBits - 1.
(* @src include/amstring/generic_layout_policy.hpp:468-470 GenericLayoutPolicy::EncodeSmallSizeToProbe *)
Definition EncodeSmallSizeToProbe (size : Z) : Z := kSmallCapacity - size.
(* @src include/amstring/generic_layout_policy.hpp:472-474 GenericLayoutPolicy::DecodeSmallSizeFromProbe *)
Definition DecodeSmallSizeFromProbe (probe : Z) : Z := kSmallCapacity - probe.

(* @src include/amstring/generic_layout_policy.hpp:132-134 GenericLayoutPolicy::is_small *)
Definition is_small (st : Storage) : bool := GetProbe st <=? kSmallCapacity.
(* @src include/amstring/generic_layout_policy.hpp:145-147 GenericLayoutPolicy::is_external *)
Definition is_external (st : Storage) : bool := GetProbe st =? kExternalTag.
(* @src include/amstring/generic_layout_policy.hpp:158-169 GenericLayoutPolicy::category *)
Definition category (st : Storage) : Category :=
  let meta := GetProbe st in
  if meta <=? kSmallCapacity then kSmall else if meta =? kExternalTag then kExternal else kInvalid.
(* @src include/amstring/generic_layout_policy.hpp:171-185 GenericLayoutPolicy::DecodeProbe *)
Definition DecodeProbe (st : Storage) : DecodedProbe :=
  let probe := GetProbe st in
  if probe <=? kSmallCapacity then mkProbe kSmall (DecodeSmallSizeFromProbe probe) kSmallCapacity
  else if probe =? kExternalTag then mkProbe kExternal (word_at st 1) (UnpackCapacity (word_at st 2))
  else mkProbe kInvalid 0 0.
(* @src include/amstring/generic_layout_policy.hpp:199-201 GenericLayoutPolicy::data *)
Definition data (st : Storage) : Ptr := if is_small st then PInline else PHeap (word_at st 0).
(* @src include/amstring/generic_layout_policy.hpp:229-235 GenericLayoutPolicy::size *)
Definition size (st : Storage) : Z :=
  let probe := GetProbe st in
  if probe <=? kSmallCapacity then DecodeSmallSizeFromProbe probe else word_at st 1.
(* @src include/amstring/generic_layout_policy.hpp:242-247 GenericLayoutPolicy::capacity *)
Definition capacity (st : Storage) : Z := if is_small st then kSmallCapacity else UnpackCapacity (word_at st 2).

(* @src include/amstring/generic_layout_policy.hpp:396-398 GenericLayoutPolicy::ClearStorage *)
Definition ClearStorage : Storage := replicate kSmallSlots 0.
(* @src include/amstring/generic_layout_policy.hpp:410-417 GenericLayoutPolicy::PackCapacityWithTag *)
Definition PackCapacityWithTag (capacity tag : Z) : Res Z :=
  _ ← am_check (capacity <=? max_external_capacity) "capacity <= max_external_capacity()";
  Ret (Z.lor (Z.shiftl tag kPayloadBits) capacity).

(* @src include/amstring/generic_layout_policy.hpp:291-296 GenericLayoutPolicy::SetSmallSize *)
Definition SetSmallSize (st : Storage) (size : Z) : Res Storage :=
  _ ← am_check (is_small st) "is_small(storage)";
  _ ← am_check (size <=? kSmallCapacity) "size <= kSmallCapacity";
  st ← small_set st (Z.to_nat size) 0;
  SetProbe st (EncodeSmallSizeToProbe size).
(* @src include/amstring/generic_layout_policy.hpp:254-257 GenericLayoutPolicy::InitEmpty *)
Definition InitEmpty : Res Storage := SetSmallSize ClearStorage 0.
(* @src include/amstring/generic_layout_policy.hpp:261-268 GenericLayoutPolicy::InitSmall *)
Definition InitSmall (src : list Z) (size : Z) : Res Storage :=
  _ ← am_check (size <=? kSmallCapacity) "size <= kSmallCapacity";
  st ← CharLayout.copy_in kSmallSlots src (Z.to_nat size);
  SetSmallSize st size.

(* @src include/amstring/generic_layout_policy.hpp:276-284 GenericLayoutPolicy::InitExternal *)
Definition InitExternal (ptr size capacity : Z) : Exec Heap Storage :=
  st ← lift (_ ← am_check (negb (ptr =? 0)) "ptr != nullptr";
             _ ← am_check (size <=? capacity) "size <= capacity";
             _ ← am_check (capacity <=? max_external_capacity) "capacity <= max_external_capacity()";
             packed ← PackCapacityWithTag capacity kExternalTag;
             Ret (le_units units_per_word unit_base ptr ++ le_units units_per_word unit_base size ++
                  le_units units_per_word unit_base packed));
  _ ← heap_write ptr (Z.to_nat size) 0;
  mret st.

(* @src include/amstring/generic_layout_policy.hpp:299-304 GenericLayoutPolicy::SetExternalSize *)
Definition SetExternalSize (st : Storage) (size : Z) : Exec Heap Storage :=
  _ ← lift (am_check (is_external st) "is_external(storage)");
  _ ← lift (am_check (size <=? capacity st) "size <= capacity(storage)");
  let st := set_word units_per_word unit_base st 1 size in
  _ ← heap_write (word_at st 0) (Z.to_nat size) 0;
  mret st.

(* @src include/amstring/generic_layout_policy.hpp:307-312 GenericLayoutPolicy::SetExternalCapacity *)
Definition SetExternalCapacity (st : Storage) (capacity : Z) : Res Storage :=
  _ ← am_check (is_external st) "is_external(storage)";
  _ ← am_check (word_at st 1 <=? capacity) "storage.external.size <= capacity";
  _ ← am_check (capacity <=? max_external_capacity) "capacity <= max_external_capacity()";
  packed ← PackCapacityWithTag capacity kExternalTag;
  Ret (set_word units_per_word unit_base st 2 packed).

(* @src include/amstring/generic_layout_policy.hpp:314-344 GenericLayoutPolicy::TryPushBackInplace *)
Definition TryPushBackInplace (st : Storage) (ch : Z) : Exec Heap (bool * Storage) :=
  let probe := GetProbe st in
  if probe =? kExternalTag then
    let size := word_at st 1 in
    if UnpackCapacity (word_at st 2) <=? size then mret (false, st)
    else
      _ ← heap_write (word_at st 0) (Z.to_nat size) ch;
      _ ← heap_write (word_at st 0) (Z.to_nat (size + 1)) 0;
      mret (true, set_word units_per_word unit_base st 1 (size + 1))
  else if kSmallCapacity <? probe then mret (false, st)
  else
    let size := DecodeSmallSizeFromProbe probe in
    if kSmallCapacity <=? size then mret (false, st)
    else
      lift (st ← small_set st (Z.to_nat size) ch;
            st ← small_set st (Z.to_nat (size + 1)) 0;
            st ← SetProbe st (EncodeSmallSizeToProbe (size + 1));
            Ret (true, st)).

(* @src include/amstring/generic_layout_policy.hpp:419-424 GenericLayoutPolicy::CheckSmallInvariants *)
Definition CheckSmallInvariants (st : Storage) (decoded : DecodedProbe) : Exec Heap unit :=
  _ ← lift (am_check (bool_decide (dp_category decoded = kSmall)) "category");
  _ ← lift (am_check (dp_size decoded <=? kSmallCapacity) "size");
  _ ← lift (am_check (dp_capacity decoded =? kSmallCapacity) "capacity");
  CheckDataInvariants st PInline (dp_size decoded) (dp_capacity decoded).
(* @src include/amstring/generic_layout_policy.hpp:426-431 GenericLayoutPolicy::CheckExternalInvariants *)
Definition CheckExternalInvariants (st : Storage) (decoded : DecodedProbe) : Exec Heap unit :=
  _ ← lift (am_check (bool_decide (dp_category decoded = kExternal)) "category");
  _ ← lift (am_check (UnpackTag (word_at st 2) =? kExternalTag) "tag");
  _ ← lift (am_check (dp_size decoded <=? dp_capacity decoded) "size");
  CheckDataInvariants st (PHeap (word_at st 0)) (dp_size decoded) (dp_capacity decoded).
(* @src include/amstring/generic_layout_policy.hpp:378-393 GenericLayoutPolicy::CheckInvariants *)
Definition CheckInvariants (st : Storage) : Exec Heap unit :=
  let decoded := DecodeProbe st in
  match dp_category decoded with
  | kSmall => CheckSmallInvariants st decoded
  | kExternal => CheckExternalInvariants st decoded
  | kInvalid => lift (Panic "AM_DCHECK(false)")
  end.
End Generic.
End GenericLayout.

(** ** What a layout promises *)

(** [st] is an inline storage of [slots] units whose probe says [sz]. *)
Definition small_shape (slots : nat) (st : Storage) (sz : Z) : Prop :=
  length st = slots /\ 0 <= sz < Z.of_nat slots /\ st !! (slots - 1)%nat = Some (Z.of_nat slots - 1 - sz).

(** The storage after its terminator is written at [sz] and its probe set to it. *)
Definition with_small_size (slots : nat) (st : Storage) (sz : Z) : Storage :=
  <[(slots - 1)%nat := Z.of_nat slots - 1 - sz]> (<[Z.to_nat sz := 0]> st).

(** The class of layouts: [ext_rep st p sz cap] says that [st] is external with these
    fields. All other knowledge of the encoding stays behind it. *)
Class Layout := {
  slots : nat;
  char_bytes : Z;
  max_capacity : Z;
  l_is_small : Storage -> bool;
  l_is_external : Storage -> bool;
  l_category : Storage -> Category;
  l_data : Storage -> Ptr;
  l_size : Storage -> Z;
  l_capacity : Storage -> Z;
  l_InitEmpty : Res Storage;
  l_InitSmall : list Z -> Z -> Res Storage;
  l_InitExternal : Z -> Z -> Z -> Exec Heap Storage;
  l_SetSmallSize : Storage -> Z -> Res Storage;
  l_SetExternalSize : Storage -> Z -> Exec Heap Storage;
  l_TryPushBackInplace : Storage -> Z -> Exec Heap (bool * Storage);
  l_CheckInvariants : Storage -> Exec Heap unit;
  ext_rep : Storage -> Z -> Z -> Z -> Prop;
  slots_pos : (2 <= slots <= 24)%nat;
  char_bytes_ok : char_bytes = 1 \/ char_bytes = 2 \/ char_bytes = 4;
  max_capacity_range : 2 ^ 32 - 1 <= max_capacity < 2 ^ 62;
  small_view st sz : small_shape slots st sz ->
    l_is_small st = true /\ l_is_external st = false /\ l_category st = kSmall /\ l_data st = PInline /\
    l_size st = sz /\ l_capacity st = Z.of_nat slots - 1;
  ext_view st p sz cap : ext_rep st p sz cap ->
    l_is_small st = false /\ l_is_external st = true /\ l_category st = kExternal /\ l_data st = PHeap p /\
    l_size st = sz /\ l_capacity st = cap;
  ext_range st p sz cap : ext_rep st p sz cap -> 0 < p < 2 ^ 64 /\ 0 <= sz <= cap /\ cap <= max_capacity;
  InitEmpty_law : l_InitEmpty = Ret (with_small_size slots (replicate slots 0) 0);
  InitSmall_law src sz : 0 <= sz < Z.of_nat slots -> (Z.to_nat sz <= length src)%nat ->
    l_InitSmall src sz = Ret (with_small_size slots (take (Z.to_nat sz) src ++ replicate (slots - Z.to_nat sz) 0) sz);
  InitExternal_law p sz cap : 0 < p < 2 ^ 64 -> 0 <= sz <= cap -> cap <= max_capacity ->
    exists st, ext_rep st p sz cap /\ forall h, l_InitExternal p sz cap h =
      (heap_write p (Z.to_nat sz) 0 ≫= fun _ => mret st) h;
  SetSmallSize_law st sz old : small_shape slots st old -> 0 <= sz < Z.of_nat slots ->
    l_SetSmallSize st sz = Ret (with_small_size slots st sz);
  SetExternalSize_law st p sz cap sz' : ext_rep st p sz cap -> 0 <= sz' <= cap ->
    exists st', ext_rep st' p sz' cap /\ forall h, l_SetExternalSize st sz' h =
      (heap_write p (Z.to_nat sz') 0 ≫= fun _ => mret st') h;
  TryPush_small st sz ch : small_shape slots st sz -> forall h, l_TryPushBackInplace st ch h =
    (Ret (if sz <? Z.of_nat slots - 1 then (true, with_small_size slots (<[Z.to_nat sz := ch]> st) (sz + 1)) else (false, st)), h);
  TryPush_ext st p sz cap ch : ext_rep st p sz cap ->
    (sz < cap -> exists st', ext_rep st' p (sz + 1) cap /\ forall h, l_TryPushBackInplace st ch h =
      (heap_write p (Z.to_nat sz) ch ≫= fun _ => heap_write p (Z.to_nat (sz + 1)) 0 ≫= fun _ => mret (true, st')) h) /\
    (sz = cap -> forall h, l_TryPushBackInplace st ch h = (Ret (false, st), h));
  CheckInvariants_small st sz h : small_shape slots st sz -> st !! Z.to_nat sz = Some 0 ->
    l_CheckInvariants st h = (Ret tt, h);
  CheckInvariants_ext st p sz cap h b : ext_rep st p sz cap -> h !! p = Some b -> b !! Z.to_nat sz = Some (Some 0) ->
    l_CheckInvariants st h = (Ret tt, h) }.

(** ** Words in a storage *)

Section Units.
Context (m : nat) (B : Z) (HB : 1 < B).

Lemma le_units_length k x : length (le_units k B x) = k.
Proof using. revert x. induction k as [|k IH]; intros x; cbn; [done|by rewrite IH]. Qed.

Lemma le_units_val k : forall x, 0 <= x < B ^ Z.of_nat k -> le_val B (le_units k B x) = x.
Proof using HB.
  induction k as [|k IH]; intros x Hx; [cbn in *; lia|]. rewrite Nat2Z.inj_succ, Z.pow_succ_r in Hx by lia.
  cbn [le_units le_val]. rewrite IH; [pose proof (Z.div_mod x B); lia|].
  split; [apply Z.div_pos; lia|apply Z.div_lt_upper_bound; lia].
Qed.

Lemma le_units_top k : forall x, 0 <= x < B ^ Z.of_nat (S k) -> le_units (S k) B x !! k = Some (x / B ^ Z.of_nat k).
Proof using HB.
  induction k as [|k IH]; intros x Hx.
  { change (Z.of_nat 1) with 1 in Hx. rewrite Z.pow_1_r in Hx. cbn. by rewrite Z.div_1_r, Z.mod_small. }
  rewrite Nat2Z.inj_succ, Z.pow_succ_r in Hx by lia.
  change (le_units (S (S k)) B x !! S k) with (le_units (S k) B (x / B) !! k).
  rewrite IH; [|split; [apply Z.div_pos; lia|apply Z.div_lt_upper_bound; lia]].
  rewrite Z.div_div by lia. rewrite (Nat2Z.inj_succ k), Z.pow_succ_r by lia. done.
Qed.

(** An external storage with the words [a], [b] and [c]. *)
Definition words (a b c : Z) : Storage := le_units m B a ++ le_units m B b ++ le_units m B c.
Abbreviation fits := (fun x => 0 <= x < B ^ Z.of_nat m).

Lemma words_length a b c : length (words a b c) = (3 * m)%nat.
Proof using. unfold words. rewrite !length_app, !le_units_length. lia. Qed.

Lemma word_words a b c : fits a -> fits b -> fits c ->
  word m B (words a b c) 0 = a /\ word m B (words a b c) 1 = b /\ word m B (words a b c) 2 = c.
Proof using HB.
  intros Ha Hb Hc. unfold word, words. split_and!.
  - cbn. rewrite drop_0, take_app_length' by (by rewrite le_units_length). by apply le_units_val.
  - rewrite Nat.mul_1_l, drop_app_length', take_app_length' by (by rewrite le_units_length). by apply le_units_val.
  - rewrite app_assoc, drop_app_length', take_ge by (rewrite ?length_app, !le_units_length; lia). by apply le_units_val.
Qed.

Lemma set_word_size a b c b' : set_word m B (words a b c) 1 b' = words a b' c.
Proof using.
  unfold set_word, words. rewrite Nat.mul_1_l, take_app_length' by (by rewrite le_units_length). do 2 f_equal.
  rewrite app_assoc, drop_app_length' by (rewrite length_app, !le_units_length; lia). done.
Qed.

Lemma words_top a b c : (0 < m)%nat -> fits c -> words a b c !! (3 * m - 1)%nat = Some (c / B ^ (Z.of_nat m - 1)).
Proof using HB.
  intros Hm Hc. unfold words. rewrite app_assoc, lookup_app_r by (rewrite length_app, !le_units_length; lia).
  rewrite length_app, !le_units_length. replace (3 * m - 1 - (m + m))%nat with (m - 1)%nat by lia.
  destruct m as [|k] eqn:Em; [lia|]. replace (S k - 1)%nat with k by lia. rewrite le_units_top by done. do 3 f_equal. lia.
Qed.
End Units.

Lemma small_set_ret st i c : (i < length st)%nat -> small_set st i c = Ret (<[i := c]> st).
Proof. intros H. unfold small_set. by rewrite (proj2 (Nat.ltb_lt _ _)). Qed.

Lemma copy_in_ret slots src n : (n <= length src)%nat -> (n <= slots)%nat ->
  CharLayout.copy_in slots src n = Ret (take n src ++ replicate (slots - n) 0).
Proof. intros H1 H2. unfold CharLayout.copy_in. by rewrite (proj2 (Nat.ltb_ge _ _)), (proj2 (Nat.ltb_ge _ _)) by done. Qed.

Lemma length_copy_in n src (slots : nat) : (n <= length src)%nat -> (n <= slots)%nat -> length (take n src ++ replicate (slots - n) (0 : Z)) = slots.
Proof. intros. rewrite length_app, length_take, length_replicate. lia. Qed.

(** Terminator, then probe. *)
Lemma two_writes slots st sz c : length st = slots -> 0 <= sz < Z.of_nat slots -> c = Z.of_nat slots - 1 - sz ->
  (st ← small_set st (Z.to_nat sz) 0; small_set st (slots - 1) c) = Ret (with_small_size slots st sz).
Proof.
  intros Hl Hs ->. rewrite small_set_ret by lia. cbn [mbind res_mbind res_bind].
  rewrite small_set_ret by (rewrite length_insert; lia). done.
Qed.

(** A last unit beyond the inline capacity rules out the inline form. *)
Lemma small_shape_bounds n st sz : small_shape n st sz -> length st = n /\ 0 <= sz < Z.of_nat n /\ st !! (n - 1)%nat = Some (Z.of_nat n - 1 - sz).
Proof. done. Qed.

Lemma exec_bind_lift {Mem A B} (a : A) (f : A -> Exec Mem B) s : (lift (Ret a) ≫= f) s = f a s.
Proof. done. Qed.

Lemma check_true why : am_check true why = Ret tt.
Proof. done. Qed.

(** The capacity word of [char]: the top two bits say external, the rest is the capacity. *)
Module CharFacts.
Import CharLayout.

Lemma pack_value cap : 0 <= cap <= max_external_capacity -> PackCapacityWithTag cap = Ret (cap + 2 ^ 63).
Proof.
  intros Hc. unfold PackCapacityWithTag. rewrite (proj2 (Z.leb_le _ _)) by lia. cbn [am_check mbind res_mbind res_bind].
  f_equal. rewrite Z.lor_comm. change (Z.shiftl kExternalTag kTagBitShift) with (1 * 2 ^ 63).
  change max_external_capacity with (2 ^ 62 - 1) in Hc. rewrite lor_add by lia. lia.
Qed.

Lemma unpack_value cap : 0 <= cap <= max_external_capacity -> UnpackCapacity (cap + 2 ^ 63) = cap.
Proof.
  intros Hc. unfold UnpackCapacity. change kCapacityMask with (Z.ones 62). rewrite Z.land_ones by lia.
  change max_external_capacity with (2 ^ 62 - 1) in Hc. replace (cap + 2 ^ 63) with (cap + 2 * 2 ^ 62) by lia.
  rewrite Z.mod_add by lia. apply Z.mod_small. lia.
Qed.

Lemma probe_value cap : 0 <= cap <= max_external_capacity ->
  24 <= (cap + 2 ^ 63) / 256 ^ 7 /\ Z.land ((cap + 2 ^ 63) / 256 ^ 7) kCategoryMask = kExternalTag.
Proof.
  intros Hc. change max_external_capacity with (2 ^ 62 - 1) in Hc. change (256 ^ 7) with (2 ^ 56).
  replace (cap + 2 ^ 63) with (cap + 128 * 2 ^ 56) by lia. rewrite Z.div_add by lia.
  assert (0 <= cap / 2 ^ 56 < 2 ^ 6) as Hd.
  { split; [apply Z.div_pos; lia|apply Z.div_lt_upper_bound; lia]. }
  split; [lia|]. generalize dependent (cap / 2 ^ 56). intros q Hq.
  assert (q = Z.of_nat (Z.to_nat q)) as -> by lia. assert (Z.to_nat q < 64)%nat as Hlt by lia. clear Hq. revert Hlt.
  generalize (Z.to_nat q). intros k Hk. do 64 (destruct k as [|k]; [reflexivity|]). lia.
Qed.

(** [st] is external with these fields. *)
Definition ext (st : Storage) (p sz cap : Z) : Prop :=
  st = words 8 256 p sz (cap + 2 ^ 63) /\ 0 < p < 2 ^ 64 /\ 0 <= sz <= cap /\ cap <= max_external_capacity.

Lemma ext_words st p sz cap : ext st p sz cap -> 0 <= cap <= max_external_capacity /\
  GetProbe st = (cap + 2 ^ 63) / 256 ^ 7 /\ word 8 256 st 0 = p /\ word 8 256 st 1 = sz /\ word 8 256 st 2 = cap + 2 ^ 63.
Proof.
  intros (-> & Hp & Hs & Hc). change max_external_capacity with (2 ^ 62 - 1) in *. split; [lia|].
  assert (256 ^ Z.of_nat 8 = 2 ^ 64) as E by done.
  split; [|apply word_words; lia]. unfold GetProbe. change 23%nat with (3 * 8 - 1)%nat.
  rewrite words_top by lia. done.
Qed.

Lemma decode_ext st p sz cap : ext st p sz cap -> DecodeProbe st = mkProbe kExternal sz cap.
Proof.
  intros He. destruct (ext_words _ _ _ _ He) as (Hc & Hpr & _ & Hs & Hw). unfold DecodeProbe. rewrite Hpr.
  destruct (probe_value cap Hc) as [Hp1 Hp2]. rewrite (proj2 (Z.ltb_ge _ _)) by (change (Z.of_nat kStorageBytes) with 24; lia). rewrite Hp2, Z.eqb_refl, Hs, Hw.
  by rewrite unpack_value.
Qed.

Lemma decode_small st sz : small_shape 24 st sz -> DecodeProbe st = mkProbe kSmall sz 23.
Proof.
  intros (_ & Hs & Hl). unfold DecodeProbe, GetProbe. change (24 - 1)%nat with 23%nat in Hl. rewrite Hl. cbn [from_option id].
  rewrite (proj2 (Z.ltb_lt _ _)) by (change (Z.of_nat kStorageBytes) with 24; lia). f_equal. unfold kSmallCapacity. lia.
Qed.

Lemma init_external_run p sz cap : 0 < p < 2 ^ 64 -> 0 <= sz <= cap -> cap <= max_external_capacity ->
  forall h, InitExternal p sz cap h = (heap_write p (Z.to_nat sz) 0 ≫= fun _ => mret (words 8 256 p sz (cap + 2 ^ 63))) h.
Proof.
  intros Hp Hs Hc h. unfold InitExternal. rewrite (pack_value cap) by lia.
  rewrite (proj2 (Z.eqb_neq p 0)), (proj2 (Z.leb_le sz cap)), (proj2 (Z.leb_le cap _)) by lia. done.
Qed.

#[global] Program Instance layout : Layout := {|
  slots := 24; char_bytes := 1; max_capacity := max_external_capacity; l_is_small := is_small; l_is_external := is_external;
  l_category := category; l_data := data; l_size := size; l_capacity := capacity; l_InitEmpty := InitEmpty;
  l_InitSmall := InitSmall; l_InitExternal := InitExternal; l_SetSmallSize := SetSmallSize;
  l_SetExternalSize := SetExternalSize; l_TryPushBackInplace := TryPushBackInplace;
  l_CheckInvariants := CheckInvariants; ext_rep := ext |}.
Next Obligation. lia. Qed.
Next Obligation. lia. Qed.
Next Obligation. split; [done|]. vm_compute. reflexivity. Qed.
Next Obligation.
  intros st sz H. unfold is_small, is_external, category, data, size, capacity, is_small. by rewrite (decode_small _ _ H).
Qed.
Next Obligation.
  intros st p sz cap H. destruct (ext_words _ _ _ _ H) as (_ & _ & Hp & _).
  unfold is_small, is_external, category, data, size, capacity, is_small. by rewrite (decode_ext _ _ _ _ H), Hp.
Qed.
Next Obligation. intros st p sz cap (_ & ? & ? & ?). done. Qed.
Next Obligation. reflexivity. Qed.
Next Obligation.
  intros src sz Hs Hl. unfold InitSmall, SetSmallProbeUnchecked, EncodeSmallSizeToProbe. rewrite (proj2 (Z.leb_le _ _)) by (unfold kSmallCapacity; lia).
  cbn [am_check mbind res_mbind res_bind]. rewrite copy_in_ret by (unfold kStorageBytes; lia). cbn [mbind res_mbind res_bind].
  apply (two_writes 24); [apply length_copy_in; unfold kStorageBytes; lia|lia|].
  rewrite wrap_small; unfold in_u, kSmallCapacity; lia.
Qed.
Next Obligation.
  intros p sz cap Hp Hs Hc. eexists. split; [|by apply init_external_run]. by repeat (split; [done|]).
Qed.
Next Obligation.
  intros st sz old (Hl & _ & _) Hs. unfold SetSmallSize, SetSmallProbeUnchecked, EncodeSmallSizeToProbe.
  rewrite (proj2 (Z.leb_le _ _)) by (unfold kSmallCapacity; lia). cbn [am_check mbind res_mbind res_bind].
  apply (two_writes 24); [done|lia|]. rewrite wrap_small; unfold in_u, kSmallCapacity; lia.
Qed.
Next Obligation.
  intros st p sz cap sz' H Hs. pose proof H as (-> & Hp & Hsz & Hc). unfold SetExternalSize, capacity.
  assert (ext (words 8 256 p sz' (cap + 2 ^ 63)) p sz' cap) as H' by (repeat (split; [done || lia|]); lia).
  exists (words 8 256 p sz' (cap + 2 ^ 63)). split; [done|]. intros h. rewrite (decode_ext _ _ _ _ H). cbn [dp_capacity].
  rewrite (proj2 (Z.leb_le _ _)) by lia. rewrite set_word_size. destruct (ext_words _ _ _ _ H') as (_ & _ & -> & _). done.
Qed.
Next Obligation.
  intros st sz ch H h. unfold TryPushBackInplace. rewrite (decode_small _ _ H). cbn [dp_category dp_size].
  destruct H as (Hl & Hs & _). unfold kSmallCapacity. destruct (Z.ltb_spec sz (Z.of_nat 24 - 1)) as [Hlt|Hge].
  - rewrite (proj2 (Z.leb_gt _ _)) by lia. rewrite small_set_ret by lia. cbn [mbind res_mbind res_bind].
    unfold SetSmallProbeUnchecked, EncodeSmallSizeToProbe.
    pose proof (two_writes 24 (<[Z.to_nat sz := ch]> st) (sz + 1) (wrap 8 (kSmallCapacity - (sz + 1)))
      ltac:(by rewrite length_insert) ltac:(lia) ltac:(rewrite wrap_small; unfold in_u, kSmallCapacity; lia)) as E.
    destruct (small_set (<[Z.to_nat sz := ch]> st) (Z.to_nat (sz + 1)) 0) as [st1| |]; [|done..]. cbn [mbind res_mbind res_bind] in E |- *.
    change (24 - 1)%nat with 23%nat in E. unfold lift. by rewrite E.
  - rewrite (proj2 (Z.leb_le _ _)) by lia. done.
Qed.
Next Obligation.
  intros st p sz cap ch H. unfold TryPushBackInplace. rewrite (decode_ext _ _ _ _ H). cbn [dp_category dp_size dp_capacity].
  destruct (ext_words _ _ _ _ H) as (_ & _ & -> & _). pose proof H as (-> & Hp & Hsz & Hc). split.
  - intros Hlt. rewrite (proj2 (Z.leb_gt _ _)) by lia. rewrite set_word_size. eexists. split; [|done]. repeat (split; [done || lia|]); lia.
  - intros -> h. rewrite (proj2 (Z.leb_le _ _)) by lia. done.
Qed.
Next Obligation.
  intros st sz h H Hz. unfold CheckInvariants. rewrite (decode_small _ _ H). cbn [dp_category].
  unfold CheckSmallInvariants. cbn [dp_size dp_capacity]. destruct H as (_ & Hs & _).
  rewrite (proj2 (Z.leb_le _ _)) by (unfold kSmallCapacity; lia). unfold CheckDataInvariants.
  rewrite (proj2 (Z.leb_le _ _)) by lia. unfold vec_at. by rewrite Hz.
Qed.
Next Obligation.
  intros st p sz cap h b H Hb Hz. unfold CheckInvariants. rewrite (decode_ext _ _ _ _ H). cbn [dp_category].
  unfold CheckExternalInvariants. cbn [dp_size dp_capacity]. destruct (ext_words _ _ _ _ H) as (Hc & _ & -> & _ & ->).
  destruct H as (_ & Hp & Hs & _). unfold UnpackTag.
  replace (wrap 8 (Z.shiftr (cap + 2 ^ 63) kTagBitShift)) with ((cap + 2 ^ 63) / 256 ^ 7).
  2:{ change kTagBitShift with 56. rewrite Z.shiftr_div_pow2 by lia. change (256 ^ 7) with (2 ^ 56).
      change max_external_capacity with (2 ^ 62 - 1) in Hc. rewrite wrap_small; [done|].
      split; [apply Z.div_pos; lia|apply Z.div_lt_upper_bound; lia]. }
  unfold TagFromProbe. destruct (probe_value cap Hc) as [_ ->]. rewrite Z.eqb_refl, (proj2 (Z.eqb_neq p 0)), (proj2 (Z.leb_le _ _)) by lia.
  unfold CheckDataInvariants. rewrite (proj2 (Z.eqb_neq p 0)), (proj2 (Z.leb_le _ _)) by lia.
  unfold mbind, exec_mbind, exec_bind, heap_read. cbn. by rewrite Hb, Hz.
Qed.
End CharFacts.

Module GenericFacts.
Import GenericLayout.
Section Facts.
Context (w : nat) (Hw : w = 1%nat \/ w = 2%nat \/ w = 4%nat).
Abbreviation m := (units_per_word w).
Abbreviation B := (unit_base w).
Abbreviation n := (kSmallSlots w).
Abbreviation top := (2 ^ kPayloadBits w).

Lemma sizes : n = (3 * m)%nat /\ (2 <= n <= 24)%nat /\ (0 < m)%nat /\ 1 < B /\ Z.of_nat n < B /\ B ^ Z.of_nat m = 2 ^ 64 /\
  B ^ (Z.of_nat m - 1) = top /\ 0 <= kPayloadBits w /\ 2 ^ 32 <= top /\ top <= 2 ^ 56 /\ B * top = 2 ^ 64.
Proof using Hw. destruct Hw as [-> | [-> | ->]]; split_and!; first [reflexivity | vm_compute; congruence | vm_compute; lia]. Qed.

Lemma max_value : max_external_capacity w = top - 1.
Proof using Hw. unfold max_external_capacity. destruct sizes as (_ & _ & _ & _ & _ & _ & _ & ? & _). by rewrite Z.shiftl_1_l. Qed.

Definition packed (cap : Z) : Z := Z.of_nat n * top + cap.

Lemma gen_pack_value cap : 0 <= cap <= max_external_capacity w -> PackCapacityWithTag w cap (kExternalTag w) = Ret (packed cap).
Proof using Hw.
  intros Hc. destruct sizes as (_ & _ & _ & _ & _ & _ & _ & Hp & _). unfold PackCapacityWithTag.
  rewrite (proj2 (Z.leb_le _ _)) by lia. cbn [am_check mbind res_mbind res_bind]. f_equal. rewrite max_value in Hc.
  rewrite Z.shiftl_mul_pow2 by done. rewrite lor_add by lia. unfold packed, kExternalTag, kSmallCapacity. f_equal. f_equal. lia.
Qed.

Lemma packed_range cap : 0 <= cap <= max_external_capacity w -> 0 <= packed cap < B ^ Z.of_nat m.
Proof using Hw.
  intros Hc. rewrite max_value in Hc. destruct sizes as (_ & _ & _ & _ & Hn & -> & _ & Hp & _ & _ & HBt). unfold packed.
  pose proof (Z.pow_pos_nonneg 2 (kPayloadBits w) ltac:(lia) Hp). rewrite <- HBt. nia.
Qed.

Lemma gen_unpack_value cap : 0 <= cap <= max_external_capacity w -> UnpackCapacity w (packed cap) = cap.
Proof using Hw.
  intros Hc. rewrite max_value in Hc. destruct sizes as (_ & _ & _ & _ & _ & _ & _ & Hp & _).
  unfold UnpackCapacity, kCapacityMask, packed. rewrite Z.shiftl_1_l, Z.sub_1_r, <- Z.ones_equiv, Z.land_ones by done.
  rewrite Z.add_comm, Z.mod_add by lia. apply Z.mod_small. lia.
Qed.

Lemma gen_probe_value cap : 0 <= cap <= max_external_capacity w -> packed cap / B ^ (Z.of_nat m - 1) = Z.of_nat n.
Proof using Hw.
  intros Hc. rewrite max_value in Hc. destruct sizes as (_ & _ & _ & _ & _ & _ & -> & Hp & _). unfold packed.
  rewrite Z.add_comm, Z.div_add, Z.div_small by lia. lia.
Qed.

Definition ext (st : Storage) (p sz cap : Z) : Prop :=
  st = words m B p sz (packed cap) /\ 0 < p < 2 ^ 64 /\ 0 <= sz <= cap /\ cap <= max_external_capacity w.

Lemma gen_ext_words st p sz cap : ext st p sz cap -> 0 <= cap <= max_external_capacity w /\
  GetProbe w st = Z.of_nat n /\ word m B st 0 = p /\ word m B st 1 = sz /\ word m B st 2 = packed cap.
Proof using Hw.
  intros (-> & Hp & Hs & Hc). assert (0 <= cap <= max_external_capacity w) as Hc' by lia. split; [done|].
  pose proof (packed_range cap Hc') as Hr. pose proof (gen_probe_value cap Hc') as Hpv.
  destruct sizes as (Hn & Hn24 & Hm & HB & _ & HBm & _ & _ & _ & Ht & _). rewrite max_value in Hc. split.
  - unfold GetProbe. rewrite Hn at 1. rewrite (words_top m B HB _ _ _ Hm Hr). cbn [from_option id]. done.
  - rewrite HBm in Hr. apply (word_words m B HB); rewrite HBm; lia.
Qed.

Lemma probe_small st sz : small_shape n st sz -> GetProbe w st = Z.of_nat n - 1 - sz /\ 0 <= sz < Z.of_nat n.
Proof using Hw. intros (_ & Hs & Hl). unfold GetProbe. by rewrite Hl. Qed.

Lemma small_views st sz : small_shape n st sz -> is_small w st = true /\ is_external w st = false /\
  category w st = kSmall /\ size w st = sz /\ DecodeProbe w st = mkProbe kSmall sz (kSmallCapacity w).
Proof using Hw.
  intros H. destruct (probe_small _ _ H) as [Hp Hs]. unfold is_small, is_external, category, size, DecodeProbe, kExternalTag, DecodeSmallSizeFromProbe.
  rewrite Hp. unfold kSmallCapacity. rewrite (proj2 (Z.leb_le _ _)), (proj2 (Z.eqb_neq _ _)) by lia.
  split_and!; try done; [lia|]. f_equal. lia.
Qed.

Lemma ext_views st p sz cap : ext st p sz cap -> is_small w st = false /\ is_external w st = true /\
  category w st = kExternal /\ size w st = sz /\ capacity w st = cap /\ data w st = PHeap p /\ DecodeProbe w st = mkProbe kExternal sz cap.
Proof using Hw.
  intros H. destruct (gen_ext_words _ _ _ _ H) as (Hc & Hp & H0 & H1 & H2).
  assert (is_small w st = false) as Es by (unfold is_small; rewrite Hp; apply Z.leb_gt; unfold kSmallCapacity; lia).
  unfold capacity, data. rewrite Es. unfold is_external, category, size, DecodeProbe, kExternalTag. rewrite Hp.
  unfold kSmallCapacity. rewrite (proj2 (Z.leb_gt _ _)), (proj2 (Z.eqb_eq _ _)) by lia. rewrite H0, H1, H2, gen_unpack_value by done. done.
Qed.

Lemma set_size st sz old : small_shape n st old -> 0 <= sz < Z.of_nat n -> SetSmallSize w st sz = Ret (with_small_size n st sz).
Proof using Hw.
  intros H Hs. unfold SetSmallSize, SetProbe, EncodeSmallSizeToProbe. destruct (small_views _ _ H) as (-> & _).
  destruct H as (Hl & _ & _). destruct sizes as (_ & _ & _ & _ & HnB & _).
  rewrite (proj2 (Z.leb_le _ _)) by (unfold kSmallCapacity; lia). cbn [am_check mbind res_mbind res_bind].
  apply (two_writes n); [done|lia|]. rewrite wrap_small; [unfold kSmallCapacity; lia|].
  unfold in_u, kSmallCapacity. change (2 ^ kProbeBits w) with B. lia.
Qed.

Lemma cleared_shape k src : (k <= length src)%nat -> (k < n)%nat -> small_shape n (take k src ++ replicate (n - k) 0) (Z.of_nat n - 1).
Proof using Hw.
  intros Hk Hn. split; [apply length_copy_in; lia|]. split; [lia|].
  rewrite lookup_app_r by (rewrite length_take; lia). rewrite length_take, lookup_replicate_2 by lia. f_equal. lia.
Qed.

Lemma gen_init_external_run p sz cap : 0 < p < 2 ^ 64 -> 0 <= sz <= cap -> cap <= max_external_capacity w ->
  forall h, InitExternal w p sz cap h = (heap_write p (Z.to_nat sz) 0 ≫= fun _ => mret (words m B p sz (packed cap))) h.
Proof using Hw.
  intros Hp Hs Hc h. unfold InitExternal. rewrite (gen_pack_value cap) by lia.
  rewrite (proj2 (Z.eqb_neq p 0)), (proj2 (Z.leb_le sz cap)), (proj2 (Z.leb_le cap _)) by lia. done.
Qed.

#[program] Definition layout : Layout := {|
  slots := n; char_bytes := Z.of_nat w; max_capacity := max_external_capacity w; l_is_small := is_small w; l_is_external := is_external w;
  l_category := category w; l_data := data w; l_size := size w; l_capacity := capacity w; l_InitEmpty := InitEmpty w;
  l_InitSmall := InitSmall w; l_InitExternal := InitExternal w; l_SetSmallSize := SetSmallSize w;
  l_SetExternalSize := SetExternalSize w; l_TryPushBackInplace := TryPushBackInplace w;
  l_CheckInvariants := CheckInvariants w; ext_rep := ext |}.
Next Obligation. by destruct sizes as (_ & ? & _). Qed.
Next Obligation. lia. Qed.
Next Obligation. rewrite max_value. destruct sizes as (_ & _ & _ & _ & _ & _ & _ & _ & ? & ? & _). lia. Qed.
Next Obligation.
  intros st sz H. destruct (small_views _ _ H) as (E & ? & ? & ? & _). unfold data, capacity. rewrite E. done.
Qed.
Next Obligation. intros st p sz cap H. destruct (ext_views _ _ _ _ H) as (? & ? & ? & ? & ? & ? & _). done. Qed.
Next Obligation. intros st p sz cap (_ & ? & ? & ?). done. Qed.
Next Obligation.
  destruct sizes as (_ & Hn & _). unfold InitEmpty. apply (set_size _ _ (Z.of_nat n - 1)); [|lia].
  pose proof (cleared_shape 0 [] ltac:(cbn; lia) ltac:(lia)) as H. cbn [take app] in H. by rewrite Nat.sub_0_r in H.
Qed.
Next Obligation.
  intros src sz Hs Hl. destruct sizes as (_ & Hn & _). unfold InitSmall. rewrite (proj2 (Z.leb_le _ _)) by (unfold kSmallCapacity; lia).
  cbn [am_check mbind res_mbind res_bind]. rewrite copy_in_ret by lia. cbn [mbind res_mbind res_bind].
  apply (set_size _ _ (Z.of_nat n - 1)); [apply cleared_shape; lia|lia].
Qed.
Next Obligation.
  intros p sz cap Hp Hs Hc. eexists. split; [|by apply gen_init_external_run]. by repeat (split; [done|]).
Qed.
Next Obligation. intros st sz old H Hs. by apply (set_size _ _ old). Qed.
Next Obligation.
  intros st p sz cap sz' H Hs. destruct (ext_views _ _ _ _ H) as (_ & Ee & _ & _ & Ec & _). pose proof H as (-> & Hp & Hsz & Hc).
  assert (ext (words m B p sz' (packed cap)) p sz' cap) as H' by (repeat (split; [done || lia|]); lia).
  exists (words m B p sz' (packed cap)). split; [done|]. intros h. unfold SetExternalSize. rewrite Ee, Ec.
  rewrite (proj2 (Z.leb_le _ _)) by lia. rewrite set_word_size. destruct (gen_ext_words _ _ _ _ H') as (_ & _ & -> & _). done.
Qed.
Next Obligation.
  intros st sz ch H h. destruct (probe_small _ _ H) as [Hp Hs]. unfold TryPushBackInplace. rewrite Hp. unfold kExternalTag, DecodeSmallSizeFromProbe, kSmallCapacity.
  destruct sizes as (_ & _ & _ & _ & HnB & _).
  rewrite (proj2 (Z.eqb_neq _ _)), (proj2 (Z.ltb_ge _ _)) by lia. replace (Z.of_nat n - 1 - (Z.of_nat n - 1 - sz)) with sz by lia.
  destruct H as (Hl & _ & _). destruct (Z.ltb_spec sz (Z.of_nat n - 1)) as [Hlt|Hge].
  - rewrite (proj2 (Z.leb_gt _ _)) by lia. rewrite small_set_ret by lia. cbn [mbind res_mbind res_bind].
    unfold SetProbe, EncodeSmallSizeToProbe.
    pose proof (two_writes n (<[Z.to_nat sz := ch]> st) (sz + 1) (wrap (kProbeBits w) (kSmallCapacity w - (sz + 1)))
      ltac:(by rewrite length_insert) ltac:(lia)
      ltac:(rewrite wrap_small; unfold in_u, kSmallCapacity; try change (2 ^ kProbeBits w) with B; lia)) as E.
    destruct (small_set (<[Z.to_nat sz := ch]> st) (Z.to_nat (sz + 1)) 0) as [st1| |]; [|done..]. cbn [mbind res_mbind res_bind] in E |- *.
    unfold lift. by rewrite E.
  - rewrite (proj2 (Z.leb_le _ _)) by lia. done.
Qed.
Next Obligation.
  intros st p sz cap ch H. destruct (gen_ext_words _ _ _ _ H) as (Hcr & Hpr & H0 & H1 & H2). unfold TryPushBackInplace.
  rewrite Hpr, H0, H1, H2, gen_unpack_value by done. unfold kExternalTag, kSmallCapacity. rewrite (proj2 (Z.eqb_eq _ _)) by lia.
  pose proof H as (-> & Hp & Hsz & Hc). split.
  - intros Hlt. rewrite (proj2 (Z.leb_gt _ _)) by lia. rewrite set_word_size. eexists. split; [|done]. repeat (split; [done || lia|]); lia.
  - intros -> h. rewrite (proj2 (Z.leb_le _ _)) by lia. done.
Qed.
Next Obligation.
  intros st sz h H Hz. destruct (small_views _ _ H) as (_ & _ & _ & _ & E). destruct H as (_ & Hs & _).
  unfold CheckInvariants. rewrite E. cbn [dp_category]. unfold CheckSmallInvariants. cbn [dp_size dp_capacity].
  rewrite (proj2 (Z.leb_le _ _)), Z.eqb_refl by (unfold kSmallCapacity; lia). unfold CheckDataInvariants.
  rewrite (proj2 (Z.leb_le _ _)) by (unfold kSmallCapacity; lia). unfold vec_at. by rewrite Hz.
Qed.
Next Obligation.
  intros st p sz cap h b H Hb Hz. destruct (ext_views _ _ _ _ H) as (_ & _ & _ & _ & _ & _ & E).
  unfold CheckInvariants. rewrite E. cbn [dp_category]. unfold CheckExternalInvariants. cbn [dp_size dp_capacity].
  destruct (gen_ext_words _ _ _ _ H) as (Hc & _ & -> & _ & ->). destruct H as (_ & Hp & Hs & _). unfold UnpackTag.
  pose proof (gen_probe_value cap Hc) as Hpv. destruct sizes as (_ & _ & _ & _ & HnB & _ & HBt & Hpb & _).
  rewrite Z.shiftr_div_pow2, <- HBt, Hpv by done. rewrite wrap_small by (unfold in_u; change (2 ^ kProbeBits w) with B; lia).
  unfold kExternalTag, kSmallCapacity. rewrite (proj2 (Z.eqb_eq _ _)), (proj2 (Z.leb_le _ _)) by lia.
  unfold CheckDataInvariants. rewrite (proj2 (Z.eqb_neq p 0)), (proj2 (Z.leb_le _ _)) by lia.
  unfold mbind, exec_mbind, exec_bind, heap_read. cbn. by rewrite Hb, Hz.
Qed.
End Facts.
End GenericFacts.

(** The layouts of [char8_t], [char16_t] and [char32_t]; [char] uses [CharFacts.layout]. *)
Definition layout_u8 : Layout := GenericFacts.layout 1 ltac:(lia).
Definition layout_u16 : Layout := GenericFacts.layout 2 ltac:(lia).
Definition layout_u32 : Layout := GenericFacts.layout 4 ltac:(lia).
