(* ===== verification/AmStringCore.v ===== *)
(** * AmStringCore: the string core

    [include/amstring/core.hpp] and [growth_policy.hpp] over any [Layout] and any allocator.
    A computation acts on the storage of one string and on the heap. A source of characters
    is either outside the string or inside it, at an offset, which is what the aliasing
    tests compare. Exceptions are [Fail]; reads of cells never written, writes outside a
    block, overlapping copies and mismatched deallocations are [Panic]. *)
From S2P Require Import Prelude OverflowCheck AmStringLayout.

(** ** Allocation *)

(** [std::allocator]: a fresh block, or [bad_alloc]. *)
Class Allocator := {
  pick : Heap -> Z -> option Z;
  pick_fresh h n p : pick h n = Some p -> 0 < p < 2 ^ 64 /\ h !! p = None }.

Definition allocate `{Allocator} (n : Z) : Exec Heap Z := fun h =>
  match pick h n with
  | None => (Fail (ResourceExhausted "std::bad_alloc"), h)
  | Some p => (Ret p, <[p := replicate (Z.to_nat n) None]> h)
  end.
Definition deallocate (p n : Z) : Exec Heap unit := fun h =>
  match h !! p with
  | Some b => if (length b =? Z.to_nat n)%nat then (Ret tt, delete p h) else (Panic "deallocation with another size", h)
  | None => (Panic "deallocation of a dead block", h)
  end.

(** Characters [off..off + n) of a block, and writing a list of them. *)
Definition block_read (p : Z) (off n : nat) : Exec Heap (list Z) := fun h =>
  match h !! p with
  | Some b =>
      match mapM id (take n (drop off b)) with
      | Some l => if (off + n <=? length b)%nat then (Ret l, h) else (Panic "read out of range", h)
      | None => (Panic "read of an unwritten cell", h)
      end
  | None => (Panic "read of a dead block", h)
  end.
Definition block_write (p : Z) (off : nat) (l : list Z) : Exec Heap unit := fun h =>
  match h !! p with
  | Some b => if (off + length l <=? length b)%nat then (Ret tt, <[p := list_inserts off (Some <$> l) b]> h)
              else (Panic "write out of range", h)
  | None => (Panic "write to a dead block", h)
  end.

(** ** Computations on a string *)

Abbreviation M := (Exec (Storage * Heap)).
Definition on_heap {A} (m : Exec Heap A) : M A := fun '(st, h) => let '(r, h) := m h in (r, (st, h)).
Definition get_storage : M Storage := fun s => (Ret s.1, s).
Definition put_storage (st : Storage) : M unit := fun s => (Ret tt, (st, s.2)).

(** Where characters come from: elsewhere, or this string's own array from an offset. *)
Inductive Src := Foreign (l : list Z) | Self (off : nat).

Section Core.
Context {L : Layout} {AL : Allocator}.

Definition kSmallCapacity : Z := Z.of_nat slots - 1.
Definition data_ptr : M Ptr := st ← get_storage; mret (l_data st).
(* @src include/amstring/core.hpp:220-222 BasicStringCore::size *)
Definition get_size : M Z := st ← get_storage; mret (l_size st).
(* @src include/amstring/core.hpp:224-226 BasicStringCore::capacity *)
Definition get_capacity : M Z := st ← get_storage; mret (l_capacity st).

(** [Traits::move] and [Traits::copy] through the pointer [d]. *)
Definition read_at (d : Ptr) (off n : nat) : M (list Z) :=
  match d with
  | PHeap p => on_heap (block_read p off n)
  | PInline => st ← get_storage;
      lift (if (off + n <=? length st)%nat then Ret (take n (drop off st)) else Panic "read out of range")
  end.
Definition write_at (d : Ptr) (off : nat) (l : list Z) : M unit :=
  match d with
  | PHeap p => on_heap (block_write p off l)
  | PInline => st ← get_storage;
      if (off + length l <=? length st)%nat then put_storage (list_inserts off l st) else lift (Panic "write out of range")
  end.
Definition source_chars (d : Ptr) (src : Src) (n : nat) : M (list Z) :=
  match src with
  | Foreign l => lift (if (n <=? length l)%nat then Ret (take n l) else Panic "read out of range")
  | Self off => read_at d off n
  end.
(* @src include/amstring/char_algorithms.hpp:35-37 CharAlgorithm::move *)
Definition char_move (d : Ptr) (off : nat) (src : Src) (n : nat) : M unit :=
  l ← source_chars d src n; write_at d off l.
(** [copy] of overlapping ranges is undefined. *)
(* @src include/amstring/char_algorithms.hpp:31-33 CharAlgorithm::copy *)
Definition char_copy (d : Ptr) (off : nat) (src : Src) (n : nat) : M unit :=
  match src with
  | Self o => if (off + n <=? o)%nat || (o + n <=? off)%nat then char_move d off src n else lift (Panic "overlapping copy")
  | Foreign _ => char_move d off src n
  end.
(* @src include/amstring/char_algorithms.hpp:51-53 CharAlgorithm::assign *)
Definition char_assign (d : Ptr) (off n : nat) (ch : Z) : M unit := write_at d off (replicate n ch).

(** [PointerInRange(src, data(), data() + n)]. *)
(* @src include/amstring/core.hpp:616-619 BasicStringCore::PointerInRange *)
Definition PointerInRange (src : Src) (n : Z) : bool :=
  match src with Foreign _ => false | Self off => Z.of_nat off <? n end.

(** ** Capacities *)

(* @src include/amstring/core.hpp:621-624 BasicStringCore::ThrowCapacityError *)
Definition ThrowCapacityError {A} (operation : string) : Res A :=
  Fail (OutOfRange ("BasicStringCore::" +:+ operation +:+ " exceeds maximum encodable capacity")).
(* @src include/amstring/core.hpp:635-639 BasicStringCore::EnsureExternalCapacity *)
Definition EnsureExternalCapacity (capacity : Z) (operation : string) : Res unit :=
  if max_capacity <? capacity then ThrowCapacityError operation else Ret tt.
(* @src include/amstring/core.hpp:626-633 BasicStringCore::CheckedAddSize *)
Definition CheckedAddSize (lhs rhs : Z) : Res Z :=
  let '(over, result) := CheckOverflowAdd uint64_ty lhs rhs in
  if over then ThrowCapacityError "append" else _ ← EnsureExternalCapacity result "append"; Ret result.
(* @src include/amstring/core.hpp:641-648 BasicStringCore::AllocationCountForCapacity *)
Definition AllocationCountForCapacity (capacity : Z) : Res Z :=
  _ ← EnsureExternalCapacity capacity "allocate";
  let '(over, count) := CheckOverflowAdd uint64_ty capacity 1 in
  if over then ThrowCapacityError "allocate" else Ret count.

Definition kMinHeapCapacity : Z := 32.
(* @src include/amstring/growth_policy.hpp:21-23 DefaultGrowthPolicy::MinHeapCapacity *)
Definition MinHeapCapacity (required : Z) : Z := Z.max required kMinHeapCapacity.
(* @src include/amstring/growth_policy.hpp:27-37 DefaultGrowthPolicy::NextCapacity *)
Definition NextCapacity (old_cap required : Z) : Z :=
  if required <=? old_cap then old_cap
  else Z.max required (Z.max (wrap 64 (old_cap + old_cap / 2)) kMinHeapCapacity).

(* @src include/amstring/core.hpp:650-658 BasicStringCore::CheckedMinHeapCapacity *)
Definition CheckedMinHeapCapacity (required : Z) : Res Z :=
  _ ← EnsureExternalCapacity required "construct";
  let capacity := MinHeapCapacity required in
  if capacity <? required then ThrowCapacityError "construct"
  else _ ← EnsureExternalCapacity capacity "construct"; Ret capacity.

(* @src include/amstring/core.hpp:688-695 BasicStringCore::LargeCapacityThreshold *)
Definition LargeCapacityThreshold : Z :=
  let chars := (4096 + char_bytes - 1) / char_bytes in if chars =? 0 then 0 else chars - 1.
(* @src include/amstring/core.hpp:697-699 BasicStringCore::IsLargeCapacity *)
Definition IsLargeCapacity (capacity : Z) : bool := LargeCapacityThreshold <=? capacity.
(* @src include/amstring/core.hpp:674-686 BasicStringCore::LargeNextCapacity *)
Definition LargeNextCapacity (old_capacity required : Z) : Res Z :=
  let growth := old_capacity / 4 in
  let growth := if growth =? 0 then 1 else growth in
  let '(over, candidate) := CheckOverflowAdd uint64_ty old_capacity growth in
  if over then ThrowCapacityError "append" else Ret (Z.max required candidate).
(* @src include/amstring/core.hpp:701-724 BasicStringCore::RoundUpCapacityToPage *)
Definition RoundUpCapacityToPage (capacity : Z) : Res Z :=
  count ← AllocationCountForCapacity capacity;
  let '(over, bytes) := CheckOverflowMul uint64_ty count char_bytes in
  if over then ThrowCapacityError "round_to_page"
  else
    let remainder := bytes mod 4096 in
    if remainder =? 0 then Ret capacity
    else
      let '(over, rounded) := CheckOverflowAdd uint64_ty bytes (4096 - remainder) in
      if over then ThrowCapacityError "round_to_page"
      else
        let rounded_capacity := rounded / char_bytes - 1 in
        _ ← EnsureExternalCapacity rounded_capacity "round_to_page";
        Ret rounded_capacity.
(* @src include/amstring/core.hpp:660-672 BasicStringCore::CheckedNextCapacity *)
Definition CheckedNextCapacity (old_capacity required : Z) : Res Z :=
  _ ← EnsureExternalCapacity required "append";
  capacity ← if IsLargeCapacity old_capacity then LargeNextCapacity old_capacity required
             else Ret (NextCapacity old_capacity required);
  if capacity <? required then ThrowCapacityError "append"
  else
    _ ← EnsureExternalCapacity capacity "append";
    if IsLargeCapacity capacity then RoundUpCapacityToPage capacity else Ret capacity.

(** ** Construction and destruction *)

(* @src include/amstring/core.hpp:74-76 BasicStringCore::BasicStringCore *)
Definition make_empty : Exec Heap Storage := lift l_InitEmpty.

(** From characters outside any string being changed. *)
(* @src include/amstring/core.hpp:83-93 BasicStringCore::BasicStringCore (characters) *)
Definition make_from (l : list Z) : Exec Heap Storage :=
  let n := zlen l in
  if n <=? kSmallCapacity then lift (l_InitSmall l n)
  else
    count_cap ← lift (cap ← CheckedMinHeapCapacity n; count ← AllocationCountForCapacity cap; Ret (count, cap));
    ptr ← allocate count_cap.1;
    _ ← block_write ptr 0 l;
    _ ← block_write ptr (length l) [0];
    l_InitExternal ptr n count_cap.2.

(* @src include/amstring/core.hpp:739-746 BasicStringCore::DestroyHeapIfNeeded *)
Definition DestroyHeapIfNeeded : M unit :=
  st ← get_storage;
  if l_is_external st then
    _ ← match l_data st with
        | PHeap p => on_heap (deallocate p (l_capacity st + 1))
        | PInline => lift (Panic "deallocation of inline storage")
        end;
    st ← lift l_InitEmpty;
    put_storage st
  else mret tt.

(** The destructor of a string that goes out of scope; its storage is gone. *)
(* @src include/amstring/core.hpp:114-116 BasicStringCore::~BasicStringCore *)
Definition destroy (st : Storage) : Exec Heap unit := fun h =>
  let '(r, (_, h)) := DestroyHeapIfNeeded (st, h) in (r, h).

(* @src include/amstring/core.hpp:95-107 BasicStringCore::BasicStringCore (copy) *)
Definition make_copy (other : Storage) : Exec Heap Storage :=
  if l_is_small other then lift (l_InitSmall other (l_size other))
  else
    let sz := l_size other in
    let cap := l_capacity other in
    match l_data other with
    | PHeap q =>
        count ← lift (AllocationCountForCapacity cap);
        ptr ← allocate count;
        l ← block_read q 0 (Z.to_nat sz);
        _ ← block_write ptr 0 l;
        _ ← block_write ptr (Z.to_nat sz) [0];
        l_InitExternal ptr sz cap
    | PInline => lift (Panic "external storage without a block")
    end.

(** The new storages of the target and of the source. *)
(* @src include/amstring/core.hpp:748-767 BasicStringCore::MoveStorageFrom *)
Definition MoveStorageFrom (other : Storage) : Exec Heap (Storage * Storage) :=
  st ← (if l_is_small other then lift (l_InitSmall other (l_size other))
        else match l_data other with
             | PHeap p => l_InitExternal p (l_size other) (l_capacity other)
             | PInline => lift (Panic "external storage without a block")
             end);
  src ← lift l_InitEmpty;
  mret (st, src).

(** A temporary is built by [ctor], filled by [body], and swapped with this string; the
    old contents die with it. An exception destroys the temporary. *)
(* @src include/amstring/core.hpp:542-553 BasicStringCore::swap *)
Definition swap_with_temporary (ctor : Exec Heap Storage) (body : M unit) : M unit := fun '(st, h) =>
  match ctor h with
  | (Ret tmp, h) =>
      match body (tmp, h) with
      | (Ret _, (tmp, h)) =>
          match (_ ← l_CheckInvariants tmp; l_CheckInvariants st) h with
          | (Ret _, h) => let '(r, h) := destroy st h in (r, (tmp, h))
          | (Fail e, h) => (Fail e, (tmp, h))
          | (Panic w, h) => (Panic w, (tmp, h))
          end
      | (Fail e, (tmp, h)) => let '(_, h) := destroy tmp h in (Fail e, (st, h))
      | (Panic w, (tmp, h)) => (Panic w, (st, h))
      end
  | (Fail e, h) => (Fail e, (st, h))
  | (Panic w, h) => (Panic w, (st, h))
  end.

(** ** Capacity *)

(* @src include/amstring/core.hpp:846-852 BasicStringCore::SetSize *)
Definition SetSize (new_size : Z) : M unit :=
  st ← get_storage;
  st ← (if l_is_small st then lift (l_SetSmallSize st new_size) else on_heap (l_SetExternalSize st new_size));
  put_storage st.

(* @src include/amstring/core.hpp:769-779 BasicStringCore::Reallocate *)
Definition Reallocate (new_cap : Z) : M unit :=
  _ ← lift (EnsureExternalCapacity new_cap "reserve");
  sz ← get_size;
  _ ← lift (am_check (sz <=? new_cap) "new_cap >= sz");
  count ← lift (AllocationCountForCapacity new_cap);
  new_ptr ← on_heap (allocate count);
  d ← data_ptr;
  l ← read_at d 0 (Z.to_nat sz);
  _ ← on_heap (block_write new_ptr 0 l);
  _ ← on_heap (block_write new_ptr (Z.to_nat sz) [0]);
  _ ← DestroyHeapIfNeeded;
  st ← on_heap (l_InitExternal new_ptr sz new_cap);
  put_storage st.

(* @src include/amstring/core.hpp:244-250 BasicStringCore::clear *)
Definition clear : M unit := SetSize 0.
(* @src include/amstring/core.hpp:257-263 BasicStringCore::reserve *)
Definition reserve (new_cap : Z) : M unit :=
  cap ← get_capacity;
  if new_cap <=? cap then mret tt else Reallocate new_cap.

(* @src include/amstring/core.hpp:274-290 BasicStringCore::resize *)
Definition resize (n ch : Z) : M unit :=
  cur_sz ← get_size;
  if n <? cur_sz then
    d ← data_ptr;
    _ ← write_at d (Z.to_nat n) [0];
    SetSize n
  else if cur_sz <? n then
    cap ← get_capacity;
    _ ← (if cap <? n then reserve n else mret tt);
    d ← data_ptr;
    _ ← char_assign d (Z.to_nat cur_sz) (Z.to_nat (n - cur_sz)) ch;
    _ ← write_at d (Z.to_nat n) [0];
    SetSize n
  else mret tt.

(* @src include/amstring/core.hpp:298-318 BasicStringCore::shrink_to_fit *)
Definition shrink_to_fit : M unit :=
  sz ← get_size;
  cap ← get_capacity;
  if (cap <=? kSmallCapacity) || (sz =? cap) then mret tt
  else if sz <=? kSmallCapacity then
    d ← data_ptr;
    match d with
    | PHeap old_ptr =>
        l ← on_heap (block_read old_ptr 0 (Z.to_nat sz));
        st ← lift (l_InitSmall l sz);
        _ ← put_storage st;
        on_heap (deallocate old_ptr (cap + 1))
    | PInline => lift (Panic "external storage without a block")
    end
  else
    target_cap ← lift (if IsLargeCapacity cap || IsLargeCapacity sz then RoundUpCapacityToPage sz else Ret sz);
    if target_cap <? cap then Reallocate target_cap else mret tt.

(** ** Appending *)

(** The source is read before the old block is released; a source inside this string is
    read from the new copy. *)
(* @src include/amstring/core.hpp:463-494 BasicStringCore::append *)
Definition append (src : Src) (n : Z) : M unit :=
  if n =? 0 then mret tt
  else
    cur_sz ← get_size;
    new_sz ← lift (CheckedAddSize cur_sz n);
    cur_data ← data_ptr;
    let src_is_self_range := PointerInRange src cur_sz in
    cap ← get_capacity;
    if cap <? new_sz then
      new_cap ← lift (CheckedNextCapacity cap new_sz);
      count ← lift (AllocationCountForCapacity new_cap);
      new_ptr ← on_heap (allocate count);
      l ← read_at cur_data 0 (Z.to_nat cur_sz);
      _ ← on_heap (block_write new_ptr 0 l);
      l ← (match src with
           | Self off => if src_is_self_range then
                           (if (off + Z.to_nat n <=? Z.to_nat cur_sz)%nat then on_heap (block_read new_ptr off (Z.to_nat n))
                            else lift (Panic "overlapping copy"))
                         else source_chars cur_data src (Z.to_nat n)
           | Foreign _ => source_chars cur_data src (Z.to_nat n)
           end);
      _ ← on_heap (block_write new_ptr (Z.to_nat cur_sz) l);
      _ ← on_heap (block_write new_ptr (Z.to_nat new_sz) [0]);
      _ ← DestroyHeapIfNeeded;
      st ← on_heap (l_InitExternal new_ptr new_sz new_cap);
      put_storage st
    else
      _ ← (if src_is_self_range then char_move cur_data (Z.to_nat cur_sz) src (Z.to_nat n)
           else char_copy cur_data (Z.to_nat cur_sz) src (Z.to_nat n));
      _ ← write_at cur_data (Z.to_nat new_sz) [0];
      SetSize new_sz.

(* @src include/amstring/core.hpp:500-515 BasicStringCore::append (fill) *)
Definition append_fill (count ch : Z) : M unit :=
  if count =? 0 then mret tt
  else
    cur_sz ← get_size;
    new_sz ← lift (CheckedAddSize cur_sz count);
    cap ← get_capacity;
    _ ← (if cap <? new_sz then new_cap ← lift (CheckedNextCapacity cap new_sz); Reallocate new_cap else mret tt);
    d ← data_ptr;
    _ ← char_assign d (Z.to_nat cur_sz) (Z.to_nat count) ch;
    _ ← write_at d (Z.to_nat new_sz) [0];
    SetSize new_sz.

(* @src include/amstring/core.hpp:564-595 BasicStringCore::PushBackAfterInplaceFailed *)
Definition PushBackAfterInplaceFailed (ch : Z) : M unit :=
  st ← get_storage;
  match l_category st with
  | kSmall =>
      let size := kSmallCapacity in
      let new_sz := size + 1 in
      let new_cap := MinHeapCapacity new_sz in
      count ← lift (AllocationCountForCapacity new_cap);
      new_ptr ← on_heap (allocate count);
      l ← read_at (l_data st) 0 (Z.to_nat size);
      _ ← on_heap (block_write new_ptr 0 l);
      _ ← on_heap (block_write new_ptr (Z.to_nat size) [ch]);
      _ ← on_heap (block_write new_ptr (Z.to_nat new_sz) [0]);
      st ← on_heap (l_InitExternal new_ptr new_sz new_cap);
      put_storage st
  | kExternal =>
      let size := l_size st in
      new_cap ← lift (CheckedNextCapacity (l_capacity st) (size + 1));
      _ ← Reallocate new_cap;
      d ← data_ptr;
      _ ← write_at d (Z.to_nat size) [ch];
      _ ← write_at d (Z.to_nat (size + 1)) [0];
      st ← get_storage;
      st ← on_heap (l_SetExternalSize st (size + 1));
      put_storage st
  | kInvalid => lift (Panic "invalid storage")
  end.

(* @src include/amstring/core.hpp:517-524 BasicStringCore::push_back *)
Definition push_back (ch : Z) : M unit :=
  st ← get_storage;
  r ← on_heap (l_TryPushBackInplace st ch);
  _ ← put_storage r.2;
  if (r.1 : bool) then mret tt else PushBackAfterInplaceFailed ch.

(* @src include/amstring/core.hpp:530-536 BasicStringCore::pop_back *)
Definition pop_back : M unit :=
  current_size ← get_size;
  if current_size =? 0 then mret tt else SetSize (current_size - 1).

(** ** Replacing *)

(** A source inside this string is read while this string is unchanged. *)
(* @src include/amstring/core.hpp:324-343 BasicStringCore::assign *)
Definition assign (src : Src) (n : Z) : M unit :=
  _ ← lift (EnsureExternalCapacity n "assign");
  cap ← get_capacity;
  d ← data_ptr;
  if n <=? cap then
    sz ← get_size;
    _ ← (if n =? 0 then mret tt
         else if PointerInRange src sz then char_move d 0 src (Z.to_nat n) else char_copy d 0 src (Z.to_nat n));
    _ ← write_at d (Z.to_nat n) [0];
    SetSize n
  else
    l ← source_chars d src (Z.to_nat n);
    swap_with_temporary (make_from l) (mret tt).

(* @src include/amstring/core.hpp:352-368 BasicStringCore::assign (fill) *)
Definition assign_fill (count ch : Z) : M unit :=
  _ ← lift (EnsureExternalCapacity count "assign");
  cap ← get_capacity;
  if count <=? cap then
    d ← data_ptr;
    _ ← (if count =? 0 then mret tt else char_assign d 0 (Z.to_nat count) ch);
    _ ← write_at d (Z.to_nat count) [0];
    SetSize count
  else swap_with_temporary make_empty (append_fill count ch).

(* @src include/amstring/core.hpp:781-792 BasicStringCore::EraseRangeFast *)
Definition EraseRangeFast (pos erased : Z) : M unit :=
  if erased =? 0 then mret tt
  else
    d ← data_ptr;
    old_size ← get_size;
    let erase_end := pos + erased in
    _ ← char_move d (Z.to_nat pos) (Self (Z.to_nat erase_end)) (Z.to_nat (old_size - erase_end + 1));
    SetSize (old_size - erased).

(* @src include/amstring/core.hpp:794-799 BasicStringCore::ReplaceSameSizeFast *)
Definition ReplaceSameSizeFast (pos : Z) (src : Src) (src_count : Z) : M unit :=
  if src_count =? 0 then mret tt else d ← data_ptr; char_copy d (Z.to_nat pos) src (Z.to_nat src_count).

(* @src include/amstring/core.hpp:801-814 BasicStringCore::ReplaceShrinkFast *)
Definition ReplaceShrinkFast (pos erased : Z) (src : Src) (src_count : Z) : M unit :=
  d ← data_ptr;
  old_size ← get_size;
  let erase_end := pos + erased in
  _ ← (if src_count =? 0 then mret tt else char_copy d (Z.to_nat pos) src (Z.to_nat src_count));
  _ ← char_move d (Z.to_nat (pos + src_count)) (Self (Z.to_nat erase_end)) (Z.to_nat (old_size - erase_end + 1));
  SetSize (old_size - erased + src_count).

(* @src include/amstring/core.hpp:816-826 BasicStringCore::ReplaceGrowInplaceFast *)
Definition ReplaceGrowInplaceFast (pos erased : Z) (src : Src) (src_count : Z) : M unit :=
  d ← data_ptr;
  old_size ← get_size;
  let erase_end := pos + erased in
  _ ← char_move d (Z.to_nat (pos + src_count)) (Self (Z.to_nat erase_end)) (Z.to_nat (old_size - erase_end + 1));
  _ ← char_copy d (Z.to_nat pos) src (Z.to_nat src_count);
  SetSize (old_size - erased + src_count).

(** The parts of this string are read as the temporary is filled; filling it does not
    change this string. *)
(* @src include/amstring/core.hpp:828-835 BasicStringCore::ReplaceReallocateSlow *)
Definition ReplaceReallocateSlow (pos erased : Z) (src : Src) (src_count new_size : Z) : M unit :=
  d ← data_ptr;
  sz ← get_size;
  before ← read_at d 0 (Z.to_nat pos);
  middle ← source_chars d src (Z.to_nat src_count);
  after ← read_at d (Z.to_nat (pos + erased)) (Z.to_nat (sz - pos - erased));
  swap_with_temporary make_empty
    (_ ← reserve new_size;
     _ ← append (Foreign before) pos;
     _ ← append (Foreign middle) src_count;
     append (Foreign after) (sz - pos - erased)).

(* @src include/amstring/core.hpp:837-844 BasicStringCore::ReplaceFillReallocateSlow *)
Definition ReplaceFillReallocateSlow (pos erased fill_count ch new_size : Z) : M unit :=
  d ← data_ptr;
  sz ← get_size;
  before ← read_at d 0 (Z.to_nat pos);
  after ← read_at d (Z.to_nat (pos + erased)) (Z.to_nat (sz - pos - erased));
  swap_with_temporary make_empty
    (_ ← reserve new_size;
     _ ← append (Foreign before) pos;
     _ ← append_fill fill_count ch;
     append (Foreign after) (sz - pos - erased)).

(** The checks both forms of [replace_range] start with: the new size. *)
Definition replaced_size (old_size pos erased count : Z) : Res Z :=
  _ ← am_check (pos <=? old_size) "pos <= old_size";
  _ ← am_check (erased <=? old_size - pos) "erased <= old_size - pos";
  let '(over, new_size) := CheckOverflowAdd uint64_ty (old_size - erased) count in
  if over then ThrowCapacityError "replace" else _ ← EnsureExternalCapacity new_size "replace"; Ret new_size.

(* @src include/amstring/core.hpp:370-410 BasicStringCore::replace_range *)
Definition replace_range (pos erased : Z) (src : Src) (src_count : Z) : M unit :=
  old_size ← get_size;
  new_size ← lift (replaced_size old_size pos erased src_count);
  if (erased =? 0) && (src_count =? 0) then mret tt
  else if src_count =? 0 then EraseRangeFast pos erased
  else
    cap ← get_capacity;
    if negb (PointerInRange src (old_size + 1)) && ((src_count <=? erased) || (new_size <=? cap)) then
      if src_count =? erased then ReplaceSameSizeFast pos src src_count
      else if src_count <? erased then ReplaceShrinkFast pos erased src src_count
      else ReplaceGrowInplaceFast pos erased src src_count
    else ReplaceReallocateSlow pos erased src src_count new_size.

(* @src include/amstring/core.hpp:412-456 BasicStringCore::replace_range (fill) *)
Definition replace_fill (pos erased fill_count ch : Z) : M unit :=
  old_size ← get_size;
  new_size ← lift (replaced_size old_size pos erased fill_count);
  if (erased =? 0) && (fill_count =? 0) then mret tt
  else if fill_count =? 0 then EraseRangeFast pos erased
  else
    cap ← get_capacity;
    if cap <? new_size then ReplaceFillReallocateSlow pos erased fill_count ch new_size
    else
      d ← data_ptr;
      let erase_end := pos + erased in
      let tail := Z.to_nat (old_size - erase_end + 1) in
      if fill_count =? erased then char_assign d (Z.to_nat pos) (Z.to_nat fill_count) ch
      else if fill_count <? erased then
        _ ← char_assign d (Z.to_nat pos) (Z.to_nat fill_count) ch;
        _ ← char_move d (Z.to_nat (pos + fill_count)) (Self (Z.to_nat erase_end)) tail;
        SetSize new_size
      else
        _ ← char_move d (Z.to_nat (pos + fill_count)) (Self (Z.to_nat erase_end)) tail;
        _ ← char_assign d (Z.to_nat pos) (Z.to_nat fill_count) ch;
        SetSize new_size.
End Core.

(** ** Cells *)

(** The first cells of [bs] hold the characters [xs]. *)
Definition cells (bs : list (option Z)) (xs : list Z) : Prop := forall i x, xs !! i = Some x -> bs !! i = Some (Some x).

Lemma cells_write bs xs off l : cells bs xs -> (off <= length xs)%nat -> (off + length l <= length bs)%nat ->
  cells (list_inserts off (Some <$> l) bs) (take off xs ++ l ++ drop (off + length l) xs).
Proof.
  intros Hc Hoff Hl i x Hx. apply lookup_app_Some in Hx as [Hx|[Hi Hx]].
  - apply lookup_take_Some in Hx as [Hx Hi]. rewrite list_lookup_inserts_lt by done. by apply Hc.
  - rewrite length_take, Nat.min_l in * by done. apply lookup_app_Some in Hx as [Hx|[Hi' Hx]].
    + pose proof (lookup_lt_Some _ _ _ Hx). rewrite list_lookup_inserts by (rewrite ?length_fmap; lia).
      by rewrite list_lookup_fmap, Hx.
    + rewrite lookup_drop in Hx. rewrite list_lookup_inserts_ge by (rewrite length_fmap; lia). apply Hc.
      rewrite <- Hx. f_equal. lia.
Qed.

Lemma cells_take bs xs n : cells bs xs -> cells bs (take n xs).
Proof. intros Hc i x Hx. apply lookup_take_Some in Hx as [Hx _]. by apply Hc. Qed.

Lemma cells_app_l bs xs ys : cells bs (xs ++ ys) -> cells bs xs.
Proof. intros Hc i x Hx. apply Hc. by apply lookup_app_l_Some. Qed.

Lemma cells_length bs xs : cells bs xs -> (length xs <= length bs)%nat.
Proof.
  intros Hc. destruct (decide (length xs <= length bs)%nat) as [|Hn]; [done|].
  destruct (lookup_lt_is_Some_2 xs (length bs)) as [x Hx]; [lia|]. apply Hc, lookup_lt_Some in Hx. lia.
Qed.

Lemma cells_read bs xs off n : cells bs xs -> (off + n <= length xs)%nat -> take n (drop off bs) = Some <$> take n (drop off xs).
Proof.
  intros Hc Hn. pose proof (cells_length _ _ Hc). apply (list_eq_same_length _ _ n).
  - by rewrite length_fmap, length_take, length_drop; lia.
  - rewrite length_take, length_drop. lia.
  - intros i a b Hi Ha Hb. rewrite list_lookup_fmap in Hb. rewrite lookup_take_lt, lookup_drop in Ha by done. rewrite lookup_take_lt, lookup_drop in Hb by done.
    destruct (xs !! (off + i)%nat) as [x|] eqn:E; [|done]. cbn in Hb. rewrite (Hc _ _ E) in Ha. congruence.
Qed.

Lemma mapM_some (l : list Z) : mapM id (Some <$> l) = Some l.
Proof. induction l as [|x l IH]; cbn; [done|]. by rewrite IH. Qed.

(** Appending to the characters and terminating them, or cutting them. *)
Lemma cells_extend bs xs l : cells bs xs -> (length xs + length l <= length bs)%nat ->
  cells (list_inserts (length xs) (Some <$> l) bs) (xs ++ l).
Proof.
  intros Hc Hl. pose proof (cells_write bs xs (length xs) l Hc ltac:(lia) Hl) as H.
  rewrite take_ge, drop_ge, app_nil_r in H by lia. done.
Qed.

(** ** Running computations *)

Lemma exec_bind_run {Mem A B} (m : Exec Mem A) (f : A -> Exec Mem B) s a s' : m s = (Ret a, s') -> (m ≫= f) s = f a s'.
Proof. intros H. unfold mbind, exec_mbind, exec_bind. by rewrite H. Qed.
Lemma exec_bind_fail {Mem A B} (m : Exec Mem A) (f : A -> Exec Mem B) s e s' : m s = (Fail e, s') -> (m ≫= f) s = (Fail e, s').
Proof. intros H. unfold mbind, exec_mbind, exec_bind. by rewrite H. Qed.
Lemma on_heap_run {A} (m : Exec Heap A) st h r h' : m h = (r, h') -> on_heap m (st, h) = (r, (st, h')).
Proof. intros H. unfold on_heap. by rewrite H. Qed.

(** Run the first step of a sequence with the equation [H]. *)
Ltac run H := rewrite (exec_bind_run _ _ _ _ _ H).
Lemma get_storage_bind {B} (f : Storage -> M B) st h : (get_storage ≫= f) (st, h) = f st (st, h).
Proof. done. Qed.
Lemma put_storage_bind {B} (f : unit -> M B) st st' h : (put_storage st' ≫= f) (st, h) = f tt (st', h).
Proof. done. Qed.
Lemma lift_bind {Mem A B} (a : A) (f : A -> Exec Mem B) s : (lift (Ret a) ≫= f) s = f a s.
Proof. done. Qed.
Lemma mret_bind {Mem A B} (a : A) (f : A -> Exec Mem B) s : (mret a ≫= f) s = f a s.
Proof. done. Qed.
(** Steps that only move the storage or lift a value. *)
Ltac run_pure := repeat first [rewrite get_storage_bind | rewrite put_storage_bind | rewrite lift_bind | rewrite mret_bind].

Lemma block_write_run p off l h b : h !! p = Some b -> (off + length l <= length b)%nat ->
  block_write p off l h = (Ret tt, <[p := list_inserts off (Some <$> l) b]> h).
Proof. intros Hp Hl. unfold block_write. by rewrite Hp, (proj2 (Nat.leb_le _ _)). Qed.

Lemma block_read_run p off n h b xs : h !! p = Some b -> cells b xs -> (off + n <= length xs)%nat ->
  block_read p off n h = (Ret (take n (drop off xs)), h).
Proof.
  intros Hp Hc Hn. pose proof (cells_length _ _ Hc). unfold block_read. rewrite Hp, (cells_read _ xs), mapM_some by done.
  by rewrite (proj2 (Nat.leb_le _ _)) by lia.
Qed.

Lemma heap_write_run p i c h b : h !! p = Some b -> (i < length b)%nat -> heap_write p i c h = (Ret tt, <[p := <[i := Some c]> b]> h).
Proof. intros Hp Hi. unfold heap_write. by rewrite Hp, (proj2 (Nat.ltb_lt _ _)). Qed.

(** ** What a string holds *)

Section Facts.
Context {L : Layout} {AL : Allocator}.

(** The heap without the block this string owns. *)
Definition rest (st : Storage) (h : Heap) : Heap := match l_data st with PHeap p => delete p h | PInline => h end.

(** [st] is a string whose writable cells are [bs], [cap] characters and a terminator. *)
Inductive opened (h : Heap) : Storage -> list (option Z) -> Z -> Prop :=
| opened_small st sz : small_shape slots st sz -> opened h st (Some <$> st) (Z.of_nat slots - 1)
| opened_ext st p sz cap bs : ext_rep st p sz cap -> h !! p = Some bs -> length bs = S (Z.to_nat cap) -> opened h st bs cap.

(** The string [cs], with room for [cap] characters. *)
Definition holds (h : Heap) (st : Storage) (cs : list Z) (cap : Z) : Prop :=
  exists bs, opened h st bs cap /\ l_size st = zlen cs /\ zlen cs <= cap /\ cells bs (cs ++ [0]).

Lemma opened_length h st bs cap : opened h st bs cap -> length bs = S (Z.to_nat cap) /\ 0 <= cap <= max_capacity /\ l_capacity st = cap.
Proof using.
  pose proof slots_pos. pose proof max_capacity_range. intros [st' sz Hs|st' p sz cap' bs' He Hp Hl].
  - destruct (small_view _ _ Hs) as (_ & _ & _ & _ & _ & ->). destruct Hs as (Hl & _). rewrite length_fmap, Hl. lia.
  - destruct (ext_view _ _ _ _ He) as (_ & _ & _ & _ & _ & ->). apply ext_range in He. split; [done|lia].
Qed.

Lemma get_size_run h st cs cap : holds h st cs cap -> get_size (st, h) = (Ret (zlen cs), (st, h)).
Proof using. intros (bs & _ & <- & _). done. Qed.
Lemma get_capacity_run h st bs cap : opened h st bs cap -> get_capacity (st, h) = (Ret cap, (st, h)).
Proof using. intros H. destruct (opened_length _ _ _ _ H) as (_ & _ & <-). done. Qed.
Lemma data_ptr_run h st : data_ptr (st, h) = (Ret (l_data st), (st, h)).
Proof using. done. Qed.

(** Writing cells keeps the string open: the last cell, where an inline string has its
    probe, takes only a terminator. *)
Lemma write_at_run h st bs cap off l : opened h st bs cap -> (off + length l <= S (Z.to_nat cap))%nat ->
  ((off + length l = S (Z.to_nat cap))%nat -> l <> [] -> last l = Some 0) ->
  exists st' h', write_at (l_data st) off l (st, h) = (Ret tt, (st', h')) /\
    opened h' st' (list_inserts off (Some <$> l) bs) cap /\ l_data st' = l_data st /\ rest st' h' = rest st h.
Proof using.
  intros Ho Hlen Hlast. pose proof slots_pos as Hsl. destruct Ho as [st sz Hs|st p sz cap bs He Hp Hl].
  - destruct (small_view _ _ Hs) as (_ & _ & _ & Ed & _). pose proof Hs as (Hst & Hsz & Hpr).
    rewrite Ed. exists (list_inserts off l st), h. unfold write_at. run_pure.
    rewrite (proj2 (Nat.leb_le _ _)) by lia. split; [done|].
    assert (exists sz', small_shape slots (list_inserts off l st) sz') as [sz' Hs'].
    { destruct (decide ((off + length l)%nat = slots /\ l <> [])) as [[E Hne]|E].
      - exists (Z.of_nat slots - 1). split; [by rewrite length_inserts|]. split; [lia|].
        assert (0 < length l)%nat by (destruct l; cbn; [done|lia]). rewrite list_lookup_inserts by lia. rewrite last_lookup in Hlast.
        replace (slots - 1 - off)%nat with (pred (length l)) by lia. rewrite Hlast by (lia || done). f_equal. lia.
      - exists sz. split; [by rewrite length_inserts|]. split; [done|].
        destruct l as [|x l]; [done|]. rewrite list_lookup_inserts_ge; [done|]. cbn in *. destruct (decide (off + S (length l) = slots)%nat); [naive_solver|lia]. }
    destruct (small_view _ _ Hs') as (_ & _ & _ & Ed' & _). split; [|by unfold rest; rewrite Ed, Ed'].
    replace (list_inserts off (Some <$> l) (Some <$> st)) with (Some <$> list_inserts off l st); [by econstructor|].
    apply list_eq. intros i. rewrite list_lookup_fmap. destruct (decide (i < off)%nat).
    { rewrite !list_lookup_inserts_lt by done. by rewrite list_lookup_fmap. }
    destruct (decide (i < off + length l)%nat) as [Hi|Hi].
    { rewrite !list_lookup_inserts by (rewrite ?length_fmap; lia). by rewrite list_lookup_fmap. }
    rewrite !list_lookup_inserts_ge by (rewrite ?length_fmap; lia). by rewrite list_lookup_fmap.
  - destruct (ext_view _ _ _ _ He) as (_ & _ & _ & Ed & _). rewrite Ed. exists st, (<[p := list_inserts off (Some <$> l) bs]> h).
    unfold write_at. rewrite (on_heap_run _ _ _ _ _ (block_write_run p off l h bs Hp ltac:(lia))). split; [done|].
    split; [|split; [done|unfold rest; rewrite Ed; by rewrite delete_insert_eq]].
    econstructor; [exact He|by rewrite lookup_insert_eq|by rewrite length_inserts].
Qed.

Lemma read_at_run h st bs cap off n xs : opened h st bs cap -> cells bs xs -> (off + n <= length xs)%nat ->
  read_at (l_data st) off n (st, h) = (Ret (take n (drop off xs)), (st, h)).
Proof using.
  intros Ho Hc Hn. destruct Ho as [st sz Hs|st p sz cap bs He Hp Hl].
  - destruct (small_view _ _ Hs) as (_ & _ & _ & -> & _). unfold read_at. run_pure. unfold lift.
    pose proof (cells_length _ _ Hc) as Hle. rewrite length_fmap in Hle. rewrite (proj2 (Nat.leb_le _ _)) by lia.
    pose proof (cells_read _ _ _ _ Hc Hn) as E. rewrite <- fmap_drop, <- fmap_take in E. apply (inj (fmap Some)) in E. by rewrite E.
  - destruct (ext_view _ _ _ _ He) as (_ & _ & _ & -> & _). unfold read_at. apply on_heap_run. by eapply block_read_run.
Qed.

Lemma with_small_size_holds h st cs : length st = slots -> zlen cs < Z.of_nat slots -> cells (Some <$> st) cs ->
  holds h (with_small_size slots st (zlen cs)) cs (Z.of_nat slots - 1) /\
  l_data (with_small_size slots st (zlen cs)) = PInline.
Proof using.
  intros Hl Hs Hc. pose proof slots_pos as Hsl. unfold zlen in *.
  assert (small_shape slots (with_small_size slots st (Z.of_nat (length cs))) (Z.of_nat (length cs))) as Hsh.
  { unfold with_small_size. split; [by rewrite !length_insert|]. split; [lia|].
    by rewrite list_lookup_insert_eq by (rewrite length_insert; lia). }
  destruct (small_view _ _ Hsh) as (_ & _ & _ & Ed & Es & _). split; [|done].
  exists (Some <$> with_small_size slots st (Z.of_nat (length cs))). split; [by econstructor|]. split; [done|]. split; [unfold zlen; lia|].
  intros i x Hx. rewrite list_lookup_fmap. unfold with_small_size. rewrite Nat2Z.id. destruct (decide (i = slots - 1)%nat) as [->|Hi].
  - rewrite list_lookup_insert_eq by (rewrite length_insert; lia). apply lookup_lt_Some in Hx as Hlt. rewrite length_app in Hlt. cbn in Hlt.
    rewrite lookup_app_r in Hx by lia. assert (slots - 1 - length cs = 0)%nat as E by lia. rewrite E in Hx. cbn in Hx. injection Hx as <-.
    cbn. do 2 f_equal. lia.
  - rewrite list_lookup_insert_ne by lia. apply lookup_app_Some in Hx as [Hx|[Hle Hx]].
    + pose proof (lookup_lt_Some _ _ _ Hx). rewrite list_lookup_insert_ne by lia. rewrite <- list_lookup_fmap. by apply Hc.
    + apply list_lookup_singleton_Some in Hx as [Hz <-]. replace i with (length cs) by lia.
      by rewrite list_lookup_insert_eq by lia.
Qed.

Lemma SetSize_run h st bs cap cs : opened h st bs cap -> zlen cs <= cap -> cells bs cs ->
  exists st' h', SetSize (zlen cs) (st, h) = (Ret tt, (st', h')) /\ holds h' st' cs cap /\ rest st' h' = rest st h.
Proof using.
  intros Ho Hle Hc. unfold SetSize. run_pure. destruct Ho as [st sz Hs|st p sz cap bs He Hp Hl].
  - destruct (small_view _ _ Hs) as (-> & _ & _ & Ed & _). assert (0 <= zlen cs) by (unfold zlen; lia).
    rewrite (SetSmallSize_law st (zlen cs) sz Hs) by lia. run_pure.
    destruct (with_small_size_holds h st cs) as [Hh Ed']; [by destruct Hs|lia|done|]. eexists _, h. split; [done|]. split; [done|].
    unfold rest. by rewrite Ed, Ed'.
  - destruct (ext_view _ _ _ _ He) as (-> & _ & _ & Ed & _). assert (0 <= zlen cs) by (unfold zlen; lia).
    destruct (SetExternalSize_law st p sz cap (zlen cs) He) as (st' & He' & Hrun); [lia|].
    pose proof (heap_write_run p (Z.to_nat (zlen cs)) 0 h bs Hp ltac:(lia)) as Hw.
    assert (l_SetExternalSize st (zlen cs) h = (Ret st', <[p:=<[Z.to_nat (zlen cs) := Some 0]> bs]> h)) as E
      by (rewrite Hrun; by run Hw).
    rewrite (exec_bind_run _ _ _ _ _ (on_heap_run _ st _ _ _ E)).
    destruct (ext_view _ _ _ _ He') as (_ & _ & _ & Ed' & Es' & _).
    exists st', (<[p:=<[Z.to_nat (zlen cs) := Some 0]> bs]> h). split; [done|]. split.
    + exists (<[Z.to_nat (zlen cs) := Some 0]> bs). split; [econstructor; [exact He'|by rewrite lookup_insert_eq|by rewrite length_insert]|].
      split; [done|]. split; [done|]. intros i x Hx. unfold zlen. rewrite Nat2Z.id. apply lookup_app_Some in Hx as [Hx|[Hi Hx]].
      * pose proof (lookup_lt_Some _ _ _ Hx). rewrite list_lookup_insert_ne by lia. by apply Hc.
      * apply list_lookup_singleton_Some in Hx as [Hz <-]. replace i with (length cs) by lia.
        rewrite list_lookup_insert_eq; [done|]. unfold zlen in *. lia.
    + unfold rest. rewrite Ed, Ed'. by rewrite delete_insert_eq.
Qed.

(** ** New blocks *)

(** A block of [cap + 1] cells filled with the characters [cs] and a terminator. *)
Definition filled (b : list (option Z)) (cs : list Z) (cap : Z) : Prop :=
  length b = S (Z.to_nat cap) /\ cells b (cs ++ [0]) /\ zlen cs <= cap.

Lemma fill_block p cs cap h : zlen cs <= cap ->
  exists b, filled b cs cap /\
    block_write p 0 cs (<[p := replicate (S (Z.to_nat cap)) None]> h) = (Ret tt, <[p := list_inserts 0 (Some <$> cs) (replicate (S (Z.to_nat cap)) None)]> h) /\
    block_write p (length cs) [0] (<[p := list_inserts 0 (Some <$> cs) (replicate (S (Z.to_nat cap)) None)]> h) = (Ret tt, <[p := b]> h).
Proof using.
  intros Hc. unfold zlen in Hc. set (b0 := replicate (S (Z.to_nat cap)) (None : option Z)). assert (length b0 = S (Z.to_nat cap)) as Hl0 by apply length_replicate.
  pose proof (cells_extend b0 [] cs ltac:(intros ? ? H; by rewrite lookup_nil in H) ltac:(rewrite Hl0; cbn [length]; lia)) as H1. cbn [length app] in H1.
  pose proof (cells_extend _ cs [0] H1 ltac:(rewrite length_inserts, Hl0; cbn [length]; lia)) as H2.
  eexists. split; [split; [|split; [exact H2|unfold zlen; lia]]; by rewrite !length_inserts|].
  rewrite (block_write_run p 0 cs _ b0), insert_insert_eq by (rewrite ?lookup_insert_eq, ?Hl0; (done || lia)). split; [done|].
  rewrite (block_write_run p (length cs) [0] _ (list_inserts 0 (Some <$> cs) b0)), insert_insert_eq;
    [done|by rewrite lookup_insert_eq|rewrite length_inserts, Hl0; cbn [length]; lia].
Qed.

(** Taking over a filled block. *)
Lemma InitExternal_run p cs cap h b : 0 < p < 2 ^ 64 -> cap <= max_capacity -> h !! p = Some b -> filled b cs cap ->
  exists st' h', l_InitExternal p (zlen cs) cap h = (Ret st', h') /\ holds h' st' cs cap /\ rest st' h' = delete p h /\ l_data st' = PHeap p.
Proof using.
  intros Hp Hm Hb (Hl & Hc & Hle). assert (0 <= zlen cs) by (unfold zlen; lia).
  destruct (InitExternal_law p (zlen cs) cap Hp) as (st' & He & Hrun); [lia|lia|].
  destruct (ext_view _ _ _ _ He) as (_ & _ & _ & Ed & Es & _).
  exists st', (<[p := <[Z.to_nat (zlen cs) := Some 0]> b]> h). rewrite Hrun.
  pose proof (heap_write_run p (Z.to_nat (zlen cs)) 0 h b Hb ltac:(lia)) as Hw. run Hw. split; [done|].
  split; [|split; [unfold rest; rewrite Ed; by rewrite delete_insert_eq|done]].
  exists (<[Z.to_nat (zlen cs) := Some 0]> b). split; [econstructor; [exact He|by rewrite lookup_insert_eq|by rewrite length_insert]|].
  split; [done|]. split; [done|].
  assert (b !! Z.to_nat (zlen cs) = Some (Some 0)) as E.
  { apply Hc. unfold zlen. rewrite Nat2Z.id. by rewrite lookup_app_r, Nat.sub_diag by lia. }
  by rewrite list_insert_id.
Qed.

Lemma destroy_run h st bs cap : opened h st bs cap -> exists st0, DestroyHeapIfNeeded (st, h) = (Ret tt, (st0, rest st h)).
Proof using.
  intros Ho. unfold DestroyHeapIfNeeded. run_pure. destruct Ho as [st sz Hs|st p sz cap bs He Hp Hl].
  - destruct (small_view _ _ Hs) as (_ & -> & _ & Ed & _). exists st. unfold rest. by rewrite Ed.
  - destruct (ext_view _ _ _ _ He) as (_ & -> & _ & Ed & _ & Ec). unfold rest. rewrite Ed, Ec.
    assert (deallocate p (cap + 1) h = (Ret tt, delete p h)) as E.
    { unfold deallocate. rewrite Hp, (proj2 (Nat.eqb_eq _ _)); [done|]. apply ext_range in He. lia. }
    rewrite (exec_bind_run _ _ _ _ _ (on_heap_run _ st _ _ _ E)). rewrite InitEmpty_law. run_pure. by eexists.
Qed.

(** ** Capacities *)

(** An exception the operations document: the capacity limit, or no memory. *)
Definition thrown (e : Status) : Prop := code e = StatusCode.kOutOfRange \/ code e = StatusCode.kResourceExhausted.

(** A capacity computation gives at least [low], within the limit, or throws. *)
Definition gives_capacity (low : Z) (r : Res Z) : Prop :=
  match r with Ret c => low <= c <= max_capacity | Fail e => thrown e | Panic _ => False end.

Lemma ensure_cases c op : (c <= max_capacity /\ EnsureExternalCapacity c op = Ret tt) \/
  (max_capacity < c /\ exists e, EnsureExternalCapacity c op = Fail e /\ thrown e).
Proof using.
  unfold EnsureExternalCapacity. destruct (Z.ltb_spec max_capacity c); [right|left; done].
  split; [done|]. eexists. split; [done|by left].
Qed.

Lemma add_u64 a b : 0 <= a -> 0 <= b -> a + b < 2 ^ 64 -> CheckOverflowAdd uint64_ty a b = (false, a + b).
Proof using.
  intros Ha Hb Hs. unfold CheckOverflowAdd. change (int_trunc uint64_ty (a + b)) with (wrap 64 (a + b)).
  rewrite wrap_small by (unfold in_u; lia). by rewrite Z.eqb_refl.
Qed.

Lemma allocation_count cap : 0 <= cap <= max_capacity -> AllocationCountForCapacity cap = Ret (cap + 1).
Proof using.
  intros Hc. pose proof max_capacity_range. unfold AllocationCountForCapacity.
  destruct (ensure_cases cap "allocate") as [[_ ->]|[? _]]; [|lia]. cbn [mbind res_mbind res_bind]. by rewrite add_u64 by lia.
Qed.

Lemma min_heap_capacity n : 0 <= n <= max_capacity -> exists c, CheckedMinHeapCapacity n = Ret c /\ n <= c <= max_capacity.
Proof using.
  intros Hn. pose proof max_capacity_range. unfold CheckedMinHeapCapacity, MinHeapCapacity, kMinHeapCapacity.
  destruct (ensure_cases n "construct") as [[_ ->]|[? _]]; [|lia]. cbn [mbind res_mbind res_bind].
  rewrite (proj2 (Z.ltb_ge _ _)) by lia. destruct (ensure_cases (Z.max n 32) "construct") as [[_ ->]|[? _]]; [|lia].
  eexists. split; [done|]. lia.
Qed.

Lemma round_up_capacity c : 0 <= c <= max_capacity -> gives_capacity c (RoundUpCapacityToPage c).
Proof using.
  intros Hc. pose proof max_capacity_range as Hm. pose proof char_bytes_ok as Hb. unfold RoundUpCapacityToPage.
  rewrite (allocation_count c Hc). cbn [mbind res_mbind res_bind].
  destruct (CheckOverflowMul uint64_ty (c + 1) char_bytes) as [over bytes] eqn:E1.
  destruct over; [by left|]. assert (bytes = (c + 1) * char_bytes) as ->.
  { unfold CheckOverflowMul in E1. injection E1 as E1 <-. by apply negb_false_iff, Z.eqb_eq in E1. }
  destruct (_ =? 0); [cbn; lia|]. destruct (CheckOverflowAdd uint64_ty _ _) as [over rounded] eqn:E2.
  destruct over; [by left|]. assert (rounded = (c + 1) * char_bytes + (4096 - (c + 1) * char_bytes mod 4096)) as ->.
  { unfold CheckOverflowAdd in E2. injection E2 as E2 <-. by apply negb_false_iff, Z.eqb_eq in E2. }
  destruct (ensure_cases (((c + 1) * char_bytes + (4096 - (c + 1) * char_bytes mod 4096)) / char_bytes - 1) "round_to_page")
    as [[Hle ->]|[_ (e & -> & He)]]; [|done]. cbn. split; [|done].
  pose proof (Z.mod_pos_bound ((c + 1) * char_bytes) 4096 ltac:(lia)).
  enough (c + 1 <= ((c + 1) * char_bytes + (4096 - (c + 1) * char_bytes mod 4096)) / char_bytes) by lia.
  apply Z.div_le_lower_bound; lia.
Qed.

Lemma next_capacity old req : 0 <= old <= max_capacity -> 0 <= req -> gives_capacity req (CheckedNextCapacity old req).
Proof using.
  intros Ho Hr. unfold CheckedNextCapacity.
  destruct (ensure_cases req "append") as [[Hreq ->]|[_ (e & -> & He)]]; [|done]. cbn [mbind res_mbind res_bind].
  destruct (if IsLargeCapacity old then _ else _) as [c|e|w] eqn:E; cbn [mbind res_mbind res_bind].
  - destruct (Z.ltb_spec c req) as [|Hge]; [by left|].
    destruct (ensure_cases c "append") as [[Hc ->]|[_ (e & -> & He)]]; [|done]. cbn [mbind res_mbind res_bind].
    destruct (IsLargeCapacity c); [|cbn; lia]. pose proof (round_up_capacity c ltac:(lia)) as Hru.
    destruct (RoundUpCapacityToPage c); cbn in *; [lia|done|done].
  - destruct (IsLargeCapacity old); [|done]. unfold LargeNextCapacity in E. destruct (CheckOverflowAdd _ _ _) as [over cand].
    destruct over; [|done]. injection E as <-. by left.
  - destruct (IsLargeCapacity old); [|done]. unfold LargeNextCapacity in E. destruct (CheckOverflowAdd _ _ _) as [over cand]. by destruct over.
Qed.

(** ** Outcomes *)

(** The string becomes [cs'] and no other block changes; or the operation throws and
    neither the string nor the heap has changed. *)
Definition outcome (h : Heap) (st : Storage) (cs' : list Z) (x : Res unit * (Storage * Heap)) : Prop :=
  match x with
  | (Ret _, (st', h')) => (exists cap', holds h' st' cs' cap') /\ rest st' h' = rest st h
  | (Fail e, (st', h')) => st' = st /\ h' = h /\ thrown e
  | (Panic _, _) => False
  end.

Lemma opened_insert h st bs cap p b : opened h st bs cap -> h !! p = None ->
  opened (<[p := b]> h) st bs cap /\ rest st (<[p := b]> h) = <[p := b]> (rest st h) /\ rest st h !! p = None.
Proof using.
  intros Ho Hp. destruct Ho as [st sz Hs|st q sz cap bs He Hq Hl].
  - destruct (small_view _ _ Hs) as (_ & _ & _ & Ed & _). unfold rest. rewrite Ed. split; [by econstructor|done].
  - destruct (ext_view _ _ _ _ He) as (_ & _ & _ & Ed & _). unfold rest. rewrite Ed.
    assert (q <> p) by (intros ->; congruence). split; [econstructor; [done|by rewrite lookup_insert_ne|done]|].
    split; [by rewrite delete_insert_ne|by rewrite lookup_delete_ne].
Qed.

(** The last steps of every reallocation: release the old block, adopt the new one. *)
Lemma adopt_run h st bs cap p b cs' cap' : opened h st bs cap -> h !! p = None -> 0 < p < 2 ^ 64 -> filled b cs' cap' -> cap' <= max_capacity ->
  exists st' h', (_ ← DestroyHeapIfNeeded; st ← on_heap (l_InitExternal p (zlen cs') cap'); put_storage st) (st, <[p := b]> h) =
    (Ret tt, (st', h')) /\ holds h' st' cs' cap' /\ rest st' h' = rest st h /\ l_data st' = PHeap p.
Proof using.
  intros Ho Hp Hpr Hf Hc. destruct (opened_insert _ _ _ _ p b Ho Hp) as (Ho' & Hr & Hn).
  destruct (destroy_run _ _ _ _ Ho') as [st0 Hd]. run Hd. rewrite Hr.
  destruct (InitExternal_run p cs' cap' (<[p := b]> (rest st h)) b Hpr Hc) as (st' & h' & Hi & Hh & Hrest & Ed);
    [by rewrite lookup_insert_eq|done|].
  rewrite (exec_bind_run _ _ _ _ _ (on_heap_run _ st0 _ _ _ Hi)). exists st', h'. split_and!; [done|done| |done].
  rewrite Hrest. by rewrite delete_insert_id.
Qed.

(** Allocation either throws or gives a fresh block. *)
Lemma allocate_cases n h : (exists e, allocate n h = (Fail e, h) /\ thrown e) \/
  (exists p, allocate n h = (Ret p, <[p := replicate (Z.to_nat n) None]> h) /\ 0 < p < 2 ^ 64 /\ h !! p = None).
Proof using.
  unfold allocate. destruct (pick h n) as [p|] eqn:E; [right|left].
  - exists p. by apply pick_fresh in E as [? ?].
  - eexists. split; [done|by right].
Qed.

Lemma Reallocate_run h st cs cap new_cap : holds h st cs cap -> zlen cs <= new_cap ->
  match Reallocate new_cap (st, h) with
  | (Ret _, (st', h')) => holds h' st' cs new_cap /\ rest st' h' = rest st h /\ exists p, l_data st' = PHeap p
  | (Fail e, (st', h')) => st' = st /\ h' = h /\ thrown e
  | (Panic _, _) => False
  end.
Proof using.
  intros Hh Hle. pose proof Hh as (bs & Ho & Hsz & Hcap & Hc). assert (0 <= zlen cs) as Hz by (unfold zlen; lia).
  unfold Reallocate. destruct (ensure_cases new_cap "reserve") as [[Hm ->]|[_ (e & -> & He)]]; [|done]. run_pure.
  run (get_size_run _ _ _ _ Hh). rewrite (proj2 (Z.leb_le _ _)) by lia. cbn [am_check]. run_pure.
  rewrite allocation_count by lia. run_pure.
  destruct (allocate_cases (new_cap + 1) h) as [(e & Ea & He)|(p & Ea & Hp & Hn)];
    [by rewrite (exec_bind_fail _ _ _ _ _ (on_heap_run _ st _ _ _ Ea))|].
  rewrite (exec_bind_run _ _ _ _ _ (on_heap_run _ st _ _ _ Ea)). run (data_ptr_run (<[p:=replicate (Z.to_nat (new_cap + 1)) None]> h) st).
  replace (Z.to_nat (new_cap + 1)) with (S (Z.to_nat new_cap)) by lia.
  destruct (opened_insert _ _ _ _ p (replicate (S (Z.to_nat new_cap)) None) Ho Hn) as (Ho' & _).
  pose proof (read_at_run _ _ _ _ 0 (Z.to_nat (zlen cs)) _ Ho' Hc ltac:(rewrite length_app; unfold zlen; cbn; lia)) as Hr.
  rewrite drop_0, take_app_length' in Hr by (unfold zlen; lia). run Hr.
  destruct (fill_block p cs new_cap h Hle) as (b & Hf & W1 & W2).
  rewrite (exec_bind_run _ _ _ _ _ (on_heap_run _ st _ _ _ W1)).
  replace (Z.to_nat (zlen cs)) with (length cs) by (unfold zlen; lia).
  rewrite (exec_bind_run _ _ _ _ _ (on_heap_run _ st _ _ _ W2)).
  destruct (adopt_run h st bs cap p b cs new_cap Ho Hn Hp Hf Hm) as (st' & h' & E & Hh' & Hrest & Ed). rewrite E. eauto.
Qed.

(** ** Editing in place *)

Lemma write_cells h st bs cap off l xs : opened h st bs cap -> cells bs xs -> (off <= length xs)%nat ->
  (off + length l <= Z.to_nat cap)%nat \/ ((off + length l <= S (Z.to_nat cap))%nat /\ last l = Some 0) ->
  exists st' h' bs', write_at (l_data st) off l (st, h) = (Ret tt, (st', h')) /\ opened h' st' bs' cap /\
    cells bs' (take off xs ++ l ++ drop (off + length l) xs) /\ l_data st' = l_data st /\ rest st' h' = rest st h.
Proof using.
  intros Ho Hc Hoff Hl. destruct (opened_length _ _ _ _ Ho) as (Hlen & _).
  destruct (write_at_run h st bs cap off l Ho) as (st' & h' & E & Ho' & Ed & Hr); [lia|intros; destruct Hl as [?|[_ ?]]; [lia|done]|].
  exists st', h', (list_inserts off (Some <$> l) bs). split_and!; try done. apply cells_write; [done|done|lia].
Qed.

(** A terminator at [n], then the size. *)
Lemma terminate_run h st bs cap cs : opened h st bs cap -> cells bs cs -> zlen cs <= cap ->
  exists st' h', (_ ← write_at (l_data st) (length cs) [0]; SetSize (zlen cs)) (st, h) = (Ret tt, (st', h')) /\
    holds h' st' cs cap /\ rest st' h' = rest st h.
Proof using.
  intros Ho Hc Hle. destruct (opened_length _ _ _ _ Ho) as (Hlen & _).
  destruct (write_cells h st bs cap (length cs) [0] cs Ho Hc) as (st1 & h1 & bs1 & E1 & Ho1 & Hc1 & Ed1 & Hr1); [lia|right; split; [unfold zlen in *; cbn; lia|done]|].
  run E1. rewrite take_ge, drop_ge, app_nil_r in Hc1 by (cbn; lia).
  destruct (SetSize_run h1 st1 bs1 cap cs Ho1 Hle (cells_app_l _ _ _ Hc1)) as (st2 & h2 & E2 & Hh2 & Hr2). exists st2, h2. split; [done|]. split; [done|congruence].
Qed.

(** Characters added at the end, then a terminator, then the size. *)
Lemma extend_run h st cs cap l : holds h st cs cap -> zlen (cs ++ l) <= cap ->
  exists st' h', (_ ← write_at (l_data st) (length cs) l; _ ← write_at (l_data st) (length (cs ++ l)) [0]; SetSize (zlen (cs ++ l))) (st, h) =
    (Ret tt, (st', h')) /\ holds h' st' (cs ++ l) cap /\ rest st' h' = rest st h.
Proof using.
  intros (bs & Ho & _ & _ & Hc) Hle. unfold zlen in Hle. rewrite length_app in Hle.
  destruct (write_cells h st bs cap (length cs) l cs Ho (cells_app_l _ _ _ Hc)) as (st1 & h1 & bs1 & E1 & Ho1 & Hc1 & Ed1 & Hr1); [lia|left; lia|].
  run E1. rewrite take_ge, drop_ge, app_nil_r in Hc1 by (cbn; lia). rewrite <- Ed1.
  destruct (terminate_run h1 st1 bs1 cap (cs ++ l) Ho1 Hc1) as (st2 & h2 & E2 & Hh2 & Hr2); [unfold zlen; rewrite length_app; lia|].
  exists st2, h2. split; [done|]. split; [done|congruence].
Qed.

Lemma outcome_ret h st cs' st' h' cap' u : holds h' st' cs' cap' -> rest st' h' = rest st h -> outcome h st cs' (Ret u, (st', h')).
Proof using. intros Hh Hr. split; [by exists cap'|done]. Qed.

Lemma outcome_same h st cs cap u : holds h st cs cap -> outcome h st cs (Ret u, (st, h)).
Proof using. intros Hh. by eapply outcome_ret. Qed.

(** A step that may throw without changes, followed by one that starts from its result. *)
Lemma outcome_trans h st h1 st1 cs' x : rest st1 h1 = rest st h -> (forall e s, x = (Fail e, s) -> False) ->
  outcome h1 st1 cs' x -> outcome h st cs' x.
Proof using.
  intros Hr Hx. destruct x as [[u|e|w] [st' h']]; cbn; [intros [Hc Hr']; split; [done|congruence]|by destruct (Hx e (st', h'))|done].
Qed.

(** ** Capacity operations *)

Lemma SetSize_prefix h st cs cap n : holds h st cs cap -> 0 <= n <= zlen cs ->
  outcome h st (take (Z.to_nat n) cs) (SetSize n (st, h)).
Proof using.
  intros (bs & Ho & _ & Hle & Hc) Hn. unfold zlen in *.
  destruct (SetSize_run h st bs cap (take (Z.to_nat n) cs) Ho) as (st' & h' & E & Hh & Hr).
  - unfold zlen. rewrite length_take. lia.
  - apply cells_take. by eapply cells_app_l.
  - replace (zlen (take (Z.to_nat n) cs)) with n in E by (unfold zlen; rewrite length_take; lia). rewrite E. by eapply outcome_ret.
Qed.

Lemma clear_ok h st cs cap : holds h st cs cap -> outcome h st [] (clear (st, h)).
Proof using. intros Hh. apply (SetSize_prefix h st cs cap 0 Hh). unfold zlen. lia. Qed.

Lemma pop_back_ok h st cs cap : holds h st cs cap -> outcome h st (removelast cs) (pop_back (st, h)).
Proof using.
  intros Hh. unfold pop_back. run (get_size_run _ _ _ _ Hh). destruct (Z.eqb_spec (zlen cs) 0) as [E|E].
  - assert (cs = []) as -> by (apply length_zero_iff_nil; unfold zlen in E; lia). by eapply outcome_same.
  - pose proof (SetSize_prefix h st cs cap (zlen cs - 1) Hh ltac:(unfold zlen in *; lia)) as H.
    rewrite removelast_firstn_len. replace (Z.to_nat (zlen cs - 1)) with (pred (length cs)) in H by (unfold zlen in *; lia). done.
Qed.

Lemma Reallocate_outcome h st cs cap new_cap : holds h st cs cap -> zlen cs <= new_cap -> outcome h st cs (Reallocate new_cap (st, h)).
Proof using.
  intros Hh Hle. pose proof (Reallocate_run h st cs cap new_cap Hh Hle) as H. destruct (Reallocate new_cap (st, h)) as [[u|e|w] [st' h']]; [|done..].
  destruct H as (? & ? & _). by eapply outcome_ret.
Qed.

Lemma reserve_ok h st cs cap n : holds h st cs cap -> outcome h st cs (reserve n (st, h)).
Proof using.
  intros Hh. pose proof Hh as (bs & Ho & _ & Hle & _). unfold reserve. run (get_capacity_run _ _ _ _ Ho).
  destruct (Z.leb_spec n cap); [by eapply outcome_same|]. eapply Reallocate_outcome; [done|lia].
Qed.

(** Growing to room for [n], then a step that cannot throw. *)
Lemma grow_then h st cs cap cs' new_cap (k : M unit) : holds h st cs cap -> zlen cs <= new_cap ->
  (forall h' st', holds h' st' cs new_cap -> outcome h' st' cs' (k (st', h')) /\ forall e s, k (st', h') = (Fail e, s) -> False) ->
  outcome h st cs' ((Reallocate new_cap ≫= fun _ => k) (st, h)).
Proof using.
  intros Hh Hle Hk. pose proof (Reallocate_run h st cs cap new_cap Hh Hle) as H.
  destruct (Reallocate new_cap (st, h)) as [[u|e|w] [st' h']] eqn:E; [|by rewrite (exec_bind_fail _ _ _ _ _ E)|done].
  run E. destruct H as (Hh' & Hr & _). destruct (Hk h' st' Hh') as [H1 H2]. by eapply outcome_trans.
Qed.

Lemma fill_end_run h st cs cap n ch : holds h st cs cap -> zlen cs < n <= cap ->
  outcome h st (cs ++ replicate (Z.to_nat (n - zlen cs)) ch)
    ((d ← data_ptr; _ ← char_assign d (length cs) (Z.to_nat (n - zlen cs)) ch; _ ← write_at d (Z.to_nat n) [0]; SetSize n) (st, h)) /\
  forall e s, (d ← data_ptr; _ ← char_assign d (length cs) (Z.to_nat (n - zlen cs)) ch; _ ← write_at d (Z.to_nat n) [0]; SetSize n) (st, h) = (Fail e, s) -> False.
Proof using.
  intros Hh Hn. set (l := replicate (Z.to_nat (n - zlen cs)) ch). assert (zlen (cs ++ l) = n) as El.
  { unfold zlen in *. rewrite length_app. unfold l. rewrite length_replicate. lia. }
  destruct (extend_run h st cs cap l Hh ltac:(lia)) as (st' & h' & E & Hh' & Hr).
  replace (length (cs ++ l)) with (Z.to_nat n) in E by (rewrite <- El; unfold zlen; lia). rewrite El in E.
  run (data_ptr_run h st). unfold char_assign. fold l. rewrite E. split; [by eapply outcome_ret|by intros e s [=]].
Qed.

Lemma resize_ok h st cs cap n ch : holds h st cs cap -> 0 <= n ->
  outcome h st (take (Z.to_nat n) cs ++ replicate (Z.to_nat (n - zlen cs)) ch) (resize n ch (st, h)).
Proof using.
  intros Hh Hn. pose proof Hh as (bs & Ho & _ & Hle & Hc). unfold resize. run (get_size_run _ _ _ _ Hh).
  destruct (Z.ltb_spec n (zlen cs)) as [Hlt|Hge].
  - replace (replicate (Z.to_nat (n - zlen cs)) ch) with (@nil Z) by (replace (Z.to_nat (n - zlen cs)) with 0%nat by lia; done). rewrite app_nil_r.
    run (data_ptr_run h st). assert (length (take (Z.to_nat n) cs) = Z.to_nat n) as El by (rewrite length_take; unfold zlen in *; lia).
    destruct (terminate_run h st bs cap (take (Z.to_nat n) cs) Ho) as (st' & h' & E & Hh' & Hr).
    { apply cells_take. by eapply cells_app_l. } { unfold zlen in *. lia. }
    unfold zlen in E. rewrite El, Z2Nat.id in E by done. rewrite E. by eapply outcome_ret.
  - rewrite (take_ge cs) by (unfold zlen in *; lia). destruct (Z.ltb_spec (zlen cs) n) as [Hlt|Hge'].
    2:{ replace (Z.to_nat (n - zlen cs)) with 0%nat by lia. cbn [replicate]. rewrite app_nil_r. by eapply outcome_same. }
    run (get_capacity_run _ _ _ _ Ho). replace (Z.to_nat (zlen cs)) with (length cs) by (unfold zlen; lia).
    destruct (Z.ltb_spec cap n) as [Hcap|Hcap].
    + unfold reserve at 1.
      assert ((cap' ← get_capacity; if n <=? cap' then mret tt else Reallocate n) (st, h) = Reallocate n (st, h)) as Er.
      { run (get_capacity_run _ _ _ _ Ho). by rewrite (proj2 (Z.leb_gt _ _)). }
      unfold mbind at 1, exec_mbind at 1, exec_bind at 1. rewrite Er.
      change (outcome h st (cs ++ replicate (Z.to_nat (n - zlen cs)) ch) ((Reallocate n ≫= fun _ => d ← data_ptr; _ ← char_assign d (length cs) (Z.to_nat (n - zlen cs)) ch; _ ← write_at d (Z.to_nat n) [0]; SetSize n) (st, h))).
      eapply grow_then; [done|lia|]. intros h' st' Hh'. eapply fill_end_run; [done|lia].
    + run_pure. eapply fill_end_run; [done|lia].
Qed.

Lemma shrink_to_fit_ok h st cs cap : holds h st cs cap -> outcome h st cs (shrink_to_fit (st, h)).
Proof using.
  intros Hh. pose proof Hh as (bs & Ho & _ & Hle & Hc). assert (0 <= zlen cs) as Hz by (unfold zlen; lia). unfold shrink_to_fit.
  run (get_size_run _ _ _ _ Hh). run (get_capacity_run _ _ _ _ Ho).
  destruct (Z.leb_spec cap kSmallCapacity) as [Hs|Hs]; [by eapply outcome_same|]. cbn [orb].
  destruct (Z.eqb_spec (zlen cs) cap) as [E|E]; [by eapply outcome_same|].
  destruct (Z.leb_spec (zlen cs) kSmallCapacity) as [Hsm|Hsm].
  - unfold kSmallCapacity in *. run (data_ptr_run h st). destruct Ho as [st sz Hsh|st p sz cap bs He Hp Hl]; [lia|].
    destruct (ext_view _ _ _ _ He) as (_ & _ & _ & Ed & _). rewrite Ed.
    pose proof (block_read_run p 0 (Z.to_nat (zlen cs)) h bs _ Hp Hc ltac:(rewrite length_app; unfold zlen; cbn; lia)) as Hr.
    rewrite drop_0, take_app_length' in Hr by (unfold zlen; lia). rewrite (exec_bind_run _ _ _ _ _ (on_heap_run _ st _ _ _ Hr)).
    rewrite InitSmall_law by (unfold zlen in *; lia). run_pure.
    assert (deallocate p (cap + 1) h = (Ret tt, delete p h)) as Edel.
    { unfold deallocate. rewrite Hp, (proj2 (Nat.eqb_eq _ _)); [done|]. apply ext_range in He. lia. }
    rewrite (on_heap_run _ _ _ _ _ Edel). replace (Z.to_nat (zlen cs)) with (length cs) by (unfold zlen; lia). rewrite take_ge by lia.
    destruct (with_small_size_holds (delete p h) (cs ++ replicate (slots - length cs) 0) cs) as [Hh' Ed'].
    + rewrite length_app, length_replicate. unfold zlen in *. lia.
    + lia.
    + intros i x Hx. rewrite list_lookup_fmap, lookup_app_l by (by eapply lookup_lt_Some). by rewrite Hx.
    + eapply outcome_ret; [done|]. unfold rest. by rewrite Ed, Ed'.
  - pose proof (opened_length _ _ _ _ Ho) as (_ & Hm & _).
    assert (gives_capacity (zlen cs) (if IsLargeCapacity cap || IsLargeCapacity (zlen cs) then RoundUpCapacityToPage (zlen cs) else Ret (zlen cs))) as Hg.
    { destruct (_ || _); [apply round_up_capacity; lia|cbn; lia]. }
    destruct (if _ || _ then _ else _) as [c|e|w]; [|done..]. run_pure. cbn in Hg.
    destruct (Z.ltb_spec c cap); [eapply Reallocate_outcome; [done|lia]|by eapply outcome_same].
Qed.

(** ** Sources *)

(** The characters a source stands for while the string is [cs]. *)
Definition src_chars (cs : list Z) (src : Src) (n : Z) : list Z :=
  take (Z.to_nat n) (match src with Foreign l => l | Self off => drop off cs end).
Definition valid_src (cs : list Z) (src : Src) (n : Z) : Prop :=
  0 <= n /\ match src with Foreign l => n <= zlen l | Self off => Z.of_nat off + n <= zlen cs end.

Lemma src_chars_length cs src n : valid_src cs src n -> zlen (src_chars cs src n) = n.
Proof using. unfold valid_src, src_chars, zlen. intros [H1 H2]. rewrite length_take. destruct src; rewrite ?length_drop; lia. Qed.

Lemma source_run h st cs cap src n : holds h st cs cap -> valid_src cs src n ->
  source_chars (l_data st) src (Z.to_nat n) (st, h) = (Ret (src_chars cs src n), (st, h)).
Proof using.
  intros (bs & Ho & _ & _ & Hc) [Hn Hv]. unfold zlen in Hv. destruct src as [l|off]; cbn [source_chars].
  - by rewrite (proj2 (Nat.leb_le _ _)) by lia.
  - by rewrite (read_at_run _ _ _ _ _ _ cs Ho (cells_app_l _ _ _ Hc)) by lia.
Qed.

(** A source inside the string is seen as such. *)
Lemma self_in_range cs off n : valid_src cs (Self off) n -> n <> 0 -> PointerInRange (Self off) (zlen cs) = true.
Proof using. intros [? ?] ?. apply Z.ltb_lt. lia. Qed.

(** ** Appending *)

Lemma holds_insert h st cs cap p b : holds h st cs cap -> h !! p = None -> holds (<[p := b]> h) st cs cap.
Proof using. intros (bs & Ho & ?) Hp. exists bs. split; [by apply opened_insert|done]. Qed.

(** Writing after the characters of a new block. *)
Lemma grow_block p h b xs l : cells b xs -> (length xs + length l <= length b)%nat ->
  exists b', block_write p (length xs) l (<[p := b]> h) = (Ret tt, <[p := b']> h) /\ cells b' (xs ++ l) /\ length b' = length b.
Proof using.
  intros Hc Hl. exists (list_inserts (length xs) (Some <$> l) b).
  rewrite (block_write_run p _ l _ b), insert_insert_eq by (by rewrite ?lookup_insert_eq). split_and!; [done|by apply cells_extend|by rewrite length_inserts].
Qed.

Lemma cells_nil bs : cells bs [].
Proof using. intros i x H. by rewrite lookup_nil in H. Qed.

Lemma checked_add_cases a b : 0 <= a -> 0 <= b ->
  (CheckedAddSize a b = Ret (a + b) /\ a + b <= max_capacity) \/ exists e, CheckedAddSize a b = Fail e /\ thrown e.
Proof using.
  intros Ha Hb. unfold CheckedAddSize. destruct (CheckOverflowAdd uint64_ty a b) as [over r] eqn:E.
  destruct over; [right; eexists; split; [done|by left]|]. assert (r = a + b) as ->.
  { unfold CheckOverflowAdd in E. injection E as E <-. by apply negb_false_iff, Z.eqb_eq in E. }
  destruct (ensure_cases (a + b) "append") as [[Hm ->]|[_ (e & -> & He)]]; [by left|right; by exists e].
Qed.

(** The three writes of a reallocating append, then the new block is adopted. *)
Lemma append_block p cs l cap h : zlen (cs ++ l) <= cap ->
  exists b1 b2 b3, block_write p 0 cs (<[p := replicate (S (Z.to_nat cap)) None]> h) = (Ret tt, <[p := b1]> h) /\ cells b1 cs /\
    block_write p (length cs) l (<[p := b1]> h) = (Ret tt, <[p := b2]> h) /\
    block_write p (length (cs ++ l)) [0] (<[p := b2]> h) = (Ret tt, <[p := b3]> h) /\ filled b3 (cs ++ l) cap.
Proof using.
  intros Hc. unfold zlen in Hc. pose proof (length_app cs l) as El. set (b0 := replicate (S (Z.to_nat cap)) (None : option Z)).
  assert (length b0 = S (Z.to_nat cap)) as H0 by apply length_replicate.
  destruct (grow_block p h b0 [] cs (cells_nil _)) as (b1 & W1 & C1 & L1); [cbn [length]; lia|].
  destruct (grow_block p h b1 cs l C1) as (b2 & W2 & C2 & L2); [lia|].
  destruct (grow_block p h b2 (cs ++ l) [0] C2) as (b3 & W3 & C3 & L3); [cbn [length]; lia|].
  exists b1, b2, b3. split_and!; try done. split_and!; [lia|done|unfold zlen; lia].
Qed.

Lemma append_realloc h st cs cap src n new_cap : holds h st cs cap -> valid_src cs src n -> n <> 0 -> zlen cs + n <= new_cap -> new_cap <= max_capacity ->
  outcome h st (cs ++ src_chars cs src n)
   ((count ← lift (AllocationCountForCapacity new_cap);
     new_ptr ← on_heap (allocate count);
     l ← read_at (l_data st) 0 (length cs);
     _ ← on_heap (block_write new_ptr 0 l);
     l ← (match src with
          | Self off => if PointerInRange src (zlen cs) then
                          (if (off + Z.to_nat n <=? length cs)%nat then on_heap (block_read new_ptr off (Z.to_nat n))
                           else lift (Panic "overlapping copy"))
                        else source_chars (l_data st) src (Z.to_nat n)
          | Foreign _ => source_chars (l_data st) src (Z.to_nat n)
          end);
     _ ← on_heap (block_write new_ptr (length cs) l);
     _ ← on_heap (block_write new_ptr (Z.to_nat (zlen cs + n)) [0]);
     _ ← DestroyHeapIfNeeded;
     st ← on_heap (l_InitExternal new_ptr (zlen cs + n) new_cap);
     put_storage st) (st, h)).
Proof using.
  intros Hh Hv Hn Hle Hm. pose proof Hh as (bs & Ho & _ & _ & Hc). pose proof (src_chars_length _ _ _ Hv) as El. set (l := src_chars cs src n) in *.
  assert (zlen (cs ++ l) = zlen cs + n) as Ea by (unfold zlen in *; rewrite length_app; lia).
  rewrite allocation_count by (destruct Hv; unfold zlen in *; lia). run_pure.
  destruct (allocate_cases (new_cap + 1) h) as [(e & Ea' & He)|(p & Ea' & Hp & Hf)];
    [by rewrite (exec_bind_fail _ _ _ _ _ (on_heap_run _ st _ _ _ Ea'))|].
  rewrite (exec_bind_run _ _ _ _ _ (on_heap_run _ st _ _ _ Ea')).
  replace (Z.to_nat (new_cap + 1)) with (S (Z.to_nat new_cap)) by (destruct Hv; unfold zlen in *; lia).
  destruct (append_block p cs l new_cap h ltac:(lia)) as (b1 & b2 & b3 & W1 & C1 & W2 & W3 & Hfill).
  destruct (opened_insert _ _ _ _ p (replicate (S (Z.to_nat new_cap)) None) Ho Hf) as (Ho' & _).
  pose proof (read_at_run _ _ _ _ 0 (length cs) _ Ho' Hc ltac:(rewrite length_app; cbn; lia)) as Hr.
  rewrite drop_0, take_app_length in Hr. run Hr. rewrite (exec_bind_run _ _ _ _ _ (on_heap_run _ st _ _ _ W1)).
  match goal with |- outcome _ _ _ ((?m ≫= _) _) => assert (m (st, <[p := b1]> h) = (Ret l, (st, <[p := b1]> h))) as Es end.
  { destruct src as [l'|off].
    - by eapply source_run; [eapply holds_insert|].
    - rewrite (self_in_range _ _ _ Hv Hn). destruct Hv as [? Hv]. unfold zlen in Hv. rewrite (proj2 (Nat.leb_le _ _)) by lia.
      apply on_heap_run. eapply block_read_run; [by rewrite lookup_insert_eq|done|lia]. }
  run Es. rewrite (exec_bind_run _ _ _ _ _ (on_heap_run _ st _ _ _ W2)).
  replace (Z.to_nat (zlen cs + n)) with (length (cs ++ l)) by (rewrite <- Ea; unfold zlen; lia).
  rewrite (exec_bind_run _ _ _ _ _ (on_heap_run _ st _ _ _ W3)). rewrite <- Ea.
  destruct (adopt_run h st bs cap p b3 _ new_cap Ho Hf Hp Hfill Hm) as (st' & h' & E & Hh' & Hrest & _). rewrite E. by eapply outcome_ret.
Qed.

Lemma append_ok h st cs cap src n : holds h st cs cap -> valid_src cs src n -> outcome h st (cs ++ src_chars cs src n) (append src n (st, h)).
Proof using.
  intros Hh Hv. pose proof Hh as (bs & Ho & _ & Hle & Hc). pose proof (src_chars_length _ _ _ Hv) as El. unfold append.
  assert (0 <= zlen cs) as Hz by (unfold zlen; lia). destruct (Z.eqb_spec n 0) as [->|Hn].
  { assert (src_chars cs src 0 = []) as -> by (unfold src_chars; by rewrite take_0). rewrite app_nil_r. by eapply outcome_same. }
  run (get_size_run _ _ _ _ Hh). destruct (checked_add_cases (zlen cs) n Hz (proj1 Hv)) as [[-> Hm]|(e & -> & He)]; [|done]. run_pure.
  run (data_ptr_run h st). cbv zeta. run (get_capacity_run _ _ _ _ Ho). replace (Z.to_nat (zlen cs)) with (length cs) by (unfold zlen; lia).
  destruct (opened_length _ _ _ _ Ho) as (_ & Hcap & _). destruct (Z.ltb_spec cap (zlen cs + n)) as [Hg|Hg].
  - pose proof (next_capacity cap (zlen cs + n) Hcap ltac:(destruct Hv; lia)) as Hnc.
    destruct (CheckedNextCapacity cap (zlen cs + n)) as [c|e|w]; [|done..]. run_pure. cbn in Hnc. apply append_realloc with cap; (done || lia).
  - set (l := src_chars cs src n) in *. assert (zlen (cs ++ l) = zlen cs + n) as Ea by (unfold zlen in *; rewrite length_app; lia).
    destruct (extend_run h st cs cap l Hh ltac:(lia)) as (st' & h' & E & Hh' & Hr).
    rewrite Ea in E. replace (length (cs ++ l)) with (Z.to_nat (zlen cs + n)) in E by (rewrite <- Ea; unfold zlen; lia).
    replace (if PointerInRange src (zlen cs) then char_move (l_data st) (length cs) src (Z.to_nat n) else char_copy (l_data st) (length cs) src (Z.to_nat n))
      with (char_move (l_data st) (length cs) src (Z.to_nat n)).
    2:{ destruct src as [l'|off]; [done|]. by rewrite (self_in_range _ _ _ Hv Hn). }
    pose proof (source_run h st cs cap src n Hh Hv) as Hs.
    assert (char_move (l_data st) (length cs) src (Z.to_nat n) (st, h) = write_at (l_data st) (length cs) l (st, h)) as Em
      by (unfold char_move; by run Hs).
    unfold mbind at 1, exec_mbind at 1, exec_bind at 1. rewrite Em. unfold mbind at 1, exec_mbind at 1, exec_bind at 1 in E. rewrite E. by eapply outcome_ret.
Qed.

Lemma append_fill_ok h st cs cap n ch : holds h st cs cap -> 0 <= n -> outcome h st (cs ++ replicate (Z.to_nat n) ch) (append_fill n ch (st, h)).
Proof using.
  intros Hh Hn. pose proof Hh as (bs & Ho & _ & Hle & Hc). unfold append_fill. assert (0 <= zlen cs) as Hz by (unfold zlen; lia).
  destruct (Z.eqb_spec n 0) as [->|Hne]; [change (replicate (Z.to_nat 0) ch) with (@nil Z); rewrite app_nil_r; by eapply outcome_same|].
  run (get_size_run _ _ _ _ Hh). destruct (checked_add_cases (zlen cs) n Hz Hn) as [[-> Hm]|(e & -> & He)]; [|done]. run_pure.
  run (get_capacity_run _ _ _ _ Ho). replace (Z.to_nat (zlen cs)) with (length cs) by (unfold zlen; lia).
  destruct (opened_length _ _ _ _ Ho) as (_ & Hcap & _).
  replace (Z.to_nat n) with (Z.to_nat (zlen cs + n - zlen cs)) by lia. destruct (Z.ltb_spec cap (zlen cs + n)) as [Hg|Hg].
  - pose proof (next_capacity cap (zlen cs + n) Hcap ltac:(lia)) as Hnc.
    destruct (CheckedNextCapacity cap (zlen cs + n)) as [c|e|w]; [|done..]. cbn in Hnc.
    change (lift (Ret c) ≫= Reallocate) with (Reallocate c).
    eapply grow_then; [done|lia|]. intros h' st' Hh'. eapply fill_end_run; [done|lia].
  - run_pure. eapply fill_end_run; [done|lia].
Qed.

Lemma heap_write_block p i c h : heap_write p i c h = block_write p i [c] h.
Proof using.
  unfold heap_write, block_write. destruct (h !! p) as [b|]; [|done]. cbn [length fmap list_fmap list_inserts].
  by replace (i + 1 <=? length b)%nat with (i <? length b)%nat by (unfold Nat.ltb; f_equal; lia).
Qed.

(** A character and a terminator after the characters of an owned block. *)
Lemma push_block p cs ch h b : cells b (cs ++ [0]) -> h !! p = Some b -> (S (S (length cs)) <= length b)%nat ->
  exists b', heap_write p (length cs) ch h = (Ret tt, <[p := <[length cs := Some ch]> b]> h) /\
    heap_write p (S (length cs)) 0 (<[p := <[length cs := Some ch]> b]> h) = (Ret tt, <[p := b']> h) /\
    cells b' ((cs ++ [ch]) ++ [0]) /\ length b' = length b.
Proof using.
  intros Hc Hp Hl. pose proof (cells_app_l _ _ _ Hc) as C0.
  pose proof (cells_extend b cs [ch] C0 ltac:(cbn [length]; lia)) as C1. cbn [fmap list_fmap list_inserts] in C1.
  pose proof (cells_extend _ _ [0] C1 ltac:(rewrite length_insert, length_app; cbn [length]; lia)) as C2.
  eexists. rewrite (heap_write_run p (length cs) ch h b Hp) by lia. split; [done|].
  rewrite (heap_write_run p _ 0 _ (<[length cs := Some ch]> b)), insert_insert_eq by (rewrite ?lookup_insert_eq, ?length_insert; (done || lia)).
  split; [done|]. rewrite length_app in C2. cbn [length fmap list_fmap list_inserts] in C2. replace (length cs + 1)%nat with (S (length cs)) in C2 by lia.
  split; [exact C2|by rewrite !length_insert].
Qed.

Lemma push_full_small h st cs sz ch : holds h st cs (Z.of_nat slots - 1) -> small_shape slots st sz -> zlen cs = Z.of_nat slots - 1 ->
  outcome h st (cs ++ [ch]) (PushBackAfterInplaceFailed ch (st, h)).
Proof using.
  intros Hh Hs Hfull. pose proof slots_pos as Hsl. pose proof max_capacity_range as Hm. pose proof Hh as (bs & Ho & _ & _ & Hc).
  destruct (small_view _ _ Hs) as (_ & _ & Hcat & Ed & _). unfold PushBackAfterInplaceFailed. run_pure. rewrite Hcat. cbv zeta.
  unfold kSmallCapacity. rewrite <- Hfull. unfold MinHeapCapacity, kMinHeapCapacity. set (cap' := Z.max (zlen cs + 1) 32).
  rewrite allocation_count by (unfold zlen in *; lia). run_pure.
  destruct (allocate_cases (cap' + 1) h) as [(e & Ea' & He)|(p & Ea' & Hp & Hf)];
    [by rewrite (exec_bind_fail _ _ _ _ _ (on_heap_run _ st _ _ _ Ea'))|].
  rewrite (exec_bind_run _ _ _ _ _ (on_heap_run _ st _ _ _ Ea')). replace (Z.to_nat (cap' + 1)) with (S (Z.to_nat cap')) by (unfold zlen in *; lia).
  assert (zlen (cs ++ [ch]) = zlen cs + 1) as El by (unfold zlen; rewrite length_app; cbn; lia).
  destruct (append_block p cs [ch] cap' h ltac:(lia)) as (b1 & b2 & b3 & W1 & C1 & W2 & W3 & Hfill).
  destruct (opened_insert _ _ _ _ p (replicate (S (Z.to_nat cap')) None) Ho Hf) as (Ho' & _).
  replace (Z.to_nat (zlen cs)) with (length cs) by (unfold zlen; lia).
  pose proof (read_at_run _ _ _ _ 0 (length cs) _ Ho' Hc ltac:(rewrite length_app; cbn; lia)) as Hr.
  rewrite drop_0, take_app_length in Hr. run Hr. rewrite (exec_bind_run _ _ _ _ _ (on_heap_run _ st _ _ _ W1)).
  rewrite (exec_bind_run _ _ _ _ _ (on_heap_run _ st _ _ _ W2)).
  replace (Z.to_nat (zlen cs + 1)) with (length (cs ++ [ch])) by (rewrite <- El; unfold zlen; lia).
  rewrite (exec_bind_run _ _ _ _ _ (on_heap_run _ st _ _ _ W3)). rewrite <- El.
  destruct (InitExternal_run p (cs ++ [ch]) cap' (<[p := b3]> h) b3 Hp) as (st' & h' & Hi & Hh' & Hrest & _);
    [unfold zlen in *; lia|by rewrite lookup_insert_eq|done|].
  rewrite (exec_bind_run _ _ _ _ _ (on_heap_run _ st _ _ _ Hi)).
  change (outcome h st (cs ++ [ch]) (Ret tt, (st', h'))). eapply outcome_ret; [done|]. rewrite Hrest, delete_insert_id by done.
  unfold rest. by rewrite Ed.
Qed.

Lemma push_full_ext h st cs cap p sz ch : holds h st cs cap -> ext_rep st p sz cap ->
  outcome h st (cs ++ [ch]) (PushBackAfterInplaceFailed ch (st, h)).
Proof using.
  intros Hh He. pose proof Hh as (bs & Ho & Es & _). destruct (opened_length _ _ _ _ Ho) as (_ & Hcap & Ec).
  destruct (ext_view _ _ _ _ He) as (_ & _ & Hcat & _). unfold PushBackAfterInplaceFailed. run_pure. rewrite Hcat. cbv zeta. rewrite Es, Ec.
  assert (0 <= zlen cs) as Hz by (unfold zlen; lia). pose proof (next_capacity cap (zlen cs + 1) Hcap ltac:(lia)) as Hnc.
  destruct (CheckedNextCapacity cap (zlen cs + 1)) as [c|e|w]; [|done..]. cbn in Hnc. run_pure.
  pose proof (Reallocate_run h st cs cap c Hh ltac:(lia)) as H. destruct (Reallocate c (st, h)) as [[u|e|w] [st1 h1]] eqn:E;
    [|by rewrite (exec_bind_fail _ _ _ _ _ E)|done]. run E. destruct H as (Hh1 & Hr1 & q & Ed1). run (data_ptr_run h1 st1).
  assert (zlen (cs ++ [ch]) = zlen cs + 1) as El by (unfold zlen; rewrite length_app; cbn; lia).
  destruct (extend_run h1 st1 cs c [ch] Hh1 ltac:(lia)) as (st' & h' & E' & Hh' & Hr'). rewrite El in E'.
  replace (Z.to_nat (zlen cs)) with (length cs) by (unfold zlen; lia).
  replace (Z.to_nat (zlen cs + 1)) with (length (cs ++ [ch])) by (rewrite <- El; unfold zlen; lia).
  assert (forall st2 h2, l_is_small st2 = false -> SetSize (zlen cs + 1) (st2, h2) = (st3 ← get_storage; st3 ← on_heap (l_SetExternalSize st3 (zlen cs + 1)); put_storage st3) (st2, h2)) as Hset
    by (intros st2 h2 Hsm; unfold SetSize; run_pure; by rewrite Hsm).
  destruct Hh1 as (bs1 & Ho1 & _ & _ & Hc1). destruct Ho1 as [st1 sz1 Hs1|st1 q' sz1 c bs1 He1 Hq Hl]; [destruct (small_view _ _ Hs1) as (_ & _ & _ & ? & _); congruence|].
  destruct (ext_view _ _ _ _ He1) as (Hsm & _ & _ & Ed & _). rewrite Ed in E' |- *. cbn [write_at] in *.
  pose proof (length_app cs [ch]) as Ela. cbn [length] in Ela. unfold zlen in Hnc.
  assert (on_heap (block_write q' (length cs) [ch]) (st1, h1) = (Ret tt, (st1, <[q' := list_inserts (length cs) (Some <$> [ch]) bs1]> h1))) as W1
    by (apply on_heap_run, block_write_run; [done|cbn [length]; lia]).
  assert (on_heap (block_write q' (length (cs ++ [ch])) [0]) (st1, <[q' := list_inserts (length cs) (Some <$> [ch]) bs1]> h1) =
    (Ret tt, (st1, <[q' := list_inserts (length (cs ++ [ch])) (Some <$> [0]) (list_inserts (length cs) (Some <$> [ch]) bs1)]> h1))) as W2.
  { apply on_heap_run. erewrite block_write_run; [by rewrite insert_insert_eq|by rewrite lookup_insert_eq|rewrite length_inserts; cbn [length]; lia]. }
  run W1. run W2. rewrite <- Hset by done. rewrite (exec_bind_run _ _ _ _ _ W1), (exec_bind_run _ _ _ _ _ W2) in E'. rewrite E'. eapply outcome_ret; [done|congruence].
Qed.

Lemma push_back_ok h st cs cap ch : holds h st cs cap -> outcome h st (cs ++ [ch]) (push_back ch (st, h)).
Proof using.
  intros Hh. pose proof Hh as (bs & Ho & Es & Hle & Hc). pose proof slots_pos as Hsl. unfold push_back. run_pure.
  assert (zlen (cs ++ [ch]) = zlen cs + 1) as El by (unfold zlen; rewrite length_app; cbn; lia).
  destruct Ho as [st sz Hs|st p sz cap bs He Hp Hl].
  - destruct (small_view _ _ Hs) as (_ & _ & _ & Ed & Es' & _). assert (sz = zlen cs) as -> by congruence.
    rewrite (exec_bind_run _ _ _ _ _ (on_heap_run _ st _ _ _ (TryPush_small st _ ch Hs h))).
    destruct (Z.ltb_spec (zlen cs) (Z.of_nat slots - 1)); cbn [fst snd]; run_pure.
    + rewrite <- El. destruct (with_small_size_holds h (<[Z.to_nat (zlen cs) := ch]> st) (cs ++ [ch])) as [Hh' Ed'].
      * destruct Hs as [<- _]. by rewrite length_insert.
      * lia.
      * replace (Z.to_nat (zlen cs)) with (length cs) by (unfold zlen; lia). rewrite list_fmap_insert.
        apply (cells_extend _ cs [ch] (cells_app_l _ _ _ Hc)). rewrite length_fmap. destruct Hs as [-> _]. unfold zlen in *. cbn [length]. lia.
      * eapply outcome_ret; [done|]. unfold rest. by rewrite Ed, Ed'.
    + by eapply push_full_small; [|done|lia].
  - destruct (ext_view _ _ _ _ He) as (_ & _ & _ & Ed & Es' & _). assert (sz = zlen cs) as -> by congruence.
    destruct (TryPush_ext st p (zlen cs) cap ch He) as [Hin Hfull]. destruct (decide (zlen cs < cap)) as [Hlt|Hge].
    + destruct (Hin Hlt) as (st' & He' & Hrun). destruct (push_block p cs ch h bs Hc Hp) as (b' & W1 & W2 & C & L'); [unfold zlen in *; lia|].
      assert (l_TryPushBackInplace st ch h = (Ret (true, st'), <[p := b']> h)) as E.
      { rewrite Hrun. replace (Z.to_nat (zlen cs)) with (length cs) by (unfold zlen; lia). run W1.
        replace (Z.to_nat (zlen cs + 1)) with (S (length cs)) by (unfold zlen; lia). by run W2. }
      rewrite (exec_bind_run _ _ _ _ _ (on_heap_run _ st _ _ _ E)). cbn [fst snd]. run_pure.
      destruct (ext_view _ _ _ _ He') as (_ & _ & _ & Ed' & Es'' & _). eapply (outcome_ret _ _ _ _ _ cap).
      * exists b'. split; [econstructor; [done|by rewrite lookup_insert_eq|lia]|]. split; [congruence|]. split; [lia|done].
      * unfold rest. by rewrite Ed, Ed', delete_insert_eq.
    + rewrite (exec_bind_run _ _ _ _ _ (on_heap_run _ st _ _ _ (Hfull ltac:(lia) h))). cbn [fst snd]. run_pure. by eapply push_full_ext.
Qed.

(** ** Temporaries *)

Lemma opened_mono h h' st bs cap : h ⊆ h' -> opened h st bs cap -> opened h' st bs cap.
Proof using. intros Hs [st' sz H|st' p sz c b He Hp Hl]; [by econstructor|]. econstructor; [done| |done]. by eapply lookup_weaken. Qed.

Lemma rest_sub st h : rest st h ⊆ h.
Proof using. unfold rest. destruct (l_data st); [done|apply delete_subseteq]. Qed.

Lemma holds_mono h h' st cs cap : h ⊆ h' -> holds h st cs cap -> holds h' st cs cap.
Proof using. intros Hs (bs & Ho & ?). exists bs. split; [by eapply opened_mono|done]. Qed.

Lemma rest_comm s1 s2 h : rest s1 (rest s2 h) = rest s2 (rest s1 h).
Proof using. unfold rest. destruct (l_data s1), (l_data s2); try done. apply delete_delete. Qed.

(** A string outside the block of another one survives its destruction. *)
Lemma holds_rest h st cs cap tmp bs cap2 : holds h st cs cap -> opened (rest st h) tmp bs cap2 -> holds (rest tmp h) st cs cap.
Proof using.
  intros (b & Ho & H) Ht. exists b. split; [|done]. destruct Ho as [st sz Hs|st p sz cap b He Hp Hl]; [by econstructor|].
  econstructor; [done| |done]. unfold rest at 1. destruct (l_data tmp) as [|q] eqn:Ed; [done|]. rewrite lookup_delete_ne; [done|].
  intros ->. destruct Ht as [tmp sz' Hs|tmp q' sz' c' b' He' Hq _]; [destruct (small_view _ _ Hs) as (_ & _ & _ & ? & _); congruence|].
  destruct (ext_view _ _ _ _ He') as (_ & _ & _ & Ed' & _). destruct (ext_view _ _ _ _ He) as (_ & _ & _ & Ed2 & _).
  unfold rest in Hq. rewrite Ed2 in Hq. assert (q' = p) as -> by congruence. by rewrite lookup_delete_eq in Hq.
Qed.

Lemma check_run h st cs cap : holds h st cs cap -> l_CheckInvariants st h = (Ret tt, h).
Proof using.
  intros (bs & Ho & Es & Hle & Hc). assert (bs !! Z.to_nat (zlen cs) = Some (Some 0)) as Hz.
  { apply Hc. unfold zlen. rewrite Nat2Z.id. by rewrite lookup_app_r, Nat.sub_diag by lia. }
  destruct Ho as [st sz Hs|st p sz cap bs He Hp Hl].
  - destruct (small_view _ _ Hs) as (_ & _ & _ & _ & E & _). eapply CheckInvariants_small; [exact Hs|]. rewrite <- E, Es.
    rewrite list_lookup_fmap in Hz. destruct (st !! _); [by injection Hz as ->|done].
  - destruct (ext_view _ _ _ _ He) as (_ & _ & _ & _ & E & _). eapply CheckInvariants_ext; [exact He|exact Hp|]. by rewrite <- E, Es.
Qed.

Lemma destructor_run h st cs cap : holds h st cs cap -> destroy st h = (Ret tt, rest st h).
Proof using. intros (bs & Ho & _). unfold destroy. destruct (destroy_run _ _ _ _ Ho) as [st0 ->]. done. Qed.

(** A temporary over the heap [h]: it is [cs'], or something threw and it can be destroyed. *)
Definition temporary (h : Heap) (cs' : list Z) (x : Res unit * (Storage * Heap)) : Prop :=
  match x with
  | (Ret _, (tmp, h')) => (exists cap', holds h' tmp cs' cap') /\ rest tmp h' = h
  | (Fail e, (tmp, h')) => (exists cs cap', holds h' tmp cs cap') /\ rest tmp h' = h /\ thrown e
  | (Panic _, _) => False
  end.
Definition built (h : Heap) (cs' : list Z) (x : Res Storage * Heap) : Prop :=
  match x with
  | (Ret tmp, h') => (exists cap', holds h' tmp cs' cap') /\ rest tmp h' = h
  | (Fail e, h') => h' = h /\ thrown e
  | (Panic _, _) => False
  end.

Lemma temporary_outcome h h1 tmp cs cap cs' x : holds h1 tmp cs cap -> rest tmp h1 = h -> outcome h1 tmp cs' x -> temporary h cs' x.
Proof using.
  intros Hh Hr. destruct x as [[u|e|w] [st' h']]; cbn; [by rewrite Hr| |done].
  intros (-> & -> & He). split; [by exists cs, cap|done].
Qed.

Lemma temporary_bind h cs1 cs' (m : M unit) (k : unit -> M unit) s : temporary h cs1 (m s) ->
  (forall tmp h' cap, holds h' tmp cs1 cap -> rest tmp h' = h -> temporary h cs' (k tt (tmp, h'))) -> temporary h cs' ((m ≫= k) s).
Proof using.
  intros Hm Hk. unfold mbind, exec_mbind, exec_bind. destruct (m s) as [[[]|e|w] [tmp h']]; [|done|done].
  destruct Hm as [[cap Hh] Hr]. by eapply Hk.
Qed.

Lemma swap_run h st cs cap cs0 cs' ctor body : holds h st cs cap -> built h cs0 (ctor h) ->
  (forall tmp h1 c, holds h1 tmp cs0 c -> rest tmp h1 = h -> temporary h cs' (body (tmp, h1))) ->
  outcome h st cs' (swap_with_temporary ctor body (st, h)).
Proof using.
  intros Hh Hc Hb. unfold swap_with_temporary. destruct (ctor h) as [[tmp0|e|w] h1]; [|by destruct Hc as [-> ?]|done].
  destruct Hc as [[c Hh1] Hr1]. specialize (Hb tmp0 h1 c Hh1 Hr1). destruct (body (tmp0, h1)) as [[u|e|w] [tmp h2]]; [| |done].
  - destruct Hb as [[c' Hh2] Hr2]. assert (holds h2 st cs cap) as Hst by (eapply holds_mono; [|exact Hh]; rewrite <- Hr2; apply rest_sub).
    assert ((_ ← l_CheckInvariants tmp; l_CheckInvariants st) h2 = (Ret tt, h2)) as Ec.
    { run (check_run _ _ _ _ Hh2). by eapply check_run. }
    rewrite Ec, (destructor_run _ _ _ _ Hst). destruct Hh as (bs & Ho & _). eapply outcome_ret.
    + eapply holds_rest; [exact Hh2|]. by rewrite Hr2.
    + by rewrite rest_comm, Hr2.
  - destruct Hb as ((cs2 & c' & Hh2) & Hr2 & He). rewrite (destructor_run _ _ _ _ Hh2), Hr2. by split_and!.
Qed.

(** ** Constructors *)

Lemma make_empty_ok h : built h [] (make_empty h).
Proof using.
  unfold make_empty. rewrite InitEmpty_law. cbn. pose proof slots_pos.
  destruct (with_small_size_holds h (replicate slots 0) []) as [Hh Ed]; [apply length_replicate|unfold zlen; cbn; lia|apply cells_nil|].
  split; [by eexists|]. unfold rest. change (zlen []) with 0 in Ed. by rewrite Ed.
Qed.

(** A filled new block makes a string. *)
Lemma external_built p cs cap h b : 0 < p < 2 ^ 64 -> cap <= max_capacity -> h !! p = None -> filled b cs cap ->
  built h cs (l_InitExternal p (zlen cs) cap (<[p := b]> h)).
Proof using.
  intros Hp Hm Hn Hf. destruct (InitExternal_run p cs cap (<[p := b]> h) b Hp Hm) as (st' & h' & -> & Hh & Hr & _);
    [by rewrite lookup_insert_eq|done|]. split; [by eexists|]. by rewrite Hr, delete_insert_id.
Qed.

Lemma small_built h src cs : zlen cs < Z.of_nat slots -> take (length cs) src = cs -> built h cs (lift (l_InitSmall src (zlen cs)) h).
Proof using.
  intros Hs Ht. assert (length cs <= length src)%nat by (rewrite <- Ht, length_take; lia).
  rewrite InitSmall_law by (unfold zlen in *; lia). cbn. replace (Z.to_nat (zlen cs)) with (length cs) by (unfold zlen; lia). rewrite Ht.
  destruct (with_small_size_holds h (cs ++ replicate (slots - length cs) 0) cs) as [Hh Ed].
  - rewrite length_app, length_replicate. unfold zlen in *. lia.
  - done.
  - intros i x Hx. rewrite list_lookup_fmap, lookup_app_l by (by eapply lookup_lt_Some). by rewrite Hx.
  - split; [by eexists|]. unfold rest. by rewrite Ed.
Qed.

Lemma make_from_ok h l : built h l (make_from l h).
Proof using.
  unfold make_from. cbv zeta. unfold kSmallCapacity. assert (0 <= zlen l) as Hz by (unfold zlen; lia).
  destruct (Z.leb_spec (zlen l) (Z.of_nat slots - 1)); [apply small_built; [lia|by rewrite firstn_all]|].
  destruct (decide (zlen l <= max_capacity)) as [Hm|Hm].
  2:{ unfold CheckedMinHeapCapacity. destruct (ensure_cases (zlen l) "construct") as [[? _]|[_ (e & -> & He)]]; [lia|done]. }
  destruct (min_heap_capacity (zlen l) ltac:(lia)) as (c & Ec & Hc).
  assert ((cap ← CheckedMinHeapCapacity (zlen l); count ← AllocationCountForCapacity cap; Ret (count, cap)) = Ret (c + 1, c)) as ->
    by (rewrite Ec; cbn [mbind res_mbind res_bind]; by rewrite allocation_count by lia).
  run_pure. cbn [fst snd].
  destruct (allocate_cases (c + 1) h) as [(e & Ea & He)|(p & Ea & Hp & Hn)]; [by rewrite (exec_bind_fail _ _ _ _ _ Ea)|]. run Ea.
  replace (Z.to_nat (c + 1)) with (S (Z.to_nat c)) by lia. destruct (fill_block p l c h ltac:(lia)) as (b & Hf & W1 & W2). run W1. run W2.
  apply external_built; (done || lia).
Qed.

Lemma make_copy_ok h other cs cap : holds h other cs cap -> built h cs (make_copy other h).
Proof using.
  intros Hh. pose proof Hh as (bs & Ho & Es & Hle & Hc). unfold make_copy. destruct (opened_length _ _ _ _ Ho) as (_ & Hcap & Ec). rewrite Es, Ec.
  destruct Ho as [st sz Hs|st q sz cap bs He Hq Hl].
  - destruct (small_view _ _ Hs) as (-> & _). pose proof Hs as (Hlen & _). apply small_built; [lia|].
    pose proof (cells_read _ _ 0 (length cs) (cells_app_l _ _ _ Hc) ltac:(lia)) as E. rewrite !drop_0, firstn_all, <- fmap_take in E. by apply (inj (fmap Some)) in E.
  - destruct (ext_view _ _ _ _ He) as (-> & _ & _ & -> & _). cbv zeta. rewrite allocation_count by lia. run_pure.
    destruct (allocate_cases (cap + 1) h) as [(e & Ea & He')|(p & Ea & Hp & Hn)]; [by rewrite (exec_bind_fail _ _ _ _ _ Ea)|]. run Ea.
    replace (Z.to_nat (cap + 1)) with (S (Z.to_nat cap)) by lia. replace (Z.to_nat (zlen cs)) with (length cs) by (unfold zlen; lia).
    assert (block_read q 0 (length cs) (<[p := replicate (S (Z.to_nat cap)) None]> h) = (Ret cs, <[p := replicate (S (Z.to_nat cap)) None]> h)) as R.
    { erewrite block_read_run; [|by rewrite lookup_insert_ne by (intros ->; congruence)|exact Hc|rewrite length_app; lia]. by rewrite drop_0, take_app_length. }
    run R. destruct (fill_block p cs cap h ltac:(lia)) as (b & Hf & W1 & W2). run W1. run W2. apply external_built; (done || lia).
Qed.

(** ** Assignment *)

Lemma mret_temporary h cs tmp h1 c : holds h1 tmp cs c -> rest tmp h1 = h -> temporary h cs ((mret tt : M unit) (tmp, h1)).
Proof using. intros Hh Hr. split; [by exists c|done]. Qed.

Lemma overwrite_run h st cs cap l : holds h st cs cap -> zlen l <= cap ->
  exists st' h', (_ ← write_at (l_data st) 0 l; _ ← write_at (l_data st) (length l) [0]; SetSize (zlen l)) (st, h) = (Ret tt, (st', h')) /\
    holds h' st' l cap /\ rest st' h' = rest st h.
Proof using.
  intros (bs & Ho & _) Hle. destruct (write_cells h st bs cap 0 l [] Ho (cells_nil _)) as (st1 & h1 & bs1 & E1 & Ho1 & Hc1 & Ed1 & Hr1);
    [done|left; unfold zlen in Hle; lia|].
  run E1. rewrite drop_nil, take_0, app_nil_r in Hc1. rewrite <- Ed1.
  destruct (terminate_run h1 st1 bs1 cap l Ho1 Hc1 Hle) as (st2 & h2 & E2 & Hh2 & Hr2). exists st2, h2. split_and!; [done|done|congruence].
Qed.

(** Without characters only the terminator is written. *)
Lemma cut_run h st cs cap : holds h st cs cap ->
  exists st' h', (_ ← write_at (l_data st) 0 [0]; SetSize 0) (st, h) = (Ret tt, (st', h')) /\ holds h' st' [] cap /\ rest st' h' = rest st h.
Proof using.
  intros (bs & Ho & _). destruct (opened_length _ _ _ _ Ho) as (_ & ? & _).
  apply (terminate_run h st bs cap [] Ho (cells_nil _)). change (zlen []) with 0. lia.
Qed.

(** A copy or a move from a valid source is a write of its characters. *)
Lemma move_run h st cs cap off src n : holds h st cs cap -> valid_src cs src n ->
  char_move (l_data st) off src (Z.to_nat n) (st, h) = write_at (l_data st) off (src_chars cs src n) (st, h).
Proof using. intros Hh Hv. unfold char_move. by run (source_run h st cs cap src n Hh Hv). Qed.

Lemma bind_ext {A B} (m m' : M A) (k : A -> M B) s : m s = m' s -> (m ≫= k) s = (m' ≫= k) s.
Proof using. intros E. unfold mbind, exec_mbind, exec_bind. by rewrite E. Qed.

Lemma bind_ext_k {A B} (m : M A) (k k' : A -> M B) s : (forall a s', k a s' = k' a s') -> (m ≫= k) s = (m ≫= k') s.
Proof using. intros E. unfold mbind, exec_mbind, exec_bind. by destruct (m s) as [[]]. Qed.

Lemma assign_ok h st cs cap src n : holds h st cs cap -> valid_src cs src n -> outcome h st (src_chars cs src n) (assign src n (st, h)).
Proof using.
  intros Hh Hv. pose proof Hh as (bs & Ho & _ & Hle & _). pose proof (src_chars_length _ _ _ Hv) as El. unfold assign.
  destruct (ensure_cases n "assign") as [[Hm ->]|[_ (e & -> & He)]]; [|done]. run_pure. run (get_capacity_run _ _ _ _ Ho). run (data_ptr_run h st).
  destruct (Z.leb_spec n cap) as [Hn|Hn].
  - run (get_size_run _ _ _ _ Hh). destruct (Z.eqb_spec n 0) as [->|Hne].
    + run_pure. destruct (cut_run h st cs cap Hh) as (st' & h' & E & Hh' & Hr). change (Z.to_nat 0) with 0%nat. rewrite E.
      unfold src_chars. rewrite take_0. by eapply outcome_ret.
    + replace (if PointerInRange src (zlen cs) then char_move (l_data st) 0 src (Z.to_nat n) else char_copy (l_data st) 0 src (Z.to_nat n))
        with (char_move (l_data st) 0 src (Z.to_nat n)).
      2:{ destruct src as [l'|off]; [done|]. by rewrite (self_in_range _ _ _ Hv Hne). }
      rewrite (bind_ext _ _ _ _ (move_run h st cs cap 0 src n Hh Hv)). set (l := src_chars cs src n) in *.
      destruct (overwrite_run h st cs cap l Hh ltac:(lia)) as (st' & h' & E & Hh' & Hr). rewrite El in E.
      replace (length l) with (Z.to_nat n) in E by (rewrite <- El; unfold zlen; lia). rewrite E. by eapply outcome_ret.
  - run (source_run h st cs cap src n Hh Hv). eapply swap_run; [done|apply make_from_ok|]. intros. by eapply mret_temporary.
Qed.

Lemma assign_fill_ok h st cs cap n ch : holds h st cs cap -> 0 <= n -> outcome h st (replicate (Z.to_nat n) ch) (assign_fill n ch (st, h)).
Proof using.
  intros Hh Hn. pose proof Hh as (bs & Ho & _ & Hle & _). unfold assign_fill.
  destruct (ensure_cases n "assign") as [[Hm ->]|[_ (e & -> & He)]]; [|done]. run_pure. run (get_capacity_run _ _ _ _ Ho).
  destruct (Z.leb_spec n cap) as [Hc|Hc].
  - run (data_ptr_run h st). destruct (Z.eqb_spec n 0) as [->|Hne].
    + run_pure. destruct (cut_run h st cs cap Hh) as (st' & h' & E & Hh' & Hr). change (Z.to_nat 0) with 0%nat. rewrite E. by eapply outcome_ret.
    + unfold char_assign. set (l := replicate (Z.to_nat n) ch). assert (zlen l = n) as El by (unfold zlen, l; rewrite length_replicate; lia).
      destruct (overwrite_run h st cs cap l Hh ltac:(lia)) as (st' & h' & E & Hh' & Hr). rewrite El in E.
      replace (length l) with (Z.to_nat n) in E by (rewrite <- El; unfold zlen; lia). rewrite E. by eapply outcome_ret.
  - eapply swap_run; [done|apply make_empty_ok|]. intros tmp h1 c Ht Hr. eapply temporary_outcome; [done..|].
    by apply (append_fill_ok h1 tmp [] c n ch).
Qed.

(** ** Replacement *)

Definition spliced (cs : list Z) (pos erased : Z) (l : list Z) : list Z :=
  take (Z.to_nat pos) cs ++ l ++ drop (Z.to_nat (pos + erased)) cs.

(** Writing below the last cell keeps the size. *)
Lemma write_at_size h st bs cap off l st' h' : opened h st bs cap -> (off + length l <= Z.to_nat cap)%nat ->
  write_at (l_data st) off l (st, h) = (Ret tt, (st', h')) -> l_size st' = l_size st.
Proof using.
  pose proof slots_pos. intros [st1 sz Hs|st1 p sz cap1 bs1 He Hp Hl] Hlen; unfold write_at.
  - destruct (small_view _ _ Hs) as (_ & _ & _ & -> & -> & _). run_pure. pose proof Hs as (Hl & Hsz & Hpr).
    destruct (_ <=? _)%nat; [|done]. intros [= <- <-]. cbn [fst snd].
    assert (small_shape slots (list_inserts off l st1) sz) as Hs'; [|by destruct (small_view _ _ Hs') as (_ & _ & _ & _ & -> & _)].
    split; [by rewrite length_inserts|]. split; [done|]. by rewrite list_lookup_inserts_ge by lia.
  - destruct (ext_view _ _ _ _ He) as (_ & _ & _ & -> & _). rewrite (on_heap_run _ _ _ _ _ (block_write_run p off l h bs1 Hp ltac:(lia))). by intros [= <- <-].
Qed.

(** Both orders of moving the tail and writing the middle give the same cells. *)
Lemma cells_move_fill bs xs pos e l : cells bs xs -> (pos <= e <= length xs)%nat -> (pos + length l + (length xs - e) <= length bs)%nat ->
  cells (list_inserts pos (Some <$> l) (list_inserts (pos + length l) (Some <$> drop e xs) bs)) (take pos xs ++ l ++ drop e xs).
Proof using.
  intros Hc Hp Hl i x Hx. apply lookup_app_Some in Hx as [Hx|[Hi Hx]].
  - apply lookup_take_Some in Hx as [Hx Hi]. rewrite !list_lookup_inserts_lt by lia. by apply Hc.
  - rewrite length_take, Nat.min_l in * by lia. apply lookup_app_Some in Hx as [Hx|[Hi' Hx]].
    + pose proof (lookup_lt_Some _ _ _ Hx). rewrite list_lookup_inserts by (rewrite ?length_fmap, ?length_inserts; lia).
      by rewrite list_lookup_fmap, Hx.
    + pose proof (lookup_lt_Some _ _ _ Hx) as Hlt. rewrite length_drop in Hlt.
      rewrite list_lookup_inserts_ge by (rewrite length_fmap; lia).
      rewrite list_lookup_inserts by (rewrite ?length_fmap, ?length_drop; lia). rewrite list_lookup_fmap.
      replace (i - (pos + length l))%nat with (i - pos - length l)%nat by lia. by rewrite Hx.
Qed.

(** The tail with its terminator, read from [e] and written at [k]. *)
Lemma tail_move_run h st bs cap k e xs : opened h st bs cap -> cells bs xs -> (e < length xs)%nat -> last xs = Some 0 ->
  (k + (length xs - e) <= S (Z.to_nat cap))%nat ->
  exists st' h', char_move (l_data st) k (Self e) (length xs - e) (st, h) = (Ret tt, (st', h')) /\
    opened h' st' (list_inserts k (Some <$> drop e xs) bs) cap /\ l_data st' = l_data st /\ rest st' h' = rest st h.
Proof using.
  intros Ho Hc He Hlast Hk. unfold char_move, source_chars.
  pose proof (read_at_run h st bs cap e (length xs - e) xs Ho Hc ltac:(lia)) as Hr. rewrite (take_ge (drop e xs)) in Hr by (rewrite length_drop; lia). run Hr.
  apply write_at_run; [done|rewrite length_drop; lia|]. intros _ _. rewrite last_lookup, lookup_drop, length_drop. rewrite last_lookup in Hlast.
  rewrite <- Hlast. f_equal. lia.
Qed.

Section Splice.
Context (h : Heap) (st : Storage) (cs : list Z) (cap pos erased : Z) (l : list Z).
Hypotheses (Hh : holds h st cs cap) (Hpos : 0 <= pos) (Her : 0 <= erased) (Hend : pos + erased <= zlen cs).
Abbreviation p' := (Z.to_nat pos).
Abbreviation e' := (Z.to_nat (pos + erased)).

Lemma spliced_length : zlen (spliced cs pos erased l) = zlen cs - erased + zlen l.
Proof using Hpos Her Hend. unfold spliced, zlen in *. rewrite !length_app, length_take, length_drop. lia. Qed.

Lemma spliced_terminated : spliced cs pos erased l ++ [0] = take p' (cs ++ [0]) ++ l ++ drop e' (cs ++ [0]).
Proof using Hpos Her Hend.
  unfold spliced. unfold zlen in *. rewrite take_app_le, drop_app_le by lia. by rewrite <- !app_assoc.
Qed.

Lemma tail_length : Z.to_nat (zlen cs - (pos + erased) + 1) = (length (cs ++ [0%Z]) - e')%nat.
Proof using Hpos Her Hend. unfold zlen in *. rewrite length_app. cbn [length]. lia. Qed.

(** The tail moved, the middle written, the size set: growing or erasing. *)
Lemma move_fill_run : zlen (spliced cs pos erased l) <= cap ->
  exists st' h', (_ ← char_move (l_data st) (p' + length l) (Self e') (Z.to_nat (zlen cs - (pos + erased) + 1));
     _ ← write_at (l_data st) p' l; SetSize (zlen (spliced cs pos erased l))) (st, h) = (Ret tt, (st', h')) /\
    holds h' st' (spliced cs pos erased l) cap /\ rest st' h' = rest st h.
Proof using Hh Hpos Her Hend.
  intros Hle. pose proof Hh as (bs & Ho & _ & _ & Hc). destruct (opened_length _ _ _ _ Ho) as (Hbs & Hcap & _). rewrite tail_length.
  pose proof spliced_length as El. set (xs := cs ++ [0]) in *. assert (length xs = S (length cs)) as Hx by (unfold xs; rewrite length_app; cbn [length]; lia).
  unfold zlen in El, Hle, Hend. destruct (tail_move_run h st bs cap (p' + length l) e' xs Ho Hc) as (st1 & h1 & E1 & Ho1 & Ed1 & Hr1);
    [lia|apply last_snoc|lia|]. run E1. rewrite <- Ed1.
  destruct (write_at_run h1 st1 _ cap p' l Ho1) as (st2 & h2 & E2 & Ho2 & Ed2 & Hr2); [lia|intros; lia|]. run E2.
  pose proof (cells_move_fill bs xs p' e' l Hc ltac:(lia) ltac:(lia)) as Hc2. unfold xs in Hc2. rewrite <- spliced_terminated in Hc2.
  destruct (SetSize_run _ _ _ _ _ Ho2 Hle (cells_app_l _ _ _ Hc2)) as (st3 & h3 & E3 & Hh3 & Hr3).
  exists st3, h3. split_and!; [done|done|congruence].
Qed.

(** The middle written, the tail moved, the size set: shrinking. *)
Lemma fill_move_run : zlen l <= erased ->
  exists st' h', (_ ← write_at (l_data st) p' l;
     _ ← char_move (l_data st) (p' + length l) (Self e') (Z.to_nat (zlen cs - (pos + erased) + 1));
     SetSize (zlen (spliced cs pos erased l))) (st, h) = (Ret tt, (st', h')) /\
    holds h' st' (spliced cs pos erased l) cap /\ rest st' h' = rest st h.
Proof using Hh Hpos Her Hend.
  intros Hl. pose proof Hh as (bs & Ho & _ & Hcs & Hc). destruct (opened_length _ _ _ _ Ho) as (Hbs & Hcap & _). rewrite tail_length.
  pose proof spliced_length as El. set (xs := cs ++ [0]) in *. assert (length xs = S (length cs)) as Hx by (unfold xs; rewrite length_app; cbn [length]; lia).
  assert (xs !! length cs = Some 0) as Hx0 by (unfold xs; by rewrite lookup_app_r, Nat.sub_diag by lia).
  unfold zlen in El, Hl, Hend, Hcs. destruct (write_cells h st bs cap p' l xs Ho Hc) as (st1 & h1 & bs1 & E1 & Ho1 & Hc1 & Ed1 & Hr1); [lia|left; lia|].
  run E1. rewrite <- Ed1. set (ys := take p' xs ++ l ++ drop (p' + length l) xs) in *.
  assert (length ys = length xs) as Hy by (unfold ys; rewrite !length_app, length_take, length_drop; lia).
  assert (drop e' ys = drop e' xs) as Hd.
  { unfold ys. rewrite app_assoc, drop_app_ge by (rewrite length_app, length_take; lia). rewrite drop_drop. f_equal. rewrite length_app, length_take. lia. }
  rewrite <- Hy. destruct (tail_move_run h1 st1 bs1 cap (p' + length l) e' ys Ho1 Hc1) as (st2 & h2 & E2 & Ho2 & Ed2 & Hr2);
    [lia| |lia|].
  { rewrite last_lookup, Hy, Hx. cbn [pred]. unfold ys. rewrite app_assoc, lookup_app_r by (rewrite length_app, length_take; lia).
    rewrite lookup_drop, length_app, length_take, Hx, <- Hx0. f_equal. lia. }
  run E2. pose proof (cells_write bs1 ys (p' + length l) (drop e' xs) Hc1 ltac:(lia)) as Hc2.
  rewrite length_drop, Hd in *. specialize (Hc2 ltac:(destruct (opened_length _ _ _ _ Ho1) as (-> & _); lia)).
  assert (take (p' + length l) ys = take p' xs ++ l) as Et.
  { unfold ys. rewrite app_assoc, take_app_length'; [done|]. rewrite length_app, length_take. lia. }
  rewrite Et in Hc2. rewrite app_assoc, <- (app_assoc (take p' xs)) in Hc2. unfold xs in Hc2. rewrite <- spliced_terminated in Hc2.
  destruct (SetSize_run _ _ _ _ (spliced cs pos erased l) Ho2) as (st3 & h3 & E3 & Hh3 & Hr3).
  { unfold zlen. lia. } { by do 2 eapply cells_app_l. }
  exists st3, h3. split_and!; [done|done|congruence].
Qed.

(** As many characters written as erased. *)
Lemma same_size_run : zlen l = erased ->
  exists st' h', write_at (l_data st) p' l (st, h) = (Ret tt, (st', h')) /\
    holds h' st' (spliced cs pos erased l) cap /\ rest st' h' = rest st h.
Proof using Hh Hpos Her Hend.
  intros Hl. pose proof Hh as (bs & Ho & Es & Hcs & Hc). pose proof spliced_length as El. pose proof spliced_terminated as Et.
  unfold zlen in Hl, Hend, Hcs. destruct (write_cells h st bs cap p' l (cs ++ [0]) Ho Hc) as (st1 & h1 & bs1 & E1 & Ho1 & Hc1 & Ed1 & Hr1);
    [rewrite length_app; lia|left; lia|].
  exists st1, h1. split; [done|]. split; [|done]. exists bs1. split; [done|].
  rewrite (write_at_size h st bs cap p' l st1 h1 Ho ltac:(lia) E1), Es, El. split; [unfold zlen; lia|]. split; [unfold zlen; lia|].
  rewrite Et. replace e' with (p' + length l)%nat by lia. done.
Qed.
End Splice.

(** All of a foreign list. *)
Lemma foreign_valid cs l n : zlen l = n -> valid_src cs (Foreign l) n.
Proof using. intros <-. split; [unfold zlen|]; lia. Qed.
Lemma foreign_chars cs l n : zlen l = n -> src_chars cs (Foreign l) n = l.
Proof using. intros <-. unfold src_chars, zlen. by rewrite Nat2Z.id, firstn_all. Qed.
Lemma append_all_ok h st cs cap l n : holds h st cs cap -> zlen l = n -> outcome h st (cs ++ l) (append (Foreign l) n (st, h)).
Proof using. intros Hh Hn. rewrite <- (foreign_chars cs l n Hn) at 1. by eapply append_ok, foreign_valid. Qed.

(** A temporary takes the three parts. *)
Lemma three_parts h pos m (before after mid : list Z) (middle : M unit) new_size : zlen before = pos -> zlen after = m ->
  (forall tmp h1 cs c, holds h1 tmp cs c -> outcome h1 tmp (cs ++ mid) (middle (tmp, h1))) ->
  forall tmp h1 c, holds h1 tmp [] c -> rest tmp h1 = h ->
  temporary h (before ++ mid ++ after)
    ((_ ← reserve new_size; _ ← append (Foreign before) pos; _ ← middle; append (Foreign after) m) (tmp, h1)).
Proof using.
  intros Hb Ha Hm tmp h1 c Ht Hr. eapply temporary_bind; [by eapply temporary_outcome; [..|eapply reserve_ok]|]. clear tmp h1 c Ht Hr.
  intros tmp h1 c Ht Hr. eapply temporary_bind; [eapply temporary_outcome; [done..|]; by eapply append_all_ok|]. clear tmp h1 c Ht Hr.
  intros tmp h1 c Ht Hr. eapply temporary_bind; [eapply temporary_outcome; [done..|]; by eapply Hm|]. clear tmp h1 c Ht Hr.
  intros tmp h1 c Ht Hr. eapply temporary_outcome; [done..|]. rewrite app_assoc. by eapply (append_all_ok h1 tmp (before ++ mid)).
Qed.

Section Replace.
Context (h : Heap) (st : Storage) (cs : list Z) (cap pos erased : Z).
Hypotheses (Hh : holds h st cs cap) (Hpos : 0 <= pos) (Her : 0 <= erased) (Hend : pos + erased <= zlen cs).

Lemma replaced_size_cases n : 0 <= n ->
  (replaced_size (zlen cs) pos erased n = Ret (zlen cs - erased + n) /\ zlen cs - erased + n <= max_capacity) \/
  exists e, replaced_size (zlen cs) pos erased n = Fail e /\ thrown e.
Proof using Hpos Her Hend.
  intros Hn. unfold replaced_size. rewrite !(proj2 (Z.leb_le _ _)) by lia. cbn [am_check mbind res_mbind res_bind].
  destruct (CheckOverflowAdd uint64_ty _ n) as [over r] eqn:E. destruct over; [right; eexists; split; [done|by left]|].
  assert (r = zlen cs - erased + n) as ->.
  { unfold CheckOverflowAdd in E. injection E as E <-. by apply negb_false_iff, Z.eqb_eq in E. }
  destruct (ensure_cases (zlen cs - erased + n) "replace") as [[Hm ->]|[_ (e & -> & He)]]; [by left|right; by exists e].
Qed.

Lemma erase_run : outcome h st (spliced cs pos erased []) (EraseRangeFast pos erased (st, h)).
Proof using Hh Hpos Her Hend.
  unfold EraseRangeFast. destruct (Z.eqb_spec erased 0) as [E|E].
  { unfold spliced. rewrite E, Z.add_0_r, app_nil_l, take_drop. by eapply outcome_same. }
  run (data_ptr_run h st). run (get_size_run _ _ _ _ Hh). cbv zeta.
  pose proof (spliced_length cs pos erased [] Hpos Her Hend) as El. change (zlen []) with 0 in El. rewrite Z.add_0_r in El.
  pose proof Hh as (bs & Ho & _ & Hle & Hc). destruct (opened_length _ _ _ _ Ho) as (Hbs & Hcap & _).
  rewrite tail_length by done. set (xs := cs ++ [0]) in *. assert (length xs = S (length cs)) as Hx by (unfold xs; rewrite length_app; cbn [length]; lia).
  unfold zlen in Hend, Hle. destruct (tail_move_run h st bs cap (Z.to_nat pos) (Z.to_nat (pos + erased)) xs Ho Hc) as (st1 & h1 & E1 & Ho1 & Ed1 & Hr1);
    [lia|apply last_snoc|lia|]. run E1.
  pose proof (cells_write bs xs (Z.to_nat pos) (drop (Z.to_nat (pos + erased)) xs) Hc ltac:(lia) ltac:(rewrite length_drop; lia)) as Hc1.
  pose proof (spliced_terminated cs pos erased [] Hpos Her Hend) as Et. fold xs in Et. rewrite app_nil_l in Et. rewrite app_assoc, <- Et in Hc1.
  destruct (SetSize_run _ _ _ _ (spliced cs pos erased []) Ho1) as (st2 & h2 & E2 & Hh2 & Hr2); [unfold zlen in El |- *; lia|by do 2 eapply cells_app_l|].
  rewrite <- El, E2. eapply outcome_ret; [done|congruence].
Qed.

(** The fast paths of both forms of [replace_range], after the reads of a foreign source. *)
Lemma splice_in_place l : zlen l <= erased \/ zlen cs - erased + zlen l <= cap ->
  outcome h st (spliced cs pos erased l)
   ((let tail := Z.to_nat (zlen cs - (pos + erased) + 1) in
     if zlen l =? erased then write_at (l_data st) (Z.to_nat pos) l
     else if zlen l <? erased then
       _ ← write_at (l_data st) (Z.to_nat pos) l;
       _ ← char_move (l_data st) (Z.to_nat (pos + zlen l)) (Self (Z.to_nat (pos + erased))) tail;
       SetSize (zlen cs - erased + zlen l)
     else
       _ ← char_move (l_data st) (Z.to_nat (pos + zlen l)) (Self (Z.to_nat (pos + erased))) tail;
       _ ← write_at (l_data st) (Z.to_nat pos) l;
       SetSize (zlen cs - erased + zlen l)) (st, h)).
Proof using Hh Hpos Her Hend.
  intros Hroom. cbv zeta. pose proof (spliced_length cs pos erased l Hpos Her Hend) as El. rewrite <- El.
  replace (Z.to_nat (pos + zlen l)) with (Z.to_nat pos + length l)%nat by (unfold zlen; lia).
  destruct (Z.eqb_spec (zlen l) erased) as [E|E]; [|destruct (Z.ltb_spec (zlen l) erased) as [Hl|Hl]].
  - destruct (same_size_run h st cs cap pos erased l Hh Hpos Her Hend E) as (st' & h' & -> & Hh' & Hr). by eapply outcome_ret.
  - destruct (fill_move_run h st cs cap pos erased l Hh Hpos Her Hend ltac:(lia)) as (st' & h' & -> & Hh' & Hr). by eapply outcome_ret.
  - destruct (move_fill_run h st cs cap pos erased l Hh Hpos Her Hend ltac:(lia)) as (st' & h' & -> & Hh' & Hr). by eapply outcome_ret.
Qed.

(** The parts of this string around the replaced range. *)
Lemma parts_run : read_at (l_data st) 0 (Z.to_nat pos) (st, h) = (Ret (take (Z.to_nat pos) cs), (st, h)) /\
  read_at (l_data st) (Z.to_nat (pos + erased)) (Z.to_nat (zlen cs - pos - erased)) (st, h) = (Ret (drop (Z.to_nat (pos + erased)) cs), (st, h)) /\
  zlen (take (Z.to_nat pos) cs) = pos /\ zlen (drop (Z.to_nat (pos + erased)) cs) = zlen cs - pos - erased.
Proof using Hh Hpos Her Hend.
  pose proof Hh as (bs & Ho & _ & _ & Hc). apply cells_app_l in Hc. unfold zlen in *. rewrite length_take, length_drop. split_and!; [| |lia|lia].
  - rewrite (read_at_run _ _ _ _ _ _ cs Ho Hc) by lia. by rewrite drop_0.
  - rewrite (read_at_run _ _ _ _ _ _ cs Ho Hc) by lia. by rewrite (take_ge (drop _ _)) by (rewrite length_drop; lia).
Qed.

Lemma replace_range_ok src n : valid_src cs src n ->
  outcome h st (spliced cs pos erased (src_chars cs src n)) (replace_range pos erased src n (st, h)).
Proof using Hh Hpos Her Hend.
  intros Hv. pose proof (src_chars_length _ _ _ Hv) as El. unfold replace_range. run (get_size_run _ _ _ _ Hh).
  destruct (replaced_size_cases n (proj1 Hv)) as [[-> Hm]|(e & -> & He)]; [|done]. run_pure.
  assert (n = 0 -> src_chars cs src n = []) as H0 by (intros ->; unfold src_chars; by rewrite take_0).
  destruct ((erased =? 0) && (n =? 0)) eqn:Ez.
  { apply andb_true_iff in Ez as [E1%Z.eqb_eq E2%Z.eqb_eq]. rewrite H0 by done. unfold spliced. rewrite E1, Z.add_0_r, app_nil_l, take_drop. by eapply outcome_same. }
  destruct (Z.eqb_spec n 0) as [En|En]; [rewrite H0 by done; apply erase_run|].
  pose proof Hh as (bs & Ho & _ & Hle & _). run (get_capacity_run _ _ _ _ Ho).
  destruct (negb _ && _) eqn:Ef.
  - apply andb_true_iff in Ef as [Ei Ef]. destruct src as [l|off].
    2:{ apply negb_true_iff, Z.ltb_ge in Ei. destruct Hv. lia. }
    set (l' := src_chars cs (Foreign l) n) in *. pose proof (splice_in_place l') as Hs. rewrite El in Hs.
    specialize (Hs ltac:(apply orb_true_iff in Ef as [?%Z.leb_le|?%Z.leb_le]; lia)). cbv zeta in Hs.
    assert (forall d k s, char_copy d k (Foreign l) (Z.to_nat n) s = write_at d k l' s) as Hcp.
    { intros d k s. unfold char_copy, char_move, source_chars. destruct Hv as [? Hv]. unfold zlen in Hv. by rewrite (proj2 (Nat.leb_le _ _)) by lia. }
    destruct (n =? erased); [|destruct (n <? erased)].
    + unfold ReplaceSameSizeFast. rewrite (proj2 (Z.eqb_neq n 0)) by done. run (data_ptr_run h st). by rewrite Hcp.
    + unfold ReplaceShrinkFast. run (data_ptr_run h st). run (get_size_run _ _ _ _ Hh). rewrite (proj2 (Z.eqb_neq n 0)) by done.
      by rewrite (bind_ext _ _ _ _ (Hcp _ _ _)).
    + unfold ReplaceGrowInplaceFast. run (data_ptr_run h st). run (get_size_run _ _ _ _ Hh). cbv zeta.
      erewrite bind_ext_k; [exact Hs|]. intros ? ?. cbn beta. by apply bind_ext.
  - destruct parts_run as (R1 & R2 & L1 & L2). unfold ReplaceReallocateSlow. run (data_ptr_run h st). run (get_size_run _ _ _ _ Hh).
    run R1. run (source_run h st cs cap src n Hh Hv). run R2. eapply swap_run; [done|apply make_empty_ok|].
    apply three_parts; [done|done|]. intros. by eapply append_all_ok.
Qed.

Lemma replace_fill_ok n ch : 0 <= n ->
  outcome h st (spliced cs pos erased (replicate (Z.to_nat n) ch)) (replace_fill pos erased n ch (st, h)).
Proof using Hh Hpos Her Hend.
  intros Hn. set (l := replicate (Z.to_nat n) ch). assert (zlen l = n) as El by (unfold zlen, l; rewrite length_replicate; lia).
  unfold replace_fill. run (get_size_run _ _ _ _ Hh).
  destruct (replaced_size_cases n Hn) as [[-> Hm]|(e & -> & He)]; [|done]. run_pure.
  assert (n = 0 -> l = []) as H0 by (intros E; unfold l; by rewrite E).
  destruct ((erased =? 0) && (n =? 0)) eqn:Ez.
  { apply andb_true_iff in Ez as [E1%Z.eqb_eq E2%Z.eqb_eq]. rewrite H0 by done. unfold spliced. rewrite E1, Z.add_0_r, app_nil_l, take_drop. by eapply outcome_same. }
  destruct (Z.eqb_spec n 0) as [En|En]; [rewrite H0 by done; apply erase_run|].
  pose proof Hh as (bs & Ho & _ & Hle & _). run (get_capacity_run _ _ _ _ Ho).
  destruct (Z.ltb_spec cap (zlen cs - erased + n)) as [Hc|Hc].
  - destruct parts_run as (R1 & R2 & L1 & L2). unfold ReplaceFillReallocateSlow. run (data_ptr_run h st). run (get_size_run _ _ _ _ Hh).
    run R1. run R2. eapply swap_run; [done|apply make_empty_ok|]. apply three_parts; [done|done|]. intros. by eapply append_fill_ok.
  - run (data_ptr_run h st). cbv zeta. unfold char_assign. fold l. pose proof (splice_in_place l ltac:(lia)) as Hs. by rewrite El in Hs.
Qed.
End Replace.
End Facts.
