(* ===== verification/AmString.v ===== *)
(** * AmString: the string's public operations

    [include/amstring/basic_string.hpp] over the core of [AmStringCore] and the search of
    [AmStringSearch]. [npos] is [2 ^ 64 - 1]; positions past the end throw. The theorems
    say what a list of characters goes through: each operation either leaves the string
    and the heap alone and throws, or makes the string the list the operation stands for. *)
From S2P Require Import Prelude OverflowCheck AmStringSearch AmStringLayout AmStringCore.

Section Api.
Context {L : Layout} {AL : Allocator}.

(* @src include/amstring/basic_string.hpp:40-40 BasicString::npos *)
Definition npos : Z := 2 ^ 64 - 1.

(** ** Positions and counts *)

(* @src include/amstring/basic_string.hpp:402-405 BasicString::ClampCount *)
Definition ClampCount (total pos count : Z) : Z :=
  let remaining := total - pos in if count =? npos then remaining else Z.min count remaining.
(* @src include/amstring/basic_string.hpp:412-416 BasicString::CheckPosition *)
Definition CheckPosition (pos total : Z) (operation : string) : Res unit :=
  if total <? pos then Fail (OutOfRange operation) else Ret tt.
(* @src include/amstring/basic_string.hpp:407-410 BasicString::CheckedClampCount *)
Definition CheckedClampCount (total pos count : Z) (operation : string) : Res Z :=
  _ ← CheckPosition pos total operation; Ret (ClampCount total pos count).

(** [source + k]. *)
Definition shift_src (src : Src) (k : Z) : Src :=
  match src with Foreign l => Foreign (drop (Z.to_nat k) l) | Self off => Self (off + Z.to_nat k) end.

(* @src include/amstring/basic_string.hpp:422-427 BasicString::ReplaceRange *)
Definition ReplaceRange (pos count : Z) (src : Src) (src_count : Z) (operation : string) : M unit :=
  current_size ← get_size;
  erased ← lift (CheckedClampCount current_size pos count operation);
  replace_range pos erased src src_count.
(* @src include/amstring/basic_string.hpp:429-434 BasicString::ReplaceFillRange *)
Definition ReplaceFillRange (pos count fill_count ch : Z) (operation : string) : M unit :=
  current_size ← get_size;
  erased ← lift (CheckedClampCount current_size pos count operation);
  replace_fill pos erased fill_count ch.

(** ** Editing *)

(* @src include/amstring/basic_string.hpp:212-214 BasicString::insert (characters) *)
Definition insert (pos : Z) (s : Src) (count : Z) : M unit := ReplaceRange pos 0 s count "BasicString::insert".
(** [source_size] characters at [str], of which a part is inserted. *)
(* @src include/amstring/basic_string.hpp:200-205 BasicString::insert (part of a string) *)
Definition insert_sub (pos : Z) (str : Src) (source_size subpos subcount : Z) : M unit :=
  normalized_count ← lift (CheckedClampCount source_size subpos subcount "BasicString::insert");
  ReplaceRange pos 0 (shift_src str subpos) normalized_count "BasicString::insert".
(* @src include/amstring/basic_string.hpp:216-218 BasicString::insert (fill) *)
Definition insert_fill (pos count ch : Z) : M unit := ReplaceFillRange pos 0 count ch "BasicString::insert".
(* @src include/amstring/basic_string.hpp:242-244 BasicString::erase *)
Definition erase (pos count : Z) : M unit := ReplaceRange pos count (Foreign []) 0 "BasicString::erase".
(* @src include/amstring/basic_string.hpp:318-320 BasicString::replace (characters) *)
Definition replace (pos count : Z) (s : Src) (count2 : Z) : M unit := ReplaceRange pos count s count2 "BasicString::replace".
(* @src include/amstring/basic_string.hpp:305-311 BasicString::replace (part of a string) *)
Definition replace_sub (pos count : Z) (str : Src) (source_size subpos subcount : Z) : M unit :=
  normalized_count ← lift (CheckedClampCount source_size subpos subcount "BasicString::replace");
  ReplaceRange pos count (shift_src str subpos) normalized_count "BasicString::replace".
(* @src include/amstring/basic_string.hpp:322-324 BasicString::replace (fill) *)
Definition replace_with_fill (pos count count2 ch : Z) : M unit := ReplaceFillRange pos count count2 ch "BasicString::replace".

(** ** Reading *)

(* @src include/amstring/basic_string.hpp:136-141 BasicString::at *)
Definition at_pos (pos : Z) : M Z :=
  sz ← get_size;
  if sz <=? pos then lift (Fail (OutOfRange "BasicString::at"))
  else d ← data_ptr; l ← read_at d (Z.to_nat pos) 1; lift (vec_at l 0).
(** A new string; this one is not changed. *)
(* @src include/amstring/basic_string.hpp:336-341 BasicString::substr *)
Definition substr (pos count : Z) : M Storage :=
  d ← data_ptr;
  sz ← get_size;
  normalized_count ← lift (CheckedClampCount sz pos count "BasicString::substr");
  l ← read_at d (Z.to_nat pos) (Z.to_nat normalized_count);
  on_heap (make_from l).
(* @src include/amstring/basic_string.hpp:347-349 BasicString::find *)
Definition find (needle : list Z) (pos : Z) : M (option nat) :=
  d ← data_ptr;
  sz ← get_size;
  hay ← read_at d 0 (Z.to_nat sz);
  lift (FindRange hay needle (Z.to_nat pos)).

(** ** Several strings *)

(* @src include/amstring/basic_string.hpp:55-57 BasicString::BasicString (fill) *)
Definition make_fill (count ch : Z) : Exec Heap Storage := fun h =>
  match make_empty h with
  | (Ret st, h) =>
      match resize count ch (st, h) with
      | (Ret _, (st, h)) => (Ret st, h)
      | (Fail e, (st, h)) => let '(_, h) := destroy st h in (Fail e, h)
      | (Panic w, (_, h)) => (Panic w, h)
      end
  | (Fail e, h) => (Fail e, h)
  | (Panic w, h) => (Panic w, h)
  end.

(** Of [std::allocator], which does not propagate on copy assignment. *)
(* @src include/amstring/core.hpp:118-135 BasicStringCore::operator= (copy) *)
Definition copy_assign (other : Storage) : M unit := fun '(st, h) =>
  match read_at (l_data other) 0 (Z.to_nat (l_size other)) (other, h) with
  | (Ret l, (_, h)) =>
      (_ ← swap_with_temporary (make_from l) (mret tt);
       st ← get_storage; on_heap (l_CheckInvariants st)) (st, h)
  | (Fail e, (_, h)) => (Fail e, (st, h))
  | (Panic w, (_, h)) => (Panic w, (st, h))
  end.

(** Of [std::allocator], which propagates on move assignment; the new storage of the source. *)
(* @src include/amstring/core.hpp:137-152 BasicStringCore::operator= (move) *)
Definition move_assign (other : Storage) : M Storage :=
  _ ← DestroyHeapIfNeeded;
  st ← lift l_InitEmpty;
  _ ← put_storage st;
  both ← on_heap (MoveStorageFrom other);
  _ ← put_storage both.1;
  mret both.2.

(** ** Calls *)

Inductive Op :=
| OClear | OShrink | OPopBack
| OReserve (n : Z)
| OResize (n ch : Z)
| OPushBack (ch : Z)
| OAssign (src : Src) (n : Z)
| OAssignFill (n ch : Z)
| OAppend (src : Src) (n : Z)
| OAppendFill (n ch : Z)
| OInsert (pos : Z) (src : Src) (n : Z)
| OInsertSub (pos : Z) (src : Src) (total subpos subcount : Z)
| OInsertFill (pos n ch : Z)
| OErase (pos count : Z)
| OReplace (pos count : Z) (src : Src) (n : Z)
| OReplaceSub (pos count : Z) (src : Src) (total subpos subcount : Z)
| OReplaceFill (pos count n ch : Z).

Definition run_op (op : Op) : M unit :=
  match op with
  | OClear => clear
  | OShrink => shrink_to_fit
  | OPopBack => pop_back
  | OReserve n => reserve n
  | OResize n ch => resize n ch
  | OPushBack ch => push_back ch
  | OAssign src n => assign src n
  | OAssignFill n ch => assign_fill n ch
  | OAppend src n => append src n
  | OAppendFill n ch => append_fill n ch
  | OInsert pos src n => insert pos src n
  | OInsertSub pos src total subpos subcount => insert_sub pos src total subpos subcount
  | OInsertFill pos n ch => insert_fill pos n ch
  | OErase pos count => erase pos count
  | OReplace pos count src n => replace pos count src n
  | OReplaceSub pos count src total subpos subcount => replace_sub pos count src total subpos subcount
  | OReplaceFill pos count n ch => replace_with_fill pos count n ch
  end.

(** ** Specification *)

(** [count] characters from [pos] on, or up to the end, become [l]. *)
Definition splice (cs : list Z) (pos count : Z) (l : list Z) : option (list Z) :=
  if zlen cs <? pos then None
  else Some (take (Z.to_nat pos) cs ++ l ++ drop (Z.to_nat (pos + count)) cs).

(** [subcount] characters from [subpos] on of the [total] at a source. *)
Definition sub_chars (cs : list Z) (src : Src) (total subpos subcount : Z) : option (list Z) :=
  if total <? subpos then None
  else Some (take (Z.to_nat subcount) (drop (Z.to_nat subpos) (src_chars cs src total))).

(** The characters after a call, or [None] when a position is past the end. *)
Definition spec (cs : list Z) (op : Op) : option (list Z) :=
  match op with
  | OClear => Some []
  | OShrink | OReserve _ => Some cs
  | OPopBack => Some (removelast cs)
  | OResize n ch => Some (take (Z.to_nat n) cs ++ replicate (Z.to_nat (n - zlen cs)) ch)
  | OPushBack ch => Some (cs ++ [ch])
  | OAssign src n => Some (src_chars cs src n)
  | OAssignFill n ch => Some (replicate (Z.to_nat n) ch)
  | OAppend src n => Some (cs ++ src_chars cs src n)
  | OAppendFill n ch => Some (cs ++ replicate (Z.to_nat n) ch)
  | OInsert pos src n => splice cs pos 0 (src_chars cs src n)
  | OInsertSub pos src total subpos subcount => l ← sub_chars cs src total subpos subcount; splice cs pos 0 l
  | OInsertFill pos n ch => splice cs pos 0 (replicate (Z.to_nat n) ch)
  | OErase pos count => splice cs pos count []
  | OReplace pos count src n => splice cs pos count (src_chars cs src n)
  | OReplaceSub pos count src total subpos subcount => l ← sub_chars cs src total subpos subcount; splice cs pos count l
  | OReplaceFill pos count n ch => splice cs pos count (replicate (Z.to_nat n) ch)
  end.

(** What a caller owes: sizes are sizes, and sources are arrays of the length they say. *)
Definition op_ok (cs : list Z) (op : Op) : Prop :=
  match op with
  | OClear | OShrink | OPopBack | OReserve _ | OPushBack _ => True
  | OResize n _ | OAssignFill n _ | OAppendFill n _ => 0 <= n
  | OAssign src n | OAppend src n => valid_src cs src n
  | OInsert pos src n => 0 <= pos /\ valid_src cs src n
  | OInsertSub pos src total subpos subcount => 0 <= pos /\ valid_src cs src total /\ total < npos /\ 0 <= subpos /\ 0 <= subcount <= npos
  | OInsertFill pos n _ => 0 <= pos /\ 0 <= n
  | OErase pos count => 0 <= pos /\ 0 <= count <= npos
  | OReplace pos count src n => 0 <= pos /\ 0 <= count <= npos /\ valid_src cs src n
  | OReplaceSub pos count src total subpos subcount =>
      0 <= pos /\ 0 <= count <= npos /\ valid_src cs src total /\ total < npos /\ 0 <= subpos /\ 0 <= subcount <= npos
  | OReplaceFill pos count n _ => 0 <= pos /\ 0 <= count <= npos /\ 0 <= n
  end.

(** As [outcome], where [None] must throw. *)
Definition outcome_opt (h : Heap) (st : Storage) (o : option (list Z)) (x : Res unit * (Storage * Heap)) : Prop :=
  match o with
  | Some cs' => outcome h st cs' x
  | None => exists e, x = (Fail e, (st, h)) /\ code e = StatusCode.kOutOfRange
  end.
End Api.

(** ** Correctness of the calls *)

Section Facts.
Context {L : Layout} {AL : Allocator}.

Lemma clamp_spec total pos count : 0 <= pos <= total -> total < npos -> 0 <= count -> ClampCount total pos count = Z.min count (total - pos).
Proof using. intros Hp Ht Hc. unfold ClampCount, npos in *. destruct (Z.eqb_spec count (2 ^ 64 - 1)); lia. Qed.

Lemma checked_clamp_cases total pos count op : 0 <= pos -> total < npos -> 0 <= count ->
  (pos <= total /\ CheckedClampCount total pos count op = Ret (Z.min count (total - pos))) \/
  (total < pos /\ CheckedClampCount total pos count op = Fail (OutOfRange op)).
Proof using.
  intros Hp Ht Hc. unfold CheckedClampCount, CheckPosition. destruct (Z.ltb_spec total pos); [by right|left].
  split; [done|]. cbn [mbind res_mbind res_bind]. by rewrite clamp_spec by lia.
Qed.

Lemma size_bound h st cs cap : holds h st cs cap -> zlen cs < npos.
Proof using.
  intros (bs & Ho & _ & Hle & _). destruct (opened_length _ _ _ _ Ho) as (_ & Hc & _). pose proof max_capacity_range. unfold npos. lia.
Qed.

(** Cutting at the end of the string does not show. *)
Lemma spliced_clamped cs pos count l : 0 <= pos <= zlen cs -> 0 <= count ->
  splice cs pos count l = Some (spliced cs pos (Z.min count (zlen cs - pos)) l).
Proof using.
  intros Hp Hc. unfold splice, spliced. rewrite (proj2 (Z.ltb_ge _ _)) by lia. do 3 f_equal.
  destruct (decide (count <= zlen cs - pos)); [by rewrite Z.min_l by lia|]. rewrite Z.min_r by lia. unfold zlen in *. by rewrite !drop_ge by lia.
Qed.

Lemma ReplaceRange_ok h st cs cap pos count src n op : holds h st cs cap -> 0 <= pos -> 0 <= count -> valid_src cs src n ->
  outcome_opt h st (splice cs pos count (src_chars cs src n)) (ReplaceRange pos count src n op (st, h)).
Proof using.
  intros Hh Hp Hc Hv. unfold ReplaceRange. run (get_size_run _ _ _ _ Hh).
  destruct (checked_clamp_cases (zlen cs) pos count op Hp (size_bound _ _ _ _ Hh) Hc) as [[Hle ->]|[Hgt ->]]; run_pure.
  - rewrite spliced_clamped by lia. apply replace_range_ok with cap; (done || lia).
  - unfold splice. rewrite (proj2 (Z.ltb_lt _ _)) by done. by eexists.
Qed.

Lemma ReplaceFillRange_ok h st cs cap pos count n ch op : holds h st cs cap -> 0 <= pos -> 0 <= count -> 0 <= n ->
  outcome_opt h st (splice cs pos count (replicate (Z.to_nat n) ch)) (ReplaceFillRange pos count n ch op (st, h)).
Proof using.
  intros Hh Hp Hc Hn. unfold ReplaceFillRange. run (get_size_run _ _ _ _ Hh).
  destruct (checked_clamp_cases (zlen cs) pos count op Hp (size_bound _ _ _ _ Hh) Hc) as [[Hle ->]|[Hgt ->]]; run_pure.
  - rewrite spliced_clamped by lia. apply replace_fill_ok with cap; (done || lia).
  - unfold splice. rewrite (proj2 (Z.ltb_lt _ _)) by done. by eexists.
Qed.

(** A part of a valid source is a valid source. *)
Lemma shift_valid cs src total subpos n : valid_src cs src total -> 0 <= subpos -> 0 <= n <= total - subpos -> valid_src cs (shift_src src subpos) n.
Proof using. intros [Ht Hv] Hs Hn. split; [lia|]. unfold zlen in *. destruct src as [l|off]; cbn; rewrite ?length_drop; lia. Qed.

Lemma shift_chars cs src total subpos subcount : valid_src cs src total -> 0 <= subpos <= total -> 0 <= subcount ->
  src_chars cs (shift_src src subpos) (Z.min subcount (total - subpos)) = take (Z.to_nat subcount) (drop (Z.to_nat subpos) (src_chars cs src total)).
Proof using.
  intros Hv Hs Hc. unfold src_chars. assert (forall l : list Z, take (Z.to_nat (Z.min subcount (total - subpos))) (drop (Z.to_nat subpos) l) =
    take (Z.to_nat subcount) (drop (Z.to_nat subpos) (take (Z.to_nat total) l))) as E.
  { intros l. rewrite skipn_firstn_comm, take_take. f_equal. lia. }
  destruct src as [l|off]; cbn [shift_src]; [apply E|]. rewrite <- drop_drop. apply E.
Qed.

Lemma replace_sub_range_ok h st cs cap pos count src total subpos subcount op : holds h st cs cap -> 0 <= pos -> 0 <= count ->
  valid_src cs src total -> total < npos -> 0 <= subpos -> 0 <= subcount ->
  outcome_opt h st (l ← sub_chars cs src total subpos subcount; splice cs pos count l)
    ((normalized_count ← lift (CheckedClampCount total subpos subcount op);
      ReplaceRange pos count (shift_src src subpos) normalized_count op) (st, h)).
Proof using.
  intros Hh Hp Hc Hv Ht Hs Hsc. unfold sub_chars. destruct (checked_clamp_cases total subpos subcount op Hs Ht Hsc) as [[Hle ->]|[Hgt ->]].
  - run_pure. rewrite (proj2 (Z.ltb_ge _ _)) by lia. cbn [mbind option_bind].
    rewrite <- (shift_chars cs src total subpos subcount Hv) by lia. apply ReplaceRange_ok with cap; try done.
    apply shift_valid with total; (done || lia).
  - rewrite (proj2 (Z.ltb_lt _ _)) by done. by eexists.
Qed.

Lemma run_op_ok h st cs cap op : holds h st cs cap -> op_ok cs op -> outcome_opt h st (spec cs op) (run_op op (st, h)).
Proof using.
  intros Hh Hop. destruct op; cbn [op_ok spec run_op outcome_opt] in *.
  - by eapply clear_ok.
  - by eapply shrink_to_fit_ok.
  - by eapply pop_back_ok.
  - by eapply reserve_ok.
  - by eapply resize_ok.
  - by eapply push_back_ok.
  - by eapply assign_ok.
  - by eapply assign_fill_ok.
  - by eapply append_ok.
  - by eapply append_fill_ok.
  - apply ReplaceRange_ok with cap; [done|lia|lia|by destruct Hop].
  - destruct Hop as (? & ? & ? & ? & ?). apply replace_sub_range_ok with cap; (done || lia).
  - apply ReplaceFillRange_ok with cap; (done || lia).
  - apply (ReplaceRange_ok h st cs cap pos count (Foreign []) 0); [done|lia|lia|]. by apply foreign_valid.
  - destruct Hop as (? & ? & ?). apply ReplaceRange_ok with cap; (done || lia).
  - destruct Hop as (? & ? & ? & ? & ? & ?). apply replace_sub_range_ok with cap; (done || lia).
  - apply ReplaceFillRange_ok with cap; (done || lia).
Qed.

(** ** Reading and building *)

Lemma read_chars h st cs cap off n : holds h st cs cap -> (off + n <= length cs)%nat ->
  read_at (l_data st) off n (st, h) = (Ret (take n (drop off cs)), (st, h)).
Proof using. intros (bs & Ho & _ & _ & Hc) Hn. by apply (read_at_run _ _ _ _ _ _ cs Ho (cells_app_l _ _ _ Hc)). Qed.

(** [at] reads the character or throws. *)
Theorem at_exact h st cs cap pos : holds h st cs cap -> 0 <= pos ->
  at_pos pos (st, h) = (match cs !! Z.to_nat pos with Some c => Ret c | None => Fail (OutOfRange "BasicString::at") end, (st, h)).
Proof using.
  intros Hh Hp. unfold at_pos. run (get_size_run _ _ _ _ Hh). destruct (Z.leb_spec (zlen cs) pos) as [Hle|Hlt].
  - by rewrite lookup_ge_None_2 by (unfold zlen in *; lia).
  - run (data_ptr_run h st). destruct (lookup_lt_is_Some_2 cs (Z.to_nat pos)) as [c Hc]; [unfold zlen in *; lia|]. rewrite Hc.
    pose proof (read_chars h st cs cap (Z.to_nat pos) 1 Hh ltac:(unfold zlen in *; lia)) as Hr. rewrite (drop_S _ _ _ Hc) in Hr. cbn [take] in Hr. rewrite take_0 in Hr. by run Hr.
Qed.

(** [substr] builds the part asked for and leaves this string as it is. *)
Theorem substr_exact h st cs cap pos count : holds h st cs cap -> 0 <= pos -> 0 <= count <= npos ->
  match substr pos count (st, h) with
  | (Ret sub, (st', h')) => st' = st /\ pos <= zlen cs /\ rest sub h' = h /\ holds h' st cs cap /\
      exists cap', holds h' sub (take (Z.to_nat count) (drop (Z.to_nat pos) cs)) cap'
  | (Fail e, s) => s = (st, h) /\ thrown e
  | (Panic _, _) => False
  end.
Proof using.
  intros Hh Hp Hc. unfold substr. run (data_ptr_run h st). run (get_size_run _ _ _ _ Hh).
  destruct (checked_clamp_cases (zlen cs) pos count "BasicString::substr" Hp (size_bound _ _ _ _ Hh) ltac:(lia)) as [[Hle ->]|[Hgt ->]]; [|split; [done|by left]].
  run_pure. pose proof (read_chars h st cs cap (Z.to_nat pos) (Z.to_nat (Z.min count (zlen cs - pos))) Hh ltac:(unfold zlen in *; lia)) as Hr. run Hr.
  assert (take (Z.to_nat (Z.min count (zlen cs - pos))) (drop (Z.to_nat pos) cs) = take (Z.to_nat count) (drop (Z.to_nat pos) cs)) as ->.
  { destruct (decide (count <= zlen cs - pos)); [by rewrite Z.min_l by lia|]. unfold zlen in *. by rewrite !take_ge by (rewrite length_drop; lia). }
  set (l := take _ _). pose proof (make_from_ok h l) as Hb. destruct (make_from l h) as [[tmp|e|w] h'] eqn:E.
  - rewrite (on_heap_run _ st _ _ _ E). destruct Hb as [Hh' Hr']. split_and!; [done|done|done| |done]. eapply holds_mono; [|exact Hh]. rewrite <- Hr'. apply rest_sub.
  - rewrite (on_heap_run _ st _ _ _ E). by destruct Hb as [-> ?].
  - done.
Qed.

Lemma make_fill_ok h n ch : 0 <= n -> built h (replicate (Z.to_nat n) ch) (make_fill n ch h).
Proof using.
  intros Hn. unfold make_fill. pose proof (make_empty_ok h) as Hb. destruct (make_empty h) as [[st|e|w] h1]; [|done|done]. destruct Hb as [[c Hh] Hr].
  pose proof (resize_ok h1 st [] c n ch Hh Hn) as H. rewrite take_nil in H. change (zlen []) with 0 in H. rewrite Z.sub_0_r in H.
  destruct (resize n ch (st, h1)) as [[u|e|w] [st2 h2]]; [| |done].
  - destruct H as [? ?]. split; [done|congruence].
  - destruct H as (-> & -> & He). rewrite (destructor_run _ _ _ _ Hh). by rewrite Hr.
Qed.

(** Copying another string: it becomes the same list, and the other stays. *)
Theorem copy_assign_exact h st cs cap other cs2 cap2 : holds h st cs cap -> holds (rest st h) other cs2 cap2 ->
  outcome h st cs2 (copy_assign other (st, h)).
Proof using.
  intros Hh H2. assert (holds h other cs2 cap2) as H2' by (eapply holds_mono; [apply rest_sub|done]). unfold copy_assign.
  pose proof H2' as (bs & Ho & Es & _ & Hc). rewrite Es.
  rewrite (read_chars h other cs2 cap2 0 (Z.to_nat (zlen cs2)) H2' ltac:(unfold zlen; lia)), drop_0, firstn_all2 by (unfold zlen; lia).
  pose proof (swap_run h st cs cap cs2 cs2 (make_from cs2) (mret tt : M unit) Hh (make_from_ok h cs2)) as Hs.
  specialize (Hs ltac:(intros; by eapply mret_temporary)). unfold mbind at 1, exec_mbind at 1, exec_bind at 1.
  destruct (swap_with_temporary _ _ _) as [[u|e|w] [st' h']]; [|done|done]. destruct Hs as [[c Hh'] Hr].
  run_pure. rewrite (on_heap_run _ st' _ _ _ (check_run _ _ _ _ Hh')). split; [by exists c|done].
Qed.

(** Taking over an unaliased string's representation. *)
Lemma take_over h other cs cap : holds h other cs cap ->
  exists st src, MoveStorageFrom other h = (Ret (st, src), h) /\ holds h st cs cap /\ rest st h = rest other h /\ exists c, holds h src [] c /\ rest src h = h.
Proof using.
  intros Hh. pose proof Hh as (bs & Ho & Es & Hle & Hc). unfold MoveStorageFrom. pose proof (make_empty_ok h) as Hb. unfold make_empty in Hb. rewrite InitEmpty_law in *.
  destruct Hb as [[c Hh0] Hr0]. set (src := with_small_size slots (replicate slots 0) 0) in *.
  destruct Ho as [st sz Hs|st q sz cap bs He Hq Hl].
  - destruct (small_view _ _ Hs) as (-> & _ & _ & Ed & _). pose proof Hs as (Hlen & _). rewrite Es.
    pose proof (cells_read _ _ 0 (length cs) (cells_app_l _ _ _ Hc) ltac:(lia)) as E. rewrite !drop_0, firstn_all, <- fmap_take in E. apply (inj (fmap Some)) in E.
    assert (zlen cs < Z.of_nat slots) as Hlt by lia. pose proof (small_built h st cs Hlt E) as Hb. rewrite InitSmall_law in * by (rewrite ?Hlen; unfold zlen in *; lia). cbn [lift] in Hb.
    destruct Hb as [[c' Hh'] Hr']. eexists _, src. run_pure. split; [done|].
    split; [|split; [by unfold rest at 2; rewrite Ed|by exists c]].
    destruct (with_small_size_holds h (take (Z.to_nat (zlen cs)) st ++ replicate (slots - Z.to_nat (zlen cs)) 0) cs) as [H _];
      [rewrite length_app, length_take, length_replicate; unfold zlen in *; lia|lia| |exact H].
    unfold zlen. rewrite Nat2Z.id, E. intros i x Hx. rewrite list_lookup_fmap, lookup_app_l by (by eapply lookup_lt_Some). by rewrite Hx.
  - destruct (ext_view _ _ _ _ He) as (-> & _ & _ & Ed & _ & Ec). rewrite Ed, Es, Ec. pose proof (ext_range _ _ _ _ He) as (Hp & _ & Hm).
    destruct (InitExternal_law q (zlen cs) cap Hp) as (st' & He' & Hrun); [unfold zlen in *; lia|done|].
    assert (bs !! Z.to_nat (zlen cs) = Some (Some 0)) as Hz by (apply Hc; unfold zlen; rewrite Nat2Z.id; by rewrite lookup_app_r, Nat.sub_diag by lia).
    assert (heap_write q (Z.to_nat (zlen cs)) 0 h = (Ret tt, h)) as W
      by (rewrite (heap_write_run q _ 0 h bs Hq) by (by eapply lookup_lt_Some); by rewrite list_insert_id, insert_id).
    assert (l_InitExternal q (zlen cs) cap h = (Ret st', h)) as E by (rewrite Hrun; by run W). run E. run_pure.
    destruct (ext_view _ _ _ _ He') as (_ & _ & _ & Ed' & Es' & _). exists st', src. split; [done|].
    split; [exists bs; split; [by econstructor|done]|]. split; [unfold rest; by rewrite Ed, Ed'|by exists c].
Qed.

(** Moving another string: this one takes its block over and releases its own, the other
    is left empty, and nothing is copied. *)
Theorem move_assign_exact h st cs cap other cs2 cap2 : holds h st cs cap -> holds (rest st h) other cs2 cap2 ->
  exists st' other' c, move_assign other (st, h) = (Ret other', (st', rest st h)) /\ holds (rest st h) st' cs2 cap2 /\
    rest st' (rest st h) = rest other (rest st h) /\ holds (rest st h) other' [] c /\ rest other' (rest st h) = rest st h.
Proof using.
  intros (bs & Ho & _) H2. unfold move_assign. destruct (destroy_run _ _ _ _ Ho) as [st0 Hd]. run Hd. rewrite InitEmpty_law. run_pure.
  destruct (take_over _ _ _ _ H2) as (st' & src & E & H' & Hr & c & Hs & Hrs). rewrite (exec_bind_run _ _ _ _ _ (on_heap_run _ _ _ _ _ E)). run_pure.
  by exists st', src, c.
Qed.

(** ** Theorems *)

(** C30: Every editing call ([Op]: clear, shrink, pop, reserve, resize, push, and assign,
    append, insert, erase and replace with an array, a part of it or a fill) on a string
    that holds [cs] either throws and leaves the string and the heap as they were, or makes
    the string what the call says, terminated, inline or in a block of its own, and touches
    no other block. The array may lie inside the string itself, as long as it ends before
    the terminator ([valid_src]; one that includes the terminator can be undefined, see
    [append_terminator]). A position past the end always throws, and no call reads an
    unwritten character, writes outside its block, copies overlapping ranges or releases a
    block with another size. Calls that involve several strings (copies, moves, swap) are
    those of [AmStringLife]. *)
Theorem string_calls_refine h st cs cap op : holds h st cs cap -> op_ok cs op -> outcome_opt h st (spec cs op) (run_op op (st, h)).
Proof using. apply run_op_ok. Qed.

(** Searching a string finds the first occurrence from the position on. *)
Theorem find_exact h st cs cap needle pos : holds h st cs cap -> 0 <= pos ->
  exists r, find needle pos (st, h) = (Ret r, (st, h)) /\ first_from cs needle (Z.to_nat pos) r.
Proof using.
  intros Hh Hp. destruct (FindRange_first cs needle (Z.to_nat pos)) as (r & E & Hr). exists r. split; [|done].
  unfold find. run (data_ptr_run h st). run (get_size_run _ _ _ _ Hh).
  pose proof (read_chars h st cs cap 0 (Z.to_nat (zlen cs)) Hh ltac:(unfold zlen; lia)) as R. rewrite drop_0, firstn_all2 in R by (unfold zlen; lia). run R. by rewrite E.
Qed.
End Facts.

(** ** Examples *)

Module Examples.

(** The lowest free address of a hundred. *)
#[global] Program Instance first_fit : Allocator := {|
  pick h n := List.find (fun p => bool_decide (h !! p = None)) (seqZ 1 100) |}.
Next Obligation. intros h n p H. apply List.find_some in H as [Hin Hp]. apply bool_decide_eq_true in Hp. apply list_elem_of_In, elem_of_seqZ in Hin. split; [lia|done]. Qed.

Definition run_all (ops : list Op) (s : Storage * Heap) : Storage * Heap := foldl (fun s op => (run_op op s).2) s ops.
Definition chars (s : Storage * Heap) : Res (list Z) := ((d ← data_ptr; n ← get_size; read_at d 0 (Z.to_nat n)) s).1.
Definition empty : Storage := match make_empty ∅ with (Ret st, _) => st | _ => [] end.

(** Twenty characters, then insertions of the string into itself, past the inline room. *)
Definition ops : list Op := [OAssignFill 20 97; OInsert 1 (Self 0) 5; OReplace 2 3 (Foreign [98; 99]) 2; OErase 20 npos].

Example grows_and_shrinks : chars (run_all ops (empty, ∅)) = Ret [97; 97; 98; 99; 97; 97; 97; 97; 97; 97; 97; 97; 97; 97; 97; 97; 97; 97; 97; 97].
Proof. vm_compute. reflexivity. Qed.

Lemma blank_holds : exists cap, holds ∅ empty [] cap.
Proof. pose proof (make_empty_ok ∅) as H. exact (proj1 H). Qed.

Lemma string_calls_refine_witness : outcome_opt ∅ empty (Some (replicate 40 97)) (run_op (OAppendFill 40 97) (empty, ∅)).
Proof. destruct blank_holds as [cap H]. exact (string_calls_refine ∅ empty [] cap (OAppendFill 40 97) H ltac:(by cbn)). Defined.

(** A range that ends with the terminator: in place it is appended, but a reallocating
    append reads it where the copy writes. *)
Example append_terminator :
  chars (run_all [OAssignFill 10 97; OAppend (Self 8) 3] (empty, ∅)) = Ret (replicate 12 97 ++ [0]) /\
  (run_op (OAppend (Self 21) 3) (run_all [OAssignFill 23 97] (empty, ∅))).1 = Panic "overlapping copy".
Proof. split; vm_compute; reflexivity. Qed.

(** Growth is not cut to the limit: 32-bit characters, three of four thousand million. *)
Example growth_past_limit :
  let L := layout_u32 in
  AllocationCountForCapacity (3 * 2 ^ 30 + 2 ^ 29 + 1) = Ret (3 * 2 ^ 30 + 2 ^ 29 + 2) /\
  exists e, CheckedNextCapacity (3 * 2 ^ 30 + 2 ^ 29) (3 * 2 ^ 30 + 2 ^ 29 + 1) = Fail e.
Proof. split; [vm_compute; reflexivity|]. eexists. vm_compute. reflexivity. Qed.
End Examples.
