(* ===== verification/AmStringLife.v ===== *)
(** * AmStringLife: many strings over one heap

    String objects are constructed, copied, moved, assigned, swapped, edited and destroyed,
    in any order, and blocks pass from one to another. The world is the table of the live
    strings and the heap; a call names the strings it works on. *)
From S2P Require Import Prelude OverflowCheck AmStringSearch AmStringLayout AmStringCore AmString.

Section Life.
Context {L : Layout} {AL : Allocator}.

(** ** Calls *)

(** The storages of the two strings after the exchange, whose invariants are checked. *)
(* @src include/amstring/core.hpp:542-553 BasicStringCore::swap *)
Definition swap (st other : Storage) : Exec Heap (Storage * Storage) :=
  let '(st, other) := (other, st) in
  _ ← l_CheckInvariants st;
  _ ← l_CheckInvariants other;
  mret (st, other).

Definition World : Type := gmap nat Storage * Heap.

Inductive Call :=
| Construct (i : nat) | ConstructFrom (i : nat) (l : list Z) | ConstructFill (i : nat) (n ch : Z)
| ConstructCopy (i j : nat) | ConstructMove (i j : nat)
| Destroy (i : nat)
| Edit (i : nat) (op : Op)
| AssignCopy (i j : nat) | AssignMove (i j : nat) | Swap (i j : nat).

Definition unknown_string {A} : Exec Heap A := lift (Panic "no such string").
Definition string_at (w : World) (i : nat) : Exec Heap Storage :=
  match w.1 !! i with Some st => mret st | None => unknown_string end.

(** What a call does to the table; a call that throws leaves it alone. *)
Definition put_result (w : World) (x : Res (gmap nat Storage) * Heap) : Res unit * World :=
  match x with
  | (Ret ss, h) => (Ret tt, (ss, h))
  | (Fail e, h) => (Fail e, (w.1, h))
  | (Panic m, h) => (Panic m, (w.1, h))
  end.

(** A member function of string [i]. *)
Definition member (w : World) (i : nat) (m : M unit) : Res unit * World :=
  match w.1 !! i with
  | Some st => let '(r, (st', h)) := m (st, w.2) in (r, (<[i := st']> w.1, h))
  | None => (Panic "no such string", w)
  end.

Definition run_call (c : Call) (w : World) : Res unit * World :=
  match c with
  | Construct i => put_result w ((st ← make_empty; mret (<[i := st]> w.1)) w.2)
  | ConstructFrom i l => put_result w ((st ← make_from l; mret (<[i := st]> w.1)) w.2)
  | ConstructFill i n ch => put_result w ((st ← make_fill n ch; mret (<[i := st]> w.1)) w.2)
  | ConstructCopy i j => put_result w ((other ← string_at w j; st ← make_copy other; mret (<[i := st]> w.1)) w.2)
  | ConstructMove i j =>
      put_result w ((other ← string_at w j; both ← MoveStorageFrom other; mret (<[i := both.1]> (<[j := both.2]> w.1))) w.2)
  | Destroy i => put_result w ((st ← string_at w i; _ ← destroy st; mret (delete i w.1)) w.2)
  | Edit i op => member w i (run_op op)
  | AssignCopy i j =>
      if bool_decide (i = j) then (Ret tt, w)
      else match w.1 !! j with Some other => member w i (copy_assign other) | None => (Panic "no such string", w) end
  | AssignMove i j =>
      if bool_decide (i = j) then (Ret tt, w)
      else match w.1 !! i, w.1 !! j with
           | Some st, Some other =>
               match move_assign other (st, w.2) with
               | (Ret other', (st', h)) => (Ret tt, (<[i := st']> (<[j := other']> w.1), h))
               | (Fail e, (st', h)) => (Fail e, (<[i := st']> w.1, h))
               | (Panic m, (st', h)) => (Panic m, (<[i := st']> w.1, h))
               end
           | _, _ => (Panic "no such string", w)
           end
  | Swap i j =>
      put_result w ((st ← string_at w i; other ← string_at w j; both ← swap st other;
                     mret (<[i := both.1]> (<[j := both.2]> w.1))) w.2)
  end.

(** ** Specification *)

(** The characters of every live string after a call, [None] when it must throw. *)
Definition spec_call (t : gmap nat (list Z)) (c : Call) : option (gmap nat (list Z)) :=
  match c with
  | Construct i => Some (<[i := []]> t)
  | ConstructFrom i l => Some (<[i := l]> t)
  | ConstructFill i n ch => Some (<[i := replicate (Z.to_nat n) ch]> t)
  | ConstructCopy i j => cs ← t !! j; Some (<[i := cs]> t)
  | ConstructMove i j => cs ← t !! j; Some (<[i := cs]> (<[j := []]> t))
  | Destroy i => Some (delete i t)
  | Edit i op => cs ← t !! i; cs' ← spec cs op; Some (<[i := cs']> t)
  | AssignCopy i j => cs ← t !! j; Some (<[i := cs]> t)
  | AssignMove i j => if bool_decide (i = j) then Some t else cs ← t !! j; Some (<[i := cs]> (<[j := []]> t))
  | Swap i j => a ← t !! i; b ← t !! j; Some (<[i := b]> (<[j := a]> t))
  end.

(** What a caller owes: new names for new strings, live strings otherwise, and valid
    arguments of the editing calls. *)
Definition call_ok (t : gmap nat (list Z)) (c : Call) : Prop :=
  match c with
  | Construct i | ConstructFrom i _ => t !! i = None
  | ConstructFill i n _ => t !! i = None /\ 0 <= n
  | ConstructCopy i j | ConstructMove i j => t !! i = None /\ is_Some (t !! j)
  | Destroy i => is_Some (t !! i)
  | Edit i op => exists cs, t !! i = Some cs /\ op_ok cs op
  | AssignCopy i j | AssignMove i j | Swap i j => is_Some (t !! i) /\ is_Some (t !! j)
  end.

(** Any sequence of such calls; a client goes on after an exception. *)
Inductive history (h0 : Heap) : World -> gmap nat (list Z) -> Prop :=
| history_start : history h0 (∅, h0) ∅
| history_call c w t u w' t' : history h0 w t -> call_ok t c -> run_call c w = (Ret u, w') -> spec_call t c = Some t' -> history h0 w' t'
| history_throw c w t e w' : history h0 w t -> call_ok t c -> run_call c w = (Fail e, w') -> history h0 w' t.

(** ** Ownership *)

(** Every string holds its characters, no two share a block, and without the blocks of all
    of them the heap is [h0]. *)
Fixpoint all_hold (h : Heap) (l : list (Storage * list Z)) (h0 : Heap) : Prop :=
  match l with
  | [] => h = h0
  | x :: l' => (exists cap, holds h x.1 x.2 cap) /\ all_hold (rest x.1 h) l' h0
  end.

Lemma all_hold_swap h a b l h0 : all_hold h (a :: b :: l) h0 -> all_hold h (b :: a :: l) h0.
Proof using.
  cbn. intros ([ca Ha] & [cb Hb] & Hl). split; [exists cb; eapply holds_mono; [apply rest_sub|exact Hb]|].
  split; [|by rewrite rest_comm]. destruct Hb as (bs & Ho & _). exists ca. by eapply holds_rest.
Qed.

Lemma all_hold_perm l l' : l ≡ₚ l' -> forall h h0, all_hold h l h0 -> all_hold h l' h0.
Proof using.
  induction 1 as [|x l l' _ IH|x y l|l1 l2 l3 _ IH1 _ IH2]; intros h h0 H; [done| |by apply all_hold_swap|by apply IH2, IH1].
  destruct H as [Hx Hl]. split; [done|by apply IH].
Qed.

Definition owned (m : gmap nat (Storage * list Z)) (h h0 : Heap) : Prop := all_hold h (map_to_list m).*2 h0.

Lemma owned_insert m i x h h0 : m !! i = None -> owned (<[i := x]> m) h h0 <-> (exists cap, holds h x.1 x.2 cap) /\ owned m (rest x.1 h) h0.
Proof using.
  intros Hi. unfold owned. pose proof (map_to_list_insert m i x Hi) as Hp. apply (fmap_Permutation snd) in Hp. cbn in Hp.
  split; intros H; [apply (all_hold_perm _ _ Hp _ _ H)|]. eapply all_hold_perm; [symmetry; exact Hp|exact H].
Qed.
Lemma owned_delete m i x h h0 : m !! i = Some x -> owned m h h0 <-> (exists cap, holds h x.1 x.2 cap) /\ owned (delete i m) (rest x.1 h) h0.
Proof using. intros Hi. rewrite <- (insert_delete_id m i x Hi) at 1. apply owned_insert. apply lookup_delete_eq. Qed.

(** The table, the texts and the heap fit together. *)
Definition fits (h0 : Heap) (w : World) (t : gmap nat (list Z)) : Prop :=
  exists m : gmap nat (Storage * list Z), w.1 = fst <$> m /\ t = snd <$> m /\ owned m w.2 h0.

Lemma fits_at h0 ss h t i cs : fits h0 (ss, h) t -> t !! i = Some cs -> exists m st, ss = fst <$> m /\ t = snd <$> m /\ m !! i = Some (st, cs) /\
  ss !! i = Some st /\ (exists cap, holds h st cs cap) /\ owned (delete i m) (rest st h) h0.
Proof using.
  intros (m & E1 & E2 & Ho) Hi. cbn in E1, Ho. subst ss t. rewrite lookup_fmap in Hi. destruct (m !! i) as [[st cs']|] eqn:Em; [|done]. injection Hi as ->.
  destruct (proj1 (owned_delete m i (st, cs) h h0 Em) Ho) as [Hh Hd]. exists m, st. split_and!; try done. by rewrite lookup_fmap, Em.
Qed.

(** A string is replaced, or a new one added. *)
Lemma fits_put h0 m i st cs h : (exists cap, holds h st cs cap) -> owned (delete i m) (rest st h) h0 -> fits h0 (<[i := st]> (fst <$> m), h) (<[i := cs]> (snd <$> m)).
Proof using.
  intros Hh Ho. exists (<[i := (st, cs)]> m). cbn. rewrite !fmap_insert. split_and!; [done..|].
  rewrite <- insert_delete_eq. apply owned_insert; [apply lookup_delete_eq|done].
Qed.

Lemma fits_new h0 ss h t i st cs h' : fits h0 (ss, h) t -> t !! i = None -> (exists cap, holds h' st cs cap) -> rest st h' = h ->
  fits h0 (<[i := st]> ss, h') (<[i := cs]> t).
Proof using.
  intros (m & E1 & E2 & Ho) Hi Hh Hr. cbn in E1, Ho. subst ss t. apply fits_put; [done|]. rewrite Hr, delete_id; [done|].
  rewrite lookup_fmap in Hi. by destruct (m !! i).
Qed.

(** Two different strings: the second holds without the block of the first. *)
Lemma fits_two h0 ss h t i j cs cs2 : i <> j -> fits h0 (ss, h) t -> t !! i = Some cs -> t !! j = Some cs2 -> exists m st st2 cap cap2,
  ss = fst <$> m /\ t = snd <$> m /\ ss !! i = Some st /\ ss !! j = Some st2 /\ holds h st cs cap /\ holds (rest st h) st2 cs2 cap2 /\
  owned (delete i m) (rest st h) h0 /\ owned (delete j (delete i m)) (rest st2 (rest st h)) h0.
Proof using.
  intros Hij Hf Hi Hj. destruct (fits_at _ _ _ _ _ _ Hf Hi) as (m & st & E1 & E2 & Hm & Hs & [cap Hh] & Ho). subst ss t.
  rewrite lookup_fmap in Hj. destruct (m !! j) as [[st2 c2]|] eqn:Em; [|done]. injection Hj as ->.
  destruct (proj1 (owned_delete (delete i m) j (st2, cs2) (rest st h) h0 ltac:(by rewrite lookup_delete_ne)) Ho) as [[cap2 Hh2] Ho2].
  exists m, st, st2, cap, cap2. split_and!; try done. by rewrite lookup_fmap, Em.
Qed.

Lemma fits_put2 h0 m i j a b ca cb h : i <> j -> (exists cap, holds h b cb cap) -> (exists cap, holds (rest b h) a ca cap) ->
  owned (delete j (delete i m)) (rest a (rest b h)) h0 ->
  fits h0 (<[i := a]> (<[j := b]> (fst <$> m)), h) (<[i := ca]> (<[j := cb]> (snd <$> m))).
Proof using.
  intros Hij Hb Ha Ho. exists (<[i := (a, ca)]> (<[j := (b, cb)]> m)). cbn. rewrite !fmap_insert. split_and!; [done..|].
  rewrite insert_insert_ne, <- insert_delete_eq by done. apply owned_insert; [apply lookup_delete_eq|]. split; [done|].
  rewrite delete_insert_ne, <- insert_delete_eq by done. apply owned_insert; [apply lookup_delete_eq|]. split; [done|]. by rewrite delete_delete.
Qed.

(** ** Every call keeps them together *)

(** What a call may do: succeed as it says, or throw and change nothing. *)
Definition call_outcome (h0 : Heap) (w : World) (o : option (gmap nat (list Z))) (x : Res unit * World) : Prop :=
  match x with
  | (Ret _, w') => exists t', o = Some t' /\ fits h0 w' t'
  | (Fail e, w') => w' = w /\ thrown e
  | (Panic _, _) => False
  end.

Lemma construct_ok h0 ss h t i cs ctor : fits h0 (ss, h) t -> t !! i = None -> built h cs (ctor h) ->
  call_outcome h0 (ss, h) (Some (<[i := cs]> t)) (put_result (ss, h) ((st ← (ctor : Exec Heap Storage); mret (<[i := st]> ss)) h)).
Proof using.
  intros Hf Hi Hb. unfold mbind, exec_mbind, exec_bind. destruct (ctor h) as [[st|e|w] h']; cbn in *; [|by destruct Hb as [-> ?]|done].
  destruct Hb as [Hh Hr]. eexists. split; [done|]. by eapply fits_new.
Qed.

Lemma string_at_run w i st h : w.1 !! i = Some st -> string_at w i h = (Ret st, h).
Proof using. intros H. unfold string_at. by rewrite H. Qed.

Lemma member_ok h0 ss h t i cs o m : fits h0 (ss, h) t -> t !! i = Some cs ->
  (forall st, ss !! i = Some st -> outcome_opt h st o (m (st, h))) ->
  call_outcome h0 (ss, h) (cs' ← o; Some (<[i := cs']> t)) (member (ss, h) i m).
Proof using.
  intros Hf Hi Hm. destruct (fits_at _ _ _ _ _ _ Hf Hi) as (mm & st & E1 & E2 & _ & Hs & _ & Ho). specialize (Hm st Hs). unfold member. cbn. rewrite Hs.
  destruct (m (st, h)) as [[u|e|w] [st' h']].
  - destruct o as [cs'|]; [|by destruct Hm as (e & ? & _)]. destruct Hm as [Hh Hr]. eexists. split; [done|]. rewrite E1, E2. apply fits_put; [done|by rewrite Hr].
  - assert (st' = st /\ h' = h /\ thrown e) as (-> & -> & He).
    { destruct o; [done|]. destruct Hm as (e' & [= -> -> ->] & ?). split_and!; [done..|by left]. }
    split; [|done]. by rewrite insert_id.
  - destruct o; [done|]. by destruct Hm as (e & ? & _).
Qed.

Lemma swap_exact h st cs cap other cs2 cap2 : holds h st cs cap -> holds h other cs2 cap2 -> swap st other h = (Ret (other, st), h).
Proof using. intros H1 H2. unfold swap. run (check_run _ _ _ _ H2). by run (check_run _ _ _ _ H1). Qed.

Lemma run_call_ok h0 w t c : fits h0 w t -> call_ok t c -> call_outcome h0 w (spec_call t c) (run_call c w).
Proof using.
  destruct w as [ss h]. intros Hf Hc. destruct c as [i|i l|i n ch|i j|i j|i|i op|i j|i j|i j]; cbn [call_ok spec_call run_call fst snd] in *.
  - apply construct_ok; [done..|apply make_empty_ok].
  - apply construct_ok; [done..|apply make_from_ok].
  - destruct Hc as [Hi Hn]. apply construct_ok; [done..|by apply make_fill_ok].
  - destruct Hc as [Hi [cs Hj]]. destruct (fits_at _ _ _ _ _ _ Hf Hj) as (m & other & _ & _ & _ & Hs & [cap Hh] & _).
    rewrite Hj. run (string_at_run (ss, h) j other h Hs). cbn [mbind option_bind]. apply construct_ok; [done..|by eapply make_copy_ok].
  - destruct Hc as [Hi [cs Hj]]. destruct (fits_at _ _ _ _ _ _ Hf Hj) as (m & other & -> & -> & Hm & Hs & [cap Hh] & Ho).
    rewrite Hj. run (string_at_run (fst <$> m, h) j other h Hs). destruct (take_over _ _ _ _ Hh) as (st & src & E & Hh' & Hr & c & Hsrc & Hrs). run E.
    cbn. eexists. split; [done|]. assert (i <> j) as Hij by congruence. apply fits_put2; [done|by exists c|rewrite Hrs; by exists cap|]. rewrite Hrs, Hr.
    rewrite lookup_fmap in Hi. rewrite (delete_id m i); [done|]. by destruct (m !! i).
  - destruct Hc as [cs Hi]. destruct (fits_at _ _ _ _ _ _ Hf Hi) as (m & st & -> & -> & Hm & Hs & [cap Hh] & Ho).
    run (string_at_run (fst <$> m, h) i st h Hs). run (destructor_run _ _ _ _ Hh). cbn. eexists. split; [done|].
    exists (delete i m). cbn. by rewrite !fmap_delete.
  - destruct Hc as (cs & Hi & Hop). rewrite Hi. cbn [mbind option_bind]. apply member_ok with cs; [done..|]. intros st Hs.
    destruct (fits_at _ _ _ _ _ _ Hf Hi) as (m & st' & _ & _ & _ & Hs' & [cap Hh] & _). simplify_eq. by eapply run_op_ok.
  - destruct Hc as [[cs Hi] [cs2 Hj]]. rewrite Hj. case_bool_decide as E; [subst j; simplify_eq; eexists; split; [done|by rewrite insert_id]|].
    destruct (fits_two _ _ _ _ _ _ _ _ E Hf Hi Hj) as (m & st & st2 & cap & cap2 & _ & _ & Hs & Hs2 & Hh & Hh2 & _). rewrite Hs2.
    apply (member_ok h0 ss h t i cs (Some cs2)); [done..|]. intros st' Hs'. simplify_eq. by eapply copy_assign_exact.
  - destruct Hc as [[cs Hi] [cs2 Hj]]. rewrite Hj. case_bool_decide as E; [eexists; by split|].
    destruct (fits_two _ _ _ _ _ _ _ _ E Hf Hi Hj) as (m & st & st2 & cap & cap2 & -> & -> & Hs & Hs2 & Hh & Hh2 & _ & Ho). rewrite Hs, Hs2.
    destruct (move_assign_exact h st cs cap st2 cs2 cap2 Hh Hh2) as (st' & other' & c & -> & Hh' & Hr & Ho' & Hro). cbn.
    eexists. split; [done|]. apply fits_put2; [done|by exists c|rewrite Hro; by exists cap2|]. by rewrite Hro, Hr.
  - destruct Hc as [[cs Hi] [cs2 Hj]]. rewrite Hi, Hj. destruct (decide (i = j)) as [<-|E].
    + simplify_eq. destruct (fits_at _ _ _ _ _ _ Hf Hi) as (m & st & _ & _ & _ & Hs & [cap Hh] & _). do 2 run (string_at_run (ss, h) i st h Hs).
      run (swap_exact _ _ _ _ _ _ _ Hh Hh). cbn. eexists. split; [done|]. by rewrite !insert_insert_eq, (insert_id ss i st Hs), (insert_id t i _ Hi).
    + destruct (fits_two _ _ _ _ _ _ _ _ E Hf Hi Hj) as (m & st & st2 & cap & cap2 & -> & -> & Hs & Hs2 & Hh & Hh2 & _ & Ho).
      run (string_at_run (fst <$> m, h) i st h Hs). run (string_at_run (fst <$> m, h) j st2 h Hs2).
      run (swap_exact _ _ _ _ _ _ _ Hh (holds_mono _ _ _ _ _ (rest_sub st h) Hh2)). cbn. eexists. split; [done|].
      apply fits_put2; [done|by exists cap|by exists cap2|done].
Qed.

Lemma all_hold_sub h l h0 : all_hold h l h0 -> h0 ⊆ h.
Proof using. revert h. induction l as [|x l IH]; intros h; cbn; [by intros ->|]. intros [_ H]. etransitivity; [by apply IH|apply rest_sub]. Qed.

(** No block is leaked: one that was not there at the start belongs to a live string. *)
Lemma all_hold_blocks h l h0 p b : all_hold h l h0 -> h !! p = Some b -> h0 !! p = Some b \/ exists x, x ∈ l /\ l_data x.1 = PHeap p.
Proof using.
  revert h. induction l as [|x l IH]; intros h; cbn; [intros ->; by left|]. intros [_ H] Hp.
  assert (l_data x.1 = PHeap p \/ rest x.1 h !! p = Some b) as [E|E].
  { unfold rest. destruct (l_data x.1) as [|q]; [by right|]. destruct (decide (q = p)) as [->|]; [by left|right; by rewrite lookup_delete_ne]. }
  - right. exists x. split; [left|done].
  - destruct (IH _ H E) as [?|(y & Hy & ?)]; [by left|right]. exists y. split; [by right|done].
Qed.

Lemma history_fits h0 w t : history h0 w t -> fits h0 w t.
Proof using.
  induction 1 as [|c w t u w' t' _ IH Hc E Es|c w t e w' _ IH Hc E].
  - exists ∅. by rewrite !fmap_empty.
  - pose proof (run_call_ok h0 w t c IH Hc) as H. rewrite E, Es in H. by destruct H as (t'' & [= <-] & ?).
  - pose proof (run_call_ok h0 w t c IH Hc) as H. rewrite E in H. by destruct H as [-> _].
Qed.

(** Two live strings never have the same block. *)
Lemma fits_apart h0 w t i j st st2 p : fits h0 w t -> i <> j -> w.1 !! i = Some st -> w.1 !! j = Some st2 -> l_data st = PHeap p -> l_data st2 <> PHeap p.
Proof using.
  destruct w as [ss h]. cbn. intros Hf Hij Hi Hj Hp Hq. pose proof Hf as (m & E1 & E2 & _). cbn in E1.
  rewrite E1, lookup_fmap in Hi, Hj. destruct (m !! i) as [[? cs]|] eqn:Ei; [|done]. destruct (m !! j) as [[? cs2]|] eqn:Ej; [|done]. simplify_eq/=.
  destruct (fits_two h0 (fst <$> m) h (snd <$> m) i j cs cs2 Hij Hf) as (m' & a & b & ca & cb & _ & _ & Ha & Hb & _ & Hh & _); [by rewrite lookup_fmap, ?Ei, ?Ej..|].
  rewrite lookup_fmap, Ei in Ha. rewrite lookup_fmap, Ej in Hb. injection Ha as <-. injection Hb as <-. destruct Hh as (bs & Ho & _). unfold rest in Ho. rewrite Hp in Ho.
  inversion Ho as [s sz Hs|s q sz c b He Hl _]; subst.
  - destruct (small_view _ _ Hs) as (_ & _ & _ & E & _). congruence.
  - destruct (ext_view _ _ _ _ He) as (_ & _ & _ & E & _). assert (q = p) as -> by congruence. by rewrite lookup_delete_eq in Hl.
Qed.

(** ** Theorem *)

(** C31: Strings never leak, share or lose memory. Start with any heap and no string, and let
    a client construct (empty, from characters, filled, by copy or by move), edit, assign
    (by copy or by move), swap and destroy strings in any order, with arguments a caller may
    pass ([call_ok]: in an edit, a source inside the string ends before its terminator),
    going on after exceptions. At every point each live string holds exactly the characters
    the successful calls give it, terminated; no two strings have the same block; the blocks
    of the starting heap are untouched; every other block belongs to a live string, so once
    all strings are destroyed the heap is as it was; and every further call does what it
    says, or throws and changes nothing. *)
Theorem string_lifetime h0 w t : history h0 w t ->
  dom w.1 = dom t /\
  (forall i cs, t !! i = Some cs -> exists st cap, w.1 !! i = Some st /\ holds w.2 st cs cap) /\
  (forall i j st st2 p, i <> j -> w.1 !! i = Some st -> w.1 !! j = Some st2 -> l_data st = PHeap p -> l_data st2 <> PHeap p) /\
  h0 ⊆ w.2 /\
  (forall p b, w.2 !! p = Some b -> h0 !! p = Some b \/ exists i st, w.1 !! i = Some st /\ l_data st = PHeap p) /\
  (w.1 = ∅ -> w.2 = h0) /\
  forall c, call_ok t c -> match run_call c w with
    | (Ret _, w') => exists t', spec_call t c = Some t' /\ history h0 w' t'
    | (Fail e, w') => w' = w /\ thrown e
    | (Panic _, _) => False
    end.
Proof using.
  intros H. pose proof (history_fits _ _ _ H) as Hf. destruct w as [ss h]. pose proof Hf as (m & E1 & E2 & Ho). cbn [fst snd] in *. split_and!.
  - by rewrite E1, E2, !dom_fmap_L.
  - intros i cs Hi. destruct (fits_at _ _ _ _ _ _ Hf Hi) as (_ & st & _ & _ & _ & Hs & [cap Hh] & _). by exists st, cap.
  - intros i j st st2 p. exact (fits_apart _ _ _ i j st st2 p Hf).
  - by eapply all_hold_sub.
  - intros p b Hp. destruct (all_hold_blocks _ _ _ _ _ Ho Hp) as [?|(x & Hx & Hd)]; [by left|right].
    apply list_elem_of_fmap in Hx as ([i y] & -> & Hx). apply elem_of_map_to_list in Hx. exists i, y.1. by rewrite E1, lookup_fmap, Hx.
  - intros Hss. rewrite Hss in E1. symmetry in E1. apply fmap_empty_inv in E1 as ->. unfold owned in Ho. by rewrite map_to_list_empty in Ho.
  - intros c Hc. pose proof (run_call_ok h0 (ss, h) t c Hf Hc) as HO. destruct (run_call c (ss, h)) as [[u|e|x] w'] eqn:E; [|done..].
    destruct HO as (t' & Et & _). exists t'. split; [done|]. by eapply history_call.
Qed.
End Life.

(** ** Examples *)

Module Strings.
Import AmString.Examples.

(** Two strings in blocks; the first is moved onto the second, whose block is released,
    they are swapped, and both are destroyed. *)
Definition calls : list Call :=
  [ConstructFill 0 40 97; ConstructCopy 1 0; Edit 1 (OAppend (Self 0) 3); AssignMove 1 0; Edit 0 (OPushBack 98); Swap 0 1].
Definition run_calls (l : list Call) (w : World) : World := foldl (fun w c => (run_call c w).2) w l.
Definition six : World := Eval vm_compute in run_calls calls (∅, ∅).
Definition six_texts : gmap nat (list Z) := {[0%nat := replicate 40 97; 1%nat := [98]]}.

Definition after (t : gmap nat (list Z)) (c : Call) : gmap nat (list Z) := default t (spec_call t c).
Fixpoint all_succeed (w : World) (t : gmap nat (list Z)) (l : list Call) : Prop :=
  match l with
  | [] => True
  | c :: l' => call_ok t c /\ (run_call c w).1 = Ret tt /\ is_Some (spec_call t c) /\ all_succeed (run_call c w).2 (after t c) l'
  end.

Lemma history_runs h0 l : forall w t, history h0 w t -> all_succeed w t l -> history h0 (run_calls l w) (foldl after t l).
Proof.
  induction l as [|c l IH]; intros w t H Hl; [done|]. destruct Hl as (Hc & Hr & [t' Es] & Hs). cbn.
  destruct (run_call c w) as [r w'] eqn:E. cbn in Hr, Hs |- *. subst r. apply IH; [|done]. unfold after. rewrite Es. by eapply history_call.
Qed.

Lemma six_history : history ∅ six six_texts.
Proof.
  assert (six = run_calls calls (∅, ∅)) as -> by (vm_compute; reflexivity).
  assert (six_texts = foldl after ∅ calls) as -> by (vm_compute; reflexivity).
  apply history_runs; [constructor|]. unfold calls. cbn [all_succeed]. split_and!; try exact I; try (vm_compute; reflexivity); try (vm_compute; by eexists).
  all: split; vm_compute; solve [reflexivity | by eexists].
Qed.

Lemma string_lifetime_witness : (exists st cap, six.1 !! 0%nat = Some st /\ holds six.2 st (replicate 40 97) cap) /\
  match run_call (Destroy 0) six with (Ret _, w') => exists t', spec_call six_texts (Destroy 0) = Some t' /\ history ∅ w' t' | _ => False end.
Proof.
  destruct (string_lifetime ∅ six six_texts six_history) as (_ & H1 & _ & _ & _ & _ & H2). split; [by apply H1|].
  specialize (H2 (Destroy 0) ltac:(by eexists)). by destruct (run_call (Destroy 0) six) as [[u|e|x] w'] eqn:E; [|vm_compute in E; discriminate..].
Defined.

(** Destroying both leaves the empty heap. *)
Example both_destroyed : run_calls [Destroy 0; Destroy 1] six = (∅, ∅).
Proof. vm_compute. reflexivity. Qed.
End Strings.
