(* ===== verification/GraphOpBuilder.v ===== *)
(** * GraphOpBuilder: helpers that add one operator to a graph

    [src/graph/graph_op_builder.cpp]. Each helper checks what it can see, registers the
    weight it needs and calls [AddNode]; it is a computation over the graph it changes.
    The theorems say when a helper succeeds, what it appends, and what is left of a
    failed one. *)
From S2P Require Import Prelude OverflowCheck ShapeSymbol ShapeConstraint DataTypes OperatorSchema Graph Topology GraphInvariant.

(** ** Helpers *)

Abbreviation G := (Exec ModelGraph).

Section Builder.
Context {OS : OperatorSemantics}.

Definition get_value (id : nat) : G GraphValue := fun g => (GetValue g id, g).

(* @src src/graph/graph_op_builder.cpp:11-18 OnlyOneOutput *)
Definition OnlyOneOutput (a : AddedNode) : Res nat :=
  match added_outputs a with
  | [v] => Ret v
  | l => Fail (InvalidArgument ("Expected graph op builder helper to create exactly one output, got " +:+ num (length l)))
  end.
(* @src src/graph/graph_op_builder.cpp:20-22 ActivationOutput *)
Definition ActivationOutput : NodeOutputDesc := mkOutputDesc ActivationValue default_quant "".

Definition add_node (o : OpType.t) (layer : option nat) (ins : list nat) (outs : list NodeOutputDesc) (p : OpParams)
    (name : string) : G AddedNode := fun g => AddNode g o layer ins outs p [] name.
Definition add_weight (s : TensorSpec) (b : WeightBinding) (name : string) : G nat := fun g => AddWeight g s b name.

(* @src src/graph/graph_op_builder.cpp:26-28 AddInput *)
Definition op_AddInput (s : TensorSpec) (name : string) : G nat := fun g => AddInput g s name.
(* @src src/graph/graph_op_builder.cpp:30-35 AddState *)
Definition op_AddState (s : TensorSpec) (b : StateBinding) (name : string) : G nat := fun g => AddState g s b name.

(** One output and no other: the way most helpers end. *)
Definition single (m : G AddedNode) : G nat := node ← m; lift (OnlyOneOutput node).

(* @src src/graph/graph_op_builder.cpp:37-85 AddLinear *)
Definition AddLinear (input : nat) (out_features : Z) (weight_dtype : DataType.t) (binding : WeightBinding) (name : string) : G nat :=
  _ ← lift (reject_if (out_features <=? 0) (bad "Linear out_features must be positive"));
  v ← get_value input;
  match shape (spec v) with
  | None => lift (Fail (bad "Linear input shape must be ranked"))
  | Some dims =>
      match last dims with
      | None => lift (Fail (bad "Linear input rank must be at least 1"))
      | Some in_features =>
          _ ← lift (reject_if (negb (IsPositiveIfStatic in_features)) (bad "Linear input last dimension must be positive if static"));
          out ← lift (CreateFromValue out_features);
          weight ← add_weight (mkSpec weight_dtype (Some [out; in_features])) binding name;
          single (add_node OpType.kLinear (wb_layer binding) [input; weight] [ActivationOutput] LinearParams name)
      end
  end.

(* @src src/graph/graph_op_builder.cpp:87-128 AddRmsNorm *)
Definition AddRmsNorm (input : nat) (weight_dtype : DataType.t) (binding : WeightBinding) (eps : Z) (name : string) : G nat :=
  v ← get_value input;
  match shape (spec v) with
  | None => lift (Fail (bad "RmsNorm input shape must be ranked"))
  | Some dims =>
      match last dims with
      | None => lift (Fail (bad "RmsNorm input rank must be at least 1"))
      | Some in_features =>
          _ ← lift (reject_if (negb (IsPositiveIfStatic in_features)) (bad "RmsNorm input last dimension must be positive if static"));
          weight ← add_weight (mkSpec weight_dtype (Some [in_features])) binding name;
          single (add_node OpType.kRmsNorm (wb_layer binding) [input; weight] [ActivationOutput] (RmsNormParams eps) name)
      end
  end.

(* @src src/graph/graph_op_builder.cpp:130-167 AddEmbedding *)
Definition AddEmbedding (token_ids : nat) (vocab_size embedding_dim : Z) (weight_dtype : DataType.t) (binding : WeightBinding)
    (name : string) : G nat :=
  _ ← lift (reject_if (vocab_size <=? 0) (bad "Embedding vocab_size must be positive"));
  _ ← lift (reject_if (embedding_dim <=? 0) (bad "Embedding embedding_dim must be positive"));
  v ← get_value token_ids;
  _ ← lift (reject_if (negb (IsRanked (shape (spec v)))) (bad "Embedding token_ids shape must be ranked"));
  vocab ← lift (CreateFromValue vocab_size);
  dim ← lift (CreateFromValue embedding_dim);
  weight ← add_weight (mkSpec weight_dtype (Some [vocab; dim])) binding name;
  single (add_node OpType.kEmbedding None [token_ids; weight] [ActivationOutput] EmbeddingParams name).

(** Two outputs and no others. *)
Definition pair_of (what : string) (m : G AddedNode) : G (nat * nat) :=
  node ← m;
  match added_outputs node with
  | [a; b] => mret (a, b)
  | l => lift (Fail (bad ("Expected " +:+ what +:+ " helper to create exactly two outputs, got " +:+ num (length l))))
  end.

(** The rotated [q] and [k]. *)
(* @src src/graph/graph_op_builder.cpp:169-191 AddRoPE *)
Definition AddRoPE (layer : option nat) (q k position_ids : nat) (params : RoPEParams) (name : string) : G (nat * nat) :=
  pair_of "RoPE" (add_node OpType.kRoPE layer [q; k; position_ids] [ActivationOutput; ActivationOutput] (RoPEParams_ params) name).

(** [std::get_if<StateValue>]. *)
Definition state_of (id : nat) (msg : string) : G StateBinding :=
  v ← get_value id;
  match payload v with StateValue b => mret b | _ => lift (Fail (bad msg)) end.

(** The updated [k] and [v] caches. *)
(* @src src/graph/graph_op_builder.cpp:193-230 AddKVCacheUpdate *)
Definition AddKVCacheUpdate (layer : option nat) (k_new v_new k_cache v_cache : nat) (name : string) : G (nat * nat) :=
  k_binding ← state_of k_cache "K cache input must be a StateValue";
  v_binding ← state_of v_cache "V cache input must be a StateValue";
  pair_of "KV cache update" (add_node OpType.kKVCacheUpdate layer [k_new; v_new; k_cache; v_cache]
    [mkOutputDesc (StateValue k_binding) default_quant ""; mkOutputDesc (StateValue v_binding) default_quant ""]
    KVCacheUpdateParams name).

(* @src src/graph/graph_op_builder.cpp:232-248 AddAttention *)
Definition AddAttention (layer : option nat) (q k v : nat) (params : AttentionParams) (name : string) : G nat :=
  single (add_node OpType.kAttention layer [q; k; v] [ActivationOutput] (AttentionParams_ params) name).

(* @src src/graph/graph_op_builder.cpp:250-270 AddElementwiseAdd *)
Definition AddElementwiseAdd (layer : option nat) (lhs rhs : nat) (name : string) : G nat :=
  l ← get_value lhs;
  r ← get_value rhs;
  same ← lift (DataType.equal (dtype (spec l)) (dtype (spec r)));
  _ ← lift (reject_if (negb same) (bad "Add requires matching dtypes for lhs and rhs operands"));
  single (add_node OpType.kAdd layer [lhs; rhs] [ActivationOutput] AddParams name).

(* @src src/graph/graph_op_builder.cpp:272-291 AddSiluMul *)
Definition AddSiluMul (layer : option nat) (gate up : nat) (name : string) : G nat :=
  l ← get_value gate;
  r ← get_value up;
  same ← lift (spec_equal (spec l) (spec r));
  _ ← lift (reject_if (negb same) (bad "SiluMul gate and up specs must match"));
  single (add_node OpType.kSiluMul layer [gate; up] [ActivationOutput] SiluMulParams name).

(* @src src/graph/graph_op_builder.cpp:293-306 AddSilu *)
Definition AddSilu (layer : option nat) (input : nat) (name : string) : G nat :=
  single (add_node OpType.kSilu layer [input] [ActivationOutput] SiluParams name).

(* @src src/graph/graph_op_builder.cpp:308-327 AddElementwiseMul *)
Definition AddElementwiseMul (layer : option nat) (lhs rhs : nat) (name : string) : G nat :=
  l ← get_value lhs;
  r ← get_value rhs;
  same ← lift (spec_equal (spec l) (spec r));
  _ ← lift (reject_if (negb same) (bad "ElementwiseMul lhs and rhs specs must match"));
  single (add_node OpType.kElementwiseMul layer [lhs; rhs] [ActivationOutput] ElementwiseMulParams name).

(* @src src/graph/graph_op_builder.cpp:329-347 AddArgmax *)
Definition AddArgmax (layer : option nat) (input : nat) (axis : Z) (name : string) : G nat :=
  single (add_node OpType.kArgmax layer [input] [mkOutputDesc ActivationValue default_quant name] (ArgmaxParams axis) name).

(** The bounds check these three make before they read the quantization of the input. *)
Definition quantization_of (id : nat) (msg : string) : G QuantizationSpec := fun g =>
  match values_ g !! id with Some v => (Ret (quantization v), g) | None => (Fail (bad msg), g) end.

(* @src src/graph/graph_op_builder.cpp:349-382 AddReshape *)
Definition AddReshape (layer : option nat) (input : nat) (target_shape : list ReshapeDim) (name : string) : G nat :=
  q ← quantization_of input "AddReshape: input GraphValueId is out of range";
  single (add_node OpType.kReshape layer [input] [mkOutputDesc ActivationValue q name] (ReshapeParams target_shape) name).
(* @src src/graph/graph_op_builder.cpp:384-417 AddPermute *)
Definition AddPermute (layer : option nat) (input : nat) (permutation : list nat) (name : string) : G nat :=
  q ← quantization_of input "AddPermute: input GraphValueId is out of range";
  single (add_node OpType.kPermute layer [input] [mkOutputDesc ActivationValue q name] (PermuteParams permutation) name).
(* @src src/graph/graph_op_builder.cpp:419-443 AddReorder *)
Definition AddReorder (layer : option nat) (input : nat) (name : string) : G nat :=
  q ← quantization_of input "AddReorder: input GraphValueId is out of range";
  single (add_node OpType.kReorder layer [input] [mkOutputDesc ActivationValue q name] ReorderParams name).
End Builder.

(** ** When a node is accepted *)

(** What checks and inference see of a value. *)
Abbreviation info := (GraphValuePayload * TensorSpec)%type.
Definition view (v : GraphValue) : info := (payload v, spec v).
Definition has (g : ModelGraph) (id : nat) (i : info) : Prop := view <$> values_ g !! id = Some i.

Definition as_values (infos : list info) : list GraphValue := (fun i => mkValue i.1 i.2 None default_quant "") <$> infos.

(** The checks of [AddNode] that do not look at shapes, on the views of the inputs alone. *)
Definition accepts (o : OpType.t) (layer : option nat) (infos : list info) (outs : list NodeOutputDesc) : Res OperatorSchema :=
  schema ← GetOperatorSchema o;
  _ ← ValidateAddNodePorts schema (as_values infos) (seq 0 (length infos)) outs;
  _ ← ValidateAddNodeBindings o layer schema (as_values infos) (seq 0 (length infos)) outs;
  Ret schema.

Lemma has_lookup g id i : has g id i <-> exists v, values_ g !! id = Some v /\ payload v = i.1 /\ spec v = i.2.
Proof.
  unfold has, view. destruct (values_ g !! id) as [v|]; cbn; [|naive_solver].
  split; [intros [= <-]; by exists v|intros (v' & [= <-] & H1 & H2); destruct i; cbn in *; by subst].
Qed.

Lemma res_iter_rel {A B} (f : A -> Res unit) (f' : B -> Res unit) l l' : Forall2 (fun x y => f x = f' y) l l' -> res_iter f l = res_iter f' l'.
Proof. induction 1 as [|x y l l' H _ IH]; cbn; [done|]. by rewrite H, IH. Qed.

(** Loops over the ports with two lists of ids. *)
Lemma for_each_ports {A P} (f : nat -> P * A -> Res unit) (f' : nat -> P * nat -> Res unit) (ports : list P) ins :
  (forall k port id, ports !! k = Some port -> ins !! k = Some id -> f k (port, id) = f' k (port, k)) ->
  for_each f (zip ports ins) = for_each f' (zip ports (seq 0 (length ins))).
Proof.
  intros H. unfold for_each. apply res_iter_rel. assert (length (zip ports ins) = length (zip ports (seq 0 (length ins)))) as Hl
    by (by rewrite !length_zip_with, length_seq).
  rewrite <- Hl. apply Forall2_same_length_lookup_2; [by rewrite !length_zip_with, !length_seq|].
  intros k [i [port id]] [i' [port' id']] H1 H2. apply lookup_zip_Some in H1 as [Hi H1]. apply lookup_zip_Some in H2 as [Hi' H2].
  apply lookup_zip_Some in H1 as [Hp Hid]. apply lookup_zip_Some in H2 as [Hp' Hid'].
  apply lookup_seq in Hi as [-> _]. apply lookup_seq in Hi' as [-> _]. apply lookup_seq in Hid' as [-> _]. cbn. simplify_eq. by apply H.
Qed.

Section Accept.
Context (g : ModelGraph) (ins : list nat) (infos : list info) (Hins : Forall2 (has g) ins infos).

Lemma lookup_views k id : ins !! k = Some id ->
  exists v w, values_ g !! id = Some v /\ as_values infos !! k = Some w /\ payload v = payload w /\ spec v = spec w.
Proof using Hins.
  intros Hk. destruct (Forall2_lookup_l _ _ _ _ _ Hins Hk) as (i & Hi & Hh). apply has_lookup in Hh as (v & Hv & Hp & Hs).
  exists v, (mkValue i.1 i.2 None default_quant ""). unfold as_values. rewrite list_lookup_fmap, Hi. done.
Qed.

Lemma ports_by_view schema outs : ValidateAddNodePorts schema (values_ g) ins outs =
  ValidateAddNodePorts schema (as_values infos) (seq 0 (length infos)) outs.
Proof using Hins.
  unfold ValidateAddNodePorts. pose proof (Forall2_length _ _ _ Hins) as Hl. rewrite <- Hl, length_seq.
  rewrite (for_each_ports _ (check_input_port (as_values infos))); [done|]. intros k port id _ Hid.
  destruct (lookup_views k id Hid) as (v & w & Hv & Hw & Hp & _). unfold check_input_port. by rewrite Hv, Hw, Hp.
Qed.

Lemma state_by_view k : state_input (values_ g) ins k = state_input (as_values infos) (seq 0 (length infos)) k.
Proof using Hins.
  pose proof (Forall2_length _ _ _ Hins) as Hl. unfold state_input, vec_at. destruct (ins !! k) as [id|] eqn:E.
  - destruct (lookup_views k id E) as (v & w & Hv & Hw & Hp & _). apply lookup_lt_Some in E. rewrite (proj2 (lookup_seq 0 (length infos) k k)) by lia.
    cbn [mbind res_mbind res_bind]. rewrite Hv, Hw. cbn [mbind res_mbind res_bind]. unfold get_state. by rewrite Hp.
  - apply lookup_ge_None in E. by rewrite lookup_seq_ge by lia.
Qed.

Lemma bindings_by_view o layer schema outs : ValidateAddNodeBindings o layer schema (values_ g) ins outs =
  ValidateAddNodeBindings o layer schema (as_values infos) (seq 0 (length infos)) outs.
Proof using Hins.
  pose proof (Forall2_length _ _ _ Hins) as Hl. unfold ValidateAddNodeBindings.
  rewrite (for_each_ports _ (check_input_binding (ExpectedWeightSlotForOp o) (as_values infos))), <- Hl.
  - destruct (for_each _ _); [|done..]. cbn [mbind res_mbind res_bind]. rewrite Hl. unfold ValidateStateBindingsForNode. destruct o; try done;
      repeat match goal with
      | |- context [FindInputPortIndex schema ?n] => destruct (FindInputPortIndex schema n); [|done..]
      | |- context [FindOutputPortIndex schema ?n] => destruct (FindOutputPortIndex schema n); [|done..]
      end; cbn [mbind res_mbind res_bind]; by rewrite !state_by_view.
  - intros k port id _ Hid. destruct (lookup_views k id Hid) as (v & w & Hv & Hw & Hp & _). unfold check_input_binding, vec_at. rewrite Hv, Hw.
    cbn [mbind res_mbind res_bind]. unfold get_weight, get_state. by rewrite Hp.
Qed.
End Accept.

(** ** What a helper appends *)

Section Growth.
Context {OS : OperatorSemantics}.

(** Operator, layer, wiring and parameters of a node. *)
Definition summary (n : GraphNode) : OpType.t * option nat * list nat * list nat * OpParams :=
  (op_type n, node_layer n, node_inputs n, node_outputs n, op_params n).

(** A graph that passes validation whenever it is asked. *)
Definition good (g : ModelGraph) : Prop := graph_valid g /\ graph_wf g.

Record grows (g g' : ModelGraph) (infos : list info) (sums : list (OpType.t * option nat * list nat * list nat * OpParams)) : Prop := {
  gr_good : good g';
  gr_values : view <$> values_ g' = (view <$> values_ g) ++ infos;
  gr_nodes : summary <$> nodes_ g' = (summary <$> nodes_ g) ++ sums;
  gr_inputs : inputs_ g' = inputs_ g;
  gr_outputs : outputs_ g' = outputs_ g }.

Definition room (g : ModelGraph) (values nodes : Z) : Prop :=
  zlen (values_ g) + values <= UINT32_MAX /\ zlen (nodes_ g) + nodes <= UINT32_MAX.

Lemma grows_trans g g1 g2 i1 i2 n1 n2 : grows g g1 i1 n1 -> grows g1 g2 i2 n2 -> grows g g2 (i1 ++ i2) (n1 ++ n2).
Proof using. intros [? V1 N1 I1 O1] [? V2 N2 I2 O2]. split; [done|by rewrite V2, V1, app_assoc|by rewrite N2, N1, app_assoc|congruence|congruence]. Qed.

Lemma grows_length g g' infos sums : grows g g' infos sums ->
  length (values_ g') = (length (values_ g) + length infos)%nat /\ length (nodes_ g') = (length (nodes_ g) + length sums)%nat.
Proof using.
  intros [_ V N _ _]. apply (f_equal length) in V, N. rewrite length_app, !length_fmap in V. rewrite length_app, !length_fmap in N. done.
Qed.

Lemma grows_has g g' infos sums id i : grows g g' infos sums -> has g id i -> has g' id i.
Proof using.
  intros [_ V _ _ _] H. unfold has in *. rewrite <- list_lookup_fmap in H |- *. rewrite V. by apply lookup_app_l_Some.
Qed.

Lemma grows_new g g' infos sums k i : grows g g' infos sums -> infos !! k = Some i -> has g' (length (values_ g) + k) i.
Proof using.
  intros [_ V _ _ _] H. unfold has. rewrite <- list_lookup_fmap, V, lookup_app_r, length_fmap by (rewrite length_fmap; lia).
  by replace (length (values_ g) + k - length (values_ g))%nat with k by lia.
Qed.

Lemma add_value_grows g p s name : good g -> room g 1 0 -> value_ok (nodes_ g) (length (values_ g)) (mkValue p s None default_quant name) ->
  p <> ActivationValue ->
  exists g', add_value g p s name = (Ret (length (values_ g)), g') /\ grows g g' [(p, s)] [].
Proof using.
  intros [HV HW] [Hr _] Hx Hp. unfold add_value, NextValueIndex. rewrite (proj2 (Z.ltb_lt _ _)) by lia. cbn [am_check mbind res_mbind res_bind].
  eexists. split; [done|]. split; cbn; [|by rewrite fmap_app|by rewrite app_nil_r|done|done].
  split; [by apply append_value_valid|]. by apply append_value_wf.
Qed.

Lemma weight_grows g s b name : good g -> room g 1 0 -> ValidateWeightBindingSelfConsistency b = Ret tt ->
  exists g', add_weight s b name g = (Ret (length (values_ g)), g') /\ grows g g' [(WeightValue b, s)] [].
Proof using. intros Hg Hr Hb. by apply add_value_grows. Qed.

Lemma state_grows g s b name : good g -> room g 1 0 -> ValidateStateBindingSelfConsistency b = Ret tt ->
  exists g', op_AddState s b name g = (Ret (length (values_ g)), g') /\ grows g g' [(StateValue b, s)] [].
Proof using. intros Hg Hr Hb. apply add_value_grows; try done. unfold value_ok, ValidateValueSelfConsistency. cbn. by rewrite Hb. Qed.

Lemma res_mapi_all {A B} (f : nat -> A -> Res B) (h : nat -> A -> B) l : forall i,
  (forall k x, l !! k = Some x -> f (i + k)%nat x = Ret (h (i + k)%nat x)) -> res_mapi f i l = Ret (imap (fun k => h (i + k)%nat) l).
Proof using.
  induction l as [|x l IH]; intros i H; cbn [res_mapi]; [done|].
  pose proof (H 0%nat x eq_refl) as H0. rewrite Nat.add_0_r in H0. rewrite H0. cbn [mbind res_mbind res_bind].
  rewrite (IH (S i)); [|intros k y Hk; specialize (H (S k) y Hk); by rewrite Nat.add_succ_r in H].
  cbn [mbind res_mbind res_bind imap]. rewrite Nat.add_0_r. do 2 f_equal. apply imap_ext. intros k y _. cbn. f_equal. lia.
Qed.

Lemma stage_run node base outs inferred : length inferred = length outs -> Z.of_nat (base + length outs) <= UINT32_MAX ->
  StageAddNodeOutputs node base outs inferred = Ret (seq base (length outs), zip_with (stage_value node) outs inferred).
Proof using.
  intros Hl Hb. unfold StageAddNodeOutputs.
  rewrite (res_mapi_all _ (fun i _ => (base + i)%nat) outs 0).
  2:{ intros k x Hx. apply lookup_lt_Some in Hx. by rewrite (proj2 (Z.ltb_lt _ _)) by lia. }
  cbn [mbind res_mbind res_bind]. rewrite (res_mapi_all _ (fun i d => stage_value node d (default (mkSpec DataType.default_type None) (inferred !! i))) outs 0).
  2:{ intros k x Hx. apply lookup_lt_Some in Hx. unfold vec_at. destruct (lookup_lt_is_Some_2 inferred k) as [y Hy]; [lia|]. cbn. by rewrite Hy. }
  cbn [mbind res_mbind res_bind]. do 2 f_equal.
  - apply (list_eq_same_length _ _ (length outs)); [by rewrite length_seq|by rewrite length_imap|].
    intros k x y Hk Hx Hy. rewrite list_lookup_imap in Hx. apply lookup_seq in Hy as [-> _]. destruct (outs !! k); [|done]. by injection Hx as <-.
  - apply (list_eq_same_length _ _ (length outs)); [rewrite length_zip_with; lia|by rewrite length_imap|].
    intros k x y Hk Hx Hy. rewrite list_lookup_imap in Hx. apply lookup_zip_with_Some in Hy as (d & z & -> & Hd & Hz).
    rewrite Hd in Hx. cbn in Hx. rewrite Hz in Hx. by injection Hx as <-.
Qed.

Lemma specs_by_view g ins infos : Forall2 (has g) ins infos -> input_specs (values_ g) ins = Ret (infos.*2).
Proof using.
  intros H. unfold input_specs. rewrite (res_mapi_all _ (fun i _ => default (mkSpec DataType.default_type None) (infos.*2 !! i)) ins 0).
  - f_equal. pose proof (Forall2_length _ _ _ H) as Hl. apply (list_eq_same_length _ _ (length ins)); [by rewrite length_fmap|by rewrite length_imap|].
    intros k x y Hk Hx Hy. rewrite list_lookup_imap in Hx. destruct (ins !! k); [|done]. cbn in Hx. rewrite Hy in Hx. by injection Hx as <-.
  - intros k id Hid. destruct (Forall2_lookup_l _ _ _ _ _ H Hid) as (i & Hi & Hh). apply has_lookup in Hh as (v & Hv & _ & Hs).
    unfold vec_at. rewrite Hv. cbn [mbind res_mbind res_bind]. cbn. by rewrite list_lookup_fmap, Hi, Hs.
Qed.

Definition out_info (d : NodeOutputDesc) (s : TensorSpec) : info := (normalize_payload (desc_payload d), s).

Lemma view_staged node outs : forall specs, view <$> zip_with (stage_value node) outs specs = zip_with out_info outs specs.
Proof using. induction outs as [|d outs IH]; intros [|s specs]; cbn; [done..|]. by f_equal. Qed.

(** A node whose inputs look right is appended, and the graph stays good. *)
Lemma AddNode_grows_good g o layer ins outs p name infos schema r : good g -> room g (zlen outs) 1 -> outs <> [] ->
  Forall2 (has g) ins infos -> accepts o layer infos outs = Ret schema -> InferOp o p (infos.*2) = Ret r ->
  Forall (fun d => forall b, desc_payload d <> ConstantValue b) outs -> Forall (fun s => spec_equal s s = Ret true) (outputs r) ->
  exists g', AddNode g o layer ins outs p [] name = (Ret (mkAdded (length (nodes_ g)) (seq (length (values_ g)) (length outs))), g') /\
    grows g g' (zip_with out_info outs (outputs r)) [(o, layer, ins, seq (length (values_ g)) (length outs), p)].
Proof using.
  intros [HV HW] [Hr1 Hr2] Hne Hins Hacc Hinf Hnc Hcmp. assert (0 < length outs)%nat as Hpos by (destruct outs; cbn; [done|lia]).
  destruct (InferOp_arity _ _ _ _ Hinf) as (schema' & Hs & _ & Hout). unfold accepts in Hacc. rewrite Hs in Hacc. cbn [mbind res_mbind res_bind] in Hacc.
  destruct (ValidateAddNodePorts _ _ _ _) as [[]|e|w] eqn:EP; [|done..]. cbn [mbind res_mbind res_bind] in Hacc.
  destruct (ValidateAddNodeBindings _ _ _ _ _ _) as [[]|e|w] eqn:EB; [|done..]. injection Hacc as ->.
  assert (length (outputs r) = length outs) as Hlen.
  { pose proof EP as EP'. unfold ValidateAddNodePorts in EP'. res_inv. bsplit. congruence. }
  rewrite <- (ports_by_view g ins infos Hins) in EP. rewrite <- (bindings_by_view g ins infos Hins) in EB.
  assert (prepare_node g o layer ins outs p [] name =
    Ret (length (nodes_ g), seq (length (values_ g)) (length outs), zip_with (stage_value (length (nodes_ g))) outs (outputs r), runtime_checks r)) as HP.
  { unfold prepare_node, NextNodeIndex, NextValueIndex. rewrite !(proj2 (Z.ltb_lt _ _)) by (unfold zlen in *; lia). cbn [am_check mbind res_mbind res_bind].
    rewrite Hs. cbn [rewrap mbind res_mbind res_bind]. rewrite bool_decide_false by (intros H; by apply H). cbn [reject_if mbind res_mbind res_bind]. rewrite EP. cbn [rewrap mbind res_mbind res_bind]. rewrite EB.
    cbn [rewrap mbind res_mbind res_bind]. unfold InferAddNodeOutputs. rewrite (specs_by_view g ins infos Hins). cbn [mbind res_mbind res_bind].
    rewrite Hinf. cbn [rewrap mbind res_mbind res_bind]. rewrite (proj2 (Nat.eqb_eq _ _)) by congruence. cbn [negb reject_if rewrap mbind res_mbind res_bind].
    rewrite stage_run by (unfold zlen in *; lia). done. }
  assert (AddNode g o layer ins outs p [] name = (Ret (mkAdded (length (nodes_ g)) (seq (length (values_ g)) (length outs))), (AddNode g o layer ins outs p [] name).2)) as HA
    by (unfold AddNode; by rewrite HP).
  exists (AddNode g o layer ins outs p [] name).2. split; [done|]. split.
  - split; [|by apply AddNode_wf]. eapply AddNode_graph_valid; [done|exact HA|done|]. cbn [added_outputs]. intros v x Hv Hx.
    apply elem_of_seq in Hv. unfold AddNode in Hx. rewrite HP in Hx. cbn [snd values_] in Hx. rewrite lookup_app_r in Hx by lia.
    apply lookup_zip_with_Some in Hx as (d & s' & -> & _ & Hs'). by apply (Forall_lookup_1 _ _ _ _ Hcmp Hs').
  - unfold AddNode. rewrite HP. cbn [snd values_]. rewrite fmap_app. f_equal. apply view_staged.
  - unfold AddNode. rewrite HP. cbn [snd nodes_]. by rewrite fmap_app.
  - unfold AddNode. by rewrite HP.
  - unfold AddNode. by rewrite HP.
Qed.

(** One activation out. *)
Lemma single_grows g o layer ins p name infos schema s checks dn : good g -> room g 1 1 ->
  Forall2 (has g) ins infos -> accepts o layer infos [mkOutputDesc ActivationValue default_quant dn] = Ret schema ->
  InferOp o p (infos.*2) = Ret (mkInference [s] checks) -> spec_equal s s = Ret true ->
  exists g', single (add_node o layer ins [mkOutputDesc ActivationValue default_quant dn] p name) g = (Ret (length (values_ g)), g') /\
    grows g g' [(ActivationValue, s)] [(o, layer, ins, [length (values_ g)], p)].
Proof using.
  intros Hg Hr Hins Hacc Hinf Hs. destruct (AddNode_grows_good g o layer ins [mkOutputDesc ActivationValue default_quant dn] p name infos schema _ Hg Hr ltac:(done) Hins Hacc Hinf) as (g' & E & Hgr).
  - by constructor.
  - by constructor.
  - exists g'. split; [|exact Hgr]. unfold single, add_node, mbind, exec_mbind, exec_bind. by rewrite E.
Qed.
End Growth.
