(* ===== verification/HfModel.v ===== *)
(** * HfModel: configuration, weight set and resolved weights of a Hugging Face model

    [include/aethermind/model/formats/hf/hf_model_config.h],
    [src/model/formats/hf/hf_model_validator.cpp], [src/model/formats/hf/hf_weight_resolver.cpp].
    A weight table is the list of the entries of the [unordered_map] in the order a loop
    over it visits them; doubles are bit patterns. *)
From Stdlib Require Import Ascii.
From S2P Require Import Prelude OverflowCheck ShapeSymbol ShapeConstraint DataTypes OperatorSchema Graph Topology GraphInvariant FloatFormat OpParamsSerde KernelRegistry Tensor Prepack.

(** ** Configuration *)

(* @src include/aethermind/model/formats/hf/hf_model_config.h:17-26 HfRopeScalingType *)
Inductive HfRopeScalingType := hfNone | hfLinear | hfDynamicNtk | hfYarn | hfLlama3 | hfLongRope | hfSu | hfUnknown.
#[global] Instance HfRopeScalingType_eq_dec : EqDecision HfRopeScalingType.
Proof. solve_decision. Defined.

(* @src include/aethermind/model/formats/hf/hf_model_config.h:28-41 ParseRopeScalingType *)
Definition ParseRopeScalingType (s : string) : HfRopeScalingType :=
  if bool_decide (s = "") || bool_decide (s = "default") then hfNone
  else if bool_decide (s = "linear") then hfLinear
  else if bool_decide (s = "dynamic") || bool_decide (s = "dynamic_ntk") then hfDynamicNtk
  else if bool_decide (s = "yarn") then hfYarn
  else if bool_decide (s = "llama3") then hfLlama3
  else if bool_decide (s = "longrope") then hfLongRope
  else if bool_decide (s = "su") then hfSu
  else hfUnknown.

(* @src include/aethermind/model/formats/hf/hf_model_config.h:43-63 ToString(HfRopeScalingType) *)
Definition scaling_to_string (t : HfRopeScalingType) : string :=
  match t with
  | hfNone => "default" | hfLinear => "linear" | hfDynamicNtk => "dynamic" | hfYarn => "yarn"
  | hfLlama3 => "llama3" | hfLongRope => "longrope" | hfSu => "su" | hfUnknown => "unknown"
  end.

(* @src include/aethermind/model/formats/hf/hf_model_config.h:65-69 HfRopeConfig *)
Record HfRopeConfig := mkHfRope { hf_theta : Z; hf_scaling_factor : option Z; hf_scaling_type : HfRopeScalingType }.

(* @src include/aethermind/model/formats/hf/hf_model_config.h:71-94 HfModelConfig *)
Record HfModelConfig := mkConfig {
  model_type : string; architectures : list string;
  hidden_size : Z; intermediate_size : Z; num_hidden_layers : Z; cfg_attention_heads : Z; cfg_key_value_heads : Z;
  vocab_size : Z; cfg_max_position_embeddings : Z; cfg_head_dim : Z;
  rms_norm_eps : Z; hidden_act : string;
  tie_word_embeddings : bool; attention_bias : bool; mlp_bias : bool;
  weight_dtype_hint_name : string; weight_dtype_hint : DataType.t; rope : HfRopeConfig }.

(* @src include/aethermind/model/model_validation_options.h:7-16 ModelValidationOptions *)
Record ModelValidationOptions := mkValidation {
  strict_tensor_names : bool; allow_unknown_tensors : bool; allow_rope_scaling : bool; allow_bias : bool;
  allow_quantized_tensors : bool; allow_lora_or_adapter : bool; require_lm_head_when_tied : bool;
  require_uniform_linear_dtype : bool }.
(* @src include/aethermind/model/model_validation_options.h:7-16 ModelValidationOptions (defaults) *)
Definition default_validation : ModelValidationOptions := mkValidation false true false false false false false true.

(* @src include/aethermind/model/raw_weight.h:37-37 RawWeightTable *)
Abbreviation RawWeightTable := (list (string * RawWeightView)).
(** [weights.find(name)]. *)
Definition table_find (weights : RawWeightTable) (name : string) : option RawWeightView :=
  snd <$> head (filter (fun e => e.1 = name) weights).
(** [weights.at(name)], which throws on an absent key. *)
Definition table_at (weights : RawWeightTable) (name : string) : Res RawWeightView :=
  match table_find weights name with Some v => Ret v | None => Panic "unordered_map::at" end.

(** ** Checks of the configuration *)

(** [x <= 0.0]: false for every NaN. *)
Definition f64_nonpositive (x : Z) : bool :=
  match decode binary64 x with Finite neg m _ => neg || (m =? 0) | Infinite neg => neg | NaN _ => false end.

(* @src src/model/formats/hf/hf_model_validator.cpp:17-24 RequirePositive *)
Definition RequirePositive (value : Z) (field_name : string) : Res unit :=
  reject_if (value <=? 0) (bad ("Model config field '" +:+ field_name +:+ "' must be positive, got " +:+ pretty value)).
(* @src src/model/formats/hf/hf_model_validator.cpp:26-28 IsUnknownDType *)
Definition IsUnknownDType (d : DataType.t) : Res bool := DataType.equal d DataType.default_type.
(* @src src/model/formats/hf/hf_model_validator.cpp:30-32 IsSupportedDenseWeightDTypeHint *)
Definition IsSupportedDenseWeightDTypeHint (d : DataType.t) : Res bool :=
  unknown ← IsUnknownDType d;
  Ret (unknown || DataType.IsFloat32 d || DataType.IsFloat16 d || DataType.IsBFloat16 d).
(* @src src/model/formats/hf/hf_model_validator.cpp:34-38 HasUnsupportedNamedDTypeHint *)
Definition HasUnsupportedNamedDTypeHint (c : HfModelConfig) : Res bool :=
  if negb (bool_decide (weight_dtype_hint_name c = "")) && negb (bool_decide (weight_dtype_hint_name c = "auto"))
  then IsUnknownDType (weight_dtype_hint c) else Ret false.
(* @src src/model/formats/hf/hf_model_validator.cpp:40-48 IsSupportedActivation *)
Definition IsSupportedActivation (act : string) : bool := bool_decide (act ∈ ["silu"; "gelu"; "relu"]).
(* @src src/model/formats/hf/hf_model_validator.cpp:50-52 HasRopeScaling *)
Definition HasRopeScaling (r : HfRopeConfig) : bool :=
  bool_decide (is_Some (hf_scaling_factor r)) || bool_decide (hf_scaling_type r <> hfNone).

(* @src src/model/formats/hf/hf_model_validator.cpp:561-585 HfModelValidator::ValidateConfig (RoPE scaling) *)
Definition check_rope_scaling (c : HfModelConfig) (options : ModelValidationOptions) : Res unit :=
  let has_rope_scaling := HasRopeScaling (rope c) in
  _ ← reject_if (negb (allow_rope_scaling options) && has_rope_scaling) (bad "RoPE scaling is not supported in AetherMind Phase 1");
  if allow_rope_scaling options && has_rope_scaling then
    _ ← reject_if (bool_decide (hf_scaling_type (rope c) = hfNone))
      (bad "Model config field 'rope.scaling_type' must be provided when RoPE scaling is configured");
    match hf_scaling_factor (rope c) with
    | None => Fail (bad "Model config field 'rope.scaling_factor' must be provided when RoPE scaling is configured")
    | Some f => reject_if (f64_nonpositive f) (bad "Model config field 'rope.scaling_factor' must be positive")
    end
  else Ret tt.

(* @src src/model/formats/hf/hf_model_validator.cpp:506-592 HfModelValidator::ValidateConfig *)
Definition ValidateConfig (c : HfModelConfig) (options : ModelValidationOptions) : Res unit :=
  _ ← reject_if (bool_decide (model_type c = "")) (bad "Model config field 'model_type' must be provided");
  _ ← reject_if (bool_decide (model_type c <> "llama")) (bad "Only model_type=llama is supported in AetherMind Phase 1");
  _ ← RequirePositive (hidden_size c) "hidden_size";
  _ ← RequirePositive (intermediate_size c) "intermediate_size";
  _ ← RequirePositive (num_hidden_layers c) "num_hidden_layers";
  _ ← RequirePositive (cfg_attention_heads c) "num_attention_heads";
  _ ← RequirePositive (cfg_key_value_heads c) "num_key_value_heads";
  _ ← RequirePositive (vocab_size c) "vocab_size";
  _ ← RequirePositive (cfg_max_position_embeddings c) "max_position_embeddings";
  _ ← reject_if (f64_nonpositive (rms_norm_eps c)) (bad "Model config field 'rms_norm_eps' must be positive");
  _ ← reject_if (f64_nonpositive (hf_theta (rope c))) (bad "Model config field 'rope.theta' must be positive");
  _ ← reject_if (negb (Z.rem (hidden_size c) (cfg_attention_heads c) =? 0))
    (bad "Model config hidden_size must be divisible by num_attention_heads");
  _ ← reject_if (negb (cfg_head_dim c =? 0) && negb (cfg_head_dim c =? Z.quot (hidden_size c) (cfg_attention_heads c)))
    (bad "Model config head_dim must match hidden_size / num_attention_heads");
  _ ← reject_if (negb (Z.rem (cfg_attention_heads c) (cfg_key_value_heads c) =? 0))
    (bad "Model config num_attention_heads must be divisible by num_key_value_heads");
  _ ← reject_if (cfg_attention_heads c <? cfg_key_value_heads c)
    (bad "Model config num_key_value_heads must not exceed num_attention_heads");
  _ ← reject_if (intermediate_size c <? hidden_size c)
    (bad "Model config intermediate_size must be greater than or equal to hidden_size");
  _ ← reject_if (negb (IsSupportedActivation (hidden_act c)))
    (bad "Model config field 'hidden_act' must be one of: silu, gelu, relu");
  _ ← reject_if (negb (allow_bias options) && (attention_bias c || mlp_bias c)) (bad "Bias linear is not supported in AetherMind Phase 1");
  _ ← check_rope_scaling c options;
  named ← HasUnsupportedNamedDTypeHint c;
  supported ← (if (named : bool) then Ret false else IsSupportedDenseWeightDTypeHint (weight_dtype_hint c));
  reject_if (negb supported) (bad "Only dense float torch_dtype hints are supported in AetherMind Phase 1").

(** ** Checks of one weight *)

(* @src src/model/formats/hf/hf_model_validator.cpp:54-62 ShapeToString *)
Definition ShapeToString (shape : list Z) : string := "[" +:+ String.concat ", " (pretty <$> shape) +:+ "]".

Definition weight_error (name what : string) : Status := bad ("Weight '" +:+ name +:+ "' " +:+ what).

(* @src src/model/formats/hf/hf_model_validator.cpp:64-127 ValidateWeightViewIntegrity *)
Definition ValidateWeightViewIntegrity (view : RawWeightView) (name : string) : Res unit :=
  _ ← reject_if (negb (weight_valid view))
    (weight_error name "has an invalid RawWeightView (null storage, invalid dtype, or null data with non-zero byte size)");
  _ ← reject_if (bool_decide (rw_shape view = [])) (weight_error name "has empty shape");
  _ ← reject_if (negb (rw_contiguous view)) (weight_error name "is non-contiguous; non-contiguous weights are not supported");
  _ ← res_iter (fun dim => reject_if (dim <=? 0) (weight_error name ("has non-positive shape dimension " +:+ pretty dim))) (rw_shape view);
  let '(over, numel) := SafeMultiplyU64 (rw_shape view) in
  _ ← reject_if over (weight_error name "shape element count overflows uint64_t");
  _ ← reject_if (numel =? 0) (weight_error name "is an empty tensor");
  itemsize ← DataType.nbytes (rw_dtype view);
  _ ← reject_if (u64 itemsize =? 0) (weight_error name "has dtype with zero byte size");
  let '(over, expected_bytes) := CheckOverflowMul uint64_ty numel (u64 itemsize) in
  _ ← reject_if over (weight_error name "byte size overflows size_t");
  _ ← reject_if (rw_bytes view =? 0) (weight_error name "is an empty tensor");
  reject_if (negb (rw_bytes view =? expected_bytes))
    (weight_error name ("byte size mismatch: shape " +:+ ShapeToString (rw_shape view) +:+ " × " +:+ pretty (u64 itemsize) +:+
      " bytes/elem = " +:+ pretty expected_bytes +:+ " but view reports " +:+ pretty (rw_bytes view))).

(* @src src/model/formats/hf/hf_model_validator.cpp:129-136 ValidateWeight *)
Definition ValidateWeight (weights : RawWeightTable) (name : string) : Res unit :=
  match table_find weights name with
  | None => Fail (bad ("Model weight set is missing required weight '" +:+ name +:+ "'"))
  | Some view => ValidateWeightViewIntegrity view name
  end.

(* @src src/model/formats/hf/hf_model_validator.cpp:387-389 IsSupportedWeightDType *)
Definition IsSupportedWeightDType (d : DataType.t) : bool :=
  DataType.IsFloat32 d || DataType.IsFloat16 d || DataType.IsBFloat16 d.
(** The messages leave out the rendering of the data type. *)
(* @src src/model/formats/hf/hf_model_validator.cpp:391-398 ValidateWeightDType *)
Definition ValidateWeightDType (view : RawWeightView) (name : string) : Res unit :=
  reject_if (negb (IsSupportedWeightDType (rw_dtype view)))
    (bad ("Invalid tensor dtype: tensor=" +:+ name +:+ ", expected one of [F32, F16, BF16]")).
(* @src src/model/formats/hf/hf_model_validator.cpp:400-407 ExpectRank *)
Definition ExpectRank (view : RawWeightView) (expected_rank : Z) (name : string) : Res unit :=
  reject_if (negb (zlen (rw_shape view) =? expected_rank))
    (bad ("Invalid tensor rank: tensor=" +:+ name +:+ ", expected=" +:+ pretty expected_rank +:+ ", actual=" +:+ num (length (rw_shape view)))).
(* @src src/model/formats/hf/hf_model_validator.cpp:409-429 ExpectShape *)
Definition ExpectShape (view : RawWeightView) (expected : list Z) (name : string) : Res unit :=
  let mismatch := bad ("Invalid tensor shape: tensor=" +:+ name +:+ ", expected=" +:+ ShapeToString expected +:+ ", actual=" +:+
    ShapeToString (rw_shape view)) in
  _ ← reject_if (negb (length (rw_shape view) =? length expected)%nat) mismatch;
  for_each (fun i expected_dim => dim ← vec_at (rw_shape view) i; reject_if (negb (dim =? expected_dim)) mismatch) expected.
(** [has_linear_dtype] and [linear_dtype] as one option. *)
(* @src src/model/formats/hf/hf_model_validator.cpp:431-448 ValidateUniformLinearDType *)
Definition ValidateUniformLinearDType (name : string) (view : RawWeightView) (linear_dtype : option DataType.t) : Res (option DataType.t) :=
  match linear_dtype with
  | None => Ret (Some (rw_dtype view))
  | Some d =>
      same ← DataType.equal (rw_dtype view) d;
      _ ← reject_if (negb same) (bad ("Mixed linear tensor dtype: tensor=" +:+ name));
      Ret (Some d)
  end.

(** ** Checks of the names *)

(* @src src/model/formats/hf/hf_model_validator.cpp:138-148 kRequiredLayerWeightSuffixes *)
Definition kRequiredLayerWeightSuffixes : list string :=
  [".self_attn.q_proj.weight"; ".self_attn.k_proj.weight"; ".self_attn.v_proj.weight"; ".self_attn.o_proj.weight";
   ".mlp.gate_proj.weight"; ".mlp.up_proj.weight"; ".mlp.down_proj.weight"; ".input_layernorm.weight";
   ".post_attention_layernorm.weight"].
(* @src src/model/formats/hf/hf_model_validator.cpp:150-155 IsLayerNormSuffix *)
Definition IsLayerNormSuffix (suffix : string) : bool :=
  bool_decide (suffix = ".input_layernorm.weight") || bool_decide (suffix = ".post_attention_layernorm.weight").

(* @src src/model/formats/hf/hf_model_validator.cpp:157-159 ContainsAnyOf *)
Definition ContainsAnyOf (name pattern : string) : bool := bool_decide (is_Some (String.index 0 pattern name)).
(* @src src/model/formats/hf/hf_model_validator.cpp:161-166 EndsWithComponent *)
Definition EndsWithComponent (name component : string) : bool :=
  let n := String.length name in let k := String.length component in
  (k <=? n)%nat && String.eqb (String.substring (n - k) k name) component &&
  ((n =? k)%nat || bool_decide (String.get (n - k - 1) name = Some "."%char)).

(* @src src/model/formats/hf/hf_model_validator.cpp:171-176 DetectUnsupportedTensors (kMoePatterns) *)
Definition kMoePatterns : list string := ["experts"; "router"; "moe"; "shared_experts"].
(* @src src/model/formats/hf/hf_model_validator.cpp:178-187 DetectUnsupportedTensors (kBiasPatterns) *)
Definition kBiasPatterns : list string :=
  [".q_proj.bias"; ".k_proj.bias"; ".v_proj.bias"; ".o_proj.bias"; ".gate_proj.bias"; ".up_proj.bias"; ".down_proj.bias"; "lm_head.bias"].
(* @src src/model/formats/hf/hf_model_validator.cpp:189-194 DetectUnsupportedTensors (kLoraPatterns) *)
Definition kLoraPatterns : list string := ["lora_A"; "lora_B"; "adapter"; "peft"].
(* @src src/model/formats/hf/hf_model_validator.cpp:196-203 DetectUnsupportedTensors (kQuantizedPatterns) *)
Definition kQuantizedPatterns : list string := ["qweight"; "qzeros"; "scales"; "g_idx"; "bits"; "group_size"].

Definition unsupported (name what : string) : Status :=
  bad ("Unsupported tensor found: tensor=" +:+ name +:+ ", reason=" +:+ what +:+ " weights are not supported in AetherMind Phase 1").

(* @src src/model/formats/hf/hf_model_validator.cpp:168-246 DetectUnsupportedTensors *)
Definition DetectUnsupportedTensors (weights : RawWeightTable) (options : ModelValidationOptions) : Res unit :=
  res_iter (fun name =>
    _ ← reject_if (existsb (ContainsAnyOf name) kMoePatterns) (unsupported name "MoE");
    _ ← reject_if (negb (allow_bias options) && existsb (ContainsAnyOf name) kBiasPatterns) (unsupported name "Bias");
    _ ← reject_if (negb (allow_lora_or_adapter options) && existsb (ContainsAnyOf name) kLoraPatterns) (unsupported name "LoRA/adapter");
    reject_if (negb (allow_quantized_tensors options) && existsb (EndsWithComponent name) kQuantizedPatterns) (unsupported name "Quantized"))
    weights.*1.

(* @src src/model/formats/hf/hf_model_validator.cpp:248-266 ValidateLmHeadRequirement *)
Definition ValidateLmHeadRequirement (c : HfModelConfig) (weights : RawWeightTable) (options : ModelValidationOptions) : Res unit :=
  let has_lm_head := bool_decide (is_Some (table_find weights "lm_head.weight")) in
  _ ← reject_if (negb has_lm_head && negb (tie_word_embeddings c))
    (bad "Required weight 'lm_head.weight' is missing and tie_word_embeddings is false");
  reject_if (negb has_lm_head && require_lm_head_when_tied options)
    (bad "Required weight 'lm_head.weight' is missing; require_lm_head_when_tied is enabled").

Definition kLayerPrefix : string := "model.layers.".
(** The text after the first [n] characters. *)
Fixpoint rest_after (n : nat) (s : string) : string :=
  match n, s with S n', String _ s' => rest_after n' s' | _, _ => s end.

(* @src src/model/formats/hf/hf_model_validator.cpp:268-271 IsLayerWeightName *)
Definition IsLayerWeightName (key : string) : bool :=
  (String.length kLayerPrefix <? String.length key)%nat && String.prefix kLayerPrefix key.

Definition bad_layer (key what : string) : Status := bad ("Invalid layer weight name '" +:+ key +:+ "': " +:+ what).

(** What [std::from_chars] reads at the start of the text: the value before its range
    check and the text left, when there is a digit to read. *)
Definition scan_i64 (s : string) : option (Z * string) :=
  match s with
  | String "-"%char s' => match read_digits s' 0 0%N with (S _, v, r) => Some (- Z.of_N v, r) | _ => None end
  | _ => match read_digits s 0 0%N with (S _, v, r) => Some (Z.of_N v, r) | _ => None end
  end.

(* @src src/model/formats/hf/hf_model_validator.cpp:273-298 ExtractLayerIndex *)
Definition ExtractLayerIndex (key : string) : Res Z :=
  match split_at "."%char (rest_after (String.length kLayerPrefix) key) with
  | None => Fail (bad_layer key "missing suffix after layer index")
  | Some (digits, _) =>
      _ ← reject_if (bool_decide (digits = "")) (bad_layer key "missing layer index");
      match scan_i64 digits with
      | None => Fail (bad_layer key "layer index is not numeric")
      | Some (index, left_over) =>
          _ ← reject_if ((index <? INT64_MIN) || (INT64_MAX <? index)) (bad_layer key "layer index is out of range");
          _ ← reject_if (negb (bool_decide (left_over = ""))) (bad_layer key "layer index is not numeric");
          Ret index
      end
  end.

(* @src src/model/formats/hf/hf_model_validator.cpp:300-318 ValidateLayerIndexCompleteness *)
Definition ValidateLayerIndexCompleteness (weights : RawWeightTable) (layer_count : Z) : Res unit :=
  res_iter (fun name =>
    if negb (IsLayerWeightName name) then Ret tt else
    index ← ExtractLayerIndex name;
    reject_if (layer_count <=? index)
      (bad ("Weight '" +:+ name +:+ "' has layer index " +:+ pretty index +:+ " but num_hidden_layers is " +:+ pretty layer_count)))
    weights.*1.

(** Only called on names whose index could be extracted, which have a dot. *)
(* @src src/model/formats/hf/hf_model_validator.cpp:320-325 ExtractLayerSuffix *)
Definition ExtractLayerSuffix (key : string) : Res string :=
  match split_at "."%char (rest_after (String.length kLayerPrefix) key) with
  | Some (_, suffix) => Ret (String "."%char suffix)
  | None => Panic "string_view::substr"
  end.

(** The index could be read and is below the number of layers. *)
Definition known_layer (c : HfModelConfig) (name : string) : Res bool :=
  if negb (IsLayerWeightName name) then Ret false else
  match ExtractLayerIndex name with
  | Ret index => Ret (index <? num_hidden_layers c)
  | Fail _ => Ret false
  | Panic w => Panic w
  end.
(* @src src/model/formats/hf/hf_model_validator.cpp:327-340 IsKnownLayerWeight *)
Definition IsKnownLayerWeight (c : HfModelConfig) (name : string) : Res bool :=
  known ← known_layer c name;
  if (known : bool) then suffix ← ExtractLayerSuffix name; Ret (bool_decide (suffix ∈ kRequiredLayerWeightSuffixes)) else Ret false.
(* @src src/model/formats/hf/hf_model_validator.cpp:342-358 IsKnownIgnorableTensor *)
Definition IsKnownIgnorableTensor (c : HfModelConfig) (name : string) : Res bool :=
  if bool_decide (name = "model.rotary_emb.inv_freq") then Ret true else
  known ← known_layer c name;
  if (known : bool) then suffix ← ExtractLayerSuffix name; Ret (bool_decide (suffix = ".self_attn.rotary_emb.inv_freq")) else Ret false.
(* @src src/model/formats/hf/hf_model_validator.cpp:360-366 IsKnownWeightTensor *)
Definition IsKnownWeightTensor (c : HfModelConfig) (name : string) : Res bool :=
  if bool_decide (name ∈ ["model.embed_tokens.weight"; "model.norm.weight"; "lm_head.weight"]) then Ret true
  else IsKnownLayerWeight c name.

(* @src src/model/formats/hf/hf_model_validator.cpp:368-385 ValidateUnknownTensorPolicy *)
Definition ValidateUnknownTensorPolicy (c : HfModelConfig) (weights : RawWeightTable) (options : ModelValidationOptions) : Res unit :=
  res_iter (fun name =>
    known ← IsKnownWeightTensor c name;
    if (known : bool) then Ret tt else
    ignorable ← (if negb (strict_tensor_names options) && allow_unknown_tensors options then IsKnownIgnorableTensor c name else Ret false);
    if (ignorable : bool) then Ret tt else
    reject_if (strict_tensor_names options || negb (allow_unknown_tensors options)) (bad ("Unexpected tensor found: tensor=" +:+ name)))
    weights.*1.

(** ** The three validations and the resolver *)

Definition LayerName (i : nat) (suffix : string) : string := kLayerPrefix +:+ num i +:+ suffix.

(** The uniform data type check, when it is asked for. *)
Definition uniform (options : ModelValidationOptions) (name : string) (view : RawWeightView) (st : option DataType.t) : Res (option DataType.t) :=
  if require_uniform_linear_dtype options then ValidateUniformLinearDType name view st else Ret st.

(** A required weight: present, sound, of a dense float type and of the right rank. *)
(* @src src/model/formats/hf/hf_model_validator.cpp:605-607 HfModelValidator::ValidateWeightSet (one weight) *)
Definition check_weight (weights : RawWeightTable) (name : string) (rank : Z) : Res RawWeightView :=
  _ ← ValidateWeight weights name;
  view ← table_at weights name;
  _ ← ValidateWeightDType view name;
  _ ← ExpectRank view rank name;
  Ret view.

(* @src src/model/formats/hf/hf_model_validator.cpp:619-630 HfModelValidator::ValidateWeightSet (layer weight) *)
Definition check_layer_weight (weights : RawWeightTable) (options : ModelValidationOptions) (st : option DataType.t) (e : nat * string)
    : Res (option DataType.t) :=
  let name := LayerName e.1 e.2 in
  let is_norm := IsLayerNormSuffix e.2 in
  view ← check_weight weights name (if is_norm then 1 else 2);
  if require_uniform_linear_dtype options && negb is_norm then ValidateUniformLinearDType name view st else Ret st.

(** Layers from the outside in, suffixes inside. *)
Definition layer_weights (n : nat) : list (nat * string) := i ← seq 0 n; (fun s => (i, s)) <$> kRequiredLayerWeightSuffixes.

(* @src src/model/formats/hf/hf_model_validator.cpp:594-645 HfModelValidator::ValidateWeightSet *)
Definition ValidateWeightSet (c : HfModelConfig) (weights : RawWeightTable) (options : ModelValidationOptions) : Res unit :=
  _ ← RequirePositive (num_hidden_layers c) "num_hidden_layers";
  _ ← DetectUnsupportedTensors weights options;
  _ ← ValidateLayerIndexCompleteness weights (num_hidden_layers c);
  _ ← ValidateUnknownTensorPolicy c weights options;
  embed ← check_weight weights "model.embed_tokens.weight" 2;
  st ← uniform options "model.embed_tokens.weight" embed None;
  _ ← check_weight weights "model.norm.weight" 1;
  st ← res_foldl (check_layer_weight weights options) st (layer_weights (Z.to_nat (num_hidden_layers c)));
  _ ← match table_find weights "lm_head.weight" with
      | Some view =>
          _ ← ValidateWeightViewIntegrity view "lm_head.weight";
          _ ← ValidateWeightDType view "lm_head.weight";
          _ ← ExpectRank view 2 "lm_head.weight";
          uniform options "lm_head.weight" view st
      | None => Ret st
      end;
  ValidateLmHeadRequirement c weights options.

(* @src src/model/formats/hf/hf_model_validator.cpp:456-462 ValidateResolvedModelDTypes (validate_linear) *)
Definition validate_linear (options : ModelValidationOptions) (st : option DataType.t) (e : string * RawWeightView) : Res (option DataType.t) :=
  _ ← ValidateWeightDType e.2 e.1; uniform options e.1 e.2 st.

(** The seven projections of a layer with their names, in the order they are checked. *)
Definition linears (i : nat) (l : DecoderLayerRawWeights) : list (string * RawWeightView) :=
  [(LayerName i ".self_attn.q_proj.weight", q_proj (layer_attn l)); (LayerName i ".self_attn.k_proj.weight", k_proj (layer_attn l));
   (LayerName i ".self_attn.v_proj.weight", v_proj (layer_attn l)); (LayerName i ".self_attn.o_proj.weight", o_proj (layer_attn l));
   (LayerName i ".mlp.gate_proj.weight", gate_proj (layer_mlp l)); (LayerName i ".mlp.up_proj.weight", up_proj (layer_mlp l));
   (LayerName i ".mlp.down_proj.weight", down_proj (layer_mlp l))].

Definition layer_dtypes (options : ModelValidationOptions) (st : option DataType.t) (e : nat * DecoderLayerRawWeights) : Res (option DataType.t) :=
  _ ← ValidateWeightDType (input_rmsnorm (layer_norm e.2)) (LayerName e.1 ".input_layernorm.weight");
  _ ← ValidateWeightDType (post_attn_rmsnorm (layer_norm e.2)) (LayerName e.1 ".post_attention_layernorm.weight");
  res_foldl (validate_linear options) st (linears e.1 e.2).

(** Positions with the elements of a vector. *)
Definition indexed {A} (l : list A) : list (nat * A) := zip (seq 0 (length l)) l.

(* @src src/model/formats/hf/hf_model_validator.cpp:450-502 ValidateResolvedModelDTypes *)
Definition ValidateResolvedModelDTypes (c : HfModelConfig) (r : ResolvedModelWeights) (options : ModelValidationOptions) : Res unit :=
  st ← validate_linear options None ("model.embed_tokens.weight", embed_tokens r);
  _ ← ValidateWeightDType (final_norm r) "model.norm.weight";
  st ← match lm_head r with
       | Some h =>
           _ ← ValidateWeightDType h "lm_head.weight";
           differs ← (if tie_word_embeddings c then same ← DataType.equal (rw_dtype h) (rw_dtype (embed_tokens r)); Ret (negb same) else Ret false);
           _ ← reject_if differs (bad "Tied embedding dtype mismatch: tensor=lm_head.weight");
           uniform options "lm_head.weight" h st
       | None => Ret st
       end;
  _ ← res_foldl (layer_dtypes options) st (indexed (layers r));
  Ret tt.

(** The weights of a layer with the shapes they must have. *)
Definition layer_shapes (hidden kv_hidden intermediate : Z) (i : nat) (l : DecoderLayerRawWeights) : list (RawWeightView * list Z * string) :=
  [(input_rmsnorm (layer_norm l), [hidden], LayerName i ".input_layernorm.weight");
   (post_attn_rmsnorm (layer_norm l), [hidden], LayerName i ".post_attention_layernorm.weight");
   (q_proj (layer_attn l), [hidden; hidden], LayerName i ".self_attn.q_proj.weight");
   (k_proj (layer_attn l), [kv_hidden; hidden], LayerName i ".self_attn.k_proj.weight");
   (v_proj (layer_attn l), [kv_hidden; hidden], LayerName i ".self_attn.v_proj.weight");
   (o_proj (layer_attn l), [hidden; hidden], LayerName i ".self_attn.o_proj.weight");
   (gate_proj (layer_mlp l), [intermediate; hidden], LayerName i ".mlp.gate_proj.weight");
   (up_proj (layer_mlp l), [intermediate; hidden], LayerName i ".mlp.up_proj.weight");
   (down_proj (layer_mlp l), [hidden; intermediate], LayerName i ".mlp.down_proj.weight")].

(* @src src/model/formats/hf/hf_model_validator.cpp:647-717 HfModelValidator::ValidateResolvedModel *)
Definition ValidateResolvedModel (c : HfModelConfig) (r : ResolvedModelWeights) (options : ModelValidationOptions) : Res unit :=
  _ ← RequirePositive (cfg_attention_heads c) "num_attention_heads";
  _ ← RequirePositive (num_hidden_layers c) "num_hidden_layers";
  let hidden := hidden_size c in
  let vocab := vocab_size c in
  let head_dim := Z.quot (hidden_size c) (cfg_attention_heads c) in
  let kv_hidden := cfg_key_value_heads c * head_dim in
  _ ← am_check (bool_decide (INT64_MIN <= kv_hidden <= INT64_MAX)) "signed overflow";
  _ ← reject_if (negb (zlen (layers r) =? num_hidden_layers c))
    (bad ("Resolved model layer count mismatch: expected=" +:+ pretty (num_hidden_layers c) +:+ ", actual=" +:+ num (length (layers r))));
  _ ← ExpectShape (embed_tokens r) [vocab; hidden] "model.embed_tokens.weight";
  _ ← ExpectShape (final_norm r) [hidden] "model.norm.weight";
  _ ← match lm_head r with
      | Some h => ExpectShape h [vocab; hidden] "lm_head.weight"
      | None => reject_if (negb (tie_word_embeddings c)) (bad "Required weight 'lm_head.weight' is missing and tie_word_embeddings is false")
      end;
  _ ← for_each (fun i l => res_iter (fun e => ExpectShape e.1.1 e.1.2 e.2) (layer_shapes hidden kv_hidden (intermediate_size c) i l)) (layers r);
  ValidateResolvedModelDTypes c r options.

(* @src src/model/formats/hf/hf_weight_resolver.cpp:11-17 FindRequiredWeight *)
Definition FindRequiredWeight (weights : RawWeightTable) (name : string) : Res RawWeightView :=
  match table_find weights name with
  | Some v => Ret v
  | None => Fail (bad ("HF weight resolver missing required weight '" +:+ name +:+ "'"))
  end.
(* @src src/model/formats/hf/hf_weight_resolver.cpp:19-21 LayerWeightName *)
Definition LayerWeightName (layer_index : nat) (suffix : string) : string := "model.layers." +:+ num layer_index +:+ suffix.

(* @src src/model/formats/hf/hf_weight_resolver.cpp:52-108 ResolveWeights (one layer) *)
Definition resolve_layer (weights : RawWeightTable) (i : nat) : Res DecoderLayerRawWeights :=
  let find suffix := FindRequiredWeight weights (LayerWeightName i suffix) in
  input ← find ".input_layernorm.weight";
  post ← find ".post_attention_layernorm.weight";
  q ← find ".self_attn.q_proj.weight";
  k ← find ".self_attn.k_proj.weight";
  v ← find ".self_attn.v_proj.weight";
  o ← find ".self_attn.o_proj.weight";
  gate ← find ".mlp.gate_proj.weight";
  up ← find ".mlp.up_proj.weight";
  down ← find ".mlp.down_proj.weight";
  Ret (mkLayer (mkNorm input post) (mkAttn q k v o) (mkMLP gate up down)).

(* @src src/model/formats/hf/hf_weight_resolver.cpp:27-112 ResolveWeights *)
Definition ResolveWeights (c : HfModelConfig) (weights : RawWeightTable) : Res ResolvedModelWeights :=
  _ ← reject_if (num_hidden_layers c <=? 0) (bad "Model config field 'num_hidden_layers' must be positive");
  embed ← FindRequiredWeight weights "model.embed_tokens.weight";
  norm ← FindRequiredWeight weights "model.norm.weight";
  ls ← res_mapi (fun i _ => resolve_layer weights i) 0 (replicate (Z.to_nat (num_hidden_layers c)) tt);
  Ret (mkWeights embed norm (table_find weights "lm_head.weight") ls).

(** ** Sound weights *)

(** What the C++ types promise of a view. *)
Definition weight_repr (w : RawWeightView) : Prop :=
  Forall (in_i 64) (rw_shape w) /\ in_u 64 (rw_bytes w) /\ in_u 8 (DataType.bits (rw_dtype w)).

(** A usable dense tensor: alive, contiguous, without empty dimensions, and with exactly
    the bytes its shape and element type ask for. *)
Record weight_sound (w : RawWeightView) : Prop := {
  ws_valid : weight_valid w = true;
  ws_ranked : rw_shape w <> [];
  ws_contiguous : rw_contiguous w = true;
  ws_positive : Forall (fun d => 0 < d) (rw_shape w);
  ws_bytes : exists size, DataType.nbytes (rw_dtype w) = Ret size /\ 0 < size /\ rw_bytes w = product (rw_shape w) * size }.

Lemma product_pos l : Forall (fun d => 0 < d) l -> 0 < product l.
Proof. induction 1; cbn; nia. Qed.

Lemma product_take_le k l : Forall (fun d => 0 < d) l -> 0 < product (take k l) <= product l.
Proof.
  intros H. assert (0 < product (take k l) /\ 0 < product (drop k l)) as [? ?] by (split; apply product_pos; [by apply Forall_take|by apply Forall_drop]).
  rewrite <- (take_drop k l) at 3. rewrite product_app. nia.
Qed.

Lemma positive_u64 l : Forall (in_i 64) l -> Forall (fun d => 0 < d) l -> Forall (in_u 64) l.
Proof. intros H1 H2. apply Forall_forall. intros x Hx. rewrite Forall_forall in H1, H2. specialize (H1 x Hx). specialize (H2 x Hx). unfold in_i, in_u in *. lia. Qed.

(** The element count is the exact product or the overflow is reported. *)
Lemma SafeMultiply_positive l : Forall (in_i 64) l -> Forall (fun d => 0 < d) l ->
  (SafeMultiplyU64 l).1 = false <-> SafeMultiplyU64 l = (false, product l) /\ in_u 64 (product l).
Proof.
  intros H1 H2. pose proof (positive_u64 l H1 H2) as H3. split; [|by intros [-> _]]. intros H.
  assert (in_u 64 (product l)) as Hp.
  { destruct (decide (0 <= product l < 2 ^ 64)) as [Hd|Hd]; [done|]. exfalso. pose proof (SafeMultiplyU64_overflow l 1 (length l)) as HO.
    rewrite firstn_all, Z.mul_1_l in HO. unfold SafeMultiplyU64 in H. rewrite HO in H; [done|unfold in_u; lia|done|done]. }
  split; [|done]. unfold SafeMultiplyU64. rewrite (SafeMultiplyU64_exact l 1 H3); [by rewrite Z.mul_1_l|].
  intros k. pose proof (product_take_le k l H2). unfold in_u in *. lia.
Qed.

Lemma nbytes_u64 d size : in_u 8 (DataType.bits d) -> DataType.nbytes d = Ret size -> 0 <= size < 2 ^ 64.
Proof.
  intros Hb H. unfold DataType.nbytes, DataType.lanes in H. res_inv. bsplit. unfold in_u in *.
  pose proof (wrap_signed_range 16 (DataType.raw_lanes d) ltac:(lia)) as Hl. fold (DataType.lanes_as_int d) in Hl. unfold in_i in Hl.
  assert (0 <= DataType.bits d * DataType.lanes_as_int d < 2 ^ 8 * 2 ^ 15) by (cbn -[Z.pow] in *; nia).
  split; [apply Z.div_pos; lia|]. apply Z.div_lt_upper_bound; lia.
Qed.

(** The integrity check accepts sound weights and no others. *)
Lemma integrity_exact w name : weight_repr w -> ValidateWeightViewIntegrity w name = Ret tt <-> weight_sound w.
Proof.
  intros (Hs & Hb & Hd). unfold ValidateWeightViewIntegrity. split.
  - intros H. apply res_bind_ret_inv in H as (? & H1 & H). apply res_bind_ret_inv in H as (? & H2 & H).
    apply res_bind_ret_inv in H as (? & H3 & H). apply res_bind_ret_inv in H as (? & H4 & H).
    apply reject_if_ret_any in H1, H2, H3. bsplit. destruct x2. rewrite res_iter_ret in H4.
    assert (Forall (fun d => 0 < d) (rw_shape w)) as Hpos.
    { eapply Forall_impl; [exact H4|]. cbn beta. intros d Hr. res_inv. bsplit. lia. }
    destruct (SafeMultiplyU64 (rw_shape w)) as [over numel] eqn:E. res_inv. subst over.
    destruct (proj1 (SafeMultiply_positive _ Hs Hpos)) as [E' Hp]; [by rewrite E|]. rewrite E in E'. injection E' as ->.
    pose proof (nbytes_u64 _ _ Hd Hm1) as Hu. rewrite (wrap_small 64) in * by (unfold in_u; lia). bsplit.
    destruct (CheckOverflowMul _ _ _) as [o2 expected] eqn:EM. res_inv. subst o2. bsplit.
    assert (in_u 64 (product (rw_shape w) * a1)) as Hm.
    { destruct (decide (0 <= product (rw_shape w) * a1 < 2 ^ 64)) as [|Hn]; [done|]. pose proof (CheckOverflowMul_u64_over _ _ Hn) as HO. by rewrite EM in HO. }
    rewrite (CheckOverflowMul_u64_ok _ _ Hm) in EM. injection EM as <-. split; try done. exists a1. split; [done|]. split; [lia|done].
  - intros [H1 H2 H3 H4 (size & H5 & H6 & H7)]. rewrite H1. cbn [negb reject_if mbind res_mbind res_bind].
    rewrite bool_decide_false by done. cbn [negb reject_if mbind res_mbind res_bind]. rewrite H3. cbn [negb reject_if mbind res_mbind res_bind].
    rewrite (proj2 (res_iter_ret _ _)).
    2:{ eapply Forall_impl; [exact H4|]. cbn beta. intros d Hr. by rewrite (proj2 (Z.leb_gt d 0)) by lia. }
    cbn [mbind res_mbind res_bind]. pose proof (product_pos _ H4) as Hpp.
    assert (in_u 64 (product (rw_shape w))) as Hpu by (unfold in_u in *; nia).
    assert (SafeMultiplyU64 (rw_shape w) = (false, product (rw_shape w))) as ->.
    { unfold SafeMultiplyU64. rewrite (SafeMultiplyU64_exact _ 1 (positive_u64 _ Hs H4)); [by rewrite Z.mul_1_l|].
      intros k. pose proof (product_take_le k _ H4). unfold in_u in *. lia. }
    rewrite (proj2 (Z.eqb_neq (product (rw_shape w)) 0)) by lia. cbn [reject_if mbind res_mbind res_bind]. rewrite H5. cbn [mbind res_mbind res_bind].
    rewrite (wrap_small 64 size) by (pose proof (nbytes_u64 _ _ Hd H5); unfold in_u; lia). rewrite (proj2 (Z.eqb_neq size 0)) by lia. cbn [reject_if mbind res_mbind res_bind].
    rewrite CheckOverflowMul_u64_ok by (by rewrite <- H7). cbn [reject_if mbind res_mbind res_bind]. rewrite (proj2 (Z.eqb_neq (rw_bytes w) 0)) by nia.
    cbn [reject_if mbind res_mbind res_bind]. by rewrite H7, Z.eqb_refl.
Qed.

(** ** From a validated weight set to resolved weights *)

(** The weights of a layer by the suffix of their names. *)
Definition layer_entries (l : DecoderLayerRawWeights) : list (string * RawWeightView) :=
  [(".input_layernorm.weight", input_rmsnorm (layer_norm l)); (".post_attention_layernorm.weight", post_attn_rmsnorm (layer_norm l));
   (".self_attn.q_proj.weight", q_proj (layer_attn l)); (".self_attn.k_proj.weight", k_proj (layer_attn l));
   (".self_attn.v_proj.weight", v_proj (layer_attn l)); (".self_attn.o_proj.weight", o_proj (layer_attn l));
   (".mlp.gate_proj.weight", gate_proj (layer_mlp l)); (".mlp.up_proj.weight", up_proj (layer_mlp l));
   (".mlp.down_proj.weight", down_proj (layer_mlp l))].

(** Every weight of a model with its name and whether it is a matrix. *)
Definition entries (r : ResolvedModelWeights) : list (string * RawWeightView * bool) :=
  ("model.embed_tokens.weight", embed_tokens r, true) :: ("model.norm.weight", final_norm r, false) ::
  (match lm_head r with Some h => [("lm_head.weight", h, true)] | None => [] end) ++
  (e ← indexed (layers r); (fun s => (LayerName e.1 s.1, s.2, negb (IsLayerNormSuffix s.1))) <$> layer_entries e.2).

(** A loop whose steps leave the state alone. *)
Lemma res_foldl_const {A S} (f : S -> A -> Res S) s l r : (forall x s', f s x = Ret s' -> s' = s) ->
  res_foldl f s l = Ret r -> r = s /\ Forall (fun x => f s x = Ret s) l.
Proof.
  intros Hf. induction l as [|x l IH]; cbn; [intros [= <-]; by split|]. destruct (f s x) as [s'| |] eqn:E; [|done..].
  pose proof (Hf x s' E) as ->. cbn. intros H. destruct (IH H) as [-> HF]. split; [done|]. by constructor.
Qed.

Section WeightSet.
Context (weights : RawWeightTable) (options : ModelValidationOptions).

(** What the validation of a weight set establishes of the weight of a name. *)
Definition checked (d : DataType.t) (name : string) (matrix : bool) (w : RawWeightView) : Prop :=
  table_find weights name = Some w /\ ValidateWeightViewIntegrity w name = Ret tt /\ IsSupportedWeightDType (rw_dtype w) = true /\
  zlen (rw_shape w) = (if matrix then 2 else 1) /\
  (require_uniform_linear_dtype options = true -> matrix = true -> DataType.equal (rw_dtype w) d = Ret true).

Lemma check_weight_ret name rank w : check_weight weights name rank = Ret w ->
  table_find weights name = Some w /\ ValidateWeightViewIntegrity w name = Ret tt /\ IsSupportedWeightDType (rw_dtype w) = true /\
  zlen (rw_shape w) = rank.
Proof.
  unfold check_weight, ValidateWeight, table_at, ValidateWeightDType, ExpectRank. destruct (table_find weights name) as [v|]; [|done].
  intros H. res_inv. bsplit. done.
Qed.

(** The state of the uniformity check once the embedding has been seen. *)
Definition seen (d : DataType.t) : option DataType.t := if require_uniform_linear_dtype options then Some d else None.

Lemma uniform_seen d name w st : uniform options name w (seen d) = Ret st ->
  st = seen d /\ (require_uniform_linear_dtype options = true -> DataType.equal (rw_dtype w) d = Ret true).
Proof.
  unfold uniform, seen, ValidateUniformLinearDType. destruct (require_uniform_linear_dtype options); [|intros [= <-]; done].
  intros H. res_inv. bsplit. subst. done.
Qed.

Lemma layer_weight_checked d e st : check_layer_weight weights options (seen d) e = Ret st ->
  st = seen d /\ exists w, checked d (LayerName e.1 e.2) (negb (IsLayerNormSuffix e.2)) w.
Proof.
  unfold check_layer_weight. intros H. apply res_bind_ret_inv in H as (w & Hw & H). apply check_weight_ret in Hw as (Hf & Hi & Hs & Hr).
  destruct (IsLayerNormSuffix e.2).
  - rewrite andb_false_r in H. injection H as <-. split; [done|]. exists w. done.
  - rewrite andb_true_r in H. apply uniform_seen in H as [-> H]. split; [done|]. exists w. unfold checked. naive_solver.
Qed.

Lemma resolve_layer_found i : (forall s, s ∈ kRequiredLayerWeightSuffixes -> is_Some (table_find weights (LayerName i s))) ->
  exists l, resolve_layer weights i = Ret l /\ Forall (fun e => table_find weights (LayerName i e.1) = Some e.2) (layer_entries l).
Proof using.
  intros H. unfold resolve_layer, FindRequiredWeight. change (LayerWeightName i) with (LayerName i).
  assert (forall s, bool_decide (s ∈ kRequiredLayerWeightSuffixes) = true -> exists v, table_find weights (LayerName i s) = Some v) as Hv.
  { intros s Hs. apply bool_decide_eq_true in Hs. exact (H s Hs). }
  destruct (Hv ".input_layernorm.weight" eq_refl) as [v1 E1]. destruct (Hv ".post_attention_layernorm.weight" eq_refl) as [v2 E2].
  destruct (Hv ".self_attn.q_proj.weight" eq_refl) as [v3 E3]. destruct (Hv ".self_attn.k_proj.weight" eq_refl) as [v4 E4].
  destruct (Hv ".self_attn.v_proj.weight" eq_refl) as [v5 E5]. destruct (Hv ".self_attn.o_proj.weight" eq_refl) as [v6 E6].
  destruct (Hv ".mlp.gate_proj.weight" eq_refl) as [v7 E7]. destruct (Hv ".mlp.up_proj.weight" eq_refl) as [v8 E8].
  destruct (Hv ".mlp.down_proj.weight" eq_refl) as [v9 E9]. cbv zeta.
  rewrite E1, E2, E3, E4, E5, E6, E7, E8, E9. eexists. split; [reflexivity|]. unfold layer_entries. repeat (apply Forall_cons; split; [assumption|]). by apply Forall_nil.
Qed.
End WeightSet.

Lemma layer_weights_elem n i s : (i < n)%nat -> s ∈ kRequiredLayerWeightSuffixes -> (i, s) ∈ layer_weights n.
Proof.
  intros Hi Hs. unfold layer_weights. apply list_elem_of_bind. exists i. split; [|apply elem_of_seq; lia].
  apply list_elem_of_fmap. by exists s.
Qed.

Lemma layer_entries_suffix l e : e ∈ layer_entries l -> e.1 ∈ kRequiredLayerWeightSuffixes.
Proof.
  intros H. unfold layer_entries in H. repeat (apply elem_of_cons in H as [->|H]; [apply (bool_decide_eq_true_1 _); vm_compute; reflexivity|]).
  by apply not_elem_of_nil in H.
Qed.

Lemma dtype_self_equal d size : DataType.nbytes d = Ret size -> DataType.equal d d = Ret true.
Proof.
  unfold DataType.nbytes, DataType.equal. intros H. res_inv. rewrite orb_diag. destruct (DLDataTypeCode.eqb (DataType.dcode d) DLDataTypeCode.Undefined) eqn:E.
  - by rewrite (proj2 (DataType.eqb_eq _ _) eq_refl).
  - rewrite (proj2 (DataType.eqb_eq _ _) eq_refl), Z.eqb_refl. cbn [andb]. rewrite Hm0. cbn. by rewrite Z.eqb_refl.
Qed.

Lemma table_find_repr (weights : RawWeightTable) name w : Forall (fun e => weight_repr e.2) weights -> table_find weights name = Some w -> weight_repr w.
Proof.
  intros HF H. unfold table_find in H. destruct (filter _ weights) as [|[n v] l] eqn:E; [done|]. cbn in H. injection H as <-.
  assert ((n, v) ∈ weights) as Hin by (eapply list_elem_of_filter; rewrite E; left). rewrite Forall_forall in HF. exact (HF _ Hin).
Qed.

Lemma indexed_lookup {A} (l : list A) i x : (i, x) ∈ indexed l -> l !! i = Some x.
Proof.
  intros [k Hk]%list_elem_of_lookup. apply lookup_zip_Some in Hk as [H1 H2]. by apply lookup_seq in H1 as [-> _].
Qed.

(** Every weight of an accepted set has been checked, the ones of the layers included. *)
Lemma ValidateWeightSet_checked c weights options : ValidateWeightSet c weights options = Ret tt ->
  0 < num_hidden_layers c /\
  exists embed, checked weights options (rw_dtype embed) "model.embed_tokens.weight" true embed /\
    (exists norm, checked weights options (rw_dtype embed) "model.norm.weight" false norm) /\
    (forall i s, (i < Z.to_nat (num_hidden_layers c))%nat -> s ∈ kRequiredLayerWeightSuffixes ->
      exists w, checked weights options (rw_dtype embed) (LayerName i s) (negb (IsLayerNormSuffix s)) w) /\
    (forall h, table_find weights "lm_head.weight" = Some h -> checked weights options (rw_dtype embed) "lm_head.weight" true h) /\
    ValidateLmHeadRequirement c weights options = Ret tt.
Proof.
  unfold ValidateWeightSet, RequirePositive. intros H.
  apply res_bind_ret_inv in H as (? & H1 & H). apply res_bind_ret_inv in H as (? & _ & H). apply res_bind_ret_inv in H as (? & _ & H).
  apply res_bind_ret_inv in H as (? & _ & H). apply res_bind_ret_inv in H as (embed & He & H). apply res_bind_ret_inv in H as (st & Hu & H).
  apply res_bind_ret_inv in H as (norm & Hn & H). apply res_bind_ret_inv in H as (st' & Hl & H). apply res_bind_ret_inv in H as (st'' & Hh & H).
  apply reject_if_ret_any in H1. bsplit. split; [done|]. apply check_weight_ret in He as (E1 & E2 & E3 & E4).
  assert (st = seen options (rw_dtype embed)) as ->.
  { unfold uniform, seen, ValidateUniformLinearDType in *. destruct (require_uniform_linear_dtype options); by injection Hu as <-. }
  apply res_foldl_const in Hl as [-> Hl]; [|by intros ? ? []%layer_weight_checked].
  apply check_weight_ret in Hn as (N1 & N2 & N3 & N4). exists embed. split; [|split; [|split; [|split]]].
  - split; [done|]. split; [done|]. split; [done|]. split; [done|]. intros _ _. unfold ValidateWeightViewIntegrity in E2.
    apply res_bind_ret_inv in E2 as (? & _ & E2). apply res_bind_ret_inv in E2 as (? & _ & E2). apply res_bind_ret_inv in E2 as (? & _ & E2).
    apply res_bind_ret_inv in E2 as (? & _ & E2). destruct (SafeMultiplyU64 _) as [o numel]. apply res_bind_ret_inv in E2 as (? & _ & E2).
    apply res_bind_ret_inv in E2 as (? & _ & E2). apply res_bind_ret_inv in E2 as (sz & Hsz & _). apply dtype_self_equal with sz. done.
  - exists norm. by repeat split.
  - intros i s Hi Hs. rewrite Forall_forall in Hl. destruct (layer_weight_checked _ _ _ _ _ (Hl _ (layer_weights_elem _ i s Hi Hs))) as [_ Hw]. exact Hw.
  - intros h Eh. rewrite Eh in Hh. apply res_bind_ret_inv in Hh as ([] & I & Hh). apply res_bind_ret_inv in Hh as (? & D & Hh).
    apply res_bind_ret_inv in Hh as (? & R & Hh). apply uniform_seen in Hh as [_ Hh]. unfold ValidateWeightDType, ExpectRank in *. res_inv. bsplit.
    split; [done|]. split; [done|]. split; [done|]. split; [done|]. intros Hr _. by apply Hh.
  - done.
Qed.

(** The resolved weights of a configuration, taken from a table: every layer has its nine
    weights under the names of the checkpoint, each of them alive, contiguous, without empty
    dimensions, with exactly the bytes of its shape and element type, of a dense float type
    and of the rank of its role, and all matrices share one element type when the options
    ask for it; the output head is missing only where the embedding may stand in for it. *)
Record sound_model (c : HfModelConfig) (weights : RawWeightTable) (options : ModelValidationOptions) (r : ResolvedModelWeights) : Prop := {
  sm_layers : zlen (layers r) = num_hidden_layers c;
  sm_weights (name : string) (w : RawWeightView) (matrix : bool) : (name, w, matrix) ∈ entries r ->
    table_find weights name = Some w /\ weight_sound w /\ IsSupportedWeightDType (rw_dtype w) = true /\
    zlen (rw_shape w) = (if matrix then 2 else 1) /\
    (require_uniform_linear_dtype options = true -> matrix = true -> DataType.equal (rw_dtype w) (rw_dtype (embed_tokens r)) = Ret true);
  sm_head : lm_head r = None -> tie_word_embeddings c = true /\ require_lm_head_when_tied options = false }.

Lemma weight_set_resolves c weights options : Forall (fun e => weight_repr e.2) weights ->
  ValidateWeightSet c weights options = Ret tt -> exists r, ResolveWeights c weights = Ret r /\ sound_model c weights options r.
Proof.
  intros Hrepr H. apply ValidateWeightSet_checked in H as (Hpos & embed & He & (norm & Hn) & Hl & Hh & Hlm).
  assert (forall i, (i < Z.to_nat (num_hidden_layers c))%nat ->
    exists l, resolve_layer weights i = Ret l /\ Forall (fun e => table_find weights (LayerName i e.1) = Some e.2) (layer_entries l)) as Hr.
  { intros i Hi. apply resolve_layer_found. intros s Hs. destruct (Hl i s Hi Hs) as (w & Hw & _). by exists w. }
  destruct (res_mapi_total (fun i (_ : unit) => resolve_layer weights i) (replicate (Z.to_nat (num_hidden_layers c)) tt) 0) as [ls Els].
  { intros k x Hk. apply lookup_replicate in Hk as [_ Hk]. destruct (Hr k Hk) as (l & El & _). by exists l. }
  pose proof Els as Els'. apply res_mapi_ret in Els' as [Hlen Hls]. rewrite length_replicate in Hlen.
  exists (mkWeights embed norm (table_find weights "lm_head.weight") ls). split.
  { unfold ResolveWeights, FindRequiredWeight. rewrite (proj2 (Z.leb_gt _ _)) by lia. destruct He as [-> _]. destruct Hn as [-> _]. cbn [reject_if mbind res_mbind res_bind]. by rewrite Els. }
  split; cbn [layers lm_head embed_tokens]; [unfold zlen; lia| |].
  - assert (forall name w matrix, checked weights options (rw_dtype embed) name matrix w ->
      table_find weights name = Some w /\ weight_sound w /\ IsSupportedWeightDType (rw_dtype w) = true /\ zlen (rw_shape w) = (if matrix then 2 else 1) /\
      (require_uniform_linear_dtype options = true -> matrix = true -> DataType.equal (rw_dtype w) (rw_dtype embed) = Ret true)) as Hc.
    { intros name w matrix (C1 & C2 & C3 & C4 & C5). split; [done|]. split; [|done]. apply (integrity_exact w name); [|done]. by apply (table_find_repr weights name). }
    intros name w matrix Hin. unfold entries in Hin. cbn [embed_tokens final_norm lm_head layers] in Hin.
    apply elem_of_cons in Hin as [[= -> -> ->]|Hin]; [exact (Hc _ _ true He)|]. apply elem_of_cons in Hin as [[= -> -> ->]|Hin]; [exact (Hc _ _ false Hn)|].
    apply elem_of_app in Hin as [Hin|Hin].
    + destruct (table_find weights "lm_head.weight") as [h|] eqn:Eh; [|by apply not_elem_of_nil in Hin]. apply list_elem_of_singleton in Hin as [= -> -> ->].
      exact (Hc _ _ true (Hh h eq_refl)).
    + apply list_elem_of_bind in Hin as ([i l] & Hin & Hil). cbn [fst snd] in Hin. apply indexed_lookup in Hil. pose proof (lookup_lt_Some _ _ _ Hil) as Hi. rewrite Hlen in Hi.
      apply list_elem_of_fmap in Hin as ([s w'] & [= -> -> ->] & Hin). cbn [fst snd]. apply Hc.
      destruct (Hr i Hi) as (l' & El' & Hfound). destruct (Hls i tt) as (y & Hy & Ey); [by apply lookup_replicate|]. change (resolve_layer weights i = Ret y) in Ey. assert (l' = l) as -> by congruence.
      rewrite Forall_forall in Hfound. pose proof (Hfound _ Hin) as Hf. cbn in Hf.
      destruct (Hl i s Hi (layer_entries_suffix _ _ Hin)) as (w & Hw). by destruct Hw as (C1 & C2 & C3 & C4 & C5); simplify_eq.
  - intros E. unfold ValidateLmHeadRequirement in Hlm. rewrite E in Hlm. cbn in Hlm. res_inv. bsplit. done.
Qed.

(** C28: A weight set that passes validation resolves: every layer of the configuration gets
    its nine weights under the names of the checkpoint, each of them alive, contiguous,
    without empty dimensions, with exactly the bytes of its shape and element type, of a
    dense float type and of the rank of its role, and all matrices share one element type
    when the options ask for it; the output head is missing only where the embedding may
    stand in for it. *)
Theorem validated_weights_resolve c weights options : Forall (fun e => weight_repr e.2) weights ->
  ValidateWeightSet c weights options = Ret tt -> exists r, ResolveWeights c weights = Ret r /\ sound_model c weights options r.
Proof. apply weight_set_resolves. Qed.

(** ** What the other two validations establish *)

Lemma for_each_forall {A} (f : nat -> A -> Res unit) l : for_each f l = Ret tt <-> forall k x, l !! k = Some x -> f k x = Ret tt.
Proof. apply for_each_ret. Qed.

Lemma ExpectShape_exact w expected name : ExpectShape w expected name = Ret tt <-> rw_shape w = expected.
Proof.
  unfold ExpectShape. split.
  - intros H. res_inv. bsplit. rewrite for_each_forall in H. apply (list_eq_same_length _ _ (length expected)); [done..|].
    intros i x y Hi Hx Hy. specialize (H i y Hy). cbn beta in H. rewrite (proj2 (vec_at_ret _ _ _) Hx) in H. cbn [mbind res_mbind res_bind] in H. res_inv. by bsplit.
  - intros ->. rewrite Nat.eqb_refl. cbn [negb reject_if mbind res_mbind res_bind]. apply for_each_forall. intros i x Hx.
    rewrite (proj2 (vec_at_ret _ _ _) Hx). cbn. by rewrite Z.eqb_refl.
Qed.

Definition kv_width (c : HfModelConfig) : Z := cfg_key_value_heads c * Z.quot (hidden_size c) (cfg_attention_heads c).

(** A resolved model whose tensors have the shapes and types of its configuration. *)
Record resolved_ok (c : HfModelConfig) (r : ResolvedModelWeights) (options : ModelValidationOptions) : Prop := {
  ro_heads : 0 < cfg_attention_heads c;
  ro_count : 0 < num_hidden_layers c;
  ro_width : INT64_MIN <= kv_width c <= INT64_MAX;
  ro_layers : zlen (layers r) = num_hidden_layers c;
  ro_embed : rw_shape (embed_tokens r) = [vocab_size c; hidden_size c];
  ro_norm : rw_shape (final_norm r) = [hidden_size c];
  ro_head : match lm_head r with Some h => rw_shape h = [vocab_size c; hidden_size c] | None => tie_word_embeddings c = true end;
  ro_layer : forall i l, layers r !! i = Some l ->
    Forall (fun e => rw_shape e.1.1 = e.1.2) (layer_shapes (hidden_size c) (kv_width c) (intermediate_size c) i l);
  ro_dtypes : ValidateResolvedModelDTypes c r options = Ret tt }.

Lemma ValidateResolvedModel_exact c r options : ValidateResolvedModel c r options = Ret tt <-> resolved_ok c r options.
Proof.
  unfold ValidateResolvedModel, RequirePositive. cbv zeta. fold (kv_width c). split.
  - intros H. apply res_bind_ret_inv in H as (? & H1 & H). apply res_bind_ret_inv in H as (? & H2 & H). apply res_bind_ret_inv in H as (? & H3 & H).
    apply res_bind_ret_inv in H as (? & H4 & H). apply res_bind_ret_inv in H as ([] & H5 & H). apply res_bind_ret_inv in H as ([] & H6 & H).
    apply res_bind_ret_inv in H as ([] & H7 & H). apply res_bind_ret_inv in H as ([] & H8 & H). apply ExpectShape_exact in H5, H6. res_inv. bsplit.
    split; try done.
    + destruct (lm_head r); [by apply ExpectShape_exact in H7|]. res_inv. by bsplit.
    + intros i l Hl. rewrite for_each_forall in H8. specialize (H8 i l Hl). rewrite res_iter_ret in H8. eapply Forall_impl; [exact H8|].
      intros e He. by apply ExpectShape_exact in He.
  - intros [H1 H2 H3 H4 H5 H6 H7 H8 H9]. rewrite !(proj2 (Z.leb_gt _ 0)) by done. cbn [reject_if mbind res_mbind res_bind].
    rewrite bool_decide_true by done. cbn [am_check mbind res_mbind res_bind]. rewrite H4, Z.eqb_refl. cbn [negb reject_if mbind res_mbind res_bind].
    rewrite (proj2 (ExpectShape_exact _ _ _) H5), (proj2 (ExpectShape_exact _ _ _) H6). cbn [mbind res_mbind res_bind].
    assert (match lm_head r with Some h => ExpectShape h [vocab_size c; hidden_size c] "lm_head.weight"
      | None => reject_if (negb (tie_word_embeddings c)) (bad "Required weight 'lm_head.weight' is missing and tie_word_embeddings is false") end = Ret tt) as ->
      by (destruct (lm_head r); [by apply ExpectShape_exact|by rewrite H7]).
    cbn [mbind res_mbind res_bind]. rewrite (proj2 (for_each_forall _ _)); [done|]. intros i l Hl. apply res_iter_ret.
    eapply Forall_impl; [exact (H8 i l Hl)|]. intros e He. by apply ExpectShape_exact.
Qed.

(** A configuration the engine accepts. *)
Record config_ok (c : HfModelConfig) (options : ModelValidationOptions) : Prop := {
  co_llama : model_type c = "llama";
  co_hidden : 0 < hidden_size c;
  co_intermediate : hidden_size c <= intermediate_size c;
  co_layers : 0 < num_hidden_layers c;
  co_heads : 0 < cfg_attention_heads c;
  co_kv : 0 < cfg_key_value_heads c <= cfg_attention_heads c;
  co_vocab : 0 < vocab_size c;
  co_positions : 0 < cfg_max_position_embeddings c;
  co_eps : f64_nonpositive (rms_norm_eps c) = false;
  co_theta : f64_nonpositive (hf_theta (rope c)) = false;
  co_split : (cfg_attention_heads c | hidden_size c);
  co_head_dim : cfg_head_dim c = 0 \/ cfg_head_dim c = hidden_size c / cfg_attention_heads c;
  co_groups : (cfg_key_value_heads c | cfg_attention_heads c);
  co_act : hidden_act c ∈ ["silu"; "gelu"; "relu"];
  co_bias : allow_bias options = false -> attention_bias c = false /\ mlp_bias c = false;
  co_rope : check_rope_scaling c options = Ret tt;
  co_hint : (weight_dtype_hint_name c <> "" -> weight_dtype_hint_name c <> "auto" -> IsUnknownDType (weight_dtype_hint c) = Ret false);
  co_dense : IsSupportedDenseWeightDTypeHint (weight_dtype_hint c) = Ret true }.

Lemma rem_zero a b : 0 < b -> 0 <= a -> Z.rem a b = 0 <-> (b | a).
Proof. intros Hb Ha. rewrite Z.rem_mod_nonneg by lia. by rewrite Z.mod_divide by lia. Qed.

Lemma ValidateConfig_exact c options : ValidateConfig c options = Ret tt <-> config_ok c options.
Proof.
  unfold ValidateConfig, RequirePositive. split.
  - intros H. do 18 (apply res_bind_ret_inv in H as (? & ?Hc & H)). apply res_bind_ret_inv in H as ([] & Hrope & H).
    apply res_bind_ret_inv in H as (named & Hnamed & H). apply res_bind_ret_inv in H as (sup & Hsup & H). res_inv. bsplit. subst sup.
    unfold HasUnsupportedNamedDTypeHint in Hnamed. destruct named; [done|]. rewrite Z.quot_div_nonneg in * by lia.
    split; try done; try lia.
    + destruct (decide (model_type c = "llama")); [done|]. exfalso; eauto.
    + apply rem_zero; [lia|lia|done].
    + apply rem_zero; [lia|lia|done].
    + by apply bool_decide_eq_true in Hc15.
    + intros Hb. rewrite Hb in Hc16. cbn in Hc16. by bsplit.
    + intros N1 N2. rewrite !bool_decide_false in Hnamed by done. exact Hnamed.
  - intros [A1 A2 A3 A4 A5 A6 A7 A8 A9 A10 A11 A12 A13 A14 A15 A16 A17 A18].
    rewrite (bool_decide_false (model_type c = "")), (bool_decide_false (model_type c <> "llama")) by congruence.
    rewrite !(proj2 (Z.leb_gt _ 0)) by lia. rewrite A9, A10. cbn [reject_if mbind res_mbind res_bind].
    rewrite (proj2 (rem_zero (hidden_size c) (cfg_attention_heads c) ltac:(lia) ltac:(lia)) A11), (proj2 (rem_zero (cfg_attention_heads c) (cfg_key_value_heads c) ltac:(lia) ltac:(lia)) A13). cbn [Z.eqb negb reject_if mbind res_mbind res_bind].
    rewrite Z.quot_div_nonneg by lia.
    assert (negb (cfg_head_dim c =? 0) && negb (cfg_head_dim c =? hidden_size c / cfg_attention_heads c) = false) as ->.
    { destruct A12 as [E|E]; rewrite E; [done|]. by rewrite Z.eqb_refl, andb_false_r. }
    cbn [reject_if mbind res_mbind res_bind]. rewrite !(proj2 (Z.ltb_ge _ _)) by lia. cbn [reject_if mbind res_mbind res_bind].
    unfold IsSupportedActivation. rewrite bool_decide_true by done. cbn [negb reject_if mbind res_mbind res_bind].
    assert (negb (allow_bias options) && (attention_bias c || mlp_bias c) = false) as ->.
    { destruct (allow_bias options); [done|]. destruct (A15 eq_refl) as [-> ->]. done. }
    cbn [reject_if mbind res_mbind res_bind]. rewrite A16. cbn [mbind res_mbind res_bind].
    assert (HasUnsupportedNamedDTypeHint c = Ret false) as ->.
    { unfold HasUnsupportedNamedDTypeHint. repeat case_bool_decide; cbn; try done. by apply A17. }
    cbn [mbind res_mbind res_bind]. by rewrite A18.
Qed.

(** ** Names *)

Lemma known_layer_suffix c name : known_layer c name = Ret true -> exists suffix, ExtractLayerSuffix name = Ret suffix.
Proof.
  unfold known_layer, ExtractLayerIndex, ExtractLayerSuffix. destruct (IsLayerWeightName name); [|done]. cbn [negb].
  destruct (split_at _ _) as [[digits suffix]|]; [|done]. by exists (String "."%char suffix).
Qed.

Lemma known_layer_total c name : exists b, known_layer c name = Ret b.
Proof.
  unfold known_layer, ExtractLayerIndex, reject_if. destruct (IsLayerWeightName name); [|by exists false]. cbn [negb].
  destruct (split_at _ _) as [[digits suffix]|]; [|by exists false]. destruct (bool_decide _); [by exists false|]. cbn [mbind res_mbind res_bind].
  destruct (scan_i64 digits) as [[v l]|]; [|by exists false]. destruct ((v <? INT64_MIN) || (INT64_MAX <? v)); [by exists false|]. cbn [mbind res_mbind res_bind].
  destruct (negb (bool_decide (l = ""))); [by exists false|]. cbn [mbind res_mbind res_bind]. by eexists.
Qed.

Lemma known_tensor_total c name : exists b, IsKnownWeightTensor c name = Ret b.
Proof.
  unfold IsKnownWeightTensor, IsKnownLayerWeight. case_bool_decide; [by exists true|]. destruct (known_layer_total c name) as [[] E]; rewrite E; cbn [mbind res_mbind res_bind].
  - destruct (known_layer_suffix c name E) as [s ->]. cbn [mbind res_mbind res_bind]. by eexists.
  - by exists false.
Qed.

Lemma ignorable_total c name : exists b, IsKnownIgnorableTensor c name = Ret b.
Proof.
  unfold IsKnownIgnorableTensor. case_bool_decide; [by exists true|]. destruct (known_layer_total c name) as [[] E]; rewrite E; cbn [mbind res_mbind res_bind].
  - destruct (known_layer_suffix c name E) as [s ->]. cbn [mbind res_mbind res_bind]. by eexists.
  - by exists false.
Qed.

(** The policy on unknown tensors accepts every table by default, and when names are
    strict or unknown tensors are disallowed it accepts exactly the tables whose names are
    all known; the exemption of the rotary tables never changes the answer. *)
Theorem unknown_tensor_policy_exact c weights options : ValidateUnknownTensorPolicy c weights options = Ret tt <->
  (strict_tensor_names options = false /\ allow_unknown_tensors options = true) \/
  Forall (fun name => IsKnownWeightTensor c name = Ret true) weights.*1.
Proof.
  unfold ValidateUnknownTensorPolicy. rewrite res_iter_ret.
  destruct (decide (strict_tensor_names options = false /\ allow_unknown_tensors options = true)) as [[E1 E2]|Hn].
  - rewrite E1, E2. split; [by left|]. intros _. apply Forall_forall. intros name _. destruct (known_tensor_total c name) as [[] ->]; [done|].
    cbn [negb andb orb mbind res_mbind res_bind]. by destruct (ignorable_total c name) as [[] ->].
  - assert (negb (strict_tensor_names options) && allow_unknown_tensors options = false /\
      strict_tensor_names options || negb (allow_unknown_tensors options) = true) as [-> ->].
    { destruct (strict_tensor_names options), (allow_unknown_tensors options); try done. by destruct Hn. }
    split; [intros H; right|intros [H|H]; [done|]]; (eapply Forall_impl; [exact H|]); intros name; cbn beta.
    + by destruct (known_tensor_total c name) as [[] ->].
    + by intros ->.
Qed.

(** The layer index of a name may be negative: such a tensor passes for a known weight of
    the model although no layer uses it. *)
Theorem negative_layer_is_known c : 0 < num_hidden_layers c ->
  let name := "model.layers.-1.self_attn.q_proj.weight" in
  ExtractLayerIndex name = Ret (-1) /\ IsKnownWeightTensor c name = Ret true /\
  forall w, ValidateLayerIndexCompleteness [(name, w)] (num_hidden_layers c) = Ret tt.
Proof.
  intros Hn name. assert (ExtractLayerIndex name = Ret (-1)) as E by done. split; [done|].
  assert (IsLayerWeightName name = true) as El by done. split.
  - unfold IsKnownWeightTensor, IsKnownLayerWeight, known_layer. rewrite El, E. cbn [negb]. rewrite (proj2 (Z.ltb_lt (-1) _)) by lia. done.
  - intros w. unfold ValidateLayerIndexCompleteness. cbn [fmap list_fmap fst res_iter]. rewrite El, E. cbn [negb mbind res_mbind res_bind].
    by rewrite (proj2 (Z.leb_gt _ _)) by lia.
Qed.

Module TinyLlama.
(** Two heads of width two sharing one key-value head, one layer. *)
Definition config : HfModelConfig :=
  mkConfig "llama" ["LlamaForCausalLM"] 4 8 1 2 1 16 64 0 4532020583610935537 "silu" false false false "float32" DataType.Float32
    (mkHfRope 4666723172467343360 None hfNone).

Definition tensor (shape : list Z) : RawWeightView := mkWeight 4096 (4 * product shape) DataType.Float32 shape true true.
Definition layer : list (string * RawWeightView) :=
  [("model.layers.0.self_attn.q_proj.weight", tensor [4; 4]); ("model.layers.0.self_attn.k_proj.weight", tensor [2; 4]);
   ("model.layers.0.self_attn.v_proj.weight", tensor [2; 4]); ("model.layers.0.self_attn.o_proj.weight", tensor [4; 4]);
   ("model.layers.0.mlp.gate_proj.weight", tensor [8; 4]); ("model.layers.0.mlp.up_proj.weight", tensor [8; 4]);
   ("model.layers.0.mlp.down_proj.weight", tensor [4; 8]); ("model.layers.0.input_layernorm.weight", tensor [4]);
   ("model.layers.0.post_attention_layernorm.weight", tensor [4])].
Definition table : list (string * RawWeightView) :=
  [("lm_head.weight", tensor [16; 4]); ("model.norm.weight", tensor [4]); ("model.embed_tokens.weight", tensor [16; 4])] ++ layer.

Example config_accepted : ValidateConfig config default_validation = Ret tt.
Proof. vm_compute. reflexivity. Qed.
Example table_accepted : ValidateWeightSet config table default_validation = Ret tt.
Proof. vm_compute. reflexivity. Qed.
Example model_accepted : exists r, ResolveWeights config table = Ret r /\ ValidateResolvedModel config r default_validation = Ret tt.
Proof. eexists. split; [vm_compute; reflexivity|]. vm_compute. reflexivity. Qed.
Example missing_weight_rejected : ValidateWeightSet config (drop 1 table) default_validation =
  Fail (bad "Required weight 'lm_head.weight' is missing and tie_word_embeddings is false").
Proof. vm_compute. reflexivity. Qed.

Lemma table_repr : Forall (fun e => weight_repr e.2) table.
Proof. repeat constructor; cbn; unfold in_i, in_u; lia. Qed.
End TinyLlama.

Lemma validated_weights_resolve_witness :
  Forall (fun e => weight_repr e.2) TinyLlama.table /\ ValidateWeightSet TinyLlama.config TinyLlama.table default_validation = Ret tt /\
  exists r, ResolveWeights TinyLlama.config TinyLlama.table = Ret r /\ zlen (layers r) = 1.
Proof.
  split; [exact TinyLlama.table_repr|]. split; [exact TinyLlama.table_accepted|].
  destruct (validated_weights_resolve TinyLlama.config TinyLlama.table default_validation TinyLlama.table_repr TinyLlama.table_accepted)
    as (r & H1 & H2).
  exists r. split; [exact H1|exact (sm_layers _ _ _ _ H2)].
Defined.
