(* ===== verification/LlamaGraph.v ===== *)
(** * LlamaGraph: the graph of a dense Llama model

    [src/model/model_graph_builder.cpp]: [BuildLlamaDense] validates the configuration and
    the resolved weights, then adds the embedding, the decoder layers (attention block and
    MLP block), the final norm, the output projection and the argmax with the helpers of
    [GraphOpBuilder]. The source of fresh dimension symbols is the counter of
    [ShapeSymbol::Create]; identifiers of layers are [uint32_t]. *)
From S2P Require Import Prelude OverflowCheck ShapeSymbol ShapeConstraint Broadcast DataTypes OperatorSchema OperatorInference Graph Topology GraphInvariant GraphOpBuilder FloatFormat OpParamsSerde KernelRegistry Tensor Prepack HfModel.

(** ** Parts of the model *)

(* @src src/model/model_graph_builder.cpp:13-15 kAttentionBlockNodeCount *)
Definition kAttentionBlockNodeCount : nat := 9.
(* @src src/model/model_graph_builder.cpp:17-19 kMlpBlockNodeCount *)
Definition kMlpBlockNodeCount : nat := 6.

(* @src src/model/model_graph_builder.cpp:21-27 KVCacheTensorSpec *)
Definition KVCacheTensorSpec (d : DataType.t) (num_kv_heads : Z) (cache_len : ShapeSymbol) (hd : Z) : Res TensorSpec :=
  heads ← CreateFromValue num_kv_heads;
  dim ← CreateFromValue hd;
  Ret (mkSpec d (Some [heads; cache_len; dim])).

(* @src src/model/model_graph_builder.cpp:29-31 LayerPrefix *)
Definition LayerPrefix (layer : nat) : string := "layers." +:+ num layer +:+ ".".

(** Weights of a layer carry its prefix, the others must not. *)
Definition scoped (layer : option nat) (what name : string) : Res string :=
  match layer with
  | Some i => Ret (LayerPrefix i +:+ name)
  | None => Panic (what +:+ " weight must be layer-scoped")
  end.
Definition unscoped (layer : option nat) (what name : string) : Res string :=
  match layer with None => Ret name | Some _ => Panic (what +:+ " weight must not be layer-scoped") end.

(* @src src/model/model_graph_builder.cpp:33-76 WeightDebugName *)
Definition WeightDebugName (role : TransformerWeightRole.t) (layer : option nat) : Res string :=
  match role with
  | TransformerWeightRole.kTokenEmbedding => unscoped layer "Token embedding" "embed_tokens"
  | TransformerWeightRole.kInputNorm => scoped layer "Input norm" "input_layernorm"
  | TransformerWeightRole.kAttentionQ => scoped layer "Attention Q" "self_attn.q_proj"
  | TransformerWeightRole.kAttentionK => scoped layer "Attention K" "self_attn.k_proj"
  | TransformerWeightRole.kAttentionV => scoped layer "Attention V" "self_attn.v_proj"
  | TransformerWeightRole.kAttentionO => scoped layer "Attention O" "self_attn.o_proj"
  | TransformerWeightRole.kMlpGate => scoped layer "MLP gate" "mlp.gate_proj"
  | TransformerWeightRole.kMlpUp => scoped layer "MLP up" "mlp.up_proj"
  | TransformerWeightRole.kMlpDown => scoped layer "MLP down" "mlp.down_proj"
  | TransformerWeightRole.kPostAttentionNorm => scoped layer "Post-attention norm" "post_attention_layernorm"
  | TransformerWeightRole.kFinalNorm => unscoped layer "Final norm" "norm"
  | TransformerWeightRole.kLmHead => unscoped layer "LM head" "lm_head"
  | TransformerWeightRole.kMoERouter => scoped layer "MoE router" "mlp.router"
  end.

(* @src src/model/model_graph_builder.cpp:78-83 MakeTransformerWeightBinding *)
Definition MakeTransformerWeightBinding (layer : option nat) (role : TransformerWeightRole.t) : WeightBinding :=
  mkWeightBinding (SlotForTransformerRole role) layer (Some role).

(* @src src/model/model_graph_builder.cpp:85-89 AttentionBlockInput *)
Record AttentionBlockInput := mkBlockInput { blk_hidden : nat; blk_position_ids : nat; blk_cache : nat * nat }.
(* @src src/model/model_graph_builder.cpp:91-95 DecoderLayerParams *)
Record DecoderLayerParams := mkLayerParams { norm_eps : Z; rope_params : RoPEParams; attention_params : AttentionParams }.

(* @src src/model/model_graph_builder.cpp:97-131 MakeRoPEParams *)
Definition MakeRoPEParams (c : HfModelConfig) (hd : Z) : Res RoPEParams :=
  semantic_scaling_type ← match hf_scaling_type (rope c) with
    | hfNone => Ret kNone
    | hfLinear => Ret kLinear
    | t => Fail (bad ("ModelGraphBuilder::BuildLlamaDense: RoPE scaling_type '" +:+ scaling_to_string t +:+
        "' is not representable on the semantic graph surface; only kNone and kLinear are supported"))
    end;
  Ret (mkRoPE hd (cfg_attention_heads c) (cfg_key_value_heads c) (cfg_max_position_embeddings c) (hf_theta (rope c))
    (hf_scaling_factor (rope c)) semantic_scaling_type).

(** [static_cast<float>] of a double: the nearest float, ties to even. A NaN keeps the
    leading bits of its payload and becomes quiet. *)
Definition f32_of_f64 (x : Z) : Z :=
  match decode binary64 x with
  | Finite neg m e =>
      (if neg then fsign binary32 else 0) +
      (if m =? 0 then 0 else Z.min (encode binary32 (m * ppow 2 e) (ppow 2 (- e))) (finf binary32))
  | Infinite neg => (if neg then fsign binary32 else 0) + finf binary32
  | NaN neg => Z.lor ((if neg then fsign binary32 else 0) + finf binary32) (Z.lor (2 ^ 22) (Z.shiftr x 29 mod 2 ^ 22))
  end.

Section Build.
Context {OS : OperatorSemantics}.

(** The number of nodes when a block begins and the check when it ends. *)
Definition node_count : G nat := fun g => (Ret (length (nodes_ g)), g).
Definition block_check (begin count : nat) (msg : string) : G unit := fun g =>
  (am_check (length (nodes_ g) - begin =? count)%nat msg, g).

Definition first_dim (w : RawWeightView) : G Z := lift (vec_at (rw_shape w) 0).

(** A projection of the layer: the binding and the name come from the role. *)
Definition add_projection (layer : option nat) (input : nat) (w : RawWeightView) (role : TransformerWeightRole.t) : G nat :=
  out ← first_dim w;
  name ← lift (WeightDebugName role layer);
  AddLinear input out (rw_dtype w) (MakeTransformerWeightBinding layer role) name.
Definition add_norm (layer : option nat) (input : nat) (w : RawWeightView) (role : TransformerWeightRole.t) (eps : Z) : G nat :=
  name ← lift (WeightDebugName role layer);
  AddRmsNorm input (rw_dtype w) (MakeTransformerWeightBinding layer role) eps name.

(* @src src/model/model_graph_builder.cpp:133-222 BuildAttentionBlock *)
Definition BuildAttentionBlock (layer : nat) (input : AttentionBlockInput) (w : DecoderLayerRawWeights) (params : DecoderLayerParams) : G nat :=
  block_begin ← node_count;
  normed ← add_norm (Some layer) (blk_hidden input) (input_rmsnorm (layer_norm w)) TransformerWeightRole.kInputNorm (norm_eps params);
  q ← add_projection (Some layer) normed (q_proj (layer_attn w)) TransformerWeightRole.kAttentionQ;
  k ← add_projection (Some layer) normed (k_proj (layer_attn w)) TransformerWeightRole.kAttentionK;
  v ← add_projection (Some layer) normed (v_proj (layer_attn w)) TransformerWeightRole.kAttentionV;
  rotated ← AddRoPE (Some layer) q k (blk_position_ids input) (rope_params params) (LayerPrefix layer +:+ "self_attn.rotary_emb");
  cache_out ← AddKVCacheUpdate (Some layer) rotated.2 v (blk_cache input).1 (blk_cache input).2 (LayerPrefix layer +:+ "self_attn.kv_cache_update");
  attn ← AddAttention (Some layer) rotated.1 cache_out.1 cache_out.2 (attention_params params) (LayerPrefix layer +:+ "self_attn.attention");
  out ← add_projection (Some layer) attn (o_proj (layer_attn w)) TransformerWeightRole.kAttentionO;
  residual ← AddElementwiseAdd (Some layer) (blk_hidden input) out (LayerPrefix layer +:+ "post_attention_add");
  _ ← block_check block_begin kAttentionBlockNodeCount "Attention block node count changed unexpectedly";
  mret residual.

(* @src src/model/model_graph_builder.cpp:224-290 BuildMlpBlock *)
Definition BuildMlpBlock (layer : nat) (input : nat) (w : DecoderLayerRawWeights) (params : DecoderLayerParams) : G nat :=
  block_begin ← node_count;
  normed ← add_norm (Some layer) input (post_attn_rmsnorm (layer_norm w)) TransformerWeightRole.kPostAttentionNorm (norm_eps params);
  gate ← add_projection (Some layer) normed (gate_proj (layer_mlp w)) TransformerWeightRole.kMlpGate;
  up ← add_projection (Some layer) normed (up_proj (layer_mlp w)) TransformerWeightRole.kMlpUp;
  act ← AddSiluMul (Some layer) gate up (LayerPrefix layer +:+ "mlp.act");
  down ← add_projection (Some layer) act (down_proj (layer_mlp w)) TransformerWeightRole.kMlpDown;
  residual ← AddElementwiseAdd (Some layer) input down (LayerPrefix layer +:+ "mlp_add");
  _ ← block_check block_begin kMlpBlockNodeCount "MLP block node count changed unexpectedly";
  mret residual.

(* @src src/model/model_graph_builder.cpp:292-308 BuildDecoderLayer *)
Definition BuildDecoderLayer (w : DecoderLayerRawWeights) (params : DecoderLayerParams) (layer hidden position_ids : nat) (cache_in : nat * nat) : G nat :=
  attn ← BuildAttentionBlock layer (mkBlockInput hidden position_ids cache_in) w params;
  BuildMlpBlock layer attn w params.

(* @src src/model/model_graph_builder.cpp:310-320 ValidateInputs *)
Definition ValidateInputs (c : HfModelConfig) (w : ResolvedModelWeights) : Res unit :=
  _ ← ValidateConfig c (mkValidation false true true false false false false true);
  ValidateResolvedModel c w default_validation.

(* @src src/model/model_graph_builder.cpp:372-385 ModelGraphBuilder::BuildLlamaDense (one layer) *)
Definition add_layer (w : ResolvedModelWeights) (params : DecoderLayerParams) (cache_spec : TensorSpec) (position_ids : nat) (hidden i : nat) : G nat :=
  k_cache ← op_AddState cache_spec (KVCacheStateBinding i kKey) (LayerPrefix i +:+ "self_attn.k_cache");
  v_cache ← op_AddState cache_spec (KVCacheStateBinding i kValue) (LayerPrefix i +:+ "self_attn.v_cache");
  layer_weights ← lift (vec_at (layers w) i);
  BuildDecoderLayer layer_weights params i hidden position_ids (k_cache, v_cache).

(* @src src/model/model_graph_builder.cpp:371-386 ModelGraphBuilder::BuildLlamaDense (layers) *)
Fixpoint add_layers (w : ResolvedModelWeights) (params : DecoderLayerParams) (cache_spec : TensorSpec) (position_ids hidden : nat) (indices : list nat) : G nat :=
  match indices with
  | [] => mret hidden
  | i :: indices' => hidden' ← add_layer w params cache_spec position_ids hidden i; add_layers w params cache_spec position_ids hidden' indices'
  end.

Definition mark_output (v : nat) : G unit := fun g => (Ret tt, MarkOutput g v).

(** The part that changes the graph. *)
(* @src src/model/model_graph_builder.cpp:355-416 ModelGraphBuilder::BuildLlamaDense (graph) *)
Definition build_graph (c : HfModelConfig) (w : ResolvedModelWeights) (seq_len : ShapeSymbol) (cache_spec : TensorSpec) (params : DecoderLayerParams) : G unit :=
  input_tokens ← op_AddInput (mkSpec (DataType.Int 64) (Some [seq_len])) "token_ids";
  position_ids ← op_AddInput (mkSpec (DataType.Int 64) (Some [seq_len])) "position_ids";
  vocab ← first_dim (embed_tokens w);
  dim ← lift (vec_at (rw_shape (embed_tokens w)) 1);
  name ← lift (WeightDebugName TransformerWeightRole.kTokenEmbedding None);
  hidden ← AddEmbedding input_tokens vocab dim (rw_dtype (embed_tokens w))
    (MakeTransformerWeightBinding None TransformerWeightRole.kTokenEmbedding) name;
  hidden ← add_layers w params cache_spec position_ids hidden (seq 0 (Z.to_nat (u32 (num_hidden_layers c))));
  final_hidden ← add_norm None hidden (final_norm w) TransformerWeightRole.kFinalNorm (norm_eps params);
  logits ← add_projection None final_hidden (default (embed_tokens w) (lm_head w)) TransformerWeightRole.kLmHead;
  output_tokens ← AddArgmax None logits (-1) "argmax";
  mark_output output_tokens.

(* @src src/model/model_graph_builder.cpp:327-329 ModelGraphBuilder::BuildLlamaDense (act_dtype) *)
Definition act_dtype (c : HfModelConfig) : DataType.t :=
  if DataType.IsUndefined (weight_dtype_hint c) then DataType.Float32 else weight_dtype_hint c.
(* @src src/model/model_graph_builder.cpp:332-333 ModelGraphBuilder::BuildLlamaDense (head_dim) *)
Definition model_head_dim (c : HfModelConfig) : Z :=
  if negb (cfg_head_dim c =? 0) then cfg_head_dim c else Z.quot (hidden_size c) (cfg_attention_heads c).

(** Returns the graph and the next symbol the process will hand out. *)
(* @src src/model/model_graph_builder.cpp:324-419 ModelGraphBuilder::BuildLlamaDense *)
Definition BuildLlamaDense (next_symbol : Z) (c : HfModelConfig) (w : ResolvedModelWeights) : Res ModelGraph * Z :=
  match ValidateInputs c w with
  | Ret _ =>
      let '(seq_len, next_symbol) := Create next_symbol in
      let '(kv_len, next_symbol) := Create next_symbol in
      (rope ← MakeRoPEParams c (model_head_dim c);
       cache_spec ← KVCacheTensorSpec (act_dtype c) (cfg_key_value_heads c) kv_len (model_head_dim c);
       let params := mkLayerParams (f32_of_f64 (rms_norm_eps c)) rope
         (mkAttention (cfg_attention_heads c) (cfg_key_value_heads c) (model_head_dim c)) in
       let '(built, graph) := build_graph c w seq_len cache_spec params empty_graph in
       _ ← built;
       _ ← ValidateAndTopologicalOrder graph;
       Ret graph, next_symbol)
  | Fail e => (Fail e, next_symbol)
  | Panic m => (Panic m, next_symbol)
  end.
End Build.

(** ** Inference on the tensors of the model *)

(** The element types the builder can meet and those of the residual stream. *)
Definition dense_dtypes : list DataType.t := [DataType.Float32; DataType.Float 16; DataType.BFloat 16].
Definition residual_dtypes : list DataType.t := [DataType.Float32; DataType.BFloat 16].

(** Two-dimensional activations [sequence x features]. *)
Definition acts (d : DataType.t) (s h : Z) : TensorSpec := mkSpec d (Some [mkSym s; mkSym h]).

Lemma residual_dense d : d ∈ residual_dtypes -> d ∈ dense_dtypes.
Proof. unfold residual_dtypes, dense_dtypes. rewrite !elem_of_cons. tauto. Qed.

Ltac dtype_cases :=
  repeat match goal with
  | H : _ ∈ dense_dtypes |- _ => unfold dense_dtypes in H; rewrite !elem_of_cons, elem_of_nil in H
  | H : _ ∈ residual_dtypes |- _ => unfold residual_dtypes in H; rewrite !elem_of_cons, elem_of_nil in H
  end;
  repeat match goal with H : ?d = _ \/ _ |- _ => destruct H as [-> | H] | H : False |- _ => destruct H end.

Lemma self_proven v : v <> -1 -> AreProvablyEqual (mkSym v) (mkSym v) = true.
Proof.
  intros H. unfold AreProvablyEqual, IsUnknown, sym_eqb, kUnknown. cbn [value]. rewrite Z.eqb_refl.
  by rewrite (proj2 (Z.eqb_neq _ _) H).
Qed.

Lemma positive_static v : 0 < v -> static_nonpositive (mkSym v) = false /\ IsStatic (mkSym v) = true.
Proof. intros H. unfold static_nonpositive, IsStatic. cbn [value]. rewrite (proj2 (Z.leb_gt v 0)), (proj2 (Z.leb_le 0 v)) by lia. done. Qed.
Lemma symbolic_dynamic v : v < -1 -> IsStatic (mkSym v) = false.
Proof. intros H. unfold IsStatic. cbn [value]. apply Z.leb_gt. lia. Qed.

Lemma acts_self d s h : d ∈ dense_dtypes -> spec_equal (acts d s h) (acts d s h) = Ret true.
Proof. intros Hd. unfold spec_equal, acts. cbn [shape dtype]. rewrite bool_decide_true by reflexivity. dtype_cases; reflexivity. Qed.

Section Inference.
Context (d : DataType.t) (Hd : d ∈ dense_dtypes) (s : Z) (Hs : s < -1).

Lemma infer_linear dw h o : dw ∈ dense_dtypes -> 0 < h ->
  InferOperator OpType.kLinear LinearParams [acts d s h; mkSpec dw (Some [mkSym o; mkSym h])] = Ret (mkInference [acts d s o] []).
Proof using Hd.
  intros Hw Hh. unfold InferOperator, InferLinear, acts. cbn [shape dtype]. dtype_cases; vm_compute [ValidateInferenceInputCount]; cbn -[AreProvablyEqual reconcile];
    unfold reconcile; rewrite self_proven by lia; reflexivity.
Qed.

Lemma infer_norm dw h eps : dw ∈ dense_dtypes -> 0 < h -> f32_isfinite eps = true -> f32_le_zero eps = false ->
  InferOperator OpType.kRmsNorm (RmsNormParams eps) [acts d s h; mkSpec dw (Some [mkSym h])] = Ret (mkInference [acts d s h] []).
Proof using Hd.
  intros Hw Hh He1 He2. unfold InferOperator, InferRmsNorm, acts. rewrite He1, He2. cbn [shape dtype]. destruct (positive_static h Hh) as [E1 E2].
  dtype_cases; cbn -[AreProvablyEqual reconcile static_nonpositive IsStatic]; rewrite E1, E2; unfold reconcile; rewrite self_proven by lia; reflexivity.
Qed.

Lemma infer_embedding v h : 0 < v -> 0 < h ->
  InferOperator OpType.kEmbedding EmbeddingParams [mkSpec (DataType.Int 64) (Some [mkSym s]); mkSpec d (Some [mkSym v; mkSym h])] =
  Ret (mkInference [acts d s h] []).
Proof using Hd.
  intros Hv Hh. unfold InferOperator, InferEmbedding, acts. cbn [shape dtype]. destruct (positive_static h Hh) as [_ E1]. destruct (positive_static v Hv) as [_ E2].
  assert (embedding_weight_checks 0 [mkSym v; mkSym h] = Ret []) as E.
  { cbn -[IsStatic Z.leb]. rewrite E1, E2. cbn -[Z.leb]. by rewrite !(proj2 (Z.leb_gt _ 0)) by done. }
  dtype_cases; cbn -[embedding_weight_checks]; rewrite E; reflexivity.
Qed.

(** Rotation keeps the shapes. *)
Lemma infer_rope p q k : ValidateRoPEParams p = Ret tt -> ValidateRoPEScaling p = Ret tt ->
  q = rope_num_attention_heads p * rope_head_dim p -> k = rope_num_key_value_heads p * rope_head_dim p ->
  exists checks, InferOperator OpType.kRoPE (RoPEParams_ p) [acts d s q; acts d s k; mkSpec (DataType.Int 64) (Some [mkSym s])] =
    Ret (mkInference [acts d s q; acts d s k] checks).
Proof using Hd Hs.
  intros Hp Hsc -> ->. unfold InferOperator, InferRoPE, acts. rewrite Hp, Hsc. cbn [mbind res_mbind res_bind].
  eexists. assert (forall v, static_ne (mkSym v) v = false) as Hne by (intros v; unfold static_ne; cbn [value]; by rewrite Z.eqb_refl, andb_false_r).
  assert (static_nonpositive (mkSym s) = false) as Hn by (unfold static_nonpositive; by rewrite symbolic_dynamic by done).
  dtype_cases; cbn -[AreProvablyEqual reconcile static_nonpositive IsStatic static_ne]; rewrite !Hne, Hn; cbn -[AreProvablyEqual reconcile IsStatic];
    unfold reconcile; rewrite self_proven by lia; reflexivity.
Qed.

(** A cache of [heads] heads of width [w]. *)
Definition cache (heads t w : Z) : TensorSpec := mkSpec d (Some [mkSym heads; mkSym t; mkSym w]).

Lemma infer_cache heads t w : t < -1 -> 0 < heads -> 0 < w -> heads * w <= INT64_MAX ->
  InferOperator OpType.kKVCacheUpdate KVCacheUpdateParams [acts d s (heads * w); acts d s (heads * w); cache heads t w; cache heads t w] =
  Ret (mkInference [cache heads t w; cache heads t w] []).
Proof using Hd Hs.
  intros Ht Hh Hw Hm. unfold InferOperator, InferKVCacheUpdate.
  assert (ValidateKVCacheUpdateShapes (shape (acts d s (heads * w))) (shape (acts d s (heads * w))) (shape (cache heads t w)) (shape (cache heads t w)) = Ret tt) as E.
  { unfold ValidateKVCacheUpdateShapes, kvcache_dims, acts, cache. cbn [shape]. unfold provably_equal_dims. cbn [zip zip_with forallb fst snd].
    rewrite !self_proven by nia. destruct (positive_static heads Hh) as [A1 A2]. destruct (positive_static w Hw) as [B1 B2].
    assert (static_nonpositive (mkSym s) = false) as C1 by (unfold static_nonpositive; by rewrite symbolic_dynamic by done).
    assert (static_nonpositive (mkSym t) = false) as C2 by (unfold static_nonpositive; by rewrite symbolic_dynamic by done).
    rewrite C1, C2, A1, A2, B1, B2, (proj1 (positive_static (heads * w) ltac:(nia))), (symbolic_dynamic s Hs).
    cbn [negb orb andb value reject reject_if mbind res_mbind res_bind]. unfold mul_i64. rewrite !(proj2 (Z.leb_le _ _)) by (unfold INT64_MIN in *; nia).
    cbn [andb mbind res_mbind res_bind]. unfold static_ne. cbn [value]. by rewrite Z.eqb_refl, andb_false_r. }
  cbn [length]. unfold ValidateInferenceInputCount. cbn [GetOperatorSchema]. 
  assert (ValidateKVCacheUpdateDTypes (acts d s (heads * w)) (acts d s (heads * w)) (cache heads t w) (cache heads t w) = Ret tt) as E2.
  { unfold ValidateKVCacheUpdateDTypes, acts, cache. cbn [dtype]. dtype_cases; reflexivity. }
  cbn -[ValidateKVCacheUpdateDTypes ValidateKVCacheUpdateShapes acts cache]. rewrite E2. cbn [mbind res_mbind res_bind]. by rewrite E.
Qed.

Lemma infer_attention p t q : ValidateAttentionParams p = Ret tt -> t < -1 -> 0 < num_key_value_heads p -> 0 < head_dim p ->
  q = num_attention_heads p * head_dim p ->
  exists checks, InferOperator OpType.kAttention (AttentionParams_ p)
    [acts d s q; cache (num_key_value_heads p) t (head_dim p); cache (num_key_value_heads p) t (head_dim p)] = Ret (mkInference [acts d s q] checks).
Proof using Hd Hs.
  intros Hp Ht Hk Hh ->. unfold InferOperator, InferAttention. rewrite Hp. cbn [mbind res_mbind res_bind].
  set (c := cache (num_key_value_heads p) t (head_dim p)). set (a := acts d s (num_attention_heads p * head_dim p)).
  assert (exists checks, ValidateAttentionShapes p (shape a) (shape c) (shape c) = Ret checks) as [checks E].
  { unfold ValidateAttentionShapes, c, a, acts, cache. cbn [shape]. unfold provably_equal_dims. cbn [zip zip_with forallb fst snd].
    rewrite !self_proven by lia. unfold static_nonpositive, static_ne. rewrite !(symbolic_dynamic s), !(symbolic_dynamic t) by done. cbn [value].
    rewrite !Z.eqb_refl, !andb_false_r. cbn [negb andb orb reject reject_if mbind res_mbind res_bind]. by eexists. }
  assert (ValidateAttentionDTypes a c c = Ret tt) as E2 by (unfold ValidateAttentionDTypes, c, a, acts, cache; cbn [dtype]; dtype_cases; reflexivity).
  exists checks. cbn -[ValidateAttentionDTypes ValidateAttentionShapes a c]. rewrite E2. cbn [mbind res_mbind res_bind]. by rewrite E.
Qed.

Lemma broadcast_self h : 0 < h -> InferBroadcastShape (Some [mkSym s; mkSym h]) (Some [mkSym s; mkSym h]) =
  Ret (mkBroadcast (Some [mkSym s; mkSym h]) []).
Proof using Hs.
  intros Hh. unfold InferBroadcastShape. cbn -[infer_explicit]. unfold infer_explicit. rewrite !self_proven by lia. reflexivity.
Qed.

Lemma infer_add h : d ∈ residual_dtypes -> 0 < h -> InferOperator OpType.kAdd AddParams [acts d s h; acts d s h] = Ret (mkInference [acts d s h] []).
Proof using Hs.
  intros Hr Hh. unfold InferOperator, InferAdd, acts. clear Hd. dtype_cases; cbn -[InferBroadcastShape]; rewrite broadcast_self by done; reflexivity.
Qed.

Lemma infer_silu_mul h : 0 < h -> InferOperator OpType.kSiluMul SiluMulParams [acts d s h; acts d s h] = Ret (mkInference [acts d s h] []).
Proof using Hd Hs.
  intros Hh. unfold InferOperator, InferSiluMul, acts. dtype_cases; cbn -[InferBroadcastShape]; rewrite broadcast_self by done; reflexivity.
Qed.

Lemma infer_argmax v : InferOperator OpType.kArgmax (ArgmaxParams (-1)) [acts d s v] = Ret (mkInference [mkSpec (DataType.Int 64) (Some [mkSym s])] []).
Proof using Hd. unfold InferOperator, InferArgmax, acts. dtype_cases; reflexivity. Qed.
End Inference.

(** ** What each helper appends *)

(** A graph under construction with [n] values and [m] nodes. *)
Record stage (g : ModelGraph) (n m : nat) : Prop := {
  st_good : good g; st_values : length (values_ g) = n; st_nodes : length (nodes_ g) = m }.

(** Room for a graph of [n] values and [m] nodes. *)
Definition fits (n m : nat) : Prop := Z.of_nat n <= UINT32_MAX /\ Z.of_nat m <= UINT32_MAX.

Lemma stage_room g n m n' m' : stage g n m -> fits (n' + n) (m' + m) -> room g (Z.of_nat n') (Z.of_nat m').
Proof. intros [_ H1 H2] [H3 H4]. unfold room, zlen. lia. Qed.

Lemma grows_stage g g' n m infos sums : stage g n m -> grows g g' infos sums -> stage g' (length infos + n) (length sums + m).
Proof. intros [_ H1 H2] H. destruct (grows_length _ _ _ _ H) as [L1 L2]. split; [by destruct H|lia|lia]. Qed.

(** [m] runs from [g], returns [a] and appends. *)
Definition adds {A} (m : G A) (g : ModelGraph) (a : A) (infos : list info) (sums : list (OpType.t * option nat * list nat * list nat * OpParams)) (g' : ModelGraph) : Prop :=
  m g = (Ret a, g') /\ grows g g' infos sums.

Lemma bind_run {A B} (m : G A) (k : A -> G B) g a g' r : m g = (Ret a, g') -> k a g' = r -> (m ≫= k) g = r.
Proof. intros H <-. unfold mbind, exec_mbind, exec_bind. by rewrite H. Qed.

Lemma lift_run {A} (m : Res A) (g : ModelGraph) a : m = Ret a -> lift m g = (Ret a, g).
Proof. by intros ->. Qed.

Lemma has_get g id p sp : has g id (p, sp) -> exists v, get_value id g = (Ret v, g) /\ payload v = p /\ spec v = sp.
Proof. intros (v & Hv & Hp & Hs)%has_lookup. exists v. unfold get_value, GetValue. by rewrite Hv. Qed.

Lemma binding_consistent role layer name : WeightDebugName role layer = Ret name ->
  ValidateWeightBindingSelfConsistency (MakeTransformerWeightBinding layer role) = Ret tt.
Proof. destruct role, layer; try discriminate; reflexivity. Qed.

Lemma positive_if_static v : 0 < v -> IsPositiveIfStatic (mkSym v) = true.
Proof. intros H. unfold IsPositiveIfStatic, IsStatic. cbn [value]. by rewrite (proj2 (Z.ltb_lt 0 v) H), orb_true_r. Qed.

Lemma linear_accepted role layer name s1 s2 : WeightDebugName role layer = Ret name -> SlotForTransformerRole role = ParameterSlot.kKernel ->
  exists schema, accepts OpType.kLinear layer [(ActivationValue, s1); (WeightValue (MakeTransformerWeightBinding layer role), s2)] [ActivationOutput] = Ret schema.
Proof. destruct role, layer; try discriminate; intros _ _; eexists; reflexivity. Qed.

Lemma norm_accepted role layer name s1 s2 : WeightDebugName role layer = Ret name -> SlotForTransformerRole role = ParameterSlot.kScale ->
  exists schema, accepts OpType.kRmsNorm layer [(ActivationValue, s1); (WeightValue (MakeTransformerWeightBinding layer role), s2)] [ActivationOutput] = Ret schema.
Proof. destruct role, layer; try discriminate; intros _ _; eexists; reflexivity. Qed.


Lemma res_run {A B} (m : Res A) (k : A -> Res B) a r : m = Ret a -> k a = r -> (m ≫= k) = r.
Proof. by intros -> <-. Qed.

Lemma same_state_output b i slot m1 m2 layer : b !! i = Some (Some (KVCacheStateBinding layer slot)) ->
  check_state_output b i (KVCacheStateBinding layer slot) slot m1 m2 = Ret tt.
Proof.
  intros H. unfold check_state_output. rewrite H. unfold RequireStateSlot, SameStateFamily. rewrite (bool_decide_false (slot <> slot)) by (intros HH; by apply HH).
  by rewrite bool_decide_true by reflexivity.
Qed.

Lemma state_run g id b sp msg : has g id (StateValue b, sp) -> state_of id msg g = (Ret b, g).
Proof. intros (v & Hv & Hp & _)%has_get. unfold state_of. eapply bind_run; [exact Hv|]. by rewrite Hp. Qed.

Lemma dense_self d : d ∈ dense_dtypes -> DataType.equal d d = Ret true.
Proof. intros Hd. dtype_cases; reflexivity. Qed.

(** A weight and the operator that uses it. *)
Lemma weighted_adds g n m o layer input i wspec b name p schema out checks : stage g n m -> fits (2 + n) (1 + m) ->
  ValidateWeightBindingSelfConsistency b = Ret tt -> has g input i ->
  accepts o layer [i; (WeightValue b, wspec)] [ActivationOutput] = Ret schema -> InferOp o p [i.2; wspec] = Ret (mkInference [out] checks) ->
  spec_equal out out = Ret true ->
  exists g', adds (weight ← add_weight wspec b name; single (add_node o layer [input; weight] [ActivationOutput] p name)) g (1 + n)%nat
    [(WeightValue b, wspec); (ActivationValue, out)] [(o, layer, [input; n], [(1 + n)%nat], p)] g'.
Proof.
  intros Hst [Hf1 Hf2] Hb Hin Hacc Hinf Hself. destruct Hst as [Hg Hn Hm].
  destruct (weight_grows g wspec b name Hg) as (g1 & E1 & G1); [unfold room, zlen; lia|done|].
  pose proof (grows_stage g g1 n m _ _ ltac:(by split) G1) as [Hg1 Hn1 Hm1]. cbn [length Nat.add] in Hn1, Hm1.
  assert (Forall2 (has g1) [input; n] [i; (WeightValue b, wspec)]) as Hins.
  { pose proof (grows_new _ _ _ _ 0 _ G1 eq_refl) as HN. rewrite Nat.add_0_r, Hn in HN. pose proof (grows_has _ _ _ _ _ _ G1 Hin). by repeat constructor. }
  destruct (single_grows g1 o layer [input; n] p name _ schema out checks "" Hg1 ltac:(unfold room, zlen; lia) Hins Hacc Hinf Hself) as (g2 & E2 & G2).
  exists g2. rewrite Hn in E1. rewrite Hn1 in E2, G2. split; [|exact (grows_trans _ _ _ _ _ _ _ G1 G2)].
  eapply bind_run; [exact E1|exact E2].
Qed.

(** An operator on activations alone. *)
Lemma plain_adds g n m o layer ins infos name dn p schema out checks : stage g n m -> fits (1 + n) (1 + m) ->
  Forall2 (has g) ins infos -> accepts o layer infos [mkOutputDesc ActivationValue default_quant dn] = Ret schema ->
  InferOp o p (infos.*2) = Ret (mkInference [out] checks) -> spec_equal out out = Ret true ->
  exists g', adds (single (add_node o layer ins [mkOutputDesc ActivationValue default_quant dn] p name)) g n
    [(ActivationValue, out)] [(o, layer, ins, [n], p)] g'.
Proof.
  intros Hst [Hf1 Hf2] Hins Hacc Hinf Hself. destruct Hst as [Hg Hn Hm].
  destruct (single_grows g o layer ins p name infos schema out checks dn Hg ltac:(unfold room, zlen; lia) Hins Hacc Hinf Hself) as (g' & E & HG).
  exists g'. rewrite Hn in E, HG. by split.
Qed.

(** Two outputs. *)
Lemma pair_adds g n m o layer ins infos d1 d2 what name p schema o1 o2 checks : stage g n m -> fits (2 + n) (1 + m) ->
  Forall2 (has g) ins infos -> accepts o layer infos [d1; d2] = Ret schema ->
  InferOp o p (infos.*2) = Ret (mkInference [o1; o2] checks) -> spec_equal o1 o1 = Ret true -> spec_equal o2 o2 = Ret true ->
  (forall b, desc_payload d1 <> ConstantValue b) -> (forall b, desc_payload d2 <> ConstantValue b) ->
  exists g', adds (pair_of what (add_node o layer ins [d1; d2] p name)) g (n, 1 + n)%nat
    [out_info d1 o1; out_info d2 o2] [(o, layer, ins, [n; (1 + n)%nat], p)] g'.
Proof.
  intros Hst [Hf1 Hf2] Hins Hacc Hinf H1 H2 C1 C2. destruct Hst as [Hg Hn Hm].
  destruct (AddNode_grows_good g o layer ins [d1; d2] p name infos schema _ Hg ltac:(unfold room, zlen; cbn [length]; lia) ltac:(done) Hins Hacc Hinf) as (g' & E & HG);
    [by repeat constructor..|].
  exists g'. rewrite Hn in E, HG. split; [|exact HG]. unfold pair_of. eapply bind_run; [exact E|done].
Qed.

Lemma stage_state_adds g n m spec b name : stage g n m -> fits (1 + n) m ->
  exists g', adds (op_AddState spec b name) g n [(StateValue b, spec)] [] g'.
Proof.
  intros [Hg Hn Hm] [Hf1 Hf2]. destruct (state_grows g spec b name Hg) as (g' & E & HG); [unfold room, zlen; lia|destruct b as [? []| |]; reflexivity|].
  exists g'. rewrite Hn in E. by split.
Qed.

Section Steps.
Context (d : DataType.t) (Hd : d ∈ residual_dtypes) (s t : Z) (Hs : s < -1) (Ht : t < -1).
Let Hdense : d ∈ dense_dtypes := residual_dense d Hd.

(** A projection: its weight, then its output. *)
Lemma projection_adds g n m layer input w role name h o rest : stage g n m -> fits (2 + n) (1 + m) ->
  WeightDebugName role layer = Ret name -> SlotForTransformerRole role = ParameterSlot.kKernel ->
  rw_shape w = o :: rest -> rw_dtype w ∈ dense_dtypes -> 0 < h -> 0 < o -> has g input (ActivationValue, acts d s h) ->
  exists g', adds (add_projection layer input w role) g (1 + n)%nat
    [(WeightValue (MakeTransformerWeightBinding layer role), mkSpec (rw_dtype w) (Some [mkSym o; mkSym h])); (ActivationValue, acts d s o)]
    [(OpType.kLinear, layer, [input; n], [(1 + n)%nat], LinearParams)] g'.
Proof using Hd Hdense.
  intros Hst Hf Hname Hslot Hsh Hw Hh Ho Hin. destruct (has_get _ _ _ _ Hin) as (v & Hv & _ & Hspec).
  destruct (linear_accepted role layer name (acts d s h) (mkSpec (rw_dtype w) (Some [mkSym o; mkSym h])) Hname Hslot) as [schema Hacc].
  destruct (weighted_adds g n m OpType.kLinear layer input _ _ _ name LinearParams schema (acts d s o) [] Hst Hf (binding_consistent _ _ _ Hname) Hin Hacc
    (infer_linear d Hdense s _ h o Hw Hh) (acts_self d s o Hdense)) as (g' & E & HG).
  exists g'. split; [|exact HG]. unfold add_projection. eapply bind_run; [apply lift_run; unfold first_dim; by rewrite Hsh|].
  eapply bind_run; [apply lift_run; exact Hname|]. unfold AddLinear. rewrite (proj2 (Z.leb_gt o 0)) by done.
  eapply bind_run; [done|]. eapply bind_run; [exact Hv|]. rewrite Hspec. unfold acts. cbn [shape last].
  rewrite positive_if_static by done. eapply bind_run; [done|]. unfold CreateFromValue. rewrite (proj2 (Z.leb_le 0 o)) by lia.
  eapply bind_run; [done|]. exact E.
Qed.

(** A norm: its scale, then its output. *)
Lemma norm_adds g n m layer input w role name h eps : stage g n m -> fits (2 + n) (1 + m) ->
  WeightDebugName role layer = Ret name -> SlotForTransformerRole role = ParameterSlot.kScale ->
  rw_dtype w ∈ dense_dtypes -> 0 < h -> f32_isfinite eps = true -> f32_le_zero eps = false -> has g input (ActivationValue, acts d s h) ->
  exists g', adds (add_norm layer input w role eps) g (1 + n)%nat
    [(WeightValue (MakeTransformerWeightBinding layer role), mkSpec (rw_dtype w) (Some [mkSym h])); (ActivationValue, acts d s h)]
    [(OpType.kRmsNorm, layer, [input; n], [(1 + n)%nat], RmsNormParams eps)] g'.
Proof using Hd Hdense.
  intros Hst Hf Hname Hslot Hw Hh He1 He2 Hin. destruct (has_get _ _ _ _ Hin) as (v & Hv & _ & Hspec).
  destruct (norm_accepted role layer name (acts d s h) (mkSpec (rw_dtype w) (Some [mkSym h])) Hname Hslot) as [schema Hacc].
  destruct (weighted_adds g n m OpType.kRmsNorm layer input _ _ _ name (RmsNormParams eps) schema (acts d s h) [] Hst Hf (binding_consistent _ _ _ Hname) Hin Hacc
    (infer_norm d Hdense s _ h eps Hw Hh He1 He2) (acts_self d s h Hdense)) as (g' & E & HG).
  exists g'. split; [|exact HG]. unfold add_norm. eapply bind_run; [apply lift_run; exact Hname|]. unfold AddRmsNorm.
  eapply bind_run; [exact Hv|]. rewrite Hspec. unfold acts. cbn [shape last].
  rewrite positive_if_static by done. eapply bind_run; [done|]. exact E.
Qed.

Lemma embedding_adds g n m input v h name : stage g n m -> fits (2 + n) (1 + m) -> 0 < v -> 0 < h ->
  has g input (ModelInputValue, mkSpec (DataType.Int 64) (Some [mkSym s])) ->
  exists g', adds (AddEmbedding input v h d (MakeTransformerWeightBinding None TransformerWeightRole.kTokenEmbedding) name) g (1 + n)%nat
    [(WeightValue (MakeTransformerWeightBinding None TransformerWeightRole.kTokenEmbedding), mkSpec d (Some [mkSym v; mkSym h])); (ActivationValue, acts d s h)]
    [(OpType.kEmbedding, None, [input; n], [(1 + n)%nat], EmbeddingParams)] g'.
Proof using Hd Hdense.
  intros Hst Hf Hv Hh Hin. destruct (has_get _ _ _ _ Hin) as (x & Hx & _ & Hspec).
  destruct (weighted_adds g n m OpType.kEmbedding None input _ (mkSpec d (Some [mkSym v; mkSym h])) (MakeTransformerWeightBinding None TransformerWeightRole.kTokenEmbedding)
    name EmbeddingParams _ (acts d s h) [] Hst Hf eq_refl Hin eq_refl (infer_embedding d Hdense s v h Hv Hh) (acts_self d s h Hdense)) as (g' & E & HG).
  exists g'. split; [|exact HG]. unfold AddEmbedding. rewrite (proj2 (Z.leb_gt v 0)), (proj2 (Z.leb_gt h 0)) by done. eapply bind_run; [done|]. eapply bind_run; [done|].
  eapply bind_run; [exact Hx|]. rewrite Hspec. eapply bind_run; [done|]. unfold CreateFromValue. rewrite !(proj2 (Z.leb_le 0 _)) by lia.
  eapply bind_run; [done|]. eapply bind_run; [done|]. exact E.
Qed.

Lemma rope_adds g n m layer q k pos p hq hk name : stage g n m -> fits (2 + n) (1 + m) ->
  ValidateRoPEParams p = Ret tt -> ValidateRoPEScaling p = Ret tt ->
  hq = rope_num_attention_heads p * rope_head_dim p -> hk = rope_num_key_value_heads p * rope_head_dim p ->
  has g q (ActivationValue, acts d s hq) -> has g k (ActivationValue, acts d s hk) -> has g pos (ModelInputValue, mkSpec (DataType.Int 64) (Some [mkSym s])) ->
  exists g', adds (AddRoPE (Some layer) q k pos p name) g (n, 1 + n)%nat
    [(ActivationValue, acts d s hq); (ActivationValue, acts d s hk)] [(OpType.kRoPE, Some layer, [q; k; pos], [n; (1 + n)%nat], RoPEParams_ p)] g'.
Proof using Hd Hdense Hs.
  intros Hst Hf Hp Hsc Hq Hk H1 H2 H3. destruct (infer_rope d Hdense s Hs p hq hk Hp Hsc Hq Hk) as [checks Hinf].
  eapply pair_adds with (infos := [(ActivationValue, acts d s hq); (ActivationValue, acts d s hk); (ModelInputValue, mkSpec (DataType.Int 64) (Some [mkSym s]))]);
    [done|done|by repeat constructor|reflexivity|exact Hinf|by apply acts_self|by apply acts_self|done|done].
Qed.

(** The caches of a layer. *)
Definition key_cache (layer : nat) (spec : TensorSpec) : info := (StateValue (KVCacheStateBinding layer kKey), spec).
Definition value_cache (layer : nat) (spec : TensorSpec) : info := (StateValue (KVCacheStateBinding layer kValue), spec).

Lemma cache_self heads w : spec_equal (cache d heads t w) (cache d heads t w) = Ret true.
Proof using Hd Hdense. unfold spec_equal, cache. cbn [shape dtype]. rewrite bool_decide_true by reflexivity. clear Hdense. dtype_cases; reflexivity. Qed.

Lemma cache_accepted layer s1 s2 s3 s4 : exists schema, accepts OpType.kKVCacheUpdate (Some layer)
  [(ActivationValue, s1); (ActivationValue, s2); key_cache layer s3; value_cache layer s4]
  [mkOutputDesc (StateValue (KVCacheStateBinding layer kKey)) default_quant ""; mkOutputDesc (StateValue (KVCacheStateBinding layer kValue)) default_quant ""] = Ret schema.
Proof using.
  eexists. unfold accepts. eapply res_run; [reflexivity|]. eapply res_run; [reflexivity|]. eapply res_run; [|reflexivity]. unfold ValidateAddNodeBindings.
  eapply res_run; [reflexivity|]. unfold ValidateStateBindingsForNode. do 5 (eapply res_run; [reflexivity|]).
  eapply res_run; [reflexivity|]. eapply res_run; [cbn; by rewrite Nat.eqb_refl|]. eapply res_run; [by apply same_state_output|].
  eapply res_run; [reflexivity|]. eapply res_run; [reflexivity|]. eapply res_run; [cbn; by rewrite Nat.eqb_refl|].
  eapply res_run; [unfold RequireStateCollection; cbn; by rewrite Nat.eqb_refl|]. by apply same_state_output.
Qed.

Lemma attention_accepted layer s1 s2 s3 : exists schema, accepts OpType.kAttention (Some layer)
  [(ActivationValue, s1); key_cache layer s2; value_cache layer s3] [ActivationOutput] = Ret schema.
Proof using.
  eexists. unfold accepts. eapply res_run; [reflexivity|]. eapply res_run; [reflexivity|]. eapply res_run; [|reflexivity]. unfold ValidateAddNodeBindings.
  eapply res_run; [reflexivity|]. unfold ValidateStateBindingsForNode. do 6 (eapply res_run; [reflexivity|]).
  do 2 (eapply res_run; [cbn; by rewrite Nat.eqb_refl|]). unfold RequireStateCollection. cbn. by rewrite Nat.eqb_refl.
Qed.

Lemma update_adds g n m layer k v kc vc heads w name : stage g n m -> fits (2 + n) (1 + m) ->
  0 < heads -> 0 < w -> heads * w <= INT64_MAX ->
  has g k (ActivationValue, acts d s (heads * w)) -> has g v (ActivationValue, acts d s (heads * w)) ->
  has g kc (key_cache layer (cache d heads t w)) -> has g vc (value_cache layer (cache d heads t w)) ->
  exists g', adds (AddKVCacheUpdate (Some layer) k v kc vc name) g (n, 1 + n)%nat
    [key_cache layer (cache d heads t w); value_cache layer (cache d heads t w)]
    [(OpType.kKVCacheUpdate, Some layer, [k; v; kc; vc], [n; (1 + n)%nat], KVCacheUpdateParams)] g'.
Proof using Hd Hdense Hs Ht.
  intros Hst Hf Hh Hw Hm H1 H2 H3 H4. destruct (cache_accepted layer (acts d s (heads * w)) (acts d s (heads * w)) (cache d heads t w) (cache d heads t w)) as [schema Hacc].
  destruct (pair_adds g n m OpType.kKVCacheUpdate (Some layer) [k; v; kc; vc] _ _ _ "KV cache update" name KVCacheUpdateParams schema _ _ [] Hst Hf
    ltac:(repeat constructor; [exact H1|exact H2|exact H3|exact H4]) Hacc (infer_cache d Hdense s Hs heads t w Ht Hh Hw Hm) (cache_self heads w) (cache_self heads w)) as (g' & E & HG); [done|done|].
  exists g'. split; [|exact HG]. unfold AddKVCacheUpdate. eapply bind_run; [exact (state_run _ _ _ _ _ H3)|]. eapply bind_run; [exact (state_run _ _ _ _ _ H4)|]. exact E.
Qed.

Lemma attention_adds g n m layer q kc vc p hq name : stage g n m -> fits (1 + n) (1 + m) ->
  ValidateAttentionParams p = Ret tt -> 0 < num_key_value_heads p -> 0 < head_dim p -> hq = num_attention_heads p * head_dim p ->
  has g q (ActivationValue, acts d s hq) -> has g kc (key_cache layer (cache d (num_key_value_heads p) t (head_dim p))) ->
  has g vc (value_cache layer (cache d (num_key_value_heads p) t (head_dim p))) ->
  exists g', adds (AddAttention (Some layer) q kc vc p name) g n [(ActivationValue, acts d s hq)]
    [(OpType.kAttention, Some layer, [q; kc; vc], [n], AttentionParams_ p)] g'.
Proof using Hd Hdense Hs Ht.
  intros Hst Hf Hp Hk Hh Hq H1 H2 H3. destruct (infer_attention d Hdense s Hs p t hq Hp Ht Hk Hh Hq) as [checks Hinf].
  destruct (attention_accepted layer (acts d s hq) (cache d (num_key_value_heads p) t (head_dim p)) (cache d (num_key_value_heads p) t (head_dim p))) as [schema Hacc].
  eapply plain_adds; [exact Hst|exact Hf| |exact Hacc|exact Hinf|by apply acts_self]. repeat constructor; [exact H1|exact H2|exact H3].
Qed.

Lemma add_adds g n m layer a b h name : stage g n m -> fits (1 + n) (1 + m) -> 0 < h ->
  has g a (ActivationValue, acts d s h) -> has g b (ActivationValue, acts d s h) ->
  exists g', adds (AddElementwiseAdd (Some layer) a b name) g n [(ActivationValue, acts d s h)] [(OpType.kAdd, Some layer, [a; b], [n], AddParams)] g'.
Proof using Hd Hdense Hs.
  intros Hst Hf Hh H1 H2. destruct (has_get _ _ _ _ H1) as (x & Hx & _ & Sx). destruct (has_get _ _ _ _ H2) as (y & Hy & _ & Sy).
  destruct (plain_adds g n m OpType.kAdd (Some layer) [a; b] [(ActivationValue, acts d s h); (ActivationValue, acts d s h)] name "" AddParams _ (acts d s h) []
    Hst Hf ltac:(by repeat constructor) eq_refl (infer_add d s Hs h Hd Hh) (acts_self d s h Hdense)) as (g' & E & HG).
  exists g'. split; [|exact HG]. unfold AddElementwiseAdd. eapply bind_run; [exact Hx|]. eapply bind_run; [exact Hy|]. rewrite Sx, Sy.
  eapply bind_run; [apply lift_run; apply (dense_self d Hdense)|]. eapply bind_run; [done|]. exact E.
Qed.

Lemma silu_mul_adds g n m layer a b h name : stage g n m -> fits (1 + n) (1 + m) -> 0 < h ->
  has g a (ActivationValue, acts d s h) -> has g b (ActivationValue, acts d s h) ->
  exists g', adds (AddSiluMul (Some layer) a b name) g n [(ActivationValue, acts d s h)] [(OpType.kSiluMul, Some layer, [a; b], [n], SiluMulParams)] g'.
Proof using Hd Hdense Hs.
  intros Hst Hf Hh H1 H2. destruct (has_get _ _ _ _ H1) as (x & Hx & _ & Sx). destruct (has_get _ _ _ _ H2) as (y & Hy & _ & Sy).
  destruct (plain_adds g n m OpType.kSiluMul (Some layer) [a; b] [(ActivationValue, acts d s h); (ActivationValue, acts d s h)] name "" SiluMulParams _ (acts d s h) []
    Hst Hf ltac:(by repeat constructor) eq_refl (infer_silu_mul d Hdense s Hs h Hh) (acts_self d s h Hdense)) as (g' & E & HG).
  exists g'. split; [|exact HG]. unfold AddSiluMul. eapply bind_run; [exact Hx|]. eapply bind_run; [exact Hy|]. rewrite Sx, Sy.
  eapply bind_run; [apply lift_run; by apply acts_self|]. eapply bind_run; [done|]. exact E.
Qed.

Lemma argmax_adds g n m input v name : stage g n m -> fits (1 + n) (1 + m) -> has g input (ActivationValue, acts d s v) ->
  exists g', adds (AddArgmax None input (-1) name) g n [(ActivationValue, mkSpec (DataType.Int 64) (Some [mkSym s]))]
    [(OpType.kArgmax, None, [input], [n], ArgmaxParams (-1))] g'.
Proof using Hd Hdense.
  intros Hst Hf H1. eapply plain_adds with (infos := [(ActivationValue, acts d s v)]); [done|done|by repeat constructor|reflexivity|by apply infer_argmax|].
  unfold spec_equal. cbn [shape dtype]. by rewrite bool_decide_true by reflexivity.
Qed.
End Steps.

(** ** The plan of the model *)

(** Dimensions of a decoder layer. *)
Record Dims := mkDims { d_hidden : Z; d_inter : Z; d_heads : Z; d_kv_heads : Z; d_width : Z }.
Definition kv_dim (x : Dims) : Z := d_kv_heads x * d_width x.

Section Plan.
Context (d : DataType.t) (s t : Z) (x : Dims) (params : DecoderLayerParams).

(** The scale of a norm, the matrix of a projection. *)
Definition scale_of (layer : option nat) (role : TransformerWeightRole.t) (w : RawWeightView) (h : Z) : info :=
  (WeightValue (MakeTransformerWeightBinding layer role), mkSpec (rw_dtype w) (Some [mkSym h])).
Definition matrix_of (layer : option nat) (role : TransformerWeightRole.t) (w : RawWeightView) (o h : Z) : info :=
  (WeightValue (MakeTransformerWeightBinding layer role), mkSpec (rw_dtype w) (Some [mkSym o; mkSym h])).
Definition act (h : Z) : info := (ActivationValue, acts d s h).
Definition layer_cache : TensorSpec := cache d (d_kv_heads x) t (d_width x).

Definition attention_values (i : nat) (l : DecoderLayerRawWeights) : list info :=
  [scale_of (Some i) TransformerWeightRole.kInputNorm (input_rmsnorm (layer_norm l)) (d_hidden x); act (d_hidden x);
   matrix_of (Some i) TransformerWeightRole.kAttentionQ (q_proj (layer_attn l)) (d_hidden x) (d_hidden x); act (d_hidden x);
   matrix_of (Some i) TransformerWeightRole.kAttentionK (k_proj (layer_attn l)) (kv_dim x) (d_hidden x); act (kv_dim x);
   matrix_of (Some i) TransformerWeightRole.kAttentionV (v_proj (layer_attn l)) (kv_dim x) (d_hidden x); act (kv_dim x);
   act (d_hidden x); act (kv_dim x); key_cache i layer_cache; value_cache i layer_cache; act (d_hidden x);
   matrix_of (Some i) TransformerWeightRole.kAttentionO (o_proj (layer_attn l)) (d_hidden x) (d_hidden x); act (d_hidden x); act (d_hidden x)].

(** Values are numbered from [n] on. *)
Definition attention_nodes (i hidden pos kc vc n : nat) : list (OpType.t * option nat * list nat * list nat * OpParams) :=
  [(OpType.kRmsNorm, Some i, [hidden; n], [1 + n], RmsNormParams (norm_eps params));
   (OpType.kLinear, Some i, [1 + n; 2 + n], [3 + n], LinearParams);
   (OpType.kLinear, Some i, [1 + n; 4 + n], [5 + n], LinearParams);
   (OpType.kLinear, Some i, [1 + n; 6 + n], [7 + n], LinearParams);
   (OpType.kRoPE, Some i, [3 + n; 5 + n; pos], [8 + n; 9 + n], RoPEParams_ (rope_params params));
   (OpType.kKVCacheUpdate, Some i, [9 + n; 7 + n; kc; vc], [10 + n; 11 + n], KVCacheUpdateParams);
   (OpType.kAttention, Some i, [8 + n; 10 + n; 11 + n], [12 + n], AttentionParams_ (attention_params params));
   (OpType.kLinear, Some i, [12 + n; 13 + n], [14 + n], LinearParams);
   (OpType.kAdd, Some i, [hidden; 14 + n], [15 + n], AddParams)]%nat.

Definition mlp_values (i : nat) (l : DecoderLayerRawWeights) : list info :=
  [scale_of (Some i) TransformerWeightRole.kPostAttentionNorm (post_attn_rmsnorm (layer_norm l)) (d_hidden x); act (d_hidden x);
   matrix_of (Some i) TransformerWeightRole.kMlpGate (gate_proj (layer_mlp l)) (d_inter x) (d_hidden x); act (d_inter x);
   matrix_of (Some i) TransformerWeightRole.kMlpUp (up_proj (layer_mlp l)) (d_inter x) (d_hidden x); act (d_inter x);
   act (d_inter x); matrix_of (Some i) TransformerWeightRole.kMlpDown (down_proj (layer_mlp l)) (d_hidden x) (d_inter x); act (d_hidden x);
   act (d_hidden x)].

Definition mlp_nodes (i input n : nat) : list (OpType.t * option nat * list nat * list nat * OpParams) :=
  [(OpType.kRmsNorm, Some i, [input; n], [1 + n], RmsNormParams (norm_eps params));
   (OpType.kLinear, Some i, [1 + n; 2 + n], [3 + n], LinearParams);
   (OpType.kLinear, Some i, [1 + n; 4 + n], [5 + n], LinearParams);
   (OpType.kSiluMul, Some i, [3 + n; 5 + n], [6 + n], SiluMulParams);
   (OpType.kLinear, Some i, [6 + n; 7 + n], [8 + n], LinearParams);
   (OpType.kAdd, Some i, [input; 8 + n], [9 + n], AddParams)]%nat.

(** The two caches, the attention block and the MLP block of a layer. *)
Definition layer_values (i : nat) (l : DecoderLayerRawWeights) : list info :=
  [key_cache i layer_cache; value_cache i layer_cache] ++ attention_values i l ++ mlp_values i l.
Definition layer_nodes (i hidden pos n : nat) : list (OpType.t * option nat * list nat * list nat * OpParams) :=
  attention_nodes i hidden pos n (1 + n) (2 + n) ++ mlp_nodes i (17 + n) (18 + n).

(** Parameters and dimensions that fit together. *)
Record dims_ok : Prop := {
  dk_hidden : 0 < d_hidden x; dk_inter : 0 < d_inter x; dk_kv : 0 < d_kv_heads x; dk_width : 0 < d_width x;
  dk_split : d_hidden x = d_heads x * d_width x; dk_range : kv_dim x <= INT64_MAX;
  dk_eps : f32_isfinite (norm_eps params) = true /\ f32_le_zero (norm_eps params) = false;
  dk_rope : ValidateRoPEParams (rope_params params) = Ret tt /\ ValidateRoPEScaling (rope_params params) = Ret tt;
  dk_rope_dims : rope_num_attention_heads (rope_params params) = d_heads x /\ rope_num_key_value_heads (rope_params params) = d_kv_heads x /\
    rope_head_dim (rope_params params) = d_width x;
  dk_attention : ValidateAttentionParams (attention_params params) = Ret tt;
  dk_attention_dims : attention_params params = mkAttention (d_heads x) (d_kv_heads x) (d_width x) }.

(** The weights of a layer have the shapes of the dimensions and dense element types. *)
Definition layer_ok (i : nat) (l : DecoderLayerRawWeights) : Prop :=
  Forall (fun e => rw_shape e.1.1 = e.1.2) (layer_shapes (d_hidden x) (kv_dim x) (d_inter x) i l) /\
  Forall (fun e => rw_dtype e.2 ∈ dense_dtypes) (layer_entries l).
End Plan.

Lemma stage_new g n m g' infos sums k i : stage g n m -> grows g g' infos sums -> infos !! k = Some i -> has g' (k + n)%nat i.
Proof. intros [_ Hn _] HG Hk. rewrite <- Hn, Nat.add_comm. by eapply grows_new. Qed.

(** Go on from the graph [g] at stage [S] to the one a helper returned. *)
Ltac go S E G :=
  lazymatch type of S with stage ?g _ _ =>
  lazymatch type of G with grows _ ?g' ?infos ?sums =>
    repeat match goal with H : has g _ _ |- _ => apply (grows_has _ _ _ _ _ _ G) in H end;
    let rec news k l :=
      lazymatch l with
      | ?a :: ?r => let H := fresh "Hnew" in pose proof (stage_new _ _ _ _ _ _ k a S G eq_refl) as H; cbn [Nat.add] in H; news constr:((Datatypes.S k)) r
      | _ => idtac
      end in
    news constr:(0%nat) infos;
    apply (grows_stage _ _ _ _ _ _) with (2 := G) in S; cbn [length Nat.add] in S
  end end.

(** The count at the end of a block. *)
Lemma block_run g n m k msg : stage g n (k + m) -> block_check m k msg g = (Ret tt, g).
Proof. intros [_ _ H]. unfold block_check. rewrite H, Nat.add_sub, Nat.eqb_refl. done. Qed.

Section Blocks.
Context (d : DataType.t) (Hd : d ∈ residual_dtypes) (s t : Z) (Hs : s < -1) (Ht : t < -1).
Context (x : Dims) (params : DecoderLayerParams) (Hx : dims_ok x params).

Lemma fits_le n m n' m' : fits n m -> (n' <= n)%nat -> (m' <= m)%nat -> fits n' m'.
Proof using. unfold fits. lia. Qed.

(** The attention block appends its sixteen values and nine nodes and returns the residual. *)
Lemma attention_block_adds g n m i hidden pos kc vc l : stage g n m -> fits (16 + n) (9 + m) -> layer_ok x i l ->
  has g hidden (act d s (d_hidden x)) -> has g pos (ModelInputValue, mkSpec (DataType.Int 64) (Some [mkSym s])) ->
  has g kc (key_cache i (layer_cache d t x)) -> has g vc (value_cache i (layer_cache d t x)) ->
  exists g', adds (BuildAttentionBlock i (mkBlockInput hidden pos (kc, vc)) l params) g (15 + n)%nat
    (attention_values d s t x i l) (attention_nodes params i hidden pos kc vc n) g'.
Proof using Hd Hs Ht Hx.
  intros St Hf [Hsh Hdt] Hh Hp Hk Hv. pose proof (fun n' m' => fits_le _ _ n' m' Hf) as Hfit.
  destruct Hx as [D1 D2 D3 D4 D5 D6 [D7 D8] [D9 D10] (R1 & R2 & R3) D11 D12]. unfold layer_shapes, layer_entries in *. rewrite !Forall_cons in Hsh. rewrite !Forall_cons in Hdt. cbn [fst snd] in Hsh, Hdt.
  destruct Hsh as (_ & _ & Sq & Sk & Sv & So & _). destruct Hdt as (Tn & _ & Tq & Tk & Tv & To & _).
  assert (0 < kv_dim x) as Hkv by (unfold kv_dim; nia). pose proof St as St0. set (m0 := m) in *.
  destruct (norm_adds d Hd s g n m (Some i) hidden _ TransformerWeightRole.kInputNorm _ _ _ St ltac:(apply Hfit; lia) eq_refl eq_refl Tn D1 D7 D8 Hh) as (g1 & E1 & G1). go St E1 G1.
  destruct (projection_adds d Hd s g1 _ _ (Some i) (1 + n)%nat _ TransformerWeightRole.kAttentionQ _ _ _ _ St ltac:(apply Hfit; lia) eq_refl eq_refl Sq Tq D1 D1 Hnew0) as (g2 & E2 & G2). go St E2 G2.
  destruct (projection_adds d Hd s g2 _ _ (Some i) (1 + n)%nat _ TransformerWeightRole.kAttentionK _ _ _ _ St ltac:(apply Hfit; lia) eq_refl eq_refl Sk Tk D1 Hkv Hnew0) as (g3 & E3 & G3). go St E3 G3.
  destruct (projection_adds d Hd s g3 _ _ (Some i) (1 + n)%nat _ TransformerWeightRole.kAttentionV _ _ _ _ St ltac:(apply Hfit; lia) eq_refl eq_refl Sv Tv D1 Hkv Hnew0) as (g4 & E4 & G4). go St E4 G4.
  destruct (rope_adds d Hd s Hs g4 _ _ i _ _ pos (rope_params params) (d_hidden x) (kv_dim x) (LayerPrefix i +:+ "self_attn.rotary_emb") St ltac:(apply Hfit; lia)
    D9 D10 ltac:(rewrite R1, R3; exact D5) ltac:(rewrite R2, R3; done) Hnew2 Hnew4 Hp) as (g5 & E5 & G5). go St E5 G5.
  destruct (update_adds d Hd s t Hs Ht g5 _ _ i _ _ kc vc (d_kv_heads x) (d_width x) (LayerPrefix i +:+ "self_attn.kv_cache_update") St ltac:(apply Hfit; lia)
    D3 D4 D6 Hnew8 Hnew6 Hk Hv) as (g6 & E6 & G6). go St E6 G6.
  destruct (attention_adds d Hd s t Hs Ht g6 _ _ i _ _ _ (attention_params params) (d_hidden x) (LayerPrefix i +:+ "self_attn.attention") St ltac:(apply Hfit; lia) D11
    ltac:(rewrite D12; exact D3) ltac:(rewrite D12; exact D4) ltac:(rewrite D12; exact D5) Hnew7 ltac:(rewrite D12; exact Hnew9) ltac:(rewrite D12; exact Hnew10)) as (g7 & E7 & G7). go St E7 G7.
  destruct (projection_adds d Hd s g7 _ _ (Some i) _ _ TransformerWeightRole.kAttentionO _ _ _ _ St ltac:(apply Hfit; lia) eq_refl eq_refl So To D1 D1 Hnew11) as (g8 & E8 & G8). go St E8 G8.
  destruct (add_adds d Hd s Hs g8 _ _ i hidden _ _ (LayerPrefix i +:+ "post_attention_add") St ltac:(apply Hfit; lia) D1 Hh Hnew13) as (g9 & E9 & G9). go St E9 G9.
  exists g9. split.
  - unfold BuildAttentionBlock. eapply bind_run; [unfold node_count; rewrite (st_nodes _ _ _ St0); reflexivity|]. do 9 (eapply bind_run; [eassumption|]).
    eapply bind_run; [exact (block_run _ _ _ 9 _ St)|]. reflexivity.
  - exact (grows_trans _ _ _ _ _ _ _ G1 (grows_trans _ _ _ _ _ _ _ G2 (grows_trans _ _ _ _ _ _ _ G3 (grows_trans _ _ _ _ _ _ _ G4 (grows_trans _ _ _ _ _ _ _ G5
      (grows_trans _ _ _ _ _ _ _ G6 (grows_trans _ _ _ _ _ _ _ G7 (grows_trans _ _ _ _ _ _ _ G8 G9)))))))).
Qed.

(** The MLP block appends ten values and six nodes. *)
Lemma mlp_block_adds g n m i input l : stage g n m -> fits (10 + n) (6 + m) -> layer_ok x i l -> has g input (act d s (d_hidden x)) ->
  exists g', adds (BuildMlpBlock i input l params) g (9 + n)%nat (mlp_values d s x i l) (mlp_nodes params i input n) g'.
Proof using Hd Hs Hx.
  intros St Hf [Hsh Hdt] Hh. pose proof (fun n' m' => fits_le _ _ n' m' Hf) as Hfit.
  destruct Hx as [D1 D2 D3 D4 D5 D6 [D7 D8] _ _ _ _]. unfold layer_shapes, layer_entries in *. rewrite !Forall_cons in Hsh. rewrite !Forall_cons in Hdt. cbn [fst snd] in Hsh, Hdt.
  destruct Hsh as (_ & _ & _ & _ & _ & _ & Sg & Su & Sd & _). destruct Hdt as (_ & Tn & _ & _ & _ & _ & Tg & Tu & Td & _). pose proof St as St0. set (m0 := m) in *.
  destruct (norm_adds d Hd s g n m (Some i) input _ TransformerWeightRole.kPostAttentionNorm _ _ _ St ltac:(apply Hfit; lia) eq_refl eq_refl Tn D1 D7 D8 Hh) as (g1 & E1 & G1). go St E1 G1.
  destruct (projection_adds d Hd s g1 _ _ (Some i) (1 + n)%nat _ TransformerWeightRole.kMlpGate _ _ _ _ St ltac:(apply Hfit; lia) eq_refl eq_refl Sg Tg D1 D2 Hnew0) as (g2 & E2 & G2). go St E2 G2.
  destruct (projection_adds d Hd s g2 _ _ (Some i) (1 + n)%nat _ TransformerWeightRole.kMlpUp _ _ _ _ St ltac:(apply Hfit; lia) eq_refl eq_refl Su Tu D1 D2 Hnew0) as (g3 & E3 & G3). go St E3 G3.
  destruct (silu_mul_adds d Hd s Hs g3 _ _ i _ _ _ (LayerPrefix i +:+ "mlp.act") St ltac:(apply Hfit; lia) D2 Hnew2 Hnew4) as (g4 & E4 & G4). go St E4 G4.
  destruct (projection_adds d Hd s g4 _ _ (Some i) _ _ TransformerWeightRole.kMlpDown _ _ _ _ St ltac:(apply Hfit; lia) eq_refl eq_refl Sd Td D2 D1 Hnew5) as (g5 & E5 & G5). go St E5 G5.
  destruct (add_adds d Hd s Hs g5 _ _ i input _ _ (LayerPrefix i +:+ "mlp_add") St ltac:(apply Hfit; lia) D1 Hh Hnew7) as (g6 & E6 & G6). go St E6 G6.
  exists g6. split.
  - unfold BuildMlpBlock. eapply bind_run; [unfold node_count; rewrite (st_nodes _ _ _ St0); reflexivity|]. do 6 (eapply bind_run; [eassumption|]).
    eapply bind_run; [exact (block_run _ _ _ 6 _ St)|]. reflexivity.
  - exact (grows_trans _ _ _ _ _ _ _ G1 (grows_trans _ _ _ _ _ _ _ G2 (grows_trans _ _ _ _ _ _ _ G3 (grows_trans _ _ _ _ _ _ _ G4 (grows_trans _ _ _ _ _ _ _ G5 G6))))).
Qed.
End Blocks.

(** ** The whole model *)

Section Model.
Context (d : DataType.t) (Hd : d ∈ residual_dtypes) (s t : Z) (Hs : s < -1) (Ht : t < -1).
Context (x : Dims) (params : DecoderLayerParams) (Hx : dims_ok x params).
Context (w : ResolvedModelWeights).
Abbreviation token_spec := (mkSpec (DataType.Int 64) (Some [mkSym s])).

Lemma layer_adds g n m i hidden l : stage g n m -> fits (28 + n) (15 + m) -> layers w !! i = Some l -> layer_ok x i l ->
  has g hidden (act d s (d_hidden x)) -> has g 1%nat (ModelInputValue, token_spec) ->
  exists g', adds (add_layer w params (layer_cache d t x) 1 hidden i) g (27 + n)%nat
    (layer_values d s t x i l) (layer_nodes params i hidden 1 n) g'.
Proof using Hd Hs Ht Hx.
  intros St Hf Hl Hok Hh Hp. pose proof (fun n' m' => fits_le _ _ n' m' Hf) as Hfit.
  destruct (stage_state_adds g n m (layer_cache d t x) (KVCacheStateBinding i kKey) (LayerPrefix i +:+ "self_attn.k_cache") St ltac:(apply Hfit; lia)) as (g1 & E1 & G1). go St E1 G1.
  destruct (stage_state_adds g1 _ _ (layer_cache d t x) (KVCacheStateBinding i kValue) (LayerPrefix i +:+ "self_attn.v_cache") St ltac:(apply Hfit; lia)) as (g2 & E2 & G2). go St E2 G2.
  destruct (attention_block_adds d Hd s t Hs Ht x params Hx g2 _ _ i hidden 1 n (S n) l St ltac:(apply Hfit; lia) Hok Hh Hp Hnew Hnew0) as (g3 & E3 & G3).
  pose proof (stage_new _ _ _ _ _ _ 15 _ St G3 eq_refl) as Hres. pose proof (grows_stage _ _ _ _ _ _ St G3) as St3. cbn [length attention_values attention_nodes Nat.add] in St3.
  destruct (mlp_block_adds d Hd s Hs x params Hx g3 _ _ i _ l St3 ltac:(apply Hfit; lia) Hok Hres) as (g4 & E4 & G4).
  exists g4. split.
  - unfold add_layer. do 2 (eapply bind_run; [eassumption|]). eapply bind_run; [apply lift_run; by apply vec_at_ret|]. unfold BuildDecoderLayer.
    eapply bind_run; [exact E3|]. exact E4.
  - exact (grows_trans _ _ _ _ _ _ _ G1 (grows_trans _ _ _ _ _ _ _ G2 (grows_trans _ _ _ _ _ _ _ G3 G4))).
Qed.

(** Layer [i] starts at value [4 + 28 i] and reads the hidden state [3 + 28 i]. *)
Definition layers_values (ids : list nat) : list info :=
  i ← ids; match layers w !! i with Some l => layer_values d s t x i l | None => [] end.
Definition layers_nodes (ids : list nat) : list (OpType.t * option nat * list nat * list nat * OpParams) :=
  i ← ids; layer_nodes params i (3 + 28 * i) 1 (4 + 28 * i).

Lemma layers_adds k : forall g i m, stage g (4 + 28 * i) m -> fits (4 + 28 * (i + k)) (15 * k + m) -> (i + k <= length (layers w))%nat ->
  (forall j l, layers w !! j = Some l -> layer_ok x j l) ->
  has g (3 + 28 * i)%nat (act d s (d_hidden x)) -> has g 1%nat (ModelInputValue, token_spec) ->
  exists g', adds (add_layers w params (layer_cache d t x) 1 (3 + 28 * i) (seq i k)) g (3 + 28 * (i + k))%nat (layers_values (seq i k)) (layers_nodes (seq i k)) g' /\
    has g' (3 + 28 * (i + k))%nat (act d s (d_hidden x)).
Proof using Hd Hs Ht Hx.
  induction k as [|k IH]; intros g i m St Hf Hlen Hok Hh Hp.
  - exists g. rewrite Nat.add_0_r. split; [|done]. split; [done|]. split; [by destruct St|by rewrite app_nil_r|by rewrite app_nil_r|done|done].
  - destruct (lookup_lt_is_Some_2 (layers w) i) as [l Hl]; [lia|].
    destruct (layer_adds g _ m i (3 + 28 * i) l St) as (g1 & E1 & G1); [eapply fits_le; [exact Hf|lia|lia]|done|by apply Hok|done|done|].
    pose proof (stage_new _ _ _ _ _ _ 27 _ St G1 eq_refl) as Hres. pose proof (grows_stage _ _ _ _ _ _ St G1) as St1. cbn [length layer_values layer_nodes] in St1.
    replace (length (layer_values d s t x i l) + (4 + 28 * i))%nat with (4 + 28 * S i)%nat in St1 by (cbn [length layer_values attention_values mlp_values app]; lia).
    replace (27 + (4 + 28 * i))%nat with (3 + 28 * S i)%nat in * by lia.
    destruct (IH g1 (S i) _ St1) as (g2 & [E2 G2] & Hres2).
    + eapply fits_le; [exact Hf|lia|]. cbn [length layer_nodes attention_nodes mlp_nodes app]. lia.
    + lia.
    + done.
    + exact Hres.
    + by eapply grows_has.
    + exists g2. replace (i + S k)%nat with (S i + k)%nat by lia. split; [|exact Hres2]. split.
      * cbn [seq add_layers]. eapply bind_run; [exact E1|]. exact E2.
      * cbn [seq]. unfold layers_values, layers_nodes in *. cbn [mbind list_bind]. rewrite Hl. exact (grows_trans _ _ _ _ _ _ _ G1 G2).
Qed.

Lemma length_layers_values k : forall i, (i + k <= length (layers w))%nat -> length (layers_values (seq i k)) = (28 * k)%nat.
Proof using.
  induction k as [|k IH]; intros i Hi; [done|]. cbn [seq]. unfold layers_values in *. cbn [mbind list_bind].
  destruct (lookup_lt_is_Some_2 (layers w) i) as [l ->]; [lia|]. rewrite length_app, IH by lia. cbn [length layer_values attention_values mlp_values app]. lia.
Qed.
Lemma length_layers_nodes k : forall i, length (layers_nodes (seq i k)) = (15 * k)%nat.
Proof using.
  induction k as [|k IH]; intros i; [done|]. cbn [seq]. unfold layers_nodes in *. cbn [mbind list_bind].
  rewrite length_app, IH. cbn [length layer_nodes attention_nodes mlp_nodes app]. lia.
Qed.

(** The values and the nodes of a model of [k] layers. *)
Definition head_weight : RawWeightView := default (embed_tokens w) (lm_head w).
Definition model_values (vocab : Z) (k : nat) : list info :=
  [(ModelInputValue, token_spec); (ModelInputValue, token_spec);
   (WeightValue (MakeTransformerWeightBinding None TransformerWeightRole.kTokenEmbedding), mkSpec d (Some [mkSym vocab; mkSym (d_hidden x)])); act d s (d_hidden x)] ++
  layers_values (seq 0 k) ++
  [scale_of None TransformerWeightRole.kFinalNorm (final_norm w) (d_hidden x); act d s (d_hidden x);
   matrix_of None TransformerWeightRole.kLmHead head_weight vocab (d_hidden x); act d s vocab; (ActivationValue, token_spec)].
Definition model_nodes (k : nat) : list (OpType.t * option nat * list nat * list nat * OpParams) :=
  [(OpType.kEmbedding, None, [0; 2], [3], EmbeddingParams)]%nat ++ layers_nodes (seq 0 k) ++
  [(OpType.kRmsNorm, None, [3 + 28 * k; 4 + 28 * k], [5 + 28 * k], RmsNormParams (norm_eps params));
   (OpType.kLinear, None, [5 + 28 * k; 6 + 28 * k], [7 + 28 * k], LinearParams);
   (OpType.kArgmax, None, [7 + 28 * k], [8 + 28 * k], ArgmaxParams (-1))]%nat.

(** The graph after the two inputs. *)
Definition inputs_graph : ModelGraph :=
  mkGraph [] [mkValue ModelInputValue token_spec None default_quant "token_ids"; mkValue ModelInputValue token_spec None default_quant "position_ids"] [0; 1]%nat [].

Lemma inputs_stage : stage inputs_graph 2 0.
Proof using.
  split; [split|done|done].
  - split; cbn.
    + intros v Hv. apply elem_of_cons in Hv as [-> | Hv]; [by eexists|]. apply list_elem_of_singleton in Hv as ->. by eexists.
    + intros v Hv. by apply not_elem_of_nil in Hv.
    + intros v y Hy. destruct v as [|[|v]]; cbn in Hy; [injection Hy as <-; reflexivity..|done].
    + intros i n Hn. by rewrite lookup_nil in Hn.
  - pose proof (AddInput_wf _ token_spec "position_ids" (AddInput_wf _ token_spec "token_ids" empty_wf)) as H. exact H.
Qed.

Lemma mark_output_good g v : good g -> has g v (ActivationValue, token_spec) -> good (MarkOutput g v).
Proof using.
  intros [[V1 V2 V3 V4] W] Hv. split; [|by apply wf_set_outputs]. split; cbn; [done| |done|done].
  intros u Hu. apply elem_of_app in Hu as [Hu|Hu]; [by apply V2|]. apply list_elem_of_singleton in Hu as ->.
  apply has_lookup in Hv as (y & Hy & Hp & _). exists y. split; [done|]. left. split; [done|]. destruct (wf_activation g W v y Hy Hp) as [i ->]. done.
Qed.

(** What the weights outside the layers must be. *)
Record ends_ok (vocab : Z) : Prop := {
  eo_vocab : 0 < vocab;
  eo_embed : rw_shape (embed_tokens w) = [vocab; d_hidden x]; eo_dtype : rw_dtype (embed_tokens w) = d;
  eo_norm : rw_dtype (final_norm w) ∈ dense_dtypes;
  eo_head : rw_shape head_weight = [vocab; d_hidden x]; eo_head_dtype : rw_dtype head_weight ∈ dense_dtypes }.

Lemma build_graph_adds c vocab k : Z.to_nat (u32 (num_hidden_layers c)) = k -> k = length (layers w) -> fits (9 + 28 * k) (4 + 15 * k) -> ends_ok vocab ->
  (forall j l, layers w !! j = Some l -> layer_ok x j l) ->
  exists g, build_graph c w (mkSym s) (layer_cache d t x) params empty_graph = (Ret tt, g) /\ good g /\
    view <$> values_ g = model_values vocab k /\ summary <$> nodes_ g = model_nodes k /\ inputs_ g = [0; 1]%nat /\ outputs_ g = [(8 + 28 * k)%nat].
Proof using Hd Hs Ht Hx.
  intros Hk Hlen Hf [O1 O2 O3 O4 O5 O6] Hok. pose proof inputs_stage as St. pose proof (fun n' m' => fits_le _ _ n' m' Hf) as Hfit.
  destruct Hx as [D1 _ _ _ _ _ [D7 D8] _ _ _ _].
  assert (has inputs_graph 0 (ModelInputValue, token_spec)) as H0 by done. assert (has inputs_graph 1 (ModelInputValue, token_spec)) as H1 by done.
  destruct (embedding_adds d Hd s inputs_graph 2 0 0 vocab (d_hidden x) "embed_tokens" St ltac:(apply Hfit; lia) O1 D1 H0) as (g1 & E1 & G1). go St E1 G1.
  destruct (layers_adds k g1 0 1 St ltac:(apply Hfit; lia) ltac:(lia) Hok Hnew0 H1) as (g2 & [E2 G2] & Hres). cbn [Nat.add] in E2, Hres.
  assert (stage g2 (4 + 28 * k) (1 + 15 * k)) as St2.
  { destruct (grows_length _ _ _ _ G2) as [L1 L2]. split; [by destruct G2|rewrite L1, (st_values _ _ _ St)|rewrite L2, (st_nodes _ _ _ St)].
    - rewrite (length_layers_values k 0); lia.
    - rewrite (length_layers_nodes k 0); lia. }
  clear St. destruct (norm_adds d Hd s g2 _ _ None _ (final_norm w) TransformerWeightRole.kFinalNorm _ _ _ St2 ltac:(apply Hfit; lia) eq_refl eq_refl O4 D1 D7 D8 Hres) as (g3 & E3 & G3). go St2 E3 G3.
  destruct (projection_adds d Hd s g3 _ _ None _ head_weight TransformerWeightRole.kLmHead _ _ _ _ St2 ltac:(apply Hfit; lia) eq_refl eq_refl O5 O6 D1 O1 Hnew2) as (g4 & E4 & G4). go St2 E4 G4.
  destruct (argmax_adds d Hd s g4 _ _ _ vocab "argmax" St2 ltac:(apply Hfit; lia) Hnew4) as (g5 & E5 & G5). go St2 E5 G5.
  pose proof (grows_trans _ _ _ _ _ _ _ G1 (grows_trans _ _ _ _ _ _ _ G2 (grows_trans _ _ _ _ _ _ _ G3 (grows_trans _ _ _ _ _ _ _ G4 G5)))) as GG.
  exists (MarkOutput g5 (8 + 28 * k)). split; [|split; [|split; [|split; [|split]]]].
  - unfold build_graph. eapply bind_run; [reflexivity|]. eapply (bind_run _ _ _ 1%nat inputs_graph); [reflexivity|].
    unfold first_dim. rewrite O2, O3. do 3 (eapply bind_run; [apply lift_run; reflexivity|]). eapply bind_run; [exact E1|].
    rewrite Hk. eapply bind_run; [exact E2|]. eapply bind_run; [exact E3|]. eapply bind_run; [exact E4|]. eapply bind_run; [exact E5|]. reflexivity.
  - apply mark_output_good; [by destruct GG|exact Hnew5].
  - cbn [MarkOutput values_]. rewrite (gr_values _ _ _ _ GG). reflexivity.
  - cbn [MarkOutput nodes_]. rewrite (gr_nodes _ _ _ _ GG). reflexivity.
  - cbn [MarkOutput inputs_]. rewrite (gr_inputs _ _ _ _ GG). reflexivity.
  - cbn [MarkOutput outputs_]. rewrite (gr_outputs _ _ _ _ GG). reflexivity.
Qed.
End Model.

(** ** The builder *)

Lemma f64_positive x : in_u 64 x -> f64_isfinite x = true -> f64_nonpositive x = false -> f64_le_zero x = false.
Proof.
  intros Hx Hf Hn. unfold f64_le_zero. apply orb_false_iff. unfold f64_nonpositive, decode in Hn. change (fsign binary64) with (2 ^ 63) in Hn.
  change (finf binary64) with (2047 * 2 ^ 52) in Hn. change (mant_bits binary64) with 52 in Hn. cbv zeta in Hn.
  assert (x <> 0) as H0 by (intros ->; vm_compute in Hn; discriminate). split; [by apply Z.eqb_neq|]. apply Z.leb_gt.
  destruct (Z.leb_spec (2 ^ 63) x) as [Hge|]; [|done]. exfalso. destruct (x - 2 ^ 63 =? 2047 * 2 ^ 52); [done|].
  destruct (Z.ltb_spec (2047 * 2 ^ 52) (x - 2 ^ 63)) as [Hnan|_]; [|by destruct (_ =? 0)].
  unfold f64_isfinite in Hf. apply negb_true_iff, Z.eqb_neq in Hf. rewrite Z.shiftr_div_pow2 in Hf by lia.
  change 2047 with (Z.ones 11) in Hf. rewrite Z.land_ones in Hf by lia. change (Z.ones 11) with 2047 in Hf.
  unfold in_u in Hx. apply Hf. change (2 ^ 11) with 2048. dlia.
Qed.

(** Every number of a configuration is a value of its C++ type. *)
Definition config_repr (c : HfModelConfig) : Prop :=
  hidden_size c <= INT64_MAX /\ in_u 64 (hf_theta (rope c)) /\ from_option (in_u 64) True (hf_scaling_factor (rope c)).

(** What the builder needs beyond its own validation: numbers the operators accept (finite,
    an even head width, a positive [float] epsilon), a RoPE scaling it can express, dense
    element types of one lane, activations of a type residual additions support, and an
    identifier for every value and node. *)
Record buildable (c : HfModelConfig) (w : ResolvedModelWeights) : Prop := {
  bd_scaling : hf_scaling_type (rope c) = hfNone \/ hf_scaling_type (rope c) = hfLinear;
  bd_theta : f64_isfinite (hf_theta (rope c)) = true;
  bd_factor : from_option (fun f => f64_isfinite f = true) True (hf_scaling_factor (rope c));
  bd_eps : f32_isfinite (f32_of_f64 (rms_norm_eps c)) = true /\ f32_le_zero (f32_of_f64 (rms_norm_eps c)) = false;
  bd_even : (2 | model_head_dim c);
  bd_act : act_dtype c ∈ residual_dtypes /\ rw_dtype (embed_tokens w) = act_dtype c;
  bd_dense : forall name v matrix, (name, v, matrix) ∈ entries w -> rw_dtype v ∈ dense_dtypes;
  bd_size : 9 + 28 * num_hidden_layers c <= UINT32_MAX }.

Definition model_dims (c : HfModelConfig) : Dims :=
  mkDims (hidden_size c) (intermediate_size c) (cfg_attention_heads c) (cfg_key_value_heads c) (model_head_dim c).
Definition model_params (c : HfModelConfig) : DecoderLayerParams :=
  mkLayerParams (f32_of_f64 (rms_norm_eps c))
    (mkRoPE (model_head_dim c) (cfg_attention_heads c) (cfg_key_value_heads c) (cfg_max_position_embeddings c) (hf_theta (rope c)) (hf_scaling_factor (rope c))
      (if bool_decide (hf_scaling_type (rope c) = hfLinear) then kLinear else kNone))
    (mkAttention (cfg_attention_heads c) (cfg_key_value_heads c) (model_head_dim c)).

Section Accepted.
Context (c : HfModelConfig) (w : ResolvedModelWeights).
Context (Hrepr : config_repr c) (Hvalid : ValidateInputs c w = Ret tt) (Hb : buildable c w).

Lemma accepted_config : config_ok c (mkValidation false true true false false false false true) /\ resolved_ok c w default_validation.
Proof using Hvalid.
  unfold ValidateInputs in Hvalid. apply res_bind_ret_inv in Hvalid as ([] & H1 & H2). split; [by apply ValidateConfig_exact|by apply ValidateResolvedModel_exact].
Qed.

Lemma accepted_head : 0 < model_head_dim c /\ hidden_size c = cfg_attention_heads c * model_head_dim c /\
  kv_width c = cfg_key_value_heads c * model_head_dim c /\ 0 < kv_width c <= INT64_MAX.
Proof using Hrepr Hvalid.
  destruct accepted_config as [[_ C2 _ _ C5 C6 _ _ _ _ [q Hq] C12 _ _ _ _ _ _] _]. destruct Hrepr as [Hr _].
  assert (hidden_size c / cfg_attention_heads c = q) as Eq by (rewrite Hq; apply Z.div_mul; lia).
  assert (model_head_dim c = q) as ->.
  { unfold model_head_dim. destruct (Z.eqb_spec (cfg_head_dim c) 0); cbn [negb]; [rewrite Z.quot_div_nonneg by lia; done|]. destruct C12; [done|congruence]. }
  unfold kv_width. rewrite Z.quot_div_nonneg, Eq by lia. assert (0 < q) by nia. split; [done|]. split; [lia|]. split; [done|]. nia.
Qed.

Lemma accepted_rope : MakeRoPEParams c (model_head_dim c) = Ret (rope_params (model_params c)).
Proof using Hb. destruct (bd_scaling _ _ Hb) as [E|E]; unfold MakeRoPEParams; rewrite E; cbn [mbind res_mbind res_bind rope_params model_params]; by rewrite E. Qed.

Lemma i64_fits a b : 0 <= a * b <= INT64_MAX -> (CheckOverflowMul int64_ty a b).1 = false.
Proof using.
  intros H. unfold CheckOverflowMul, int64_ty, int_trunc. cbn [ty_signed ty_width fst].
  rewrite (proj2 (wrap_signed_id_iff 64 _ ltac:(lia))) by (unfold in_i, INT64_MAX in *; lia). by rewrite Z.eqb_refl.
Qed.

Lemma accepted_dims : dims_ok (model_dims c) (model_params c).
Proof using Hrepr Hvalid Hb.
  destruct accepted_config as [[_ C2 C3 _ C5 C6 _ C8 _ C10 _ _ C13 _ _ C16 _ _] _]. destruct accepted_head as (Hw & Hh & Hk & Hk2). destruct Hrepr as (Hr & Ht & Hfac).
  assert (Z.rem (model_head_dim c) 2 = 0) as Heven by (apply rem_zero; [lia|lia|exact (bd_even _ _ Hb)]).
  split; cbn [model_dims model_params d_hidden d_inter d_heads d_kv_heads d_width norm_eps rope_params attention_params kv_dim].
  - done.
  - lia.
  - lia.
  - done.
  - done.
  - unfold kv_dim. cbn. lia.
  - exact (bd_eps _ _ Hb).
  - split.
    + unfold ValidateRoPEParams, reject. cbn [rope_head_dim rope_num_attention_heads rope_num_key_value_heads max_position_embeddings theta].
      rewrite !(proj2 (Z.leb_gt _ 0)) by lia. rewrite Heven, (bd_theta _ _ Hb), (f64_positive _ Ht (bd_theta _ _ Hb) C10), !i64_fits by lia. done.
    + unfold ValidateRoPEScaling. cbn [scaling_type scaling_factor]. unfold check_rope_scaling, HasRopeScaling in C16. cbn [allow_rope_scaling negb andb] in C16.
      destruct (bd_scaling _ _ Hb) as [E|E]; rewrite E in C16 |- *.
      * rewrite (bool_decide_false (hfNone = hfLinear)) by done. destruct (hf_scaling_factor (rope c)); [|done]. by vm_compute in C16.
      * rewrite (bool_decide_true (hfLinear = hfLinear)) by done. pose proof (bd_factor _ _ Hb) as Hf. destruct (hf_scaling_factor (rope c)) as [f|]; [|by vm_compute in C16].
        cbn in Hf, Hfac. unfold reject. rewrite Hf. rewrite (bool_decide_true (is_Some (Some f))) in C16 by by eexists. rewrite (bool_decide_false (hfLinear = hfNone)) in C16 by done.
        cbn in C16. apply reject_if_ret in C16. by rewrite (f64_positive f Hfac Hf C16).
  - done.
  - unfold ValidateAttentionParams, reject. cbn [num_attention_heads num_key_value_heads head_dim]. rewrite !(proj2 (Z.leb_gt _ 0)) by lia.
    rewrite (proj2 (rem_zero (cfg_attention_heads c) (cfg_key_value_heads c) ltac:(lia) ltac:(lia)) C13), i64_fits by lia. done.
  - done.
Qed.
End Accepted.

Section Result.
Context (c : HfModelConfig) (w : ResolvedModelWeights).
Context (Hrepr : config_repr c) (Hvalid : ValidateInputs c w = Ret tt) (Hb : buildable c w).

Lemma entries_layer i l e : layers w !! i = Some l -> e ∈ layer_entries l -> (LayerName i e.1, e.2, negb (IsLayerNormSuffix e.1)) ∈ entries w.
Proof using.
  intros Hl He. unfold entries. do 2 right. apply elem_of_app. right. apply list_elem_of_bind. exists (i, l). split; [by apply (list_elem_of_fmap_2 (fun s => (LayerName i s.1, s.2, negb (IsLayerNormSuffix s.1))))|].
  unfold indexed. apply list_elem_of_lookup. exists i. apply lookup_zip_Some. split; [|done]. apply lookup_seq. split; [done|]. by eapply lookup_lt_Some.
Qed.

Lemma accepted_layer i l : layers w !! i = Some l -> layer_ok (model_dims c) i l.
Proof using Hrepr Hvalid Hb.
  intros Hl. destruct (accepted_config c w Hvalid) as [_ R]. split.
  - destruct (accepted_head c w Hrepr Hvalid) as (_ & _ & Hk & _). pose proof (ro_layer _ _ _ R i l Hl) as H. unfold kv_dim. cbn. rewrite <- Hk. exact H.
  - apply Forall_forall. intros e He. exact (bd_dense _ _ Hb _ _ _ (entries_layer i l e Hl He)).
Qed.

Lemma accepted_ends : ends_ok (act_dtype c) (model_dims c) w (vocab_size c).
Proof using Hvalid Hb.
  destruct (accepted_config c w Hvalid) as [C R]. destruct (bd_act _ _ Hb) as [Ha He]. split; cbn [model_dims d_hidden].
  - exact (co_vocab _ _ C).
  - exact (ro_embed _ _ _ R).
  - exact He.
  - apply (bd_dense _ _ Hb "model.norm.weight" _ false). right. left.
  - unfold head_weight. pose proof (ro_head _ _ _ R) as H. destruct (lm_head w); [exact H|exact (ro_embed _ _ _ R)].
  - unfold head_weight. destruct (lm_head w) as [h|] eqn:E; cbn [default from_option id].
    + apply (bd_dense _ _ Hb "lm_head.weight" _ true). unfold entries. rewrite E. do 2 right. left.
    + rewrite He. by apply residual_dense.
Qed.
End Result.

(** The graph of a Llama model: two inputs, the listed values and nodes, one output. The two
    symbols are the sequence length and the length of the caches. *)
Definition llama_plan (next : Z) (c : HfModelConfig) (w : ResolvedModelWeights) (g : ModelGraph) : Prop :=
  let k := Z.to_nat (num_hidden_layers c) in
  view <$> values_ g = model_values (act_dtype c) next (next - 1) (model_dims c) w (vocab_size c) k /\
  summary <$> nodes_ g = model_nodes (model_params c) k /\ inputs_ g = [0; 1]%nat /\ outputs_ g = [(8 + 28 * k)%nat].

Lemma llama_builds next c w : config_repr c -> ValidateInputs c w = Ret tt -> buildable c w -> INT64_MIN + 2 <= next <= -2 ->
  exists g order, BuildLlamaDense next c w = (Ret g, next - 2) /\ ValidateAndTopologicalOrder g = Ret order /\ llama_plan next c w g.
Proof.
  intros Hrepr Hvalid Hb Hnext. unfold llama_plan. set (k := Z.to_nat (num_hidden_layers c)). destruct (accepted_config c w Hvalid) as [C R]. destruct (bd_act _ _ Hb) as [Ha _]. destruct (accepted_head c w Hrepr Hvalid) as (Hw & _).
  pose proof (bd_size _ _ Hb) as Hsz. pose proof (co_layers _ _ C) as Hpos.
  destruct (build_graph_adds (act_dtype c) Ha next (next - 1) ltac:(lia) ltac:(lia) (model_dims c) (model_params c) (accepted_dims c w Hrepr Hvalid Hb) w c (vocab_size c) k)
    as (g & E & Hg & H1 & H2 & H3 & H4).
  - unfold k. rewrite wrap_small; [done|]. unfold in_u, UINT32_MAX in *. lia.
  - unfold k. rewrite <- (ro_layers _ _ _ R). unfold zlen. lia.
  - unfold fits, k, UINT32_MAX in *. lia.
  - exact (accepted_ends c w Hvalid Hb).
  - intros j l. exact (accepted_layer c w Hrepr Hvalid Hb j l).
  - destruct Hg as [V W]. destruct (valid_wf_validates g V W) as (order & HV & _). exists g, order. split; [|done].
    unfold BuildLlamaDense. rewrite Hvalid. unfold Create. rewrite !(proj2 (wrap_signed_id_iff 64 _ ltac:(lia))) by (unfold in_i, INT64_MIN in *; lia).
    cbv iota beta. replace (next - 1 - 1) with (next - 2) by lia. f_equal. rewrite (accepted_rope c w Hb). cbn [mbind res_mbind res_bind].
    unfold KVCacheTensorSpec, CreateFromValue. pose proof (co_kv _ _ C). rewrite !(proj2 (Z.leb_le 0 _)) by lia. cbn [am_check mbind res_mbind res_bind].
    change (mkLayerParams _ _ _) with (model_params c). change (mkSpec (act_dtype c) _) with (layer_cache (act_dtype c) (next - 1) (model_dims c)).
    rewrite E. cbn [mbind res_mbind res_bind]. by rewrite HV.
Qed.

(** C5: for every configuration and every set of weights that pass the builder's own
    validation and meet [buildable], [BuildLlamaDense] succeeds, and the graph it returns is
    the Llama plan: token and position inputs, the embedding, for each layer its two caches,
    the norm, the three projections, the rotation, the cache update, the attention, the
    output projection and the residual, then the norm, the gated MLP and its residual, and
    at the end the final norm, the output projection (tied to the embedding where there is
    none) and the argmax as only output. Operators, wiring, parameters, weight roles, state
    bindings and the types and shapes of all values are as listed in the plan; the graph
    passes whole-graph validation and two fresh symbols were used. *)
Theorem BuildLlamaDense_builds next c w : config_repr c -> ValidateInputs c w = Ret tt -> buildable c w -> INT64_MIN + 2 <= next <= -2 ->
  exists g order, BuildLlamaDense next c w = (Ret g, next - 2) /\ ValidateAndTopologicalOrder g = Ret order /\ llama_plan next c w g.
Proof. apply llama_builds. Qed.

Module TinyGraph.
Definition weights : ResolvedModelWeights :=
  Eval vm_compute in match ResolveWeights TinyLlama.config TinyLlama.table with Ret r => r | _ => mkWeights (TinyLlama.tensor []) (TinyLlama.tensor []) None [] end.

Lemma accepted : ValidateInputs TinyLlama.config weights = Ret tt.
Proof. vm_compute. reflexivity. Qed.
Lemma repr : config_repr TinyLlama.config.
Proof. repeat split; vm_compute; congruence. Qed.
Lemma is_buildable : buildable TinyLlama.config weights.
Proof.
  split.
  - by left.
  - reflexivity.
  - done.
  - split; reflexivity.
  - by exists 1.
  - split; [left|reflexivity].
  - intros name v matrix H. assert (Forall (fun e => rw_dtype e.1.2 = DataType.Float32) (entries weights)) as HF by (vm_compute; repeat constructor).
    rewrite Forall_forall in HF. pose proof (HF _ H) as E. cbn [fst snd] in E. rewrite E. left.
  - vm_compute. congruence.
Qed.
End TinyGraph.

Lemma BuildLlamaDense_builds_witness :
  config_repr TinyLlama.config /\ ValidateInputs TinyLlama.config TinyGraph.weights = Ret tt /\ buildable TinyLlama.config TinyGraph.weights /\
  exists g, (BuildLlamaDense next_symbol_init TinyLlama.config TinyGraph.weights).1 = Ret g /\ outputs_ g = [36%nat].
Proof.
  split; [exact TinyGraph.repr|]. split; [exact TinyGraph.accepted|]. split; [exact TinyGraph.is_buildable|].
  destruct (BuildLlamaDense_builds next_symbol_init TinyLlama.config TinyGraph.weights TinyGraph.repr TinyGraph.accepted TinyGraph.is_buildable)
    as (g & order & H & _ & _ & _ & _ & H5); [vm_compute; split; congruence|].
  exists g. rewrite H. split; [reflexivity|exact H5].
Defined.

(** ** What the validation lets through *)

Definition with_activation (c : HfModelConfig) (a : string) : HfModelConfig :=
  mkConfig (model_type c) (architectures c) (hidden_size c) (intermediate_size c) (num_hidden_layers c) (cfg_attention_heads c) (cfg_key_value_heads c)
    (vocab_size c) (cfg_max_position_embeddings c) (cfg_head_dim c) (rms_norm_eps c) a (tie_word_embeddings c) (attention_bias c) (mlp_bias c)
    (weight_dtype_hint_name c) (weight_dtype_hint c) (rope c).

(** The activation function of the configuration does not reach the graph: a model that
    asks for [gelu] or [relu] passes validation and gets, node for node, the graph of the
    same model with [silu]. *)
Theorem activation_never_reaches_graph next c w a : IsSupportedActivation a = true -> IsSupportedActivation (hidden_act c) = true ->
  BuildLlamaDense next (with_activation c a) w = BuildLlamaDense next c w.
Proof.
  intros Ha Hc. assert (ValidateInputs (with_activation c a) w = ValidateInputs c w) as E.
  { unfold ValidateInputs, ValidateConfig. cbn [hidden_act with_activation]. rewrite Ha, Hc. destruct c. reflexivity. }
  unfold BuildLlamaDense. rewrite E. destruct c. reflexivity.
Qed.

Lemma activation_never_reaches_graph_witness : IsSupportedActivation "gelu" = true /\ IsSupportedActivation "silu" = true /\
  BuildLlamaDense next_symbol_init (with_activation TinyLlama.config "gelu") TinyGraph.weights = BuildLlamaDense next_symbol_init TinyLlama.config TinyGraph.weights.
Proof. split; [reflexivity|]. split; [reflexivity|]. apply (activation_never_reaches_graph next_symbol_init TinyLlama.config TinyGraph.weights "gelu"); reflexivity. Defined.

Module Gaps.
Definition retype (d : DataType.t) (size : Z) (v : RawWeightView) : RawWeightView :=
  mkWeight (rw_data v) (size * product (rw_shape v)) d (rw_shape v) true true.
Definition model (d : DataType.t) (size : Z) : Res ResolvedModelWeights :=
  ResolveWeights TinyLlama.config ((fun e => (e.1, retype d size e.2)) <$> TinyLlama.table).
Definition config (hint_name : string) (hint : DataType.t) (eps : Z) : HfModelConfig :=
  mkConfig "llama" [] 4 8 1 2 1 16 64 0 eps "silu" false false false hint_name hint (mkHfRope 4666723172467343360 None hfNone).
Definition failure (c : HfModelConfig) (m : Res ResolvedModelWeights) : option (Res unit * Res unit) :=
  match m with Ret w => Some (ValidateInputs c w, g ← (BuildLlamaDense next_symbol_init c w).1; Ret tt) | _ => None end.
Definition eps_1em5 : Z := 4532020583610935537.

(** Half-precision models pass validation and fail at the first residual addition. *)
Example float16_fails_late : failure (config "float16" (DataType.Float 16) eps_1em5) (model (DataType.Float 16) 2) =
  Some (Ret tt, Fail (bad "node 9 (Add layers.0.post_attention_add): InferOperator: Add only supports float32, float64, bfloat16, int32, and int64 tensors")).
Proof. vm_compute. reflexivity. Qed.
(** Without a type hint the caches are [float32] whatever the weights are. *)
Example unhinted_bfloat16_fails_late : failure (config "auto" DataType.default_type eps_1em5) (model (DataType.BFloat 16) 2) =
  Some (Ret tt, Fail (bad "node 6 (KVCacheUpdate layers.0.self_attn.kv_cache_update): InferOperator: KVCacheUpdate k_cache_in dtype must match k dtype")).
Proof. vm_compute. reflexivity. Qed.
(** A positive [double] epsilon below the least [float] becomes zero. *)
Example tiny_epsilon_fails_late : failure (config "float32" DataType.Float32 3918770277926589793) (model DataType.Float32 4) = Some (Ret tt,
  Fail (bad "node 1 (RmsNorm layers.0.input_layernorm): InferOperator: RmsNormParams eps must be finite and positive")).
Proof. vm_compute. reflexivity. Qed.
End Gaps.
