(* ===== verification/HfJson.v ===== *)
(** * HfJson: the JSON reader of the model loader

    [src/model/formats/hf/hf_json_reader.cpp]. The state of a reader is the text it has
    not consumed ([input_] from [position_] on); every operation is a computation over it
    that can fail with a status. The loops are written with a bound on their iterations,
    the length of the text plus one, and the theorems show that the bound is never
    reached: no operation of the reader gets stuck, on any input. *)
From Stdlib Require Import Ascii.
From S2P Require Import Prelude OverflowCheck ShapeSymbol ShapeConstraint DataTypes OperatorSchema Graph FloatFormat OpParamsSerde.

Abbreviation J := (Exec string).

Definition jfail {A} (msg : string) : J A := lift (Fail (bad msg)).

(** ** Characters *)

(** The double quote. *)
Definition quote : ascii := "034"%char.

Fixpoint skip_spaces (s : string) : string :=
  match s with String c s' => if is_space c then skip_spaces s' else s | EmptyString => EmptyString end.

(* @src src/model/formats/hf/hf_json_reader.cpp:17-21 HfJsonReader::SkipWhitespace *)
Definition SkipWhitespace : J unit := fun s => (Ret tt, skip_spaces s).
(* @src src/model/formats/hf/hf_json_reader.cpp:23-25 HfJsonReader::AtEnd *)
Definition AtEnd : J bool := fun s => (Ret (bool_decide (s = "")), s).
(* @src src/model/formats/hf/hf_json_reader.cpp:27-34 HfJsonReader::TryConsume *)
Definition TryConsume (expected : ascii) : J bool :=
  _ ← SkipWhitespace;
  ((fun s => match s with
            | String c s' => if Ascii.eqb c expected then (Ret true, s') else (Ret false, s)
            | EmptyString => (Ret false, s)
            end) : J bool).
(* @src src/model/formats/hf/hf_json_reader.cpp:36-42 HfJsonReader::Expect *)
Definition Expect (expected : ascii) (context : string) : J unit :=
  ok ← TryConsume expected;
  if (ok : bool) then mret tt else jfail ("Expected '" +:+ String expected "" +:+ "' " +:+ context).
(* @src src/model/formats/hf/hf_json_reader.cpp:44-55 HfJsonReader::TryConsumeLiteral *)
Definition TryConsumeLiteral (literal : string) : J bool :=
  _ ← SkipWhitespace;
  ((fun s => if String.prefix literal s then (Ret true, string_drop (String.length literal) s) else (Ret false, s)) : J bool).

(** ** Values *)

(** The escapes the reader understands, with the character they stand for. *)
Definition unescape (c : ascii) : option ascii :=
  if Ascii.eqb c quote || Ascii.eqb c "\"%char || Ascii.eqb c "/"%char then Some c
  else if Ascii.eqb c "b"%char then Some "008"%char
  else if Ascii.eqb c "f"%char then Some "012"%char
  else if Ascii.eqb c "n"%char then Some "010"%char
  else if Ascii.eqb c "r"%char then Some "013"%char
  else if Ascii.eqb c "t"%char then Some "009"%char
  else None.

(** The characters up to the closing quote. *)
(* @src src/model/formats/hf/hf_json_reader.cpp:64-104 HfJsonReader::ParseString (loop) *)
Fixpoint string_body (s : string) (result : string) : Res string * string :=
  match s with
  | EmptyString => (Fail (bad "Unterminated JSON string"), s)
  | String cur s1 =>
      if Ascii.eqb cur quote then (Ret result, s1)
      else if Ascii.eqb cur "\"%char then
        match s1 with
        | EmptyString => (Fail (bad "Unexpected end of JSON escape sequence"), s1)
        | String escaped s2 =>
            match unescape escaped with
            | Some c => string_body s2 (result +:+ String c "")
            | None => (Fail (bad "Unsupported JSON escape sequence"), s2)
            end
        end
      else string_body s1 (result +:+ String cur "")
  end.

(* @src src/model/formats/hf/hf_json_reader.cpp:57-105 HfJsonReader::ParseString *)
Definition ParseString : J string :=
  _ ← SkipWhitespace;
  ((fun s => match s with
            | String c s' => if Ascii.eqb c quote then string_body s' "" else (Fail (bad "Expected JSON string"), s)
            | EmptyString => (Fail (bad "Expected JSON string"), s)
            end) : J string).

(** The digits at the front and the text after them. *)
Fixpoint digits_span (s : string) : string * string :=
  match s with
  | String c s' => if is_digit c then let '(a, b) := digits_span s' in (String c a, b) else ("", s)
  | EmptyString => ("", "")
  end.
(** One of the given characters at the front. *)
Definition one_of (cs : list ascii) (s : string) : string * string :=
  match s with String c s' => if bool_decide (c ∈ cs) then (String c "", s') else ("", s) | EmptyString => ("", "") end.

(* @src src/model/formats/hf/hf_json_reader.cpp:107-129 HfJsonReader::ParseInt64 *)
Definition ParseInt64 : J Z :=
  _ ← SkipWhitespace;
  ((fun s =>
    let '(sign, s1) := one_of ["-"%char] s in
    let '(ds, rest) := digits_span s1 in
    if bool_decide (ds = "") then (Fail (bad "Expected integer value"), rest)
    else match from_chars_i64 (sign +:+ ds) with
         | Some v => (Ret v, rest)
         | None => (Fail (bad "Invalid integer value"), rest)
         end) : J Z).
(* @src src/model/formats/hf/hf_json_reader.cpp:131-148 HfJsonReader::ParseUInt64 *)
Definition ParseUInt64 : J Z :=
  _ ← SkipWhitespace;
  ((fun s =>
    let '(ds, rest) := digits_span s in
    if bool_decide (ds = "") then (Fail (bad "Expected non-negative integer value"), rest)
    else match from_chars_u64 ds with
         | Some v => (Ret v, rest)
         | None => (Fail (bad "Invalid unsigned integer value"), rest)
         end) : J Z).

(** The token a floating-point value may take: sign, digits, fraction, exponent. *)
Definition float_token (s : string) : string * string :=
  let '(sign, s) := one_of ["-"%char] s in
  let '(int, s) := digits_span s in
  let '(frac, s) := (let '(dot, s1) := one_of ["."%char] s in
                     if bool_decide (dot = "") then ("", s) else let '(ds, s2) := digits_span s1 in (dot +:+ ds, s2)) in
  let '(exp, s) := (let '(e, s1) := one_of ["e"%char; "E"%char] s in
                    if bool_decide (e = "") then ("", s)
                    else let '(sg, s2) := one_of ["+"%char; "-"%char] s1 in let '(ds, s3) := digits_span s2 in (e +:+ sg +:+ ds, s3)) in
  (sign +:+ int +:+ frac +:+ exp, s).

(* @src src/model/formats/hf/hf_json_reader.cpp:150-188 HfJsonReader::ParseDouble *)
Definition ParseDouble : J Z :=
  _ ← SkipWhitespace;
  ((fun s =>
    let '(token, rest) := float_token s in
    if bool_decide (token = "") || bool_decide (token = "-") then (Fail (bad "Expected floating point value"), rest)
    else match read_float binary64 token with
         | Some v => (Ret v, rest)
         | None => (Fail (bad "Invalid floating point value"), rest)
         end) : J Z).
(* @src src/model/formats/hf/hf_json_reader.cpp:190-198 HfJsonReader::ParseBool *)
Definition ParseBool : J bool :=
  t ← TryConsumeLiteral "true";
  if (t : bool) then mret true else
  f ← TryConsumeLiteral "false";
  if (f : bool) then mret false else jfail "Expected boolean value".

(** ** Objects and arrays *)

(** [while (true)] over the members of an object, up to its closing brace. *)
Fixpoint members_loop {S} (fuel : nat) (after_key between : string) (body : S -> string -> J S) (st : S) : J S :=
  match fuel with
  | O => lift (Panic "fuel")
  | Datatypes.S fuel' =>
      key ← ParseString;
      _ ← Expect ":"%char after_key;
      st' ← body st key;
      _ ← SkipWhitespace;
      closed ← TryConsume "}"%char;
      if (closed : bool) then mret st' else
      _ ← Expect ","%char between;
      members_loop fuel' after_key between body st'
  end.
(** The members of an object whose opening brace has been read. *)
Definition members {S} (after_key between : string) (body : S -> string -> J S) (st : S) : J S :=
  _ ← SkipWhitespace;
  closed ← TryConsume "}"%char;
  if (closed : bool) then mret st else fun s => members_loop (Datatypes.S (String.length s)) after_key between body st s.

(** Likewise for the elements of an array. *)
Fixpoint elements_loop {S} (fuel : nat) (between : string) (element : S -> J S) (st : S) : J S :=
  match fuel with
  | O => lift (Panic "fuel")
  | Datatypes.S fuel' =>
      st' ← element st;
      _ ← SkipWhitespace;
      closed ← TryConsume "]"%char;
      if (closed : bool) then mret st' else
      _ ← Expect ","%char between;
      elements_loop fuel' between element st'
  end.
Definition elements {S} (between : string) (element : S -> J S) (st : S) : J S :=
  _ ← SkipWhitespace;
  closed ← TryConsume "]"%char;
  if (closed : bool) then mret st else fun s => elements_loop (Datatypes.S (String.length s)) between element st s.

(* @src src/model/formats/hf/hf_json_reader.cpp:200-223 HfJsonReader::ParseStringArray *)
Definition ParseStringArray : J (list string) :=
  _ ← Expect "["%char "at start of string array";
  elements "between string array elements" (fun values => value ← ParseString; mret (values ++ [value])) [].
(* @src src/model/formats/hf/hf_json_reader.cpp:225-248 HfJsonReader::ParseInt64Array *)
Definition ParseInt64Array : J (list Z) :=
  _ ← Expect "["%char "at start of integer array";
  elements "between integer array elements" (fun values => value ← ParseInt64; mret (values ++ [value])) [].

Definition kMaxSkipDepth : nat := 32.

(** The character under the reader. *)
Definition peek : J (option ascii) := fun s => (Ret (String.get 0 s), s).
Definition advance : J unit := fun s => (Ret tt, string_drop 1 s).

(** [levels] is how many more levels of nesting are allowed: [depth] is
    [kMaxSkipDepth + 1 - levels]. *)
(* @src src/model/formats/hf/hf_json_reader.cpp:254-327 HfJsonReader::SkipValueInternal *)
Fixpoint SkipValueInternal (levels : nat) : J unit :=
  match levels with
  | O => jfail "JSON nesting depth exceeds maximum"
  | Datatypes.S levels' =>
      _ ← SkipWhitespace;
      cur ← peek;
      match cur with
      | None => jfail "Unexpected end of JSON while skipping value"
      | Some c =>
          if Ascii.eqb c "{"%char then
            _ ← advance;
            members "inside JSON object while skipping value" "inside JSON object while skipping value"
              (fun _ _ => SkipValueInternal levels') tt
          else if Ascii.eqb c "["%char then
            _ ← advance;
            elements "inside JSON array while skipping value" (fun _ => SkipValueInternal levels') tt
          else if Ascii.eqb c quote then _ ← ParseString; mret tt
          else if is_digit c || Ascii.eqb c "-"%char then _ ← ParseDouble; mret tt
          else
            t ← TryConsumeLiteral "true";
            if (t : bool) then mret tt else
            f ← TryConsumeLiteral "false";
            if (f : bool) then mret tt else
            n ← TryConsumeLiteral "null";
            if (n : bool) then mret tt else jfail "Unsupported JSON value while skipping"
      end
  end.
(* @src src/model/formats/hf/hf_json_reader.cpp:250-252 HfJsonReader::SkipValue *)
Definition SkipValue : J unit := SkipValueInternal (Datatypes.S kMaxSkipDepth).

(** ** No operation gets stuck *)

(** At [s], [m] returns or fails with a status, and never moves backwards. *)
Definition safe_at {A} (m : J A) (s : string) : Prop :=
  (String.length (m s).2 <= String.length s)%nat /\ forall w, (m s).1 <> Panic w.
Definition safe {A} (m : J A) : Prop := forall s, safe_at m s.

Lemma safe_at_bind {A B} (m : J A) (k : A -> J B) s : safe_at m s ->
  (forall a s', m s = (Ret a, s') -> (String.length s' <= String.length s)%nat -> safe_at (k a) s') -> safe_at (m ≫= k) s.
Proof.
  unfold safe_at, mbind, exec_mbind, exec_bind. destruct (m s) as [[a|e|w] s'] eqn:E; cbn; intros [H1 H2] Hk.
  - destruct (Hk a s' eq_refl H1) as [H3 H4]. split; [lia|done].
  - split; [done|by intros w].
  - by destruct (H2 w).
Qed.
Lemma safe_bind {A B} (m : J A) (k : A -> J B) : safe m -> (forall a, safe (k a)) -> safe (m ≫= k).
Proof. intros Hm Hk s. apply safe_at_bind; [apply Hm|]. intros a s' _ _. apply Hk. Qed.
Lemma safe_ret {A} (a : A) : safe (mret a).
Proof. intros s. split; [done|by intros w]. Qed.
Lemma safe_fail {A} msg : safe (jfail (A := A) msg).
Proof. intros s. split; [done|by intros w]. Qed.

Lemma skip_spaces_le s : (String.length (skip_spaces s) <= String.length s)%nat.
Proof. induction s as [|c s IH]; cbn; [done|]. destruct (is_space c); cbn; lia. Qed.
Lemma drop_le n s : (String.length (string_drop n s) <= String.length s)%nat.
Proof. revert s. induction n as [|n IH]; intros [|c s]; cbn; try lia. specialize (IH s). lia. Qed.

Lemma safe_whitespace : safe SkipWhitespace.
Proof. intros s. split; [apply skip_spaces_le|by intros w]. Qed.
#[local] Hint Resolve safe_ret safe_fail safe_whitespace : core.

Lemma safe_consume c : safe (TryConsume c).
Proof.
  apply safe_bind; [done|]. intros _ [|x s]; [split; [done|by intros w]|]. unfold safe_at. destruct (Ascii.eqb x c); cbn; split; try lia; by intros w.
Qed.
Lemma safe_literal l : safe (TryConsumeLiteral l).
Proof. apply safe_bind; [done|]. intros _ s. unfold safe_at. destruct (String.prefix l s); cbn; split; try done; try (by intros w); apply drop_le. Qed.
#[local] Hint Resolve safe_consume safe_literal : core.
Lemma safe_expect c ctx : safe (Expect c ctx).
Proof. apply safe_bind; [done|]. intros []; done. Qed.
#[local] Hint Resolve safe_expect : core.

(** What is expected and found is consumed. *)
Lemma expect_consumes c ctx s u s' : Expect c ctx s = (Ret u, s') -> (String.length s' < String.length s)%nat.
Proof.
  unfold Expect. intros H. apply exec_bind_inv in H as (ok & s1 & H1 & H2). destruct ok; [|done]. injection H2 as _ <-.
  unfold TryConsume in H1. apply exec_bind_inv in H1 as (? & s2 & H0 & H1). injection H0 as _ <-. pose proof (skip_spaces_le s) as Hl.
  destruct (skip_spaces s) as [|y t]; [done|]. cbn in Hl. destruct (Ascii.eqb y c); [|done]. injection H1 as <-. lia.
Qed.

Lemma string_body_safe n : forall s result, (String.length s <= n)%nat ->
  (String.length (string_body s result).2 <= String.length s)%nat /\ forall w, (string_body s result).1 <> Panic w.
Proof.
  induction n as [|n IH]; intros [|c s] result Hn; cbn in Hn; try lia; try (split; [done|by intros w]). cbn.
  destruct (Ascii.eqb c quote); [cbn; split; [lia|by intros w]|]. destruct (Ascii.eqb c "\").
  - destruct s as [|e s]; cbn; [split; [lia|by intros w]|]. destruct (unescape e); [|cbn; split; [lia|by intros w]].
    cbn in Hn. destruct (IH s (result +:+ String a "") ltac:(lia)) as [H1 H2]. split; [lia|done].
  - destruct (IH s (result +:+ String c "") ltac:(lia)) as [H1 H2]. split; [lia|done].
Qed.
Lemma safe_string : safe ParseString.
Proof.
  apply safe_bind; [done|]. intros _ [|c s]; [split; [done|by intros w]|]. unfold safe_at. destruct (Ascii.eqb c quote); [|cbn; split; [lia|by intros w]].
  destruct (string_body_safe (String.length s) s "" ltac:(done)) as [H1 H2]. cbn. split; [lia|done].
Qed.

Lemma digits_span_le s : (String.length (digits_span s).2 <= String.length s)%nat.
Proof. induction s as [|c s IH]; cbn; [done|]. destruct (is_digit c); [|done]. destruct (digits_span s). cbn in *. lia. Qed.
Lemma one_of_le cs s : (String.length (one_of cs s).2 <= String.length s)%nat.
Proof. destruct s as [|c s]; cbn; [done|]. case_bool_decide; cbn; lia. Qed.

Lemma float_token_le s : (String.length (float_token s).2 <= String.length s)%nat.
Proof.
  unfold float_token. pose proof (one_of_le ["-"%char] s) as H1. destruct (one_of ["-"%char] s) as [sign s1].
  pose proof (digits_span_le s1) as H2. destruct (digits_span s1) as [int s2].
  pose proof (one_of_le ["."%char] s2) as H3. destruct (one_of ["."%char] s2) as [dot s3].
  assert (forall b : bool, String.length (if b then ("", s2) else let '(ds, s4) := digits_span s3 in (dot +:+ ds, s4)).2 <= String.length s2)%nat as H4.
  { intros []; [done|]. pose proof (digits_span_le s3). destruct (digits_span s3). cbn in *. lia. }
  specialize (H4 (bool_decide (dot = ""))). destruct (if bool_decide (dot = "") then _ else _) as [frac s4]. cbn in *.
  pose proof (one_of_le ["e"%char; "E"%char] s4) as H5. destruct (one_of ["e"%char; "E"%char] s4) as [e s5]. cbn in H5.
  pose proof (one_of_le ["+"%char; "-"%char] s5) as H6. destruct (one_of ["+"%char; "-"%char] s5) as [sg s6]. cbn in H6.
  pose proof (digits_span_le s6) as H7. destruct (digits_span s6) as [ds s7]. cbn in H7. case_bool_decide; cbn; lia.
Qed.

Lemma safe_int64 : safe ParseInt64.
Proof.
  apply safe_bind; [done|]. intros _ s. unfold safe_at. pose proof (one_of_le ["-"%char] s) as H1. destruct (one_of ["-"%char] s) as [sign s1].
  pose proof (digits_span_le s1) as H2. destruct (digits_span s1) as [ds rest]. cbn in *. case_bool_decide; cbn; [split; [lia|by intros w]|].
  destruct (from_chars_i64 _); cbn; (split; [lia|by intros w]).
Qed.
Lemma safe_uint64 : safe ParseUInt64.
Proof.
  apply safe_bind; [done|]. intros _ s. unfold safe_at. pose proof (digits_span_le s) as H2. destruct (digits_span s) as [ds rest]. cbn in *.
  case_bool_decide; cbn; [split; [lia|by intros w]|]. destruct (from_chars_u64 _); cbn; (split; [lia|by intros w]).
Qed.
Lemma safe_double : safe ParseDouble.
Proof.
  apply safe_bind; [done|]. intros _ s. unfold safe_at. pose proof (float_token_le s) as H2. destruct (float_token s) as [token rest]. cbn in *.
  destruct (bool_decide (token = "") || bool_decide (token = "-")); cbn; [split; [lia|by intros w]|]. destruct (read_float binary64 token); cbn; (split; [lia|by intros w]).
Qed.
#[local] Hint Resolve safe_string safe_int64 safe_uint64 safe_double : core.
Lemma safe_bool : safe ParseBool.
Proof. apply safe_bind; [done|]. intros []; [done|]. apply safe_bind; [done|]. intros []; done. Qed.

(** The bound of the loops is enough: each further round consumes a comma. *)
Lemma members_loop_safe {S} after between (body : S -> string -> J S) : (forall st key, safe (body st key)) ->
  forall fuel st s, (String.length s < fuel)%nat -> safe_at (members_loop fuel after between body st) s.
Proof.
  intros Hb. induction fuel as [|fuel IH]; intros st s Hs; [lia|]. cbn [members_loop].
  apply safe_at_bind; [apply safe_string|]. intros key s1 _ L1. apply safe_at_bind; [apply safe_expect|]. intros _ s2 _ L2.
  apply safe_at_bind; [apply Hb|]. intros st' s3 _ L3. apply safe_at_bind; [apply safe_whitespace|]. intros _ s4 _ L4.
  apply safe_at_bind; [apply safe_consume|]. intros closed s5 _ L5. destruct closed; [apply safe_ret|].
  apply safe_at_bind; [apply safe_expect|]. intros u6 s6 E6 _. apply expect_consumes in E6. apply IH. lia.
Qed.
Lemma safe_members {S} after between (body : S -> string -> J S) st : (forall st key, safe (body st key)) -> safe (members after between body st).
Proof.
  intros Hb. apply safe_bind; [done|]. intros _. apply safe_bind; [done|]. intros [] s; [apply safe_ret|]. apply members_loop_safe; [done|]. lia.
Qed.
Lemma elements_loop_safe {S} between (element : S -> J S) : (forall st, safe (element st)) ->
  forall fuel st s, (String.length s < fuel)%nat -> safe_at (elements_loop fuel between element st) s.
Proof.
  intros Hb. induction fuel as [|fuel IH]; intros st s Hs; [lia|]. cbn [elements_loop].
  apply safe_at_bind; [apply Hb|]. intros st' s3 _ L3. apply safe_at_bind; [apply safe_whitespace|]. intros _ s4 _ L4.
  apply safe_at_bind; [apply safe_consume|]. intros closed s5 _ L5. destruct closed; [apply safe_ret|].
  apply safe_at_bind; [apply safe_expect|]. intros u6 s6 E6 _. apply expect_consumes in E6. apply IH. lia.
Qed.
Lemma safe_elements {S} between (element : S -> J S) st : (forall st, safe (element st)) -> safe (elements between element st).
Proof.
  intros Hb. apply safe_bind; [done|]. intros _. apply safe_bind; [done|]. intros [] s; [apply safe_ret|]. apply elements_loop_safe; [done|]. lia.
Qed.

Lemma safe_string_array : safe ParseStringArray.
Proof. apply safe_bind; [done|]. intros _. apply safe_elements. intros st. by apply safe_bind. Qed.
Lemma safe_int64_array : safe ParseInt64Array.
Proof. apply safe_bind; [done|]. intros _. apply safe_elements. intros st. by apply safe_bind. Qed.

Lemma safe_skip_value levels : safe (SkipValueInternal levels).
Proof.
  induction levels as [|levels IH]; [apply safe_fail|]. cbn [SkipValueInternal]. apply safe_bind; [done|]. intros _. apply safe_bind.
  { intros s. split; [done|by intros w]. }
  intros [c|]; [|done]. assert (safe advance) as Hadv by (intros s; split; [apply drop_le|by intros w]).
  destruct (Ascii.eqb c "{"); [apply safe_bind; [done|]; intros _; by apply safe_members|].
  destruct (Ascii.eqb c "["); [apply safe_bind; [done|]; intros _; by apply safe_elements|].
  destruct (Ascii.eqb c quote); [by apply safe_bind|]. destruct (is_digit c || Ascii.eqb c "-"); [by apply safe_bind|].
  do 3 (apply safe_bind; [done|]; intros []; [done|]). done.
Qed.

(** ** Loop invariants *)

Lemma members_loop_inv {S} (P : S -> Prop) after between (body : S -> string -> J S) :
  (forall st key s st' s', P st -> body st key s = (Ret st', s') -> P st') ->
  forall fuel st s r s', P st -> members_loop fuel after between body st s = (Ret r, s') -> P r.
Proof.
  intros Hb. induction fuel as [|fuel IH]; intros st s r s' Hst H; [done|]. cbn [members_loop] in H.
  apply exec_bind_inv in H as (key & s1 & _ & H). apply exec_bind_inv in H as (? & s2 & _ & H). apply exec_bind_inv in H as (st' & s3 & H3 & H).
  apply exec_bind_inv in H as (? & s4 & _ & H). apply exec_bind_inv in H as (closed & s5 & _ & H). pose proof (Hb _ _ _ _ _ Hst H3) as Hst'.
  destruct closed; [by injection H as <- _|]. apply exec_bind_inv in H as (? & s6 & _ & H). by eapply IH.
Qed.
Lemma members_inv {S} (P : S -> Prop) after between (body : S -> string -> J S) st s r s' :
  (forall st key s st' s', P st -> body st key s = (Ret st', s') -> P st') -> P st -> members after between body st s = (Ret r, s') -> P r.
Proof.
  intros Hb Hst H. unfold members in H. apply exec_bind_inv in H as (? & s1 & _ & H). apply exec_bind_inv in H as (closed & s2 & _ & H).
  destruct closed; [by injection H as <- _|]. by eapply members_loop_inv.
Qed.

(** The members of an object as they were met: every key with the text at its value. *)
Definition logged {S} (body : S -> string -> J S) (x : S * list (string * string)) (key : string) : J (S * list (string * string)) :=
  fun s => let '(r, s') := body x.1 key s in (st ← r; Ret (st, x.2 ++ [(key, s)]), s').
Lemma logged_inv {S} (body : S -> string -> J S) x key s y s' : logged body x key s = (Ret y, s') ->
  body x.1 key s = (Ret y.1, s') /\ y.2 = x.2 ++ [(key, s)].
Proof. unfold logged. destruct (body x.1 key s) as [[st|e|w] t]; [|done..]. cbn. by intros [= <- <-]. Qed.

Lemma exec_bind_ret {A B} (m : J A) (f : A -> J B) s v s1 : m s = (Ret v, s1) -> (m ≫= f) s = f v s1.
Proof. intros H. unfold mbind, exec_mbind, exec_bind. by rewrite H. Qed.

Lemma members_loop_logged {S} after between (body : S -> string -> J S) fuel : forall st log s r s',
  members_loop fuel after between body st s = (Ret r, s') -> exists log', members_loop fuel after between (logged body) (st, log) s = (Ret (r, log'), s').
Proof.
  induction fuel as [|fuel IH]; intros st log s r s' H; [done|]. cbn [members_loop] in H |- *.
  apply exec_bind_inv in H as (key & s1 & H1 & H). apply exec_bind_inv in H as (u & s2 & H2 & H). apply exec_bind_inv in H as (st' & s3 & H3 & H).
  apply exec_bind_inv in H as (u' & s4 & H4 & H). apply exec_bind_inv in H as (closed & s5 & H5 & H).
  rewrite (exec_bind_ret _ _ _ _ _ H1), (exec_bind_ret _ _ _ _ _ H2).
  assert (logged body (st, log) key s2 = (Ret (st', log ++ [(key, s2)]), s3)) as E by (unfold logged; cbn; by rewrite H3).
  rewrite (exec_bind_ret _ _ _ _ _ E), (exec_bind_ret _ _ _ _ _ H4), (exec_bind_ret _ _ _ _ _ H5).
  destruct closed; [injection H as <- <-; by eexists|]. apply exec_bind_inv in H as (u'' & s6 & H6 & H).
  rewrite (exec_bind_ret _ _ _ _ _ H6). by apply IH.
Qed.
Lemma members_logged {S} after between (body : S -> string -> J S) st log s r s' :
  members after between body st s = (Ret r, s') -> exists log', members after between (logged body) (st, log) s = (Ret (r, log'), s').
Proof.
  intros H. unfold members in H |- *. apply exec_bind_inv in H as (u & s1 & H1 & H). apply exec_bind_inv in H as (closed & s2 & H2 & H).
  rewrite (exec_bind_ret _ _ _ _ _ H1), (exec_bind_ret _ _ _ _ _ H2). destruct closed; [injection H as <- <-; by eexists|]. by apply members_loop_logged.
Qed.

Lemma elements_inv {S} (P : S -> Prop) between (element : S -> J S) st s r s' :
  (forall st s st' s', P st -> element st s = (Ret st', s') -> P st') -> P st -> elements between element st s = (Ret r, s') -> P r.
Proof.
  intros Hb Hst H. unfold elements in H. apply exec_bind_inv in H as (? & s1 & _ & H). apply exec_bind_inv in H as (closed & s2 & _ & H).
  destruct closed; [by injection H as <- _|]. remember (Datatypes.S (String.length s2)) as fuel eqn:Ef. clear Ef s s1. revert st s2 Hst H.
  induction fuel as [|fuel IH]; intros st s2 Hst H; [done|]. cbn [elements_loop] in H. apply exec_bind_inv in H as (st' & s3 & H3 & H).
  apply exec_bind_inv in H as (? & s4 & _ & H). apply exec_bind_inv in H as (cl & s5 & _ & H). pose proof (Hb _ _ _ _ Hst H3) as Hst'.
  destruct cl; [by injection H as <- _|]. apply exec_bind_inv in H as (? & s6 & _ & H). by eapply IH.
Qed.

(** ** Values are in the range of their types *)

Lemma in_range_some lo hi v r : in_range lo hi v = Some r -> r = v /\ lo <= v <= hi.
Proof. unfold in_range. destruct ((lo <=? v) && (v <=? hi)) eqn:E; [|done]. intros [= <-]. bsplit. done. Qed.

Lemma parsed_int64 s v s' : ParseInt64 s = (Ret v, s') -> in_i 64 v.
Proof.
  unfold ParseInt64. intros H. apply exec_bind_inv in H as (? & s1 & _ & H). destruct (one_of _ s1) as [sign s2]. destruct (digits_span s2) as [ds rest].
  destruct (bool_decide (ds = "")); [done|]. destruct (from_chars_i64 _) as [r|] eqn:E; [|done]. injection H as <- _. unfold from_chars_i64 in E. unfold in_i.
  assert (INT64_MIN <= r <= INT64_MAX) as Hr.
  { destruct (sign +:+ ds) as [|c t]; [by vm_compute in E|]. destruct c as [[] [] [] [] [] [] [] []];
      (apply bind_Some in E as (n & _ & E); apply in_range_some in E as [-> E]; exact E). }
  unfold INT64_MIN, INT64_MAX in Hr. lia.
Qed.
Lemma parsed_uint64 s v s' : ParseUInt64 s = (Ret v, s') -> in_u 64 v.
Proof.
  unfold ParseUInt64. intros H. apply exec_bind_inv in H as (? & s1 & _ & H). destruct (digits_span s1) as [ds rest].
  destruct (bool_decide (ds = "")); [done|]. destruct (from_chars_u64 _) as [r|] eqn:E; [|done]. injection H as <- _. unfold from_chars_u64 in E.
  apply bind_Some in E as (n & _ & E). apply in_range_some in E as [-> E]. unfold in_u, UINT64_MAX in *. lia.
Qed.
Lemma parsed_int64_array s l s' : ParseInt64Array s = (Ret l, s') -> Forall (in_i 64) l.
Proof.
  unfold ParseInt64Array. intros H. apply exec_bind_inv in H as (? & s1 & _ & H). revert H. apply elements_inv; [|constructor].
  intros st t st' t' Hst H. apply exec_bind_inv in H as (v & t1 & Hv & H). injection H as <- _. apply Forall_app. split; [done|]. apply Forall_singleton. by eapply parsed_int64.
Qed.

(** ** Floating values are finite *)

(** The characters of a number. *)
Definition plain (c : ascii) : bool := is_digit c || bool_decide (c ∈ ["-"; "+"; "."; "e"; "E"]%char).

Lemma digits_span_plain s : all_chars plain (digits_span s).1 = true.
Proof.
  induction s as [|c s IH]; cbn [digits_span]; [done|]. destruct (is_digit c) eqn:E; [|done]. destruct (digits_span s) as [a b]. cbn [fst all_chars] in *.
  rewrite IH. unfold plain. by rewrite E.
Qed.
Lemma one_of_plain cs s : forallb plain cs = true -> all_chars plain (one_of cs s).1 = true.
Proof.
  intros H. destruct s as [|c s]; [done|]. cbn [one_of]. case_bool_decide as Hc; [|done]. cbn [fst all_chars]. rewrite forallb_forall in H.
  by rewrite (H c (proj1 (list_elem_of_In _ _) Hc)).
Qed.

Lemma float_token_plain s : all_chars plain (float_token s).1 = true.
Proof.
  unfold float_token. pose proof (one_of_plain ["-"%char] s eq_refl) as H1. destruct (one_of ["-"%char] s) as [sign s1].
  pose proof (digits_span_plain s1) as H2. destruct (digits_span s1) as [int s2].
  pose proof (one_of_plain ["."%char] s2 eq_refl) as H3. destruct (one_of ["."%char] s2) as [dot s3].
  assert (forall b : bool, all_chars plain (if b then ("", s2) else let '(ds, s4) := digits_span s3 in (dot +:+ ds, s4)).1 = true) as H4.
  { intros []; [done|]. pose proof (digits_span_plain s3) as Hd. destruct (digits_span s3) as [ds s4]. cbn [fst] in *. by rewrite all_chars_app, H3, Hd. }
  specialize (H4 (bool_decide (dot = ""))). destruct (if bool_decide (dot = "") then _ else _) as [frac s4]. cbn [fst] in *.
  pose proof (one_of_plain ["e"%char; "E"%char] s4 eq_refl) as H5. destruct (one_of ["e"%char; "E"%char] s4) as [e s5]. cbn [fst] in H5.
  pose proof (one_of_plain ["+"%char; "-"%char] s5 eq_refl) as H6. destruct (one_of ["+"%char; "-"%char] s5) as [sg s6]. cbn [fst] in H6.
  pose proof (digits_span_plain s6) as H7. destruct (digits_span s6) as [ds s7]. cbn [fst] in H7.
  case_bool_decide; cbn [fst]; rewrite !all_chars_app, H1, H2, H4, ?H5, ?H6, ?H7; done.
Qed.

Definition is_lower_in (c : ascii) : bool := bool_decide (lower c = "i"%char) || bool_decide (lower c = "n"%char).
Lemma plain_letter c : plain c = true -> is_lower_in c = false.
Proof. destruct c as [[] [] [] [] [] [] [] []]; vm_compute; congruence. Qed.

(** Number text reads as neither an infinity nor a NaN. *)
Lemma plain_not_special s : all_chars plain s = true -> bool_decide (lowercase s = "inf") || bool_decide (lowercase s = "infinity") = false /\ is_nan s = false.
Proof.
  destruct s as [|c s]; [done|]. cbn [all_chars]. intros [Hc _]%andb_true_iff. apply plain_letter in Hc. unfold is_lower_in in Hc. bsplit. split.
  - assert (forall t, String "i" t <> lowercase (String c s)) as Hn by (intros t [= E _]; by rewrite <- E in *).
    by rewrite !bool_decide_false by (intros E; by eapply Hn).
  - assert (bool_decide (lowercase (string_take 3 (String c s)) = "nan") = false) as Hn by (apply bool_decide_eq_false; intros [= E _]; by rewrite E in *).
    unfold is_nan. rewrite Hn. by destruct (string_drop 3 (String c s)).
Qed.

Lemma encode_nonneg f n d : 0 <= mant_bits f -> 0 < n -> 0 < d -> 0 <= encode f n d.
Proof.
  intros Hm Hn Hd. unfold encode. cbv zeta. set (e := Z.max _ _ - mant_bits f). assert (0 <= e + mant_bits f + fbias f - 1) by (unfold e; lia).
  assert (forall b i, 0 < b -> 0 < ppow b i) as Hp by (intros; unfold ppow; apply Z.pow_pos_nonneg; lia).
  assert (0 <= round_div (n * ppow 2 (- e)) (d * ppow 2 e)) as Hr.
  { unfold round_div. pose proof (Hp 2 (- e) ltac:(lia)). pose proof (Hp 2 e ltac:(lia)). pose proof (Z.div_pos (n * ppow 2 (- e)) (d * ppow 2 e) ltac:(nia) ltac:(nia)).
    destruct (_ || _); lia. }
  pose proof (Z.pow_nonneg 2 (mant_bits f) ltac:(lia)). nia.
Qed.

(** A finite pattern: below the infinity, with or without the sign. *)
Lemma finite_pattern x : 0 <= x < finf binary64 -> (in_u 64 x /\ f64_isfinite x = true) /\ in_u 64 (x + fsign binary64) /\ f64_isfinite (x + fsign binary64) = true.
Proof.
  change (finf binary64) with (2047 * 2 ^ 52). change (fsign binary64) with (2 ^ 63). intros Hx. unfold f64_isfinite, in_u.
  assert (forall y, Z.land y 2047 = y mod 2 ^ 11) as HL by (intros y; by apply (Z.land_ones y 11)). rewrite !HL, !Z.shiftr_div_pow2 by lia.
  assert (0 <= x / 2 ^ 52 < 2047) by (split; [apply Z.div_pos; lia|apply Z.div_lt_upper_bound; lia]).
  replace (x + 2 ^ 63) with (x + 2 ^ 11 * 2 ^ 52) by lia. rewrite Z.div_add by lia.
  replace (x / 2 ^ 52 + 2 ^ 11) with (x / 2 ^ 52 + 1 * 2 ^ 11) by lia. rewrite Z.mod_add by lia. rewrite Z.mod_small by lia.
  rewrite (proj2 (Z.eqb_neq _ _)) by lia. cbn [negb]. lia.
Qed.

Lemma read_unsigned_finite s x : all_chars plain s = true -> read_unsigned binary64 s = Some x -> 0 <= x < finf binary64.
Proof.
  intros Hp. destruct (plain_not_special s Hp) as [H1 H2]. unfold read_unsigned. rewrite H1, H2. intros H. apply bind_Some in H as ([[v frac] rest] & _ & H).
  apply bind_Some in H as (i & _ & H). unfold from_decimal in H. destruct (Z.of_N v =? 0) eqn:Ev; [injection H as <-; by vm_compute|].
  destruct ((_ =? 0) || _) eqn:E; [done|]. injection H as <-. bsplit. split; [|done].
  assert (forall j, 0 < ppow 10 j) as Hpow by (intros; unfold ppow; apply Z.pow_pos_nonneg; lia).
  apply encode_nonneg; [by vm_compute| |done]. pose proof (Hpow (i - Z.of_nat frac)). nia.
Qed.

Lemma read_float_finite s x : all_chars plain s = true -> read_float binary64 s = Some x -> in_u 64 x /\ f64_isfinite x = true.
Proof.
  intros Hp H. destruct s as [|c s]; [by vm_compute in H|]. destruct (Ascii.eqb c "-"%char) eqn:Ec.
  - apply Ascii.eqb_eq in Ec as ->. cbn [read_float] in H. apply bind_Some in H as (y & Hy & H). injection H as <-.
    cbn [all_chars] in Hp. apply andb_true_iff in Hp as [_ Hp]. by apply finite_pattern, (read_unsigned_finite s).
  - assert (read_float binary64 (String c s) = read_unsigned binary64 (String c s)) as Er by (destruct c as [[] [] [] [] [] [] [] []]; try done).
    rewrite Er in H. by apply finite_pattern, (read_unsigned_finite (String c s)).
Qed.

Lemma parsed_double s v s' : ParseDouble s = (Ret v, s') -> in_u 64 v /\ f64_isfinite v = true.
Proof.
  unfold ParseDouble. intros H. apply exec_bind_inv in H as (? & s1 & _ & H). pose proof (float_token_plain s1) as Hp. destruct (float_token s1) as [token rest].
  destruct (_ || _); [done|]. destruct (read_float binary64 token) as [r|] eqn:E; [|done]. injection H as <- _. by eapply read_float_finite.
Qed.

(** ** Strings round trip *)

(** A string as a JSON text, with quotes and backslashes escaped. *)
Fixpoint escape (s : string) : string :=
  match s with
  | EmptyString => ""
  | String c s' => if Ascii.eqb c quote || Ascii.eqb c "\"%char then String "\"%char (String c (escape s')) else String c (escape s')
  end.

Lemma string_body_escape s : forall rest acc, string_body (escape s +:+ String quote rest) acc = (Ret (acc +:+ s), rest).
Proof.
  induction s as [|c s IH]; intros rest acc; cbn [escape].
  - by rewrite string_app_nil.
  - destruct (Ascii.eqb c quote) eqn:Eq; [|destruct (Ascii.eqb c "\"%char) eqn:Eb]; cbn [orb].
    + apply Ascii.eqb_eq in Eq as ->. simpl. rewrite IH. by rewrite string_app_assoc.
    + apply Ascii.eqb_eq in Eb as ->. simpl. rewrite IH. by rewrite string_app_assoc.
    + simpl. rewrite Eq, Eb, IH. by rewrite string_app_assoc.
Qed.

(** Every string written with its quotes and backslashes escaped is read back, whatever
    follows it, and the reader stands right after it. *)
Theorem ParseString_roundtrip s rest : ParseString (String quote (escape s +:+ String quote rest)) = (Ret s, rest).
Proof. unfold ParseString, mbind, exec_mbind, exec_bind. cbn -[string_body escape]. apply string_body_escape. Qed.
