(* ===== verification/Safetensors.v ===== *)
(** * Safetensors: the header of a safetensors file

    [src/model/formats/hf/hf_safetensors_file.cpp] and the data types of
    [src/model/formats/hf/hf_utils.cpp]. A file is mapped at an address; its bytes are a
    list. The header names the tensors with their types, shapes and byte ranges, and
    opening the file turns each into a view of the mapped data. How [std::ranges::sort]
    orders tensors that begin at the same offset is not specified: the sort is a
    parameter with the contract of the algorithm. *)
From Stdlib Require Import Ascii Sorted.
From stdpp Require Import sorting.
From S2P Require Import Prelude OverflowCheck ShapeSymbol ShapeConstraint DataTypes OperatorSchema Graph FloatFormat OpParamsSerde KernelRegistry Workspace Tensor Prepack HfModel HfJson.

(** ** Data types *)

(* @src src/model/formats/hf/hf_utils.cpp:9-76 ParseSafetensorsDType *)
Definition ParseSafetensorsDType (text : string) : Res DataType.t :=
  let equals := String.eqb text in
  if equals "F16" then Ret (DataType.Float 16)
  else if equals "BF16" then Ret (DataType.BFloat 16)
  else if equals "F32" then Ret DataType.Float32
  else if equals "F64" then Ret (DataType.Float 64)
  else if equals "I16" then Ret (DataType.Int 16)
  else if equals "I32" then Ret (DataType.Int 32)
  else if equals "I64" then Ret (DataType.Int 64)
  else if equals "I8" then Ret (DataType.Int 8)
  else if equals "U8" then Ret (DataType.UInt 8)
  else if equals "U16" then Ret (DataType.UInt 16)
  else if equals "U32" then Ret (DataType.UInt 32)
  else if equals "U64" then Ret (DataType.UInt 64)
  else if equals "BOOL" then Ret (DataType.UInt 1)
  else if equals "F8_E5M2" then Ret DataType.Float8E5M2
  else if equals "F8_E4M3" then Ret (DataType.mk DLDataTypeCode.kFloat8_e4m3 8 1)
  else Fail (bad ("Unsupported safetensors dtype: " +:+ text)).

(** ** Tensors *)

(* @src include/aethermind/model/formats/hf/hf_safetensors_file.h:17-28 HfSafetensorsEntry *)
Record HfSafetensorsEntry := mkEntry {
  ent_name : string; ent_dtype : DataType.t; ent_shape : list Z; data_offset_begin : Z; data_offset_end : Z; ent_view : RawWeightView }.

(* @src src/model/formats/hf/hf_safetensors_file.cpp:47-58 ParseLittleEndianU64 *)
Definition ParseLittleEndianU64 (bytes : list Z) : Res Z :=
  if (length bytes <? 8)%nat then Fail (bad "Safetensors file is too small to contain header length")
  else Ret (foldl (fun value p => Z.lor value (u64 (Z.shiftl p.2 (Z.of_nat p.1 * 8)))) 0 (indexed (take 8 bytes))).

(* @src src/model/formats/hf/hf_safetensors_file.cpp:60-67 CheckedMultiply *)
Definition CheckedMultiply (lhs rhs : Z) (context : string) : Res Z :=
  let '(over, product) := CheckOverflowMul uint64_ty lhs rhs in
  if over then Fail (OutOfRange ("Integer overflow while computing " +:+ context)) else Ret product.

(* @src src/model/formats/hf/hf_safetensors_file.cpp:283-301 SafetensorsHeaderParser::ParseOffsetPair *)
Definition ParseOffsetPair : J (Z * Z) :=
  _ ← Expect "["%char "at start of data_offsets";
  first ← ParseUInt64;
  _ ← Expect ","%char "between data_offsets values";
  second ← ParseUInt64;
  _ ← SkipWhitespace;
  closed ← TryConsume "]"%char;
  if (closed : bool) then mret (first, second) else jfail "Expected closing ']' after data_offsets values".

(** The fields read so far: the last of several of the same name stays. *)
Record TensorFields := mkFields { f_dtype : option DataType.t; f_shape : list Z; f_offsets : option (Z * Z) }.

(* @src src/model/formats/hf/hf_safetensors_file.cpp:186-214 SafetensorsHeaderParser::ParseTensorEntry (field) *)
Definition tensor_field (f : TensorFields) (key : string) : J TensorFields :=
  if bool_decide (key = "dtype") then
    text ← ParseString; d ← lift (ParseSafetensorsDType text); mret (mkFields (Some d) (f_shape f) (f_offsets f))
  else if bool_decide (key = "shape") then
    shape ← ParseInt64Array; mret (mkFields (f_dtype f) shape (f_offsets f))
  else if bool_decide (key = "data_offsets") then
    offsets ← ParseOffsetPair; mret (mkFields (f_dtype f) (f_shape f) (Some offsets))
  else _ ← SkipValue; mret f.

Section Parser.
(** Where the data region is, and the sort. *)
Context (data_base data_size : Z) (sort : list HfSafetensorsEntry -> list HfSafetensorsEntry).

(* @src src/model/formats/hf/hf_safetensors_file.cpp:224-280 SafetensorsHeaderParser::ParseTensorEntry (checks) *)
Definition make_entry (name : string) (f : TensorFields) : Res HfSafetensorsEntry :=
  match f_dtype f with
  | None => Fail (bad "Safetensors tensor entry is missing required 'dtype' field")
  | Some d =>
      match f_offsets f with
      | None => Fail (bad "Safetensors tensor entry is missing required 'data_offsets' field")
      | Some (begin, end_) =>
          _ ← reject_if (end_ <? begin) (bad "Safetensors tensor entry has data_offsets begin > end");
          _ ← reject_if (data_size <? end_) (OutOfRange "Safetensors tensor entry points outside the raw data region");
          numel ← res_foldl (fun numel dim =>
            _ ← reject_if (dim <? 0) (bad "Safetensors tensor entry has negative shape dimension");
            CheckedMultiply numel (u64 dim) "safetensors shape") 1 (f_shape f);
          itemsize ← DataType.nbytes d;
          expected_nbytes ← CheckedMultiply numel (u64 itemsize) "safetensors tensor byte size";
          _ ← reject_if (negb (expected_nbytes =? end_ - begin)) (bad "Safetensors tensor shape and dtype do not match data_offsets byte size");
          Ret (mkEntry name d (f_shape f) begin end_ (mkWeight (data_base + begin) (end_ - begin) d (f_shape f) true true))
      end
  end.

(* @src src/model/formats/hf/hf_safetensors_file.cpp:169-281 SafetensorsHeaderParser::ParseTensorEntry *)
Definition ParseTensorEntry (name : string) : J HfSafetensorsEntry :=
  _ ← Expect "{"%char "at start of safetensors tensor entry";
  fields ← members "after safetensors tensor field name" "between safetensors tensor fields" tensor_field (mkFields None [] None);
  lift (make_entry name fields).

(** [status.WithMessage(f(status.message()))]. *)
(* @src include/aethermind/base/status.h:304-309 Status::WithMessage *)
Definition with_message {A} (f : string -> string) (m : J A) : J A := fun s =>
  match m s with (Fail e, s') => (Fail (mkStatus (code e) (f (message e))), s') | r => r end.

(** One member of the header: [seen_names_] is the set of names of the entries. *)
(* @src src/model/formats/hf/hf_safetensors_file.cpp:104-121 SafetensorsHeaderParser::Parse (member) *)
Definition header_member (entries : list HfSafetensorsEntry) (key : string) : J (list HfSafetensorsEntry) :=
  if bool_decide (key = "__metadata__") then _ ← SkipValue; mret entries
  else if bool_decide (key ∈ (ent_name <$> entries)) then jfail ("Duplicate safetensors tensor name: '" +:+ key +:+ "'")
  else entry ← with_message (fun m => "Safetensors tensor '" +:+ key +:+ "': " +:+ m) (ParseTensorEntry key);
       mret (entries ++ [entry]).

(** Tensors in the order of their offsets must follow each other without gaps; [prev] is
    where the tensor before ended. *)
(* @src src/model/formats/hf/hf_safetensors_file.cpp:147-157 SafetensorsHeaderParser::Parse (gaps) *)
Fixpoint check_gaps (prev : option Z) (sorted : list HfSafetensorsEntry) : Res unit :=
  match sorted with
  | [] => Ret tt
  | e :: rest =>
      _ ← match prev with
          | None => reject_if (negb (data_offset_begin e =? 0)) (bad "First safetensors tensor data_offset_begin is not 0")
          | Some p => reject_if (negb (data_offset_begin e =? p)) (bad "Safetensors tensor data_offsets overlap or contain gaps")
          end;
      check_gaps (Some (data_offset_end e)) rest
  end.

(** [sorted.back()] of an empty vector is undefined. *)
(* @src src/model/formats/hf/hf_safetensors_file.cpp:136-163 SafetensorsHeaderParser::Parse (layout) *)
Definition check_layout (entries : list HfSafetensorsEntry) : Res unit :=
  if (0 <? data_size) || negb (bool_decide (entries = [])) then
    let sorted := sort entries in
    _ ← check_gaps None sorted;
    match last sorted with
    | Some e => reject_if (negb (data_offset_end e =? data_size)) (bad "Last safetensors tensor data_offset_end does not cover entire data region")
    | None => Panic "vector::back"
    end
  else Ret tt.

(* @src src/model/formats/hf/hf_safetensors_file.cpp:84-166 SafetensorsHeaderParser::Parse *)
Definition ParseHeader : J (list HfSafetensorsEntry) :=
  _ ← SkipWhitespace;
  opened ← TryConsume "{"%char;
  if negb opened then jfail "Safetensors header must start with a JSON object" else
  _ ← SkipWhitespace;
  closed ← TryConsume "}"%char;
  if (closed : bool) then mret [] else
  entries ← ((fun s => members_loop (S (String.length s)) "after safetensors header key" "between safetensors header entries" header_member [] s) : J _);
  _ ← SkipWhitespace;
  done ← AtEnd;
  if negb done then jfail "Safetensors header contains trailing JSON content" else
  _ ← lift (check_layout entries);
  mret entries.
End Parser.

(** ** Opening a file *)

Fixpoint string_of_bytes (bytes : list Z) : string :=
  match bytes with [] => "" | b :: l => String (ascii_of_N (Z.to_N b)) (string_of_bytes l) end.

(* @src include/aethermind/model/formats/hf/hf_safetensors_file.h:30-55 HfSafetensorsFile *)
Record HfSafetensorsFile := mkFile { file_entries : list HfSafetensorsEntry; name_index : gmap string nat }.

(** The index of the names: later entries replace earlier ones. *)
(* @src src/model/formats/hf/hf_safetensors_file.cpp:364-371 HfSafetensorsFile::Open (index) *)
Definition make_file (entries : list HfSafetensorsEntry) : HfSafetensorsFile :=
  mkFile entries (foldl (fun m p => <[ent_name p.2 := p.1]> m) ∅ (indexed entries)).

(** [HfSafetensorsFile::Open] once the file is mapped: [base] is the address of the mapping,
    [bytes] what it holds. Messages leave out the path. *)
(* @src src/model/formats/hf/hf_safetensors_file.cpp:323-372 HfSafetensorsFile::Open *)
Definition Open (sort : list HfSafetensorsEntry -> list HfSafetensorsEntry) (base : Z) (bytes : list Z) : Res HfSafetensorsFile :=
  let size := zlen bytes in
  _ ← reject_if (size <? 8) (bad "Safetensors file is too small");
  header_length ← ParseLittleEndianU64 (take 8 bytes);
  _ ← reject_if (16 * 1024 * 1024 <? header_length) (bad "Safetensors header exceeds maximum size (16MB)");
  let '(over, header_end) := CheckOverflowAdd uint64_ty 8 header_length in
  _ ← reject_if over (bad "Safetensors header length overflow");
  _ ← reject_if (size <? header_end) (bad "Safetensors header length exceeds file size");
  let header_json := string_of_bytes (take (Z.to_nat header_length) (drop 8 bytes)) in
  let data_base := base + header_end in
  let data_size := size - header_end in
  _ ← am_check (negb (data_base =? 0) || (data_size =? 0)) "data_base_ is null but data_size_ is non-zero";
  entries ← (ParseHeader data_base data_size sort header_json).1;
  Ret (make_file entries).

(* @src src/model/formats/hf/hf_safetensors_file.cpp:374-380 HfSafetensorsFile::Find *)
Definition Find (f : HfSafetensorsFile) (name : string) : option HfSafetensorsEntry :=
  i ← name_index f !! name; file_entries f !! i.

(** ** What the header promises *)

(** The types a header can name. *)
Definition safetensors_dtypes : list DataType.t :=
  [DataType.Float 16; DataType.BFloat 16; DataType.Float32; DataType.Float 64; DataType.Int 16; DataType.Int 32; DataType.Int 64; DataType.Int 8;
   DataType.UInt 8; DataType.UInt 16; DataType.UInt 32; DataType.UInt 64; DataType.UInt 1; DataType.Float8E5M2; DataType.mk DLDataTypeCode.kFloat8_e4m3 8 1].

Lemma ParseSafetensorsDType_ret text d : ParseSafetensorsDType text = Ret d -> d ∈ safetensors_dtypes.
Proof.
  unfold ParseSafetensorsDType. intros H. repeat (destruct (String.eqb text _); [injection H as <-; unfold safetensors_dtypes; repeat (first [by left | right])|]). done.
Qed.

Definition sized_dtype (d : DataType.t) : bool :=
  match DataType.nbytes d with
  | Ret n => (0 <? n) && (n <=? 8) && (0 <? DataType.bits d) && (DataType.bits d <? 256) && (DataType.raw_lanes d =? 1)
  | _ => false
  end.
(** All of them have a size and are one lane of at most 64 bits. *)
Lemma safetensors_dtype_facts d : d ∈ safetensors_dtypes ->
  (exists size, DataType.nbytes d = Ret size /\ 0 < size <= 8) /\ 0 < DataType.bits d < 256 /\ DataType.raw_lanes d = 1.
Proof.
  intros H. assert (forallb sized_dtype safetensors_dtypes = true) as HF by (vm_compute; reflexivity).
  rewrite forallb_forall in HF. specialize (HF d (proj1 (list_elem_of_In _ _) H)). unfold sized_dtype in HF.
  destruct (DataType.nbytes d) as [n| |]; [|done..]. bsplit. split; [exists n; split; [done|lia]|]. lia.
Qed.

Lemma CheckedMultiply_ret a b ctx p : CheckedMultiply a b ctx = Ret p -> p = a * b /\ in_u 64 (a * b).
Proof.
  unfold CheckedMultiply. destruct (decide (0 <= a * b < 2 ^ 64)) as [Hd|Hd].
  - rewrite CheckOverflowMul_u64_ok by done. intros [= <-]. done.
  - pose proof (CheckOverflowMul_u64_over a b Hd) as HO. destruct (CheckOverflowMul uint64_ty a b) as [o q]. cbn in HO. by subst o.
Qed.

Lemma numel_exact l : forall acc r, Forall (in_i 64) l -> in_u 64 acc ->
  res_foldl (fun numel dim => _ ← reject_if (dim <? 0) (bad "Safetensors tensor entry has negative shape dimension");
    CheckedMultiply numel (u64 dim) "safetensors shape") acc l = Ret r ->
  r = acc * product l /\ in_u 64 r /\ Forall (fun x => 0 <= x) l.
Proof.
  induction l as [|x l IH]; intros acc r Hl Ha H; cbn [res_foldl product] in *.
  - injection H as <-. split; [lia|]. split; [done|constructor].
  - apply Forall_cons in Hl as [Hx Hl]. apply res_bind_ret_inv in H as (acc' & H1 & H). apply res_bind_ret_inv in H1 as (? & H0 & H1). apply reject_if_ret_any in H0. bsplit.
    rewrite (wrap_small 64) in H1 by (unfold in_i, in_u in *; lia). apply CheckedMultiply_ret in H1 as [-> Hp]. destruct (IH _ _ Hl Hp H) as (-> & Hu & Hf).
    split; [ring|]. split; [done|]. by constructor.
Qed.

(** The fields read of a tensor are in the range of their types. *)
Definition fields_ok (f : TensorFields) : Prop :=
  from_option (fun d => d ∈ safetensors_dtypes) True (f_dtype f) /\ Forall (in_i 64) (f_shape f) /\
  from_option (fun p => in_u 64 p.1 /\ in_u 64 p.2) True (f_offsets f).

Lemma tensor_field_ok f key s f' s' : fields_ok f -> tensor_field f key s = (Ret f', s') -> fields_ok f'.
Proof.
  intros (H1 & H2 & H3) H. unfold tensor_field in H. destruct (bool_decide (key = "dtype")); [|destruct (bool_decide (key = "shape")); [|destruct (bool_decide (key = "data_offsets"))]].
  - apply exec_bind_inv in H as (t & s1 & _ & H). apply exec_bind_inv in H as (d & s2 & Hd & H). apply lift_inv in Hd as [Hd ->]. injection H as <- _.
    split; [by apply ParseSafetensorsDType_ret in Hd|done].
  - apply exec_bind_inv in H as (l & s1 & Hl & H). injection H as <- _. split; [done|]. split; [by eapply parsed_int64_array|done].
  - apply exec_bind_inv in H as (p & s1 & Hp & H). injection H as <- _. split; [done|]. split; [done|]. unfold ParseOffsetPair in Hp.
    apply exec_bind_inv in Hp as (? & t1 & _ & Hp). apply exec_bind_inv in Hp as (a & t2 & Ha & Hp). apply exec_bind_inv in Hp as (? & t3 & _ & Hp).
    apply exec_bind_inv in Hp as (b & t4 & Hb & Hp). apply exec_bind_inv in Hp as (? & t5 & _ & Hp). apply exec_bind_inv in Hp as (cl & t6 & _ & Hp).
    destruct cl; [|done]. injection Hp as <- _. split; by eapply parsed_uint64.
  - apply exec_bind_inv in H as (? & s1 & _ & H). by injection H as <- _.
Qed.

Section Header.
Context (data_base data_size : Z) (sort : list HfSafetensorsEntry -> list HfSafetensorsEntry).

(** A tensor lies in the data region, has the bytes its shape and type ask for, and its
    view says so. *)
Record entry_ok (e : HfSafetensorsEntry) : Prop := {
  eok_range : 0 <= data_offset_begin e <= data_offset_end e /\ data_offset_end e <= data_size;
  eok_dtype : ent_dtype e ∈ safetensors_dtypes;
  eok_shape : Forall (in_i 64) (ent_shape e) /\ Forall (fun x => 0 <= x) (ent_shape e);
  eok_bytes : exists size, DataType.nbytes (ent_dtype e) = Ret size /\ product (ent_shape e) * size = data_offset_end e - data_offset_begin e;
  eok_view : ent_view e = mkWeight (data_base + data_offset_begin e) (data_offset_end e - data_offset_begin e) (ent_dtype e) (ent_shape e) true true }.

Lemma make_entry_ok name f e : fields_ok f -> make_entry data_base data_size name f = Ret e -> entry_ok e /\ ent_name e = name.
Proof using.
  intros (H1 & H2 & H3) H. unfold make_entry in H. destruct (f_dtype f) as [d|]; [|done]. destruct (f_offsets f) as [[b e']|]; [|done]. cbn in H1, H3. destruct H3 as [Hb He].
  apply res_bind_ret_inv in H as (? & A1 & H). apply res_bind_ret_inv in H as (? & A2 & H). apply res_bind_ret_inv in H as (numel & A3 & H).
  apply res_bind_ret_inv in H as (size & A4 & H). apply res_bind_ret_inv in H as (bytes & A5 & H). apply res_bind_ret_inv in H as (? & A6 & H). injection H as <-.
  apply reject_if_ret_any in A1, A2, A6. bsplit. apply numel_exact in A3 as (-> & Hn & Hpos); [|done|unfold in_u; lia].
  destruct (safetensors_dtype_facts d H1) as ((n & En & Hsz) & Hbits & _). rewrite A4 in En. injection En as <-.
  rewrite (wrap_small 64) in A5 by (unfold in_u; lia). apply CheckedMultiply_ret in A5 as [-> _]. split; [|done].
  split; cbn; try done; [unfold in_u in *; lia|]. exists size. split; [done|lia].
Qed.

Lemma ParseTensorEntry_ok name s e s' : ParseTensorEntry data_base data_size name s = (Ret e, s') -> entry_ok e /\ ent_name e = name.
Proof using.
  unfold ParseTensorEntry. intros H. apply exec_bind_inv in H as (? & s1 & _ & H). apply exec_bind_inv in H as (f & s2 & Hf & H). apply lift_inv in H as [H ->].
  apply (make_entry_ok name f); [|done]. revert Hf. apply members_inv; [exact tensor_field_ok|]. by split; [|split].
Qed.

(** The invariant of the header loop. *)
Definition entries_ok (l : list HfSafetensorsEntry) : Prop := Forall entry_ok l /\ NoDup (ent_name <$> l).

Lemma header_member_ok l key s l' s' : entries_ok l -> header_member data_base data_size l key s = (Ret l', s') -> entries_ok l'.
Proof using.
  intros [H1 H2] H. unfold header_member in H. case_bool_decide as Hm; [apply exec_bind_inv in H as (? & s1 & _ & H); by injection H as <- _|].
  case_bool_decide as Hin; [done|]. apply exec_bind_inv in H as (e & s1 & He & H). injection H as <- _. unfold with_message in He.
  destruct (ParseTensorEntry data_base data_size key s) as [[e'|m|w] t] eqn:E; [|done..]. injection He as -> ->. apply ParseTensorEntry_ok in E as [Hok Hname].
  split; [by apply Forall_app_2; [|constructor]|]. rewrite fmap_app. apply NoDup_app. split; [done|]. split; [|apply NoDup_singleton].
  intros n Hn Hn'. apply list_elem_of_singleton in Hn'. cbn in Hn'. congruence.
Qed.

(** Tensors that follow each other from [a] to [b]. *)
Fixpoint tiles (a : Z) (l : list HfSafetensorsEntry) (b : Z) : Prop :=
  match l with [] => a = b | e :: r => data_offset_begin e = a /\ tiles (data_offset_end e) r b end.

Lemma check_gaps_tiles l : forall p, check_gaps (Some p) l = Ret tt ->
  tiles p l (from_option data_offset_end p (last l)).
Proof using.
  induction l as [|e l IH]; intros p H; [done|]. cbn [check_gaps] in H. res_inv. bsplit. split; [done|].
  specialize (IH _ H). destruct l as [|e2 l]; [done|]. change (last (e :: e2 :: l)) with (last (e2 :: l)).
  destruct (last (e2 :: l)) eqn:El; [exact IH|by apply last_None in El].
Qed.

Lemma check_layout_tiles l : (forall l, sort l ≡ₚ l) -> check_layout data_size sort l = Ret tt -> (data_size <= 0 /\ l = []) \/ exists l', l' ≡ₚ l /\ tiles 0 l' data_size.
Proof using.
  intros Hs H. unfold check_layout in H. destruct ((0 <? data_size) || negb (bool_decide (l = []))) eqn:E.
  - right. exists (sort l). split; [done|]. apply res_bind_ret_inv in H as ([] & H1 & H). destruct (sort l) as [|e r] eqn:Es; [done|].
    cbn [check_gaps] in H1. res_inv. bsplit. split; [done|]. pose proof (check_gaps_tiles _ _ H1) as HT.
    destruct r as [|e2 r]; cbn [last] in H; res_inv; bsplit; [done|].
    destruct (last (e2 :: r)) as [z|] eqn:El; [|done]. res_inv. bsplit. cbn [from_option] in HT. by rewrite H in HT.
  - left. bsplit. by split; [lia|].
Qed.

(** Two different tensors of a tiling do not overlap. *)
Lemma tiles_order l : forall a b e, Forall entry_ok l -> tiles a l b -> e ∈ l -> a <= data_offset_begin e /\ data_offset_end e <= b.
Proof using.
  induction l as [|x l IH]; intros a b e HF HT Hin; [by apply not_elem_of_nil in Hin|]. apply Forall_cons in HF as [Hx HF]. destruct HT as [HT1 HT2].
  destruct (eok_range x Hx) as [? ?]. assert (data_offset_end x <= b) as Hb.
  { destruct l as [|y l]; [cbn in HT2; lia|]. destruct (IH _ _ y HF HT2 ltac:(left)) as [? ?]. apply Forall_cons in HF as [Hy _]. destruct (eok_range y Hy). lia. }
  apply elem_of_cons in Hin as [-> | Hin]; [lia|]. destruct (IH _ _ e HF HT2 Hin). lia.
Qed.
Lemma tiles_apart l : forall a b e1 e2, Forall entry_ok l -> tiles a l b -> e1 ∈ l -> e2 ∈ l ->
  e1 = e2 \/ data_offset_end e1 <= data_offset_begin e2 \/ data_offset_end e2 <= data_offset_begin e1.
Proof using.
  induction l as [|x l IH]; intros a b e1 e2 HF HT H1 H2; [by apply not_elem_of_nil in H1|]. apply Forall_cons in HF as [Hx HF]. destruct HT as [HT1 HT2].
  apply elem_of_cons in H1 as [-> | H1]; apply elem_of_cons in H2 as [-> | H2]; [by left| | |by eapply IH]; right.
  - left. by apply (tiles_order l _ b e2).
  - right. by apply (tiles_order l _ b e1).
Qed.
Lemma tiles_cover l : forall a b p, tiles a l b -> a <= p < b -> exists e, e ∈ l /\ data_offset_begin e <= p < data_offset_end e.
Proof using.
  induction l as [|x l IH]; intros a b p HT Hp; [cbn in HT; lia|]. destruct HT as [HT1 HT2]. destruct (decide (p < data_offset_end x)).
  - exists x. split; [left|lia].
  - destruct (IH _ _ p HT2) as (e & He & Hr); [lia|]. exists e. split; [by right|done].
Qed.
End Header.

(** ** No undefined behaviour but one *)

Definition no_panic {A} (m : Res A) : Prop := forall w, m <> Panic w.

Lemma no_panic_bind {A B} (m : Res A) (k : A -> Res B) : no_panic m -> (forall a, m = Ret a -> no_panic (k a)) -> no_panic (m ≫= k).
Proof. intros Hm Hk w. destruct m as [a|e|w']; [by apply Hk|done|by destruct (Hm w')]. Qed.
Lemma no_panic_reject b s : no_panic (reject_if b s).
Proof. by destruct b. Qed.
Lemma no_panic_multiply a b ctx : no_panic (CheckedMultiply a b ctx).
Proof. intros w. unfold CheckedMultiply. by destruct (CheckOverflowMul _ _ _) as [[] ?]. Qed.
Lemma no_panic_foldl {A S} (f : S -> A -> Res S) l : (forall s x, no_panic (f s x)) -> forall s, no_panic (res_foldl f s l).
Proof. intros Hf. induction l as [|x l IH]; intros s; [done|]. cbn. apply no_panic_bind; [done|]. by intros. Qed.
Lemma safe_at_lift {A} (m : Res A) s : no_panic m -> safe_at (lift m) s.
Proof. intros H. by split. Qed.

Section Total.
Context (data_base data_size : Z) (sort : list HfSafetensorsEntry -> list HfSafetensorsEntry).

Lemma make_entry_total name f : fields_ok f -> no_panic (make_entry data_base data_size name f).
Proof using.
  intros (H1 & _ & _). unfold make_entry. destruct (f_dtype f) as [d|]; [|done]. destruct (f_offsets f) as [[b e]|]; [|done]. cbn in H1.
  destruct (safetensors_dtype_facts d H1) as ((n & En & _) & _ & _).
  apply no_panic_bind; [apply no_panic_reject|]. intros _ _. apply no_panic_bind; [apply no_panic_reject|]. intros _ _. apply no_panic_bind.
  { apply no_panic_foldl. intros a x. apply no_panic_bind; [apply no_panic_reject|]. intros _ _. apply no_panic_multiply. }
  intros numel _. rewrite En. apply no_panic_bind; [done|]. intros size _. apply no_panic_bind; [apply no_panic_multiply|]. intros bytes _.
  apply no_panic_bind; [apply no_panic_reject|]. done.
Qed.

Lemma safe_offsets : safe ParseOffsetPair.
Proof using.
  apply safe_bind; [apply safe_expect|]. intros _. apply safe_bind; [apply safe_uint64|]. intros a. apply safe_bind; [apply safe_expect|]. intros _.
  apply safe_bind; [apply safe_uint64|]. intros b. apply safe_bind; [apply safe_whitespace|]. intros _. apply safe_bind; [apply safe_consume|]. intros []; [apply safe_ret|apply safe_fail].
Qed.
Lemma safe_tensor_field f key : safe (tensor_field f key).
Proof using.
  unfold tensor_field. destruct (bool_decide (key = "dtype")); [|destruct (bool_decide (key = "shape")); [|destruct (bool_decide (key = "data_offsets"))]].
  - apply safe_bind; [apply safe_string|]. intros t. apply safe_bind; [|intros d; apply safe_ret]. intros s. apply safe_at_lift. intros w.
    unfold ParseSafetensorsDType. by repeat (destruct (String.eqb t _); [done|]).
  - apply safe_bind; [apply safe_int64_array|]. intros l. apply safe_ret.
  - apply safe_bind; [apply safe_offsets|]. intros l. apply safe_ret.
  - apply safe_bind; [apply safe_skip_value|]. intros l. apply safe_ret.
Qed.
Lemma safe_tensor_entry name : safe (ParseTensorEntry data_base data_size name).
Proof using.
  apply safe_bind; [apply safe_expect|]. intros _ s. apply safe_at_bind; [apply safe_members; apply safe_tensor_field|]. intros f s' Hf _. apply safe_at_lift, make_entry_total.
  revert Hf. apply members_inv; [exact tensor_field_ok|]. by split; [|split].
Qed.
Lemma safe_header_member l key : safe (header_member data_base data_size l key).
Proof using.
  unfold header_member. case_bool_decide; [apply safe_bind; [apply safe_skip_value|]; intros _; apply safe_ret|]. case_bool_decide; [apply safe_fail|].
  apply safe_bind; [|intros e; apply safe_ret]. intros s. destruct (safe_tensor_entry key s) as [H1 H2]. unfold safe_at, with_message.
  destruct (ParseTensorEntry data_base data_size key s) as [[e|m|w] s']; cbn in *; [done|split; [done|by intros w]|by destruct (H2 w)].
Qed.

(** What parsing a header can end in, for any text: tensors as promised, an error, or, only
    when no tensor is named although there is data, the read past an empty vector. *)
Lemma ParseHeader_cases s : (forall l, sort l ≡ₚ l) ->
  match (ParseHeader data_base data_size sort s).1 with
  | Ret entries => entries_ok data_base data_size entries /\ (entries = [] \/ exists l, l ≡ₚ entries /\ tiles 0 l data_size)
  | Fail _ => True
  | Panic w => w = "vector::back" /\ 0 < data_size
  end.
Proof using.
  intros Hsort. unfold ParseHeader. unfold mbind at 1, exec_mbind at 1, exec_bind at 1. cbn [SkipWhitespace].
  unfold mbind at 1, exec_mbind at 1, exec_bind at 1. destruct (safe_consume "{"%char (skip_spaces s)) as [_ P1].
  destruct (TryConsume "{" (skip_spaces s)) as [[opened|e|w] s1]; [|done|by destruct (P1 w)]. destruct opened; [|done]. cbn [negb].
  unfold mbind at 1, exec_mbind at 1, exec_bind at 1. cbn [SkipWhitespace]. unfold mbind at 1, exec_mbind at 1, exec_bind at 1.
  destruct (safe_consume "}"%char (skip_spaces s1)) as [_ P2]. destruct (TryConsume "}" (skip_spaces s1)) as [[closed|e|w] s2]; [|done|by destruct (P2 w)].
  destruct closed; [split; [by split; constructor|by left]|]. unfold mbind at 1, exec_mbind at 1, exec_bind at 1.
  pose proof (members_loop_safe "after safetensors header key" "between safetensors header entries" (header_member data_base data_size) safe_header_member (S (String.length s2)) [] s2 ltac:(lia)) as [_ P3].
  destruct (members_loop _ _ _ _ _ s2) as [[entries|e|w] s3] eqn:E; [|done|by destruct (P3 w)].
  assert (entries_ok data_base data_size entries) as Hok.
  { revert E. apply members_loop_inv; [apply header_member_ok|]. by split; constructor. }
  unfold mbind at 1, exec_mbind at 1, exec_bind at 1. cbn [SkipWhitespace AtEnd]. unfold mbind at 1, exec_mbind at 1, exec_bind at 1. cbn [AtEnd].
  destruct (bool_decide (skip_spaces s3 = "")); [|done]. cbn [negb]. unfold mbind at 1, exec_mbind at 1, exec_bind at 1. cbn [lift].
  destruct (check_layout data_size sort entries) as [[]|e|w] eqn:EL; cbn; [|done|].
  - split; [done|]. apply check_layout_tiles in EL as [[_ H]|H]; [by left|by right|done].
  - unfold check_layout in EL. destruct ((0 <? data_size) || negb (bool_decide (entries = []))) eqn:Ec; [|done].
    assert (forall l p, no_panic (check_gaps p l)) as Hgaps.
    { intros l. induction l as [|x l IH]; intros p; [done|]. cbn. apply no_panic_bind; [destruct p; apply no_panic_reject|]. by intros. }
    destruct (check_gaps None (sort entries)) as [[]|e|w'] eqn:Eg; [|done|by destruct (Hgaps _ _ _ Eg)]. cbn in EL.
    destruct (last (sort entries)) as [z|] eqn:Ez; [by destruct (no_panic_reject _ _ _ EL)|]. injection EL as <-. split; [done|].
    apply last_None in Ez. pose proof (Hsort entries) as HP. rewrite Ez in HP. apply Permutation_nil in HP as ->. bsplit. cbn in Ec. rewrite orb_false_r in Ec. by bsplit.
Qed.
End Total.

(** ** The index of names *)

Lemma index_lookup (l : list HfSafetensorsEntry) : forall k (m : gmap string nat), NoDup (ent_name <$> l) -> (forall e, e ∈ l -> m !! ent_name e = None) ->
  forall name i, foldl (fun m p => <[ent_name p.2 := p.1]> m) m (zip (seq k (length l)) l) !! name = Some i <->
    m !! name = Some i \/ exists j e, i = (k + j)%nat /\ l !! j = Some e /\ ent_name e = name.
Proof.
  induction l as [|x l IH]; intros k m HN Hm name i.
  - split; [by left|]. by intros [H|(j & e & _ & H & _)].
  - apply NoDup_cons in HN as [Hx HN]. cbn [length seq zip foldl zip_with fst snd]. rewrite IH; [|done|].
    + rewrite lookup_insert_Some. split.
      * intros [[[<- <-]|[Hne H]]|(j & e & -> & H & <-)]; [right; exists 0%nat, x; split; [lia|done]|by left|right; exists (S j), e; split; [lia|done]].
      * intros [H|(j & e & -> & H & <-)].
        { left. right. split; [|done]. intros <-. rewrite (Hm x) in H; [done|left]. }
        destruct j as [|j]; [left; left; injection H as ->; split; [done|lia]|]. right. exists j, e. split; [lia|done].
    + intros e He. rewrite lookup_insert_ne; [apply Hm; by right|]. intros Heq. apply Hx. rewrite Heq. apply list_elem_of_fmap. by exists e.
Qed.

Lemma Find_exact l name e : NoDup (ent_name <$> l) -> Find (make_file l) name = Some e <-> e ∈ l /\ ent_name e = name.
Proof.
  intros HN. unfold Find, make_file, indexed. cbn [name_index file_entries]. rewrite bind_Some. split.
  - intros (i & Hi & He). apply index_lookup in Hi as [Hi|(j & e' & -> & H & <-)]; [by rewrite lookup_empty in Hi| |done|by intros; apply lookup_empty].
    cbn in He. rewrite H in He. injection He as ->. split; [by eapply list_elem_of_lookup_2|done].
  - intros [He <-]. apply list_elem_of_lookup_1 in He as [i Hi]. exists i. split; [|done]. apply index_lookup; [done|by intros; apply lookup_empty|]. right. by exists i, e.
Qed.

(** ** The order of the tensors *)

(** The contract of [std::ranges::sort] with the comparison of the offsets. *)
Class SortsByOffset (sort : list HfSafetensorsEntry -> list HfSafetensorsEntry) : Prop := {
  sort_permutes l : sort l ≡ₚ l;
  sort_orders l : StronglySorted (fun a b => data_offset_begin a <= data_offset_begin b) (sort l) }.

Section Layout.
Context (data_base data_size : Z) (sort : list HfSafetensorsEntry -> list HfSafetensorsEntry) `{!SortsByOffset sort}.

Lemma tiles_sorted l : forall a b, Forall (entry_ok data_base data_size) l -> tiles a l b -> StronglySorted (fun a b => data_offset_begin a <= data_offset_begin b) l.
Proof using.
  induction l as [|x l IH]; intros a b HF HT; [constructor|]. apply Forall_cons in HF as [Hx HF]. destruct HT as [HT1 HT2]. constructor; [by eapply IH|].
  apply Forall_forall. intros e He. destruct (tiles_order data_base data_size l _ b e HF HT2 He) as [? _]. destruct (eok_range _ _ x Hx). lia.
Qed.

Lemma tiles_gaps l : forall a b, tiles a l b -> check_gaps (Some a) l = Ret tt.
Proof using. induction l as [|x l IH]; intros a b HT; [done|]. destruct HT as [H1 H2]. cbn. rewrite H1, Z.eqb_refl. cbn. by eapply IH. Qed.
Lemma tiles_last l : forall a b e, tiles a l b -> last l = Some e -> data_offset_end e = b.
Proof using.
  induction l as [|x l IH]; intros a b e HT HL; [done|]. destruct HT as [_ HT]. destruct l as [|y l]; [injection HL as <-; done|by eapply IH].
Qed.

(** When no tensor is empty, the layout check accepts exactly the tensors that can be put
    in an order in which they fill the data region, however the sort breaks ties. *)
Lemma check_layout_exact l : Forall (entry_ok data_base data_size) l -> Forall (fun e => data_offset_begin e < data_offset_end e) l -> l <> [] ->
  check_layout data_size sort l = Ret tt <-> exists l', l' ≡ₚ l /\ tiles 0 l' data_size.
Proof using All.
  intros HF Hne Hnil. split.
  - intros H. apply check_layout_tiles in H as [[_ ->]|H]; [done|done|apply sort_permutes].
  - intros (l' & HP & HT). assert (Forall (entry_ok data_base data_size) l') as HF' by by rewrite HP.
    assert (sort l = l') as Es.
    { apply (StronglySorted_unique_strong (fun a b => data_offset_begin a <= data_offset_begin b)); [|apply sort_orders|by eapply tiles_sorted|by rewrite sort_permutes].
      intros x1 x2 H1 H2 Ha Hb. rewrite sort_permutes in H1. rewrite HP in H2.
      rewrite Forall_forall in Hne. pose proof (Hne x1 H1). pose proof (Hne x2 H2). rewrite <- HP in H1, H2.
      destruct (tiles_apart data_base data_size l' 0 data_size x1 x2 HF' HT H1 H2) as [|[|]]; [done|lia|lia]. }
    unfold check_layout. rewrite (bool_decide_eq_false_2 (l = [])) by done. rewrite orb_true_r, Es.
    destruct l' as [|x r]; [symmetry in HP; by apply Permutation_nil_r in HP|]. destruct (HT) as [H1 H2].
    cbn [check_gaps]. rewrite H1. cbn. rewrite (tiles_gaps _ _ _ H2). cbn [mbind res_mbind res_bind].
    destruct (last (x :: r)) as [z|] eqn:El; [|by apply last_None in El]. rewrite (tiles_last (x :: r) 0 data_size z HT El), Z.eqb_refl. done.
Qed.
End Layout.

(** ** Opening a file *)

Lemma ParseLittleEndianU64_nonneg bytes n : ParseLittleEndianU64 bytes = Ret n -> 0 <= n.
Proof.
  unfold ParseLittleEndianU64. destruct (length bytes <? 8)%nat; [done|]. intros [= <-]. generalize (indexed (take 8 bytes)). intros l.
  assert (forall acc, 0 <= acc -> 0 <= foldl (fun value (p : nat * Z) => Z.lor value (u64 (Z.shiftl p.2 (Z.of_nat p.1 * 8)))) acc l) as H; [|by apply H].
  induction l as [|p l IH]; intros acc Hacc; [done|]. cbn. apply IH. apply Z.lor_nonneg. split; [done|]. unfold u64. apply Z.mod_pos_bound. lia.
Qed.

(** The number the bytes of a header length stand for, least significant byte first. *)
Fixpoint le_number (bytes : list Z) : Z := match bytes with [] => 0 | b :: l => b + 256 * le_number l end.

Lemma le_number_snoc l b : le_number (l ++ [b]) = le_number l + b * 2 ^ (8 * zlen l).
Proof.
  induction l as [|x l IH]; [unfold zlen; cbn; lia|]. cbn [le_number app]. rewrite IH. unfold zlen in *. cbn [length].
  replace (8 * Z.of_nat (S (length l))) with (8 + 8 * Z.of_nat (length l)) by lia. rewrite Z.pow_add_r by lia. ring.
Qed.
Lemma le_number_bound l : Forall (in_u 8) l -> 0 <= le_number l < 2 ^ (8 * zlen l).
Proof.
  induction 1 as [|b l Hb _ IH]; [unfold zlen; cbn; lia|]. cbn [le_number]. unfold zlen, in_u in *. cbn [length].
  replace (8 * Z.of_nat (S (length l))) with (8 + 8 * Z.of_nat (length l)) by lia. rewrite Z.pow_add_r by lia. lia.
Qed.

(** The shifts and ors of the reader compute that number. *)
Lemma shifted_bytes l : Forall (in_u 8) l -> (length l <= 8)%nat ->
  foldl (fun value (p : nat * Z) => Z.lor value (u64 (Z.shiftl p.2 (Z.of_nat p.1 * 8)))) 0 (indexed l) = le_number l.
Proof.
  induction l as [|b l IH] using rev_ind; intros Hl Hlen; [done|]. apply Forall_app in Hl as [Hl Hb]. apply Forall_cons in Hb as [Hb _].
  rewrite length_app in Hlen. cbn in Hlen. unfold indexed in *. rewrite length_app, seq_app, zip_with_app, foldl_app by (by rewrite length_seq).
  rewrite IH by (done || lia). cbn. rewrite le_number_snoc. pose proof (le_number_bound l Hl) as Hn. unfold zlen in *.
  replace (Z.of_nat (length l) * 8) with (8 * Z.of_nat (length l)) by lia. rewrite Z.shiftl_mul_pow2 by lia. unfold u64. rewrite Z.mod_small.
  - rewrite Z.lor_comm, lor_add by lia. lia.
  - unfold in_u in Hb. assert (2 ^ (8 * Z.of_nat (length l)) <= 2 ^ 56) as Hp by (apply Z.pow_le_mono_r; lia).
    assert (0 < 2 ^ (8 * Z.of_nat (length l))) as H0 by (apply Z.pow_pos_nonneg; lia). split; [apply Z.mul_nonneg_nonneg; lia|].
    apply Z.le_lt_trans with (255 * 2 ^ 56); [apply Z.mul_le_mono_nonneg; lia|reflexivity].
Qed.

Lemma header_length_value bytes n : ParseLittleEndianU64 bytes = Ret n -> length bytes = 8%nat -> Forall (in_u 8) bytes -> n = le_number bytes.
Proof.
  unfold ParseLittleEndianU64. intros H Hlen HF. rewrite Hlen in H. cbn [Nat.ltb Nat.leb] in H. injection H as <-.
  rewrite take_ge by lia. by apply shifted_bytes; [|lia].
Qed.

(** What an opened file went through: a header of [n] bytes and the data after it. *)
Lemma Open_inv sort base bytes f : Open sort base bytes = Ret f ->
  exists n entries s, 8 <= zlen bytes /\ ParseLittleEndianU64 (take 8 bytes) = Ret n /\ 0 <= n /\ 8 + n <= zlen bytes /\ f = make_file entries /\
    ParseHeader (base + (8 + n)) (zlen bytes - (8 + n)) sort (string_of_bytes (take (Z.to_nat n) (drop 8 bytes))) = (Ret entries, s).
Proof.
  unfold Open. intros H. apply res_bind_ret_inv in H as (? & H1 & H). apply res_bind_ret_inv in H as (n & Hn & H). apply res_bind_ret_inv in H as (? & H2 & H).
  apply reject_if_ret_any in H1, H2. bsplit. pose proof (ParseLittleEndianU64_nonneg _ _ Hn) as Hn0. rewrite CheckOverflowAdd_u64 in H by (unfold in_u; lia).
  cbn [mbind res_mbind res_bind reject_if] in H. res_inv. bsplit. destruct (ParseHeader _ _ _ _) as [r s] eqn:E. cbn in Hm1. subst r. eexists n, _, s. split_and!; [lia|done|lia|lia|reflexivity|exact E].
Qed.

(** The tensors of an opened file whose data region is [start, limit): no two have the same
    name and each is found under its name and no other is; each is a view into the region
    with exactly the bytes its shape and type ask for; the views of different tensors do not
    overlap; and, if there is any tensor at all, together they are the whole region. *)
Record sound_file (start limit : Z) (f : HfSafetensorsFile) : Prop := {
  sf_names : NoDup (ent_name <$> file_entries f);
  sf_find name e : Find f name = Some e <-> e ∈ file_entries f /\ ent_name e = name;
  sf_repr e : e ∈ file_entries f -> weight_repr (ent_view e) /\ Forall (fun x => 0 <= x) (rw_shape (ent_view e));
  sf_view e : e ∈ file_entries f -> weight_valid (ent_view e) = true /\ rw_contiguous (ent_view e) = true /\
    rw_dtype (ent_view e) = ent_dtype e /\ rw_shape (ent_view e) = ent_shape e;
  sf_dtype e : e ∈ file_entries f -> ent_dtype e ∈ safetensors_dtypes;
  sf_bytes e : e ∈ file_entries f -> exists size, DataType.nbytes (ent_dtype e) = Ret size /\ rw_bytes (ent_view e) = product (ent_shape e) * size;
  sf_inside e : e ∈ file_entries f -> start <= rw_data (ent_view e) /\ rw_data (ent_view e) + rw_bytes (ent_view e) <= limit;
  sf_apart e1 e2 : e1 ∈ file_entries f -> e2 ∈ file_entries f -> e1 = e2 \/
    rw_data (ent_view e1) + rw_bytes (ent_view e1) <= rw_data (ent_view e2) \/ rw_data (ent_view e2) + rw_bytes (ent_view e2) <= rw_data (ent_view e1);
  sf_cover : file_entries f = [] \/ forall p, start <= p < limit ->
    exists e, e ∈ file_entries f /\ rw_data (ent_view e) <= p < rw_data (ent_view e) + rw_bytes (ent_view e) }.

Lemma parsed_sound sort start size json l s : SortsByOffset sort -> 0 < start -> size < 2 ^ 64 ->
  ParseHeader start size sort json = (Ret l, s) -> sound_file start (start + size) (make_file l).
Proof.
  intros Hsort Hbase Hlen H. pose proof (ParseHeader_cases start size sort json sort_permutes) as HC.
  rewrite H in HC. cbn [fst] in HC. destruct HC as [[Hall HN] HT]. pose proof (proj1 (Forall_forall _ _) Hall) as Hok.
  split; cbn [file_entries make_file]; try (intros e He; destruct (Hok e He) as [Hr Hd [Hs1 Hs2] (sz & Hsz & Hb) Hv]; rewrite ?Hv; cbn).
  - done.
  - intros name e. by apply Find_exact.
  - destruct (safetensors_dtype_facts _ Hd) as (_ & Hbits & _). split; [split; [done|split; unfold in_u; cbn; lia]|done].
  - destruct (safetensors_dtype_facts _ Hd) as (_ & Hbits & _). split; [unfold weight_valid; cbn; lia|done].
  - done.
  - exists sz. split; [done|lia].
  - lia.
  - intros e1 e2 H1 H2. destruct HT as [-> | (l' & HP & HT)]; [by apply not_elem_of_nil in H1|]. rewrite <- HP in H1, H2.
    pose proof (Hok e1 ltac:(by rewrite <- HP)) as K1. pose proof (Hok e2 ltac:(by rewrite <- HP)) as K2. rewrite (eok_view _ _ _ K1), (eok_view _ _ _ K2). cbn.
    destruct (tiles_apart start size l' 0 size e1 e2) as [|[|]]; [by rewrite HP|done|done|done|by left|right; lia|right; lia].
  - destruct HT as [-> | (l' & HP & HT)]; [by left|]. right. intros p Hp. destruct (tiles_cover l' 0 size (p - start) HT) as (e & He & Hr); [lia|].
    rewrite HP in He. exists e. split; [done|]. rewrite (eok_view _ _ _ (Hok e He)). cbn. lia.
Qed.

(** C26: Opening a safetensors file that is mapped at [base] either fails or gives tensors
    that can be used. The first eight bytes are the length of the header, least significant
    byte first; the header is the text of that length after them, and the tensors are those
    it lists; the data region is everything after the header, to the end of the mapping. No
    two tensors have the same name and each is found under its name; each is a view into
    the region with exactly the bytes its shape and type ask for; the views of different
    tensors do not overlap; and, if there is any tensor at all, together they are the whole
    region (an empty header may hide a region: [empty_header_hides_data]). *)
Theorem Open_sound sort base bytes f : SortsByOffset sort -> 0 < base -> zlen bytes < 2 ^ 64 -> Open sort base bytes = Ret f ->
  exists n, ParseLittleEndianU64 (take 8 bytes) = Ret n /\ (Forall (in_u 8) bytes -> n = le_number (take 8 bytes)) /\
    let start := base + 8 + n in
    base + 8 <= start <= base + zlen bytes /\
    (ParseHeader start (zlen bytes - 8 - n) sort (string_of_bytes (take (Z.to_nat n) (drop 8 bytes)))).1 = Ret (file_entries f) /\
    sound_file start (base + zlen bytes) f.
Proof.
  intros Hsort Hbase Hlen H. apply Open_inv in H as (n & l & s & H8 & Hn & Hn0 & Hle & -> & H). exists n. split; [done|].
  split; [|cbv zeta; split; [lia|]].
  - intros HF. apply header_length_value; [done|rewrite length_take; unfold zlen in *; lia|by apply Forall_take].
  - replace (base + 8 + n) with (base + (8 + n)) by lia. replace (zlen bytes - 8 - n) with (zlen bytes - (8 + n)) by lia. rewrite H. split; [done|].
    replace (base + zlen bytes) with (base + (8 + n) + (zlen bytes - (8 + n))) by lia. eapply parsed_sound; [done|lia|lia|exact H].
Qed.

(** Whatever the bytes, opening ends: the only undefined behaviour is the read past an
    empty vector. *)
Lemma Open_outcome sort base bytes w : SortsByOffset sort -> 0 < base -> Open sort base bytes = Panic w -> w = "vector::back".
Proof.
  intros Hsort Hbase H. unfold Open in H. destruct (zlen bytes <? 8) eqn:E8; [done|]. cbn [mbind res_mbind res_bind reject_if] in H.
  destruct (ParseLittleEndianU64 (take 8 bytes)) as [n|e|w'] eqn:En; cbn [mbind res_mbind res_bind] in H; [|done|].
  2:{ unfold ParseLittleEndianU64 in En. by destruct (length (take 8 bytes) <? 8)%nat. }
  destruct (16 * 1024 * 1024 <? n) eqn:EN; [done|]. cbn [mbind res_mbind res_bind reject_if] in H. bsplit. apply ParseLittleEndianU64_nonneg in En.
  rewrite CheckOverflowAdd_u64 in H by (unfold in_u; lia). cbn [mbind res_mbind res_bind reject_if] in H. destruct (zlen bytes <? 8 + n); [done|].
  rewrite (proj2 (Z.eqb_neq (base + (8 + n)) 0)) in H by lia. cbn [mbind res_mbind res_bind reject_if am_check negb orb] in H.
  pose proof (ParseHeader_cases (base + (8 + n)) (zlen bytes - (8 + n)) sort (string_of_bytes (take (Z.to_nat n) (drop 8 bytes))) sort_permutes) as HC.
  destruct (ParseHeader _ _ _ _) as [[l|e|w'] s]; cbn in *; [done|done|].
  injection H as ->. apply HC.
Qed.

(** ** Small files *)
Module SmallFile.
Definition q : string := String quote "".
Definition quoted (s : string) : string := q +:+ s +:+ q.
Definition entry (name dtype shape offsets : string) : string :=
  quoted name +:+ ":{" +:+ quoted "dtype" +:+ ":" +:+ quoted dtype +:+ ", " +:+ quoted "shape" +:+ ":[" +:+ shape +:+ "], " +:+
  quoted "data_offsets" +:+ ":[" +:+ offsets +:+ "]}".

Definition bytes_of (s : string) : list Z := (fun c => Z.of_N (N_of_ascii c)) <$> String.list_ascii_of_string s.
(** A file with the given header and [n] bytes of data. *)
Definition file (header : string) (n : nat) : list Z :=
  let len := Z.of_nat (String.length header) in
  [len mod 256; len / 256; 0; 0; 0; 0; 0; 0] ++ bytes_of header ++ replicate n 7.

#[local] Instance offset_le_dec : RelDecision (fun a b => data_offset_begin a <= data_offset_begin b).
Proof. intros a b. apply Z_le_dec. Defined.
(** A sort that keeps the order of equal offsets, and one that reverses it. *)
Definition stable (l : list HfSafetensorsEntry) : list HfSafetensorsEntry := merge_sort (fun a b => data_offset_begin a <= data_offset_begin b) l.
Definition unstable (l : list HfSafetensorsEntry) : list HfSafetensorsEntry := stable (reverse l).

#[export] Instance stable_sorts : SortsByOffset stable.
Proof.
  split; intros l; [apply merge_sort_Permutation|]. apply StronglySorted_merge_sort; [intros a b c; lia|intros a b; lia].
Qed.
#[export] Instance unstable_sorts : SortsByOffset unstable.
Proof. split; intros l; unfold unstable; [rewrite sort_permutes; apply reverse_Permutation|apply sort_orders]. Qed.

Definition two_tensors : list Z :=
  file ("{" +:+ quoted "__metadata__" +:+ ":{" +:+ quoted "format" +:+ ":" +:+ quoted "pt" +:+ "}," +:+ entry "b" "BF16" "2" "8,12" +:+ ", " +:+ entry "w" "F32" "1, 2" "0,8" +:+ "}") 12.
Example two_tensors_open : (fun f => (ent_name <$> file_entries f, rw_data ∘ ent_view <$> Find f "b", rw_bytes ∘ ent_view <$> Find f "w")) <$> (match Open stable 4096 two_tensors with Ret f => Some f | _ => None end)
  = Some (["b"; "w"], Some (4096 + zlen two_tensors - 4), Some 8).
Proof. vm_compute. reflexivity. Qed.

(** A header that names no tensor, in front of data: the code reads the last element of
    an empty vector. *)
Example metadata_only_reads_past_the_end :
  Open stable 4096 (file ("{" +:+ quoted "__metadata__" +:+ ":{}}") 1) = Panic "vector::back".
Proof. vm_compute. reflexivity. Qed.

(** The empty header is taken before the text after it and the data are looked at. *)
Example empty_header_hides_data :
  Open stable 4096 (file "{} not json" 1) = Ret (make_file []).
Proof. vm_compute. reflexivity. Qed.

(** An empty tensor next to another one: the answer depends on how the sort breaks ties. *)
Definition empty_tensor : list Z := file ("{" +:+ entry "e" "F32" "0" "0,0" +:+ "," +:+ entry "w" "F32" "2" "0,8" +:+ "}") 8.
Example empty_tensor_depends_on_the_sort :
  (exists f, Open stable 4096 empty_tensor = Ret f) /\ Open unstable 4096 empty_tensor = Fail (bad "Safetensors tensor data_offsets overlap or contain gaps").
Proof. split; [eexists|]; vm_compute; reflexivity. Qed.
End SmallFile.

(** The file of two tensors opens, so its tensors are sound. *)
Lemma Open_sound_witness : exists f, Open SmallFile.stable 4096 SmallFile.two_tensors = Ret f /\ file_entries f <> [] /\ NoDup (ent_name <$> file_entries f).
Proof.
  destruct (Open SmallFile.stable 4096 SmallFile.two_tensors) as [f| |] eqn:E; [|exfalso; revert E; vm_compute; discriminate..].
  exists f. split; [reflexivity|]. split.
  - intros Hn. assert (file_entries <$> (match Open SmallFile.stable 4096 SmallFile.two_tensors with Ret f => Some f | _ => None end) = Some []) as HB by (rewrite E; cbn; by rewrite Hn).
    vm_compute in HB. discriminate HB.
  - destruct (Open_sound SmallFile.stable 4096 SmallFile.two_tensors f SmallFile.stable_sorts ltac:(lia) ltac:(vm_compute; reflexivity) E) as (n & _ & _ & _ & _ & HS). exact (sf_names _ _ _ HS).
Defined.
