(* ===== verification/HfDirectory.v ===== *)
(** * HfDirectory: from a model directory to a loaded model

    [src/model/formats/hf/hf_directory_reader.cpp], [src/model/formats/hf/hf_safetensors_index.cpp],
    the file helpers of [src/model/formats/hf/hf_utils.cpp] and [src/model/model_loader.cpp]. The file system
    is a parameter: what its queries answer, what reading a file gives and where a file is
    mapped. Paths are strings in the POSIX notation; a path that is compared component by
    component is the list of its components. The order in which a loop visits an
    [unordered_map] is not specified and is a parameter too. *)
From Stdlib Require Import Ascii.
From stdpp Require Import sorting.
From S2P Require Import Prelude OverflowCheck ShapeSymbol ShapeConstraint DataTypes OperatorSchema Graph FloatFormat OpParamsSerde KernelRegistry Tensor Prepack HfModel HfJson Safetensors.

(** ** The configuration file *)

Definition set_model_type (c : HfModelConfig) v := mkConfig v (architectures c) (hidden_size c) (intermediate_size c) (num_hidden_layers c) (cfg_attention_heads c) (cfg_key_value_heads c) (vocab_size c) (cfg_max_position_embeddings c) (cfg_head_dim c) (rms_norm_eps c) (hidden_act c) (tie_word_embeddings c) (attention_bias c) (mlp_bias c) (weight_dtype_hint_name c) (weight_dtype_hint c) (rope c).
Definition set_architectures (c : HfModelConfig) v := mkConfig (model_type c) v (hidden_size c) (intermediate_size c) (num_hidden_layers c) (cfg_attention_heads c) (cfg_key_value_heads c) (vocab_size c) (cfg_max_position_embeddings c) (cfg_head_dim c) (rms_norm_eps c) (hidden_act c) (tie_word_embeddings c) (attention_bias c) (mlp_bias c) (weight_dtype_hint_name c) (weight_dtype_hint c) (rope c).
Definition set_hidden_size (c : HfModelConfig) v := mkConfig (model_type c) (architectures c) v (intermediate_size c) (num_hidden_layers c) (cfg_attention_heads c) (cfg_key_value_heads c) (vocab_size c) (cfg_max_position_embeddings c) (cfg_head_dim c) (rms_norm_eps c) (hidden_act c) (tie_word_embeddings c) (attention_bias c) (mlp_bias c) (weight_dtype_hint_name c) (weight_dtype_hint c) (rope c).
Definition set_intermediate_size (c : HfModelConfig) v := mkConfig (model_type c) (architectures c) (hidden_size c) v (num_hidden_layers c) (cfg_attention_heads c) (cfg_key_value_heads c) (vocab_size c) (cfg_max_position_embeddings c) (cfg_head_dim c) (rms_norm_eps c) (hidden_act c) (tie_word_embeddings c) (attention_bias c) (mlp_bias c) (weight_dtype_hint_name c) (weight_dtype_hint c) (rope c).
Definition set_num_hidden_layers (c : HfModelConfig) v := mkConfig (model_type c) (architectures c) (hidden_size c) (intermediate_size c) v (cfg_attention_heads c) (cfg_key_value_heads c) (vocab_size c) (cfg_max_position_embeddings c) (cfg_head_dim c) (rms_norm_eps c) (hidden_act c) (tie_word_embeddings c) (attention_bias c) (mlp_bias c) (weight_dtype_hint_name c) (weight_dtype_hint c) (rope c).
Definition set_cfg_attention_heads (c : HfModelConfig) v := mkConfig (model_type c) (architectures c) (hidden_size c) (intermediate_size c) (num_hidden_layers c) v (cfg_key_value_heads c) (vocab_size c) (cfg_max_position_embeddings c) (cfg_head_dim c) (rms_norm_eps c) (hidden_act c) (tie_word_embeddings c) (attention_bias c) (mlp_bias c) (weight_dtype_hint_name c) (weight_dtype_hint c) (rope c).
Definition set_cfg_key_value_heads (c : HfModelConfig) v := mkConfig (model_type c) (architectures c) (hidden_size c) (intermediate_size c) (num_hidden_layers c) (cfg_attention_heads c) v (vocab_size c) (cfg_max_position_embeddings c) (cfg_head_dim c) (rms_norm_eps c) (hidden_act c) (tie_word_embeddings c) (attention_bias c) (mlp_bias c) (weight_dtype_hint_name c) (weight_dtype_hint c) (rope c).
Definition set_vocab_size (c : HfModelConfig) v := mkConfig (model_type c) (architectures c) (hidden_size c) (intermediate_size c) (num_hidden_layers c) (cfg_attention_heads c) (cfg_key_value_heads c) v (cfg_max_position_embeddings c) (cfg_head_dim c) (rms_norm_eps c) (hidden_act c) (tie_word_embeddings c) (attention_bias c) (mlp_bias c) (weight_dtype_hint_name c) (weight_dtype_hint c) (rope c).
Definition set_cfg_max_position_embeddings (c : HfModelConfig) v := mkConfig (model_type c) (architectures c) (hidden_size c) (intermediate_size c) (num_hidden_layers c) (cfg_attention_heads c) (cfg_key_value_heads c) (vocab_size c) v (cfg_head_dim c) (rms_norm_eps c) (hidden_act c) (tie_word_embeddings c) (attention_bias c) (mlp_bias c) (weight_dtype_hint_name c) (weight_dtype_hint c) (rope c).
Definition set_cfg_head_dim (c : HfModelConfig) v := mkConfig (model_type c) (architectures c) (hidden_size c) (intermediate_size c) (num_hidden_layers c) (cfg_attention_heads c) (cfg_key_value_heads c) (vocab_size c) (cfg_max_position_embeddings c) v (rms_norm_eps c) (hidden_act c) (tie_word_embeddings c) (attention_bias c) (mlp_bias c) (weight_dtype_hint_name c) (weight_dtype_hint c) (rope c).
Definition set_rms_norm_eps (c : HfModelConfig) v := mkConfig (model_type c) (architectures c) (hidden_size c) (intermediate_size c) (num_hidden_layers c) (cfg_attention_heads c) (cfg_key_value_heads c) (vocab_size c) (cfg_max_position_embeddings c) (cfg_head_dim c) v (hidden_act c) (tie_word_embeddings c) (attention_bias c) (mlp_bias c) (weight_dtype_hint_name c) (weight_dtype_hint c) (rope c).
Definition set_hidden_act (c : HfModelConfig) v := mkConfig (model_type c) (architectures c) (hidden_size c) (intermediate_size c) (num_hidden_layers c) (cfg_attention_heads c) (cfg_key_value_heads c) (vocab_size c) (cfg_max_position_embeddings c) (cfg_head_dim c) (rms_norm_eps c) v (tie_word_embeddings c) (attention_bias c) (mlp_bias c) (weight_dtype_hint_name c) (weight_dtype_hint c) (rope c).
Definition set_tie_word_embeddings (c : HfModelConfig) v := mkConfig (model_type c) (architectures c) (hidden_size c) (intermediate_size c) (num_hidden_layers c) (cfg_attention_heads c) (cfg_key_value_heads c) (vocab_size c) (cfg_max_position_embeddings c) (cfg_head_dim c) (rms_norm_eps c) (hidden_act c) v (attention_bias c) (mlp_bias c) (weight_dtype_hint_name c) (weight_dtype_hint c) (rope c).
Definition set_attention_bias (c : HfModelConfig) v := mkConfig (model_type c) (architectures c) (hidden_size c) (intermediate_size c) (num_hidden_layers c) (cfg_attention_heads c) (cfg_key_value_heads c) (vocab_size c) (cfg_max_position_embeddings c) (cfg_head_dim c) (rms_norm_eps c) (hidden_act c) (tie_word_embeddings c) v (mlp_bias c) (weight_dtype_hint_name c) (weight_dtype_hint c) (rope c).
Definition set_mlp_bias (c : HfModelConfig) v := mkConfig (model_type c) (architectures c) (hidden_size c) (intermediate_size c) (num_hidden_layers c) (cfg_attention_heads c) (cfg_key_value_heads c) (vocab_size c) (cfg_max_position_embeddings c) (cfg_head_dim c) (rms_norm_eps c) (hidden_act c) (tie_word_embeddings c) (attention_bias c) v (weight_dtype_hint_name c) (weight_dtype_hint c) (rope c).
Definition set_weight_dtype_hint_name (c : HfModelConfig) v := mkConfig (model_type c) (architectures c) (hidden_size c) (intermediate_size c) (num_hidden_layers c) (cfg_attention_heads c) (cfg_key_value_heads c) (vocab_size c) (cfg_max_position_embeddings c) (cfg_head_dim c) (rms_norm_eps c) (hidden_act c) (tie_word_embeddings c) (attention_bias c) (mlp_bias c) v (weight_dtype_hint c) (rope c).
Definition set_weight_dtype_hint (c : HfModelConfig) v := mkConfig (model_type c) (architectures c) (hidden_size c) (intermediate_size c) (num_hidden_layers c) (cfg_attention_heads c) (cfg_key_value_heads c) (vocab_size c) (cfg_max_position_embeddings c) (cfg_head_dim c) (rms_norm_eps c) (hidden_act c) (tie_word_embeddings c) (attention_bias c) (mlp_bias c) (weight_dtype_hint_name c) v (rope c).
Definition set_rope (c : HfModelConfig) v := mkConfig (model_type c) (architectures c) (hidden_size c) (intermediate_size c) (num_hidden_layers c) (cfg_attention_heads c) (cfg_key_value_heads c) (vocab_size c) (cfg_max_position_embeddings c) (cfg_head_dim c) (rms_norm_eps c) (hidden_act c) (tie_word_embeddings c) (attention_bias c) (mlp_bias c) (weight_dtype_hint_name c) (weight_dtype_hint c) v.

(* @src include/aethermind/model/formats/hf/hf_model_config.h:71-94 HfModelConfig (defaults) *)
Definition default_config : HfModelConfig :=
  mkConfig "" [] 0 0 0 0 0 0 0 0 0 "silu" false false false "" DataType.default_type (mkHfRope 4666723172467343360 None hfNone).

(* @src src/model/formats/hf/hf_directory_reader.cpp:20-24 ParsedRopeConfig *)
Record ParsedRopeConfig := mkParsedRope { pr_factor : option Z; pr_type : HfRopeScalingType; pr_theta : option Z }.

(* @src src/model/formats/hf/hf_directory_reader.cpp:189-209 ConfigJsonParser::ParseRopeConfig (field) *)
Definition rope_field (r : ParsedRopeConfig) (key : string) : J ParsedRopeConfig :=
  if bool_decide (key = "factor") then factor ← ParseDouble; mret (mkParsedRope (Some factor) (pr_type r) (pr_theta r))
  else if bool_decide (key = "type") || bool_decide (key = "rope_type") then
    type ← ParseString; mret (mkParsedRope (pr_factor r) (ParseRopeScalingType type) (pr_theta r))
  else if bool_decide (key = "rope_theta") then theta ← ParseDouble; mret (mkParsedRope (pr_factor r) (pr_type r) (Some theta))
  else _ ← SkipValue; mret r.

(* @src src/model/formats/hf/hf_directory_reader.cpp:170-219 ConfigJsonParser::ParseRopeConfig *)
Definition ParseRopeConfig : J ParsedRopeConfig :=
  null ← TryConsumeLiteral "null";
  if (null : bool) then mret (mkParsedRope None hfNone None) else
  opened ← TryConsume "{"%char;
  if negb opened then jfail "Expected RoPE config object"
  else members "after RoPE config key" "between RoPE config fields" rope_field (mkParsedRope None hfNone None).

(* @src src/model/formats/hf/hf_directory_reader.cpp:221-248 ConfigJsonParser::ParseTorchDType *)
Definition ParseTorchDType (dtype : string) : DataType.t :=
  let equals := String.eqb dtype in
  if equals "auto" then DataType.default_type
  else if equals "float32" || equals "float" then DataType.Float32
  else if equals "float16" || equals "half" then DataType.Float 16
  else if equals "bfloat16" then DataType.BFloat 16
  else if equals "float64" || equals "double" then DataType.Float 64
  else if equals "int8" then DataType.Int 8
  else if equals "int4" then DataType.Int 4
  else DataType.default_type.

(* @src src/model/formats/hf/hf_directory_reader.cpp:250-253 ConfigJsonParser::FieldParseError *)
Definition FieldParseError (key message : string) : string := "Failed to parse HF config field '" +:+ key +:+ "': " +:+ message.

(* @src src/model/formats/hf/hf_directory_reader.cpp:72-79 ConfigJsonParser::ParseField (parse_into) *)
Definition parse_into {A} (key : string) (parse : J A) (out : A -> HfModelConfig) : J HfModelConfig :=
  value ← with_message (FieldParseError key) parse; mret (out value).

(** The scaling of a configuration is replaced as a whole, the base only if it is given. *)
(* @src src/model/formats/hf/hf_directory_reader.cpp:145-157 ConfigJsonParser::ParseField (RoPE) *)
Definition apply_rope (c : HfModelConfig) (p : ParsedRopeConfig) : HfModelConfig :=
  set_rope c (mkHfRope (default (hf_theta (rope c)) (pr_theta p)) (pr_factor p) (pr_type p)).

(* @src src/model/formats/hf/hf_directory_reader.cpp:69-168 ConfigJsonParser::ParseField *)
Definition ParseField (c : HfModelConfig) (key : string) : J HfModelConfig :=
  let equals := String.eqb key in
  if equals "model_type" then parse_into key ParseString (set_model_type c)
  else if equals "architectures" then parse_into key ParseStringArray (set_architectures c)
  else if equals "hidden_size" then parse_into key ParseInt64 (set_hidden_size c)
  else if equals "intermediate_size" then parse_into key ParseInt64 (set_intermediate_size c)
  else if equals "num_hidden_layers" then parse_into key ParseInt64 (set_num_hidden_layers c)
  else if equals "num_attention_heads" then parse_into key ParseInt64 (set_cfg_attention_heads c)
  else if equals "num_key_value_heads" then parse_into key ParseInt64 (set_cfg_key_value_heads c)
  else if equals "vocab_size" then parse_into key ParseInt64 (set_vocab_size c)
  else if equals "max_position_embeddings" then parse_into key ParseInt64 (set_cfg_max_position_embeddings c)
  else if equals "head_dim" then parse_into key ParseInt64 (set_cfg_head_dim c)
  else if equals "rms_norm_eps" then parse_into key ParseDouble (set_rms_norm_eps c)
  else if equals "hidden_act" then parse_into key ParseString (set_hidden_act c)
  else if equals "tie_word_embeddings" then parse_into key ParseBool (set_tie_word_embeddings c)
  else if equals "attention_bias" then parse_into key ParseBool (set_attention_bias c)
  else if equals "mlp_bias" then parse_into key ParseBool (set_mlp_bias c)
  else if equals "rope_theta" then parse_into key ParseDouble (fun v => set_rope c (mkHfRope v (hf_scaling_factor (rope c)) (hf_scaling_type (rope c))))
  else if equals "rope_scaling" || equals "rope_parameters" then parse_into key ParseRopeConfig (apply_rope c)
  else if equals "torch_dtype" || equals "dtype" then
    parse_into key ParseString (fun v => set_weight_dtype_hint (set_weight_dtype_hint_name c v) (ParseTorchDType v))
  else _ ← SkipValue; mret c.

(* @src src/model/formats/hf/hf_directory_reader.cpp:255-259 ConfigJsonParser::ApplyDefaults *)
Definition ApplyDefaults (c : HfModelConfig) : HfModelConfig :=
  if cfg_key_value_heads c <=? 0 then set_cfg_key_value_heads c (cfg_attention_heads c) else c.

(* @src src/model/formats/hf/hf_directory_reader.cpp:35-66 ConfigJsonParser::Parse *)
Definition ParseConfigJson : J HfModelConfig :=
  opened ← TryConsume "{"%char;
  if negb opened then jfail "HF config must be a JSON object" else
  config ← members "after HF config key" "between HF config fields" ParseField default_config;
  _ ← SkipWhitespace;
  done ← AtEnd;
  if negb done then jfail "HF config contains trailing JSON content" else
  mret (ApplyDefaults config).

(** ** The index of a sharded model *)

(** The names between the slashes: the components of a relative path but for an empty
    last one. *)
Fixpoint slash_split (s : string) : list string :=
  match s with
  | EmptyString => [""]
  | String c s' =>
      if Ascii.eqb c "/"%char then "" :: slash_split s'
      else match slash_split s' with [] => [String c ""] | t :: ts => String c t :: ts end
  end.
Definition components (s : string) : list string := filter (fun t => t <> "") (slash_split s).
Definition is_absolute (s : string) : bool := String.prefix "/" s.

(* @src src/model/formats/hf/hf_safetensors_index.cpp:20-40 ValidateShardFilename *)
Definition ValidateShardFilename (filename : string) : Res unit :=
  _ ← reject_if (bool_decide (filename = "")) (bad "Safetensors index shard filename must not be empty");
  _ ← reject_if (bool_decide (is_Some (String.index 0 "://" filename))) (bad "Safetensors index shard filename must not contain URI schemes");
  _ ← reject_if (is_absolute filename) (bad "Safetensors index shard filename must be relative");
  reject_if (bool_decide (".." ∈ components filename)) (bad "Safetensors index shard filename must not contain '..'").

(** The map from tensor names to shards, without repeated names. *)
Abbreviation WeightMap := (list (string * string)).

(* @src include/aethermind/model/formats/hf/hf_safetensors_index.h:16-47 HfSafetensorsIndex *)
Record HfSafetensorsIndex := mkIndex { weight_map : WeightMap; total_size : option Z }.

(* @src src/model/formats/hf/hf_safetensors_index.cpp:154-169 SafetensorsIndexParser::ParseTotalSize *)
Definition ParseTotalSize : J Z :=
  _ ← SkipWhitespace;
  cur ← peek;
  if bool_decide (cur = Some quote) then
    value ← ParseString;
    match from_chars_u64 value with
    | Some parsed => mret parsed
    | None => jfail "Safetensors index metadata total_size string is not a valid unsigned integer"
    end
  else ParseUInt64.

(* @src src/model/formats/hf/hf_safetensors_index.cpp:131-142 SafetensorsIndexParser::ParseMetadata (field) *)
Definition metadata_field (total : option Z) (key : string) : J (option Z) :=
  if bool_decide (key = "total_size") then
    if bool_decide (is_Some total) then jfail "Safetensors index metadata contains duplicate total_size field"
    else parsed ← ParseTotalSize; mret (Some parsed)
  else _ ← SkipValue; mret total.
(* @src src/model/formats/hf/hf_safetensors_index.cpp:118-152 SafetensorsIndexParser::ParseMetadata *)
Definition ParseMetadata : J (option Z) :=
  _ ← Expect "{"%char "at start of safetensors metadata";
  members "after safetensors metadata key" "between safetensors metadata entries" metadata_field None.

(* @src src/model/formats/hf/hf_safetensors_index.cpp:184-193 SafetensorsIndexParser::ParseWeightMap (entry) *)
Definition weight_map_entry (m : WeightMap) (tensor_name : string) : J WeightMap :=
  shard_filename ← ParseString;
  _ ← lift (ValidateShardFilename shard_filename);
  if bool_decide (tensor_name ∈ m.*1) then jfail ("Safetensors index weight_map contains duplicate tensor name: '" +:+ tensor_name +:+ "'")
  else mret (m ++ [(tensor_name, shard_filename)]).
(* @src src/model/formats/hf/hf_safetensors_index.cpp:171-203 SafetensorsIndexParser::ParseWeightMap *)
Definition ParseWeightMap : J WeightMap :=
  _ ← Expect "{"%char "at start of safetensors weight_map";
  members "after safetensors weight_map tensor name" "between safetensors weight_map entries" weight_map_entry [].

(** The local variables of the loop over the index. *)
Record IndexState := mkIndexState { has_weight_map : bool; has_metadata : bool; result : HfSafetensorsIndex }.
(* @src src/model/formats/hf/hf_safetensors_index.cpp:68-92 SafetensorsIndexParser::Parse (field) *)
Definition index_field (st : IndexState) (key : string) : J IndexState :=
  if bool_decide (key = "weight_map") then
    if has_weight_map st then jfail "Safetensors index contains duplicate weight_map field"
    else m ← ParseWeightMap; mret (mkIndexState true (has_metadata st) (mkIndex m (total_size (result st))))
  else if bool_decide (key = "metadata") then
    if has_metadata st then jfail "Safetensors index contains duplicate metadata field"
    else t ← ParseMetadata; mret (mkIndexState (has_weight_map st) true (mkIndex (weight_map (result st)) t))
  else _ ← SkipValue; mret st.

(* @src src/model/formats/hf/hf_safetensors_index.cpp:52-115 SafetensorsIndexParser::Parse *)
Definition ParseIndex : J HfSafetensorsIndex :=
  _ ← Expect "{"%char "at start of safetensors index";
  st ← members "after safetensors index key" "between safetensors index fields" index_field (mkIndexState false false (mkIndex [] None));
  _ ← SkipWhitespace;
  done ← AtEnd;
  if negb done then jfail "Safetensors index contains trailing JSON content"
  else if negb (has_weight_map st) then jfail "Safetensors index is missing required weight_map field"
  else if bool_decide (weight_map (result st) = []) then jfail "Safetensors index weight_map must not be empty"
  else mret (result st).

(** ** Files *)

(** The answer of [symlink_status]: an error, which may say that nothing is there, or
    whether it is a link. *)
Inductive LinkStatus := LinkError (absent : bool) | LinkKnown (link : bool).
(** What happens when a file is opened as a stream, sized, and read. *)
Inductive Stream := CannotOpen | CannotSize | CannotSeek (size : Z) | CannotRead (size : Z) | StreamText (text : string).

(** The file system during a load. A query that sets its error code answers [None]; a file
    is mapped at an address with its bytes, or the mapping fails with a status. *)
Record FileSystem := mkFileSystem {
  symlink_status : string -> LinkStatus;
  path_exists : string -> option bool;
  path_is_directory : string -> option bool;
  path_is_regular_file : string -> option bool;
  canonical : string -> option (list string);
  open_stream : string -> Stream;
  map_file : string -> Res (Z * list Z) }.

(** [operator/] of paths. *)
Definition path_join (a b : string) : string :=
  if is_absolute b then b
  else if bool_decide (a = "") || bool_decide (String.get (String.length a - 1) a = Some "/"%char) then a +:+ b
  else a +:+ "/" +:+ b.

(* @src include/aethermind/model/formats/hf/hf_utils.h:13-16 FormatPathMessage *)
Definition FormatPathMessage (prefix path : string) : string := prefix +:+ ": " +:+ path.

(** [if (!query(path, error) || error) { if (error) return ...; return ...; }] *)
Definition require (answer : option bool) (failed otherwise : Status) : Res unit :=
  match answer with None => Fail failed | Some b => reject_if (negb b) otherwise end.

Section Files.
Context (fs : FileSystem).

(* @src src/model/formats/hf/hf_utils.cpp:126-148 RejectExistingPathIfSymlink *)
Definition RejectExistingPathIfSymlink (path file_role : string) : Res unit :=
  match symlink_status fs path with
  | LinkError true => Ret tt
  | LinkError false => Fail (Internal (FormatPathMessage ("Failed to inspect " +:+ file_role +:+ " symlink status") path))
  | LinkKnown link => reject_if link (bad (FormatPathMessage (file_role +:+ " must not be a symlink") path))
  end.

Definition kMaxTextFileSize : Z := 16 * 1024 * 1024.

(* @src src/model/formats/hf/hf_utils.cpp:78-124 ReadFileText *)
Definition ReadFileText (path : string) : Res string :=
  let internal what := Internal (FormatPathMessage what path) in
  let sized (size : Z) := reject_if (kMaxTextFileSize <? size) (bad (FormatPathMessage "File exceeds maximum size" path)) in
  _ ← RejectExistingPathIfSymlink path "HF text file";
  _ ← require (path_exists fs path) (internal "Failed to stat file") (NotFound (FormatPathMessage "File not found" path));
  _ ← require (path_is_regular_file fs path) (internal "Failed to inspect file type") (bad (FormatPathMessage "Path is not a regular file" path));
  match open_stream fs path with
  | CannotOpen => Fail (internal "Failed to open file")
  | CannotSize => Fail (internal "Failed to determine file size")
  | CannotSeek size => _ ← sized size; Fail (internal "Failed to seek file")
  | CannotRead size => _ ← sized size; Fail (internal "Failed to read file")
  | StreamText text => _ ← sized (Z.of_nat (String.length text)); Ret text
  end.

(** ** The directory *)

(* @src include/aethermind/model/formats/hf/hf_directory_reader.h:18-22 HfDirectoryLayout *)
Inductive HfDirectoryLayout := kUnknownLayout | kSingleSafetensors | kShardedSafetensors.
(* @src include/aethermind/model/formats/hf/hf_directory_reader.h:30-44 HfDirectoryDescriptor *)
Record HfDirectoryDescriptor := mkDescriptor {
  layout : HfDirectoryLayout; model_dir : string; config_path : string; safetensors_path : string; safetensors_index_path : string }.

(* @src src/model/formats/hf/hf_directory_reader.cpp:452-574 HfDirectoryReader::InspectDirectory *)
Definition InspectDirectory (dir : string) : Res HfDirectoryDescriptor :=
  let internal what path := Internal (FormatPathMessage what path) in
  _ ← reject_if (bool_decide (dir = "")) (bad "HF model directory path must not be empty");
  _ ← require (path_exists fs dir) (internal "Failed to stat HF model directory" dir) (NotFound (FormatPathMessage "HF model directory not found" dir));
  _ ← require (path_is_directory fs dir) (internal "Failed to inspect HF model directory type" dir)
        (bad (FormatPathMessage "HF model path is not a directory" dir));
  let config := path_join dir "config.json" in
  let single := path_join dir "model.safetensors" in
  let index := path_join dir "model.safetensors.index.json" in
  _ ← RejectExistingPathIfSymlink config "HF config file";
  _ ← require (path_exists fs config) (internal "Failed to stat config.json" config)
        (NotFound (FormatPathMessage "HF model directory is missing config.json" config));
  _ ← require (path_is_regular_file fs config) (internal "Failed to inspect config.json type" config)
        (bad (FormatPathMessage "config.json path is not a regular file" config));
  _ ← RejectExistingPathIfSymlink single "HF safetensors file";
  match path_exists fs single with
  | None => Fail (internal "Failed to stat model.safetensors" single)
  | Some has_single_file =>
      _ ← RejectExistingPathIfSymlink index "HF safetensors index file";
      match path_exists fs index with
      | None => Fail (internal "Failed to stat model.safetensors.index.json" index)
      | Some has_sharded_index =>
          _ ← reject_if (has_single_file && has_sharded_index)
                (FailedPrecondition (FormatPathMessage "HF model directory has conflicting single-file and sharded safetensors layouts" dir));
          _ ← (if has_single_file then require (path_is_regular_file fs single) (internal "Failed to inspect model.safetensors type" single)
                 (bad (FormatPathMessage "model.safetensors path is not a regular file" single)) else Ret tt);
          _ ← (if has_sharded_index then require (path_is_regular_file fs index) (internal "Failed to inspect model.safetensors.index.json type" index)
                 (bad (FormatPathMessage "model.safetensors.index.json path is not a regular file" index)) else Ret tt);
          if has_single_file then Ret (mkDescriptor kSingleSafetensors dir config single "")
          else if has_sharded_index then Ret (mkDescriptor kShardedSafetensors dir config "" index)
          else Fail (NotFound (FormatPathMessage "HF model directory is missing both model.safetensors and model.safetensors.index.json" dir))
      end
  end.

(** A status passed on with a new message. *)
Definition with_status {A} (f : string -> string) (m : Res A) : Res A :=
  match m with Fail e => Fail (mkStatus (code e) (f (message e))) | r => r end.

(* @src src/model/formats/hf/hf_directory_reader.cpp:425-437 HfDirectoryReader::ParseConfig *)
Definition ParseConfig (d : HfDirectoryDescriptor) : Res HfModelConfig :=
  text ← ReadFileText (config_path d);
  with_status (fun m => FormatPathMessage m (config_path d)) (ParseConfigJson text).1.

(* @src src/model/formats/hf/hf_safetensors_index.cpp:208-220 HfSafetensorsIndex::Load *)
Definition LoadIndex (index_path : string) : Res HfSafetensorsIndex :=
  text ← ReadFileText index_path;
  with_status (fun m => FormatPathMessage m index_path) (ParseIndex text).1.

(** ** The weights *)

(** The sort inside a safetensors header, and the order in which a loop visits a map. *)
Context (sort : list HfSafetensorsEntry -> list HfSafetensorsEntry) (visit : forall A, list (string * A) -> list (string * A)).

(* @src src/model/formats/hf/hf_safetensors_index.cpp:222-233 HfSafetensorsIndex::UniqueShardFilenames *)
Definition UniqueShardFilenames (i : HfSafetensorsIndex) : list string :=
  merge_sort (fun a b => Is_true (String.leb a b))
    (foldl (fun shards shard => if bool_decide (shard ∈ shards) then shards else shards ++ [shard]) [] (visit _ (weight_map i)).*2).

(* @src src/model/formats/hf/hf_safetensors_file.cpp:311-317 HfSafetensorsFile::Open (mapping) *)
Definition OpenFile (path : string) : Res HfSafetensorsFile :=
  _ ← RejectExistingPathIfSymlink path "HF safetensors file";
  m ← map_file fs path;
  Open sort (fst m) (snd m).

(** [emplace] keeps the value that is already there. *)
Definition emplace {A} (m : list (string * A)) (key : string) (value : A) : bool * list (string * A) :=
  if bool_decide (key ∈ m.*1) then (false, m) else (true, m ++ [(key, value)]).

(* @src src/model/formats/hf/hf_directory_reader.cpp:262-275 LoadSingleFileRawWeightTable *)
Definition LoadSingleFileRawWeightTable (d : HfDirectoryDescriptor) : Res RawWeightTable :=
  file ← with_status (fun m => FormatPathMessage m (model_dir d)) (OpenFile (safetensors_path d));
  Ret (visit _ (foldl (fun t e => snd (emplace t (ent_name e) (ent_view e))) [] (file_entries file))).

(* @src src/model/formats/hf/hf_directory_reader.cpp:277-297 EnsureShardFileExists *)
Definition EnsureShardFileExists (shard_path : string) : Res unit :=
  _ ← require (path_exists fs shard_path) (Internal (FormatPathMessage "Failed to stat safetensors shard file" shard_path))
        (NotFound (FormatPathMessage "Safetensors shard file not found" shard_path));
  require (path_is_regular_file fs shard_path) (Internal (FormatPathMessage "Failed to inspect safetensors shard file type" shard_path))
    (bad (FormatPathMessage "Safetensors shard path is not a regular file" shard_path)).

(* @src src/model/formats/hf/hf_directory_reader.cpp:299-311 IsPathWithinDirectory *)
Fixpoint IsPathWithinDirectory (child parent : list string) : bool :=
  match parent, child with
  | [], _ => true
  | p :: parent', c :: child' => bool_decide (c = p) && IsPathWithinDirectory child' parent'
  | _ :: _, [] => false
  end.

(* @src src/model/formats/hf/hf_directory_reader.cpp:313-331 ValidateShardPathIsContained *)
Definition ValidateShardPathIsContained (canonical_model_dir : list string) (shard_path : string) : Res unit :=
  _ ← RejectExistingPathIfSymlink shard_path "HF safetensors shard file";
  match canonical fs shard_path with
  | None => Fail (Internal (FormatPathMessage "Failed to canonicalize safetensors shard path" shard_path))
  | Some p => reject_if (negb (IsPathWithinDirectory p canonical_model_dir))
                (bad (FormatPathMessage "Safetensors shard path escapes HF model directory" shard_path))
  end.

Definition map_find {A} (m : list (string * A)) (key : string) : option A := snd <$> head (filter (fun e => e.1 = key) m).

(* @src src/model/formats/hf/hf_directory_reader.cpp:362-383 LoadShardedRawWeightTable (tensor) *)
Definition shard_tensor (m : WeightMap) (shard_filename shard_path : string) (t : RawWeightTable) (e : HfSafetensorsEntry) : Res RawWeightTable :=
  match map_find m (ent_name e) with
  | None => Fail (bad (FormatPathMessage ("Safetensors shard contains tensor not listed in index: '" +:+ ent_name e +:+ "'") shard_path))
  | Some expected_shard =>
      _ ← reject_if (bool_decide (expected_shard <> shard_filename))
            (FailedPrecondition (FormatPathMessage ("Safetensors index assigns tensor '" +:+ ent_name e +:+ "' to shard '" +:+ expected_shard +:+
               "' but it was found in shard '" +:+ shard_filename +:+ "'") shard_path));
      let '(inserted, t') := emplace t (ent_name e) (ent_view e) in
      _ ← reject_if (negb inserted) (AlreadyExists (FormatPathMessage ("Duplicate safetensors tensor across shards: '" +:+ ent_name e +:+ "'") shard_path));
      Ret t'
  end.

(* @src src/model/formats/hf/hf_directory_reader.cpp:351-384 LoadShardedRawWeightTable (shard) *)
Definition load_shard (dir : string) (canonical_model_dir : list string) (m : WeightMap) (t : RawWeightTable) (shard_filename : string) : Res RawWeightTable :=
  let shard_path := path_join dir shard_filename in
  _ ← EnsureShardFileExists shard_path;
  _ ← ValidateShardPathIsContained canonical_model_dir shard_path;
  file ← with_status (fun msg => FormatPathMessage msg shard_path) (OpenFile shard_path);
  res_foldl (shard_tensor m shard_filename shard_path) t (file_entries file).

(* @src src/model/formats/hf/hf_directory_reader.cpp:386-410 LoadShardedRawWeightTable (missing tensors) *)
Definition missing_message (m : WeightMap) (t : RawWeightTable) : string :=
  let missing := (fun e => "'" +:+ e.1 +:+ "' (assigned to shard '" +:+ e.2 +:+ "')") <$> filter (fun e => e.1 ∉ t.*1) (visit _ m) in
  "Safetensors index contains " +:+ pretty (zlen missing) +:+ " tensor(s) missing from their assigned shards: " +:+ String.concat ", " missing.

(* @src src/model/formats/hf/hf_directory_reader.cpp:333-412 LoadShardedRawWeightTable *)
Definition LoadShardedRawWeightTable (d : HfDirectoryDescriptor) : Res RawWeightTable :=
  index ← LoadIndex (safetensors_index_path d);
  match canonical fs (model_dir d) with
  | None => Fail (Internal (FormatPathMessage "Failed to canonicalize HF model directory" (model_dir d)))
  | Some canonical_model_dir =>
      raw_weights ← res_foldl (load_shard (model_dir d) canonical_model_dir (weight_map index)) [] (UniqueShardFilenames index);
      _ ← reject_if (negb (length raw_weights =? length (weight_map index))%nat)
            (NotFound (FormatPathMessage (missing_message (weight_map index) raw_weights) (model_dir d)));
      Ret (visit _ raw_weights)
  end.

(* @src src/model/formats/hf/hf_directory_reader.cpp:439-450 HfDirectoryReader::LoadRawWeightTable *)
Definition LoadRawWeightTable (d : HfDirectoryDescriptor) : Res RawWeightTable :=
  match layout d with
  | kSingleSafetensors => LoadSingleFileRawWeightTable d
  | kShardedSafetensors => LoadShardedRawWeightTable d
  | kUnknownLayout => Fail (FailedPrecondition (FormatPathMessage "Unknown HF safetensors directory layout" (model_dir d)))
  end.

(** ** The loader *)

(** The memory of the process, and what allocations yield. *)
Context (byte_at : Z -> Z) (posix_memalign : Z -> Z -> option Z).

(* @src include/aethermind/model/model_instance.h:10-32 ModelInstance *)
Record ModelInstance := mkInstance { mi_config : HfModelConfig; mi_weights : ResolvedModelWeights; mi_sidecar : BackendSidecar }.

(** [device] is the device of the backend. *)
(* @src src/model/model_loader.cpp:12-55 ModelLoader::Load *)
Definition Load (dir : string) (device : DeviceType.t) : Res ModelInstance :=
  reader ← InspectDirectory dir;
  config ← ParseConfig reader;
  _ ← ValidateConfig config default_validation;
  raw_weights ← LoadRawWeightTable reader;
  _ ← ValidateWeightSet config raw_weights default_validation;
  resolved_weights ← ResolveWeights config raw_weights;
  _ ← ValidateResolvedModel config resolved_weights default_validation;
  sidecar ← PrepackAndStore byte_at posix_memalign (BuildRequests device resolved_weights);
  Ret (mkInstance config resolved_weights sidecar).
End Files.

(** ** What a load went through *)

Lemma with_status_ret {A} f (m : Res A) x : with_status f m = Ret x -> m = Ret x.
Proof. by destruct m. Qed.
Lemma require_ret q a b u : require q a b = Ret u -> q = Some true.
Proof. destruct q as [[]|]; done. Qed.

Lemma within_prefix parent : forall child, IsPathWithinDirectory child parent = true <-> exists rest, child = parent ++ rest.
Proof.
  induction parent as [|p parent IH]; intros child; cbn [IsPathWithinDirectory].
  - split; [by exists child|by destruct child].
  - destruct child as [|c child]; [split; [done|by intros [? [=]]]|]. cbn [IsPathWithinDirectory]. rewrite andb_true_iff, bool_decide_eq_true, IH. split.
    + intros [-> [rest ->]]. by exists rest.
    + intros [rest [= -> ->]]. split; [done|]. by exists rest.
Qed.

Lemma emplace_fresh {A} (m : list (string * A)) key value : key ∉ m.*1 -> emplace m key value = (true, m ++ [(key, value)]).
Proof. intros H. unfold emplace. by rewrite bool_decide_false. Qed.

Definition tensor_of (e : HfSafetensorsEntry) : string * RawWeightView := (ent_name e, ent_view e).
Lemma tensor_names l : (tensor_of <$> l).*1 = ent_name <$> l.
Proof. by rewrite <- list_fmap_compose. Qed.

(** Emplacing tensors with different names keeps them all. *)
Lemma emplace_all l : forall t, NoDup (t.*1 ++ (ent_name <$> l)) ->
  foldl (fun t e => snd (emplace t (ent_name e) (ent_view e))) t l = t ++ (tensor_of <$> l).
Proof.
  induction l as [|e l IH]; intros t HN; [by rewrite app_nil_r|]. cbn [foldl]. rewrite emplace_fresh.
  - cbn [snd]. rewrite IH; [by rewrite <- app_assoc|]. by rewrite fmap_app, <- app_assoc.
  - intros Hin. apply NoDup_app in HN as (_ & HN & _). apply (HN _ Hin). left.
Qed.

Lemma map_find_elem {A} (m : list (string * A)) key v : map_find m key = Some v -> (key, v) ∈ m.
Proof.
  unfold map_find. destruct (filter _ m) as [|[k x] r] eqn:E; [done|]. intros [= <-].
  assert ((k, x) ∈ filter (fun e => e.1 = key) m) as H by (rewrite E; left). by apply list_elem_of_filter in H as [<- H].
Qed.
Lemma table_find_elem (m : RawWeightTable) key v : table_find m key = Some v -> (key, v) ∈ m.
Proof. apply map_find_elem. Qed.

(** Removing repetitions keeps the members. *)
Lemma dedup_elem (l : list string) : forall acc x,
  x ∈ foldl (fun shards shard => if bool_decide (shard ∈ shards) then shards else shards ++ [shard]) acc l <-> x ∈ acc \/ x ∈ l.
Proof.
  induction l as [|y l IH]; intros acc x; cbn [foldl]; [rewrite elem_of_nil; tauto|]. rewrite IH, elem_of_cons.
  case_bool_decide; [|rewrite elem_of_app, list_elem_of_singleton; tauto]. split; [tauto|]. intros [?|[-> |?]]; tauto.
Qed.

Section Loading.
Context (fs : FileSystem) (sort : list HfSafetensorsEntry -> list HfSafetensorsEntry) (visit : forall A, list (string * A) -> list (string * A)).

(** What the environment promises: sorting sorts, a loop over a map visits each entry once,
    and a mapped file is neither at the null address nor larger than the address space. *)
Class LoadEnvironment : Prop := {
  env_sorts :: SortsByOffset sort;
  env_visits A (l : list (string * A)) : visit A l ≡ₚ l;
  env_maps path base bytes : map_file fs path = Ret (base, bytes) -> 0 < base /\ zlen bytes < 2 ^ 64 }.
Context `{ENV : !LoadEnvironment}.

Lemma OpenFile_inv path f : OpenFile fs sort path = Ret f ->
  symlink_status fs path <> LinkKnown true /\ exists base bytes, map_file fs path = Ret (base, bytes) /\ Open sort base bytes = Ret f.
Proof using.
  unfold OpenFile. intros H. apply res_bind_ret_inv in H as (? & H1 & H). apply res_bind_ret_inv in H as ([base bytes] & H2 & H).
  split; [|by exists base, bytes]. intros E. unfold RejectExistingPathIfSymlink in H1. by rewrite E in H1.
Qed.

(** The tensors of a file that opens are sound and inside its mapping. *)
Lemma OpenFile_sound path f : OpenFile fs sort path = Ret f ->
  exists base bytes start, map_file fs path = Ret (base, bytes) /\ base + 8 <= start /\ sound_file start (base + zlen bytes) f.
Proof using ENV.
  intros H. apply OpenFile_inv in H as [_ (base & bytes & Hm & H)]. destruct (env_maps _ _ _ Hm) as [Hb Hl].
  apply Open_inv in H as (n & l & s & _ & _ & Hn & Hle & -> & H). exists base, bytes, (base + (8 + n)). split; [done|]. split; [lia|].
  replace (base + zlen bytes) with (base + (8 + n) + (zlen bytes - (8 + n))) by lia. eapply parsed_sound; [apply env_sorts|lia|lia|exact H].
Qed.

(** ** Shards *)

Section Sharded.
Context (dir : string) (cdir : list string) (m : WeightMap).

(** A shard is a regular file, not a link, whose real path is inside the directory. *)
Definition shard_contained (shard : string) : Prop :=
  let path := path_join dir shard in
  path_is_regular_file fs path = Some true /\ symlink_status fs path <> LinkKnown true /\ exists rest, canonical fs path = Some (cdir ++ rest).

(** Where a tensor of the table comes from. *)
Definition from_shard (name : string) (v : RawWeightView) : Prop :=
  exists shard f e, (name, shard) ∈ m /\ shard_contained shard /\ OpenFile fs sort (path_join dir shard) = Ret f /\ e ∈ file_entries f /\ tensor_of e = (name, v).

Definition table_from_shards (t : RawWeightTable) : Prop := NoDup t.*1 /\ forall name v, (name, v) ∈ t -> from_shard name v.

Lemma shard_tensor_ret shard path t e t' : shard_tensor m shard path t e = Ret t' ->
  (ent_name e, shard) ∈ m /\ (ent_name e ∉ t.*1) /\ t' = t ++ [tensor_of e].
Proof using.
  unfold shard_tensor, emplace. destruct (map_find m (ent_name e)) as [x|] eqn:E; [|done]. intros H. apply res_bind_ret_inv in H as (? & H1 & H). apply reject_if_ret_any in H1.
  apply bool_decide_eq_false in H1. destruct (decide (x = shard)) as [-> |]; [|done]. case_bool_decide; cbn in H; [done|]. injection H as <-.
  split; [by apply map_find_elem|done].
Qed.

Lemma shard_tensors_ret shard path l : forall t t', res_foldl (shard_tensor m shard path) t l = Ret t' ->
  t' = t ++ (tensor_of <$> l) /\ Forall (fun e => (ent_name e, shard) ∈ m) l /\ (NoDup t.*1 -> NoDup t'.*1).
Proof using.
  induction l as [|e l IH]; intros t t' H; cbn in H; [injection H as <-; by rewrite app_nil_r|].
  apply res_bind_ret_inv in H as (t1 & H1 & H). apply shard_tensor_ret in H1 as (Hm & Hn & ->). apply IH in H as (-> & HF & HN).
  split; [by rewrite <- app_assoc|]. split; [by constructor|]. intros Ht. apply HN. rewrite fmap_app. apply NoDup_app. split; [done|].
  split; [|apply NoDup_singleton]. intros x Hx Hy. apply list_elem_of_singleton in Hy. cbn in Hy. by subst.
Qed.

Lemma load_shard_ret t shard t' : load_shard fs sort dir cdir m t shard = Ret t' ->
  shard_contained shard /\ exists f, OpenFile fs sort (path_join dir shard) = Ret f /\ t' = t ++ (tensor_of <$> file_entries f) /\
    Forall (fun e => (ent_name e, shard) ∈ m) (file_entries f) /\ (NoDup t.*1 -> NoDup t'.*1).
Proof using.
  unfold load_shard, EnsureShardFileExists, ValidateShardPathIsContained. cbv zeta. intros H.
  apply res_bind_ret_inv in H as (? & H1 & H). apply res_bind_ret_inv in H as (? & H2 & H). apply res_bind_ret_inv in H as (f & H3 & H).
  apply res_bind_ret_inv in H1 as (? & _ & H1). apply require_ret in H1. apply res_bind_ret_inv in H2 as (? & Hs & H2). apply with_status_ret in H3.
  split; [|exists f; split; [done|by apply (shard_tensors_ret shard (path_join dir shard))]].
  split; [done|]. split; [by apply OpenFile_inv in H3 as [? _]|]. destruct (canonical fs (path_join dir shard)) as [p|]; [|done]. apply reject_if_ret_any in H2. bsplit.
  apply within_prefix in H2 as [rest ->]. by exists rest.
Qed.

Lemma load_shards_ret shards : forall t t', table_from_shards t -> res_foldl (load_shard fs sort dir cdir m) t shards = Ret t' ->
  table_from_shards t' /\ (forall x, x ∈ t -> x ∈ t') /\
  forall shard, shard ∈ shards -> shard_contained shard /\ exists f, OpenFile fs sort (path_join dir shard) = Ret f /\ forall e, e ∈ file_entries f -> tensor_of e ∈ t'.
Proof using.
  induction shards as [|shard shards IH]; intros t t' Ht H; cbn in H; [injection H as <-; split; [done|split; [done|]]; by intros ? ?%not_elem_of_nil|].
  apply res_bind_ret_inv in H as (t1 & H1 & H). apply load_shard_ret in H1 as (Hc & f & Hf & -> & HF & HN).
  assert (table_from_shards (t ++ (tensor_of <$> file_entries f))) as Ht1.
  { destruct Ht as [Ht1 Ht2]. split; [by apply HN|]. intros name v Hin. apply elem_of_app in Hin as [Hin|Hin]; [by apply Ht2|].
    apply list_elem_of_fmap in Hin as (e & He & Hin). exists shard, f, e. rewrite Forall_forall in HF. pose proof (HF e Hin) as Hm. injection He as -> ->. done. }
  destruct (IH _ _ Ht1 H) as (R1 & R2 & R3). split; [done|]. split; [intros x Hx; apply R2, elem_of_app; by left|].
  intros s [-> | Hs]%elem_of_cons; [|by apply R3]. split; [done|]. exists f. split; [done|]. intros e He. apply R2, elem_of_app. right. apply list_elem_of_fmap. by exists e.
Qed.
End Sharded.

Lemma index_nodup text i s : ParseIndex text = (Ret i, s) -> NoDup (weight_map i).*1 /\ Forall (fun e => ValidateShardFilename e.2 = Ret tt) (weight_map i).
Proof using.
  set (P := fun m : WeightMap => NoDup m.*1 /\ Forall (fun e => ValidateShardFilename e.2 = Ret tt) m).
  assert (forall s m s', ParseWeightMap s = (Ret m, s') -> P m) as HM.
  { intros s0 m s' H. unfold ParseWeightMap in H. apply exec_bind_inv in H as (u & s1 & _ & H). revert H. apply members_inv; [|split; constructor].
    intros st key t st' t' [H1 H2] H. unfold weight_map_entry in H. apply exec_bind_inv in H as (shard & t1 & _ & H). apply exec_bind_inv in H as ([] & t2 & Hv & H).
    apply lift_inv in Hv as [Hv _]. case_bool_decide as Hk; [done|]. injection H as <- _. split; [|by apply Forall_app_2; [|constructor]].
    rewrite fmap_app. apply NoDup_app. split; [done|]. split; [|apply NoDup_singleton]. intros x Hx Hy. apply list_elem_of_singleton in Hy. cbn in Hy. by subst. }
  unfold ParseIndex. intros H. apply exec_bind_inv in H as (? & s1 & _ & H). apply exec_bind_inv in H as (st & s2 & Hst & H).
  apply exec_bind_inv in H as (? & s3 & _ & H). apply exec_bind_inv in H as (fin & s4 & _ & H). destruct fin; [|done]. cbn [negb] in H.
  destruct (has_weight_map st); [|done]. cbn [negb] in H. case_bool_decide; [done|]. injection H as <- _. change (P (weight_map (result st))).
  revert Hst. apply (members_inv (fun st => P (weight_map (result st)))); [|split; constructor].
  intros y key t y' t' Hy H. unfold index_field in H. case_bool_decide.
  - destruct (has_weight_map y); [done|]. apply exec_bind_inv in H as (m & t1 & Hm & H). injection H as <- _. by eapply HM.
  - case_bool_decide; [|apply exec_bind_inv in H as (? & t1 & _ & H); by injection H as <- _].
    destruct (has_metadata y); [done|]. apply exec_bind_inv in H as (m & t1 & Hm & H). by injection H as <- _.
Qed.

Lemma LoadIndex_nodup path i : LoadIndex fs path = Ret i -> NoDup (weight_map i).*1.
Proof using.
  unfold LoadIndex. intros H. apply res_bind_ret_inv in H as (text & _ & H). apply with_status_ret in H. destruct (ParseIndex text) as [r s] eqn:E.
  cbn in H. subst r. by apply index_nodup in E as [? _].
Qed.

(** Names without repetition among names without repetition, as many of them: all of them. *)
Lemma all_names (a b : list string) : NoDup a -> (forall x, x ∈ a -> x ∈ b) -> length a = length b -> a ≡ₚ b.
Proof using. intros Ha Hs Hl. apply submseteq_length_Permutation; [by apply NoDup_submseteq|lia]. Qed.

(** What a sharded table holds. *)
Record sharded_table (d : HfDirectoryDescriptor) (i : HfSafetensorsIndex) (cdir : list string) (t : RawWeightTable) : Prop := {
  st_names : t.*1 ≡ₚ (weight_map i).*1;
  st_nodup : NoDup t.*1;
  st_from name v : (name, v) ∈ t -> from_shard (model_dir d) cdir (weight_map i) name v;
  st_all shard : shard ∈ (weight_map i).*2 -> shard_contained (model_dir d) cdir shard /\
    exists f, OpenFile fs sort (path_join (model_dir d) shard) = Ret f /\ forall e, e ∈ file_entries f -> tensor_of e ∈ t }.

Lemma LoadSharded_table d t : LoadShardedRawWeightTable fs sort visit d = Ret t ->
  exists i cdir, LoadIndex fs (safetensors_index_path d) = Ret i /\ canonical fs (model_dir d) = Some cdir /\ sharded_table d i cdir t.
Proof using ENV.
  unfold LoadShardedRawWeightTable. intros H. apply res_bind_ret_inv in H as (i & Hi & H). destruct (canonical fs (model_dir d)) as [cdir|] eqn:Ec; [|done].
  apply res_bind_ret_inv in H as (raw & Hraw & H). apply res_bind_ret_inv in H as (? & Hlen & H). injection H as <-. apply reject_if_ret_any in Hlen. bsplit.
  apply load_shards_ret in Hraw as ([HN HF] & _ & Hall); [|split; [constructor|by intros ? ? ?%not_elem_of_nil]].
  exists i, cdir. split; [done|]. split; [done|]. pose proof (env_visits _ raw) as Hv. pose proof (LoadIndex_nodup _ _ Hi) as HNi.
  assert (raw.*1 ≡ₚ (weight_map i).*1) as Hnames.
  { apply all_names; [done| |by rewrite !length_fmap]. intros y Hx. apply list_elem_of_fmap in Hx as ([n v] & -> & Hx). destruct (HF _ _ Hx) as (shard & f & e & Hm & _).
    apply list_elem_of_fmap. by exists (n, shard). }
  split.
  - by rewrite Hv.
  - by rewrite Hv.
  - intros name v Hin. apply HF. by rewrite <- Hv.
  - intros shard Hs. destruct (Hall shard) as (Hc & f & Hf & He).
    + unfold UniqueShardFilenames. rewrite merge_sort_Permutation. apply dedup_elem. right. by rewrite env_visits.
    + split; [done|]. exists f. split; [done|]. intros e Hin. rewrite Hv. by apply He.
Qed.

(** A sharded model loads exactly when its index and its shards agree, and then the
    table has the tensors the index lists, each once, with the view of the shard the index
    assigns it to; every shard is a regular file, not a link, whose real path lies in the
    real model directory, and every tensor a shard holds is in the table. *)
Theorem sharded_table_exact d t : LoadShardedRawWeightTable fs sort visit d = Ret t ->
  exists i cdir, LoadIndex fs (safetensors_index_path d) = Ret i /\ canonical fs (model_dir d) = Some cdir /\ sharded_table d i cdir t.
Proof using ENV. apply LoadSharded_table. Qed.

(** ** The loaded model *)

(** A file of the model directory: the single file, or one whose real path is below the
    real directory. *)
Definition model_file (dir path : string) : Prop :=
  symlink_status fs path <> LinkKnown true /\
  (path = path_join dir "model.safetensors" \/ exists cdir rest, canonical fs dir = Some cdir /\ canonical fs path = Some (cdir ++ rest)).

(** The tensor of a name in a file of the model directory. *)
Definition stored_in (dir path name : string) (w : RawWeightView) : Prop :=
  model_file dir path /\ exists f e, OpenFile fs sort path = Ret f /\ Find f name = Some e /\ ent_view e = w.

Lemma stored_sound dir path name w : stored_in dir path name w -> weight_repr w /\ rw_dtype w ∈ safetensors_dtypes /\
  exists base bytes, map_file fs path = Ret (base, bytes) /\ base + 8 <= rw_data w /\ rw_data w + rw_bytes w <= base + zlen bytes.
Proof using ENV.
  intros (_ & f & e & Hf & Hfind & <-). destruct (OpenFile_sound _ _ Hf) as (base & bytes & start & Hm & Hs & HS). apply (sf_find _ _ _ HS) in Hfind as [Hin _].
  split; [apply (sf_repr _ _ _ HS e Hin)|]. split; [destruct (sf_view _ _ _ HS e Hin) as (_ & _ & -> & _); by apply (sf_dtype _ _ _ HS)|]. exists base, bytes. split; [done|]. destruct (sf_inside _ _ _ HS e Hin). lia.
Qed.
(** Tensors of different names in one file do not overlap. *)
Lemma stored_apart dir path n1 n2 w1 w2 : stored_in dir path n1 w1 -> stored_in dir path n2 w2 -> n1 <> n2 ->
  rw_data w1 + rw_bytes w1 <= rw_data w2 \/ rw_data w2 + rw_bytes w2 <= rw_data w1.
Proof using ENV.
  intros (_ & f & e1 & Hf & H1 & <-) (_ & f' & e2 & Hf' & H2 & <-) Hne. rewrite Hf in Hf'. injection Hf' as <-.
  destruct (OpenFile_sound _ _ Hf) as (base & bytes & start & _ & _ & HS). apply (sf_find _ _ _ HS) in H1 as [I1 <-], H2 as [I2 <-].
  destruct (sf_apart _ _ _ HS e1 e2 I1 I2) as [-> | H]; [done|exact H].
Qed.

Lemma InspectDirectory_ret dir d : InspectDirectory fs dir = Ret d -> model_dir d = dir /\ layout d <> kUnknownLayout /\
  (layout d = kSingleSafetensors -> safetensors_path d = path_join dir "model.safetensors").
Proof using.
  unfold InspectDirectory. cbv zeta. intros H. do 7 (apply res_bind_ret_inv in H as (? & _ & H)). destruct (path_exists fs _) as [single|]; [|done].
  apply res_bind_ret_inv in H as (? & _ & H). destruct (path_exists fs _) as [index|]; [|done]. do 3 (apply res_bind_ret_inv in H as (? & _ & H)).
  destruct single; [by injection H as <-|]. destruct index; [by injection H as <-|done].
Qed.

(** Every tensor of a loaded table is stored in a file of the directory. *)
Lemma table_stored dir d t : InspectDirectory fs dir = Ret d -> LoadRawWeightTable fs sort visit d = Ret t ->
  forall name v, (name, v) ∈ t -> exists path, stored_in dir path name v.
Proof using ENV.
  intros Hd H name v Hin. apply InspectDirectory_ret in Hd as (Hdir & Hl & Hp). unfold LoadRawWeightTable in H. destruct (layout d); [done| |].
  - unfold LoadSingleFileRawWeightTable in H. apply res_bind_ret_inv in H as (f & Hf & H). injection H as <-. apply with_status_ret in Hf. rewrite Hp in Hf by done.
    destruct (OpenFile_sound _ _ Hf) as (base & bytes & start & _ & _ & HS). rewrite env_visits in Hin. rewrite emplace_all in Hin by (cbn; exact (sf_names _ _ _ HS)).
    cbn in Hin. apply list_elem_of_fmap in Hin as (e & [= -> ->] & He). exists (path_join dir "model.safetensors"). split; [split; [by apply OpenFile_inv in Hf as [? _]|by left]|].
    exists f, e. split; [done|]. split; [by apply (sf_find _ _ _ HS)|done].
  - apply LoadSharded_table in H as (i & cdir & _ & Hc & HS). destruct (st_from _ _ _ _ HS _ _ Hin) as (shard & f & e & _ & (_ & Hlink & rest & Hr) & Hf & He & [= <- <-]).
    rewrite Hdir in *. exists (path_join dir shard). split; [split; [done|right; by exists cdir, rest]|]. exists f, e. split; [done|]. split; [|done].
    destruct (OpenFile_sound _ _ Hf) as (base & bytes & start & _ & _ & HF). by apply (sf_find _ _ _ HF).
Qed.

Context (byte_at : Z -> Z) (posix_memalign : Z -> Z -> option Z).

(** The steps of a load that succeeds. *)
Lemma Load_steps dir device mi : Load fs sort visit byte_at posix_memalign dir device = Ret mi ->
  exists d t, InspectDirectory fs dir = Ret d /\ ParseConfig fs d = Ret (mi_config mi) /\ ValidateConfig (mi_config mi) default_validation = Ret tt /\
    LoadRawWeightTable fs sort visit d = Ret t /\ ValidateWeightSet (mi_config mi) t default_validation = Ret tt /\ ResolveWeights (mi_config mi) t = Ret (mi_weights mi) /\
    ValidateResolvedModel (mi_config mi) (mi_weights mi) default_validation = Ret tt /\
    PrepackAndStore byte_at posix_memalign (BuildRequests device (mi_weights mi)) = Ret (mi_sidecar mi).
Proof using.
  unfold Load. intros H. apply res_bind_ret_inv in H as (d & Hd & H). apply res_bind_ret_inv in H as (c & Hp & H). apply res_bind_ret_inv in H as ([] & Hc & H).
  apply res_bind_ret_inv in H as (t & Ht & H). apply res_bind_ret_inv in H as ([] & Hw & H). apply res_bind_ret_inv in H as (r & Hr & H).
  apply res_bind_ret_inv in H as ([] & Hm & H). apply res_bind_ret_inv in H as (side & Hs & H). injection H as <-. by exists d, t.
Qed.

(** Every weight of a loaded model. *)
Lemma loaded_weight dir device mi name w matrix : Load fs sort visit byte_at posix_memalign dir device = Ret mi -> (name, w, matrix) ∈ entries (mi_weights mi) ->
  weight_sound w /\ IsSupportedWeightDType (rw_dtype w) = true /\ exists path, stored_in dir path name w.
Proof using ENV.
  intros H Hin. apply Load_steps in H as (d & t & Hd & _ & _ & Ht & Hw & Hr & _). pose proof (table_stored _ _ _ Hd Ht) as Hst.
  assert (Forall (fun e => weight_repr e.2) t) as Hrepr.
  { apply Forall_forall. intros [n v] Hn. destruct (Hst _ _ Hn) as [path Hp]. by apply stored_sound in Hp as [? _]. }
  destruct (weight_set_resolves _ _ _ Hrepr Hw) as (r' & Hr' & HM). rewrite Hr in Hr'. injection Hr' as <-.
  destruct (sm_weights _ _ _ _ HM _ _ _ Hin) as (Hf & Hsound & Hs & _). split; [done|]. split; [done|]. apply table_find_elem in Hf. by apply Hst.
Qed.

(** C4: A model that loads is usable: its configuration is one the engine supports, its
    weights have the shapes of the configuration, and every weight has the bytes of its
    shape and type, all of them inside the mapping of a file of the model directory that is
    not a link; two weights of one file do not overlap; and the packed copies are those of
    the projections of the model. *)
Theorem Load_sound dir device mi : Load fs sort visit byte_at posix_memalign dir device = Ret mi ->
  config_ok (mi_config mi) default_validation /\ resolved_ok (mi_config mi) (mi_weights mi) default_validation /\
  PrepackAndStore byte_at posix_memalign (BuildRequests device (mi_weights mi)) = Ret (mi_sidecar mi) /\
  (forall name w matrix, (name, w, matrix) ∈ entries (mi_weights mi) -> weight_sound w /\
    exists path base bytes, stored_in dir path name w /\ map_file fs path = Ret (base, bytes) /\ base + 8 <= rw_data w /\ rw_data w + rw_bytes w <= base + zlen bytes) /\
  (forall path n1 n2 w1 w2, stored_in dir path n1 w1 -> stored_in dir path n2 w2 -> n1 <> n2 ->
    rw_data w1 + rw_bytes w1 <= rw_data w2 \/ rw_data w2 + rw_bytes w2 <= rw_data w1).
Proof using ENV.
  intros H. pose proof H as H'. apply Load_steps in H' as (d & t & _ & _ & Hc & _ & _ & _ & Hm & Hs).
  split; [by apply ValidateConfig_exact|]. split; [by apply ValidateResolvedModel_exact|]. split; [done|]. split; [|by intros; eapply stored_apart].
  intros name w matrix Hin. destruct (loaded_weight _ _ _ _ _ _ H Hin) as (Hsound & _ & path & Hp). split; [done|].
  destruct (stored_sound _ _ _ _ Hp) as (_ & _ & base & bytes & ?). by exists path, base, bytes.
Qed.
End Loading.

(** ** The texts are always read *)

Lemma safe_with_message {A} f (m : J A) : safe m -> safe (with_message f m).
Proof.
  intros H s. destruct (H s) as [H1 H2]. unfold safe_at, with_message. destruct (m s) as [[a|e|w] s']; cbn in *; [done|split; [done|by intros w]|by destruct (H2 w)].
Qed.
Lemma safe_parse_into {A} key (parse : J A) out : safe parse -> safe (parse_into key parse out).
Proof. intros H. apply safe_bind; [by apply safe_with_message|]. intros v. apply safe_ret. Qed.
Lemma safe_lift {A} (m : Res A) : no_panic m -> safe (lift m).
Proof. intros H s. by apply safe_at_lift. Qed.
#[local] Hint Resolve safe_ret safe_fail safe_whitespace safe_consume safe_literal safe_expect safe_string safe_int64 safe_uint64 safe_double safe_bool
  safe_string_array safe_skip_value safe_parse_into safe_members : core.

Lemma safe_at_end : safe AtEnd.
Proof. intros s. split; [done|by intros w]. Qed.
Lemma safe_peek : safe peek.
Proof. intros s. split; [done|by intros w]. Qed.
#[local] Hint Resolve safe_at_end safe_peek : core.
Lemma safe_skipping {A} (a : A) : safe (_ ← SkipValue; mret a).
Proof. apply safe_bind; [apply safe_skip_value|done]. Qed.
#[local] Hint Resolve safe_skipping : core.

Lemma safe_rope_field r key : safe (rope_field r key).
Proof.
  unfold rope_field. case_bool_decide; [by apply safe_bind|]. destruct (_ || _); [by apply safe_bind|]. case_bool_decide; [by apply safe_bind|done].
Qed.
Lemma safe_rope : safe ParseRopeConfig.
Proof. apply safe_bind; [done|]. intros []; [done|]. apply safe_bind; [done|]. intros []; [|done]. apply safe_members, safe_rope_field. Qed.
#[local] Hint Resolve safe_rope : core.
Lemma safe_field c key : safe (ParseField c key).
Proof. unfold ParseField. cbv zeta. repeat match goal with |- safe (if ?b then _ else _) => destruct b; [by auto|] end. done. Qed.

(** The integers of a configuration fit their type and its floating values are finite. *)
Record config_fits (c : HfModelConfig) : Prop := {
  cf_hidden : in_i 64 (hidden_size c); cf_intermediate : in_i 64 (intermediate_size c); cf_layers : in_i 64 (num_hidden_layers c);
  cf_heads : in_i 64 (cfg_attention_heads c); cf_kv : in_i 64 (cfg_key_value_heads c); cf_vocab : in_i 64 (vocab_size c);
  cf_positions : in_i 64 (cfg_max_position_embeddings c); cf_head_dim : in_i 64 (cfg_head_dim c);
  cf_eps : in_u 64 (rms_norm_eps c) /\ f64_isfinite (rms_norm_eps c) = true;
  cf_theta : in_u 64 (hf_theta (rope c)) /\ f64_isfinite (hf_theta (rope c)) = true;
  cf_factor f : hf_scaling_factor (rope c) = Some f -> in_u 64 f /\ f64_isfinite f = true }.

Lemma parse_into_inv {A} key (parse : J A) out s c s' : parse_into key parse out s = (Ret c, s') -> exists v t, parse s = (Ret v, t) /\ c = out v.
Proof.
  unfold parse_into. intros H. apply exec_bind_inv in H as (v & t & Hv & H). injection H as <- _. unfold with_message in Hv.
  destruct (parse s) as [[a|e|w] t']; [|done..]. injection Hv as -> ->. by exists v, t.
Qed.

(** The floating values of a RoPE object are finite. *)
Definition rope_fits (r : ParsedRopeConfig) : Prop :=
  (forall f, pr_factor r = Some f -> in_u 64 f /\ f64_isfinite f = true) /\ (forall t, pr_theta r = Some t -> in_u 64 t /\ f64_isfinite t = true).
Lemma parsed_rope s r s' : ParseRopeConfig s = (Ret r, s') -> rope_fits r.
Proof.
  unfold ParseRopeConfig. intros H. apply exec_bind_inv in H as (null & s1 & _ & H). destruct null; [by injection H as <- _|].
  apply exec_bind_inv in H as (opened & s2 & _ & H). destruct opened; [|done]. revert H. apply members_inv; [|done].
  intros st key t st' t' [H1 H2] H. unfold rope_field in H. case_bool_decide; [|destruct (_ || _); [|case_bool_decide]];
    apply exec_bind_inv in H as (v & t1 & Hv & H); injection H as <- _; try apply parsed_double in Hv; split; cbn; try done; by intros ? [= <-].
Qed.

Lemma field_fits c key s c' s' : config_fits c -> ParseField c key s = (Ret c', s') -> config_fits c'.
Proof.
  intros C H. unfold ParseField in H. cbv zeta in H. pose proof (cf_theta c C) as Ht. pose proof (cf_factor c C) as Hf.
  repeat (match type of H with (if ?b then _ else _) _ = _ => destruct b end;
    [apply parse_into_inv in H as (v & t & Hv & ->); first [apply parsed_int64 in Hv | apply parsed_double in Hv | apply parsed_rope in Hv as [R1 R2] | idtac];
     destruct C; split; cbn; try done|]).
  - destruct (pr_theta v) as [x|]; [by apply R2|done].
  - apply exec_bind_inv in H as (? & t & _ & H). injection H as <- _. done.
Qed.

Lemma default_fits : config_fits default_config.
Proof.
  split; try (unfold in_i; cbn -[Z.pow]; lia).
  - split; [unfold in_u; cbn -[Z.pow]; lia|vm_compute; reflexivity].
  - split; [unfold in_u; cbn -[Z.pow]; lia|vm_compute; reflexivity].
  - intros f Hf. discriminate Hf.
Qed.

(** The members of a configuration text, and the integer the last member with a key gives. *)
Definition config_fields (text : string) : list (string * string) :=
  match ((opened ← TryConsume "{"%char; members "after HF config key" "between HF config fields" (logged ParseField) (default_config, [])) : J _) text with
  | (Ret x, _) => x.2
  | _ => []
  end.
Definition given (key : string) (fields : list (string * string)) : option Z :=
  foldl (fun acc f => if String.eqb f.1 key then match (ParseInt64 f.2).1 with Ret v => Some v | _ => acc end else acc) None fields.

(** The two numbers of heads are those of the text. *)
Definition heads_given (x : HfModelConfig * list (string * string)) : Prop :=
  cfg_attention_heads x.1 = default 0 (given "num_attention_heads" x.2) /\ cfg_key_value_heads x.1 = default 0 (given "num_key_value_heads" x.2).

Lemma given_snoc key l k t : given key (l ++ [(k, t)]) =
  if String.eqb k key then match (ParseInt64 t).1 with Ret v => Some v | _ => given key l end else given key l.
Proof. unfold given. by rewrite foldl_app. Qed.

Lemma field_heads x key s y s' : heads_given x -> logged ParseField x key s = (Ret y, s') -> heads_given y.
Proof.
  intros [H1 H2] H. apply logged_inv in H as [H El]. unfold heads_given. rewrite El, !given_snoc. unfold ParseField in H. cbv zeta in H.
  repeat (match type of H with (if ?b then _ else _) _ = _ => let E := fresh "E" in destruct b eqn:E;
    [apply parse_into_inv in H as (v & t & Hv & ->);
     first [apply String.eqb_eq in E as -> | apply orb_true_iff in E as [E | E]; apply String.eqb_eq in E as ->];
     cbn [String.eqb Ascii.eqb Bool.eqb]; rewrite ?Hv; done|] end).
  repeat match goal with E : String.eqb key _ = false |- _ => rewrite ?E; clear E end. apply exec_bind_inv in H as (? & t & _ & H). by injection H as <- _.
Qed.

Lemma parsed_config text c s : ParseConfigJson text = (Ret c, s) -> config_fits c /\
  let fields := config_fields text in
  let heads := default 0 (given "num_attention_heads" fields) in
  let kv_heads := default 0 (given "num_key_value_heads" fields) in
  cfg_attention_heads c = heads /\ cfg_key_value_heads c = if 0 <? kv_heads then kv_heads else heads.
Proof.
  intros E. unfold ParseConfigJson in E. apply exec_bind_inv in E as (opened & s1 & Ho & E). destruct opened; [|done]. apply exec_bind_inv in E as (c0 & s2 & Hc & E).
  apply exec_bind_inv in E as (u & s3 & _ & E). apply exec_bind_inv in E as (fin & s4 & _ & E). destruct fin; [|done]. injection E as <- _.
  assert (config_fits c0) as Hr.
  { revert Hc. apply members_inv; [exact field_fits|exact default_fits]. }
  assert (heads_given (c0, config_fields text)) as [Hh Hk].
  { destruct (members_logged _ _ _ _ [] _ _ _ Hc) as [log Hl]. unfold config_fields. rewrite (exec_bind_ret _ _ _ _ _ Ho), Hl.
    revert Hl. apply members_inv; [exact field_heads|done]. }
  cbn [fst snd] in Hh, Hk. cbv zeta. rewrite <- Hh, <- Hk. unfold ApplyDefaults.
  destruct (Z.leb_spec (cfg_key_value_heads c0) 0) as [H0|H0]; [rewrite (proj2 (Z.ltb_ge _ _) H0)|rewrite (proj2 (Z.ltb_lt _ _) H0)]; (split; [|done]); [destruct Hr; by split|done].
Qed.

Lemma safe_config : safe ParseConfigJson.
Proof.
  apply safe_bind; [done|]. intros []; [|done]. apply safe_bind; [apply safe_members, safe_field|]. intros c. apply safe_bind; [done|]. intros _. apply safe_bind; [done|].
  intros []; done.
Qed.

(** C27: Reading [config.json] ends for every text, with a configuration or with an error: no
    read passes the end of the text and the bound on the loops is never reached. All
    integers of a configuration fit their type and all floating values are finite. The
    numbers of heads are those of the text: the number of attention heads is the integer of
    the last member named [num_attention_heads] (0 if there is none), and the number of
    key-value heads is the integer of the last member named [num_key_value_heads] if that
    is positive, and otherwise (missing, zero or negative) the number of attention heads. *)
Theorem ParseConfigJson_total text : match (ParseConfigJson text).1 with
  | Ret c => config_fits c /\
      let fields := config_fields text in
      let heads := default 0 (given "num_attention_heads" fields) in
      let kv_heads := default 0 (given "num_key_value_heads" fields) in
      cfg_attention_heads c = heads /\ cfg_key_value_heads c = if 0 <? kv_heads then kv_heads else heads
  | Fail _ => True
  | Panic _ => False
  end.
Proof.
  destruct (safe_config text) as [_ HP]. destruct (ParseConfigJson text) as [[c|e|w] s] eqn:E; cbn in *; [by eapply parsed_config|done|by destruct (HP w)].
Qed.

Lemma safe_weight_map_entry m name : safe (weight_map_entry m name).
Proof.
  apply safe_bind; [done|]. intros shard. apply safe_bind; [|intros _; by case_bool_decide]. apply safe_lift. unfold ValidateShardFilename.
  do 3 (apply no_panic_bind; [apply no_panic_reject|]; intros ? _). apply no_panic_reject.
Qed.
Lemma safe_metadata_field t key : safe (metadata_field t key).
Proof.
  unfold metadata_field. case_bool_decide; [|done]. case_bool_decide; [done|]. apply safe_bind; [|done]. apply safe_bind; [done|]. intros _. apply safe_bind; [done|].
  intros cur. case_bool_decide; [|done]. apply safe_bind; [done|]. intros v. by destruct (from_chars_u64 v).
Qed.
Lemma safe_index_field st key : safe (index_field st key).
Proof.
  unfold index_field. case_bool_decide; [|case_bool_decide; [|done]].
  - destruct (has_weight_map st); [done|]. apply safe_bind; [|done]. apply safe_bind; [done|]. intros _. apply safe_members, safe_weight_map_entry.
  - destruct (has_metadata st); [done|]. apply safe_bind; [|done]. apply safe_bind; [done|]. intros _. apply safe_members, safe_metadata_field.
Qed.
(** The index is always read too. *)
Lemma safe_index : safe ParseIndex.
Proof.
  apply safe_bind; [done|]. intros _. apply safe_bind; [apply safe_members, safe_index_field|]. intros st. do 2 (apply safe_bind; [done|]; intros ?).
  destruct (negb _); [done|]. destruct (negb _); [done|]. by case_bool_decide.
Qed.

(** ** A model directory *)

Module TinyDirectory.
Import SmallFile.

Definition field (name value : string) : string := quoted name +:+ ": " +:+ value.
Definition config_json : string :=
  "{ " +:+ String.concat ", " [field "model_type" (quoted "llama"); field "architectures" ("[" +:+ quoted "LlamaForCausalLM" +:+ "]");
    field "hidden_size" "4"; field "intermediate_size" "8"; field "num_hidden_layers" "1"; field "num_attention_heads" "2";
    field "num_key_value_heads" "1"; field "vocab_size" "16"; field "max_position_embeddings" "64"; field "rms_norm_eps" "1e-05";
    field "hidden_act" (quoted "silu"); field "tie_word_embeddings" "false"; field "bos_token_id" "[1, {}, null]";
    field "rope_scaling" "null"; field "rope_theta" "10000.0"; field "torch_dtype" (quoted "float32")] +:+ " }".

(** The tensors of a file one after the other, with their header. *)
Fixpoint header_entries (offset : Z) (l : list (string * list Z)) : list string :=
  match l with
  | [] => []
  | (name, shape) :: l' =>
      let next := offset + 4 * product shape in
      entry name "F32" (String.concat "," (pretty <$> shape)) (pretty offset +:+ "," +:+ pretty next) :: header_entries next l'
  end.
Definition tensor_file (l : list (string * list Z)) : list Z :=
  file ("{" +:+ String.concat "," (header_entries 0 l) +:+ "}") (Z.to_nat (foldr (fun e n => 4 * product e.2 + n) 0 l)).

Definition embeddings : list (string * list Z) := [("lm_head.weight", [16; 4]); ("model.norm.weight", [4]); ("model.embed_tokens.weight", [16; 4])].
Definition decoder : list (string * list Z) := (fun e => (e.1, rw_shape e.2)) <$> TinyLlama.layer.
Definition whole_model : list Z := tensor_file (embeddings ++ decoder).
Definition shard_a : list Z := tensor_file embeddings.
Definition shard_b : list Z := tensor_file decoder.
Definition index_json : string :=
  "{" +:+ field "metadata" ("{" +:+ field "total_size" "1120" +:+ "}") +:+ ", " +:+
  field "weight_map" ("{" +:+ String.concat ", " (((fun e => field e.1 (quoted "b.safetensors")) <$> decoder) ++ ((fun e => field e.1 (quoted "a.safetensors")) <$> embeddings)) +:+ "}") +:+ "}".

(** A file system with one directory and these files in it. *)
Definition disk (texts : list (string * string)) (maps : list (string * (Z * list Z))) : FileSystem :=
  let known p := bool_decide (p ∈ texts.*1 ++ maps.*1) in
  mkFileSystem (fun p => if known p then LinkKnown false else LinkError true) (fun p => Some (known p || String.eqb p "/m")) (fun p => Some (String.eqb p "/m"))
    (fun p => Some (known p)) (fun p => Some ("/" :: components p))
    (fun p => match map_find texts p with Some t => StreamText t | None => CannotOpen end)
    (fun p => match map_find maps p with Some m => Ret m | None => Fail (Internal "open") end).
Definition single : FileSystem := disk [("/m/config.json", config_json)] [("/m/model.safetensors", (65536, whole_model))].
Definition sharded : FileSystem :=
  disk [("/m/config.json", config_json); ("/m/model.safetensors.index.json", index_json)] [("/m/a.safetensors", (65536, shard_a)); ("/m/b.safetensors", (131072, shard_b))].
Definition visit (A : Type) (l : list (string * A)) : list (string * A) := reverse l.
Definition memory (a : Z) : Z := a mod 256.
Definition heap (n a : Z) : option Z := Some 4096.
Definition load (fs : FileSystem) : Res ModelInstance := Load fs stable visit memory heap "/m" DeviceType.kCPU.

Lemma disk_environment texts maps : Forall (fun e => 0 < e.2.1 /\ zlen e.2.2 < 2 ^ 64) maps -> LoadEnvironment (disk texts maps) stable visit.
Proof.
  intros H. split; [exact stable_sorts|intros A l; apply reverse_Permutation|]. intros path base bytes Hm. cbn in Hm. destruct (map_find maps path) as [x|] eqn:E; [|done].
  injection Hm as ->. apply map_find_elem in E. rewrite Forall_forall in H. exact (H _ E).
Qed.
Definition small (e : string * (Z * list Z)) : bool := (0 <? e.2.1) && (zlen e.2.2 <? 2 ^ 64).
Lemma small_maps maps : forallb small maps = true -> Forall (fun e => 0 < e.2.1 /\ zlen e.2.2 < 2 ^ 64) maps.
Proof. intros H. apply Forall_forall. intros e He. rewrite forallb_forall in H. specialize (H e (proj1 (list_elem_of_In _ _) He)). unfold small in H. bsplit. done. Qed.
Lemma single_environment : LoadEnvironment single stable visit.
Proof. apply disk_environment, small_maps. vm_compute. reflexivity. Qed.
Lemma sharded_environment : LoadEnvironment sharded stable visit.
Proof. apply disk_environment, small_maps. vm_compute. reflexivity. Qed.

(** Both layouts load, with the configuration of the text and one layer. *)
Example loads : (fun r => match r with Ret m => Some (hidden_size (mi_config m), zlen (layers (mi_weights m)), zlen (mi_sidecar m)) | _ => None end) <$> [load single; load sharded]
  = [Some (4, 1, 1); Some (4, 1, 1)].
Proof. vm_compute. reflexivity. Qed.

(** A negative number of key-value heads is replaced like a missing one, so the check that
    it is positive never sees it. *)
Example negative_kv_heads_replaced : (fun c => cfg_key_value_heads c) <$> (match (ParseConfigJson ("{" +:+ field "num_key_value_heads" "-3" +:+ "," +:+ field "num_attention_heads" "2" +:+ "}")).1 with Ret c => Some c | _ => None end) = Some 2.
Proof. vm_compute. reflexivity. Qed.
(** The scaling of one field is dropped by a later null field. *)
Example later_null_drops_scaling : (fun c => HasRopeScaling (rope c)) <$> (match (ParseConfigJson
    ("{" +:+ field "rope_scaling" ("{" +:+ field "type" (quoted "linear") +:+ "," +:+ field "factor" "8.0" +:+ "}") +:+ "," +:+ field "rope_parameters" "null" +:+ "}")).1 with Ret c => Some c | _ => None end) = Some false.
Proof. vm_compute. reflexivity. Qed.
(** Shards cannot be named outside the directory. *)
Example shards_stay_inside : ValidateShardFilename <$> ["a.safetensors"; "x/y"; "../a"; "x/../a"; "/etc/a"; "file://a"; ""] =
  [Ret tt; Ret tt; Fail (bad "Safetensors index shard filename must not contain '..'"); Fail (bad "Safetensors index shard filename must not contain '..'");
   Fail (bad "Safetensors index shard filename must be relative"); Fail (bad "Safetensors index shard filename must not contain URI schemes");
   Fail (bad "Safetensors index shard filename must not be empty")].
Proof. vm_compute. reflexivity. Qed.
End TinyDirectory.

Lemma Load_sound_witness : exists mi, Load TinyDirectory.sharded SmallFile.stable TinyDirectory.visit TinyDirectory.memory TinyDirectory.heap "/m" DeviceType.kCPU = Ret mi /\
  zlen (layers (mi_weights mi)) = 1 /\ config_ok (mi_config mi) default_validation.
Proof.
  assert (match Load TinyDirectory.sharded SmallFile.stable TinyDirectory.visit TinyDirectory.memory TinyDirectory.heap "/m" DeviceType.kCPU with
    | Ret m => num_hidden_layers (mi_config m) | _ => 0 end = 1) as HL by (vm_compute; reflexivity).
  destruct (Load TinyDirectory.sharded SmallFile.stable TinyDirectory.visit TinyDirectory.memory TinyDirectory.heap "/m" DeviceType.kCPU) as [mi| |] eqn:E; [|discriminate HL..].
  destruct (@Load_sound TinyDirectory.sharded SmallFile.stable TinyDirectory.visit TinyDirectory.sharded_environment _ _ _ _ mi E) as (H1 & H2 & _).
  exists mi. split; [reflexivity|]. split; [|exact H1]. rewrite (ro_layers _ _ _ H2). exact HL.
Defined.

Lemma sharded_table_exact_witness : exists t, LoadRawWeightTable TinyDirectory.sharded SmallFile.stable TinyDirectory.visit
    (mkDescriptor kShardedSafetensors "/m" "/m/config.json" "" "/m/model.safetensors.index.json") = Ret t /\ NoDup t.*1 /\ zlen t = 12.
Proof.
  set (d := mkDescriptor kShardedSafetensors "/m" "/m/config.json" "" "/m/model.safetensors.index.json").
  destruct (LoadShardedRawWeightTable TinyDirectory.sharded SmallFile.stable TinyDirectory.visit d) as [t| |] eqn:E; [|exfalso; revert E; vm_compute; discriminate..].
  destruct (@sharded_table_exact TinyDirectory.sharded SmallFile.stable TinyDirectory.visit TinyDirectory.sharded_environment d t E) as (i & cdir & _ & _ & HS).
  exists t. split; [exact E|]. split; [exact (st_nodup _ _ _ _ _ _ HS)|].
  assert ((fun r => match r with Ret t => zlen t | _ => 0 end) (LoadShardedRawWeightTable TinyDirectory.sharded SmallFile.stable TinyDirectory.visit d) = 12) as HL by (vm_compute; reflexivity).
  rewrite E in HL. exact HL.
Defined.
