(* ===== verification/ModelPipeline.v ===== *)
(** * ModelPipeline: from a model directory to a model graph

    The loader ([src/model/model_loader.cpp], file [HfDirectory]) and the graph builder
    ([src/model/model_graph_builder.cpp], file [LlamaGraph]) put together: what the loader
    guarantees of a model is what the builder asks for, up to a few conditions the loader
    does not check. *)
From S2P Require Import Prelude ShapeSymbol ShapeConstraint DataTypes OperatorSchema Graph Topology GraphInvariant FloatFormat KernelRegistry Tensor Prepack HfModel LlamaGraph HfJson Safetensors HfDirectory.

(** The supported types a safetensors file can name are the dense ones. *)
Lemma supported_dense d : d ∈ safetensors_dtypes -> IsSupportedWeightDType d = true -> d ∈ dense_dtypes.
Proof.
  intros Hd Hs. assert (forallb (fun d => negb (IsSupportedWeightDType d) || bool_decide (d ∈ dense_dtypes)) safetensors_dtypes = true) as HF by (vm_compute; reflexivity).
  rewrite forallb_forall in HF. specialize (HF d (proj1 (list_elem_of_In _ _) Hd)). cbn beta in HF. rewrite Hs in HF. by apply bool_decide_eq_true in HF.
Qed.

(** A configuration accepted without RoPE scaling is accepted with scaling allowed. *)
Lemma config_ok_scaling c : config_ok c default_validation ->
  config_ok c (mkValidation false true true false false false false true) /\ hf_scaling_type (rope c) = hfNone /\ hf_scaling_factor (rope c) = None.
Proof.
  intros C. pose proof (co_rope _ _ C) as Hr. unfold check_rope_scaling in Hr. cbn [allow_rope_scaling default_validation negb andb] in Hr.
  destruct (HasRopeScaling (rope c)) eqn:E; [done|].
  assert (hf_scaling_type (rope c) = hfNone /\ hf_scaling_factor (rope c) = None) as HN.
  { unfold HasRopeScaling in E. apply orb_false_iff in E as [E1 E2]. apply bool_decide_eq_false in E1, E2. split; [|by apply eq_None_not_Some].
    by destruct (decide (hf_scaling_type (rope c) = hfNone)). }
  split; [|done]. destruct C. split; try done. unfold check_rope_scaling. by rewrite E.
Qed.

Section Pipeline.
Context (fs : FileSystem) (sort : list HfSafetensorsEntry -> list HfSafetensorsEntry) (visit : forall A, list (string * A) -> list (string * A)).
Context `{ENV : !LoadEnvironment fs sort visit} (byte_at : Z -> Z) (posix_memalign : Z -> Z -> option Z).

(** What the builder asks of a model beyond what loading it guarantees. *)
Record graph_ready (c : HfModelConfig) (w : ResolvedModelWeights) : Prop := {
  gr_even : (2 | model_head_dim c);
  gr_eps : f32_isfinite (f32_of_f64 (rms_norm_eps c)) = true /\ f32_le_zero (f32_of_f64 (rms_norm_eps c)) = false;
  gr_act : act_dtype c ∈ residual_dtypes;
  gr_embed : rw_dtype (embed_tokens w) = act_dtype c;
  gr_size : 9 + 28 * num_hidden_layers c <= UINT32_MAX }.

Lemma loaded_fits dir device mi : Load fs sort visit byte_at posix_memalign dir device = Ret mi -> config_fits (mi_config mi).
Proof using.
  intros H. apply Load_steps in H as (d & t & _ & Hp & _). unfold ParseConfig in Hp. apply res_bind_ret_inv in Hp as (text & _ & Hp). apply with_status_ret in Hp.
  destruct (ParseConfigJson text) as [r s] eqn:E. cbn in Hp. subst r. by apply parsed_config in E as [? _].
Qed.

Lemma loaded_buildable dir device mi : Load fs sort visit byte_at posix_memalign dir device = Ret mi -> graph_ready (mi_config mi) (mi_weights mi) ->
  config_repr (mi_config mi) /\ ValidateInputs (mi_config mi) (mi_weights mi) = Ret tt /\ buildable (mi_config mi) (mi_weights mi).
Proof using ENV.
  intros H [G1 G2 G3 G4 G5]. pose proof (loaded_fits _ _ _ H) as F. pose proof H as HL. apply Load_steps in HL as (d & t & _ & _ & Hc & _ & _ & _ & Hm & _).
  apply ValidateConfig_exact in Hc. destruct (config_ok_scaling _ Hc) as (Hc' & Hs & Hf). split; [|split].
  - pose proof (cf_hidden _ F) as Hh. unfold in_i in Hh. split; [unfold INT64_MAX; lia|]. split; [apply (cf_theta _ F)|by rewrite Hf].
  - unfold ValidateInputs. rewrite (proj2 (ValidateConfig_exact _ _) Hc'). exact Hm.
  - split; [by left|apply (cf_theta _ F)|by rewrite Hf|done|done|done| |done].
    intros name v matrix Hin. destruct (loaded_weight _ _ _ _ _ _ _ _ _ _ _ H Hin) as (_ & Hsup & path & Hp). apply supported_dense; [|done].
    by apply (stored_sound fs sort visit) in Hp as (_ & Hd & _).
Qed.

(** C3: A directory that loads and whose model is graph ready (an even head width, an epsilon
    that is positive as a [float], activations of a type residual additions support and of
    the type of the embedding, few enough layers for the identifiers) gives a model graph:
    the builder accepts it, returns the Llama plan of the configuration over the loaded
    weights, and the graph validates. *)
Theorem loaded_model_builds dir device mi next : Load fs sort visit byte_at posix_memalign dir device = Ret mi ->
  graph_ready (mi_config mi) (mi_weights mi) -> INT64_MIN + 2 <= next <= -2 ->
  exists g order, BuildLlamaDense next (mi_config mi) (mi_weights mi) = (Ret g, next - 2) /\ ValidateAndTopologicalOrder g = Ret order /\
    llama_plan next (mi_config mi) (mi_weights mi) g.
Proof using ENV. intros H Hg Hn. destruct (loaded_buildable _ _ _ H Hg) as (H1 & H2 & H3). by apply llama_builds. Qed.
End Pipeline.

(** ** A directory that becomes a graph *)

Definition ready (c : HfModelConfig) (w : ResolvedModelWeights) : bool :=
  Z.even (model_head_dim c) && (f32_isfinite (f32_of_f64 (rms_norm_eps c)) && negb (f32_le_zero (f32_of_f64 (rms_norm_eps c)))) &&
  bool_decide (act_dtype c ∈ residual_dtypes) && bool_decide (rw_dtype (embed_tokens w) = act_dtype c) && (9 + 28 * num_hidden_layers c <=? UINT32_MAX).

Lemma ready_spec c w : ready c w = true -> graph_ready c w.
Proof.
  unfold ready. intros H. repeat (apply andb_true_iff in H as [H ?]). apply Z.even_spec in H as [k Hk].
  match goal with HB : _ && negb _ = true |- _ => apply andb_true_iff in HB as [? ?%negb_true_iff] end.
  split; [exists k; lia|done|by eapply bool_decide_eq_true|by eapply bool_decide_eq_true|lia].
Qed.

Lemma loaded_model_builds_witness : exists mi g,
  Load TinyDirectory.sharded SmallFile.stable TinyDirectory.visit TinyDirectory.memory TinyDirectory.heap "/m" DeviceType.kCPU = Ret mi /\
  (BuildLlamaDense next_symbol_init (mi_config mi) (mi_weights mi)).1 = Ret g /\ inputs_ g = [0; 1]%nat.
Proof.
  assert (match Load TinyDirectory.sharded SmallFile.stable TinyDirectory.visit TinyDirectory.memory TinyDirectory.heap "/m" DeviceType.kCPU with
    | Ret mi => ready (mi_config mi) (mi_weights mi) | _ => false end = true) as HL by (vm_compute; reflexivity).
  destruct (Load TinyDirectory.sharded SmallFile.stable TinyDirectory.visit TinyDirectory.memory TinyDirectory.heap "/m" DeviceType.kCPU) as [mi| |] eqn:E; [|discriminate HL..].
  destruct (@loaded_model_builds TinyDirectory.sharded SmallFile.stable TinyDirectory.visit TinyDirectory.sharded_environment _ _ _ _ mi next_symbol_init E
    (ready_spec _ _ HL)) as (g & order & H & _ & _ & _ & Hi & _); [vm_compute; split; congruence|].
  exists mi, g. split; [reflexivity|]. rewrite H. split; [reflexivity|exact Hi].
Defined.
