(* ===== verification/ConstEval.v ===== *)
(** * ConstEval: evaluating operators on constants

    [src/graph/optimization/const_eval_utils.cpp], [const_eval_internal.h] and the four
    evaluators [const_eval_add.cpp], [const_eval_mul.cpp], [const_eval_silu.cpp] and
    [const_eval_silu_mul.cpp]. A constant is a list of bytes, little endian; a view is the
    view of [Tensor] with the bytes it borrows. Element access outside the bytes is a
    panic. What C++ leaves to the implementation, the arithmetic of [float] and [double]
    and the exponential, is the class [FloatArith] over bit patterns. *)
From S2P Require Import Prelude OverflowCheck AmStringLayout ShapeSymbol ShapeConstraint Broadcast DataTypes OperatorSchema OperatorInference Graph RewriteSession GraphPasses FloatFormat ReducedFloat Tensor.

(** ** Shapes, sizes and costs *)

(* @src src/graph/optimization/const_eval_utils.cpp:14-29 ExtractStaticShape *)
Definition ExtractStaticShape (sp : TensorSpec) : Res (list Z) :=
  if negb (shape_IsStatic (shape sp)) then Fail (Unimplemented "requires static tensor shape")
  else match shape sp with
       | None => Fail (Unimplemented "requires ranked tensor shape")
       | Some dims => res_mapi (fun _ d => GetStaticValue d) 0 dims
       end.

(* @src src/graph/optimization/const_eval_utils.cpp:33-48 CountElements *)
Definition CountElements (shape : list Z) : Res Z :=
  res_foldl (fun numel dim =>
    _ ← reject_if (dim <? 0) (InvalidArgument "static tensor dimensions must be non-negative");
    let '(over, product) := CheckOverflowMul int64_ty numel dim in
    _ ← reject_if over (Overflow "tensor element count overflow");
    Ret product) 1 shape.

(* @src src/graph/optimization/const_eval_utils.cpp:52-66 CountBytes *)
Definition CountBytes (sp : TensorSpec) : Res Z :=
  shape ← ExtractStaticShape sp;
  numel ← CountElements shape;
  element_bytes ← DataType.nbytes (dtype sp);
  let '(over, total_bytes) := CheckOverflowMul uint64_ty (u64 numel) (u64 element_bytes) in
  _ ← reject_if over (Overflow "tensor byte size overflow");
  Ret total_bytes.

(** From the last axis outwards. *)
(* @src src/graph/optimization/const_eval_utils.cpp:71-86 MakeContiguousStrides *)
Fixpoint MakeContiguousStrides (shape : list Z) : Res (list Z) :=
  match shape with
  | [] => Ret []
  | _ :: rest =>
      strides ← MakeContiguousStrides rest;
      match rest, strides with
      | d :: _, s :: _ =>
          let '(over, product) := CheckOverflowMul int64_ty s d in
          _ ← reject_if over (Overflow "contiguous stride computation overflow");
          Ret (product :: strides)
      | _, _ => Ret [1]
      end
  end.

(* @src include/aethermind/graph/optimization/const_evaluator.h:40-46 FoldingCost *)
Record FoldingCost := mkCost { compute_ops : Z; output_bytes : Z }.

(* @src src/graph/optimization/const_eval_utils.cpp:90-108 EstimateCost *)
Definition EstimateCost (output_spec : TensorSpec) (traversal_numel ops_per_element : Z) : Res FoldingCost :=
  _ ← reject_if (traversal_numel <? 0) (InvalidArgument "constant folding cost requires a non-negative traversal element count");
  nbytes ← CountBytes output_spec;
  let '(over, ops) := CheckOverflowMul uint64_ty (u64 traversal_numel) ops_per_element in
  _ ← reject_if over (Overflow "constant folding compute op count overflow");
  Ret (mkCost ops nbytes).

(* @src src/graph/optimization/const_eval_utils.cpp:110-119 CheckFoldingBudget *)
Definition CheckFoldingBudget (cost : FoldingCost) (policy : ConstEvalPolicy) : Res unit :=
  _ ← reject_if (max_output_bytes policy <? output_bytes cost) (Unimplemented "constant folding output byte budget exceeded");
  reject_if (max_compute_ops policy <? compute_ops cost) (Unimplemented "constant folding compute budget exceeded").

(** ** Elements *)

(** The C++ types the kernels are instantiated with. *)
Inductive ScalarType := sFloat | sDouble | sBFloat16 | sHalf | sInt32 | sInt64 | sE4M3FN | sE5M2.
#[global] Instance ScalarType_eq_dec : EqDecision ScalarType.
Proof. solve_decision. Defined.

Definition scalar_size (t : ScalarType) : nat :=
  match t with sFloat | sInt32 => 4 | sDouble | sInt64 => 8 | sBFloat16 | sHalf => 2 | sE4M3FN | sE5M2 => 1 end.
(** [DataType::Make<T>()]. *)
Definition scalar_dtype (t : ScalarType) : DataType.t :=
  match t with
  | sFloat => DataType.Float32 | sDouble => DataType.Double | sBFloat16 => DataType.BFloat 16 | sHalf => DataType.Float 16
  | sInt32 => DataType.Int 32 | sInt64 => DataType.Int 64 | sE4M3FN => DataType.Float8E4M3FN | sE5M2 => DataType.Float8E5M2
  end.

(** [data[i]] and [data[i] = x] for elements of [n] bytes. *)
Definition load (n : nat) (bytes : list Z) (i : Z) : Res Z :=
  if (0 <=? i) && ((i + 1) * Z.of_nat n <=? zlen bytes) then Ret (le_val 256 (take n (drop (Z.to_nat i * n) bytes)))
  else Panic "element outside the constant".
Definition store (n : nat) (bytes : list Z) (i x : Z) : Res (list Z) :=
  if (0 <=? i) && ((i + 1) * Z.of_nat n <=? zlen bytes)
  then Ret (take (Z.to_nat i * n) bytes ++ le_units n 256 x ++ drop ((Z.to_nat i + 1) * n) bytes)
  else Panic "element outside the buffer".

(** The floating-point operations of the implementation, on bit patterns. *)
Class FloatArith := {
  f32_add : Z -> Z -> Z; f32_mul : Z -> Z -> Z; f32_div : Z -> Z -> Z; f32_exp : Z -> Z;
  f64_add : Z -> Z -> Z; f64_mul : Z -> Z -> Z }.

Definition f32_one : Z := 0x3F800000.
Definition f32_neg (x : Z) : Z := Z.lxor x 0x80000000.
(** [x >= 0.0F]: false for every NaN, true for both zeros. *)
Definition f32_ge_zero (x : Z) : bool :=
  match decode binary32 x with Finite neg m _ => negb neg || (m =? 0) | Infinite neg => negb neg | NaN _ => false end.

(** Conversions between an element and [float]. *)
Definition to_float (t : ScalarType) (x : Z) : Z :=
  match t with
  | sBFloat16 => bf16_to_fp32_value x | sHalf => fp16_to_fp32_bits x | sE4M3FN => fp8e4m3fn_to_fp32_bits x | sE5M2 => fp8e5m2_to_fp32_bits x
  | _ => x
  end.
Definition of_float (t : ScalarType) (x : Z) : Z :=
  match t with
  | sBFloat16 => bf16_from_fp32_value x | sHalf => fp16_from_fp32_value x | sE4M3FN => fp8e4m3fn_from_fp32_value x | sE5M2 => fp8e5m2_from_fp32_value x
  | _ => x
  end.

(** A result as a bit pattern of the element type. *)
Definition pattern (t : ScalarType) (x : Z) : Z := x mod 256 ^ Z.of_nat (scalar_size t).

(** A checked operation on two's complement patterns of [w] bits. *)
Definition checked_int (w : Z) (check : IntTy -> Z -> Z -> bool * Z) (what : string) (a b : Z) : Res Z :=
  let '(over, r) := check (mkIntTy true w) (wrap_signed w a) (wrap_signed w b) in
  _ ← reject_if over (Overflow what); Ret r.

Section Scalars.
Context {FA : FloatArith}.

(** [T operator+(T, T)] of the floating types: the reduced ones compute in [float]. *)
(* @src src/dtypes/bfloat16.cpp:48-50 operator+(BFloat16, BFloat16) *)
Definition add_float (t : ScalarType) (a b : Z) : Z :=
  match t with sDouble => f64_add a b | _ => of_float t (f32_add (to_float t a) (to_float t b)) end.
(* @src src/dtypes/bfloat16.cpp:56-58 operator*(BFloat16, BFloat16) *)
Definition mul_float (t : ScalarType) (a b : Z) : Z :=
  match t with sDouble => f64_mul a b | _ => of_float t (f32_mul (to_float t a) (to_float t b)) end.

(* @src src/graph/optimization/const_eval_add.cpp:15-32 AddScalar, AddScalarOp *)
Definition AddScalar (t : ScalarType) (lhs rhs : Z) : Res Z :=
  r ← match t with
      | sInt32 => checked_int 32 CheckOverflowAdd "Add constant evaluator integer overflow" lhs rhs
      | sInt64 => checked_int 64 CheckOverflowAdd "Add constant evaluator integer overflow" lhs rhs
      | _ => Ret (add_float t lhs rhs)
      end;
  Ret (pattern t r).
(* @src src/graph/optimization/const_eval_mul.cpp:11-28 MultiplyScalar, MulScalarOp *)
Definition MultiplyScalar (t : ScalarType) (lhs rhs : Z) : Res Z :=
  r ← match t with
      | sInt32 => checked_int 32 CheckOverflowMul "Mul constant evaluator integer overflow" lhs rhs
      | sInt64 => checked_int 64 CheckOverflowMul "Mul constant evaluator integer overflow" lhs rhs
      | _ => Ret (mul_float t lhs rhs)
      end;
  Ret (pattern t r).

(** The SiLU of a [float], with the formula of its sign. *)
(* @src src/graph/optimization/const_eval_silu.cpp:20-26 SiluScalarOp (formula) *)
Definition silu_f32 (x : Z) : Z :=
  if f32_ge_zero x then f32_div x (f32_add f32_one (f32_exp (f32_neg x)))
  else let exp_x := f32_exp x in f32_div (f32_mul x exp_x) (f32_add f32_one exp_x).
(* @src src/graph/optimization/const_eval_silu.cpp:16-30 SiluScalarOp *)
Definition SiluScalar (t : ScalarType) (input : Z) : Res Z := Ret (pattern t (of_float t (silu_f32 (to_float t input)))).
(* @src src/graph/optimization/const_eval_silu_mul.cpp:18-33 SiluMulScalarOp *)
Definition SiluMulScalar (t : ScalarType) (gate up : Z) : Res Z :=
  Ret (pattern t (of_float t (f32_mul (silu_f32 (to_float t gate)) (to_float t up)))).
End Scalars.

(** ** Kernels *)

(** A view with the bytes it borrows. *)
Record ConstView := mkConstView { cv_view : TensorView; cv_bytes : list Z }.
Definition cv_shape (v : ConstView) : list Z := v_shape (cv_view v).
Definition cv_strides (v : ConstView) : list Z := v_strides (cv_view v).
Definition cv_dtype (v : ConstView) : DataType.t := v_dtype (cv_view v).

(** [for (i = 0; i < numel; ++i) out[i] = element(i)], stopping at the first error. *)
Fixpoint fill (n : nat) (k : Z) (element : Z -> Res Z) (size : nat) (out : list Z) : Res (list Z) :=
  match n with
  | O => Ret out
  | S n' => x ← element k; out' ← store size out k x; fill n' (k + 1) element size out'
  end.

(* @src src/graph/optimization/const_eval_internal.h:31-43 EvaluateBinaryFlatTyped *)
Definition EvaluateBinaryFlatTyped (op : ScalarType -> Z -> Z -> Res Z) (t : ScalarType) (lhs rhs out : list Z) (numel : Z) : Res (list Z) :=
  fill (Z.to_nat numel) 0 (fun i => a ← load (scalar_size t) lhs i; b ← load (scalar_size t) rhs i; op t a b) (scalar_size t) out.
(* @src src/graph/optimization/const_eval_internal.h:149-160 EvaluateUnaryFlatTyped *)
Definition EvaluateUnaryFlatTyped (op : ScalarType -> Z -> Res Z) (t : ScalarType) (input out : list Z) (numel : Z) : Res (list Z) :=
  fill (Z.to_nat numel) 0 (fun i => a ← load (scalar_size t) input i; op t a) (scalar_size t) out.

(** The inner loop over the axes, last axis first: whether it went past the first axis,
    the new coordinates and the new offsets. *)
(* @src src/graph/optimization/const_eval_internal.h:95-106 EvaluateBinaryStridedKernel (axes) *)
Fixpoint advance (shape coordinates ls rs : list Z) (lo ro : Z) : bool * list Z * (Z * Z) :=
  match shape, coordinates, ls, rs with
  | d :: shape', c :: coordinates', l :: ls', r :: rs' =>
      let '(past, coords, (lo, ro)) := advance shape' coordinates' ls' rs' lo ro in
      if past then
        if c + 1 <? d then (false, c + 1 :: coords, (lo + l, ro + r))
        else (true, 0 :: coords, (lo + l - l * d, ro + r - r * d))
      else (false, c :: coords, (lo, ro))
  | _, _, _, _ => (true, coordinates, (lo, ro))
  end.
(* @src src/graph/optimization/const_eval_internal.h:93-107 EvaluateBinaryStridedKernel (loop) *)
Fixpoint strided_loop (n : nat) (k : Z) (op : Z -> Z -> Res Z) (size : nat) (lhs rhs : list Z) (shape ls rs : list Z)
    (coordinates : list Z) (lo ro : Z) (out : list Z) : Res (list Z) :=
  match n with
  | O => Ret out
  | S n' =>
      a ← load size lhs lo; b ← load size rhs ro; x ← op a b; out' ← store size out k x;
      let '(_, coords, (lo, ro)) := advance shape coordinates ls rs lo ro in
      strided_loop n' (k + 1) op size lhs rhs shape ls rs coords lo ro out'
  end.
(** The strides have one entry per axis; a missing one would be read out of range. *)
(* @src src/graph/optimization/const_eval_internal.h:80-109 EvaluateBinaryStridedKernel *)
Definition EvaluateBinaryStridedKernel (op : ScalarType -> Z -> Z -> Res Z) (t : ScalarType) (lhs rhs out : list Z) (shape : list Z) (numel : Z)
    (ls rs : list Z) : Res (list Z) :=
  _ ← am_check ((numel <=? 0) || ((length ls =? length shape)%nat && (length rs =? length shape)%nat)) "span::operator[]";
  strided_loop (Z.to_nat numel) 0 (op t) (scalar_size t) lhs rhs shape ls rs (replicate (length shape) 0) 0 0 out.

(* @src src/graph/optimization/const_eval_internal.h:176-185 EvaluateUnaryStridedKernel (axes) *)
Fixpoint advance1 (shape coordinates ss : list Z) (offset : Z) : bool * list Z * Z :=
  match shape, coordinates, ss with
  | d :: shape', c :: coordinates', s :: ss' =>
      let '(past, coords, offset) := advance1 shape' coordinates' ss' offset in
      if past then
        if c + 1 <? d then (false, c + 1 :: coords, offset + s)
        else (true, 0 :: coords, offset + s - s * d)
      else (false, c :: coords, offset)
  | _, _, _ => (true, coordinates, offset)
  end.
(* @src src/graph/optimization/const_eval_internal.h:174-186 EvaluateUnaryStridedKernel (loop) *)
Fixpoint strided_loop1 (n : nat) (k : Z) (op : Z -> Res Z) (size : nat) (input : list Z) (shape ss : list Z)
    (coordinates : list Z) (offset : Z) (out : list Z) : Res (list Z) :=
  match n with
  | O => Ret out
  | S n' =>
      a ← load size input offset; x ← op a; out' ← store size out k x;
      let '(_, coords, offset) := advance1 shape coordinates ss offset in
      strided_loop1 n' (k + 1) op size input shape ss coords offset out'
  end.
(* @src src/graph/optimization/const_eval_internal.h:164-188 EvaluateUnaryStridedKernel *)
Definition EvaluateUnaryStridedKernel (op : ScalarType -> Z -> Res Z) (t : ScalarType) (input out : list Z) (shape : list Z) (numel : Z) (ss : list Z) : Res (list Z) :=
  _ ← am_check ((numel <=? 0) || (length ss =? length shape)%nat) "span::operator[]";
  strided_loop1 (Z.to_nat numel) 0 (op t) (scalar_size t) input shape ss (replicate (length shape) 0) 0 out.

(** The first type of a list that a data type equals. *)
Fixpoint select (d : DataType.t) (types : list ScalarType) : Res (option ScalarType) :=
  match types with
  | [] => Ret None
  | t :: l => e ← DataType.equal d (scalar_dtype t); if (e : bool) then Ret (Some t) else select d l
  end.
Definition by_dtype {A} (d : DataType.t) (types : list ScalarType) (what : string) (kernel : ScalarType -> Res A) : Res A :=
  t ← select d types;
  match t with Some t => kernel t | None => Fail (InvalidArgument what) end.
Definition binary_types : list ScalarType := [sFloat; sDouble; sBFloat16; sHalf; sInt32; sInt64].
Definition silu_types : list ScalarType := [sFloat; sHalf; sBFloat16; sE4M3FN; sE5M2].

(* @src src/graph/optimization/const_eval_internal.h:45-74 EvaluateBinaryFlatByDType *)
Definition EvaluateBinaryFlatByDType (op : ScalarType -> Z -> Z -> Res Z) (d : DataType.t) (lhs rhs out : list Z) (numel : Z) : Res (list Z) :=
  by_dtype d binary_types "binary constant evaluator received unsupported dtype" (fun t => EvaluateBinaryFlatTyped op t lhs rhs out numel).
(* @src src/graph/optimization/const_eval_internal.h:111-141 EvaluateBinaryStridedByDType *)
Definition EvaluateBinaryStridedByDType (op : ScalarType -> Z -> Z -> Res Z) (d : DataType.t) (lhs rhs out : list Z) (shape : list Z) (numel : Z) (ls rs : list Z)
    : Res (list Z) :=
  by_dtype d binary_types "binary constant evaluator received unsupported dtype" (fun t => EvaluateBinaryStridedKernel op t lhs rhs out shape numel ls rs).

(** Conditions in the order they are tested. *)
Fixpoint all_hold (l : list (Res bool)) : Res bool :=
  match l with [] => Ret true | m :: l' => b ← m; if (b : bool) then all_hold l' else Ret false end.

(** ** Evaluators *)

(* @src include/aethermind/graph/optimization/const_evaluator.h:55-66 PlannedConstOutput *)
Record PlannedConstOutput := mkPlanned { po_spec : TensorSpec; po_quantization : QuantizationSpec; po_strides : list Z; po_nbytes : Z; po_name : string }.
(* @src include/aethermind/graph/optimization/const_evaluator.h:70-74 ConstEvalPlan *)
Record ConstEvalPlan := mkEvalPlan { plan_outputs : list PlannedConstOutput; plan_cost : FoldingCost }.

(** Evaluating fills the buffers of the outputs and returns them. *)
(* @src include/aethermind/graph/optimization/const_evaluator.h:94-130 ConstEvaluator *)
Record ConstEvaluator := mkEvaluator {
  Plan : list GraphValueDesc -> list GraphValueDesc -> OpParams -> Res ConstEvalPlan;
  Evaluate : list ConstView -> list ConstView -> OpParams -> Res (list (list Z)) }.

(** The end every planning function shares: the cost and the one dense output. *)
(* @src src/graph/optimization/const_eval_add.cpp:72-87 AddConstEvaluator::Plan (cost and output) *)
Definition dense_plan (output : GraphValueDesc) (shape : list Z) (ops_per_element : Z) : Res ConstEvalPlan :=
  numel ← CountElements shape;
  cost ← EstimateCost (vd_spec output) numel ops_per_element;
  strides ← MakeContiguousStrides shape;
  Ret (mkEvalPlan [mkPlanned (vd_spec output) (vd_quantization output) strides (output_bytes cost) ("folded_" +:+ vd_name output)] cost).

Definition kAddOpsPerElement : Z := 1.
Definition kMulOpsPerElement : Z := 1.
Definition kSiluOpsPerElement : Z := 3.
Definition kSiluMulOpsPerElement : Z := 4.

(* @src src/graph/optimization/const_eval_add.cpp:40-88 AddConstEvaluator::Plan *)
Definition PlanAdd (inputs outputs : list GraphValueDesc) (params : OpParams) : Res ConstEvalPlan :=
  match inputs, outputs, params with
  | [l; r], [o], AddParams =>
      let d := dtype (vd_spec l) in
      ok ← all_hold [IsAddSupportedDType d; DataType.equal (dtype (vd_spec r)) d; DataType.equal (dtype (vd_spec o)) d];
      _ ← reject_if (negb ok) (Unimplemented "Add constant evaluator only supports float32, float64, bfloat16, int32, and int64 tensors");
      lhs_shape ← ExtractStaticShape (vd_spec l);
      rhs_shape ← ExtractStaticShape (vd_spec r);
      shape ← ExtractStaticShape (vd_spec o);
      fits ← match BroadcastShapes lhs_shape rhs_shape with Ret b => Ret (bool_decide (b = shape)) | Fail _ => Ret false | Panic w => Panic w end;
      _ ← reject_if (negb fits) (Unimplemented "Add constant evaluator requires broadcast-compatible static shapes matching output");
      dense_plan o shape kAddOpsPerElement
  | _, _, _ => Fail (Unimplemented "Add constant evaluator requires two inputs and one output")
  end.

(* @src src/graph/optimization/const_eval_mul.cpp:37-88 ElementwiseMulConstEvaluator::Plan *)
Definition PlanMul (inputs outputs : list GraphValueDesc) (params : OpParams) : Res ConstEvalPlan :=
  match inputs, outputs, params with
  | [l; r], [o], ElementwiseMulParams =>
      let d := dtype (vd_spec l) in
      ok ← all_hold [IsElementwiseMulSupportedDType d; DataType.equal (dtype (vd_spec r)) d; DataType.equal (dtype (vd_spec o)) d];
      _ ← reject_if (negb ok) (Unimplemented ("ElementwiseMul constant evaluator" +:+ half_float_text));
      lhs_shape ← ExtractStaticShape (vd_spec l);
      rhs_shape ← ExtractStaticShape (vd_spec r);
      shape ← ExtractStaticShape (vd_spec o);
      _ ← reject_if (bool_decide (lhs_shape <> shape) || bool_decide (rhs_shape <> shape))
            (Unimplemented "ElementwiseMul constant evaluator requires identical static shapes for lhs, rhs, and output");
      dense_plan o shape kMulOpsPerElement
  | _, _, _ => Fail (Unimplemented "ElementwiseMul constant evaluator requires two inputs and one output")
  end.

(* @src src/graph/optimization/const_eval_silu.cpp:95-141 SiluConstEvaluator::Plan *)
Definition PlanSilu (inputs outputs : list GraphValueDesc) (params : OpParams) : Res ConstEvalPlan :=
  match inputs, outputs, params with
  | [x], [o], SiluParams =>
      let d := dtype (vd_spec x) in
      ok ← all_hold [IsSiluSupportedDType d; DataType.equal (dtype (vd_spec o)) d];
      _ ← reject_if (negb ok) (Unimplemented ("Silu constant evaluator" +:+ float8_text));
      input_shape ← ExtractStaticShape (vd_spec x);
      output_shape ← ExtractStaticShape (vd_spec o);
      _ ← reject_if (bool_decide (input_shape <> output_shape))
            (Unimplemented "Silu constant evaluator requires identical static shapes for input and output");
      dense_plan o output_shape kSiluOpsPerElement
  | _, _, _ => Fail (Unimplemented "Silu constant evaluator requires one input and one output")
  end.

(* @src src/graph/optimization/const_eval_silu_mul.cpp:98-147 SiluMulConstEvaluator::Plan *)
Definition PlanSiluMul (inputs outputs : list GraphValueDesc) (params : OpParams) : Res ConstEvalPlan :=
  match inputs, outputs, params with
  | [g; u], [o], SiluMulParams =>
      let d := dtype (vd_spec g) in
      ok ← all_hold [IsSiluMulSupportedDType d; DataType.equal (dtype (vd_spec u)) d; DataType.equal (dtype (vd_spec o)) d];
      _ ← reject_if (negb ok) (Unimplemented ("SiluMul constant evaluator" +:+ float8_text));
      gate_shape ← ExtractStaticShape (vd_spec g);
      up_shape ← ExtractStaticShape (vd_spec u);
      output_shape ← ExtractStaticShape (vd_spec o);
      _ ← reject_if (bool_decide (gate_shape <> output_shape) || bool_decide (up_shape <> output_shape))
            (Unimplemented "SiluMul constant evaluator requires identical static shapes for gate, up, and output");
      dense_plan o output_shape kSiluMulOpsPerElement
  | _, _, _ => Fail (Unimplemented "SiluMul constant evaluator requires two inputs and one output")
  end.

Section Evaluators.
Context {FA : FloatArith}.

Definition bad_dtype (name text : string) : Status := InvalidArgument (name +:+ " constant evaluator" +:+ text).
Definition bad_call (name what : string) : Status := InvalidArgument (name +:+ " constant evaluator " +:+ what).

(* @src src/graph/optimization/const_eval_add.cpp:92-140 AddConstEvaluator::Evaluate *)
Definition EvaluateAdd (inputs outputs : list ConstView) (params : OpParams) : Res (list (list Z)) :=
  match inputs, outputs, params with
  | [lhs; rhs], [out], AddParams =>
      let d := cv_dtype lhs in
      ok ← all_hold [IsAddSupportedDType d; DataType.equal (cv_dtype rhs) d; DataType.equal (cv_dtype out) d];
      _ ← reject_if (negb ok) (bad_dtype "Add" " only supports float32, float64, bfloat16, int32, and int64 tensors");
      fits ← match BroadcastShapes (cv_shape lhs) (cv_shape rhs) with Ret b => Ret (bool_decide (b = cv_shape out)) | Fail _ => Ret false | Panic w => Panic w end;
      _ ← reject_if (negb fits) (bad_call "Add" "received mismatched shapes");
      dense ← v_is_contiguous (cv_view out);
      _ ← reject_if (negb dense) (bad_call "Add" "requires contiguous output tensor");
      flat ← all_hold [Ret (bool_decide (cv_shape lhs = cv_shape out)); Ret (bool_decide (cv_shape rhs = cv_shape out));
                       v_is_contiguous (cv_view lhs); v_is_contiguous (cv_view rhs)];
      if (flat : bool) then
        numel ← v_numel (cv_view out);
        bytes ← EvaluateBinaryFlatByDType AddScalar d (cv_bytes lhs) (cv_bytes rhs) (cv_bytes out) numel;
        Ret [bytes]
      else
        lhs_strides ← BroadcastInputStrides (cv_shape lhs) (cv_strides lhs) (cv_shape out);
        rhs_strides ← BroadcastInputStrides (cv_shape rhs) (cv_strides rhs) (cv_shape out);
        numel ← v_numel (cv_view out);
        bytes ← EvaluateBinaryStridedByDType AddScalar d (cv_bytes lhs) (cv_bytes rhs) (cv_bytes out) (cv_shape out) numel lhs_strides rhs_strides;
        Ret [bytes]
  | _, _, _ => Fail (bad_call "Add" "received invalid view arity")
  end.

(* @src src/graph/optimization/const_eval_mul.cpp:91-126 ElementwiseMulConstEvaluator::Evaluate *)
Definition EvaluateMul (inputs outputs : list ConstView) (params : OpParams) : Res (list (list Z)) :=
  match inputs, outputs, params with
  | [lhs; rhs], [out], ElementwiseMulParams =>
      let d := cv_dtype lhs in
      ok ← all_hold [IsElementwiseMulSupportedDType d; DataType.equal (cv_dtype rhs) d; DataType.equal (cv_dtype out) d];
      _ ← reject_if (negb ok) (bad_dtype "ElementwiseMul" half_float_text);
      _ ← reject_if (bool_decide (cv_shape lhs <> cv_shape out) || bool_decide (cv_shape rhs <> cv_shape out)) (bad_call "ElementwiseMul" "received mismatched shapes");
      dense ← v_is_contiguous (cv_view out);
      _ ← reject_if (negb dense) (bad_call "ElementwiseMul" "requires contiguous output tensor");
      flat ← all_hold [v_is_contiguous (cv_view lhs); v_is_contiguous (cv_view rhs)];
      numel ← v_numel (cv_view out);
      bytes ← (if (flat : bool) then EvaluateBinaryFlatByDType MultiplyScalar d (cv_bytes lhs) (cv_bytes rhs) (cv_bytes out) numel
               else EvaluateBinaryStridedByDType MultiplyScalar d (cv_bytes lhs) (cv_bytes rhs) (cv_bytes out) (cv_shape out) numel (cv_strides lhs) (cv_strides rhs));
      Ret [bytes]
  | _, _, _ => Fail (bad_call "ElementwiseMul" "received invalid view arity")
  end.

(* @src src/graph/optimization/const_eval_silu.cpp:32-56 EvaluateSiluFlatByDType *)
Definition EvaluateSiluFlatByDType (d : DataType.t) (input out : list Z) (numel : Z) : Res (list Z) :=
  by_dtype d silu_types "Silu constant evaluator received unsupported dtype" (fun t => EvaluateUnaryFlatTyped SiluScalar t input out numel).
(* @src src/graph/optimization/const_eval_silu.cpp:58-87 EvaluateSiluStridedByDType *)
Definition EvaluateSiluStridedByDType (d : DataType.t) (input out : list Z) (shape : list Z) (numel : Z) (ss : list Z) : Res (list Z) :=
  by_dtype d silu_types "Silu constant evaluator received unsupported dtype" (fun t => EvaluateUnaryStridedKernel SiluScalar t input out shape numel ss).
(* @src src/graph/optimization/const_eval_silu.cpp:145-175 SiluConstEvaluator::Evaluate *)
Definition EvaluateSilu (inputs outputs : list ConstView) (params : OpParams) : Res (list (list Z)) :=
  match inputs, outputs, params with
  | [x], [out], SiluParams =>
      let d := cv_dtype x in
      ok ← all_hold [IsSiluSupportedDType d; DataType.equal (cv_dtype out) d];
      _ ← reject_if (negb ok) (bad_dtype "Silu" float8_text);
      _ ← reject_if (bool_decide (cv_shape x <> cv_shape out)) (bad_call "Silu" "received mismatched shapes");
      dense ← v_is_contiguous (cv_view out);
      _ ← reject_if (negb dense) (bad_call "Silu" "requires contiguous output tensor");
      flat ← v_is_contiguous (cv_view x);
      numel ← v_numel (cv_view out);
      bytes ← (if (flat : bool) then EvaluateSiluFlatByDType d (cv_bytes x) (cv_bytes out) numel
               else EvaluateSiluStridedByDType d (cv_bytes x) (cv_bytes out) (cv_shape out) numel (cv_strides x));
      Ret [bytes]
  | _, _, _ => Fail (bad_call "Silu" "received invalid view arity")
  end.

(* @src src/graph/optimization/const_eval_silu_mul.cpp:35-59 EvaluateSiluMulFlatByDType *)
Definition EvaluateSiluMulFlatByDType (d : DataType.t) (gate up out : list Z) (numel : Z) : Res (list Z) :=
  by_dtype d silu_types "SiluMul constant evaluator received unsupported dtype" (fun t => EvaluateBinaryFlatTyped SiluMulScalar t gate up out numel).
(* @src src/graph/optimization/const_eval_silu_mul.cpp:61-91 EvaluateSiluMulStridedByDType *)
Definition EvaluateSiluMulStridedByDType (d : DataType.t) (gate up out : list Z) (shape : list Z) (numel : Z) (gs us : list Z) : Res (list Z) :=
  by_dtype d silu_types "SiluMul constant evaluator received unsupported dtype" (fun t => EvaluateBinaryStridedKernel SiluMulScalar t gate up out shape numel gs us).
(* @src src/graph/optimization/const_eval_silu_mul.cpp:150-184 SiluMulConstEvaluator::Evaluate *)
Definition EvaluateSiluMul (inputs outputs : list ConstView) (params : OpParams) : Res (list (list Z)) :=
  match inputs, outputs, params with
  | [gate; up], [out], SiluMulParams =>
      let d := cv_dtype gate in
      ok ← all_hold [IsSiluMulSupportedDType d; DataType.equal (cv_dtype up) d; DataType.equal (cv_dtype out) d];
      _ ← reject_if (negb ok) (bad_dtype "SiluMul" float8_text);
      _ ← reject_if (bool_decide (cv_shape gate <> cv_shape out) || bool_decide (cv_shape up <> cv_shape out)) (bad_call "SiluMul" "received mismatched shapes");
      dense ← v_is_contiguous (cv_view out);
      _ ← reject_if (negb dense) (bad_call "SiluMul" "requires contiguous output tensor");
      flat ← all_hold [v_is_contiguous (cv_view gate); v_is_contiguous (cv_view up)];
      numel ← v_numel (cv_view out);
      bytes ← (if (flat : bool) then EvaluateSiluMulFlatByDType d (cv_bytes gate) (cv_bytes up) (cv_bytes out) numel
               else EvaluateSiluMulStridedByDType d (cv_bytes gate) (cv_bytes up) (cv_bytes out) (cv_shape out) numel (cv_strides gate) (cv_strides up));
      Ret [bytes]
  | _, _, _ => Fail (bad_call "SiluMul" "received invalid view arity")
  end.

(* @src src/graph/optimization/const_evaluator.cpp:14-33 kEvaluators, FindConstEvaluator *)
Definition FindConstEvaluator (o : OpType.t) : option ConstEvaluator :=
  match o with
  | OpType.kAdd => Some (mkEvaluator PlanAdd EvaluateAdd)
  | OpType.kElementwiseMul => Some (mkEvaluator PlanMul EvaluateMul)
  | OpType.kSilu => Some (mkEvaluator PlanSilu EvaluateSilu)
  | OpType.kSiluMul => Some (mkEvaluator PlanSiluMul EvaluateSiluMul)
  | _ => None
  end.
End Evaluators.

(** ** The strided kernels visit every element once *)

(** The index of the [k]-th element in row-major order. *)
Fixpoint unravel (shape : list Z) (k : Z) : list Z :=
  match shape with [] => [] | _ :: shape' => k / product shape' :: unravel shape' (k mod product shape') end.

Definition positive (shape : list Z) : Prop := Forall (fun d => 0 < d) shape.

Lemma product_positive shape : positive shape -> 0 < product shape.
Proof. induction 1; cbn; nia. Qed.
Lemma positive_of_product shape : nonneg shape -> 0 < product shape -> positive shape.
Proof. induction 1 as [|d shape Hd Hn IH]; cbn; intros H; [constructor|]. pose proof (product_nonneg shape Hn). constructor; [nia|apply IH; nia]. Qed.

Lemma unravel_length shape : forall k, length (unravel shape k) = length shape.
Proof. induction shape as [|d shape IH]; intros k; cbn; [done|]. by rewrite IH. Qed.

Lemma unravel_spec shape : positive shape -> forall k, 0 <= k < product shape -> in_shape (unravel shape k) shape /\ row_major (unravel shape k) shape = k.
Proof.
  induction 1 as [|d shape Hd Hp IH]; intros k Hk; cbn in *; [split; [constructor|lia]|]. pose proof (product_positive shape Hp) as HP.
  pose proof (Z.div_mod k (product shape) ltac:(lia)). pose proof (Z.mod_pos_bound k (product shape) HP). destruct (IH (k mod product shape)) as [H1 H2]; [lia|]. split.
  - constructor; [|done]. split; [apply Z.div_pos; lia|apply Z.div_lt_upper_bound; lia].
  - rewrite H2. lia.
Qed.
Lemma unravel_row_major shape idx : in_shape idx shape -> unravel shape (row_major idx shape) = idx.
Proof.
  induction 1 as [|i d idx shape Hi Hin IH]; cbn; [done|]. pose proof (row_major_range idx shape Hin) as Hr.
  rewrite Z.div_add_l, Z.div_small, Z.add_0_r by lia. f_equal. rewrite Z.add_comm, Z.mod_add, Z.mod_small by lia. done.
Qed.
Lemma unravel_zero shape : positive shape -> unravel shape 0 = replicate (length shape) 0.
Proof. induction 1 as [|d shape Hd Hp IH]; cbn; [done|]. pose proof (product_positive shape Hp). rewrite Z.div_0_l, Z.mod_0_l by lia. by rewrite IH. Qed.
Lemma dot_zeros n ss : dot (replicate n 0) ss = 0.
Proof. revert ss. induction n as [|n IH]; intros [|s ss]; cbn; [done..|]. by rewrite IH. Qed.

(** One round of the inner loop goes to the next index, or back to the first one. *)
Lemma advance_next shape : positive shape -> forall ls rs k lo ro, length ls = length shape -> length rs = length shape -> 0 <= k < product shape ->
  let next := (k + 1) mod product shape in
  advance shape (unravel shape k) ls rs lo ro =
    (k + 1 =? product shape, unravel shape next, (lo - dot (unravel shape k) ls + dot (unravel shape next) ls, ro - dot (unravel shape k) rs + dot (unravel shape next) rs)).
Proof.
  induction 1 as [|d shape Hd Hp IH]; intros [|l ls] [|r rs] k lo ro Hl Hr Hk; try discriminate.
  { cbn in *. assert (k = 0) as -> by lia. cbn. do 2 f_equal; lia. }
  injection Hl as Hl. injection Hr as Hr. cbn [product] in Hk. pose proof (product_positive shape Hp) as HP.
  cbn [advance unravel product]. cbv zeta. set (P := product shape) in *. pose proof (Z.div_mod k P ltac:(lia)) as Ek. pose proof (Z.mod_pos_bound k P HP) as Hm.
  set (q := k / P) in *. set (m := k mod P) in *. assert (0 <= q < d) as Hq by nia. rewrite (IH ls rs m lo ro Hl Hr Hm). cbv zeta.
  destruct (Z.eqb_spec (m + 1) P) as [E|E].
  - rewrite E, Z.mod_same by lia. destruct (Z.ltb_spec (q + 1) d) as [Hd1|Hd1].
    + assert (k + 1 = (q + 1) * P) as Ek1 by nia. rewrite (Z.mod_small (k + 1)) by nia. rewrite Ek1, Z.div_mul, Z.mod_mul by lia.
      rewrite (proj2 (Z.eqb_neq _ _)) by nia. cbn [dot]. do 2 f_equal; ring.
    + assert (q + 1 = d) as Eq by lia. assert (k + 1 = d * P) as Ek1 by nia. rewrite Ek1, Z.eqb_refl, Z.mod_same by nia. rewrite Z.div_0_l, Z.mod_0_l by lia.
      cbn [dot]. do 2 f_equal; rewrite <- Eq; ring.
  - rewrite (Z.mod_small (m + 1)) by lia. assert (k + 1 = q * P + (m + 1)) as Ek1 by nia. rewrite (Z.mod_small (k + 1)) by nia.
    rewrite Ek1, Z.div_add_l, (Z.div_small (m + 1)), Z.add_0_r by lia. rewrite (Z.add_comm (q * P)), Z.mod_add, (Z.mod_small (m + 1)) by lia.
    rewrite (proj2 (Z.eqb_neq (m + 1 + q * P) _)) by nia. cbn [dot]. do 2 f_equal; ring.
Qed.

(** The unary inner loop is the binary one with one offset. *)
Lemma advance1_advance shape : forall coords ss o, advance1 shape coords ss o =
  (let '(past, cs, (lo, _)) := advance shape coords ss ss o o in (past, cs, lo)) /\ (advance shape coords ss ss o o).2.1 = (advance shape coords ss ss o o).2.2.
Proof.
  induction shape as [|d shape IH]; intros [|c coords] [|s ss] o; try done. cbn [advance1 advance]. destruct (IH coords ss o) as [-> E].
  destruct (advance shape coords ss ss o o) as [[past cs] [lo ro]]. cbn in E. subst ro. destruct past; [|done]. by destruct (c + 1 <? d).
Qed.

(** A kernel that walks with strides fills the output with the elements at the offsets of
    the strides. *)
Lemma strided_loop_fill op size lhs rhs shape ls rs : positive shape -> length ls = length shape -> length rs = length shape ->
  forall n k out, 0 <= k -> k + Z.of_nat n <= product shape ->
  strided_loop n k op size lhs rhs shape ls rs (unravel shape k) (dot (unravel shape k) ls) (dot (unravel shape k) rs) out =
  fill n k (fun i => a ← load size lhs (dot (unravel shape i) ls); b ← load size rhs (dot (unravel shape i) rs); op a b) size out.
Proof.
  intros Hp Hl Hr. induction n as [|n IH]; intros k out Hk Hn; [done|]. cbn [strided_loop fill].
  destruct (load size lhs _) as [a|e|w]; [|done..]. cbn [mbind res_mbind res_bind]. destruct (load size rhs _) as [b|e|w]; [|done..]. cbn [mbind res_mbind res_bind].
  destruct (op a b) as [x|e|w]; [|done..]. cbn [mbind res_mbind res_bind]. destruct (store size out k x) as [out'|e|w]; [|done..]. cbn [mbind res_mbind res_bind].
  rewrite (advance_next shape Hp ls rs k _ _ Hl Hr) by lia. cbv zeta. destruct n as [|n]; [done|]. rewrite (Z.mod_small (k + 1)) by lia.
  replace (dot (unravel shape k) ls - dot (unravel shape k) ls + dot (unravel shape (k + 1)) ls) with (dot (unravel shape (k + 1)) ls) by lia.
  replace (dot (unravel shape k) rs - dot (unravel shape k) rs + dot (unravel shape (k + 1)) rs) with (dot (unravel shape (k + 1)) rs) by lia.
  apply IH; lia.
Qed.
Lemma strided_loop1_fill op size input shape ss : positive shape -> length ss = length shape ->
  forall n k out, 0 <= k -> k + Z.of_nat n <= product shape ->
  strided_loop1 n k op size input shape ss (unravel shape k) (dot (unravel shape k) ss) out =
  fill n k (fun i => a ← load size input (dot (unravel shape i) ss); op a) size out.
Proof.
  intros Hp Hl. induction n as [|n IH]; intros k out Hk Hn; [done|]. cbn [strided_loop1 fill].
  destruct (load size input _) as [a|e|w]; [|done..]. cbn [mbind res_mbind res_bind].
  destruct (op a) as [x|e|w]; [|done..]. cbn [mbind res_mbind res_bind]. destruct (store size out k x) as [out'|e|w]; [|done..]. cbn [mbind res_mbind res_bind].
  destruct (advance1_advance shape (unravel shape k) ss (dot (unravel shape k) ss)) as [-> _].
  rewrite (advance_next shape Hp ss ss k _ _ Hl Hl) by lia. cbv zeta. destruct n as [|n]; [done|]. rewrite (Z.mod_small (k + 1)) by lia.
  replace (dot (unravel shape k) ss - dot (unravel shape k) ss + dot (unravel shape (k + 1)) ss) with (dot (unravel shape (k + 1)) ss) by lia.
  apply IH; lia.
Qed.

Lemma EvaluateBinaryStridedKernel_fill op t lhs rhs out shape ls rs : nonneg shape -> length ls = length shape -> length rs = length shape ->
  EvaluateBinaryStridedKernel op t lhs rhs out shape (product shape) ls rs =
  fill (Z.to_nat (product shape)) 0 (fun i => a ← load (scalar_size t) lhs (dot (unravel shape i) ls); b ← load (scalar_size t) rhs (dot (unravel shape i) rs); op t a b) (scalar_size t) out.
Proof.
  intros Hn Hl Hr. unfold EvaluateBinaryStridedKernel. rewrite Hl, Hr, Nat.eqb_refl. cbn [andb]. rewrite orb_true_r. cbn [am_check mbind res_mbind res_bind].
  pose proof (product_nonneg shape Hn) as HP. destruct (decide (product shape = 0)) as [->|Hz]; [done|].
  pose proof (positive_of_product shape Hn ltac:(lia)) as Hp.
  pose proof (strided_loop_fill (op t) (scalar_size t) lhs rhs shape ls rs Hp Hl Hr (Z.to_nat (product shape)) 0 out ltac:(lia) ltac:(lia)) as H.
  rewrite (unravel_zero shape Hp), !dot_zeros in H. exact H.
Qed.
Lemma EvaluateUnaryStridedKernel_fill op t input out shape ss : nonneg shape -> length ss = length shape ->
  EvaluateUnaryStridedKernel op t input out shape (product shape) ss =
  fill (Z.to_nat (product shape)) 0 (fun i => a ← load (scalar_size t) input (dot (unravel shape i) ss); op t a) (scalar_size t) out.
Proof.
  intros Hn Hl. unfold EvaluateUnaryStridedKernel. rewrite Hl, Nat.eqb_refl, orb_true_r. cbn [am_check mbind res_mbind res_bind].
  pose proof (product_nonneg shape Hn) as HP. destruct (decide (product shape = 0)) as [->|Hz]; [done|].
  pose proof (positive_of_product shape Hn ltac:(lia)) as Hp.
  pose proof (strided_loop1_fill (op t) (scalar_size t) input shape ss Hp Hl (Z.to_nat (product shape)) 0 out ltac:(lia) ltac:(lia)) as H.
  rewrite (unravel_zero shape Hp), !dot_zeros in H. exact H.
Qed.

(** ** Elements of a buffer *)

Lemma load_in n bytes i : 0 <= i -> (i + 1) * Z.of_nat n <= zlen bytes ->
  load n bytes i = Ret (le_val 256 (take n (drop (Z.to_nat i * n) bytes))).
Proof. intros H1 H2. unfold load. by rewrite (proj2 (Z.leb_le _ _) H1), (proj2 (Z.leb_le _ _) H2). Qed.

Lemma store_ret n bytes i x r : store n bytes i x = Ret r ->
  0 <= i /\ (i + 1) * Z.of_nat n <= zlen bytes /\ r = take (Z.to_nat i * n) bytes ++ le_units n 256 x ++ drop ((Z.to_nat i + 1) * n) bytes.
Proof. unfold store. destruct (_ && _) eqn:E; [|discriminate]. intros [= <-]. bsplit. done. Qed.

Lemma store_length n bytes i x r : store n bytes i x = Ret r -> length r = length bytes.
Proof. intros (Hi & Hb & ->)%store_ret. rewrite !length_app, length_take, length_drop, le_units_length. unfold zlen in Hb. nia. Qed.

(** Storing one element changes its bytes only. *)
Lemma store_lookup n bytes i x r p : store n bytes i x = Ret r -> (p < Z.to_nat i * n \/ (Z.to_nat i + 1) * n <= p)%nat -> r !! p = bytes !! p.
Proof.
  intros (Hi & Hb & ->)%store_ret Hp. unfold zlen in Hb. assert (length (take (Z.to_nat i * n) bytes) = (Z.to_nat i * n)%nat) as Hl by (rewrite length_take; nia).
  destruct Hp as [Hp|Hp].
  - rewrite lookup_app_l by lia. by rewrite lookup_take_lt.
  - rewrite lookup_app_r by lia. rewrite Hl, lookup_app_r; rewrite le_units_length; [|lia]. rewrite lookup_drop. f_equal. lia.
Qed.
Lemma load_store_same n bytes i x r : 0 <= x < 256 ^ Z.of_nat n -> store n bytes i x = Ret r -> load n r i = Ret x.
Proof.
  intros Hx H. pose proof (store_length _ _ _ _ _ H) as Hl. apply store_ret in H as (Hi & Hb & ->). unfold zlen in Hb. rewrite load_in; [|done|unfold zlen; lia]. f_equal.
  rewrite drop_app_length' by (rewrite length_take; nia). rewrite take_app_length' by (by rewrite le_units_length). apply le_units_val; lia.
Qed.
Lemma load_store_other n bytes i j x r : i <> j -> store n bytes i x = Ret r -> load n r j = load n bytes j.
Proof.
  intros Hij H. pose proof (store_length _ _ _ _ _ H) as Hl. assert (0 <= i) as Hi by (by apply store_ret in H as [? _]). unfold load, zlen. rewrite Hl.
  destruct (_ && _) eqn:E; [|done]. bsplit. do 2 f_equal. apply list_eq. intros q. destruct (decide (q < n)%nat) as [Hq|Hq].
  - rewrite !lookup_take_lt, !lookup_drop by done. apply (store_lookup _ _ _ _ _ _ H). nia.
  - rewrite !lookup_take_ge by lia. done.
Qed.

(** A filled buffer has the computed elements in order. *)
Lemma fill_spec (element : Z -> Res Z) size : (forall i x, element i = Ret x -> 0 <= x < 256 ^ Z.of_nat size) ->
  forall n k out r, 0 <= k -> fill n k element size out = Ret r ->
  length r = length out /\ (forall j, 0 <= j < k -> load size r j = load size out j) /\ (forall j, k <= j < k + Z.of_nat n -> exists x, element j = Ret x /\ load size r j = Ret x).
Proof.
  intros He. induction n as [|n IH]; intros k out r Hk H; cbn [fill] in H.
  { injection H as <-. split; [done|]. split; [done|]. lia. }
  res_inv. rename a into x, a0 into out'. destruct (IH (k + 1) out' r ltac:(lia) H) as (Hl & Hold & Hnew). pose proof (store_length _ _ _ _ _ Hm0) as Hlo. split; [lia|]. split.
  - intros j Hj. rewrite Hold by lia. apply (load_store_other _ _ k _ x); [lia|done].
  - intros j Hj. destruct (decide (j = k)) as [->|Hne]; [|apply Hnew; lia]. exists x. split; [done|]. rewrite Hold by lia. by apply (load_store_same _ out _ _ _ (He _ _ Hm)).
Qed.

(** ** What the evaluators compute *)

Section Correct.
Context {FA : FloatArith}.

(** The scalar function of an operator. *)
Definition scalar_result (o : OpType.t) (t : ScalarType) (xs : list Z) : Res Z :=
  match o, xs with
  | OpType.kAdd, [a; b] => AddScalar t a b
  | OpType.kElementwiseMul, [a; b] => MultiplyScalar t a b
  | OpType.kSilu, [x] => SiluScalar t x
  | OpType.kSiluMul, [g; u] => SiluMulScalar t g u
  | _, _ => Panic "operator arity"
  end.

(** Where the input [v] holds the element that the index [idx] of an output of shape
    [shape] reads: broadcast axes are pinned at their only element. *)
Definition source_offset (v : ConstView) (shape idx : list Z) : Z :=
  dot (source_index (cv_shape v) (drop (length shape - length (cv_shape v)) idx)) (cv_strides v).

(** The element of the result at [idx]. *)
Definition element_at (o : OpType.t) (t : ScalarType) (inputs : list ConstView) (shape idx : list Z) : Res Z :=
  xs ← res_mapi (fun _ v => load (scalar_size t) (cv_bytes v) (source_offset v shape idx)) 0 inputs; scalar_result o t xs.

Definition typed (t : ScalarType) (v : ConstView) : Prop := DataType.equal (cv_dtype v) (scalar_dtype t) = Ret true.

Lemma pattern_range t x : 0 <= pattern t x < 256 ^ Z.of_nat (scalar_size t).
Proof. unfold pattern. apply Z.mod_pos_bound. apply Z.pow_pos_nonneg; lia. Qed.
Lemma scalar_result_range o t xs y : scalar_result o t xs = Ret y -> 0 <= y < 256 ^ Z.of_nat (scalar_size t).
Proof.
  unfold scalar_result, AddScalar, MultiplyScalar, SiluScalar, SiluMulScalar. intros H.
  destruct o, xs as [|a [|b [|]]]; try discriminate; res_inv; apply pattern_range.
Qed.

Lemma equal_trans a b c : DataType.dcode c <> DLDataTypeCode.Undefined -> DataType.equal a b = Ret true -> DataType.equal b c = Ret true -> DataType.equal a c = Ret true.
Proof.
  intros Hc Hab Hbc. unfold DataType.equal, DLDataTypeCode.eqb in *. rewrite (bool_decide_eq_false_2 _ Hc) in Hbc |- *.
  destruct (decide (DataType.dcode b = DLDataTypeCode.Undefined)) as [Eb|Eb]; [rewrite (bool_decide_eq_true_2 _ Eb) in Hbc; cbn [orb] in Hbc; injection Hbc as Hbc; bsplit; congruence|].
  rewrite (bool_decide_eq_false_2 _ Eb) in Hab, Hbc.
  destruct (decide (DataType.dcode a = DLDataTypeCode.Undefined)) as [Ea|Ea]; [rewrite (bool_decide_eq_true_2 _ Ea) in Hab; cbn [orb] in Hab; injection Hab as Hab; bsplit; congruence|].
  rewrite (bool_decide_eq_false_2 _ Ea) in Hab |- *. cbn [orb] in *. destruct (_ && _) eqn:E1 in Hab; [|discriminate]. destruct (_ && _) eqn:E2 in Hbc; [|discriminate].
  bsplit. res_inv. bsplit. rewrite (bool_decide_eq_true_2 (_ = _)) by congruence. rewrite (proj2 (Z.eqb_eq _ _)) by congruence. cbn [andb].
  repeat match goal with H : DataType.lanes _ = Ret _ |- context [DataType.lanes _] => rewrite H end. cbn [mbind res_mbind res_bind]. f_equal. apply Z.eqb_eq. congruence.
Qed.

Lemma by_dtype_ret {A} d types what (kernel : ScalarType -> Res A) r : by_dtype d types what kernel = Ret r ->
  exists t, DataType.equal d (scalar_dtype t) = Ret true /\ kernel t = Ret r.
Proof.
  unfold by_dtype. induction types as [|t types IH]; cbn [select]; intros H; [discriminate|].
  destruct (DataType.equal d (scalar_dtype t)) as [[]|e|w] eqn:E; cbn [mbind res_mbind res_bind] in H; [by exists t|by apply IH|discriminate..].
Qed.

Lemma all_hold_ret l : all_hold l = Ret true -> Forall (fun m => m = Ret true) l.
Proof. induction l as [|m l IH]; cbn; intros H; [constructor|]. res_inv. destruct a; [|discriminate]. constructor; auto. Qed.

Lemma valid_view v : v_is_valid v = Ret true -> length (v_shape v) = length (v_strides v) /\ nonneg (v_shape v) /\ nonneg (v_strides v).
Proof.
  unfold v_is_valid, HasValidMetadata. intros H. destruct (DataType.IsScalableVector _); [discriminate|]. res_inv. apply andb_true_iff in H as [H _]. bsplit.
  split; [done|]. by apply forallb_axes.
Qed.
Lemma v_is_contiguous_ret v : v_is_contiguous v = Ret true ->
  v_is_valid v = Ret true /\ forall idx, in_shape idx (v_shape v) -> dot idx (v_strides v) = row_major idx (v_shape v).
Proof.
  unfold v_is_contiguous. intros H. res_inv. destruct a; [|discriminate]. split; [done|]. intros idx Hin. destruct (valid_view v Hm) as (Hl & _).
  unfold IsContiguous in H. destruct (v_shape v) as [|d sh] eqn:E; [by inversion Hin|]. rewrite Hl, Nat.eqb_refl in H. cbn [negb] in H.
  rewrite (contiguous_loop_layout (d :: sh) _ 1 idx Hl H Hin). lia.
Qed.
Lemma v_numel_ret v n : Forall (in_i 64) (v_shape v) -> v_numel v = Ret n -> n = product (v_shape v).
Proof.
  intros Hi. unfold v_numel, ComputeNumel. intros H. res_inv. destruct a; [|discriminate]. destruct (valid_view v Hm) as (_ & Hn & _).
  destruct (safe_multiply_spec _ Hn Hi) as [(p & E & _)|[E _]]; rewrite E in H; res_inv; [discriminate|done].
Qed.

Lemma source_index_self idx shape : in_shape idx shape -> source_index shape idx = idx.
Proof. unfold source_index. induction 1 as [|i d idx shape Hi _ IH]; cbn; [done|]. rewrite IH. destruct (Z.eqb_spec d 1) as [->|]; [|done]. f_equal. lia. Qed.
Lemma source_offset_self v shape idx : cv_shape v = shape -> in_shape idx shape -> source_offset v shape idx = dot idx (cv_strides v).
Proof. intros E Hin. unfold source_offset. rewrite E, Nat.sub_diag, drop_0, source_index_self by done. done. Qed.

(** The bytes hold the result of [o] on [inputs], element by element. *)
Definition computed (o : OpType.t) (t : ScalarType) (inputs : list ConstView) (out : ConstView) (bytes : list Z) : Prop :=
  length bytes = length (cv_bytes out) /\
  forall idx, in_shape idx (cv_shape out) -> exists y, element_at o t inputs (cv_shape out) idx = Ret y /\ load (scalar_size t) bytes (row_major idx (cv_shape out)) = Ret y.

Lemma fill_computed o t inputs out f r : nonneg (cv_shape out) -> (forall i x, f i = Ret x -> 0 <= x < 256 ^ Z.of_nat (scalar_size t)) ->
  (forall idx, in_shape idx (cv_shape out) -> f (row_major idx (cv_shape out)) = element_at o t inputs (cv_shape out) idx) ->
  fill (Z.to_nat (product (cv_shape out))) 0 f (scalar_size t) (cv_bytes out) = Ret r -> computed o t inputs out r.
Proof.
  intros Hn Hr He H. destruct (fill_spec f _ Hr _ 0 _ r ltac:(lia) H) as (Hl & _ & Hnew). split; [done|]. intros idx Hin.
  pose proof (row_major_range _ _ Hin). destruct (Hnew (row_major idx (cv_shape out)) ltac:(lia)) as (y & Ey & El). exists y. by rewrite <- He.
Qed.

Section Binary.
Context (o : OpType.t) (op : ScalarType -> Z -> Z -> Res Z) (Hop : forall t a b, op t a b = scalar_result o t [a; b]).
Context (t : ScalarType) (lhs rhs out : ConstView) (Hn : nonneg (cv_shape out)).

Lemma binary_element idx i j : i = source_offset lhs (cv_shape out) idx -> j = source_offset rhs (cv_shape out) idx ->
  (a ← load (scalar_size t) (cv_bytes lhs) i; b ← load (scalar_size t) (cv_bytes rhs) j; op t a b) = element_at o t [lhs; rhs] (cv_shape out) idx.
Proof using Hop.
  intros -> ->. unfold element_at. cbn [res_mapi]. destruct (load _ (cv_bytes lhs) _) as [a|e|w]; [|done..]. cbn [mbind res_mbind res_bind].
  destruct (load _ (cv_bytes rhs) _) as [b|e|w]; [|done..]. apply Hop.
Qed.
Lemma binary_range (p q : Res Z) x : (a ← p; b ← q; op t a b) = Ret x -> 0 <= x < 256 ^ Z.of_nat (scalar_size t).
Proof using Hop. intros H. res_inv. rewrite Hop in H. by apply scalar_result_range in H. Qed.

Lemma binary_flat_computed r : cv_shape lhs = cv_shape out -> cv_shape rhs = cv_shape out ->
  v_is_contiguous (cv_view lhs) = Ret true -> v_is_contiguous (cv_view rhs) = Ret true ->
  EvaluateBinaryFlatTyped op t (cv_bytes lhs) (cv_bytes rhs) (cv_bytes out) (product (cv_shape out)) = Ret r -> computed o t [lhs; rhs] out r.
Proof using Hop Hn.
  intros El Er Cl Cr. apply v_is_contiguous_ret in Cl as [_ Cl]. apply v_is_contiguous_ret in Cr as [_ Cr].
  apply fill_computed; [done|intros i x; apply binary_range|]. intros idx Hin.
  apply binary_element; rewrite source_offset_self by done; symmetry; rewrite <- ?El in *; [by apply Cl|]. rewrite El, <- Er in *. by apply Cr.
Qed.
Lemma binary_strided_computed ls rs r :
  (forall idx, in_shape idx (cv_shape out) -> dot idx ls = source_offset lhs (cv_shape out) idx /\ dot idx rs = source_offset rhs (cv_shape out) idx) ->
  EvaluateBinaryStridedKernel op t (cv_bytes lhs) (cv_bytes rhs) (cv_bytes out) (cv_shape out) (product (cv_shape out)) ls rs = Ret r -> computed o t [lhs; rhs] out r.
Proof using Hop Hn.
  intros Hs H. pose proof H as H0. unfold EvaluateBinaryStridedKernel in H0. res_inv. apply orb_true_iff in Hm as [Hz|Hl]; bsplit.
  { replace (Z.to_nat _) with 0%nat in H0 by lia. injection H0 as <-. split; [done|]. intros idx Hin. pose proof (row_major_range _ _ Hin). lia. }
  revert H. rewrite EvaluateBinaryStridedKernel_fill by done. apply fill_computed; [done|intros i x; apply binary_range|].
  intros idx Hin. rewrite unravel_row_major by done. destruct (Hs idx Hin). by apply binary_element.
Qed.
End Binary.

Section Unary.
Context (o : OpType.t) (op : ScalarType -> Z -> Res Z) (Hop : forall t a, op t a = scalar_result o t [a]).
Context (t : ScalarType) (x out : ConstView) (Hn : nonneg (cv_shape out)).

Lemma unary_element idx i : i = source_offset x (cv_shape out) idx ->
  (a ← load (scalar_size t) (cv_bytes x) i; op t a) = element_at o t [x] (cv_shape out) idx.
Proof using Hop. intros ->. unfold element_at. cbn [res_mapi]. destruct (load _ (cv_bytes x) _) as [a|e|w]; [|done..]. apply Hop. Qed.
Lemma unary_range (p : Res Z) y : (a ← p; op t a) = Ret y -> 0 <= y < 256 ^ Z.of_nat (scalar_size t).
Proof using Hop. intros H. res_inv. rewrite Hop in H. by apply scalar_result_range in H. Qed.

Lemma unary_flat_computed r : cv_shape x = cv_shape out -> v_is_contiguous (cv_view x) = Ret true ->
  EvaluateUnaryFlatTyped op t (cv_bytes x) (cv_bytes out) (product (cv_shape out)) = Ret r -> computed o t [x] out r.
Proof using Hop Hn.
  intros E C. apply v_is_contiguous_ret in C as [_ C]. apply fill_computed; [done|intros i y; apply unary_range|]. intros idx Hin.
  apply unary_element. rewrite source_offset_self by done. symmetry. rewrite <- E in *. by apply C.
Qed.
Lemma unary_strided_computed ss r :
  (forall idx, in_shape idx (cv_shape out) -> dot idx ss = source_offset x (cv_shape out) idx) ->
  EvaluateUnaryStridedKernel op t (cv_bytes x) (cv_bytes out) (cv_shape out) (product (cv_shape out)) ss = Ret r -> computed o t [x] out r.
Proof using Hop Hn.
  intros Hs H. pose proof H as H0. unfold EvaluateUnaryStridedKernel in H0. res_inv. apply orb_true_iff in Hm as [Hz|Hl]; bsplit.
  { replace (Z.to_nat _) with 0%nat in H0 by lia. injection H0 as <-. split; [done|]. intros idx Hin. pose proof (row_major_range _ _ Hin). lia. }
  revert H. rewrite EvaluateUnaryStridedKernel_fill by done. apply fill_computed; [done|intros i y; apply unary_range|].
  intros idx Hin. rewrite unravel_row_major by done. by apply unary_element, Hs.
Qed.
End Unary.

(** Every index of an output of shape [shape] selects an element of [v]. *)
Definition selects (shape : list Z) (v : ConstView) : Prop :=
  forall idx, in_shape idx shape -> in_shape (source_index (cv_shape v) (drop (length shape - length (cv_shape v)) idx)) (cv_shape v).

(** What an evaluator that succeeded did. *)
Definition evaluated (o : OpType.t) (inputs outputs : list ConstView) (bs : list (list Z)) : Prop :=
  exists out t bytes, outputs = [out] /\ bs = [bytes] /\ Forall (typed t) (out :: inputs) /\ Forall (selects (cv_shape out)) inputs /\ computed o t inputs out bytes.

Lemma selects_self v shape : cv_shape v = shape -> selects shape v.
Proof. intros E idx Hin. rewrite E, Nat.sub_diag, drop_0. by rewrite source_index_self. Qed.
Lemma broadcast_selects v out eff : BroadcastInputStrides (cv_shape v) (cv_strides v) (cv_shape out) = Ret eff -> selects (cv_shape out) v.
Proof. intros H idx Hin. by destruct (BroadcastInputStrides_correct _ _ _ _ idx H Hin) as (_ & _ & ?). Qed.
Create HintDb folding.
#[local] Hint Resolve Forall_nil_2 selects_self broadcast_selects : folding.
#[local] Hint Constructors Forall : folding.

Lemma typed_by_equal t v d : DataType.equal (cv_dtype v) d = Ret true -> DataType.equal d (scalar_dtype t) = Ret true -> typed t v.
Proof. intros H1 H2. eapply equal_trans; [by destruct t|exact H1|exact H2]. Qed.

Lemma broadcast_offset v out eff : BroadcastInputStrides (cv_shape v) (cv_strides v) (cv_shape out) = Ret eff -> forall idx, in_shape idx (cv_shape out) ->
  dot idx eff = source_offset v (cv_shape out) idx.
Proof. intros H idx Hin. by destruct (BroadcastInputStrides_correct _ _ _ _ idx H Hin) as (_ & E & _). Qed.
Lemma dense_out_nonneg v : v_is_contiguous (cv_view v) = Ret true -> nonneg (cv_shape v).
Proof. intros [H _]%v_is_contiguous_ret. by destruct (valid_view _ H) as (_ & ? & _). Qed.

(** Both ways a binary evaluator without broadcasting runs. *)
Lemma same_shape_binary o op types what lhs rhs out d flat r :
  (forall t a b, op t a b = scalar_result o t [a; b]) -> nonneg (cv_shape out) ->
  cv_shape lhs = cv_shape out -> cv_shape rhs = cv_shape out -> DataType.equal (cv_dtype rhs) d = Ret true -> DataType.equal (cv_dtype out) d = Ret true -> cv_dtype lhs = d ->
  (flat = true -> v_is_contiguous (cv_view lhs) = Ret true /\ v_is_contiguous (cv_view rhs) = Ret true) ->
  (if (flat : bool) then by_dtype d types what (fun t => EvaluateBinaryFlatTyped op t (cv_bytes lhs) (cv_bytes rhs) (cv_bytes out) (product (cv_shape out)))
   else by_dtype d types what (fun t => EvaluateBinaryStridedKernel op t (cv_bytes lhs) (cv_bytes rhs) (cv_bytes out) (cv_shape out) (product (cv_shape out)) (cv_strides lhs) (cv_strides rhs))) = Ret r ->
  evaluated o [lhs; rhs] [out] [r].
Proof.
  intros Hop Hn El Er Tr To Tl Hf H. exists out.
  assert (exists t, DataType.equal d (scalar_dtype t) = Ret true /\ computed o t [lhs; rhs] out r) as (t & Ht & Hc).
  { destruct flat; apply by_dtype_ret in H as (t & Ht & H); exists t; (split; [done|]).
    - destruct (Hf eq_refl). by eapply binary_flat_computed.
    - eapply (binary_strided_computed o op Hop t lhs rhs out Hn); [|exact H]. intros idx Hin. by rewrite !source_offset_self. }
  exists t, r. split_and!; [done..| |eauto with folding|done]. repeat apply Forall_cons_2; [by eapply typed_by_equal| |by eapply typed_by_equal|constructor]. unfold typed. by rewrite Tl.
Qed.

(** The guards of an evaluator that returned. *)
Ltac evaluator_guards :=
  res_inv; bsplit; subst;
  repeat match goal with
  | H : all_hold _ = Ret true |- _ => apply all_hold_ret in H
  | H : Forall _ (_ :: _) |- _ => apply Forall_cons_1 in H as [? H]
  | H : ~ (_ <> _) |- _ => apply dec_stable in H
  | Hi : Forall (in_i 64) (cv_shape ?v), H : v_numel (cv_view ?v) = Ret ?n |- _ => apply (v_numel_ret _ _ Hi) in H; subst n
  end.

Lemma EvaluateMul_evaluated inputs outputs params bs : Forall (fun v => Forall (in_i 64) (cv_shape v)) outputs ->
  EvaluateMul inputs outputs params = Ret bs -> evaluated OpType.kElementwiseMul inputs outputs bs.
Proof.
  intros Hi H. unfold EvaluateMul in H. destruct inputs as [|lhs [|rhs [|]]], outputs as [|out [|]], params; try discriminate. evaluator_guards.
  eapply (same_shape_binary _ MultiplyScalar binary_types); [done|by apply dense_out_nonneg|done..| |eassumption].
  intros ->. evaluator_guards. done.
Qed.
Lemma EvaluateSiluMul_evaluated inputs outputs params bs : Forall (fun v => Forall (in_i 64) (cv_shape v)) outputs ->
  EvaluateSiluMul inputs outputs params = Ret bs -> evaluated OpType.kSiluMul inputs outputs bs.
Proof.
  intros Hi H. unfold EvaluateSiluMul in H. destruct inputs as [|lhs [|rhs [|]]], outputs as [|out [|]], params; try discriminate. evaluator_guards.
  eapply (same_shape_binary _ SiluMulScalar silu_types); [done|by apply dense_out_nonneg|done..| |eassumption].
  intros ->. evaluator_guards. done.
Qed.
Lemma EvaluateSilu_evaluated inputs outputs params bs : Forall (fun v => Forall (in_i 64) (cv_shape v)) outputs ->
  EvaluateSilu inputs outputs params = Ret bs -> evaluated OpType.kSilu inputs outputs bs.
Proof.
  intros Hi H. unfold EvaluateSilu in H. destruct inputs as [|x [|]], outputs as [|out [|]], params; try discriminate. evaluator_guards.
  match goal with H : v_is_contiguous (cv_view out) = _ |- _ => apply dense_out_nonneg in H as Hn end.
  match goal with H : (if ?f then _ else _) = Ret ?r |- _ => rename H into Hrun, f into flat, r into bytes end. exists out.
  assert (exists t, DataType.equal (cv_dtype x) (scalar_dtype t) = Ret true /\ computed OpType.kSilu t [x] out bytes) as (t & Ht & Hc).
  { destruct flat; apply by_dtype_ret in Hrun as (t & Ht & Hrun); exists t; (split; [done|]).
    - by eapply (unary_flat_computed _ SiluScalar).
    - eapply (unary_strided_computed _ SiluScalar); [done|done| |exact Hrun]. intros idx Hin. by rewrite source_offset_self. }
  exists t, bytes. split_and!; [done..| |eauto with folding|done]. repeat apply Forall_cons_2; [by eapply typed_by_equal|done|constructor].
Qed.

Lemma EvaluateAdd_evaluated inputs outputs params bs : Forall (fun v => Forall (in_i 64) (cv_shape v)) outputs ->
  EvaluateAdd inputs outputs params = Ret bs -> evaluated OpType.kAdd inputs outputs bs.
Proof.
  intros Hi H. unfold EvaluateAdd in H. destruct inputs as [|lhs [|rhs [|]]], outputs as [|out [|]], params; try discriminate. evaluator_guards.
  match goal with H : v_is_contiguous (cv_view out) = _ |- _ => apply dense_out_nonneg in H as Hn end.
  assert (exists t bytes, bs = [bytes] /\ Forall (selects (cv_shape out)) [lhs; rhs] /\ DataType.equal (cv_dtype lhs) (scalar_dtype t) = Ret true /\ computed OpType.kAdd t [lhs; rhs] out bytes) as (t & bytes & -> & Hs & Ht & Hc).
  { match goal with H : (if ?f then _ else _) = Ret bs |- _ => rename H into Hrun; destruct f eqn:Ef end; evaluator_guards;
      match goal with H : context [by_dtype] |- _ => idtac | H : EvaluateBinaryFlatByDType _ _ _ _ _ _ = _ |- _ => rename H into Hk
      | H : EvaluateBinaryStridedByDType _ _ _ _ _ _ _ _ _ = _ |- _ => rename H into Hk end;
      apply by_dtype_ret in Hk as (t & Ht & Hk); eexists t, _; repeat match goal with H : Ret _ = Ret true |- _ => injection H as H end; bsplit;
      (split_and!; [done|eauto with folding|done|]).
    - by eapply (binary_flat_computed _ AddScalar).
    - eapply (binary_strided_computed _ AddScalar); [done|done| |exact Hk]. intros idx Hin. split; by apply broadcast_offset. }
  exists out, t, bytes. split_and!; [done..| |done|done]. repeat apply Forall_cons_2; [by eapply typed_by_equal|done|by eapply typed_by_equal|constructor].
Qed.

(** Integers are added and multiplied exactly, or the evaluator reports the overflow. *)
Lemma checked_int_exact w check f what a b : 0 < w -> (forall ty x y, check ty x y = (negb (int_trunc ty (f x y) =? f x y), int_trunc ty (f x y))) ->
  let exact := f (wrap_signed w a) (wrap_signed w b) in
  checked_int w check what a b = if bool_decide (in_i w exact) then Ret exact else Fail (Overflow what).
Proof.
  intros Hw Hc exact. unfold checked_int. rewrite Hc. fold exact. unfold int_trunc. cbn [ty_signed ty_width]. case_bool_decide as Hin.
  - apply wrap_signed_id_iff in Hin; [|done]. by rewrite Hin, Z.eqb_refl.
  - rewrite (proj2 (Z.eqb_neq _ _)); [done|]. intros E. by apply Hin, wrap_signed_id_iff.
Qed.

Definition int_width (t : ScalarType) : Z := match t with sInt32 => 32 | _ => 64 end.
Lemma pattern_signed t x : t = sInt32 \/ t = sInt64 -> in_i (int_width t) x -> wrap_signed (int_width t) (pattern t x) = x.
Proof.
  intros Ht Hx. apply (wrap_signed_id_iff (int_width t)) in Hx; [|by destruct Ht as [-> | ->]]. rewrite <- Hx at 2. unfold wrap_signed, pattern. f_equal.
  rewrite <- (Zplus_mod_idemp_l (x mod _)), <- (Zplus_mod_idemp_l x). destruct Ht as [-> | ->]; cbn [int_width scalar_size]; by rewrite Zmod_mod.
Qed.

(** The integer types: the exact sum and product of the signed values, or [Overflow]. *)
Theorem integer_scalars_exact t a b : t = sInt32 \/ t = sInt64 ->
  let w := int_width t in
  let sum := wrap_signed w a + wrap_signed w b in
  let prod := wrap_signed w a * wrap_signed w b in
  (if decide (in_i w sum) then exists r, AddScalar t a b = Ret r /\ wrap_signed w r = sum
   else AddScalar t a b = Fail (Overflow "Add constant evaluator integer overflow")) /\
  (if decide (in_i w prod) then exists r, MultiplyScalar t a b = Ret r /\ wrap_signed w r = prod
   else MultiplyScalar t a b = Fail (Overflow "Mul constant evaluator integer overflow")).
Proof.
  intros Ht w sum prod. split; destruct (decide _) as [Hin|Hin].
  - exists (pattern t sum). split; [|by apply pattern_signed]. unfold AddScalar. destruct Ht as [-> | ->];
      (rewrite (checked_int_exact _ _ Z.add) by done; fold w sum; by rewrite bool_decide_eq_true_2).
  - unfold AddScalar. destruct Ht as [-> | ->]; (rewrite (checked_int_exact _ _ Z.add) by done; fold w sum; by rewrite bool_decide_eq_false_2).
  - exists (pattern t prod). split; [|by apply pattern_signed]. unfold MultiplyScalar. destruct Ht as [-> | ->];
      (rewrite (checked_int_exact _ _ Z.mul) by done; fold w prod; by rewrite bool_decide_eq_true_2).
  - unfold MultiplyScalar. destruct Ht as [-> | ->]; (rewrite (checked_int_exact _ _ Z.mul) by done; fold w prod; by rewrite bool_decide_eq_false_2).
Qed.

Lemma Evaluate_evaluated o ev inputs outputs params bs :
  FindConstEvaluator o = Some ev -> Forall (fun v => Forall (in_i 64) (cv_shape v)) outputs -> Evaluate ev inputs outputs params = Ret bs -> evaluated o inputs outputs bs.
Proof.
  intros Hf Hi H. destruct o; try discriminate; injection Hf as <-; cbn [Evaluate] in H;
    by first [apply EvaluateAdd_evaluated in H|apply EvaluateMul_evaluated in H|apply EvaluateSilu_evaluated in H|apply EvaluateSiluMul_evaluated in H].
Qed.


(** What a constant evaluator writes. When the evaluator of an operator returns
    successfully, whatever the strides of its inputs and whichever kernel ran (flat or
    strided), it had one output, all views have the element type [t] it dispatched on, the
    buffer keeps its size, and for every index of the output the element stored at its
    row-major position is the scalar function of the operator ([AddScalar],
    [MultiplyScalar], [SiluScalar] or [SiluMulScalar] at [t]) applied to the elements the
    inputs hold for that index under NumPy broadcasting, an index inside each input. *)
Theorem Evaluate_elementwise o ev inputs outputs params bs :
  FindConstEvaluator o = Some ev -> Forall (fun v => Forall (in_i 64) (cv_shape v)) outputs ->
  Evaluate ev inputs outputs params = Ret bs ->
  exists out t bytes, outputs = [out] /\ bs = [bytes] /\ Forall (typed t) (out :: inputs) /\ Forall (selects (cv_shape out)) inputs /\
    length bytes = length (cv_bytes out) /\
    forall idx, in_shape idx (cv_shape out) -> exists y, element_at o t inputs (cv_shape out) idx = Ret y /\ load (scalar_size t) bytes (row_major idx (cv_shape out)) = Ret y.
Proof. apply Evaluate_evaluated. Qed.
End Correct.

(** ** Instances *)

(** An arithmetic for examples that use none of it. *)
Definition no_floats : FloatArith := {| f32_add _ _ := 0; f32_mul _ _ := 0; f32_div _ _ := 0; f32_exp _ := 0; f64_add _ _ := 0; f64_mul _ _ := 0 |}.

Definition int_bytes (l : list Z) : list Z := l ≫= le_units 4 256.
Definition column : ConstView := mkConstView (mkTensorView 4096 (DataType.Int 32) [2; 1] [1; 1] 0) (int_bytes [10; 20]).
Definition row : ConstView := mkConstView (mkTensorView 8192 (DataType.Int 32) [3] [1] 0) (int_bytes [1; 2; 3]).
Definition table : ConstView := mkConstView (mkTensorView 12288 (DataType.Int 32) [2; 3] [3; 1] 0) (replicate 24 0).

Example broadcast_add : @EvaluateAdd no_floats [column; row] [table] AddParams = Ret [int_bytes [11; 12; 13; 21; 22; 23]].
Proof. vm_compute. reflexivity. Qed.

Lemma Evaluate_elementwise_witness : exists bytes, @EvaluateAdd no_floats [column; row] [table] AddParams = Ret [bytes] /\ length bytes = 24%nat.
Proof.
  exists (int_bytes [11; 12; 13; 21; 22; 23]). split; [vm_compute; reflexivity|].
  destruct (@Evaluate_elementwise no_floats OpType.kAdd _ [column; row] [table] AddParams [int_bytes [11; 12; 13; 21; 22; 23]] eq_refl) as (out & t & bytes & Eo & Eb & _ & _ & Hl & _).
  - repeat constructor; vm_compute; discriminate.
  - vm_compute. reflexivity.
  - injection Eo as <-. injection Eb as <-. exact Hl.
Defined.
