(* ===== verification/ConstantFolding.v ===== *)
(** * ConstantFolding: the constant folding pass and the graph compiler

    [src/graph/optimization/constant_folding_pass.cpp], the first pass of the default
    pipelines, and [src/graph/compilation/graph_compiler.cpp], which builds these pipelines
    and composes them with lowering. Allocation of the folded buffers is assumed to
    succeed; their sizes are bounded by the policy. *)
From S2P Require Import Prelude OverflowCheck AmStringLayout ShapeSymbol ShapeConstraint Broadcast DataTypes OperatorSchema OperatorInference Graph Topology GraphInvariant RewriteSession RewriteResolve RewriteInvariant RewriteCommit GraphPasses FloatFormat ReducedFloat Tensor ConstEval Lowering.

(** ** The address of a byte vector *)

(** [vector::data()], of which the pass only depends on being null or not. *)
Class VectorData := {
  vector_data : list Z -> Z;
  vector_data_nonnull bytes : bytes <> [] -> vector_data bytes <> 0 }.

(** ** The pass *)

(* @src src/graph/optimization/constant_folding_pass.cpp:26-36 CollectValueDescs *)
Definition CollectValueDescs (s : Session) (values : list nat) : Res (list GraphValueDesc) :=
  res_mapi (fun _ v => GetValueOutputMetadata s v) 0 values.

(** A failure with one of the given codes is skipped over. *)
Definition skipping {A} (codes : list StatusCode.t) (m : Res A) : Res (option A) :=
  match m with
  | Ret x => Ret (Some x)
  | Fail e => if bool_decide (code e ∈ codes) then Ret None else Fail e
  | Panic w => Panic w
  end.
Definition unfoldable : list StatusCode.t := [StatusCode.kUnimplemented; StatusCode.kOverflow].

(** [std::get_if<ConstantValue>(&payload)] with its inline bytes. *)
Definition inline_bytes (p : GraphValuePayload) : option (list Z) := match p with ConstantValue b => inline_data b | _ => None end.

(* @src src/graph/optimization/constant_folding_pass.cpp:42-57 HasInlineConstantBytes *)
Definition HasInlineConstantBytes (d : GraphValueDesc) : Res bool :=
  match inline_bytes (vd_payload d) with
  | None => Ret false
  | Some bytes =>
      expected ← skipping unfoldable (CountBytes (vd_spec d));
      Ret (match expected with Some n => zlen bytes =? n | None => false end)
  end.

(* @src src/graph/optimization/constant_folding_pass.cpp:62-71 AllInputsAreInlineConstantValues *)
Definition AllInputsAreInlineConstantValues (inputs : list GraphValueDesc) : Res bool := all_hold (HasInlineConstantBytes <$> inputs).

(** The total of the planned sizes; [None] when it overflows. *)
(* @src src/graph/optimization/constant_folding_pass.cpp:234-242 ConstantFoldingPass::Run (total) *)
Fixpoint total_bytes (outs : list PlannedConstOutput) (total : Z) : option Z :=
  match outs with
  | [] => Some total
  | o :: outs' => if UINT64_MAX - total <? po_nbytes o then None else total_bytes outs' (total + po_nbytes o)
  end.

(** Specs equal as [!=] compares them: data type first. *)
Definition specs_differ (a b : TensorSpec) : Res bool :=
  e ← DataType.equal (dtype a) (dtype b); Ret (negb e || bool_decide (shape a <> shape b)).

Section Folding.
Context {FA : FloatArith} {VD : VectorData} {OS : OperatorSemantics}.

(* @src src/graph/optimization/constant_folding_pass.cpp:77-105 BuildInputViews *)
Definition BuildInputViews (inputs : list GraphValueDesc) : Res (list ConstView) :=
  res_mapi (fun _ d =>
    match inline_bytes (vd_payload d) with
    | None => Fail (InvalidArgument "constant folding input lacks inline constant data")
    | Some bytes =>
        shape ← ExtractStaticShape (vd_spec d);
        strides ← MakeContiguousStrides shape;
        v ← make_view (vector_data bytes) (dtype (vd_spec d)) shape strides 0;
        Ret (mkConstView v bytes)
    end) 0 inputs.

(** The buffers start as zero bytes. *)
(* @src src/graph/optimization/constant_folding_pass.cpp:111-153 AllocateOutputViews *)
Definition AllocateOutputViews (plan : ConstEvalPlan) : Res (list ConstView) :=
  res_mapi (fun _ o =>
    shape ← ExtractStaticShape (po_spec o);
    expected ← CountBytes (po_spec o);
    _ ← reject_if (negb (po_nbytes o =? expected)) (Internal "constant folding plan output byte size does not match spec");
    strides ← match po_strides o with [] => MakeContiguousStrides shape | l => Ret l end;
    _ ← reject_if (negb (length strides =? length shape)%nat) (Internal "constant folding plan output strides rank mismatch");
    let bytes := replicate (Z.to_nat (po_nbytes o)) 0 in
    v ← make_view (vector_data bytes) (dtype (po_spec o)) shape strides 0;
    Ret (mkConstView v bytes)) 0 (plan_outputs plan).

(** What the pass computes for one node before it changes the session: [None] when the
    node is skipped, otherwise the outputs to replace, their plans and their bytes. *)
(* @src src/graph/optimization/constant_folding_pass.cpp:169-278 ConstantFoldingPass::Run (evaluation of a node) *)
Definition evaluate_node (s : Session) (ctx : PassContext) (id : nat) : Res (option (list (nat * (PlannedConstOutput * list Z)))) :=
  match GetNodeView s id with
  | Panic w => Panic w
  | Fail _ => Ret None
  | Ret node =>
      schema ← skipping [StatusCode.kNotFound] (GetOperatorSchema (view_op_type node));
      match schema, FindConstEvaluator (view_op_type node) with
      | None, _ => Ret None
      | Some schema, evaluator =>
          if negb (IsCompileTimeEvaluable schema) then Ret None
          else match evaluator with
          | None => Ret None
          | Some evaluator =>
              input_descs ← CollectValueDescs s (view_inputs node);
              all_inputs_inline ← AllInputsAreInlineConstantValues input_descs;
              if negb all_inputs_inline then Ret None
              else
                output_descs ← CollectValueDescs s (view_outputs node);
                plan ← skipping unfoldable (Plan evaluator input_descs output_descs (view_op_params node));
                match plan with
                | None => Ret None
                | Some plan =>
                    _ ← reject_if (negb (length (plan_outputs plan) =? length (view_outputs node))%nat) (Internal "constant folding plan output count mismatch");
                    _ ← res_mapi (fun _ x => differ ← specs_differ (po_spec x.1) (vd_spec x.2);
                                             reject_if differ (Internal "constant folding plan output spec mismatch")) 0 (zip (plan_outputs plan) output_descs);
                    match total_bytes (plan_outputs plan) 0 with
                    | None => Ret None
                    | Some total =>
                        _ ← reject_if (negb (output_bytes (plan_cost plan) =? total)) (Internal "constant folding plan cost output byte size mismatch");
                        budget ← skipping [StatusCode.kUnimplemented] (CheckFoldingBudget (plan_cost plan) (const_eval_policy ctx));
                        match budget with
                        | None => Ret None
                        | Some _ =>
                            input_views ← BuildInputViews input_descs;
                            output_storage ← AllocateOutputViews plan;
                            folded ← skipping unfoldable (Evaluate evaluator input_views output_storage (view_op_params node));
                            Ret (buffers ← folded; Some (zip (view_outputs node) (zip (plan_outputs plan) buffers)))
                        end
                    end
                end
          end
      end
  end.

(* @src src/graph/optimization/constant_folding_pass.cpp:282-293 ConstantFoldingPass::Run (replacement) *)
Fixpoint replace_outputs (s : Session) (outs : list (nat * (PlannedConstOutput * list Z))) : Res unit * Session :=
  match outs with
  | [] => (Ret tt, s)
  | (v, (plan_output, bytes)) :: outs' =>
      match AddSessionConstant s (po_spec plan_output) (mkConstantBinding (Some bytes) (po_name plan_output)) (po_quantization plan_output) (po_name plan_output) with
      | (Ret folded, s1) =>
          match ReplaceValue s1 v folded with
          | (Ret _, s2) => replace_outputs s2 outs'
          | r => r
          end
      | (Fail e, s1) => (Fail e, s1)
      | (Panic w, s1) => (Panic w, s1)
      end
  end.

(* @src src/graph/optimization/constant_folding_pass.cpp:168-294 ConstantFoldingPass::Run (loop) *)
Fixpoint fold_nodes (order : list nat) (s : Session) (ctx : PassContext) : Res unit * Session :=
  match order with
  | [] => (Ret tt, s)
  | id :: order' =>
      match evaluate_node s ctx id with
      | Fail e => (Fail e, s)
      | Panic w => (Panic w, s)
      | Ret None => fold_nodes order' s ctx
      | Ret (Some outs) =>
          match replace_outputs s outs with
          | (Ret _, s') => fold_nodes order' s' ctx
          | r => r
          end
      end
  end.

(* @src src/graph/optimization/constant_folding_pass.cpp:161-296 ConstantFoldingPass::Run *)
Definition RunConstantFolding (s : Session) (ctx : PassContext) : Res unit * Session :=
  if enable_constant_folding ctx then
    match GetTopologicalOrder s with
    | Ret order => fold_nodes order s ctx
    | Fail e => (Fail e, s)
    | Panic w => (Panic w, s)
    end
  else (Ret tt, s).

(* @src src/graph/optimization/constant_folding_pass.cpp:157-159 ConstantFoldingPass *)
Definition ConstantFoldingPass : GraphPass := mkPass "ConstantFoldingPass" RunConstantFolding.

(** ** The compiler *)

(* @src src/graph/compilation/graph_compiler.cpp:14-31 BuildDefaultOptPipeline *)
Definition BuildDefaultOptPipeline (ctx : PassContext) : Res GraphPassManager :=
  let pipeline := mkManager [] ctx in
  AddSequential pipeline (Some <$>
    (if opt_level ctx =? 0 then []
     else if opt_level ctx =? 1 then [ConstantFoldingPass; DeadCodeEliminationPass]
     else [ConstantFoldingPass; SiluMulFusionPass; DeadCodeEliminationPass])).

(* @src src/graph/compilation/graph_compiler.cpp:35-39 OptimizeModelGraph *)
Definition OptimizeModelGraph (g : ModelGraph) (ctx : PassContext) : Res ModelGraph :=
  pipeline ← BuildDefaultOptPipeline ctx; RunPipeline pipeline g.

(* @src include/aethermind/graph/compilation/graph_compiler.h:18-21 GraphCompileConfig *)
Record GraphCompileConfig := mkCompileConfig { optimization : PassContext; lowering : GraphLoweringConfig }.
(* @src include/aethermind/graph/compilation/graph_compiler.h:28-31 CompiledModelGraph *)
Record CompiledModelGraph := mkCompiled { optimized_graph : ModelGraph; compiled_lowered : LoweredGraph }.

(* @src src/graph/compilation/graph_compiler.cpp:41-57 CompileModelGraph *)
Definition CompileModelGraph (g : ModelGraph) (config : GraphCompileConfig) : Res CompiledModelGraph :=
  optimized ← OptimizeModelGraph g (optimization config);
  l ← LowerModelGraph optimized (lowering config);
  Ret (mkCompiled optimized l).
End Folding.

(** ** The pass works through the session *)

Section Edits.
Context {FA : FloatArith} {VD : VectorData} {OS : OperatorSemantics}.

Lemma replace_outputs_edits outs : forall s, rtc session_step s (replace_outputs s outs).2.
Proof.
  induction outs as [|[v [p bytes]] outs IH]; intros s; [done|]. cbn [replace_outputs].
  pose proof (step_add_constant s (po_spec p) (mkConstantBinding (Some bytes) (po_name p)) (po_quantization p) (po_name p)) as H1.
  destruct (AddSessionConstant _ _ _ _ _) as [[folded|e|w] s1]; simpl in H1; [|by apply rtc_once..].
  pose proof (edit_once s1 (ValueReplacement v folded)) as H2. simpl in H2.
  eapply rtc_l; [exact H1|]. destruct (ReplaceValue s1 v folded) as [[[]|e|w] s2]; simpl in H2; [|done..]. etransitivity; [exact H2|apply IH].
Qed.
Lemma fold_nodes_edits ctx order : forall s, rtc session_step s (fold_nodes order s ctx).2.
Proof.
  induction order as [|id order IH]; intros s; [done|]. cbn [fold_nodes]. destruct (evaluate_node s ctx id) as [[outs|]|e|w]; [|apply IH|done..].
  pose proof (replace_outputs_edits outs s) as H. destruct (replace_outputs s outs) as [[[]|e|w] s1]; simpl in H; [|done..]. etransitivity; [exact H|apply IH].
Qed.
Lemma folding_edits_session : edits_session ConstantFoldingPass.
Proof.
  intros s ctx. simpl. unfold RunConstantFolding. destruct (enable_constant_folding ctx); [|done].
  destruct (GetTopologicalOrder s); [apply fold_nodes_edits|done..].
Qed.

(** ** Compilation *)

Lemma default_pipeline_edits ctx m : BuildDefaultOptPipeline ctx = Ret m -> Forall edits_session (passes_ m) /\ ctx_ m = ctx.
Proof.
  unfold BuildDefaultOptPipeline. pose proof folding_edits_session. pose proof dce_edits_session. pose proof fusion_edits_session.
  destruct (opt_level ctx =? 0); [|destruct (opt_level ctx =? 1)]; intros [= <-]; (split; [repeat constructor; done|done]).
Qed.
Lemma default_pipeline_built ctx : exists m, BuildDefaultOptPipeline ctx = Ret m.
Proof. unfold BuildDefaultOptPipeline. destruct (opt_level ctx =? 0); [|destruct (opt_level ctx =? 1)]; eauto. Qed.

(** C21: Compilation, end to end and for every optimization level. Compiling fails exactly
    when optimizing fails, with the same status: a graph the pipeline returns is always
    lowered. On success the source graph validated, the optimized graph is reached from it
    through valid committed snapshots, and the lowered graph is the faithful lowering of
    the optimized graph along a schedule in which producers precede consumers. *)
Theorem CompileModelGraph_exact g config :
  match OptimizeModelGraph g (optimization config) with
  | Ret g' => Validate g = Ret tt /\ Validate g' = Ret tt /\ rtc stage g g' /\
      exists order l, schedule g' order /\ lowered_as g' (lowering config) order l /\ CompileModelGraph g config = Ret (mkCompiled g' l)
  | Fail e => CompileModelGraph g config = Fail e
  | Panic w => CompileModelGraph g config = Panic w
  end.
Proof.
  unfold CompileModelGraph. destruct (OptimizeModelGraph g (optimization config)) as [g'|e|w] eqn:E; [|done..]. cbn [mbind res_mbind res_bind].
  unfold OptimizeModelGraph in E. destruct (default_pipeline_built (optimization config)) as [m Em]. rewrite Em in E. cbn [mbind res_mbind res_bind] in E.
  destruct (RunPipeline_stages m g g') as (_ & _ & H). destruct (H (proj1 (default_pipeline_edits _ _ Em)) E) as (HV & HV' & Hst). split_and!; [done..|].
  pose proof (LowerModelGraph_outcome g' (lowering config)) as Ho. unfold Validate in HV'. destruct (ValidateAndTopologicalOrder g') as [order|e|w]; [|discriminate..].
  destruct Ho as (Hs & _ & l & -> & Hl). exists order, l. done.
Qed.
End Edits.

(** ** Dense layouts and element types *)

Lemma res_mapi_Forall2_inv {A B} (f : A -> Res B) l : forall i r, res_mapi (fun _ => f) i l = Ret r -> Forall2 (fun a b => f a = Ret b) l r.
Proof. induction l as [|a l IH]; intros i r H; cbn [res_mapi] in H; res_inv; [constructor|]. constructor; [done|by eapply IH]. Qed.

(** Each stride is the number of elements of the inner axes. *)
Fixpoint dense (shape strides : list Z) : Prop :=
  match shape, strides with
  | [], [] => True
  | _ :: shape', s :: strides' => s = product shape' /\ dense shape' strides'
  | _, _ => False
  end.
Lemma MakeContiguousStrides_dense shape : forall strides, MakeContiguousStrides shape = Ret strides -> dense shape strides.
Proof.
  induction shape as [|d shape IH]; intros strides H; cbn [MakeContiguousStrides] in H; [by injection H as <-|]. res_inv. specialize (IH _ Hm).
  destruct shape as [|d' shape], a as [|s a]; try done; [by injection H as <-|]. destruct IH as [-> Hd]. unfold CheckOverflowMul in H. res_inv. bsplit.
  cbn [dense]. split_and!; [rewrite Hm0; cbn; lia|done..].
Qed.
Lemma dense_row_major shape : forall strides idx, dense shape strides -> in_shape idx shape -> dot idx strides = row_major idx shape.
Proof.
  induction shape as [|d shape IH]; intros [|s strides] idx Hd Hin; try done; inversion Hin; subst; [done|]. destruct Hd as [-> Hd]. cbn. by rewrite (IH strides).
Qed.

Definition spec_typed (t : ScalarType) (sp : TensorSpec) : Prop := DataType.equal (dtype sp) (scalar_dtype t) = Ret true.

(** A data type is that of at most one element type. *)
Lemma scalar_dtype_unique d t t' : DataType.equal d (scalar_dtype t) = Ret true -> DataType.equal d (scalar_dtype t') = Ret true -> t = t'.
Proof.
  assert (forall t, DataType.equal d (scalar_dtype t) = Ret true -> DataType.dcode d = DataType.dcode (scalar_dtype t) /\ DataType.bits d = DataType.bits (scalar_dtype t)) as H.
  { intros u E. unfold DataType.equal, DLDataTypeCode.eqb in E. rewrite (bool_decide_eq_false_2 (DataType.dcode (scalar_dtype u) = _)) in E by (by destruct u).
    destruct (decide (DataType.dcode d = DLDataTypeCode.Undefined)) as [Eu|Eu].
    - rewrite (bool_decide_eq_true_2 _ Eu) in E. cbn [orb] in E. injection E as E. bsplit. rewrite Eu in E. by destruct u.
    - rewrite (bool_decide_eq_false_2 _ Eu) in E. cbn [orb] in E. destruct (_ && _) eqn:E2 in E; [|discriminate]. by bsplit. }
  intros H1 H2. destruct (H t H1) as [A1 A2], (H t' H2) as [B1 B2]. rewrite A1 in B1. rewrite A2 in B2. by destruct t, t'.
Qed.

(** ** What the values of a graph are *)

Section Sound.
Context {FA : FloatArith} {VD : VectorData} {OS : OperatorSemantics}.

(** The bytes hold the elements [f] in row-major order. *)
Definition holds (t : ScalarType) (shape bytes : list Z) (f : list Z -> Z) : Prop :=
  forall idx, in_shape idx shape -> load (scalar_size t) bytes (row_major idx shape) = Ret (f idx).

(** An evaluation of a graph: an element for every value and index, such that inline
    constants have the elements their bytes hold and the result of an evaluable operator has
    the elements its scalar function gives for the operands selected by broadcasting. *)
Record evaluation (g : ModelGraph) (rho : nat -> list Z -> Z) : Prop := {
  ev_constant v x bytes t shape : values_ g !! v = Some x -> inline_bytes (payload x) = Some bytes -> CountBytes (spec x) = Ret (zlen bytes) ->
    ExtractStaticShape (spec x) = Ret shape -> spec_typed t (spec x) -> holds t shape bytes (rho v);
  ev_node n node out x t shape shapes idx y : nodes_ g !! n = Some node -> node_outputs node = [out] -> values_ g !! out = Some x ->
    ExtractStaticShape (spec x) = Ret shape -> spec_typed t (spec x) ->
    Forall2 (fun v shp => exists z, values_ g !! v = Some z /\ ExtractStaticShape (spec z) = Ret shp) (node_inputs node) shapes ->
    in_shape idx shape ->
    scalar_result (op_type node) t (zip_with (fun v shp => rho v (source_index shp (drop (length shape - length shp) idx))) (node_inputs node) shapes) = Ret y ->
    rho out idx = y }.

(** Every dimension is an [int64_t]. *)
Definition dims_in_range (g : ModelGraph) : Prop := forall v x shape, values_ g !! v = Some x -> ExtractStaticShape (spec x) = Ret shape -> Forall (in_i 64) shape.

Context (g : ModelGraph) (rho : nat -> list Z -> Z) (Hg : graph_valid g) (Hrange : dims_in_range g) (Hev : evaluation g rho).

(** A value with its elements under the evaluation. *)
Definition value_holds (v : nat) (x : GraphValue) (bytes : list Z) : Prop :=
  forall t shape, ExtractStaticShape (spec x) = Ret shape -> spec_typed t (spec x) -> holds t shape bytes (rho v).

(** What the pass maintains: replaced values stand for constants with their elements. *)
Record folded (s : Session) : Prop := {
  fo_ok : session_ok s;
  fo_graph : graph_ s = g;
  fo_nodes : node_to_rewrite_ s = replicate (length (nodes_ g)) None;
  fo_repl v w : value_replacements_ s !! v = Some (Some w) -> (length (values_ g) <= w)%nat /\
    exists x c bytes, values_ g !! v = Some x /\ constant_at s w = Ret c /\ sc_spec c = spec x /\ inline_data (sc_binding c) = Some bytes /\ value_holds v x bytes }.

Lemma new_session_folded : folded (new_session g).
Proof using.
  constructor; [apply new_session_ok|done..|]. intros v w H. apply lookup_replicate in H as [H _]. discriminate.
Qed.

Lemma folded_resolved s v : folded s -> resolved s v = match mjoin (value_replacements_ s !! v) with Some w => w | None => v end.
Proof using.
  intros Hf. apply resolved_unique; [apply Hf|]. destruct (mjoin _) as [w|] eqn:E; [|by exists 0%nat; constructor].
  destruct (fo_repl s Hf v w (proj1 (mjoin_link _ _ _) E)) as [Hw _]. exists 1%nat. econstructor; [exact E|]. constructor.
  rewrite lookup_ge_None_2; [done|]. rewrite (ro_repl_len s (so_resolve s (fo_ok s Hf))). unfold value_count. by rewrite (fo_graph s Hf).
Qed.

(** The description the pass reads for an input of a node is that of the value, and its
    inline bytes, when they have the right size, hold its elements. *)
Lemma described s v x d : folded s -> values_ g !! v = Some x -> GetValueOutputMetadata s (resolved s v) = Ret d ->
  vd_spec d = spec x /\ forall bytes, inline_bytes (vd_payload d) = Some bytes -> CountBytes (spec x) = Ret (zlen bytes) -> value_holds v x bytes.
Proof using Hev.
  intros Hf Hx H. rewrite (folded_resolved s v Hf) in H. pose proof (fo_graph s Hf) as Eg. unfold GetValueOutputMetadata in H. res_inv.
  destruct (mjoin (value_replacements_ s !! v)) as [w|] eqn:E.
  - apply mjoin_link in E. destruct (fo_repl s Hf v w E) as (Hw & x' & c & bytes & Hx' & Hc & Hs & Hb & Hh). rewrite Hx in Hx'. injection Hx' as <-.
    assert (IsSessionConstant s w = true) as Hk.
    { unfold IsSessionConstant, ClassifyValue. unfold constant_at in Hc. unfold value_count. rewrite Eg, (proj2 (Nat.ltb_ge _ _) Hw). apply bool_decide_eq_true.
      res_inv. unfold vec_at in Hm0. destruct (session_value_metadata_ s !! _) as [[|]|]; try done; injection Hm0 as <-; done. }
    rewrite Hk in H. unfold MakeOutputDescFromSessionConstant in H. rewrite Hc in H. injection H as <-. cbn [vd_spec vd_payload inline_bytes]. split; [done|].
    rewrite Hb. by intros ? [= <-] _.
  - assert (IsSessionConstant s v = false) as Hk.
    { unfold IsSessionConstant, ClassifyValue, value_count. rewrite Eg, (proj2 (Nat.ltb_lt _ _)); [done|]. by eapply lookup_lt_Some. }
    rewrite Hk in H. unfold GetValue in H. rewrite Eg, Hx in H. injection H as <-. cbn [vd_spec vd_payload]. split; [done|].
    intros bytes Hb Hn t shape Hsh Ht. by eapply (ev_constant g rho Hev).
Qed.

Lemma folded_view s n view : folded s -> GetNodeView s n = Ret view -> exists node, nodes_ g !! n = Some node /\ view_op_type view = op_type node /\
  view_op_params view = op_params node /\ view_outputs view = node_outputs node /\ view_inputs view = resolved s <$> node_inputs node.
Proof using.
  intros Hf H. unfold GetNodeView, CheckSourceNodeId, GetNode, mirror_of in H. rewrite (fo_graph s Hf), (fo_nodes s Hf) in H. res_inv. bsplit.
  destruct (nodes_ g !! n) as [node|] eqn:En; [|discriminate]. injection Hm0 as <-. rewrite lookup_replicate_2 in Hm2 by (by eapply lookup_lt_Some). cbn in Hm2. injection Hm2 as <-.
  exists node. done.
Qed.

(** ** One node *)

(** A plan has one output, with the spec of the value it replaces. *)
Lemma Plan_spec o ev ins outs params plan : FindConstEvaluator o = Some ev -> Plan ev ins outs params = Ret plan ->
  exists d po, outs = [d] /\ plan_outputs plan = [po] /\ po_spec po = vd_spec d.
Proof using.
  assert (forall d shape ops p, dense_plan d shape ops = Ret p -> exists po, plan_outputs p = [po] /\ po_spec po = vd_spec d) as Hd.
  { intros d shape ops p H. unfold dense_plan in H. res_inv. eexists. done. }
  intros Hf H. destruct o; try discriminate; injection Hf as <-; cbn [Plan] in H; unfold PlanAdd, PlanMul, PlanSilu, PlanSiluMul in H;
    destruct ins as [|? [|? [|]]], outs as [|d [|]], params; try discriminate; res_inv; destruct (Hd _ _ _ _ H) as (po & ? & ?); by exists d, po.
Qed.

(** The view of a described constant, as the pass builds it. *)
Definition input_view (d : GraphValueDesc) (v : ConstView) : Prop :=
  inline_bytes (vd_payload d) = Some (cv_bytes v) /\ ExtractStaticShape (vd_spec d) = Ret (cv_shape v) /\ dense (cv_shape v) (cv_strides v) /\ cv_dtype v = dtype (vd_spec d).

Lemma make_view_ret data d shape strides align v : make_view data d shape strides align = Ret v -> v = mkTensorView data d shape strides align.
Proof using. unfold make_view. intros H. by res_inv. Qed.

Lemma BuildInputViews_spec ds vs : BuildInputViews ds = Ret vs -> Forall2 input_view ds vs.
Proof using.
  intros H. apply res_mapi_Forall2_inv in H. eapply Forall2_impl; [exact H|]. intros d v E. cbv beta in E. unfold input_view.
  destruct (inline_bytes (vd_payload d)) as [bytes|]; [|discriminate]. res_inv. apply make_view_ret in Hm1 as ->.
  split_and!; [done|done|by apply MakeContiguousStrides_dense|done].
Qed.
Lemma AllInputs_spec ds : AllInputsAreInlineConstantValues ds = Ret true ->
  Forall (fun d => forall bytes, inline_bytes (vd_payload d) = Some bytes -> CountBytes (vd_spec d) = Ret (zlen bytes)) ds.
Proof using.
  intros H. apply all_hold_ret in H. rewrite Forall_fmap in H. eapply Forall_impl; [exact H|]. intros d E bytes Hb. cbn in E. unfold HasInlineConstantBytes in E. rewrite Hb in E.
  res_inv. destruct a as [n|]; [|discriminate]. bsplit. subst n. unfold skipping in Hm. destruct (CountBytes (vd_spec d)); [congruence| |discriminate]. by destruct (bool_decide _).
Qed.

(** What the evaluation of a node established. *)
Definition node_run (s : Session) (id : nat) (out : nat) (po : PlannedConstOutput) (bytes : list Z) : Prop :=
  exists node x idescs ivs ov, nodes_ g !! id = Some node /\ node_outputs node = [out] /\ values_ g !! out = Some x /\ po_spec po = spec x /\
    CollectValueDescs s (resolved s <$> node_inputs node) = Ret idescs /\ AllInputsAreInlineConstantValues idescs = Ret true /\
    Forall2 input_view idescs ivs /\ ExtractStaticShape (spec x) = Ret (cv_shape ov) /\ cv_dtype ov = dtype (spec x) /\ evaluated (op_type node) ivs [ov] [bytes].

Lemma skipping_some {A} codes (m : Res A) x : skipping codes m = Ret (Some x) -> m = Ret x.
Proof using. unfold skipping. destruct m as [y|e|w]; [by intros [= <-]|by destruct (bool_decide _)|done]. Qed.

Lemma source_metadata s v x d : folded s -> values_ g !! v = Some x -> GetValueOutputMetadata s v = Ret d -> vd_spec d = spec x.
Proof using.
  intros Hf Hx H. pose proof (fo_graph s Hf) as Eg. unfold GetValueOutputMetadata in H. res_inv.
  assert (IsSessionConstant s v = false) as Hk.
  { unfold IsSessionConstant, ClassifyValue, value_count. rewrite Eg, (proj2 (Nat.ltb_lt _ _)); [done|]. by eapply lookup_lt_Some. }
  rewrite Hk in H. unfold GetValue in H. rewrite Eg, Hx in H. by injection H as <-.
Qed.

Lemma evaluate_node_run s ctx id outs : folded s -> evaluate_node s ctx id = Ret (Some outs) ->
  exists out po bytes, outs = [(out, (po, bytes))] /\ node_run s id out po bytes.
Proof using Hg Hrange.
  intros Hf H. unfold evaluate_node in H. destruct (GetNodeView s id) as [view|e|w] eqn:Ev; [|discriminate..].
  destruct (folded_view s id view Hf Ev) as (node & Hn & Eop & Ep & Eo & Ei).
  apply res_bind_ret_inv in H as ([schema|] & _ & H); [|discriminate]. destruct (negb (IsCompileTimeEvaluable schema)); [discriminate|].
  destruct (FindConstEvaluator (view_op_type view)) as [ev|] eqn:Ef; [|discriminate].
  apply res_bind_ret_inv in H as (ids & Hids & H). apply res_bind_ret_inv in H as (all & Hall & H). destruct all; [|discriminate]. cbn [negb] in H.
  apply res_bind_ret_inv in H as (ods & Hods & H). apply res_bind_ret_inv in H as ([plan|] & Hplan & H); [|discriminate]. apply skipping_some in Hplan.
  apply res_bind_ret_inv in H as (? & Hlen & H). apply res_bind_ret_inv in H as (? & _ & H). destruct (total_bytes _ _); [|discriminate].
  apply res_bind_ret_inv in H as (? & _ & H). apply res_bind_ret_inv in H as ([[]|] & _ & H); [|discriminate].
  apply res_bind_ret_inv in H as (ivs & Hivs & H). apply res_bind_ret_inv in H as (ovs & Hovs & H). apply res_bind_ret_inv in H as ([bs|] & Hbs & H); [|discriminate].
  apply skipping_some in Hbs. injection H as <-. destruct (Plan_spec _ _ _ _ _ _ Ef Hplan) as (d & po & -> & Epo & Hpo). rewrite Epo in Hlen. res_inv. bsplit.
  rewrite Eo in *. destruct (node_outputs node) as [|out [|]] eqn:Eout; try discriminate.
  destruct (valid_output g id node out Hg Hn) as (x & Hx & _); [rewrite Eout; left|].
  apply res_mapi_Forall2_inv in Hods. apply Forall2_cons_1 in Hods as [Hd _]. pose proof (source_metadata s out x d Hf Hx Hd) as Hspec.
  unfold AllocateOutputViews in Hovs. rewrite Epo in Hovs. apply res_mapi_Forall2_inv in Hovs. apply Forall2_cons_inv_l in Hovs as (ov & ? & Hov & Hnil & ->). apply Forall2_nil_inv_l in Hnil as ->.
  assert (ExtractStaticShape (spec x) = Ret (cv_shape ov) /\ cv_dtype ov = dtype (spec x)) as [Hsh Hdt].
  { cbv beta in Hov. rewrite Hpo, Hspec in Hov. res_inv. match goal with H : make_view _ _ _ _ _ = _ |- _ => by apply make_view_ret in H as -> end. }
  destruct (Evaluate_evaluated _ _ ivs [ov] (view_op_params view) bs Ef) as (ov' & t & bytes & [= <-] & -> & Ht & Hsel & Hc); [|done|].
  { constructor; [|constructor]. by eapply Hrange. }
  exists out, po, bytes. rewrite Epo. split; [done|]. exists node, x, ids, ivs, ov. rewrite <- Ei, <- Eop. split_and!; try done; [congruence|by apply BuildInputViews_spec|].
  by exists ov, t, bytes.
Qed.

(** The constant computed for a node holds the elements of its output. *)
Lemma node_run_holds s id out po bytes : folded s -> node_run s id out po bytes ->
  exists x, values_ g !! out = Some x /\ po_spec po = spec x /\ value_holds out x bytes.
Proof using Hg Hev.
  intros Hf (node & x & ids & ivs & ov & Hn & Eout & Hx & Hpo & Hids & Hall & Hviews & Hsh & Hdt & ov' & t & bytes' & [= <-] & [= <-] & Hty & Hsel & _ & Hel).
  exists x. split; [done|]. split; [done|]. apply Forall_cons in Hty as [Hto Hti].
  intros t' shape Hshape Ht'. rewrite Hsh in Hshape. injection Hshape as <-. unfold typed in Hto. rewrite Hdt in Hto. rewrite (scalar_dtype_unique _ _ _ Ht' Hto). clear t' Ht'.
  assert (Forall2 (fun v w => exists z, values_ g !! v = Some z /\ ExtractStaticShape (spec z) = Ret (cv_shape w) /\ dense (cv_shape w) (cv_strides w) /\
    holds t (cv_shape w) (cv_bytes w) (rho v)) (node_inputs node) ivs) as Hins.
  { apply res_mapi_Forall2_inv in Hids. apply Forall2_fmap_l in Hids. apply AllInputs_spec in Hall. apply Forall2_same_length_lookup_2.
    - apply Forall2_length in Hids, Hviews. lia.
    - intros i v w Hv Hw. destruct (valid_input g id node v Hg Hn) as [z Hz]; [by eapply list_elem_of_lookup_2|]. exists z.
      destruct (Forall2_lookup_l _ _ _ _ _ Hids Hv) as (d & Hd & Ed). pose proof (Forall2_lookup_lr _ _ _ _ _ _ Hviews Hd Hw) as (V1 & V2 & V3 & V4).
      destruct (described s v z d Hf Hz Ed) as [Es Hh]. rewrite Es in V2, V4. split_and!; [done..|]. apply (Hh (cv_bytes w) V1); [|done|].
      + rewrite <- Es. by apply (Forall_lookup_1 _ _ _ _ Hall Hd).
      + unfold spec_typed. rewrite <- V4. by apply (Forall_lookup_1 _ _ _ _ Hti Hw). }
  intros idx Hidx. destruct (Hel idx Hidx) as (y & Ey & ->). f_equal. symmetry. eapply (ev_node g rho Hev id node out x t (cv_shape ov) (cv_shape <$> ivs) idx y); try done.
  - apply Forall2_fmap_r. eapply Forall2_impl; [exact Hins|]. intros v w (z & ? & ? & _). eauto.
  - unfold element_at in Ey. res_inv. rewrite <- Ey. f_equal. apply res_mapi_Forall2_inv in Hm. clear -Hins Hsel Hm Hidx. revert a Hm Hsel.
    induction Hins as [|v w vs ws (z & _ & _ & Hd & Hh) _ IH]; intros xs Hm Hsel; [by apply Forall2_nil_inv_l in Hm as ->|].
    apply Forall2_cons_inv_l in Hm as (e & xs' & He & Hm & ->). apply Forall_cons in Hsel as [Hs Hsel]. cbn [fmap list_fmap zip_with]. f_equal; [|by apply IH].
    unfold source_offset in He. rewrite (dense_row_major _ _ _ Hd (Hs idx Hidx)), (Hh _ (Hs idx Hidx)) in He. by injection He.
Qed.

(** ** The loop *)

Lemma replace_outputs_folded s out po bytes x : folded s -> values_ g !! out = Some x -> po_spec po = spec x -> value_holds out x bytes ->
  folded (replace_outputs s [(out, (po, bytes))]).2.
Proof using.
  intros Hf Hx Hpo Hh. cbn [replace_outputs]. set (c := mkSessionConstant (po_spec po) (mkConstantBinding (Some bytes) (po_name po)) (po_quantization po) (po_name po)).
  unfold AddSessionConstant. fold c. pose proof (append_metadata_ok s (Some c) "Graph session constant value id space exhausted" (fo_ok s Hf)) as Hok1.
  unfold append_metadata in *. destruct (_ <? _); [|done]. cbn [snd] in Hok1. set (s1 := InvalidateConsumerCache _) in *. set (id := next_value_index s).
  assert (folded s1) as Hf1.
  { constructor; [done|apply Hf..|]. intros v w H. destruct (fo_repl s Hf v w H) as (Hw & x' & c' & b' & ? & Hc & ?). split; [done|]. exists x', c', b'. split; [done|]. split; [|done].
    unfold constant_at, vec_at in Hc |- *. change (session_value_metadata_ s1) with (session_value_metadata_ s ++ [Some c]). change (GetSessionValueIndex s1 w) with (GetSessionValueIndex s w).
    destruct (session_value_metadata_ s !! _) as [m|] eqn:E; [|discriminate]. by rewrite (lookup_app_l_Some _ _ _ _ E). }
  assert (constant_at s1 id = Ret c) as Hid.
  { unfold constant_at, vec_at. change (session_value_metadata_ s1) with (session_value_metadata_ s ++ [Some c]).
    replace (GetSessionValueIndex s1 id) with (length (session_value_metadata_ s)) by (unfold GetSessionValueIndex, id, next_value_index; change (value_count s1) with (value_count s); lia).
    by rewrite lookup_app_r, Nat.sub_diag by lia. }
  pose proof (ReplaceValue_session_ok s1 out id Hok1) as Hok2. destruct (ReplaceValue_cases s1 out id (so_resolve s1 Hok1)) as [(s2 & E & Hr)|(e & E & _)]; rewrite E in *; [|done].
  cbn [snd] in *. inversion Hr as [|Hne Ho _ _]; subst s2; [done|]. constructor; [done|apply Hf1..|]. intros v w H. cbn in H. destruct (decide (v = out)) as [->|Hv].
  - rewrite list_lookup_insert_eq in H by (pose proof (ro_repl_len s1 (so_resolve s1 Hok1)) as Hl; cbn in Hl; cbn; rewrite Hl; exact Ho). injection H as <-.
    split; [unfold id, next_value_index, value_count; rewrite (fo_graph s Hf); lia|]. exists x, c, bytes. split_and!; done.
  - rewrite list_lookup_insert_ne in H by done. exact (fo_repl s1 Hf1 v w H).
Qed.

Lemma fold_nodes_folded ctx order : forall s, folded s -> folded (fold_nodes order s ctx).2.
Proof using Hg Hrange Hev.
  induction order as [|id order IH]; intros s Hf; [done|]. cbn [fold_nodes]. destruct (evaluate_node s ctx id) as [[outs|]|e|w] eqn:E; [|by apply IH|done..].
  destruct (evaluate_node_run s ctx id outs Hf E) as (out & po & bytes & -> & Hrun). destruct (node_run_holds s id out po bytes Hf Hrun) as (x & Hx & Hpo & Hh).
  pose proof (replace_outputs_folded s out po bytes x Hf Hx Hpo Hh) as Hf'. destruct (replace_outputs _ _) as [[[]|e|w] s']; [by apply IH|done..].
Qed.
End Sound.

(** C6: Constant folding is sound. Take any evaluation of a valid graph: elements for all
    its values that agree with the bytes of the inline constants and with the operators.
    After the pass, whether it succeeded or stopped at an error, every value of the graph is
    either left alone or replaced by a constant with the same spec whose bytes are exactly
    the elements the evaluation gives that value; in particular constants folded from
    constants folded before are right, in whatever order the nodes were visited. *)
Theorem constant_folding_sound `{FA : FloatArith} `{VD : VectorData} `{OS : OperatorSemantics} g ctx rho v x :
  Validate g = Ret tt -> dims_in_range g -> evaluation g rho -> values_ g !! v = Some x ->
  let s := (RunConstantFolding (new_session g) ctx).2 in
  resolved s v = v \/
  exists c bytes, constant_at s (resolved s v) = Ret c /\ sc_spec c = spec x /\ inline_data (sc_binding c) = Some bytes /\
    forall t shape, ExtractStaticShape (spec x) = Ret shape -> spec_typed t (spec x) -> holds t shape bytes (rho v).
Proof.
  intros HV Hr He Hx s. destruct (Validate_ret _ _ HV) as [Hg _]. assert (folded g rho s) as Hf.
  { unfold s, RunConstantFolding. pose proof (new_session_folded g rho) as H0. destruct (enable_constant_folding ctx); [|done].
    destruct (GetTopologicalOrder _); [by apply fold_nodes_folded|done..]. }
  rewrite (folded_resolved g rho s v Hf). destruct (mjoin _) as [w|] eqn:E; [right|by left]. apply mjoin_link in E.
  destruct (fo_repl g rho s Hf v w E) as (_ & x' & c & bytes & Hx' & Hc & Hs & Hb & Hh). rewrite Hx in Hx'. injection Hx' as <-. by exists c, bytes.
Qed.

(** ** Examples *)

Module Examples.
Definition nonnull : VectorData := {| vector_data _ := 4096; vector_data_nonnull _ _ := ltac:(discriminate) |}.
#[export] Existing Instances no_floats nonnull.

Definition ints (dims : list Z) : TensorSpec := mkSpec (DataType.Int 32) (Some (mkSym <$> dims)).
Definition add_ints (g : ModelGraph) (dims l : list Z) (name : string) : ModelGraph :=
  (AddConstant g (ints dims) (mkConstantBinding (Some (int_bytes l)) name) name).2.
Definition add_sum (g : ModelGraph) (a b : nat) (name : string) : ModelGraph :=
  (AddNode g OpType.kAdd None [a; b] [result name] AddParams [] name).2.

(** [a + b], and twice that. *)
Definition sums : ModelGraph :=
  let g := add_ints (add_ints empty_graph [2] [10; 20] "a") [1] [5] "b" in
  MarkOutput (add_sum (add_sum g 0 1 "sum") 2 2 "twice") 3.
Definition folded_sums : Session := (RunConstantFolding (new_session sums) default_context).2.

(** The default pipeline leaves no node: the output is a constant. *)
Example sums_fold : exists g c, OptimizeModelGraph sums default_context = Ret g /\ nodes_ g = [] /\
  (payload <$> (values_ g !! default 0%nat (head (outputs_ g)))) = Some (ConstantValue c) /\ inline_data c = Some (int_bytes [30; 50]).
Proof. do 2 eexists. split; [vm_compute; reflexivity|]. split_and!; reflexivity. Qed.

Definition sums_values (v : nat) (idx : list Z) : Z :=
  let first := bool_decide (idx = [0]) in
  match v with O => if first then 10 else 20 | 1%nat => 5 | 2%nat => if first then 15 else 25 | _ => if first then 30 else 50 end.

Lemma in_pair idx : in_shape idx [2] -> idx = [0] \/ idx = [1].
Proof. intros H. inversion H as [|i d l l' Hi Hl]; subst. inversion Hl; subst. assert (i = 0 \/ i = 1) as [-> | ->] by lia; auto. Qed.
Lemma in_single idx : in_shape idx [1] -> idx = [0].
Proof. intros H. inversion H as [|i d l l' Hi Hl]; subst. inversion Hl; subst. by assert (i = 0) as -> by lia. Qed.

Lemma sums_typed v x t : values_ sums !! v = Some x -> spec_typed t (spec x) -> t = sInt32.
Proof.
  intros Hx Ht. apply (scalar_dtype_unique (DataType.Int 32)); [|vm_compute; reflexivity].
  destruct v as [|[|[|[|v]]]]; [..|discriminate]; vm_compute in Hx; injection Hx as <-; exact Ht.
Qed.
Lemma sums_shape v x shape : values_ sums !! v = Some x -> ExtractStaticShape (spec x) = Ret shape -> shape = if bool_decide (v = 1%nat) then [1] else [2].
Proof. intros Hx Hs. destruct v as [|[|[|[|v]]]]; [..|discriminate]; vm_compute in Hx; injection Hx as <-; vm_compute in Hs; by injection Hs as <-. Qed.

Lemma sums_evaluation : evaluation sums sums_values.
Proof.
  constructor.
  - intros v x bytes t shape Hx Hb _ Hs Ht idx Hidx. rewrite (sums_typed v x t Hx Ht). pose proof (sums_shape v x shape Hx Hs) as ->.
    destruct v as [|[|[|[|v]]]]; [..|discriminate]; vm_compute in Hx; injection Hx as <-; [| |discriminate..]; vm_compute in Hb; injection Hb as <-.
    + apply in_pair in Hidx as [-> | ->]; reflexivity.
    + apply in_single in Hidx as ->. reflexivity.
  - intros n node out x t shape shapes idx y Hn Ho Hx Hs Ht Hins Hidx Hy. rewrite (sums_typed out x t Hx Ht) in Hy. pose proof (sums_shape out x shape Hx Hs) as ->.
    assert (shapes = (fun v => if bool_decide (v = 1%nat) then [1] else [2]) <$> node_inputs node) as ->.
    { clear -Hins. induction Hins as [|v shp vs shps (z & Hz & Es) _ IH]; [done|]. cbn. by rewrite (sums_shape v z shp Hz Es), IH. }
    destruct n as [|[|n]]; [..|discriminate]; vm_compute in Hn; injection Hn as <-; vm_compute in Ho; injection Ho as <-;
      apply in_pair in Hidx as [-> | ->]; vm_compute in Hy; injection Hy as <-; reflexivity.
Qed.

Lemma sums_in_range : dims_in_range sums.
Proof. intros v x shape Hx Hs. rewrite (sums_shape v x shape Hx Hs). destruct (bool_decide _); repeat constructor; vm_compute; discriminate. Qed.
End Examples.
Import Examples.

Lemma constant_folding_sound_witness : exists c bytes, constant_at folded_sums (resolved folded_sums 3) = Ret c /\ inline_data (sc_binding c) = Some bytes /\
  holds sInt32 [2] bytes (sums_values 3).
Proof.
  destruct (values_ sums !! 3%nat) as [x|] eqn:Hx; [|vm_compute in Hx; discriminate].
  destruct (constant_folding_sound sums default_context sums_values 3 x) as [E|(c & bytes & Hc & Hs & Hb & Hh)].
  - vm_compute. reflexivity.
  - exact sums_in_range.
  - exact sums_evaluation.
  - exact Hx.
  - exfalso. vm_compute in E. discriminate.
  - exists c, bytes. split; [exact Hc|]. split; [exact Hb|]. apply Hh; vm_compute in Hx; injection Hx as <-; vm_compute; reflexivity.
Defined.

(** A constant operand of nine dimensions makes the pass abort, although the graph is valid
    and, with folding off, compiles: the pass borrows it in a [TensorView], whose
    constructor checks the rank limit of eight. *)
Theorem folding_aborts_beyond_rank_eight :
  let nine := replicate 9 1 in
  let g := MarkOutput (add_sum (add_ints empty_graph nine [7] "a") 0 0 "sum") 1 in
  let no_folding := mkPassContext 2 0 true true true false true true (mkPolicy 65536 65536) in
  Validate g = Ret tt /\ is_ret (OptimizeModelGraph g no_folding) = true /\
  OptimizeModelGraph g default_context = Panic "TensorView must borrow a valid Tensor-like state.".
Proof. split_and!; vm_compute; reflexivity. Qed.
