(* ===== verification/CpuKernels.v ===== *)
(** * CpuKernels: the scalar processor kernels

    [src/backend/cpu/kernels/]: addition, elementwise product and embedding, from the
    validation of their parameters to the loops over memory. Memory
    is a finite map from addresses to bytes; an access outside it is a panic, and so is
    signed overflow in an offset. Views may overlap. The arithmetic of [float] and [double]
    is the class of [ConstEval]. *)
From S2P Require Import Prelude OverflowCheck AmStringLayout Broadcast DataTypes OperatorSchema OperatorInference FloatFormat ReducedFloat Tensor ConstEval.

(** ** Memory *)

Abbreviation Mem := (gmap Z Z).

(** The [n] bytes at an address, as a little-endian value. *)
Definition read_at (n : nat) (a : Z) (m : Mem) : option Z := le_val 256 <$> mapM (fun i => m !! (a + Z.of_nat i)) (seq 0 n).
Fixpoint write_bytes (a : Z) (l : list Z) (m : Mem) : Mem :=
  match l with [] => m | b :: l' => <[a := b]> (write_bytes (a + 1) l' m) end.

(** [*p] and [*p = x] for an element of [n] bytes. *)
Definition peek (n : nat) (a : Z) : Exec Mem Z := fun m =>
  match read_at n a m with Some x => (Ret x, m) | None => (Panic "read outside memory", m) end.
Definition poke (n : nat) (a x : Z) : Exec Mem unit := fun m =>
  match read_at n a m with Some _ => (Ret tt, write_bytes a (le_units n 256 x) m) | None => (Panic "write outside memory", m) end.

Definition address (base : Z) (t : ScalarType) (i : Z) : Z := base + i * Z.of_nat (scalar_size t).

(** [offset += coord * stride] on [int64_t]. *)
Definition add_product (offset coord stride : Z) : Res Z :=
  _ ← am_check (bool_decide (in_i 64 (coord * stride))) "signed overflow";
  _ ← am_check (bool_decide (in_i 64 (offset + coord * stride))) "signed overflow";
  Ret (offset + coord * stride).

(** ** Validation shared by the binary kernels *)

Definition aligned_at (shape : list Z) (offset axis : Z) : Res Z :=
  if axis <? offset then Ret 1 else span_at shape (Z.to_nat (axis - offset)).

(* @src src/backend/cpu/kernels/add/add_entry.cpp:40-56 ValidateBroadcastCompatible (loop) *)
Fixpoint compatible_axes (lhs_shape rhs_shape : list Z) (lhs_offset rhs_offset axis : Z) (output_shape : list Z) : Res bool :=
  match output_shape with
  | [] => Ret true
  | out_dim :: rest =>
      lhs_dim ← aligned_at lhs_shape lhs_offset axis;
      rhs_dim ← aligned_at rhs_shape rhs_offset axis;
      if (lhs_dim <? 0) || (rhs_dim <? 0) then Ret false
      else
        let expected := if lhs_dim =? 1 then rhs_dim else if (rhs_dim =? 1) || (lhs_dim =? rhs_dim) then lhs_dim else -1 in
        if (expected <? 0) || negb (out_dim =? expected) then Ret false
        else compatible_axes lhs_shape rhs_shape lhs_offset rhs_offset (axis + 1) rest
  end.
(* @src src/backend/cpu/kernels/add/add_entry.cpp:33-58 ValidateBroadcastCompatible *)
Definition ValidateBroadcastCompatible (lhs_shape rhs_shape output_shape : list Z) : Res bool :=
  let output_rank := zlen output_shape in
  compatible_axes lhs_shape rhs_shape (output_rank - zlen lhs_shape) (output_rank - zlen rhs_shape) 0 output_shape.

(* @src src/backend/cpu/kernels/add/add_entry.cpp:68-87 ValidateMaxOffset (loop) *)
Fixpoint max_offset_loop (what : string) (shape strides : list Z) (max_offset : Z) : Res unit :=
  match shape, strides with
  | [], _ => Ret tt
  | d :: shape', s :: strides' =>
      if d =? 0 then Ret tt
      else
        let '(over, contrib) := CheckOverflowMul int64_ty (d - 1) s in
        _ ← reject_if over (InvalidArgument what);
        let '(over, new_max) := CheckOverflowAdd int64_ty max_offset contrib in
        _ ← reject_if over (InvalidArgument what);
        max_offset_loop what shape' strides' new_max
  | _ :: _, [] => Panic "span::operator[]"
  end.
(* @src src/backend/cpu/kernels/add/add_entry.cpp:60-88 ValidateMaxOffset *)
Definition ValidateMaxOffset (kernel : string) (v : TensorView) (name : string) : Res unit :=
  max_offset_loop (kernel +:+ " " +:+ name +:+ " offset overflow") (v_shape v) (v_strides v) 0.

(* @src src/backend/cpu/kernels/add/add_entry.cpp:90-109 CheckedOutputNumel *)
Fixpoint CheckedOutputNumel (kernel : string) (count : Z) (shape : list Z) : Res Z :=
  match shape with
  | [] => Ret count
  | d :: shape' =>
      if d =? 0 then Ret 0
      else
        let '(over, next) := CheckOverflowMul int64_ty count d in
        _ ← reject_if over (InvalidArgument (kernel +:+ " output element count overflow"));
        CheckedOutputNumel kernel next shape'
  end.

(** ** The coordinates of an element *)

(** The loop from the last axis: the coordinates and what is left of the position. *)
(* @src src/backend/cpu/kernels/add/add_scalar.cpp:84-88 ExecuteTypedStrided (coordinates) *)
Fixpoint coordinates (shape : list Z) (flat : Z) : list Z * Z :=
  match shape with
  | [] => ([], flat)
  | d :: shape' => let '(coord, remaining) := coordinates shape' flat in (Z.rem remaining d :: coord, Z.quot remaining d)
  end.
(* @src src/backend/cpu/kernels/add/add_scalar.cpp:34-39 MapCoordToOffset (loop) *)
Fixpoint map_axes (input_shape input_strides coord : list Z) (offset : Z) : Res Z :=
  match input_shape, input_strides, coord with
  | [], _, _ => Ret offset
  | dim :: shape', s :: strides', c :: coord' =>
      offset ← add_product offset (if dim =? 1 then 0 else c) s; map_axes shape' strides' coord' offset
  | _, _, _ => Panic "span::operator[]"
  end.
(* @src src/backend/cpu/kernels/add/add_scalar.cpp:27-41 MapCoordToOffset *)
Definition MapCoordToOffset (input_shape input_strides coord : list Z) : Res Z :=
  map_axes input_shape input_strides (drop (length coord - length input_shape) coord) 0.
(* @src src/backend/cpu/kernels/add/add_scalar.cpp:93-96 ExecuteTypedStrided (output offset) *)
Fixpoint output_offset (strides coord : list Z) (offset : Z) : Res Z :=
  match coord, strides with
  | [], _ => Ret offset
  | c :: coord', s :: strides' => offset ← add_product offset c s; output_offset strides' coord' offset
  | _, [] => Panic "span::operator[]"
  end.

(** What a scalar operation stores and whether it is an error. *)
Definition Stored : Type := Z * Res unit.

Section Kernels.
Context {FA : FloatArith}.

(** ** Addition *)

(** The wrapped sum is stored before the overflow is reported. *)
(* @src src/backend/cpu/kernels/add/add_scalar.cpp:43-53 AddScalar *)
Definition AddKernelScalar (t : ScalarType) (lhs rhs : Z) : Stored :=
  let integral w := let '(over, r) := CheckOverflowAdd (mkIntTy true w) (wrap_signed w lhs) (wrap_signed w rhs) in
                    (pattern t r, reject_if over (Overflow "AddKernel integer overflow")) in
  match t with
  | sInt32 => integral 32
  | sInt64 => integral 64
  | _ => (pattern t (add_float t lhs rhs), Ret tt)
  end.

(* @src src/backend/cpu/kernels/add/add_internal.h:34-38 AddParams *)
Record AddParams := mkAddParams { lhs_tensor : TensorView; rhs_tensor : TensorView; output_tensor : TensorView }.
(** The arrays of the original have [kMaxRank] entries, of which the rank are used. *)
(* @src src/backend/cpu/kernels/add/add_internal.h:45-63 AddKernelArgs *)
Record AddKernelArgs := mkAddArgs {
  lhs_data : Z; rhs_data : Z; output_data : Z; arg_dtype : DataType.t; arg_numel : Z; is_flat : bool;
  lhs_shape : list Z; lhs_strides : list Z; rhs_shape : list Z; rhs_strides : list Z; output_shape : list Z; output_strides : list Z }.
Definition empty_args : AddKernelArgs := mkAddArgs 0 0 0 DataType.default_type 0 false [] [] [] [] [] [].

(* @src src/backend/cpu/kernels/add/add_scalar.cpp:61-63 ExecuteTypedFlat (loop) *)
Fixpoint flat_loop (n : nat) (i : Z) (t : ScalarType) (op : Z -> Z -> Stored) (lhs rhs out : Z) : Exec Mem unit :=
  match n with
  | O => mret tt
  | S n' =>
      a ← peek (scalar_size t) (address lhs t i);
      b ← peek (scalar_size t) (address rhs t i);
      let '(x, status) := op a b in
      _ ← poke (scalar_size t) (address out t i) x;
      _ ← lift status;
      flat_loop n' (i + 1) t op lhs rhs out
  end.
(* @src src/backend/cpu/kernels/add/add_scalar.cpp:83-99 ExecuteTypedStrided (loop) *)
Fixpoint strided_elements (n : nat) (flat : Z) (t : ScalarType) (op : Z -> Z -> Stored) (a : AddKernelArgs) : Exec Mem unit :=
  match n with
  | O => mret tt
  | S n' =>
      let coord := (coordinates (output_shape a) flat).1 in
      lhs_offset ← lift (MapCoordToOffset (lhs_shape a) (lhs_strides a) coord);
      rhs_offset ← lift (MapCoordToOffset (rhs_shape a) (rhs_strides a) coord);
      out_offset ← lift (output_offset (output_strides a) coord 0);
      x ← peek (scalar_size t) (address (lhs_data a) t lhs_offset);
      y ← peek (scalar_size t) (address (rhs_data a) t rhs_offset);
      let '(z, status) := op x y in
      _ ← poke (scalar_size t) (address (output_data a) t out_offset) z;
      _ ← lift status;
      strided_elements n' (flat + 1) t op a
  end.

(* @src src/backend/cpu/kernels/add/add_scalar.cpp:56-65 ExecuteTypedFlat *)
Definition ExecuteTypedFlat (t : ScalarType) (a : AddKernelArgs) : Exec Mem unit :=
  flat_loop (Z.to_nat (arg_numel a)) 0 t (AddKernelScalar t) (lhs_data a) (rhs_data a) (output_data a).
(* @src src/backend/cpu/kernels/add/add_scalar.cpp:68-101 ExecuteTypedStrided *)
Definition ExecuteTypedStrided (t : ScalarType) (a : AddKernelArgs) : Exec Mem unit :=
  strided_elements (Z.to_nat (arg_numel a)) 0 t (AddKernelScalar t) a.
(* @src src/backend/cpu/kernels/add/add_scalar.cpp:103-109 ExecuteTyped *)
Definition ExecuteTyped (t : ScalarType) (a : AddKernelArgs) : Exec Mem unit :=
  if is_flat a then ExecuteTypedFlat t a else ExecuteTypedStrided t a.

Definition add_types : list ScalarType := [sFloat; sDouble; sBFloat16; sInt32; sInt64].
(* @src src/backend/cpu/kernels/add/add_scalar.cpp:113-136 AddKernel_Scalar *)
Definition AddKernel_Scalar (a : AddKernelArgs) : Exec Mem unit :=
  t ← lift (select (arg_dtype a) add_types);
  match t with
  | Some t => ExecuteTyped t a
  | None => lift (Fail (InvalidArgument "AddKernel scalar dispatch received unsupported dtype"))
  end.

(** [!view.is_valid()] and [a.dtype() != b] as tests. *)
Definition require_valid (v : TensorView) (what : string) : Res unit :=
  ok ← v_is_valid v; reject_if (negb ok) (InvalidArgument what).
Definition require_dtype (v : TensorView) (d : DataType.t) (what : string) : Res unit :=
  same ← DataType.equal (v_dtype v) d; reject_if (negb same) (InvalidArgument what).
Definition v_rank (v : TensorView) : Z := zlen (v_shape v).
Definition require_data (v : TensorView) (what : string) : Res unit := reject_if (v_data v =? 0) (InvalidArgument what).

(* @src src/backend/cpu/kernels/add/add_entry.cpp:111-224 ValidateAndBuildArgs *)
Definition ValidateAndBuildArgs (p : AddParams) : Res AddKernelArgs :=
  let lhs := lhs_tensor p in let rhs := rhs_tensor p in let output := output_tensor p in
  _ ← require_valid lhs "AddKernel requires a valid lhs TensorView";
  _ ← require_valid rhs "AddKernel requires a valid rhs TensorView";
  _ ← require_valid output "AddKernel requires a valid output MutableTensorView";
  let dtype := v_dtype lhs in
  same ← all_hold [DataType.equal (v_dtype rhs) dtype; DataType.equal (v_dtype output) dtype];
  _ ← reject_if (negb same) (InvalidArgument "AddKernel requires matching lhs, rhs, and output dtypes");
  supported ← IsAddSupportedDType dtype;
  _ ← reject_if (negb supported) (InvalidArgument "AddKernel only supports float32, float64, bfloat16, int32, and int64 tensors");
  _ ← reject_if (negb (v_rank output =? Z.max (v_rank lhs) (v_rank rhs))) (InvalidArgument "AddKernel output rank must equal max(lhs rank, rhs rank)");
  _ ← reject_if (kMaxRank <? v_rank output) (InvalidArgument "AddKernel output rank exceeds maximum supported rank");
  ok ← ValidateBroadcastCompatible (v_shape lhs) (v_shape rhs) (v_shape output);
  _ ← reject_if (negb ok) (InvalidArgument "AddKernel input shapes are not broadcast-compatible with output shape");
  numel ← CheckedOutputNumel "AddKernel" 1 (v_shape output);
  if numel =? 0 then Ret empty_args
  else
    _ ← require_data lhs "AddKernel requires non-null lhs data";
    _ ← require_data rhs "AddKernel requires non-null rhs data";
    _ ← require_data output "AddKernel requires non-null output data";
    _ ← ValidateMaxOffset "AddKernel" lhs "lhs";
    _ ← ValidateMaxOffset "AddKernel" rhs "rhs";
    _ ← ValidateMaxOffset "AddKernel" output "output";
    flat ← all_hold [v_is_contiguous lhs; v_is_contiguous rhs; v_is_contiguous output;
                     Ret (bool_decide (v_shape lhs = v_shape output)); Ret (bool_decide (v_shape rhs = v_shape output))];
    Ret (mkAddArgs (v_data lhs) (v_data rhs) (v_data output) dtype numel flat (v_shape lhs) (v_strides lhs) (v_shape rhs) (v_strides rhs)
           (v_shape output) (v_strides output)).

(* @src src/backend/cpu/kernels/add/add_entry.cpp:230-243 BuildAddParams *)
Definition BuildAddParams (inputs outputs : list TensorView) : Res AddParams :=
  match inputs, outputs with
  | [l; r], [o] => Ret (mkAddParams l r o)
  | _, _ => Fail (InvalidArgument "Add requires 2 inputs and 1 output")
  end.

(* @src src/backend/cpu/kernels/add/add_entry.cpp:251-269 AddKernel *)
Definition AddKernel (params : option AddParams) : Exec Mem unit :=
  match params with
  | None => lift (Fail (InvalidArgument "AddKernel requires AddParams in KernelContext.kernel_params"))
  | Some p =>
      args ← lift (ValidateAndBuildArgs p);
      if arg_numel args =? 0 then mret tt else AddKernel_Scalar args
  end.

(* @src include/aethermind/backend/cpu/kernels/add/cpu_add_kernel.h:26-32 AddArgs *)
Record AddArgs := mkLaunchArgs { la_lhs : Z; la_rhs : Z; la_output : Z; la_dtype : DataType.t; la_numel : Z }.
(* @src src/backend/cpu/kernels/add/add_api.cpp:14-38 LaunchAdd *)
Definition LaunchAdd (a : AddArgs) : Exec Mem unit :=
  args ← lift (
    _ ← reject_if ((la_lhs a =? 0) || (la_rhs a =? 0) || (la_output a =? 0)) (InvalidArgument "LaunchAdd requires non-null data pointers");
    supported ← IsAddSupportedDType (la_dtype a);
    _ ← reject_if (negb supported) (InvalidArgument "LaunchAdd only supports float32, float64, bfloat16, int32, and int64 tensors");
    _ ← reject_if (la_numel a <=? 0) (InvalidArgument "LaunchAdd requires positive numel");
    Ret (mkAddArgs (la_lhs a) (la_rhs a) (la_output a) (la_dtype a) (la_numel a) true [] [] [] [] [] []));
  AddKernel_Scalar args.
End Kernels.

(** ** Elementwise product *)

Section MulKernel.
Context {FA : FloatArith}.

(** The next two checks are the same functions as those of the addition. *)
(* @src src/backend/cpu/kernels/elementwise_mul/elementwise_mul_entry.cpp:21-42 ValidateBroadcastCompatible *)
Definition MulValidateBroadcastCompatible (lhs rhs out : list Z) : Res bool := ValidateBroadcastCompatible lhs rhs out.
(* @src src/backend/cpu/kernels/elementwise_mul/elementwise_mul_entry.cpp:60-82 ValidateMaxOffset *)
Definition MulValidateMaxOffset (v : TensorView) (name : string) : Res unit := ValidateMaxOffset "ElementwiseMulKernel" v name.

(* @src src/backend/cpu/kernels/elementwise_mul/elementwise_mul_entry.cpp:84-105 CheckedOutputNumel *)
Fixpoint MulCheckedOutputNumel (count : Z) (shape : list Z) : Res Z :=
  match shape with
  | [] => Ret count
  | d :: shape' =>
      if d =? 0 then Ret 0
      else
        let '(over, next) := CheckOverflowMul int64_ty count d in
        _ ← reject_if over (InvalidArgument "ElementwiseMulKernel output element count overflow");
        _ ← reject_if (next <? 0) (InvalidArgument "ElementwiseMulKernel output element count exceeds int64_t");
        MulCheckedOutputNumel next shape'
  end.

(* @src src/backend/cpu/kernels/elementwise_mul/elementwise_mul_internal.h:23-27 ElementwiseMulParams *)
Record ElementwiseMulParams := mkMulParams { mul_lhs : TensorView; mul_rhs : TensorView; mul_output : TensorView }.

(** A product of two floats never fails. *)
Definition mul_stored (a b : Z) : Stored := (pattern sFloat (f32_mul a b), Ret tt).

(** The case of rank 0 reads and writes the first elements; otherwise the loop of the
    addition with a product. *)
(* @src src/backend/cpu/kernels/elementwise_mul/elementwise_mul_entry.cpp:173-208 ValidateAndExecute (execution) *)
Definition mul_elements (lhs rhs output : TensorView) (numel : Z) : Exec Mem unit :=
  match v_shape output with
  | [] =>
      a ← peek 4 (address (v_data lhs) sFloat 0);
      b ← peek 4 (address (v_data rhs) sFloat 0);
      poke 4 (address (v_data output) sFloat 0) (pattern sFloat (f32_mul a b))
  | _ =>
      strided_elements (Z.to_nat numel) 0 sFloat mul_stored
        (mkAddArgs (v_data lhs) (v_data rhs) (v_data output) (v_dtype lhs) numel false (v_shape lhs) (v_strides lhs) (v_shape rhs) (v_strides rhs)
           (v_shape output) (v_strides output))
  end.

(* @src src/backend/cpu/kernels/elementwise_mul/elementwise_mul_entry.cpp:107-171 ValidateAndExecute (validation) *)
Definition mul_validate (p : ElementwiseMulParams) : Res Z :=
  let lhs := mul_lhs p in let rhs := mul_rhs p in let output := mul_output p in
  _ ← require_valid lhs "ElementwiseMulKernel requires a valid lhs TensorView";
  _ ← require_valid rhs "ElementwiseMulKernel requires a valid rhs TensorView";
  _ ← require_valid output "ElementwiseMulKernel requires a valid output MutableTensorView";
  _ ← require_dtype lhs DataType.Float32 "ElementwiseMulKernel requires float32 lhs TensorView";
  _ ← require_dtype rhs DataType.Float32 "ElementwiseMulKernel requires float32 rhs TensorView";
  _ ← require_dtype output DataType.Float32 "ElementwiseMulKernel requires float32 output MutableTensorView";
  _ ← reject_if (negb (v_rank output =? Z.max (v_rank lhs) (v_rank rhs))) (InvalidArgument "ElementwiseMulKernel output rank must equal max(lhs rank, rhs rank)");
  _ ← reject_if (kMaxRank <? v_rank output) (InvalidArgument "ElementwiseMulKernel output rank exceeds maximum supported rank");
  ok ← MulValidateBroadcastCompatible (v_shape lhs) (v_shape rhs) (v_shape output);
  _ ← reject_if (negb ok) (InvalidArgument "ElementwiseMulKernel input shapes are not broadcast-compatible with output shape");
  numel ← MulCheckedOutputNumel 1 (v_shape output);
  if numel =? 0 then Ret 0
  else
    _ ← require_data lhs "ElementwiseMulKernel requires non-null lhs data";
    _ ← require_data rhs "ElementwiseMulKernel requires non-null rhs data";
    _ ← require_data output "ElementwiseMulKernel requires non-null output data";
    _ ← MulValidateMaxOffset lhs "lhs";
    _ ← MulValidateMaxOffset rhs "rhs";
    _ ← MulValidateMaxOffset output "output";
    Ret numel.
(* @src src/backend/cpu/kernels/elementwise_mul/elementwise_mul_entry.cpp:107-209 ValidateAndExecute *)
Definition ValidateAndExecute (p : ElementwiseMulParams) : Exec Mem unit :=
  numel ← lift (mul_validate p);
  if numel =? 0 then mret tt else mul_elements (mul_lhs p) (mul_rhs p) (mul_output p) numel.

(* @src src/backend/cpu/kernels/elementwise_mul/elementwise_mul_entry.cpp:213-221 ElementwiseMulKernel *)
Definition ElementwiseMulKernel (params : option ElementwiseMulParams) : Exec Mem unit :=
  match params with
  | None => lift (Fail (InvalidArgument "ElementwiseMulKernel requires cpu::detail::ElementwiseMulParams in KernelContext.kernel_params"))
  | Some p => ValidateAndExecute p
  end.
(* @src src/backend/cpu/kernels/elementwise_mul/elementwise_mul_entry.cpp:223-235 BuildElementwiseMulParams *)
Definition BuildElementwiseMulParams (inputs outputs : list TensorView) : Res ElementwiseMulParams :=
  match inputs, outputs with
  | [l; r], [o] => Ret (mkMulParams l r o)
  | _, _ => Fail (InvalidArgument "ElementwiseMul requires 2 inputs and 1 output")
  end.
End MulKernel.

(** ** Embedding *)

(* @src src/backend/cpu/kernels/embedding/embedding_internal.h:23-27 EmbeddingParams *)
Record EmbeddingParams := mkEmbedding { token_ids : TensorView; weight : TensorView; emb_output : TensorView }.

(* @src src/backend/cpu/kernels/embedding/embedding_entry.cpp:16-18 IsSupportedTokenIdDType *)
Definition IsSupportedTokenIdDType (d : DataType.t) : Res bool := DataType.any_equal d [DataType.Int 32; DataType.Int 64; DataType.UInt 32].

(* @src src/backend/cpu/kernels/embedding/embedding_entry.cpp:20-28 ReadTokenId *)
Definition ReadTokenId (v : TensorView) (index : Z) : Exec Mem Z :=
  i32 ← lift (DataType.equal (v_dtype v) (DataType.Int 32));
  if (i32 : bool) then x ← peek 4 (v_data v + index * 4); mret (wrap_signed 32 x)
  else
    u32 ← lift (DataType.equal (v_dtype v) (DataType.UInt 32));
    if (u32 : bool) then peek 4 (v_data v + index * 4)
    else x ← peek 8 (v_data v + index * 8); mret (wrap_signed 64 x).

(** [std::copy_n] of [n] floats. *)
Fixpoint copy_floats (n : nat) (source target : Z) : Exec Mem unit :=
  match n with
  | O => mret tt
  | S n' => x ← peek 4 source; _ ← poke 4 target x; copy_floats n' (source + 4) (target + 4)
  end.

(* @src src/backend/cpu/kernels/embedding/embedding_entry.cpp:114-123 EmbeddingKernel (loop) *)
Fixpoint gather (n : nat) (token : Z) (ids : TensorView) (vocab_size hidden : Z) (weight_data output_data : Z) : Exec Mem unit :=
  match n with
  | O => mret tt
  | S n' =>
      token_id ← ReadTokenId ids token;
      _ ← lift (reject_if ((token_id <? 0) || (vocab_size <=? token_id)) (OutOfRange "EmbeddingKernel token id is out of vocabulary range"));
      _ ← copy_floats (Z.to_nat hidden) (weight_data + u64 (token_id * hidden) * 4) (output_data + u64 (token * hidden) * 4);
      gather n' (token + 1) ids vocab_size hidden weight_data output_data
  end.

(** [view.dim(i)]. *)
Definition v_dim (v : TensorView) (i : nat) : Res Z := vec_at (v_shape v) i.
Definition require_matrix (v : TensorView) (rank : Z) (what : string) : Res unit :=
  ok ← all_hold [Ret (v_rank v =? rank); v_is_contiguous v]; reject_if (negb ok) (InvalidArgument what).

(** The checks: [None] when there is nothing to gather, otherwise the sizes. *)
(* @src src/backend/cpu/kernels/embedding/embedding_entry.cpp:38-110 EmbeddingKernel (validation) *)
Definition embedding_validate (p : EmbeddingParams) : Res (option (Z * Z * Z)) :=
  let ids := token_ids p in let w := weight p in let output := emb_output p in
  _ ← require_valid ids "EmbeddingKernel requires a valid token id TensorView";
  _ ← require_valid w "EmbeddingKernel requires a valid weight TensorView";
  _ ← require_valid output "EmbeddingKernel requires a valid output MutableTensorView";
  supported ← IsSupportedTokenIdDType (v_dtype ids);
  _ ← reject_if (negb supported) (InvalidArgument "EmbeddingKernel token ids must be int32, int64, or uint32");
  _ ← require_dtype w DataType.Float32 "EmbeddingKernel requires float32 weight TensorView";
  _ ← require_dtype output DataType.Float32 "EmbeddingKernel requires float32 output MutableTensorView";
  _ ← require_matrix ids 1 "EmbeddingKernel requires contiguous 1D token ids";
  _ ← require_matrix w 2 "EmbeddingKernel requires contiguous 2D weight";
  _ ← require_matrix output 2 "EmbeddingKernel requires contiguous 2D output";
  token_count ← v_numel ids;
  vocab_size ← v_dim w 0; hidden_size ← v_dim w 1;
  _ ← reject_if ((vocab_size <=? 0) || (hidden_size <=? 0)) (InvalidArgument "EmbeddingKernel requires positive vocab and hidden sizes");
  d0 ← v_dim output 0; d1 ← v_dim output 1;
  _ ← reject_if (negb (d0 =? token_count) || negb (d1 =? hidden_size)) (InvalidArgument "EmbeddingKernel output shape must be [token_count, hidden_size]");
  if token_count =? 0 then Ret None
  else
    _ ← require_data ids "EmbeddingKernel requires non-null token id data";
    _ ← require_data w "EmbeddingKernel requires non-null weight data";
    _ ← require_data output "EmbeddingKernel requires non-null output data";
    _ ← reject_if (CheckOverflowMul uint64_ty (u64 vocab_size) (u64 hidden_size)).1 (InvalidArgument "EmbeddingKernel weight dimensions overflow");
    _ ← reject_if (CheckOverflowMul uint64_ty (u64 token_count) (u64 hidden_size)).1 (InvalidArgument "EmbeddingKernel output dimensions overflow");
    Ret (Some (token_count, vocab_size, hidden_size)).

(* @src src/backend/cpu/kernels/embedding/embedding_entry.cpp:32-126 EmbeddingKernel *)
Definition EmbeddingKernel (params : option EmbeddingParams) : Exec Mem unit :=
  match params with
  | None => lift (Fail (InvalidArgument "EmbeddingKernel requires cpu::detail::EmbeddingParams in KernelContext.kernel_params"))
  | Some p =>
      sizes ← lift (embedding_validate p);
      match sizes with
      | None => mret tt
      | Some (token_count, vocab_size, hidden) =>
          gather (Z.to_nat token_count) 0 (token_ids p) vocab_size hidden (v_data (weight p)) (v_data (emb_output p))
      end
  end.
(* @src src/backend/cpu/kernels/embedding/embedding_entry.cpp:128-140 BuildEmbeddingParams *)
Definition BuildEmbeddingParams (inputs outputs : list TensorView) : Res EmbeddingParams :=
  match inputs, outputs with
  | [i; w], [o] => Ret (mkEmbedding i w o)
  | _, _ => Fail (InvalidArgument "Embedding requires 2 inputs and 1 output")
  end.

(** ** Lemmas: memory *)

Definition within (n : nat) (a p : Z) : Prop := a <= p < a + Z.of_nat n.
Definition apart (n : nat) (a b : Z) : Prop := a + Z.of_nat n <= b \/ b + Z.of_nat n <= a.

Lemma write_bytes_lookup l : forall a (m : Mem) p, write_bytes a l m !! p = if decide (within (length l) a p) then l !! Z.to_nat (p - a) else m !! p.
Proof.
  induction l as [|b l IH]; intros a m p; cbn [write_bytes length]; unfold within in *.
  { by rewrite decide_False by lia. }
  destruct (decide (p = a)) as [->|Hp].
  - rewrite lookup_insert_eq, decide_True by lia. by rewrite Z.sub_diag.
  - rewrite lookup_insert_ne, IH by done. destruct (decide (a + 1 <= p < a + 1 + Z.of_nat (length l))) as [H|H].
    + rewrite decide_True by lia. replace (Z.to_nat (p - a)) with (S (Z.to_nat (p - (a + 1)))) by lia. done.
    + by rewrite decide_False by lia.
Qed.

Lemma read_at_ext n a (m m' : Mem) : (forall p, within n a p -> m !! p = m' !! p) -> read_at n a m = read_at n a m'.
Proof.
  intros H. unfold read_at. f_equal. assert (forall k l, (forall i, i ∈ l -> (i < k)%nat) -> (forall p, within k a p -> m !! p = m' !! p) ->
    mapM (fun i => m !! (a + Z.of_nat i)) l = mapM (fun i => m' !! (a + Z.of_nat i)) l) as Hext.
  { intros k l. induction l as [|i l IH]; intros Hl Hm; cbn; [done|]. rewrite (Hm (a + Z.of_nat i)) by (unfold within; specialize (Hl i ltac:(left)); lia).
    by rewrite IH by (intros; try apply Hl; try apply Hm; try right; done). }
  apply (Hext n); [|done]. intros i Hi. apply elem_of_seq in Hi. lia.
Qed.
Lemma mapM_lookup_Some {A B} (f : A -> option B) l k : (forall i x, l !! i = Some x -> f x = k !! i) -> length l = length k -> mapM f l = Some k.
Proof.
  revert k. induction l as [|x l IH]; intros [|y k] H Hl; try discriminate; [done|]. cbn. rewrite (H 0%nat x eq_refl). cbn.
  rewrite (IH k); [done| |by injection Hl]. intros i z Hz. exact (H (S i) z Hz).
Qed.
Lemma read_write_same n a x m : 0 <= x < 256 ^ Z.of_nat n -> read_at n a (write_bytes a (le_units n 256 x) m) = Some x.
Proof.
  intros Hx. unfold read_at. rewrite (mapM_lookup_Some _ _ (le_units n 256 x)).
  - cbn. f_equal. apply le_units_val; lia.
  - intros i j Hi. apply lookup_seq in Hi as [-> Hi]. rewrite write_bytes_lookup, le_units_length. cbn. rewrite decide_True by (unfold within; lia).
    f_equal. lia.
  - by rewrite le_units_length, length_seq.
Qed.
Lemma read_write_apart n a b x m : apart n a b -> read_at n b (write_bytes a (le_units n 256 x) m) = read_at n b m.
Proof. intros H. apply read_at_ext. intros p Hp. rewrite write_bytes_lookup, le_units_length, decide_False; [done|]. unfold within, apart in *. lia. Qed.

(** ** A loop that combines elements *)

Section Run.
Context (size : nat) (la ra oa : Z -> Z) (f : Z -> Z -> Stored) (N : Z).
Context (Hf : forall a b, 0 <= (f a b).1 < 256 ^ Z.of_nat size).
Context (Hout : forall i j, 0 <= i < N -> 0 <= j < N -> i <> j -> apart size (oa i) (oa j)).
Context (Hin : forall i j, 0 <= i < j -> j < N -> apart size (oa i) (la j) /\ apart size (oa i) (ra j)).

Fixpoint run (n : nat) (k : Z) : Exec Mem unit :=
  match n with
  | O => mret tt
  | S n' =>
      a ← peek size (la k); b ← peek size (ra k);
      let '(x, status) := f a b in
      _ ← poke size (oa k) x; _ ← lift status; run n' (k + 1)
  end.

(** The elements between [k] and [k + n] of the result, read in the memory before. *)
Definition combined (m m' : Mem) (j : Z) : Prop :=
  exists a b, read_at size (la j) m = Some a /\ read_at size (ra j) m = Some b /\ (f a b).2 = Ret tt /\ read_at size (oa j) m' = Some (f a b).1.

Lemma run_spec n : forall k m, 0 <= k -> k + Z.of_nat n <= N ->
  let '(r, m') := run n k m in
  (forall p, (forall j, k <= j < k + Z.of_nat n -> ~ within size (oa j) p) -> m' !! p = m !! p) /\
  match r with
  | Ret _ => forall j, k <= j < k + Z.of_nat n -> combined m m' j
  | Fail e => exists j a b, k <= j < k + Z.of_nat n /\ read_at size (la j) m = Some a /\ read_at size (ra j) m = Some b /\ (f a b).2 = Fail e
  | Panic w => exists j, k <= j < k + Z.of_nat n /\
      (read_at size (la j) m = None \/ read_at size (ra j) m = None \/ read_at size (oa j) m = None \/ exists a b, (f a b).2 = Panic w)
  end.
Proof using Hf Hout Hin.
  induction n as [|n IH]; intros k m Hk Hn; cbn [run].
  { split; [done|]. intros j Hj. lia. }
  unfold mbind, exec_mbind, exec_bind, peek at 1. destruct (read_at size (la k) m) as [a|] eqn:Ea; [|split; [done|]; exists k; split; [lia|auto]].
  unfold peek at 1. destruct (read_at size (ra k) m) as [b|] eqn:Eb; [|split; [done|]; exists k; split; [lia|auto]].
  pose proof (Hf a b) as Hx. destruct (f a b) as [x status] eqn:Ef. cbn [fst] in Hx. unfold poke. destruct (read_at size (oa k) m) as [o|] eqn:Eo; [|split; [done|]; exists k; split; [lia|auto]].
  set (m1 := write_bytes (oa k) (le_units size 256 x) m).
  assert (forall p, ~ within size (oa k) p -> m1 !! p = m !! p) as Hm1 by (intros p Hp; unfold m1; by rewrite write_bytes_lookup, le_units_length, decide_False).
  unfold lift at 1. destruct status as [[]|e|w].
  2: { split; [intros p Hp; apply Hm1, Hp; lia|]. exists k, a, b. split_and!; [lia|lia|done..|by rewrite Ef]. }
  2: { split; [intros p Hp; apply Hm1, Hp; lia|]. exists k. split; [lia|]. do 3 right. exists a, b. by rewrite Ef. }
  specialize (IH (k + 1) m1 ltac:(lia) ltac:(lia)). destruct (run n (k + 1) m1) as [r m'] eqn:Er. cbv beta iota. destruct IH as [Hfr IH].
  assert (forall j, k < j < k + Z.of_nat (S n) -> read_at size (la j) m1 = read_at size (la j) m /\ read_at size (ra j) m1 = read_at size (ra j) m /\ read_at size (oa j) m1 = read_at size (oa j) m) as Hsame.
  { intros j Hj. destruct (Hin k j ltac:(lia) ltac:(lia)) as [H1 H2]. unfold m1. rewrite !read_write_apart; [done|apply Hout; lia|done..]. }
  split.
  - intros p Hp. rewrite Hfr by (intros j Hj; apply Hp; lia). apply Hm1, Hp. lia.
  - destruct r as [[]|e|w].
    + intros j Hj. destruct (decide (j = k)) as [->|Hne].
      * exists a, b. rewrite Ef. split_and!; [done..|]. cbn [fst]. rewrite <- (read_write_same size (oa k) x m Hx). fold m1. apply read_at_ext. intros p Hp. apply Hfr.
        intros i Hi. pose proof (Hout k i ltac:(lia) ltac:(lia) ltac:(lia)). unfold within, apart in *. lia.
      * destruct (IH j ltac:(lia)) as (a' & b' & H1 & H2 & H3 & H4). destruct (Hsame j ltac:(lia)) as (E1 & E2 & _). exists a', b'. rewrite <- E1, <- E2. done.
    + destruct IH as (j & a' & b' & Hj & H1 & H2 & H3). destruct (Hsame j ltac:(lia)) as (E1 & E2 & _). exists j, a', b'. rewrite <- E1, <- E2. split_and!; try done; lia.
    + destruct IH as (j & Hj & H). destruct (Hsame j ltac:(lia)) as (E1 & E2 & E3). exists j. rewrite <- E1, <- E2, <- E3. split; [lia|done].
Qed.
End Run.

(** ** Lemmas: offsets *)

Lemma mul_checked a b (over : bool) r : CheckOverflowMul int64_ty a b = (over, r) -> over = false -> r = a * b /\ in_i 64 (a * b).
Proof.
  unfold CheckOverflowMul, int_trunc. cbn [ty_signed ty_width int64_ty]. intros [= <- <-] H. bsplit. split; [done|]. by apply wrap_signed_id_iff.
Qed.
Lemma add_checked a b (over : bool) r : CheckOverflowAdd int64_ty a b = (over, r) -> over = false -> r = a + b /\ in_i 64 (a + b).
Proof.
  unfold CheckOverflowAdd, int_trunc. cbn [ty_signed ty_width int64_ty]. intros [= <- <-] H. bsplit. split; [done|]. by apply wrap_signed_id_iff.
Qed.

Lemma add_product_in offset c s : in_i 64 (c * s) -> in_i 64 (offset + c * s) -> add_product offset c s = Ret (offset + c * s).
Proof. intros H1 H2. unfold add_product. by rewrite !bool_decide_eq_true_2. Qed.

(** The offsets a validated layout bounds are computed without overflow. *)
Lemma bounded_offsets what shape : forall strides max, Forall (fun d => 1 <= d) shape -> nonneg strides -> max_offset_loop what shape strides max = Ret tt ->
  forall coord offset, length coord = length shape -> in_shape (source_index shape coord) shape -> 0 <= offset <= max ->
  map_axes shape strides coord offset = Ret (offset + dot (source_index shape coord) strides).
Proof.
  induction shape as [|d shape IH]; intros strides max Hd Hs H coord offset Hl Hin Ho; [cbn; f_equal; lia|]. destruct coord as [|c coord]; [discriminate|]. injection Hl as Hl.
  apply Forall_cons in Hd as [Hd1 Hd]. destruct strides as [|s strides]; [discriminate|]. apply Forall_cons in Hs as [Hs1 Hs].
  cbn [max_offset_loop] in H. rewrite (proj2 (Z.eqb_neq d 0)) in H by lia. destruct (CheckOverflowMul _ _ _) as [o1 contrib] eqn:E1. res_inv.
  destruct (CheckOverflowAdd _ _ _) as [o2 mx] eqn:E2. res_inv. destruct (mul_checked _ _ _ _ E1 Hm) as [-> H1]. destruct (add_checked _ _ _ _ E2 Hm0) as [-> H2].
  unfold source_index in *. cbn [zip_with] in Hin |- *. inversion Hin as [|i d' l l' Hi Hin']; subst. set (i := if d =? 1 then 0 else c) in *. cbn [map_axes dot].
  assert (0 <= i * s <= (d - 1) * s) as Hb by nia. unfold in_i in *. rewrite add_product_in by (unfold in_i; lia). cbn [mbind res_mbind res_bind].
  rewrite (IH strides _ Hd Hs H); [f_equal; lia|done..|lia].
Qed.
Lemma bounded_output what shape : forall strides max, Forall (fun d => 1 <= d) shape -> nonneg strides -> max_offset_loop what shape strides max = Ret tt ->
  forall coord offset, in_shape coord shape -> 0 <= offset <= max -> output_offset strides coord offset = Ret (offset + dot coord strides).
Proof.
  induction shape as [|d shape IH]; intros strides max Hd Hs H coord offset Hin Ho; inversion Hin as [|i d' l l' Hi Hin']; subst; [destruct strides; cbn; f_equal; lia|].
  apply Forall_cons in Hd as [Hd1 Hd]. destruct strides as [|s strides]; [discriminate|]. apply Forall_cons in Hs as [Hs1 Hs].
  cbn [max_offset_loop] in H. rewrite (proj2 (Z.eqb_neq d 0)) in H by lia. destruct (CheckOverflowMul _ _ _) as [o1 contrib] eqn:E1. res_inv.
  destruct (CheckOverflowAdd _ _ _) as [o2 mx] eqn:E2. res_inv. destruct (mul_checked _ _ _ _ E1 Hm) as [-> H1]. destruct (add_checked _ _ _ _ E2 Hm0) as [-> H2].
  cbn [output_offset dot]. assert (0 <= i * s <= (d - 1) * s) as Hb by nia. unfold in_i in *. rewrite add_product_in by (unfold in_i; lia). cbn [mbind res_mbind res_bind].
  rewrite (IH strides _ Hd Hs H); [f_equal; lia|done|lia].
Qed.

Lemma coordinates_spec shape : positive shape -> forall flat, 0 <= flat ->
  coordinates shape flat = (unravel shape (flat mod product shape), flat / product shape).
Proof.
  induction 1 as [|d shape Hd Hp IH]; intros flat Hf; cbn [coordinates unravel product].
  { by rewrite Z.div_1_r. }
  pose proof (product_positive shape Hp) as HP. rewrite (IH flat Hf). pose proof (Z.div_pos flat (product shape) Hf HP) as Hq.
  rewrite Z.rem_mod_nonneg, Z.quot_div_nonneg by lia. rewrite Z.div_div by lia. rewrite (Z.mul_comm (product shape) d).
  pose proof (Z.rem_mul_r flat (product shape) d ltac:(lia) ltac:(lia)) as E. rewrite (Z.mul_comm (product shape) d) in E.
  pose proof (Z.mod_pos_bound flat (product shape) HP). set (P := product shape) in *. set (q := (flat / P) mod d) in *. rewrite E. f_equal. f_equal.
  - rewrite (Z.mul_comm P q), Z.div_add, Z.div_small by lia. lia.
  - f_equal. rewrite (Z.mul_comm P q), Z.mod_add, Z.mod_mod by lia. done.
Qed.
Lemma coordinates_unravel shape flat : positive shape -> 0 <= flat < product shape -> (coordinates shape flat).1 = unravel shape flat.
Proof. intros Hp Hf. rewrite coordinates_spec by (done || lia). cbn. by rewrite Z.mod_small. Qed.

(** The element count: zero, or the product of positive dimensions, within [int64_t]. *)
Lemma numel_spec kernel shape : nonneg shape -> forall count n, 0 < count <= INT64_MAX -> CheckedOutputNumel kernel count shape = Ret n ->
  n = count * product shape /\ (n <> 0 -> positive shape /\ n <= INT64_MAX).
Proof.
  induction 1 as [|d shape Hd Hn IH]; intros count n Hc H; cbn [CheckedOutputNumel] in H.
  - injection H as <-. split; [cbn; lia|]. intros _. split; [constructor|lia].
  - destruct (Z.eqb_spec d 0) as [->|Hd0]; [injection H as <-; split; [cbn; lia|done]|]. destruct (CheckOverflowMul _ _ _) as [o next] eqn:E. res_inv.
    destruct (mul_checked _ _ _ _ E Hm) as [-> Hi]. destruct (IH (count * d) n) as [-> Hp]; [unfold in_i, INT64_MAX in *; nia|done|]. split; [cbn; ring|].
    intros Hne. destruct (Hp Hne) as [Hp1 Hp2]. split; [constructor; [lia|done]|done].
Qed.

(** ** Lemmas: validation *)

(** A shape that broadcasts to another one. *)
Definition fits (shape out : list Z) : Prop := Forall2 (fun d o => d = 1 \/ d = o) shape (drop (length out - length shape) out).

Lemma compatible_axes_true lhs rhs lo ro outs : forall axis, compatible_axes lhs rhs lo ro axis outs = Ret true ->
  forall i o, outs !! i = Some o -> exists x y, aligned_at lhs lo (axis + Z.of_nat i) = Ret x /\ aligned_at rhs ro (axis + Z.of_nat i) = Ret y /\ (x = 1 \/ x = o) /\ (y = 1 \/ y = o).
Proof.
  induction outs as [|out outs IH]; intros axis H i o Hi; [done|]. cbn [compatible_axes] in H. res_inv. rename a into x, a0 into y.
  destruct ((x <? 0) || (y <? 0)); [discriminate|]. cbv zeta in H. set (expected := if x =? 1 then _ else _) in H.
  destruct ((expected <? 0) || negb (out =? expected)) eqn:E; [discriminate|]. bsplit. subst out. destruct i as [|i].
  - injection Hi as <-. exists x, y. rewrite Z.add_0_r. split_and!; [done..| |]; subst expected;
      destruct (Z.eqb_spec x 1); [by left|by (destruct (Z.eqb_spec y 1), (Z.eqb_spec x y); cbn; auto; cbn in *; lia)|by right|].
    destruct (Z.eqb_spec y 1); [by left|]. destruct (Z.eqb_spec x y); [by right|cbn in *; lia].
  - destruct (IH (axis + 1) H i o Hi) as (x' & y' & H1 & H2 & ?). exists x', y'. rewrite <- H1, <- H2. split_and!; try done; f_equal; lia.
Qed.
Lemma compatible_axes_total lhs rhs lo ro outs : forall axis,
  (forall i, (i < length outs)%nat -> (exists x, aligned_at lhs lo (axis + Z.of_nat i) = Ret x) /\ exists y, aligned_at rhs ro (axis + Z.of_nat i) = Ret y) ->
  exists b, compatible_axes lhs rhs lo ro axis outs = Ret b.
Proof.
  induction outs as [|out outs IH]; intros axis H; [by exists true|]. cbn [compatible_axes]. destruct (H 0%nat ltac:(cbn; lia)) as [[x Hx] [y Hy]].
  rewrite Z.add_0_r in Hx, Hy. rewrite Hx, Hy. cbn [mbind res_mbind res_bind]. destruct (_ || _); [eauto|]. cbv zeta. destruct (_ || _); [eauto|]. apply IH.
  intros i Hi. destruct (H (S i) ltac:(cbn; lia)) as [Hx' Hy']. replace (axis + 1 + Z.of_nat i) with (axis + Z.of_nat (S i)) by lia. done.
Qed.
Lemma aligned_at_range (shape out : list Z) i : (length shape <= length out)%nat -> (i < length out)%nat -> exists x, aligned_at shape (zlen out - zlen shape) (Z.of_nat i) = Ret x.
Proof.
  intros Hl Hi. unfold aligned_at, zlen. destruct (Z.ltb_spec (Z.of_nat i) (Z.of_nat (length out) - Z.of_nat (length shape))) as [H|H]; [eauto|].
  destruct (span_at_lt shape (Z.to_nat (Z.of_nat i - (Z.of_nat (length out) - Z.of_nat (length shape))))) as (x & _ & ->); [lia|eauto].
Qed.
Lemma compatible_total lhs rhs out : (length lhs <= length out)%nat -> (length rhs <= length out)%nat -> exists b, ValidateBroadcastCompatible lhs rhs out = Ret b.
Proof. intros Hl Hr. apply compatible_axes_total. intros i Hi. rewrite Z.add_0_l. split; by apply aligned_at_range. Qed.

Lemma aligned_fits (shape out : list Z) : (length shape <= length out)%nat ->
  (forall i o, out !! i = Some o -> exists x, aligned_at shape (zlen out - zlen shape) (Z.of_nat i) = Ret x /\ (x = 1 \/ x = o)) -> fits shape out.
Proof.
  intros Hl H. apply Forall2_same_length_lookup_2; [rewrite length_drop; lia|]. intros j d o Hd Ho. rewrite lookup_drop in Ho. destruct (H _ _ Ho) as (x & Hx & Hxo).
  unfold aligned_at, zlen in Hx. rewrite (proj2 (Z.ltb_ge _ _)) in Hx by lia. apply span_at_ret in Hx.
  replace (Z.to_nat _) with j in Hx by lia. rewrite Hd in Hx. by injection Hx as <-.
Qed.
Lemma compatible_fits lhs rhs out : (length lhs <= length out)%nat -> (length rhs <= length out)%nat -> ValidateBroadcastCompatible lhs rhs out = Ret true -> fits lhs out /\ fits rhs out.
Proof.
  intros Hl Hr H. pose proof (compatible_axes_true _ _ _ _ _ 0 H) as Hax. split; apply aligned_fits; try done; intros i o Ho; destruct (Hax i o Ho) as (x & y & H1 & H2 & ? & ?); eauto.
Qed.

Lemma fits_positive shape out : positive out -> fits shape out -> positive shape /\ product shape <= product out.
Proof.
  intros Hp H. unfold fits in H. rewrite <- (take_drop (length out - length shape) out), product_app. unfold positive in Hp.
  rewrite <- (take_drop (length out - length shape) out) in Hp. apply Forall_app in Hp as [Ht Hd]. pose proof (product_positive _ Ht) as HP.
  assert (forall s l, Forall2 (fun d o => d = 1 \/ d = o) s l -> Forall (fun d => 0 < d) l -> positive s /\ product s <= product l) as Haux.
  { induction 1 as [|d o s l Hdo _ IH]; intros Hl; [by split; [constructor|]|]. apply Forall_cons in Hl as [Ho Hl]. destruct (IH Hl) as [H1 H2].
    pose proof (product_positive _ H1). split; [constructor; [lia|done]|]. cbn. nia. }
  destruct (Haux _ _ H Hd) as [H1 H2]. split; [done|]. pose proof (product_positive _ H1). nia.
Qed.
Lemma fits_selects shape out idx : fits shape out -> in_shape idx out -> in_shape (source_index shape (drop (length out - length shape) idx)) shape.
Proof.
  intros H Hin. pose proof (Forall2_drop _ _ _ (length out - length shape) Hin) as Hd. unfold fits in H. revert Hd H.
  generalize (drop (length out - length shape) idx) as i. generalize (drop (length out - length shape) out) as o. clear. intros o i Hd H. revert i Hd.
  induction H as [|d x s l Hdx _ IH]; intros i Hd; inversion Hd; subst; [constructor|]. cbn. constructor; [destruct (Z.eqb_spec d 1); lia|by apply IH].
Qed.

Lemma contiguous_loop_total shape : positive shape -> forall strides e, length shape = length strides -> 0 < e -> e * product shape <= INT64_MAX ->
  exists b, contiguous_loop e (reverse (zip shape strides)) = Ret b.
Proof.
  induction shape as [|d shape IH] using rev_ind; intros Hp strides e Hl He Hb; [by exists true|].
  destruct strides as [|s strides _] using rev_ind; [by rewrite length_app in Hl; simpl in Hl; lia|]. rewrite !length_app in Hl. cbn in Hl. apply Forall_app in Hp as [Hp Hd].
  apply Forall_cons in Hd as [Hd _]. pose proof (product_positive shape Hp) as HP. rewrite product_app in Hb. cbn in Hb.
  rewrite zip_with_app, reverse_app by lia. cbn. destruct (Z.eqb_spec d 1) as [->|]; [apply IH; [done|lia|lia|lia]|]. destruct (s =? e); [|eauto]. cbn.
  rewrite (proj2 (mul_i64_or_ret e d _ (e * d))) by (split; [done|unfold in_i, INT64_MAX in *; nia]). cbn [mbind res_mbind res_bind]. apply IH; [done|lia|nia|nia].
Qed.
Lemma contiguous_total v : v_is_valid v = Ret true -> positive (v_shape v) -> product (v_shape v) <= INT64_MAX -> exists b, v_is_contiguous v = Ret b.
Proof.
  intros Hv Hp Hb. unfold v_is_contiguous. rewrite Hv. cbn [am_check mbind res_mbind res_bind]. destruct (valid_view v Hv) as [Hl _]. unfold IsContiguous.
  destruct (v_shape v) eqn:E; [eauto|]. rewrite <- E in *. rewrite Hl, Nat.eqb_refl. cbn [negb]. apply contiguous_loop_total; [done|done|lia|lia].
Qed.

(** Outcomes that are a result or an invalid argument. *)
Definition sound_check {A} (r : Res A) : Prop := match r with Ret _ => True | Fail e => code e = StatusCode.kInvalidArgument | Panic _ => False end.
Lemma sound_check_bind {A B} (m : Res A) (f : A -> Res B) : sound_check m -> (forall a, m = Ret a -> sound_check (f a)) -> sound_check (m ≫= f).
Proof. intros Hm Hf. destruct m as [a|e|w]; [by apply Hf|done..]. Qed.
Lemma sound_check_reject b what : sound_check (reject_if b (InvalidArgument what)).
Proof. by destruct b. Qed.
(** One test of a validation. *)
Tactic Notation "check_step" simple_intropattern(x) ident(H) := apply sound_check_bind; [try apply sound_check_reject|intros x H].

Lemma max_offset_checked what shape : forall strides mx, length shape = length strides -> sound_check (max_offset_loop what shape strides mx).
Proof.
  induction shape as [|d shape IH]; intros [|s strides] mx Hl; try discriminate; [done..|]. cbn [max_offset_loop]. destruct (d =? 0); [done|].
  destruct (CheckOverflowMul _ _ _) as [o1 c]. apply sound_check_bind; [apply sound_check_reject|intros _ _]. destruct (CheckOverflowAdd _ _ _) as [o2 c2].
  apply sound_check_bind; [apply sound_check_reject|intros _ _]. apply IH. by injection Hl.
Qed.
Lemma numel_checked kernel shape : forall count, sound_check (CheckedOutputNumel kernel count shape).
Proof.
  induction shape as [|d shape IH]; intros count; [done|]. cbn [CheckedOutputNumel]. destruct (d =? 0); [done|]. destruct (CheckOverflowMul _ _ _) as [o c].
  apply sound_check_bind; [apply sound_check_reject|intros _ _; apply IH].
Qed.

(** Views as the program can make them. *)
Record view_range (v : TensorView) : Prop := {
  vr_dtype : DataType.wf (v_dtype v);
  vr_shape : Forall (in_i 64) (v_shape v) }.

Lemma wf_nbytes d : DataType.wf d -> DataType.IsScalableVector d = false -> exists n, DataType.lanes d = Ret n.
Proof.
  intros [Hw _] Hs. unfold DataType.lanes. assert (0 <= DataType.lanes_as_int d) as Hl; [|rewrite (proj2 (Z.leb_le _ _) Hl); eauto].
  unfold DataType.IsScalableVector in Hs. unfold DataType.of_raw in Hw. res_inv. rewrite Hs in Hm0.
  destruct (Z.eqb_spec (DataType.lanes_as_int d) 0); [lia|]. apply am_check_ret_any in Hm0. bsplit. lia.
Qed.
Lemma valid_checked v what : view_range v -> sound_check (require_valid v what).
Proof.
  intros [Hw _]. unfold require_valid. apply sound_check_bind; [|intros a _; apply sound_check_reject]. unfold v_is_valid, HasValidMetadata, DataType.nbytes.
  destruct (DataType.IsScalableVector _) eqn:E; [done|]. destruct (wf_nbytes _ Hw E) as [n ->]. done.
Qed.
Lemma valid_lanes v : v_is_valid v = Ret true -> exists n, DataType.lanes (v_dtype v) = Ret n.
Proof. unfold v_is_valid, HasValidMetadata, DataType.nbytes. destruct (DataType.IsScalableVector _); [discriminate|]. intros H. res_inv. eauto. Qed.
Lemma equal_total a b n k : DataType.lanes a = Ret n -> DataType.lanes b = Ret k -> exists e, DataType.equal a b = Ret e.
Proof. intros Ha Hb. unfold DataType.equal. destruct (_ || _); [eauto|]. destruct (_ && _); [|eauto]. rewrite Ha, Hb. cbn. eauto. Qed.
Lemma equal_scalar_total a n t : DataType.lanes a = Ret n -> exists e, DataType.equal a (scalar_dtype t) = Ret e.
Proof. intros Ha. eapply (equal_total a (scalar_dtype t) n); [done|]. destruct t; vm_compute; reflexivity. Qed.

(** ** The binary kernels *)

(** The address of an element of a view, and the index of an operand that an index of the
    output reads. *)
Definition elem (t : ScalarType) (v : TensorView) (idx : list Z) : Z := address (v_data v) t (dot idx (v_strides v)).
Definition src (v out : TensorView) (idx : list Z) : list Z := source_index (v_shape v) (drop (length (v_shape out) - length (v_shape v)) idx).

(** The memory of a call: every element of the views is there, elements of the output do not
    overlap, and writing one does not change an operand read for a later one. Operands may
    be the output itself, or share memory with each other. *)
Record kernel_memory (t : ScalarType) (lhs rhs out : TensorView) (m : Mem) : Prop := {
  km_lhs idx : in_shape idx (v_shape lhs) -> is_Some (read_at (scalar_size t) (elem t lhs idx) m);
  km_rhs idx : in_shape idx (v_shape rhs) -> is_Some (read_at (scalar_size t) (elem t rhs idx) m);
  km_out idx : in_shape idx (v_shape out) -> is_Some (read_at (scalar_size t) (elem t out idx) m);
  km_distinct idx idx' : in_shape idx (v_shape out) -> in_shape idx' (v_shape out) -> idx <> idx' -> apart (scalar_size t) (elem t out idx) (elem t out idx');
  km_order idx idx' : in_shape idx (v_shape out) -> in_shape idx' (v_shape out) -> row_major idx (v_shape out) < row_major idx' (v_shape out) ->
    apart (scalar_size t) (elem t out idx) (elem t lhs (src lhs out idx')) /\ apart (scalar_size t) (elem t out idx) (elem t rhs (src rhs out idx')) }.

(** What a loop over all elements of the output leaves behind. *)
Definition elementwise (t : ScalarType) (op : Z -> Z -> Stored) (lhs rhs out : TensorView) (m : Mem) (r : Res unit) (m' : Mem) : Prop :=
  (forall p, (forall idx, in_shape idx (v_shape out) -> ~ within (scalar_size t) (elem t out idx) p) -> m' !! p = m !! p) /\
  match r with
  | Ret _ => forall idx, in_shape idx (v_shape out) -> exists a b,
      read_at (scalar_size t) (elem t lhs (src lhs out idx)) m = Some a /\ read_at (scalar_size t) (elem t rhs (src rhs out idx)) m = Some b /\
      (op a b).2 = Ret tt /\ read_at (scalar_size t) (elem t out idx) m' = Some (op a b).1
  | Fail e => exists idx a b, in_shape idx (v_shape out) /\
      read_at (scalar_size t) (elem t lhs (src lhs out idx)) m = Some a /\ read_at (scalar_size t) (elem t rhs (src rhs out idx)) m = Some b /\ (op a b).2 = Fail e
  | Panic _ => False
  end.

Lemma run_ext size la ra oa la' ra' oa' f n : forall k m, (forall j, k <= j < k + Z.of_nat n -> la j = la' j /\ ra j = ra' j /\ oa j = oa' j) ->
  run size la ra oa f n k m = run size la' ra' oa' f n k m.
Proof.
  induction n as [|n IH]; intros k m H; [done|]. cbn [run]. destruct (H k ltac:(lia)) as (-> & -> & ->). unfold mbind, exec_mbind, exec_bind.
  destruct (peek size (la' k) m) as [[a|e|w] m1]; [|done..]. destruct (peek size (ra' k) m1) as [[b|e|w] m2]; [|done..]. destruct (f a b) as [x st].
  destruct (poke size (oa' k) x m2) as [[[]|e|w] m3]; [|done..]. destruct (lift st m3) as [[[]|e|w] m4]; [|done..]. apply IH. intros j Hj. apply H. lia.
Qed.

Section Binary.
Context (t : ScalarType) (op : Z -> Z -> Stored) (lhs rhs out : TensorView) (m : Mem).
Context (Hop : forall a b, 0 <= (op a b).1 < 256 ^ Z.of_nat (scalar_size t)) (Hnp : forall a b w, (op a b).2 <> Panic w).
Context (Hfl : fits (v_shape lhs) (v_shape out)) (Hfr : fits (v_shape rhs) (v_shape out)) (Hp : positive (v_shape out)).
Context (Hm : kernel_memory t lhs rhs out m).

Abbreviation at_ := (fun k => unravel (v_shape out) k).
Abbreviation all_elements := (run (scalar_size t) (fun k => elem t lhs (src lhs out (at_ k))) (fun k => elem t rhs (src rhs out (at_ k))) (fun k => elem t out (at_ k)) op).

Lemma all_elements_spec : let '(r, m') := all_elements (Z.to_nat (product (v_shape out))) 0 m in elementwise t op lhs rhs out m r m'.
Proof using Hop Hnp Hfl Hfr Hp Hm.
  pose proof (product_positive _ Hp) as HP. pose proof (unravel_spec (v_shape out) Hp) as Hu.
  pose proof (run_spec (scalar_size t) (fun k => elem t lhs (src lhs out (at_ k))) (fun k => elem t rhs (src rhs out (at_ k))) (fun k => elem t out (at_ k)) op (product (v_shape out)) Hop) as Hrun.
  specialize (Hrun ltac:(intros i j Hi Hj Hij; destruct (Hu i Hi), (Hu j Hj); apply (km_distinct _ _ _ _ _ Hm); congruence)).
  specialize (Hrun ltac:(intros i j Hi Hj; destruct (Hu i ltac:(lia)), (Hu j ltac:(lia)); apply (km_order _ _ _ _ _ Hm); [done..|lia])).
  specialize (Hrun (Z.to_nat (product (v_shape out))) 0 m ltac:(lia) ltac:(lia)). destruct (all_elements _ 0 m) as [r m']. destruct Hrun as [Hfr' Hres]. rewrite Z2Nat.id in * by lia. split.
  - intros p Hpn. apply Hfr'. intros j Hj. apply Hpn. by apply Hu.
  - destruct r as [[]|e|w].
    + intros idx Hin. pose proof (row_major_range _ _ Hin). destruct (Hres (row_major idx (v_shape out)) ltac:(lia)) as (a & b & H1 & H2 & H3 & H4).
      rewrite (unravel_row_major _ _ Hin) in *. by exists a, b.
    + destruct Hres as (j & a & b & Hj & ?). exists (at_ j), a, b. split; [by apply Hu|done].
    + destruct Hres as (j & Hj & H). destruct (Hu j Hj) as [Hin _].
      destruct (km_lhs _ _ _ _ _ Hm _ (fits_selects _ _ _ Hfl Hin)), (km_rhs _ _ _ _ _ Hm _ (fits_selects _ _ _ Hfr Hin)), (km_out _ _ _ _ _ Hm _ Hin).
      destruct H as [H|[H|[H|(a & b & H)]]]; try (unfold src in H; congruence). by apply Hnp in H.
Qed.

(** The flat loop walks the same elements when the layouts are dense. *)
Lemma flat_loop_run n : forall k, flat_loop n k t op (v_data lhs) (v_data rhs) (v_data out) = run (scalar_size t) (address (v_data lhs) t) (address (v_data rhs) t) (address (v_data out) t) op n k.
Proof using. induction n as [|n IH]; intros k; [done|]. cbn [flat_loop run]. by rewrite IH. Qed.
Lemma flat_loop_elements : v_is_contiguous lhs = Ret true -> v_is_contiguous rhs = Ret true -> v_is_contiguous out = Ret true ->
  v_shape lhs = v_shape out -> v_shape rhs = v_shape out ->
  flat_loop (Z.to_nat (product (v_shape out))) 0 t op (v_data lhs) (v_data rhs) (v_data out) m = all_elements (Z.to_nat (product (v_shape out))) 0 m.
Proof using Hp.
  intros Cl Cr Co El Er. rewrite flat_loop_run. apply run_ext. intros j Hj. pose proof (product_positive _ Hp). destruct (unravel_spec _ Hp j ltac:(lia)) as [Hin Hrm].
  apply v_is_contiguous_ret in Cl as [_ Cl], Cr as [_ Cr], Co as [_ Co]. unfold elem, src. rewrite El, Er, Nat.sub_diag, drop_0, source_index_self by done.
  assert (forall v, v_shape v = v_shape out -> (forall idx, in_shape idx (v_shape v) -> dot idx (v_strides v) = row_major idx (v_shape v)) -> dot (at_ j) (v_strides v) = j) as Hj'.
  { intros v E C. rewrite C by (by rewrite E). by rewrite E. }
  by rewrite !Hj'.
Qed.

(** So does the strided loop, and no offset overflows. *)
Lemma strided_run args what1 what2 what3 : nonneg (v_strides lhs) -> nonneg (v_strides rhs) -> nonneg (v_strides out) ->
  max_offset_loop what1 (v_shape lhs) (v_strides lhs) 0 = Ret tt -> max_offset_loop what2 (v_shape rhs) (v_strides rhs) 0 = Ret tt -> max_offset_loop what3 (v_shape out) (v_strides out) 0 = Ret tt ->
  lhs_data args = v_data lhs -> rhs_data args = v_data rhs -> output_data args = v_data out -> lhs_shape args = v_shape lhs -> lhs_strides args = v_strides lhs ->
  rhs_shape args = v_shape rhs -> rhs_strides args = v_strides rhs -> output_shape args = v_shape out -> output_strides args = v_strides out ->
  forall n k m0, 0 <= k -> k + Z.of_nat n <= product (v_shape out) -> strided_elements n k t op args m0 = all_elements n k m0.
Proof using Hp Hfl Hfr.
  intros Nl Nr No Ml Mr Mo A1 A2 A3 A4 A5 A6 A7 A8 A9. destruct (fits_positive _ _ Hp Hfl) as [Pl _]. destruct (fits_positive _ _ Hp Hfr) as [Pr _].
  assert (forall s, positive s -> Forall (fun d => 1 <= d) s) as Hge by (intros s Hs; eapply Forall_impl; [exact Hs|cbn; lia]).
  induction n as [|n IH]; intros k m0 Hk Hn; [done|]. cbn [strided_elements run]. rewrite A1, A2, A3, A4, A5, A6, A7, A8, A9. rewrite coordinates_unravel by (done || lia).
  destruct (unravel_spec _ Hp k ltac:(lia)) as [Hin _]. set (idx := unravel (v_shape out) k) in *. pose proof (Forall2_length _ _ _ Hin) as Hli.
  assert (forall v, fits (v_shape v) (v_shape out) -> length (drop (length idx - length (v_shape v)) idx) = length (v_shape v)) as Hlen.
  { intros v Hv. pose proof (Forall2_length _ _ _ Hv) as Hl. rewrite length_drop in Hl |- *. lia. }
  unfold MapCoordToOffset. rewrite Hli.
  rewrite (bounded_offsets _ _ _ _ (Hge _ Pl) Nl Ml (drop (length (v_shape out) - length (v_shape lhs)) idx) 0); [|rewrite <- Hli; by apply Hlen|by apply fits_selects|lia].
  rewrite (bounded_offsets _ _ _ _ (Hge _ Pr) Nr Mr (drop (length (v_shape out) - length (v_shape rhs)) idx) 0); [|rewrite <- Hli; by apply Hlen|by apply fits_selects|lia].
  rewrite (bounded_output _ _ _ _ (Hge _ Hp) No Mo idx 0 Hin) by lia. rewrite !Z.add_0_l. unfold mbind, exec_mbind, exec_bind, lift at 1 2 3. unfold elem, src.
  destruct (peek _ _ m0) as [[a|e|w] m1]; [|done..]. destruct (peek _ _ m1) as [[b|e|w] m2]; [|done..]. destruct (op a b) as [x st].
  destruct (poke _ _ x m2) as [[[]|e|w] m3]; [|done..]. destruct (lift st m3) as [[[]|e|w] m4]; [|done..]. apply IH; lia.
Qed.
End Binary.

(** ** The addition kernel *)

Section AddCorrect.
Context {FA : FloatArith}.

Lemma add_stored_range t a b : 0 <= (AddKernelScalar t a b).1 < 256 ^ Z.of_nat (scalar_size t).
Proof. unfold AddKernelScalar. destruct t; try (by apply pattern_range); destruct (CheckOverflowAdd _ _ _); apply pattern_range. Qed.

(** The kernel stores what the constant evaluator computes, and refuses what it refuses. *)
Lemma add_stored_folds t a b :
  match (AddKernelScalar t a b).2 with
  | Ret _ => AddScalar t a b = Ret (AddKernelScalar t a b).1
  | Fail e => code e = StatusCode.kOverflow /\ AddScalar t a b = Fail (Overflow "Add constant evaluator integer overflow")
  | Panic _ => False
  end.
Proof. unfold AddKernelScalar, AddScalar, checked_int. destruct t; try done; (destruct (CheckOverflowAdd _ _ _) as [[] r]; done). Qed.

Lemma all_hold_checked l : Forall sound_check l -> sound_check (all_hold l).
Proof. induction 1 as [|r l Hr _ IH]; [done|]. cbn [all_hold]. apply sound_check_bind; [done|]. by intros [] _. Qed.
Lemma any_equal_checked d l n : DataType.lanes d = Ret n -> Forall (fun s => exists k, DataType.lanes s = Ret k) l -> sound_check (DataType.any_equal d l).
Proof. intros Hd. induction 1 as [|s l [k Hk] _ IH]; [done|]. cbn [DataType.any_equal]. destruct (equal_total d s n k Hd Hk) as [[] ->]; done. Qed.
Lemma any_equal_select d types : DataType.any_equal d (scalar_dtype <$> types) = Ret true -> exists t, select d types = Ret (Some t) /\ DataType.equal d (scalar_dtype t) = Ret true.
Proof.
  induction types as [|t types IH]; cbn; intros H; [discriminate|]. destruct (DataType.equal d (scalar_dtype t)) as [[]|e|w] eqn:E; cbn in H |- *; [|by apply IH|discriminate..].
  by exists t.
Qed.
Lemma require_valid_ret v what : require_valid v what = Ret tt -> v_is_valid v = Ret true.
Proof. unfold require_valid. intros H. res_inv. bsplit. by subst. Qed.

(** What a successful validation of a non-empty addition established. *)
Record add_ready (lhs rhs out : TensorView) (args : AddKernelArgs) : Prop := {
  ar_lhs : v_is_valid lhs = Ret true; ar_rhs : v_is_valid rhs = Ret true; ar_out : v_is_valid out = Ret true;
  ar_same_rhs : DataType.equal (v_dtype rhs) (v_dtype lhs) = Ret true; ar_same_out : DataType.equal (v_dtype out) (v_dtype lhs) = Ret true;
  ar_type : IsAddSupportedDType (v_dtype lhs) = Ret true;
  ar_fit_lhs : fits (v_shape lhs) (v_shape out); ar_fit_rhs : fits (v_shape rhs) (v_shape out);
  ar_positive : positive (v_shape out);
  ar_bounds : max_offset_loop "AddKernel lhs offset overflow" (v_shape lhs) (v_strides lhs) 0 = Ret tt /\
    max_offset_loop "AddKernel rhs offset overflow" (v_shape rhs) (v_strides rhs) 0 = Ret tt /\
    max_offset_loop "AddKernel output offset overflow" (v_shape out) (v_strides out) 0 = Ret tt;
  ar_flat : is_flat args = true -> v_is_contiguous lhs = Ret true /\ v_is_contiguous rhs = Ret true /\ v_is_contiguous out = Ret true /\ v_shape lhs = v_shape out /\ v_shape rhs = v_shape out;
  ar_args : args = mkAddArgs (v_data lhs) (v_data rhs) (v_data out) (v_dtype lhs) (product (v_shape out)) (is_flat args) (v_shape lhs) (v_strides lhs)
    (v_shape rhs) (v_strides rhs) (v_shape out) (v_strides out) }.

Lemma ranks_of lhs rhs out : (v_rank out =? Z.max (v_rank lhs) (v_rank rhs)) = true -> (length (v_shape lhs) <= length (v_shape out))%nat /\ (length (v_shape rhs) <= length (v_shape out))%nat.
Proof. unfold v_rank, zlen. intros H. bsplit. lia. Qed.

Lemma ValidateAndBuildArgs_ready lhs rhs out args : ValidateAndBuildArgs (mkAddParams lhs rhs out) = Ret args ->
  (args = empty_args /\ product (v_shape out) = 0) \/ (arg_numel args <> 0 /\ add_ready lhs rhs out args).
Proof.
  intros H. unfold ValidateAndBuildArgs in H. cbn [lhs_tensor rhs_tensor output_tensor] in H.
  apply res_bind_ret_inv in H as ([] & Vl & H). apply res_bind_ret_inv in H as ([] & Vr & H). apply res_bind_ret_inv in H as ([] & Vo & H).
  apply require_valid_ret in Vl, Vr, Vo. apply res_bind_ret_inv in H as (same & Hsame & H). apply res_bind_ret_inv in H as (? & Hs & H). apply res_bind_ret_inv in H as (sup & Hsup & H).
  apply res_bind_ret_inv in H as (? & Hs2 & H). apply res_bind_ret_inv in H as (? & Hrank & H). apply res_bind_ret_inv in H as (? & _ & H). apply res_bind_ret_inv in H as (ok & Hok & H).
  apply res_bind_ret_inv in H as (? & Hs3 & H). apply res_bind_ret_inv in H as (numel & Hnum & H). res_inv. apply negb_false_iff in Hs, Hs2, Hs3, Hrank. subst.
  destruct (ranks_of _ _ _ Hrank) as [Ll Lr]. destruct (compatible_fits _ _ _ Ll Lr Hok) as [Fl Fr]. destruct (valid_view out Vo) as (_ & No & _).
  destruct (numel_spec _ _ No 1 numel ltac:(unfold INT64_MAX; lia) Hnum) as [-> Hpos]. rewrite Z.mul_1_l in *.
  destruct (Z.eqb_spec (product (v_shape out)) 0) as [Hz|Hz]; [injection H as <-; by left|right].
  do 3 (apply res_bind_ret_inv in H as (? & _ & H)). apply res_bind_ret_inv in H as ([] & M1 & H). apply res_bind_ret_inv in H as ([] & M2 & H). apply res_bind_ret_inv in H as ([] & M3 & H).
  apply res_bind_ret_inv in H as (flat & Hflat & H). injection H as <-. split; [done|]. apply all_hold_ret in Hsame. rewrite !Forall_cons in Hsame. destruct Hsame as (S1 & S2 & _).
  constructor; try done; [by apply Hpos|]. cbn [is_flat]. intros ->. apply all_hold_ret in Hflat. rewrite !Forall_cons in Hflat. destruct Hflat as (C1 & C2 & C3 & E1 & E2 & _).
  injection E1 as E1. injection E2 as E2. bsplit. done.
Qed.


Lemma ValidateAndBuildArgs_checked lhs rhs out : view_range lhs -> view_range rhs -> view_range out -> sound_check (ValidateAndBuildArgs (mkAddParams lhs rhs out)).
Proof.
  intros Rl Rr Ro. unfold ValidateAndBuildArgs. cbn [lhs_tensor rhs_tensor output_tensor]. check_step [] Vl; [by apply valid_checked|]. check_step [] Vr; [by apply valid_checked|].
  check_step [] Vo; [by apply valid_checked|]. apply require_valid_ret in Vl, Vr, Vo. destruct (valid_lanes _ Vl) as [nl Hl], (valid_lanes _ Vr) as [nr Hr], (valid_lanes _ Vo) as [no Hno].
  check_step same Hsame. { apply all_hold_checked. destruct (equal_total _ _ _ _ Hr Hl) as [? ->], (equal_total _ _ _ _ Hno Hl) as [? ->]. by repeat constructor. }
  check_step ? _1. check_step sup Hsup. { apply (any_equal_checked _ _ nl Hl). repeat constructor; eexists; vm_compute; reflexivity. }
  check_step ? _2. check_step ? Hrank. check_step ? _3. res_inv. apply negb_false_iff in Hrank. destruct (ranks_of _ _ _ Hrank) as [Ll Lr].
  check_step ok Hok. { by destruct (compatible_total _ _ _ Ll Lr) as [? ->]. }
  check_step ? Hs3. check_step numel Hnum; [apply numel_checked|]. res_inv. apply negb_false_iff in Hs3. subst ok.
  destruct (valid_view _ Vl) as (Sl & _), (valid_view _ Vr) as (Sr & _), (valid_view _ Vo) as (So & No & _).
  destruct (numel_spec _ _ No 1 numel ltac:(unfold INT64_MAX; lia) Hnum) as [-> Hpos]. rewrite Z.mul_1_l in *. destruct (Z.eqb_spec (product (v_shape out)) 0) as [Hz|Hz]; [done|].
  destruct (Hpos Hz) as [Hp Hb]. destruct (compatible_fits _ _ _ Ll Lr Hok) as [Fl Fr]. destruct (fits_positive _ _ Hp Fl) as [Pl Bl], (fits_positive _ _ Hp Fr) as [Pr Br].
  check_step ? _4. check_step ? _5. check_step ? _6. check_step ? _7; [by apply max_offset_checked|]. check_step ? _8; [by apply max_offset_checked|]. check_step ? _9; [by apply max_offset_checked|].
  check_step ? _10; [|done]. apply all_hold_checked.
  destruct (contiguous_total lhs Vl Pl ltac:(lia)) as [? ->], (contiguous_total rhs Vr Pr ltac:(lia)) as [? ->], (contiguous_total out Vo Hp Hb) as [? ->]. by repeat constructor.
Qed.

(** The element type of a view. *)
Definition view_typed (t : ScalarType) (v : TensorView) : Prop := DataType.equal (v_dtype v) (scalar_dtype t) = Ret true.

Lemma ready_types lhs rhs out args : add_ready lhs rhs out args ->
  exists t, select (v_dtype lhs) add_types = Ret (Some t) /\ view_typed t lhs /\ view_typed t rhs /\ view_typed t out.
Proof.
  intros H. destruct (any_equal_select (v_dtype lhs) add_types) as (t & Hs & Ht); [exact (ar_type _ _ _ _ H)|]. exists t. split_and!; [done|done|..]; eapply equal_trans; try done; try by destruct t.
  - exact (ar_same_rhs _ _ _ _ H).
  - exact (ar_same_out _ _ _ _ H).
Qed.

Lemma AddKernel_Scalar_elementwise lhs rhs out args m t : add_ready lhs rhs out args -> select (v_dtype lhs) add_types = Ret (Some t) -> kernel_memory t lhs rhs out m ->
  let '(r, m') := AddKernel_Scalar args m in elementwise t (AddKernelScalar t) lhs rhs out m r m'.
Proof.
  intros H Hs Hm. unfold AddKernel_Scalar. rewrite (ar_args _ _ _ _ H). cbn [arg_dtype]. rewrite Hs. unfold mbind, exec_mbind, exec_bind, lift at 1.
  pose proof (all_elements_spec t (AddKernelScalar t) lhs rhs out m (add_stored_range t) ltac:(intros a b w E; pose proof (add_stored_folds t a b) as F; by rewrite E in F)
    (ar_fit_lhs _ _ _ _ H) (ar_fit_rhs _ _ _ _ H) (ar_positive _ _ _ _ H) Hm) as Hall.
  unfold ExecuteTyped, ExecuteTypedFlat, ExecuteTypedStrided. cbn [is_flat arg_numel lhs_data rhs_data output_data]. destruct (is_flat args) eqn:Ef.
  - destruct (ar_flat _ _ _ _ H Ef) as (C1 & C2 & C3 & E1 & E2). by rewrite (flat_loop_elements t _ lhs rhs out m (ar_positive _ _ _ _ H) C1 C2 C3 E1 E2).
  - destruct (ar_bounds _ _ _ _ H) as (B1 & B2 & B3). destruct (valid_view _ (ar_lhs _ _ _ _ H)) as (_ & _ & N1), (valid_view _ (ar_rhs _ _ _ _ H)) as (_ & _ & N2), (valid_view _ (ar_out _ _ _ _ H)) as (_ & _ & N3).
    pose proof (product_positive _ (ar_positive _ _ _ _ H)).
    rewrite (strided_run t (AddKernelScalar t) lhs rhs out (ar_fit_lhs _ _ _ _ H) (ar_fit_rhs _ _ _ _ H) (ar_positive _ _ _ _ H) _ _ _ _ N1 N2 N3 B1 B2 B3) by (try reflexivity; lia). done.
Qed.

(** C24: The addition kernel, on every outcome and with any overlap of operands and output
    that does not overwrite an operand before it is read (in-place addition included). It
    never accesses memory outside its views and no offset overflows. An invalid argument
    changes nothing. On success every element of the output is the one constant folding
    would compute from the operands that broadcasting selects, read before the call; bytes
    outside the output are untouched. An overflow is reported only when some element of the
    sum does not fit, which folding refuses as well. *)
Theorem AddKernel_exact lhs rhs out m : view_range lhs -> view_range rhs -> view_range out ->
  (forall t, view_typed t lhs -> kernel_memory t lhs rhs out m) ->
  match AddKernel (Some (mkAddParams lhs rhs out)) m with
  | (Ret _, m') =>
      (product (v_shape out) = 0 /\ m' = m) \/
      exists t, view_typed t lhs /\ view_typed t rhs /\ view_typed t out /\
        (forall idx, in_shape idx (v_shape out) -> exists a b y,
           read_at (scalar_size t) (elem t lhs (src lhs out idx)) m = Some a /\ read_at (scalar_size t) (elem t rhs (src rhs out idx)) m = Some b /\
           AddScalar t a b = Ret y /\ read_at (scalar_size t) (elem t out idx) m' = Some y) /\
        (forall p, (forall idx, in_shape idx (v_shape out) -> ~ within (scalar_size t) (elem t out idx) p) -> m' !! p = m !! p)
  | (Fail e, m') =>
      (code e = StatusCode.kInvalidArgument /\ m' = m) \/
      (code e = StatusCode.kOverflow /\ exists t idx a b, view_typed t lhs /\ in_shape idx (v_shape out) /\
         read_at (scalar_size t) (elem t lhs (src lhs out idx)) m = Some a /\ read_at (scalar_size t) (elem t rhs (src rhs out idx)) m = Some b /\
         AddScalar t a b = Fail (Overflow "Add constant evaluator integer overflow"))
  | (Panic _, _) => False
  end.
Proof.
  intros Rl Rr Ro Hmem. unfold AddKernel, mbind, exec_mbind, exec_bind, lift. pose proof (ValidateAndBuildArgs_checked _ _ _ Rl Rr Ro) as Hck.
  destruct (ValidateAndBuildArgs (mkAddParams lhs rhs out)) as [args|e|w] eqn:Ev; cbn in Hck; [|by left|done].
  destruct (ValidateAndBuildArgs_ready _ _ _ _ Ev) as [[-> Hz]|[Hne Hr]]; [by left|]. rewrite (proj2 (Z.eqb_neq _ _) Hne).
  destruct (ready_types _ _ _ _ Hr) as (t & Hs & Tl & Tr & To). pose proof (AddKernel_Scalar_elementwise _ _ _ _ m t Hr Hs (Hmem t Tl)) as He.
  destruct (AddKernel_Scalar args m) as [[[]|e|w] m']; destruct He as [Hfr He]; [| |done].
  - right. exists t. split_and!; [done..| |done]. intros idx Hin. destruct (He idx Hin) as (a & b & H1 & H2 & H3 & H4). exists a, b, (AddKernelScalar t a b).1.
    pose proof (add_stored_folds t a b) as F. rewrite H3 in F. done.
  - right. destruct He as (idx & a & b & Hin & H1 & H2 & H3). pose proof (add_stored_folds t a b) as F. rewrite H3 in F. destruct F as [Hc F]. split; [done|]. by exists t, idx, a, b.
Qed.
End AddCorrect.

(** ** The product kernel *)

Section MulCorrect.
Context {FA : FloatArith}.

Lemma mul_numel_same kernel shape : forall count n, MulCheckedOutputNumel count shape = Ret n -> CheckedOutputNumel kernel count shape = Ret n.
Proof.
  induction shape as [|d shape IH]; intros count n H; cbn [MulCheckedOutputNumel CheckedOutputNumel] in *; [done|]. destruct (d =? 0); [done|].
  destruct (CheckOverflowMul _ _ _) as [o next]. res_inv. rewrite Hm. cbn [reject_if mbind res_mbind res_bind]. by apply IH.
Qed.
Lemma mul_numel_checked shape : forall count, sound_check (MulCheckedOutputNumel count shape).
Proof.
  induction shape as [|d shape IH]; intros count; [done|]. cbn [MulCheckedOutputNumel]. destruct (d =? 0); [done|]. destruct (CheckOverflowMul _ _ _) as [o c].
  check_step ? _1. check_step ? _2. apply IH.
Qed.

(** What the validation of a product established. *)
Record mul_ready (lhs rhs out : TensorView) (n : Z) : Prop := {
  mr_lhs : v_is_valid lhs = Ret true; mr_rhs : v_is_valid rhs = Ret true; mr_out : v_is_valid out = Ret true;
  mr_types : view_typed sFloat lhs /\ view_typed sFloat rhs /\ view_typed sFloat out;
  mr_fit_lhs : fits (v_shape lhs) (v_shape out); mr_fit_rhs : fits (v_shape rhs) (v_shape out);
  mr_positive : positive (v_shape out); mr_numel : n = product (v_shape out);
  mr_bounds : max_offset_loop "ElementwiseMulKernel lhs offset overflow" (v_shape lhs) (v_strides lhs) 0 = Ret tt /\
    max_offset_loop "ElementwiseMulKernel rhs offset overflow" (v_shape rhs) (v_strides rhs) 0 = Ret tt /\
    max_offset_loop "ElementwiseMulKernel output offset overflow" (v_shape out) (v_strides out) 0 = Ret tt }.

Lemma require_dtype_ret v what : require_dtype v DataType.Float32 what = Ret tt -> view_typed sFloat v.
Proof. unfold require_dtype. intros H. res_inv. bsplit. by subst. Qed.

Lemma mul_validate_ready lhs rhs out n : mul_validate (mkMulParams lhs rhs out) = Ret n -> (n = 0 /\ product (v_shape out) = 0) \/ (n <> 0 /\ mul_ready lhs rhs out n).
Proof.
  intros H. unfold mul_validate in H. cbn [mul_lhs mul_rhs mul_output] in H.
  apply res_bind_ret_inv in H as ([] & Vl & H). apply res_bind_ret_inv in H as ([] & Vr & H). apply res_bind_ret_inv in H as ([] & Vo & H). apply require_valid_ret in Vl, Vr, Vo.
  apply res_bind_ret_inv in H as ([] & Tl & H). apply res_bind_ret_inv in H as ([] & Tr & H). apply res_bind_ret_inv in H as ([] & To & H). apply require_dtype_ret in Tl, Tr, To.
  apply res_bind_ret_inv in H as (? & Hrank & H). apply res_bind_ret_inv in H as (? & _ & H). apply res_bind_ret_inv in H as (ok & Hok & H).
  apply res_bind_ret_inv in H as (? & Hs & H). apply res_bind_ret_inv in H as (numel & Hnum & H). res_inv. apply negb_false_iff in Hs, Hrank. subst.
  destruct (ranks_of _ _ _ Hrank) as [Ll Lr]. destruct (compatible_fits _ _ _ Ll Lr Hok) as [Fl Fr]. destruct (valid_view out Vo) as (_ & No & _).
  destruct (numel_spec _ _ No 1 numel ltac:(unfold INT64_MAX; lia) (mul_numel_same "" _ _ _ Hnum)) as [-> Hpos]. rewrite Z.mul_1_l in *.
  destruct (Z.eqb_spec (product (v_shape out)) 0) as [Hz|Hz]; [injection H as <-; by left|right].
  do 3 (apply res_bind_ret_inv in H as (? & _ & H)). apply res_bind_ret_inv in H as ([] & M1 & H). apply res_bind_ret_inv in H as ([] & M2 & H). apply res_bind_ret_inv in H as ([] & M3 & H).
  injection H as <-. split; [done|]. constructor; try done. by apply Hpos.
Qed.
Lemma require_dtype_checked v what n : DataType.lanes (v_dtype v) = Ret n -> sound_check (require_dtype v DataType.Float32 what).
Proof. intros H. unfold require_dtype. destruct (equal_scalar_total _ _ sFloat H) as [e E]. change DataType.Float32 with (scalar_dtype sFloat). rewrite E. apply sound_check_reject. Qed.
Lemma mul_validate_checked lhs rhs out : view_range lhs -> view_range rhs -> view_range out -> sound_check (mul_validate (mkMulParams lhs rhs out)).
Proof.
  intros Rl Rr Ro. unfold mul_validate. cbn [mul_lhs mul_rhs mul_output]. check_step [] Vl; [by apply valid_checked|]. check_step [] Vr; [by apply valid_checked|].
  check_step [] Vo; [by apply valid_checked|]. apply require_valid_ret in Vl, Vr, Vo. destruct (valid_lanes _ Vl) as [nl Hl], (valid_lanes _ Vr) as [nr Hr], (valid_lanes _ Vo) as [no Hno].
  check_step ? _1; [by eapply require_dtype_checked|]. check_step ? _2; [by eapply require_dtype_checked|]. check_step ? _3; [by eapply require_dtype_checked|].
  check_step ? Hrank. check_step ? _4. apply reject_if_ret_any in Hrank. apply negb_false_iff in Hrank. destruct (ranks_of _ _ _ Hrank) as [Ll Lr].
  check_step ok Hok. { by destruct (compatible_total _ _ _ Ll Lr) as [? E]; unfold MulValidateBroadcastCompatible; rewrite E. }
  check_step ? _5. check_step numel Hnum; [apply mul_numel_checked|]. destruct (numel =? 0); [done|].
  destruct (valid_view _ Vl) as (Sl & _), (valid_view _ Vr) as (Sr & _), (valid_view _ Vo) as (So & _).
  check_step ? _6. check_step ? _7. check_step ? _8. check_step ? _9; [by apply max_offset_checked|]. check_step ? _10; [by apply max_offset_checked|]. check_step ? _11; [by apply max_offset_checked|]. done.
Qed.

Lemma mul_elements_elementwise lhs rhs out n m : mul_ready lhs rhs out n -> kernel_memory sFloat lhs rhs out m ->
  let '(r, m') := mul_elements lhs rhs out n m in elementwise sFloat mul_stored lhs rhs out m r m'.
Proof.
  intros H Hm. pose proof (mr_positive _ _ _ _ H) as Hp. pose proof (mr_fit_lhs _ _ _ _ H) as Fl. pose proof (mr_fit_rhs _ _ _ _ H) as Fr.
  pose proof (all_elements_spec sFloat mul_stored lhs rhs out m (fun a b => pattern_range sFloat (f32_mul a b)) ltac:(done) Fl Fr Hp Hm) as Hall.
  unfold mul_elements. destruct (v_shape out) as [|d shape] eqn:E.
  - unfold fits in Fl, Fr. rewrite drop_nil in Fl, Fr. apply Forall2_nil_inv_r in Fl, Fr. cbn [product] in Hall. change (Z.to_nat 1) with 1%nat in Hall. cbn [run] in Hall.
    unfold elem at 1 2 3, src at 1 2 in Hall. rewrite Fl, Fr in Hall. cbn [source_index zip_with drop dot unravel] in Hall. cbn [scalar_size] in Hall.
    unfold mbind, exec_mbind, exec_bind in *. destruct (peek 4 _ m) as [[a|e|w] m1]; [|done..]. destruct (peek 4 _ m1) as [[b|e|w] m2]; [|done..]. cbn [mul_stored] in Hall.
    by destruct (poke 4 _ _ m2) as [[[]|e|w] m3].
  - rewrite <- E in *. destruct (mr_bounds _ _ _ _ H) as (B1 & B2 & B3). pose proof (product_positive _ Hp). rewrite (mr_numel _ _ _ _ H).
    destruct (valid_view _ (mr_lhs _ _ _ _ H)) as (_ & _ & N1), (valid_view _ (mr_rhs _ _ _ _ H)) as (_ & _ & N2), (valid_view _ (mr_out _ _ _ _ H)) as (_ & _ & N3).
    by rewrite (strided_run sFloat mul_stored lhs rhs out Fl Fr Hp _ _ _ _ N1 N2 N3 B1 B2 B3) by (try reflexivity; lia).
Qed.

(** The product kernel, on every outcome: memory safe, an invalid argument changes
    nothing, and on success every element of the output is the product, as constant folding
    computes it, of the operands that broadcasting selects. *)
Theorem ElementwiseMulKernel_exact lhs rhs out m : view_range lhs -> view_range rhs -> view_range out -> kernel_memory sFloat lhs rhs out m ->
  match ElementwiseMulKernel (Some (mkMulParams lhs rhs out)) m with
  | (Ret _, m') =>
      (product (v_shape out) = 0 /\ m' = m) \/
      (forall idx, in_shape idx (v_shape out) -> exists a b y,
         read_at 4 (elem sFloat lhs (src lhs out idx)) m = Some a /\ read_at 4 (elem sFloat rhs (src rhs out idx)) m = Some b /\
         MultiplyScalar sFloat a b = Ret y /\ read_at 4 (elem sFloat out idx) m' = Some y) /\
      (forall p, (forall idx, in_shape idx (v_shape out) -> ~ within 4 (elem sFloat out idx) p) -> m' !! p = m !! p)
  | (Fail e, m') => code e = StatusCode.kInvalidArgument /\ m' = m
  | (Panic _, _) => False
  end.
Proof.
  intros Rl Rr Ro Hmem. unfold ElementwiseMulKernel, ValidateAndExecute, mbind, exec_mbind, exec_bind, lift. pose proof (mul_validate_checked _ _ _ Rl Rr Ro) as Hck.
  destruct (mul_validate (mkMulParams lhs rhs out)) as [n|e|w] eqn:Ev; cbn in Hck; [|done..]. destruct (mul_validate_ready _ _ _ _ Ev) as [[-> Hz]|[Hne Hr]]; [by left|].
  rewrite (proj2 (Z.eqb_neq _ _) Hne). cbn [mul_lhs mul_rhs mul_output]. pose proof (mul_elements_elementwise _ _ _ _ m Hr Hmem) as He.
  destruct (mul_elements lhs rhs out n m) as [[[]|e|w] m']; destruct He as [Hfr He]; [| |done].
  - right. split; [|done]. intros idx Hin. destruct (He idx Hin) as (a & b & H1 & H2 & H3 & H4). by exists a, b, (mul_stored a b).1.
  - by destruct He as (idx & a & b & _ & _ & _ & He).
Qed.
End MulCorrect.

(** ** The embedding kernel *)

Definition region (a n p : Z) : Prop := a <= p < a + n.
Definition bytes_ok (m : Mem) : Prop := forall p b, m !! p = Some b -> 0 <= b < 256.

Lemma le_val_bytes l : Forall (fun b => 0 <= b < 256) l -> 0 <= le_val 256 l < 256 ^ zlen l.
Proof.
  induction 1 as [|b l Hb _ IH]; cbn [le_val]; [by vm_compute|]. unfold zlen in *. cbn [length]. rewrite Nat2Z.inj_succ, Z.pow_succ_r by lia. lia.
Qed.
Lemma read_at_range n a m x : (forall p b, within n a p -> m !! p = Some b -> 0 <= b < 256) -> read_at n a m = Some x -> 0 <= x < 256 ^ Z.of_nat n.
Proof.
  unfold read_at. intros Hm H. destruct (mapM _ _) as [l|] eqn:E; [|discriminate]. injection H as <-. apply mapM_Some in E.
  assert (length l = n) as Hl by (apply Forall2_length in E; rewrite length_seq in E; done). replace (Z.of_nat n) with (zlen l) by (unfold zlen; lia). apply le_val_bytes.
  apply Forall_lookup. intros i b Hb. destruct (Forall2_lookup_r _ _ _ _ _ E Hb) as (j & Hj & Ej). apply lookup_seq in Hj as [-> Hj]. eapply Hm; [|exact Ej]. unfold within. lia.
Qed.
Lemma read_at_some n a m : (forall p, within n a p -> is_Some (m !! p)) -> is_Some (read_at n a m).
Proof.
  intros H. unfold read_at. apply fmap_is_Some, mapM_is_Some, Forall_forall. intros i Hi. apply elem_of_seq in Hi. apply H. unfold within. lia.
Qed.

(** Copying between regions that do not overlap. *)
Lemma copy_floats_spec n : forall s d m, (forall p, region s (4 * Z.of_nat n) p -> ~ region d (4 * Z.of_nat n) p) ->
  (forall p, region s (4 * Z.of_nat n) p -> exists b, m !! p = Some b /\ 0 <= b < 256) -> (forall p, region d (4 * Z.of_nat n) p -> is_Some (m !! p)) ->
  exists m', copy_floats n s d m = (Ret tt, m') /\ (forall p, ~ region d (4 * Z.of_nat n) p -> m' !! p = m !! p) /\
    (forall p, is_Some (m !! p) -> is_Some (m' !! p)) /\
    forall j, 0 <= j < Z.of_nat n -> read_at 4 (d + 4 * j) m' = read_at 4 (s + 4 * j) m.
Proof.
  induction n as [|n IH]; intros s d m Hd Hs Hw; [exists m; split_and!; [done..|lia]|]. cbn [copy_floats]. unfold mbind, exec_mbind, exec_bind, peek, region in *.
  destruct (read_at_some 4 s m) as [x Ex]; [intros p Hp; unfold within in Hp; destruct (Hs p ltac:(lia)) as (b & -> & _); eauto|]. rewrite Ex. unfold poke.
  destruct (read_at_some 4 d m) as [o ->]; [intros p Hp; unfold within in Hp; apply Hw; lia|]. set (m1 := write_bytes d (le_units 4 256 x) m).
  assert (forall p, ~ (d <= p < d + 4) -> m1 !! p = m !! p) as Hm1 by (intros p Hp; unfold m1; rewrite write_bytes_lookup, decide_False; [done|unfold within; rewrite le_units_length; lia]).
  assert (forall p, is_Some (m !! p) -> is_Some (m1 !! p)) as Hk.
  { intros p Hp. unfold m1. rewrite write_bytes_lookup. destruct (decide _) as [Hin|]; [|done]. apply lookup_lt_is_Some. unfold within in Hin. rewrite le_units_length in *. lia. }
  assert (0 <= x < 256 ^ Z.of_nat 4) as Hx.
  { eapply read_at_range; [|exact Ex]. intros p b Hp Hb. unfold within in Hp. destruct (Hs p ltac:(lia)) as (b' & E & ?). rewrite Hb in E. by injection E as ->. }
  destruct (IH (s + 4) (d + 4) m1) as (m' & E & Hf & Hk' & Hr).
  - intros p Hp Hq. apply (Hd p); lia.
  - intros p Hp. rewrite Hm1 by (intros Hq; apply (Hd p); lia). apply Hs. lia.
  - intros p Hp. apply Hk, Hw. lia.
  - exists m'. rewrite E. split; [done|]. split; [|split].
    + intros p Hp. rewrite Hf by lia. apply Hm1. lia.
    + intros p Hp. by apply Hk', Hk.
    + intros j Hj. destruct (decide (j = 0)) as [->|Hne].
      * rewrite !Z.mul_0_r, !Z.add_0_r, Ex. rewrite <- (read_write_same 4 d x m Hx). fold m1. apply read_at_ext. intros p Hp. apply Hf. unfold within in Hp. lia.
      * specialize (Hr (j - 1) ltac:(lia)). replace (d + 4 + 4 * (j - 1)) with (d + 4 * j) in Hr by lia. rewrite Hr. replace (s + 4 + 4 * (j - 1)) with (s + 4 * j) by lia.
        apply read_at_ext. intros p Hp. apply Hm1. intros Hq. unfold within in Hp. apply (Hd p); lia.
Qed.

(** The token id at a position, as a function of the memory. *)
Definition token_at (ids : TensorView) (i : Z) (m : Mem) : Res Z := (ReadTokenId ids i m).1.
(** The width of a token id. *)
Definition id_bytes (ids : TensorView) : Z :=
  match DataType.equal (v_dtype ids) (DataType.Int 32), DataType.equal (v_dtype ids) (DataType.UInt 32) with Ret false, Ret false => 8 | _, _ => 4 end.

Lemma ReadTokenId_pure ids i m : (ReadTokenId ids i m).2 = m.
Proof.
  unfold ReadTokenId, mbind, exec_mbind, exec_bind, lift, peek. repeat (case_match; simplify_eq; try done).
Qed.

Lemma token_at_ext ids i m m' : (exists n, DataType.lanes (v_dtype ids) = Ret n) ->
  (forall p, region (v_data ids + i * id_bytes ids) (id_bytes ids) p -> m !! p = m' !! p) -> token_at ids i m = token_at ids i m'.
Proof.
  intros [n Hn] H. unfold token_at, ReadTokenId, mbind, exec_mbind, exec_bind, lift, peek, id_bytes, region in *.
  destruct (equal_scalar_total _ _ sInt32 Hn) as [e1 E1]. change (scalar_dtype sInt32) with (DataType.Int 32) in E1. rewrite E1 in *.
  assert (exists e2, DataType.equal (v_dtype ids) (DataType.UInt 32) = Ret e2) as [e2 E2] by (eapply (equal_total _ _ n); [done|vm_compute; reflexivity]). rewrite E2 in *.
  destruct e1; [|destruct e2]; rewrite (read_at_ext _ _ m m') by (intros p Hp; apply H; unfold within in Hp; lia); by destruct (read_at _ _ m').
Qed.
Lemma token_at_total ids i m : (exists n, DataType.lanes (v_dtype ids) = Ret n) ->
  (forall p, region (v_data ids + i * id_bytes ids) (id_bytes ids) p -> is_Some (m !! p)) -> exists id, ReadTokenId ids i m = (Ret id, m).
Proof.
  intros [n Hn] H. unfold ReadTokenId, mbind, exec_mbind, exec_bind, lift, peek, id_bytes, region in *.
  destruct (equal_scalar_total _ _ sInt32 Hn) as [e1 E1]. change (scalar_dtype sInt32) with (DataType.Int 32) in E1. rewrite E1 in *.
  assert (exists e2, DataType.equal (v_dtype ids) (DataType.UInt 32) = Ret e2) as [e2 E2] by (eapply (equal_total _ _ n); [done|vm_compute; reflexivity]). rewrite E2 in *.
  destruct e1; [|destruct e2].
  - destruct (read_at_some 4 (v_data ids + i * 4) m) as [x ->]; [intros p Hp; apply H; unfold within in Hp; lia|eauto].
  - destruct (read_at_some 4 (v_data ids + i * 4) m) as [x ->]; [intros p Hp; apply H; unfold within in Hp; lia|eauto].
  - destruct (read_at_some 8 (v_data ids + i * 8) m) as [x ->]; [intros p Hp; apply H; unfold within in Hp; lia|eauto].
Qed.

Section Gather.
Context (ids : TensorView) (w o V H N : Z) (m0 : Mem) (Hlanes : exists n, DataType.lanes (v_dtype ids) = Ret n).
Context (HV : 0 < V) (HH : 0 < H) (Hvh : V * H < 2 ^ 64) (Hnh : N * H < 2 ^ 64).
Context (Mids : forall p, region (v_data ids) (N * id_bytes ids) p -> is_Some (m0 !! p)).
Context (Mw : forall p, region w (V * H * 4) p -> exists b, m0 !! p = Some b /\ 0 <= b < 256).
Context (Dids : forall p, region (v_data ids) (N * id_bytes ids) p -> ~ region o (N * H * 4) p) (Dw : forall p, region w (V * H * 4) p -> ~ region o (N * H * 4) p).

Lemma id_bytes_pos : 4 <= id_bytes ids <= 8.
Proof using. unfold id_bytes. repeat case_match; lia. Qed.

(** The row of the output for token [i] is the row of the table its id selects. *)
Definition gathered (m' : Mem) (i : Z) : Prop :=
  exists id, token_at ids i m0 = Ret id /\ 0 <= id < V /\ forall j, 0 <= j < H -> read_at 4 (o + (i * H + j) * 4) m' = read_at 4 (w + (id * H + j) * 4) m0.

Lemma gather_spec n : forall i m, 0 <= i -> i + Z.of_nat n = N -> (forall p, ~ region o (N * H * 4) p -> m !! p = m0 !! p) -> (forall p, region o (N * H * 4) p -> is_Some (m !! p)) ->
  let '(r, m') := gather n i ids V H w o m in
  (forall p, ~ region (o + i * H * 4) (Z.of_nat n * H * 4) p -> m' !! p = m !! p) /\
  match r with
  | Ret _ => forall k, i <= k < N -> gathered m' k
  | Fail e => code e = StatusCode.kOutOfRange /\ exists k id, i <= k < N /\ token_at ids k m0 = Ret id /\ ~ (0 <= id < V)
  | Panic _ => False
  end.
Proof using All.
  pose proof id_bytes_pos as Hid. induction n as [|n IH]; intros i m Hi Hn Hsame Hmap; cbn [gather].
  { split; [done|]. intros k Hk. lia. }
  assert (forall p, region (v_data ids + i * id_bytes ids) (id_bytes ids) p -> m !! p = m0 !! p /\ region (v_data ids) (N * id_bytes ids) p) as Htok.
  { intros p Hp. assert (region (v_data ids) (N * id_bytes ids) p) as Hr by (unfold region in *; nia). split; [|done]. apply Hsame. by apply Dids. }
  destruct (token_at_total ids i m Hlanes) as [id Eid]; [intros p Hp; destruct (Htok p Hp) as [-> ?]; by apply Mids|].
  assert (token_at ids i m0 = Ret id) as Hid0.
  { rewrite <- (token_at_ext ids i m m0 Hlanes (fun p Hp => proj1 (Htok p Hp))). unfold token_at. by rewrite Eid. }
  unfold mbind, exec_mbind, exec_bind. rewrite Eid. unfold lift at 1. destruct ((id <? 0) || (V <=? id)) eqn:Eb; cbn [reject_if].
  { split; [done|]. split; [done|]. exists i, id. split_and!; [lia|lia|done|]. intros Hc. rewrite (proj2 (Z.ltb_ge _ _)), (proj2 (Z.leb_gt _ _)) in Eb by lia. done. }
  apply orb_false_iff in Eb as [E1 E2]. bsplit. rewrite (wrap_small 64 (id * H)), (wrap_small 64 (i * H)) by (unfold in_u; nia).
  destruct (copy_floats_spec (Z.to_nat H) (w + id * H * 4) (o + i * H * 4) m) as (m1 & Ec & Hf1 & Hk1 & Hr1); rewrite ?Z2Nat.id by lia.
  - intros p Hp Hq. apply (Dw p); unfold region in *; nia.
  - intros p Hp. assert (region w (V * H * 4) p) as Hr by (unfold region in *; nia). rewrite Hsame by (by apply Dw). by apply Mw.
  - intros p Hp. apply Hmap. unfold region in *. nia.
  - rewrite Z2Nat.id in * by lia. rewrite Ec. assert (forall p, region (o + i * H * 4) (4 * H) p -> region o (N * H * 4) p) as Hrow by (intros p Hp; unfold region in *; nia).
    specialize (IH (i + 1) m1 ltac:(lia) ltac:(lia)). destruct (gather n (i + 1) ids V H w o m1) as [r m'].
    destruct IH as [Hf IH]; [intros p Hp; rewrite Hf1 by (intros Hq; by apply Hp, Hrow); by apply Hsame|intros p Hp; by apply Hk1, Hmap|]. split.
    + intros p Hp. rewrite Hf by (unfold region in *; nia). apply Hf1. unfold region in *. nia.
    + destruct r as [[]|e|x]; [| |done].
      * intros k Hk. destruct (decide (k = i)) as [->|Hne]; [|apply IH; lia]. exists id. split; [done|]. split; [lia|]. intros j Hj.
        replace (o + (i * H + j) * 4) with (o + i * H * 4 + 4 * j) by lia. rewrite (read_at_ext 4 _ m' m1) by (intros p Hp; apply Hf; unfold region, within in *; nia).
        rewrite (Hr1 j Hj). replace (w + id * H * 4 + 4 * j) with (w + (id * H + j) * 4) by lia. apply read_at_ext. intros p Hp. apply Hsame, Dw. unfold region, within in *. nia.
      * destruct IH as [Hc (k & id' & Hk & ?)]. split; [done|]. exists k, id'. split; [lia|done].
Qed.
End Gather.

Lemma contiguous_small v : v_is_valid v = Ret true -> view_range v -> product (v_shape v) <= INT64_MAX -> (v_rank v = 1 \/ v_rank v = 2) -> exists b, v_is_contiguous v = Ret b.
Proof.
  intros Hv [_ Hi] Hb Hr. unfold v_is_contiguous. rewrite Hv. cbn [am_check mbind res_mbind res_bind]. destruct (valid_view v Hv) as (Hl & Hn & _). unfold IsContiguous, v_rank, zlen in *.
  destruct (v_shape v) as [|a [|b [|]]], (v_strides v) as [|s [|s' [|]]]; try discriminate; try (cbn in Hr; lia); cbn in Hb |- *; inversion Hn; subst; inversion Hi; subst.
  - repeat (case_match; try (eexists; reflexivity)). rewrite (proj2 (mul_i64_or_ret _ _ _ (1 * a))) by (split; [done|unfold in_i in *; lia]). eexists. reflexivity.
  - inversion H2; subst. inversion H4; subst. unfold INT64_MAX, in_i in *. destruct (Z.eqb_spec b 1) as [->|].
    + destruct (a =? 1); [eauto|]. destruct (negb _); [eauto|]. rewrite (proj2 (mul_i64_or_ret _ _ _ (1 * a))) by (split; [done|unfold in_i in *; lia]). eexists. reflexivity.
    + destruct (negb _); [eauto|]. rewrite (proj2 (mul_i64_or_ret _ _ _ (1 * b))) by (split; [done|unfold in_i in *; lia]). cbn [mbind res_mbind res_bind].
      destruct (a =? 1); [eauto|]. destruct (negb _); [eauto|]. rewrite (proj2 (mul_i64_or_ret _ _ _ (1 * b * a))) by (split; [done|unfold in_i in *; lia]). eexists. reflexivity.
Qed.
Lemma numel_single v a : v_is_valid v = Ret true -> view_range v -> v_shape v = [a] -> v_numel v = Ret a.
Proof.
  intros Hv [_ Hi] E. unfold v_numel, ComputeNumel. rewrite Hv. cbn [am_check mbind res_mbind res_bind]. destruct (valid_view v Hv) as (_ & Hn & _).
  destruct (safe_multiply_spec _ Hn Hi) as [(p & _ & k & Hk)|[-> _]]; rewrite E in *; inversion Hn; subst; inversion Hi; subst; unfold in_i in *.
  - exfalso. destruct k as [|k]; cbn in Hk; [lia|]. rewrite take_nil in Hk. cbn in Hk. lia.
  - cbn [product negb andb]. rewrite Z.mul_1_r, (proj2 (Z.leb_le a INT64_MAX)) by (unfold INT64_MAX; lia). done.
Qed.
Lemma require_matrix_ret v n what : require_matrix v n what = Ret tt -> v_rank v = n.
Proof. unfold require_matrix. intros H. res_inv. bsplit. subst. apply all_hold_ret in Hm. apply Forall_cons in Hm as [E _]. injection E as E. by bsplit. Qed.
Lemma require_matrix_checked v n what : v_is_valid v = Ret true -> view_range v -> product (v_shape v) <= INT64_MAX -> n = 1 \/ n = 2 -> sound_check (require_matrix v n what).
Proof.
  intros Hv Hr Hb Hn. unfold require_matrix. check_step ? _1; [|apply sound_check_reject]. unfold all_hold. cbn [mbind res_mbind res_bind]. destruct (Z.eqb_spec (v_rank v) n) as [<-|]; [|done].
  by destruct (contiguous_small v Hv Hr Hb Hn) as [[] ->].
Qed.

(** The sizes a validated call works with. *)
Record embedding_ready (p : EmbeddingParams) (N V H : Z) : Prop := {
  er_ids : v_shape (token_ids p) = [N]; er_weight : v_shape (weight p) = [V; H]; er_out : v_shape (emb_output p) = [N; H];
  er_lanes : exists n, DataType.lanes (v_dtype (token_ids p)) = Ret n; er_positive : 0 < V /\ 0 < H /\ 0 <= N }.

Lemma embedding_outcome p : view_range (token_ids p) -> view_range (weight p) -> view_range (emb_output p) ->
  product (v_shape (token_ids p)) <= INT64_MAX -> product (v_shape (weight p)) <= INT64_MAX -> product (v_shape (emb_output p)) <= INT64_MAX ->
  match embedding_validate p with
  | Ret None => product (v_shape (token_ids p)) = 0
  | Ret (Some (N, V, H)) => embedding_ready p N V H
  | Fail e => code e = StatusCode.kInvalidArgument
  | Panic _ => False
  end.
Proof.
  intros Ri Rw Ro Bi Bw Bo. assert (sound_check (embedding_validate p) /\ forall r, embedding_validate p = Ret r ->
    match r with None => product (v_shape (token_ids p)) = 0 | Some (N, V, H) => embedding_ready p N V H end) as [Hck Hret].
  2: { destruct (embedding_validate p) as [r|e|x]; [|done..]. by apply Hret. }
  split.
  - unfold embedding_validate. check_step [] Vi; [by apply valid_checked|]. check_step [] Vw; [by apply valid_checked|]. check_step [] Vo; [by apply valid_checked|]. apply require_valid_ret in Vi, Vw, Vo.
    destruct (valid_lanes _ Vi) as [ni Hi], (valid_lanes _ Vw) as [nw Hw], (valid_lanes _ Vo) as [no Hno].
    check_step ? _1. { apply (any_equal_checked _ _ ni Hi). repeat constructor; eexists; vm_compute; reflexivity. }
    check_step ? _2. check_step ? _3; [by eapply require_dtype_checked|]. check_step ? _4; [by eapply require_dtype_checked|].
    check_step [] Mi; [apply require_matrix_checked; auto|]. check_step [] Mw; [apply require_matrix_checked; auto|]. check_step [] Mo; [apply require_matrix_checked; auto|].
    apply require_matrix_ret in Mi, Mw, Mo. unfold v_rank, zlen in Mi, Mw, Mo. unfold v_dim.
    destruct (v_shape (token_ids p)) as [|N [|]] eqn:Ei; try (cbn in Mi; lia). destruct (v_shape (weight p)) as [|V [|H [|]]] eqn:Ew; try (cbn in Mw; lia).
    destruct (v_shape (emb_output p)) as [|N' [|H' [|]]] eqn:Eo; try (cbn in Mo; lia). rewrite (numel_single _ _ Vi Ri Ei). cbn [mbind res_mbind res_bind vec_at lookup list_lookup].
    check_step ? _5. check_step ? _6. destruct (N =? 0); [done|]. check_step ? _7. check_step ? _8. check_step ? _9. check_step ? _10. by check_step ? _11.
  - intros r Hr. unfold embedding_validate in Hr. apply res_bind_ret_inv in Hr as ([] & Vi & Hr). apply res_bind_ret_inv in Hr as ([] & _ & Hr). apply res_bind_ret_inv in Hr as ([] & _ & Hr).
    apply require_valid_ret in Vi. do 4 (apply res_bind_ret_inv in Hr as (? & _ & Hr)). apply res_bind_ret_inv in Hr as ([] & Mi & Hr). apply res_bind_ret_inv in Hr as ([] & Mw & Hr).
    apply res_bind_ret_inv in Hr as ([] & Mo & Hr). apply require_matrix_ret in Mi, Mw, Mo. unfold v_rank, zlen in Mi, Mw, Mo. unfold v_dim in Hr.
    destruct (v_shape (token_ids p)) as [|N [|]] eqn:Ei; try (cbn in Mi; lia). destruct (v_shape (weight p)) as [|V [|H [|]]] eqn:Ew; try (cbn in Mw; lia).
    destruct (v_shape (emb_output p)) as [|N' [|H' [|]]] eqn:Eo; try (cbn in Mo; lia). rewrite (numel_single _ _ Vi Ri Ei) in Hr. cbn [mbind res_mbind res_bind vec_at lookup list_lookup] in Hr.
    apply res_bind_ret_inv in Hr as (? & Hpos & Hr). apply res_bind_ret_inv in Hr as (? & Hsh & Hr). apply reject_if_ret_any in Hpos, Hsh. apply orb_false_iff in Hpos as [P1 P2], Hsh as [S1 S2].
    bsplit. subst. destruct (valid_view _ Vi) as (_ & Hn & _). rewrite Ei in Hn. inversion Hn; subst. destruct (Z.eqb_spec N 0) as [->|Hne]; [injection Hr as <-; cbn; lia|].
    do 5 (apply res_bind_ret_inv in Hr as (? & _ & Hr)). injection Hr as <-. constructor; [done..|by eapply valid_lanes|lia].
Qed.

(** C25: The embedding kernel, on every outcome. Whatever the token ids, it accesses no memory
    outside its views. An invalid argument changes nothing. On success every id was inside
    the vocabulary and every row of the output is, bit for bit, the row of the table its id
    selects, with all memory outside the output unchanged. [OutOfRange] is reported only
    when some id is outside the vocabulary, and then only the output was written. *)
Theorem EmbeddingKernel_exact p m :
  let ids := token_ids p in let w := weight p in let out := emb_output p in
  let ids_region := region (v_data ids) (product (v_shape ids) * id_bytes ids) in
  let weight_region := region (v_data w) (product (v_shape w) * 4) in
  let out_region := region (v_data out) (product (v_shape out) * 4) in
  view_range ids -> view_range w -> view_range out ->
  product (v_shape ids) <= INT64_MAX -> product (v_shape w) <= INT64_MAX -> product (v_shape out) <= INT64_MAX ->
  (forall q, ids_region q -> is_Some (m !! q) /\ ~ out_region q) -> (forall q, weight_region q -> (exists b, m !! q = Some b /\ 0 <= b < 256) /\ ~ out_region q) ->
  (forall q, out_region q -> is_Some (m !! q)) ->
  match EmbeddingKernel (Some p) m with
  | (Ret _, m') =>
      (product (v_shape ids) = 0 /\ m' = m) \/
      exists N V H, v_shape ids = [N] /\ v_shape w = [V; H] /\ v_shape out = [N; H] /\ (forall q, ~ out_region q -> m' !! q = m !! q) /\
        forall i, 0 <= i < N -> exists id, token_at ids i m = Ret id /\ 0 <= id < V /\
          forall j, 0 <= j < H -> read_at 4 (v_data out + (i * H + j) * 4) m' = read_at 4 (v_data w + (id * H + j) * 4) m
  | (Fail e, m') =>
      (code e = StatusCode.kInvalidArgument /\ m' = m) \/
      (code e = StatusCode.kOutOfRange /\ (forall q, ~ out_region q -> m' !! q = m !! q) /\
       exists N V H i id, v_shape ids = [N] /\ v_shape w = [V; H] /\ 0 <= i < N /\ token_at ids i m = Ret id /\ ~ (0 <= id < V))
  | (Panic _, _) => False
  end.
Proof.
  intros ids w out ids_region weight_region out_region Ri Rw Ro Bi Bw Bo Mi Mw Mo. unfold EmbeddingKernel, mbind, exec_mbind, exec_bind, lift.
  pose proof (embedding_outcome p Ri Rw Ro Bi Bw Bo) as Hv. destruct (embedding_validate p) as [[[[N V] H]|]|e|x]; [|by left|by left|done].
  destruct Hv as [Ei Ew Eo Hl (HV & HH & HN)]. unfold ids_region, weight_region, out_region in *. subst ids w out. rewrite Ei, Ew, Eo in *. cbn [product] in *. rewrite !Z.mul_1_r in *.
  pose proof (gather_spec (token_ids p) (v_data (weight p)) (v_data (emb_output p)) V H N m Hl HV HH ltac:(unfold INT64_MAX in *; lia) ltac:(unfold INT64_MAX in *; lia)
    (fun q Hq => proj1 (Mi q Hq)) (fun q Hq => proj1 (Mw q Hq)) (fun q Hq => proj2 (Mi q Hq)) (fun q Hq => proj2 (Mw q Hq)) (Z.to_nat N) 0 m ltac:(lia) ltac:(lia) (fun q _ => eq_refl) Mo) as Hg.
  rewrite Z2Nat.id in Hg by lia. rewrite Z.mul_0_l, Z.add_0_r in Hg. destruct (gather _ _ _ _ _ _ _ m) as [[[]|e|x] m']; destruct Hg as [Hf Hg]; [| |done].
  - right. exists N, V, H. split_and!; done.
  - right. destruct Hg as [Hc (k & id & Hk & Hid & Hno)]. split; [done|]. split; [done|]. by exists N, V, H, k, id.
Qed.

(** ** Examples *)

(** [x += y] on two [int32] vectors of which the second is a single element: [5; 7] at
    address 100, [10] at address 200. *)
Definition bytes_at (a : Z) (n : nat) (xs : list Z) (m : Mem) : Mem := write_bytes a (xs ≫= le_units n 256) m.
Definition pair_view : TensorView := mkTensorView 100 (scalar_dtype sInt32) [2] [1] 4.
Definition single_view : TensorView := mkTensorView 200 (scalar_dtype sInt32) [1] [1] 4.
Definition pair_memory : Mem := bytes_at 100 4 [5; 7] (bytes_at 200 4 [10] ∅).

Example add_in_place : let '(r, m') := @AddKernel no_floats (Some (mkAddParams pair_view single_view pair_view)) pair_memory in
  (r, read_at 4 100 m', read_at 4 104 m', read_at 4 200 m') = (Ret tt, Some 15, Some 17, Some 10).
Proof. vm_compute. reflexivity. Qed.

Lemma view_range_ok v : DataType.wf (v_dtype v) -> forallb (fun d => bool_decide (in_i 64 d)) (v_shape v) = true -> view_range v.
Proof. intros Hw Hs. constructor; [done|]. apply Forall_forall. intros d Hd. rewrite List.forallb_forall in Hs. apply list_elem_of_In, Hs, bool_decide_eq_true in Hd. exact Hd. Qed.
Lemma int32_wf : DataType.wf (DataType.Int 32).
Proof. split; [vm_compute; reflexivity|]. split; unfold in_u; cbn; lia. Qed.
Lemma float32_wf : DataType.wf DataType.Float32.
Proof. split; [vm_compute; reflexivity|]. split; unfold in_u; cbn; lia. Qed.
Lemma pair_int32 t : view_typed t pair_view -> t = sInt32.
Proof. destruct t; vm_compute; congruence. Qed.
Lemma index_of_one idx : in_shape idx [1] -> idx = [0].
Proof. intros H. inversion H as [|i ? ? ? Hi Hr]; subst. inversion Hr; subst. f_equal. lia. Qed.
Lemma index_of_two idx : in_shape idx [2] -> idx = [0] \/ idx = [1].
Proof. intros H. inversion H as [|i ? ? ? Hi Hr]; subst. inversion Hr; subst. assert (i = 0 \/ i = 1) as [-> | ->] by lia; auto. Qed.

Lemma pair_kernel_memory : kernel_memory sInt32 pair_view single_view pair_view pair_memory.
Proof.
  constructor.
  - intros idx H. destruct (index_of_two _ H) as [-> | ->]; vm_compute; eauto.
  - intros idx H. rewrite (index_of_one _ H). vm_compute. eauto.
  - intros idx H. destruct (index_of_two _ H) as [-> | ->]; vm_compute; eauto.
  - intros idx idx' H H' Hne. unfold apart. destruct (index_of_two _ H) as [-> | ->], (index_of_two _ H') as [-> | ->]; try done; vm_compute; intuition congruence.
  - intros idx idx' H H' Hlt. unfold apart. destruct (index_of_two _ H) as [-> | ->], (index_of_two _ H') as [-> | ->]; try (vm_compute in Hlt; discriminate). vm_compute. intuition congruence.
Qed.

Lemma AddKernel_exact_witness : exists m', @AddKernel no_floats (Some (mkAddParams pair_view single_view pair_view)) pair_memory = (Ret tt, m') /\
  (forall idx, in_shape idx [2] -> exists a y, read_at 4 (elem sInt32 pair_view idx) pair_memory = Some a /\ @AddScalar no_floats sInt32 a 10 = Ret y /\ read_at 4 (elem sInt32 pair_view idx) m' = Some y) /\
  m' !! 200 = pair_memory !! 200.
Proof.
  pose proof (@AddKernel_exact no_floats pair_view single_view pair_view pair_memory) as H.
  specialize (H (view_range_ok pair_view int32_wf eq_refl) (view_range_ok single_view int32_wf eq_refl) (view_range_ok pair_view int32_wf eq_refl)).
  specialize (H ltac:(intros t Ht; rewrite (pair_int32 t Ht); exact pair_kernel_memory)).
  assert ((@AddKernel no_floats (Some (mkAddParams pair_view single_view pair_view)) pair_memory).1 = Ret tt) as Hr by (vm_compute; reflexivity).
  destruct (AddKernel _ _) as [r m']. cbn in Hr. subst r. exists m'. split; [done|]. destruct H as [[Hz _]|(t & Ht & _ & _ & Hel & Hfr)]; [discriminate|].
  rewrite (pair_int32 t Ht) in *. split.
  - intros idx Hi. destruct (Hel idx Hi) as (a & b & y & Ha & Hb & Hy & Ho). assert (src pair_view pair_view idx = idx) as Es.
    { destruct (index_of_two _ Hi) as [-> | ->]; reflexivity. }
    assert (src single_view pair_view idx = [0]) as Es'. { destruct (index_of_two _ Hi) as [-> | ->]; reflexivity. }
    rewrite Es in Ha. rewrite Es' in Hb. assert (b = 10) as -> by (vm_compute in Hb; congruence). exists a, y. split_and!; done.
  - apply Hfr. intros idx Hi. destruct (index_of_two _ Hi) as [-> | ->]; vm_compute; intuition congruence.
Defined.

(** The ids [2; 0] looked up in a table of three rows of two floats. *)
Definition id_view : TensorView := mkTensorView 100 (DataType.Int 32) [2] [1] 4.
Definition table_view : TensorView := mkTensorView 200 DataType.Float32 [3; 2] [2; 1] 4.
Definition rows_view : TensorView := mkTensorView 300 DataType.Float32 [2; 2] [2; 1] 4.
Definition table_memory (ids : list Z) : Mem := bytes_at 100 4 ids (bytes_at 200 4 [11; 12; 21; 22; 31; 32] (bytes_at 300 4 [0; 0; 0; 0] ∅)).
Definition lookup_rows : EmbeddingParams := mkEmbedding id_view table_view rows_view.

Example gather_rows : let '(r, m') := EmbeddingKernel (Some lookup_rows) (table_memory [2; 0]) in
  (r, (fun i => read_at 4 (300 + 4 * i) m') <$> [0; 1; 2; 3]) = (Ret tt, [Some 31; Some 32; Some 11; Some 12]).
Proof. vm_compute. reflexivity. Qed.
(** An id outside the vocabulary is reported after the rows before it were written. *)
Example gather_stops : let '(r, m') := EmbeddingKernel (Some lookup_rows) (table_memory [1; 3]) in
  (r, (fun i => read_at 4 (300 + 4 * i) m') <$> [0; 1; 2; 3]) =
  (Fail (OutOfRange "EmbeddingKernel token id is out of vocabulary range"), [Some 21; Some 22; Some 0; Some 0]).
Proof. vm_compute. reflexivity. Qed.

(** Membership in a small region, by enumeration. *)
Lemma region_all a n (P : Z -> bool) : 0 <= n -> forallb P (seqZ a n) = true -> forall q, region a n q -> P q = true.
Proof. intros Hn Ha q Hq. rewrite List.forallb_forall in Ha. apply Ha, list_elem_of_In, elem_of_seqZ. exact Hq. Qed.

Lemma EmbeddingKernel_exact_witness : exists m', EmbeddingKernel (Some lookup_rows) (table_memory [2; 0]) = (Ret tt, m') /\
  forall i, 0 <= i < 2 -> exists id, token_at id_view i (table_memory [2; 0]) = Ret id /\ 0 <= id < 3 /\
    forall j, 0 <= j < 2 -> read_at 4 (300 + (i * 2 + j) * 4) m' = read_at 4 (200 + (id * 2 + j) * 4) (table_memory [2; 0]).
Proof.
  pose proof (EmbeddingKernel_exact lookup_rows (table_memory [2; 0])) as H. cbv zeta in H.
  specialize (H (view_range_ok id_view int32_wf eq_refl) (view_range_ok table_view float32_wf eq_refl) (view_range_ok rows_view float32_wf eq_refl)).
  specialize (H ltac:(vm_compute; discriminate) ltac:(vm_compute; discriminate) ltac:(vm_compute; discriminate)).
  assert (forall q, region 100 8 q -> bool_decide (is_Some (table_memory [2; 0] !! q)) = true) as M1 by (apply region_all; [lia|vm_compute; reflexivity]).
  assert (forall q, region 200 24 q -> match table_memory [2; 0] !! q with Some b => (0 <=? b) && (b <? 256) | None => false end = true) as M2 by (apply region_all; [lia|vm_compute; reflexivity]).
  assert (forall q, region 300 16 q -> bool_decide (is_Some (table_memory [2; 0] !! q)) = true) as M3 by (apply region_all; [lia|vm_compute; reflexivity]).
  specialize (H ltac:(intros q Hq; split; [refine (bool_decide_eq_true_1 _ (M1 q _)); exact Hq|intros Ho; change (region 100 8 q) in Hq; change (region 300 16 q) in Ho; unfold region in *; lia])).
  specialize (H ltac:(intros q Hq; split; [specialize (M2 q Hq); destruct (_ !! q) as [b|]; [exists b; split; [done|bsplit; lia]|discriminate]|intros Ho; change (region 200 24 q) in Hq; change (region 300 16 q) in Ho; unfold region in *; lia])).
  specialize (H ltac:(intros q Hq; refine (bool_decide_eq_true_1 _ (M3 q _)); exact Hq)).
  assert ((EmbeddingKernel (Some lookup_rows) (table_memory [2; 0])).1 = Ret tt) as Hr by (vm_compute; reflexivity).
  destruct (EmbeddingKernel _ _) as [r m']. cbn in Hr. subst r. exists m'. split; [done|]. destruct H as [[Hz _]|(N & V & H & E1 & E2 & E3 & _ & Hg)]; [discriminate|].
  cbn in E1, E2. injection E1 as <-. injection E2 as <- <-. exact Hg.
Defined.

(** The kernel means to reject a table whose element count overflows with an error, but its
    contiguity check runs first and aborts on such a table, whatever ids and output. *)
Definition huge_table : TensorView := mkTensorView 4096 DataType.Float32 [2 ^ 40; 2 ^ 40] [2 ^ 40; 1] 64.

Theorem embedding_overflow_guard_unreached m : v_is_valid huge_table = Ret true /\
  exists why, EmbeddingKernel (Some (mkEmbedding id_view huge_table rows_view)) m = (Panic why, m).
Proof. split; [vm_compute; reflexivity|]. eexists. unfold EmbeddingKernel, mbind, exec_mbind, exec_bind, lift. vm_compute. reflexivity. Qed.
